(* ===== verification/_CoqProject ===== *)
-Q . S2P
Prelude.v
Values.v
Modes.v
Permissions.v
CoreTypes.v
Policy.v
Keys.v
Seal.v
Rocks.v
StoreSpec.v
RocksStore.v
RocksRefine.v
RocksScan.v
StoreTrace.v
ViewStore.v
Utf8.v
Text.v
SideStores.v
SideStoresProps.v
Exec.v
Context.v
Replay.v
Kernel.v
KernelTools.v
KernelInv.v
KernelSafe.v
KernelTrace.v
KernelCalls.v
KernelProps.v
KernelWitness.v
Subagent.v
Billing.v
SpawnHook.v
HostTable.v
HostProps.v
ModelRequest.v
Compaction.v
CompactionProps.v
MemoryTypes.v
MemoryStore.v
MemoryStoreProps.v
MemoryWrite.v
MemoryRecall.v
MemoryProps.v
LoopTypes.v
Steering.v
ToolCache.v
ToolCacheProps.v
Sanitize.v
InputQueue.v
FileSystem.v
Sandbox.v
FsTools.v
FsToolsProps.v
FileEditProps.v
CommandPolicy.v
CommandPolicyProps.v
Hooks.v
HooksProps.v
Plugins.v
PluginsProps.v
Scheduler.v
SchedulerProps.v
TextScrub.v
LoopState.v
ToolPipeline.v
StreamPump.v
StreamPumpProps.v
SseStream.v
SseStreamProps.v
ResponseStream.v
ResponseStreamProps.v
Pairing.v
TurnLoop.v
TurnLoopProps.v
Automaton.v
DevLoop.v
DevLoopProps.v
AutomatonBridge.v
ChatSpec.v
