(* ===== verification/Prelude.v ===== *)
(** * The Aura agent harness

    A verification library for the harness that runs AI agents: what an agent may
    do, the record of what it did, and the loops that drive it.

    ** The program and its parts

    An agent's work is a log of record entries.  The kernel
    ([crates/aura-agent-kernel]) is the only writer of that log: it takes
    transactions, evaluates tool proposals against the policy engine, asks
    a live user or a hook where the policy says so, dispatches approved actions
    to executors ([crates/aura-exec-traits]), calls the model provider, and
    appends an entry for each step, hashed over the window of entries before
    it.  Replay recomputes those hashes.  The store
    ([crates/aura-store-db]) keeps per agent the log, an inbox of transactions,
    a runtime-capability ledger, a status and a processing claim, in a RocksDB
    database whose values may be sealed; beside it live the secrets vault, the
    processes and their runs, and the memories an agent keeps between sessions
    ([crates/aura-context-memory]).  Permissions and modes
    ([crates/aura-core-permissions], [crates/aura-core-modes]) are the algebra
    the policy evaluates; core types ([crates/aura-core-types]) are the
    data all of them share.

    Around the kernel: the scheduler and its worker ([crates/aura-engine]) drain
    an agent's inbox under the store's processing claim, running the agent loop
    once per transaction; the agent loop ([crates/aura-agent]) builds requests,
    streams the model's answer ([crates/aura-model-reasoner]), runs the tools it
    asks for ([crates/aura-tools], inside the workspace sandbox and the command
    policy) and stops on its budgets, with steering
    ([crates/aura-agent-steering]) and compaction ([crates/aura-context-compaction])
    acting on the conversation; the host ([crates/aura-engine/src/agents]) keeps the
    table of long-lived agents with their message queues and turns; automatons
    ([crates/aura-automaton]) work through the tasks of a project, one dev loop per
    project (the bridge, [crates/aura-engine/src/automaton]); subagent derivation
    ([crates/aura-agent-subagent]) decides what a child may do; hooks and plugins
    ([crates/aura-plugin-*]) are programs of the user that are told of events and
    may refuse them.

    ** Files

    - [Prelude]: results, the state-and-error monad [stm], machine integers,
      lists, maps, tactics and hint databases shared by the rest (this file).
      [Values]: what the source takes from outside the repository: bytes, fixed
      arrays, hexadecimal, JSON values, serialisation ([Serde]), digests
      ([Blake3]), with the laws relied on and small instances to run examples.
      [Utf8], [Text]: text as the Standard Library cuts, searches and parses it,
      with lemmas on first occurrences.
    - [Modes], [Permissions], [CoreTypes]: the three core crates.
    - [Policy]: [policy/check/*.rs], [policy/config.rs]: the gate pipeline with
      its provenance trace and session approvals.
    - [Keys], [Seal], [Rocks]: key encoding, the sealing envelope, and the
      database as an interface ([RocksDB], with laws) with an in-memory instance.
    - [StoreSpec]: the traits [ReadStore] and [WriteStore] as the class [Store],
      and the abstract contract [StoreSpec] on per-agent views [AgentView].
    - [RocksStore]: every operation of [rocks_store/mod.rs];
      [RocksRefine], [RocksScan]: it implements [StoreSpec] (instance
      [rocks_store_spec]); [StoreTrace]: refinement for sequences of calls on the
      database from empty, with the exact answers on a healthy one, and exclusivity
      of claims.
    - [ViewStore]: a second implementation, the views themselves in memory, on
      which kernel runs are evaluated.
    - [SideStores], [SideStoresProps]: the vault and the process table.
    - [Exec]: summaries and snapshots, the executor router and the decoding of
      effects.
    - [Context]: errors, the context hash, the log invariant [log_valid], and the
      rules by which kernels hash entries ([HashRule]: [exact_rule], which replay
      recomputes, and [kernel_rule], with the cases the kernel adds to it);
      [Replay]: the replay consumer.
    - [Kernel]: [kernel/{mod,process,reason,stream}.rs]; [KernelTools]:
      [kernel/tools/*.rs] and the two entry points.
    - [KernelInv], [KernelSafe]: rely-guarantee proof that every kernel
      operation preserves [kinv]; [KernelTrace]: the ghost events each operation
      emits; [KernelCalls]: sequences of calls, the records of streamed model calls
      and the closing of their handles included; [KernelProps]: theorems about
      single calls; [KernelWitness]: the theorems applied to a concrete run.
    - [Subagent]: [aura-agent-subagent/src/*.rs] and the request of the [task]
      tool ([aura-tools/src/agents/task.rs]); [Billing]: [billing.rs];
      [SpawnHook]: [spawn_hook.rs], on the [Store] interface.
    - [HostTable]: [agents/host.rs], the table, its calls and the steps of
      concurrent tasks as an inductive relation [host_step]; [HostProps]: its
      invariant, liveness, waiters, replies and lifecycle.
    - [ModelRequest]: messages, requests, their builder and the request contract
      ([types/*.rs]), and the clamping of cache keys.
    - [Compaction], [CompactionProps]: [messages.rs] and [tools.rs] of the
      compaction crate, pressure in binary64 ([SpecFloat]).
    - [MemoryTypes]: facts, events and procedures, who may see them, how they are
      scored and printed; [MemoryStore]: the trait [MemoryStoreApi] and its
      implementation on the database; [MemoryStoreProps]: its contract
      [MemoryStoreSpec] on finite maps and that the store implements it;
      [MemoryWrite]: extraction, refinement and the write pipeline, on the trait;
      [MemoryRecall]: retrieval, consolidation, procedures and the manager;
      [MemoryProps]: what is written, what is retrieved and how much of it.
    - [LoopTypes], [Steering], [ToolCache], [Sanitize], [InputQueue], [TextScrub],
      [LoopState], [ToolPipeline]: the parts of the agent loop: its types,
      steering, the cache of tool results, repair of a transcript, queued input,
      scrubbing of text, the loop's state and requests, and the handling of tool
      calls; [ToolCacheProps]: a cached window is what a read would return.
    - [StreamPump], [StreamPumpProps]: the pump that runs tools while an answer
      streams; [SseStream], [ResponseStream] with their [Props] files: from the
      bytes of a provider to the events and the reassembled message.
    - [Pairing], [TurnLoop], [TurnLoopProps]: turns and tasks, with the pairing of
      tool calls and results.
    - [FileSystem]: Unix paths and file trees as [std::path] and [std::fs] treat
      them; [Sandbox]: the workspace; [FsTools] with [FsToolsProps] and
      [FileEditProps]: the file tools; [CommandPolicy], [CommandPolicyProps]: which
      commands run, and that they end.
    - [Hooks], [HooksProps]: the hook engine; [Plugins], [PluginsProps]: manifests,
      discovery, installation, trust, tool servers and connectors.
    - [Scheduler], [SchedulerProps]: [worker.rs] and [scheduler.rs]; the agent loop
      is the interface [AgentLoop], whose law [AgentLoopOk] says that it reaches
      the store only through kernel calls.
    - [Automaton], [DevLoop], [DevLoopProps]: the runtime of automatons and the dev
      loop; [AutomatonBridge]: the event bus and the bridge from projects;
      [ChatSpec]: the chat and specification automatons.

    ** How code is modelled

    Pure functions are functions; fallible ones return [result]; stateful ones
    are programs in [stm S E], which keep the state on failure.  [u64] is [Z]
    with wrap-around written out ([u64_add]) and the ranges stated where they
    matter: sequence numbers stay below [u64::MAX] as long as the log has room
    ([log_room]).  Floats are [SpecFloat] at their width.  A batch write is one
    step, as RocksDB makes it.  So is a call of the store; [enqueue_tx], which takes
    no lock between its read and its write, is also given as its two steps, where two
    of them lose a transaction.  Stopping a dev loop is one step too, where the source
    waits between stopping the handle and removing it.

    A response stream is the finite list of the events it yields; one that yields
    nothing but keep-alives for ever, which the pump's timeout does not end, is the
    outcome [Pump_Open], and what needs streams to end says so ([streams_end]).  The
    loops of a turn count a sampling request with its retries.  A process that has
    exited has its pipes' contents, or none when something it left behind keeps them
    open, and then the call does not return.  A file tree has directories, files and
    symbolic links; two names of one file are not representable.

    The kernel's state [KState] is the store, the policy's session approvals,
    the sequence counter, the state [E] of everything outside (class [World]:
    clock, identifiers, provider, executors, prompter, hooks, file system) and
    a ghost list of events (entry appended, action dispatched).  Other tasks
    share the store: [sync] lets them act before every store access and at every
    await, and the proofs rely only on [world_ok] (they extend the agent's log
    validly, leave its inbox head alone, and append boundedly often).  A timed
    out call is modelled as one whose answer is lost.  The concurrent executions
    of a batch run one after the other; what they do to the outside is
    arbitrary.  The calls of the memory manager run one at a time.

    Loops of the source are structural recursions where the data bounds them.  The
    others take fuel, and the bounds are enough: sixteen retries of a system record
    and eleven drained transactions are the code's own bounds; a task takes at most
    [max_turns + 1] turns and a turn [max_iterations + 1] requests; the drains of a
    stream take the length of the buffer; a path walk follows at most forty links;
    [create_dir_all] takes the number of components; the words of a text take its
    length plus one; the wait for a command takes
    [timeout / 10 + 2] polls and the wait for a hook [timeout / 25 + 2]
    ([hook_wait_ends]); a dev loop takes one tick per task plus two, with the theorem
    that it ends within them.  The walk up the parent chain has a theorem
    that some number of steps suffices on every store; the worker's drain loop and
    the poll for a claim, which other tasks can keep busy for ever, have instead the
    theorem that a worker still running after [n] turns has consumed [n]
    transactions.  The redaction loop of compaction is defined by well-founded
    recursion.

    Third-party code is a parameter with the laws relied on: the database
    ([RocksDB]), serialisation, digests, the sealing cipher, cron expressions, the
    calendar, the platform's mathematical functions, TOML manifests, and the
    processes hooks and commands start.  Model request and response types are
    parameters of the kernel with the fields it records.

    ** What is shown

    - Policy: a call is allowed exactly when all hard gates pass and its
      effective state allows it; hard denials are final; tightening the mode
      never allows more; the recorded provenance ends with the deciding rule.
    - Permissions: containment is a preorder; narrowing is within both bundles
      exactly when their scopes are compatible, and escapes them when they are
      disjoint.
    - Store: it refines the abstract views, for single calls and for sequences;
      appends are atomic and gapless, the inbox is FIFO, scans return windows;
      two unlocked enqueues can lose a transaction.  Keys and envelopes round
      trip; a process keeps its newest runs.
    - Kernel: any sequence of calls keeps the log append-only, gapless and hashed
      by the kernel's rules; no action is dispatched without a persisted approving
      decision; tool calls and batches leave exactly their linked entries; live
      questions are answered only by the hook or the user; a dequeued
      transaction is consumed with its record; replay accepts what the kernel
      wrote, apart from records of streamed calls, system records under another
      window than fifty and spawn entries, for which it is shown to fail.
    - Scheduler: the worker consumes the inbox in order and records what it
      consumes; a successful run reports exactly what it consumed; the claim is
      given back on every path.
    - Agent loop: a task ends within its budgets if its streams end, its transcript
      pairs every tool call with one result, every request starts with the user and
      pairs calls with results, a stream is reassembled whatever its chunks, and a
      retried request leaves no trace.
    - Tools: edits, deletions and writes stay inside the workspace, an edit replaces
      one place, only admitted programs are launched, a script only where the shell is
      granted, and commands end if their pipes close; a window read from the cache is
      what a read returns.
    - Hooks and plugins: the decision of an event is the reference decision of its
      handlers, which never see secrets; what is loaded comes from enabled and
      trusted plugins, servers are started as their manifests say; the active version
      reads back.
    - Memory: the store implements its contract, failing calls and the agent whose
      keys have no end included; partitions of different projects
      and users do not meet unless the digest collides; what is retrieved is active,
      not sensitive, safe and within the budget; extraction writes no fact that
      reads as a secret or an injection; capacity is enforced, evicting no more than
      asked and what scores least.
    - Host: in every reachable state, under any interleaving, an agent runs at
      most one turn, a queued message gets started, every waiter is answered
      once, automatic replies end, and stopping removes exactly a subtree.
    - Automatons: a dev loop ends, marks a task done only after its green build and
      announces its end once; a project has at most one; specifications are
      replaced only after the new ones have been parsed.
    - Subagents: derivation refuses exactly the documented violations, a child is
      confined by its parent, a spawn leaves exactly its two records, the
      billing walk ends.
    - Requests and compaction: validation is the contract; compaction keeps the
      shape of a conversation, folding equals its reference, a summary range is
      accepted when its summary arrives, redaction ends with an object.
    - Where the code loses something: large results in audited-lite mode,
      repeated permanent approvals, streamed reasoning entries and system
      records that do not replay, facts merged twice in one consolidation.

    ** Not modelled

    The HTTP and WebSocket gateway, the terminal user interface, the command line,
    sessions and the workspace endpoints ([aura-runtime], [aura-terminal],
    [aura-surface-cli] but for the loop that drains the inbox), authentication and
    the provider clients' wire formats are input and output around the modelled
    core.  Process isolation is the operating system's.  Prompts, skills and
    configuration files are text and data the core reads; the tools that search
    directories, the messaging tools and spawning through the host are left out.  In
    the store, opening, tuning and migrating the database are left out. *)
From Stdlib Require Import Strings.Byte.
From stdpp Require Export base numbers list strings gmap option.
From stdpp Require Import countable sorting.

(** * Results

    Rust's [Result<A, E>]; [E] comes first so that [result E] is a monad and
    the [?] operator is stdpp's bind. *)
Inductive result (E A : Type) : Type :=
| Ok (a : A)
| Err (e : E).
Arguments Ok {E A} a.
Arguments Err {E A} e.

#[export] Instance result_ret E : MRet (result E) := fun A a => Ok a.
#[export] Instance result_bind E : MBind (result E) := fun A B f m =>
  match m with Ok a => f a | Err e => Err e end.
#[export] Instance result_fmap E : FMap (result E) := fun A B f m =>
  match m with Ok a => Ok (f a) | Err e => Err e end.
#[export] Instance result_eq_dec `{EqDecision E, EqDecision A} : EqDecision (result E A).
Proof. solve_decision. Defined.

(** [Result::map_err]. *)
Definition map_err {E F A} (f : E -> F) (m : result E A) : result F A :=
  match m with Ok a => Ok a | Err e => Err (f e) end.

(** [Result::err]. *)
Definition result_err {E A} (m : result E A) : option E :=
  match m with Ok _ => None | Err e => Some e end.

Definition is_ok {E A} (m : result E A) : bool :=
  match m with Ok _ => true | Err _ => false end.

(** [Option::ok_or]. *)
Definition ok_or {E A} (e : E) (o : option A) : result E A :=
  match o with Some a => Ok a | None => Err e end.

Lemma result_bind_Ok {E A B} (m : result E A) (f : A -> result E B) b :
  m ≫= f = Ok b -> exists a, m = Ok a /\ f a = Ok b.
Proof. destruct m as [a|e]; simpl; [eauto|discriminate]. Qed.

Lemma map_err_Ok {E F A} (f : E -> F) (m : result E A) a :
  map_err f m = Ok a -> m = Ok a.
Proof. destruct m; simpl; congruence. Qed.

(** * Stateful fallible computations

    A method [fn f(&self, ..) -> Result<A, E>] of a component with interior
    state [S]: the state is threaded, and survives an error. *)
Definition stm (S E A : Type) : Type := S -> result E A * S.

#[export] Instance stm_ret S E : MRet (stm S E) := fun A a s => (Ok a, s).
#[export] Instance stm_bind S E : MBind (stm S E) := fun A B f m s =>
  match m s with
  | (Ok a, s') => f a s'
  | (Err e, s') => (Err e, s')
  end.

(** A result that touches no state, a read of the state, [map_err]. *)
Definition lift {S E A} (r : result E A) : stm S E A := fun s => (r, s).
Definition gets {S E A} (f : S -> A) : stm S E A := fun s => (Ok (f s), s).
Definition reads {S E A} (f : S -> result E A) : stm S E A := fun s => (f s, s).
Definition modify {S E} (f : S -> S) : stm S E unit := fun s => (Ok tt, f s).
Definition fails {S E A} (e : E) : stm S E A := fun s => (Err e, s).
Definition stm_map_err {S E F A} (f : E -> F) (m : stm S E A) : stm S F A :=
  fun s => let '(r, s') := m s in (map_err f r, s').

Lemma stm_bind_Ok {S E A B} (m : stm S E A) (f : A -> stm S E B) s b s' :
  (m ≫= f) s = (Ok b, s') -> exists a s1, m s = (Ok a, s1) /\ f a s1 = (Ok b, s').
Proof. unfold mbind, stm_bind. destruct (m s) as [[a|e] s1]; [eauto|discriminate]. Qed.

Lemma stm_bind_Err {S E A B} (m : stm S E A) (f : A -> stm S E B) s e s' :
  (m ≫= f) s = (Err e, s') ->
  m s = (Err e, s') \/ exists a s1, m s = (Ok a, s1) /\ f a s1 = (Err e, s').
Proof.
  unfold mbind, stm_bind. destruct (m s) as [[a|e'] s1]; [eauto|].
  intros [= <- <-]. by left.
Qed.

Lemma stm_map_err_Ok {S E F A} (f : E -> F) (m : stm S E A) s a s' :
  stm_map_err f m s = (Ok a, s') -> m s = (Ok a, s').
Proof. unfold stm_map_err. destruct (m s) as [[?|?] ?]; simpl; congruence. Qed.

(** * Record update

    [r <| field := v |>] is [r] with one field replaced.  A record type takes part
    by giving its eta-expansion as an instance of [Settable]. *)
Class Settable (R : Type) := settable_eta : R -> R.
Class Setter {R T : Type} (field : R -> T) := set_field : T -> R -> R.
Ltac solve_setter :=
  lazymatch goal with
  | |- @Setter ?R ?T ?f =>
      let v := fresh "v" in
      let x := fresh "x" in
      refine (fun (v : T) (x : R) => _);
      let e := eval hnf in (@settable_eta R _ x) in
      let e := eval pattern (f x) in e in
      lazymatch e with ?g _ => let b := eval cbv beta in (g v) in exact b end
  end.
#[export] Hint Extern 1 (Setter _) => solve_setter : typeclass_instances.
#[global] Arguments set_field {R T} field {_} / _ _.
Notation "r <| f := v |>" := (set_field f v r)
  (at level 1, f at next level, left associativity, format "r  <| f  :=  v |>").

(** Quantifying over the content of an option. *)
Lemma forall_Some {A} (x : A) (P : A -> Prop) : (forall r, Some x = Some r -> P r) <-> P x.
Proof. naive_solver. Qed.
Lemma forall_None {A} (P : A -> Prop) : (forall r, None = Some r -> P r) <-> True.
Proof. naive_solver. Qed.

(** * Machine integers

    A [u64] is a [Z] in [0, 2^64); arithmetic wraps as in a release build. *)
Definition u64_max : Z := 2 ^ 64 - 1.
Definition u32_max : Z := 2 ^ 32 - 1.
Definition u64_wrap (z : Z) : Z := z `mod` 2 ^ 64.
Definition u64_add (a b : Z) : Z := u64_wrap (a + b).
Definition is_u64 (z : Z) : Prop := (0 <= z < 2 ^ 64)%Z.
(** [u64::saturating_sub] and [u32::saturating_add]. *)
Definition saturating_sub (a b : Z) : Z := Z.max 0 (a - b).
Definition u32_saturating_add (a b : Z) : Z := Z.min u32_max (a + b).

Lemma u64_add_small a b : is_u64 (a + b) -> u64_add a b = (a + b)%Z.
Proof. intros H. unfold u64_add, u64_wrap. by apply Z.mod_small. Qed.

(** * Bytes *)
Abbreviation byte := Init.Byte.byte.
Abbreviation bytes := (list byte).

#[export] Instance byte_eq_dec : EqDecision byte := Byte.byte_eq_dec.

Definition byte_to_Z (b : byte) : Z := Z.of_N (Byte.to_N b).
Definition byte_of_Z (z : Z) : byte :=
  match Byte.of_N (Z.to_N (z `mod` 256)) with Some b => b | None => "000"%byte end.

Lemma byte_to_Z_range b : (0 <= byte_to_Z b < 256)%Z.
Proof.
  unfold byte_to_Z. pose proof (Byte.to_N_bounded b). lia.
Qed.

Lemma byte_of_to_Z b : byte_of_Z (byte_to_Z b) = b.
Proof.
  unfold byte_of_Z. rewrite Z.mod_small by apply byte_to_Z_range.
  unfold byte_to_Z. by rewrite N2Z.id, Byte.of_to_N.
Qed.

Lemma byte_to_of_Z z : byte_to_Z (byte_of_Z z) = (z `mod` 256)%Z.
Proof.
  unfold byte_of_Z, byte_to_Z.
  pose proof (Z.mod_pos_bound z 256 ltac:(lia)) as Hr.
  destruct (Byte.of_N (Z.to_N (z `mod` 256))) as [b|] eqn:E.
  - apply Byte.to_of_N in E. rewrite E. lia.
  - apply Byte.of_N_None_iff in E. lia.
Qed.

Lemma byte_to_Z_inj a b : byte_to_Z a = byte_to_Z b -> a = b.
Proof. intros H. by rewrite <-(byte_of_to_Z a), H, byte_of_to_Z. Qed.

#[export] Instance byte_countable : Countable byte.
Proof.
  refine (inj_countable' Byte.to_N
    (fun n => match Byte.of_N n with Some b => b | None => "000"%byte end) _).
  intros b. by rewrite Byte.of_to_N.
Defined.

(** ** Fixed-width arrays [[u8; n]] *)
Record arr (n : nat) := Arr {
  arr_bytes : bytes;
  arr_ok : bool_decide (length arr_bytes = n);
}.
Arguments Arr {n} _ _.
Arguments arr_bytes {n} _.
Arguments arr_ok {n} _.

Lemma arr_length {n} (a : arr n) : length (arr_bytes a) = n.
Proof. exact (bool_decide_unpack _ (arr_ok a)). Qed.

Lemma arr_eq {n} (a b : arr n) : arr_bytes a = arr_bytes b -> a = b.
Proof.
  destruct a as [l Hl], b as [l' Hl']; simpl; intros <-.
  f_equal. apply proof_irrel.
Qed.

#[export] Instance arr_eq_dec n : EqDecision (arr n).
Proof.
  refine (fun a b => match decide (arr_bytes a = arr_bytes b) with
                     | left H => left (arr_eq a b H)
                     | right H => right (fun e => H (f_equal arr_bytes e)) end).
Defined.

(** [<[u8; n]>::try_from(slice)]. *)
Definition arr_try_from (n : nat) (l : bytes) : option (arr n) :=
  match decide (bool_decide (length l = n)) with
  | left H => Some (Arr l H)
  | right _ => None
  end.

Lemma arr_try_from_bytes {n} (a : arr n) : arr_try_from n (arr_bytes a) = Some a.
Proof.
  unfold arr_try_from. destruct (decide _) as [H|H].
  - f_equal. by apply arr_eq.
  - destruct H. apply arr_ok.
Qed.

Lemma arr_try_from_Some n l a : arr_try_from n l = Some a -> arr_bytes a = l.
Proof. unfold arr_try_from. destruct (decide _); naive_solver. Qed.

Lemma arr_try_from_length n l : length l = n -> is_Some (arr_try_from n l).
Proof.
  intros H. unfold arr_try_from. destruct (decide _) as [|H']; [by eexists|].
  destruct H'. by apply bool_decide_pack.
Qed.

#[export] Instance arr_countable n : Countable (arr n).
Proof.
  refine (inj_countable arr_bytes (arr_try_from n) _).
  apply arr_try_from_bytes.
Defined.

(** The array holding [n] copies of one byte, used by the witnesses. *)
Definition arr_fill (n : nat) (b : byte) : arr n :=
  Arr (replicate n b) (bool_decide_pack _ (length_replicate n b)).

(** ** Big-endian integers: [u64::to_be_bytes] and [u64::from_be_bytes] *)
Fixpoint be_split (n : nat) (z : Z) : bytes :=
  match n with
  | O => []
  | S m => be_split m (z `div` 256) ++ [byte_of_Z z]
  end.

Definition be_combine (l : bytes) : Z :=
  foldl (fun acc b => acc * 256 + byte_to_Z b)%Z 0%Z l.

Definition to_be_bytes (z : Z) : bytes := be_split 8 z.
Definition from_be_bytes (l : bytes) : Z := be_combine l.
Arguments to_be_bytes : simpl never.
Arguments from_be_bytes : simpl never.

Lemma be_split_length n z : length (be_split n z) = n.
Proof.
  revert z; induction n as [|n IH]; intros z; simpl; [done|].
  rewrite length_app, IH. simpl. lia.
Qed.

Lemma be_combine_snoc l b : be_combine (l ++ [b]) = (be_combine l * 256 + byte_to_Z b)%Z.
Proof. unfold be_combine. by rewrite foldl_snoc. Qed.

Lemma be_combine_range l : (0 <= be_combine l < 256 ^ Z.of_nat (length l))%Z.
Proof.
  induction l as [|b l IH] using rev_ind; [cbn; lia|].
  rewrite be_combine_snoc, length_app. simpl.
  pose proof (byte_to_Z_range b).
  rewrite Nat2Z.inj_add, Z.pow_add_r by lia. change (256 ^ Z.of_nat 1)%Z with 256%Z. lia.
Qed.

Lemma be_combine_split n z : (0 <= z < 256 ^ Z.of_nat n)%Z -> be_combine (be_split n z) = z.
Proof.
  revert z; induction n as [|n IH]; intros z Hz; simpl.
  - cbn in *. lia.
  - rewrite be_combine_snoc, byte_to_of_Z.
    rewrite Nat2Z.inj_succ, Z.pow_succ_r in Hz by lia.
    rewrite IH; [pose proof (Z.div_mod z 256); lia|].
    split; [apply Z.div_pos; lia|]. apply Z.div_lt_upper_bound; lia.
Qed.

Lemma be_split_combine l : be_split (length l) (be_combine l) = l.
Proof.
  induction l as [|b l IH] using rev_ind; [done|].
  rewrite length_app, Nat.add_comm. simpl. rewrite be_combine_snoc.
  pose proof (byte_to_Z_range b).
  rewrite Z.div_add_l, (Z.div_small (byte_to_Z b)), Z.add_0_r, IH by lia.
  do 2 f_equal. apply byte_to_Z_inj. rewrite byte_to_of_Z.
  rewrite Z.add_comm, Z.mod_add by lia. by apply Z.mod_small.
Qed.

Lemma from_to_be_bytes z : is_u64 z -> from_be_bytes (to_be_bytes z) = z.
Proof.
  intros H. unfold from_be_bytes, to_be_bytes. apply be_combine_split.
  exact H.
Qed.

Lemma to_be_bytes_length z : length (to_be_bytes z) = 8.
Proof. apply be_split_length. Qed.

Lemma to_be_bytes_inj a b : is_u64 a -> is_u64 b -> to_be_bytes a = to_be_bytes b -> a = b.
Proof.
  intros Ha Hb H. by rewrite <-(from_to_be_bytes a), H, from_to_be_bytes.
Qed.

Lemma from_be_bytes_is_u64 l : length l = 8 -> is_u64 (from_be_bytes l).
Proof. intros H. unfold is_u64, from_be_bytes. pose proof (be_combine_range l) as R. by rewrite H in R. Qed.

(** ** The byte-wise comparator of the database *)
Fixpoint lex_lt (a b : bytes) : bool :=
  match a, b with
  | _, [] => false
  | [], _ :: _ => true
  | x :: a', y :: b' =>
      bool_decide (byte_to_Z x < byte_to_Z y)%Z
      || (bool_decide (x = y) && lex_lt a' b')
  end.

Definition lex_le (a b : bytes) : bool := negb (lex_lt b a).

Lemma lex_lt_irrefl a : lex_lt a a = false.
Proof.
  induction a as [|x a IH]; [done|]. simpl. rewrite IH, andb_false_r, orb_false_r.
  apply bool_decide_eq_false_2. lia.
Qed.

Lemma lex_lt_cons x a y b :
  lex_lt (x :: a) (y :: b) = true <->
  (byte_to_Z x < byte_to_Z y)%Z \/ (x = y /\ lex_lt a b = true).
Proof.
  simpl. rewrite orb_true_iff, andb_true_iff, !bool_decide_eq_true. done.
Qed.

Lemma lex_lt_trans a b c : lex_lt a b = true -> lex_lt b c = true -> lex_lt a c = true.
Proof.
  revert b c; induction a as [|x a IH]; intros [|y b] [|z c]; try done.
  rewrite !lex_lt_cons. intros [H|[-> H]] [H'|[-> H']]; eauto; left; lia.
Qed.

Lemma lex_lt_total a b : lex_lt a b = false -> lex_lt b a = false -> a = b.
Proof.
  revert b; induction a as [|x a IH]; intros [|y b]; try done.
  rewrite <-!not_true_iff_false, !lex_lt_cons. intros H1 H2.
  assert (x = y) as ->; [apply byte_to_Z_inj; destruct (Z.lt_total (byte_to_Z x) (byte_to_Z y)) as [|[|]]; naive_solver|].
  f_equal. apply IH; apply not_true_iff_false; naive_solver.
Qed.

Lemma lex_lt_app_l p a b : lex_lt (p ++ a) (p ++ b) = lex_lt a b.
Proof.
  induction p as [|x p IH]; [done|]. simpl. rewrite IH.
  rewrite (bool_decide_eq_false_2 (_ < _)%Z) by lia.
  by rewrite bool_decide_eq_true_2.
Qed.

(** Big-endian bytes are ordered as the integers they encode. *)
Lemma lex_lt_be_combine a b :
  length a = length b -> lex_lt a b = true <-> (be_combine a < be_combine b)%Z.
Proof.
  enough (H : length a = length b -> forall k,
    (lex_lt a b = true <->
     foldl (fun acc c => acc * 256 + byte_to_Z c)%Z k a <
     foldl (fun acc c => acc * 256 + byte_to_Z c)%Z k b)%Z) by (intros L; by apply H).
  assert (shift : forall (l : bytes) k, foldl (fun acc c => acc * 256 + byte_to_Z c)%Z k l
                  = (k * 256 ^ Z.of_nat (length l) + be_combine l)%Z).
  { intros l k. unfold be_combine. revert k. induction l as [|c l IHl] using rev_ind; intros k.
    - cbn. lia.
    - rewrite !foldl_snoc, IHl, length_app. simpl.
      rewrite Nat2Z.inj_add, Z.pow_add_r by lia. change (256 ^ Z.of_nat 1)%Z with 256%Z. lia. }
  revert b; induction a as [|x a IH]; intros [|y b] L k; try done.
  { simpl. split; [done|lia]. }
  rewrite lex_lt_cons. simpl in L. injection L as L. cbn [foldl].
  rewrite !shift. pose proof (be_combine_range a) as Ra. pose proof (be_combine_range b) as Rb.
  specialize (IH b L 0%Z). rewrite !shift in IH. rewrite L in *.
  set (P := (256 ^ Z.of_nat (length b))%Z) in *.
  assert (0 < P)%Z by (apply Z.pow_pos_nonneg; lia).
  split.
  - intros [H'|[-> H']]; [nia|]. apply IH in H'. lia.
  - intros H'. destruct (Z.lt_total (byte_to_Z x) (byte_to_Z y)) as [|[E|]]; [by left| |nia].
    apply byte_to_Z_inj in E as ->. right. split; [done|]. apply IH. lia.
Qed.

Lemma lex_lt_to_be_bytes a b :
  is_u64 a -> is_u64 b -> lex_lt (to_be_bytes a) (to_be_bytes b) = true <-> (a < b)%Z.
Proof.
  intros Ha Hb. rewrite lex_lt_be_combine by by rewrite !to_be_bytes_length.
  pose proof (from_to_be_bytes a Ha) as Ea. pose proof (from_to_be_bytes b Hb) as Eb.
  unfold from_be_bytes in *. by rewrite Ea, Eb.
Qed.

(** Concatenations of equal-length heads compare head first. *)
Lemma lex_lt_app a a' b b' :
  length a = length a' ->
  lex_lt (a ++ b) (a' ++ b') = true <->
  lex_lt a a' = true \/ (a = a' /\ lex_lt b b' = true).
Proof.
  revert a'; induction a as [|x a IH]; intros [|x' a'] L; try done; simpl app.
  - simpl. naive_solver.
  - rewrite !lex_lt_cons, IH by (simpl in L; lia). naive_solver.
Qed.

Lemma lex_lt_asym a b : lex_lt a b = true -> lex_lt b a = false.
Proof.
  intros H1. destruct (lex_lt b a) eqn:H2; [|done].
  pose proof (lex_lt_trans _ _ _ H1 H2) as H. by rewrite lex_lt_irrefl in H.
Qed.

(** * Sorted lists *)

(** Strictly sorted lists with the same elements are equal. *)
Lemma StronglySorted_strict_unique {A} (R : relation A) `{!StrictOrder R} l1 l2 :
  StronglySorted R l1 -> StronglySorted R l2 -> (forall x, x ∈ l1 <-> x ∈ l2) -> l1 = l2.
Proof.
  intros H1. revert l2. induction H1 as [|x l1 H1 IH Hx]; intros l2 H2 Heq.
  { destruct l2 as [|y l2]; [done|]. exfalso. by apply (not_elem_of_nil y), Heq; left. }
  destruct H2 as [|y l2 H2 Hy].
  { exfalso. by apply (not_elem_of_nil x), Heq; left. }
  rewrite Forall_forall in Hx, Hy.
  assert (x = y) as ->.
  { assert (x ∈ y :: l2) as [->|Hin]%elem_of_cons by (by apply Heq; left); [done|].
    assert (y ∈ x :: l1) as [->|Hin']%elem_of_cons by (by apply Heq; left); [done|].
    exfalso. apply (irreflexivity R x). by etrans; [apply Hx|apply Hy]. }
  f_equal. apply IH; [done|]. intros z. split; intros Hz.
  - assert (z ∈ y :: l2) as [->|?]%elem_of_cons by (by apply Heq; right); [|done].
    exfalso. apply (irreflexivity R y). by apply Hx.
  - assert (z ∈ y :: l1) as [->|?]%elem_of_cons by (by apply Heq; right); [|done].
    exfalso. apply (irreflexivity R y). by apply Hy.
Qed.

(** A downward-closed predicate splits a sorted list. *)
Lemma StronglySorted_split {A} (R : relation A) (P : A -> Prop) `{!forall x, Decision (P x)} l :
  StronglySorted R l -> (forall x y, R x y -> P y -> P x) ->
  exists l1 l2, l = l1 ++ l2 /\ Forall P l1 /\ Forall (fun x => ~ P x) l2.
Proof.
  intros Hs HP. induction Hs as [|x l Hs IH Hx]; [by exists [], []|].
  destruct (decide (P x)) as [Hpx|Hpx].
  - destruct IH as (l1 & l2 & -> & ? & ?). exists (x :: l1), l2. by repeat constructor.
  - exists [], (x :: l). split_and!; [done|constructor|]. constructor; [done|].
    rewrite Forall_forall in *. intros y Hy Hpy. apply Hpx. eapply HP; [|done]. by apply Hx.
Qed.

Lemma StronglySorted_app_inv_l {A} (R : relation A) l1 l2 :
  StronglySorted R (l1 ++ l2) -> StronglySorted R l1.
Proof.
  induction l1 as [|x l1 IH]; simpl; intros H; [constructor|]. inversion H as [|? ? H' Hx]; subst.
  constructor; [by apply IH|]. by apply Forall_app in Hx as [? _].
Qed.

(** * Filters that keep all or nothing *)
Lemma filter_none {A} (f : A -> bool) (l : list A) : Forall (fun x => f x = false) l -> List.filter f l = [].
Proof. induction 1 as [|x l Hx _ IH]; cbn; [done|]. by rewrite Hx. Qed.
Lemma filter_all {A} (f : A -> bool) (l : list A) : Forall (fun x => f x = true) l -> List.filter f l = l.
Proof. induction 1 as [|x l Hx _ IH]; cbn; [done|]. by rewrite Hx, IH. Qed.

(** * Gathering lists over a map

    [gather f m] concatenates what [f] gives for each entry of a map; it is
    determined by the entries up to the order. *)
Definition gather `{Countable K} {A B} (f : K * A -> list B) (m : gmap K A) : list B :=
  concat (f <$> map_to_list m).

Section Gather.
Context `{Countable K} {A B : Type} (f : K * A -> list B).

Lemma concat_fmap_Permutation (l l' : list (K * A)) :
  l ≡ₚ l' -> concat (f <$> l) ≡ₚ concat (f <$> l').
Proof.
  induction 1 as [|p l l' _ IH|p q l|l1 l2 l3 _ IH1 _ IH2]; cbn; [done|by rewrite IH| |by rewrite IH1].
  by rewrite !app_assoc, (Permutation_app_comm (f q)).
Qed.

Lemma gather_empty : gather f ∅ = [].
Proof. unfold gather. by rewrite map_to_list_empty. Qed.

Lemma gather_insert_new m k v :
  m !! k = None -> gather f (<[k := v]> m) ≡ₚ f (k, v) ++ gather f m.
Proof. intros Hk. unfold gather. by rewrite (concat_fmap_Permutation _ _ (map_to_list_insert _ _ _ Hk)). Qed.

Lemma gather_lookup m k v :
  m !! k = Some v -> gather f m ≡ₚ f (k, v) ++ gather f (delete k m).
Proof.
  intros Hk. rewrite <-gather_insert_new by apply lookup_delete_eq.
  by rewrite insert_delete_id.
Qed.

Lemma gather_insert m k v :
  gather f (<[k := v]> m) ≡ₚ f (k, v) ++ gather f (delete k m).
Proof.
  rewrite (gather_lookup _ k v) by apply lookup_insert_eq. by rewrite delete_insert_eq.
Qed.

Lemma gather_filter (P : K * A -> bool) m :
  gather f m ≡ₚ concat (f <$> List.filter P (map_to_list m))
                ++ gather f (filter (fun p => P p = false) m).
Proof.
  induction m as [|k v m Hk IH] using map_ind.
  { rewrite map_filter_empty, gather_empty, map_to_list_empty. done. }
  rewrite gather_insert_new by done.
  assert (Hperm : forall l l' : list (K * A), l ≡ₚ l' -> List.filter P l ≡ₚ List.filter P l').
  { induction 1 as [|p l l' _ IHl|p q l|l1 l2 l3 _ IH1 _ IH2]; cbn;
      [done|by destruct (P p); rewrite IHl|destruct (P p), (P q); try done; by constructor|by rewrite IH1]. }
  rewrite (concat_fmap_Permutation _ _ (Hperm _ _ (map_to_list_insert _ _ _ Hk))). cbn.
  destruct (P (k, v)) eqn:Ep; cbn.
  - rewrite map_filter_insert_False, delete_id by (done || congruence).
    rewrite IH. by rewrite app_assoc.
  - rewrite map_filter_insert_True by done.
    rewrite gather_insert_new by (apply map_lookup_filter_None; auto).
    rewrite IH, !app_assoc. apply Permutation_app_tail, Permutation_app_comm.
Qed.

Lemma gather_imap (g : K -> A -> A) m :
  (forall k v, f (k, g k v) = f (k, v)) ->
  gather f (map_imap (fun k v => Some (g k v)) m) ≡ₚ gather f m.
Proof.
  intros Hg. induction m as [|k v m Hk IH] using map_ind; [by rewrite map_imap_empty|].
  rewrite (map_imap_insert_Some _ _ _ _ (g k v)) by done.
  rewrite !gather_insert_new, Hg, IH; [done|done|]. by rewrite map_lookup_imap, Hk.
Qed.

Lemma elem_of_gather m x : x ∈ gather f m <-> exists k v, m !! k = Some v /\ x ∈ f (k, v).
Proof.
  unfold gather. rewrite list_elem_of_In, List.in_concat. setoid_rewrite <-list_elem_of_In.
  setoid_rewrite list_elem_of_fmap. split.
  - intros (l & ([k v] & -> & Hin) & Hx). exists k, v. split; [by apply elem_of_map_to_list|done].
  - intros (k & v & Hk & Hx). exists (f (k, v)). split; [|done]. exists (k, v).
    split; [done|by apply elem_of_map_to_list].
Qed.
End Gather.
