(* ===== verification/Values.v ===== *)
(** Shared value types: text formatting, JSON values, and the interfaces of the
    third-party codecs and digests the program calls ([serde_json], [hex],
    [blake3]).

    Text is [string], the UTF-8 bytes of a Rust [String].  [json] is the public
    enum of [serde_json::Value].  The (de)serialisers and the digest are not
    part of the repository: they are the classes [Serde], [Hex] and [Blake3],
    whose laws ([SerdeOk], [hex_roundtrip], [hex_length], [blake3_parts]) are the documented behaviour the program
    relies on. *)
From S2P Require Import Prelude.
From Stdlib Require Import Ascii String Strings.Byte.
From stdpp Require Import strings list pretty.

Declare Scope rust_scope.
Delimit Scope rust_scope with rust.
Notation "a +++ b" := (String.append a b)
  (at level 60, right associativity) : rust_scope.
Open Scope rust_scope.

(** * Text *)
Definition fmt_Z (z : Z) : string := pretty z.

Fixpoint string_map (f : ascii -> ascii) (s : string) : string :=
  match s with
  | EmptyString => EmptyString
  | String c t => String (f c) (string_map f t)
  end.

(** [u8::to_ascii_lowercase]. *)
Definition ascii_lower (c : ascii) : ascii :=
  let n := Ascii.nat_of_ascii c in
  if bool_decide (65 <= n) && bool_decide (n <= 90) then Ascii.ascii_of_nat (n + 32) else c.

Definition to_ascii_lowercase (s : string) : string := string_map ascii_lower s.

Definition eq_ignore_ascii_case (a b : string) : bool :=
  bool_decide (to_ascii_lowercase a = to_ascii_lowercase b).

Definition string_to_bytes (s : string) : bytes := String.list_byte_of_string s.

(** The [hex] crate: two digits per byte, and what was encoded is decoded
    back. *)
Class Hex := {
  hex_encode : bytes -> string;
  hex_decode : string -> result string bytes;
  hex_roundtrip (b : bytes) : hex_decode (hex_encode b) = Ok b;
  hex_length (b : bytes) : String.length (hex_encode b) = 2 * length b;
}.

(** Lower-case hexadecimal, to run examples with. *)
Definition hex_digit (n : Z) : ascii :=
  Ascii.ascii_of_nat (Z.to_nat (if bool_decide (n < 10)%Z then 48 + n else 87 + n)).
Definition hex_value (c : ascii) : Z :=
  let n := Z.of_nat (Ascii.nat_of_ascii c) in
  if bool_decide (n < 87)%Z then (n - 48)%Z else (n - 87)%Z.
Definition hex_byte (b : byte) (rest : string) : string :=
  String (hex_digit (byte_to_Z b `div` 16)) (String (hex_digit (byte_to_Z b `mod` 16)) rest).
Fixpoint hex_bytes (s : string) : result string bytes :=
  match s with
  | EmptyString => Ok []
  | String a (String b rest) =>
      cons (byte_of_Z (16 * hex_value a + hex_value b)) <$> hex_bytes rest
  | _ => Err "odd length"
  end.
Lemma hex_bytes_encode l : hex_bytes (foldr hex_byte EmptyString l) = Ok l.
Proof.
  induction l as [|b l IH]; [done|]. cbn [foldr hex_byte hex_bytes]. rewrite IH. cbn.
  assert (byte_of_Z (16 * hex_value (hex_digit (byte_to_Z b `div` 16))
            + hex_value (hex_digit (byte_to_Z b `mod` 16))) = b) as ->; [|done].
  by destruct b.
Qed.
Lemma hex_bytes_length l : String.length (foldr hex_byte EmptyString l) = 2 * length l.
Proof. induction l as [|b l IH]; [done|]. cbn. rewrite IH. lia. Qed.
#[local] Instance lower_hex : Hex := {|
  hex_encode := foldr hex_byte EmptyString;
  hex_decode := hex_bytes;
  hex_roundtrip := hex_bytes_encode;
  hex_length := hex_bytes_length;
|}.

(** [<[T]>::split] on one separator character. *)
Fixpoint split_on (sep : ascii) (s : string) : list string :=
  match s with
  | EmptyString => [EmptyString]
  | String c t =>
      if bool_decide (c = sep) then EmptyString :: split_on sep t
      else match split_on sep t with
           | [] => [String c EmptyString]
           | w :: ws => String c w :: ws
           end
  end.

(** [Path::file_name] on a Unix path: the last component that is neither
    empty nor ["."], unless it is [".."]. *)
Definition path_file_name (p : string) : option string :=
  match last (List.filter (fun c => negb (bool_decide (c = "" \/ c = "."))) (split_on "/" p)) with
  | Some c => if bool_decide (c = "..") then None else Some c
  | None => None
  end.

(** [Path::extension]: what follows the last ["."] of the file name, when
    something precedes that dot. *)
Definition path_extension (p : string) : option string :=
  name ← path_file_name p;
  match rev (split_on "." name) with
  | after :: before => if bool_decide (before = [] \/ before = [EmptyString]) then None else Some after
  | [] => None
  end.

Example path_extension_md : path_extension "docs/a.b.MD" = Some "MD".
Proof. reflexivity. Qed.
Example path_extension_none :
  (path_extension "a/b", path_extension ".md", path_extension "x/.md/..", path_extension "a.md/.")
  = (None, None, None, Some "md").
Proof. reflexivity. Qed.

(** * JSON values *)
#[local] Set Warnings "-register-all".
Inductive json :=
| JNull
| JBool (b : bool)
| JNumber (text : string)
| JString (s : string)
| JArray (items : list json)
| JObject (fields : list (string * json)).

#[export] Instance json_eq_dec : EqDecision json.
Proof.
  refine (fix go (v1 v2 : json) {struct v1} : Decision (v1 = v2) :=
    match v1, v2 with
    | JNull, JNull => left eq_refl
    | JBool a, JBool b => cast_if (decide (a = b))
    | JNumber a, JNumber b => cast_if (decide (a = b))
    | JString a, JString b => cast_if (decide (a = b))
    | JArray a, JArray b => cast_if (@list_eq_dec _ go a b)
    | JObject a, JObject b => cast_if (@list_eq_dec _ (@prod_eq_dec _ _ _ go) a b)
    | _, _ => right _
    end); clear go; abstract intuition congruence.
Defined.

(** [Value::as_object], [Value::as_str], [Map::get] and [Value::get]. *)
Definition json_as_object (v : json) : option (list (string * json)) :=
  match v with JObject fs => Some fs | _ => None end.
Definition json_as_str (v : json) : option string :=
  match v with JString s => Some s | _ => None end.
Fixpoint fields_get (k : string) (fs : list (string * json)) : option json :=
  match fs with
  | [] => None
  | (k', v) :: r => if bool_decide (k' = k) then Some v else fields_get k r
  end.
Definition json_get (k : string) (v : json) : option json :=
  fs ← json_as_object v; fields_get k fs.
Definition json_get_str (k : string) (v : json) : option string :=
  json_get k v ≫= json_as_str.

(** [serde_json::Map] is a [BTreeMap]: its fields are kept in the order of their
    keys. *)
Definition fields_remove (k : string) (fs : list (string * json)) : list (string * json) :=
  List.filter (fun p => negb (bool_decide (p.1 = k))) fs.
Fixpoint fields_insert (k : string) (v : json) (fs : list (string * json))
  : list (string * json) :=
  match fs with
  | [] => [(k, v)]
  | (k', v') :: r =>
      match String.compare k k' with
      | Eq => (k, v) :: r
      | Lt => (k, v) :: fs
      | Gt => (k', v') :: fields_insert k v r
      end
  end.

(** [value[k] = v] on an object, and [json!({..})]. *)
Definition json_set (k : string) (v : json) (o : json) : json :=
  match o with JObject fs => JObject (fields_insert k v fs) | _ => o end.
Definition json_object (fs : list (string * json)) : json :=
  JObject (foldl (fun m p => fields_insert p.1 p.2 m) [] fs).

Lemma string_compare_refl s : String.compare s s = Eq.
Proof.
  induction s as [|c s IH]; [done|]. cbn. rewrite IH. unfold Ascii.compare.
  by rewrite N.compare_refl.
Qed.
Lemma fields_get_insert k v fs : fields_get k (fields_insert k v fs) = Some v.
Proof.
  induction fs as [|[k' v'] fs IH]; cbn.
  - by rewrite bool_decide_eq_true_2.
  - destruct (String.compare k k') eqn:Ec; cbn; rewrite ?bool_decide_eq_true_2 by done; [done..|].
    rewrite bool_decide_eq_false_2; [done|]. intros ->.
    by rewrite string_compare_refl in Ec.
Qed.
Lemma fields_get_insert_ne k k' v fs :
  k <> k' -> fields_get k' (fields_insert k v fs) = fields_get k' fs.
Proof.
  intros Hk. induction fs as [|[k1 v1] fs IH]; cbn.
  - by rewrite bool_decide_eq_false_2.
  - destruct (String.compare k k1) eqn:Ec; cbn.
    + apply String.compare_eq_iff in Ec as ->. by rewrite !bool_decide_eq_false_2.
    + by rewrite bool_decide_eq_false_2.
    + by rewrite IH.
Qed.
Lemma fields_get_remove k fs : fields_get k (fields_remove k fs) = None.
Proof.
  induction fs as [|[k' v'] fs IH]; [done|]. unfold fields_remove in *. cbn.
  case_bool_decide; cbn; [done|]. by rewrite bool_decide_eq_false_2.
Qed.
Lemma fields_get_remove_ne k k' fs :
  k <> k' -> fields_get k' (fields_remove k fs) = fields_get k' fs.
Proof.
  intros Hk. induction fs as [|[k1 v1] fs IH]; [done|]. unfold fields_remove in *. cbn.
  case_bool_decide as E1; cbn; rewrite IH; [|done]. by rewrite bool_decide_eq_false_2 by congruence.
Qed.

(** * Serialisation *)
Abbreviation serde_error := string (only parsing).

Class Serde (A : Type) := {
  to_vec : A -> result serde_error bytes;
  from_slice : bytes -> result serde_error A;
}.

(** What was written is read back. *)
Class SerdeOk (A : Type) `{Serde A} : Prop :=
  serde_roundtrip (a : A) (b : bytes) : to_vec a = Ok b -> from_slice b = Ok a.

Lemma to_vec_inj `{SerdeOk A} (a a' : A) b : to_vec a = Ok b -> to_vec a' = Ok b -> a = a'.
Proof. intros H1%serde_roundtrip H2%serde_roundtrip. congruence. Qed.

(** A codec over a finite table of values: the [i]-th value is the one byte
    [i]; it shows that the laws above can hold. *)
Definition table_to_vec {A} `{EqDecision A} (table : list A) (a : A) : result serde_error bytes :=
  match list_find (fun x => x = a) table with
  | Some (i, _) => if bool_decide (i < 256) then Ok [byte_of_Z (Z.of_nat i)] else Err "too many"
  | None => Err "unknown value"
  end.
Definition table_from_slice {A} (table : list A) (b : bytes) : result serde_error A :=
  match b with
  | [x] => ok_or "out of range" (table !! Z.to_nat (byte_to_Z x))
  | _ => Err "one byte expected"
  end.
Definition table_serde {A} `{EqDecision A} (table : list A) : Serde A :=
  {| to_vec := table_to_vec table; from_slice := table_from_slice table |}.

Lemma table_serde_ok {A} `{EqDecision A} (table : list A) :
  @SerdeOk A (table_serde table).
Proof.
  intros a b. simpl. unfold table_to_vec.
  destruct (list_find _ table) as [[i x]|] eqn:E; [|done].
  apply list_find_Some in E as (Hi & -> & _).
  case_bool_decide; [|done]. intros [= <-]. simpl.
  rewrite byte_to_of_Z, Z.mod_small, Nat2Z.id by lia. by rewrite Hi.
Qed.

(** * Digests *)
Class Blake3 := {
  blake3_hash : bytes -> arr 32;
  (** The incremental hasher: what has been fed to it so far. *)
  Blake3Hasher : Type;
  blake3_new : Blake3Hasher;
  blake3_update : Blake3Hasher -> bytes -> Blake3Hasher;
  blake3_finalize : Blake3Hasher -> arr 32;
  (** Feeding parts one by one hashes their concatenation. *)
  blake3_parts (parts : list bytes) :
    blake3_finalize (foldl blake3_update blake3_new parts) = blake3_hash (concat parts);
}.

(** A digest to run examples with: the length and a checksum, zero-padded. *)
Definition toy_digest (l : bytes) : bytes :=
  take 32 (to_be_bytes (Z.of_nat (length l)) ++
           to_be_bytes (foldl (fun acc b => (acc * 131 + byte_to_Z b) `mod` 2 ^ 61)%Z 7%Z l) ++
           replicate 16 "000"%byte).
Lemma toy_digest_length l : length (toy_digest l) = 32.
Proof.
  unfold toy_digest. rewrite length_take, !length_app, !to_be_bytes_length, length_replicate. done.
Qed.
Definition toy_hash (l : bytes) : arr 32 :=
  Arr (toy_digest l) (bool_decide_pack _ (toy_digest_length l)).

Lemma toy_parts (parts : list bytes) (acc : bytes) : foldl app acc parts = acc ++ concat parts.
Proof.
  revert acc; induction parts as [|p ps IH]; intros acc; simpl; [by rewrite app_nil_r|].
  by rewrite IH, app_assoc.
Qed.

#[local] Instance toy_blake3 : Blake3 := {|
  blake3_hash := toy_hash;
  Blake3Hasher := bytes;
  blake3_new := [];
  blake3_update := app;
  blake3_finalize := toy_hash;
  blake3_parts parts := f_equal toy_hash (toy_parts parts []);
|}.
