(* ===== verification/Modes.v ===== *)
(** The mode primitives of [aura-core-modes]: the closed mode enums, the
    per-mode capability ceiling, the [ModeGate] rule table and the session
    mode resolution.  An enum variant [E::V] is the constructor [E_V]. *)
From S2P Require Import Prelude Values.

(** * Closed enums ([modes.rs]) *)
Inductive AgentMode := AgentMode_Agent | AgentMode_Plan | AgentMode_Ask | AgentMode_Debug.
Inductive KernelMode := KernelMode_Audited | KernelMode_AuditedLite.
Inductive SpawnMode := SpawnMode_Wait | SpawnMode_Detached.
Inductive ReplayMode := ReplayMode_Live | ReplayMode_Replay (from_seq : Z).
Inductive SandboxMode := SandboxMode_ReadOnly | SandboxMode_Standard | SandboxMode_Strict.
Inductive AgentRole := AgentRole_Root | AgentRole_Child.

#[export] Instance AgentMode_eq_dec : EqDecision AgentMode.
Proof. solve_decision. Defined.
#[export] Instance KernelMode_eq_dec : EqDecision KernelMode.
Proof. solve_decision. Defined.
#[export] Instance SpawnMode_eq_dec : EqDecision SpawnMode.
Proof. solve_decision. Defined.
#[export] Instance ReplayMode_eq_dec : EqDecision ReplayMode.
Proof. solve_decision. Defined.
#[export] Instance SandboxMode_eq_dec : EqDecision SandboxMode.
Proof. solve_decision. Defined.

(** [profile.rs]. *)
Record ModeProfile := {
  mp_agent : AgentMode;
  mp_kernel : KernelMode;
  mp_sandbox : SandboxMode;
  mp_replay : ReplayMode;
}.

(** * Capability ceilings ([capability_profile.rs])

    A [BTreeSet<&'static str>] of capability discriminants. *)
Record CapabilityProfile := { cp_allowed : gset string }.

Definition from_static (items : list string) : CapabilityProfile :=
  {| cp_allowed := list_to_set items |}.
Definition cp_contains (p : CapabilityProfile) (discriminant : string) : bool :=
  bool_decide (discriminant ∈ cp_allowed p).
Definition cp_intersect (p q : CapabilityProfile) : CapabilityProfile :=
  {| cp_allowed := cp_allowed p ∩ cp_allowed q |}.

Definition agent_default : CapabilityProfile :=
  from_static ["spawnAgent"; "controlAgent"; "readAgent"; "listAgents";
    "manageOrgMembers"; "manageBilling"; "invokeProcess"; "postToFeed";
    "generateMedia"; "readAllProjects"; "writeAllProjects"; "readProject";
    "writeProject"].
Definition plan_default : CapabilityProfile :=
  from_static ["readAgent"; "listAgents"; "invokeProcess"; "readAllProjects"; "readProject"].
Definition ask_default : CapabilityProfile :=
  from_static ["readAgent"; "listAgents"; "readAllProjects"; "readProject"].
Definition debug_default : CapabilityProfile :=
  from_static ["readAgent"; "listAgents"; "readAllProjects"; "readProject"].

(** * [impl AgentMode] ([modes.rs]) *)
Definition default_kernel_mode (role : AgentRole) : KernelMode :=
  match role with
  | AgentRole_Root => KernelMode_Audited
  | AgentRole_Child => KernelMode_AuditedLite
  end.

Definition default_profile (m : AgentMode) : ModeProfile :=
  {| mp_agent := m;
     mp_kernel := default_kernel_mode AgentRole_Root;
     mp_sandbox := match m with
                   | AgentMode_Agent => SandboxMode_Standard
                   | AgentMode_Plan | AgentMode_Debug => SandboxMode_Strict
                   | AgentMode_Ask => SandboxMode_ReadOnly
                   end;
     mp_replay := ReplayMode_Live |}.

Definition default_capability_profile (m : AgentMode) : CapabilityProfile :=
  match m with
  | AgentMode_Agent => agent_default
  | AgentMode_Plan => plan_default
  | AgentMode_Ask => ask_default
  | AgentMode_Debug => debug_default
  end.

Definition allows_spawn (m : AgentMode) : bool :=
  match m with
  | AgentMode_Agent => true
  | AgentMode_Plan | AgentMode_Ask | AgentMode_Debug => false
  end.

(** Derived [Debug] of the mode. *)
Definition AgentMode_debug (m : AgentMode) : string :=
  match m with
  | AgentMode_Agent => "Agent" | AgentMode_Plan => "Plan"
  | AgentMode_Ask => "Ask" | AgentMode_Debug => "Debug"
  end.

(** * The mode gate ([gate.rs], [violation.rs]) *)
Inductive GatedAction :=
| GatedAction_ReadFile
| GatedAction_WriteMarkdown
| GatedAction_WriteNonMarkdown
| GatedAction_Subprocess
| GatedAction_Network
| GatedAction_SpawnAgent
| GatedAction_PluginActivate
| GatedAction_ToolInvoke (name : string)
| GatedAction_SandboxedProbe.

Inductive ModeViolation :=
| ModeViolation_SpawnNotAllowed
| ModeViolation_WriteNonMarkdownNotAllowed
| ModeViolation_WriteNotAllowed
| ModeViolation_SubprocessNotAllowed
| ModeViolation_NetworkNotAllowed
| ModeViolation_PluginActivationNotAllowed
| ModeViolation_ToolInvocationNotAllowed (tool : string)
| ModeViolation_NonSandboxedActionInDebug.

(** The [Display] strings of the violations. *)
Definition ModeViolation_display (v : ModeViolation) : string :=
  match v with
  | ModeViolation_SpawnNotAllowed => "subagent spawning is not allowed in this mode"
  | ModeViolation_WriteNonMarkdownNotAllowed => "writing non-markdown files is not allowed in this mode"
  | ModeViolation_WriteNotAllowed => "file writes are not allowed in this mode"
  | ModeViolation_SubprocessNotAllowed => "subprocess execution is not allowed in this mode"
  | ModeViolation_NetworkNotAllowed => "network access is not allowed in this mode"
  | ModeViolation_PluginActivationNotAllowed => "plugin activation is not allowed in this mode"
  | ModeViolation_ToolInvocationNotAllowed tool =>
      "tool invocation '" +++ tool +++ "' is not allowed in this mode"
  | ModeViolation_NonSandboxedActionInDebug => "only sandboxed probes are allowed in Debug mode"
  end.

(** [DefaultModeGate::check]. *)
Definition gate_check (mode : AgentMode) (action : GatedAction) : result ModeViolation unit :=
  match mode, action with
  | AgentMode_Agent, _ => Ok tt
  | (AgentMode_Plan | AgentMode_Ask | AgentMode_Debug), GatedAction_ReadFile => Ok tt
  | AgentMode_Plan, GatedAction_WriteMarkdown => Ok tt
  | AgentMode_Plan, GatedAction_Subprocess => Ok tt
  | AgentMode_Plan, GatedAction_PluginActivate => Ok tt
  | AgentMode_Plan, GatedAction_ToolInvoke _ => Ok tt
  | AgentMode_Plan, GatedAction_WriteNonMarkdown => Err ModeViolation_WriteNonMarkdownNotAllowed
  | AgentMode_Plan, GatedAction_Network => Err ModeViolation_NetworkNotAllowed
  | AgentMode_Plan, GatedAction_SpawnAgent => Err ModeViolation_SpawnNotAllowed
  | AgentMode_Plan, GatedAction_SandboxedProbe => Ok tt
  | AgentMode_Ask, GatedAction_ToolInvoke _ => Ok tt
  | AgentMode_Ask, (GatedAction_WriteMarkdown | GatedAction_WriteNonMarkdown) =>
      Err ModeViolation_WriteNotAllowed
  | AgentMode_Ask, GatedAction_Subprocess => Err ModeViolation_SubprocessNotAllowed
  | AgentMode_Ask, GatedAction_Network => Err ModeViolation_NetworkNotAllowed
  | AgentMode_Ask, GatedAction_SpawnAgent => Err ModeViolation_SpawnNotAllowed
  | AgentMode_Ask, GatedAction_PluginActivate => Err ModeViolation_PluginActivationNotAllowed
  | AgentMode_Ask, GatedAction_SandboxedProbe => Err ModeViolation_NonSandboxedActionInDebug
  | AgentMode_Debug, GatedAction_SandboxedProbe => Ok tt
  | AgentMode_Debug, (GatedAction_WriteMarkdown | GatedAction_WriteNonMarkdown) =>
      Err ModeViolation_WriteNotAllowed
  | AgentMode_Debug, GatedAction_Subprocess => Err ModeViolation_SubprocessNotAllowed
  | AgentMode_Debug, GatedAction_Network => Err ModeViolation_NetworkNotAllowed
  | AgentMode_Debug, GatedAction_SpawnAgent => Err ModeViolation_SpawnNotAllowed
  | AgentMode_Debug, GatedAction_PluginActivate => Err ModeViolation_PluginActivationNotAllowed
  | AgentMode_Debug, GatedAction_ToolInvoke name => Err (ModeViolation_ToolInvocationNotAllowed name)
  end.

(** * Session mode resolution ([resolution.rs]) *)
Record AgentModeInputs := {
  ami_requested : option AgentMode;
  ami_daemon_default : option AgentMode;
}.

Definition resolve_session_mode (inputs : AgentModeInputs) : AgentMode :=
  match ami_requested inputs with
  | Some m => m
  | None => match ami_daemon_default inputs with Some m => m | None => AgentMode_Agent end
  end.

(** * Gate lemmas *)
Lemma gate_check_agent a : gate_check AgentMode_Agent a = Ok tt.
Proof. by destruct a. Qed.

(** A mode is at least as permissive as another when the gate lets through
    every action the other lets through. *)
Definition mode_covers (wide narrow : AgentMode) : Prop :=
  forall a, is_ok (gate_check narrow a) = true -> is_ok (gate_check wide a) = true.

#[export] Instance mode_covers_preorder : PreOrder mode_covers.
Proof. split; [by intros m a|intros x y z H1 H2 a H; by apply H1, H2]. Qed.
