(* ===== verification/Permissions.v ===== *)
(** Privileges and their resolution math: [aura-core-permissions].

    A [Vec] is a [list] (order and duplicates are kept as the code keeps
    them), a [BTreeMap<String, ToolState>] is a [gmap].  The laws at the end
    show in which sense narrowing is an intersection: always for
    capabilities, and for scopes exactly when no axis is disjoint. *)
From S2P Require Import Prelude Values Modes.

(** * Capabilities ([capability.rs]) *)
Inductive Capability :=
| Capability_SpawnAgent
| Capability_ControlAgent
| Capability_ReadAgent
| Capability_ListAgents
| Capability_ManageOrgMembers
| Capability_ManageBilling
| Capability_InvokeProcess
| Capability_PostToFeed
| Capability_GenerateMedia
| Capability_ComputerUse
| Capability_ReadProject (id : string)
| Capability_WriteProject (id : string)
| Capability_ReadAllProjects
| Capability_WriteAllProjects.

#[export] Instance Capability_eq_dec : EqDecision Capability.
Proof. solve_decision. Defined.

Definition satisfies (held required : Capability) : bool :=
  if bool_decide (held = required) then true else
  match held, required with
  | Capability_ReadAllProjects, Capability_ReadProject _ => true
  | Capability_WriteAllProjects, Capability_ReadProject _ => true
  | Capability_WriteAllProjects, Capability_WriteProject _ => true
  | Capability_WriteProject held_id, Capability_ReadProject req_id =>
      bool_decide (held_id = req_id)
  | _, _ => false
  end.

Definition discriminant (c : Capability) : string :=
  match c with
  | Capability_SpawnAgent => "spawnAgent"
  | Capability_ControlAgent => "controlAgent"
  | Capability_ReadAgent => "readAgent"
  | Capability_ListAgents => "listAgents"
  | Capability_ManageOrgMembers => "manageOrgMembers"
  | Capability_ManageBilling => "manageBilling"
  | Capability_InvokeProcess => "invokeProcess"
  | Capability_PostToFeed => "postToFeed"
  | Capability_GenerateMedia => "generateMedia"
  | Capability_ComputerUse => "computerUse"
  | Capability_ReadProject _ => "readProject"
  | Capability_WriteProject _ => "writeProject"
  | Capability_ReadAllProjects => "readAllProjects"
  | Capability_WriteAllProjects => "writeAllProjects"
  end.

(** * Scopes ([scope.rs]) *)
Record AgentScope := {
  scope_orgs : list string;
  scope_projects : list string;
  scope_agent_ids : list string;
}.
#[export] Instance AgentScope_eq_dec : EqDecision AgentScope.
Proof. solve_decision. Defined.

Definition AgentScope_default : AgentScope :=
  {| scope_orgs := []; scope_projects := []; scope_agent_ids := [] |}.

Definition is_nil {A} (l : list A) : bool := match l with [] => true | _ => false end.

Definition is_universe (s : AgentScope) : bool :=
  is_nil (scope_orgs s) && is_nil (scope_projects s) && is_nil (scope_agent_ids s).

Definition axis_contains (parent child : list string) : bool :=
  if is_nil parent then true
  else if is_nil child then false
  else forallb (fun c => existsb (fun p => bool_decide (p = c)) parent) child.

Definition scope_contains (s other : AgentScope) : bool :=
  axis_contains (scope_orgs s) (scope_orgs other)
  && axis_contains (scope_projects s) (scope_projects other)
  && axis_contains (scope_agent_ids s) (scope_agent_ids other).

Definition axis_intersect (a b : list string) : list string :=
  if is_nil a then b
  else if is_nil b then a
  else List.filter (fun x => bool_decide (x ∈ b)) a.

Definition scope_intersect (s other : AgentScope) : AgentScope :=
  {| scope_orgs := axis_intersect (scope_orgs s) (scope_orgs other);
     scope_projects := axis_intersect (scope_projects s) (scope_projects other);
     scope_agent_ids := axis_intersect (scope_agent_ids s) (scope_agent_ids other) |}.

(** * Bundles ([lib.rs]) *)
Record Permissions := {
  perm_scope : AgentScope;
  perm_capabilities : list Capability;
}.
#[export] Instance Permissions_eq_dec : EqDecision Permissions.
Proof. solve_decision. Defined.

Definition Permissions_full_access : Permissions :=
  {| perm_scope := AgentScope_default;
     perm_capabilities :=
       [Capability_SpawnAgent; Capability_ControlAgent; Capability_ReadAgent;
        Capability_ListAgents; Capability_ManageOrgMembers; Capability_ManageBilling;
        Capability_InvokeProcess; Capability_PostToFeed; Capability_GenerateMedia;
        Capability_ComputerUse; Capability_ReadAllProjects; Capability_WriteAllProjects] |}.

Definition Permissions_empty : Permissions :=
  {| perm_scope := AgentScope_default; perm_capabilities := [] |}.

Definition perm_contains (p other : Permissions) : bool :=
  if negb (scope_contains (perm_scope p) (perm_scope other)) then false
  else forallb (fun req => existsb (fun held => satisfies held req) (perm_capabilities p))
         (perm_capabilities other).

(** * Narrowing ([math.rs]) *)
Definition intersect_push (b : list Capability) (out : list Capability) (cap : Capability) :=
  if existsb (fun other => bool_decide (other = cap)) b && negb (bool_decide (cap ∈ out))
  then out ++ [cap] else out.

Definition perm_intersect (a b : Permissions) : Permissions :=
  {| perm_scope := scope_intersect (perm_scope a) (perm_scope b);
     perm_capabilities :=
       foldl (intersect_push (perm_capabilities b)) [] (perm_capabilities a) |}.

Definition narrow (parent child : Permissions) : Permissions := perm_intersect parent child.

Definition allows (perms : Permissions) (cap : Capability) : bool :=
  existsb (fun held => satisfies held cap) (perm_capabilities perms).

Definition allows_tool (perms : Permissions) (tool : string) : bool :=
  if bool_decide (tool = "spawn_agent") then allows perms Capability_SpawnAgent
  else if bool_decide (tool = "list_agents") then allows perms Capability_ListAgents
  else if bool_decide (tool = "get_agent_state") then allows perms Capability_ReadAgent
  else if bool_decide (tool = "send_to_agent" \/ tool = "agent_lifecycle" \/ tool = "delegate_task")
       then allows perms Capability_ControlAgent
  else if bool_decide (tool = "run_command" \/ tool = "shell")
       then allows perms Capability_InvokeProcess
  else true.

(** * The mode-narrowed view ([effective.rs], [grants.rs]) *)
Inductive GrantSource :=
| GrantSource_User
| GrantSource_Plugin (plugin_id : string)
| GrantSource_Inherited.

Record PrivilegeGrant := {
  grant_source : GrantSource;
  grant_capability : Capability;
}.

Record EffectivePermissions := {
  eff_permissions : Permissions;
  eff_grants : list PrivilegeGrant;
}.

Definition effective (mode : AgentMode) (user_grants : Permissions) : EffectivePermissions :=
  let profile := default_capability_profile mode in
  {| eff_permissions :=
       {| perm_scope := perm_scope user_grants;
          perm_capabilities :=
            List.filter (fun cap => cp_contains profile (discriminant cap))
              (perm_capabilities user_grants) |};
     eff_grants := [] |}.

(** * Tri-state tool permissions ([lib.rs]) *)
Inductive ToolState := ToolState_Allow | ToolState_Deny | ToolState_Ask.
#[export] Instance ToolState_eq_dec : EqDecision ToolState.
Proof. solve_decision. Defined.

Definition rank (s : ToolState) : Z :=
  match s with ToolState_Deny => 0 | ToolState_Ask => 1 | ToolState_Allow => 2 end.

Definition is_subset_of (s parent : ToolState) : bool := bool_decide (rank s <= rank parent)%Z.

Record AgentToolPermissions := { atp_per_tool : gmap string ToolState }.
#[export] Instance AgentToolPermissions_eq_dec : EqDecision AgentToolPermissions.
Proof. solve_decision. Defined.

Definition atp_new : AgentToolPermissions := {| atp_per_tool := ∅ |}.
Definition atp_with (p : AgentToolPermissions) (tool : string) (state : ToolState)
  : AgentToolPermissions := {| atp_per_tool := <[tool := state]> (atp_per_tool p) |}.
Definition atp_is_empty (p : AgentToolPermissions) : bool := bool_decide (atp_per_tool p = ∅).

Inductive UserDefaultMode :=
| UserDefaultMode_FullAccess
| UserDefaultMode_AutoReview
| UserDefaultMode_DefaultPermissions (per_tool : gmap string ToolState) (fallback : ToolState).
#[export] Instance UserDefaultMode_eq_dec : EqDecision UserDefaultMode.
Proof. solve_decision. Defined.

Record UserToolDefaults := { utd_mode : UserDefaultMode }.
#[export] Instance UserToolDefaults_eq_dec : EqDecision UserToolDefaults.
Proof. solve_decision. Defined.

Definition utd_full_access : UserToolDefaults := {| utd_mode := UserDefaultMode_FullAccess |}.
Definition utd_auto_review : UserToolDefaults := {| utd_mode := UserDefaultMode_AutoReview |}.
Definition utd_default_permissions (per_tool : gmap string ToolState) (fallback : ToolState)
  : UserToolDefaults := {| utd_mode := UserDefaultMode_DefaultPermissions per_tool fallback |}.

Inductive PermissionLayer :=
| PermissionLayer_AgentOverride
| PermissionLayer_UserFullAccess
| PermissionLayer_UserAutoReview
| PermissionLayer_UserPerTool
| PermissionLayer_UserFallback.
#[export] Instance PermissionLayer_eq_dec : EqDecision PermissionLayer.
Proof. solve_decision. Defined.

Definition resolve_effective_permission_with_source (user_default : UserToolDefaults)
    (agent_override : option AgentToolPermissions) (tool : string) : ToolState * PermissionLayer :=
  match agent_override ≫= (fun o => atp_per_tool o !! tool) with
  | Some state => (state, PermissionLayer_AgentOverride)
  | None =>
      match utd_mode user_default with
      | UserDefaultMode_FullAccess => (ToolState_Allow, PermissionLayer_UserFullAccess)
      | UserDefaultMode_AutoReview => (ToolState_Ask, PermissionLayer_UserAutoReview)
      | UserDefaultMode_DefaultPermissions per_tool fallback =>
          match per_tool !! tool with
          | Some state => (state, PermissionLayer_UserPerTool)
          | None => (fallback, PermissionLayer_UserFallback)
          end
      end
  end.

Definition resolve_effective_permission (user_default : UserToolDefaults)
    (agent_override : option AgentToolPermissions) (tool : string) : ToolState :=
  (resolve_effective_permission_with_source user_default agent_override tool).1.

Definition is_effectively_full_access (user_default : UserToolDefaults)
    (agent_override : option AgentToolPermissions) : bool :=
  match utd_mode user_default with UserDefaultMode_FullAccess => true | _ => false end
  && match agent_override with
     | None => true
     | Some o => forallb (fun p : string * ToolState => bool_decide (p.2 = ToolState_Allow))
                   (map_to_list (atp_per_tool o))
     end.

(** * Laws *)

#[export] Instance satisfies_preorder : PreOrder (fun a b => satisfies a b = true).
Proof.
  split.
  - intros c. unfold satisfies. by rewrite bool_decide_eq_true_2.
  - intros a b c. unfold satisfies.
    repeat case_bool_decide; try congruence; subst; try done;
      destruct a, b; try done; destruct c; try done; try case_bool_decide; try congruence.
Qed.

Lemma satisfies_refl c : satisfies c c = true.
Proof. apply satisfies_preorder. Qed.

Lemma satisfies_trans a b c :
  satisfies a b = true -> satisfies b c = true -> satisfies a c = true.
Proof. apply satisfies_preorder. Qed.

Lemma allows_spec p c :
  allows p c = true <-> exists h, h ∈ perm_capabilities p /\ satisfies h c = true.
Proof.
  unfold allows. rewrite existsb_exists.
  split; intros (h & H1 & H2); exists h; (split; [by apply list_elem_of_In|done]).
Qed.

Lemma elem_of_intersect_push b l out c :
  c ∈ foldl (intersect_push b) out l <-> c ∈ out \/ (c ∈ l /\ c ∈ b).
Proof.
  assert (Hex : forall x, existsb (fun other => bool_decide (other = x)) b = true <-> x ∈ b).
  { intros x. rewrite existsb_exists. setoid_rewrite bool_decide_eq_true.
    setoid_rewrite <-list_elem_of_In. naive_solver. }
  revert out; induction l as [|x l IH]; intros out; simpl; [set_solver|].
  rewrite IH. unfold intersect_push.
  destruct (existsb _ b) eqn:Eb; simpl.
  - apply Hex in Eb. case_bool_decide; simpl; set_solver.
  - assert (x ∉ b) by (rewrite <-Hex; congruence). set_solver.
Qed.

Lemma elem_of_perm_intersect a b c :
  c ∈ perm_capabilities (perm_intersect a b)
  <-> c ∈ perm_capabilities a /\ c ∈ perm_capabilities b.
Proof. simpl. rewrite elem_of_intersect_push. set_solver. Qed.

Lemma foldl_intersect_push_NoDup b l out :
  NoDup out -> NoDup (foldl (intersect_push b) out l).
Proof.
  revert out; induction l as [|x l IH]; intros out H; simpl; [done|].
  apply IH. unfold intersect_push. destruct (existsb _ _); simpl; [|done].
  case_bool_decide; simpl; [done|].
  apply list.NoDup_app. split_and!; [done|set_solver|apply NoDup_singleton].
Qed.

(** Two axes are compatible when one is the universe or they share a value. *)
Definition axis_compatible (a b : list string) : Prop :=
  a = [] \/ b = [] \/ exists x, x ∈ a /\ x ∈ b.

Definition scope_compatible (s t : AgentScope) : Prop :=
  axis_compatible (scope_orgs s) (scope_orgs t)
  /\ axis_compatible (scope_projects s) (scope_projects t)
  /\ axis_compatible (scope_agent_ids s) (scope_agent_ids t).

Lemma axis_contains_spec p c :
  axis_contains p c = true <-> p = [] \/ (c <> [] /\ forall x, x ∈ c -> x ∈ p).
Proof.
  unfold axis_contains. destruct p as [|p0 p]; simpl; [naive_solver|].
  destruct c as [|c0 c]; [naive_solver|]. cbn [is_nil].
  rewrite forallb_forall. setoid_rewrite <-list_elem_of_In.
  assert (Hx : forall x, existsb (fun q => bool_decide (q = x)) (p0 :: p) = true <-> x ∈ p0 :: p).
  { intros x. rewrite existsb_exists. setoid_rewrite bool_decide_eq_true.
    setoid_rewrite <-list_elem_of_In. naive_solver. }
  setoid_rewrite Hx. naive_solver.
Qed.

Lemma elem_of_axis_intersect a b x :
  a <> [] -> b <> [] -> x ∈ axis_intersect a b <-> x ∈ a /\ x ∈ b.
Proof.
  unfold axis_intersect. destruct a, b; try done. intros _ _. cbn [is_nil].
  rewrite !list_elem_of_In, filter_In, bool_decide_eq_true, list_elem_of_In. done.
Qed.

Lemma axis_intersect_contained a b :
  (axis_contains a (axis_intersect a b) = true /\ axis_contains b (axis_intersect a b) = true)
  <-> axis_compatible a b.
Proof.
  rewrite !axis_contains_spec. unfold axis_compatible.
  destruct (decide (a = [])) as [->|Ha]; [destruct b; naive_solver|].
  destruct (decide (b = [])) as [->|Hb].
  { assert (axis_intersect a [] = a) as -> by (by destruct a). naive_solver. }
  pose proof (elem_of_axis_intersect a b) as Hi. split.
  - intros [[?|[Hne _]] _]; [done|]. right; right.
    destruct (axis_intersect a b) as [|x r] eqn:E; [done|].
    exists x. apply Hi; set_solver.
  - intros [?|[?|(x & Hx)]]; try done.
    assert (x ∈ axis_intersect a b) as Hin by (by apply Hi).
    assert (axis_intersect a b <> []) by (intros E; rewrite E in Hin; set_solver).
    split; right; (split; [done|]); intros y Hy; apply Hi in Hy; naive_solver.
Qed.

#[export] Instance axis_contains_preorder : PreOrder (fun a b => axis_contains a b = true).
Proof.
  split.
  - intros l. apply axis_contains_spec. destruct l; [by left|by right].
  - intros a b c. rewrite !axis_contains_spec.
    intros [->|[Hb Hab]] [->|[Hc Hbc]]; naive_solver.
Qed.

Lemma axis_contains_refl a : axis_contains a a = true.
Proof. apply axis_contains_preorder. Qed.
Lemma axis_contains_trans a b c :
  axis_contains a b = true -> axis_contains b c = true -> axis_contains a c = true.
Proof. apply axis_contains_preorder. Qed.

Lemma scope_contains_spec s t :
  scope_contains s t = true <->
  axis_contains (scope_orgs s) (scope_orgs t) = true
  /\ axis_contains (scope_projects s) (scope_projects t) = true
  /\ axis_contains (scope_agent_ids s) (scope_agent_ids t) = true.
Proof. unfold scope_contains. rewrite !andb_true_iff. tauto. Qed.

Lemma perm_contains_spec p q :
  perm_contains p q = true <->
  scope_contains (perm_scope p) (perm_scope q) = true
  /\ forall c, c ∈ perm_capabilities q -> allows p c = true.
Proof.
  unfold perm_contains, allows. destruct (scope_contains _ _); simpl; [|naive_solver].
  rewrite forallb_forall. setoid_rewrite list_elem_of_In. naive_solver.
Qed.

Lemma perm_contains_allows p q c :
  perm_contains p q = true -> allows q c = true -> allows p c = true.
Proof.
  rewrite perm_contains_spec, !allows_spec. intros [_ H] (h & Hh & Hs).
  apply H in Hh. apply allows_spec in Hh as (h' & Hh' & Hs').
  exists h'. split; [done|]. by eapply satisfies_trans.
Qed.

(** Bundle containment ([Permissions::contains]) is a preorder, so a chain
    of parents that each contain the next contains the last. *)
Theorem perm_contains_preorder : PreOrder (fun p q => perm_contains p q = true).
Proof.
  split.
  - intros p. apply perm_contains_spec. split.
    + apply scope_contains_spec. split_and!; apply axis_contains_refl.
    + intros c Hc. apply allows_spec. exists c. split; [done|apply satisfies_refl].
  - intros p q r Hpq Hqr. apply perm_contains_spec.
    pose proof Hpq as [Hs Hc]%perm_contains_spec.
    pose proof Hqr as [Hs' Hc']%perm_contains_spec. split.
    + apply scope_contains_spec in Hs, Hs'. apply scope_contains_spec.
      destruct Hs as (?&?&?), Hs' as (?&?&?). split_and!; by eapply axis_contains_trans.
    + intros c H%Hc'. by eapply perm_contains_allows.
Qed.

(** Narrowing never widens a capability: whatever the narrowed bundle
    allows, wildcard lifting included, both the parent and the child allow,
    and the narrowed list has no duplicates. *)
Theorem narrow_capabilities_sound p c x :
  NoDup (perm_capabilities (narrow p c))
  /\ (allows (narrow p c) x = true -> allows p x = true /\ allows c x = true).
Proof.
  split; [by apply foldl_intersect_push_NoDup, NoDup_nil_2|].
  rewrite !allows_spec. intros (h & [Hp Hc]%elem_of_perm_intersect & Hs). naive_solver.
Qed.

Lemma narrow_capabilities_sound_witness :
  allows (narrow Permissions_full_access
            {| perm_scope := AgentScope_default;
               perm_capabilities := [Capability_ReadAllProjects] |})
         (Capability_ReadProject "p") = true
  /\ allows Permissions_full_access (Capability_ReadProject "p") = true.
Proof.
  split; [reflexivity|].
  apply (narrow_capabilities_sound Permissions_full_access
    {| perm_scope := AgentScope_default;
       perm_capabilities := [Capability_ReadAllProjects] |} (Capability_ReadProject "p")).
  reflexivity.
Defined.

(** The documented invariant "[narrow(p, c)] is within [p] and [c]" holds
    exactly when no scope axis is disjoint: with a disjoint axis the result's
    axis is empty, which the scope reads as the universe. *)
Theorem narrow_within_iff p c :
  (perm_contains p (narrow p c) = true /\ perm_contains c (narrow p c) = true)
  <-> scope_compatible (perm_scope p) (perm_scope c).
Proof.
  rewrite !perm_contains_spec, !scope_contains_spec. simpl.
  unfold scope_compatible. rewrite <-!axis_intersect_contained.
  assert (forall x, x ∈ perm_capabilities (perm_intersect p c) ->
            allows p x = true /\ allows c x = true) as Hcap.
  { intros x [Hp Hc]%elem_of_perm_intersect.
    rewrite !allows_spec. split; exists x; (split; [done|apply satisfies_refl]). }
  simpl in Hcap. naive_solver.
Qed.

(** A child restricted to another org than its parent's is narrowed to
    every org: the parent does not contain the bundle derived from it. *)
Theorem narrow_disjoint_escapes :
  let parent := {| perm_scope := {| scope_orgs := ["o1"]; scope_projects := [];
                                    scope_agent_ids := [] |}; perm_capabilities := [] |} in
  let child := {| perm_scope := {| scope_orgs := ["o2"]; scope_projects := [];
                                   scope_agent_ids := [] |}; perm_capabilities := [] |} in
  perm_scope (narrow parent child) = AgentScope_default
  /\ perm_contains parent (narrow parent child) = false.
Proof. split; reflexivity. Qed.

(** The mode ceiling only narrows: a capability allowed after [effective]
    is allowed by the user's grants, every retained capability lies in the
    mode's profile, and the scope is the user's. *)
Theorem effective_narrows mode grants c :
  (allows (eff_permissions (effective mode grants)) c = true -> allows grants c = true)
  /\ (c ∈ perm_capabilities (eff_permissions (effective mode grants)) <->
      c ∈ perm_capabilities grants
      /\ cp_contains (default_capability_profile mode) (discriminant c) = true)
  /\ perm_scope (eff_permissions (effective mode grants)) = perm_scope grants.
Proof.
  assert (forall x, x ∈ perm_capabilities (eff_permissions (effective mode grants)) <->
      x ∈ perm_capabilities grants
      /\ cp_contains (default_capability_profile mode) (discriminant x) = true) as Hx.
  { intros x. simpl. by rewrite !list_elem_of_In, filter_In. }
  split_and!; [|done|done].
  rewrite !allows_spec. intros (h & Hh & Hs). apply Hx in Hh as [Hh _]. naive_solver.
Qed.

(** The agent-mode ceiling drops [ComputerUse] from the full-access bundle. *)
Lemma effective_agent_drops_computer_use :
  allows Permissions_full_access Capability_ComputerUse = true
  /\ allows (eff_permissions (effective AgentMode_Agent Permissions_full_access))
       Capability_ComputerUse = false.
Proof. split; [reflexivity|vm_compute; reflexivity]. Qed.

Lemma resolve_with_override user o tool state :
  atp_per_tool o !! tool = Some state ->
  resolve_effective_permission user (Some o) tool = state.
Proof.
  intros H. unfold resolve_effective_permission, resolve_effective_permission_with_source.
  simpl. by rewrite H.
Qed.

(** A tool policy is reported globally full-access exactly when the user
    default is [full_access] and every tool resolves to [on]. *)
Theorem is_effectively_full_access_spec user agent :
  is_effectively_full_access user agent = true <->
  utd_mode user = UserDefaultMode_FullAccess
  /\ forall tool, resolve_effective_permission user agent tool = ToolState_Allow.
Proof.
  unfold is_effectively_full_access.
  unfold resolve_effective_permission, resolve_effective_permission_with_source.
  destruct (utd_mode user); simpl; [|naive_solver..].
  destruct agent as [o|]; simpl; [|naive_solver].
  rewrite forallb_forall. setoid_rewrite bool_decide_eq_true.
  setoid_rewrite <-list_elem_of_In. split.
  - intros H. split; [done|]. intros tool.
    destruct (atp_per_tool o !! tool) as [s|] eqn:E; [|done]. simpl.
    by apply (H (tool, s)), elem_of_map_to_list.
  - intros [_ H] [tool s] Hin%elem_of_map_to_list. specialize (H tool).
    by rewrite Hin in H.
Qed.
