(* ===== verification/CoreTypes.v ===== *)
(** The data model of [aura-core-types]: identifiers, digests, transactions,
    record entries, proposals, actions and effects, the tool envelopes and the
    policy-decision audit payload.  The clock ([now_ms]) and fresh ids
    ([ActionId::generate]) are arguments of the constructors that read them. *)
From S2P Require Import Prelude Values Permissions.
From Stdlib Require Import Strings.Byte.

(** * Identifiers and digests ([ids.rs], [hash.rs], [context_hash.rs]) *)
Definition Hash := arr 32.
Definition AgentId := arr 32.
Definition ActionId := arr 16.
Definition ContextHash := arr 32.

Definition ContextHash_zero : ContextHash := arr_fill 32 "000"%byte.

(** [define_id!]: [to_hex] and [from_hex]. *)
Definition id_to_hex `{Hex} {n} (id : arr n) : string := hex_encode (arr_bytes id).
Definition id_from_hex `{Hex} (n : nat) (s : string) : result string (arr n) :=
  b ← hex_decode s;
  ok_or "Invalid string length" (arr_try_from n b).

Section Digests.
Context `{Blake3}.

Definition hash_bytes (data : bytes) : arr 32 := blake3_hash data.

Definition hash_many (parts : list bytes) : arr 32 :=
  blake3_finalize (foldl blake3_update blake3_new parts).

Definition compute_context_hash (tx_bytes record_window_bytes : bytes) : arr 32 :=
  hash_many [tx_bytes; record_window_bytes].

(** [Hash::from_content] and [Hash::from_content_chained]. *)
Definition from_content (content : bytes) : Hash := blake3_hash content.

Definition from_content_chained (content : bytes) (prev_hash : option Hash) : Hash :=
  let hasher := blake3_update blake3_new content in
  blake3_finalize
    (match prev_hash with
     | Some prev => blake3_update hasher (arr_bytes prev)
     | None => hasher
     end).

(** [struct Hasher]. *)
Definition Hasher_new : Blake3Hasher := blake3_new.
Definition Hasher_update (h : Blake3Hasher) (data : bytes) : Blake3Hasher := blake3_update h data.
Definition Hasher_finalize (h : Blake3Hasher) : arr 32 := blake3_finalize h.
End Digests.

(** * Tool envelopes ([types/tool]) *)
Record ToolCall := { tool_call_tool : string; tool_call_args : json }.
#[export] Instance ToolCall_eq_dec : EqDecision ToolCall.
Proof. solve_decision. Defined.

Definition SENSITIVE_ARG_KEYS : list string :=
  ["jwt"; "token"; "access_token"; "refresh_token"; "id_token"; "authorization"; "api_key";
   "apikey"; "password"; "passwd"; "secret"; "client_secret"; "private_key"; "session_token"].

Definition is_sensitive_key (k : string) : bool :=
  existsb (fun needle => eq_ignore_ascii_case k needle) SENSITIVE_ARG_KEYS.

Fixpoint redact_sensitive_args (value : json) : json :=
  match value with
  | JObject map =>
      JObject (List.map (fun '(k, v) =>
                 (k, if is_sensitive_key k then JString "***" else redact_sensitive_args v)) map)
  | JArray items => JArray (List.map redact_sensitive_args items)
  | other => other
  end.

(** [ToolCall::fs_ls], [fs_read], [fs_stat]. *)
Definition fs_ls (path : string) : ToolCall :=
  {| tool_call_tool := "list_files"; tool_call_args := JObject [("path", JString path)] |}.
Definition fs_read (path : string) (max_bytes : option Z) : ToolCall :=
  let args := JObject [("path", JString path)] in
  {| tool_call_tool := "read_file";
     tool_call_args := match max_bytes with
                       | Some max => json_set "max_bytes" (JNumber (fmt_Z max)) args
                       | None => args
                       end |}.
Definition fs_stat (path : string) : ToolCall :=
  {| tool_call_tool := "stat_file"; tool_call_args := JObject [("path", JString path)] |}.

Record ToolProposal := {
  tp_tool_use_id : string;
  tp_tool : string;
  tp_args : json;
  tp_source : option string;
}.
#[export] Instance ToolProposal_eq_dec : EqDecision ToolProposal.
Proof. solve_decision. Defined.

Inductive ToolGateVerdict :=
| ToolGateVerdict_Approved
| ToolGateVerdict_Denied
| ToolGateVerdict_PendingApproval.
#[export] Instance ToolGateVerdict_eq_dec : EqDecision ToolGateVerdict.
Proof. solve_decision. Defined.

Record ToolExecution := {
  te_tool_use_id : string;
  te_tool : string;
  te_args : json;
  te_decision : ToolGateVerdict;
  te_reason : option string;
  te_result : option string;
  te_is_error : bool;
  te_parent_agent_id : AgentId;
  te_originating_user_id : string;
}.
#[export] Instance ToolExecution_eq_dec : EqDecision ToolExecution.
Proof. solve_decision. Defined.

(** ** Tool results ([types/tool/result.rs]) *)
Record LineDiff := { lines_added : Z; lines_removed : Z }.
Record ToolResultImage := { image_base64 : string; image_media_type : string }.
Inductive ToolResultKind :=
| ToolResultKind_Ok | ToolResultKind_AgentError | ToolResultKind_CompactionStructural.
#[export] Instance LineDiff_eq_dec : EqDecision LineDiff.
Proof. solve_decision. Defined.
#[export] Instance ToolResultImage_eq_dec : EqDecision ToolResultImage.
Proof. solve_decision. Defined.
#[export] Instance ToolResultKind_eq_dec : EqDecision ToolResultKind.
Proof. solve_decision. Defined.

Record ToolResult := {
  tr_tool : string;
  tr_ok : bool;
  tr_kind : ToolResultKind;
  tr_exit_code : option Z;
  tr_stdout : bytes;
  tr_stderr : bytes;
  tr_metadata : gmap string string;
  tr_line_diff : option LineDiff;
  tr_image : option ToolResultImage;
}.
#[export] Instance ToolResult_eq_dec : EqDecision ToolResult.
Proof. solve_decision. Defined.

Definition ToolResult_success (tool : string) (stdout : bytes) : ToolResult :=
  {| tr_tool := tool; tr_ok := true; tr_kind := ToolResultKind_Ok; tr_exit_code := None;
     tr_stdout := stdout; tr_stderr := []; tr_metadata := ∅; tr_line_diff := None;
     tr_image := None |}.
Definition ToolResult_failure (tool : string) (stderr : bytes) : ToolResult :=
  {| tr_tool := tool; tr_ok := false; tr_kind := ToolResultKind_AgentError; tr_exit_code := None;
     tr_stdout := []; tr_stderr := stderr; tr_metadata := ∅; tr_line_diff := None;
     tr_image := None |}.
Definition compaction_structural_failure (tool : string) (stderr : bytes) : ToolResult :=
  {| tr_tool := tool; tr_ok := false; tr_kind := ToolResultKind_CompactionStructural;
     tr_exit_code := None; tr_stdout := []; tr_stderr := stderr; tr_metadata := ∅;
     tr_line_diff := None; tr_image := None |}.

(** ** Installed integrations ([installed.rs], [runtime_capability.rs]) *)
Record InstalledToolIntegrationRequirement := {
  itir_integration_id : option string;
  itir_provider : option string;
  itir_kind : option string;
}.
Record InstalledIntegrationDefinition := {
  iid_integration_id : string;
  iid_name : string;
  iid_provider : string;
  iid_kind : string;
  iid_metadata : gmap string json;
}.
Record InstalledToolCapability := {
  itc_name : string;
  itc_required_integration : option InstalledToolIntegrationRequirement;
}.
Inductive SystemKind :=
| SystemKind_AutomatonLifecycle | SystemKind_CapabilityInstall | SystemKind_DomainMutation
| SystemKind_AuthChange | SystemKind_Infrastructure.

#[export] Instance InstalledToolIntegrationRequirement_eq_dec :
  EqDecision InstalledToolIntegrationRequirement.
Proof. solve_decision. Defined.
#[export] Instance InstalledIntegrationDefinition_eq_dec :
  EqDecision InstalledIntegrationDefinition.
Proof. solve_decision. Defined.
#[export] Instance InstalledToolCapability_eq_dec : EqDecision InstalledToolCapability.
Proof. solve_decision. Defined.
#[export] Instance SystemKind_eq_dec : EqDecision SystemKind.
Proof. solve_decision. Defined.

Record RuntimeCapabilityInstall := {
  rci_system_kind : SystemKind;
  rci_scope : string;
  rci_session_id : option string;
  rci_installed_integrations : list InstalledIntegrationDefinition;
  rci_installed_tools : list InstalledToolCapability;
}.
#[export] Instance RuntimeCapabilityInstall_eq_dec : EqDecision RuntimeCapabilityInstall.
Proof. solve_decision. Defined.

Definition tool_capability (r : RuntimeCapabilityInstall) (tool : string)
  : option InstalledToolCapability :=
  List.find (fun installed => bool_decide (itc_name installed = tool)) (rci_installed_tools r).

Definition field_match (expected : option string) (actual : string) : bool :=
  match expected with None => true | Some e => bool_decide (actual = e) end.

Definition integration_match (requirement : InstalledToolIntegrationRequirement)
    (candidate : InstalledIntegrationDefinition) : bool :=
  field_match (itir_integration_id requirement) (iid_integration_id candidate)
  && field_match (itir_provider requirement) (iid_provider candidate)
  && field_match (itir_kind requirement) (iid_kind candidate).

Definition installed_integrations_satisfy (requirement : InstalledToolIntegrationRequirement)
    (installed : list InstalledIntegrationDefinition) : bool :=
  existsb (fun candidate => integration_match requirement candidate) installed.

Definition rci_requirement_satisfied (r : RuntimeCapabilityInstall)
    (requirement : InstalledToolIntegrationRequirement) : bool :=
  installed_integrations_satisfy requirement (rci_installed_integrations r).

(** ** Policy-decision payload ([policy_decision.rs]) *)
Inductive PolicySource :=
| PolicySource_ActionKind | PolicySource_Mode | PolicySource_AgentCapability
| PolicySource_Integration | PolicySource_SessionGrant | PolicySource_AgentOverride
| PolicySource_UserDefault | PolicySource_PermissionHook | PolicySource_User
| PolicySource_NoLiveSession | PolicySource_MalformedProposal.
#[export] Instance PolicySource_eq_dec : EqDecision PolicySource.
Proof. solve_decision. Defined.

Record PolicyRule := { pr_source : PolicySource; pr_rule : string }.
#[export] Instance PolicyRule_eq_dec : EqDecision PolicyRule.
Proof. solve_decision. Defined.

Inductive PolicyCheckOutcome :=
| PolicyCheckOutcome_Allow | PolicyCheckOutcome_Deny | PolicyCheckOutcome_Ask.
#[export] Instance PolicyCheckOutcome_eq_dec : EqDecision PolicyCheckOutcome.
Proof. solve_decision. Defined.

Record PolicyCheck := { pc_rule : PolicyRule; pc_outcome : PolicyCheckOutcome }.
#[export] Instance PolicyCheck_eq_dec : EqDecision PolicyCheck.
Proof. solve_decision. Defined.

Inductive PolicyApprover :=
| PolicyApprover_Hook
| PolicyApprover_User (user_id : option string).
#[export] Instance PolicyApprover_eq_dec : EqDecision PolicyApprover.
Proof. solve_decision. Defined.

Record PolicyApproval := {
  pa_approver : PolicyApprover;
  pa_remember : option string;
  pa_request_id : option string;
}.
#[export] Instance PolicyApproval_eq_dec : EqDecision PolicyApproval.
Proof. solve_decision. Defined.

Record PolicyDecision := {
  pd_tool_use_id : string;
  pd_tool : string;
  pd_verdict : ToolGateVerdict;
  pd_reason : option string;
  pd_decided_by : PolicyRule;
  pd_trace : list PolicyCheck;
  pd_approval : option PolicyApproval;
  pd_mode : string;
  pd_policy_hash : string;
  pd_action_id : option string;
}.
#[export] Instance PolicyDecision_eq_dec : EqDecision PolicyDecision.
Proof. solve_decision. Defined.

(** * Proposals, actions, effects ([proposal.rs], [action.rs], [effect.rs]) *)
Inductive ActionKind :=
| ActionKind_Reason | ActionKind_Memorize | ActionKind_Decide | ActionKind_Delegate.
#[export] Instance ActionKind_eq_dec : EqDecision ActionKind.
Proof. solve_decision. Defined.

Record Proposal := {
  prop_action_kind : ActionKind;
  prop_payload : bytes;
  prop_rationale : option string;
}.
Definition Proposal_new (action_kind : ActionKind) (payload : bytes) : Proposal :=
  {| prop_action_kind := action_kind; prop_payload := payload; prop_rationale := None |}.

Record Trace := {
  trace_model : option string;
  trace_latency_ms : option Z;
  trace_metadata : gmap string string;
}.
Record ProposalSet := { ps_proposals : list Proposal; ps_trace : option Trace }.
Definition ProposalSet_new : ProposalSet := {| ps_proposals := []; ps_trace := None |}.
Definition with_proposals (proposals : list Proposal) : ProposalSet :=
  {| ps_proposals := proposals; ps_trace := None |}.

Record RejectedProposal := { rp_proposal_index : Z; rp_reason : string }.
Record Decision := { accepted_action_ids : list ActionId; rejected : list RejectedProposal }.
Definition Decision_new : Decision := {| accepted_action_ids := []; rejected := [] |}.
Definition Decision_accept (d : Decision) (action_id : ActionId) : Decision :=
  {| accepted_action_ids := accepted_action_ids d ++ [action_id]; rejected := rejected d |}.
Definition Decision_reject (d : Decision) (proposal_index : Z) (reason : string) : Decision :=
  {| accepted_action_ids := accepted_action_ids d;
     rejected := rejected d ++ [{| rp_proposal_index := proposal_index; rp_reason := reason |}] |}.

Record Action := { action_id : ActionId; action_kind : ActionKind; action_payload : bytes }.
Definition Action_new (id : ActionId) (kind : ActionKind) (payload : bytes) : Action :=
  {| action_id := id; action_kind := kind; action_payload := payload |}.

Inductive EffectKind :=
| EffectKind_Proposal | EffectKind_Artifact | EffectKind_Belief | EffectKind_Agreement.
Inductive EffectStatus := EffectStatus_Committed | EffectStatus_Pending | EffectStatus_Failed.
#[export] Instance EffectKind_eq_dec : EqDecision EffectKind.
Proof. solve_decision. Defined.
#[export] Instance EffectStatus_eq_dec : EqDecision EffectStatus.
Proof. solve_decision. Defined.

Record Effect := {
  effect_action_id : ActionId;
  effect_kind : EffectKind;
  effect_status : EffectStatus;
  effect_payload : bytes;
}.
Definition Effect_new (id : ActionId) (kind : EffectKind) (status : EffectStatus)
    (payload : bytes) : Effect :=
  {| effect_action_id := id; effect_kind := kind; effect_status := status;
     effect_payload := payload |}.
Definition committed_agreement (id : ActionId) (payload : bytes) : Effect :=
  Effect_new id EffectKind_Agreement EffectStatus_Committed payload.
Definition Effect_failed (id : ActionId) (kind : EffectKind) (error : bytes) : Effect :=
  Effect_new id kind EffectStatus_Failed error.
Definition Effect_pending (id : ActionId) (kind : EffectKind) : Effect :=
  Effect_new id kind EffectStatus_Pending [].

#[export] Instance Proposal_eq_dec : EqDecision Proposal.
Proof. solve_decision. Defined.
#[export] Instance Trace_eq_dec : EqDecision Trace.
Proof. solve_decision. Defined.
#[export] Instance ProposalSet_eq_dec : EqDecision ProposalSet.
Proof. solve_decision. Defined.
#[export] Instance RejectedProposal_eq_dec : EqDecision RejectedProposal.
Proof. solve_decision. Defined.
#[export] Instance Decision_eq_dec : EqDecision Decision.
Proof. solve_decision. Defined.
#[export] Instance Action_eq_dec : EqDecision Action.
Proof. solve_decision. Defined.
#[export] Instance Effect_eq_dec : EqDecision Effect.
Proof. solve_decision. Defined.

(** * Transactions ([transaction.rs]) *)
Inductive TransactionType :=
| TransactionType_UserPrompt | TransactionType_AgentMsg | TransactionType_Trigger
| TransactionType_ActionResult | TransactionType_System | TransactionType_SessionStart
| TransactionType_ToolProposal | TransactionType_ToolExecution
| TransactionType_PolicyDecision | TransactionType_ProcessComplete
| TransactionType_Reasoning | TransactionType_SubagentSpawn.
#[export] Instance TransactionType_eq_dec : EqDecision TransactionType.
Proof. solve_decision. Defined.

Record Transaction := {
  tx_hash : Hash;
  tx_agent_id : AgentId;
  tx_ts_ms : Z;
  tx_type : TransactionType;
  tx_payload : bytes;
  tx_reference_tx_hash : option Hash;
}.
#[export] Instance Transaction_eq_dec : EqDecision Transaction.
Proof. solve_decision. Defined.

Definition with_reference (tx : Transaction) (h : Hash) : Transaction :=
  {| tx_hash := tx_hash tx; tx_agent_id := tx_agent_id tx; tx_ts_ms := tx_ts_ms tx;
     tx_type := tx_type tx; tx_payload := tx_payload tx; tx_reference_tx_hash := Some h |}.

Section Transactions.
Context `{Blake3}.
Context `{Serde ToolProposal, Serde ToolExecution, Serde PolicyDecision}.

Definition Transaction_new (hash : Hash) (agent_id : AgentId) (ts_ms : Z)
    (ty : TransactionType) (payload : bytes) : Transaction :=
  {| tx_hash := hash; tx_agent_id := agent_id; tx_ts_ms := ts_ms; tx_type := ty;
     tx_payload := payload; tx_reference_tx_hash := None |}.

Definition new_chained (now_ms : Z) (agent_id : AgentId) (ty : TransactionType)
    (payload : bytes) (prev_hash : option Hash) : Transaction :=
  {| tx_hash := from_content_chained payload prev_hash; tx_agent_id := agent_id;
     tx_ts_ms := now_ms; tx_type := ty; tx_payload := payload; tx_reference_tx_hash := None |}.

Definition user_prompt (now_ms : Z) (agent_id : AgentId) (payload : bytes) : Transaction :=
  new_chained now_ms agent_id TransactionType_UserPrompt payload None.
Definition user_prompt_chained (now_ms : Z) (agent_id : AgentId) (payload : bytes)
    (prev_hash : Hash) : Transaction :=
  new_chained now_ms agent_id TransactionType_UserPrompt payload (Some prev_hash).
Definition action_result (now_ms : Z) (agent_id : AgentId) (payload : bytes) : Transaction :=
  new_chained now_ms agent_id TransactionType_ActionResult payload None.
Definition action_result_with_reference (now_ms : Z) (agent_id : AgentId) (payload : bytes)
    (reference_tx_hash : Hash) (prev_hash : option Hash) : Transaction :=
  {| tx_hash := from_content_chained payload prev_hash; tx_agent_id := agent_id;
     tx_ts_ms := now_ms; tx_type := TransactionType_ActionResult; tx_payload := payload;
     tx_reference_tx_hash := Some reference_tx_hash |}.
Definition session_start (now_ms : Z) (agent_id : AgentId) : Transaction :=
  new_chained now_ms agent_id TransactionType_SessionStart
    (string_to_bytes "session_start") None.

Definition tool_proposal (now_ms : Z) (agent_id : AgentId) (proposal : ToolProposal)
  : result serde_error Transaction :=
  payload ← to_vec proposal;
  mret (new_chained now_ms agent_id TransactionType_ToolProposal payload None).

Definition tool_execution (now_ms : Z) (agent_id : AgentId) (execution : ToolExecution)
  : result serde_error Transaction :=
  payload ← to_vec execution;
  mret (new_chained now_ms agent_id TransactionType_ToolExecution payload None).

Definition tool_execution_for_decision (now_ms : Z) (agent_id : AgentId)
    (execution : ToolExecution) (decision_tx_hash : Hash) : result serde_error Transaction :=
  tx ← tool_execution now_ms agent_id execution;
  mret (with_reference tx decision_tx_hash).

Definition policy_decision (now_ms : Z) (agent_id : AgentId) (decision : PolicyDecision)
    (proposal_tx_hash : Hash) : result serde_error Transaction :=
  payload ← to_vec decision;
  let tx := new_chained now_ms agent_id TransactionType_PolicyDecision payload
              (Some proposal_tx_hash) in
  mret (with_reference tx proposal_tx_hash).
End Transactions.

(** * Record entries ([record.rs]) *)
Definition KERNEL_VERSION : Z := 1.

Record RecordEntry := {
  re_seq : Z;
  re_tx : Transaction;
  re_kernel_version : Z;
  re_context_hash : ContextHash;
  re_proposals : ProposalSet;
  re_decision : Decision;
  re_actions : list Action;
  re_effects : list Effect;
}.
#[export] Instance RecordEntry_eq_dec : EqDecision RecordEntry.
Proof. solve_decision. Defined.

Record RecordEntryBuilder := {
  b_seq : Z;
  b_tx : Transaction;
  b_context_hash : ContextHash;
  b_proposals : ProposalSet;
  b_decision : Decision;
  b_actions : list Action;
  b_effects : list Effect;
}.
Definition builder (seq : Z) (tx : Transaction) : RecordEntryBuilder :=
  {| b_seq := seq; b_tx := tx; b_context_hash := ContextHash_zero;
     b_proposals := ProposalSet_new; b_decision := Decision_new; b_actions := [];
     b_effects := [] |}.
Definition with_context_hash (b : RecordEntryBuilder) (h : ContextHash) : RecordEntryBuilder :=
  {| b_seq := b_seq b; b_tx := b_tx b; b_context_hash := h; b_proposals := b_proposals b;
     b_decision := b_decision b; b_actions := b_actions b; b_effects := b_effects b |}.
Definition with_proposal_set (b : RecordEntryBuilder) (ps : ProposalSet) : RecordEntryBuilder :=
  {| b_seq := b_seq b; b_tx := b_tx b; b_context_hash := b_context_hash b; b_proposals := ps;
     b_decision := b_decision b; b_actions := b_actions b; b_effects := b_effects b |}.
Definition with_decision (b : RecordEntryBuilder) (d : Decision) : RecordEntryBuilder :=
  {| b_seq := b_seq b; b_tx := b_tx b; b_context_hash := b_context_hash b;
     b_proposals := b_proposals b; b_decision := d; b_actions := b_actions b;
     b_effects := b_effects b |}.
Definition with_actions (b : RecordEntryBuilder) (a : list Action) : RecordEntryBuilder :=
  {| b_seq := b_seq b; b_tx := b_tx b; b_context_hash := b_context_hash b;
     b_proposals := b_proposals b; b_decision := b_decision b; b_actions := a;
     b_effects := b_effects b |}.
Definition with_effects (b : RecordEntryBuilder) (e : list Effect) : RecordEntryBuilder :=
  {| b_seq := b_seq b; b_tx := b_tx b; b_context_hash := b_context_hash b;
     b_proposals := b_proposals b; b_decision := b_decision b; b_actions := b_actions b;
     b_effects := e |}.
Definition build (b : RecordEntryBuilder) : RecordEntry :=
  {| re_seq := b_seq b; re_tx := b_tx b; re_kernel_version := KERNEL_VERSION;
     re_context_hash := b_context_hash b; re_proposals := b_proposals b;
     re_decision := b_decision b; re_actions := b_actions b; re_effects := b_effects b |}.

(** * Agent status ([status.rs]) *)
Inductive AgentStatus := AgentStatus_Active | AgentStatus_Paused | AgentStatus_Dead.
#[export] Instance AgentStatus_eq_dec : EqDecision AgentStatus.
Proof. solve_decision. Defined.

Definition status_as_byte (s : AgentStatus) : byte :=
  match s with
  | AgentStatus_Active => "000"%byte
  | AgentStatus_Paused => "001"%byte
  | AgentStatus_Dead => "002"%byte
  end.
Definition status_from_byte (b : byte) : option AgentStatus :=
  if bool_decide (b = "000"%byte) then Some AgentStatus_Active
  else if bool_decide (b = "001"%byte) then Some AgentStatus_Paused
  else if bool_decide (b = "002"%byte) then Some AgentStatus_Dead
  else None.

(** * Laws *)
Lemma status_roundtrip s : status_from_byte (status_as_byte s) = Some s.
Proof. by destruct s. Qed.

Lemma id_hex_roundtrip `{Hex} {n} (id : arr n) : id_from_hex n (id_to_hex id) = Ok id.
Proof.
  unfold id_from_hex, id_to_hex. rewrite hex_roundtrip. simpl. by rewrite arr_try_from_bytes.
Qed.

Lemma from_content_chained_eq `{Blake3} content prev :
  from_content_chained content prev =
  blake3_hash (content ++ match prev with Some p => arr_bytes p | None => [] end).
Proof.
  unfold from_content_chained. destruct prev as [p|].
  - pose proof (blake3_parts [content; arr_bytes p]) as Hp. simpl in Hp.
    by rewrite app_nil_r in Hp.
  - pose proof (blake3_parts [content]) as Hp. simpl in Hp. by rewrite app_nil_r in *.
Qed.

Lemma compute_context_hash_eq `{Blake3} a b : compute_context_hash a b = blake3_hash (a ++ b).
Proof.
  unfold compute_context_hash, hash_many. rewrite blake3_parts. simpl. by rewrite app_nil_r.
Qed.

(** ** Redaction *)
Inductive json_step := StepKey (k : string) | StepIndex (i : nat).

(** The value at a path of object keys and array indices. *)
Fixpoint json_at (path : list json_step) (v : json) : option json :=
  match path with
  | [] => Some v
  | StepKey k :: p => json_get k v ≫= json_at p
  | StepIndex i :: p => match v with JArray items => items !! i ≫= json_at p | _ => None end
  end.

Definition step_sensitive (s : json_step) : bool :=
  match s with StepKey k => is_sensitive_key k | StepIndex _ => false end.

Lemma fields_get_redact k fs :
  fields_get k (List.map (fun '(k', v) =>
    (k', if is_sensitive_key k' then JString "***" else redact_sensitive_args v)) fs) =
  (fun v => if is_sensitive_key k then JString "***" else redact_sensitive_args v) <$> fields_get k fs.
Proof.
  induction fs as [|[k' v] fs IH]; [done|]. simpl. case_bool_decide; subst; [done|apply IH].
Qed.

Lemma json_at_redact_clear path v :
  forallb (fun s => negb (step_sensitive s)) path = true ->
  json_at path (redact_sensitive_args v) = redact_sensitive_args <$> json_at path v.
Proof.
  revert v; induction path as [|[k|i] path IH]; intros v; [done|..]; simpl.
  - intros [Hk%negb_true_iff Hp]%andb_true_iff.
    unfold json_get. destruct v as [| | | | |fs]; try done. simpl. rewrite fields_get_redact, Hk.
    destruct (fields_get k fs); simpl; [by apply IH|done].
  - intros Hp. destruct v as [| | | |items|]; try done. simpl.
    rewrite list_lookup_fmap. destruct (items !! i); simpl; [by apply IH|done].
Qed.

Lemma json_at_app p q v : json_at (p ++ q) v = json_at p v ≫= json_at q.
Proof.
  revert v; induction p as [|[k|i] p IH]; intros v; simpl; [done|..].
  - destruct (json_get k v); simpl; [apply IH|done].
  - destruct v as [| | | |items|]; try done. destruct (items !! i); simpl; [apply IH|done].
Qed.

Lemma json_at_leaf s q : q <> [] -> json_at q (JString s) = None.
Proof. by destruct q as [|[]]. Qed.

Lemma json_at_first_sensitive path :
  existsb step_sensitive path = true ->
  exists p k q, path = p ++ StepKey k :: q /\ is_sensitive_key k = true
    /\ forallb (fun s => negb (step_sensitive s)) p = true.
Proof.
  induction path as [|s path IH]; simpl; [done|].
  destruct (step_sensitive s) eqn:Es; simpl.
  - intros _. destruct s as [k|]; [|done]. by exists [], k, path.
  - intros (p & k & q & -> & Hk & Hp)%IH. exists (s :: p), k, q. simpl. by rewrite Es, Hp.
Qed.

(** The [Debug] rendering of a tool call leaks no credential: at any depth,
    a path through a sensitive key (matched case-insensitively) reaches only
    the mask ["***"], and every other path reaches the redaction of what it
    reached before, so non-secret arguments stay visible. *)
Theorem redact_hides_credentials (v : json) (path : list json_step) :
  json_at path (redact_sensitive_args v) =
  if existsb step_sensitive path then
    match json_at path (redact_sensitive_args v) with Some _ => Some (JString "***") | None => None end
  else redact_sensitive_args <$> json_at path v.
Proof.
  destruct (existsb step_sensitive path) eqn:E.
  - apply json_at_first_sensitive in E as (p & k & q & -> & Hk & Hp).
    rewrite json_at_app, json_at_redact_clear by done.
    destruct (json_at p v) as [u|]; [|done]. simpl. unfold json_get.
    destruct u as [| | | | |fs]; try done. simpl. rewrite fields_get_redact, Hk.
    destruct (fields_get k fs); [|done]. simpl. destruct q; [done|]. by rewrite json_at_leaf.
  - apply json_at_redact_clear. apply forallb_forall. intros s Hs.
    apply negb_true_iff. destruct (step_sensitive s) eqn:Es; [|done].
    assert (existsb step_sensitive path = true); [|congruence].
    apply existsb_exists. eauto.
Qed.
