(* ===== verification/Policy.v ===== *)
(** The policy engine of [aura-agent-kernel] ([policy/config.rs],
    [policy/check/*.rs]): the authorisation pipeline every tool proposal goes
    through, with the provenance it records.

    A [Policy] value carries the session grants ([session_tool_states], a
    mutex-protected map in the code) as a field; the operations that write it
    return the new value.  [&mut trace] is threaded as the last component of
    the result.  [snapshot_hash], computed once from the configuration, is a
    field set at construction. *)
From S2P Require Import Prelude Values Modes Permissions CoreTypes.
From stdpp Require Import list.

(** [Debug] of a [str]: its escaping follows Unicode tables. *)
Class StrDebug := str_debug : string -> string.

(** * Configuration ([config.rs]) *)
#[export] Instance ActionKind_countable : Countable ActionKind.
Proof.
  refine (inj_countable'
    (fun k => match k with ActionKind_Reason => 0 | ActionKind_Memorize => 1
                         | ActionKind_Decide => 2 | ActionKind_Delegate => 3 end)
    (fun n => match n with 0 => ActionKind_Reason | 1 => ActionKind_Memorize
                         | 2 => ActionKind_Decide | _ => ActionKind_Delegate end) _).
  by intros [].
Defined.

Record PolicyConfig := {
  allowed_action_kinds : gset ActionKind;
  cfg_max_proposals : Z;
  cfg_installed_integrations : list InstalledIntegrationDefinition;
  tool_integration_requirements : gmap string InstalledToolIntegrationRequirement;
  agent_permissions : Permissions;
  tool_capability_requirements : gmap string Capability;
  user_default : UserToolDefaults;
  agent_override : option AgentToolPermissions;
  cfg_mode : AgentMode;
}.

Definition PolicyConfig_default : PolicyConfig :=
  {| allowed_action_kinds :=
       {[ ActionKind_Reason; ActionKind_Memorize; ActionKind_Decide; ActionKind_Delegate ]};
     cfg_max_proposals := 8;
     cfg_installed_integrations := [];
     tool_integration_requirements := ∅;
     agent_permissions := Permissions_full_access;
     tool_capability_requirements :=
       list_to_map
         [("spawn_agent", Capability_SpawnAgent); ("task", Capability_SpawnAgent);
          ("send_to_agent", Capability_ControlAgent); ("agent_lifecycle", Capability_ControlAgent);
          ("delegate_task", Capability_ControlAgent); ("get_agent_state", Capability_ReadAgent);
          ("list_agents", Capability_ListAgents); ("run_command", Capability_InvokeProcess);
          ("post_to_feed", Capability_PostToFeed); ("check_budget", Capability_ManageBilling);
          ("record_usage", Capability_ManageBilling); ("computer", Capability_ComputerUse)];
     user_default := utd_full_access;
     agent_override := None;
     cfg_mode := AgentMode_Agent |}.

(** The builder methods [with_agent_permissions], [with_user_default],
    [with_agent_override], [with_mode], [with_tool_capability]. *)
Definition with_agent_permissions (c : PolicyConfig) (p : Permissions) : PolicyConfig :=
  {| allowed_action_kinds := allowed_action_kinds c; cfg_max_proposals := cfg_max_proposals c;
     cfg_installed_integrations := cfg_installed_integrations c;
     tool_integration_requirements := tool_integration_requirements c;
     agent_permissions := p; tool_capability_requirements := tool_capability_requirements c;
     user_default := user_default c; agent_override := agent_override c; cfg_mode := cfg_mode c |}.
Definition with_user_default (c : PolicyConfig) (u : UserToolDefaults) : PolicyConfig :=
  {| allowed_action_kinds := allowed_action_kinds c; cfg_max_proposals := cfg_max_proposals c;
     cfg_installed_integrations := cfg_installed_integrations c;
     tool_integration_requirements := tool_integration_requirements c;
     agent_permissions := agent_permissions c;
     tool_capability_requirements := tool_capability_requirements c;
     user_default := u; agent_override := agent_override c; cfg_mode := cfg_mode c |}.
Definition with_agent_override (c : PolicyConfig) (o : option AgentToolPermissions) : PolicyConfig :=
  {| allowed_action_kinds := allowed_action_kinds c; cfg_max_proposals := cfg_max_proposals c;
     cfg_installed_integrations := cfg_installed_integrations c;
     tool_integration_requirements := tool_integration_requirements c;
     agent_permissions := agent_permissions c;
     tool_capability_requirements := tool_capability_requirements c;
     user_default := user_default c; agent_override := o; cfg_mode := cfg_mode c |}.
Definition with_mode (c : PolicyConfig) (m : AgentMode) : PolicyConfig :=
  {| allowed_action_kinds := allowed_action_kinds c; cfg_max_proposals := cfg_max_proposals c;
     cfg_installed_integrations := cfg_installed_integrations c;
     tool_integration_requirements := tool_integration_requirements c;
     agent_permissions := agent_permissions c;
     tool_capability_requirements := tool_capability_requirements c;
     user_default := user_default c; agent_override := agent_override c; cfg_mode := m |}.

(** * Live prompts ([kernel/mod.rs]) *)
Inductive ToolApprovalRemember :=
| ToolApprovalRemember_Once | ToolApprovalRemember_Session | ToolApprovalRemember_Forever.
#[export] Instance ToolApprovalRemember_eq_dec : EqDecision ToolApprovalRemember.
Proof. solve_decision. Defined.

Record PendingToolPrompt := {
  ptp_request_id : string;
  ptp_tool_name : string;
  ptp_args : json;
  ptp_agent_id : AgentId;
  ptp_remember_options : list ToolApprovalRemember;
}.
#[export] Instance PendingToolPrompt_eq_dec : EqDecision PendingToolPrompt.
Proof. solve_decision. Defined.

(** * Verdicts ([verdict.rs]) *)
Inductive PolicyVerdict :=
| PolicyVerdict_Allow
| PolicyVerdict_RequireApproval (reason : string) (prompt : option PendingToolPrompt)
| PolicyVerdict_Deny (reason : string).
#[export] Instance PolicyVerdict_eq_dec : EqDecision PolicyVerdict.
Proof. solve_decision. Defined.

Definition is_allowed (v : PolicyVerdict) : bool :=
  match v with PolicyVerdict_Allow => true | _ => false end.

Definition verdict_reason (v : PolicyVerdict) : option string :=
  match v with
  | PolicyVerdict_Allow => None
  | PolicyVerdict_RequireApproval reason _ | PolicyVerdict_Deny reason => Some reason
  end.

Definition outcome_of (v : PolicyVerdict) : PolicyCheckOutcome :=
  match v with
  | PolicyVerdict_Allow => PolicyCheckOutcome_Allow
  | PolicyVerdict_RequireApproval _ _ => PolicyCheckOutcome_Ask
  | PolicyVerdict_Deny _ => PolicyCheckOutcome_Deny
  end.

Record PolicyEvaluation := {
  ev_verdict : PolicyVerdict;
  ev_decided_by : PolicyRule;
  ev_trace : list PolicyCheck;
  ev_approval : option PolicyApproval;
}.

Definition PolicyEvaluation_new (verdict : PolicyVerdict) (decided_by : PolicyRule)
    (trace : list PolicyCheck) : PolicyEvaluation :=
  {| ev_verdict := verdict; ev_decided_by := decided_by; ev_trace := trace; ev_approval := None |}.

(** [PolicyEvaluation::decide]. *)
Definition ev_decide (e : PolicyEvaluation) (verdict : PolicyVerdict) (rule : PolicyRule)
  : PolicyEvaluation :=
  let check := {| pc_rule := rule; pc_outcome := outcome_of verdict |} in
  {| ev_verdict := verdict;
     ev_decided_by := rule;
     ev_trace := if bool_decide (last (ev_trace e) = Some check) then ev_trace e
                 else ev_trace e ++ [check];
     ev_approval := ev_approval e |}.

Definition ev_set_approval (e : PolicyEvaluation) (a : PolicyApproval) : PolicyEvaluation :=
  {| ev_verdict := ev_verdict e; ev_decided_by := ev_decided_by e; ev_trace := ev_trace e;
     ev_approval := Some a |}.

Record PolicyResult := { pres_allowed : bool; pres_reason : option string; pres_verdict : PolicyVerdict }.
Definition PolicyResult_from (verdict : PolicyVerdict) : PolicyResult :=
  {| pres_allowed := is_allowed verdict; pres_reason := verdict_reason verdict;
     pres_verdict := verdict |}.

(** * The engine ([check/mod.rs]) *)
Record Policy := {
  pol_config : PolicyConfig;
  session_tool_states : gmap string ToolState;
  pol_snapshot_hash : string;
}.

(** [Policy::new], given the configuration's [snapshot_hash]. *)
Definition Policy_new (snapshot_hash : PolicyConfig -> string) (config : PolicyConfig) : Policy :=
  {| pol_config := config; session_tool_states := ∅; pol_snapshot_hash := snapshot_hash config |}.

Definition remember_tool_state_for_session (p : Policy) (tool : string) (state : ToolState) : Policy :=
  {| pol_config := pol_config p;
     session_tool_states := <[tool := state]> (session_tool_states p);
     pol_snapshot_hash := pol_snapshot_hash p |}.

Definition clear_session_approvals (p : Policy) : Policy :=
  {| pol_config := pol_config p; session_tool_states := ∅; pol_snapshot_hash := pol_snapshot_hash p |}.

Definition session_tool_state (p : Policy) (tool : string) : option ToolState :=
  session_tool_states p !! tool.

Definition tool_state_label (s : ToolState) : string :=
  match s with ToolState_Allow => "on" | ToolState_Deny => "off" | ToolState_Ask => "ask" end.

Definition mk_rule (source : PolicySource) (rule : string) : PolicyRule :=
  {| pr_source := source; pr_rule := rule |}.
Definition mk_check (rule : PolicyRule) (outcome : PolicyCheckOutcome) : PolicyCheck :=
  {| pc_rule := rule; pc_outcome := outcome |}.

Definition session_rule (tool : string) (state : ToolState) : PolicyRule :=
  mk_rule PolicySource_SessionGrant (tool +++ "=" +++ tool_state_label state).

Definition permission_rule (tool : string) (state : ToolState) (layer : PermissionLayer) : PolicyRule :=
  let state := tool_state_label state in
  match layer with
  | PermissionLayer_AgentOverride =>
      mk_rule PolicySource_AgentOverride ("per_tool[" +++ tool +++ "]=" +++ state)
  | PermissionLayer_UserFullAccess => mk_rule PolicySource_UserDefault "full_access"
  | PermissionLayer_UserAutoReview => mk_rule PolicySource_UserDefault "auto_review"
  | PermissionLayer_UserPerTool =>
      mk_rule PolicySource_UserDefault ("per_tool[" +++ tool +++ "]=" +++ state)
  | PermissionLayer_UserFallback => mk_rule PolicySource_UserDefault ("fallback=" +++ state)
  end.

(** ** Mode classification ([mode_gate.rs]) *)
Inductive ToolModeClass :=
| ToolModeClass_Read | ToolModeClass_FileWrite | ToolModeClass_MarkdownDocument
| ToolModeClass_WorkspaceMutation | ToolModeClass_Subprocess | ToolModeClass_Network
| ToolModeClass_Spawn | ToolModeClass_Invoke.

Definition tool_mode_class (tool : string) : option ToolModeClass :=
  let among l := bool_decide (tool ∈ l) in
  if among ["read_file"; "list_files"; "stat_file"; "find_files"; "search_code"; "get_agent_state";
         "list_agents"]
  then Some ToolModeClass_Read
  else if among ["write_file"; "edit_file"; "delete_file"] then Some ToolModeClass_FileWrite
  else if among ["create_spec"; "update_spec"; "update_spec_section"; "append_to_spec"; "delete_spec"]
  then Some ToolModeClass_MarkdownDocument
  else if among ["git_commit"] then Some ToolModeClass_WorkspaceMutation
  else if among ["run_command"] then Some ToolModeClass_Subprocess
  else if among ["git_push"; "git_commit_push"; "orbit_push"; "orbit_create_repo";
              "orbit_create_branch"; "orbit_create_pr"; "orbit_merge_pr"; "post_to_feed";
              "record_usage"; "create_task"; "update_task"; "delete_task"; "transition_task";
              "update_project"; "computer"]
  then Some ToolModeClass_Network
  else if among ["spawn_agent"; "task"; "delegate_task"; "send_to_agent"; "agent_lifecycle";
              "run_task"; "start_dev_loop"; "pause_dev_loop"; "stop_dev_loop"]
  then Some ToolModeClass_Spawn
  else if among ["list_specs"; "get_spec"; "list_tasks"; "list_projects"; "get_project";
              "check_budget"; "orbit_list_repos"; "orbit_list_branches"; "orbit_list_commits";
              "orbit_get_diff"; "orbit_list_prs"; "get_task_context"; "task_done"; "submit_plan"]
  then Some ToolModeClass_Invoke
  else None.

Definition targets_markdown (args : json) : bool :=
  match json_get_str "path" args ≫= path_extension with
  | Some ext => eq_ignore_ascii_case ext "md" || eq_ignore_ascii_case ext "markdown"
  | None => false
  end.

Definition gated_action (tc : ToolCall) : GatedAction :=
  match tool_mode_class (tool_call_tool tc) with
  | Some ToolModeClass_Read => GatedAction_ReadFile
  | Some ToolModeClass_FileWrite =>
      if targets_markdown (tool_call_args tc) then GatedAction_WriteMarkdown
      else GatedAction_WriteNonMarkdown
  | Some ToolModeClass_MarkdownDocument => GatedAction_WriteMarkdown
  | Some ToolModeClass_WorkspaceMutation => GatedAction_WriteNonMarkdown
  | Some ToolModeClass_Subprocess => GatedAction_Subprocess
  | Some ToolModeClass_Network | None => GatedAction_Network
  | Some ToolModeClass_Spawn => GatedAction_SpawnAgent
  | Some ToolModeClass_Invoke => GatedAction_ToolInvoke (tool_call_tool tc)
  end.

Definition check_mode (p : Policy) (tc : ToolCall) : option PolicyVerdict :=
  let mode := cfg_mode (pol_config p) in
  if bool_decide (mode = AgentMode_Agent) then None
  else (fun violation =>
          PolicyVerdict_Deny ("Tool '" +++ tool_call_tool tc +++ "' denied by "
                              +++ AgentMode_debug mode +++ " mode: "
                              +++ ModeViolation_display violation))
       <$> result_err (gate_check mode (gated_action tc)).

Definition mode_label (m : AgentMode) : string := to_ascii_lowercase (AgentMode_debug m).

Section Engine.
Context `{StrDebug}.

(** Derived [Debug] of a capability. *)
Definition Capability_debug (c : Capability) : string :=
  match c with
  | Capability_SpawnAgent => "SpawnAgent"
  | Capability_ControlAgent => "ControlAgent"
  | Capability_ReadAgent => "ReadAgent"
  | Capability_ListAgents => "ListAgents"
  | Capability_ManageOrgMembers => "ManageOrgMembers"
  | Capability_ManageBilling => "ManageBilling"
  | Capability_InvokeProcess => "InvokeProcess"
  | Capability_PostToFeed => "PostToFeed"
  | Capability_GenerateMedia => "GenerateMedia"
  | Capability_ComputerUse => "ComputerUse"
  | Capability_ReadProject id => "ReadProject { id: " +++ str_debug id +++ " }"
  | Capability_WriteProject id => "WriteProject { id: " +++ str_debug id +++ " }"
  | Capability_ReadAllProjects => "ReadAllProjects"
  | Capability_WriteAllProjects => "WriteAllProjects"
  end.

Definition ActionKind_debug (k : ActionKind) : string :=
  match k with
  | ActionKind_Reason => "Reason" | ActionKind_Memorize => "Memorize"
  | ActionKind_Decide => "Decide" | ActionKind_Delegate => "Delegate"
  end.

(** ** Scope ([scope.rs]) *)
Definition axis_violation (axis : list string) (target : option string) (label : string)
  : option string :=
  match target with
  | Some id =>
      if negb (is_nil axis) && negb (existsb (fun o => bool_decide (o = id)) axis)
      then Some ("permissions: target out of scope (" +++ label +++ " '" +++ id +++ "')")
      else None
  | None => None
  end.

Definition scope_violation (scope : AgentScope) (args : json) : option string :=
  if is_universe scope then None
  else match json_as_object args with
       | None => None
       | Some obj =>
           let target k := fields_get k obj ≫= json_as_str in
           match axis_violation (scope_orgs scope) (target "target_org_id") "org" with
           | Some r => Some r
           | None =>
               match axis_violation (scope_projects scope) (target "target_project_id") "project" with
               | Some r => Some r
               | None => axis_violation (scope_agent_ids scope) (target "target_agent_id") "agent"
               end
           end
       end.

(** ** Per-agent permissions ([agent_permissions.rs]) *)
Definition resolve_tool_state_with_source (p : Policy) (tool : string)
  : ToolState * PermissionLayer :=
  resolve_effective_permission_with_source
    (user_default (pol_config p)) (agent_override (pol_config p)) tool.
Definition resolve_tool_state (p : Policy) (tool : string) : ToolState :=
  (resolve_tool_state_with_source p tool).1.

Definition check_agent_permissions (p : Policy) (tc : ToolCall) : option PolicyResult :=
  let permissions := agent_permissions (pol_config p) in
  let missing :=
    match tool_capability_requirements (pol_config p) !! tool_call_tool tc with
    | Some required =>
        if existsb (fun held => satisfies held required) (perm_capabilities permissions) then None
        else Some required
    | None => None
    end in
  match missing with
  | Some required =>
      Some (PolicyResult_from
              (PolicyVerdict_Deny ("permissions: requires capability " +++ Capability_debug required)))
  | None =>
      match scope_violation (perm_scope permissions) (tool_call_args tc) with
      | Some reason => Some (PolicyResult_from (PolicyVerdict_Deny reason))
      | None => None
      end
  end.

(** ** Integrations ([integration_gate.rs]) *)
Definition integration_reason (tool : string) (r : InstalledToolIntegrationRequirement) : string :=
  "Tool '" +++ tool +++ "' requires an installed integration"
  +++ match itir_provider r with Some x => " with provider '" +++ x +++ "'" | None => "" end
  +++ match itir_kind r with Some x => " and kind '" +++ x +++ "'" | None => "" end
  +++ match itir_integration_id r with Some x => " (integration_id '" +++ x +++ "')" | None => "" end.

Definition integration_requirement_satisfied (p : Policy) (tool : string)
    (runtime_capabilities : option RuntimeCapabilityInstall) : option string :=
  let configured := tool_integration_requirements (pol_config p) !! tool in
  let required : result string (option InstalledToolIntegrationRequirement) :=
    match runtime_capabilities with
    | Some rc =>
        match tool_capability rc tool with
        | Some tc => Ok (itc_required_integration tc)
        | None =>
            match configured with
            | Some _ => Err ("Tool '" +++ tool
                             +++ "' is not installed in the kernel runtime capability ledger")
            | None => Ok configured
            end
        end
    | None => Ok configured
    end in
  match required with
  | Err reason => Some reason
  | Ok None => None
  | Ok (Some r) =>
      let installed :=
        match runtime_capabilities with
        | None => installed_integrations_satisfy r (cfg_installed_integrations (pol_config p))
        | Some rc => rci_requirement_satisfied rc r
        end in
      if installed then None else Some (integration_reason tool r)
  end.

(** ** Tool gate ([check/mod.rs]) *)
Definition tool_gate_explained (p : Policy) (tool : string)
    (runtime_capabilities : option RuntimeCapabilityInstall) (trace : list PolicyCheck)
  : PolicyVerdict * PolicyRule * list PolicyCheck :=
  let integration_rule := mk_rule PolicySource_Integration "requirements" in
  match integration_requirement_satisfied p tool runtime_capabilities with
  | Some reason =>
      (PolicyVerdict_Deny reason, integration_rule,
       trace ++ [mk_check integration_rule PolicyCheckOutcome_Deny])
  | None =>
      let trace := trace ++ [mk_check integration_rule PolicyCheckOutcome_Allow] in
      let '(verdict, rule) :=
        match session_tool_state p tool with
        | Some state =>
            (match state with
             | ToolState_Allow => PolicyVerdict_Allow
             | ToolState_Deny => PolicyVerdict_Deny ("Tool '" +++ tool +++ "' was denied for this session")
             | ToolState_Ask => PolicyVerdict_RequireApproval ("Tool '" +++ tool +++ "' is set to ask") None
             end, session_rule tool state)
        | None =>
            let '(state, layer) := resolve_tool_state_with_source p tool in
            (match state with
             | ToolState_Deny => PolicyVerdict_Deny ("Tool '" +++ tool +++ "' is not allowed")
             | ToolState_Allow => PolicyVerdict_Allow
             | ToolState_Ask => PolicyVerdict_RequireApproval ("Tool '" +++ tool +++ "' is set to ask") None
             end, permission_rule tool state layer)
        end in
      (verdict, rule, trace ++ [mk_check rule (outcome_of verdict)])
  end.

(** ** Delegate proposals ([delegate_gate.rs]) *)
Context `{Serde ToolCall}.

Definition evaluate_delegate_explained (p : Policy) (payload : bytes)
    (runtime_capabilities : option RuntimeCapabilityInstall) (trace : list PolicyCheck)
  : PolicyVerdict * PolicyRule * list PolicyCheck :=
  match @from_slice ToolCall _ payload with
  | Err _ =>
      let rule := mk_rule PolicySource_MalformedProposal "delegate_payload" in
      (PolicyVerdict_Deny "Malformed delegate payload", rule,
       trace ++ [mk_check rule PolicyCheckOutcome_Deny])
  | Ok tool_call =>
      let mode_rule := mk_rule PolicySource_Mode (mode_label (cfg_mode (pol_config p))) in
      match check_mode p tool_call with
      | Some verdict => (verdict, mode_rule, trace ++ [mk_check mode_rule (outcome_of verdict)])
      | None =>
          let trace := trace ++ [mk_check mode_rule PolicyCheckOutcome_Allow] in
          let capability_rule :=
            mk_rule PolicySource_AgentCapability
              (match tool_capability_requirements (pol_config p) !! tool_call_tool tool_call with
               | None => "no_requirement"
               | Some cap => "requires " +++ Capability_debug cap
               end) in
          let continue :=
            tool_gate_explained p (tool_call_tool tool_call) runtime_capabilities
              (trace ++ [mk_check capability_rule PolicyCheckOutcome_Allow]) in
          match check_agent_permissions p tool_call with
          | Some r =>
              if pres_allowed r then continue
              else (PolicyVerdict_Deny (default "Policy denied" (pres_reason r)), capability_rule,
                    trace ++ [mk_check capability_rule PolicyCheckOutcome_Deny])
          | None => continue
          end
      end
  end.

(** ** The pipeline ([Policy::evaluate_proposal]) *)
Definition evaluate_proposal (p : Policy) (proposal : Proposal)
    (runtime_capabilities : option RuntimeCapabilityInstall) : PolicyEvaluation :=
  let kind := prop_action_kind proposal in
  let kind_rule := mk_rule PolicySource_ActionKind (to_ascii_lowercase (ActionKind_debug kind)) in
  if negb (bool_decide (kind ∈ allowed_action_kinds (pol_config p))) then
    PolicyEvaluation_new
      (PolicyVerdict_Deny ("Action kind " +++ ActionKind_debug kind +++ " not allowed"))
      kind_rule [mk_check kind_rule PolicyCheckOutcome_Deny]
  else
    let trace := [mk_check kind_rule PolicyCheckOutcome_Allow] in
    if bool_decide (kind = ActionKind_Delegate) then
      let '(verdict, rule, trace) :=
        evaluate_delegate_explained p (prop_payload proposal) runtime_capabilities trace in
      if negb (is_allowed verdict) then PolicyEvaluation_new verdict rule trace
      else PolicyEvaluation_new PolicyVerdict_Allow rule trace
    else PolicyEvaluation_new PolicyVerdict_Allow kind_rule trace.

Definition check_with_runtime_capabilities_verdict (p : Policy) (proposal : Proposal)
    (rc : option RuntimeCapabilityInstall) : PolicyVerdict :=
  ev_verdict (evaluate_proposal p proposal rc).
Definition check_with_runtime_capabilities (p : Policy) (proposal : Proposal)
    (rc : option RuntimeCapabilityInstall) : PolicyResult :=
  PolicyResult_from (check_with_runtime_capabilities_verdict p proposal rc).
Definition policy_check (p : Policy) (proposal : Proposal) : PolicyResult :=
  check_with_runtime_capabilities p proposal None.
Definition check_tool_with_runtime_capabilities_verdict (p : Policy) (tool : string) (input : json)
    (rc : option RuntimeCapabilityInstall) : PolicyVerdict :=
  (tool_gate_explained p tool rc []).1.1.
Definition check_tool (p : Policy) (tool : string) (input : json) : PolicyResult :=
  PolicyResult_from (check_tool_with_runtime_capabilities_verdict p tool input None).

(** ** Live prompts *)
Definition live_tool_prompt_explained (p : Policy) (tool : string) (args : json)
    (agent_id : AgentId) (request_id : string) (has_live_session : bool)
    (remember_options : list ToolApprovalRemember) : option (PolicyVerdict * PolicyRule) :=
  match session_tool_state p tool with
  | Some state =>
      match state with
      | ToolState_Allow | ToolState_Ask => None
      | ToolState_Deny =>
          Some (PolicyVerdict_Deny ("Tool '" +++ tool +++ "' was denied for this session"),
                session_rule tool state)
      end
  | None =>
      let '(state, layer) := resolve_tool_state_with_source p tool in
      if negb (bool_decide (state = ToolState_Ask)) then None
      else if negb has_live_session then
        Some (PolicyVerdict_Deny ("tool " +++ tool +++ " is set to ask; no session to prompt"),
              mk_rule PolicySource_NoLiveSession (tool +++ "=ask"))
      else
        Some (PolicyVerdict_RequireApproval ("Tool '" +++ tool +++ "' is set to ask")
                (Some {| ptp_request_id := request_id; ptp_tool_name := tool; ptp_args := args;
                         ptp_agent_id := agent_id; ptp_remember_options := remember_options |}),
              permission_rule tool state layer)
  end.
End Engine.

(** * What the gates mean *)

(** Every target the arguments name lies on the scope's axis. *)
Definition target_in_axis (axis : list string) (key : string) (args : json) : Prop :=
  forall id, json_get_str key args = Some id -> axis = [] \/ id ∈ axis.
Definition in_scope (scope : AgentScope) (args : json) : Prop :=
  target_in_axis (scope_orgs scope) "target_org_id" args
  /\ target_in_axis (scope_projects scope) "target_project_id" args
  /\ target_in_axis (scope_agent_ids scope) "target_agent_id" args.

(** The integration a tool needs is installed: the runtime ledger decides
    when there is one, and a configured requirement the ledger does not list
    is never met. *)
Definition integration_ok (p : Policy) (tool : string) (rc : option RuntimeCapabilityInstall) : Prop :=
  let configured := tool_integration_requirements (pol_config p) !! tool in
  match rc with
  | None => forall r, configured = Some r ->
      installed_integrations_satisfy r (cfg_installed_integrations (pol_config p)) = true
  | Some rc =>
      match tool_capability rc tool with
      | Some tc => forall r, itc_required_integration tc = Some r ->
          installed_integrations_satisfy r (rci_installed_integrations rc) = true
      | None => configured = None
      end
  end.

Definition capability_held (p : Policy) (tool : string) : Prop :=
  forall cap, tool_capability_requirements (pol_config p) !! tool = Some cap ->
    allows (agent_permissions (pol_config p)) cap = true.

(** The tri-state in force: a session grant overrides the stored policy. *)
Definition effective_tool_state (p : Policy) (tool : string) : ToolState :=
  default (resolve_tool_state p tool) (session_tool_state p tool).

(** The gates that no grant or approval can override. *)
Record hard_gates_pass (p : Policy) (tc : ToolCall) (rc : option RuntimeCapabilityInstall) : Prop := {
  hg_kind : ActionKind_Delegate ∈ allowed_action_kinds (pol_config p);
  hg_mode : is_ok (gate_check (cfg_mode (pol_config p)) (gated_action tc)) = true;
  hg_capability : capability_held p (tool_call_tool tc);
  hg_scope : in_scope (perm_scope (agent_permissions (pol_config p))) (tool_call_args tc);
  hg_integration : integration_ok p (tool_call_tool tc) rc;
}.

Lemma axis_violation_None axis target label :
  axis_violation axis target label = None <->
  forall id, target = Some id -> axis = [] \/ id ∈ axis.
Proof.
  unfold axis_violation. destruct target as [id|]; [|naive_solver].
  destruct axis as [|a axis]; simpl; [naive_solver|].
  destruct (existsb _ axis) eqn:E.
  - rewrite orb_true_r. simpl. split; [|done]. intros _ ? [= <-]. right; right.
    apply existsb_exists in E as (x & Hx & ->%bool_decide_eq_true). by apply list_elem_of_In.
  - rewrite orb_false_r. case_bool_decide; simpl; split; intros Hx; try done.
    + subst. intros ? [= <-]. right. left.
    + destruct (Hx id eq_refl) as [?|[?|Hin]%elem_of_cons]; try congruence.
      assert (existsb (fun o => bool_decide (o = id)) axis = true); [|congruence].
      apply existsb_exists. exists id. split; [by apply list_elem_of_In|by apply bool_decide_eq_true].
Qed.

Lemma scope_violation_None scope args :
  scope_violation scope args = None <-> in_scope scope args.
Proof.
  unfold scope_violation, in_scope, target_in_axis, json_get_str, json_get.
  destruct (is_universe scope) eqn:Eu.
  - unfold is_universe in Eu. rewrite !andb_true_iff in Eu.
    destruct scope as [[] [] []]; simpl in *; naive_solver.
  - destruct (json_as_object args) as [obj|]; simpl; [|naive_solver].
    pose proof (axis_violation_None (scope_orgs scope)
      (fields_get "target_org_id" obj ≫= json_as_str) "org") as H1.
    pose proof (axis_violation_None (scope_projects scope)
      (fields_get "target_project_id" obj ≫= json_as_str) "project") as H2.
    pose proof (axis_violation_None (scope_agent_ids scope)
      (fields_get "target_agent_id" obj ≫= json_as_str) "agent") as H3.
    destruct (axis_violation (scope_orgs scope) _ _); [naive_solver|].
    destruct (axis_violation (scope_projects scope) _ _); [naive_solver|].
    rewrite H3. naive_solver.
Qed.

Lemma check_agent_permissions_None `{StrDebug} p tc :
  check_agent_permissions p tc = None <->
  capability_held p (tool_call_tool tc)
  /\ in_scope (perm_scope (agent_permissions (pol_config p))) (tool_call_args tc).
Proof.
  rewrite <-scope_violation_None. unfold check_agent_permissions, capability_held.
  fold (allows (agent_permissions (pol_config p))).
  destruct (tool_capability_requirements _ !! _) as [cap|] eqn:E.
  - rewrite forall_Some. unfold allows. destruct (existsb _ _); [|naive_solver].
    destruct (scope_violation _ _); naive_solver.
  - rewrite forall_None. destruct (scope_violation _ _); naive_solver.
Qed.

Lemma integration_requirement_satisfied_None p tool rc :
  integration_requirement_satisfied p tool rc = None <-> integration_ok p tool rc.
Proof.
  unfold integration_requirement_satisfied, integration_ok, rci_requirement_satisfied.
  destruct rc as [rc|].
  - destruct (tool_capability rc tool) as [tc|].
    + destruct (itc_required_integration tc) as [r|]; rewrite ?forall_Some, ?forall_None; [|done].
      destruct (installed_integrations_satisfy _ _) eqn:E; naive_solver.
    + destruct (_ !! tool); naive_solver.
  - destruct (_ !! tool) as [r|]; rewrite ?forall_Some, ?forall_None; [|done].
    destruct (installed_integrations_satisfy _ _) eqn:E; naive_solver.
Qed.

Lemma check_mode_None p tc :
  check_mode p tc = None <-> is_ok (gate_check (cfg_mode (pol_config p)) (gated_action tc)) = true.
Proof.
  unfold check_mode. case_bool_decide as E; [rewrite E, gate_check_agent; done|].
  destruct (gate_check _ _); simpl; naive_solver.
Qed.

(** The rejections of [check_agent_permissions] and [check_mode] are denials. *)
Lemma check_agent_permissions_Some `{StrDebug} p tc r :
  check_agent_permissions p tc = Some r -> pres_allowed r = false.
Proof.
  unfold check_agent_permissions. repeat case_match; naive_solver.
Qed.
Lemma check_mode_Some p tc v : check_mode p tc = Some v -> exists reason, v = PolicyVerdict_Deny reason.
Proof.
  unfold check_mode. case_bool_decide; [done|]. destruct (result_err _); naive_solver.
Qed.

(** The verdict of the tri-state layer. *)
Definition state_verdict_class (v : PolicyVerdict) : ToolState :=
  match v with
  | PolicyVerdict_Allow => ToolState_Allow
  | PolicyVerdict_RequireApproval _ _ => ToolState_Ask
  | PolicyVerdict_Deny _ => ToolState_Deny
  end.

Lemma tool_gate_explained_class p tool rc trace :
  state_verdict_class (tool_gate_explained p tool rc trace).1.1 =
  if decide (integration_requirement_satisfied p tool rc = None)
  then effective_tool_state p tool else ToolState_Deny.
Proof.
  unfold tool_gate_explained, effective_tool_state, resolve_tool_state.
  destruct (integration_requirement_satisfied p tool rc); simpl; [done|].
  destruct (session_tool_state p tool) as [[]|]; simpl; [done..|].
  destruct (resolve_tool_state_with_source p tool) as [[] ?]; done.
Qed.

(** * Theorems *)
Section Theorems.
Context `{StrDebug, Serde ToolCall}.

Definition delegate (payload : bytes) : Proposal := Proposal_new ActionKind_Delegate payload.

Lemma evaluate_delegate_class p payload tc rc trace :
  from_slice payload = Ok tc ->
  let v := (evaluate_delegate_explained p payload rc trace).1.1 in
  (check_mode p tc = None /\ check_agent_permissions p tc = None
   /\ integration_requirement_satisfied p (tool_call_tool tc) rc = None
   /\ state_verdict_class v = effective_tool_state p (tool_call_tool tc))
  \/ ((is_Some (check_mode p tc) \/ is_Some (check_agent_permissions p tc)
       \/ is_Some (integration_requirement_satisfied p (tool_call_tool tc) rc))
      /\ state_verdict_class v = ToolState_Deny).
Proof.
  intros Hs. unfold evaluate_delegate_explained. rewrite Hs.
  destruct (check_mode p tc) as [v|] eqn:Em; simpl.
  { apply check_mode_Some in Em as [reason ->]. right. split; [|done]. left. by eexists. }
  destruct (check_agent_permissions p tc) as [r|] eqn:Ea.
  { rewrite (check_agent_permissions_Some _ _ _ Ea). right. split; [|done].
    right; left. by eexists. }
  rewrite tool_gate_explained_class. case_decide as Hi; [left; done|].
  right. split; [|done]. right; right. by apply not_eq_None_Some.
Qed.

Lemma evaluate_proposal_delegate p payload rc :
  ActionKind_Delegate ∈ allowed_action_kinds (pol_config p) ->
  exists trace, ev_verdict (evaluate_proposal p (delegate payload) rc) =
    (evaluate_delegate_explained p payload rc trace).1.1.
Proof.
  intros Hk. unfold evaluate_proposal. simpl. rewrite bool_decide_eq_true_2 by done. simpl.
  match goal with |- context [evaluate_delegate_explained p payload rc ?t] => exists t end.
  by destruct (evaluate_delegate_explained _ _ _ _) as [[[] ?] ?].
Qed.

(** The pipeline's verdict class, gate by gate. *)
Lemma evaluate_proposal_class p payload tc rc :
  from_slice payload = Ok tc ->
  let v := ev_verdict (evaluate_proposal p (delegate payload) rc) in
  (hard_gates_pass p tc rc /\ state_verdict_class v = effective_tool_state p (tool_call_tool tc))
  \/ (~ hard_gates_pass p tc rc /\ state_verdict_class v = ToolState_Deny).
Proof.
  intros Hs. simpl.
  destruct (decide (ActionKind_Delegate ∈ allowed_action_kinds (pol_config p))) as [Hk|Hk].
  - destruct (evaluate_proposal_delegate p payload rc Hk) as [trace ->].
    destruct (evaluate_delegate_class p payload tc rc trace Hs) as [(Hm & Ha & Hi & ->)|[Hf ->]]; [left|right]; (split; [|done]).
    + apply check_mode_None in Hm. apply check_agent_permissions_None in Ha as [? ?].
      apply integration_requirement_satisfied_None in Hi. by constructor.
    + intros [_ Hm Hc Hsc Hi]. apply check_mode_None in Hm.
      apply integration_requirement_satisfied_None in Hi.
      pose proof (proj2 (check_agent_permissions_None p tc) (conj Hc Hsc)) as Ha.
      rewrite Hm, Ha, Hi in Hf. destruct Hf as [[? ?]|[[? ?]|[? ?]]]; done.
  - right. split; [by intros []|].
    unfold evaluate_proposal. simpl. by rewrite bool_decide_eq_false_2.
Qed.

(** C2: Complete characterisation of the tool gate: a tool call is allowed by
    the policy pipeline exactly when the action kind is enabled, the session
    mode permits the call's action class, the agent holds the tool's required
    capability (wildcards lifted), every target named in the arguments is in
    scope, the required integration is installed, and the tool's tri-state in
    force (session grant over agent override over user default) is [on]. *)
Theorem evaluate_proposal_allow_iff p payload tc rc :
  from_slice payload = Ok tc ->
  ev_verdict (evaluate_proposal p (delegate payload) rc) = PolicyVerdict_Allow <->
  hard_gates_pass p tc rc /\ effective_tool_state p (tool_call_tool tc) = ToolState_Allow.
Proof.
  intros Hs. pose proof (evaluate_proposal_class p payload tc rc Hs) as Hc. simpl in Hc.
  destruct Hc as [[Hg Hv]|[Hg Hv]]; destruct (ev_verdict _); simpl in *; intuition congruence.
Qed.

(** A live approval can only be asked for a call that passes every hard
    gate: a call that fails the mode, capability, scope or integration gate is
    denied outright, whatever the session grants say. *)
Theorem evaluate_proposal_hard_deny p payload tc rc :
  from_slice payload = Ok tc -> ~ hard_gates_pass p tc rc ->
  exists reason, ev_verdict (evaluate_proposal p (delegate payload) rc) = PolicyVerdict_Deny reason.
Proof.
  intros Hs Hn. pose proof (evaluate_proposal_class p payload tc rc Hs) as Hc. simpl in Hc.
  destruct Hc as [[Hg Hv]|[Hg Hv]]; [done|]. destruct (ev_verdict _); simpl in *; eauto; done.
Qed.

(** Modes are ceilings: tightening the session mode of a policy to one it
    covers never allows a call the wider mode would not allow. *)
Theorem mode_ceiling_monotone p payload tc rc narrow_mode :
  from_slice payload = Ok tc ->
  mode_covers (cfg_mode (pol_config p)) narrow_mode ->
  ev_verdict (evaluate_proposal
    {| pol_config := with_mode (pol_config p) narrow_mode;
       session_tool_states := session_tool_states p;
       pol_snapshot_hash := pol_snapshot_hash p |} (delegate payload) rc) = PolicyVerdict_Allow ->
  ev_verdict (evaluate_proposal p (delegate payload) rc) = PolicyVerdict_Allow.
Proof.
  intros Hs Hcov Hallow.
  pose proof (evaluate_proposal_class p payload tc rc Hs) as Hw.
  match type of Hallow with ev_verdict (evaluate_proposal ?q _ _) = _ =>
    pose proof (evaluate_proposal_class q payload tc rc Hs) as Hn end.
  simpl in Hn, Hw. rewrite Hallow in Hn.
  destruct Hn as [[[Hk Hm Hca Hsc Hi] He]|[_ ?]]; [|done]. simpl in *.
  destruct Hw as [[_ Hv]|[Hng _]].
  - assert (state_verdict_class (ev_verdict (evaluate_proposal p (delegate payload) rc))
            = ToolState_Allow) as Ha by (rewrite Hv; symmetry; exact He).
    by destruct (ev_verdict (evaluate_proposal p (delegate payload) rc)).
  - destruct Hng. constructor; try done. by apply Hcov.
Qed.

(** ** Provenance *)

(** A trace is a run of passed checks, then the check that decided. *)
Definition decided_trace (passed : list PolicyCheck) (trace : list PolicyCheck)
    (rule : PolicyRule) (verdict : PolicyVerdict) : Prop :=
  trace = passed ++ [mk_check rule (outcome_of verdict)]
  /\ Forall (fun c => pc_outcome c = PolicyCheckOutcome_Allow) passed.

Definition pipeline_sources : list PolicySource :=
  [PolicySource_ActionKind; PolicySource_Mode; PolicySource_AgentCapability;
   PolicySource_Integration].

Definition check_sources (l : list PolicyCheck) : list PolicySource :=
  (fun c => pr_source (pc_rule c)) <$> l.

Lemma tool_gate_explained_trace p tool rc trace v r t :
  tool_gate_explained p tool rc trace = (v, r, t) ->
  exists mid, t = trace ++ mid ++ [mk_check r (outcome_of v)]
    /\ (mid = [] \/ mid = [mk_check (mk_rule PolicySource_Integration "requirements")
                            PolicyCheckOutcome_Allow]).
Proof.
  unfold tool_gate_explained. destruct (integration_requirement_satisfied p tool rc).
  { intros [= <- <- <-]. exists []. split; [done|by left]. }
  destruct (session_tool_state p tool) as [s|].
  - intros [= <- <- <-]. eexists [_]. split; [|by right]. by rewrite <-app_assoc.
  - destruct (resolve_tool_state_with_source p tool) as [s l]. intros [= <- <- <-].
    eexists [_]. split; [|by right]. by rewrite <-app_assoc.
Qed.

Lemma evaluate_delegate_trace p payload rc first v r t :
  pc_outcome first = PolicyCheckOutcome_Allow ->
  pr_source (pc_rule first) = PolicySource_ActionKind ->
  evaluate_delegate_explained p payload rc [first] = (v, r, t) ->
  exists passed, decided_trace passed t r v /\ check_sources passed `prefix_of` pipeline_sources.
Proof.
  intros Ho Hsrc. unfold evaluate_delegate_explained, decided_trace.
  assert (forall l, Forall (fun c => pc_outcome c = PolicyCheckOutcome_Allow) l ->
    Forall (fun c => pc_outcome c = PolicyCheckOutcome_Allow) (first :: l)) as Hf by by constructor.
  destruct (from_slice payload) as [tc|e]; cycle 1.
  { intros [= <- <- <-]. exists [first]. split; [by auto|]. simpl. rewrite Hsrc. by eexists. }
  destruct (check_mode p tc) as [v'|].
  { intros [= <- <- <-]. exists [first]. split; [by auto|]. simpl. rewrite Hsrc. by eexists. }
  cbv zeta. set (m := mk_check (mk_rule PolicySource_Mode _) _).
  assert (forall c, pr_source (pc_rule c) = PolicySource_AgentCapability ->
    pc_outcome c = PolicyCheckOutcome_Allow ->
    tool_gate_explained p (tool_call_tool tc) rc ([first; m] ++ [c]) = (v, r, t) ->
    exists passed, (t = passed ++ [mk_check r (outcome_of v)]
      /\ Forall (fun c => pc_outcome c = PolicyCheckOutcome_Allow) passed)
      /\ check_sources passed `prefix_of` pipeline_sources) as Hgo.
  { intros c Hc Hco (mid & -> & Hmid)%tool_gate_explained_trace.
    exists ([first; m; c] ++ mid). split; [split; [by rewrite <-app_assoc|]|].
    - apply Hf. repeat constructor; [done|]. destruct Hmid as [->| ->]; by repeat constructor.
    - destruct Hmid as [->| ->]; simpl; rewrite Hsrc, Hc; by eexists. }
  destruct (check_agent_permissions p tc) as [res|].
  - destruct (pres_allowed res); [by apply Hgo|].
    intros [= <- <- <-]. exists [first; m]. split; [split; [done|by repeat constructor]|].
    simpl. rewrite Hsrc. by eexists.
  - by apply Hgo.
Qed.

(** The recorded provenance never drifts from the verdict: the last check
    of the trace is the rule that decided, with the verdict's outcome; every
    earlier check passed; and the earlier checks are the gates in their
    documented order (action kind, mode, capability, integration). *)
Theorem evaluate_proposal_trace p proposal rc :
  let e := evaluate_proposal p proposal rc in
  exists passed, decided_trace passed (ev_trace e) (ev_decided_by e) (ev_verdict e)
    /\ check_sources passed `prefix_of` pipeline_sources /\ ev_approval e = None.
Proof.
  unfold evaluate_proposal. case_bool_decide; simpl; cycle 1.
  { exists []. split_and!; [by split|by eexists|done]. }
  case_bool_decide; simpl; cycle 1.
  { exists []. split_and!; [by split|by eexists|done]. }
  destruct (evaluate_delegate_explained _ _ _ _) as [[v r] t] eqn:E.
  apply evaluate_delegate_trace in E as (passed & Hd & Hp); [|done..].
  exists passed. by destruct v.
Qed.

(** The tools a mode other than [Agent] lets through. *)
Definition mode_admits (m : AgentMode) (tc : ToolCall) : Prop :=
  match m, tool_mode_class (tool_call_tool tc) with
  | AgentMode_Agent, _ => True
  | _, Some ToolModeClass_Read => True
  | (AgentMode_Plan | AgentMode_Ask), Some ToolModeClass_Invoke => True
  | AgentMode_Plan, Some (ToolModeClass_MarkdownDocument | ToolModeClass_Subprocess) => True
  | AgentMode_Plan, Some ToolModeClass_FileWrite => targets_markdown (tool_call_args tc) = true
  | _, _ => False
  end.

(** What a restricted session can do: outside [Agent] mode an allowed call
    is a classified tool; [Ask] admits reads and bookkeeping calls, [Debug]
    only reads, and [Plan] adds markdown writes and subprocesses. *)
Theorem restricted_modes_admit p payload tc rc :
  from_slice payload = Ok tc ->
  ev_verdict (evaluate_proposal p (delegate payload) rc) = PolicyVerdict_Allow ->
  mode_admits (cfg_mode (pol_config p)) tc.
Proof.
  intros Hs Ha. pose proof (evaluate_proposal_class p payload tc rc Hs) as Hc. simpl in Hc.
  rewrite Ha in Hc. destruct Hc as [[[_ Hm _ _ _] _]|[_ ?]]; [|done].
  unfold mode_admits. unfold gated_action in Hm.
  destruct (cfg_mode _); try done; destruct (tool_mode_class _) as [[]|]; try done;
    by destruct (targets_markdown _).
Qed.

Lemma live_tool_prompt_not_allow p tool args aid rid live opts v r :
  live_tool_prompt_explained p tool args aid rid live opts = Some (v, r) -> is_allowed v = false.
Proof.
  unfold live_tool_prompt_explained. destruct (session_tool_state p tool) as [[]|]; [naive_solver..|].
  destruct (resolve_tool_state_with_source p tool) as [[] l]; simpl; destruct live; naive_solver.
Qed.
End Theorems.

(** * Witnesses

    A plan-mode session over a codec for three calls. *)
Module PolicyWitness.
Definition w_read : ToolCall :=
  {| tool_call_tool := "read_file"; tool_call_args := JObject [("path", JString "a.txt")] |}.
Definition w_write : ToolCall :=
  {| tool_call_tool := "write_file"; tool_call_args := JObject [("path", JString "a.txt")] |}.
#[local] Instance w_debug : StrDebug := fun s => s.
#[local] Instance w_serde : Serde ToolCall := table_serde [w_read; w_write].
Definition w_policy (m : AgentMode) : Policy :=
  Policy_new (fun _ => "digest") (with_mode PolicyConfig_default m).
Definition w_payload (i : Z) : bytes := [byte_of_Z i].

Lemma evaluate_proposal_allow_iff_witness :
  hard_gates_pass (w_policy AgentMode_Plan) w_read None
  /\ effective_tool_state (w_policy AgentMode_Plan) "read_file" = ToolState_Allow.
Proof.
  apply (evaluate_proposal_allow_iff (w_policy AgentMode_Plan) (w_payload 0) w_read None);
    [reflexivity|vm_compute; reflexivity].
Defined.

Lemma evaluate_proposal_hard_deny_witness :
  exists reason, ev_verdict (evaluate_proposal (w_policy AgentMode_Plan) (delegate (w_payload 1)) None)
    = PolicyVerdict_Deny reason.
Proof.
  apply (evaluate_proposal_hard_deny (w_policy AgentMode_Plan) (w_payload 1) w_write None);
    [reflexivity|]. intros [_ Hm _ _ _]. vm_compute in Hm. discriminate.
Defined.

Lemma mode_ceiling_monotone_witness :
  ev_verdict (evaluate_proposal (w_policy AgentMode_Agent) (delegate (w_payload 0)) None)
  = PolicyVerdict_Allow.
Proof.
  apply (mode_ceiling_monotone (w_policy AgentMode_Agent) (w_payload 0) w_read None AgentMode_Ask).
  - reflexivity.
  - intros a _. destruct a; reflexivity.
  - vm_compute. reflexivity.
Defined.

Lemma restricted_modes_admit_witness : mode_admits AgentMode_Plan w_read.
Proof.
  apply (restricted_modes_admit (w_policy AgentMode_Plan) (w_payload 0) w_read None);
    [reflexivity|vm_compute; reflexivity].
Defined.
End PolicyWitness.
