(* ===== verification/Keys.v ===== *)
(** Storage keys of [aura-store-db] ([keys/mod.rs], [error.rs]): the byte
    layout of record, metadata and inbox keys, with the trait [KeyCodec] as a
    class.  The laws are what the store relies on: decoding inverts encoding,
    keys of one family are injective, and big-endian sequence numbers make the
    database's byte-wise order the order of sequences. *)
From S2P Require Import Prelude Values CoreTypes.
From Stdlib Require Import Strings.Byte.
From stdpp Require Import list.

(** * Errors ([error.rs]) *)
Inductive StoreError :=
| StoreError_RocksDb (message : string)
| StoreError_Serialization (message : string)
| StoreError_Deserialization (message : string)
| StoreError_AgentNotFound (agent_id : AgentId)
| StoreError_RecordEntryNotFound (agent_id : AgentId) (seq : Z)
| StoreError_TransactionNotFound (tx_id : Hash)
| StoreError_InboxEmpty (agent_id : AgentId)
| StoreError_SequenceMismatch (expected actual : Z)
| StoreError_ColumnFamilyNotFound (name : string)
| StoreError_InvalidKey (message : string)
| StoreError_InboxCorruption (agent_id : AgentId) (expected_seq : Z).
#[export] Instance StoreError_eq_dec : EqDecision StoreError.
Proof. solve_decision. Defined.

(** * Prefixes and metadata fields *)
Definition prefix_RECORD : byte := "R"%byte.
Definition prefix_AGENT_META : byte := "M"%byte.
Definition prefix_INBOX : byte := "Q"%byte.

Inductive MetaField :=
| MetaField_HeadSeq | MetaField_InboxHead | MetaField_InboxTail
| MetaField_Status | MetaField_SchemaVersion | MetaField_ProcessingClaim.
#[export] Instance MetaField_eq_dec : EqDecision MetaField.
Proof. solve_decision. Defined.

Definition MetaField_as_byte (f : MetaField) : byte :=
  match f with
  | MetaField_HeadSeq => "000" | MetaField_InboxHead => "001" | MetaField_InboxTail => "002"
  | MetaField_Status => "003" | MetaField_SchemaVersion => "004" | MetaField_ProcessingClaim => "005"
  end%byte.
Definition MetaField_from_byte (b : byte) : option MetaField :=
  match byte_to_Z b with
  | 0 => Some MetaField_HeadSeq | 1 => Some MetaField_InboxHead | 2 => Some MetaField_InboxTail
  | 3 => Some MetaField_Status | 4 => Some MetaField_SchemaVersion
  | 5 => Some MetaField_ProcessingClaim | _ => None
  end%Z.

(** * Keys *)
Class KeyCodec (K : Type) := {
  encode : K -> bytes;
  decode : bytes -> result StoreError K;
}.

Record RecordKey := { rk_agent_id : AgentId; rk_seq : Z }.
Record AgentMetaKey := { mk_agent_id : AgentId; mk_field : MetaField }.
Record InboxKey := { ik_agent_id : AgentId; ik_inbox_seq : Z }.

Definition record_encode (k : RecordKey) : bytes :=
  [prefix_RECORD] ++ arr_bytes (rk_agent_id k) ++ to_be_bytes (rk_seq k).
Definition record_decode (b : bytes) : result StoreError RecordKey :=
  if negb (bool_decide (length b = 41)) then Err (StoreError_InvalidKey "invalid record key length")
  else if negb (bool_decide (head b = Some prefix_RECORD))
  then Err (StoreError_InvalidKey "invalid record key prefix")
  else
    agent_bytes ← ok_or (StoreError_InvalidKey "invalid agent_id bytes")
                    (arr_try_from 32 (take 32 (drop 1 b)));
    seq_bytes ← ok_or (StoreError_InvalidKey "invalid seq bytes")
                  (arr_try_from 8 (take 8 (drop 33 b)));
    Ok {| rk_agent_id := agent_bytes; rk_seq := from_be_bytes (arr_bytes seq_bytes) |}.

Definition meta_encode (k : AgentMetaKey) : bytes :=
  [prefix_AGENT_META] ++ arr_bytes (mk_agent_id k) ++ [MetaField_as_byte (mk_field k)].
Definition meta_decode (b : bytes) : result StoreError AgentMetaKey :=
  if negb (bool_decide (length b = 34)) then Err (StoreError_InvalidKey "invalid agent meta key length")
  else if negb (bool_decide (head b = Some prefix_AGENT_META))
  then Err (StoreError_InvalidKey "invalid agent meta key prefix")
  else
    agent_bytes ← ok_or (StoreError_InvalidKey "invalid agent_id bytes")
                    (arr_try_from 32 (take 32 (drop 1 b)));
    field ← ok_or (StoreError_InvalidKey "invalid meta field")
              (b !! 33 ≫= MetaField_from_byte);
    Ok {| mk_agent_id := agent_bytes; mk_field := field |}.

Definition inbox_encode (k : InboxKey) : bytes :=
  [prefix_INBOX] ++ arr_bytes (ik_agent_id k) ++ to_be_bytes (ik_inbox_seq k).
Definition inbox_decode (b : bytes) : result StoreError InboxKey :=
  if negb (bool_decide (length b = 41)) then Err (StoreError_InvalidKey "invalid inbox key length")
  else if negb (bool_decide (head b = Some prefix_INBOX))
  then Err (StoreError_InvalidKey "invalid inbox key prefix")
  else
    agent_bytes ← ok_or (StoreError_InvalidKey "invalid agent_id bytes")
                    (arr_try_from 32 (take 32 (drop 1 b)));
    seq_bytes ← ok_or (StoreError_InvalidKey "invalid inbox_seq bytes")
                  (arr_try_from 8 (take 8 (drop 33 b)));
    Ok {| ik_agent_id := agent_bytes; ik_inbox_seq := from_be_bytes (arr_bytes seq_bytes) |}.

#[export] Instance record_codec : KeyCodec RecordKey :=
  {| encode := record_encode; decode := record_decode |}.
#[export] Instance meta_codec : KeyCodec AgentMetaKey :=
  {| encode := meta_encode; decode := meta_decode |}.
#[export] Instance inbox_codec : KeyCodec InboxKey :=
  {| encode := inbox_encode; decode := inbox_decode |}.

(** [RecordKey::scan_end] and [scan_from]; the [AgentMetaKey] constructors. *)
Definition record_key (agent_id : AgentId) (seq : Z) : bytes :=
  encode {| rk_agent_id := agent_id; rk_seq := seq |}.
Definition scan_end (agent_id : AgentId) : bytes := record_key agent_id u64_max.
Definition scan_from (agent_id : AgentId) (from_seq : Z) : bytes := record_key agent_id from_seq.
Definition inbox_key (agent_id : AgentId) (inbox_seq : Z) : bytes :=
  encode {| ik_agent_id := agent_id; ik_inbox_seq := inbox_seq |}.
Definition meta_key (agent_id : AgentId) (field : MetaField) : bytes :=
  encode {| mk_agent_id := agent_id; mk_field := field |}.

(** * Laws *)
Lemma MetaField_roundtrip f : MetaField_from_byte (MetaField_as_byte f) = Some f.
Proof. by destruct f. Qed.

Lemma take_drop_agent (p : byte) (a : AgentId) (rest : bytes) :
  take 32 (drop 1 ([p] ++ arr_bytes a ++ rest)) = arr_bytes a.
Proof. simpl. rewrite drop_0. by rewrite take_app_length' by by rewrite arr_length. Qed.

Lemma drop_agent (p : byte) (a : AgentId) (rest : bytes) :
  drop 33 ([p] ++ arr_bytes a ++ rest) = rest.
Proof. change 33 with (S 32). simpl. by rewrite drop_app_length' by by rewrite arr_length. Qed.

Lemma seq_key_length (p : byte) (a : AgentId) z : length ([p] ++ arr_bytes a ++ to_be_bytes z) = 41.
Proof. simpl. by rewrite length_app, arr_length, to_be_bytes_length. Qed.

Lemma seq_bytes_back z : is_u64 z ->
  exists b, arr_try_from 8 (take 8 (to_be_bytes z)) = Some b /\ from_be_bytes (arr_bytes b) = z.
Proof.
  intros Hz. assert (take 8 (to_be_bytes z) = to_be_bytes z) as ->.
  { apply take_ge. by rewrite to_be_bytes_length. }
  destruct (arr_try_from_length 8 (to_be_bytes z)) as [b Hb]; [apply to_be_bytes_length|].
  exists b. split; [done|]. apply arr_try_from_Some in Hb as ->. by apply from_to_be_bytes.
Qed.

Lemma record_decode_encode k : is_u64 (rk_seq k) -> decode (encode k) = Ok k.
Proof.
  destruct k as [a z]. intros Hz. simpl in Hz.
  cbn [encode decode record_codec]. unfold record_encode, record_decode. cbn [rk_agent_id rk_seq].
  rewrite seq_key_length, take_drop_agent, drop_agent, arr_try_from_bytes. cbn.
  destruct (seq_bytes_back z Hz) as (b & -> & <-). done.
Qed.

Lemma inbox_decode_encode k : is_u64 (ik_inbox_seq k) -> decode (encode k) = Ok k.
Proof.
  destruct k as [a z]. intros Hz. simpl in Hz.
  cbn [encode decode inbox_codec]. unfold inbox_encode, inbox_decode. cbn [ik_agent_id ik_inbox_seq].
  rewrite seq_key_length, take_drop_agent, drop_agent, arr_try_from_bytes. cbn.
  destruct (seq_bytes_back z Hz) as (b & -> & <-). done.
Qed.

Lemma meta_decode_encode (k : AgentMetaKey) : decode (encode k) = Ok k.
Proof.
  destruct k as [a f]. cbn [encode decode meta_codec]. unfold meta_encode, meta_decode.
  cbn [mk_agent_id mk_field].
  assert (length ([prefix_AGENT_META] ++ arr_bytes a ++ [MetaField_as_byte f]) = 34) as ->.
  { simpl. by rewrite length_app, arr_length. }
  rewrite take_drop_agent, arr_try_from_bytes.
  assert (([prefix_AGENT_META] ++ arr_bytes a ++ [MetaField_as_byte f]) !! 33
          = Some (MetaField_as_byte f)) as ->.
  { change 33 with (S 32). simpl. rewrite lookup_app_r by by rewrite arr_length.
    by rewrite arr_length. }
  cbn. by rewrite MetaField_roundtrip.
Qed.

Lemma record_decode_Ok b k :
  decode b = Ok k -> b = encode k /\ is_u64 (rk_seq k).
Proof.
  cbn [encode decode record_codec]. unfold record_decode, record_encode.
  case_bool_decide as Hl; [|done]. cbn [negb].
  case_bool_decide as Hh; [|done]. cbn [negb].
  destruct (arr_try_from 32 _) as [a|] eqn:Ea; [|done].
  destruct (arr_try_from 8 _) as [z|] eqn:Ez; [|done]. cbn. intros [= <-]. cbn.
  apply arr_try_from_Some in Ea. pose proof (arr_try_from_Some _ _ _ Ez) as Ez'.
  split; [|apply from_be_bytes_is_u64, arr_length].
  rewrite Ea. unfold to_be_bytes, from_be_bytes.
  pose proof (be_split_combine (arr_bytes z)) as Hz. rewrite arr_length in Hz. rewrite Hz, Ez'.
  destruct b as [|x b]; [done|]. simpl in Hh. injection Hh as ->. cbn. f_equal.
  rewrite drop_0, (take_ge (drop 32 b)); [by rewrite take_drop|].
  rewrite length_drop. simpl in Hl. lia.
Qed.

(** Keys of one agent and family are ordered as their sequence numbers. *)
Lemma record_key_lt a m n :
  is_u64 m -> is_u64 n -> lex_lt (record_key a m) (record_key a n) = true <-> (m < n)%Z.
Proof.
  intros Hm Hn. unfold record_key. cbn [encode record_codec]. unfold record_encode.
  rewrite !lex_lt_app_l. by apply lex_lt_to_be_bytes.
Qed.

Lemma record_key_le a m n :
  is_u64 m -> is_u64 n -> lex_le (record_key a m) (record_key a n) = true <-> (m <= n)%Z.
Proof.
  intros Hm Hn. unfold lex_le. rewrite negb_true_iff, <-not_true_iff_false, record_key_lt by done. lia.
Qed.

Lemma record_key_inj a m a' m' :
  is_u64 m -> is_u64 m' -> record_key a m = record_key a' m' -> a = a' /\ m = m'.
Proof.
  intros Hm Hm' H.
  pose proof (record_decode_encode {| rk_agent_id := a; rk_seq := m |} Hm) as H1.
  pose proof (record_decode_encode {| rk_agent_id := a'; rk_seq := m' |} Hm') as H2.
  unfold record_key in H. rewrite H, H2 in H1. by injection H1 as -> ->.
Qed.

Lemma inbox_key_inj a m a' m' :
  is_u64 m -> is_u64 m' -> inbox_key a m = inbox_key a' m' -> a = a' /\ m = m'.
Proof.
  intros Hm Hm' H.
  pose proof (inbox_decode_encode {| ik_agent_id := a; ik_inbox_seq := m |} Hm) as H1.
  pose proof (inbox_decode_encode {| ik_agent_id := a'; ik_inbox_seq := m' |} Hm') as H2.
  unfold inbox_key in H. rewrite H, H2 in H1. by injection H1 as -> ->.
Qed.

Lemma meta_key_inj a f a' f' : meta_key a f = meta_key a' f' -> a = a' /\ f = f'.
Proof.
  intros H.
  pose proof (meta_decode_encode {| mk_agent_id := a; mk_field := f |}) as H1.
  pose proof (meta_decode_encode {| mk_agent_id := a'; mk_field := f' |}) as H2.
  unfold meta_key in H. rewrite H, H2 in H1. by injection H1 as -> ->.
Qed.

(** No key of another agent lies between two record keys of one agent. *)
Lemma record_key_between a a' lo s hi :
  lex_le (record_key a lo) (record_key a' s) = true ->
  lex_lt (record_key a' s) (record_key a hi) = true -> a' = a.
Proof.
  unfold lex_le, record_key. cbn [encode record_codec]. unfold record_encode. cbn [rk_agent_id rk_seq].
  rewrite negb_true_iff, !lex_lt_app_l, <-not_true_iff_false.
  rewrite !lex_lt_app by by rewrite !arr_length.
  intros Hlo [Hhi|[Heq _]]; [|by apply arr_eq].
  apply arr_eq, lex_lt_total; [|by apply not_true_iff_false; naive_solver].
  apply not_true_iff_false. naive_solver.
Qed.

Lemma record_key_between_le a a' lo s hi :
  lex_le (record_key a lo) (record_key a' s) = true ->
  lex_le (record_key a' s) (record_key a hi) = true -> a' = a.
Proof.
  unfold lex_le, record_key. cbn [encode record_codec]. unfold record_encode. cbn [rk_agent_id rk_seq].
  rewrite !negb_true_iff, !lex_lt_app_l, <-!not_true_iff_false.
  rewrite !lex_lt_app by by rewrite !arr_length.
  intros Hlo Hhi. apply arr_eq, lex_lt_total; apply not_true_iff_false; naive_solver.
Qed.

(** The record-key codec is a bijection between keys and the byte strings
    it accepts, and the database's byte-wise comparator orders the keys of an
    agent by sequence number and keeps other agents' keys out of its range. *)
Theorem record_key_codec_correct (a a' : AgentId) (m n s : Z) (b : bytes) (k : RecordKey) :
  is_u64 m -> is_u64 n ->
  decode (record_key a m) = Ok {| rk_agent_id := a; rk_seq := m |}
  /\ (decode b = Ok k -> encode k = b)
  /\ (lex_lt (record_key a m) (record_key a n) = true <-> (m < n)%Z)
  /\ (lex_le (record_key a m) (record_key a' s) = true ->
      lex_lt (record_key a' s) (record_key a n) = true -> a' = a).
Proof.
  intros Hm Hn. split_and!.
  - by apply (record_decode_encode {| rk_agent_id := a; rk_seq := m |}).
  - by intros [-> _]%record_decode_Ok.
  - by apply record_key_lt.
  - apply record_key_between.
Qed.

Lemma record_key_codec_correct_witness :
  let a := arr_fill 32 "007"%byte in
  decode (record_key a 255) = Ok {| rk_agent_id := a; rk_seq := 255 |}
  /\ lex_lt (record_key a 255) (record_key a 256) = true.
Proof.
  intros a.
  destruct (record_key_codec_correct a a 255 256 0 [] {| rk_agent_id := a; rk_seq := 0 |})
    as (H1 & _ & H2 & _); [unfold is_u64; lia..|].
  split; [exact H1|]. apply H2. lia.
Defined.
