(* ===== verification/Seal.v ===== *)
(** Sealed values ([aura-store-db/src/seal.rs]): the versioned AES-256-GCM
    envelope.  The AEAD itself is the class [Aead]; its law is that decryption
    inverts encryption and that a ciphertext carries a 16-byte tag.  The nonce
    drawn from the OS generator is an argument. *)
From S2P Require Import Prelude Values.
From Stdlib Require Import Strings.Byte.
From stdpp Require Import list.

Class Aead := {
  aead_encrypt : arr 32 -> arr 12 -> bytes -> option bytes;
  aead_decrypt : arr 32 -> arr 12 -> bytes -> option bytes;
  aead_roundtrip key nonce p c :
    aead_encrypt key nonce p = Some c ->
    aead_decrypt key nonce c = Some p /\ length c = length p + 16;
}.

Definition SEAL_MAGIC : bytes := string_to_bytes "AURASEAL".
Definition SEAL_VERSION : byte := "001"%byte.
Definition HEADER_LEN : nat := 8 + 1 + 12.
Definition TAG_LEN : nat := 16.

Inductive SealError :=
| SealError_Seal
| SealError_NotSealed
| SealError_UnsupportedVersion (version : byte)
| SealError_Open.

Definition SealError_display (e : SealError) : string :=
  match e with
  | SealError_Seal => "failed to seal value"
  | SealError_NotSealed => "value is not in the sealed format (missing/invalid header)"
  | SealError_UnsupportedVersion v => "unsupported sealed format version " +++ fmt_Z (byte_to_Z v)
  | SealError_Open => "failed to open sealed value (wrong key or tampered data)"
  end.

Record SealCipher := { seal_key : arr 32 }.

Definition is_sealed (b : bytes) : bool :=
  bool_decide (8 <= length b) && bool_decide (take 8 b = SEAL_MAGIC).

Section Seal.
Context `{Aead}.

Definition cipher_seal (cipher : SealCipher) (nonce : arr 12) (plaintext : bytes) : result SealError bytes :=
  ciphertext ← ok_or SealError_Seal (aead_encrypt (seal_key cipher) nonce plaintext);
  Ok (SEAL_MAGIC ++ [SEAL_VERSION] ++ arr_bytes nonce ++ ciphertext).

Definition cipher_open (cipher : SealCipher) (sealed : bytes) : result SealError bytes :=
  if bool_decide (length sealed < HEADER_LEN + TAG_LEN) || negb (is_sealed sealed)
  then Err SealError_NotSealed
  else match sealed !! 8 with
       | None => Err SealError_NotSealed
       | Some version =>
           if negb (bool_decide (version = SEAL_VERSION)) then Err (SealError_UnsupportedVersion version)
           else match arr_try_from 12 (take 12 (drop 9 sealed)) with
                | None => Err SealError_Open
                | Some nonce =>
                    ok_or SealError_Open (aead_decrypt (seal_key cipher) nonce (drop HEADER_LEN sealed))
                end
       end.

Lemma seal_is_sealed cipher nonce p b : cipher_seal cipher nonce p = Ok b -> is_sealed b = true.
Proof.
  unfold cipher_seal. destruct (aead_encrypt _ _ _); [|done]. simpl. intros [= <-].
  unfold is_sealed. apply andb_true_iff. split; apply bool_decide_eq_true_2; [|done].
  simpl. lia.
Qed.

Lemma open_seal cipher nonce p b : cipher_seal cipher nonce p = Ok b -> cipher_open cipher b = Ok p.
Proof.
  intros Hs. pose proof (seal_is_sealed _ _ _ _ Hs) as His. revert Hs.
  unfold cipher_seal. destruct (aead_encrypt _ _ _) as [c|] eqn:E; [|done]. intros Hb'.
  assert (b = SEAL_MAGIC ++ [SEAL_VERSION] ++ arr_bytes nonce ++ c) as Hb by (by injection Hb').
  clear Hb'. apply aead_roundtrip in E as [Hd Hl]. unfold cipher_open. rewrite His.
  assert (length b = 21 + length c) as Hlen.
  { rewrite Hb. simpl. rewrite length_app, arr_length. lia. }
  rewrite bool_decide_eq_false_2 by (unfold HEADER_LEN, TAG_LEN; lia). cbn [orb negb].
  rewrite Hb. cbn -[drop take]. unfold HEADER_LEN. cbn [Nat.add drop].
  rewrite drop_0, take_app_length' by by rewrite arr_length.
  rewrite arr_try_from_bytes, drop_app_length' by by rewrite arr_length. by rewrite Hd.
Qed.

(** Sealing is lossless and the envelope is checked before decryption: a
    sealed value carries the magic and opens to its plaintext; a value without
    the magic is refused as not sealed, and one of another version is refused
    with that version, whatever its content. *)
Theorem seal_open_roundtrip cipher nonce p b v rest :
  (cipher_seal cipher nonce p = Ok b -> is_sealed b = true /\ cipher_open cipher b = Ok p)
  /\ (is_sealed rest = false -> cipher_open cipher rest = Err SealError_NotSealed)
  /\ (v <> SEAL_VERSION -> 28 <= length rest ->
      cipher_open cipher (SEAL_MAGIC ++ [v] ++ rest) = Err (SealError_UnsupportedVersion v)).
Proof.
  split_and!.
  - intros Hs. split; [by eapply seal_is_sealed|by eapply open_seal].
  - intros Hn. unfold cipher_open. by rewrite Hn, orb_true_r.
  - intros Hv Hl. unfold cipher_open.
    rewrite bool_decide_eq_false_2; cycle 1.
    { simpl. unfold HEADER_LEN, TAG_LEN. lia. }
    cbn -[bool_decide]. by rewrite bool_decide_eq_false_2.
Qed.
End Seal.

(** An AEAD to run examples with: the identity followed by a zero tag. *)
Definition toy_encrypt (k : arr 32) (n : arr 12) (p : bytes) : option bytes :=
  Some (p ++ replicate 16 "000"%byte).
Definition toy_decrypt (k : arr 32) (n : arr 12) (c : bytes) : option bytes :=
  Some (take (length c - 16) c).
Lemma toy_roundtrip key nonce p c :
  toy_encrypt key nonce p = Some c ->
  toy_decrypt key nonce c = Some p /\ length c = length p + 16.
Proof.
  unfold toy_encrypt. intros Hc. assert (c = p ++ replicate 16 "000"%byte) as -> by congruence.
  unfold toy_decrypt. rewrite length_app. split; [|done].
  f_equal. by rewrite take_app_length' by (simpl; lia).
Qed.
#[local] Instance toy_aead : Aead :=
  {| aead_encrypt := toy_encrypt; aead_decrypt := toy_decrypt; aead_roundtrip := toy_roundtrip |}.

Lemma seal_open_roundtrip_witness :
  let cipher := {| seal_key := arr_fill 32 "001"%byte |} in
  exists b, cipher_seal cipher (arr_fill 12 "002"%byte) ["A"%byte] = Ok b
    /\ is_sealed b = true /\ cipher_open cipher b = Ok ["A"%byte].
Proof.
  eexists. split; [reflexivity|].
  apply (seal_open_roundtrip {| seal_key := arr_fill 32 "001"%byte |} (arr_fill 12 "002"%byte)
    ["A"%byte] _ "000"%byte []). reflexivity.
Defined.
