(* ===== verification/Rocks.v ===== *)
(** The interface of the embedded database.

    [rocksdb] is not part of the repository.  Its handle is a type [DB] with
    the calls the store makes ([RocksDB]); [RocksDBLaws] states the documented
    behaviour the store relies on, through a ghost view of the content: reads
    that succeed return the content, a [WriteBatch] is all-or-nothing, and an
    iterator yields the keys from its start in byte-wise order, possibly cut
    short by an error.  [MemDB] is a concrete database that satisfies them. *)
From S2P Require Import Prelude Values.
From stdpp Require Import list sorting.

(** Content: column family and key to value. *)
Abbreviation content := (gmap (string * bytes) bytes).

Inductive BatchOp :=
| BatchPut (cf : string) (key value : bytes)
| BatchDelete (cf : string) (key : bytes).
Abbreviation WriteBatch := (list BatchOp).

Definition apply_op (m : content) (op : BatchOp) : content :=
  match op with
  | BatchPut cf key value => <[(cf, key) := value]> m
  | BatchDelete cf key => delete (cf, key) m
  end.
Definition apply_batch (m : content) (b : WriteBatch) : content := foldl apply_op m b.

Inductive Direction := Forward | Reverse.

(** The order an iterator walks in, and the keys it starts from. *)
Definition iter_order (dir : Direction) (p q : bytes * bytes) : Prop :=
  match dir with
  | Forward => lex_lt p.1 q.1 = true
  | Reverse => lex_lt q.1 p.1 = true
  end.
Definition iter_covers (dir : Direction) (start key : bytes) : Prop :=
  match dir with
  | Forward => lex_le start key = true
  | Reverse => lex_le key start = true
  end.

(** The listing of a column family from [start]. *)
Definition range_list (m : content) (cf : string) (start : bytes) (dir : Direction)
    (l : list (bytes * bytes)) : Prop :=
  StronglySorted (iter_order dir) l
  /\ forall k v, (k, v) ∈ l <-> m !! (cf, k) = Some v /\ iter_covers dir start k.

(** An iterator walks the listing, or part of it and then fails. *)
Definition iter_agrees (items : list (result string (bytes * bytes))) (l : list (bytes * bytes)) : Prop :=
  items = Ok <$> l
  \/ exists p e rest, p `prefix_of` l /\ items = (Ok <$> p) ++ Err e :: rest.

Class RocksDB (DB : Type) := {
  cf_handle : DB -> string -> bool;
  db_get : DB -> string -> bytes -> result string (option bytes);
  db_write : WriteBatch -> DB -> result string unit * DB;
  db_iterator : DB -> string -> bytes -> Direction -> list (result string (bytes * bytes));
}.

Class RocksDBLaws (DB : Type) `{RocksDB DB} := {
  db_view : DB -> content;
  db_get_Ok db cf k v : db_get db cf k = Ok v -> v = db_view db !! (cf, k);
  db_write_Ok b db db' : db_write b db = (Ok tt, db') -> db_view db' = apply_batch (db_view db) b;
  db_write_Err b db e db' : db_write b db = (Err e, db') -> db_view db' = db_view db;
  db_iterator_ok db cf start dir : exists l,
    range_list (db_view db) cf start dir l /\ iter_agrees (db_iterator db cf start dir) l;
}.

(** A database on which no call fails. *)
Class RocksDBHealthy (DB : Type) `{RocksDBLaws DB} : Prop := {
  healthy_cf db name : cf_handle db name = true;
  healthy_get db cf k : db_get db cf k = Ok (db_view db !! (cf, k));
  healthy_write b db : exists db', db_write b db = (Ok tt, db');
  healthy_iterator db cf start dir : exists l,
    range_list (db_view db) cf start dir l /\ db_iterator db cf start dir = Ok <$> l;
}.

#[export] Instance iter_order_strict dir : StrictOrder (iter_order dir).
Proof.
  destruct dir; split.
  - intros p Hp. unfold iter_order in Hp. by rewrite lex_lt_irrefl in Hp.
  - intros p q r. apply lex_lt_trans.
  - intros p Hp. unfold iter_order in Hp. by rewrite lex_lt_irrefl in Hp.
  - intros p q r Hpq Hqr. by eapply lex_lt_trans.
Qed.

(** * An in-memory database *)
Record MemDB := { mem_content : content }.

Definition mem_le (dir : Direction) (p q : bytes * bytes) : Prop := ~ iter_order dir q p.
#[local] Instance iter_order_dec dir p q : Decision (iter_order dir p q).
Proof. destruct dir; unfold iter_order, iter_covers; apply _. Defined.
#[local] Instance mem_le_dec dir p q : Decision (mem_le dir p q).
Proof. unfold mem_le. apply _. Defined.
#[local] Instance iter_covers_dec dir s k : Decision (iter_covers dir s k).
Proof. destruct dir; unfold iter_order, iter_covers; apply _. Defined.

Definition mem_select (m : content) (cf : string) (start : bytes) (dir : Direction)
  : list (bytes * bytes) :=
  omap (fun '((cf', k), v) =>
          if decide (cf' = cf /\ iter_covers dir start k) then Some (k, v) else None)
    (map_to_list m).
Definition mem_range (m : content) (cf : string) (start : bytes) (dir : Direction)
  : list (bytes * bytes) := merge_sort (mem_le dir) (mem_select m cf start dir).

#[export] Instance mem_rocks : RocksDB MemDB := {|
  cf_handle _ _ := true;
  db_get db cf k := Ok (mem_content db !! (cf, k));
  db_write b db := (Ok tt, {| mem_content := apply_batch (mem_content db) b |});
  db_iterator db cf start dir := Ok <$> mem_range (mem_content db) cf start dir;
|}.

Lemma elem_of_mem_select m cf start dir k v :
  (k, v) ∈ mem_select m cf start dir <-> m !! (cf, k) = Some v /\ iter_covers dir start k.
Proof.
  unfold mem_select. rewrite list_elem_of_omap. split.
  - intros ([[cf' k'] v'] & Hin%elem_of_map_to_list & Hs).
    destruct (decide _) as [[-> Hc]|]; [|done]. by injection Hs as -> ->.
  - intros [Hm Hc]. exists ((cf, k), v). split; [by apply elem_of_map_to_list|].
    by rewrite decide_True.
Qed.

Lemma mem_select_keys m cf start dir :
  NoDup (mem_select m cf start dir) /\
  forall k v v', (k, v) ∈ mem_select m cf start dir -> (k, v') ∈ mem_select m cf start dir -> v = v'.
Proof.
  split.
  - unfold mem_select. pose proof (NoDup_map_to_list m) as Hnd.
    induction Hnd as [|[[cf' k'] v'] l Hx Hnd IH]; simpl; [constructor|].
    destruct (decide _) as [[-> Hc]|]; [|done]. constructor; [|done].
    rewrite list_elem_of_omap. intros ([[cf'' k''] v''] & Hin & Hs).
    destruct (decide _) as [[-> ?]|]; [|done]. by injection Hs as -> ->.
  - intros k v v' [H1 _]%elem_of_mem_select [H2 _]%elem_of_mem_select. congruence.
Qed.

Lemma mem_le_total_trans dir : Total (mem_le dir) /\ Transitive (mem_le dir).
Proof.
  split.
  - intros p q. unfold mem_le. destruct (decide (iter_order dir q p)) as [Hqp|]; [right|by left].
    intros Hpq. apply (irreflexivity (iter_order dir) p). by etrans.
  - intros p q r Hpq Hqr Hrp.
    assert (forall x y : bytes * bytes, ~ iter_order dir x y -> ~ iter_order dir y x -> x.1 = y.1) as Heq.
    { intros x y H1 H2. unfold iter_order in *.
      destruct dir; apply lex_lt_total; by apply not_true_iff_false. }
    destruct (decide (iter_order dir p q)) as [H1|H1].
    + destruct (decide (iter_order dir q r)) as [H2|H2].
      * apply (irreflexivity (iter_order dir) p). by etrans; [etrans|].
      * pose proof (Heq _ _ H2 Hqr) as E. apply Hpq. unfold iter_order in *. destruct dir; by rewrite E.
    + pose proof (Heq _ _ H1 Hpq) as E. apply Hqr. unfold iter_order in *. destruct dir; by rewrite <-E.
Qed.

Lemma mem_range_ok m cf start dir : range_list m cf start dir (mem_range m cf start dir).
Proof.
  destruct (mem_le_total_trans dir) as [Htot Htr].
  destruct (mem_select_keys m cf start dir) as [Hnd Hk].
  pose proof (merge_sort_Permutation (mem_le dir) (mem_select m cf start dir)) as Hp.
  assert (NoDup (mem_range m cf start dir)) as Hnd' by (unfold mem_range; by rewrite Hp).
  assert (forall k v v', (k, v) ∈ mem_range m cf start dir ->
            (k, v') ∈ mem_range m cf start dir -> v = v') as Hk'.
  { intros k v v'. unfold mem_range. rewrite !Hp. apply Hk. }
  split; cycle 1.
  { intros k v. unfold mem_range. rewrite Hp. apply elem_of_mem_select. }
  assert (StronglySorted (mem_le dir) (mem_range m cf start dir)) as Hs
    by (unfold mem_range; by apply StronglySorted_merge_sort).
  revert Hs Hnd' Hk'. generalize (mem_range m cf start dir). clear.
  intros l Hs. induction Hs as [|[k v] l Hs IH Hx]; intros Hnd Hk; [constructor|].
  apply NoDup_cons in Hnd as [Hx' Hnd]. constructor.
  { apply IH; [done|]. intros k' v1 v2 H1 H2. apply (Hk k'); by right. }
  rewrite Forall_forall in *. intros [k' v'] Hin. specialize (Hx _ Hin). unfold mem_le in Hx.
  destruct (decide (iter_order dir (k, v) (k', v'))) as [|Hn]; [done|].
  assert (k = k') as <-.
  { unfold iter_order in *. simpl in *. destruct dir; apply lex_lt_total; by apply not_true_iff_false. }
  assert (v' = v) as -> by (apply (Hk k); [by right|by left]). done.
Qed.

#[export] Instance mem_laws : RocksDBLaws MemDB.
Proof.
  refine {| db_view := mem_content |}; simpl.
  - by intros ???? [= <-].
  - by intros ??? [= <-].
  - done.
  - intros. eexists. split; [apply mem_range_ok|by left].
Defined.
#[export] Instance mem_healthy : RocksDBHealthy MemDB.
Proof.
  split; simpl; [done|done|by eexists|]. intros. eexists. split; [apply mem_range_ok|done].
Qed.
