(* ===== verification/StoreSpec.v ===== *)
(** The store interface ([aura-store-db/src/store.rs]): the traits [ReadStore]
    and [WriteStore] as the class [Store], and what the store promises its
    clients as the class [StoreSpec].

    The promise is stated on an abstract view per agent ([AgentView]): an
    append-only log of record entries, a FIFO inbox, the runtime-capability
    ledger, a status and a processing claim.  [abstracts s a v] says that the
    store [s] represents the view [v] of agent [a].  A read that succeeds
    returns what the view holds; a write that succeeds performs one abstract
    step and leaves every other agent alone; a write that fails changes
    nothing.  The kernel and the replay consumer are verified against this
    interface, and the database-backed store discharges it. *)
From S2P Require Import Prelude Values Permissions CoreTypes Keys.
From stdpp Require Import list.

Record DequeueToken := { token_inbox_seq : Z }.

Class Store (S : Type) := {
  st_enqueue_tx : Transaction -> stm S StoreError unit;
  st_dequeue_tx : S -> AgentId -> result StoreError (option (DequeueToken * Transaction));
  st_get_head_seq : S -> AgentId -> result StoreError Z;
  st_scan_record : S -> AgentId -> Z -> Z -> result StoreError (list RecordEntry);
  st_scan_record_descending : S -> AgentId -> Z -> Z -> result StoreError (list RecordEntry);
  st_get_record_entry : S -> AgentId -> Z -> result StoreError RecordEntry;
  st_get_agent_status : S -> AgentId -> result StoreError AgentStatus;
  st_get_runtime_capabilities : S -> AgentId -> result StoreError (option RuntimeCapabilityInstall);
  st_set_agent_status : AgentId -> AgentStatus -> stm S StoreError unit;
  st_has_pending_tx : S -> AgentId -> result StoreError bool;
  st_get_inbox_depth : S -> AgentId -> result StoreError Z;
  st_get_user_tool_defaults : S -> string -> result StoreError (option UserToolDefaults);
  st_put_user_tool_defaults : string -> UserToolDefaults -> stm S StoreError unit;
  st_delete_user_tool_defaults : string -> stm S StoreError unit;
  st_try_claim_agent_processing : AgentId -> stm S StoreError bool;
  st_release_agent_processing : AgentId -> stm S StoreError unit;
  st_is_agent_processing : S -> AgentId -> result StoreError bool;
  (** The record-append family: agent, sequence, entry, then the token and
      the ledger update ([runtime_capabilities], [clear]). *)
  st_append_entry_dequeued_with_runtime_capabilities :
    AgentId -> Z -> RecordEntry -> DequeueToken -> option RuntimeCapabilityInstall -> bool ->
    stm S StoreError unit;
  st_append_entry_direct_with_runtime_capabilities :
    AgentId -> Z -> RecordEntry -> option RuntimeCapabilityInstall -> bool -> stm S StoreError unit;
  st_append_entries_batch : AgentId -> Z -> list RecordEntry -> stm S StoreError unit;
}.

(** [append_entry_dequeued] and [append_entry_direct] are the ledger-free
    forms. *)
Definition st_append_entry_dequeued `{Store ST} (a : AgentId) (seq : Z) (e : RecordEntry)
    (token : DequeueToken) : stm ST StoreError unit :=
  st_append_entry_dequeued_with_runtime_capabilities a seq e token None false.
Definition st_append_entry_direct `{Store ST} (a : AgentId) (seq : Z) (e : RecordEntry)
  : stm ST StoreError unit :=
  st_append_entry_direct_with_runtime_capabilities a seq e None false.

(** * Abstract views *)
Record AgentView := {
  av_log : list RecordEntry;
  av_inbox : list Transaction;
  av_inbox_head : Z;
  av_caps : option RuntimeCapabilityInstall;
  av_status : AgentStatus;
  av_claimed : bool;
}.

Definition view_empty : AgentView :=
  {| av_log := []; av_inbox := []; av_inbox_head := 0; av_caps := None;
     av_status := AgentStatus_Active; av_claimed := false |}.

Definition ledger_update (old : option RuntimeCapabilityInstall)
    (new : option RuntimeCapabilityInstall) (clear : bool) : option RuntimeCapabilityInstall :=
  match new with Some c => Some c | None => if clear then None else old end.

(** The abstract steps. *)
Definition view_append (v : AgentView) (es : list RecordEntry)
    (caps : option RuntimeCapabilityInstall) (clear : bool) : AgentView :=
  {| av_log := av_log v ++ es; av_inbox := av_inbox v; av_inbox_head := av_inbox_head v;
     av_caps := ledger_update (av_caps v) caps clear; av_status := av_status v;
     av_claimed := av_claimed v |}.
Definition view_pop (v : AgentView) : AgentView :=
  {| av_log := av_log v; av_inbox := tail (av_inbox v); av_inbox_head := av_inbox_head v + 1;
     av_caps := av_caps v; av_status := av_status v; av_claimed := av_claimed v |}.
Definition view_enqueue (v : AgentView) (tx : Transaction) : AgentView :=
  {| av_log := av_log v; av_inbox := av_inbox v ++ [tx]; av_inbox_head := av_inbox_head v;
     av_caps := av_caps v; av_status := av_status v; av_claimed := av_claimed v |}.
Definition view_status (v : AgentView) (s : AgentStatus) : AgentView :=
  {| av_log := av_log v; av_inbox := av_inbox v; av_inbox_head := av_inbox_head v;
     av_caps := av_caps v; av_status := s; av_claimed := av_claimed v |}.
Definition view_claim (v : AgentView) (c : bool) : AgentView :=
  {| av_log := av_log v; av_inbox := av_inbox v; av_inbox_head := av_inbox_head v;
     av_caps := av_caps v; av_status := av_status v; av_claimed := c |}.

(** Sequence numbers stay below the exclusive end key of a scan. *)
Definition log_room (v : AgentView) (n : nat) : Prop :=
  (Z.of_nat (length (av_log v) + n) < u64_max)%Z.
Definition inbox_room (v : AgentView) : Prop :=
  is_u64 (av_inbox_head v + Z.of_nat (length (av_inbox v)) + 1).

(** The entries from [from_seq] on, at most [limit] of them. *)
Definition log_window (log : list RecordEntry) (from_seq limit : Z) : list RecordEntry :=
  take (Z.to_nat limit) (drop (Z.to_nat (from_seq - 1)) log).

(** At most [limit] entries walking backwards from [from_seq]. *)
Definition log_window_desc (log : list RecordEntry) (from_seq limit : Z) : list RecordEntry :=
  take (Z.to_nat limit) (rev (take (Z.to_nat from_seq) log)).

(** * The contract *)
Class StoreSpec (S : Type) `{Store S} := {
  abstracts : S -> AgentId -> AgentView -> Prop;
  user_defaults : S -> string -> option UserToolDefaults -> Prop;

  spec_head_seq s a v n : abstracts s a v -> st_get_head_seq s a = Ok n ->
    n = Z.of_nat (length (av_log v));
  spec_log_bound s a v : abstracts s a v -> log_room v 0;
  spec_inbox_bound s a v : abstracts s a v -> is_u64 (av_inbox_head v);
  spec_scan s a v from_seq limit es : abstracts s a v -> is_u64 from_seq -> (0 < limit)%Z ->
    st_scan_record s a from_seq limit = Ok es -> es = log_window (av_log v) from_seq limit;
  spec_scan_desc s a v from_seq limit es : abstracts s a v -> is_u64 from_seq -> (0 <= limit)%Z ->
    st_scan_record_descending s a from_seq limit = Ok es ->
    es = log_window_desc (av_log v) from_seq limit;
  spec_get_entry s a v seq e : abstracts s a v -> is_u64 seq ->
    st_get_record_entry s a seq = Ok e ->
    (1 <= seq)%Z /\ av_log v !! Z.to_nat (seq - 1) = Some e;
  spec_dequeue s a v r : abstracts s a v -> st_dequeue_tx s a = Ok r ->
    match r with
    | None => av_inbox v = []
    | Some (token, tx) => token_inbox_seq token = av_inbox_head v /\ head (av_inbox v) = Some tx
    end;
  spec_caps s a v c : abstracts s a v -> st_get_runtime_capabilities s a = Ok c -> c = av_caps v;
  spec_status s a v st : abstracts s a v -> st_get_agent_status s a = Ok st -> st = av_status v;
  spec_pending s a v b : abstracts s a v -> st_has_pending_tx s a = Ok b ->
    b = negb (bool_decide (av_inbox v = []));
  spec_depth s a v n : abstracts s a v -> st_get_inbox_depth s a = Ok n ->
    n = Z.of_nat (length (av_inbox v));
  spec_processing s a v b : abstracts s a v -> st_is_agent_processing s a = Ok b -> b = av_claimed v;
  spec_get_user s u d d' : user_defaults s u d -> st_get_user_tool_defaults s u = Ok d' -> d' = d;

  spec_enqueue tx s r s' : st_enqueue_tx tx s = (r, s') ->
    let a := tx_agent_id tx in
    (forall u d, user_defaults s u d -> user_defaults s' u d) /\
    (forall b v, abstracts s b v ->
      if bool_decide (b = a /\ r = Ok tt)
      then inbox_room v -> abstracts s' b (view_enqueue v tx) else abstracts s' b v);
  spec_append_direct a seq e caps clear s r s' :
    st_append_entry_direct_with_runtime_capabilities a seq e caps clear s = (r, s') ->
    (forall u d, user_defaults s u d -> user_defaults s' u d) /\
    (forall b v, abstracts s b v ->
      if bool_decide (b = a /\ r = Ok tt)
      then seq = (Z.of_nat (length (av_log v)) + 1)%Z /\
           (log_room v 1 -> abstracts s' b (view_append v [e] caps clear))
      else abstracts s' b v);
  spec_append_dequeued a seq e token caps clear s r s' :
    is_u64 (token_inbox_seq token) ->
    st_append_entry_dequeued_with_runtime_capabilities a seq e token caps clear s = (r, s') ->
    (forall u d, user_defaults s u d -> user_defaults s' u d) /\
    (forall b v, abstracts s b v ->
      if bool_decide (b = a /\ r = Ok tt)
      then seq = (Z.of_nat (length (av_log v)) + 1)%Z /\
           (log_room v 1 -> token_inbox_seq token = av_inbox_head v -> av_inbox v <> [] ->
            abstracts s' b (view_pop (view_append v [e] caps clear)))
      else abstracts s' b v);
  spec_append_batch a base es s r s' :
    is_u64 base -> is_u64 (base + Z.of_nat (length es)) ->
    st_append_entries_batch a base es s = (r, s') ->
    (forall u d, user_defaults s u d -> user_defaults s' u d) /\
    (forall b v, abstracts s b v ->
      if bool_decide (b = a /\ r = Ok tt)
      then (es <> [] -> base = (Z.of_nat (length (av_log v)) + 1)%Z) /\
           (log_room v (length es) -> abstracts s' b (view_append v es None false))
      else abstracts s' b v);
  spec_set_status a st s r s' : st_set_agent_status a st s = (r, s') ->
    (forall u d, user_defaults s u d -> user_defaults s' u d) /\
    (forall b v, abstracts s b v ->
      abstracts s' b (if bool_decide (b = a /\ r = Ok tt) then view_status v st else v));
  spec_try_claim a s r s' : st_try_claim_agent_processing a s = (r, s') ->
    (forall u d, user_defaults s u d -> user_defaults s' u d) /\
    (forall b v, abstracts s b v ->
      abstracts s' b (if bool_decide (b = a /\ r = Ok true) then view_claim v true else v)) /\
    (forall v ok, abstracts s a v -> r = Ok ok -> ok = negb (av_claimed v));
  spec_release a s r s' : st_release_agent_processing a s = (r, s') ->
    (forall u d, user_defaults s u d -> user_defaults s' u d) /\
    (forall b v, abstracts s b v ->
      abstracts s' b (if bool_decide (b = a /\ r = Ok tt) then view_claim v false else v));
  spec_put_user u d s r s' : st_put_user_tool_defaults u d s = (r, s') ->
    (forall b v, abstracts s b v -> abstracts s' b v) /\
    (forall u' d', user_defaults s u' d' ->
      user_defaults s' u' (if bool_decide (u' = u /\ r = Ok tt) then Some d else d'));
  spec_delete_user u s r s' : st_delete_user_tool_defaults u s = (r, s') ->
    (forall b v, abstracts s b v -> abstracts s' b v) /\
    (forall u' d', user_defaults s u' d' ->
      user_defaults s' u' (if bool_decide (u' = u /\ r = Ok tt) then None else d'));
}.
