(* ===== verification/RocksStore.v ===== *)
(** The database-backed store ([aura-store-db/src/rocks_store/mod.rs],
    [record_log_bridge.rs]).

    A [RocksStore] is the database handle, the optional sealing cipher and the
    stream of nonces its seals draw.  Methods are state-threading computations
    ([stm]): the two mutexes make each method atomic, so a method is one step.
    [sync_writes] only selects whether a batch is flushed and is left out, as
    is [open_sealed], which configures the database. *)
From S2P Require Import Prelude Values Permissions CoreTypes Keys Seal Rocks StoreSpec.
From stdpp Require Import list.
From Stdlib Require Import Strings.Byte.

(** Column families ([lib.rs]). *)
Definition cf_RECORD : string := "record".
Definition cf_AGENT_META : string := "agent_meta".
Definition cf_INBOX : string := "inbox".
Definition cf_RUNTIME_CAPABILITIES : string := "runtime_capabilities".
Definition cf_USER_TOOL_DEFAULTS : string := "user_tool_defaults".

Record RocksStore (DB : Type) := MkRocksStore {
  rs_db : DB;
  rs_cipher : option SealCipher;
  rs_nonces : nat -> arr 12;
}.
Arguments MkRocksStore {DB} _ _ _.
Arguments rs_db {DB} _.
Arguments rs_cipher {DB} _.
Arguments rs_nonces {DB} _.

Section RocksStore.
Context {DB : Type} `{RocksDB DB} `{Aead}.
Context `{Serde RecordEntry, Serde Transaction, Serde RuntimeCapabilityInstall,
          Serde UserToolDefaults}.

Abbreviation M := (stm (RocksStore DB) StoreError).

(** * Helpers *)
Definition seal_value (plain : bytes) : M bytes := fun st =>
  match rs_cipher st with
  | Some cipher =>
      (map_err (fun e => StoreError_Serialization ("sealing value: " +++ SealError_display e))
         (cipher_seal cipher (rs_nonces st 0) plain),
       MkRocksStore (rs_db st) (rs_cipher st) (fun n => rs_nonces st (S n)))
  | None => (Ok plain, st)
  end.

Definition open_value (cipher : option SealCipher) (b : bytes) : result StoreError bytes :=
  match cipher with
  | Some cipher =>
      map_err (fun e => StoreError_Deserialization ("opening sealed value: " +++ SealError_display e))
        (cipher_open cipher b)
  | None => Ok b
  end.

Definition rs_cf (st : RocksStore DB) (name : string) : result StoreError unit :=
  if cf_handle (rs_db st) name then Ok tt else Err (StoreError_ColumnFamilyNotFound name).

(** [db.get_cf(..)?] and [db.write_opt(..)?]. *)
Definition rs_get (st : RocksStore DB) (cf : string) (key : bytes) : result StoreError (option bytes) :=
  map_err StoreError_RocksDb (db_get (rs_db st) cf key).
Definition rs_write (batch : WriteBatch) : M unit := fun st =>
  let '(r, db') := db_write batch (rs_db st) in
  (map_err StoreError_RocksDb r, MkRocksStore db' (rs_cipher st) (rs_nonces st)).

(** [serde_json::to_vec(x)?] sealed, and opening then decoding a value. *)
Definition seal_json {A} `{Serde A} (x : A) : M bytes :=
  plain ← lift (map_err StoreError_Serialization (to_vec x));
  seal_value plain.
Definition open_json {A} `{Serde A} (cipher : option SealCipher) (err : string -> string) (b : bytes)
  : result StoreError A :=
  plain ← open_value cipher b;
  map_err (fun e => StoreError_Deserialization (err e)) (from_slice plain).

Definition read_meta_u64 (st : RocksStore DB) (key : bytes) : result StoreError Z :=
  _ ← rs_cf st cf_AGENT_META;
  v ← rs_get st cf_AGENT_META key;
  match v with
  | Some b =>
      arr ← ok_or (StoreError_Deserialization "invalid u64 bytes") (arr_try_from 8 b);
      Ok (from_be_bytes (arr_bytes arr))
  | None => Ok 0%Z
  end.

Definition runtime_capability_key (agent_id : AgentId) : bytes := arr_bytes agent_id.

Definition rs_get_head_seq (st : RocksStore DB) (agent_id : AgentId) : result StoreError Z :=
  read_meta_u64 st (meta_key agent_id MetaField_HeadSeq).

Definition assert_next_seq (agent_id : AgentId) (next_seq : Z) : M unit :=
  current_head ← reads (fun st => rs_get_head_seq st agent_id);
  if negb (bool_decide (next_seq = u64_add current_head 1))
  then fails (StoreError_SequenceMismatch (u64_add current_head 1) next_seq)
  else mret tt.

Definition append_record_and_head_to_batch (batch : WriteBatch) (agent_id : AgentId)
    (next_seq : Z) (entry : RecordEntry) : M WriteBatch :=
  _ ← reads (fun st => rs_cf st cf_RECORD);
  _ ← reads (fun st => rs_cf st cf_AGENT_META);
  entry_bytes ← seal_json entry;
  mret (batch ++ [BatchPut cf_RECORD (record_key agent_id next_seq) entry_bytes;
                  BatchPut cf_AGENT_META (meta_key agent_id MetaField_HeadSeq) (to_be_bytes next_seq)]).

Definition apply_runtime_capability_ops_to_batch (batch : WriteBatch) (agent_id : AgentId)
    (runtime_capabilities : option RuntimeCapabilityInstall) (clear_runtime_capabilities : bool)
  : M WriteBatch :=
  _ ← reads (fun st => rs_cf st cf_RUNTIME_CAPABILITIES);
  let capability_key := runtime_capability_key agent_id in
  let batch := if clear_runtime_capabilities
               then batch ++ [BatchDelete cf_RUNTIME_CAPABILITIES capability_key] else batch in
  match runtime_capabilities with
  | Some rc =>
      capability_bytes ← seal_json rc;
      mret (batch ++ [BatchPut cf_RUNTIME_CAPABILITIES capability_key capability_bytes])
  | None => mret batch
  end.

(** * Appends *)
Definition append_entry_direct_internal (agent_id : AgentId) (next_seq : Z) (entry : RecordEntry)
    (runtime_capabilities : option RuntimeCapabilityInstall) (clear_runtime_capabilities : bool)
  : M unit :=
  _ ← assert_next_seq agent_id next_seq;
  batch ← append_record_and_head_to_batch [] agent_id next_seq entry;
  batch ← apply_runtime_capability_ops_to_batch batch agent_id runtime_capabilities
            clear_runtime_capabilities;
  rs_write batch.

Definition append_entry_atomic_internal (agent_id : AgentId) (next_seq : Z) (entry : RecordEntry)
    (dequeued_inbox_seq : Z) (runtime_capabilities : option RuntimeCapabilityInstall)
    (clear_runtime_capabilities : bool) : M unit :=
  _ ← reads (fun st => rs_cf st cf_AGENT_META);
  _ ← reads (fun st => rs_cf st cf_INBOX);
  _ ← assert_next_seq agent_id next_seq;
  batch ← append_record_and_head_to_batch [] agent_id next_seq entry;
  let batch := batch ++
    [BatchDelete cf_INBOX (inbox_key agent_id dequeued_inbox_seq);
     BatchPut cf_AGENT_META (meta_key agent_id MetaField_InboxHead)
       (to_be_bytes (u64_add dequeued_inbox_seq 1))] in
  batch ← apply_runtime_capability_ops_to_batch batch agent_id runtime_capabilities
            clear_runtime_capabilities;
  rs_write batch.

Definition rs_append_entry_direct (agent_id : AgentId) (next_seq : Z) (entry : RecordEntry) : M unit :=
  append_entry_direct_internal agent_id next_seq entry None false.
Definition rs_append_entry_direct_with_runtime_capabilities (agent_id : AgentId) (next_seq : Z)
    (entry : RecordEntry) (rc : option RuntimeCapabilityInstall) (clear : bool) : M unit :=
  append_entry_direct_internal agent_id next_seq entry rc clear.
Definition rs_append_entry_atomic (agent_id : AgentId) (next_seq : Z) (entry : RecordEntry)
    (dequeued_inbox_seq : Z) : M unit :=
  append_entry_atomic_internal agent_id next_seq entry dequeued_inbox_seq None false.
Definition rs_append_entry_dequeued_with_runtime_capabilities (agent_id : AgentId) (next_seq : Z)
    (entry : RecordEntry) (token : DequeueToken) (rc : option RuntimeCapabilityInstall)
    (clear : bool) : M unit :=
  append_entry_atomic_internal agent_id next_seq entry (token_inbox_seq token) rc clear.

(** The loop of [append_entries_batch] over [entries.iter().enumerate()]. *)
Fixpoint batch_records (agent_id : AgentId) (base_seq : Z) (i : Z) (entries : list RecordEntry)
    (batch : WriteBatch) : M WriteBatch :=
  match entries with
  | [] => mret batch
  | entry :: rest =>
      let seq := u64_add base_seq i in
      entry_bytes ← seal_json entry;
      batch_records agent_id base_seq (i + 1) rest
        (batch ++ [BatchPut cf_RECORD (record_key agent_id seq) entry_bytes])
  end.

Definition rs_append_entries_batch (agent_id : AgentId) (base_seq : Z) (entries : list RecordEntry)
  : M unit :=
  match entries with
  | [] => mret tt
  | _ =>
      _ ← reads (fun st => rs_cf st cf_RECORD);
      _ ← reads (fun st => rs_cf st cf_AGENT_META);
      current_head ← reads (fun st => rs_get_head_seq st agent_id);
      if negb (bool_decide (base_seq = u64_add current_head 1))
      then fails (StoreError_SequenceMismatch (u64_add current_head 1) base_seq)
      else
        batch ← batch_records agent_id base_seq 0 entries [];
        let last_seq := u64_wrap (base_seq + Z.of_nat (length entries) - 1) in
        rs_write (batch ++ [BatchPut cf_AGENT_META (meta_key agent_id MetaField_HeadSeq)
                              (to_be_bytes last_seq)])
  end.

(** * Inbox *)
Definition rs_enqueue_tx (tx : Transaction) : M unit :=
  _ ← reads (fun st => rs_cf st cf_INBOX);
  _ ← reads (fun st => rs_cf st cf_AGENT_META);
  let tail_key := meta_key (tx_agent_id tx) MetaField_InboxTail in
  tail ← reads (fun st => read_meta_u64 st tail_key);
  tx_bytes ← seal_json tx;
  rs_write [BatchPut cf_INBOX (inbox_key (tx_agent_id tx) tail) tx_bytes;
            BatchPut cf_AGENT_META tail_key (to_be_bytes (u64_add tail 1))].

Definition rs_dequeue_tx (st : RocksStore DB) (agent_id : AgentId)
  : result StoreError (option (DequeueToken * Transaction)) :=
  _ ← rs_cf st cf_INBOX;
  head ← read_meta_u64 st (meta_key agent_id MetaField_InboxHead);
  tail ← read_meta_u64 st (meta_key agent_id MetaField_InboxTail);
  if bool_decide (tail <= head)%Z then Ok None
  else
    v ← rs_get st cf_INBOX (inbox_key agent_id head);
    match v with
    | Some b =>
        tx ← open_json (rs_cipher st) id b;
        Ok (Some ({| token_inbox_seq := head |}, tx))
    | None => Err (StoreError_InboxCorruption agent_id head)
    end.

Definition rs_has_pending_tx (st : RocksStore DB) (agent_id : AgentId) : result StoreError bool :=
  head ← read_meta_u64 st (meta_key agent_id MetaField_InboxHead);
  tail ← read_meta_u64 st (meta_key agent_id MetaField_InboxTail);
  Ok (bool_decide (head < tail)%Z).

Definition rs_get_inbox_depth (st : RocksStore DB) (agent_id : AgentId) : result StoreError Z :=
  head ← read_meta_u64 st (meta_key agent_id MetaField_InboxHead);
  tail ← read_meta_u64 st (meta_key agent_id MetaField_InboxTail);
  Ok (saturating_sub tail head).

(** * Record reads *)
Definition seq_err (seq : Z) (e : string) : string := "record seq=" +++ fmt_Z seq +++ ": " +++ e.

(** The loop of [scan_record]. *)
Fixpoint scan_loop (cipher : option SealCipher) (agent_id : AgentId) (end_key : bytes) (limit : Z)
    (items : list (result string (bytes * bytes))) (entries : list RecordEntry)
  : result StoreError (list RecordEntry) :=
  match items with
  | [] => Ok entries
  | item :: rest =>
      kv ← map_err StoreError_RocksDb item;
      let '(key, value) := (kv : bytes * bytes) in
      if lex_le end_key key then Ok entries
      else
        record_key ← (decode key : result StoreError RecordKey);
        if negb (bool_decide (rk_agent_id record_key = agent_id)) then Ok entries
        else
          entry ← open_json cipher (seq_err (rk_seq record_key)) value;
          let entries := entries ++ [entry] in
          if bool_decide (limit <= Z.of_nat (length entries))%Z then Ok entries
          else scan_loop cipher agent_id end_key limit rest entries
  end.

Definition rs_scan_record (st : RocksStore DB) (agent_id : AgentId) (from_seq limit : Z)
  : result StoreError (list RecordEntry) :=
  _ ← rs_cf st cf_RECORD;
  scan_loop (rs_cipher st) agent_id (scan_end agent_id) limit
    (db_iterator (rs_db st) cf_RECORD (scan_from agent_id from_seq) Forward) [].

(** The loop of [scan_record_descending]. *)
Fixpoint scan_desc_loop (cipher : option SealCipher) (agent_id : AgentId) (agent_start_key : bytes)
    (limit : Z) (items : list (result string (bytes * bytes))) (entries : list RecordEntry)
  : result StoreError (list RecordEntry) :=
  match items with
  | [] => Ok entries
  | item :: rest =>
      kv ← map_err StoreError_RocksDb item;
      let '(key, value) := (kv : bytes * bytes) in
      if lex_lt key agent_start_key then Ok entries
      else
        record_key ← (decode key : result StoreError RecordKey);
        if negb (bool_decide (rk_agent_id record_key = agent_id)) then Ok entries
        else
          entry ← open_json cipher (seq_err (rk_seq record_key)) value;
          let entries := entries ++ [entry] in
          if bool_decide (limit <= Z.of_nat (length entries))%Z then Ok entries
          else scan_desc_loop cipher agent_id agent_start_key limit rest entries
  end.

Definition rs_scan_record_descending (st : RocksStore DB) (agent_id : AgentId) (from_seq limit : Z)
  : result StoreError (list RecordEntry) :=
  if bool_decide (from_seq = 0 \/ limit = 0)%Z then Ok []
  else
    _ ← rs_cf st cf_RECORD;
    scan_desc_loop (rs_cipher st) agent_id (scan_from agent_id 1) limit
      (db_iterator (rs_db st) cf_RECORD (scan_from agent_id from_seq) Reverse) [].

Definition rs_get_record_entry (st : RocksStore DB) (agent_id : AgentId) (seq : Z)
  : result StoreError RecordEntry :=
  _ ← rs_cf st cf_RECORD;
  v ← rs_get st cf_RECORD (record_key agent_id seq);
  match v with
  | Some b => open_json (rs_cipher st) id b
  | None => Err (StoreError_RecordEntryNotFound agent_id seq)
  end.

(** The trait's default [scan_record_descending] ([store.rs]): point lookups
    from [from_seq] down to [min_seq]. *)
Fixpoint desc_lookups (st : RocksStore DB) (agent_id : AgentId) (seq : Z) (count : nat)
  : result StoreError (list RecordEntry) :=
  match count with
  | O => Ok []
  | S n =>
      e ← rs_get_record_entry st agent_id seq;
      rest ← desc_lookups st agent_id (seq - 1) n;
      Ok (e :: rest)
  end.
Definition default_scan_record_descending (st : RocksStore DB) (agent_id : AgentId)
    (from_seq limit : Z) : result StoreError (list RecordEntry) :=
  if bool_decide (from_seq = 0 \/ limit = 0)%Z then Ok []
  else
    let min_seq := Z.max (saturating_sub from_seq (saturating_sub limit 1)) 1 in
    desc_lookups st agent_id from_seq (Z.to_nat (from_seq - min_seq + 1)).

(** * Status, ledger, user defaults, claims *)
Definition rs_get_agent_status (st : RocksStore DB) (agent_id : AgentId) : result StoreError AgentStatus :=
  _ ← rs_cf st cf_AGENT_META;
  v ← rs_get st cf_AGENT_META (meta_key agent_id MetaField_Status);
  match v with
  | Some [] => Ok AgentStatus_Active
  | Some (b :: _) => ok_or (StoreError_Deserialization "invalid agent status") (status_from_byte b)
  | None => Ok AgentStatus_Active
  end.

Definition rs_set_agent_status (agent_id : AgentId) (status : AgentStatus) : M unit :=
  _ ← reads (fun st => rs_cf st cf_AGENT_META);
  rs_write [BatchPut cf_AGENT_META (meta_key agent_id MetaField_Status) [status_as_byte status]].

Definition rs_get_runtime_capabilities (st : RocksStore DB) (agent_id : AgentId)
  : result StoreError (option RuntimeCapabilityInstall) :=
  _ ← rs_cf st cf_RUNTIME_CAPABILITIES;
  v ← rs_get st cf_RUNTIME_CAPABILITIES (runtime_capability_key agent_id);
  match v with
  | Some b => c ← open_json (rs_cipher st) id b; Ok (Some c)
  | None => Ok None
  end.

Definition rs_get_user_tool_defaults (st : RocksStore DB) (user_id : string)
  : result StoreError (option UserToolDefaults) :=
  _ ← rs_cf st cf_USER_TOOL_DEFAULTS;
  v ← rs_get st cf_USER_TOOL_DEFAULTS (string_to_bytes user_id);
  match v with
  | Some b => d ← open_json (rs_cipher st) id b; Ok (Some d)
  | None => Ok None
  end.

Definition rs_put_user_tool_defaults (user_id : string) (defaults : UserToolDefaults) : M unit :=
  _ ← reads (fun st => rs_cf st cf_USER_TOOL_DEFAULTS);
  b ← seal_json defaults;
  rs_write [BatchPut cf_USER_TOOL_DEFAULTS (string_to_bytes user_id) b].

Definition rs_delete_user_tool_defaults (user_id : string) : M unit :=
  _ ← reads (fun st => rs_cf st cf_USER_TOOL_DEFAULTS);
  rs_write [BatchDelete cf_USER_TOOL_DEFAULTS (string_to_bytes user_id)].

Definition processing_claim_key (agent_id : AgentId) : bytes :=
  meta_key agent_id MetaField_ProcessingClaim.

Definition rs_try_claim_agent_processing (agent_id : AgentId) : M bool :=
  _ ← reads (fun st => rs_cf st cf_AGENT_META);
  v ← reads (fun st => rs_get st cf_AGENT_META (processing_claim_key agent_id));
  match v with
  | Some _ => mret false
  | None =>
      _ ← rs_write [BatchPut cf_AGENT_META (processing_claim_key agent_id) ["001"%byte]];
      mret true
  end.

Definition rs_release_agent_processing (agent_id : AgentId) : M unit :=
  _ ← reads (fun st => rs_cf st cf_AGENT_META);
  rs_write [BatchDelete cf_AGENT_META (processing_claim_key agent_id)].

Definition rs_is_agent_processing (st : RocksStore DB) (agent_id : AgentId) : result StoreError bool :=
  _ ← rs_cf st cf_AGENT_META;
  v ← rs_get st cf_AGENT_META (processing_claim_key agent_id);
  Ok (bool_decide (is_Some v)).
End RocksStore.

(** * The record-log bridge ([record_log_bridge.rs]) *)
Inductive RecordLogError :=
| RecordLogError_SeqOutOfOrder (agent_id : AgentId) (expected actual : Z)
| RecordLogError_Backend (operation : string) (agent_id : AgentId) (seq : option Z) (cause : StoreError).

Definition map_append_error (agent_id : AgentId) (entry_seq : Z) (err : StoreError) : RecordLogError :=
  match err with
  | StoreError_SequenceMismatch expected actual =>
      RecordLogError_SeqOutOfOrder agent_id expected actual
  | _ => RecordLogError_Backend "append_entry_direct" agent_id (Some entry_seq) err
  end.
Definition map_head_seq_error (agent_id : AgentId) (err : StoreError) : RecordLogError :=
  RecordLogError_Backend "get_head_seq" agent_id None err.
Definition map_scan_error (agent_id : AgentId) (from_seq : Z) (err : StoreError) : RecordLogError :=
  RecordLogError_Backend "scan_record" agent_id (Some from_seq) err.

Section Bridge.
Context {DB : Type} `{RocksDB DB} `{Aead}.
Context `{Serde RecordEntry, Serde RuntimeCapabilityInstall}.

Definition log_append (agent_id : AgentId) (entry : RecordEntry)
  : stm (RocksStore DB) RecordLogError unit :=
  stm_map_err (map_append_error agent_id (re_seq entry))
    (rs_append_entry_direct agent_id (re_seq entry) entry).
Definition log_head_seq (st : RocksStore DB) (agent_id : AgentId) : result RecordLogError Z :=
  map_err (map_head_seq_error agent_id) (rs_get_head_seq st agent_id).
Definition log_scan (st : RocksStore DB) (agent_id : AgentId) (from_seq limit : Z)
  : result RecordLogError (list RecordEntry) :=
  map_err (map_scan_error agent_id from_seq) (rs_scan_record st agent_id from_seq limit).
End Bridge.

(** The store as an implementation of the interface. *)
#[export] Instance rocks_store_ops {DB} `{RocksDB DB} `{Aead}
    `{Serde RecordEntry, Serde Transaction, Serde RuntimeCapabilityInstall, Serde UserToolDefaults}
  : Store (RocksStore DB) := {|
  st_enqueue_tx := rs_enqueue_tx;
  st_dequeue_tx := rs_dequeue_tx;
  st_get_head_seq := rs_get_head_seq;
  st_scan_record := rs_scan_record;
  st_scan_record_descending := rs_scan_record_descending;
  st_get_record_entry := rs_get_record_entry;
  st_get_agent_status := rs_get_agent_status;
  st_get_runtime_capabilities := rs_get_runtime_capabilities;
  st_set_agent_status := rs_set_agent_status;
  st_has_pending_tx := rs_has_pending_tx;
  st_get_inbox_depth := rs_get_inbox_depth;
  st_get_user_tool_defaults := rs_get_user_tool_defaults;
  st_put_user_tool_defaults := rs_put_user_tool_defaults;
  st_delete_user_tool_defaults := rs_delete_user_tool_defaults;
  st_try_claim_agent_processing := rs_try_claim_agent_processing;
  st_release_agent_processing := rs_release_agent_processing;
  st_is_agent_processing := rs_is_agent_processing;
  st_append_entry_dequeued_with_runtime_capabilities :=
    rs_append_entry_dequeued_with_runtime_capabilities;
  st_append_entry_direct_with_runtime_capabilities :=
    rs_append_entry_direct_with_runtime_capabilities;
  st_append_entries_batch := rs_append_entries_batch;
|}.
