(* ===== verification/RocksRefine.v ===== *)
(** The database-backed store refines the store contract.

    [agent_repr] is the representation invariant: which database content
    represents an agent's abstract view.  Every method of [RocksStore] is
    shown to perform the abstract step its contract names, and the whole is
    the instance [rocks_store_spec] of [StoreSpec]. *)
From S2P Require Import Prelude Values Permissions CoreTypes Keys Seal Rocks StoreSpec RocksStore.
From stdpp Require Import list.
From Stdlib Require Import Strings.Byte.

(** Keys of different column families differ. *)
Ltac cf_ne :=
  let E := fresh "E" in
  intros E; apply (f_equal fst) in E; cbn in E; discriminate E.

Definition op_key (op : BatchOp) : string * bytes :=
  match op with BatchPut cf k _ => (cf, k) | BatchDelete cf k => (cf, k) end.

Lemma apply_batch_untouched b m k :
  Forall (fun op => op_key op <> k) b -> apply_batch m b !! k = m !! k.
Proof.
  unfold apply_batch. intros Hb. revert m. induction Hb as [|op b Hop Hb IH]; intros m; [done|].
  simpl. rewrite IH. destruct op as [cf key value|cf key]; simpl in *.
  - by rewrite lookup_insert_ne.
  - by rewrite lookup_delete_ne.
Qed.

Lemma apply_batch_app m b1 b2 : apply_batch m (b1 ++ b2) = apply_batch (apply_batch m b1) b2.
Proof. unfold apply_batch. apply foldl_app. Qed.

Section Refine.
Context {DB : Type} `{RocksDBLaws DB} `{Aead}.
Context `{!Serde RecordEntry, !Serde Transaction, !Serde RuntimeCapabilityInstall,
          !Serde UserToolDefaults}.
Context `{!SerdeOk RecordEntry, !SerdeOk Transaction, !SerdeOk RuntimeCapabilityInstall,
          !SerdeOk UserToolDefaults}.

Definition rs_view (st : RocksStore DB) : content := db_view (rs_db st).

(** A stored value opens to [x]. *)
Definition opens_to {A} `{Serde A} (cipher : option SealCipher) (b : bytes) (x : A) : Prop :=
  exists plain, open_value cipher b = Ok plain /\ from_slice plain = Ok x.

Lemma open_json_Ok {A} `{Serde A} cipher err b (x : A) :
  open_json cipher err b = Ok x <-> opens_to cipher b x.
Proof.
  unfold open_json, opens_to. destruct (open_value cipher b) as [plain|e]; simpl; [|naive_solver].
  split.
  - intros Hx%map_err_Ok. eauto.
  - intros (? & [= <-] & Hx). by rewrite Hx.
Qed.

Lemma opens_to_inj {A} `{Serde A} cipher b (x y : A) :
  opens_to cipher b x -> opens_to cipher b y -> x = y.
Proof. intros (p & Hp & Hx) (q & Hq & Hy). congruence. Qed.

(** ** The representation *)
Definition meta_is (m : content) (a : AgentId) (f : MetaField) (z : Z) : Prop :=
  is_u64 z /\
  match m !! (cf_AGENT_META, meta_key a f) with Some b => b = to_be_bytes z | None => z = 0%Z end.

Record agent_repr (cipher : option SealCipher) (m : content) (a : AgentId) (v : AgentView) : Prop := {
  ar_bound : log_room v 0;
  ar_head : meta_is m a MetaField_HeadSeq (Z.of_nat (length (av_log v)));
  ar_entry i e : av_log v !! i = Some e ->
    exists b, m !! (cf_RECORD, record_key a (Z.of_nat i + 1)) = Some b /\ opens_to cipher b e;
  ar_gap s : is_u64 s -> (s < 1 \/ Z.of_nat (length (av_log v)) < s)%Z ->
    m !! (cf_RECORD, record_key a s) = None;
  ar_inbox_head : meta_is m a MetaField_InboxHead (av_inbox_head v);
  ar_inbox_tail : meta_is m a MetaField_InboxTail
                    (av_inbox_head v + Z.of_nat (length (av_inbox v)));
  ar_pending i tx : av_inbox v !! i = Some tx ->
    exists b, m !! (cf_INBOX, inbox_key a (av_inbox_head v + Z.of_nat i)) = Some b
      /\ opens_to cipher b tx;
  ar_caps : match m !! (cf_RUNTIME_CAPABILITIES, runtime_capability_key a) with
            | None => av_caps v = None
            | Some b => exists c, av_caps v = Some c /\ opens_to cipher b c
            end;
  ar_status : match m !! (cf_AGENT_META, meta_key a MetaField_Status) with
              | None => av_status v = AgentStatus_Active
              | Some b => b = [status_as_byte (av_status v)]
              end;
  ar_claim : av_claimed v = bool_decide (is_Some (m !! (cf_AGENT_META, processing_claim_key a)));
}.

(** Every key of the record family is a record key. *)
Definition record_keys_ok (m : content) : Prop :=
  forall k b, m !! (cf_RECORD, k) = Some b -> exists a s, k = record_key a s /\ is_u64 s.

Definition rs_abstracts (st : RocksStore DB) (a : AgentId) (v : AgentView) : Prop :=
  record_keys_ok (rs_view st) /\ agent_repr (rs_cipher st) (rs_view st) a v.

Definition rs_user_defaults (st : RocksStore DB) (u : string) (d : option UserToolDefaults) : Prop :=
  match rs_view st !! (cf_USER_TOOL_DEFAULTS, string_to_bytes u) with
  | None => d = None
  | Some b => exists x, d = Some x /\ opens_to (rs_cipher st) b x
  end.

(** ** Frame *)
Definition agent_frame (m m' : content) (a : AgentId) : Prop :=
  (forall s, is_u64 s -> m' !! (cf_RECORD, record_key a s) = m !! (cf_RECORD, record_key a s))
  /\ (forall f, m' !! (cf_AGENT_META, meta_key a f) = m !! (cf_AGENT_META, meta_key a f))
  /\ (forall s, is_u64 s -> m' !! (cf_INBOX, inbox_key a s) = m !! (cf_INBOX, inbox_key a s))
  /\ m' !! (cf_RUNTIME_CAPABILITIES, runtime_capability_key a)
     = m !! (cf_RUNTIME_CAPABILITIES, runtime_capability_key a).

Lemma log_index_u64 v i : log_room v 0 -> i < length (av_log v) -> is_u64 (Z.of_nat i + 1).
Proof. unfold log_room, is_u64, u64_max. lia. Qed.

Lemma agent_repr_frame cipher m m' a v :
  agent_frame m m' a -> agent_repr cipher m a v -> agent_repr cipher m' a v.
Proof.
  intros (Hr & Hm & Hi & Hc) [Hb Hh He Hg Hih Hit Hp Hca Hs Hcl].
  unfold meta_is in *. split; unfold meta_is, processing_claim_key in *; rewrite ?Hm, ?Hc; try done.
  - intros i e Hl. pose proof (lookup_lt_Some _ _ _ Hl) as Hlt.
    rewrite Hr by (by apply (log_index_u64 v)). by apply He.
  - intros s Hsu Hso. rewrite Hr by done. by apply Hg.
  - intros i tx Hl. pose proof (lookup_lt_Some _ _ _ Hl).
    rewrite Hi; [by apply Hp|]. destruct Hih as [Hu _], Hit as [Hu' _]. unfold is_u64 in *. lia.
Qed.

(** Two contents that agree represent the same views. *)
Lemma rs_abstracts_unchanged st st' a v :
  rs_view st' = rs_view st -> rs_cipher st' = rs_cipher st ->
  rs_abstracts st a v -> rs_abstracts st' a v.
Proof. unfold rs_abstracts. by intros -> ->. Qed.
Lemma rs_user_unchanged st st' u d :
  rs_view st' = rs_view st -> rs_cipher st' = rs_cipher st ->
  rs_user_defaults st u d -> rs_user_defaults st' u d.
Proof. unfold rs_user_defaults. by intros -> ->. Qed.

(** ** Helpers of the store *)
Lemma rs_get_Ok st cf k v : rs_get st cf k = Ok v -> v = rs_view st !! (cf, k).
Proof. unfold rs_get. intros Hg%map_err_Ok. by apply db_get_Ok in Hg. Qed.

Lemma read_meta_u64_Ok st a f z n :
  meta_is (rs_view st) a f z -> read_meta_u64 st (meta_key a f) = Ok n -> n = z.
Proof.
  intros [Hz Hm]. unfold read_meta_u64. intros ([] & _ & Hr)%result_bind_Ok.
  apply result_bind_Ok in Hr as (v & Hv & Hr). apply rs_get_Ok in Hv. rewrite <-Hv in Hm.
  destruct v as [b|]; [|by injection Hr as <-]. subst b.
  apply result_bind_Ok in Hr as (arr & Ha & Hr). injection Hr as <-.
  destruct (arr_try_from 8 (to_be_bytes z)) as [arr'|] eqn:E; [|done]. injection Ha as <-.
  apply arr_try_from_Some in E as ->. by apply from_to_be_bytes.
Qed.

Lemma seal_json_inv {A} `{SerdeOk A} (x : A) st r st' :
  seal_json x st = (r, st') ->
  rs_view st' = rs_view st /\ rs_cipher st' = rs_cipher st
  /\ (forall b, r = Ok b -> opens_to (rs_cipher st) b x).
Proof.
  unfold seal_json, lift, mbind, stm_bind, seal_value.
  destruct (to_vec x) as [plain|e] eqn:Ev; simpl; [|by intros [= <- <-]].
  destruct (rs_cipher st) as [cipher|] eqn:Ec.
  - intros [= <- <-]. split_and!; [done|done|]. intros b Hb%map_err_Ok.
    exists plain. simpl. rewrite (open_seal _ _ _ _ Hb). split; [done|]. by apply serde_roundtrip.
  - intros [= <- <-]. rewrite Ec. split_and!; [done|done|]. intros b [= <-].
    exists plain. split; [done|]. by apply serde_roundtrip.
Qed.

Lemma rs_write_inv b st r st' :
  rs_write b st = (r, st') ->
  rs_cipher st' = rs_cipher st
  /\ (r = Ok tt -> rs_view st' = apply_batch (rs_view st) b)
  /\ (r <> Ok tt -> rs_view st' = rs_view st).
Proof.
  unfold rs_write. destruct (db_write b (rs_db st)) as [[[]|e] db'] eqn:E; intros [= <- <-];
    unfold rs_view; simpl; (split; [done|]); split; try done; intros _.
  - by apply db_write_Ok in E.
  - by apply db_write_Err in E.
Qed.

(** ** Committed batches

    [commits op st P]: running [op] either commits one batch satisfying [P]
    or leaves the content alone. *)
Definition commits (op : stm (RocksStore DB) StoreError unit) (st : RocksStore DB)
    (P : WriteBatch -> Prop) : Prop :=
  forall r st', op st = (r, st') ->
    rs_cipher st' = rs_cipher st /\
    match r with
    | Ok _ => exists b, P b /\ rs_view st' = apply_batch (rs_view st) b
    | Err _ => rs_view st' = rs_view st
    end.

Lemma commits_write b st P : P b -> commits (rs_write b) st P.
Proof.
  intros HP r st' (Hc & Hok & Herr)%rs_write_inv. split; [done|].
  destruct r as [[]|e]; [eauto|by apply Herr].
Qed.
Lemma commits_fails e st P : commits (fails e) st P.
Proof. by intros r st' [= <- <-]. Qed.
Lemma commits_reads {A} (f : RocksStore DB -> result StoreError A) k st P :
  (forall x, f st = Ok x -> commits (k x) st P) -> commits (reads f ≫= k) st P.
Proof.
  intros Hk r st'. unfold reads, mbind, stm_bind. destruct (f st) as [x|e].
  - by apply Hk.
  - by intros [= <- <-].
Qed.
Lemma commits_seal {A} `{SerdeOk A} (x : A) k st P :
  (forall b st1, rs_view st1 = rs_view st -> rs_cipher st1 = rs_cipher st ->
     opens_to (rs_cipher st) b x -> commits (k b) st1 P) ->
  commits (seal_json x ≫= k) st P.
Proof.
  intros Hk r st'. unfold mbind, stm_bind.
  destruct (seal_json x st) as [[b|e] st1] eqn:E;
    apply seal_json_inv in E as (Hv & Hc & Hb).
  - intros Hr. destruct (Hk b st1 Hv Hc (Hb b eq_refl) r st' Hr) as [Hc' Hm].
    split; [congruence|]. by rewrite <-Hv.
  - by intros [= <- <-].
Qed.
Lemma commits_assoc {A B} (m : stm (RocksStore DB) StoreError A)
    (f : A -> stm (RocksStore DB) StoreError B) k st P :
  commits (m ≫= (fun x => f x ≫= k)) st P -> commits ((m ≫= f) ≫= k) st P.
Proof.
  intros Hc r st' Hr. apply Hc. revert Hr. unfold mbind, stm_bind.
  by destruct (m st) as [[x|e] st1].
Qed.
Lemma commits_ret {A} (x : A) k st P : commits (k x) st P -> commits (mret x ≫= k) st P.
Proof. done. Qed.
Lemma commits_if (b : bool) m1 m2 st P :
  (b = true -> commits m1 st P) -> (b = false -> commits m2 st P) ->
  commits (if b then m1 else m2) st P.
Proof. destruct b; auto. Qed.

(** The batch of an append: the record and the head, then [mid], then the
    ledger operations. *)
Definition ledger_ops (cipher : option SealCipher) (a : AgentId)
    (caps : option RuntimeCapabilityInstall) (clear : bool) (ops : WriteBatch) : Prop :=
  exists puts,
    ops = (if clear then [BatchDelete cf_RUNTIME_CAPABILITIES (runtime_capability_key a)] else []) ++ puts
    /\ match caps with
       | None => puts = []
       | Some c => exists b, puts = [BatchPut cf_RUNTIME_CAPABILITIES (runtime_capability_key a) b]
                    /\ opens_to cipher b c
       end.

Definition append_batch (cipher : option SealCipher) (m : content) (a : AgentId) (seq : Z)
    (e : RecordEntry) (mid : WriteBatch) (caps : option RuntimeCapabilityInstall) (clear : bool)
    (head : Z) (batch : WriteBatch) : Prop :=
  seq = u64_add head 1 /\
  exists eb ops, opens_to cipher eb e /\ ledger_ops cipher a caps clear ops
    /\ batch = [BatchPut cf_RECORD (record_key a seq) eb;
                BatchPut cf_AGENT_META (meta_key a MetaField_HeadSeq) (to_be_bytes seq)]
               ++ mid ++ ops.

Lemma commits_ledger batch a caps clear k st P :
  (forall ops st1, rs_view st1 = rs_view st -> rs_cipher st1 = rs_cipher st ->
     ledger_ops (rs_cipher st) a caps clear ops -> commits (k (batch ++ ops)) st1 P) ->
  commits (apply_runtime_capability_ops_to_batch batch a caps clear ≫= k) st P.
Proof.
  intros Hk. unfold apply_runtime_capability_ops_to_batch.
  apply commits_assoc, commits_reads. intros _ _.
  assert (forall puts, (if clear then batch ++ [BatchDelete cf_RUNTIME_CAPABILITIES
            (runtime_capability_key a)] else batch) ++ puts
          = batch ++ ((if clear then [BatchDelete cf_RUNTIME_CAPABILITIES
            (runtime_capability_key a)] else []) ++ puts)) as Happ.
  { intros puts. destruct clear; [by rewrite <-app_assoc|done]. }
  destruct caps as [c|].
  - apply commits_assoc, commits_seal. intros b st1 Hv Hc Hb. apply commits_ret.
    rewrite Happ. apply Hk; [done|done|]. eexists. split; [done|]. by exists b.
  - apply commits_ret. pose proof (Happ []) as Hn. rewrite app_nil_r in Hn. rewrite Hn.
    apply Hk; [done|done|]. by exists [].
Qed.

Lemma commits_append_head batch a seq e k st P :
  (forall eb st1, rs_view st1 = rs_view st -> rs_cipher st1 = rs_cipher st ->
     opens_to (rs_cipher st) eb e ->
     commits (k (batch ++ [BatchPut cf_RECORD (record_key a seq) eb;
        BatchPut cf_AGENT_META (meta_key a MetaField_HeadSeq) (to_be_bytes seq)])) st1 P) ->
  commits (append_record_and_head_to_batch batch a seq e ≫= k) st P.
Proof.
  intros Hk. unfold append_record_and_head_to_batch.
  apply commits_assoc, commits_reads. intros _ _. apply commits_assoc, commits_reads. intros _ _.
  apply commits_assoc, commits_seal. intros eb st1 Hv Hc Hb. apply commits_ret. by apply Hk.
Qed.

Lemma commits_assert a seq k st P :
  (forall h, rs_get_head_seq st a = Ok h -> seq = u64_add h 1 -> commits k st P) ->
  commits (assert_next_seq a seq ≫= fun _ => k) st P.
Proof.
  intros Hk. unfold assert_next_seq. apply commits_assoc, commits_reads. intros h Hh.
  case_bool_decide as Hs; cbn [negb]; [by apply commits_ret, (Hk h)|].
  by intros r st' [= <- <-].
Qed.

Lemma append_direct_commits a seq e caps clear st :
  commits (append_entry_direct_internal a seq e caps clear) st (fun batch =>
    exists h, rs_get_head_seq st a = Ok h
      /\ append_batch (rs_cipher st) (rs_view st) a seq e [] caps clear h batch).
Proof.
  unfold append_entry_direct_internal. apply commits_assert. intros h Hh Hseq.
  apply commits_append_head. intros eb st1 Hv1 Hc1 Hb. rewrite app_nil_l.
  apply commits_ledger. rewrite Hc1. intros ops st2 Hv2 Hc2 Hops. apply commits_write.
  exists h. split; [done|]. split; [done|]. by exists eb, ops.
Qed.

Lemma append_atomic_commits a seq e q caps clear st :
  commits (append_entry_atomic_internal a seq e q caps clear) st (fun batch =>
    exists h, rs_get_head_seq st a = Ok h
      /\ append_batch (rs_cipher st) (rs_view st) a seq e
           [BatchDelete cf_INBOX (inbox_key a q);
            BatchPut cf_AGENT_META (meta_key a MetaField_InboxHead) (to_be_bytes (u64_add q 1))]
           caps clear h batch).
Proof.
  unfold append_entry_atomic_internal. apply commits_reads. intros _ _.
  apply commits_reads. intros _ _. apply commits_assert. intros h Hh Hseq.
  apply commits_append_head. intros eb st1 Hv1 Hc1 Hb. rewrite app_nil_l.
  apply commits_ledger. rewrite Hc1. intros ops st2 Hv2 Hc2 Hops. apply commits_write.
  exists h. split; [done|]. split; [done|]. exists eb, ops. split_and!; [done|done|].
  by rewrite <-app_assoc.
Qed.

(** ** Batches that belong to one agent *)
Inductive agent_key (a : AgentId) (k : string * bytes) : Prop :=
| ak_record s : is_u64 s -> k = (cf_RECORD, record_key a s) -> agent_key a k
| ak_meta f : k = (cf_AGENT_META, meta_key a f) -> agent_key a k
| ak_inbox s : is_u64 s -> k = (cf_INBOX, inbox_key a s) -> agent_key a k
| ak_caps : k = (cf_RUNTIME_CAPABILITIES, runtime_capability_key a) -> agent_key a k.

(** Equal keys have equal column families and equal bytes. *)
Ltac key_eq E :=
  let F := fresh "F" in
  pose proof (f_equal fst E) as F; cbn in F; try discriminate F; clear F;
  apply (f_equal snd) in E; cbn [snd] in E.

Definition batch_of_agent (a : AgentId) (b : WriteBatch) : Prop :=
  Forall (fun op => agent_key a (op_key op)) b.

Lemma agent_key_disjoint a b k : agent_key a k -> agent_key b k -> a = b.
Proof.
  intros [s Hs ->|f ->|s Hs ->| ->] [s' Hs' E|f' E|s' Hs' E|E]; key_eq E.
  - by apply record_key_inj in E as [-> _].
  - by apply meta_key_inj in E as [-> _].
  - by apply inbox_key_inj in E as [-> _].
  - by apply arr_eq.
Qed.

Lemma batch_of_agent_lookup a b m batch k :
  batch_of_agent a batch -> a <> b -> agent_key b k -> apply_batch m batch !! k = m !! k.
Proof.
  intros Hb Hne Hk. apply apply_batch_untouched. eapply Forall_impl; [exact Hb|].
  intros op Hop E. cbv beta in *. rewrite E in Hop. by apply Hne, (agent_key_disjoint a b k).
Qed.

Lemma batch_of_agent_frame a b m batch :
  batch_of_agent a batch -> a <> b -> agent_frame m (apply_batch m batch) b.
Proof.
  intros Hb Hne. repeat split; intros; eapply batch_of_agent_lookup; eauto using agent_key.
Qed.

Lemma batch_of_agent_users a m batch u :
  batch_of_agent a batch ->
  apply_batch m batch !! (cf_USER_TOOL_DEFAULTS, u) = m !! (cf_USER_TOOL_DEFAULTS, u).
Proof.
  intros Hb. apply apply_batch_untouched. eapply Forall_impl; [exact Hb|].
  intros op [? ? ->|? ->|? ? ->| ->]; cf_ne.
Qed.

Lemma record_keys_ok_batch a m batch :
  batch_of_agent a batch -> record_keys_ok m -> record_keys_ok (apply_batch m batch).
Proof.
  intros Hb. revert m. induction Hb as [|op batch Hop Hb IH]; intros m Hm; [done|].
  apply IH. intros k b. destruct op as [cf key value|cf key]; simpl in *.
  - rewrite lookup_insert_Some. intros [[E <-]|[_ Hk]]; [|by eapply Hm].
    rewrite E in Hop. destruct Hop as [s Hs E'|f E'|s Hs E'|E']; key_eq E'. eauto.
  - rewrite lookup_delete_Some. intros [_ Hk]. by eapply Hm.
Qed.

(** What a committed batch of agent [a] does to the other agents and users. *)
Lemma batch_others a st st' batch b v :
  batch_of_agent a batch -> rs_cipher st' = rs_cipher st ->
  rs_view st' = apply_batch (rs_view st) batch -> a <> b ->
  rs_abstracts st b v -> rs_abstracts st' b v.
Proof.
  intros Hb Hc Hv Hne [Hk Hr]. split; rewrite Hv; [by eapply record_keys_ok_batch|].
  rewrite Hc. eapply agent_repr_frame; [|done]. by eapply batch_of_agent_frame.
Qed.
Lemma batch_users a st st' batch u d :
  batch_of_agent a batch -> rs_cipher st' = rs_cipher st ->
  rs_view st' = apply_batch (rs_view st) batch ->
  rs_user_defaults st u d -> rs_user_defaults st' u d.
Proof.
  intros Hb Hc Hv. unfold rs_user_defaults. by rewrite Hv, Hc, (batch_of_agent_users a).
Qed.

Lemma lookup_batch_put m pre cf k v post :
  Forall (fun op => op_key op <> (cf, k)) post ->
  apply_batch m (pre ++ BatchPut cf k v :: post) !! (cf, k) = Some v.
Proof.
  intros Hp. rewrite apply_batch_app.
  change (BatchPut cf k v :: post) with ([BatchPut cf k v] ++ post).
  rewrite apply_batch_app, apply_batch_untouched by done. simpl. apply lookup_insert_eq.
Qed.

Lemma meta_is_put m a f z : is_u64 z ->
  m !! (cf_AGENT_META, meta_key a f) = Some (to_be_bytes z) -> meta_is m a f z.
Proof. intros Hz Hm. split; [done|]. by rewrite Hm. Qed.
Lemma meta_is_same m m' a f z :
  m' !! (cf_AGENT_META, meta_key a f) = m !! (cf_AGENT_META, meta_key a f) ->
  meta_is m a f z -> meta_is m' a f z.
Proof. unfold meta_is. by intros ->. Qed.

(** ** Appending to the log *)
Lemma ledger_ops_keys cipher a caps clear ops :
  ledger_ops cipher a caps clear ops ->
  Forall (fun op => op_key op = (cf_RUNTIME_CAPABILITIES, runtime_capability_key a)) ops.
Proof.
  intros (puts & -> & Hp). apply Forall_app. split; [destruct clear; by repeat constructor|].
  destruct caps; [|by subst]. destruct Hp as (b & -> & _). by repeat constructor.
Qed.

Lemma ledger_ops_result cipher a caps clear ops m old :
  ledger_ops cipher a caps clear ops ->
  match m !! (cf_RUNTIME_CAPABILITIES, runtime_capability_key a) with
  | None => old = None
  | Some b => exists c, old = Some c /\ opens_to cipher b c
  end ->
  match apply_batch m ops !! (cf_RUNTIME_CAPABILITIES, runtime_capability_key a) with
  | None => ledger_update old caps clear = None
  | Some b => exists c, ledger_update old caps clear = Some c /\ opens_to cipher b c
  end.
Proof.
  intros (puts & -> & Hp) Hold. unfold ledger_update. destruct caps as [c|].
  - destruct Hp as (b & -> & Hb). rewrite lookup_batch_put by done. eauto.
  - subst puts. rewrite app_nil_r. destruct clear; simpl; [|done]. by rewrite lookup_delete_eq.
Qed.

Lemma ledger_untouched cipher a caps clear ops m cf k :
  ledger_ops cipher a caps clear ops -> cf <> cf_RUNTIME_CAPABILITIES ->
  apply_batch m ops !! (cf, k) = m !! (cf, k).
Proof.
  intros Ho Hcf. apply apply_batch_untouched. eapply Forall_impl; [by eapply ledger_ops_keys|].
  intros op -> [= E _]. by apply Hcf.
Qed.

(** The inbox part of an append touches one inbox slot and the inbox head. *)
Definition mid_keys (a : AgentId) (q : Z) (mid : WriteBatch) : Prop :=
  Forall (fun op => op_key op = (cf_INBOX, inbox_key a q)
                 \/ op_key op = (cf_AGENT_META, meta_key a MetaField_InboxHead)) mid.

Lemma mid_keys_pop a q z : mid_keys a q
  [BatchDelete cf_INBOX (inbox_key a q);
   BatchPut cf_AGENT_META (meta_key a MetaField_InboxHead) z].
Proof.
  apply Forall_cons; split; [by left|]. apply Forall_singleton. by right.
Qed.

Lemma append_batch_of_agent cipher a seq e eb mid caps clear ops q :
  is_u64 seq -> is_u64 q -> mid_keys a q mid ->
  opens_to cipher eb (e : RecordEntry) -> ledger_ops cipher a caps clear ops ->
  batch_of_agent a
    ([BatchPut cf_RECORD (record_key a seq) eb;
      BatchPut cf_AGENT_META (meta_key a MetaField_HeadSeq) (to_be_bytes seq)] ++ mid ++ ops).
Proof.
  intros Hs Hq Hmid _ Hops. unfold batch_of_agent. rewrite !Forall_app. split_and!.
  - apply Forall_cons; split; [by apply (ak_record _ _ seq)|].
    apply Forall_singleton. by apply (ak_meta _ _ MetaField_HeadSeq).
  - eapply Forall_impl; [exact Hmid|]. intros op [E|E]; rewrite E; eauto using agent_key.
  - eapply Forall_impl; [by eapply ledger_ops_keys|]. intros op E. rewrite E. eauto using agent_key.
Qed.

(** Looking a key up through the ledger and inbox parts of the batch. *)
Lemma append_tail_untouched cipher a q mid caps clear ops m cf k :
  mid_keys a q mid -> ledger_ops cipher a caps clear ops ->
  cf <> cf_RUNTIME_CAPABILITIES -> (cf, k) <> (cf_INBOX, inbox_key a q) ->
  (cf, k) <> (cf_AGENT_META, meta_key a MetaField_InboxHead) ->
  apply_batch m (mid ++ ops) !! (cf, k) = m !! (cf, k).
Proof.
  intros Hmid Hops Hcf Hi Hm. rewrite apply_batch_app, (ledger_untouched cipher a caps clear) by done.
  apply apply_batch_untouched. eapply Forall_impl; [exact Hmid|].
  intros op [E|E] E'; rewrite E in E'; by symmetry in E'.
Qed.

Section Append.
Context (cipher : option SealCipher) (m : content) (a : AgentId) (v : AgentView).
Context (e : RecordEntry) (eb : bytes) (q : Z) (mid : WriteBatch).
Context (caps : option RuntimeCapabilityInstall) (clear : bool) (ops : WriteBatch).
Context (Hrepr : agent_repr cipher m a v) (Hroom : log_room v 1).
Context (Hmid : mid_keys a q mid).
Context (Heb : opens_to cipher eb e) (Hops : ledger_ops cipher a caps clear ops).

#[local] Abbreviation seq := (Z.of_nat (length (av_log v)) + 1)%Z.
#[local] Abbreviation m' := (apply_batch m
  ([BatchPut cf_RECORD (record_key a seq) eb;
    BatchPut cf_AGENT_META (meta_key a MetaField_HeadSeq) (to_be_bytes seq)] ++ mid ++ ops)).

Lemma append_seq_u64 : is_u64 seq.
Proof. unfold log_room, is_u64, u64_max in *. lia. Qed.

Lemma append_lookup_record s : is_u64 s ->
  m' !! (cf_RECORD, record_key a s)
  = if decide (s = seq) then Some eb else m !! (cf_RECORD, record_key a s).
Proof.
  intros Hs. rewrite apply_batch_app.
  rewrite (append_tail_untouched cipher a q mid caps clear ops) by (done || cf_ne). simpl.
  rewrite lookup_insert_ne by cf_ne. case_decide as E; [rewrite E; apply lookup_insert_eq|].
  rewrite lookup_insert_ne; [done|]. intros E'. key_eq E'.
  apply record_key_inj in E' as [_ <-]; [done|apply append_seq_u64|done].
Qed.

Lemma append_lookup_meta f : f <> MetaField_HeadSeq -> f <> MetaField_InboxHead ->
  m' !! (cf_AGENT_META, meta_key a f) = m !! (cf_AGENT_META, meta_key a f).
Proof.
  intros Hf1 Hf2. rewrite apply_batch_app.
  rewrite (append_tail_untouched cipher a q mid caps clear ops); [|done|done|done|cf_ne|]; cycle 1.
  { intros E. key_eq E. by apply meta_key_inj in E as [_ ?]. }
  simpl. rewrite lookup_insert_ne; [by rewrite lookup_insert_ne by cf_ne|].
  intros E. key_eq E. by apply meta_key_inj in E as [_ ?].
Qed.

Lemma append_lookup_head :
  m' !! (cf_AGENT_META, meta_key a MetaField_HeadSeq) = Some (to_be_bytes seq).
Proof.
  rewrite apply_batch_app.
  rewrite (append_tail_untouched cipher a q mid caps clear ops); [|done|done|done|cf_ne|]; cycle 1.
  { intros E. key_eq E. by apply meta_key_inj in E as [_ ?]. }
  simpl. apply lookup_insert_eq.
Qed.

Lemma append_lookup_caps :
  match m' !! (cf_RUNTIME_CAPABILITIES, runtime_capability_key a) with
  | None => ledger_update (av_caps v) caps clear = None
  | Some b => exists c, ledger_update (av_caps v) caps clear = Some c /\ opens_to cipher b c
  end.
Proof.
  rewrite app_assoc, apply_batch_app. apply ledger_ops_result; [done|].
  rewrite apply_batch_untouched; [apply Hrepr|]. apply Forall_app. split.
  - repeat constructor; cf_ne.
  - eapply Forall_impl; [exact Hmid|]. intros op [E|E]; rewrite E; cf_ne.
Qed.

(** The part of the invariant the inbox does not enter. *)
Lemma append_log_part :
  let v' := view_append v [e] caps clear in
  log_room v' 0
  /\ meta_is m' a MetaField_HeadSeq (Z.of_nat (length (av_log v')))
  /\ (forall i e', av_log v' !! i = Some e' ->
        exists b, m' !! (cf_RECORD, record_key a (Z.of_nat i + 1)) = Some b /\ opens_to cipher b e')
  /\ (forall s, is_u64 s -> (s < 1 \/ Z.of_nat (length (av_log v')) < s)%Z ->
        m' !! (cf_RECORD, record_key a s) = None).
Proof.
  pose proof append_seq_u64 as Hsq. cbn [av_log view_append].
  assert (Z.of_nat (length (av_log v ++ [e])) = seq) as Hlen by (rewrite length_app; simpl; lia).
  split_and!.
  - unfold log_room in *. simpl. rewrite length_app. simpl. by rewrite Nat.add_0_r.
  - rewrite Hlen. apply meta_is_put; [done|apply append_lookup_head].
  - intros i e' [[Hlt Hi]|[Hi <-]]%lookup_snoc_Some.
    + rewrite append_lookup_record by (apply (log_index_u64 v); [apply Hrepr|done]).
      rewrite decide_False by lia. by apply Hrepr.
    + exists eb. split; [|done].
      subst i. rewrite append_lookup_record by done. by rewrite decide_True.
  - intros s Hs Hr. rewrite append_lookup_record by done. rewrite Hlen in Hr.
    rewrite decide_False by lia. apply (ar_gap _ _ _ _ Hrepr); [done|lia].
Qed.
End Append.

Lemma append_direct_repr cipher m a v e eb caps clear ops :
  agent_repr cipher m a v -> log_room v 1 -> opens_to cipher eb e ->
  ledger_ops cipher a caps clear ops ->
  let seq := (Z.of_nat (length (av_log v)) + 1)%Z in
  agent_repr cipher (apply_batch m
    ([BatchPut cf_RECORD (record_key a seq) eb;
      BatchPut cf_AGENT_META (meta_key a MetaField_HeadSeq) (to_be_bytes seq)] ++ [] ++ ops))
    a (view_append v [e] caps clear).
Proof.
  intros Hr Hroom Heb Hops seq.
  assert (mid_keys a 0 []) as Hmid by constructor.
  destruct (append_log_part cipher m a v e eb 0 [] caps clear ops Hr Hroom Hmid Heb Hops)
    as (P1 & P2 & P3 & P4).
  pose proof (fun f => append_lookup_meta cipher m a v eb 0 [] caps clear ops Hmid Hops f) as Hmeta.
  assert (forall k, apply_batch m ([BatchPut cf_RECORD (record_key a seq) eb;
      BatchPut cf_AGENT_META (meta_key a MetaField_HeadSeq) (to_be_bytes seq)] ++ [] ++ ops)
      !! (cf_INBOX, k) = m !! (cf_INBOX, k)) as Hinbox.
  { intros k. rewrite apply_batch_app, app_nil_l, (ledger_untouched cipher a caps clear) by done.
    simpl. by rewrite !lookup_insert_ne by cf_ne. }
  assert (apply_batch m ([BatchPut cf_RECORD (record_key a seq) eb;
      BatchPut cf_AGENT_META (meta_key a MetaField_HeadSeq) (to_be_bytes seq)] ++ [] ++ ops)
      !! (cf_AGENT_META, meta_key a MetaField_InboxHead)
    = m !! (cf_AGENT_META, meta_key a MetaField_InboxHead)) as Hih.
  { rewrite apply_batch_app, app_nil_l, (ledger_untouched cipher a caps clear) by done.
    simpl. rewrite lookup_insert_ne; [by rewrite lookup_insert_ne by cf_ne|].
    intros E. key_eq E. by apply meta_key_inj in E as [_ ?]. }
  constructor; [exact P1|exact P2|exact P3|exact P4|..]; cbn [av_inbox av_inbox_head view_append
    av_status av_claimed av_caps].
  - apply (meta_is_same m); [exact Hih|apply Hr].
  - apply (meta_is_same m); [apply Hmeta; discriminate|apply Hr].
  - intros i tx Hi. rewrite Hinbox. by apply (ar_pending _ _ _ _ Hr).
  - by eapply (append_lookup_caps cipher m a v eb 0 [] caps clear ops).
  - rewrite Hmeta by discriminate. apply Hr.
  - unfold processing_claim_key. rewrite Hmeta by discriminate. apply Hr.
Qed.

Lemma append_atomic_repr cipher m a v e eb caps clear ops :
  agent_repr cipher m a v -> log_room v 1 -> av_inbox v <> [] -> opens_to cipher eb e ->
  ledger_ops cipher a caps clear ops ->
  let seq := (Z.of_nat (length (av_log v)) + 1)%Z in
  let q := av_inbox_head v in
  agent_repr cipher (apply_batch m
    ([BatchPut cf_RECORD (record_key a seq) eb;
      BatchPut cf_AGENT_META (meta_key a MetaField_HeadSeq) (to_be_bytes seq)] ++
     [BatchDelete cf_INBOX (inbox_key a q);
      BatchPut cf_AGENT_META (meta_key a MetaField_InboxHead) (to_be_bytes (u64_add q 1))] ++ ops))
    a (view_pop (view_append v [e] caps clear)).
Proof.
  intros Hr Hroom Hne Heb Hops seq q.
  set (mid := [BatchDelete cf_INBOX (inbox_key a q);
      BatchPut cf_AGENT_META (meta_key a MetaField_InboxHead) (to_be_bytes (u64_add q 1))]).
  assert (mid_keys a q mid) as Hmid by apply mid_keys_pop.
  destruct (append_log_part cipher m a v e eb q mid caps clear ops Hr Hroom Hmid Heb Hops)
    as (P1 & P2 & P3 & P4).
  pose proof (fun f => append_lookup_meta cipher m a v eb q mid caps clear ops Hmid Hops f) as Hmeta.
  destruct (av_inbox v) as [|tx0 inbox] eqn:Ein; [done|].
  pose proof (ar_inbox_tail _ _ _ _ Hr) as [Htu _]. pose proof (ar_inbox_head _ _ _ _ Hr) as [Hhu _].
  rewrite Ein in Htu. cbn [length] in Htu.
  assert (is_u64 (q + 1)) as Hq1 by (unfold is_u64 in *; lia).
  constructor; cbn [av_inbox av_inbox_head view_append view_pop av_log av_status av_claimed av_caps];
    [exact P1|exact P2|exact P3|exact P4|..]; rewrite ?Ein; cbn [tail].
  - apply meta_is_put; [done|]. rewrite apply_batch_app. unfold mid.
    change ([BatchDelete cf_INBOX (inbox_key a q); BatchPut cf_AGENT_META
      (meta_key a MetaField_InboxHead) (to_be_bytes (u64_add q 1))] ++ ops) with
      ([BatchDelete cf_INBOX (inbox_key a q)] ++ BatchPut cf_AGENT_META
      (meta_key a MetaField_InboxHead) (to_be_bytes (u64_add q 1)) :: ops).
    rewrite u64_add_small by done. apply lookup_batch_put.
    eapply Forall_impl; [by eapply ledger_ops_keys|]. intros op E. rewrite E. cf_ne.
  - apply (meta_is_same m); [apply Hmeta; discriminate|].
    pose proof (ar_inbox_tail _ _ _ _ Hr) as Ht. rewrite Ein in Ht. cbn [length] in Ht.
    replace (av_inbox_head v + 1 + Z.of_nat (length inbox))%Z
      with (av_inbox_head v + Z.of_nat (S (length inbox)))%Z by lia. exact Ht.
  - intros i tx Hi. pose proof (lookup_lt_Some _ _ _ Hi) as Hlt.
    destruct (ar_pending _ _ _ _ Hr (S i) tx) as (b & Hb & Ho); [by rewrite Ein|].
    exists b. split; [|done].
    replace (av_inbox_head v + 1 + Z.of_nat i)%Z with (av_inbox_head v + Z.of_nat (S i))%Z by lia.
    rewrite <-Hb. apply apply_batch_untouched. rewrite !Forall_app. split_and!.
    + repeat constructor; cf_ne.
    + repeat constructor; [|cf_ne]. intros E. key_eq E.
      apply inbox_key_inj in E as [_ E]; [unfold q in E; lia|done|unfold is_u64 in *; lia].
    + eapply Forall_impl; [by eapply ledger_ops_keys|]. intros op E. rewrite E. cf_ne.
  - by eapply (append_lookup_caps cipher m a v eb q mid caps clear ops).
  - rewrite Hmeta by discriminate. apply Hr.
  - unfold processing_claim_key. rewrite Hmeta by discriminate. apply Hr.
Qed.

(** ** Writes *)
Lemma commits_spec a op st P r st' :
  commits op st P -> (forall batch, P batch -> batch_of_agent a batch) -> op st = (r, st') ->
  (forall u d, rs_user_defaults st u d -> rs_user_defaults st' u d) /\
  (forall b v, rs_abstracts st b v ->
    if bool_decide (b = a /\ r = Ok tt)
    then rs_cipher st' = rs_cipher st /\ record_keys_ok (rs_view st')
         /\ exists batch, P batch /\ rs_view st' = apply_batch (rs_view st) batch
    else rs_abstracts st' b v).
Proof.
  intros Hc Hb Hop. destruct (Hc r st' Hop) as [Hci Hr]. destruct r as [[]|e].
  - destruct Hr as (batch & HP & Hv). specialize (Hb _ HP). split.
    + intros u d. by eapply batch_users.
    + intros b v Ha. case_bool_decide as E.
      * split; [done|]. split; [rewrite Hv; by eapply record_keys_ok_batch, Ha|eauto].
      * assert (a <> b) by naive_solver. by eapply batch_others.
  - split.
    + intros u d. by apply rs_user_unchanged.
    + intros b v Ha. rewrite bool_decide_eq_false_2 by naive_solver. by eapply rs_abstracts_unchanged.
Qed.

Lemma u64_add_is_u64 x y : is_u64 (u64_add x y).
Proof. unfold is_u64, u64_add, u64_wrap. apply Z.mod_pos_bound. lia. Qed.

Lemma rs_head_seq_spec st a v n :
  rs_abstracts st a v -> rs_get_head_seq st a = Ok n -> n = Z.of_nat (length (av_log v)).
Proof. intros [_ Hr]. by apply read_meta_u64_Ok, Hr. Qed.

Lemma head_succ v : log_room v 0 ->
  u64_add (Z.of_nat (length (av_log v))) 1 = (Z.of_nat (length (av_log v)) + 1)%Z.
Proof. unfold log_room, u64_max. intros Hb. apply u64_add_small. unfold is_u64. lia. Qed.

Lemma rs_append_direct_spec a seq e caps clear st r st' :
  rs_append_entry_direct_with_runtime_capabilities a seq e caps clear st = (r, st') ->
  (forall u d, rs_user_defaults st u d -> rs_user_defaults st' u d) /\
  (forall b v, rs_abstracts st b v ->
    if bool_decide (b = a /\ r = Ok tt)
    then seq = (Z.of_nat (length (av_log v)) + 1)%Z /\
         (log_room v 1 -> rs_abstracts st' b (view_append v [e] caps clear))
    else rs_abstracts st' b v).
Proof.
  intros Hop.
  destruct (commits_spec a _ st _ r st' (append_direct_commits a seq e caps clear st))
    as [Hu Ha]; [|exact Hop|].
  { intros batch (h & _ & -> & eb & ops & Heb & Hops & ->).
    apply (append_batch_of_agent (rs_cipher st) a _ e eb [] caps clear ops 0);
      [apply u64_add_is_u64|done|constructor|done|done]. }
  split; [done|]. intros b v Hv. specialize (Ha b v Hv). case_bool_decide as E; [|done].
  destruct E as [-> _]. destruct Ha as (Hci & Hk & batch & (h & Hh & Hseq & eb & ops & Heb & Hops & ->) & Hst).
  apply (rs_head_seq_spec _ _ _ _ Hv) in Hh as ->. destruct Hv as [_ Hr].
  rewrite head_succ in Hseq by apply Hr. split; [done|]. intros Hroom. subst seq.
  split; [done|]. rewrite Hst, Hci. by apply append_direct_repr.
Qed.

Lemma rs_append_dequeued_spec a seq e token caps clear st r st' :
  is_u64 (token_inbox_seq token) ->
  rs_append_entry_dequeued_with_runtime_capabilities a seq e token caps clear st = (r, st') ->
  (forall u d, rs_user_defaults st u d -> rs_user_defaults st' u d) /\
  (forall b v, rs_abstracts st b v ->
    if bool_decide (b = a /\ r = Ok tt)
    then seq = (Z.of_nat (length (av_log v)) + 1)%Z /\
         (log_room v 1 -> token_inbox_seq token = av_inbox_head v -> av_inbox v <> [] ->
          rs_abstracts st' b (view_pop (view_append v [e] caps clear)))
    else rs_abstracts st' b v).
Proof.
  intros Hq Hop.
  destruct (commits_spec a _ st _ r st'
    (append_atomic_commits a seq e (token_inbox_seq token) caps clear st))
    as [Hu Ha]; [|exact Hop|].
  { intros batch (h & _ & -> & eb & ops & Heb & Hops & ->).
    apply (append_batch_of_agent (rs_cipher st) a _ e eb _ caps clear ops (token_inbox_seq token));
      [apply u64_add_is_u64|done|apply mid_keys_pop|done|done]. }
  split; [done|]. intros b v Hv. specialize (Ha b v Hv). case_bool_decide as E; [|done].
  destruct E as [-> _]. destruct Ha as (Hci & Hk & batch & (h & Hh & Hseq & eb & ops & Heb & Hops & ->) & Hst).
  apply (rs_head_seq_spec _ _ _ _ Hv) in Hh as ->. destruct Hv as [_ Hr].
  rewrite head_succ in Hseq by apply Hr. split; [done|]. intros Hroom Htok Hne. subst seq.
  split; [done|]. rewrite Hst, Hci, Htok. by apply append_atomic_repr.
Qed.

(** *** Batch append *)
Fixpoint record_puts (a : AgentId) (base : Z) (ebs : list bytes) : WriteBatch :=
  match ebs with
  | [] => []
  | eb :: rest => BatchPut cf_RECORD (record_key a base) eb :: record_puts a (base + 1) rest
  end.

Lemma commits_batch_records a base i es batch k st P :
  is_u64 (base + i) -> is_u64 (base + i + Z.of_nat (length es)) ->
  (forall ebs st1, rs_view st1 = rs_view st -> rs_cipher st1 = rs_cipher st ->
     Forall2 (fun eb e => opens_to (rs_cipher st) eb e) ebs es ->
     commits (k (batch ++ record_puts a (base + i) ebs)) st1 P) ->
  commits (batch_records a base i es batch ≫= k) st P.
Proof.
  revert i batch st. induction es as [|e es IH]; intros i batch st Hlo Hhi Hk; simpl.
  - apply commits_ret. specialize (Hk [] st eq_refl eq_refl (List.Forall2_nil _)).
    by rewrite app_nil_r in Hk.
  - apply commits_assoc, commits_seal. intros eb st1 Hv Hc Hb.
    cbn [length] in Hhi. rewrite u64_add_small by done. apply IH.
    { unfold is_u64 in *. lia. }
    { unfold is_u64 in *. lia. }
    intros ebs st2 Hv2 Hc2 Hall.
    rewrite <-app_assoc. cbn [app].
    replace (base + (i + 1))%Z with (base + i + 1)%Z by lia.
    apply (Hk (eb :: ebs)); [congruence|congruence|]. constructor; [done|]. by rewrite Hc in Hall.
Qed.

Lemma record_puts_lookup a base ebs m s :
  is_u64 s -> is_u64 base -> is_u64 (base + Z.of_nat (length ebs)) ->
  apply_batch m (record_puts a base ebs) !! (cf_RECORD, record_key a s)
  = match (if decide (base <= s)%Z then ebs !! Z.to_nat (s - base) else None) with
    | Some eb => Some eb
    | None => m !! (cf_RECORD, record_key a s)
    end.
Proof.
  intros Hs. revert base m. induction ebs as [|eb ebs IH]; intros base m Hb Hn.
  { simpl. by case_decide. }
  cbn [length] in Hn. cbn [record_puts].
  change (apply_batch m (BatchPut cf_RECORD (record_key a base) eb :: record_puts a (base + 1) ebs))
    with (apply_batch (<[(cf_RECORD, record_key a base) := eb]> m) (record_puts a (base + 1) ebs)).
  rewrite IH; [|unfold is_u64 in *; lia..].
  destruct (decide (s = base)) as [->|Hne].
  { rewrite decide_False, decide_True, Z.sub_diag by lia. simpl. by rewrite lookup_insert_eq. }
  rewrite lookup_insert_ne; cycle 1.
  { intros E. key_eq E. by apply record_key_inj in E as [_ <-]. }
  destruct (decide (base <= s)%Z) as [Hle|Hle].
  - rewrite decide_True by lia.
    replace (Z.to_nat (s - base)) with (S (Z.to_nat (s - (base + 1)))) by lia. done.
  - by rewrite decide_False by lia.
Qed.

Lemma record_puts_keys a base ebs cf k :
  cf <> cf_RECORD -> Forall (fun op => op_key op <> (cf, k)) (record_puts a base ebs).
Proof.
  intros Hcf. revert base. induction ebs as [|eb ebs IH]; intros base; constructor; [|apply IH].
  simpl. intros [= E _]. by apply Hcf.
Qed.

Lemma record_puts_of_agent a base ebs :
  is_u64 base -> is_u64 (base + Z.of_nat (length ebs)) -> batch_of_agent a (record_puts a base ebs).
Proof.
  revert base. induction ebs as [|eb ebs IH]; intros base Hb Hn; constructor.
  - by apply (ak_record _ _ base).
  - cbn [length] in Hn. apply IH; unfold is_u64 in *; lia.
Qed.

Lemma append_batch_repr cipher m a v es ebs :
  agent_repr cipher m a v -> es <> [] -> log_room v (length es) ->
  Forall2 (fun eb e => opens_to cipher eb e) ebs es ->
  let base := (Z.of_nat (length (av_log v)) + 1)%Z in
  agent_repr cipher (apply_batch m
    (record_puts a base ebs ++
     [BatchPut cf_AGENT_META (meta_key a MetaField_HeadSeq)
        (to_be_bytes (base + Z.of_nat (length es) - 1))])) a (view_append v es None false).
Proof.
  intros Hr Hne Hroom Hall base. pose proof (Forall2_length _ _ _ Hall) as Hlen.
  assert (0 < length es) by (destruct es; simpl; [done|lia]).
  set (m' := apply_batch m _).
  assert (forall s, is_u64 s -> m' !! (cf_RECORD, record_key a s) =
    match (if decide (base <= s)%Z then ebs !! Z.to_nat (s - base) else None) with
    | Some eb => Some eb | None => m !! (cf_RECORD, record_key a s) end) as Hrec.
  { intros s Hs. unfold m'. rewrite apply_batch_app, apply_batch_untouched; cycle 1.
    { apply Forall_singleton. cf_ne. }
    apply record_puts_lookup; [done|..]; unfold log_room, is_u64, u64_max, base in *; lia. }
  assert (forall cf k, cf <> cf_RECORD -> (cf, k) <> (cf_AGENT_META, meta_key a MetaField_HeadSeq) ->
    m' !! (cf, k) = m !! (cf, k)) as Hoth.
  { intros cf k Hcf Hk. unfold m'. apply apply_batch_untouched, Forall_app. split.
    - by apply record_puts_keys.
    - apply Forall_singleton. intros E. by symmetry in E. }
  assert (forall f, f <> MetaField_HeadSeq ->
    m' !! (cf_AGENT_META, meta_key a f) = m !! (cf_AGENT_META, meta_key a f)) as Hmeta.
  { intros f Hf. apply Hoth; [done|]. intros E. key_eq E. by apply meta_key_inj in E as [_ ?]. }
  constructor; cbn [av_inbox av_inbox_head view_append av_log av_status av_claimed av_caps].
  - unfold log_room in *. simpl. rewrite length_app. by rewrite Nat.add_0_r.
  - rewrite length_app. replace (Z.of_nat (length (av_log v) + length es))%Z
      with (base + Z.of_nat (length es) - 1)%Z by (unfold base; lia).
    apply meta_is_put; [unfold log_room, is_u64, u64_max, base in *; lia|].
    unfold m'. by apply lookup_batch_put.
  - intros i e Hi. pose proof (lookup_lt_Some _ _ _ Hi) as Hlt. rewrite length_app in Hlt.
    rewrite Hrec by (unfold log_room, is_u64, u64_max in *; lia).
    destruct (decide (i < length (av_log v))) as [Hil|Hil].
    + rewrite lookup_app_l in Hi by done. rewrite decide_False by (unfold base; lia).
      by apply (ar_entry _ _ _ _ Hr).
    + rewrite lookup_app_r in Hi by lia. rewrite decide_True by (unfold base; lia).
      replace (Z.to_nat (Z.of_nat i + 1 - base)) with (i - length (av_log v)) by (unfold base; lia).
      destruct (Forall2_lookup_r _ _ _ _ _ Hall Hi) as (eb & Heb & Ho). rewrite Heb. eauto.
  - intros s Hs Hrange. rewrite length_app in Hrange. rewrite Hrec by done.
    assert (m !! (cf_RECORD, record_key a s) = None) as Hnone
      by (apply (ar_gap _ _ _ _ Hr); [done|lia]).
    case_decide; [|done]. rewrite lookup_ge_None_2 by (unfold base in *; lia). done.
  - apply (meta_is_same m); [by apply Hmeta|apply (ar_inbox_head _ _ _ _ Hr)].
  - apply (meta_is_same m); [by apply Hmeta|apply (ar_inbox_tail _ _ _ _ Hr)].
  - intros i tx Hi. rewrite Hoth by (done || cf_ne). by apply (ar_pending _ _ _ _ Hr).
  - rewrite Hoth by (done || cf_ne). apply (ar_caps _ _ _ _ Hr).
  - rewrite Hmeta by done. apply (ar_status _ _ _ _ Hr).
  - unfold processing_claim_key. rewrite Hmeta by done. apply (ar_claim _ _ _ _ Hr).
Qed.

Lemma append_batch_commits a base e es st :
  is_u64 base -> is_u64 (base + Z.of_nat (length (e :: es))) ->
  commits (rs_append_entries_batch a base (e :: es)) st (fun batch =>
    exists h ebs, rs_get_head_seq st a = Ok h /\ base = u64_add h 1
      /\ Forall2 (fun eb x => opens_to (rs_cipher st) eb x) ebs (e :: es)
      /\ batch = record_puts a base ebs ++
           [BatchPut cf_AGENT_META (meta_key a MetaField_HeadSeq)
              (to_be_bytes (base + Z.of_nat (length (e :: es)) - 1))]).
Proof.
  intros Hb Hn. unfold rs_append_entries_batch.
  apply commits_reads. intros _ _. apply commits_reads. intros _ _.
  apply commits_reads. intros h Hh. case_bool_decide as Hs; cbn [negb]; [|apply commits_fails].
  apply commits_batch_records; [by rewrite Z.add_0_r|by rewrite Z.add_0_r|].
  intros ebs st1 Hv Hc Hall. rewrite Z.add_0_r, app_nil_l. apply commits_write.
  exists h, ebs. split_and!; [done|done|done|].
  unfold u64_wrap. rewrite Z.mod_small; [done|]. cbn [length] in *. unfold is_u64 in *. lia.
Qed.

Lemma rs_append_batch_spec a base es st r st' :
  is_u64 base -> is_u64 (base + Z.of_nat (length es)) ->
  rs_append_entries_batch a base es st = (r, st') ->
  (forall u d, rs_user_defaults st u d -> rs_user_defaults st' u d) /\
  (forall b v, rs_abstracts st b v ->
    if bool_decide (b = a /\ r = Ok tt)
    then (es <> [] -> base = (Z.of_nat (length (av_log v)) + 1)%Z) /\
         (log_room v (length es) -> rs_abstracts st' b (view_append v es None false))
    else rs_abstracts st' b v).
Proof.
  intros Hb Hn Hop. destruct es as [|e es].
  { injection Hop as <- <-. split; [done|]. intros b v Hv. case_bool_decide; [|done].
    split; [done|]. intros _. destruct v as [log inbox ih caps status claim].
    unfold view_append. simpl. by rewrite app_nil_r. }
  destruct (commits_spec a _ st _ r st' (append_batch_commits a base e es st Hb Hn))
    as [Hu Ha]; [|exact Hop|].
  { intros batch (h & ebs & _ & _ & Hall & ->). pose proof (Forall2_length _ _ _ Hall) as Hl.
    apply Forall_app. split; [|apply Forall_singleton; by apply (ak_meta _ _ MetaField_HeadSeq)].
    apply record_puts_of_agent; [done|by rewrite Hl]. }
  split; [done|]. intros b v Hv. specialize (Ha b v Hv). case_bool_decide as E; [|done].
  destruct E as [-> _]. destruct Ha as (Hci & Hk & batch & (h & ebs & Hh & Hseq & Hall & ->) & Hst).
  apply (rs_head_seq_spec _ _ _ _ Hv) in Hh as ->. destruct Hv as [_ Hr].
  rewrite head_succ in Hseq by apply Hr. split; [done|]. intros Hroom. subst base.
  split; [done|]. rewrite Hst, Hci. by apply append_batch_repr.
Qed.

(** *** Single-key writes *)
Lemma agent_repr_meta_put cipher m a v f b :
  f <> MetaField_HeadSeq -> f <> MetaField_InboxHead -> f <> MetaField_InboxTail ->
  forall v', av_log v' = av_log v -> av_inbox v' = av_inbox v ->
    av_inbox_head v' = av_inbox_head v -> av_caps v' = av_caps v ->
  forall m', (forall k, k <> (cf_AGENT_META, meta_key a f) -> m' !! k = m !! k) ->
    m' !! (cf_AGENT_META, meta_key a f) = b ->
  match m' !! (cf_AGENT_META, meta_key a MetaField_Status) with
  | None => av_status v' = AgentStatus_Active
  | Some b => b = [status_as_byte (av_status v')]
  end ->
  av_claimed v' = bool_decide (is_Some (m' !! (cf_AGENT_META, processing_claim_key a))) ->
  agent_repr cipher m a v -> agent_repr cipher m' a v'.
Proof.
  intros H1' H2' H3' v' El Ei Eh Ec m' Hm' Hb Hs Hcl Hr.
  assert (forall g, g <> f -> m' !! (cf_AGENT_META, meta_key a g) = m !! (cf_AGENT_META, meta_key a g))
    as Hg.
  { intros g Hgf. apply Hm'. intros E. key_eq E. by apply meta_key_inj in E as [_ ?]. }
  constructor; unfold log_room; rewrite ?El, ?Ei, ?Eh, ?Ec; try done.
  - apply (ar_bound _ _ _ _ Hr).
  - apply (meta_is_same m); [by apply Hg|apply (ar_head _ _ _ _ Hr)].
  - intros i e Hi. rewrite Hm' by cf_ne. by apply (ar_entry _ _ _ _ Hr).
  - intros s Hsu Hso. rewrite Hm' by cf_ne. by apply (ar_gap _ _ _ _ Hr).
  - apply (meta_is_same m); [by apply Hg|apply (ar_inbox_head _ _ _ _ Hr)].
  - apply (meta_is_same m); [by apply Hg|apply (ar_inbox_tail _ _ _ _ Hr)].
  - intros i tx Hi. rewrite Hm' by cf_ne. by apply (ar_pending _ _ _ _ Hr).
  - rewrite Hm' by cf_ne. apply (ar_caps _ _ _ _ Hr).
Qed.

Lemma rs_set_status_spec a status st r st' :
  rs_set_agent_status a status st = (r, st') ->
  (forall u d, rs_user_defaults st u d -> rs_user_defaults st' u d) /\
  (forall b v, rs_abstracts st b v ->
    rs_abstracts st' b (if bool_decide (b = a /\ r = Ok tt) then view_status v status else v)).
Proof.
  intros Hop.
  destruct (commits_spec a (rs_set_agent_status a status) st (fun batch => batch =
    [BatchPut cf_AGENT_META (meta_key a MetaField_Status) [status_as_byte status]]) r st')
    as [Hu Ha]; [|intros ? ->|exact Hop|].
  { unfold rs_set_agent_status. apply commits_reads. intros _ _. by apply commits_write. }
  { apply Forall_singleton. by apply (ak_meta _ _ MetaField_Status). }
  split; [done|]. intros b v Hv. specialize (Ha b v Hv). case_bool_decide as E; [|done].
  destruct E as [-> _]. destruct Ha as (Hci & Hk & batch & -> & Hst). destruct Hv as [_ Hr].
  split; [done|]. rewrite Hst, Hci. cbn [apply_batch foldl apply_op].
  refine (agent_repr_meta_put _ (rs_view st) a v MetaField_Status _ _ _ _ _ _ _ _ _ _ _ eq_refl _ _ Hr);
    try done.
  - intros k Hk'. by rewrite lookup_insert_ne.
  - by rewrite lookup_insert_eq.
  - unfold processing_claim_key. rewrite lookup_insert_ne; [apply (ar_claim _ _ _ _ Hr)|].
    intros E. key_eq E. by apply meta_key_inj in E as [_ ?].
Qed.

(** Writing or deleting the claim key sets the claim. *)
Lemma claim_repr cipher m a v m' (c : bool) :
  agent_repr cipher m a v ->
  (forall k, k <> (cf_AGENT_META, processing_claim_key a) -> m' !! k = m !! k) ->
  is_Some (m' !! (cf_AGENT_META, processing_claim_key a)) <-> c = true ->
  agent_repr cipher m' a (view_claim v c).
Proof.
  intros Hr Hm' Hc.
  refine (agent_repr_meta_put _ m a v MetaField_ProcessingClaim _ _ _ _ _ _ _ _ _ _ Hm' eq_refl _ _ Hr);
    try done.
  - rewrite Hm'; [apply (ar_status _ _ _ _ Hr)|].
    intros E. key_eq E. by apply meta_key_inj in E as [_ ?].
  - simpl. destruct c; symmetry; [apply bool_decide_eq_true_2|apply bool_decide_eq_false_2]; naive_solver.
Qed.

Lemma rs_try_claim_spec a st r st' :
  rs_try_claim_agent_processing a st = (r, st') ->
  (forall u d, rs_user_defaults st u d -> rs_user_defaults st' u d) /\
  (forall b v, rs_abstracts st b v ->
    rs_abstracts st' b (if bool_decide (b = a /\ r = Ok true) then view_claim v true else v)) /\
  (forall v ok, rs_abstracts st a v -> r = Ok ok -> ok = negb (av_claimed v)).
Proof.
  unfold rs_try_claim_agent_processing, reads, mbind, stm_bind.
  assert (forall r', r' <> Ok true -> (r, st') = (r', st) ->
    (forall v ok, rs_abstracts st a v -> r' = Ok ok -> ok = negb (av_claimed v)) ->
    (forall u d, rs_user_defaults st u d -> rs_user_defaults st' u d) /\
    (forall b v, rs_abstracts st b v ->
      rs_abstracts st' b (if bool_decide (b = a /\ r = Ok true) then view_claim v true else v)) /\
    (forall v ok, rs_abstracts st a v -> r = Ok ok -> ok = negb (av_claimed v))) as Hsame.
  { intros r' Hne [= -> ->] Hcl. split_and!; [done| |done]. intros b v Hv.
    by rewrite bool_decide_eq_false_2 by naive_solver. }
  destruct (rs_cf st cf_AGENT_META) as [[]|e]; [|intros Hop; by apply (Hsame (Err e))].
  destruct (rs_get st cf_AGENT_META (processing_claim_key a)) as [[b|]|e] eqn:Hg;
    [..|intros Hop; by apply (Hsame (Err e))]; apply rs_get_Ok in Hg.
  - intros Hop. apply (Hsame (Ok false)); [done|done|]. intros v ok [_ Hr] [= <-].
    rewrite (ar_claim _ _ _ _ Hr), <-Hg. done.
  - destruct (rs_write _ st) as [[[]|e] st1] eqn:Hw; intros [= <- <-];
      apply rs_write_inv in Hw as (Hci & Hok & Herr).
    + specialize (Hok eq_refl).
      assert (batch_of_agent a [BatchPut cf_AGENT_META (processing_claim_key a) ["001"%byte]]) as Hb.
      { apply Forall_singleton. by apply (ak_meta _ _ MetaField_ProcessingClaim). }
      split_and!.
      * intros u d. by eapply batch_users.
      * intros b v Hv. case_bool_decide as E.
        -- destruct E as [-> _]. destruct Hv as [Hk Hr]. split; rewrite Hok;
             [by eapply record_keys_ok_batch|]. rewrite Hci. cbn [apply_batch foldl apply_op].
           apply (claim_repr _ (rs_view st)); [done| |].
           ++ intros k Hk'. by rewrite lookup_insert_ne.
           ++ by rewrite lookup_insert_eq.
        -- assert (a <> b) by naive_solver. by eapply batch_others.
      * intros v ok [_ Hr] [= <-]. by rewrite (ar_claim _ _ _ _ Hr), <-Hg.
    + specialize (Herr ltac:(done)). split_and!; [intros u d; by apply rs_user_unchanged| |done].
      intros b v Hv. rewrite bool_decide_eq_false_2 by naive_solver. by eapply rs_abstracts_unchanged.
Qed.

Lemma rs_release_spec a st r st' :
  rs_release_agent_processing a st = (r, st') ->
  (forall u d, rs_user_defaults st u d -> rs_user_defaults st' u d) /\
  (forall b v, rs_abstracts st b v ->
    rs_abstracts st' b (if bool_decide (b = a /\ r = Ok tt) then view_claim v false else v)).
Proof.
  intros Hop.
  destruct (commits_spec a (rs_release_agent_processing a) st (fun batch => batch =
    [BatchDelete cf_AGENT_META (processing_claim_key a)]) r st')
    as [Hu Ha]; [|intros ? ->|exact Hop|].
  { unfold rs_release_agent_processing. apply commits_reads. intros _ _. by apply commits_write. }
  { apply Forall_singleton. by apply (ak_meta _ _ MetaField_ProcessingClaim). }
  split; [done|]. intros b v Hv. specialize (Ha b v Hv). case_bool_decide as E; [|done].
  destruct E as [-> _]. destruct Ha as (Hci & Hk & batch & -> & Hst). destruct Hv as [_ Hr].
  split; [done|]. rewrite Hst, Hci. cbn [apply_batch foldl apply_op].
  apply (claim_repr _ (rs_view st)); [done| |].
  - intros k Hk'. by rewrite lookup_delete_ne.
  - rewrite lookup_delete_eq. split; [by intros []|done].
Qed.

(** *** Enqueue *)
Lemma rs_read_meta_is_u64 st k n : read_meta_u64 st k = Ok n -> is_u64 n.
Proof.
  unfold read_meta_u64. intros ([] & _ & Hr)%result_bind_Ok.
  apply result_bind_Ok in Hr as ([b|] & _ & Hr); [|by injection Hr as <-].
  apply result_bind_Ok in Hr as (arr & _ & Hr). injection Hr as <-.
  apply from_be_bytes_is_u64, arr_length.
Qed.

Lemma enqueue_commits tx st :
  commits (rs_enqueue_tx tx) st (fun batch =>
    exists t tb, read_meta_u64 st (meta_key (tx_agent_id tx) MetaField_InboxTail) = Ok t
      /\ opens_to (rs_cipher st) tb tx
      /\ batch = [BatchPut cf_INBOX (inbox_key (tx_agent_id tx) t) tb;
                  BatchPut cf_AGENT_META (meta_key (tx_agent_id tx) MetaField_InboxTail)
                    (to_be_bytes (u64_add t 1))]).
Proof.
  unfold rs_enqueue_tx. apply commits_reads. intros _ _. apply commits_reads. intros _ _.
  apply commits_reads. intros t Ht. apply commits_seal. intros tb st1 Hv Hc Hb.
  apply commits_write. eauto.
Qed.

Lemma enqueue_repr cipher m a v tx tb :
  agent_repr cipher m a v -> inbox_room v -> opens_to cipher tb tx ->
  let t := (av_inbox_head v + Z.of_nat (length (av_inbox v)))%Z in
  agent_repr cipher (apply_batch m
    [BatchPut cf_INBOX (inbox_key a t) tb;
     BatchPut cf_AGENT_META (meta_key a MetaField_InboxTail) (to_be_bytes (t + 1))])
    a (view_enqueue v tx).
Proof.
  intros Hr Hroom Hb t. cbn [apply_batch foldl apply_op].
  pose proof (ar_inbox_head _ _ _ _ Hr) as [Hhu _]. pose proof (ar_inbox_tail _ _ _ _ Hr) as [Htu _].
  set (m' := <[_ := _]> (<[_ := _]> m)).
  assert (forall f, f <> MetaField_InboxTail ->
    m' !! (cf_AGENT_META, meta_key a f) = m !! (cf_AGENT_META, meta_key a f)) as Hmeta.
  { intros f Hf. unfold m'. rewrite lookup_insert_ne; [by rewrite lookup_insert_ne by cf_ne|].
    intros E. key_eq E. by apply meta_key_inj in E as [_ ?]. }
  assert (forall cf k, cf <> cf_AGENT_META -> cf <> cf_INBOX -> m' !! (cf, k) = m !! (cf, k)) as Hoth.
  { intros cf k Hc1 Hc2. unfold m'. rewrite !lookup_insert_ne; [done|by intros [= ? _]..]. }
  constructor; cbn [av_inbox av_inbox_head view_enqueue av_log av_status av_claimed av_caps].
  - apply (ar_bound _ _ _ _ Hr).
  - apply (meta_is_same m); [by apply Hmeta|apply (ar_head _ _ _ _ Hr)].
  - intros i e Hi. rewrite Hoth by done. by apply (ar_entry _ _ _ _ Hr).
  - intros s Hs Hso. rewrite Hoth by done. by apply (ar_gap _ _ _ _ Hr).
  - apply (meta_is_same m); [by apply Hmeta|apply (ar_inbox_head _ _ _ _ Hr)].
  - rewrite length_app. cbn [length].
    replace (av_inbox_head v + Z.of_nat (length (av_inbox v) + 1))%Z with (t + 1)%Z by (unfold t; lia).
    apply meta_is_put; [exact Hroom|]. unfold m'. apply lookup_insert_eq.
  - intros i tx' [[Hlt Hi]|[Hi <-]]%lookup_snoc_Some.
    + destruct (ar_pending _ _ _ _ Hr i tx' Hi) as (b & Hbb & Ho). exists b. split; [|done].
      unfold m'. rewrite lookup_insert_ne by cf_ne. rewrite lookup_insert_ne; [done|].
      intros E. key_eq E. apply inbox_key_inj in E as [_ E]; [unfold t in E; lia|done|].
      unfold is_u64 in *. lia.
    + exists tb. split; [|done]. unfold m'. rewrite lookup_insert_ne by cf_ne. subst i.
      apply lookup_insert_eq.
  - rewrite Hoth by done. apply (ar_caps _ _ _ _ Hr).
  - rewrite Hmeta by done. apply (ar_status _ _ _ _ Hr).
  - unfold processing_claim_key. rewrite Hmeta by done. apply (ar_claim _ _ _ _ Hr).
Qed.

Lemma rs_enqueue_spec tx st r st' :
  rs_enqueue_tx tx st = (r, st') ->
  let a := tx_agent_id tx in
  (forall u d, rs_user_defaults st u d -> rs_user_defaults st' u d) /\
  (forall b v, rs_abstracts st b v ->
    if bool_decide (b = a /\ r = Ok tt)
    then inbox_room v -> rs_abstracts st' b (view_enqueue v tx) else rs_abstracts st' b v).
Proof.
  intros Hop a.
  destruct (commits_spec a _ st _ r st' (enqueue_commits tx st)) as [Hu Ha]; [|exact Hop|].
  { intros batch (t & tb & Ht & Hb & ->). apply rs_read_meta_is_u64 in Ht.
    apply Forall_cons; split; [by apply (ak_inbox _ _ t)|].
    apply Forall_singleton. by apply (ak_meta _ _ MetaField_InboxTail). }
  split; [done|]. intros b v Hv. specialize (Ha b v Hv). case_bool_decide as E; [|done].
  destruct E as [-> _]. destruct Ha as (Hci & Hk & batch & (t & tb & Ht & Hb & ->) & Hst).
  intros Hroom. destruct Hv as [_ Hr].
  apply (read_meta_u64_Ok _ _ _ _ _ (ar_inbox_tail _ _ _ _ Hr)) in Ht as ->.
  split; [done|]. rewrite Hst, Hci. rewrite u64_add_small by exact Hroom. by apply enqueue_repr.
Qed.

(** *** User defaults *)
Lemma string_to_bytes_inj u u' : string_to_bytes u = string_to_bytes u' -> u = u'.
Proof.
  unfold string_to_bytes. intros E.
  by rewrite <-(String.string_of_list_byte_of_string u), E, String.string_of_list_byte_of_string.
Qed.

Lemma user_write_agents st st' u b v (batch : WriteBatch) :
  Forall (fun op => op_key op = (cf_USER_TOOL_DEFAULTS, u)) batch ->
  rs_cipher st' = rs_cipher st -> rs_view st' = apply_batch (rs_view st) batch ->
  rs_abstracts st b v -> rs_abstracts st' b v.
Proof.
  intros Hb Hci Hst [Hk Hr].
  assert (forall cf k, cf <> cf_USER_TOOL_DEFAULTS -> rs_view st' !! (cf, k) = rs_view st !! (cf, k)) as Hl.
  { intros cf k Hcf. rewrite Hst. apply apply_batch_untouched. eapply Forall_impl; [exact Hb|].
    intros op E E'. cbv beta in *. rewrite E in E'. by injection E' as ? _. }
  split.
  - intros k x. rewrite Hl by done. apply Hk.
  - rewrite Hci. eapply agent_repr_frame; [|done]. repeat split; intros; by rewrite Hl.
Qed.

(** A committed write to one user's key. *)
Lemma user_write_spec op st (P : WriteBatch -> Prop) u (new : option UserToolDefaults) r st' :
  commits op st P ->
  (forall batch m, P batch ->
    Forall (fun o => op_key o = (cf_USER_TOOL_DEFAULTS, string_to_bytes u)) batch /\
    match apply_batch m batch !! (cf_USER_TOOL_DEFAULTS, string_to_bytes u) with
    | None => new = None
    | Some b => exists x, new = Some x /\ opens_to (rs_cipher st) b x
    end) ->
  op st = (r, st') ->
  (forall b v, rs_abstracts st b v -> rs_abstracts st' b v) /\
  (forall u' d', rs_user_defaults st u' d' ->
    rs_user_defaults st' u' (if bool_decide (u' = u /\ r = Ok tt) then new else d')).
Proof.
  intros Hc HP Hop. destruct (Hc r st' Hop) as [Hci Hr]. destruct r as [[]|e].
  - destruct Hr as (batch & Hb & Hst). destruct (HP batch (rs_view st) Hb) as [Hkeys Hnew]. split.
    + intros b v. by eapply user_write_agents.
    + intros u' d' Hd'. unfold rs_user_defaults in *. rewrite Hst, Hci.
      case_bool_decide as E; [by destruct E as [-> _]|].
      rewrite apply_batch_untouched; [done|]. eapply Forall_impl; [exact Hkeys|].
      intros o Eo Eo'. cbv beta in *. rewrite Eo in Eo'. key_eq Eo'.
      apply string_to_bytes_inj in Eo'. naive_solver.
  - split; [intros b v; by apply rs_abstracts_unchanged|]. intros u' d' Hd'.
    rewrite bool_decide_eq_false_2 by naive_solver. by eapply rs_user_unchanged.
Qed.

Lemma rs_put_user_spec u d st r st' :
  rs_put_user_tool_defaults u d st = (r, st') ->
  (forall b v, rs_abstracts st b v -> rs_abstracts st' b v) /\
  (forall u' d', rs_user_defaults st u' d' ->
    rs_user_defaults st' u' (if bool_decide (u' = u /\ r = Ok tt) then Some d else d')).
Proof.
  apply (user_write_spec _ _ (fun batch => exists b, opens_to (rs_cipher st) b d /\
    batch = [BatchPut cf_USER_TOOL_DEFAULTS (string_to_bytes u) b])).
  - unfold rs_put_user_tool_defaults. apply commits_reads. intros _ _.
    apply commits_seal. intros b st1 Hv Hc Hb. apply commits_write. eauto.
  - intros batch m (b & Hb & ->). split; [by apply Forall_singleton|].
    simpl. rewrite lookup_insert_eq. eauto.
Qed.

Lemma rs_delete_user_spec u st r st' :
  rs_delete_user_tool_defaults u st = (r, st') ->
  (forall b v, rs_abstracts st b v -> rs_abstracts st' b v) /\
  (forall u' d', rs_user_defaults st u' d' ->
    rs_user_defaults st' u' (if bool_decide (u' = u /\ r = Ok tt) then None else d')).
Proof.
  apply (user_write_spec _ _ (fun batch => batch =
    [BatchDelete cf_USER_TOOL_DEFAULTS (string_to_bytes u)])).
  - unfold rs_delete_user_tool_defaults. apply commits_reads. intros _ _. by apply commits_write.
  - intros batch m ->. split; [by apply Forall_singleton|]. simpl. by rewrite lookup_delete_eq.
Qed.

(** ** Reads *)
Lemma rs_dequeue_spec st a v r :
  rs_abstracts st a v -> rs_dequeue_tx st a = Ok r ->
  match r with
  | None => av_inbox v = []
  | Some (token, tx) => token_inbox_seq token = av_inbox_head v /\ head (av_inbox v) = Some tx
  end.
Proof.
  intros [_ Hr]. unfold rs_dequeue_tx. intros ([] & _ & Hd)%result_bind_Ok.
  apply result_bind_Ok in Hd as (h & Hh & Hd). apply result_bind_Ok in Hd as (t & Ht & Hd).
  apply (read_meta_u64_Ok _ _ _ _ _ (ar_inbox_head _ _ _ _ Hr)) in Hh as ->.
  apply (read_meta_u64_Ok _ _ _ _ _ (ar_inbox_tail _ _ _ _ Hr)) in Ht as ->.
  case_bool_decide as E.
  - injection Hd as <-. destruct (av_inbox v); [done|]. simpl in E. lia.
  - apply result_bind_Ok in Hd as (b & Hb & Hd). apply rs_get_Ok in Hb.
    destruct b as [b|]; [|done]. apply result_bind_Ok in Hd as (tx & Htx & Hd). injection Hd as <-.
    split; [done|]. apply open_json_Ok in Htx.
    destruct (av_inbox v) as [|tx0 inbox] eqn:Ei; [simpl in E; lia|].
    destruct (ar_pending _ _ _ _ Hr 0 tx0) as (b' & Hb' & Ho); [by rewrite Ei|].
    rewrite Z.add_0_r, <-Hb in Hb'. injection Hb' as <-. simpl. f_equal. by eapply opens_to_inj.
Qed.

Lemma rs_pending_spec st a v b :
  rs_abstracts st a v -> rs_has_pending_tx st a = Ok b ->
  b = negb (bool_decide (av_inbox v = [])).
Proof.
  intros [_ Hr]. unfold rs_has_pending_tx. intros (h & Hh & Hd)%result_bind_Ok.
  apply result_bind_Ok in Hd as (t & Ht & Hd). injection Hd as <-.
  apply (read_meta_u64_Ok _ _ _ _ _ (ar_inbox_head _ _ _ _ Hr)) in Hh as ->.
  apply (read_meta_u64_Ok _ _ _ _ _ (ar_inbox_tail _ _ _ _ Hr)) in Ht as ->.
  destruct (av_inbox v); simpl; case_bool_decide; try done; lia.
Qed.

Lemma rs_depth_spec st a v n :
  rs_abstracts st a v -> rs_get_inbox_depth st a = Ok n -> n = Z.of_nat (length (av_inbox v)).
Proof.
  intros [_ Hr]. unfold rs_get_inbox_depth. intros (h & Hh & Hd)%result_bind_Ok.
  apply result_bind_Ok in Hd as (t & Ht & Hd). injection Hd as <-.
  apply (read_meta_u64_Ok _ _ _ _ _ (ar_inbox_head _ _ _ _ Hr)) in Hh as ->.
  apply (read_meta_u64_Ok _ _ _ _ _ (ar_inbox_tail _ _ _ _ Hr)) in Ht as ->.
  unfold saturating_sub. lia.
Qed.

Lemma rs_get_entry_spec st a v seq e :
  rs_abstracts st a v -> is_u64 seq -> rs_get_record_entry st a seq = Ok e ->
  (1 <= seq)%Z /\ av_log v !! Z.to_nat (seq - 1) = Some e.
Proof.
  intros [_ Hr] Hs. unfold rs_get_record_entry. intros ([] & _ & Hd)%result_bind_Ok.
  apply result_bind_Ok in Hd as (b & Hb & Hd). apply rs_get_Ok in Hb. destruct b as [b|]; [|done].
  apply open_json_Ok in Hd.
  destruct (decide (seq < 1 \/ Z.of_nat (length (av_log v)) < seq)%Z) as [Ho|Ho].
  { by rewrite (ar_gap _ _ _ _ Hr seq) in Hb. }
  split; [lia|].
  destruct (lookup_lt_is_Some_2 (av_log v) (Z.to_nat (seq - 1))) as [e' He']; [lia|].
  destruct (ar_entry _ _ _ _ Hr _ _ He') as (b' & Hb' & Ho').
  replace (Z.of_nat (Z.to_nat (seq - 1)) + 1)%Z with seq in Hb' by lia.
  rewrite <-Hb in Hb'. injection Hb' as <-. rewrite He'. f_equal. by eapply opens_to_inj.
Qed.

Lemma rs_caps_spec st a v c :
  rs_abstracts st a v -> rs_get_runtime_capabilities st a = Ok c -> c = av_caps v.
Proof.
  intros [_ Hr]. unfold rs_get_runtime_capabilities. intros ([] & _ & Hd)%result_bind_Ok.
  apply result_bind_Ok in Hd as (b & Hb & Hd). apply rs_get_Ok in Hb.
  pose proof (ar_caps _ _ _ _ Hr) as Hc. rewrite <-Hb in Hc. destruct b as [b|].
  - apply result_bind_Ok in Hd as (x & Hx & Hd). injection Hd as <-. apply open_json_Ok in Hx.
    destruct Hc as (c' & -> & Ho). f_equal. by eapply opens_to_inj.
  - by injection Hd as <-.
Qed.

Lemma rs_status_spec st a v s :
  rs_abstracts st a v -> rs_get_agent_status st a = Ok s -> s = av_status v.
Proof.
  intros [_ Hr]. unfold rs_get_agent_status. intros ([] & _ & Hd)%result_bind_Ok.
  apply result_bind_Ok in Hd as (b & Hb & Hd). apply rs_get_Ok in Hb.
  pose proof (ar_status _ _ _ _ Hr) as Hs. rewrite <-Hb in Hs. destruct b as [b|].
  - subst b. rewrite status_roundtrip in Hd. by injection Hd as <-.
  - by injection Hd as <-.
Qed.

Lemma rs_processing_spec st a v b :
  rs_abstracts st a v -> rs_is_agent_processing st a = Ok b -> b = av_claimed v.
Proof.
  intros [_ Hr]. unfold rs_is_agent_processing. intros ([] & _ & Hd)%result_bind_Ok.
  apply result_bind_Ok in Hd as (x & Hx & Hd). apply rs_get_Ok in Hx as ->. injection Hd as <-.
  symmetry. apply (ar_claim _ _ _ _ Hr).
Qed.

Lemma rs_get_user_spec st u d d' :
  rs_user_defaults st u d -> rs_get_user_tool_defaults st u = Ok d' -> d' = d.
Proof.
  unfold rs_user_defaults, rs_get_user_tool_defaults. intros Hu ([] & _ & Hd)%result_bind_Ok.
  apply result_bind_Ok in Hd as (b & Hb & Hd). apply rs_get_Ok in Hb. rewrite <-Hb in Hu.
  destruct b as [b|].
  - apply result_bind_Ok in Hd as (x & Hx & Hd). injection Hd as <-. apply open_json_Ok in Hx.
    destruct Hu as (c' & -> & Ho). f_equal. by eapply opens_to_inj.
  - by injection Hd as <-.
Qed.
End Refine.
