(* ===== verification/RocksScan.v ===== *)
(** Range scans of the database-backed store, and the refinement instance.

    The iterator walks the raw byte order of a column family shared by every
    agent; the scan loops stop on the end key, on another agent's key, on an
    error or at the limit.  They are shown to return exactly a window of the
    agent's abstract log, forwards and backwards. *)
From S2P Require Import Prelude Values Permissions CoreTypes Keys Seal Rocks StoreSpec RocksStore RocksRefine.
From stdpp Require Import list sorting.
From Stdlib Require Import Strings.Byte.

Section Scan.
Context {DB : Type} `{RocksDBLaws DB} `{Aead}.
Context `{!Serde RecordEntry, !Serde Transaction, !Serde RuntimeCapabilityInstall,
          !Serde UserToolDefaults}.
Context `{!SerdeOk RecordEntry, !SerdeOk Transaction, !SerdeOk RuntimeCapabilityInstall,
          !SerdeOk UserToolDefaults}.

(** A scan that succeeded did not reach the iterator's error. *)
Lemma scan_loop_error cipher a end_key limit p e rest l acc es :
  p `prefix_of` l ->
  scan_loop cipher a end_key limit ((Ok <$> p) ++ Err e :: rest) acc = Ok es ->
  scan_loop cipher a end_key limit (Ok <$> l) acc = Ok es.
Proof.
  revert l acc. induction p as [|[k b] p IH]; intros l acc Hp Hs; [done|].
  destruct l as [|kb l]; [by apply prefix_nil_not in Hp|].
  pose proof (prefix_cons_inv_1 _ _ _ _ Hp) as <-. apply prefix_cons_inv_2 in Hp.
  cbn in Hs |- *. destruct (lex_le end_key k); [done|].
  destruct (record_decode k) as [rk|]; [|done]. cbn in Hs |- *.
  destruct (bool_decide (rk_agent_id rk = a)); [|done]. cbn in Hs |- *.
  destruct (open_json _ _ _) as [x|]; [|done]. cbn in Hs |- *.
  case_bool_decide; [done|]. by apply IH.
Qed.

Lemma scan_desc_loop_error cipher a start_key limit p e rest l acc es :
  p `prefix_of` l ->
  scan_desc_loop cipher a start_key limit ((Ok <$> p) ++ Err e :: rest) acc = Ok es ->
  scan_desc_loop cipher a start_key limit (Ok <$> l) acc = Ok es.
Proof.
  revert l acc. induction p as [|[k b] p IH]; intros l acc Hp Hs; [done|].
  destruct l as [|kb l]; [by apply prefix_nil_not in Hp|].
  pose proof (prefix_cons_inv_1 _ _ _ _ Hp) as <-. apply prefix_cons_inv_2 in Hp.
  cbn in Hs |- *. destruct (lex_lt k start_key); [done|].
  destruct (record_decode k) as [rk|]; [|done]. cbn in Hs |- *.
  destruct (bool_decide (rk_agent_id rk = a)); [|done]. cbn in Hs |- *.
  destruct (open_json _ _ _) as [x|]; [|done]. cbn in Hs |- *.
  case_bool_decide; [done|]. by apply IH.
Qed.

(** The stored entries of an agent, in the order of a scan. *)
Definition stored (m : content) (a : AgentId) (s : Z) : bytes * bytes :=
  (record_key a s, default [] (m !! (cf_RECORD, record_key a s))).
Fixpoint stored_up (m : content) (a : AgentId) (lo : Z) (n : nat) : list (bytes * bytes) :=
  match n with O => [] | S n => stored m a lo :: stored_up m a (lo + 1) n end.
Fixpoint stored_down (m : content) (a : AgentId) (n : nat) : list (bytes * bytes) :=
  match n with O => [] | S k => stored m a (Z.of_nat n) :: stored_down m a k end.

Lemma elem_of_stored_up m a lo n kv :
  kv ∈ stored_up m a lo n <-> exists s, (lo <= s < lo + Z.of_nat n)%Z /\ kv = stored m a s.
Proof.
  revert lo. induction n as [|n IH]; intros lo; cbn [stored_up].
  - split; [by intros ?%not_elem_of_nil|]. intros (s & ? & _). lia.
  - rewrite elem_of_cons, IH. split.
    + intros [->|(s & ? & ->)]; [exists lo|exists s]; (split; [lia|done]).
    + intros (s & ? & ->). destruct (decide (s = lo)) as [->|]; [by left|].
      right. exists s. split; [lia|done].
Qed.
Lemma elem_of_stored_down m a n kv :
  kv ∈ stored_down m a n <-> exists s, (1 <= s <= Z.of_nat n)%Z /\ kv = stored m a s.
Proof.
  induction n as [|n IH]; cbn [stored_down].
  - split; [by intros ?%not_elem_of_nil|]. intros (s & ? & _). lia.
  - rewrite elem_of_cons, IH. split.
    + intros [->|(s & ? & ->)]; [exists (Z.of_nat (S n))|exists s]; (split; [lia|done]).
    + intros (s & ? & ->). destruct (decide (s = Z.of_nat (S n))) as [->|]; [by left|].
      right. exists s. split; [lia|done].
Qed.

Lemma stored_up_sorted m a lo n :
  is_u64 lo -> is_u64 (lo + Z.of_nat n) -> StronglySorted (iter_order Forward) (stored_up m a lo n).
Proof.
  revert lo. induction n as [|n IH]; intros lo Hlo Hn; cbn [stored_up]; constructor.
  - apply IH; unfold is_u64 in *; lia.
  - apply Forall_forall. intros kv (s & Hs & ->)%elem_of_stored_up.
    unfold iter_order, stored. cbn [fst]. apply record_key_lt; unfold is_u64 in *; lia.
Qed.
Lemma stored_down_sorted m a n :
  is_u64 (Z.of_nat n) -> StronglySorted (iter_order Reverse) (stored_down m a n).
Proof.
  induction n as [|n IH]; intros Hn; cbn [stored_down]; constructor.
  - apply IH. unfold is_u64 in *. lia.
  - apply Forall_forall. intros kv (s & Hs & ->)%elem_of_stored_down.
    unfold iter_order, stored. cbn [fst]. apply record_key_lt; unfold is_u64 in *; lia.
Qed.

Section Agent.
Context (cipher : option SealCipher) (m : content) (a : AgentId) (v : AgentView).
Context (Hkeys : record_keys_ok m) (Hr : agent_repr cipher m a v).

#[local] Abbreviation len := (Z.of_nat (length (av_log v))).

Lemma stored_value s : (1 <= s <= len)%Z ->
  exists e b, av_log v !! Z.to_nat (s - 1) = Some e /\ opens_to cipher b e
    /\ stored m a s = (record_key a s, b) /\ m !! (cf_RECORD, record_key a s) = Some b.
Proof.
  intros Hs. destruct (lookup_lt_is_Some_2 (av_log v) (Z.to_nat (s - 1))) as [e He]; [lia|].
  destruct (ar_entry _ _ _ _ Hr _ _ He) as (b & Hb & Ho).
  replace (Z.of_nat (Z.to_nat (s - 1)) + 1)%Z with s in Hb by lia.
  exists e, b. unfold stored. by rewrite Hb.
Qed.

Lemma record_present s b : is_u64 s -> m !! (cf_RECORD, record_key a s) = Some b ->
  (1 <= s <= len)%Z /\ stored m a s = (record_key a s, b).
Proof.
  intros Hs Hb. split; [|unfold stored; by rewrite Hb].
  destruct (decide (s < 1 \/ len < s)%Z) as [Ho|]; [|lia].
  by rewrite (ar_gap _ _ _ _ Hr s) in Hb.
Qed.

Lemma len_bound : (len < u64_max)%Z.
Proof. pose proof (ar_bound _ _ _ _ Hr) as Hb. unfold log_room in Hb. by rewrite Nat.add_0_r in Hb. Qed.

(** The listing from [from_seq] starts with the agent's entries. *)
Lemma forward_listing from_seq l :
  is_u64 from_seq -> range_list m cf_RECORD (scan_from a from_seq) Forward l ->
  let lo := Z.max from_seq 1 in
  exists l2, l = stored_up m a lo (Z.to_nat (len - lo + 1)) ++ l2
    /\ Forall (fun kv => lex_le (scan_end a) kv.1 = true) l2.
Proof.
  intros Hf [Hsort Hmem] lo.
  destruct (StronglySorted_split (iter_order Forward) (fun kv => lex_lt kv.1 (scan_end a) = true) l)
    as (l1 & l2 & -> & H1' & H2'); [done|intros x y; apply lex_lt_trans|].
  exists l2. split; cycle 1.
  { eapply Forall_impl; [exact H2'|]. intros kv Hn. unfold lex_le.
    by apply negb_true_iff, not_true_iff_false. }
  f_equal. pose proof len_bound as Hlen. rewrite Forall_forall in H1', H2'.
  apply (StronglySorted_strict_unique (iter_order Forward)).
  - by eapply StronglySorted_app_inv_l.
  - destruct (decide (lo <= len)%Z).
    + apply stored_up_sorted; unfold is_u64, u64_max, lo in *; lia.
    + replace (Z.to_nat (len - lo + 1)) with 0 by lia. constructor.
  - intros [k b]. rewrite elem_of_stored_up. split.
    + intros Hin. specialize (H1' _ Hin). cbn in H1'.
      destruct (Hmem k b) as [[Hb Hcov] _]; [apply elem_of_app; by left|].
      destruct (Hkeys _ _ Hb) as (a' & s & -> & Hs).
      assert (a' = a) as -> by exact (record_key_between a a' from_seq s u64_max Hcov H1').
      destruct (record_present s b Hs Hb) as [Hrange Hst].
      apply record_key_le in Hcov; [|done|done]. exists s. split; [unfold lo; lia|done].
    + intros (s & Hs & E). destruct (stored_value s) as (e & b' & _ & _ & Hst & Hb); [unfold lo in *; lia|].
      rewrite Hst in E. injection E as E1 E2. subst k b'.
      assert ((record_key a s, b) ∈ l1 ++ l2) as [?|Hin]%elem_of_app; [|done|].
      { apply Hmem. split; [done|]. apply record_key_le; unfold is_u64, u64_max, lo in *; lia. }
      exfalso. apply (H2' _ Hin). cbn. apply record_key_lt; unfold is_u64, u64_max, lo in *; lia.
Qed.

Lemma scan_loop_stored limit lo n l2 acc :
  (1 <= lo)%Z -> is_u64 lo -> n = Z.to_nat (len - lo + 1) ->
  (Z.of_nat (length acc) < Z.max 1 limit)%Z ->
  Forall (fun kv => lex_le (scan_end a) kv.1 = true) l2 ->
  scan_loop cipher a (scan_end a) limit (Ok <$> (stored_up m a lo n ++ l2)) acc
  = Ok (acc ++ take (Z.to_nat (Z.max 1 limit) - length acc) (drop (Z.to_nat (lo - 1)) (av_log v))).
Proof.
  intros Hlo Hu Hn Hacc Hl2. revert lo acc Hlo Hu Hn Hacc.
  induction n as [|n IH]; intros lo acc Hlo Hu Hn Hacc.
  { rewrite drop_ge, take_nil, app_nil_r by lia. destruct l2 as [|[k b] l2]; [done|].
    apply Forall_cons in Hl2 as [Hk _]. cbn in Hk |- *. by rewrite Hk. }
  cbn [stored_up app]. rewrite fmap_cons. cbn [scan_loop].
  destruct (stored_value lo) as (e & b & He & Ho & -> & _); [lia|]. cbn [map_err mbind result_bind].
  pose proof len_bound as Hlen.
  assert (lex_le (scan_end a) (record_key a lo) = false) as ->.
  { unfold lex_le. apply negb_false_iff. apply record_key_lt; unfold is_u64, u64_max in *; lia. }
  assert ((decode (record_key a lo) : result StoreError RecordKey)
          = Ok {| rk_agent_id := a; rk_seq := lo |}) as -> by (by apply record_decode_encode).
  unfold mbind, result_bind. cbn [rk_agent_id rk_seq]. rewrite bool_decide_eq_true_2 by done. cbn [negb].
  apply (open_json_Ok cipher (seq_err lo)) in Ho. rewrite Ho.
  rewrite (drop_S _ e _ He).
  replace (Z.to_nat (Z.max 1 limit) - length acc)
    with (S (Z.to_nat (Z.max 1 limit) - S (length acc))) by lia. cbn [take].
  rewrite length_app. cbn [length]. case_bool_decide as Hlim.
  - replace (Z.to_nat (Z.max 1 limit) - S (length acc)) with 0 by lia. by rewrite take_0.
  - unfold mbind, result_bind in IH. rewrite IH;
      [|lia|unfold is_u64, u64_max in *; lia|lia|rewrite length_app; cbn [length]; lia].
    rewrite length_app, <-app_assoc. cbn [length app].
    replace (length acc + 1) with (S (length acc)) by lia.
    by replace (Z.to_nat (lo + 1 - 1)) with (S (Z.to_nat (lo - 1))) by lia.
Qed.

(** The reverse listing from [from_seq] starts with the agent's entries. *)
Lemma reverse_listing from_seq l :
  is_u64 from_seq -> range_list m cf_RECORD (scan_from a from_seq) Reverse l ->
  exists l2, l = stored_down m a (Z.to_nat (Z.min from_seq len)) ++ l2
    /\ Forall (fun kv => lex_lt kv.1 (scan_from a 1) = true) l2.
Proof.
  intros Hf [Hsort Hmem]. set (hi := Z.min from_seq len).
  destruct (StronglySorted_split (iter_order Reverse) (fun kv => lex_lt kv.1 (scan_from a 1) = false) l)
    as (l1 & l2 & -> & H1' & H2'); [done| |].
  { intros x y Hxy Hy. apply not_true_iff_false. intros Hx. apply not_true_iff_false in Hy.
    apply Hy. by eapply lex_lt_trans. }
  exists l2. split; cycle 1.
  { eapply Forall_impl; [exact H2'|]. intros kv Hn. by apply not_false_iff_true. }
  f_equal. pose proof len_bound as Hlen. rewrite Forall_forall in H1', H2'.
  apply (StronglySorted_strict_unique (iter_order Reverse)).
  - by eapply StronglySorted_app_inv_l.
  - apply stored_down_sorted. unfold is_u64, u64_max, hi in *. lia.
  - intros [k b]. rewrite elem_of_stored_down. split.
    + intros Hin. specialize (H1' _ Hin). cbn [fst] in H1'.
      destruct (Hmem k b) as [[Hb Hcov] _]; [apply elem_of_app; by left|].
      destruct (Hkeys _ _ Hb) as (a' & s & -> & Hs).
      assert (lex_le (record_key a 1) (record_key a' s) = true) as Hlo
        by (unfold lex_le; by apply negb_true_iff).
      assert (a' = a) as -> by exact (record_key_between_le a a' 1 s from_seq Hlo Hcov).
      destruct (record_present s b Hs Hb) as [Hrange Hst].
      apply record_key_le in Hcov; [|done|done]. exists s. split; [unfold hi; lia|done].
    + intros (s & Hs & E). destruct (stored_value s) as (e & b' & _ & _ & Hst & Hb); [unfold hi in *; lia|].
      rewrite Hst in E. injection E as E1 E2. subst k b'.
      assert ((record_key a s, b) ∈ l1 ++ l2) as [?|Hin]%elem_of_app; [|done|].
      { apply Hmem. split; [done|]. apply record_key_le; unfold is_u64, u64_max, hi in *; lia. }
      exfalso. apply (H2' _ Hin). cbn [fst]. apply not_true_iff_false.
      unfold scan_from. rewrite record_key_lt by (unfold is_u64, u64_max, hi in *; lia). lia.
Qed.

Lemma scan_desc_loop_stored limit n l2 acc :
  n <= length (av_log v) -> (Z.of_nat (length acc) < limit)%Z ->
  Forall (fun kv => lex_lt kv.1 (scan_from a 1) = true) l2 ->
  scan_desc_loop cipher a (scan_from a 1) limit (Ok <$> (stored_down m a n ++ l2)) acc
  = Ok (acc ++ take (Z.to_nat limit - length acc) (rev (take n (av_log v)))).
Proof.
  intros Hn Hacc Hl2. revert acc Hn Hacc. induction n as [|n IH]; intros acc Hn Hacc.
  { rewrite firstn_O. cbn [rev]. rewrite take_nil, app_nil_r. destruct l2 as [|[k b] l2]; [done|].
    apply Forall_cons in Hl2 as [Hk _]. cbn in Hk |- *. by rewrite Hk. }
  pose proof len_bound as Hlen. cbn [stored_down app]. rewrite fmap_cons. cbn [scan_desc_loop].
  destruct (stored_value (Z.of_nat (S n))) as (e & b & He & Ho & -> & _); [lia|].
  cbn [map_err]. unfold mbind, result_bind.
  assert (lex_lt (record_key a (Z.of_nat (S n))) (scan_from a 1) = false) as ->.
  { apply not_true_iff_false. unfold scan_from.
    rewrite record_key_lt by (unfold is_u64, u64_max in *; lia). lia. }
  assert ((decode (record_key a (Z.of_nat (S n))) : result StoreError RecordKey)
          = Ok {| rk_agent_id := a; rk_seq := Z.of_nat (S n) |}) as ->.
  { apply record_decode_encode. cbn [rk_seq]. unfold is_u64, u64_max in *. lia. }
  cbn [rk_agent_id rk_seq]. rewrite bool_decide_eq_true_2 by done. cbn [negb].
  apply (open_json_Ok cipher (seq_err (Z.of_nat (S n)))) in Ho. rewrite Ho.
  replace (Z.to_nat (Z.of_nat (S n) - 1)) with n in He by lia.
  rewrite (take_S_r _ _ e He), rev_app_distr. cbn [rev app].
  replace (Z.to_nat limit - length acc) with (S (Z.to_nat limit - S (length acc))) by lia. cbn [take].
  rewrite length_app. cbn [length]. case_bool_decide as Hlim.
  - replace (Z.to_nat limit - S (length acc)) with 0 by lia. by rewrite take_0.
  - unfold mbind, result_bind in IH. rewrite IH by (rewrite ?length_app; cbn [length]; lia).
    rewrite length_app, <-app_assoc. cbn [length app].
    by replace (length acc + 1) with (S (length acc)) by lia.
Qed.
End Agent.

(** [scan_record], when it succeeds, returns the window of the log; a limit of
    zero behaves as a limit of one. *)
Lemma rs_scan_Ok st a v from_seq limit es :
  rs_abstracts st a v -> is_u64 from_seq -> rs_scan_record st a from_seq limit = Ok es ->
  es = log_window (av_log v) from_seq (Z.max 1 limit).
Proof.
  intros [Hk Hr] Hf. unfold rs_scan_record. intros ([] & _ & Hs)%result_bind_Ok.
  destruct (db_iterator_ok (rs_db st) cf_RECORD (scan_from a from_seq) Forward) as (l & Hl & Hag).
  assert (scan_loop (rs_cipher st) a (scan_end a) limit (Ok <$> l) [] = Ok es) as Hs'.
  { destruct Hag as [E|(p & e & rest & Hp & E)]; rewrite E in Hs; [done|]. by eapply scan_loop_error. }
  clear Hs Hag. destruct (forward_listing _ _ _ _ Hk Hr from_seq l Hf Hl) as (l2 & -> & Hl2).
  rewrite (scan_loop_stored _ _ _ v Hr) in Hs'; [|lia|unfold is_u64 in *; lia|done|cbn; lia|done].
  injection Hs' as <-. unfold log_window. cbn [length app]. rewrite Nat.sub_0_r.
  f_equal. f_equal. lia.
Qed.

Lemma rs_scan_desc_Ok st a v from_seq limit es :
  rs_abstracts st a v -> is_u64 from_seq -> (0 <= limit)%Z ->
  rs_scan_record_descending st a from_seq limit = Ok es ->
  es = log_window_desc (av_log v) from_seq limit.
Proof.
  intros [Hk Hr] Hf Hlim. unfold rs_scan_record_descending, log_window_desc.
  case_bool_decide as E.
  { intros [= <-]. destruct E as [-> | ->]; rewrite ?Z2Nat.inj_0, ?firstn_O; cbn [rev]; by rewrite ?take_nil. }
  intros ([] & _ & Hs)%result_bind_Ok.
  destruct (db_iterator_ok (rs_db st) cf_RECORD (scan_from a from_seq) Reverse) as (l & Hl & Hag).
  assert (scan_desc_loop (rs_cipher st) a (scan_from a 1) limit (Ok <$> l) [] = Ok es) as Hs'.
  { destruct Hag as [E'|(p & e & rest & Hp & E')]; rewrite E' in Hs; [done|].
    by eapply scan_desc_loop_error. }
  clear Hs Hag. destruct (reverse_listing _ _ _ _ Hk Hr from_seq l Hf Hl) as (l2 & -> & Hl2).
  rewrite (scan_desc_loop_stored _ _ _ v Hr) in Hs'; [|lia|cbn; lia|done].
  injection Hs' as <-. cbn [length app]. rewrite Nat.sub_0_r. do 2 f_equal.
  destruct (decide (from_seq <= Z.of_nat (length (av_log v)))%Z).
  - by replace (Z.to_nat (Z.min from_seq (Z.of_nat (length (av_log v))))) with (Z.to_nat from_seq) by lia.
  - rewrite !take_ge by lia. done.
Qed.

(** The store implements the contract. *)
#[export] Instance rocks_store_spec : StoreSpec (RocksStore DB).
Proof.
  refine {| abstracts := rs_abstracts; user_defaults := rs_user_defaults |}.
  - intros s a v n. apply rs_head_seq_spec.
  - intros s a v [_ Hr]. apply (ar_bound _ _ _ _ Hr).
  - intros s a v [_ Hr]. apply (ar_inbox_head _ _ _ _ Hr).
  - intros s a v from_seq limit es Ha Hf Hl Hs. apply (rs_scan_Ok s a v from_seq limit es Ha Hf) in Hs.
    by rewrite Z.max_r in Hs by lia.
  - apply rs_scan_desc_Ok.
  - apply rs_get_entry_spec.
  - apply rs_dequeue_spec.
  - apply rs_caps_spec.
  - apply rs_status_spec.
  - apply rs_pending_spec.
  - apply rs_depth_spec.
  - apply rs_processing_spec.
  - apply rs_get_user_spec.
  - apply rs_enqueue_spec.
  - apply rs_append_direct_spec.
  - apply rs_append_dequeued_spec.
  - apply rs_append_batch_spec.
  - apply rs_set_status_spec.
  - apply rs_try_claim_spec.
  - apply rs_release_spec.
  - apply rs_put_user_spec.
  - apply rs_delete_user_spec.
Defined.
End Scan.
