(* ===== verification/StoreTrace.v ===== *)
(** Sequences of store calls.

    [StoreCall] names the calls that change the store, [run_calls] runs a
    sequence of them in order (whoever issues them), and [abs_calls] is the
    effect of the calls and their results on one agent's abstract view.  Of every
    implementation of the store contract it is shown that it simulates the
    abstract views along any call sequence, that logs only grow, and that the
    processing claim is exclusive; of the database store, from an empty database,
    that its reads and its answers are those of the views. *)
From S2P Require Import Prelude Values Permissions CoreTypes Keys Seal Rocks StoreSpec RocksStore RocksRefine RocksScan.
From stdpp Require Import list.
From Stdlib Require Import Strings.Byte.

Inductive StoreCall :=
| Call_enqueue_tx (tx : Transaction)
| Call_append_direct (a : AgentId) (seq : Z) (e : RecordEntry)
    (caps : option RuntimeCapabilityInstall) (clear : bool)
| Call_append_dequeued (a : AgentId) (seq : Z) (e : RecordEntry) (token : DequeueToken)
    (caps : option RuntimeCapabilityInstall) (clear : bool)
| Call_append_batch (a : AgentId) (base : Z) (es : list RecordEntry)
| Call_set_status (a : AgentId) (s : AgentStatus)
| Call_try_claim (a : AgentId)
| Call_release (a : AgentId)
| Call_put_user (u : string) (d : UserToolDefaults)
| Call_delete_user (u : string).

(** The agent a call is about. *)
Definition call_agent (c : StoreCall) : option AgentId :=
  match c with
  | Call_enqueue_tx tx => Some (tx_agent_id tx)
  | Call_append_direct a _ _ _ _ | Call_append_dequeued a _ _ _ _ _ | Call_append_batch a _ _
  | Call_set_status a _ | Call_try_claim a | Call_release a => Some a
  | Call_put_user _ _ | Call_delete_user _ => None
  end.

(** What a successful call answers: [true] where the method returns unit. *)
Definition answer_unit {ST} (m : stm ST StoreError unit) : stm ST StoreError bool :=
  _ ← m; mret true.

Definition run_call `{Store ST} (c : StoreCall) : stm ST StoreError bool :=
  match c with
  | Call_enqueue_tx tx => answer_unit (st_enqueue_tx tx)
  | Call_append_direct a seq e caps clear =>
      answer_unit (st_append_entry_direct_with_runtime_capabilities a seq e caps clear)
  | Call_append_dequeued a seq e token caps clear =>
      answer_unit (st_append_entry_dequeued_with_runtime_capabilities a seq e token caps clear)
  | Call_append_batch a base es => answer_unit (st_append_entries_batch a base es)
  | Call_set_status a s => answer_unit (st_set_agent_status a s)
  | Call_try_claim a => st_try_claim_agent_processing a
  | Call_release a => answer_unit (st_release_agent_processing a)
  | Call_put_user u d => answer_unit (st_put_user_tool_defaults u d)
  | Call_delete_user u => answer_unit (st_delete_user_tool_defaults u)
  end.

Fixpoint run_calls `{Store ST} (cs : list StoreCall) (s : ST)
  : list (StoreCall * result StoreError bool) * ST :=
  match cs with
  | [] => ([], s)
  | c :: rest =>
      let '(r, s1) := run_call c s in
      let '(trace, s2) := run_calls rest s1 in
      ((c, r) :: trace, s2)
  end.

(** The abstract effect of a call that answered [true]. *)
Definition view_call (c : StoreCall) (v : AgentView) : AgentView :=
  match c with
  | Call_enqueue_tx tx => view_enqueue v tx
  | Call_append_direct _ _ e caps clear => view_append v [e] caps clear
  | Call_append_dequeued _ _ e _ caps clear => view_pop (view_append v [e] caps clear)
  | Call_append_batch _ _ es => view_append v es None false
  | Call_set_status _ s => view_status v s
  | Call_try_claim _ => view_claim v true
  | Call_release _ => view_claim v false
  | Call_put_user _ _ | Call_delete_user _ => v
  end.

Definition abs_call (a : AgentId) (cr : StoreCall * result StoreError bool) (v : AgentView)
  : AgentView :=
  if bool_decide (call_agent cr.1 = Some a /\ cr.2 = Ok true) then view_call cr.1 v else v.
Definition abs_calls (a : AgentId) (trace : list (StoreCall * result StoreError bool))
    (v : AgentView) : AgentView := foldl (fun v cr => abs_call a cr v) v trace.

(** What a call relies on: sequence numbers do not run out, and a dequeued
    append carries the token of the inbox's front. *)
Definition call_fits (a : AgentId) (c : StoreCall) (v : AgentView) : Prop :=
  match c with
  | Call_enqueue_tx tx => tx_agent_id tx = a -> inbox_room v
  | Call_append_direct b _ _ _ _ => b = a -> log_room v 1
  | Call_append_dequeued b _ _ token _ _ =>
      is_u64 (token_inbox_seq token) /\
      (b = a -> log_room v 1 /\ token_inbox_seq token = av_inbox_head v /\ av_inbox v <> [])
  | Call_append_batch b base es =>
      is_u64 base /\ is_u64 (base + Z.of_nat (length es)) /\ (b = a -> log_room v (length es))
  | _ => True
  end.
Fixpoint calls_fit (a : AgentId) (trace : list (StoreCall * result StoreError bool)) (v : AgentView)
  : Prop :=
  match trace with
  | [] => True
  | cr :: rest => call_fits a cr.1 v /\ calls_fit a rest (abs_call a cr v)
  end.


(** Successful appends happen at the position after the log's end. *)
Definition call_position (a : AgentId) (cr : StoreCall * result StoreError bool) (v : AgentView) : Prop :=
  match cr with
  | (Call_append_direct b seq _ _ _, Ok true) | (Call_append_dequeued b seq _ _ _ _, Ok true) =>
      b = a -> seq = (Z.of_nat (length (av_log v)) + 1)%Z
  | (Call_append_batch b base es, Ok true) =>
      b = a -> es <> [] -> base = (Z.of_nat (length (av_log v)) + 1)%Z
  | _ => True
  end.
Fixpoint calls_in_sequence (a : AgentId) (trace : list (StoreCall * result StoreError bool))
    (v : AgentView) : Prop :=
  match trace with
  | [] => True
  | cr :: rest => call_position a cr v /\ calls_in_sequence a rest (abs_call a cr v)
  end.

Lemma answer_unit_inv {ST} (m : stm ST StoreError unit) s r s' :
  answer_unit m s = (r, s') ->
  exists r', m s = (r', s') /\ ((r' = Ok tt /\ r = Ok true) \/ (r' <> Ok tt /\ r <> Ok true)).
Proof.
  unfold answer_unit, mbind, stm_bind. destruct (m s) as [[[]|e] s1]; intros [= <- <-];
    eexists; (split; [done|]); [by left|by right].
Qed.

Section Trace.
Context {ST : Type} `{StoreSpec ST}.

(** One call performs its abstract effect. *)
Lemma run_call_abs c s r s' a v :
  run_call c s = (r, s') -> abstracts s a v -> call_fits a c v ->
  abstracts s' a (abs_call a (c, r) v).
Proof.
  intros Hrun Ha Hfit. unfold abs_call. cbn [fst snd].
  destruct c; cbn [run_call call_agent view_call call_fits] in *;
    try (apply answer_unit_inv in Hrun as (r' & Hrun & Hr)).
  - apply spec_enqueue in Hrun as [_ Hs]. specialize (Hs a v Ha). repeat case_bool_decide; naive_solver.
  - apply spec_append_direct in Hrun as [_ Hs]. specialize (Hs a v Ha).
    repeat case_bool_decide; naive_solver.
  - apply spec_append_dequeued in Hrun as [_ Hs]; [|apply Hfit]. specialize (Hs a v Ha).
    repeat case_bool_decide; naive_solver.
  - apply spec_append_batch in Hrun as [_ Hs]; [|apply Hfit..]. specialize (Hs a v Ha).
    repeat case_bool_decide; naive_solver.
  - apply spec_set_status in Hrun as [_ Hs]. specialize (Hs a v Ha).
    repeat case_bool_decide; naive_solver.
  - apply spec_try_claim in Hrun as (_ & Hs & _). specialize (Hs a v Ha).
    repeat case_bool_decide; naive_solver.
  - apply spec_release in Hrun as [_ Hs]. specialize (Hs a v Ha).
    repeat case_bool_decide; naive_solver.
  - apply spec_put_user in Hrun as [Hs _]. specialize (Hs a v Ha). by case_bool_decide.
  - apply spec_delete_user in Hrun as [Hs _]. specialize (Hs a v Ha). by case_bool_decide.
Qed.

Lemma run_call_position c s r s' a v :
  run_call c s = (r, s') -> abstracts s a v -> call_fits a c v -> call_position a (c, r) v.
Proof.
  intros Hrun Ha Hfit.
  destruct c; cbn [run_call call_fits] in *; destruct r as [[]|]; try done; cbn [call_position];
    apply answer_unit_inv in Hrun as (r' & Hrun & [[-> _]|[_ []]]); try done.
  - apply spec_append_direct in Hrun as [_ Hs]. specialize (Hs a v Ha). intros ->.
    rewrite bool_decide_eq_true_2 in Hs by done. apply Hs.
  - apply spec_append_dequeued in Hrun as [_ Hs]; [|apply Hfit]. specialize (Hs a v Ha). intros ->.
    rewrite bool_decide_eq_true_2 in Hs by done. apply Hs.
  - apply spec_append_batch in Hrun as [_ Hs]; [|apply Hfit..]. specialize (Hs a v Ha). intros ->.
    rewrite bool_decide_eq_true_2 in Hs by done. apply Hs.
Qed.

Lemma run_calls_position cs s trace s' a v :
  run_calls cs s = (trace, s') -> abstracts s a v -> calls_fit a trace v ->
  calls_in_sequence a trace v.
Proof.
  revert s trace v. induction cs as [|c cs IH]; cbn [run_calls]; intros s trace v Hr Ha Hf.
  { by injection Hr as <- <-. }
  destruct (run_call c s) as [r s1] eqn:E1, (run_calls cs s1) as [t s2] eqn:E2.
  injection Hr as <- <-. destruct Hf as [Hf1 Hf2]. split.
  - by eapply run_call_position.
  - apply (IH s1); [done| |done]. by eapply run_call_abs.
Qed.

Lemma run_calls_abs cs s trace s' a v :
  run_calls cs s = (trace, s') -> abstracts s a v -> calls_fit a trace v ->
  abstracts s' a (abs_calls a trace v).
Proof.
  revert s trace v. induction cs as [|c cs IH]; cbn [run_calls]; intros s trace v Hr Ha Hf.
  { by injection Hr as <- <-. }
  destruct (run_call c s) as [r s1] eqn:E1, (run_calls cs s1) as [t s2] eqn:E2.
  injection Hr as <- <-. destruct Hf as [Hf1 Hf2]. cbn [abs_calls foldl].
  apply (IH s1 t); [done| |done]. by eapply run_call_abs.
Qed.

Lemma abs_call_log a cr v : av_log v `prefix_of` av_log (abs_call a cr v).
Proof.
  unfold abs_call. case_bool_decide; [|done]. destruct cr as [[] r]; cbn; try done; by eexists.
Qed.
Lemma abs_calls_log a trace v : av_log v `prefix_of` av_log (abs_calls a trace v).
Proof.
  revert v. induction trace as [|cr trace IH]; intros v; cbn [abs_calls foldl]; [done|].
  etrans; [apply abs_call_log|apply IH].
Qed.

(** A claim is kept by every call that is not a successful release. *)
Definition is_release (a : AgentId) (cr : StoreCall * result StoreError bool) : Prop :=
  cr = (Call_release a, Ok true).

Lemma abs_calls_claimed a trace v :
  av_claimed v = true -> Forall (fun cr => ~ is_release a cr) trace ->
  av_claimed (abs_calls a trace v) = true.
Proof.
  intros Hv Hn. revert v Hv. induction Hn as [|[c r] trace Hc Hn IH]; intros v Hv; [done|].
  cbn [abs_calls foldl]. apply IH. unfold abs_call. cbn [fst snd]. case_bool_decide as E; [|done].
  destruct E as [Hag ->]. unfold is_release in Hc.
  destruct c; cbn in *; try done. injection Hag as ->. by destruct Hc.
Qed.

Lemma try_claim_answer a s b s' v :
  run_call (Call_try_claim a) s = (Ok b, s') -> abstracts s a v -> b = negb (av_claimed v).
Proof. intros (_ & _ & Hb)%spec_try_claim Ha. by apply (Hb v). Qed.

(** The processing claim is exclusive: once a claim of an agent succeeded,
    no later claim of that agent succeeds, whatever calls are made in between,
    until a release of that agent succeeded. *)
Theorem claim_exclusive a s0 s1 cs trace s2 s3 b v :
  abstracts s0 a v ->
  run_call (Call_try_claim a) s0 = (Ok true, s1) ->
  run_calls cs s1 = (trace, s2) -> calls_fit a trace (view_claim v true) ->
  Forall (fun cr => ~ is_release a cr) trace ->
  run_call (Call_try_claim a) s2 = (Ok b, s3) -> b = false.
Proof.
  intros Ha H1' Hr Hf Hn H2'.
  assert (abstracts s1 a (view_claim v true)) as Ha1.
  { pose proof (run_call_abs _ _ _ _ a v H1' Ha I) as Ha'. unfold abs_call in Ha'.
    by rewrite bool_decide_eq_true_2 in Ha'. }
  pose proof (run_calls_abs _ _ _ _ a _ Hr Ha1 Hf) as Ha2.
  rewrite (try_claim_answer _ _ _ _ _ H2' Ha2).
  by rewrite (abs_calls_claimed a trace (view_claim v true) eq_refl Hn).
Qed.
End Trace.

(** * What the reads of the database store say of an agent

    [says r x] is what is known of a read that answered [r] where the view
    holds [x]: with [if_answered], that a read that succeeds answers [x]; with
    [answered], that it succeeds with [x]. *)
Definition answered (A : Type) (r : result StoreError A) (x : A) : Prop := r = Ok x.
Definition if_answered (A : Type) (r : result StoreError A) (x : A) : Prop := forall y, r = Ok y -> y = x.

(** The front of the inbox, as [dequeue_tx] answers it. *)
Definition inbox_front (v : AgentView) : option (DequeueToken * Transaction) :=
  match av_inbox v with
  | [] => None
  | tx :: _ => Some ({| token_inbox_seq := av_inbox_head v |}, tx)
  end.

(** The entry at a sequence number; the first entry has number one. *)
Definition entry_at (v : AgentView) (seq : Z) : option RecordEntry :=
  if bool_decide (1 <= seq)%Z then av_log v !! Z.to_nat (seq - 1) else None.

Record reads_show {DB} `{RocksDB DB} `{Aead}
    `{!Serde RecordEntry, !Serde Transaction, !Serde RuntimeCapabilityInstall}
    (says : forall A, result StoreError A -> A -> Prop) (st : RocksStore DB) (a : AgentId)
    (v : AgentView) : Prop := {
  show_head_seq : says _ (rs_get_head_seq st a) (Z.of_nat (length (av_log v)));
  show_entry seq : is_u64 seq ->
    match entry_at v seq with
    | Some e => says _ (rs_get_record_entry st a seq) e
    | None => forall e, rs_get_record_entry st a seq <> Ok e
    end;
  show_scan from_seq limit : is_u64 from_seq -> (0 <= limit)%Z ->
    says _ (rs_scan_record st a from_seq limit) (log_window (av_log v) from_seq (Z.max 1 limit));
  show_scan_descending from_seq limit : is_u64 from_seq -> (0 <= limit)%Z ->
    says _ (rs_scan_record_descending st a from_seq limit) (log_window_desc (av_log v) from_seq limit);
  show_dequeue : says _ (rs_dequeue_tx st a) (inbox_front v);
  show_depth : says _ (rs_get_inbox_depth st a) (Z.of_nat (length (av_inbox v)));
  show_pending : says _ (rs_has_pending_tx st a) (negb (bool_decide (av_inbox v = [])));
  show_caps : says _ (rs_get_runtime_capabilities st a) (av_caps v);
  show_status : says _ (rs_get_agent_status st a) (av_status v);
  show_processing : says _ (rs_is_agent_processing st a) (av_claimed v);
}.

(** What a call answers on a database that does not fail: appends only at the
    sequence number after the head, a claim only where there is none. *)
Definition call_answer (c : StoreCall) (v : AgentView) : result StoreError bool :=
  let next := (Z.of_nat (length (av_log v)) + 1)%Z in
  match c with
  | Call_append_direct _ seq _ _ _ | Call_append_dequeued _ seq _ _ _ _ =>
      if bool_decide (seq = next) then Ok true else Err (StoreError_SequenceMismatch next seq)
  | Call_append_batch _ base es =>
      if bool_decide (es = [] \/ base = next) then Ok true
      else Err (StoreError_SequenceMismatch next base)
  | Call_try_claim _ => Ok (negb (av_claimed v))
  | _ => Ok true
  end.
Fixpoint calls_answered (a : AgentId) (trace : list (StoreCall * result StoreError bool))
    (v : AgentView) : Prop :=
  match trace with
  | [] => True
  | cr :: rest => (call_agent cr.1 = Some a -> cr.2 = call_answer cr.1 v)
      /\ calls_answered a rest (abs_call a cr v)
  end.

(** The tool defaults of a user after the calls. *)
Definition user_call (u : string) (d : option UserToolDefaults) (cr : StoreCall * result StoreError bool)
  : option UserToolDefaults :=
  match cr with
  | (Call_put_user u' d', Ok true) => if bool_decide (u' = u) then Some d' else d
  | (Call_delete_user u', Ok true) => if bool_decide (u' = u) then None else d
  | _ => d
  end.
Definition user_calls (u : string) (trace : list (StoreCall * result StoreError bool))
  : option UserToolDefaults := foldl (user_call u) None trace.

(** * Progress: on a healthy database every call succeeds

    What the database-backed store does on a database that does not fail.

    The contract of [StoreSpec] says what a call that succeeded did; here every
    call is shown to succeed, or to fail with the error its guard names, when
    the database answers and the values at hand can be serialised and sealed.
    Together they give the total behaviour of the store's operations. *)
Section Progress.
Context {DB : Type} `{RocksDBHealthy DB} `{Aead}.
Context `{!Serde RecordEntry, !Serde Transaction, !Serde RuntimeCapabilityInstall,
          !Serde UserToolDefaults}.
Context `{!SerdeOk RecordEntry, !SerdeOk Transaction, !SerdeOk RuntimeCapabilityInstall,
          !SerdeOk UserToolDefaults}.

(** A value that can be written: it serialises, and sealing it succeeds. *)
Definition sealable {A} `{Serde A} (cipher : option SealCipher) (x : A) : Prop :=
  exists plain, to_vec x = Ok plain /\
    match cipher with
    | Some c => forall nonce, is_Some (aead_encrypt (seal_key c) nonce plain)
    | None => True
    end.

(** ** Successful runs *)
Definition works {A} (op : stm (RocksStore DB) StoreError A) (st : RocksStore DB) : Prop :=
  exists x st', op st = (Ok x, st').

Lemma works_reads {A B} (f : RocksStore DB -> result StoreError A)
    (k : A -> stm (RocksStore DB) StoreError B) x st :
  f st = Ok x -> works (k x) st -> works (reads f ≫= k) st.
Proof. intros Hf (y & st' & Hk). exists y, st'. unfold reads, mbind, stm_bind. by rewrite Hf. Qed.
Lemma works_assoc {A B C} (m : stm (RocksStore DB) StoreError A) f
    (k : B -> stm (RocksStore DB) StoreError C) st :
  works (m ≫= fun x => f x ≫= k) st -> works ((m ≫= f) ≫= k) st.
Proof.
  intros (y & st' & Hk). exists y, st'. revert Hk. unfold mbind, stm_bind.
  by destruct (m st) as [[x|e] st1].
Qed.
Lemma works_ret {A B} (x : A) (k : A -> stm (RocksStore DB) StoreError B) st :
  works (k x) st -> works (mret x ≫= k) st.
Proof. done. Qed.
Lemma works_seal {A B} `{Serde A} (x : A) (k : bytes -> stm (RocksStore DB) StoreError B) st :
  sealable (rs_cipher st) x ->
  (forall b st1, rs_db st1 = rs_db st -> rs_cipher st1 = rs_cipher st -> works (k b) st1) ->
  works (seal_json x ≫= k) st.
Proof.
  intros (plain & Hv & Hc) Hk. unfold works, seal_json, lift, seal_value, mbind, stm_bind.
  rewrite Hv. cbn [map_err]. destruct (rs_cipher st) as [c|] eqn:Ec; [|by apply Hk].
  unfold cipher_seal. destruct (Hc (rs_nonces st 0)) as [out ->]. cbn [map_err]. by apply Hk.
Qed.
Lemma works_write b st : works (rs_write b) st.
Proof.
  unfold works, rs_write. destruct (healthy_write b (rs_db st)) as [db' ->]. eauto.
Qed.

(** ** Reads *)
Lemma rs_cf_healthy st name : rs_cf st name = Ok tt.
Proof. unfold rs_cf. by rewrite healthy_cf. Qed.
Lemma rs_get_healthy st cf k : rs_get st cf k = Ok (rs_view st !! (cf, k)).
Proof. unfold rs_get. by rewrite healthy_get. Qed.

Lemma read_meta_healthy st a f z :
  meta_is (rs_view st) a f z -> read_meta_u64 st (meta_key a f) = Ok z.
Proof.
  intros [Hz Hm]. unfold read_meta_u64. rewrite rs_cf_healthy, rs_get_healthy.
  unfold mbind, result_bind. destruct (rs_view st !! _) as [b|]; [subst b|by rewrite Hm].
  destruct (arr_try_from_length 8 (to_be_bytes z)) as [x Hx]; [apply to_be_bytes_length|].
  rewrite Hx. cbn [ok_or]. by rewrite (arr_try_from_Some _ _ _ Hx), from_to_be_bytes.
Qed.

Lemma head_seq_healthy st a v :
  rs_abstracts st a v -> rs_get_head_seq st a = Ok (Z.of_nat (length (av_log v))).
Proof. intros [_ Hr]. apply read_meta_healthy, (ar_head _ _ _ _ Hr). Qed.

Lemma dequeue_healthy st a v : rs_abstracts st a v -> rs_dequeue_tx st a = Ok (inbox_front v).
Proof.
  intros [_ Hr]. unfold rs_dequeue_tx. rewrite rs_cf_healthy.
  rewrite (read_meta_healthy _ _ _ _ (ar_inbox_head _ _ _ _ Hr)).
  rewrite (read_meta_healthy _ _ _ _ (ar_inbox_tail _ _ _ _ Hr)).
  unfold mbind, result_bind, inbox_front. destruct (av_inbox v) as [|tx rest] eqn:Ei.
  { rewrite bool_decide_eq_true_2; [done|cbn; lia]. }
  rewrite bool_decide_eq_false_2 by (cbn [length]; lia).
  destruct (ar_pending _ _ _ _ Hr 0 tx) as (b & Hb & Ho); [by rewrite Ei|].
  rewrite Z.add_0_r in Hb. rewrite rs_get_healthy, Hb.
  apply (open_json_Ok _ id) in Ho. by rewrite Ho.
Qed.

Lemma get_entry_healthy st a v seq :
  rs_abstracts st a v -> is_u64 seq ->
  rs_get_record_entry st a seq
  = match entry_at v seq with
    | Some e => Ok e
    | None => Err (StoreError_RecordEntryNotFound a seq)
    end.
Proof.
  intros [_ Hr] Hs. unfold rs_get_record_entry. rewrite rs_cf_healthy, rs_get_healthy.
  unfold mbind, result_bind, entry_at.
  destruct (if bool_decide (1 <= seq)%Z then av_log v !! Z.to_nat (seq - 1) else None) as [e|] eqn:E.
  - case_bool_decide; [|done]. destruct (ar_entry _ _ _ _ Hr _ _ E) as (b & Hb & Ho).
    replace (Z.of_nat (Z.to_nat (seq - 1)) + 1)%Z with seq in Hb by lia. rewrite Hb.
    by apply (open_json_Ok _ id).
  - rewrite (ar_gap _ _ _ _ Hr seq Hs); [done|]. case_bool_decide; [|lia].
    apply lookup_ge_None in E. lia.
Qed.

(** ** Appends *)
Definition caps_sealable (cipher : option SealCipher) (caps : option RuntimeCapabilityInstall) : Prop :=
  match caps with Some c => sealable cipher c | None => True end.

Lemma works_ledger {B} batch a caps clear (k : WriteBatch -> stm (RocksStore DB) StoreError B) st :
  caps_sealable (rs_cipher st) caps ->
  (forall b st1, works (k b) st1) ->
  works (apply_runtime_capability_ops_to_batch batch a caps clear ≫= k) st.
Proof.
  intros Hc Hk. unfold apply_runtime_capability_ops_to_batch.
  eapply works_assoc, works_reads; [apply rs_cf_healthy|]. cbn zeta. destruct caps as [c|].
  - apply works_assoc, works_seal; [done|]. intros b st1 _ _. apply works_ret, Hk.
  - apply works_ret, Hk.
Qed.

Lemma works_append_head {B} batch a seq e (k : WriteBatch -> stm (RocksStore DB) StoreError B) st :
  sealable (rs_cipher st) e ->
  (forall b st1, rs_db st1 = rs_db st -> rs_cipher st1 = rs_cipher st -> works (k b) st1) ->
  works (append_record_and_head_to_batch batch a seq e ≫= k) st.
Proof.
  intros He Hk. unfold append_record_and_head_to_batch.
  eapply works_assoc, works_reads; [apply rs_cf_healthy|].
  eapply works_assoc, works_reads; [apply rs_cf_healthy|].
  apply works_assoc, works_seal; [done|]. intros b st1 Hd Hc. apply works_ret. by apply Hk.
Qed.

Lemma assert_next_seq_run st a v seq :
  rs_abstracts st a v ->
  assert_next_seq a seq st
  = (if bool_decide (seq = Z.of_nat (length (av_log v)) + 1)%Z then Ok tt
     else Err (StoreError_SequenceMismatch (Z.of_nat (length (av_log v)) + 1) seq), st).
Proof.
  intros Ha. unfold assert_next_seq, reads, mbind, stm_bind. rewrite (head_seq_healthy _ _ _ Ha).
  rewrite head_succ by apply (ar_bound _ _ _ _ (proj2 Ha)). by case_bool_decide.
Qed.

(** The two outcomes of an append at [seq]. *)
Definition append_outcome (v : AgentView) (seq : Z) : result StoreError unit :=
  if bool_decide (seq = Z.of_nat (length (av_log v)) + 1)%Z then Ok tt
  else Err (StoreError_SequenceMismatch (Z.of_nat (length (av_log v)) + 1) seq).

Lemma append_direct_run st a v seq e caps clear :
  rs_abstracts st a v -> sealable (rs_cipher st) e -> caps_sealable (rs_cipher st) caps ->
  exists st', append_entry_direct_internal a seq e caps clear st = (append_outcome v seq, st').
Proof.
  intros Ha He Hc. unfold append_entry_direct_internal, append_outcome.
  unfold mbind at 1, stm_bind at 1. rewrite (assert_next_seq_run _ _ v) by done.
  case_bool_decide; [|by eexists].
  destruct (works_append_head [] a seq e
    (fun batch => apply_runtime_capability_ops_to_batch batch a caps clear ≫= rs_write) st He)
    as ([] & st' & Hr); [|by eexists].
  intros b st1 _ Hc1. apply works_ledger; [by rewrite Hc1|]. intros b' st2. apply works_write.
Qed.

Lemma append_atomic_run st a v seq e q caps clear :
  rs_abstracts st a v -> sealable (rs_cipher st) e -> caps_sealable (rs_cipher st) caps ->
  exists st', append_entry_atomic_internal a seq e q caps clear st = (append_outcome v seq, st').
Proof.
  intros Ha He Hc. unfold append_entry_atomic_internal, append_outcome.
  unfold reads, mbind, stm_bind at 1 2 3. rewrite !rs_cf_healthy, (assert_next_seq_run _ _ v) by done.
  case_bool_decide; [|by eexists].
  destruct (works_append_head [] a seq e
    (fun batch => apply_runtime_capability_ops_to_batch
      (batch ++ [BatchDelete cf_INBOX (inbox_key a q);
        BatchPut cf_AGENT_META (meta_key a MetaField_InboxHead) (to_be_bytes (u64_add q 1))])
      a caps clear ≫= rs_write) st He)
    as ([] & st' & Hr); [|by eexists].
  intros b st1 _ Hc1. apply works_ledger; [by rewrite Hc1|]. intros b' st2. apply works_write.
Qed.

Lemma works_batch_records {B} a base i es batch (k : WriteBatch -> stm (RocksStore DB) StoreError B) st :
  Forall (sealable (rs_cipher st)) es -> (forall b st1, works (k b) st1) ->
  works (batch_records a base i es batch ≫= k) st.
Proof.
  intros Hes Hk. revert i batch st Hes. induction es as [|e es IH]; intros i batch st Hes.
  { apply works_ret, Hk. }
  apply Forall_cons in Hes as [He Hes]. cbn [batch_records].
  apply works_assoc, works_seal; [done|]. intros b st1 _ Hc. apply IH. by rewrite Hc.
Qed.

Lemma append_batch_run st a v base es :
  rs_abstracts st a v -> Forall (sealable (rs_cipher st)) es ->
  exists st', rs_append_entries_batch a base es st
    = (if bool_decide (es = []) then Ok tt else append_outcome v base, st').
Proof.
  intros Ha Hes. destruct es as [|e es]; [by eexists|]. rewrite bool_decide_eq_false_2 by done.
  unfold rs_append_entries_batch, append_outcome.
  unfold reads, mbind, stm_bind at 1 2 3. rewrite !rs_cf_healthy, (head_seq_healthy _ _ _ Ha).
  rewrite head_succ by apply (ar_bound _ _ _ _ (proj2 Ha)). case_bool_decide; cbn [negb]; [|by eexists].
  destruct (works_batch_records a base 0 (e :: es) []
    (fun batch => rs_write (batch ++ [BatchPut cf_AGENT_META (meta_key a MetaField_HeadSeq)
        (to_be_bytes (u64_wrap (base + Z.of_nat (length (e :: es)) - 1)))])) st Hes)
    as ([] & st' & Hr); [|by eexists].
  intros b st1. apply works_write.
Qed.
(** A record append is total and atomic.  On a database that answers, the
    direct append of a writable entry succeeds exactly at the sequence number
    after the head, extending the log by that entry (and the capability ledger
    by the update given); at any other number it is refused with the expected
    and the actual number and the agent is unchanged.  Either way every other
    agent and every user's defaults are as before. *)
Theorem append_direct_correct st a v seq e caps clear :
  rs_abstracts st a v -> log_room v 1 ->
  sealable (rs_cipher st) e -> caps_sealable (rs_cipher st) caps ->
  exists st',
    rs_append_entry_direct_with_runtime_capabilities a seq e caps clear st
    = (append_outcome v seq, st')
    /\ rs_abstracts st' a (if bool_decide (seq = Z.of_nat (length (av_log v)) + 1)%Z
                           then view_append v [e] caps clear else v)
    /\ (forall b w, b <> a -> rs_abstracts st b w -> rs_abstracts st' b w)
    /\ (forall u d, rs_user_defaults st u d -> rs_user_defaults st' u d).
Proof.
  intros Ha Hroom He Hc. destruct (append_direct_run st a v seq e caps clear Ha He Hc) as [st' Hr].
  exists st'. destruct (rs_append_direct_spec _ _ _ _ _ _ _ _ Hr) as [Hu Hs].
  split_and!; [done| | |done].
  - specialize (Hs a v Ha). revert Hs. unfold append_outcome.
    case_bool_decide; case_bool_decide; naive_solver.
  - intros b w Hb Hw. specialize (Hs b w Hw). by rewrite bool_decide_eq_false_2 in Hs by naive_solver.
Qed.

(** A batch of entries is appended all together or not at all: on a
    database that answers, a non-empty batch of writable entries succeeds
    exactly when its base is the sequence number after the head, and then the
    log is extended by the whole batch in order; otherwise it is refused and
    nothing changes.  An empty batch changes nothing. *)
Theorem append_batch_correct st a v base es :
  rs_abstracts st a v -> log_room v (length es) -> is_u64 base ->
  is_u64 (base + Z.of_nat (length es)) -> Forall (sealable (rs_cipher st)) es ->
  exists st',
    rs_append_entries_batch a base es st
    = (if bool_decide (es = []) then Ok tt else append_outcome v base, st')
    /\ rs_abstracts st' a (if bool_decide (base = Z.of_nat (length (av_log v)) + 1)%Z
                           then view_append v es None false else v)
    /\ (forall b w, b <> a -> rs_abstracts st b w -> rs_abstracts st' b w).
Proof.
  intros Ha Hroom Hb Hn Hes. destruct (append_batch_run st a v base es Ha Hes) as [st' Hr].
  exists st'. destruct (rs_append_batch_spec _ _ _ _ _ _ Hb Hn Hr) as [_ Hs].
  assert (view_append v [] None false = v) as Hnil.
  { destruct v. unfold view_append. cbn. by rewrite app_nil_r. }
  split_and!; [done| |].
  - specialize (Hs a v Ha). revert Hs. unfold append_outcome. destruct es as [|e es].
    + rewrite Hnil. rewrite (bool_decide_eq_true_2 (_ /\ _)) by done. intros [_ Hs].
      destruct (bool_decide (base = _)); by apply Hs.
    + case_bool_decide; [done|]. case_bool_decide; case_bool_decide; naive_solver.
  - intros b w Hb' Hw. specialize (Hs b w Hw). by rewrite bool_decide_eq_false_2 in Hs by naive_solver.
Qed.

Lemma enqueue_run st a v tx :
  rs_abstracts st a v -> tx_agent_id tx = a -> sealable (rs_cipher st) tx ->
  exists st', rs_enqueue_tx tx st = (Ok tt, st').
Proof.
  intros [_ Hr] <- Htx. unfold rs_enqueue_tx.
  assert (works (rs_enqueue_tx tx) st) as ([] & st' & Hw); [|eauto]. unfold rs_enqueue_tx.
  eapply works_reads; [apply rs_cf_healthy|]. eapply works_reads; [apply rs_cf_healthy|].
  cbn zeta. eapply works_reads; [apply (read_meta_healthy _ _ _ _ (ar_inbox_tail _ _ _ _ Hr))|].
  apply works_seal; [done|]. intros b st1 _ _. apply works_write.
Qed.

(** The inbox is a FIFO queue.  Enqueueing a writable transaction adds it at
    the back; [dequeue_tx] answers the front without removing it; and the
    append that carries the dequeue token records its entry and removes exactly
    that transaction, in one step, so the next answer is the following one. *)
Theorem inbox_fifo st a v tx e caps clear front rest :
  rs_abstracts st a v -> tx_agent_id tx = a -> inbox_room v -> log_room v 1 ->
  sealable (rs_cipher st) tx -> sealable (rs_cipher st) e -> caps_sealable (rs_cipher st) caps ->
  av_inbox v ++ [tx] = front :: rest ->
  exists st1 st2 token,
    rs_enqueue_tx tx st = (Ok tt, st1) /\ rs_abstracts st1 a (view_enqueue v tx)
    /\ rs_dequeue_tx st1 a = Ok (Some (token, front))
    /\ rs_append_entry_dequeued_with_runtime_capabilities a
         (Z.of_nat (length (av_log v)) + 1) e token caps clear st1 = (Ok tt, st2)
    /\ rs_abstracts st2 a (view_pop (view_append (view_enqueue v tx) [e] caps clear))
    /\ rs_dequeue_tx st2 a
       = Ok (match rest with
             | [] => None
             | next :: _ => Some ({| token_inbox_seq := av_inbox_head v + 1 |}, next)
             end).
Proof.
  intros Ha Htx Hir Hlr Htxs Hes Hcs Hf.
  destruct (enqueue_run st a v tx Ha Htx Htxs) as [st1 He].
  assert (rs_cipher st1 = rs_cipher st) as Hc1 by (by destruct (enqueue_commits tx st _ _ He)).
  destruct (rs_enqueue_spec _ _ _ _ He) as [_ Hs]. specialize (Hs a v Ha).
  rewrite bool_decide_eq_true_2 in Hs by done. specialize (Hs Hir).
  pose proof (dequeue_healthy _ _ _ Hs) as Hd. unfold inbox_front in Hd. cbn in Hd. rewrite Hf in Hd.
  set (token := {| token_inbox_seq := av_inbox_head v |}) in Hd.
  rewrite <-Hc1 in Hes, Hcs.
  destruct (append_atomic_run st1 a _ (Z.of_nat (length (av_log v)) + 1) e (av_inbox_head v) caps clear
    Hs Hes Hcs) as [st2 Hap].
  unfold append_outcome in Hap. cbn [av_log view_enqueue] in Hap.
  rewrite bool_decide_eq_true_2 in Hap by done.
  destruct (rs_append_dequeued_spec a _ e token caps clear st1 _ _
    (proj1 (ar_inbox_head _ _ _ _ (proj2 Ha))) Hap) as [_ Hs2].
  specialize (Hs2 a _ Hs). rewrite bool_decide_eq_true_2 in Hs2 by done.
  destruct Hs2 as [_ Hs2].
  assert (rs_abstracts st2 a (view_pop (view_append (view_enqueue v tx) [e] caps clear))) as Ha2.
  { apply Hs2; [done|done|]. cbn. by rewrite Hf. }
  exists st1, st2, token. split_and!; [done|done|done|done|done|].
  rewrite (dequeue_healthy _ _ _ Ha2). unfold inbox_front. cbn. rewrite Hf. by destruct rest.
Qed.

Lemma scan_windows_healthy st a v from_seq limit :
  rs_abstracts st a v -> is_u64 from_seq -> (0 <= limit)%Z ->
  rs_scan_record st a from_seq limit = Ok (log_window (av_log v) from_seq (Z.max 1 limit))
  /\ rs_scan_record_descending st a from_seq limit
     = Ok (log_window_desc (av_log v) from_seq limit).
Proof.
  intros Ha Hf Hlim. pose proof Ha as [Hk Hr]. split.
  - assert (exists es, rs_scan_record st a from_seq limit = Ok es) as [es He];
      [|rewrite He; f_equal; by eapply rs_scan_Ok].
    unfold rs_scan_record. rewrite rs_cf_healthy.
    destruct (healthy_iterator (rs_db st) cf_RECORD (scan_from a from_seq) Forward) as (l & Hl & ->).
    destruct (forward_listing _ _ _ _ Hk Hr from_seq l Hf Hl) as (l2 & -> & Hl2).
    unfold mbind, result_bind. eexists.
    apply (scan_loop_stored _ _ _ v Hr); [lia|unfold is_u64 in *; lia|done|cbn; lia|done].
  - assert (exists es, rs_scan_record_descending st a from_seq limit = Ok es) as [es He];
      [|rewrite He; f_equal; by eapply rs_scan_desc_Ok].
    unfold rs_scan_record_descending. rewrite rs_cf_healthy. case_bool_decide as E; [by eexists|].
    destruct (healthy_iterator (rs_db st) cf_RECORD (scan_from a from_seq) Reverse) as (l & Hl & ->).
    destruct (reverse_listing _ _ _ _ Hk Hr from_seq l Hf Hl) as (l2 & -> & Hl2).
    unfold mbind, result_bind. eexists. apply (scan_desc_loop_stored _ _ _ v Hr); [lia|cbn; lia|done].
Qed.
(** Both range scans return exactly a window of the agent's own log, in the
    column family all agents share.  The forward scan answers the entries from
    [from_seq] up, at most [limit] of them but never fewer than one when there
    is one; the backward scan answers at most [limit] entries from [from_seq]
    down. *)
Theorem scan_windows st a v from_seq limit :
  rs_abstracts st a v -> is_u64 from_seq -> (0 <= limit)%Z ->
  rs_scan_record st a from_seq limit = Ok (log_window (av_log v) from_seq (Z.max 1 limit))
  /\ rs_scan_record_descending st a from_seq limit
     = Ok (log_window_desc (av_log v) from_seq limit).
Proof. apply scan_windows_healthy. Qed.

(** ** All reads *)
Lemma pending_healthy st a v :
  rs_abstracts st a v ->
  rs_get_inbox_depth st a = Ok (Z.of_nat (length (av_inbox v)))
  /\ rs_has_pending_tx st a = Ok (negb (bool_decide (av_inbox v = []))).
Proof.
  intros [_ Hr]. unfold rs_get_inbox_depth, rs_has_pending_tx.
  rewrite (read_meta_healthy _ _ _ _ (ar_inbox_head _ _ _ _ Hr)).
  rewrite (read_meta_healthy _ _ _ _ (ar_inbox_tail _ _ _ _ Hr)).
  unfold mbind, result_bind, saturating_sub. split; f_equal; [lia|].
  rewrite <-bool_decide_not. apply bool_decide_ext. destruct (av_inbox v); cbn [length]; [|split; [done|]]; lia || naive_solver lia.
Qed.

Lemma caps_healthy st a v : rs_abstracts st a v -> rs_get_runtime_capabilities st a = Ok (av_caps v).
Proof.
  intros [_ Hr]. unfold rs_get_runtime_capabilities. rewrite rs_cf_healthy, rs_get_healthy.
  unfold mbind, result_bind. pose proof (ar_caps _ _ _ _ Hr) as Hc. revert Hc.
  destruct (rs_view st !! _) as [b|]; [|by intros ->].
  intros (c & -> & Ho). apply (open_json_Ok _ id) in Ho. by rewrite Ho.
Qed.
Lemma status_healthy st a v : rs_abstracts st a v -> rs_get_agent_status st a = Ok (av_status v).
Proof.
  intros [_ Hr]. unfold rs_get_agent_status. rewrite rs_cf_healthy, rs_get_healthy.
  unfold mbind, result_bind. pose proof (ar_status _ _ _ _ Hr) as Hc. revert Hc.
  destruct (rs_view st !! _) as [b|]; [|by intros ->].
  intros ->. by rewrite status_roundtrip.
Qed.
Lemma processing_healthy st a v : rs_abstracts st a v -> rs_is_agent_processing st a = Ok (av_claimed v).
Proof.
  intros [_ Hr]. unfold rs_is_agent_processing. rewrite rs_cf_healthy, rs_get_healthy.
  unfold mbind, result_bind. f_equal. symmetry. apply (ar_claim _ _ _ _ Hr).
Qed.

Lemma reads_answered st a v : rs_abstracts st a v -> reads_show answered st a v.
Proof.
  intros Ha. split; unfold answered.
  - by apply head_seq_healthy.
  - intros seq Hs. rewrite (get_entry_healthy _ _ _ _ Ha Hs). by destruct (entry_at v seq).
  - intros from_seq limit Hf Hl. by apply scan_windows_healthy.
  - intros from_seq limit Hf Hl. by apply scan_windows_healthy.
  - by apply dequeue_healthy.
  - by apply pending_healthy.
  - by apply pending_healthy.
  - by apply caps_healthy.
  - by apply status_healthy.
  - by apply processing_healthy.
Qed.

Lemma user_healthy st u d : rs_user_defaults st u d -> rs_get_user_tool_defaults st u = Ok d.
Proof.
  unfold rs_user_defaults, rs_get_user_tool_defaults. rewrite rs_cf_healthy, rs_get_healthy.
  unfold mbind, result_bind. destruct (rs_view st !! _) as [b|]; [|by intros ->].
  intros (x & -> & Ho). apply (open_json_Ok _ id) in Ho. by rewrite Ho.
Qed.

(** ** All calls

    The values a call writes can be serialised and sealed. *)
Definition call_writable (cipher : option SealCipher) (c : StoreCall) : Prop :=
  match c with
  | Call_enqueue_tx tx => sealable cipher tx
  | Call_append_direct _ _ e caps _ | Call_append_dequeued _ _ e _ caps _ =>
      sealable cipher e /\ caps_sealable cipher caps
  | Call_append_batch _ _ es => Forall (sealable cipher) es
  | _ => True
  end.

Lemma answer_unit_run {ST} (m : stm ST StoreError unit) s r s' :
  m s = (r, s') -> answer_unit m s = ((match r with Ok _ => Ok true | Err e => Err e end), s').
Proof. intros E. unfold answer_unit, mbind, stm_bind. rewrite E. by destruct r. Qed.

Lemma run_call_answer c st a v :
  rs_abstracts st a v -> call_agent c = Some a -> call_writable (rs_cipher st) c ->
  exists st', run_call c st = (call_answer c v, st').
Proof.
  intros Ha Hag Hw. destruct c; cbn in Hag, Hw; try done; injection Hag as <-; cbn [run_call call_answer].
  - destruct (enqueue_run st _ v tx Ha eq_refl Hw) as [st' E]. exists st'.
    by apply (answer_unit_run _ _ _ _ E).
  - destruct (append_direct_run st _ v seq e caps clear Ha (proj1 Hw) (proj2 Hw)) as [st' E].
    exists st'. refine (eq_trans (answer_unit_run _ _ _ _ E) _). unfold append_outcome. by case_bool_decide.
  - destruct (append_atomic_run st _ v seq e (token_inbox_seq token) caps clear Ha (proj1 Hw) (proj2 Hw)) as [st' E].
    exists st'. refine (eq_trans (answer_unit_run _ _ _ _ E) _). unfold append_outcome. by case_bool_decide.
  - destruct (append_batch_run st _ v base es Ha Hw) as [st' E].
    exists st'. refine (eq_trans (answer_unit_run _ _ _ _ E) _). unfold append_outcome.
    repeat case_bool_decide; naive_solver.
  - destruct (works_write [BatchPut cf_AGENT_META (meta_key a0 MetaField_Status) [status_as_byte s]] st)
      as ([] & st' & E). exists st'.
    apply (answer_unit_run _ _ (Ok tt)). cbn. unfold rs_set_agent_status, reads, mbind, stm_bind.
    by rewrite rs_cf_healthy.
  - pose proof (ar_claim _ _ _ _ (proj2 Ha)) as Hc.
    cbn. unfold rs_try_claim_agent_processing, reads, mbind, stm_bind.
    rewrite rs_cf_healthy, rs_get_healthy, Hc.
    destruct (rs_view st !! _) as [b|]; [by eexists|].
    destruct (works_write [BatchPut cf_AGENT_META (processing_claim_key a0) ["001"%byte]] st)
      as ([] & st' & Ew). rewrite Ew. by eexists.
  - destruct (works_write [BatchDelete cf_AGENT_META (processing_claim_key a0)] st)
      as ([] & st' & E). exists st'.
    apply (answer_unit_run _ _ (Ok tt)). cbn. unfold rs_release_agent_processing, reads, mbind, stm_bind.
    by rewrite rs_cf_healthy.
Qed.

(** ** The trait's default backward scan *)
Lemma desc_lookups_run st a v seq n :
  rs_abstracts st a v -> (Z.of_nat n <= seq <= Z.of_nat (length (av_log v)))%Z ->
  desc_lookups st a seq n = Ok (take n (rev (take (Z.to_nat seq) (av_log v)))).
Proof.
  intros Ha. pose proof (ar_bound _ _ _ _ (proj2 Ha)) as Hb. unfold log_room, u64_max in Hb.
  revert seq. induction n as [|n IH]; intros seq Hn; cbn [desc_lookups]; [by rewrite firstn_O|].
  rewrite (get_entry_healthy st a v) by (unfold is_u64; first [done|lia]). unfold entry_at.
  rewrite bool_decide_eq_true_2 by lia.
  destruct (lookup_lt_is_Some_2 (av_log v) (Z.to_nat (seq - 1))) as [e He]; [lia|].
  rewrite He. unfold mbind, result_bind in *. rewrite IH by lia.
  replace (Z.to_nat seq) with (S (Z.to_nat (seq - 1))) by lia.
  by rewrite (take_S_r _ _ e He), rev_app_distr.
Qed.

(** The native backward scan agrees with the trait's default, which walks
    back by point lookups, for every start inside the log.  Past the end of the
    log the default fails on its first lookup, where the native scan answers
    from the last entry down. *)
Theorem scan_descending_default st a v from_seq limit :
  rs_abstracts st a v -> is_u64 from_seq -> (0 <= limit)%Z ->
  ((from_seq <= Z.of_nat (length (av_log v)))%Z ->
   default_scan_record_descending st a from_seq limit
   = rs_scan_record_descending st a from_seq limit)
  /\ ((Z.of_nat (length (av_log v)) < from_seq)%Z -> (0 < limit)%Z ->
      default_scan_record_descending st a from_seq limit
      = Err (StoreError_RecordEntryNotFound a from_seq)
      /\ rs_scan_record_descending st a from_seq limit = Ok (take (Z.to_nat limit) (rev (av_log v)))).
Proof.
  intros Ha Hf Hlim. rewrite (proj2 (scan_windows_healthy st a v from_seq limit Ha Hf Hlim)).
  unfold default_scan_record_descending, log_window_desc, saturating_sub. split.
  - intros Hle. case_bool_decide as E.
    { destruct E as [-> | ->]; rewrite ?Z2Nat.inj_0, ?firstn_O; cbn [rev]; by rewrite ?take_nil. }
    unfold is_u64 in Hf. rewrite (desc_lookups_run st a v) by first [done|lia]. f_equal.
    destruct (decide (limit <= from_seq)%Z); [f_equal; lia|].
    rewrite !(take_ge (rev _)); [done|rewrite length_rev, length_take; lia..].
  - intros Hlt Hl. rewrite bool_decide_eq_false_2 by lia. split.
    + destruct (Z.to_nat _) as [|n] eqn:En; [lia|]. cbn [desc_lookups].
      rewrite (get_entry_healthy st a v) by done. unfold entry_at. rewrite lookup_ge_None_2 by lia.
      by destruct (bool_decide _).
    + by rewrite (take_ge (av_log v)) by lia.
Qed.

(** ** Interleaved enqueues

    [enqueue_tx] holds no lock between reading the tail and writing the batch:
    its read and its write as two steps. *)
Definition enqueue_read (tx : Transaction) : stm (RocksStore DB) StoreError Z :=
  _ ← reads (fun st => rs_cf st cf_INBOX);
  _ ← reads (fun st => rs_cf st cf_AGENT_META);
  reads (fun st => read_meta_u64 st (meta_key (tx_agent_id tx) MetaField_InboxTail)).
Definition enqueue_write (tx : Transaction) (tail : Z) : stm (RocksStore DB) StoreError unit :=
  tx_bytes ← seal_json tx;
  rs_write [BatchPut cf_INBOX (inbox_key (tx_agent_id tx) tail) tx_bytes;
            BatchPut cf_AGENT_META (meta_key (tx_agent_id tx) MetaField_InboxTail)
              (to_be_bytes (u64_add tail 1))].

Lemma enqueue_two_steps tx st : rs_enqueue_tx tx st = (enqueue_read tx ≫= enqueue_write tx) st.
Proof.
  unfold rs_enqueue_tx, enqueue_read, enqueue_write, reads, mbind, stm_bind.
  destruct (rs_cf st cf_INBOX); [|done]. by destruct (rs_cf st cf_AGENT_META).
Qed.
Lemma enqueue_read_run tx st v :
  rs_abstracts st (tx_agent_id tx) v ->
  enqueue_read tx st = (Ok (av_inbox_head v + Z.of_nat (length (av_inbox v)))%Z, st).
Proof.
  intros [_ Hr]. unfold enqueue_read, reads, mbind, stm_bind. rewrite !rs_cf_healthy.
  by rewrite (read_meta_healthy _ _ _ _ (ar_inbox_tail _ _ _ _ Hr)).
Qed.

Lemma enqueue_write_run tx t st :
  sealable (rs_cipher st) tx ->
  exists tb st', enqueue_write tx t st = (Ok tt, st') /\ opens_to (rs_cipher st) tb tx
    /\ rs_cipher st' = rs_cipher st
    /\ rs_view st' = apply_batch (rs_view st)
         [BatchPut cf_INBOX (inbox_key (tx_agent_id tx) t) tb;
          BatchPut cf_AGENT_META (meta_key (tx_agent_id tx) MetaField_InboxTail)
            (to_be_bytes (u64_add t 1))].
Proof.
  intros Htx. assert (works (enqueue_write tx t) st) as ([] & st' & Hw).
  { apply works_seal; [done|]. intros b st1 _ _. apply works_write. }
  assert (commits (enqueue_write tx t) st (fun batch => exists tb, opens_to (rs_cipher st) tb tx
    /\ batch = [BatchPut cf_INBOX (inbox_key (tx_agent_id tx) t) tb;
                BatchPut cf_AGENT_META (meta_key (tx_agent_id tx) MetaField_InboxTail)
                  (to_be_bytes (u64_add t 1))])) as Hc.
  { apply commits_seal. intros tb st1 _ _ Ho. apply commits_write. eauto. }
  destruct (Hc _ _ Hw) as [Hci (b & (tb & Ho & ->) & Hv)]. eauto 7.
Qed.

(** Two concurrent enqueues for one agent can lose a transaction: when the
    second reads the tail before the first has written, both calls succeed and
    the inbox ends with the second transaction only. *)
Theorem enqueue_lost_update st a v tx1 tx2 :
  rs_abstracts st a v -> inbox_room v -> tx_agent_id tx1 = a -> tx_agent_id tx2 = a ->
  sealable (rs_cipher st) tx1 -> sealable (rs_cipher st) tx2 ->
  exists t st1 st2,
    enqueue_read tx1 st = (Ok t, st) /\ enqueue_read tx2 st = (Ok t, st)
    /\ enqueue_write tx1 t st = (Ok tt, st1) /\ enqueue_write tx2 t st1 = (Ok tt, st2)
    /\ rs_abstracts st2 a (view_enqueue v tx2).
Proof.
  intros Ha Hroom Ht1 Ht2 Hs1 Hs2. set (t := (av_inbox_head v + Z.of_nat (length (av_inbox v)))%Z).
  destruct (enqueue_write_run tx1 t st Hs1) as (b1 & st1 & Hw1 & _ & Hc1 & Hv1).
  rewrite <-Hc1 in Hs2. destruct (enqueue_write_run tx2 t st1 Hs2) as (b2 & st2 & Hw2 & Ho2 & Hc2 & Hv2).
  exists t, st1, st2. split_and!; [|  |done|done|].
  1,2: rewrite (enqueue_read_run _ st v) by congruence; done.
  assert (rs_view st2 = apply_batch (rs_view st)
    [BatchPut cf_INBOX (inbox_key a t) b2;
     BatchPut cf_AGENT_META (meta_key a MetaField_InboxTail) (to_be_bytes (t + 1))]) as Hv.
  { rewrite Hv2, Hv1, Ht1, Ht2, u64_add_small by exact Hroom. cbn [apply_batch foldl apply_op].
    apply map_eq. intros k. rewrite !lookup_insert. repeat case_decide; done. }
  destruct Ha as [Hk Hr]. rewrite Hc1 in Ho2, Hc2. split.
  - rewrite Hv. apply (record_keys_ok_batch a); [|done].
    apply Forall_cons; split;
      [by apply (ak_inbox _ _ t); [apply (proj1 (ar_inbox_tail _ _ _ _ Hr))|]|].
    apply Forall_singleton. by apply (ak_meta _ _ MetaField_InboxTail).
  - rewrite Hv, Hc2. by apply enqueue_repr.
Qed.
End Progress.

(** The empty database represents the empty view of every agent. *)
Lemma empty_abstracts {DB} `{RocksDBLaws DB} `{Aead}
    `{!Serde RecordEntry, !Serde Transaction, !Serde RuntimeCapabilityInstall, !Serde UserToolDefaults}
    (st : RocksStore DB) a :
  rs_view st = ∅ -> rs_abstracts st a view_empty.
Proof.
  intros Hv. unfold rs_abstracts. rewrite Hv. split; [intros k b; by rewrite lookup_empty|].
  assert (is_u64 0) as H0' by (unfold is_u64; lia).
  split; unfold meta_is; cbn; rewrite ?lookup_empty; try done.
Qed.

(** * The database store refines the abstract views *)
Section Refinement.
Context {DB : Type} `{RocksDBLaws DB} `{Aead}.
Context `{!Serde RecordEntry, !Serde Transaction, !Serde RuntimeCapabilityInstall,
          !Serde UserToolDefaults}.
Context `{!SerdeOk RecordEntry, !SerdeOk Transaction, !SerdeOk RuntimeCapabilityInstall,
          !SerdeOk UserToolDefaults}.

Lemma reads_if_answered (st : RocksStore DB) a v :
  rs_abstracts st a v -> reads_show if_answered st a v.
Proof.
  intros Ha. split; unfold if_answered.
  - intros n. by apply rs_head_seq_spec.
  - intros seq Hs. unfold entry_at. case_bool_decide.
    + destruct (av_log v !! Z.to_nat (seq - 1)) eqn:E; intros e He;
        destruct (rs_get_entry_spec _ _ _ _ _ Ha Hs He); congruence.
    + intros e He. by destruct (rs_get_entry_spec _ _ _ _ _ Ha Hs He).
  - intros from_seq limit Hf Hl es. by apply rs_scan_Ok.
  - intros from_seq limit Hf Hl es. by apply rs_scan_desc_Ok.
  - intros r Hd. apply (rs_dequeue_spec _ _ _ _ Ha) in Hd. unfold inbox_front.
    destruct r as [[[q] tx]|]; [|by rewrite Hd]. destruct Hd as [<- Hd].
    destruct (av_inbox v); [done|]. by injection Hd as ->.
  - intros n. by apply rs_depth_spec.
  - intros b. by apply rs_pending_spec.
  - intros c. by apply rs_caps_spec.
  - intros x. by apply rs_status_spec.
  - intros b. by apply rs_processing_spec.
Qed.

(** No operation changes the cipher. *)
Definition keeps_cipher {A} (m : stm (RocksStore DB) StoreError A) : Prop :=
  forall st r st', m st = (r, st') -> rs_cipher st' = rs_cipher st.
Lemma cipher_bind {A B} (m : stm (RocksStore DB) StoreError A) (k : A -> stm (RocksStore DB) StoreError B) :
  keeps_cipher m -> (forall x, keeps_cipher (k x)) -> keeps_cipher (m ≫= k).
Proof.
  intros Hm Hk st r st'. unfold mbind, stm_bind. destruct (m st) as [[x|e] st1] eqn:E.
  - intros Hr. rewrite (Hk _ _ _ _ Hr). by eapply Hm.
  - intros [= <- <-]. by eapply Hm.
Qed.
Lemma cipher_reads {A} (f : RocksStore DB -> result StoreError A) : keeps_cipher (reads f).
Proof. intros st r st'. unfold reads. by intros [= _ <-]. Qed.
Lemma cipher_mret {A} (x : A) : keeps_cipher (mret x : stm (RocksStore DB) StoreError A).
Proof. intros st r st'. by intros [= _ <-]. Qed.
Lemma cipher_fails {A} e : keeps_cipher (fails e : stm (RocksStore DB) StoreError A).
Proof. intros st r st'. by intros [= _ <-]. Qed.
Lemma cipher_write b : keeps_cipher (rs_write b : stm (RocksStore DB) StoreError unit).
Proof. intros st r st' (Hc & _)%rs_write_inv. done. Qed.
Lemma cipher_seal {A} `{Serde A} (x : A) : keeps_cipher (seal_json x : stm (RocksStore DB) StoreError bytes).
Proof.
  intros st r st'. unfold seal_json, lift, seal_value, mbind, stm_bind.
  destruct (map_err _ _) as [p|e]; [|by intros [= _ <-]].
  destruct (rs_cipher st) eqn:E; by intros [= _ <-].
Qed.
Lemma cipher_batch_records a base i es batch : keeps_cipher (batch_records (DB := DB) a base i es batch).
Proof.
  revert i batch. induction es as [|e es IH]; intros i batch; cbn [batch_records]; [apply cipher_mret|].
  apply cipher_bind; [apply cipher_seal|]. intros x. apply IH.
Qed.
Ltac keep_cipher :=
  repeat first
    [ apply cipher_seal | apply cipher_bind; [|intros ?] | apply cipher_reads | apply cipher_mret
    | apply cipher_fails | apply cipher_write | apply cipher_batch_records
    | progress cbn zeta
    | match goal with |- keeps_cipher (match ?x with _ => _ end) => destruct x end ].
Lemma run_call_cipher c : keeps_cipher (run_call (ST := RocksStore DB) c).
Proof.
  destruct c; cbn; unfold answer_unit, rs_enqueue_tx, rs_append_entry_direct_with_runtime_capabilities,
    rs_append_entry_dequeued_with_runtime_capabilities, append_entry_atomic_internal,
    append_entry_direct_internal, assert_next_seq, append_record_and_head_to_batch,
    apply_runtime_capability_ops_to_batch, rs_append_entries_batch, rs_set_agent_status,
    rs_try_claim_agent_processing, rs_release_agent_processing, rs_put_user_tool_defaults,
    rs_delete_user_tool_defaults; keep_cipher.
Qed.

Lemma run_calls_answered `{!RocksDBHealthy DB} cs (st : RocksStore DB) trace st' a v :
  run_calls cs st = (trace, st') -> rs_abstracts st a v -> calls_fit a trace v ->
  Forall (call_writable (rs_cipher st)) cs -> calls_answered a trace v.
Proof.
  revert st trace v. induction cs as [|c cs IH]; cbn [run_calls]; intros st trace v Hr Ha Hf Hw.
  { by injection Hr as <- <-. }
  destruct (run_call c st) as [r st1] eqn:E1, (run_calls cs st1) as [t st2] eqn:E2.
  injection Hr as <- <-. destruct Hf as [Hf1 Hf2]. apply Forall_cons in Hw as [Hw1 Hw2]. split; cbn [fst snd].
  - intros Hag. destruct (run_call_answer c st a v Ha Hag Hw1) as [st'' E]. congruence.
  - eapply (IH st1); [done|exact (run_call_abs c st r st1 a v E1 Ha Hf1)|done|].
    by rewrite (run_call_cipher _ _ _ _ E1).
Qed.

Lemma run_call_user c (st : RocksStore DB) r st' a v u d :
  run_call c st = (r, st') -> call_fits a c v -> rs_user_defaults st u d ->
  rs_user_defaults st' u (user_call u d (c, r)).
Proof.
  intros Hrun Hfit Hu. unfold user_call.
  destruct c; cbn [run_call call_fits] in *;
    try (apply answer_unit_inv in Hrun as (r' & Hrun & Hr)).
  - apply spec_enqueue in Hrun as [Hs _]. by apply Hs.
  - apply spec_append_direct in Hrun as [Hs _]. by apply Hs.
  - apply spec_append_dequeued in Hrun as [Hs _]; [|apply Hfit]. by apply Hs.
  - apply spec_append_batch in Hrun as [Hs _]; [|apply Hfit..]. by apply Hs.
  - apply spec_set_status in Hrun as [Hs _]. by apply Hs.
  - apply spec_try_claim in Hrun as (Hs & _). by apply Hs.
  - apply spec_release in Hrun as [Hs _]. by apply Hs.
  - apply spec_put_user in Hrun as [_ Hs]. specialize (Hs u d Hu). cbn in Hs.
    destruct Hr as [[-> ->]|[Hr' Hr]].
    + revert Hs. repeat case_bool_decide; naive_solver.
    + rewrite bool_decide_eq_false_2 in Hs by naive_solver. destruct r as [[]|]; done.
  - apply spec_delete_user in Hrun as [_ Hs]. specialize (Hs u d Hu). cbn in Hs.
    destruct Hr as [[-> ->]|[Hr' Hr]].
    + revert Hs. repeat case_bool_decide; naive_solver.
    + rewrite bool_decide_eq_false_2 in Hs by naive_solver. destruct r as [[]|]; done.
Qed.
Lemma run_calls_user cs (st : RocksStore DB) trace st' a v u d :
  run_calls cs st = (trace, st') -> calls_fit a trace v -> rs_user_defaults st u d ->
  rs_user_defaults st' u (foldl (user_call u) d trace).
Proof.
  revert st trace v d. induction cs as [|c cs IH]; cbn [run_calls]; intros st trace v d Hr Hf Hu.
  { by injection Hr as <- <-. }
  destruct (run_call c st) as [r st1] eqn:E1, (run_calls cs st1) as [t st2] eqn:E2.
  injection Hr as <- <-. destruct Hf as [Hf1 Hf2]. cbn [foldl].
  eapply (IH st1); [done|done|]. by eapply run_call_user.
Qed.

(** C7: From an empty database, whatever calls are made on the database store,
    whoever issues them and whichever fail, its reads show each agent the
    abstract view that the successful calls for that agent make: [abs_calls]
    folds them over the empty view, an append-only log, a FIFO inbox, the
    capability ledger, the status and the processing claim; and each user the
    defaults last put.  Successful appends were all made at the next sequence
    number.  A read that succeeds answers what the view holds; on a database
    that does not fail every read succeeds, and every call that writes
    serialisable values answers exactly what its guard says of the view.
    [calls_fit]: sequence numbers do not run out, and an append that carries
    a dequeue token carries the token of the inbox's front.  A call is one
    step. *)
Theorem store_calls_refine cs (st : RocksStore DB) trace st' a :
  rs_view st = ∅ -> run_calls cs st = (trace, st') -> calls_fit a trace view_empty ->
  let v := abs_calls a trace view_empty in
  calls_in_sequence a trace view_empty
  /\ reads_show if_answered st' a v
  /\ (forall u, if_answered _ (rs_get_user_tool_defaults st' u) (user_calls u trace))
  /\ (RocksDBHealthy DB ->
      reads_show answered st' a v
      /\ (forall u, rs_get_user_tool_defaults st' u = Ok (user_calls u trace))
      /\ (Forall (call_writable (rs_cipher st)) cs -> calls_answered a trace view_empty)).
Proof.
  intros Hv Hr Hf v. assert (rs_abstracts st a view_empty) as H0' by by apply empty_abstracts.
  assert (rs_abstracts st' a v) as Ha by exact (run_calls_abs cs st trace st' a _ Hr H0' Hf).
  assert (forall u, rs_user_defaults st' u (user_calls u trace)) as Hu.
  { intros u. eapply run_calls_user; [done|done|]. unfold rs_user_defaults. by rewrite Hv, lookup_empty. }
  split_and!.
  - exact (run_calls_position cs st trace st' a _ Hr H0' Hf).
  - by apply reads_if_answered.
  - intros u d. by apply rs_get_user_spec.
  - intros Hh. split_and!; [by apply reads_answered|intros u; by apply user_healthy|].
    intros Hw. by eapply run_calls_answered.
Qed.
End Refinement.

(** * Concrete stores *)
Module StoreWitness.
#[local] Existing Instance toy_aead.
Definition agent : AgentId := arr_fill 32 "007"%byte.
Definition tx : Transaction :=
  Transaction_new (arr_fill 32 "001"%byte) agent 0 TransactionType_UserPrompt ["A"%byte].
Definition tx' : Transaction :=
  Transaction_new (arr_fill 32 "002"%byte) agent 0 TransactionType_UserPrompt ["B"%byte].
Definition entry : RecordEntry := build (builder 1 tx).
#[local] Instance entry_serde : Serde RecordEntry := table_serde [entry].
#[local] Instance tx_serde : Serde Transaction := table_serde [tx; tx'].
#[local] Instance caps_serde : Serde RuntimeCapabilityInstall := table_serde [].
#[local] Instance user_serde : Serde UserToolDefaults := table_serde [].
#[local] Instance entry_ok : SerdeOk RecordEntry := table_serde_ok _.
#[local] Instance tx_ok : SerdeOk Transaction := table_serde_ok _.
#[local] Instance caps_ok : SerdeOk RuntimeCapabilityInstall := table_serde_ok _.
#[local] Instance user_ok : SerdeOk UserToolDefaults := table_serde_ok _.

(** A fresh in-memory store that seals its values. *)
Definition store0 : RocksStore MemDB :=
  MkRocksStore {| mem_content := ∅ |} (Some {| seal_key := arr_fill 32 "001"%byte |})
    (fun _ => arr_fill 12 "002"%byte).
Lemma store0_empty : rs_abstracts store0 agent view_empty.
Proof. by apply empty_abstracts. Qed.
Lemma store0_abstracts : abstracts store0 agent view_empty.
Proof. exact store0_empty. Qed.
Lemma entry_sealable : sealable (rs_cipher store0) entry.
Proof. eexists. split; [vm_compute; reflexivity|]. intros n. by eexists. Qed.
Lemma tx_sealable : sealable (rs_cipher store0) tx.
Proof. eexists. split; [vm_compute; reflexivity|]. intros n. by eexists. Qed.
Lemma tx'_sealable : sealable (rs_cipher store0) tx'.
Proof. eexists. split; [vm_compute; reflexivity|]. intros n. by eexists. Qed.
Lemma empty_log_room n : (n < 1000)%nat -> log_room view_empty n.
Proof. unfold log_room, u64_max. cbn [length av_log view_empty]. lia. Qed.
Lemma empty_inbox_room : inbox_room view_empty.
Proof. unfold inbox_room, is_u64. cbn. lia. Qed.

Lemma append_direct_correct_witness :
  exists st', rs_append_entry_direct_with_runtime_capabilities agent 1 entry None false store0
    = (Ok tt, st') /\ rs_abstracts st' agent (view_append view_empty [entry] None false).
Proof.
  destruct (append_direct_correct store0 agent view_empty 1 entry None false store0_empty
    (empty_log_room 1 ltac:(lia)) entry_sealable I) as (st' & Hr & Ha & _). by exists st'.
Defined.

Lemma append_batch_correct_witness :
  exists st', rs_append_entries_batch agent 1 [entry; entry] store0 = (Ok tt, st')
    /\ rs_abstracts st' agent (view_append view_empty [entry; entry] None false).
Proof.
  destruct (append_batch_correct store0 agent view_empty 1 [entry; entry] store0_empty
    (empty_log_room 2 ltac:(lia)) ltac:(unfold is_u64; lia) ltac:(unfold is_u64; cbn; lia))
    as (st' & Hr & Ha & _); [|by exists st'].
  repeat constructor; apply entry_sealable.
Defined.

Lemma inbox_fifo_witness :
  exists st1 st2 token, rs_enqueue_tx tx store0 = (Ok tt, st1)
    /\ rs_dequeue_tx st1 agent = Ok (Some (token, tx))
    /\ rs_append_entry_dequeued_with_runtime_capabilities agent 1 entry token None false st1 = (Ok tt, st2)
    /\ rs_dequeue_tx st2 agent = Ok None.
Proof.
  destruct (inbox_fifo store0 agent view_empty tx entry None false tx [] store0_empty eq_refl
    empty_inbox_room (empty_log_room 1 ltac:(lia)) tx_sealable entry_sealable I eq_refl)
    as (st1 & st2 & token & H1 & _ & H2 & H3 & _ & H4). by exists st1, st2, token.
Defined.

Lemma scan_windows_witness :
  rs_scan_record store0 agent 1 0 = Ok [] /\ rs_scan_record_descending store0 agent 5 3 = Ok [].
Proof.
  split.
  - refine (proj1 (scan_windows store0 agent view_empty 1 0 store0_empty _ _)); [split; done|done].
  - refine (proj2 (scan_windows store0 agent view_empty 5 3 store0_empty _ _)); [split; done|done].
Defined.

Lemma scan_descending_default_witness :
  default_scan_record_descending store0 agent 5 3 = Err (StoreError_RecordEntryNotFound agent 5)
  /\ default_scan_record_descending store0 agent 0 3 = rs_scan_record_descending store0 agent 0 3.
Proof.
  split.
  - refine (proj1 (proj2 (scan_descending_default store0 agent view_empty 5 3 store0_empty _ _) _ _));
      [split; done|done|done|done].
  - refine (proj1 (scan_descending_default store0 agent view_empty 0 3 store0_empty _ _) _);
      [split; done|done|done].
Defined.

Lemma enqueue_lost_update_witness :
  exists t st1 st2, enqueue_read tx store0 = (Ok t, store0) /\ enqueue_read tx' store0 = (Ok t, store0)
    /\ enqueue_write tx t store0 = (Ok tt, st1) /\ enqueue_write tx' t st1 = (Ok tt, st2)
    /\ rs_abstracts st2 agent (view_enqueue view_empty tx').
Proof.
  exact (enqueue_lost_update store0 agent view_empty tx tx' store0_empty empty_inbox_room eq_refl
    eq_refl tx_sealable tx'_sealable).
Defined.

(** Two claims, an append that is out of sequence, one that is in sequence and
    a transaction for the inbox. *)
Definition calls : list StoreCall :=
  [Call_try_claim agent; Call_try_claim agent; Call_append_direct agent 2 entry None false;
   Call_append_direct agent 1 entry None false; Call_enqueue_tx tx].
Definition calls_trace := (run_calls calls store0).1.
Definition calls_store := (run_calls calls store0).2.

Lemma store_calls_refine_witness :
  rs_get_head_seq calls_store agent = Ok 1%Z
  /\ rs_scan_record calls_store agent 1 10 = Ok [entry]
  /\ rs_dequeue_tx calls_store agent = Ok (Some ({| token_inbox_seq := 0 |}, tx))
  /\ snd <$> calls_trace
     = [Ok true; Ok false; Err (StoreError_SequenceMismatch 1 2); Ok true; Ok true].
Proof.
  destruct (store_calls_refine calls store0 calls_trace calls_store agent ltac:(done)
    (surjective_pairing _)) as (_ & _ & _ & Hh); [vm_compute; split_and!; intros; done|].
  destruct (Hh _) as (Hs & _ & Ha). split_and!.
  - exact (show_head_seq _ _ _ _ Hs).
  - refine (show_scan _ _ _ _ Hs 1 10 _ _); [split; done|done].
  - exact (show_dequeue _ _ _ _ Hs).
  - reflexivity.
Defined.

Definition claimed_store := (run_call (Call_try_claim agent) store0).2.
Lemma claim_exclusive_witness :
  exists b s3, run_call (Call_try_claim agent) claimed_store = (Ok b, s3) /\ b = false.
Proof.
  exists false, (run_call (Call_try_claim agent) claimed_store).2. split.
  - apply injective_projections; [vm_compute; reflexivity|reflexivity].
  - eapply (claim_exclusive agent store0 claimed_store [] [] claimed_store _ _ view_empty
      store0_abstracts); [|reflexivity|exact I|constructor|];
      (apply injective_projections; [vm_compute; reflexivity|reflexivity]).
Defined.
End StoreWitness.
