(* ===== verification/ViewStore.v ===== *)
(** A reference implementation of the store interface: the abstract views
    themselves, kept in memory.

    It satisfies the same contract as the database-backed store and always
    answers, so that kernel runs can be evaluated on concrete inputs. *)
From S2P Require Import Prelude Values Permissions CoreTypes Keys StoreSpec.
From stdpp Require Import list.

Record ViewStore := {
  vs_view : AgentId -> AgentView;
  vs_user : string -> option UserToolDefaults;
}.

Definition vs_empty : ViewStore := {| vs_view := fun _ => view_empty; vs_user := fun _ => None |}.

(** Replace one agent's view, or one user's defaults. *)
Definition vs_set (a : AgentId) (v : AgentView) (s : ViewStore) : ViewStore :=
  {| vs_view := fun b => if bool_decide (b = a) then v else vs_view s b; vs_user := vs_user s |}.
Definition vs_set_user (u : string) (d : option UserToolDefaults) (s : ViewStore) : ViewStore :=
  {| vs_view := vs_view s; vs_user := fun u' => if bool_decide (u' = u) then d else vs_user s u' |}.

(** An append checks the sequence number against the head. *)
Definition vs_append (a : AgentId) (seq : Z) (step : AgentView -> AgentView)
  : stm ViewStore StoreError unit := fun s =>
  let v := vs_view s a in
  let next := (Z.of_nat (length (av_log v)) + 1)%Z in
  if bool_decide (seq = next) then (Ok tt, vs_set a (step v) s)
  else (Err (StoreError_SequenceMismatch next seq), s).

Definition vs_append_batch (a : AgentId) (base : Z) (es : list RecordEntry)
  : stm ViewStore StoreError unit :=
  match es with
  | [] => mret tt
  | _ => vs_append a base (fun v => view_append v es None false)
  end.

Definition vs_try_claim (a : AgentId) : stm ViewStore StoreError bool := fun s =>
  let v := vs_view s a in
  if av_claimed v then (Ok false, s) else (Ok true, vs_set a (view_claim v true) s).

#[export] Instance view_store : Store ViewStore := {
  st_enqueue_tx tx := fun s =>
    let a := tx_agent_id tx in (Ok tt, vs_set a (view_enqueue (vs_view s a) tx) s);
  st_dequeue_tx s a :=
    Ok ((fun tx => ({| token_inbox_seq := av_inbox_head (vs_view s a) |}, tx))
          <$> head (av_inbox (vs_view s a)));
  st_get_head_seq s a := Ok (Z.of_nat (length (av_log (vs_view s a))));
  st_scan_record s a from limit := Ok (log_window (av_log (vs_view s a)) from limit);
  st_scan_record_descending s a from limit := Ok (log_window_desc (av_log (vs_view s a)) from limit);
  st_get_record_entry s a seq :=
    if bool_decide (1 <= seq)%Z
    then ok_or (StoreError_RecordEntryNotFound a seq) (av_log (vs_view s a) !! Z.to_nat (seq - 1))
    else Err (StoreError_RecordEntryNotFound a seq);
  st_get_agent_status s a := Ok (av_status (vs_view s a));
  st_get_runtime_capabilities s a := Ok (av_caps (vs_view s a));
  st_set_agent_status a x := fun s => (Ok tt, vs_set a (view_status (vs_view s a) x) s);
  st_has_pending_tx s a := Ok (negb (bool_decide (av_inbox (vs_view s a) = [])));
  st_get_inbox_depth s a := Ok (Z.of_nat (length (av_inbox (vs_view s a))));
  st_get_user_tool_defaults s u := Ok (vs_user s u);
  st_put_user_tool_defaults u d := fun s => (Ok tt, vs_set_user u (Some d) s);
  st_delete_user_tool_defaults u := fun s => (Ok tt, vs_set_user u None s);
  st_try_claim_agent_processing := vs_try_claim;
  st_release_agent_processing a := fun s => (Ok tt, vs_set a (view_claim (vs_view s a) false) s);
  st_is_agent_processing s a := Ok (av_claimed (vs_view s a));
  st_append_entry_dequeued_with_runtime_capabilities a seq e token caps clear :=
    vs_append a seq (fun v => view_pop (view_append v [e] caps clear));
  st_append_entry_direct_with_runtime_capabilities a seq e caps clear :=
    vs_append a seq (fun v => view_append v [e] caps clear);
  st_append_entries_batch := vs_append_batch;
}.

(** A represented view stays within the counters' range. *)
Definition inbox_in_range (v : AgentView) : Prop :=
  (0 <= av_inbox_head v)%Z /\ is_u64 (av_inbox_head v + Z.of_nat (length (av_inbox v))).
Definition vs_abstracts (s : ViewStore) (a : AgentId) (v : AgentView) : Prop :=
  vs_view s a = v /\ log_room v 0 /\ inbox_in_range v.
Definition vs_user_defaults (s : ViewStore) (u : string) (d : option UserToolDefaults) : Prop :=
  vs_user s u = d.

Lemma vs_empty_abstracts a : vs_abstracts vs_empty a view_empty.
Proof. by split_and!. Qed.

(** Replacing one agent's view leaves the others. *)
Lemma vs_set_abstracts s a v' b v :
  vs_abstracts s b v ->
  if bool_decide (b = a) then log_room v' 0 -> inbox_in_range v' -> vs_abstracts (vs_set a v' s) b v'
  else vs_abstracts (vs_set a v' s) b v.
Proof.
  intros (Hv & Hl & Hi). unfold vs_abstracts, vs_set. cbn. by case_bool_decide.
Qed.

(** A step of one agent's view that keeps its log and inbox. *)
Lemma vs_step s a f b v :
  (forall v0, log_room v0 0 -> log_room (f v0) 0) -> (forall v0, inbox_in_range v0 -> inbox_in_range (f v0)) ->
  vs_abstracts s b v ->
  vs_abstracts (vs_set a (f (vs_view s a)) s) b (if bool_decide (b = a) then f v else v).
Proof.
  intros Hf Hi Hv. pose proof (vs_set_abstracts s a (f (vs_view s a)) b v Hv) as Hs.
  destruct Hv as (Hv & Hl & Hh). case_bool_decide; [|done]. subst. auto.
Qed.
Lemma bool_decide_and_true P Q (dP : base.Decision P) (dQ : base.Decision (P /\ Q)) :
  Q -> @bool_decide (P /\ Q) dQ = @bool_decide P dP.
Proof. intros HQ. apply bool_decide_ext. naive_solver. Qed.

Lemma vs_append_run a seq step s r s' b v :
  vs_append a seq step s = (r, s') -> vs_abstracts s b v ->
  if bool_decide (b = a /\ r = Ok tt)
  then seq = (Z.of_nat (length (av_log v)) + 1)%Z
       /\ (log_room (step v) 0 -> inbox_in_range (step v) -> vs_abstracts s' b (step v))
  else vs_abstracts s' b v.
Proof.
  intros Hrun Hv. unfold vs_append in Hrun. case_bool_decide as Eq; injection Hrun as <- <-.
  - pose proof (vs_set_abstracts s a (step (vs_view s a)) b v Hv) as Hs. destruct Hv as (Hv & _ & _).
    case_bool_decide as E1; case_bool_decide as E2; try (exfalso; naive_solver).
    + destruct E2 as [-> _]. subst v. by split.
    + done.
  - by rewrite bool_decide_eq_false_2 by naive_solver.
Qed.

Lemma vs_append_user a seq step s r s' : vs_append a seq step s = (r, s') -> vs_user s' = vs_user s.
Proof. unfold vs_append. by case_bool_decide; intros [= <- <-]. Qed.

Lemma view_append_room v es caps clear : log_room v (length es) -> log_room (view_append v es caps clear) 0.
Proof. unfold log_room, view_append. cbn. rewrite length_app. lia. Qed.

(** Only the state-changing operations and the two partial reads need more
    than unfolding. *)
#[export] Program Instance view_store_spec : StoreSpec ViewStore := {
  abstracts := vs_abstracts;
  user_defaults := vs_user_defaults;
}.
Solve All Obligations with
  (cbn; try solve
    [ by intros ? ? ? ? (<- & _ & _) [= <-]
    | by intros ? ? ? (? & ? & ?)
    | intros ? ? ? (? & ? & ? & ?); unfold is_u64 in *; lia
    | by intros ? ? ? ? ? ? (<- & _ & _) _ _ [= <-]
    | by intros ? ? ? ? <- [= <-]
    | intros; simplify_eq; split; [by intros ? ? (? & ? & ?)|];
      unfold vs_user_defaults; cbn; intros ? ? <-; repeat case_bool_decide; naive_solver ]).
Next Obligation.
  cbn. intros s a v seq e (<- & _ & _) _. case_bool_decide; [|done].
  destruct (av_log _ !! _) eqn:El; [|done]. cbn. by intros [= <-].
Qed.
Next Obligation.
  cbn. intros s a v r (<- & _ & _) [= <-]. by destruct (av_inbox _).
Qed.
Next Obligation.
  cbn. intros tx s r s' [= <- <-]. split; [done|]. intros b v Hv.
  pose proof (vs_set_abstracts s (tx_agent_id tx) (view_enqueue (vs_view s (tx_agent_id tx)) tx) b v Hv) as Hs.
  destruct Hv as (Hv & Hl & Hr).
  case_bool_decide as E1; case_bool_decide as E2; try (exfalso; naive_solver); [|done].
  destruct E2 as [-> _]. subst v. intros Hroom. apply Hs; [done|].
  unfold inbox_in_range, inbox_room, view_enqueue, is_u64 in *. cbn. rewrite length_app. cbn. lia.
Qed.
Next Obligation.
  cbn. intros a seq e caps clear s r s' Hrun. unfold vs_user_defaults. rewrite (vs_append_user _ _ _ _ _ _ Hrun).
  split; [done|]. intros b v Hv. pose proof (vs_append_run _ _ _ _ _ _ b v Hrun Hv) as Hs.
  case_bool_decide; [|done]. destruct Hs as [Hseq Hs]. split; [done|]. intros Hroom.
  apply Hs; [by apply (view_append_room v [e])|by apply Hv].
Qed.
Next Obligation.
  cbn. intros a seq e token caps clear s r s' _ Hrun. unfold vs_user_defaults.
  rewrite (vs_append_user _ _ _ _ _ _ Hrun).
  split; [done|]. intros b v Hv. pose proof (vs_append_run _ _ _ _ _ _ b v Hrun Hv) as Hs.
  case_bool_decide; [|done]. destruct Hs as [Hseq Hs]. split; [done|]. intros Hroom Htok Hne.
  apply Hs; [by apply (view_append_room v [e])|]. destruct Hv as (_ & _ & Hr).
  unfold inbox_in_range, is_u64 in *. cbn. destruct (av_inbox v); [done|]. cbn in *. lia.
Qed.
Next Obligation.
  cbn. intros a base es s r s' _ _ Hrun. unfold vs_append_batch in Hrun. destruct es as [|e es].
  - injection Hrun as <- <-. split; [done|]. intros b v Hv. case_bool_decide; [|done].
    split; [done|]. intros _. unfold view_append. rewrite app_nil_r. by destruct v.
  - unfold vs_user_defaults. rewrite (vs_append_user _ _ _ _ _ _ Hrun).
    split; [done|]. intros b v Hv. pose proof (vs_append_run _ _ _ _ _ _ b v Hrun Hv) as Hs.
    case_bool_decide; [|done]. destruct Hs as [Hseq Hs]. split; [done|]. intros Hroom.
    apply Hs; [by apply (view_append_room v (e :: es))|by apply Hv].
Qed.
Next Obligation.
  cbn. intros a x s r s' [= <- <-]. split; [done|]. intros b v Hv. rewrite (bool_decide_and_true _ _ _ _) by done.
  by apply (vs_step s a (fun v => view_status v x)).
Qed.
Next Obligation.
  cbn. intros a s r s' Hrun. unfold vs_try_claim in Hrun. destruct (av_claimed (vs_view s a)) eqn:Ec;
    injection Hrun as <- <-; (split; [done|]); split.
  - intros b v Hv. by rewrite bool_decide_eq_false_2 by naive_solver.
  - intros v ok (<- & _ & _) [= <-]. by rewrite Ec.
  - intros b v Hv. rewrite (bool_decide_and_true _ _ _ _) by done. by apply (vs_step s a (fun v => view_claim v true)).
  - intros v ok (<- & _ & _) [= <-]. by rewrite Ec.
Qed.
Next Obligation.
  cbn. intros a s r s' [= <- <-]. split; [done|]. intros b v Hv. rewrite (bool_decide_and_true _ _ _ _) by done.
  by apply (vs_step s a (fun v => view_claim v false)).
Qed.
