(* ===== verification/Utf8.v ===== *)
(** Standard-library text functions the kernel calls: lossy UTF-8 decoding
    ([String::from_utf8_lossy]), the blank test behind [str::trim], and
    [str::parse::<i32>].  A Rust string is its UTF-8 bytes. *)
From S2P Require Import Prelude Values.
From stdpp Require Import list.
From Stdlib Require Import Strings.Byte.

(** * Lossy decoding *)
Definition in_range (lo hi : Z) (b : byte) : bool :=
  ((lo <=? byte_to_Z b) && (byte_to_Z b <=? hi))%Z.
Definition is_cont (b : byte) : bool := in_range 128 191 b.

(** The second byte of a three- and of a four-byte sequence, by its lead. *)
Definition second_of_3 (lead b : byte) : bool :=
  if in_range 224 224 lead then in_range 160 191 b
  else if in_range 237 237 lead then in_range 128 159 b
  else is_cont b.
Definition second_of_4 (lead b : byte) : bool :=
  if in_range 240 240 lead then in_range 144 191 b
  else if in_range 244 244 lead then in_range 128 143 b
  else is_cont b.

(** U+FFFD. *)
Definition replacement : bytes := [byte_of_Z 239; byte_of_Z 191; byte_of_Z 189].

(** Every maximal invalid prefix becomes one replacement character. *)
Fixpoint utf8_lossy (l : bytes) : bytes :=
  match l with
  | [] => []
  | b0 :: r =>
      if in_range 0 127 b0 then b0 :: utf8_lossy r
      else if in_range 194 223 b0 then
        match r with
        | b1 :: r1 => if is_cont b1 then b0 :: b1 :: utf8_lossy r1 else replacement ++ utf8_lossy r
        | [] => replacement
        end
      else if in_range 224 239 b0 then
        match r with
        | b1 :: r1 =>
            if second_of_3 b0 b1 then
              match r1 with
              | b2 :: r2 =>
                  if is_cont b2 then b0 :: b1 :: b2 :: utf8_lossy r2
                  else replacement ++ utf8_lossy r1
              | [] => replacement
              end
            else replacement ++ utf8_lossy r
        | [] => replacement
        end
      else if in_range 240 244 b0 then
        match r with
        | b1 :: r1 =>
            if second_of_4 b0 b1 then
              match r1 with
              | b2 :: r2 =>
                  if is_cont b2 then
                    match r2 with
                    | b3 :: r3 =>
                        if is_cont b3 then b0 :: b1 :: b2 :: b3 :: utf8_lossy r3
                        else replacement ++ utf8_lossy r2
                    | [] => replacement
                    end
                  else replacement ++ utf8_lossy r1
              | [] => replacement
              end
            else replacement ++ utf8_lossy r
        | [] => replacement
        end
      else replacement ++ utf8_lossy r
  end.
Definition from_utf8_lossy (b : bytes) : string := String.string_of_list_byte (utf8_lossy b).

(** [str::from_utf8]: bytes are valid when lossy decoding changes nothing. *)
Definition from_utf8 (b : bytes) : option string :=
  if bool_decide (utf8_lossy b = b) then Some (String.string_of_list_byte b) else None.

Example from_utf8_lossy_text : from_utf8_lossy (string_to_bytes "ok") = "ok".
Proof. reflexivity. Qed.
Example from_utf8_lossy_cut :
  utf8_lossy [byte_of_Z 226; byte_of_Z 130; byte_of_Z 65] = replacement ++ [byte_of_Z 65].
Proof. reflexivity. Qed.

Lemma utf8_lossy_ascii l : Forall (fun b => in_range 0 127 b = true) l -> utf8_lossy l = l.
Proof. induction 1 as [|b l Hb Hl IH]; [done|]. cbn [utf8_lossy]. by rewrite Hb, IH. Qed.

(** * Characters

    [s.len()] counts bytes, [s.chars().count()] scalar values: the bytes that
    do not continue a sequence. *)
Definition str_len (s : string) : Z := Z.of_nat (String.length s).
Definition chars_count (s : string) : Z :=
  Z.of_nat (length (List.filter (fun b => negb (is_cont b)) (string_to_bytes s))).

Example chars_count_text : (str_len "ok", chars_count "ok") = (2, 2)%Z.
Proof. reflexivity. Qed.

(** [s.chars()], each scalar value as its bytes; [take] and [rev().take()]
    collected back into a string. *)
Fixpoint utf8_chars (l : bytes) : list bytes :=
  match l with
  | [] => []
  | b :: r =>
      match utf8_chars r, r with
      | g :: gs, c :: _ => if is_cont c then (b :: g) :: gs else [b] :: g :: gs
      | gs, _ => [b] :: gs
      end
  end.
Definition chars (s : string) : list bytes := utf8_chars (string_to_bytes s).
Definition of_chars (l : list bytes) : string := String.string_of_list_byte (concat l).
Definition chars_take (n : nat) (s : string) : string := of_chars (take n (chars s)).
Definition chars_take_back (n : nat) (s : string) : string :=
  of_chars (drop (length (chars s) - n) (chars s)).

Definition is_ascii (s : string) : bool := forallb (in_range 0 127) (string_to_bytes s).

Lemma concat_utf8_chars l : concat (utf8_chars l) = l.
Proof.
  induction l as [|b r IH]; [done|]. cbn [utf8_chars]. revert IH.
  destruct (utf8_chars r) as [|g gs]; [by intros IH; cbn in *; rewrite <- IH|].
  destruct r as [|c r]; [by intros IH; cbn in *; rewrite <- IH|].
  intros IH. destruct (is_cont c); cbn in *; by rewrite <- IH.
Qed.
Lemma utf8_chars_ascii l : forallb (in_range 0 127) l = true -> utf8_chars l = (fun b => [b]) <$> l.
Proof.
  induction l as [|b r IH]; [done|]. cbn [forallb]. intros [_ Hr]%andb_prop.
  cbn [utf8_chars]. rewrite (IH Hr). destruct r as [|c r]; [done|]. cbn [fmap list_fmap].
  cbn [forallb] in Hr. apply andb_prop in Hr as [Hc _].
  replace (is_cont c) with false; [done|]. unfold is_cont, in_range in *.
  symmetry. apply andb_false_iff. left. apply andb_prop in Hc as [_ Hc]. lia.
Qed.

Lemma string_to_bytes_app s t :
  string_to_bytes (String.append s t) = string_to_bytes s ++ string_to_bytes t.
Proof.
  induction s as [|c s IH]; [done|].
  change (Ascii.byte_of_ascii c :: string_to_bytes (String.append s t)
          = (Ascii.byte_of_ascii c :: string_to_bytes s) ++ string_to_bytes t).
  by rewrite IH.
Qed.
Lemma string_to_bytes_length s : length (string_to_bytes s) = String.length s.
Proof.
  induction s as [|c s IH]; [done|].
  change (S (length (string_to_bytes s)) = S (String.length s)). by rewrite IH.
Qed.
Lemma string_to_of_bytes l : string_to_bytes (String.string_of_list_byte l) = l.
Proof. apply String.list_byte_of_string_of_list_byte. Qed.
Lemma string_of_to_bytes s : String.string_of_list_byte (string_to_bytes s) = s.
Proof. apply String.string_of_list_byte_of_string. Qed.
Lemma of_chars_chars s : of_chars (chars s) = s.
Proof. unfold of_chars, chars. by rewrite concat_utf8_chars, string_of_to_bytes. Qed.

Example chars_cut : chars_take 1 "ab" = "a" /\ chars_take_back 1 "ab" = "b".
Proof. done. Qed.

(** * [s.trim().is_empty()]

    The white space characters: U+0009 to U+000D, U+0020, U+0085, U+00A0,
    U+1680, U+2000 to U+200A, U+2028, U+2029, U+202F, U+205F, U+3000. *)
Fixpoint blank_bytes (l : list Z) : bool :=
  match l with
  | [] => true
  | b :: r =>
      if ((9 <=? b) && (b <=? 13) || (b =? 32))%Z then blank_bytes r
      else
        match b, r with
        | 194%Z, c :: r1 => ((c =? 133) || (c =? 160))%Z && blank_bytes r1
        | 225%Z, c :: d :: r2 => ((c =? 154) && (d =? 128))%Z && blank_bytes r2
        | 226%Z, c :: d :: r2 =>
            ((c =? 128) && ((128 <=? d) && (d <=? 138) || (d =? 168) || (d =? 169) || (d =? 175))
             || (c =? 129) && (d =? 159))%Z && blank_bytes r2
        | 227%Z, c :: d :: r2 => ((c =? 128) && (d =? 128))%Z && blank_bytes r2
        | _, _ => false
        end
  end.
Definition trim_is_empty (s : string) : bool := blank_bytes (byte_to_Z <$> string_to_bytes s).

Example trim_is_empty_spaces : (trim_is_empty " 	 ", trim_is_empty " x ") = (true, false).
Proof. reflexivity. Qed.

(** [str::trim]: white space characters are dropped while one is at the front;
    at the back, from the first position after which everything is blank (no
    white space character starts with a continuation byte). *)
Definition ws_len (l : list Z) : nat :=
  match l with
  | b :: c :: d :: _ =>
      if blank_bytes [b] then 1 else if blank_bytes [b; c] then 2
      else if blank_bytes [b; c; d] then 3 else 0
  | [b; c] => if blank_bytes [b] then 1 else if blank_bytes [b; c] then 2 else 0
  | [b] => if blank_bytes [b] then 1 else 0
  | [] => 0
  end.
Fixpoint trim_start_from (fuel : nat) (l : list Z) : list Z :=
  match fuel with
  | O => l
  | S fuel => match ws_len l with O => l | n => trim_start_from fuel (drop n l) end
  end.
Fixpoint trim_end_bytes (l : list Z) : list Z :=
  if blank_bytes l then [] else match l with [] => [] | b :: r => b :: trim_end_bytes r end.
Definition bytes_of_Zs (l : list Z) : bytes := byte_of_Z <$> l.
Definition trim (s : string) : string :=
  let l := byte_to_Z <$> string_to_bytes s in
  String.string_of_list_byte (bytes_of_Zs (trim_end_bytes (trim_start_from (length l) l))).

Definition trim_start (s : string) : string :=
  let l := byte_to_Z <$> string_to_bytes s in
  String.string_of_list_byte (bytes_of_Zs (trim_start_from (length l) l)).

Example trim_cases : (trim "  a b ", trim "", trim "   ", trim "x") = ("a b", "", "", "x").
Proof. reflexivity. Qed.

(** * [s.parse::<i32>().ok()] *)
Fixpoint parse_digits (acc : Z) (l : list Z) : option Z :=
  match l with
  | [] => Some acc
  | d :: r => if ((48 <=? d) && (d <=? 57))%Z then parse_digits (acc * 10 + (d - 48)) r else None
  end.
Definition parse_nonempty (l : list Z) : option Z :=
  match l with [] => None | _ => parse_digits 0 l end.
Definition check_i32 (z : Z) : option Z :=
  if ((- 2 ^ 31 <=? z) && (z <? 2 ^ 31))%Z then Some z else None.
Definition parse_i32 (s : string) : option Z :=
  match byte_to_Z <$> string_to_bytes s with
  | 45%Z :: r => z ← parse_nonempty r; check_i32 (- z)
  | 43%Z :: r => z ← parse_nonempty r; check_i32 z
  | l => z ← parse_nonempty l; check_i32 z
  end.

Example parse_i32_cases :
  (parse_i32 "-12", parse_i32 "+7", parse_i32 "", parse_i32 "-", parse_i32 "2147483648")
  = (Some (-12)%Z, Some 7%Z, None, None, None).
Proof. reflexivity. Qed.
