(* ===== verification/Text.v ===== *)
(** Operations of [str] shared by the components that read and cut text:
    searching, splitting, joining, lines, padding and [Path] components. *)
From S2P Require Import Prelude Values Utf8.
From stdpp Require Import list pretty.
From Stdlib Require Import Ascii Strings.Byte.

(** * Searching *)

Fixpoint str_strip_prefix (p s : string) : option string :=
  match p, s with
  | EmptyString, _ => Some s
  | String a p', String b s' => if bool_decide (a = b) then str_strip_prefix p' s' else None
  | _, _ => None
  end.
Definition starts_with (p s : string) : bool := bool_decide (is_Some (str_strip_prefix p s)).

(** [str::contains] of a string and of a character. *)
Fixpoint contains (p s : string) : bool :=
  starts_with p s || match s with EmptyString => false | String _ t => contains p t end.
Fixpoint contains_char (c : ascii) (s : string) : bool :=
  match s with
  | EmptyString => false
  | String d t => bool_decide (d = c) || contains_char c t
  end.

(** [str::find] of a character class: the byte offset of its first member. *)
Fixpoint find_char (P : ascii -> bool) (s : string) : option nat :=
  match s with
  | EmptyString => None
  | String c t => if P c then Some 0 else S <$> find_char P t
  end.
Fixpoint str_take (n : nat) (s : string) : string :=
  match n, s with S n, String c t => String c (str_take n t) | _, _ => EmptyString end.
Fixpoint str_drop (n : nat) (s : string) : string :=
  match n, s with S n, String _ t => str_drop n t | _, _ => s end.

(** [split_once] on one character. *)
Fixpoint split_once (sep : ascii) (s : string) : option (string * string) :=
  match s with
  | EmptyString => None
  | String c t =>
      if bool_decide (c = sep) then Some (EmptyString, t)
      else '(a, b) ← split_once sep t; Some (String c a, b)
  end.

(** [str::split_once] of a string: what is before and after its first occurrence. *)
Fixpoint str_split_once (p s : string) : option (string * string) :=
  match str_strip_prefix p s with
  | Some rest => Some (EmptyString, rest)
  | None =>
      match s with
      | EmptyString => None
      | String c t => '(a, b) ← str_split_once p t; Some (String c a, b)
      end
  end.

(** What follows the last occurrence of [p]: [rsplit(p).next()], the whole string
    when there is none. *)
Fixpoint find_last (p s : string) : option string :=
  match s with
  | EmptyString => None
  | String _ t => match find_last p t with Some r => Some r | None => str_strip_prefix p s end
  end.
Definition rsplit_first (p s : string) : string := default s (find_last p s).

(** [trim_start_matches] of a pattern, [trim_end_matches] of a character. *)
Fixpoint trim_start_matches_from (fuel : nat) (p s : string) : string :=
  match fuel with
  | O => s
  | S fuel => match str_strip_prefix p s with
              | Some t => trim_start_matches_from fuel p t
              | None => s
              end
  end.
Definition trim_start_matches (p s : string) : string :=
  trim_start_matches_from (String.length s) p s.
Fixpoint trim_end_matches (P : ascii -> bool) (s : string) : string :=
  match s with
  | EmptyString => EmptyString
  | String c t =>
      match trim_end_matches P t with
      | EmptyString => if P c then EmptyString else String c EmptyString
      | t' => String c t'
      end
  end.

(** * Joining and lines *)
Definition str_join (sep : string) (l : list string) : string :=
  match l with [] => EmptyString | s :: r => foldl (fun acc t => acc +++ sep +++ t) s r end.

Definition newline : ascii := "010".
Definition carriage_return : ascii := "013".
Definition nl : string := String newline EmptyString.

(** [str::lines]: a final line end opens no line; a carriage return before the
    line end belongs to it. *)
Fixpoint strip_cr (s : string) : string :=
  match s with
  | EmptyString => EmptyString
  | String c EmptyString => if bool_decide (c = carriage_return) then EmptyString else s
  | String c t => String c (strip_cr t)
  end.
Definition drop_last_empty (l : list string) : list string :=
  match last l with Some EmptyString => take (length l - 1) l | _ => l end.
(** Only a line that is followed by a line end loses its carriage return. *)
Definition lines (s : string) : list string :=
  let parts := split_on newline s in
  let n := length parts - 1 in
  drop_last_empty ((strip_cr <$> take n parts) ++ drop n parts).

(** [format!("{:>6}")]. *)
Fixpoint spaces (n : nat) : string :=
  match n with O => EmptyString | S n => String " " (spaces n) end.
Definition pad_left (width : nat) (s : string) : string := spaces (width - String.length s) +++ s.

(** [s.parse::<usize>().ok()]. *)
Definition parse_usize (s : string) : option Z :=
  z ← match byte_to_Z <$> string_to_bytes s with
      | 43%Z :: r => parse_nonempty r
      | l => parse_nonempty l
      end;
  if (z <=? u64_max)%Z then Some z else None.

(** * Paths

    [Path::components] of a Unix path: a root, or a leading current directory,
    then the parts that are neither empty nor ["."]. *)
Definition path_components (p : string) : list string :=
  let parts := split_on "/" p in
  (if starts_with "/" p then ["/"] else match parts with "." :: _ => ["."] | _ => [] end)
  ++ List.filter (fun c => negb (bool_decide (c = "" \/ c = "."))) parts.
Fixpoint is_prefix_of (p l : list string) : bool :=
  match p, l with
  | [], _ => true
  | a :: p', b :: l' => bool_decide (a = b) && is_prefix_of p' l'
  | _ :: _, [] => false
  end.
(** [Path::starts_with]. *)
Definition path_starts_with (p base : string) : bool :=
  is_prefix_of (path_components base) (path_components p).

(** A [HashSet<PathBuf>] and the keys of a [HashMap<PathBuf, _>]: paths are equal
    when their components are; a set keeps the path it was first given. *)
Definition path_set : Type := gmap (list string) string.
Definition path_set_insert (p : string) (m : path_set) : path_set :=
  match m !! path_components p with Some _ => m | None => <[path_components p := p]> m end.
Definition path_set_remove (p : string) (m : path_set) : path_set := delete (path_components p) m.
Definition path_set_paths (m : path_set) : list string := snd <$> map_to_list m.

Example text_cases :
  (contains "b|" "a b|c", split_once "|" "a|b|c", find_char (fun c => bool_decide (c = "|"%char)) "ab|")
  = (true, Some ("a", "b|c"), Some 2)
  /\ (str_join "," ["a"; ""; "b"], trim_start_matches "./" "././a/", trim_end_matches (fun c => bool_decide (c = "/"%char)) "a//")
     = ("a,,b", "a/", "a")
  /\ lines ("a" +++ nl +++ String carriage_return nl +++ "b" +++ nl) = ["a"; ""; "b"]
  /\ (parse_usize "+12", parse_usize " 1", pad_left 6 "42") = (Some 12%Z, None, "    42")
  /\ path_starts_with "a/./b/c" "a/b" = true /\ path_starts_with "ab" "a" = false.
Proof. repeat split; reflexivity. Qed.

(** * Laws *)
Lemma string_app_assoc (a b c : string) : (a +++ b) +++ c = a +++ (b +++ c).
Proof. induction a as [|x a IH]; [done|]. exact (f_equal (String x) IH). Qed.
Lemma string_app_nil_r (a : string) : a +++ "" = a.
Proof. induction a as [|x a IH]; [done|]. exact (f_equal (String x) IH). Qed.
Lemma string_app_nil_l (a : string) : "" +++ a = a.
Proof. done. Qed.
Lemma string_app_cons c (a b : string) : String c a +++ b = String c (a +++ b).
Proof. done. Qed.

Lemma contains_char_app c a b : contains_char c (a +++ b) = contains_char c a || contains_char c b.
Proof.
  induction a as [|x a IH]; [done|]. rewrite string_app_cons. cbn [contains_char].
  by rewrite IH, orb_assoc.
Qed.

Lemma join_from sep a s r :
  foldl (fun acc t => acc +++ sep +++ t) (a +++ s) r = a +++ foldl (fun acc t => acc +++ sep +++ t) s r.
Proof. revert s. induction r as [|t r IH]; intros s; cbn [foldl]; [done|]. by rewrite string_app_assoc, IH. Qed.
Lemma join_cons sep s r : r <> [] -> str_join sep (s :: r) = s +++ sep +++ str_join sep r.
Proof.
  destruct r as [|t r]; [done|]. intros _. cbn [str_join foldl]. by rewrite !join_from.
Qed.

Lemma split_on_app sep a b :
  contains_char sep a = false ->
  split_on sep (a +++ String sep b) = a :: split_on sep b.
Proof.
  induction a as [|x a IH]; [rewrite string_app_nil_l; cbn; by rewrite bool_decide_eq_true_2|].
  rewrite string_app_cons. cbn. intros [Hx Ha]%orb_false_iff. by rewrite Hx, IH.
Qed.
Lemma split_on_none sep a : contains_char sep a = false -> split_on sep a = [a].
Proof. induction a as [|x a IH]; cbn; [done|]. intros [Hx Ha]%orb_false_iff. by rewrite Hx, IH. Qed.

(** Splitting undoes joining when no piece holds the separator. *)
Lemma split_join sep rows :
  rows <> [] -> Forall (fun r => contains_char sep r = false) rows ->
  split_on sep (str_join (String sep EmptyString) rows) = rows.
Proof.
  induction rows as [|r rows IH]; [done|]. intros _ [Hr Hrs]%Forall_cons.
  destruct rows as [|r' rows]; [by apply split_on_none|].
  rewrite join_cons by done. rewrite (string_app_cons sep ""), string_app_nil_l. rewrite split_on_app by done. by rewrite IH.
Qed.
Lemma split_once_app sep a b :
  contains_char sep a = false -> split_once sep (a +++ String sep b) = Some (a, b).
Proof.
  induction a as [|x a IH]; [rewrite string_app_nil_l; cbn; by rewrite bool_decide_eq_true_2|].
  rewrite string_app_cons. cbn. intros [Hx Ha]%orb_false_iff. by rewrite Hx, IH.
Qed.
Lemma split_on_pieces sep s : Forall (fun r => contains_char sep r = false) (split_on sep s).
Proof.
  induction s as [|c s IH]; cbn; [by repeat constructor|]. case_bool_decide as E.
  - by constructor.
  - destruct (split_on sep s) as [|w ws]; [repeat constructor|].
    + cbn. by rewrite bool_decide_eq_false_2.
    + apply Forall_cons in IH as [Hw Hws]. constructor; [cbn|done]. by rewrite bool_decide_eq_false_2.
Qed.
Lemma strip_cr_char c s : contains_char c s = false -> contains_char c (strip_cr s) = false.
Proof.
  induction s as [|x s IH]; [done|]. cbn [contains_char]. intros [Hx Hs]%orb_false_iff.
  destruct s as [|y s]; cbn [strip_cr].
  - destruct (bool_decide (x = carriage_return)); [done|]. cbn. by rewrite Hx.
  - change (bool_decide (x = c) || contains_char c (strip_cr (String y s)) = false).
    by rewrite Hx, IH.
Qed.
(** No line holds a line end. *)
Lemma lines_no_newline s : Forall (fun r => contains_char newline r = false) (lines s).
Proof.
  unfold lines, drop_last_empty. pose proof (split_on_pieces newline s) as Hp.
  assert (Forall (fun r => contains_char newline r = false)
            ((strip_cr <$> take (length (split_on newline s) - 1) (split_on newline s))
             ++ drop (length (split_on newline s) - 1) (split_on newline s))) as Ha.
  { apply Forall_app. split; [|by apply Forall_drop]. apply Forall_fmap. eapply Forall_impl; [by apply Forall_take|].
    intros r Hr. by apply strip_cr_char. }
  destruct (last _) as [[|? ?]|]; [by apply Forall_take|done..].
Qed.

(** * Numbers printed and read back *)
Definition is_digit (b : Z) : bool := ((48 <=? b) && (b <=? 57))%Z.
Definition text_bytes (s : string) : list Z := byte_to_Z <$> string_to_bytes s.

Lemma text_bytes_cons c s : text_bytes (String c s) = byte_to_Z (byte_of_ascii c) :: text_bytes s.
Proof. done. Qed.
Lemma pretty_char_byte (x : N) :
  (x < 10)%N -> byte_to_Z (byte_of_ascii (pretty_N_char x)) = (48 + Z.of_N x)%Z.
Proof.
  intros Hx. assert (x = 0 \/ x = 1 \/ x = 2 \/ x = 3 \/ x = 4 \/ x = 5 \/ x = 6 \/ x = 7 \/ x = 8 \/ x = 9)%N
    as Hc by lia.
  destruct_or! Hc; subst x; reflexivity.
Qed.
Lemma pretty_go_parse (x : N) (s : string) :
  parse_digits 0 (text_bytes (pretty_N_go x s)) = parse_digits (Z.of_N x) (text_bytes s).
Proof.
  revert s. induction (N.lt_wf_0 x) as [x _ IH]; intros s.
  destruct (decide (0 < x)%N) as [Hx|Hx].
  - rewrite pretty_N_go_step by done. rewrite IH by (apply N.div_lt; lia).
    rewrite text_bytes_cons. cbn [parse_digits].
    rewrite pretty_char_byte by (by apply N.mod_lt).
    pose proof (N.mod_lt x 10 ltac:(done)) as Hm. pose proof (N.div_mod x 10 ltac:(done)) as Hdm.
    generalize dependent (x `mod` 10)%N. intros r Hm Hdm.
    rewrite (proj2 (Z.leb_le 48 _)), (proj2 (Z.leb_le _ 57)) by lia. cbn [andb]. f_equal. lia.
  - assert (x = 0)%N as -> by lia. by rewrite pretty_N_go_0.
Qed.
Lemma pretty_go_digits (x : N) (s : string) :
  forallb is_digit (text_bytes s) = true -> forallb is_digit (text_bytes (pretty_N_go x s)) = true.
Proof.
  revert s. induction (N.lt_wf_0 x) as [x _ IH]; intros s Hs.
  destruct (decide (0 < x)%N) as [Hx|Hx].
  - rewrite pretty_N_go_step by done. apply IH; [apply N.div_lt; lia|].
    rewrite text_bytes_cons. cbn [forallb]. rewrite Hs, andb_true_r.
    rewrite pretty_char_byte by (by apply N.mod_lt). unfold is_digit.
    pose proof (N.mod_lt x 10 ltac:(done)) as Hm. revert Hm. generalize (x `mod` 10)%N. intros r Hm.
    rewrite (proj2 (Z.leb_le 48 _)), (proj2 (Z.leb_le _ 57)); lia.
  - assert (x = 0)%N as -> by lia. by rewrite pretty_N_go_0.
Qed.
Lemma pretty_go_nonempty (x : N) (s : string) : (0 < x)%N \/ s <> "" -> pretty_N_go x s <> "".
Proof.
  revert s. induction (N.lt_wf_0 x) as [x _ IH]; intros s Hs.
  destruct (decide (0 < x)%N) as [Hx|Hx].
  - rewrite pretty_N_go_step by done. apply IH; [apply N.div_lt; lia|]. by right.
  - assert (x = 0)%N as -> by lia. rewrite pretty_N_go_0. destruct Hs; [lia|done].
Qed.
Lemma fmt_digits z :
  (0 <= z)%Z ->
  forallb is_digit (text_bytes (fmt_Z z)) = true /\ parse_nonempty (text_bytes (fmt_Z z)) = Some z
  /\ fmt_Z z <> "".
Proof.
  intros Hz. destruct z as [|p|p]; [done| |lia].
  change (fmt_Z (Z.pos p)) with (pretty_N_go (N.pos p) "").
  pose proof (pretty_go_nonempty (N.pos p) "" (or_introl eq_refl)) as Hne.
  split; [by apply pretty_go_digits|]. split; [|done].
  pose proof (pretty_go_parse (N.pos p) "") as Hp. cbn [text_bytes] in Hp.
  destruct (pretty_N_go (N.pos p) ""); [done|]. exact Hp.
Qed.

Lemma text_bytes_app a b : text_bytes (a +++ b) = text_bytes a ++ text_bytes b.
Proof. unfold text_bytes. by rewrite string_to_bytes_app, fmap_app. Qed.
Lemma text_bytes_spaces n : text_bytes (spaces n) = replicate n 32%Z.
Proof. induction n as [|n IH]; [done|]. cbn [spaces]. rewrite text_bytes_cons, IH. done. Qed.
Lemma digit_not_blank b r : is_digit b = true -> blank_bytes (b :: r) = false.
Proof.
  unfold is_digit. intros [H1 H2]%andb_true_iff. apply Z.leb_le in H1, H2. cbn [blank_bytes].
  assert (b = 48 \/ b = 49 \/ b = 50 \/ b = 51 \/ b = 52 \/ b = 53 \/ b = 54 \/ b = 55 \/ b = 56 \/ b = 57)%Z
    as Hc by lia.
  destruct_or! Hc; subst b; reflexivity.
Qed.
Lemma trim_start_digits fuel l : forallb is_digit l = true -> trim_start_from fuel l = l.
Proof.
  destruct fuel as [|fuel]; [done|]. cbn [trim_start_from]. intros Hd.
  assert (ws_len l = 0) as ->; [|done].
  destruct l as [|b [|c [|d r]]]; [done|..]; cbn [forallb] in Hd; apply andb_true_iff in Hd as [Hb _];
    cbn [ws_len]; by rewrite ?(digit_not_blank b).
Qed.
Lemma trim_start_spaces fuel n l :
  n <= fuel -> forallb is_digit l = true -> trim_start_from fuel (replicate n 32%Z ++ l) = l.
Proof.
  revert fuel. induction n as [|n IH]; intros fuel Hf Hd; [by apply trim_start_digits|].
  destruct fuel as [|fuel]; [lia|]. cbn [trim_start_from replicate app].
  assert (ws_len (32%Z :: replicate n 32%Z ++ l) = 1) as ->.
  { destruct (replicate n 32%Z ++ l) as [|? [|? ?]]; reflexivity. }
  cbn [drop]. apply IH; [lia|done].
Qed.
Lemma trim_end_digits l : forallb is_digit l = true -> trim_end_bytes l = l.
Proof.
  induction l as [|b l IH]; [done|]. cbn [forallb]. intros [Hb Hl]%andb_true_iff.
  change (trim_end_bytes (b :: l)) with (if blank_bytes (b :: l) then [] else b :: trim_end_bytes l).
  by rewrite digit_not_blank, IH.
Qed.
Lemma text_bytes_length s : length (text_bytes s) = String.length s.
Proof. unfold text_bytes. by rewrite length_fmap, string_to_bytes_length. Qed.
Lemma of_text_bytes s : String.string_of_list_byte (bytes_of_Zs (text_bytes s)) = s.
Proof.
  unfold bytes_of_Zs, text_bytes. rewrite <-list_fmap_compose.
  rewrite (list_fmap_ext _ id) by (intros; apply byte_of_to_Z). rewrite list_fmap_id. apply string_of_to_bytes.
Qed.
Lemma trim_padded w z : (0 <= z)%Z -> trim (pad_left w (fmt_Z z)) = fmt_Z z.
Proof.
  intros Hz. destruct (fmt_digits z Hz) as (Hd & _ & _). unfold trim, pad_left.
  change (byte_to_Z <$> string_to_bytes ?s) with (text_bytes s). rewrite text_bytes_app, text_bytes_spaces.
  rewrite trim_start_spaces by (try done; rewrite length_app, length_replicate; lia).
  rewrite trim_end_digits by done. apply of_text_bytes.
Qed.
(** A number printed with padding is read back after trimming. *)
Lemma parse_padded w z : (0 <= z <= u64_max)%Z -> parse_usize (trim (pad_left w (fmt_Z z))) = Some z.
Proof.
  intros Hz. rewrite trim_padded by lia. destruct (fmt_digits z ltac:(lia)) as (Hd & Hp & _).
  unfold parse_usize. change (byte_to_Z <$> string_to_bytes ?s) with (text_bytes s).
  assert (match text_bytes (fmt_Z z) with 43%Z :: r => parse_nonempty r | l => parse_nonempty l end = Some z) as ->.
  { destruct (text_bytes (fmt_Z z)) as [|b r]; [done|]. cbn [forallb] in Hd. apply andb_true_iff in Hd as [Hb _].
    unfold is_digit in Hb. repeat case_match; try done; cbn in Hb; discriminate. }
  cbn. by rewrite (proj2 (Z.leb_le z u64_max)) by lia.
Qed.
Lemma digits_no_char c s :
  is_digit (byte_to_Z (byte_of_ascii c)) = false -> forallb is_digit (text_bytes s) = true ->
  contains_char c s = false.
Proof.
  intros Hc. induction s as [|x s IH]; [done|]. rewrite text_bytes_cons. cbn [forallb contains_char].
  intros [Hx Hs]%andb_true_iff. rewrite IH by done. case_bool_decide as E; [|done]. subst x. congruence.
Qed.
Lemma spaces_no_char c n : c <> " "%char -> contains_char c (spaces n) = false.
Proof. intros Hc. induction n as [|n IH]; [done|]. cbn. rewrite IH, bool_decide_eq_false_2; [done|congruence]. Qed.
Lemma padded_no_char c w z :
  (0 <= z)%Z -> c <> " "%char -> is_digit (byte_to_Z (byte_of_ascii c)) = false ->
  contains_char c (pad_left w (fmt_Z z)) = false.
Proof.
  intros Hz Hs Hd. unfold pad_left. rewrite contains_char_app, spaces_no_char by done.
  apply digits_no_char; [done|]. by destruct (fmt_digits z Hz).
Qed.

(** * Occurrences of a piece in a text

    First occurrences of one string in another: what [str_strip_prefix] and
    [str_split_once] find, and that nothing lies before it; pieces between separators. *)
Lemma str_take_length n s : String.length (str_take n s) <= n.
Proof. revert s. induction n as [|n IH]; intros s; [by destruct s|]. destruct s as [|c s]; cbn; [lia|]. specialize (IH s). lia. Qed.
Lemma str_drop_length n s : String.length (str_drop n s) = String.length s - n.
Proof. revert s. induction n as [|n IH]; intros [|c s]; cbn; try lia. apply IH. Qed.
Lemma string_app_length (a b : string) : String.length (a +++ b) = String.length a + String.length b.
Proof. induction a as [|c a IH]; [done|]. rewrite string_app_cons. cbn. by rewrite IH. Qed.
Lemma strip_prefix_app p s t r : str_strip_prefix p s = Some r -> str_strip_prefix p (s +++ t) = Some (r +++ t).
Proof.
  revert s. induction p as [|c p IH]; intros s; cbn; [by intros [= ->]|].
  destruct s as [|d s]; [done|]. rewrite string_app_cons. case_bool_decide; [apply IH|done].
Qed.
Lemma strip_prefix_length p s r : str_strip_prefix p s = Some r -> String.length s = String.length p + String.length r.
Proof.
  revert s. induction p as [|c p IH]; intros s; cbn; [by intros [= ->]|].
  destruct s as [|d s]; [done|]. case_bool_decide; [|done]. intros Hr. cbn. by rewrite (IH _ Hr).
Qed.
Lemma strip_prefix_none_app p s t :
  str_strip_prefix p s = None -> String.length p <= String.length s -> str_strip_prefix p (s +++ t) = None.
Proof.
  revert s. induction p as [|c p IH]; intros s; [done|]. destruct s as [|d s]; [cbn; lia|]. rewrite string_app_cons.
  cbn. case_bool_decide; [|done]. intros Hn Hl. apply IH; [done|lia].
Qed.
Lemma split_once_length p s a b :
  str_split_once p s = Some (a, b) -> String.length s = String.length a + String.length p + String.length b.
Proof.
  revert a. induction s as [|c s IH]; intros a; cbn [str_split_once].
  - destruct (str_strip_prefix p "") as [r|] eqn:E; [|done]. intros [= <- <-].
    apply strip_prefix_length in E. cbn in *. lia.
  - destruct (str_strip_prefix p (String c s)) as [r|] eqn:E.
    + intros [= <- <-]. apply strip_prefix_length in E. cbn in *. lia.
    + destruct (str_split_once p s) as [[a' b']|] eqn:Es; [|done]. intros [= <- <-]. cbn.
      rewrite (IH _ eq_refl). lia.
Qed.
Lemma strip_prefix_eq p s r : str_strip_prefix p s = Some r -> s = p +++ r.
Proof.
  revert s. induction p as [|c p IH]; intros s; cbn; [by intros [= ->]|]. destruct s as [|d s]; [done|].
  case_bool_decide as Hc; [|done]. intros Hr. rewrite string_app_cons. f_equal; [done|by apply IH].
Qed.
Lemma split_once_eq p s a b : str_split_once p s = Some (a, b) -> s = a +++ p +++ b.
Proof.
  revert a. induction s as [|c s IH]; intros a; cbn [str_split_once].
  - destruct (str_strip_prefix p "") as [r|] eqn:E; [|done]. intros [= <- <-]. by apply strip_prefix_eq in E.
  - destruct (str_strip_prefix p (String c s)) as [r|] eqn:E.
    + intros [= <- <-]. by apply strip_prefix_eq in E.
    + destruct (str_split_once p s) as [[a' b']|] eqn:Es; [|done]. intros [= <- <-].
      rewrite string_app_cons. f_equal. by apply IH.
Qed.
(** More text behind it does not move a first occurrence. *)
Lemma split_once_more p s t a b :
  str_split_once p s = Some (a, b) -> str_split_once p (s +++ t) = Some (a, b +++ t).
Proof.
  intros Hs. pose proof (split_once_length _ _ _ _ Hs) as Hl. revert a Hs Hl.
  induction s as [|c s IH]; intros a; cbn [str_split_once].
  - destruct (str_strip_prefix p "") as [r|] eqn:E; [|done]. intros [= <- <-] _. rewrite string_app_nil_l.
    apply (strip_prefix_app _ _ t) in E. rewrite string_app_nil_l in E.
    destruct t; cbn [str_split_once]; by rewrite E.
  - rewrite string_app_cons. destruct (str_strip_prefix p (String c s)) as [r|] eqn:E.
    + intros [= <- <-] _. apply (strip_prefix_app _ _ t) in E. rewrite string_app_cons in E.
      cbn [str_split_once]. by rewrite E.
    + destruct (str_split_once p s) as [[a' b']|] eqn:Es; [|done]. intros [= <- <-] Hl. cbn [str_split_once].
      apply (strip_prefix_none_app _ _ t) in E; [|lia]. rewrite string_app_cons in E. rewrite E.
      rewrite (IH a' eq_refl); [done|]. cbn in Hl. lia.
Qed.

Lemma strip_prefix_self p r : str_strip_prefix p (p +++ r) = Some r.
Proof. induction p as [|c p IH]; [done|]. rewrite string_app_cons. cbn. by rewrite bool_decide_eq_true_2. Qed.
(** The first occurrence is the leftmost one. *)
Lemma split_once_leftmost p s a b x y :
  str_split_once p s = Some (a, b) -> s = x +++ p +++ y -> String.length a <= String.length x.
Proof.
  intros Hs ->. revert a Hs. induction x as [|c x IH]; intros a.
  - rewrite string_app_nil_l. destruct (p +++ y) eqn:E; cbn [str_split_once]; rewrite <- E, strip_prefix_self.
    all: intros [= <- <-]; cbn; lia.
  - rewrite string_app_cons. cbn [str_split_once]. destruct (str_strip_prefix p _); [intros [= <- <-]; cbn; lia|].
    destruct (str_split_once p (x +++ p +++ y)) as [[a' b']|]; [|done]. intros [= <- <-]. cbn.
    specialize (IH a' eq_refl). lia.
Qed.
Lemma split_once_contains p s : contains p s = bool_decide (is_Some (str_split_once p s)).
Proof.
  induction s as [|c s IH]; cbn [contains str_split_once]; unfold starts_with.
  - destruct (str_strip_prefix p "") eqn:E; [by rewrite !bool_decide_eq_true_2 by eauto|].
    rewrite !bool_decide_eq_false_2 by (by intros [? ?]). done.
  - destruct (str_strip_prefix p (String c s)) eqn:E; [by rewrite !bool_decide_eq_true_2 by eauto|].
    rewrite (bool_decide_eq_false_2 (is_Some None)) by (by intros [? ?]). cbn [orb]. rewrite IH.
    apply bool_decide_ext. destruct (str_split_once p s) as [[a b]|]; cbn; [by split; eauto|done].
Qed.
Lemma split_once_none p s : str_split_once p s = None <-> contains p s = false.
Proof.
  rewrite split_once_contains. destruct (str_split_once p s) as [[a b]|].
  - rewrite bool_decide_eq_true_2 by eauto. done.
  - rewrite bool_decide_eq_false_2 by (by intros [? ?]). done.
Qed.

(** * Pieces *)
Lemma split_on_nonempty sep s : split_on sep s <> [].
Proof. destruct s as [|c s]; [done|]. cbn. case_bool_decide; [done|]. by destruct (split_on sep s). Qed.
Lemma join_split sep s : str_join (String sep EmptyString) (split_on sep s) = s.
Proof.
  induction s as [|c s IH]; [done|]. cbn [split_on]. case_bool_decide as E.
  - rewrite join_cons by apply split_on_nonempty. by rewrite IH, E.
  - destruct (split_on sep s) as [|w ws] eqn:Hs; [by destruct (split_on_nonempty sep s)|].
    destruct ws as [|w' ws]; [cbn in *; by rewrite IH|].
    rewrite join_cons in IH |- * by done. rewrite string_app_cons. by rewrite IH.
Qed.
