(* ===== verification/SideStores.v ===== *)
(** The two stores that live beside the record log in the agent's database: the
    secrets vault ([aura-store-db/src/vault.rs]) and the processes with their run
    history ([aura-store-db/src/processes.rs]).

    Both keep JSON records, sealed or plain, in column families of the database of
    [Rocks]; the state is the handle, the cipher and the nonces still to be drawn,
    as in [RocksStore].  Times are numbers; the clock, fresh identifiers and the
    cron library are arguments and parameters. *)
From S2P Require Import Prelude Values Seal Rocks RocksStore Utf8 Text.
From stdpp Require Import list.
From Stdlib Require Import Ascii Strings.Byte.

(** The [cron] crate: parsing gives the next fire time after a time. *)
Class Cron := cron_parse : string -> result string (Z -> option Z).

(** * Sealed tables *)
Section Tables.
Context {DB : Type} `{RocksDB DB} `{Aead}.
Context {E : Type} (store_error serde_error : string -> E).

Definition table_seal (plain : bytes) : stm (RocksStore DB) E bytes := fun st =>
  match rs_cipher st with
  | Some cipher =>
      (map_err (fun e => store_error ("sealing value: " +++ SealError_display e)) (cipher_seal cipher (rs_nonces st 0) plain),
       MkRocksStore (rs_db st) (rs_cipher st) (fun n => rs_nonces st (S n)))
  | None => (Ok plain, st)
  end.
Definition table_open (cipher : option SealCipher) (b : bytes) : result E bytes :=
  match cipher with
  | Some cipher => map_err (fun e => store_error ("opening sealed value: " +++ SealError_display e)) (cipher_open cipher b)
  | None => Ok b
  end.
Definition table_cf (st : RocksStore DB) (cf : string) : result E unit :=
  if cf_handle (rs_db st) cf then Ok tt else Err (store_error (cf +++ " column family not found")).
Definition table_decode {A} `{Serde A} (cipher : option SealCipher) (b : bytes) : result E A :=
  plain ← table_open cipher b;
  map_err serde_error (from_slice plain).
(** [put_cf], [delete_cf]: batches of one operation. *)
Definition table_write (cf : string) (op : BatchOp) : stm (RocksStore DB) E unit := fun st =>
  match table_cf st cf with
  | Err e => (Err e, st)
  | Ok _ =>
      let '(r, db') := db_write [op] (rs_db st) in
      (map_err store_error r, MkRocksStore db' (rs_cipher st) (rs_nonces st))
  end.
Definition table_put {A} `{Serde A} (cf : string) (key : bytes) (x : A) : stm (RocksStore DB) E unit :=
  plain ← lift (map_err serde_error (to_vec x));
  sealed ← table_seal plain;
  table_write cf (BatchPut cf key sealed).
Definition table_delete (cf : string) (key : bytes) : stm (RocksStore DB) E unit := table_write cf (BatchDelete cf key).
Definition table_get {A} `{Serde A} (st : RocksStore DB) (cf : string) (key : bytes) : result E (option A) :=
  _ ← table_cf st cf;
  found ← map_err store_error (db_get (rs_db st) cf key);
  match found with
  | Some b => Some <$> table_decode (rs_cipher st) b
  | None => Ok None
  end.
(** The items of an iterator as long as their key has the prefix. *)
Definition key_has_prefix (prefix k : bytes) : bool := bool_decide (take (length prefix) k = prefix).
Fixpoint items_with_prefix (prefix : bytes) (items : list (result string (bytes * bytes))) : result E (list (bytes * bytes)) :=
  match items with
  | [] => Ok []
  | Err e :: _ => Err (store_error e)
  | Ok (k, v) :: r => if key_has_prefix prefix k then rest ← items_with_prefix prefix r; Ok ((k, v) :: rest) else Ok []
  end.
(** The scans decode an item before they look at the next one. *)
Fixpoint decode_with_prefix {A} `{Serde A} (cipher : option SealCipher) (prefix : bytes)
    (items : list (result string (bytes * bytes))) : result E (list A) :=
  match items with
  | [] => Ok []
  | Err e :: _ => Err (store_error e)
  | Ok (k, v) :: r =>
      if key_has_prefix prefix k then
        x ← table_decode cipher v;
        rest ← decode_with_prefix cipher prefix r;
        Ok (x :: rest)
      else Ok []
  end.
Definition table_scan {A} `{Serde A} (st : RocksStore DB) (cf : string) (prefix : bytes) : result E (list A) :=
  _ ← table_cf st cf;
  decode_with_prefix (rs_cipher st) prefix (db_iterator (rs_db st) cf prefix Forward).
End Tables.

(** * Secrets *)
Definition cf_SECRETS : string := "secrets".
Definition MAX_SECRET_NAME_LEN : Z := 128.
Definition MAX_SECRET_VALUE_BYTES : Z := 8 * 1024.
Inductive VaultError :=
  | VaultError_InvalidName (text : string)
  | VaultError_ValueTooLarge (len max : Z)
  | VaultError_Store (text : string)
  | VaultError_Serde (text : string).
Record SecretRecord := {
  sr_name : string;
  sr_value : string;
  sr_description : option string;
  sr_created_at : Z;
  sr_updated_at : Z;
}.
Record SecretMetadata := {
  sm_name : string;
  sm_description : option string;
  sm_created_at : Z;
  sm_updated_at : Z;
}.
Definition secret_metadata (r : SecretRecord) : SecretMetadata :=
  {| sm_name := sr_name r; sm_description := sr_description r; sm_created_at := sr_created_at r; sm_updated_at := sr_updated_at r |}.
Definition secret_name_char (c : ascii) : bool :=
  let n := Z.of_N (N_of_ascii c) in
  ((48 <=? n) && (n <=? 57))%Z || ((65 <=? n) && (n <=? 90))%Z || ((97 <=? n) && (n <=? 122))%Z
  || bool_decide (c = "-"%char) || bool_decide (c = "_"%char) || bool_decide (c = "."%char).
Fixpoint str_all (P : ascii -> bool) (s : string) : bool :=
  match s with EmptyString => true | String c t => P c && str_all P t end.
Definition validate_secret_name (name : string) : result VaultError unit :=
  if bool_decide (name = "") then Err (VaultError_InvalidName "name must not be empty")
  else if (MAX_SECRET_NAME_LEN <? str_len name)%Z
  then Err (VaultError_InvalidName ("name exceeds " +++ fmt_Z MAX_SECRET_NAME_LEN +++ " characters"))
  else if negb (str_all secret_name_char name)
  then Err (VaultError_InvalidName "name may only contain ASCII letters, digits, '-', '_', '.'")
  else Ok tt.

Section Vault.
Context {DB : Type} `{RocksDB DB} `{Aead} `{Serde SecretRecord}.
Abbreviation V := (stm (RocksStore DB) VaultError).

Definition vault_get (st : RocksStore DB) (name : string) : result VaultError (option SecretRecord) :=
  _ ← validate_secret_name name;
  table_get VaultError_Store VaultError_Serde st cf_SECRETS (string_to_bytes name).
Definition vault_put (now : Z) (name value : string) (description : option string) : V SecretMetadata :=
  _ ← lift (validate_secret_name name);
  if (MAX_SECRET_VALUE_BYTES <? str_len value)%Z
  then fails (VaultError_ValueTooLarge (str_len value) MAX_SECRET_VALUE_BYTES)
  else
    existing ← reads (fun st => vault_get st name);
    let record := {| sr_name := name; sr_value := value; sr_description := description;
                     sr_created_at := match existing with Some e => sr_created_at e | None => now end;
                     sr_updated_at := now |} in
    _ ← table_put VaultError_Store VaultError_Serde cf_SECRETS (string_to_bytes name) record;
    mret (secret_metadata record).
Definition vault_delete (name : string) : V bool :=
  _ ← lift (validate_secret_name name);
  existing ← reads (fun st => vault_get st name);
  match existing with
  | Some _ => _ ← table_delete VaultError_Store cf_SECRETS (string_to_bytes name); mret true
  | None => mret false
  end.
Definition vault_list (st : RocksStore DB) : result VaultError (list SecretMetadata) :=
  records ← table_scan VaultError_Store VaultError_Serde st cf_SECRETS [];
  Ok (secret_metadata <$> (records : list SecretRecord)).
End Vault.

(** * Processes *)
Definition cf_PROCESSES : string := "processes".
Definition cf_PROCESS_RUNS : string := "process_runs".
Definition MAX_PROCESS_NAME_LEN : Z := 200.
Definition MAX_PROCESS_PROMPT_BYTES : Z := 64 * 1024.
Definition MAX_PROCESS_RUNS_KEPT : nat := 50.
Inductive ProcessError :=
  | ProcessError_InvalidName (text : string)
  | ProcessError_InvalidCron (text : string)
  | ProcessError_InvalidPrompt (text : string)
  | ProcessError_NotFound (id : string)
  | ProcessError_RunNotFound (id : string)
  | ProcessError_Store (text : string)
  | ProcessError_Serde (text : string).
Record ProcessRecord := {
  pr_id : string;
  pr_name : string;
  pr_description : option string;
  pr_cron : string;
  pr_prompt : string;
  pr_config : option (list (string * json));
  pr_enabled : bool;
  pr_created_at : Z;
  pr_updated_at : Z;
  pr_last_run_at : option Z;
  pr_next_run_at : option Z;
}.
Inductive ProcessRunStatus := ProcessRunStatus_Running | ProcessRunStatus_Success | ProcessRunStatus_Failure.
Record ProcessRunRecord := {
  prr_run_id : string;
  prr_process_id : string;
  prr_seq : Z;
  prr_started_at : Z;
  prr_finished_at : option Z;
  prr_status : ProcessRunStatus;
  prr_summary : option string;
  prr_error : option string;
}.
Record NewProcess := {
  np_name : string;
  np_description : option string;
  np_cron : string;
  np_prompt : string;
  np_config : option (list (string * json));
  np_enabled : bool;
}.
Record ProcessUpdate := {
  pu_name : option string;
  pu_description : option (option string);
  pu_cron : option string;
  pu_prompt : option string;
  pu_config : option (option (list (string * json)));
  pu_enabled : option bool;
}.
Record ProcessTriggerMeta := {
  ptm_process_id : string;
  ptm_cron : string;
  ptm_enabled : bool;
  ptm_next_run_at : option Z;
}.

(** [split_whitespace().count()]. *)
Fixpoint count_words (fuel : nat) (in_word : bool) (l : list Z) : nat :=
  match fuel with
  | O => 0
  | S fuel =>
      match l with
      | [] => 0
      | _ => match ws_len l with
             | O => (if in_word then 0 else 1) + count_words fuel true (drop 1 l)
             | n => count_words fuel false (drop n l)
             end
      end
  end.
Definition words_count (s : string) : nat := count_words (length (text_bytes s)) false (text_bytes s).
Definition normalize_cron (expr : string) : string :=
  if words_count expr =? 5 then "0 " +++ trim expr else trim expr.
Definition validate_name (name : string) : result ProcessError unit :=
  if trim_is_empty name then Err (ProcessError_InvalidName "name must not be empty")
  else if (MAX_PROCESS_NAME_LEN <? str_len name)%Z
  then Err (ProcessError_InvalidName ("name exceeds " +++ fmt_Z MAX_PROCESS_NAME_LEN +++ " characters"))
  else Ok tt.
Definition validate_prompt (prompt : string) : result ProcessError unit :=
  if trim_is_empty prompt then Err (ProcessError_InvalidPrompt "prompt must not be empty")
  else if (MAX_PROCESS_PROMPT_BYTES <? str_len prompt)%Z
  then Err (ProcessError_InvalidPrompt ("prompt exceeds " +++ fmt_Z MAX_PROCESS_PROMPT_BYTES +++ " bytes"))
  else Ok tt.
(** [{seq:020}] of a [u64]. *)
Fixpoint decimal_digits (n : nat) (z : Z) : bytes :=
  match n with
  | O => []
  | S n => byte_of_Z (48 + z / 10 ^ Z.of_nat n) :: decimal_digits n (z mod 10 ^ Z.of_nat n)
  end.
Definition slash : bytes := string_to_bytes "/".
Definition run_prefix (process_id : string) : bytes := string_to_bytes process_id ++ slash.
Definition run_key (process_id : string) (seq : Z) (run_id : string) : bytes :=
  run_prefix process_id ++ decimal_digits 20 seq ++ slash ++ string_to_bytes run_id.
(** The value [next_run_seq] stores and returns when the last one was [last]. *)
Definition next_run_seq (now_millis last : Z) : Z := Z.max (Z.max now_millis 0) (last + 1).

Section ProcessStore.
Context {DB : Type} `{RocksDB DB} `{Aead} `{Cron} `{Serde ProcessRecord} `{Serde ProcessRunRecord}.
Abbreviation P := (stm (RocksStore DB) ProcessError).

Definition validate_cron (expr : string) : result ProcessError (Z -> option Z) :=
  if trim_is_empty expr then Err (ProcessError_InvalidCron "cron expression must not be empty")
  else map_err ProcessError_InvalidCron (cron_parse (normalize_cron expr)).
Definition next_run_after (expr : string) (after : Z) : result ProcessError (option Z) :=
  schedule ← validate_cron expr; Ok (schedule after).
Definition put_record (record : ProcessRecord) : P unit :=
  table_put ProcessError_Store ProcessError_Serde cf_PROCESSES (string_to_bytes (pr_id record)) record.
Definition process_get (st : RocksStore DB) (id : string) : result ProcessError (option ProcessRecord) :=
  table_get ProcessError_Store ProcessError_Serde st cf_PROCESSES (string_to_bytes id).
Definition process_list (st : RocksStore DB) : result ProcessError (list ProcessRecord) :=
  table_scan ProcessError_Store ProcessError_Serde st cf_PROCESSES [].
Definition process_create (now : Z) (id : string) (input : NewProcess) : P ProcessRecord :=
  _ ← lift (validate_name (np_name input));
  _ ← lift (validate_prompt (np_prompt input));
  next ← lift (next_run_after (np_cron input) now);
  let record := {| pr_id := id; pr_name := np_name input; pr_description := np_description input; pr_cron := np_cron input;
                   pr_prompt := np_prompt input; pr_config := np_config input; pr_enabled := np_enabled input;
                   pr_created_at := now; pr_updated_at := now; pr_last_run_at := None; pr_next_run_at := next |} in
  _ ← put_record record;
  mret record.
Definition checked {A} (check : A -> result ProcessError unit) (new : option A) (old : A) : result ProcessError A :=
  match new with Some a => _ ← check a; Ok a | None => Ok old end.
Definition updated_record (now : Z) (record : ProcessRecord) (u : ProcessUpdate) : result ProcessError ProcessRecord :=
  name ← checked validate_name (pu_name u) (pr_name record);
  cron ← checked (fun c => _ ← validate_cron c; Ok tt) (pu_cron u) (pr_cron record);
  prompt ← checked validate_prompt (pu_prompt u) (pr_prompt record);
  next ← next_run_after cron now;
  Ok {| pr_id := pr_id record; pr_name := name; pr_description := default (pr_description record) (pu_description u);
        pr_cron := cron; pr_prompt := prompt; pr_config := default (pr_config record) (pu_config u);
        pr_enabled := default (pr_enabled record) (pu_enabled u); pr_created_at := pr_created_at record;
        pr_updated_at := now; pr_last_run_at := pr_last_run_at record; pr_next_run_at := next |}.
Definition found (id : string) (r : option ProcessRecord) : result ProcessError ProcessRecord :=
  ok_or (ProcessError_NotFound id) r.
Definition process_update (now : Z) (id : string) (u : ProcessUpdate) : P ProcessRecord :=
  record ← reads (fun st => r ← process_get st id; found id r);
  record ← lift (updated_record now record u);
  _ ← put_record record;
  mret record.

Definition put_run (run : ProcessRunRecord) : P unit :=
  table_put ProcessError_Store ProcessError_Serde cf_PROCESS_RUNS
    (run_key (prr_process_id run) (prr_seq run) (prr_run_id run)) run.
Definition run_keys (st : RocksStore DB) (process_id : string) : result ProcessError (list bytes) :=
  _ ← table_cf ProcessError_Store st cf_PROCESS_RUNS;
  items ← items_with_prefix ProcessError_Store (run_prefix process_id)
            (db_iterator (rs_db st) cf_PROCESS_RUNS (run_prefix process_id) Forward);
  Ok items.*1.
Fixpoint delete_keys (cf : string) (keys : list bytes) : P unit :=
  match keys with [] => mret tt | k :: r => _ ← table_delete ProcessError_Store cf k; delete_keys cf r end.
Definition process_delete (id : string) : P bool :=
  existing ← reads (fun st => process_get st id);
  match existing with
  | None => mret false
  | Some _ =>
      _ ← table_delete ProcessError_Store cf_PROCESSES (string_to_bytes id);
      _ ← reads (fun st => table_cf ProcessError_Store st cf_PROCESS_RUNS);
      keys ← reads (fun st => run_keys st id);
      _ ← delete_keys cf_PROCESS_RUNS keys;
      mret true
  end.
Definition prune_runs (process_id : string) : P unit :=
  keys ← reads (fun st => run_keys st process_id);
  if length keys <=? MAX_PROCESS_RUNS_KEPT then mret tt
  else
    _ ← reads (fun st => table_cf ProcessError_Store st cf_PROCESS_RUNS);
    delete_keys cf_PROCESS_RUNS (take (length keys - MAX_PROCESS_RUNS_KEPT) keys).
Definition list_runs (st : RocksStore DB) (process_id : string) : result ProcessError (list ProcessRunRecord) :=
  runs ← table_scan ProcessError_Store ProcessError_Serde st cf_PROCESS_RUNS (run_prefix process_id);
  Ok (rev runs).
Definition new_run (now seq : Z) (process_id run_id : string) : ProcessRunRecord := {|
  prr_run_id := run_id; prr_process_id := process_id; prr_seq := seq; prr_started_at := now; prr_finished_at := None;
  prr_status := ProcessRunStatus_Running; prr_summary := None; prr_error := None |}.
Definition stamped (now : Z) (record : ProcessRecord) (next : option Z) : ProcessRecord := {|
  pr_id := pr_id record; pr_name := pr_name record; pr_description := pr_description record; pr_cron := pr_cron record;
  pr_prompt := pr_prompt record; pr_config := pr_config record; pr_enabled := pr_enabled record;
  pr_created_at := pr_created_at record; pr_updated_at := now; pr_last_run_at := Some now; pr_next_run_at := next |}.
(** What [start_run] does with the record it has read. *)
Definition start_run_with (now seq : Z) (run_id : string) (record : ProcessRecord) (process_id : string) : P ProcessRunRecord :=
  let run := new_run now seq process_id run_id in
  _ ← put_run run;
  next ← lift (next_run_after (pr_cron record) now);
  _ ← put_record (stamped now record next);
  _ ← prune_runs process_id;
  mret run.
Definition start_run (now seq : Z) (run_id process_id : string) : P ProcessRunRecord :=
  record ← reads (fun st => r ← process_get st process_id; found process_id r);
  start_run_with now seq run_id record process_id.
Definition finished (now : Z) (status : ProcessRunStatus) (summary error : option string) (run : ProcessRunRecord) : ProcessRunRecord := {|
  prr_run_id := prr_run_id run; prr_process_id := prr_process_id run; prr_seq := prr_seq run; prr_started_at := prr_started_at run;
  prr_finished_at := Some now; prr_status := status; prr_summary := summary; prr_error := error |}.
Definition finish_run (now : Z) (process_id run_id : string) (status : ProcessRunStatus) (summary error : option string)
  : P ProcessRunRecord :=
  run ← reads (fun st => runs ← list_runs st process_id;
                         ok_or (ProcessError_RunNotFound run_id) (List.find (fun r => bool_decide (prr_run_id r = run_id)) runs));
  let run := finished now status summary error run in
  _ ← put_run run;
  mret run.
Definition trigger_of (p : ProcessRecord) : ProcessTriggerMeta :=
  {| ptm_process_id := pr_id p; ptm_cron := pr_cron p; ptm_enabled := pr_enabled p; ptm_next_run_at := pr_next_run_at p |}.
Definition trigger_metadata (st : RocksStore DB) : result ProcessError (list ProcessTriggerMeta) :=
  ps ← process_list st; Ok (trigger_of <$> (ps : list ProcessRecord)).
End ProcessStore.
