(* ===== verification/SideStoresProps.v ===== *)
(** What the vault and the process store keep.

    A scan of a column family gives its entries under a prefix in key order
    ([listing]); the keys of runs order as their sequence numbers, so that pruning
    the first keys drops the oldest runs. *)
From S2P Require Import Prelude Values Seal Rocks RocksStore RocksRefine Utf8 Text SideStores.
From stdpp Require Import list sorting.
From Stdlib Require Import Ascii Strings.Byte.

(** * Entries under a prefix *)
Definition listing (m : content) (cf : string) (prefix : bytes) (l : list (bytes * bytes)) : Prop :=
  StronglySorted (iter_order Forward) l
  /\ forall k v, (k, v) ∈ l <-> m !! (cf, k) = Some v /\ key_has_prefix prefix k = true.

Lemma key_has_prefix_app p r : key_has_prefix p (p ++ r) = true.
Proof. unfold key_has_prefix. by rewrite take_app_length, bool_decide_eq_true. Qed.
Lemma key_has_prefix_inv p k : key_has_prefix p k = true -> exists r, k = p ++ r.
Proof.
  unfold key_has_prefix. rewrite bool_decide_eq_true. intros E. exists (drop (length p) k).
  by rewrite <-E at 1; rewrite take_drop.
Qed.
Lemma key_has_prefix_le p k : key_has_prefix p k = true -> lex_le p k = true.
Proof.
  intros [r ->]%key_has_prefix_inv. unfold lex_le. rewrite negb_true_iff.
  rewrite <-(app_nil_r p) at 2. rewrite lex_lt_app_l. by destruct r.
Qed.
(** Past the first key without the prefix no key has it. *)
Lemma prefix_contiguous p k k' :
  lex_le p k = true -> key_has_prefix p k = false -> lex_lt k k' = true -> key_has_prefix p k' = false.
Proof.
  intros Hle Hk Hlt. apply not_true_iff_false. intros [r ->]%key_has_prefix_inv.
  revert k Hle Hk Hlt. induction p as [|x p IH]; intros k Hle Hk Hlt; [done|].
  destruct k as [|y k]; [done|]. unfold lex_le in Hle. apply negb_true_iff, not_true_iff_false in Hle.
  rewrite lex_lt_cons in Hle. cbn [app] in Hlt. rewrite lex_lt_cons in Hlt.
  destruct Hlt as [Hlt|[-> Hlt]]; [naive_solver|]. apply (IH k); [|..|done].
  - unfold lex_le. apply negb_true_iff, not_true_iff_false. naive_solver.
  - apply not_true_iff_false. intros [q ->]%key_has_prefix_inv.
    rewrite (key_has_prefix_app (x :: p) q : key_has_prefix (x :: p) (x :: p ++ q) = true) in Hk. done.
Qed.

Lemma range_listing m cf p l1 l2 :
  range_list m cf p Forward (l1 ++ l2) -> Forall (fun kv => key_has_prefix p kv.1 = true) l1 ->
  (forall kv, head l2 = Some kv -> key_has_prefix p kv.1 = false) -> listing m cf p l1.
Proof.
  intros [Hs Hin] H1 H2. apply StronglySorted_app in Hs as (Hs12 & Hs1 & Hs2). split; [done|]. intros k v. split.
  - intros Hkv. rewrite Forall_forall in H1. split; [|by apply (H1 (k, v))].
    apply Hin. rewrite elem_of_app. by left.
  - intros [Hm Hp]. assert ((k, v) ∈ l1 ++ l2) as [?|Hkv]%elem_of_app; [apply Hin; split; [done|by apply key_has_prefix_le]|done|].
    exfalso. destruct l2 as [|kv0 l2]; [by apply elem_of_nil in Hkv|]. specialize (H2 _ eq_refl).
    apply elem_of_cons in Hkv as [<-|Hkv]; [cbn in H2; congruence|].
    inversion Hs2 as [|?? _ Hall]. rewrite Forall_forall in Hall. specialize (Hall _ Hkv). cbn in Hall.
    destruct kv0 as [k0 v0]. assert (lex_le p k0 = true) as Hc.
    { destruct (proj1 (Hin k0 v0)) as [_ ?]; [|done]. rewrite elem_of_app. right. by left. }
    rewrite (prefix_contiguous p k0 k Hc H2 Hall) in Hp. done.
Qed.

Lemma listing_unique m cf p l l' : listing m cf p l -> listing m cf p l' -> l = l'.
Proof.
  intros [Hs Hin] [Hs' Hin']. apply (StronglySorted_strict_unique (iter_order Forward)); [done..|].
  intros [k v]. by rewrite Hin, Hin'.
Qed.
Lemma listing_ext m m' cf p l :
  (forall k, key_has_prefix p k = true -> m' !! (cf, k) = m !! (cf, k)) -> listing m cf p l -> listing m' cf p l.
Proof.
  intros E [Hs Hin]. split; [done|]. intros k v. rewrite Hin. split; intros [Hm Hp]; (split; [|done]); rewrite <-Hm;
    [by apply E|symmetry; by apply E].
Qed.
Lemma listing_snoc m cf p l k v :
  listing m cf p l -> key_has_prefix p k = true -> Forall (fun kv => lex_lt kv.1 k = true) l ->
  listing (<[(cf, k) := v]> m) cf p (l ++ [(k, v)]).
Proof.
  intros [Hs Hin] Hk Hlt. split.
  - apply StronglySorted_app. split_and!; [|done|by repeat constructor].
    intros x y Hx ->%list_elem_of_singleton. rewrite Forall_forall in Hlt. by apply (Hlt x).
  - intros k' v'. rewrite elem_of_app, Hin, list_elem_of_singleton, lookup_insert_Some. split.
    + intros [[Hm Hp]|[= -> ->]]; [|split; [by left|done]]. split; [|done]. right. split; [|done]. intros [= ->].
      rewrite Forall_forall in Hlt. specialize (Hlt (k', v') (proj2 (Hin k' v') (conj Hm Hp))). cbn in Hlt.
      by rewrite lex_lt_irrefl in Hlt.
    + intros [[[[= ->] ->]|[_ Hm]] Hp]; [by right|by left].
Qed.
Definition delete_all (cf : string) (ks : list bytes) (m : content) : content := foldl (fun m k => delete (cf, k) m) m ks.
Lemma delete_all_Some cf ks m c k v :
  delete_all cf ks m !! (c, k) = Some v <-> m !! (c, k) = Some v /\ ~ (c = cf /\ k ∈ ks).
Proof.
  revert m. induction ks as [|k0 ks IH]; intros m; cbn.
  - split; [intros ?; split; [done|]|naive_solver]. intros [_ ?%elem_of_nil]. done.
  - unfold delete_all in IH. rewrite IH, lookup_delete_Some, elem_of_cons. naive_solver.
Qed.
Lemma listing_delete m cf p l1 l2 :
  listing m cf p (l1 ++ l2) -> listing (delete_all cf l1.*1 m) cf p l2.
Proof.
  intros [Hs Hin]. apply StronglySorted_app in Hs as (Hs12 & Hs1 & Hs2). split; [done|]. intros k v.
  rewrite delete_all_Some. split.
  - intros Hkv. destruct (proj1 (Hin k v)) as [Hm Hp]; [rewrite elem_of_app; by right|]. split; [|done].
    split; [done|]. intros [_ ([k' v'] & -> & Hk')%list_elem_of_fmap].
    specialize (Hs12 _ _ Hk' Hkv). cbn in Hs12. by rewrite lex_lt_irrefl in Hs12.
  - intros [[Hm Hn] Hp]. assert ((k, v) ∈ l1 ++ l2) as [Hkv|?]%elem_of_app; [by apply Hin| |done].
    exfalso. apply Hn. split; [done|]. apply list_elem_of_fmap. by exists (k, v).
Qed.

(** * Scans *)
Section Scans.
Context {E : Type} (store_error : string -> E).

Lemma items_with_prefix_ok p items l kvs :
  iter_agrees items l -> items_with_prefix store_error p items = Ok kvs ->
  exists rest, l = kvs ++ rest /\ Forall (fun kv => key_has_prefix p kv.1 = true) kvs
    /\ (forall kv, head rest = Some kv -> key_has_prefix p kv.1 = false).
Proof.
  revert items kvs. induction l as [|[k v] l IH]; intros items kvs Hag Hk.
  - assert (kvs = []) as ->; [|by exists []].
    destruct Hag as [->|(q & e & rest & Hq%prefix_nil_inv & ->)]; [|subst q]; cbn in Hk; by simplify_eq.
  - assert (items = [] -> False) as Hne.
    { intros ->. destruct Hag as [?|(q & e & rest & _ & ?%eq_sym%app_nil)]; naive_solver. }
    destruct items as [|[[k' v']|e] items]; [done| |done].
    assert (k' = k /\ v' = v /\ iter_agrees items l) as (-> & -> & Hag').
    { destruct Hag as [?|([|[k1 v1] q] & e & rest & Hq & ?)]; simplify_eq/=; [split_and!; [done..|by left]|].
      destruct Hq as [tl Hq]. simplify_eq/=. split_and!; [done..|]. right. exists q, e, rest. split; [by exists tl|done]. }
    cbn in Hk. destruct (key_has_prefix p k) eqn:Ek.
    + apply result_bind_Ok in Hk as (kvs' & Hk' & [= <-]). destruct (IH _ _ Hag' Hk') as (rest & -> & ? & ?).
      exists rest. split_and!; [done|by constructor|done].
    + simplify_eq. exists ((k, v) :: l). split_and!; [done|constructor|]. by intros ? [= <-].
Qed.
Lemma decode_with_prefix_ok (serde_error : string -> E) `{Aead} `{Serde A} cipher p items (xs : list A) :
  decode_with_prefix store_error serde_error cipher p items = Ok xs ->
  exists kvs, items_with_prefix store_error p items = Ok kvs
    /\ Forall2 (fun kv x => table_decode store_error serde_error cipher kv.2 = Ok x) kvs xs.
Proof.
  revert xs. induction items as [|[[k v]|e] items IH]; intros xs Hd; cbn in *; [simplify_eq; by exists []| |done].
  destruct (key_has_prefix p k); [|simplify_eq; by exists []].
  apply result_bind_Ok in Hd as (x & Hx & Hd). apply result_bind_Ok in Hd as (xs' & Hxs & [= <-]).
  destruct (IH _ Hxs) as (kvs & -> & HF). exists ((k, v) :: kvs). split; [done|by constructor].
Qed.
End Scans.

Section TableOps.
Context {DB : Type} `{RocksDBLaws DB} `{Aead} {E : Type} (store_error serde_error : string -> E).
Context {A : Type} `{SerdeOk A}.
Abbreviation view st := (db_view (rs_db st)).

Lemma items_listing (st : RocksStore DB) cf p kvs :
  items_with_prefix store_error p (db_iterator (rs_db st) cf p Forward) = Ok kvs -> listing (view st) cf p kvs.
Proof.
  destruct (db_iterator_ok (rs_db st) cf p Forward) as (l & Hr & Hag). intros Hk.
  destruct (items_with_prefix_ok store_error p _ l kvs Hag Hk) as (rest & -> & Hp & Hn). by eapply range_listing.
Qed.
Lemma table_scan_ok (st : RocksStore DB) cf p (xs : list A) :
  table_scan store_error serde_error st cf p = Ok xs ->
  exists kvs, listing (view st) cf p kvs
    /\ Forall2 (fun kv x => table_decode store_error serde_error (rs_cipher st) kv.2 = Ok x) kvs xs.
Proof.
  unfold table_scan. intros (_ & _ & Hd)%result_bind_Ok.
  apply decode_with_prefix_ok in Hd as (kvs & Hk & HF). exists kvs. split; [by apply items_listing|done].
Qed.
Lemma table_write_ok cf op (st st' : RocksStore DB) :
  table_write store_error cf op st = (Ok tt, st') -> view st' = apply_op (view st) op /\ rs_cipher st' = rs_cipher st.
Proof.
  unfold table_write. destruct (table_cf _ _ _); [|done]. destruct (db_write _ _) as [[[]|] db'] eqn:Ew; [|done].
  intros [= <-]. cbn. by apply db_write_Ok in Ew.
Qed.
Lemma table_put_ok cf key (x : A) (st st' : RocksStore DB) :
  table_put store_error serde_error cf key x st = (Ok tt, st') ->
  exists v, view st' = <[(cf, key) := v]> (view st) /\ rs_cipher st' = rs_cipher st
    /\ table_decode store_error serde_error (rs_cipher st) v = Ok x.
Proof.
  unfold table_put, mbind, stm_bind, lift. destruct (to_vec x) as [plain|] eqn:Ev; [|done]. cbn.
  unfold table_seal. unfold table_decode, table_open. apply serde_roundtrip in Ev.
  destruct (rs_cipher st) as [cipher|] eqn:Ec.
  - destruct (cipher_seal cipher (rs_nonces st 0) plain) as [sealed|] eqn:Es; [|done]. cbn. intros [Hv Hc]%table_write_ok.
    exists sealed. split_and!; [done|by rewrite Hc|]. rewrite (open_seal _ _ _ _ Es). cbn. by rewrite Ev.
  - intros [Hv Hc]%table_write_ok. exists plain. split_and!; [done|by rewrite Hc|]. cbn. by rewrite Ev.
Qed.
Lemma table_get_ok (st : RocksStore DB) cf key (r : option A) :
  table_get store_error serde_error st cf key = Ok r ->
  match r with
  | Some x => exists v, view st !! (cf, key) = Some v /\ table_decode store_error serde_error (rs_cipher st) v = Ok x
  | None => view st !! (cf, key) = None
  end.
Proof.
  unfold table_get. intros (_ & _ & (b & Hb & Hr)%result_bind_Ok)%result_bind_Ok.
  destruct (db_get _ _ _) as [b'|] eqn:Eg; [|done]. cbn in Hb. simplify_eq. apply db_get_Ok in Eg as ->.
  destruct (view st !! (cf, key)) as [v|]; [|by simplify_eq].
  destruct (table_decode _ _ _ v) as [x|] eqn:Ed; [|done]. cbn in Hr. simplify_eq. by exists v.
Qed.
End TableOps.

(** * Keys of runs *)
Lemma decimal_digits_length n z : length (decimal_digits n z) = n.
Proof. revert z. induction n as [|n IH]; intros z; cbn; [done|by rewrite IH]. Qed.
Lemma decimal_digits_lt n a b :
  (0 <= a < 10 ^ Z.of_nat n)%Z -> (0 <= b < 10 ^ Z.of_nat n)%Z ->
  lex_lt (decimal_digits n a) (decimal_digits n b) = true <-> (a < b)%Z.
Proof.
  revert a b. induction n as [|n IH]; intros a b Ha Hb; [cbn in *; split; [done|lia]|].
  cbn [decimal_digits]. rewrite lex_lt_cons, !byte_to_of_Z.
  rewrite Nat2Z.inj_succ, Z.pow_succ_r in Ha, Hb by lia.
  set (d := (10 ^ Z.of_nat n)%Z) in *. assert (0 < d)%Z as Hd by (apply Z.pow_pos_nonneg; lia).
  pose proof (Z.mod_pos_bound a d Hd) as Ma. pose proof (Z.mod_pos_bound b d Hd) as Mb.
  pose proof (Z.div_mod a d ltac:(lia)) as Da. pose proof (Z.div_mod b d ltac:(lia)) as Db.
  assert (0 <= a / d < 10)%Z as Qa by (split; [apply Z.div_pos; lia|apply Z.div_lt_upper_bound; lia]).
  assert (0 <= b / d < 10)%Z as Qb by (split; [apply Z.div_pos; lia|apply Z.div_lt_upper_bound; lia]).
  rewrite !Z.mod_small by lia. split.
  - intros [Hlt|[He Hlt]]; [nia|]. apply (f_equal byte_to_Z) in He. rewrite !byte_to_of_Z, !Z.mod_small in He by lia.
    apply IH in Hlt; [nia|lia..].
  - intros Hlt. destruct (Z.lt_trichotomy (a / d) (b / d)) as [?|[He|?]]; [left; lia| |nia].
    right. split; [by rewrite He|]. apply IH; [lia..|nia].
Qed.
Definition u64_digits : Z := 10 ^ 20.
Lemma run_key_lt pid s s' r r' :
  (0 <= s < s')%Z -> (s' < u64_digits)%Z -> lex_lt (run_key pid s r) (run_key pid s' r') = true.
Proof.
  intros Hs Hs'. unfold run_key. rewrite lex_lt_app_l, lex_lt_app by by rewrite !decimal_digits_length.
  left. unfold u64_digits in Hs'. apply decimal_digits_lt; cbn [Z.of_nat Pos.of_succ_nat]; lia.
Qed.

Section Runs.
Context {DB : Type} `{RocksDBLaws DB} `{Aead} `{Cron} `{SerdeOk ProcessRecord} `{SerdeOk ProcessRunRecord}.
Abbreviation view st := (db_view (rs_db st)).
Abbreviation run_decode := (table_decode (A := ProcessRunRecord) ProcessError_Store ProcessError_Serde).

(** Every entry under the process's prefix is a run of the process under its own
    key, with a number below [bound]. *)
Definition runs_below (st : RocksStore DB) (pid : string) (bound : Z) : Prop :=
  forall k v, view st !! (cf_PROCESS_RUNS, k) = Some v -> key_has_prefix (run_prefix pid) k = true ->
  exists r, run_decode (rs_cipher st) v = Ok r /\ prr_process_id r = pid
    /\ k = run_key pid (prr_seq r) (prr_run_id r) /\ (0 <= prr_seq r < bound)%Z.

Lemma run_key_prefixed pid s r : key_has_prefix (run_prefix pid) (run_key pid s r) = true.
Proof. apply key_has_prefix_app. Qed.
Lemma delete_keys_ok cf ks (st st' : RocksStore DB) :
  delete_keys cf ks st = (Ok tt, st') -> view st' = delete_all cf ks (view st) /\ rs_cipher st' = rs_cipher st.
Proof.
  revert st. induction ks as [|k ks IH]; intros st; cbn [delete_keys]; [by intros [= <-]|].
  intros ([] & st1 & [Hv Hc]%table_write_ok & [Hv' Hc']%IH)%stm_bind_Ok. cbn. rewrite Hv', Hc', Hv, Hc. done.
Qed.
Lemma run_keys_ok (st : RocksStore DB) pid ks :
  run_keys st pid = Ok ks -> exists l, listing (view st) cf_PROCESS_RUNS (run_prefix pid) l /\ ks = l.*1.
Proof.
  unfold run_keys. intros (_ & _ & (l & Hl & [= <-])%result_bind_Ok)%result_bind_Ok.
  exists l. split; [by apply (items_listing ProcessError_Store)|done].
Qed.
Lemma list_runs_ok (st : RocksStore DB) pid runs :
  list_runs st pid = Ok runs ->
  exists l, listing (view st) cf_PROCESS_RUNS (run_prefix pid) l
    /\ Forall2 (fun kv r => run_decode (rs_cipher st) kv.2 = Ok r) l (rev runs).
Proof.
  unfold list_runs. intros (rs & Hrs & [= <-])%result_bind_Ok. rewrite rev_involutive.
  by apply table_scan_ok in Hrs.
Qed.
(** Pruning leaves the last entries, and nothing else changes. *)
Lemma prune_runs_ok pid (st st' : RocksStore DB) l :
  prune_runs pid st = (Ok tt, st') -> listing (view st) cf_PROCESS_RUNS (run_prefix pid) l ->
  view st' = delete_all cf_PROCESS_RUNS (take (length l - MAX_PROCESS_RUNS_KEPT) l).*1 (view st)
  /\ rs_cipher st' = rs_cipher st.
Proof.
  intros Hp Hl. unfold prune_runs in Hp. apply stm_bind_Ok in Hp as (ks & st1 & Hks & Hp). injection Hks as Hks <-.
  apply run_keys_ok in Hks as (l' & Hl' & ->). rewrite (listing_unique _ _ _ _ _ Hl' Hl) in Hp. rewrite length_fmap in Hp.
  destruct (Nat.leb_spec (length l) MAX_PROCESS_RUNS_KEPT) as [Hle|Hgt].
  - injection Hp as <-. by replace (length l - MAX_PROCESS_RUNS_KEPT) with 0 by lia.
  - apply stm_bind_Ok in Hp as ([] & st1 & Hcf & Hp). injection Hcf as _ <-.
    apply delete_keys_ok in Hp as [-> ->]. by rewrite fmap_take.
Qed.

(** The steps of [start_run]: the run is written, then the process's record, then
    the history is pruned. *)
Lemma start_run_steps now seq rid pid (st st' : RocksStore DB) run :
  start_run now seq rid pid st = (Ok run, st') ->
  exists v w c st2, run = new_run now seq pid rid /\ run_decode (rs_cipher st) v = Ok run
    /\ view st2 = <[(cf_PROCESSES, c) := w]> (<[(cf_PROCESS_RUNS, run_key pid seq rid) := v]> (view st))
    /\ rs_cipher st2 = rs_cipher st /\ prune_runs pid st2 = (Ok tt, st').
Proof.
  unfold start_run, start_run_with. intros (rec & st0 & Hrec & Hs)%stm_bind_Ok. injection Hrec as Hrec <-.
  apply stm_bind_Ok in Hs as ([] & st1 & Hp1 & Hs). apply (table_put_ok ProcessError_Store ProcessError_Serde) in Hp1 as (v & Hv1 & Hc1 & Hd).
  apply stm_bind_Ok in Hs as (next & st1' & Hn & Hs). injection Hn as Hn <-.
  apply stm_bind_Ok in Hs as ([] & st2 & Hp2 & Hs). apply (table_put_ok ProcessError_Store ProcessError_Serde) in Hp2 as (w & Hv2 & Hc2 & _).
  apply stm_bind_Ok in Hs as ([] & st3 & Hpr & Hs). injection Hs as <- <-.
  exists v, w, (string_to_bytes (pr_id (stamped now rec next))), st2. split_and!; [done|done| |by rewrite Hc2|done].
  by rewrite Hv2, Hv1.
Qed.
Lemma start_run_listing now seq rid pid (st st' : RocksStore DB) run l :
  runs_below st pid seq -> (seq < u64_digits)%Z -> start_run now seq rid pid st = (Ok run, st') ->
  listing (view st) cf_PROCESS_RUNS (run_prefix pid) l ->
  exists v, run_decode (rs_cipher st) v = Ok run /\ rs_cipher st' = rs_cipher st /\ run = new_run now seq pid rid
    /\ let l' := l ++ [(run_key pid seq rid, v)] in
       listing (view st') cf_PROCESS_RUNS (run_prefix pid) (drop (length l' - MAX_PROCESS_RUNS_KEPT) l').
Proof.
  intros Hb Hseq (v & w & c & st2 & -> & Hd & Hv2 & Hc2 & Hpr)%start_run_steps Hl. exists v.
  set (l' := l ++ [(run_key pid seq rid, v)]).
  assert (listing (view st2) cf_PROCESS_RUNS (run_prefix pid) l') as Hl'.
  { rewrite Hv2. eapply listing_ext, listing_snoc; [|done|apply run_key_prefixed|].
    - intros k _. by rewrite lookup_insert_ne by done.
    - apply Forall_forall. intros [k u] Hk. apply Hl in Hk as [Hm Hk].
      destruct (Hb _ _ Hm Hk) as (r & _ & _ & -> & Hr). cbn. by apply run_key_lt. }
  destruct (prune_runs_ok _ _ _ _ Hpr Hl') as [Hv' Hc']. split_and!; [done|by rewrite Hc'|done|].
  cbv zeta. rewrite Hv'. apply listing_delete. by rewrite take_drop.
Qed.

Lemma Forall2_unique_r {A B} (R : A -> B -> Prop) l k k' :
  (forall a b b', R a b -> R a b' -> b = b') -> Forall2 R l k -> Forall2 R l k' -> k = k'.
Proof. intros HR Hk. revert k'. induction Hk; intros k' Hk'; inversion Hk'; subst; f_equal; eauto. Qed.
Lemma rev_drop_excess {A} (n : nat) (x : A) old :
  rev (drop (S (length old) - n) (rev old ++ [x])) = take n (x :: old).
Proof.
  change (rev old ++ [x]) with (rev (x :: old)).
  rewrite <-(rev_involutive (take n (x :: old))). f_equal.
  rewrite <-(firstn_skipn n (x :: old)) at 1. rewrite rev_app_distr.
  rewrite drop_app_length'; [done|]. by rewrite length_rev, length_skipn.
Qed.

(** The history of a process: when [start_run] succeeds, the listing of the
    process's runs is the new run, marked running, before the earlier ones, cut to
    the 50 newest; and the entries stay runs of the process under their own keys,
    so that the next run again comes first. *)
Theorem start_run_keeps_newest now seq rid pid (st st' : RocksStore DB) run :
  runs_below st pid seq -> (0 <= seq < u64_digits)%Z ->
  start_run now seq rid pid st = (Ok run, st') ->
  run = new_run now seq pid rid /\ runs_below st' pid (seq + 1)
  /\ forall old new, list_runs st pid = Ok old -> list_runs st' pid = Ok new -> new = take MAX_PROCESS_RUNS_KEPT (run :: old).
Proof.
  intros Hb Hseq Hst. split_and!.
  - by apply start_run_steps in Hst as (? & ? & ? & ? & ? & _).
  - intros k u Hk Hp. pose proof Hst as (v & w & c & st2 & -> & Hd & Hv2 & Hc2 & Hpr)%start_run_steps.
    apply stm_bind_Ok in Hpr as (ks & st3 & Hks & Hpr). injection Hks as Hks <-.
    assert (view st2 !! (cf_PROCESS_RUNS, k) = Some u /\ rs_cipher st' = rs_cipher st2) as [Hk2 ->].
    { destruct (length ks <=? _); [by injection Hpr as <-|].
      apply stm_bind_Ok in Hpr as ([] & st4 & Hcf & Hpr). injection Hcf as _ <-.
      apply delete_keys_ok in Hpr as [Hv' Hc']. rewrite Hv' in Hk. by apply delete_all_Some in Hk as [? _]. }
    rewrite Hc2. rewrite Hv2, lookup_insert_ne in Hk2 by done. apply lookup_insert_Some in Hk2 as [[[= <-] <-]|[_ Hk2]].
    + exists (new_run now seq pid rid). split_and!; [done..| |]; cbn; lia.
    + destruct (Hb _ _ Hk2 Hp) as (r & ? & ? & ? & ?). exists r. repeat (split; [done|]). lia.
  - intros old new (l & Hl & HF)%list_runs_ok (l2 & Hl2 & HF2)%list_runs_ok.
    destruct (start_run_listing _ _ _ _ _ _ _ _ Hb ltac:(lia) Hst Hl) as (v & Hd & Hc & _ & Hl').
    rewrite (listing_unique _ _ _ _ _ Hl2 Hl'), Hc in HF2.
    assert (rev new = drop (S (length old) - MAX_PROCESS_RUNS_KEPT) (rev old ++ [run])) as E.
    { eapply Forall2_unique_r; [|exact HF2|]; [intros a b b' E1 E2; cbn in *; congruence|].
      rewrite length_app, (Forall2_length _ _ _ HF), length_rev, Nat.add_1_r.
      apply Forall2_drop, Forall2_app; [done|]. by repeat constructor. }
    by rewrite <-(rev_involutive new), E, rev_drop_excess.
Qed.
End Runs.

(** * The vault *)
Section VaultProps.
Context {DB : Type} `{RocksDBLaws DB} `{Aead} `{SerdeOk SecretRecord}.
Abbreviation view st := (db_view (rs_db st)).

Lemma vault_get_ok (st : RocksStore DB) name r :
  vault_get st name = Ok r ->
  match r with
  | Some x => exists v, view st !! (cf_SECRETS, string_to_bytes name) = Some v
                /\ table_decode VaultError_Store VaultError_Serde (rs_cipher st) v = Ok x
  | None => view st !! (cf_SECRETS, string_to_bytes name) = None
  end.
Proof. unfold vault_get. intros (_ & _ & Hg)%result_bind_Ok. by apply table_get_ok in Hg. Qed.

(** Storing a secret: a stored secret has a valid name and a value of at most
    8 KiB; reading it back gives the value and description just stored, with the
    creation time of the secret it replaces; other secrets are as before. *)
Theorem vault_put_then_get now name value desc (st st' : RocksStore DB) meta :
  vault_put now name value desc st = (Ok meta, st') ->
  validate_secret_name name = Ok tt /\ (str_len value <= MAX_SECRET_VALUE_BYTES)%Z
  /\ (exists before, vault_get st name = Ok before
      /\ forall r, vault_get st' name = Ok r ->
         r = Some {| sr_name := name; sr_value := value; sr_description := desc;
                     sr_created_at := match before with Some e => sr_created_at e | None => now end; sr_updated_at := now |}
         /\ secret_metadata <$> r = Some meta)
  /\ (forall name' r r', name' <> name -> vault_get st name' = Ok r -> vault_get st' name' = Ok r' -> r' = r).
Proof.
  unfold vault_put. intros ([] & st0 & Hn & Hp)%stm_bind_Ok. injection Hn as Hn <-.
  destruct (Z.ltb_spec MAX_SECRET_VALUE_BYTES (str_len value)) as [|Hlen]; [done|].
  apply stm_bind_Ok in Hp as (before & st0 & Hb & Hp). injection Hb as Hb <-.
  apply stm_bind_Ok in Hp as ([] & st1 & Hput & Hp). injection Hp as <- <-.
  apply (table_put_ok VaultError_Store VaultError_Serde) in Hput as (v & Hv & Hc & Hd).
  split_and!; [done|lia| |].
  - exists before. split; [done|]. intros r Hr%vault_get_ok. rewrite Hv, Hc, lookup_insert_eq in Hr.
    destruct r as [x|]; [|done]. destruct Hr as (v' & [= <-] & Hx). rewrite Hd in Hx. injection Hx as <-. done.
  - intros name' r r' Hne Hr%vault_get_ok Hr'%vault_get_ok.
    rewrite Hv, Hc, lookup_insert_ne in Hr' by (intros [= E%string_to_bytes_inj]; congruence).
    destruct r as [x|], r' as [x'|]; [|by destruct Hr as (? & ? & _); congruence|by destruct Hr' as (? & ? & _); congruence|done].
    destruct Hr as (v1 & H1' & D1), Hr' as (v2 & H2' & D2). simplify_eq. rewrite D1 in D2. by simplify_eq.
Qed.
End VaultProps.

(** * Examples *)
Module SideStoreExample.
Definition nightly : ProcessRecord := {|
  pr_id := "p1"; pr_name := "nightly"; pr_description := None; pr_cron := "0 3 * * *"; pr_prompt := "report";
  pr_config := None; pr_enabled := true; pr_created_at := 0; pr_updated_at := 0; pr_last_run_at := None; pr_next_run_at := Some 100%Z |}.
Definition disable : ProcessUpdate := {|
  pu_name := None; pu_description := None; pu_cron := None; pu_prompt := None; pu_config := None; pu_enabled := Some false |}.
Definition disabled : ProcessRecord := {|
  pr_id := "p1"; pr_name := "nightly"; pr_description := None; pr_cron := "0 3 * * *"; pr_prompt := "report";
  pr_config := None; pr_enabled := false; pr_created_at := 0; pr_updated_at := 7; pr_last_run_at := None; pr_next_run_at := Some 107%Z |}.
#[local] Instance every_hundred : Cron := fun _ => Ok (fun t => Some (t + 100)%Z).
#[local] Instance record_eq_dec : EqDecision ProcessRecord. Proof. solve_decision. Defined.
#[local] Instance status_eq_dec : EqDecision ProcessRunStatus. Proof. solve_decision. Defined.
#[local] Instance run_eq_dec : EqDecision ProcessRunRecord. Proof. solve_decision. Defined.
#[local] Instance secret_eq_dec : EqDecision SecretRecord. Proof. solve_decision. Defined.
#[local] Instance record_serde : Serde ProcessRecord := table_serde [nightly; disabled; stamped 8 nightly (Some 108%Z)].
#[local] Instance record_serde_ok : SerdeOk ProcessRecord := table_serde_ok _.
#[local] Instance run_serde : Serde ProcessRunRecord := table_serde [new_run 8 8 "p1" "r1"].
#[local] Instance run_serde_ok : SerdeOk ProcessRunRecord := table_serde_ok _.
Definition old_secret : SecretRecord := {| sr_name := "key"; sr_value := "a"; sr_description := None; sr_created_at := 1; sr_updated_at := 1 |}.
Definition new_secret : SecretRecord := {| sr_name := "key"; sr_value := "b"; sr_description := None; sr_created_at := 1; sr_updated_at := 5 |}.
#[local] Instance secret_serde : Serde SecretRecord := table_serde [old_secret; new_secret].
#[local] Instance secret_serde_ok : SerdeOk SecretRecord := table_serde_ok _.
#[local] Existing Instance toy_aead.
Definition nonce : arr 12 := arr_fill 12 "002"%byte.
Definition store0 : RocksStore MemDB :=
  MkRocksStore {| mem_content := <[(cf_PROCESSES, string_to_bytes "p1") := [byte_of_Z 0]]>
                                 (<[(cf_SECRETS, string_to_bytes "key") := [byte_of_Z 0]]> ∅) |} None (fun _ => nonce).

Lemma pair_of_fst {A B} (p : A * B) a : p.1 = a -> p = (a, p.2).
Proof. destruct p. by intros <-. Qed.
Definition started : RocksStore MemDB := (start_run 8 8 "r1" "p1" store0).2.
Definition stored : RocksStore MemDB := (vault_put 5 "key" "b" None store0).2.
Definition updated : RocksStore MemDB := (process_update 7 "p1" disable store0).2.

Lemma start_run_keeps_newest_witness :
  start_run 8 8 "r1" "p1" store0 = (Ok (new_run 8 8 "p1" "r1"), started) /\ runs_below started "p1" 9.
Proof.
  assert (start_run 8 8 "r1" "p1" store0 = (Ok (new_run 8 8 "p1" "r1"), started)) as E
    by (apply pair_of_fst; vm_compute; reflexivity).
  split; [exact E|].
  refine (proj1 (proj2 (start_run_keeps_newest 8 8 "r1" "p1" store0 _ (new_run 8 8 "p1" "r1") _ _ E))).
  - intros k v Hk _. cbn in Hk. apply lookup_insert_Some in Hk as [[[=] _]|[_ Hk]].
    apply lookup_insert_Some in Hk as [[[=] _]|[_ Hk]]. by rewrite lookup_empty in Hk.
  - unfold u64_digits. lia.
Defined.
Lemma vault_put_then_get_witness :
  vault_put 5 "key" "b" None store0 = (Ok (secret_metadata new_secret), stored)
  /\ vault_get stored "key" = Ok (Some new_secret) /\ validate_secret_name "key" = Ok tt.
Proof.
  assert (vault_put 5 "key" "b" None store0 = (Ok (secret_metadata new_secret), stored)) as E
    by (apply pair_of_fst; vm_compute; reflexivity).
  split; [exact E|]. split; [vm_compute; reflexivity|].
  exact (proj1 (vault_put_then_get 5 "key" "b" None store0 _ (secret_metadata new_secret) E)).
Defined.

(** A run that started from the record read before the process was disabled
    writes that record back: the process is enabled again. *)
Lemma start_run_undoes_update :
  process_get store0 "p1" = Ok (Some nightly)
  /\ (process_update 7 "p1" disable store0).1 = Ok disabled
  /\ process_get updated "p1" = Ok (Some disabled)
  /\ (start_run_with 8 8 "r1" nightly "p1" updated).1 = Ok (new_run 8 8 "p1" "r1")
  /\ process_get (start_run_with 8 8 "r1" nightly "p1" updated).2 "p1" = Ok (Some (stamped 8 nightly (Some 108%Z))).
Proof. vm_compute. repeat split. Qed.
End SideStoreExample.
