(* ===== verification/Exec.v ===== *)
(** Executors, their router and the decoding of tool effects
    ([aura-exec-traits/src/executor.rs], [router.rs]).

    An executor is foreign code: a name, the actions it accepts, and its run as
    a function of the environment's state [E].  The router and the decoding are
    the crate's own. *)
From S2P Require Import Prelude Values CoreTypes Utf8.
From stdpp Require Import list.
From Stdlib Require Import Strings.Byte.

(** * Record payloads ([aura-store-record], [aura-store-snapshot])

    Record payloads ([aura-store-record/src/payload.rs]) and the snapshot
    store they point to ([aura-store-snapshot/src/lib.rs]). *)
Definition DEFAULT_SUMMARY_CHUNK_BYTES : Z := 1024.

Inductive RecordPayload :=
| RecordPayload_Inline (b : bytes)
| RecordPayload_Summary (head tail : bytes) (full_hash : string) (full_len : Z).
#[export] Instance RecordPayload_eq_dec : EqDecision RecordPayload.
Proof. solve_decision. Defined.

Section Summary.
Context `{Blake3} `{Hex}.

(** [blake3::hash(b).to_hex()]. *)
Definition blake3_hex (b : bytes) : string := hex_encode (arr_bytes (blake3_hash b)).

Definition summarize_payload (b : bytes) (threshold : Z) : RecordPayload :=
  let len := Z.of_nat (length b) in
  if bool_decide (len <= threshold)%Z then RecordPayload_Inline b
  else
    let chunk := Z.min DEFAULT_SUMMARY_CHUNK_BYTES (len / 2) in
    RecordPayload_Summary (take (Z.to_nat chunk) b) (drop (Z.to_nat (len - chunk)) b)
      (blake3_hex b) len.

(** The audited-lite summary is faithful: a payload within the threshold is
    kept whole; a longer one is summarised by a prefix and a suffix that do not
    overlap (the payload is the prefix, some middle, and the suffix), each of
    the smaller of 1024 and half the length, with the digest and the length of
    the whole payload. *)
Theorem summarize_payload_spec b threshold :
  match summarize_payload b threshold with
  | RecordPayload_Inline b' => b' = b /\ (Z.of_nat (length b) <= threshold)%Z
  | RecordPayload_Summary head tail full_hash full_len =>
      (threshold < Z.of_nat (length b))%Z
      /\ (exists middle, b = head ++ middle ++ tail)
      /\ Z.of_nat (length head) = Z.min 1024 (Z.of_nat (length b) / 2)
      /\ length tail = length head
      /\ full_hash = blake3_hex b /\ full_len = Z.of_nat (length b)
  end.
Proof.
  unfold summarize_payload, DEFAULT_SUMMARY_CHUNK_BYTES. case_bool_decide as E; [done|].
  set (len := Z.of_nat (length b)) in *. set (chunk := Z.min 1024 (len / 2)).
  assert (0 <= chunk /\ 2 * chunk <= len)%Z as [Hc Hc2].
  { unfold chunk, len. pose proof (Z.mul_div_le (Z.of_nat (length b)) 2). split; [|lia].
    apply Z.min_glb; [lia|]. apply Z.div_pos; lia. }
  split_and!.
  - lia.
  - exists (take (Z.to_nat (len - 2 * chunk)) (drop (Z.to_nat chunk) b)).
    rewrite <-(take_drop (Z.to_nat chunk) b) at 1. f_equal.
    rewrite <-(take_drop (Z.to_nat (len - 2 * chunk)) (drop (Z.to_nat chunk) b)) at 1. f_equal.
    rewrite drop_drop. f_equal. lia.
  - rewrite length_take. unfold len in *. lia.
  - rewrite length_take, length_drop. unfold len in *. lia.
  - done.
  - done.
Qed.
End Summary.

(** * Snapshots *)
Inductive SnapshotError := SnapshotError_Backend (message : string).

(** What replay asks of a snapshot store. *)
Record SnapshotStore := { snapshot_get : string -> result SnapshotError (option bytes) }.

Definition NoopSnapshotStore : SnapshotStore := {| snapshot_get := fun _ => Ok None |}.

(** * Context *)
Record ExecuteLimits := {
  read_bytes : Z;
  write_bytes : Z;
  command_timeout_secs : Z;
  stdout_bytes : Z;
  stderr_bytes : Z;
}.
Definition ExecuteLimits_default : ExecuteLimits :=
  {| read_bytes := 5 * 1024 * 1024; write_bytes := 1024 * 1024; command_timeout_secs := 10;
     stdout_bytes := 256 * 1024; stderr_bytes := 256 * 1024 |}.

Record ExecuteContext := {
  ec_agent_id : AgentId;
  ec_action_id : ActionId;
  ec_workspace_root : string;
  ec_limits : ExecuteLimits;
  ec_tool_use_id : option string;
}.
Definition ExecuteContext_new (agent_id : AgentId) (action_id : ActionId) (workspace_root : string)
  : ExecuteContext :=
  {| ec_agent_id := agent_id; ec_action_id := action_id; ec_workspace_root := workspace_root;
     ec_limits := ExecuteLimits_default; ec_tool_use_id := None |}.
Definition with_limits (c : ExecuteContext) (l : ExecuteLimits) : ExecuteContext :=
  {| ec_agent_id := ec_agent_id c; ec_action_id := ec_action_id c;
     ec_workspace_root := ec_workspace_root c; ec_limits := l; ec_tool_use_id := ec_tool_use_id c |}.
Definition with_tool_use_id (c : ExecuteContext) (value : string) : ExecuteContext :=
  if trim_is_empty value then c
  else {| ec_agent_id := ec_agent_id c; ec_action_id := ec_action_id c;
          ec_workspace_root := ec_workspace_root c; ec_limits := ec_limits c;
          ec_tool_use_id := Some value |}.

Inductive ExecutorError :=
| ExecutorError_NotFound (name : string)
| ExecutorError_ExecutionFailed (message : string)
| ExecutorError_Other (message : string).
Definition ExecutorError_display (e : ExecutorError) : string :=
  match e with
  | ExecutorError_NotFound n => "executor not found: " +++ n
  | ExecutorError_ExecutionFailed m => "execution failed: " +++ m
  | ExecutorError_Other m => m
  end.

(** * Router *)
Record Executor (E : Type) := {
  ex_name : string;
  ex_can_handle : Action -> bool;
  ex_execute : ExecuteContext -> Action -> E -> result ExecutorError Effect * E;
}.
Arguments ex_name {E} _.
Arguments ex_can_handle {E} _ _.
Arguments ex_execute {E} _ _ _ _.

Definition failed_effect (action : Action) (message : string) : Effect :=
  Effect_new (action_id action) EffectKind_Agreement EffectStatus_Failed (string_to_bytes message).

(** [ExecutorRouter::execute] in a release build. *)
Definition router_execute {E} (executors : list (Executor E)) (ctx : ExecuteContext)
    (action : Action) (env : E) : Effect * E :=
  match List.filter (fun e => ex_can_handle e action) executors with
  | [] => (failed_effect action "No executor available for action", env)
  | [executor] =>
      match ex_execute executor ctx action env with
      | (Ok effect, env') => (effect, env')
      | (Err e, env') => (failed_effect action ("Executor error: " +++ ExecutorError_display e), env')
      end
  | matches =>
      (failed_effect action
         ("ambiguous executor routing: " +++ fmt_Z (Z.of_nat (length matches)) +++ " executors match"),
       env)
  end.

(** The executor an action is dispatched to: the only one that accepts it. *)
Definition routes_to {E} (executors : list (Executor E)) (action : Action) (executor : Executor E) : Prop :=
  List.filter (fun e => ex_can_handle e action) executors = [executor].

(** The router never guesses.  An executor is run only when it is the only
    one that accepts the action, and then the effect is its own (or a failure
    that carries its error); with none or several the effect is a failure of
    that action and no executor runs. *)
Theorem router_execute_unambiguous {E} (executors : list (Executor E)) ctx action env :
  (exists executor, routes_to executors action executor /\ executor ∈ executors
     /\ ex_can_handle executor action = true
     /\ router_execute executors ctx action env
        = match ex_execute executor ctx action env with
          | (Ok effect, env') => (effect, env')
          | (Err e, env') =>
              (failed_effect action ("Executor error: " +++ ExecutorError_display e), env')
          end)
  \/ ((forall executor, ~ routes_to executors action executor)
      /\ exists message, router_execute executors ctx action env = (failed_effect action message, env)).
Proof.
  unfold router_execute, routes_to.
  destruct (List.filter _ executors) as [|x [|y l]] eqn:Ef.
  - right. split; [done|]. eauto.
  - left. exists x. assert (List.In x (List.filter (fun e => ex_can_handle e action) executors))
      as [Hin Hc]%List.filter_In by (rewrite Ef; by left).
    split_and!; [done|by apply list_elem_of_In|done|done].
  - right. split; [done|]. eauto.
Qed.

(** * Decoding effects *)
Record DecodedToolResult := {
  dt_content : string;
  dt_is_error : bool;
  dt_kind : ToolResultKind;
  dt_metadata : gmap string string;
  dt_line_diff : option LineDiff;
  dt_image : option ToolResultImage;
}.

Definition command_exit_code (r : ToolResult) : option Z :=
  match tr_exit_code r with
  | Some c => Some c
  | None => code ← tr_metadata r !! "exit_code"; parse_i32 code
  end.

(** [serde_json::Value::to_string]. *)
Class JsonText := json_to_string : json -> string.

Section Decode.
Context `{JsonText} `{Serde ToolResult}.

Definition decode_committed_content (r : ToolResult) : string :=
  let exit_code := command_exit_code r in
  if bool_decide (tr_tool r = "run_command") || bool_decide (is_Some exit_code) then
    json_to_string (JObject
      [("ok", JBool (tr_ok r));
       ("exit_code", match exit_code with Some c => JNumber (fmt_Z c) | None => JNull end);
       ("stdout", JString (from_utf8_lossy (tr_stdout r)));
       ("stderr", JString (from_utf8_lossy (tr_stderr r)))])
  else if negb (tr_ok r) && negb (bool_decide (tr_stderr r = [])) then from_utf8_lossy (tr_stderr r)
  else if negb (bool_decide (tr_stdout r = [])) then from_utf8_lossy (tr_stdout r)
  else if tr_ok r then "Success (no output)"
  else "Tool execution failed (no details)".

Definition decode_tool_effect (effect : Effect) : DecodedToolResult :=
  if bool_decide (effect_status effect = EffectStatus_Committed) then
    match from_slice (effect_payload effect) : result serde_error ToolResult with
    | Ok r =>
        {| dt_content := decode_committed_content r; dt_is_error := negb (tr_ok r);
           dt_kind := tr_kind r; dt_metadata := tr_metadata r; dt_line_diff := tr_line_diff r;
           dt_image := tr_image r |}
    | Err e =>
        {| dt_content := "Tool result could not be parsed: " +++ e +++ ". Raw: "
                          +++ from_utf8_lossy (effect_payload effect);
           dt_is_error := true; dt_kind := ToolResultKind_AgentError; dt_metadata := ∅;
           dt_line_diff := None; dt_image := None |}
    end
  else
    let '(content, kind) :=
      match from_slice (effect_payload effect) : result serde_error ToolResult with
      | Ok r => (from_utf8_lossy (tr_stderr r), tr_kind r)
      | Err _ =>
          let raw := from_utf8_lossy (effect_payload effect) in
          (if bool_decide (raw = "") then "Tool execution failed" else raw, ToolResultKind_AgentError)
      end in
    {| dt_content := content; dt_is_error := true; dt_kind := kind; dt_metadata := ∅;
       dt_line_diff := None; dt_image := None |}.

(** A tool result is reported as a success exactly when the effect was
    committed and its payload is a tool result that says so; everything else
    (a failed effect, an unreadable payload, a failed result) is an error, and
    an error carries an image or line counts only if the tool itself reported
    the failure. *)
Theorem decode_tool_effect_success effect :
  (dt_is_error (decode_tool_effect effect) = false <->
   effect_status effect = EffectStatus_Committed
   /\ exists r : ToolResult, from_slice (effect_payload effect) = Ok r /\ tr_ok r = true)
  /\ (effect_status effect <> EffectStatus_Committed ->
      dt_is_error (decode_tool_effect effect) = true
      /\ dt_image (decode_tool_effect effect) = None
      /\ dt_line_diff (decode_tool_effect effect) = None).
Proof.
  unfold decode_tool_effect. case_bool_decide as Es; [|].
  - split; [|done]. destruct (from_slice _) as [r|e] eqn:Er; cbn.
    + rewrite negb_false_iff. naive_solver.
    + split; [done|]. intros (_ & r & Hr & _). done.
  - destruct (from_slice _) as [r|e] eqn:Er; cbn; naive_solver.
Qed.
End Decode.
