(* ===== verification/Context.v ===== *)
(** Kernel errors ([aura-agent-kernel/src/lib.rs], [replay.rs]) and the context
    hash ([context/mod.rs]).

    The context hash of an entry covers its transaction and the context hashes
    of the window of entries before it.  [log_valid] is the record log's
    central invariant: entry number [n] carries sequence number [n] and the
    context hash recomputed from the [W] entries before it. *)
From S2P Require Import Prelude Values Permissions CoreTypes Keys StoreSpec Utf8 Exec.
From stdpp Require Import list.
From Stdlib Require Import Strings.Byte.

(** * What the kernel sees of the model provider *)
Inductive ToolResultContent :=
| ToolResultContent_Text (text : string)
| ToolResultContent_Json (value : json).
Record ImageSource := { source_type : string; source_media_type : string; source_data : string }.
Inductive ContentBlock :=
| ContentBlock_Text (text : string)
| ContentBlock_Thinking (thinking : string) (signature : option string)
| ContentBlock_Image (source : ImageSource)
| ContentBlock_ToolUse (id name : string) (input : json)
| ContentBlock_ToolResult (tool_use_id : string) (content : ToolResultContent) (is_error : bool).
Inductive StopReason :=
| StopReason_EndTurn | StopReason_ToolUse | StopReason_MaxTokens | StopReason_StopSequence.
Definition StopReason_debug (s : StopReason) : string :=
  match s with
  | StopReason_EndTurn => "EndTurn" | StopReason_ToolUse => "ToolUse"
  | StopReason_MaxTokens => "MaxTokens" | StopReason_StopSequence => "StopSequence"
  end.
Record Usage := {
  usage_input_tokens : Z;
  usage_output_tokens : Z;
  usage_cache_creation_input_tokens : option Z;
  usage_cache_read_input_tokens : option Z;
}.
Definition Usage_new (input_tokens output_tokens : Z) : Usage :=
  {| usage_input_tokens := input_tokens; usage_output_tokens := output_tokens;
     usage_cache_creation_input_tokens := None; usage_cache_read_input_tokens := None |}.

(** The provider's request, response and error types, with the parts of a
    response that reach the record. *)
Class ModelTypes := {
  ModelRequest : Type;
  ModelResponse : Type;
  ReasonerError : Type;
  reasoner_error_display : ReasonerError -> string;
  response_model : ModelResponse -> string;
  response_stop_reason : ModelResponse -> StopReason;
  response_usage : ModelResponse -> Usage;
  response_content : ModelResponse -> list ContentBlock;
}.

(** * Errors *)
Inductive ReplayError :=
| ReplayError_ContextDivergence (seq : Z) (expected actual : string)
| ReplayError_SnapshotMissing (seq : Z) (full_hash : string)
| ReplayError_Store (seq : Z) (message : string)
| ReplayError_Deserialization (seq : Z) (message : string).

Inductive KernelError `{ModelTypes} :=
| KernelError_Store (message : string)
| KernelError_Reasoner (e : ReasonerError)
| KernelError_Timeout (message : string)
| KernelError_Serialization (message : string)
| KernelError_Replay (e : ReplayError)
| KernelError_Internal (message : string).

(** The [Display] of an agent id and of a store error ([error.rs]). *)
Definition id_display `{Hex} {n} (id : arr n) : string := String.substring 0 16 (id_to_hex id).

Definition StoreError_display `{Hex} (e : StoreError) : string :=
  match e with
  | StoreError_RocksDb m => "RocksDB error: " +++ m
  | StoreError_Serialization m => "serialization error: " +++ m
  | StoreError_Deserialization m => "deserialization error: " +++ m
  | StoreError_AgentNotFound a => "agent not found: " +++ id_display a
  | StoreError_RecordEntryNotFound a s =>
      "record entry not found: agent=" +++ id_display a +++ ", seq=" +++ fmt_Z s
  | StoreError_TransactionNotFound t => "transaction not found: " +++ id_display t
  | StoreError_InboxEmpty a => "inbox empty for agent: " +++ id_display a
  | StoreError_SequenceMismatch expected actual =>
      "sequence mismatch: expected " +++ fmt_Z expected +++ ", got " +++ fmt_Z actual
  | StoreError_ColumnFamilyNotFound m => "column family not found: " +++ m
  | StoreError_InvalidKey m => "invalid key format: " +++ m
  | StoreError_InboxCorruption a s =>
      "inbox corruption: agent=" +++ id_display a +++ ", expected seq=" +++ fmt_Z s
  end.

(** * The context hash *)
Section Hash.
Context `{Blake3} `{ModelTypes} `{!Serde Transaction}.

Definition hash_tx_with_window (tx : Transaction) (window : list RecordEntry)
  : result KernelError ContextHash :=
  tx_bytes ← map_err (fun e => KernelError_Serialization ("serialize tx: " +++ e)) (to_vec tx);
  let hasher := Hasher_update Hasher_new tx_bytes in
  let hasher := foldl (fun h e => Hasher_update h (arr_bytes (re_context_hash e))) hasher window in
  Ok (Hasher_finalize hasher : ContextHash).

(** What is digested. *)
Definition context_bytes (tx_bytes : bytes) (window : list RecordEntry) : bytes :=
  tx_bytes ++ concat ((fun e => arr_bytes (re_context_hash e)) <$> window).

Lemma hash_tx_with_window_eq tx window tx_bytes :
  to_vec tx = Ok tx_bytes ->
  hash_tx_with_window tx window = Ok (blake3_hash (context_bytes tx_bytes window)).
Proof.
  intros Hv. unfold hash_tx_with_window. rewrite Hv. unfold mbind, result_bind. cbn [map_err].
  unfold Hasher_finalize, Hasher_update, Hasher_new, context_bytes. f_equal.
  etrans; [|apply (blake3_parts (tx_bytes :: ((fun e => arr_bytes (re_context_hash e)) <$> window)))].
  cbn [foldl]. f_equal. generalize (blake3_update blake3_new tx_bytes).
  induction window as [|e window IH]; intros h; [done|]. cbn. apply IH.
Qed.

Lemma hash_tx_with_window_Ok tx window h :
  hash_tx_with_window tx window = Ok h ->
  exists tx_bytes, to_vec tx = Ok tx_bytes /\ h = blake3_hash (context_bytes tx_bytes window).
Proof.
  intros Hh. destruct (to_vec tx) as [b|e] eqn:Ev.
  - exists b. split; [done|]. rewrite (hash_tx_with_window_eq _ _ b) in Hh by done. by injection Hh.
  - unfold hash_tx_with_window in Hh. by rewrite Ev in Hh.
Qed.

Lemma concat_hashes_inj (w w' : list RecordEntry) (b b' : bytes) :
  length w = length w' ->
  b ++ concat ((fun e => arr_bytes (re_context_hash e)) <$> w)
  = b' ++ concat ((fun e => arr_bytes (re_context_hash e)) <$> w') ->
  b = b' /\ re_context_hash <$> w = re_context_hash <$> w'.
Proof.
  revert w'. induction w as [|e w IH] using rev_ind; intros w' Hl Heq.
  { destruct w'; [|done]. cbn in *. by rewrite !app_nil_r in Heq. }
  destruct w' as [|e' w' _] using rev_ind; [by rewrite length_app in Hl; cbn in Hl; lia|].
  rewrite !length_app in Hl. cbn in Hl.
  rewrite !fmap_app, !concat_app in Heq. cbn in Heq. rewrite !app_nil_r, !app_assoc in Heq.
  apply app_inj_2 in Heq as [Heq He]; [|by rewrite !arr_length].
  destruct (IH w' ltac:(lia) Heq) as [-> Hw]. split; [done|].
  rewrite !fmap_app, Hw. cbn. by rewrite (arr_eq _ _ He).
Qed.

(** C34: A context hash commits to the transaction and to the whole window of
    context hashes before it: two inputs over windows of equal length with the
    same hash are the same transaction over the same hashes, unless the two
    byte strings that were digested are a collision of the digest. *)
Theorem context_hash_binds `{!SerdeOk Transaction} tx tx' w w' h :
  hash_tx_with_window tx w = Ok h -> hash_tx_with_window tx' w' = Ok h -> length w = length w' ->
  (tx = tx' /\ re_context_hash <$> w = re_context_hash <$> w')
  \/ exists b b', to_vec tx = Ok b /\ to_vec tx' = Ok b'
       /\ context_bytes b w <> context_bytes b' w'
       /\ blake3_hash (context_bytes b w) = blake3_hash (context_bytes b' w').
Proof.
  intros (b & Hb & ->)%hash_tx_with_window_Ok (b' & Hb' & Heq)%hash_tx_with_window_Ok Hl.
  destruct (decide (context_bytes b w = context_bytes b' w')) as [E|Hne].
  - left. destruct (concat_hashes_inj w w' b b' Hl E) as [-> Hw]. split; [|done].
    by eapply to_vec_inj.
  - right. exists b, b'. done.
Qed.

(** ** The record summaries handed to the reasoner *)
Record RecordSummary := {
  rs_seq : Z;
  rs_tx_kind : string;
  rs_action_kinds : list ActionKind;
  rs_payload_summary : option string;
}.
Record KernelContext := { ctx_context_hash : ContextHash; ctx_record_summaries : list RecordSummary }.
Record ContextBuilder := { cb_tx : Transaction; cb_record_window : list RecordEntry }.

Definition TransactionType_debug (t : TransactionType) : string :=
  match t with
  | TransactionType_UserPrompt => "UserPrompt" | TransactionType_AgentMsg => "AgentMsg"
  | TransactionType_Trigger => "Trigger" | TransactionType_ActionResult => "ActionResult"
  | TransactionType_System => "System" | TransactionType_SessionStart => "SessionStart"
  | TransactionType_ToolProposal => "ToolProposal" | TransactionType_ToolExecution => "ToolExecution"
  | TransactionType_PolicyDecision => "PolicyDecision"
  | TransactionType_ProcessComplete => "ProcessComplete"
  | TransactionType_Reasoning => "Reasoning" | TransactionType_SubagentSpawn => "SubagentSpawn"
  end.

Definition ContextBuilder_new (tx : Transaction) : result serde_error ContextBuilder :=
  _ ← to_vec tx;
  Ok {| cb_tx := tx; cb_record_window := [] |}.
Definition with_record_window (b : ContextBuilder) (entries : list RecordEntry) : ContextBuilder :=
  {| cb_tx := cb_tx b; cb_record_window := entries |}.

Definition ReplayError_display (e : ReplayError) : string :=
  match e with
  | ReplayError_ContextDivergence seq expected actual =>
      "context divergence at seq " +++ fmt_Z seq +++ ": expected " +++ expected
      +++ ", recomputed " +++ actual
  | ReplayError_SnapshotMissing seq full_hash =>
      "snapshot missing for seq " +++ fmt_Z seq +++ ": full_hash " +++ full_hash
  | ReplayError_Store seq m => "store error at seq " +++ fmt_Z seq +++ ": " +++ m
  | ReplayError_Deserialization seq m => "deserialization error at seq " +++ fmt_Z seq +++ ": " +++ m
  end.
Definition KernelError_display (e : KernelError) : string :=
  match e with
  | KernelError_Store m => "store error: " +++ m
  | KernelError_Reasoner e => "reasoner error: " +++ reasoner_error_display e
  | KernelError_Timeout m => "timeout: " +++ m
  | KernelError_Serialization m => "serialization error: " +++ m
  | KernelError_Replay e => "replay error: " +++ ReplayError_display e
  | KernelError_Internal m => m
  end.

Definition record_summary `{Hex} (entry : RecordEntry) : RecordSummary :=
  {| rs_seq := re_seq entry; rs_tx_kind := TransactionType_debug (tx_type (re_tx entry));
     rs_action_kinds := action_kind <$> re_actions entry;
     rs_payload_summary :=
       Some ("blake3:" +++ String.substring 0 16 (blake3_hex (tx_payload (re_tx entry)))) |}.

Definition context_build `{Hex} (b : ContextBuilder) : result KernelError KernelContext :=
  context_hash ← map_err (fun e => KernelError_Internal ("context hash: " +++ KernelError_display e))
                   (hash_tx_with_window (cb_tx b) (cb_record_window b));
  Ok {| ctx_context_hash := context_hash; ctx_record_summaries := record_summary <$> cb_record_window b |}.

(** * Valid logs *)

(** The window of the entry at index [i]: the [w] entries before it. *)
Definition prior_window (w : Z) (log : list RecordEntry) (i : nat) : list RecordEntry :=
  drop (i - Z.to_nat w) (take i log).

Definition entry_valid (w : Z) (log : list RecordEntry) (i : nat) (e : RecordEntry) : Prop :=
  re_seq e = (Z.of_nat i + 1)%Z
  /\ hash_tx_with_window (re_tx e) (prior_window w log i) = Ok (re_context_hash e).

Definition log_valid (w : Z) (log : list RecordEntry) : Prop :=
  forall i e, log !! i = Some e -> entry_valid w log i e.

Lemma prior_window_prefix w log log' i :
  log `prefix_of` log' -> i <= length log -> prior_window w log' i = prior_window w log i.
Proof. intros [l ->] Hi. unfold prior_window. by rewrite take_app_le. Qed.

Lemma log_valid_nil w : log_valid w [].
Proof. intros i e Hi. by rewrite lookup_nil in Hi. Qed.

Lemma log_valid_prefix w log log' : log `prefix_of` log' -> log_valid w log' -> log_valid w log.
Proof.
  intros Hp Hv i e Hi. pose proof (lookup_lt_Some _ _ _ Hi).
  destruct (Hv i e) as [Hs Hh]; [by eapply prefix_lookup_Some|].
  split; [done|]. by rewrite <-(prior_window_prefix w log log') by (done || lia).
Qed.

Lemma log_valid_snoc w log e :
  log_valid w log -> entry_valid w log (length log) e -> log_valid w (log ++ [e]).
Proof.
  intros Hv [Hs Hh] i e' [[Hlt Hi]|[-> <-]]%lookup_snoc_Some.
  - destruct (Hv i e' Hi) as [Hs' Hh']. split; [done|].
    by rewrite (prior_window_prefix w log) by (by eexists || lia).
  - split; [done|]. by rewrite (prior_window_prefix w log) by (by eexists || lia).
Qed.

(** ** Rules for context hashes

    Not every entry of a real log is hashed over the window before it: a record of
    a streamed model call is hashed over the window its handle captured, a system
    record over the last fifty entries.  A [HashRule] says of an entry which hash
    it may have after the entries before it. *)
Class HashRule := entry_hashed : list RecordEntry -> RecordEntry -> Prop.
Definition hashed_over (e : RecordEntry) (window : list RecordEntry) : Prop :=
  hash_tx_with_window (re_tx e) window = Ok (re_context_hash e).
(** The last [w] entries. *)
Definition last_window (w : Z) (log : list RecordEntry) : list RecordEntry := drop (length log - Z.to_nat w) log.
Definition entry_follows `{HashRule} (log : list RecordEntry) (e : RecordEntry) : Prop :=
  re_seq e = (Z.of_nat (length log) + 1)%Z /\ entry_hashed log e.
Definition log_follows `{HashRule} (log : list RecordEntry) : Prop :=
  forall i e, log !! i = Some e -> re_seq e = (Z.of_nat i + 1)%Z /\ entry_hashed (take i log) e.

(** The rule of [log_valid]. *)
Definition exact_rule (w : Z) : HashRule := fun log e => hashed_over e (last_window w log).
(** What kernels write: an entry is hashed over the [w] entries before it; a system
    record over the last fifty; the record of a streamed call over a stretch of
    earlier entries; the entries of a spawn over none. *)
Inductive kernel_hashed (w : Z) (log : list RecordEntry) (e : RecordEntry) : Prop :=
| hashed_window : hashed_over e (last_window w log) -> kernel_hashed w log e
| hashed_system : hashed_over e (last_window 50 log) -> kernel_hashed w log e
| hashed_stream first last : tx_type (re_tx e) = TransactionType_Reasoning ->
    hashed_over e (drop first (take last log)) -> kernel_hashed w log e
| hashed_spawn : tx_type (re_tx e) = TransactionType_System -> hashed_over e [] -> kernel_hashed w log e.
Definition kernel_rule (w : Z) : HashRule := kernel_hashed w.

Lemma log_follows_nil `{HashRule} : log_follows [].
Proof. intros i e Hi. by rewrite lookup_nil in Hi. Qed.
Lemma log_follows_snoc `{HashRule} log e : log_follows log -> entry_follows log e -> log_follows (log ++ [e]).
Proof.
  intros Hv [Hs Hh] i e' [[Hlt Hi]|[-> <-]]%lookup_snoc_Some.
  - rewrite take_app_le by lia. by apply Hv.
  - by rewrite take_app_length.
Qed.
Lemma last_window_prior w log i : i <= length log -> last_window w (take i log) = prior_window w log i.
Proof. intros Hi. unfold last_window, prior_window. rewrite length_take. do 2 f_equal. lia. Qed.
Lemma log_follows_exact w log : @log_follows (exact_rule w) log <-> log_valid w log.
Proof.
  split; intros Hv i e Hi; pose proof (lookup_lt_Some _ _ _ Hi); destruct (Hv i e Hi) as [Hs Hh];
    (split; [done|]); unfold entry_hashed, exact_rule, hashed_over in *; by rewrite last_window_prior in * by lia.
Qed.

(** The store's window for the next sequence number is the last window. *)
Lemma log_window_next w log :
  (0 <= w)%Z ->
  log_window log (saturating_sub (Z.of_nat (length log) + 1) w) w = last_window w log.
Proof.
  intros Hw. unfold log_window, last_window, saturating_sub.
  replace (Z.to_nat (Z.max 0 (Z.of_nat (length log) + 1 - w) - 1))
    with (length log - Z.to_nat w) by lia.
  apply take_ge. rewrite length_drop. lia.
Qed.
End Hash.

(** * Witness *)
Module ContextWitness.
#[local] Existing Instance toy_blake3.
Definition tx : Transaction :=
  Transaction_new (arr_fill 32 "001"%byte) (arr_fill 32 "007"%byte) 0 TransactionType_UserPrompt ["A"%byte].
#[local] Instance tx_serde : Serde Transaction := table_serde [tx].
#[local] Instance tx_serde_ok : SerdeOk Transaction := table_serde_ok _.
#[local] Instance no_model : ModelTypes :=
  {| ModelRequest := unit; ModelResponse := unit; ReasonerError := unit;
     reasoner_error_display := fun _ => ""; response_model := fun _ => "";
     response_stop_reason := fun _ => StopReason_EndTurn;
     response_usage := fun _ => Usage_new 0 0;
     response_content := fun _ => [] |}.

(** Two logs of two entries that differ in their sequence numbers but have the
    same context hashes: the transaction has the same hash over both. *)
Definition entry (seq : Z) (h : byte) : RecordEntry :=
  build (with_context_hash (builder seq tx) (arr_fill 32 h)).
Definition window1 : list RecordEntry := [entry 1 "003"%byte; entry 2 "005"%byte].
Definition window2 : list RecordEntry := [entry 4 "003"%byte; entry 9 "005"%byte].
Lemma context_hash_binds_witness :
  window1 <> window2
  /\ exists h, hash_tx_with_window tx window1 = Ok h /\ hash_tx_with_window tx window2 = Ok h
  /\ ((tx = tx /\ re_context_hash <$> window1 = re_context_hash <$> window2)
   \/ exists b b', to_vec tx = Ok b /\ to_vec tx = Ok b'
       /\ context_bytes b window1 <> context_bytes b' window2
       /\ blake3_hash (context_bytes b window1) = blake3_hash (context_bytes b' window2)).
Proof.
  split; [intros E; vm_compute in E; discriminate E|].
  eexists. split; [vm_compute; reflexivity|]. split; [vm_compute; reflexivity|].
  refine (context_hash_binds tx tx window1 window2 _ _ _ eq_refl); vm_compute; reflexivity.
Defined.
End ContextWitness.
