(* ===== verification/Replay.v ===== *)
(** The replay consumer ([aura-agent-kernel/src/replay.rs]).

    Replay walks an agent's log from a sequence number to the head, recomputes
    each entry's context hash from the store and checks the snapshots that
    summarised effects refer to.  It is shown to accept exactly the valid logs:
    it succeeds on them with the recorded decisions and final hash, and it
    stops at the first entry whose hash does not match. *)
From S2P Require Import Prelude Values Permissions CoreTypes Keys StoreSpec Utf8 Exec Context.
From stdpp Require Import list.
From Stdlib Require Import Strings.Byte.

Record ReplayReport := {
  replayed_seqs : list Z;
  report_decisions : list CoreTypes.Decision;
  final_state_hash : ContextHash;
}.
Definition ReplayReport_empty : ReplayReport :=
  {| replayed_seqs := []; report_decisions := []; final_state_hash := ContextHash_zero |}.

Section Replay.
Context {ST : Type} `{Store ST} `{Blake3} `{Hex} `{ModelTypes}.
Context `{!Serde Transaction, !Serde RecordPayload}.
(** The consumer's fields. *)
Context (store : ST) (snapshot_store : SnapshotStore) (agent_id : AgentId) (from_seq window_size : Z).

Definition validate_entry (entry : RecordEntry) : result ReplayError unit :=
  let from := saturating_sub (re_seq entry) window_size in
  window ← map_err (fun e => ReplayError_Store (re_seq entry)
                               ("scan_record(window): " +++ StoreError_display e))
             (st_scan_record store agent_id from window_size);
  let prior := List.filter (fun e => bool_decide (re_seq e < re_seq entry)%Z) window in
  recomputed ← map_err (fun e => ReplayError_Store (re_seq entry)
                                   ("hash_tx_with_window: " +++ KernelError_display e))
                 (hash_tx_with_window (re_tx entry) prior);
  if negb (bool_decide (recomputed = re_context_hash entry))
  then Err (ReplayError_ContextDivergence (re_seq entry)
              (hex_encode (arr_bytes (re_context_hash entry))) (hex_encode (arr_bytes recomputed)))
  else Ok tt.

Definition resolve_effect_snapshot (seq : Z) (effect : Effect) : result ReplayError unit :=
  match from_slice (effect_payload effect) : result serde_error RecordPayload with
  | Ok (RecordPayload_Summary _ _ full_hash full_len) =>
      match snapshot_get snapshot_store full_hash with
      | Ok (Some b) =>
          if negb (bool_decide (Z.of_nat (length b) = full_len))
          then Err (ReplayError_Store seq
                      ("snapshot length mismatch for full_hash=" +++ full_hash +++ ": expected "
                       +++ fmt_Z full_len +++ ", got " +++ fmt_Z (Z.of_nat (length b))))
          else
            let digest := blake3_hex b in
            if negb (bool_decide (digest = full_hash))
            then Err (ReplayError_Store seq ("snapshot hash mismatch: recorded " +++ full_hash
                                             +++ ", fetched " +++ digest))
            else Ok tt
      | Ok None => Err (ReplayError_SnapshotMissing seq full_hash)
      | Err (SnapshotError_Backend m) =>
          Err (ReplayError_Store seq ("snapshot_store.get(" +++ full_hash +++ "): " +++ m))
      end
  | _ => Ok tt
  end.

Fixpoint resolve_effects (seq : Z) (effects : list Effect) : result ReplayError unit :=
  match effects with
  | [] => Ok tt
  | effect :: rest => _ ← resolve_effect_snapshot seq effect; resolve_effects seq rest
  end.
Definition resolve_snapshots (entry : RecordEntry) : result ReplayError unit :=
  resolve_effects (re_seq entry) (re_effects entry).

Fixpoint replay_entries (entries : list RecordEntry) (report : ReplayReport)
  : result ReplayError ReplayReport :=
  match entries with
  | [] => Ok report
  | entry :: rest =>
      _ ← validate_entry entry;
      _ ← resolve_snapshots entry;
      replay_entries rest
        {| replayed_seqs := replayed_seqs report ++ [re_seq entry];
           report_decisions := report_decisions report ++ [re_decision entry];
           final_state_hash := re_context_hash entry |}
  end.

Definition replay_run : result ReplayError ReplayReport :=
  head_seq ← map_err (fun e => ReplayError_Store 0 ("get_head_seq: " +++ StoreError_display e))
               (st_get_head_seq store agent_id);
  if bool_decide (head_seq < from_seq)%Z then Ok ReplayReport_empty
  else
    let start := Z.max from_seq 1 in
    let expected_count := u64_add (saturating_sub head_seq start) 1 in
    entries ← map_err (fun e => ReplayError_Store start ("scan_record: " +++ StoreError_display e))
                (st_scan_record store agent_id start expected_count);
    replay_entries entries ReplayReport_empty.

(** * Correctness *)
Context `{!StoreSpec ST}.

(** A store on which the reads replay makes succeed. *)
Definition reads_succeed : Prop :=
  (exists n, st_get_head_seq store agent_id = Ok n)
  /\ forall from limit, is_u64 from -> exists es, st_scan_record store agent_id from limit = Ok es.

(** Entries carry their position. *)
Definition seqs_ok (log : list RecordEntry) : Prop :=
  forall i e, log !! i = Some e -> re_seq e = (Z.of_nat i + 1)%Z.

(** The snapshots an entry refers to are in the snapshot store. *)
Definition snapshots_ok (e : RecordEntry) : Prop := resolve_snapshots e = Ok tt.

Lemma filter_seq_take log n k :
  seqs_ok log ->
  List.filter (fun e => bool_decide (re_seq e < Z.of_nat n + 1)%Z) (take k log) = take (n `min` k) log.
Proof.
  intros Hs. revert n k. induction log as [|e log IH] using rev_ind; intros n k.
  { by rewrite !take_nil. }
  assert (seqs_ok log) as Hs'.
  { intros i x Hi. apply Hs. by apply lookup_app_l_Some. }
  assert (re_seq e = Z.of_nat (length log) + 1)%Z as He.
  { apply (Hs (length log)). by rewrite lookup_app_r, Nat.sub_diag by lia. }
  destruct (decide (k <= length log)).
  { rewrite !take_app_le by lia. by apply IH. }
  rewrite (take_ge (log ++ [e]) k) by (rewrite length_app; cbn; lia).
  rewrite List.filter_app. specialize (IH Hs' n (length log)). rewrite take_ge in IH by lia. rewrite IH.
  cbn [List.filter]. rewrite He. case_bool_decide.
  - replace (n `min` length log) with (length log) by lia.
    rewrite take_ge by lia. rewrite (take_ge (log ++ [e])) by (rewrite length_app; cbn; lia). done.
  - replace (n `min` length log) with n by lia. replace (n `min` k) with n by lia.
    by rewrite app_nil_r, take_app_le by lia.
Qed.

Lemma seqs_ok_drop log n e : seqs_ok log -> e ∈ drop n log -> (Z.of_nat n < re_seq e)%Z.
Proof.
  intros Hs (i & Hi)%list_elem_of_lookup. rewrite lookup_drop in Hi. apply Hs in Hi. lia.
Qed.

(** The window replay reads back, filtered, is the prior window. *)
Lemma replay_window log i :
  seqs_ok log -> (0 < window_size)%Z -> i < length log ->
  List.filter (fun e => bool_decide (re_seq e < Z.of_nat i + 1)%Z)
    (log_window log (saturating_sub (Z.of_nat i + 1) window_size) window_size)
  = prior_window window_size log i.
Proof.
  intros Hs Hw Hi. unfold log_window, prior_window, saturating_sub.
  replace (Z.to_nat (Z.max 0 (Z.of_nat i + 1 - window_size) - 1)) with (i - Z.to_nat window_size) by lia.
  destruct (decide (i <= Z.to_nat window_size)).
  - replace (i - Z.to_nat window_size) with 0 by lia. rewrite !drop_0, filter_seq_take by done.
    by replace (i `min` Z.to_nat window_size) with i by lia.
  - rewrite (take_drop_commute log), <-take_drop_commute.
    replace (take (Z.to_nat window_size) (drop (i - Z.to_nat window_size) log))
      with (drop (i - Z.to_nat window_size) (take i log)).
    2: { rewrite take_drop_commute. f_equal. f_equal. lia. }
    apply List.forallb_filter_id, List.forallb_forall. intros e He.
    apply bool_decide_eq_true_2. apply list_elem_of_In in He.
    apply list_elem_of_lookup in He as (j & Hj). rewrite lookup_drop in Hj.
    apply lookup_take_Some in Hj as [Hj Hlt]. apply Hs in Hj. lia.
Qed.
(** What replay checks of the entry at index [i]. *)
Definition entry_replays (log : list RecordEntry) (i : nat) (e : RecordEntry) : Prop :=
  hash_tx_with_window (re_tx e) (prior_window window_size log i) = Ok (re_context_hash e)
  /\ snapshots_ok e.

Section Log.
Context (v : AgentView) (Hreads : reads_succeed) (Habs : abstracts store agent_id v).
Context (Hseqs : seqs_ok (av_log v)) (Hw : (0 < window_size)%Z).

Lemma validate_entry_run i e :
  av_log v !! i = Some e ->
  validate_entry e
  = match hash_tx_with_window (re_tx e) (prior_window window_size (av_log v) i) with
    | Ok h =>
        if bool_decide (h = re_context_hash e) then Ok tt
        else Err (ReplayError_ContextDivergence (Z.of_nat i + 1)
                    (hex_encode (arr_bytes (re_context_hash e))) (hex_encode (arr_bytes h)))
    | Err k => Err (ReplayError_Store (Z.of_nat i + 1) ("hash_tx_with_window: " +++ KernelError_display k))
    end.
Proof.
  intros Hi. unfold validate_entry. pose proof (lookup_lt_Some _ _ _ Hi) as Hlt.
  pose proof (spec_log_bound _ _ _ Habs) as Hb. unfold log_room, u64_max in Hb.
  rewrite (Hseqs _ _ Hi). set (from := saturating_sub (Z.of_nat i + 1) window_size).
  assert (is_u64 from) as Hfrom by (unfold from, saturating_sub, is_u64; lia).
  destruct (proj2 Hreads from window_size Hfrom) as [es Hes].
  rewrite Hes. apply (spec_scan _ _ _ _ _ _ Habs Hfrom Hw) in Hes as ->.
  unfold mbind, result_bind. cbn [map_err]. unfold from. rewrite replay_window by done.
  destruct (hash_tx_with_window _ _) as [h|k]; cbn [map_err]; [|done]. by case_bool_decide.
Qed.

Lemma replay_step i e :
  av_log v !! i = Some e ->
  (validate_entry e = Ok tt /\ resolve_snapshots e = Ok tt) <-> entry_replays (av_log v) i e.
Proof.
  intros Hi. rewrite (validate_entry_run i e Hi). unfold entry_replays, snapshots_ok.
  destruct (hash_tx_with_window _ _) as [h|k]; [case_bool_decide|]; naive_solver.
Qed.

Definition report_of (es : list RecordEntry) (r : ReplayReport) : ReplayReport :=
  {| replayed_seqs := replayed_seqs r ++ (re_seq <$> es);
     report_decisions := report_decisions r ++ (re_decision <$> es);
     final_state_hash := default (final_state_hash r) (re_context_hash <$> last es) |}.

Lemma report_of_cons e es r :
  report_of es {| replayed_seqs := replayed_seqs r ++ [re_seq e];
                  report_decisions := report_decisions r ++ [re_decision e];
                  final_state_hash := re_context_hash e |} = report_of (e :: es) r.
Proof.
  unfold report_of. cbn. rewrite <-!app_assoc. f_equal. rewrite last_cons. by destruct (last es).
Qed.

Lemma drop_cons_inv {A} k (l : list A) x rest :
  drop k l = x :: rest -> l !! k = Some x /\ drop (S k) l = rest.
Proof.
  intros Hd. split.
  - rewrite <-(Nat.add_0_r k), <-lookup_drop. by rewrite Hd.
  - replace (S k) with (k + 1) by lia. by rewrite <-drop_drop, Hd.
Qed.

Lemma replay_entries_accepts k es r :
  drop k (av_log v) = es ->
  (forall i e, k <= i -> av_log v !! i = Some e -> entry_replays (av_log v) i e) ->
  replay_entries es r = Ok (report_of es r).
Proof.
  revert k r. induction es as [|e es IH]; intros k r Hd Hok; cbn [replay_entries].
  { destruct r. unfold report_of. cbn. by rewrite !app_nil_r. }
  destruct (drop_cons_inv _ _ _ _ Hd) as [Hk Hd'].
  destruct (proj2 (replay_step k e Hk) (Hok k e ltac:(lia) Hk)) as [-> ->].
  unfold mbind, result_bind in *. rewrite (IH (S k)), report_of_cons; [done|done|].
  intros i e' Hi. apply Hok. lia.
Qed.

Lemma replay_entries_sound k es r r' :
  drop k (av_log v) = es -> replay_entries es r = Ok r' ->
  forall i e, k <= i -> av_log v !! i = Some e -> entry_replays (av_log v) i e.
Proof.
  revert k r. induction es as [|e es IH]; intros k r Hd Hr i x Hi Hx; cbn [replay_entries] in Hr.
  { assert (av_log v !! i = None) as Hn; [|congruence]. apply lookup_ge_None.
    apply (f_equal length) in Hd. rewrite length_drop in Hd. cbn in Hd. lia. }
  destruct (drop_cons_inv _ _ _ _ Hd) as [Hk Hd'].
  apply result_bind_Ok in Hr as ([] & Hv & Hr). apply result_bind_Ok in Hr as ([] & Hs & Hr).
  destruct (decide (i = k)) as [->|].
  - rewrite Hk in Hx. injection Hx as <-. by apply replay_step.
  - eapply (IH (S k)); [done|exact Hr|lia|done].
Qed.

(** Replay processes the log from [start] on. *)
Lemma replay_run_entries :
  is_u64 from_seq ->
  replay_run = if bool_decide (Z.of_nat (length (av_log v)) < from_seq)%Z then Ok ReplayReport_empty
               else replay_entries (drop (Z.to_nat (from_seq - 1)) (av_log v)) ReplayReport_empty.
Proof.
  intros Hf. unfold replay_run. destruct (proj1 Hreads) as [n Hn]. rewrite Hn.
  apply (spec_head_seq _ _ _ _ Habs) in Hn as ->. unfold mbind, result_bind. cbn [map_err].
  case_bool_decide as E; [done|].
  pose proof (spec_log_bound _ _ _ Habs) as Hb. unfold log_room, u64_max in Hb.
  set (start := Z.max from_seq 1). set (len := Z.of_nat (length (av_log v))) in *.
  assert (is_u64 start) as Hs by (unfold start, is_u64 in *; lia).
  destruct (proj2 Hreads start (u64_add (saturating_sub len start) 1) Hs) as [es Hes].
  rewrite Hes. apply (spec_scan _ _ _ _ _ _ Habs Hs) in Hes as ->; cycle 1.
  { rewrite u64_add_small by (unfold is_u64, saturating_sub, start in *; lia).
    unfold saturating_sub. lia. }
  cbn [map_err]. f_equal. unfold log_window.
  replace (Z.to_nat (start - 1)) with (Z.to_nat (from_seq - 1)) by (unfold start; lia).
  apply take_ge. rewrite length_drop.
  rewrite u64_add_small by (unfold is_u64, saturating_sub, start in *; lia).
  unfold saturating_sub, start, len in *. lia.
Qed.
End Log.

(** C27: Replay accepts exactly the logs whose entries check: over a store that
    can be read, with entries at their positions, it succeeds from [from_seq]
    if and only if every entry from there on has the context hash recomputed
    from the window before it and its snapshots are available; the report then
    lists those entries' sequence numbers and decisions in order and ends with
    the last entry's hash. *)
Theorem replay_run_correct v :
  reads_succeed -> abstracts store agent_id v -> seqs_ok (av_log v) -> (0 < window_size)%Z ->
  is_u64 from_seq ->
  let k := Z.to_nat (from_seq - 1) in
  ((exists r, replay_run = Ok r) <->
   forall i e, k <= i -> av_log v !! i = Some e -> entry_replays (av_log v) i e)
  /\ forall r, replay_run = Ok r -> r = report_of (drop k (av_log v)) ReplayReport_empty.
Proof.
  intros Hr Ha Hs Hw Hf k. rewrite (replay_run_entries v) by done. fold k.
  assert (forall i e, k <= i -> av_log v !! i = Some e ->
    (from_seq <= Z.of_nat (length (av_log v)))%Z) as Hin.
  { intros i e Hki Hi. apply lookup_lt_Some in Hi. unfold k in Hki. lia. }
  assert ((Z.of_nat (length (av_log v)) < from_seq)%Z -> drop k (av_log v) = []) as Hnil.
  { intros Hlt. apply drop_ge. unfold k. lia. }
  assert ((forall i e, k <= i -> av_log v !! i = Some e -> entry_replays (av_log v) i e) ->
    replay_entries (drop k (av_log v)) ReplayReport_empty
    = Ok (report_of (drop k (av_log v)) ReplayReport_empty)) as Hacc.
  { by apply replay_entries_accepts. }
  case_bool_decide as E.
  - split.
    + split; [|eauto]. intros _ i e Hki Hi. specialize (Hin i e Hki Hi). lia.
    + intros r [= <-]. by rewrite Hnil.
  - split.
    + split; [|eauto]. intros [r Hrun]. by eapply replay_entries_sound.
    + intros r Hrun. rewrite Hacc in Hrun; [by injection Hrun|]. by eapply replay_entries_sound.
Qed.

(** Replay stops at the first entry whose context hash does not match, and
    names it: when the entries from [from_seq] up to index [j] check and the
    next one's recomputed hash differs from the recorded one, the result is the
    context divergence at that sequence number with both hashes. *)
Theorem replay_stops_at_divergence v j e h :
  reads_succeed -> abstracts store agent_id v -> seqs_ok (av_log v) -> (0 < window_size)%Z ->
  is_u64 from_seq -> (from_seq <= Z.of_nat j + 1)%Z -> av_log v !! j = Some e ->
  (forall i x, Z.to_nat (from_seq - 1) <= i < j -> av_log v !! i = Some x ->
    entry_replays (av_log v) i x) ->
  hash_tx_with_window (re_tx e) (prior_window window_size (av_log v) j) = Ok h ->
  h <> re_context_hash e ->
  replay_run = Err (ReplayError_ContextDivergence (Z.of_nat j + 1)
                      (hex_encode (arr_bytes (re_context_hash e))) (hex_encode (arr_bytes h))).
Proof.
  intros Hr Ha Hs Hw Hf Hj He Hok Hh Hne. rewrite (replay_run_entries v) by done.
  pose proof (lookup_lt_Some _ _ _ He) as Hlt. rewrite bool_decide_eq_false_2 by lia.
  assert (forall n k r, k + n = j -> (forall i x, k <= i < j -> av_log v !! i = Some x ->
      entry_replays (av_log v) i x) ->
    replay_entries (drop k (av_log v)) r
    = Err (ReplayError_ContextDivergence (Z.of_nat j + 1)
             (hex_encode (arr_bytes (re_context_hash e))) (hex_encode (arr_bytes h)))) as Hgo.
  { clear Hok. induction n as [|n IH]; intros k r Hk Hok.
    - assert (k = j) as -> by lia. rewrite (drop_S _ e j He). cbn [replay_entries].
      rewrite (validate_entry_run v Hr Ha Hs Hw j e He), Hh, bool_decide_eq_false_2 by done. done.
    - destruct (lookup_lt_is_Some_2 (av_log v) k) as [x Hx]; [lia|].
      rewrite (drop_S _ x k Hx). cbn [replay_entries].
      destruct (proj2 (replay_step v Hr Ha Hs Hw k x Hx) (Hok k x ltac:(lia) Hx)) as [-> ->].
      unfold mbind, result_bind in *. apply (IH (S k)); [lia|]. intros i y Hi. apply Hok. lia. }
  apply (Hgo (j - Z.to_nat (from_seq - 1))); [lia|done].
Qed.

(** Only the transaction of an entry is covered by its context hash. *)
Definition retouch (e : RecordEntry) (d : CoreTypes.Decision) (acts : list Action) (effs : list Effect)
  : RecordEntry :=
  {| re_seq := re_seq e; re_tx := re_tx e; re_kernel_version := re_kernel_version e;
     re_context_hash := re_context_hash e; re_proposals := re_proposals e; re_decision := d;
     re_actions := acts; re_effects := effs |}.

Lemma concat_hashes_retouch (f : RecordEntry -> RecordEntry) (l : list RecordEntry) :
  (forall e, re_context_hash (f e) = re_context_hash e) ->
  concat ((fun e => arr_bytes (re_context_hash e)) <$> (f <$> l))
  = concat ((fun e => arr_bytes (re_context_hash e)) <$> l).
Proof. intros Hf. induction l as [|e l IH]; cbn; [done|]. by rewrite Hf, IH. Qed.

Lemma hash_window_retouch (f : RecordEntry -> RecordEntry) tx (l : list RecordEntry) :
  (forall e, re_context_hash (f e) = re_context_hash e) ->
  hash_tx_with_window tx (f <$> l) = hash_tx_with_window tx l.
Proof.
  intros Hf. destruct (to_vec tx) as [b|] eqn:Ev.
  - rewrite !(hash_tx_with_window_eq tx _ b Ev). unfold context_bytes.
    by rewrite concat_hashes_retouch.
  - unfold hash_tx_with_window. by rewrite Ev.
Qed.
End Replay.

(** The context hash does not cover what a tool call did: rewriting the
    recorded decision, actions and effects of every entry of a valid log, in
    any way, leaves a valid log. *)
Theorem log_valid_ignores_effects `{Blake3} `{ModelTypes} `{!Serde Transaction} w log
    (d : RecordEntry -> CoreTypes.Decision) (acts : RecordEntry -> list Action)
    (effs : RecordEntry -> list Effect) :
  log_valid w log -> log_valid w ((fun e => retouch e (d e) (acts e) (effs e)) <$> log).
Proof.
  intros Hv i e' Hi. apply list_lookup_fmap_Some in Hi as (e & -> & Hi).
  destruct (Hv i e Hi) as [Hs Hh]. split; [done|].
  unfold prior_window. rewrite <-fmap_take, <-fmap_drop. cbn [re_tx retouch re_context_hash].
  by rewrite hash_window_retouch.
Qed.
