(* ===== verification/Kernel.v ===== *)
(** The kernel ([aura-agent-kernel/src/kernel/{mod,process,reason,stream}.rs]).

    A kernel is bound to one agent.  Its own state is the policy's session
    approvals and the sequence counter; it works on a store it shares with
    other tasks.  Operations are programs in the state-and-error monad [K] over
    [KState]: the store, the policy, the counter, the state [E] of everything
    outside (clock, identifiers, provider, executors, prompts, hooks, file
    system), and a ghost list of events.

    Concurrency: other tasks may change the store whenever the kernel touches
    it or waits; [sync] is that interference, performed before every store
    access and at every await. *)
From S2P Require Import Prelude Values Modes Permissions CoreTypes Policy Keys StoreSpec Utf8 Exec Context Replay.
From stdpp Require Import list.
From Stdlib Require Import Strings.Byte.

(** * Live approval ([kernel/mod.rs]) *)
Record ToolApprovalResponse := { tar_decision : ToolState; tar_remember : ToolApprovalRemember }.
Inductive ToolApprovalError :=
| ToolApprovalError_DeliveryFailed
| ToolApprovalError_Cancelled
| ToolApprovalError_Internal (message : string).
Definition ToolApprovalError_display (e : ToolApprovalError) : string :=
  match e with
  | ToolApprovalError_DeliveryFailed => "approval prompt could not be delivered"
  | ToolApprovalError_Cancelled => "approval prompt was cancelled"
  | ToolApprovalError_Internal m => m
  end.

(** * Plugin hooks, as the kernel sees them ([aura-plugin-hooks]) *)
Inductive HookOutcome :=
| HookOutcome_Continue
| HookOutcome_Block (reason : string)
| HookOutcome_Replace (new_value : string)
| HookOutcome_Approve
| HookOutcome_Deny (reason : string)
| HookOutcome_TimedOut.
Record PluginHookHost (E : Type) := {
  hook_pre_tool_use_is_empty : bool;
  fire_pre_tool_use : string -> string -> string -> E -> HookOutcome * E;
  fire_permission_request : string -> string -> string -> string -> E -> HookOutcome * E;
}.
Arguments hook_pre_tool_use_is_empty {E} _.
Arguments fire_pre_tool_use {E} _ _ _ _ _.
Arguments fire_permission_request {E} _ _ _ _ _ _.

(** * Configuration *)
Record KernelConfig (E : Type) := {
  record_window_size : Z;
  kc_policy : PolicyConfig;
  workspace_base : string;
  use_workspace_base_as_root : bool;
  replay_from : option Z;
  kc_snapshot_store : SnapshotStore;
  proposal_timeout_ms : Z;
  tool_timeout_ms : Z;
  tool_approval_prompter :
    option (PendingToolPrompt -> E -> result ToolApprovalError ToolApprovalResponse * E);
  originating_user_id : option string;
  kc_kernel_mode : KernelMode;
  audited_lite_threshold_bytes : Z;
  plugin_hooks : option (PluginHookHost E);
  tool_audit_observer : option (RecordEntry -> E -> E);
}.
Arguments record_window_size {E} _.
Arguments kc_policy {E} _.
Arguments workspace_base {E} _.
Arguments use_workspace_base_as_root {E} _.
Arguments replay_from {E} _.
Arguments kc_snapshot_store {E} _.
Arguments proposal_timeout_ms {E} _.
Arguments tool_timeout_ms {E} _.
Arguments tool_approval_prompter {E} _.
Arguments originating_user_id {E} _.
Arguments kc_kernel_mode {E} _.
Arguments audited_lite_threshold_bytes {E} _.
Arguments plugin_hooks {E} _.
Arguments tool_audit_observer {E} _.

Definition KernelConfig_default (E : Type) : KernelConfig E :=
  {| record_window_size := 50; kc_policy := PolicyConfig_default; workspace_base := "./workspaces";
     use_workspace_base_as_root := false; replay_from := None;
     kc_snapshot_store := NoopSnapshotStore; proposal_timeout_ms := 120000;
     tool_timeout_ms := 120000; tool_approval_prompter := None; originating_user_id := None;
     kc_kernel_mode := KernelMode_Audited;
     audited_lite_threshold_bytes := DEFAULT_SUMMARY_CHUNK_BYTES; plugin_hooks := None;
     tool_audit_observer := None |}.

(** * Results *)
Record ApprovalRequiredInfo := { ari_tool : string; ari_prompt : option PendingToolPrompt }.
Record ToolOutput := {
  to_tool_use_id : string;
  to_content : string;
  to_is_error : bool;
  to_kind : ToolResultKind;
  to_approval_required : option ApprovalRequiredInfo;
  to_line_diff : option LineDiff;
  to_image : option ToolResultImage;
}.
Record PolicyDecisionRef := {
  pdr_proposal_seq : Z;
  pdr_proposal_tx_hash : Hash;
  pdr_seq : Z;
  pdr_tx_hash : Hash;
  pdr_decision : PolicyDecision;
}.
Inductive ToolDecision :=
| ToolDecision_Allowed
| ToolDecision_Denied (reason : string)
| ToolDecision_NeedsApproval (reason : string) (prompt : option PendingToolPrompt).
Record ProcessResult := {
  pr_entry : RecordEntry;
  pr_tool_output : option ToolOutput;
  pr_had_failures : bool;
  pr_runtime_capability_update : option RuntimeCapabilityInstall;
  pr_clear_runtime_capabilities : bool;
  pr_tool_decision : option ToolDecision;
  pr_policy_decision : option PolicyDecisionRef;
}.
Record ReasonResult `{ModelTypes} := { rr_entry : RecordEntry; rr_response : ModelResponse }.

(** * Kernel and state *)
Record Kernel (E : Type) := {
  k_executor : list (Executor E);
  k_config : KernelConfig E;
  k_agent_id : AgentId;
  k_replay_report : option ReplayReport;
}.
Arguments k_executor {E} _.
Arguments k_config {E} _.
Arguments k_agent_id {E} _.
Arguments k_replay_report {E} _.

(** Ghost events: an entry was persisted; an action was handed to the executor. *)
Inductive KernelEvent :=
| Ev_append (entry : RecordEntry)
| Ev_dispatch (action : Action).

Record KState (ST E : Type) := {
  ks_store : ST;
  ks_policy : Policy;
  ks_seq : Z;
  ks_env : E;
  ks_events : list KernelEvent;
}.
Arguments ks_store {ST E} _.
Arguments ks_policy {ST E} _.
Arguments ks_seq {ST E} _.
Arguments ks_env {ST E} _.
Arguments ks_events {ST E} _.

(** Everything outside the kernel, and the interference of other tasks. *)
Class World (E ST : Type) `{ModelTypes} := {
  w_now_ms : E -> Z * E;
  w_generate_action_id : E -> ActionId * E;
  w_create_dir_all : string -> E -> result string unit * E;
  (** Whether a timeout of so many milliseconds expires before the awaited
      call answers. *)
  w_elapsed : Z -> E -> bool * E;
  w_complete : ModelRequest -> E -> result ReasonerError ModelResponse * E;
  w_complete_streaming : ModelRequest -> E -> result ReasonerError unit * E;
  w_interfere : ST -> E -> ST * E;
}.

(** [serde_json::from_value] into a capability install. *)
Class FromJson (A : Type) := from_value : json -> result serde_error A.

Section Kernel.
Context {ST E : Type} `{Store ST} `{Blake3} `{Hex} `{ModelTypes} `{!World E ST}.
Context `{!Serde Transaction, !Serde json, !FromJson RuntimeCapabilityInstall, !Serde RecordPayload}.

Abbreviation KS := (KState ST E).
Abbreviation K := (stm KS KernelError).

(** ** Primitives *)
Definition set_store (s : ST) (st : KS) : KS :=
  {| ks_store := s; ks_policy := ks_policy st; ks_seq := ks_seq st; ks_env := ks_env st;
     ks_events := ks_events st |}.
Definition set_policy (p : Policy) (st : KS) : KS :=
  {| ks_store := ks_store st; ks_policy := p; ks_seq := ks_seq st; ks_env := ks_env st;
     ks_events := ks_events st |}.
Definition set_seq (n : Z) (st : KS) : KS :=
  {| ks_store := ks_store st; ks_policy := ks_policy st; ks_seq := n; ks_env := ks_env st;
     ks_events := ks_events st |}.
Definition set_env (e : E) (st : KS) : KS :=
  {| ks_store := ks_store st; ks_policy := ks_policy st; ks_seq := ks_seq st; ks_env := e;
     ks_events := ks_events st |}.
Definition log_event (ev : KernelEvent) (st : KS) : KS :=
  {| ks_store := ks_store st; ks_policy := ks_policy st; ks_seq := ks_seq st; ks_env := ks_env st;
     ks_events := ks_events st ++ [ev] |}.

(** A call to the outside. *)
Definition outside {Err A} (f : E -> A * E) : stm KS Err A := fun st =>
  let '(x, e) := f (ks_env st) in (Ok x, set_env e st).

(** Other tasks get to run. *)
Definition sync {Err} : stm KS Err unit := fun st =>
  let '(s, e) := w_interfere (ks_store st) (ks_env st) in (Ok tt, set_env e (set_store s st)).

(** [tokio::time::timeout(ms, f)]: the call happens; its answer is lost when the
    timeout expires first. *)
Definition with_timeout {Err A} (ms : Z) (f : E -> A * E) : stm KS Err (option A) :=
  x ← outside f;
  late ← outside (w_elapsed ms);
  _ ← sync;
  mret (if (late : bool) then None else Some x).

(** A store read and a store write. *)
Definition store_read {Err A} (f : ST -> result Err A) : stm KS Err A :=
  _ ← sync; reads (fun st => f (ks_store st)).
Definition on_store {Err A} (f : stm ST Err A) : stm KS Err A := fun st =>
  let '(r, s) := f (ks_store st) in (r, set_store s st).
Definition store_write {Err A} (f : stm ST Err A) : stm KS Err A := _ ← sync; on_store f.

Definition store_error (context : string) (e : StoreError) : KernelError :=
  KernelError_Store (context +++ ": " +++ StoreError_display e).
Definition fallible {A} (context : string) (m : stm KS StoreError A) : K A :=
  stm_map_err (store_error context) m.

Context (k : Kernel E).
Abbreviation agent := (k_agent_id k).
Abbreviation cfg := (k_config k).

(** ** Sequence and window *)
Definition next_seq : K Z :=
  head_seq ← fallible "get_head_seq" (store_read (fun s => st_get_head_seq s agent));
  let next := u64_add head_seq 1 in
  _ ← modify (set_seq (u64_add next 1));
  mret next.

(** [base.join(x)] for a relative [x]. *)
Definition path_join (base x : string) : string :=
  if bool_decide (base = "")
     || bool_decide (String.substring (String.length base - 1) 1 base = "/")
  then base +++ x else base +++ "/" +++ x.

Definition agent_workspace : string :=
  if use_workspace_base_as_root cfg then workspace_base cfg
  else path_join (workspace_base cfg) (id_to_hex agent).

Definition load_window (next : Z) : K (list RecordEntry) :=
  let from_seq := saturating_sub next (record_window_size cfg) in
  fallible "scan_record" (store_read (fun s => st_scan_record s agent from_seq (record_window_size cfg))).

Definition load_runtime_capabilities : K (option RuntimeCapabilityInstall) :=
  fallible "get_runtime_capabilities" (store_read (fun s => st_get_runtime_capabilities s agent)).

Definition lite_payload_threshold : option Z :=
  match kc_kernel_mode cfg with
  | KernelMode_Audited => None
  | KernelMode_AuditedLite => Some (audited_lite_threshold_bytes cfg)
  end.

Definition encode_payload (b : bytes) : RecordPayload :=
  match kc_kernel_mode cfg with
  | KernelMode_Audited => RecordPayload_Inline b
  | KernelMode_AuditedLite => summarize_payload b (audited_lite_threshold_bytes cfg)
  end.

(** The append calls, with the ghost event of a successful one. *)
Definition append_direct (context : string) (seq : Z) (entry : RecordEntry)
    (caps : option RuntimeCapabilityInstall) (clear : bool) : K unit :=
  _ ← fallible context
        (store_write (st_append_entry_direct_with_runtime_capabilities agent seq entry caps clear));
  modify (log_event (Ev_append entry)).
Definition append_dequeued (context : string) (seq : Z) (entry : RecordEntry) (token : DequeueToken)
    (caps : option RuntimeCapabilityInstall) (clear : bool) : K unit :=
  _ ← fallible context
        (store_write (st_append_entry_dequeued_with_runtime_capabilities agent seq entry token caps clear));
  modify (log_event (Ev_append entry)).

(** ** Transactions ([process.rs]) *)
Definition reject_kernel_only (tx : Transaction) : K unit :=
  if bool_decide (tx_type tx = TransactionType_PolicyDecision)
     || bool_decide (tx_type tx = TransactionType_ToolExecution)
  then fails (KernelError_Internal (TransactionType_debug (tx_type tx)
                +++ " transactions are written only by the kernel tool pipeline"))
  else mret tt.

Definition runtime_capability_update_from_tx (tx : Transaction)
  : result serde_error (option RuntimeCapabilityInstall) :=
  if negb (bool_decide (tx_type tx = TransactionType_System)) then Ok None
  else
    match from_slice (tx_payload tx) : result serde_error json with
    | Err _ => Ok None
    | Ok payload =>
        if bool_decide (json_get_str "system_kind" payload = Some "capability_install")
        then Some <$> (from_value payload : result serde_error RuntimeCapabilityInstall)
        else Ok None
    end.

Definition plain_result (entry : RecordEntry) (update : option RuntimeCapabilityInstall) (clear : bool)
  : ProcessResult :=
  {| pr_entry := entry; pr_tool_output := None; pr_had_failures := false;
     pr_runtime_capability_update := update; pr_clear_runtime_capabilities := clear;
     pr_tool_decision := None; pr_policy_decision := None |}.

Definition process_tx (tx : Transaction) (seq : Z) : K ProcessResult :=
  window ← load_window seq;
  context_hash ← lift (hash_tx_with_window tx window);
  let entry := build (with_context_hash (builder seq tx) context_hash) in
  match tx_type tx with
  | TransactionType_SessionStart =>
      p ← gets ks_policy;
      _ ← modify (set_policy (clear_session_approvals p));
      mret (plain_result entry None true)
  | TransactionType_System =>
      update ← lift (map_err (fun e => KernelError_Serialization
                                         ("deserialize capability install: " +++ e))
                       (runtime_capability_update_from_tx tx));
      mret (plain_result entry update false)
  | _ => mret (plain_result entry None false)
  end.

(** The branch of [process_direct] and [process_dequeued] for transactions
    that are not tool proposals. *)
Definition process_plain_direct (tx : Transaction) : K ProcessResult :=
  seq ← next_seq;
  r ← process_tx tx seq;
  _ ← append_direct "append_entry_direct_with_runtime_capabilities" seq (pr_entry r)
        (pr_runtime_capability_update r) (pr_clear_runtime_capabilities r);
  mret r.
Definition process_plain_dequeued (tx : Transaction) (token : DequeueToken) : K ProcessResult :=
  seq ← next_seq;
  r ← process_tx tx seq;
  _ ← append_dequeued "append_entry_dequeued_with_runtime_capabilities" seq (pr_entry r) token
        (pr_runtime_capability_update r) (pr_clear_runtime_capabilities r);
  mret r.

(** ** Reasoning ([reason.rs], [stream.rs]) *)
Definition add_thinking (payload : json) (thinking : string) (ms : option Z) : json :=
  if trim_is_empty thinking then payload
  else
    let payload := json_set "thinking" (JString thinking) payload in
    match ms with
    | Some ms => json_set "thinking_ms" (JNumber (fmt_Z ms)) payload
    | None => payload
    end.

(** Append a [Reasoning] entry with this payload, over the current window. *)
Definition append_reasoning (seq : Z) (payload : json) : K RecordEntry :=
  payload_bytes ← lift (map_err KernelError_Serialization (to_vec payload));
  now ← outside w_now_ms;
  let tx := new_chained now agent TransactionType_Reasoning payload_bytes None in
  window ← load_window seq;
  context_hash ← lift (hash_tx_with_window tx window);
  let entry := build (with_context_hash (builder seq tx) context_hash) in
  _ ← append_direct "append_entry_direct" seq entry None false;
  mret entry.

Definition record_reasoning_failure (seq : Z) (stage error_reason : string) : K unit :=
  _ ← append_reasoning seq
        (JObject [("stop_reason", JString "Error"); ("stage", JString stage);
                  ("error", JString error_reason)]);
  mret tt.

(** Record the failure; a recording error is only logged. *)
Definition try_record_failure (seq : Z) (stage reason : string) : K unit := fun st =>
  let '(_, st') := record_reasoning_failure seq stage reason st in (Ok tt, st').

Definition thinking_of (b : ContentBlock) : string :=
  match b with ContentBlock_Thinking t _ => t | _ => "" end.
Definition response_thinking (r : ModelResponse) : string :=
  foldr (fun b acc => thinking_of b +++ acc) "" (response_content r).

Definition reasoning_payload (r : ModelResponse) : json :=
  add_thinking
    (JObject [("model", JString (response_model r));
              ("stop_reason", JString (StopReason_debug (response_stop_reason r)));
              ("input_tokens", JNumber (fmt_Z (usage_input_tokens (response_usage r))));
              ("output_tokens", JNumber (fmt_Z (usage_output_tokens (response_usage r))))])
    (response_thinking r) None.

(** A failed provider call: reserve a sequence number, record, and fail. *)
Definition fail_reasoning {A} (stage reason : string) (err : KernelError) : K A :=
  seq ← next_seq;
  _ ← try_record_failure seq stage reason;
  fails err.

(** [reason] appends with the sequence number taken after its payload and
    transaction are built. *)
Definition reason (request : ModelRequest) : K ReasonResult :=
  answer ← with_timeout (proposal_timeout_ms cfg) (w_complete request);
  match answer with
  | Some (Ok response) =>
      payload_bytes ← lift (map_err KernelError_Serialization (to_vec (reasoning_payload response)));
      now ← outside w_now_ms;
      let tx := new_chained now agent TransactionType_Reasoning payload_bytes None in
      seq ← next_seq;
      window ← load_window seq;
      context_hash ← lift (hash_tx_with_window tx window);
      let entry := build (with_context_hash (builder seq tx) context_hash) in
      _ ← append_direct "append_entry_direct" seq entry None false;
      mret {| rr_entry := entry; rr_response := response |}
  | Some (Err e) => fail_reasoning "complete" (reasoner_error_display e) (KernelError_Reasoner e)
  | None =>
      let reason := "model provider did not respond within " +++ fmt_Z (proposal_timeout_ms cfg) +++ "ms" in
      fail_reasoning "complete_timeout" reason (KernelError_Timeout reason)
  end.

(** The stream handle shares the kernel's store and counter and keeps the
    window captured when the call started. *)
Record ReasonStreamHandle := { h_window : list RecordEntry }.

Definition reason_streaming (request : ModelRequest) : K ReasonStreamHandle :=
  projected_seq ← gets ks_seq;
  window ← load_window projected_seq;
  answer ← with_timeout (proposal_timeout_ms cfg) (w_complete_streaming request);
  match answer with
  | Some (Ok _) => mret {| h_window := window |}
  | Some (Err e) =>
      fail_reasoning "streaming_handshake" (reasoner_error_display e) (KernelError_Reasoner e)
  | None =>
      let reason := "streaming model provider did not respond within "
                    +++ fmt_Z (proposal_timeout_ms cfg) +++ "ms" in
      fail_reasoning "streaming_handshake_timeout" reason (KernelError_Timeout reason)
  end.

Definition handle_append (h : ReasonStreamHandle) (tx : Transaction) : K RecordEntry :=
  seq ← next_seq;
  context_hash ← lift (hash_tx_with_window tx (h_window h));
  let entry := build (with_context_hash (builder seq tx) context_hash) in
  _ ← append_direct "append_entry_direct" seq entry None false;
  mret entry.

Definition record_completed (h : ReasonStreamHandle) (model : string) (stop_reason : StopReason)
    (usage : Usage) (tool_uses : list string) (thinking : string) (thinking_ms : option Z)
  : K RecordEntry :=
  let payload := add_thinking
    (JObject [("model", JString model); ("stop_reason", JString (StopReason_debug stop_reason));
              ("input_tokens", JNumber (fmt_Z (usage_input_tokens usage)));
              ("output_tokens", JNumber (fmt_Z (usage_output_tokens usage)));
              ("tool_uses", JArray (JString <$> tool_uses))]) thinking thinking_ms in
  payload_bytes ← lift (map_err KernelError_Serialization (to_vec payload));
  now ← outside w_now_ms;
  handle_append h (new_chained now agent TransactionType_Reasoning payload_bytes None).

Definition record_failed (h : ReasonStreamHandle) (error : string) : K RecordEntry :=
  payload_bytes ← lift (map_err KernelError_Serialization
                          (to_vec (JObject [("error", JString error); ("status", JString "failed")])));
  now ← outside w_now_ms;
  handle_append h (new_chained now agent TransactionType_Reasoning payload_bytes None).

(** ** System records ([write_system_record]) *)
Inductive SystemRecordError :=
| SystemRecordError_SequenceMismatch
| SystemRecordError_Other (e : KernelError).

Definition MAX_RETRIES : nat := 16.

Definition system_append_error (e : StoreError) : SystemRecordError :=
  match e with
  | StoreError_SequenceMismatch _ _ => SystemRecordError_SequenceMismatch
  | _ => SystemRecordError_Other (store_error "append_entry_direct" e)
  end.

Definition append_system_record_once (tx : Transaction) : stm KS SystemRecordError Z :=
  head ← stm_map_err (fun e => SystemRecordError_Other (store_error "get_head_seq" e))
           (store_read (fun s => st_get_head_seq s agent));
  let from_seq := Z.max (saturating_sub head 49) 1 in
  window ← (if bool_decide (head = 0)%Z then mret []
            else stm_map_err (fun e => SystemRecordError_Other (store_error "scan_record" e))
                   (store_read (fun s => st_scan_record s agent from_seq 50)));
  context_hash ← lift (map_err (fun e => SystemRecordError_Other
                                 (KernelError_Internal ("context hash: " +++ KernelError_display e)))
                         (hash_tx_with_window tx window));
  let seq := u64_add head 1 in
  let entry := build (with_context_hash (builder seq tx) context_hash) in
  _ ← stm_map_err system_append_error
        (store_write (st_append_entry_direct agent seq entry));
  _ ← modify (log_event (Ev_append entry));
  mret seq.

(** The retry loop, with [retries] retries to go. *)
Fixpoint write_system_record_from (retries : nat) (tx : Transaction) : K Z := fun st =>
  match append_system_record_once tx st with
  | (Ok seq, st') => (Ok seq, st')
  | (Err SystemRecordError_SequenceMismatch, st') =>
      match retries with
      | S n => (_ ← sync; write_system_record_from n tx) st'
      | O => (Err (KernelError_Store ("append_entry_direct: sequence mismatch unresolved after "
                     +++ fmt_Z (Z.of_nat MAX_RETRIES) +++ " retries")), st')
      end
  | (Err (SystemRecordError_Other e), st') => (Err e, st')
  end.
Definition write_system_record (tx : Transaction) : K Z := write_system_record_from MAX_RETRIES tx.
End Kernel.

(** ** Construction ([Kernel::new]) *)
Definition Kernel_new {ST E} `{Store ST} `{Blake3} `{Hex} `{ModelTypes} `{!Serde Transaction}
    `{!Serde RecordPayload} (snapshot_hash : PolicyConfig -> string) (store : ST)
    (executor : list (Executor E)) (config : KernelConfig E) (agent_id : AgentId) (env : E)
  : result KernelError (Kernel E * KState ST E) :=
  head_seq ← map_err (store_error "get_head_seq") (st_get_head_seq store agent_id);
  let policy := Policy_new snapshot_hash (kc_policy config) in
  replay_report ←
    match replay_from config with
    | Some from_seq =>
        Some <$> map_err KernelError_Replay
          (replay_run store (kc_snapshot_store config) agent_id from_seq (record_window_size config))
    | None => Ok None
    end;
  Ok ({| k_executor := executor; k_config := config; k_agent_id := agent_id;
         k_replay_report := replay_report |},
      {| ks_store := store; ks_policy := policy; ks_seq := u64_add head_seq 1; ks_env := env;
         ks_events := [] |}).
