(* ===== verification/KernelTools.v ===== *)
(** The tool pipeline of the kernel ([kernel/tools/{shared,steps,single,batch}.rs])
    and the two entry points that use it ([process.rs]).

    Every tool call is recorded as linked entries: the proposal, the policy
    decision, and for approved calls the execution with its action and effect.
    [process_one] handles a single proposal, [process_many] a batch: it records
    and decides every proposal before anything runs, then runs the approved
    ones and records their executions in proposal order.  The concurrent
    executions of a batch are run one after the other in dispatch order; their
    mutual interference is part of the outside state. *)
From S2P Require Import Prelude Values Modes Permissions CoreTypes Policy Keys StoreSpec Utf8 Exec Context Replay Kernel.
From stdpp Require Import list.
From Stdlib Require Import Strings.Byte.

(** * Helpers ([shared.rs]) *)
Definition TIMEOUT_EXEMPT_TOOLS : list string := ["run_command"; "task"].
Definition tool_manages_own_timeout (tool_name : string) : bool :=
  bool_decide (tool_name ∈ TIMEOUT_EXEMPT_TOOLS).

Definition remember_label (r : ToolApprovalRemember) : string :=
  match r with
  | ToolApprovalRemember_Once => "once"
  | ToolApprovalRemember_Session => "session"
  | ToolApprovalRemember_Forever => "forever"
  end.

Definition fold_tool_state_into_defaults (defaults : UserToolDefaults) (tool_name : string)
    (state : ToolState) : UserToolDefaults :=
  let '(per_tool, fallback) :=
    match utd_mode defaults with
    | UserDefaultMode_FullAccess => (∅, ToolState_Allow)
    | UserDefaultMode_AutoReview => (∅, ToolState_Ask)
    | UserDefaultMode_DefaultPermissions per_tool fallback => (per_tool, fallback)
    end in
  utd_default_permissions (<[tool_name := state]> per_tool) fallback.

Definition with_payload (effect : Effect) (payload : bytes) : Effect :=
  {| effect_action_id := effect_action_id effect; effect_kind := effect_kind effect;
     effect_status := effect_status effect; effect_payload := payload |}.

Definition maybe_summarise_effect_payload `{Blake3} `{Hex} `{!Serde RecordPayload} (effect : Effect)
    (lite_threshold : option Z) : Effect :=
  match lite_threshold with
  | Some threshold =>
      if bool_decide (threshold < Z.of_nat (length (effect_payload effect)))%Z then
        let summary := summarize_payload (effect_payload effect) threshold in
        with_payload effect
          (match to_vec summary with Ok encoded => encoded | Err _ => effect_payload effect end)
      else effect
  | None => effect
  end.

(** * Verdicts ([steps.rs]) *)
Definition denial_reason (verdict : PolicyVerdict) : string :=
  default "Policy denied" (verdict_reason verdict).
Definition gate_verdict (verdict : PolicyVerdict) : ToolGateVerdict :=
  match verdict with
  | PolicyVerdict_Allow => ToolGateVerdict_Approved
  | PolicyVerdict_RequireApproval _ _ => ToolGateVerdict_PendingApproval
  | PolicyVerdict_Deny _ => ToolGateVerdict_Denied
  end.

(** A proposal whose decision has been recorded, and a recorded execution. *)
Record Authorized := {
  au_proposal : ToolProposal;
  au_evaluation : PolicyEvaluation;
  au_action : option Action;
  au_decision_entry : RecordEntry;
  au_decision_ref : PolicyDecisionRef;
}.
Record Executed := {
  exd_entry : RecordEntry;
  exd_decoded : DecodedToolResult;
  exd_had_failures : bool;
}.

Definition finish_tool_call (authorized : Authorized) (executed : option Executed) : ProcessResult :=
  let tool_use_id := tp_tool_use_id (au_proposal authorized) in
  match executed with
  | Some x =>
      let image := if exd_had_failures x then None else dt_image (exd_decoded x) in
      {| pr_entry := exd_entry x;
         pr_tool_output :=
           Some {| to_tool_use_id := tool_use_id; to_content := dt_content (exd_decoded x);
                   to_is_error := exd_had_failures x; to_kind := dt_kind (exd_decoded x);
                   to_approval_required := None; to_line_diff := dt_line_diff (exd_decoded x);
                   to_image := image |};
         pr_had_failures := exd_had_failures x; pr_runtime_capability_update := None;
         pr_clear_runtime_capabilities := false; pr_tool_decision := Some ToolDecision_Allowed;
         pr_policy_decision := Some (au_decision_ref authorized) |}
  | None =>
      let verdict := ev_verdict (au_evaluation authorized) in
      let reason := denial_reason verdict in
      let '(approval_required, tool_decision) :=
        match verdict with
        | PolicyVerdict_RequireApproval _ prompt =>
            (Some {| ari_tool := tp_tool (au_proposal authorized); ari_prompt := prompt |},
             ToolDecision_NeedsApproval reason prompt)
        | _ => (None, ToolDecision_Denied reason)
        end in
      {| pr_entry := au_decision_entry authorized;
         pr_tool_output :=
           Some {| to_tool_use_id := tool_use_id; to_content := reason; to_is_error := true;
                   to_kind := ToolResultKind_AgentError; to_approval_required := approval_required;
                   to_line_diff := None; to_image := None |};
         pr_had_failures := false; pr_runtime_capability_update := None;
         pr_clear_runtime_capabilities := false; pr_tool_decision := Some tool_decision;
         pr_policy_decision := Some (au_decision_ref authorized) |}
  end.

Section Tools.
Context {ST E : Type} `{Store ST} `{Blake3} `{Hex} `{ModelTypes} `{!World E ST} `{StrDebug} `{JsonText}.
Context `{!Serde Transaction, !Serde json, !FromJson RuntimeCapabilityInstall, !Serde RecordPayload}.
Context `{!Serde ToolCall, !Serde ToolProposal, !Serde ToolExecution, !Serde PolicyDecision}.
Context `{!Serde ToolResult}.

Abbreviation KS := (KState ST E).
Abbreviation K := (stm KS KernelError).

Context (k : Kernel E).
Abbreviation agent := (k_agent_id k).
Abbreviation cfg := (k_config k).

Definition kernel_proposal_from_tool_proposal (proposal : ToolProposal) : K Proposal :=
  payload ← lift (map_err KernelError_Serialization
                    (to_vec {| tool_call_tool := tp_tool proposal; tool_call_args := tp_args proposal |}));
  mret (Proposal_new ActionKind_Delegate payload).

(** ** Execution *)
Definition execute_with_timeout (ctx : ExecuteContext) (action : Action) (tool_name : string) : K Effect :=
  _ ← modify (log_event (Ev_dispatch action));
  if tool_manages_own_timeout tool_name then
    effect ← outside (router_execute (k_executor k) ctx action);
    _ ← sync;
    mret effect
  else
    answer ← with_timeout (tool_timeout_ms cfg) (router_execute (k_executor k) ctx action);
    mret (match answer with
          | Some effect => effect
          | None => Effect_failed (action_id action) EffectKind_Agreement
                      (string_to_bytes ("Tool timed out after " +++ fmt_Z (tool_timeout_ms cfg) +++ "ms"))
          end).

(** ** Live approvals *)
Definition live_prompt_remember_options : list ToolApprovalRemember :=
  [ToolApprovalRemember_Once; ToolApprovalRemember_Session]
  ++ (if bool_decide (is_Some (originating_user_id cfg)) then [ToolApprovalRemember_Forever] else []).

Definition remember_for_session (tool : string) (state : ToolState) : K unit :=
  p ← gets ks_policy;
  modify (set_policy (remember_tool_state_for_session p tool state)).

Definition apply_live_approval_response (prompt : PendingToolPrompt) (response : ToolApprovalResponse)
  : K unit :=
  match tar_remember response with
  | ToolApprovalRemember_Once => mret tt
  | ToolApprovalRemember_Session =>
      remember_for_session (ptp_tool_name prompt) (tar_decision response)
  | ToolApprovalRemember_Forever =>
      match originating_user_id cfg with
      | None => fails (KernelError_Internal ("cannot remember tool '" +++ ptp_tool_name prompt
                         +++ "' forever without an originating user id"))
      | Some user_id =>
          let defaults := fold_tool_state_into_defaults (user_default (kc_policy cfg))
                            (ptp_tool_name prompt) (tar_decision response) in
          _ ← fallible "put_user_tool_defaults"
                (store_write (st_put_user_tool_defaults user_id defaults));
          remember_for_session (ptp_tool_name prompt) (tar_decision response)
      end
  end.

(** The permission hook's verdict, if it has one. *)
Definition permission_hook (prompt : PendingToolPrompt) (reason : string)
  : K (option (PolicyVerdict * string)) :=
  match plugin_hooks cfg with
  | None => mret None
  | Some host =>
      decision ← outside (fire_permission_request host (ptp_tool_name prompt)
                            (json_to_string (ptp_args prompt)) "ask" reason);
      mret (match decision with
            | HookOutcome_Approve => Some (PolicyVerdict_Allow, "approve")
            | HookOutcome_Deny hook_reason => Some (PolicyVerdict_Deny hook_reason, "deny")
            | _ => None
            end)
  end.

Definition user_verdict (prompt : PendingToolPrompt) (reason : string) (decision : ToolState)
  : PolicyVerdict :=
  match decision with
  | ToolState_Allow => PolicyVerdict_Allow
  | ToolState_Deny => PolicyVerdict_Deny ("Tool '" +++ ptp_tool_name prompt +++ "' was denied by the user")
  | ToolState_Ask => PolicyVerdict_RequireApproval reason (Some prompt)
  end.

Definition resolve_prompt (evaluation : PolicyEvaluation) : K PolicyEvaluation :=
  match ev_verdict evaluation with
  | PolicyVerdict_RequireApproval reason (Some prompt) =>
      hook_verdict ← permission_hook prompt reason;
      match hook_verdict with
      | Some (verdict, rule) =>
          mret (ev_set_approval
                  (ev_decide evaluation verdict (mk_rule PolicySource_PermissionHook rule))
                  {| pa_approver := PolicyApprover_Hook; pa_remember := None;
                     pa_request_id := Some (ptp_request_id prompt) |})
      | None =>
          match tool_approval_prompter cfg with
          | None => mret (ev_decide evaluation (PolicyVerdict_Deny reason)
                            (mk_rule PolicySource_NoLiveSession "no_prompter"))
          | Some prompter =>
              answer ← outside (prompter prompt);
              _ ← sync;
              response ← lift (map_err (fun e => KernelError_Internal
                           ("tool approval prompt failed for '" +++ ptp_tool_name prompt +++ "': "
                            +++ ToolApprovalError_display e)) answer);
              _ ← apply_live_approval_response prompt response;
              let evaluation := ev_set_approval evaluation
                {| pa_approver := PolicyApprover_User (originating_user_id cfg);
                   pa_remember := Some (remember_label (tar_remember response));
                   pa_request_id := Some (ptp_request_id prompt) |} in
              mret (ev_decide evaluation (user_verdict prompt reason (tar_decision response))
                      (mk_rule PolicySource_User (tool_state_label (tar_decision response))))
          end
      end
  | _ => mret evaluation
  end.

Definition is_ask_without_prompt (v : PolicyVerdict) : bool :=
  match v with PolicyVerdict_RequireApproval _ None => true | _ => false end.
Definition is_deny (v : PolicyVerdict) : bool :=
  match v with PolicyVerdict_Deny _ => true | _ => false end.

Definition resolve_live_ask (tool_name : string) (args : json) (tool_use_id : string)
    (evaluation : PolicyEvaluation) : K PolicyEvaluation :=
  p ← gets ks_policy;
  let verdict := ev_verdict evaluation in
  if is_deny verdict then mret evaluation
  else
    let ask_without_prompt := is_ask_without_prompt verdict in
    if ask_without_prompt && negb (bool_decide (resolve_tool_state p tool_name = ToolState_Ask))
    then mret evaluation
    else if is_allowed verdict || ask_without_prompt then
      let request_id := id_to_hex agent +++ ":" +++ tool_use_id in
      match live_tool_prompt_explained p tool_name args agent request_id
              (bool_decide (is_Some (tool_approval_prompter cfg))) live_prompt_remember_options with
      | Some (verdict, rule) => resolve_prompt (ev_decide evaluation verdict rule)
      | None => mret evaluation
      end
    else mret evaluation.
(** ** The three recorded steps ([steps.rs]) *)
Definition observe_entry (entry : RecordEntry) : K unit :=
  match tool_audit_observer cfg with
  | Some observer => outside (fun e => (tt, observer entry e))
  | None => mret tt
  end.

Definition append_tool_entry (tx : Transaction) (fill : RecordEntryBuilder -> RecordEntryBuilder)
    (token : option DequeueToken) : K RecordEntry :=
  seq ← next_seq k;
  window ← load_window k seq;
  context_hash ← lift (hash_tx_with_window tx window);
  let entry := build (fill (with_context_hash (builder seq tx) context_hash)) in
  _ ← match token with
      | Some token => append_dequeued k "append_entry_dequeued" seq entry token None false
      | None => append_direct k "append_entry_direct" seq entry None false
      end;
  _ ← observe_entry entry;
  mret entry.

Definition record_tool_proposal (tx : Transaction) (token : option DequeueToken) : K RecordEntry :=
  append_tool_entry tx (fun b => b) token.

(** The decision payload of an evaluation. *)
Definition decision_of (p : Policy) (proposal : ToolProposal) (evaluation : PolicyEvaluation)
    (action : option Action) : PolicyDecision :=
  {| pd_tool_use_id := tp_tool_use_id proposal; pd_tool := tp_tool proposal;
     pd_verdict := gate_verdict (ev_verdict evaluation);
     pd_reason := verdict_reason (ev_verdict evaluation);
     pd_decided_by := ev_decided_by evaluation; pd_trace := ev_trace evaluation;
     pd_approval := ev_approval evaluation; pd_mode := mode_label (cfg_mode (pol_config p));
     pd_policy_hash := pol_snapshot_hash p;
     pd_action_id := (fun a => id_to_hex (action_id a)) <$> action |}.

Definition kernel_decision_of (action : option Action) (verdict : PolicyVerdict) : CoreTypes.Decision :=
  match action with
  | Some action => Decision_accept Decision_new (action_id action)
  | None => Decision_reject Decision_new 0 (denial_reason verdict)
  end.

Definition authorize_tool_proposal (proposal : ToolProposal) (proposal_entry : RecordEntry)
    (runtime_capabilities : option RuntimeCapabilityInstall) : K Authorized :=
  kernel_proposal ← kernel_proposal_from_tool_proposal proposal;
  p ← gets ks_policy;
  let evaluation := evaluate_proposal p kernel_proposal runtime_capabilities in
  evaluation ← resolve_live_ask (tp_tool proposal) (tp_args proposal) (tp_tool_use_id proposal) evaluation;
  action ← (if is_allowed (ev_verdict evaluation) then
              id ← outside w_generate_action_id;
              mret (Some (Action_new id ActionKind_Delegate (prop_payload kernel_proposal)))
            else mret None);
  p ← gets ks_policy;
  let decision := decision_of p proposal evaluation action in
  now ← outside w_now_ms;
  tx ← lift (map_err KernelError_Serialization
               (policy_decision now agent decision (tx_hash (re_tx proposal_entry))));
  let kernel_decision := kernel_decision_of action (ev_verdict evaluation) in
  decision_entry ← append_tool_entry tx
    (fun b => with_decision (with_proposal_set b (with_proposals [kernel_proposal])) kernel_decision) None;
  mret {| au_proposal := proposal; au_evaluation := evaluation; au_action := action;
          au_decision_entry := decision_entry;
          au_decision_ref :=
            {| pdr_proposal_seq := re_seq proposal_entry;
               pdr_proposal_tx_hash := tx_hash (re_tx proposal_entry);
               pdr_seq := re_seq decision_entry; pdr_tx_hash := tx_hash (re_tx decision_entry);
               pdr_decision := decision |} |}.

Definition record_tool_execution (authorized : Authorized) (action : Action) (effect : Effect) : K Executed :=
  let effect := maybe_summarise_effect_payload effect (lite_payload_threshold k) in
  let decoded := decode_tool_effect effect in
  let had_failures := bool_decide (effect_status effect = EffectStatus_Failed) || dt_is_error decoded in
  let execution :=
    {| te_tool_use_id := tp_tool_use_id (au_proposal authorized);
       te_tool := tp_tool (au_proposal authorized); te_args := tp_args (au_proposal authorized);
       te_decision := ToolGateVerdict_Approved; te_reason := None; te_result := None;
       te_is_error := had_failures; te_parent_agent_id := agent;
       te_originating_user_id := default "" (originating_user_id cfg) |} in
  now ← outside w_now_ms;
  tx ← lift (map_err KernelError_Serialization
               (tool_execution_for_decision now agent execution
                  (tx_hash (re_tx (au_decision_entry authorized)))));
  entry ← append_tool_entry tx (fun b => with_effects (with_actions b [action]) [effect]) None;
  mret {| exd_entry := entry; exd_decoded := decoded; exd_had_failures := had_failures |}.

(** ** Hooks before dispatch *)
Definition block_payload (proposal : ToolProposal) (reason : string) : json :=
  JObject [("kind", JString "tool_call_blocked_by_hook"); ("tool_name", JString (tp_tool proposal));
           ("tool_use_id", JString (tp_tool_use_id proposal)); ("reason", JString reason)].

Definition fire_pre_tool_use_and_maybe_block (host : PluginHookHost E) (proposal : ToolProposal)
    (id : ActionId) : K (option Effect) :=
  if hook_pre_tool_use_is_empty host then mret None
  else
    decision ← outside (fire_pre_tool_use host (tp_tool proposal) (json_to_string (tp_args proposal))
                          (tp_tool_use_id proposal));
    match decision with
    | HookOutcome_Block reason =>
        b ← lift (map_err (fun e => KernelError_Serialization ("block payload: " +++ e))
                    (to_vec (block_payload proposal reason)));
        mret (Some (Effect_failed id EffectKind_Agreement b))
    | _ => mret None
    end.

(** The batch flow has its own copy of the same function. *)
Definition fire_pre_tool_use_for_batch (host : PluginHookHost E) (proposal : ToolProposal)
    (id : ActionId) : K (option Effect) := fire_pre_tool_use_and_maybe_block host proposal id.

Definition create_workspace (path : string) : K unit :=
  r ← outside (w_create_dir_all path);
  _ ← sync;
  lift (map_err (fun e => KernelError_Internal ("create workspace: " +++ e)) r).

(** ** A single proposal ([single.rs]) *)
Definition run_action (proposal : ToolProposal) (action : Action) : K Effect :=
  blocked ← match plugin_hooks cfg with
            | Some host => fire_pre_tool_use_and_maybe_block host proposal (action_id action)
            | None => mret None
            end;
  match blocked with
  | Some effect => mret effect
  | None =>
      let workspace := agent_workspace k in
      _ ← create_workspace workspace;
      let ctx := with_tool_use_id (ExecuteContext_new agent (action_id action) workspace)
                   (tp_tool_use_id proposal) in
      execute_with_timeout ctx action (tp_tool proposal)
  end.

Definition process_one (tx : Transaction) (token : option DequeueToken) : K ProcessResult :=
  proposal ← lift (map_err (fun e => KernelError_Serialization ("deserialize ToolProposal: " +++ e))
                     (from_slice (tx_payload tx) : result serde_error ToolProposal));
  runtime_capabilities ← load_runtime_capabilities k;
  proposal_entry ← record_tool_proposal tx token;
  authorized ← authorize_tool_proposal proposal proposal_entry runtime_capabilities;
  executed ← match au_action authorized with
             | Some action =>
                 effect ← run_action (au_proposal authorized) action;
                 x ← record_tool_execution authorized action effect;
                 mret (Some x)
             | None => mret None
             end;
  mret (finish_tool_call authorized executed).

(** ** A batch ([batch.rs]) *)
Fixpoint authorize_all (proposals : list ToolProposal)
    (runtime_capabilities : option RuntimeCapabilityInstall) : K (list Authorized) :=
  match proposals with
  | [] => mret []
  | proposal :: rest =>
      now ← outside w_now_ms;
      tx ← lift (map_err KernelError_Serialization (tool_proposal now agent proposal));
      proposal_entry ← record_tool_proposal tx None;
      authorized ← authorize_tool_proposal proposal proposal_entry runtime_capabilities;
      more ← authorize_all rest runtime_capabilities;
      mret (authorized :: more)
  end.

(** What is dispatched for a slot: its index, context, action and tool. *)
Record Dispatch := {
  dp_index : nat;
  dp_ctx : ExecuteContext;
  dp_action : Action;
  dp_tool : string;
}.

(** The loop over [authorized.iter().enumerate()] from index [i]. *)
Fixpoint plan_slots (workspace : string) (i : nat) (slots : list Authorized)
    (per_slot_effect : list (option Effect)) : K (list (option Effect) * list Dispatch) :=
  match slots with
  | [] => mret (per_slot_effect, [])
  | slot :: rest =>
      match au_action slot with
      | None => plan_slots workspace (S i) rest per_slot_effect
      | Some action =>
          blocked ← match plugin_hooks cfg with
                    | Some host => fire_pre_tool_use_for_batch host (au_proposal slot) (action_id action)
                    | None => mret None
                    end;
          match blocked with
          | Some effect =>
              plan_slots workspace (S i) rest (<[i := Some effect]> per_slot_effect)
          | None =>
              let ctx := with_tool_use_id (ExecuteContext_new agent (action_id action) workspace)
                           (tp_tool_use_id (au_proposal slot)) in
              r ← plan_slots workspace (S i) rest per_slot_effect;
              mret (r.1, {| dp_index := i; dp_ctx := ctx; dp_action := action;
                            dp_tool := tp_tool (au_proposal slot) |} :: r.2)
          end
      end
  end.

Fixpoint execute_all (dispatches : list Dispatch) : K (list Effect) :=
  match dispatches with
  | [] => mret []
  | d :: rest =>
      effect ← execute_with_timeout (dp_ctx d) (dp_action d) (dp_tool d);
      more ← execute_all rest;
      mret (effect :: more)
  end.

Fixpoint fill_slots (dispatches : list Dispatch) (effects : list Effect)
    (per_slot_effect : list (option Effect)) : list (option Effect) :=
  match dispatches, effects with
  | d :: ds, e :: es => fill_slots ds es (<[dp_index d := Some e]> per_slot_effect)
  | _, _ => per_slot_effect
  end.

(** The final loop; the [expect] on a missing effect is the error it would
    panic with. *)
Fixpoint record_all (slots : list (Authorized * option Effect)) : K (list ProcessResult) :=
  match slots with
  | [] => mret []
  | (slot, effect) :: rest =>
      executed ← match au_action slot with
                 | Some action =>
                     match effect with
                     | Some effect => x ← record_tool_execution slot action effect; mret (Some x)
                     | None => fails (KernelError_Internal "allowed verdict must have produced an effect")
                     end
                 | None => mret None
                 end;
      more ← record_all rest;
      mret (finish_tool_call slot executed :: more)
  end.

Definition process_many (tool_proposals : list ToolProposal) : K (list ProcessResult) :=
  match tool_proposals with
  | [] => mret []
  | _ =>
      runtime_capabilities ← load_runtime_capabilities k;
      authorized ← authorize_all tool_proposals runtime_capabilities;
      let workspace := agent_workspace k in
      _ ← create_workspace workspace;
      plan ← plan_slots workspace 0 authorized (replicate (length authorized) None);
      effects ← execute_all plan.2;
      record_all (zip authorized (fill_slots plan.2 effects plan.1))
  end.

(** ** Entry points *)
Definition process_tool_proposal (tx : Transaction) (token : option DequeueToken) : K ProcessResult :=
  process_one tx token.
Definition process_tools (tool_proposals : list ToolProposal) : K (list ProcessResult) :=
  process_many tool_proposals.

Definition process_direct (tx : Transaction) : K ProcessResult :=
  _ ← reject_kernel_only tx;
  if bool_decide (tx_type tx = TransactionType_ToolProposal) then process_tool_proposal tx None
  else process_plain_direct k tx.

Definition process_dequeued (tx : Transaction) (token : DequeueToken) : K ProcessResult :=
  _ ← reject_kernel_only tx;
  if bool_decide (tx_type tx = TransactionType_ToolProposal) then process_tool_proposal tx (Some token)
  else process_plain_dequeued k tx token.
End Tools.
