(* ===== verification/KernelInv.v ===== *)
(** The kernel keeps the record log valid.

    Rely: other tasks only extend the agent's log with valid entries, only add
    to its inbox, and do so within a budget ([demand]); calls to the outside do
    not raise that budget ([world_ok]).  Guarantee: [kinv], the store
    represents the agent with a valid log that extends a known lower bound,
    has room for what is still to be appended, and holds every entry the
    kernel has appended.

    The races are in the proof: between reading the head, loading the window
    and appending, the log may grow; an append then fails, so an append that
    succeeds was hashed over exactly the window before it. *)
From S2P Require Import Prelude Values Modes Permissions CoreTypes Policy Keys StoreSpec Utf8 Exec Context Replay Kernel KernelTools.
From stdpp Require Import list.
From Stdlib Require Import Strings.Byte.

(** * Rely-guarantee triples for programs in [stm]

    A small Hoare logic for the state-and-error monad.

    [hoare P m Q R]: started in a state satisfying [P], [m] ends in [Q x] when
    it returns [x] and in [R] when it fails.  Programs are total functions, so
    the judgement speaks of every run. *)
Definition hoare {S E A} (P : S -> Prop) (m : stm S E A) (Q : A -> S -> Prop) (R : S -> Prop) : Prop :=
  forall s r s', m s = (r, s') -> P s -> match r with Ok x => Q x s' | Err _ => R s' end.

Create HintDb hoare.

Section Rules.
Context {S E : Type}.
Implicit Types P R : S -> Prop.

Lemma hoare_bind {A B} P (m : stm S E A) (f : A -> stm S E B) Q Q' R :
  hoare P m Q R -> (forall x, hoare (Q x) (f x) Q' R) -> hoare P (m ≫= f) Q' R.
Proof.
  intros Hm Hf s r s' Hrun HP. unfold mbind, stm_bind in Hrun.
  destruct (m s) as [[x|e] s1] eqn:Em.
  - eapply Hf; [exact Hrun|]. exact (Hm _ _ _ Em HP).
  - injection Hrun as <- <-. exact (Hm _ _ _ Em HP).
Qed.

Lemma hoare_conseq {A} P P' (m : stm S E A) (Q Q' : A -> S -> Prop) R R' :
  (forall s, P s -> P' s) -> (forall x s, Q' x s -> Q x s) -> (forall s, R' s -> R s) ->
  hoare P' m Q' R' -> hoare P m Q R.
Proof.
  intros HP HQ HR Hm s r s' Hrun Hs. specialize (Hm s r s' Hrun (HP _ Hs)). destruct r; auto.
Qed.

Lemma hoare_ret {A} P (x : A) Q R : (forall s, P s -> Q x s) -> hoare P (mret x : stm S E A) Q R.
Proof. intros HQ s r s' [= <- <-] Hs. by apply HQ. Qed.

Lemma hoare_lift {A} P (r : result E A) Q R :
  (forall x s, r = Ok x -> P s -> Q x s) -> (forall s, P s -> R s) -> hoare P (lift r) Q R.
Proof. intros HQ HR s r' s' [= <- <-] Hs. destruct r; auto. Qed.

Lemma hoare_fails {A} P (e : E) (Q : A -> S -> Prop) R : (forall s, P s -> R s) -> hoare P (fails e) Q R.
Proof. intros HR s r' s' [= <- <-] Hs. auto. Qed.

Lemma hoare_gets {A} P (f : S -> A) (Q : A -> S -> Prop) R :
  (forall s, P s -> Q (f s) s) -> hoare P (gets f : stm S E A) Q R.
Proof. intros HQ s r' s' [= <- <-] Hs. auto. Qed.

Lemma hoare_modify P (f : S -> S) (Q : unit -> S -> Prop) R :
  (forall s, P s -> Q tt (f s)) -> hoare P (modify f : stm S E unit) Q R.
Proof. intros HQ s r' s' [= <- <-] Hs. auto. Qed.

Lemma hoare_map_err {F A} P (g : F -> E) (m : stm S F A) Q R :
  hoare P m Q R -> hoare P (stm_map_err g m) Q R.
Proof.
  intros Hm s r s' Hrun Hs. unfold stm_map_err in Hrun. destruct (m s) as [r1 s1] eqn:Em.
  specialize (Hm _ _ _ Em Hs). by destruct r1; injection Hrun as <- <-.
Qed.

Lemma hoare_ex {A X} (P : X -> S -> Prop) (m : stm S E A) Q R :
  (forall x, hoare (P x) m Q R) -> hoare (fun s => exists x, P x s) m Q R.
Proof. intros Hm s r s' Hrun [x Hx]. by eapply Hm. Qed.

Lemma hoare_pure {A} (phi : Prop) P (m : stm S E A) Q R :
  (phi -> hoare P m Q R) -> hoare (fun s => phi /\ P s) m Q R.
Proof. intros Hm s r s' Hrun [Hphi Hs]. by eapply Hm. Qed.
End Rules.

#[export] Hint Resolve hoare_ret hoare_gets hoare_modify hoare_fails : hoare.

Create HintDb pres.

Lemma u64_add_range a b : is_u64 (u64_add a b).
Proof. unfold is_u64, u64_add, u64_wrap. pose proof (Z.mod_pos_bound (a + b) (2 ^ 64)). lia. Qed.
(** A call to the outside that does not raise the budget. *)
Definition calm {E A} (demand : E -> nat) (f : E -> A * E) : Prop :=
  forall e x e', f e = (x, e') -> demand e' <= demand e.

Section Inv.
Context {ST E : Type} `{Store ST} `{!StoreSpec ST} `{Blake3} `{Hex} `{ModelTypes} `{!World E ST}.
Context `{StrDebug} `{JsonText}.
Context `{!Serde Transaction, !Serde json, !FromJson RuntimeCapabilityInstall, !Serde RecordPayload}.
Context `{!Serde ToolCall, !Serde ToolProposal, !Serde ToolExecution, !Serde PolicyDecision}.
Context `{!Serde ToolResult} `{Hrule : HashRule}.

Abbreviation KS := (KState ST E).

Context (k : Kernel E) (demand : E -> nat).
Abbreviation agent := (k_agent_id k).
Abbreviation W := (record_window_size (k_config k)).

(** What the kernel relies on. *)
Record world_ok : Prop := {
  wo_window : (0 < W)%Z;
  wo_rule log e : hashed_over e (last_window W log) -> entry_hashed log e;
  wo_interfere s e s' e' v : w_interfere s e = (s', e') -> abstracts s agent v ->
    log_follows (av_log v) ->
    exists v', abstracts s' agent v' /\ av_log v `prefix_of` av_log v' /\ log_follows (av_log v')
      /\ length (av_log v') + demand e' <= length (av_log v) + demand e
      /\ av_inbox_head v' = av_inbox_head v /\ av_inbox v `prefix_of` av_inbox v';
  wo_now : calm demand w_now_ms;
  wo_action_id : calm demand w_generate_action_id;
  wo_create_dir p : calm demand (w_create_dir_all p);
  wo_elapsed ms : calm demand (w_elapsed ms);
  wo_complete r : calm demand (w_complete r);
  wo_streaming r : calm demand (w_complete_streaming r);
  wo_execute x ctx a : x ∈ k_executor k -> calm demand (ex_execute x ctx a);
  wo_prompt f p : tool_approval_prompter (k_config k) = Some f -> calm demand (f p);
  wo_permission host t a r m : plugin_hooks (k_config k) = Some host ->
    calm demand (fire_permission_request host t a r m);
  wo_pre_tool host t a i : plugin_hooks (k_config k) = Some host ->
    calm demand (fire_pre_tool_use host t a i);
  wo_observer f x e : tool_audit_observer (k_config k) = Some f -> demand (f x e) <= demand e;
}.

(** An appended entry is in the log. *)
Definition event_in_log (log : list RecordEntry) (ev : KernelEvent) : Prop :=
  match ev with
  | Ev_append e => exists i, log !! i = Some e
  | Ev_dispatch _ => True
  end.

(** The invariant, witnessed by a view: room for [n] more appends, inbox head
    [h] with [q] in front, and a log that extends [lb]. *)
Record kview (n : nat) (h : Z) (q : list Transaction) (lb : list RecordEntry) (st : KS)
    (v : AgentView) : Prop := {
  kv_abs : abstracts (ks_store st) agent v;
  kv_valid : log_follows (av_log v);
  kv_lb : lb `prefix_of` av_log v;
  kv_room : (Z.of_nat (length (av_log v) + demand (ks_env st) + n) < u64_max)%Z;
  kv_head : av_inbox_head v = h;
  kv_inbox : q `prefix_of` av_inbox v;
  kv_events : Forall (event_in_log (av_log v)) (ks_events st);
  kv_seq : is_u64 (ks_seq st);
}.
Definition kinv (n : nat) (h : Z) (q : list Transaction) (lb : list RecordEntry) (st : KS) : Prop :=
  exists v, kview n h q lb st v.

Lemma event_in_log_prefix log log' ev :
  log `prefix_of` log' -> event_in_log log ev -> event_in_log log' ev.
Proof.
  intros Hp. destruct ev as [e|]; [|done]. intros [i Hi]. exists i. by eapply prefix_lookup_Some.
Qed.

Lemma kinv_weaken n n' h q lb lb' st :
  n' <= n -> lb' `prefix_of` lb -> kinv n h q lb st -> kinv n' h q lb' st.
Proof.
  intros Hn Hlb [v [Ha Hv Hp Hr Hh Hi He Hsq]]. exists v. split; try done; [by etrans|lia].
Qed.

(** Changes that touch neither the store nor the events. *)
Lemma kinv_same n h q lb st st' :
  ks_store st' = ks_store st -> ks_events st' = ks_events st ->
  demand (ks_env st') <= demand (ks_env st) -> (is_u64 (ks_seq st) -> is_u64 (ks_seq st')) ->
  kinv n h q lb st -> kinv n h q lb st'.
Proof.
  intros Hs He Hd Hq [v [Ha Hv Hp Hr Hh Hi Hev Hsq]]. exists v. split; rewrite ?Hs, ?He; auto. lia.
Qed.

Context (Hw : world_ok).

(** ** Primitives *)
Lemma hoare_sync {Err} n h q lb :
  hoare (kinv n h q lb) (sync : stm KS Err unit) (fun _ => kinv n h q lb) (kinv n h q lb).
Proof.
  intros st r st' Hrun [v [Ha Hv Hp Hr Hh Hi He Hsq]]. unfold sync in Hrun.
  destruct (w_interfere (ks_store st) (ks_env st)) as [s e] eqn:Ew. injection Hrun as <- <-.
  destruct (wo_interfere Hw _ _ _ _ v Ew Ha Hv) as (v' & Ha' & Hp' & Hv' & Hd & Hh' & Hi').
  exists v'. split; cbn; try done.
  - by etrans.
  - lia.
  - congruence.
  - by etrans.
  - eapply Forall_impl; [exact He|]. intros ev. by apply event_in_log_prefix.
Qed.

Lemma hoare_outside {Err A} (f : E -> A * E) n h q lb :
  calm demand f ->
  hoare (kinv n h q lb) (outside f : stm KS Err A) (fun _ => kinv n h q lb) (kinv n h q lb).
Proof.
  intros Hf st r st' Hrun Hk. unfold outside in Hrun. destruct (f (ks_env st)) as [x e] eqn:Ef.
  injection Hrun as <- <-. eapply kinv_same; [| | | |exact Hk]; try done. cbn. by eapply Hf.
Qed.

Lemma hoare_with_timeout {Err A} ms (f : E -> A * E) n h q lb :
  calm demand f ->
  hoare (kinv n h q lb) (with_timeout ms f : stm KS Err (option A)) (fun _ => kinv n h q lb)
    (kinv n h q lb).
Proof.
  intros Hf. unfold with_timeout. eapply hoare_bind; [by apply hoare_outside|]. intros x.
  eapply hoare_bind; [apply hoare_outside, (wo_elapsed Hw)|]. intros late.
  eapply hoare_bind; [apply hoare_sync|]. intros ?. by apply hoare_ret.
Qed.

(** A read sees a view that extends the lower bound. *)
Lemma hoare_store_read {Err A} (f : ST -> result Err A) n h q lb (Q : list RecordEntry -> A -> Prop) :
  (forall s v x, abstracts s agent v -> (Z.of_nat (length (av_log v)) < u64_max)%Z ->
     lb `prefix_of` av_log v -> f s = Ok x -> Q (av_log v) x) ->
  hoare (kinv n h q lb) (store_read f : stm KS Err A)
    (fun x st => exists lb', (lb `prefix_of` lb' /\ Q lb' x) /\ kinv n h q lb' st) (kinv n h q lb).
Proof.
  intros HQ. unfold store_read. eapply hoare_bind; [apply hoare_sync|]. intros [] st r st' [= <- <-] Hk.
  destruct (f (ks_store st)) as [x|e] eqn:Ef; [|done]. destruct Hk as [v [Ha Hv Hp Hr Hh Hi He Hsq]].
  exists (av_log v). split.
  - split; [done|]. eapply HQ; [done| |done|done]. lia.
  - exists v. by split.
Qed.

Lemma next_seq_spec n h q lb :
  hoare (kinv n h q lb) (next_seq k)
    (fun s st => exists lb', (lb `prefix_of` lb' /\ s = (Z.of_nat (length lb') + 1)%Z) /\ kinv n h q lb' st)
    (kinv n h q lb).
Proof.
  unfold next_seq. eapply hoare_bind.
  - apply hoare_map_err.
    apply (hoare_store_read _ _ _ _ _ (fun lb' x => x = Z.of_nat (length lb')
             /\ (Z.of_nat (length lb') < u64_max)%Z)).
    intros s v x Ha Hb _ Hx. split; [by eapply spec_head_seq|done].
  - intros x. apply hoare_ex. intros lb'. apply hoare_pure. intros (Hp & -> & Hb). cbn zeta.
    eapply hoare_bind.
    + apply (hoare_modify (kinv n h q lb') _ (fun _ => kinv n h q lb')).
      intros st Hk. eapply kinv_same; [| | | |exact Hk]; try done. intros _. apply u64_add_range.
    + intros ?. apply hoare_ret. intros st Hk. exists lb'. split; [|done]. split; [done|].
      unfold u64_add, u64_wrap, u64_max in *. rewrite Z.mod_small; lia.
Qed.

(** The loaded window is the prior window unless the log has moved on. *)
Definition window_ready (width s : Z) (w : list RecordEntry) (lb : list RecordEntry) : Prop :=
  (s <= Z.of_nat (length lb) + 1)%Z
  /\ (s = (Z.of_nat (length lb) + 1)%Z -> w = last_window width lb).

Lemma load_window_spec n h q lb s :
  (1 <= s <= Z.of_nat (length lb) + 1)%Z ->
  hoare (kinv n h q lb) (load_window k s)
    (fun w st => exists lb', (lb `prefix_of` lb' /\ window_ready W s w lb') /\ kinv n h q lb' st)
    (kinv n h q lb).
Proof.
  intros Hs. unfold load_window. apply hoare_map_err. cbn zeta.
  apply (hoare_store_read _ _ _ _ _ (fun lb' w => window_ready W s w lb')).
  intros st v w Ha Hb Hp Hx. pose proof (prefix_length _ _ Hp) as Hl. pose proof (wo_window Hw).
  split; [lia|]. intros ->. apply (spec_scan _ _ _ _ _ _ Ha) in Hx as ->; [|..|done].
  - apply log_window_next. lia.
  - unfold is_u64, saturating_sub, u64_max in *. lia.
Qed.
(** ** Appends *)
Lemma kview_append n h q lb st v e s' caps clear h' q' v' :
  kview (S n) h q lb st v -> length (av_log v) = length lb -> entry_follows lb e ->
  av_log v' = av_log (view_append v [e] caps clear) -> abstracts s' agent v' ->
  av_inbox_head v' = h' -> q' `prefix_of` av_inbox v' ->
  kinv n h' q' (lb ++ [e]) (log_event (Ev_append e) (set_store s' st)).
Proof.
  intros [Ha Hv Hp Hr Hh Hi He Hsq] Hlen Hval Hlog Ha' Hh' Hq'.
  assert (av_log v = lb) as Hlb by (by apply prefix_length_eq in Hp; [|lia]).
  exists v'. rewrite <-Hlb in *. cbn in Hlog. split; cbn; rewrite ?Hlog; try done.
  - by apply log_follows_snoc.
  - rewrite length_app. cbn. lia.
  - apply Forall_app. split.
    + eapply Forall_impl; [exact He|]. intros ev. apply event_in_log_prefix. by eexists.
    + apply Forall_singleton. cbn. exists (length (av_log v)).
      by rewrite lookup_app_r, Nat.sub_diag by lia.
Qed.

Lemma kview_append_room n h q lb st v : kview (S n) h q lb st v -> log_room v 1.
Proof. intros [Ha Hv Hp Hr Hh Hi He Hsq]. unfold log_room. lia. Qed.

Lemma store_append_spec n h q lb s e caps clear :
  (s <= Z.of_nat (length lb) + 1)%Z ->
  (s = (Z.of_nat (length lb) + 1)%Z -> entry_follows lb e) ->
  hoare (kinv (S n) h q lb)
    (store_write (st_append_entry_direct_with_runtime_capabilities agent s e caps clear))
    (fun _ st => kinv n h q (lb ++ [e]) (log_event (Ev_append e) st)) (kinv (S n) h q lb).
Proof.
  intros Hs Hval. unfold store_write. eapply hoare_bind; [apply hoare_sync|].
  intros []. intros st r st' Hrun [v Hk]. unfold on_store in Hrun.
  destruct (st_append_entry_direct_with_runtime_capabilities _ _ _ _ _ (ks_store st)) as [r1 s'] eqn:Ea.
  injection Hrun as <- <-. pose proof Hk as [Ha Hv Hp Hr Hh Hi He Hsq].
  destruct (spec_append_direct _ _ _ _ _ _ _ _ Ea) as [_ Hsp]. specialize (Hsp agent v Ha).
  destruct r1 as [[]|err].
  - rewrite bool_decide_eq_true_2 in Hsp by done. destruct Hsp as [Hseq Hab].
    pose proof (prefix_length _ _ Hp).
    eapply (kview_append n h q lb st v e s' caps clear); [done|lia|apply Hval; lia|done| |done|done].
    apply Hab. by eapply kview_append_room.
  - rewrite bool_decide_eq_false_2 in Hsp by naive_solver. exists v. by split.
Qed.

Lemma append_direct_spec n h q lb context s e caps clear :
  (s <= Z.of_nat (length lb) + 1)%Z ->
  (s = (Z.of_nat (length lb) + 1)%Z -> entry_follows lb e) ->
  hoare (kinv (S n) h q lb) (append_direct k context s e caps clear)
    (fun _ st => kinv n h q (lb ++ [e]) st) (kinv n h q lb).
Proof.
  intros Hs Hval. unfold append_direct. eapply hoare_bind.
  - apply hoare_map_err. eapply hoare_conseq; [| | |by apply store_append_spec]; [done| |].
    + intros x st Hk. exact Hk.
    + intros st. apply kinv_weaken; [lia|done].
  - intros []. by apply hoare_modify.
Qed.

Lemma append_dequeued_spec n h q0 q lb context s e token caps clear :
  (s <= Z.of_nat (length lb) + 1)%Z ->
  (s = (Z.of_nat (length lb) + 1)%Z -> entry_follows lb e) ->
  token_inbox_seq token = h ->
  hoare (kinv (S n) h (q0 :: q) lb) (append_dequeued k context s e token caps clear)
    (fun _ st => kinv n (h + 1) q (lb ++ [e]) st) (kinv n h (q0 :: q) lb).
Proof.
  intros Hs Hval Htok. unfold append_dequeued.
  eapply (hoare_bind _ _ _ (fun _ st => kinv n (h + 1) q (lb ++ [e]) (log_event (Ev_append e) st))).
  - apply hoare_map_err. unfold store_write.
    eapply hoare_bind.
    { eapply hoare_conseq; [done| |..|apply (hoare_sync (S n) h (q0 :: q) lb)];
        [intros ? st Hk; exact Hk|intros st; apply kinv_weaken; [lia|done]]. }
    intros []. intros st r st' Hrun [v Hk]. unfold on_store in Hrun.
    destruct (st_append_entry_dequeued_with_runtime_capabilities _ _ _ _ _ _ (ks_store st))
      as [r1 s'] eqn:Ea.
    injection Hrun as <- <-. pose proof Hk as [Ha Hv Hp Hr Hh Hi He Hsq].
    assert (is_u64 (token_inbox_seq token)) as Hu.
    { rewrite Htok, <-Hh. by eapply spec_inbox_bound. }
    destruct (spec_append_dequeued _ _ _ _ _ _ _ _ _ Hu Ea) as [_ Hsp]. specialize (Hsp agent v Ha).
    destruct Hi as [qr Hi].
    destruct r1 as [[]|err].
    + rewrite bool_decide_eq_true_2 in Hsp by done. destruct Hsp as [Hseq Hab].
      pose proof (prefix_length _ _ Hp).
      eapply (kview_append n h (q0 :: q) lb st v e s' caps clear);
        [done|lia|apply Hval; lia| |apply Hab| |].
      * done.
      * by eapply kview_append_room.
      * congruence.
      * by rewrite Hi.
      * cbn. lia.
      * cbn. rewrite Hi. by eexists.
    + rewrite bool_decide_eq_false_2 in Hsp by naive_solver.
      exists v. split; cbn; try done; [lia|by eexists].
  - intros []. by apply hoare_modify.
Qed.
(** ** Programs that keep the invariant and append at most [c] entries *)
Definition pres {Err A} (c : nat) (m : stm KS Err A) : Prop :=
  forall n h q lb, hoare (kinv (c + n) h q lb) m (fun _ => kinv n h q lb) (kinv n h q lb).

Lemma pres_bind {Err A B} c1 c2 (m : stm KS Err A) (f : A -> stm KS Err B) :
  pres c1 m -> (forall x, pres c2 (f x)) -> pres (c1 + c2) (m ≫= f).
Proof.
  intros Hm Hf n h q lb. eapply (hoare_bind _ _ _ (fun _ => kinv (c2 + n) h q lb)).
  - eapply hoare_conseq; [| | |apply (Hm (c2 + n) h q lb)].
    + intros st. by rewrite Nat.add_assoc.
    + done.
    + intros st. apply kinv_weaken; [lia|done].
  - intros x. apply Hf.
Qed.
Lemma pres_weaken {Err A} c c' (m : stm KS Err A) : c <= c' -> pres c m -> pres c' m.
Proof.
  intros Hc Hm n h q lb. eapply hoare_conseq; [| | |apply (Hm n h q lb)]; [|done|done].
  intros st. apply kinv_weaken; [lia|done].
Qed.
(** A program that appends nothing, then one that appends [c]. *)
Lemma pres_bind0 {Err A B} c (m : stm KS Err A) (f : A -> stm KS Err B) :
  pres 0 m -> (forall x, pres c (f x)) -> pres c (m ≫= f).
Proof. apply (pres_bind 0 c). Qed.

Lemma pres_ret {Err A} c (x : A) : pres c (mret x : stm KS Err A).
Proof. intros n h q lb. apply hoare_ret. intros st. apply kinv_weaken; [lia|done]. Qed.
Lemma pres_fails {Err A} c (e : Err) : pres c (fails e : stm KS Err A).
Proof. intros n h q lb. apply hoare_fails. intros st. apply kinv_weaken; [lia|done]. Qed.
Lemma pres_lift {Err A} c (r : result Err A) : pres c (lift r : stm KS Err A).
Proof.
  intros n h q lb. apply hoare_lift.
  - intros x st _. apply kinv_weaken; [lia|done].
  - intros st. apply kinv_weaken; [lia|done].
Qed.
Lemma pres_gets {Err A} (f : KS -> A) : pres 0 (gets f : stm KS Err A).
Proof. intros n h q lb. by apply hoare_gets. Qed.
Lemma pres_sync {Err} : pres 0 (sync : stm KS Err unit).
Proof. intros n h q lb. apply hoare_sync. Qed.
Lemma pres_outside {Err A} (f : E -> A * E) : calm demand f -> pres 0 (outside f : stm KS Err A).
Proof. intros Hf n h q lb. by apply hoare_outside. Qed.
Lemma pres_with_timeout {Err A} ms (f : E -> A * E) :
  calm demand f -> pres 0 (with_timeout ms f : stm KS Err (option A)).
Proof. intros Hf n h q lb. by apply hoare_with_timeout. Qed.
Lemma pres_map_err {Err Err' A} c (g : Err -> Err') (m : stm KS Err A) :
  pres c m -> pres c (stm_map_err g m).
Proof. intros Hm n h q lb. apply hoare_map_err, Hm. Qed.
Lemma pres_store_read {Err A} (f : ST -> result Err A) : pres 0 (store_read f : stm KS Err A).
Proof.
  intros n h q lb. eapply hoare_conseq; [| | |apply (hoare_store_read f n h q lb (fun _ _ => True))];
    [done| |done|done].
  intros x st (lb' & [Hp _] & Hk). by eapply kinv_weaken.
Qed.
Lemma pres_set_policy {Err} (f : KS -> Policy) :
  pres 0 (modify (fun st => set_policy (f st) st) : stm KS Err unit).
Proof.
  intros n h q lb. apply hoare_modify. intros st Hk. eapply kinv_same; [| | | |exact Hk]; done.
Qed.
Lemma pres_dispatch {Err} a : pres 0 (modify (log_event (Ev_dispatch a)) : stm KS Err unit).
Proof.
  intros n h q lb. apply hoare_modify. intros st [v [Ha Hv Hp Hr Hh Hi He Hsq]]. exists v.
  split; cbn; try done. apply Forall_app. split; [done|]. by apply Forall_singleton.
Qed.
Lemma pres_put_user u d : pres 0 (store_write (st_put_user_tool_defaults u d)).
Proof.
  intros n h q lb. unfold store_write. eapply hoare_bind; [apply hoare_sync|].
  intros [] st r st' Hrun [v [Ha Hv Hp Hr Hh Hi He Hsq]]. unfold on_store in Hrun.
  destruct (st_put_user_tool_defaults u d (ks_store st)) as [r1 s'] eqn:Ep. injection Hrun as <- <-.
  destruct (spec_put_user _ _ _ _ _ Ep) as [Hs _].
  assert (kinv n h q lb (set_store s' st)) as Hk by (exists v; split; cbn; auto). by destruct r1.
Qed.
End Inv.

#[export] Hint Resolve pres_ret pres_fails pres_lift pres_gets pres_sync pres_store_read
  pres_set_policy pres_dispatch pres_put_user : pres.
