(* ===== verification/KernelSafe.v ===== *)
(** Every operation of the kernel keeps the log valid.

    Each operation of [Kernel.v] and [KernelTools.v] is shown to satisfy
    [pres c]: from a state with room for [c] more entries it ends, whether it
    succeeds or fails and whatever other tasks do, in a state whose log is
    valid and contains all the entries it appended. *)
From S2P Require Import Prelude Values Modes Permissions CoreTypes Policy Keys StoreSpec Utf8 Exec Context Replay Kernel KernelTools KernelInv.
From stdpp Require Import list.
From Stdlib Require Import Strings.Byte.

Section Safe.
Context {ST E : Type} `{Store ST} `{!StoreSpec ST} `{Blake3} `{Hex} `{ModelTypes} `{!World E ST}.
Context `{StrDebug} `{JsonText}.
Context `{!Serde Transaction, !Serde json, !FromJson RuntimeCapabilityInstall, !Serde RecordPayload}.
Context `{!Serde ToolCall, !Serde ToolProposal, !Serde ToolExecution, !Serde PolicyDecision}.
Context `{!Serde ToolResult} `{Hrule : HashRule}.

Abbreviation KS := (KState ST E).
Context (k : Kernel E) (demand : E -> nat) (Hw : world_ok k demand).
Abbreviation W := (record_window_size (k_config k)).
Abbreviation kinv := (kinv k demand).
Abbreviation pres := (pres k demand).

(** ** Entries ready to append *)
Definition entry_ready (s : Z) (e : RecordEntry) (lb : list RecordEntry) : Prop :=
  (s <= Z.of_nat (length lb) + 1)%Z
  /\ (s = (Z.of_nat (length lb) + 1)%Z -> entry_follows lb e).

Lemma entry_ready_intro width s w lb tx ch e :
  (forall log e, hashed_over e (last_window width log) -> entry_hashed log e) ->
  window_ready width s w lb -> hash_tx_with_window tx w = Ok ch ->
  re_seq e = s -> re_tx e = tx -> re_context_hash e = ch -> entry_ready s e lb.
Proof.
  intros Hwidth [Hs Hwin] Hh Hseq Htx Hch. split; [done|]. intros Eq. split; [congruence|].
  apply Hwidth. unfold hashed_over. by rewrite Htx, Hch, <-(Hwin Eq).
Qed.

(** A builder step that keeps the number, the transaction and the hash. *)
Definition fill_ok (fill : RecordEntryBuilder -> RecordEntryBuilder) : Prop :=
  forall b, b_seq (fill b) = b_seq b /\ b_tx (fill b) = b_tx b
    /\ b_context_hash (fill b) = b_context_hash b.

(** Loading the window and hashing make the entry ready. *)
Lemma window_hash_spec {A} n h q lb s tx (f : ContextHash -> stm KS KernelError A) Q R :
  (1 <= s <= Z.of_nat (length lb) + 1)%Z ->
  (forall st, kinv n h q lb st -> R st) ->
  (forall ch lb', lb `prefix_of` lb' ->
     (forall e, re_seq e = s -> re_tx e = tx -> re_context_hash e = ch -> entry_ready s e lb') ->
     hoare (kinv n h q lb') (f ch) Q R) ->
  hoare (kinv n h q lb)
    (window ← load_window k s; context_hash ← lift (hash_tx_with_window tx window); f context_hash) Q R.
Proof.
  intros Hs HR Hf. eapply hoare_bind.
  - eapply hoare_conseq; [| | |by apply (load_window_spec k demand Hw n h q lb s)]; [done| |exact HR].
    intros x st Hx. exact Hx.
  - intros w. apply hoare_ex. intros lb'. apply hoare_pure. intros [Hp Hready].
    eapply hoare_bind.
    + apply (hoare_lift _ _ (fun ch st => hash_tx_with_window tx w = Ok ch /\ kinv n h q lb' st)).
      * done.
      * intros st Hk. apply HR. by eapply kinv_weaken.
    + intros ch. apply hoare_pure. intros Hh. apply (Hf ch lb' Hp).
      intros e. apply (entry_ready_intro W s w); [apply (wo_rule _ _ Hw)|done..].
Qed.

Lemma append_ready_spec n h q lb context s e caps clear :
  entry_ready s e lb ->
  hoare (kinv (S n) h q lb) (append_direct k context s e caps clear)
    (fun _ => kinv n h q (lb ++ [e])) (kinv n h q lb).
Proof. intros [Hs Hv]. by apply append_direct_spec. Qed.

(** Number, window, hash: the shape of every recorded step. *)
Lemma numbered_spec {A} n h q lb tx (f : Z -> ContextHash -> stm KS KernelError A) Q R :
  (forall st, kinv n h q lb st -> R st) ->
  (forall s ch lb', lb `prefix_of` lb' ->
     (forall e, re_seq e = s -> re_tx e = tx -> re_context_hash e = ch -> entry_ready s e lb') ->
     hoare (kinv n h q lb') (f s ch) Q R) ->
  hoare (kinv n h q lb)
    (seq ← next_seq k; window ← load_window k seq;
     context_hash ← lift (hash_tx_with_window tx window); f seq context_hash) Q R.
Proof.
  intros HR Hf. eapply hoare_bind.
  { eapply hoare_conseq; [| | |apply (next_seq_spec k demand Hw n h q lb)]; [done| |exact HR].
    intros x st Hx. exact Hx. }
  intros s. apply hoare_ex. intros lb0. apply hoare_pure. intros [Hp0 ->].
  apply (window_hash_spec n h q lb0); [lia| |].
  - intros st Hk. apply HR. by eapply kinv_weaken.
  - intros ch lb1 Hp1 Hready. apply (Hf _ ch lb1); [by etrans|done].
Qed.

Lemma pres_observe_entry e : pres 0 (observe_entry k e).
Proof.
  unfold observe_entry. destruct (tool_audit_observer (k_config k)) as [f|] eqn:Ef; [|apply pres_ret].
  apply pres_outside. intros env x env' [= <- <-]. by apply (wo_observer _ _ Hw).
Qed.

Lemma append_tool_entry_spec tx fill token n h q h' q' lb :
  fill_ok fill ->
  (forall s e lb', entry_ready s e lb' ->
     hoare (kinv (S n) h q lb')
       (match token with
        | Some token => append_dequeued k "append_entry_dequeued" s e token None false
        | None => append_direct k "append_entry_direct" s e None false
        end) (fun _ => kinv n h' q' (lb' ++ [e])) (kinv n h q lb')) ->
  hoare (kinv (S n) h q lb) (append_tool_entry k tx fill token) (fun _ => kinv n h' q' lb) (kinv n h q lb).
Proof.
  intros Hfill Happ. unfold append_tool_entry. apply numbered_spec.
  { intros st. apply kinv_weaken; [lia|done]. }
  intros s ch lb1 Hp1 Hready. cbn zeta.
  set (e := build (fill (with_context_hash (builder s tx) ch))).
  assert (entry_ready s e lb1) as He.
  { destruct (Hfill (with_context_hash (builder s tx) ch)) as (H1' & H2' & H3'). by apply Hready. }
  eapply (hoare_bind _ _ _ (fun _ => kinv n h' q' lb)).
  { eapply hoare_conseq; [| | |apply (Happ s e lb1 He)]; [done| |].
    - intros ? st. apply kinv_weaken; [lia|]. etrans; [exact Hp1|]. by eexists.
    - intros st. by apply kinv_weaken. }
  intros []. intros st r st' Hrun Hk. unfold mbind, stm_bind in Hrun.
  destruct (observe_entry k e st) as [r1 st1] eqn:Eo.
  assert (kinv n h' q' lb st1 /\ exists x, r1 = Ok x) as [Hk1 [x ->]].
  { pose proof (pres_observe_entry e n h' q' lb st r1 st1 Eo Hk) as Hpost.
    unfold observe_entry in Eo. destruct (tool_audit_observer (k_config k));
      [unfold outside in Eo|]; injection Eo as <- <-; eauto. }
  by injection Hrun as <- <-.
Qed.

Lemma pres_append_tool_entry tx fill : fill_ok fill -> pres 1 (append_tool_entry k tx fill None).
Proof.
  intros Hfill n h q lb. apply (append_tool_entry_spec tx fill None); [done|].
  intros s e lb'. by apply append_ready_spec.
Qed.

Lemma append_tool_entry_token tx fill token n h q0 q lb :
  fill_ok fill -> token_inbox_seq token = h ->
  hoare (kinv (S n) h (q0 :: q) lb) (append_tool_entry k tx fill (Some token))
    (fun _ => kinv n (h + 1) q lb) (kinv n h (q0 :: q) lb).
Proof.
  intros Hfill Htok. apply (append_tool_entry_spec tx fill (Some token)); [done|].
  intros s e lb' [Hs Hv]. by apply append_dequeued_spec.
Qed.

(** ** Outside calls of the pipeline *)
Lemma calm_router ctx a : calm demand (router_execute (k_executor k) ctx a).
Proof.
  intros e x e' Hr. unfold router_execute in Hr.
  destruct (List.filter _ _) as [|x1 [|x2 l]] eqn:Ef; try (by injection Hr as <- <-).
  assert (x1 ∈ k_executor k) as Hin.
  { apply list_elem_of_In. eapply (List.filter_In (fun x => ex_can_handle x a)). rewrite Ef. by left. }
  destruct (ex_execute x1 ctx a e) as [r1 e1] eqn:Ex.
  apply (wo_execute _ _ Hw) in Ex; [|done]. destruct r1; by injection Hr as <- <-.
Qed.

Lemma pres_execute_with_timeout ctx a tool : pres 0 (execute_with_timeout k ctx a tool).
Proof.
  unfold execute_with_timeout. apply pres_bind0; [apply pres_dispatch|]. intros _.
  destruct (tool_manages_own_timeout tool).
  - apply pres_bind0; [by apply pres_outside, calm_router|]. intros x.
    apply pres_bind0; [by apply pres_sync|]. intros _. apply pres_ret.
  - apply pres_bind0; [by apply pres_with_timeout, calm_router|]. intros x. apply pres_ret.
Qed.

Lemma pres_remember tool state : pres 0 (remember_for_session tool state : stm KS KernelError unit).
Proof.
  unfold remember_for_session. apply pres_bind0; [apply pres_gets|]. intros p.
  apply (pres_set_policy k demand (fun _ => remember_tool_state_for_session p tool state)).
Qed.

Lemma pres_apply_response prompt response : pres 0 (apply_live_approval_response k prompt response).
Proof.
  unfold apply_live_approval_response. destruct (tar_remember response);
    [apply pres_ret|apply pres_remember|].
  destruct (originating_user_id (k_config k)) as [u|]; [|apply pres_fails].
  apply pres_bind0; [by apply pres_map_err, pres_put_user|]. intros _. apply pres_remember.
Qed.

Lemma pres_permission_hook prompt reason : pres 0 (permission_hook k prompt reason).
Proof.
  unfold permission_hook. destruct (plugin_hooks (k_config k)) as [host|] eqn:Eh; [|apply pres_ret].
  apply pres_bind0; [by apply pres_outside, (wo_permission _ _ Hw)|]. intros d. apply pres_ret.
Qed.

Lemma pres_resolve_prompt ev : pres 0 (resolve_prompt k ev).
Proof.
  unfold resolve_prompt. destruct (ev_verdict ev) as [|reason [prompt|]|]; try apply pres_ret.
  apply pres_bind0; [apply pres_permission_hook|]. intros [[verdict rule]|]; [apply pres_ret|].
  destruct (tool_approval_prompter (k_config k)) as [f|] eqn:Ep; [|apply pres_ret].
  apply pres_bind0; [by apply pres_outside, (wo_prompt _ _ Hw)|]. intros answer.
  apply pres_bind0; [by apply pres_sync|]. intros _. apply pres_bind0; [apply pres_lift|]. intros response.
  apply pres_bind0; [apply pres_apply_response|]. intros _. apply pres_ret.
Qed.

Lemma pres_resolve_live_ask tool args id ev : pres 0 (resolve_live_ask k tool args id ev).
Proof.
  unfold resolve_live_ask. apply pres_bind0; [apply pres_gets|]. intros p. cbn zeta.
  destruct (is_deny _); [apply pres_ret|]. destruct (is_ask_without_prompt _ && _); [apply pres_ret|].
  destruct (_ || _); [|apply pres_ret]. destruct (live_tool_prompt_explained _ _ _ _ _ _ _) as [[v r]|];
    [apply pres_resolve_prompt|apply pres_ret].
Qed.
(** ** The recorded steps *)
Lemma pres_authorize proposal entry rc : pres 1 (authorize_tool_proposal k proposal entry rc).
Proof.
  unfold authorize_tool_proposal.
  apply pres_bind0; [apply pres_bind0; [apply pres_lift|]; intros ?; apply pres_ret|]. intros kp.
  apply pres_bind0; [apply pres_gets|]. intros p0. cbn zeta.
  apply pres_bind0; [apply pres_resolve_live_ask|]. intros ev.
  apply pres_bind0.
  { destruct (is_allowed _); [|apply pres_ret].
    apply pres_bind0; [apply pres_outside, (wo_action_id _ _ Hw)|]. intros id. apply pres_ret. }
  intros action. apply pres_bind0; [apply pres_gets|]. intros p1.
  apply pres_bind0; [apply pres_outside, (wo_now _ _ Hw)|]. intros now.
  apply pres_bind0; [apply pres_lift|]. intros tx.
  apply (pres_bind k demand 1 0); [by apply pres_append_tool_entry|]. intros e. apply pres_ret.
Qed.

Lemma pres_record_execution au action effect : pres 1 (record_tool_execution k au action effect).
Proof.
  unfold record_tool_execution. apply pres_bind0; [apply pres_outside, (wo_now _ _ Hw)|]. intros now.
  apply pres_bind0; [apply pres_lift|]. intros tx.
  apply (pres_bind k demand 1 0); [by apply pres_append_tool_entry|]. intros e. apply pres_ret.
Qed.

Lemma pres_create_workspace path : pres 0 (create_workspace path : stm KS KernelError unit).
Proof.
  unfold create_workspace. apply pres_bind0; [apply pres_outside, (wo_create_dir _ _ Hw)|]. intros r.
  apply pres_bind0; [by apply pres_sync|]. intros _. apply pres_lift.
Qed.

Lemma pres_pre_tool_use host proposal id :
  plugin_hooks (k_config k) = Some host ->
  pres 0 (fire_pre_tool_use_and_maybe_block host proposal id : stm KS KernelError (option Effect)).
Proof.
  intros Hh. unfold fire_pre_tool_use_and_maybe_block. destruct (hook_pre_tool_use_is_empty host);
    [apply pres_ret|].
  apply pres_bind0; [by apply pres_outside, (wo_pre_tool _ _ Hw)|]. intros []; try apply pres_ret.
  apply pres_bind0; [apply pres_lift|]. intros b. apply pres_ret.
Qed.

Lemma pres_run_action proposal action : pres 0 (run_action k proposal action).
Proof.
  unfold run_action. apply pres_bind0.
  { destruct (plugin_hooks (k_config k)) as [host|] eqn:Eh; [by apply pres_pre_tool_use|apply pres_ret]. }
  intros [effect|]; [apply pres_ret|]. apply pres_bind0; [apply pres_create_workspace|]. intros _.
  apply pres_execute_with_timeout.
Qed.

Lemma pres_load_caps : pres 0 (load_runtime_capabilities k).
Proof. unfold load_runtime_capabilities. by apply pres_map_err, pres_store_read. Qed.

(** What [process_one] does after the proposal is recorded. *)
Lemma pres_decide_and_run proposal entry rc :
  pres 2 (authorized ← authorize_tool_proposal k proposal entry rc;
          executed ← match au_action authorized with
                     | Some action =>
                         effect ← run_action k (au_proposal authorized) action;
                         x ← record_tool_execution k authorized action effect;
                         mret (Some x)
                     | None => mret None
                     end;
          mret (finish_tool_call authorized executed)).
Proof.
  apply (pres_bind k demand 1 1); [apply pres_authorize|]. intros au.
  apply (pres_bind k demand 1 0); [|intros x; apply pres_ret].
  destruct (au_action au) as [action|]; [|apply pres_ret].
  apply pres_bind0; [apply pres_run_action|]. intros effect.
  apply (pres_bind k demand 1 0); [apply pres_record_execution|]. intros x. apply pres_ret.
Qed.

Lemma pres_process_one tx : pres 3 (process_one k tx None).
Proof.
  unfold process_one. apply pres_bind0; [apply pres_lift|]. intros proposal.
  apply pres_bind0; [apply pres_load_caps|]. intros rc.
  apply (pres_bind k demand 1 2); [by apply pres_append_tool_entry|]. intros entry.
  apply pres_decide_and_run.
Qed.

Lemma pres_authorize_all proposals rc : pres (2 * length proposals) (authorize_all k proposals rc).
Proof.
  induction proposals as [|proposal rest IH]; [apply pres_ret|]. cbn [authorize_all].
  apply pres_bind0; [apply pres_outside, (wo_now _ _ Hw)|]. intros now.
  apply pres_bind0; [apply pres_lift|]. intros tx.
  replace (2 * length (proposal :: rest)) with (1 + (1 + (2 * length rest + 0))) by (cbn; lia).
  apply pres_bind; [by apply pres_append_tool_entry|]. intros entry.
  apply pres_bind; [apply pres_authorize|]. intros au.
  apply pres_bind; [apply IH|]. intros more. apply pres_ret.
Qed.

Lemma pres_plan_slots workspace i slots pse : pres 0 (plan_slots k workspace i slots pse).
Proof.
  revert i pse. induction slots as [|slot rest IH]; intros i pse; cbn [plan_slots]; [apply pres_ret|].
  destruct (au_action slot) as [action|]; [|apply IH]. apply pres_bind0.
  { destruct (plugin_hooks (k_config k)) as [host|] eqn:Eh; [|apply pres_ret].
    by apply pres_pre_tool_use. }
  intros [effect|]; [apply IH|]. apply pres_bind0; [apply IH|]. intros r. apply pres_ret.
Qed.

Lemma pres_execute_all ds : pres 0 (execute_all k ds).
Proof.
  induction ds as [|d ds IH]; cbn [execute_all]; [apply pres_ret|].
  apply pres_bind0; [apply pres_execute_with_timeout|]. intros effect.
  apply pres_bind0; [apply IH|]. intros more. apply pres_ret.
Qed.

Lemma pres_record_all slots : pres (length slots) (record_all k slots).
Proof.
  induction slots as [|[slot effect] rest IH]; cbn [record_all]; [apply pres_ret|].
  replace (length ((slot, effect) :: rest)) with (1 + (length rest + 0)) by (cbn; lia).
  apply pres_bind.
  { destruct (au_action slot) as [action|]; [|apply pres_ret].
    destruct effect as [effect|]; [|apply pres_fails].
    apply (pres_bind k demand 1 0); [apply pres_record_execution|]. intros x. apply pres_ret. }
  intros executed. apply pres_bind; [apply IH|]. intros more. apply pres_ret.
Qed.

Lemma authorize_all_length proposals rc st aus st' :
  authorize_all k proposals rc st = (Ok aus, st') -> length aus = length proposals.
Proof.
  revert st aus st'. induction proposals as [|proposal rest IH]; intros st aus st' Hr;
    cbn [authorize_all] in Hr; [by injection Hr as <- _|].
  apply stm_bind_Ok in Hr as (now & s1 & _ & Hr). apply stm_bind_Ok in Hr as (tx & s2 & _ & Hr).
  apply stm_bind_Ok in Hr as (en & s3 & _ & Hr). apply stm_bind_Ok in Hr as (au & s4 & _ & Hr).
  apply stm_bind_Ok in Hr as (more & s5 & Hm & Hr). injection Hr as <- _. cbn. f_equal. by eapply IH.
Qed.

Lemma pres_process_many proposals : pres (3 * length proposals) (process_many k proposals).
Proof.
  unfold process_many. destruct proposals as [|p0 rest]; [apply pres_ret|].
  set (proposals := p0 :: rest). apply pres_bind0; [apply pres_load_caps|]. intros rc.
  intros n h q lb.
  eapply (hoare_bind _ _ _ (fun aus st => length aus = length proposals
            /\ kinv (length proposals + n) h q lb st)).
  - intros st r st' Hrun Hk.
    assert (kinv (2 * length proposals + (length proposals + n)) h q lb st) as Hk'.
    { by replace (2 * length proposals + (length proposals + n)) with (3 * length proposals + n) by lia. }
    pose proof (pres_authorize_all proposals rc (length proposals + n) h q lb st r st' Hrun Hk') as Hpost.
    destruct r as [aus|]; [split; [by eapply authorize_all_length|done]|].
    eapply kinv_weaken; [|done|exact Hpost]. lia.
  - intros aus. apply hoare_pure. intros Hlen. cbn zeta.
    apply (pres_bind0 k demand (length proposals)); [apply pres_create_workspace|]. intros _.
    apply pres_bind0; [apply pres_plan_slots|]. intros plan.
    apply pres_bind0; [apply pres_execute_all|]. intros effects.
    eapply pres_weaken; [|apply pres_record_all]. rewrite length_zip. lia.
Qed.

(** ** Plain transactions *)
Lemma process_tx_spec n h q lb s tx :
  (1 <= s <= Z.of_nat (length lb) + 1)%Z ->
  hoare (kinv n h q lb) (process_tx k tx s)
    (fun r st => exists lb', (lb `prefix_of` lb' /\ entry_ready s (pr_entry r) lb') /\ kinv n h q lb' st)
    (kinv n h q lb).
Proof.
  intros Hs. unfold process_tx. apply window_hash_spec; [done|done|]. intros ch lb' Hp Hready. cbn zeta.
  set (e := build (with_context_hash (builder s tx) ch)).
  assert (forall update clear,
    hoare (kinv n h q lb') (mret (plain_result e update clear) : stm KS KernelError ProcessResult)
      (fun r st => exists lb'0, (lb `prefix_of` lb'0 /\ entry_ready s (pr_entry r) lb'0)
                                /\ kinv n h q lb'0 st) (kinv n h q lb)) as Hret.
  { intros update clear. apply hoare_ret. intros st Hk. exists lb'. split; [|done].
    split; [done|]. by apply Hready. }
  destruct (tx_type tx); try apply Hret.
  - eapply hoare_bind; [|intros update; apply Hret].
    apply hoare_lift; [intros x st _ Hk; exact Hk|]. intros st. by apply kinv_weaken.
  - eapply hoare_bind.
    + apply (hoare_gets _ _ (fun _ => kinv n h q lb')). done.
    + intros p. eapply hoare_bind; [|intros ?; apply Hret].
      apply hoare_modify. intros st Hk. eapply kinv_same; [| | | |exact Hk]; done.
Qed.

Lemma process_plain_spec (append : Z -> ProcessResult -> stm KS KernelError unit) tx n h q h' q' lb :
  (forall s r lb', entry_ready s (pr_entry r) lb' ->
     hoare (kinv (S n) h q lb') (append s r) (fun _ => kinv n h' q' (lb' ++ [pr_entry r]))
       (kinv n h q lb')) ->
  hoare (kinv (S n) h q lb)
    (seq ← next_seq k; r ← process_tx k tx seq; _ ← append seq r; mret r)
    (fun _ => kinv n h' q' lb) (kinv n h q lb).
Proof.
  intros Happ. eapply hoare_bind.
  { eapply hoare_conseq; [| | |apply (next_seq_spec k demand Hw (S n) h q lb)]; [done| |].
    - intros x st Hx. exact Hx.
    - intros st. apply kinv_weaken; [lia|done]. }
  intros s. apply hoare_ex. intros lb0. apply hoare_pure. intros [Hp0 ->].
  eapply hoare_bind.
  { eapply hoare_conseq; [| | |apply (process_tx_spec (S n) h q lb0 _ tx)]; [done| | |lia].
    - intros x st Hx. exact Hx.
    - intros st. apply kinv_weaken; [lia|done]. }
  intros r. apply hoare_ex. intros lb1. apply hoare_pure. intros [Hp1 Hready].
  eapply (hoare_bind _ _ _ (fun _ => kinv n h' q' lb)).
  - eapply hoare_conseq; [| | |apply (Happ _ r lb1 Hready)]; [done| |].
    + intros ? st. apply kinv_weaken; [lia|]. etrans; [exact Hp0|]. etrans; [exact Hp1|]. by eexists.
    + intros st. apply kinv_weaken; [lia|]. by etrans.
  - intros ?. by apply hoare_ret.
Qed.

Lemma pres_process_plain_direct tx : pres 1 (process_plain_direct k tx).
Proof.
  intros n h q lb. unfold process_plain_direct.
  apply (process_plain_spec (fun s r => append_direct k "append_entry_direct_with_runtime_capabilities" s
    (pr_entry r) (pr_runtime_capability_update r) (pr_clear_runtime_capabilities r))).
  intros s r lb'. apply append_ready_spec.
Qed.

Lemma process_plain_dequeued_spec tx token n h q0 q lb :
  token_inbox_seq token = h ->
  hoare (kinv (S n) h (q0 :: q) lb) (process_plain_dequeued k tx token)
    (fun _ => kinv n (h + 1) q lb) (kinv n h (q0 :: q) lb).
Proof.
  intros Htok. unfold process_plain_dequeued.
  apply (process_plain_spec (fun s r => append_dequeued k "append_entry_dequeued_with_runtime_capabilities" s
    (pr_entry r) token (pr_runtime_capability_update r) (pr_clear_runtime_capabilities r))).
  intros s r lb' [Hs Hv]. by apply append_dequeued_spec.
Qed.
(** ** Entry points *)
Lemma pres_process_direct tx : pres 3 (process_direct k tx).
Proof.
  unfold process_direct. apply pres_bind0.
  { unfold reject_kernel_only. destruct (_ || _); [apply pres_fails|apply pres_ret]. }
  intros _. case_bool_decide; [apply pres_process_one|].
  eapply pres_weaken; [|apply pres_process_plain_direct]. lia.
Qed.

Lemma process_one_token_spec tx token n h q0 q lb :
  token_inbox_seq token = h ->
  hoare (kinv (3 + n) h (q0 :: q) lb) (process_one k tx (Some token))
    (fun _ => kinv n (h + 1) q lb)
    (fun st => kinv n h (q0 :: q) lb st \/ kinv n (h + 1) q lb st).
Proof.
  intros Htok. unfold process_one.
  assert (forall st, kinv (3 + n) h (q0 :: q) lb st -> kinv n h (q0 :: q) lb st) as Hweak
    by (intros st; apply kinv_weaken; [lia|done]).
  eapply (hoare_bind _ _ _ (fun _ => kinv (3 + n) h (q0 :: q) lb)).
  { apply hoare_lift; [done|]. auto. }
  intros proposal. eapply (hoare_bind _ _ _ (fun _ => kinv (3 + n) h (q0 :: q) lb)).
  { eapply hoare_conseq; [| | |apply (pres_load_caps (3 + n) h (q0 :: q) lb)]; auto. }
  intros rc. eapply (hoare_bind _ _ _ (fun _ => kinv (2 + n) (h + 1) q lb)).
  { eapply hoare_conseq; [| | |by apply (append_tool_entry_token tx (fun b => b) token (2 + n) h q0 q lb)];
      [done|done|].
    intros st Hk. left. eapply kinv_weaken; [|done|exact Hk]. lia. }
  intros entry. eapply hoare_conseq; [| | |apply (pres_decide_and_run proposal entry rc n (h + 1)%Z q lb)];
    auto.
Qed.

(** A dequeued transaction is consumed when it is recorded, and only then. *)
Lemma process_dequeued_spec tx token n h q0 q lb :
  token_inbox_seq token = h ->
  hoare (kinv (3 + n) h (q0 :: q) lb) (process_dequeued k tx token)
    (fun _ => kinv n (h + 1) q lb)
    (fun st => kinv n h (q0 :: q) lb st \/ kinv n (h + 1) q lb st).
Proof.
  intros Htok. unfold process_dequeued.
  eapply (hoare_bind _ _ _ (fun _ => kinv (3 + n) h (q0 :: q) lb)).
  { unfold reject_kernel_only. destruct (_ || _); [apply hoare_fails|by apply hoare_ret].
    intros st Hk. left. eapply kinv_weaken; [|done|exact Hk]. lia. }
  intros []. case_bool_decide; [by apply process_one_token_spec|].
  eapply hoare_conseq; [| | |by apply (process_plain_dequeued_spec tx token (2 + n) h q0 q lb)];
    [done| |].
  - intros r st. apply kinv_weaken; [lia|done].
  - intros st Hk. left. eapply kinv_weaken; [|done|exact Hk]. lia.
Qed.

(** ** Reasoning *)
Lemma append_reasoning_spec n h q lb s payload :
  (1 <= s <= Z.of_nat (length lb) + 1)%Z ->
  hoare (kinv (S n) h q lb) (append_reasoning k s payload) (fun _ => kinv n h q lb) (kinv n h q lb).
Proof.
  intros Hs. unfold append_reasoning.
  assert (forall st, kinv (S n) h q lb st -> kinv n h q lb st) as Hweak
    by (intros st; apply kinv_weaken; [lia|done]).
  eapply (hoare_bind _ _ _ (fun _ => kinv (S n) h q lb)); [by apply hoare_lift|]. intros b.
  eapply (hoare_bind _ _ _ (fun _ => kinv (S n) h q lb)).
  { eapply hoare_conseq; [| | |apply (hoare_outside k demand w_now_ms (S n) h q lb (wo_now _ _ Hw))]; auto. }
  intros now. cbn zeta. apply window_hash_spec; [done|done|]. intros ch lb' Hp Hready.
  set (e := build _). eapply (hoare_bind _ _ _ (fun _ => kinv n h q lb)); [|intros ?; by apply hoare_ret].
  eapply hoare_conseq; [| | |apply (append_ready_spec n h q lb' _ s e None false)]; [done| | |by apply Hready].
  - intros ? st. apply kinv_weaken; [lia|]. etrans; [exact Hp|]. by eexists.
  - intros st. by apply kinv_weaken.
Qed.

Lemma pres_fail_reasoning {A} stage reason err : pres 1 (fail_reasoning k stage reason err : stm KS KernelError A).
Proof.
  intros n h q lb. unfold fail_reasoning. eapply hoare_bind.
  { eapply hoare_conseq; [| | |apply (next_seq_spec k demand Hw (S n) h q lb)]; [done| |].
    - intros x st Hx. exact Hx.
    - intros st. apply kinv_weaken; [lia|done]. }
  intros s. apply hoare_ex. intros lb0. apply hoare_pure. intros [Hp0 ->].
  eapply (hoare_bind _ _ _ (fun _ => kinv n h q lb)); [|intros ?; by apply hoare_fails].
  intros st r st' Hrun Hk. unfold try_record_failure in Hrun.
  destruct (record_reasoning_failure k _ stage reason st) as [r1 st1] eqn:Er. injection Hrun as <- <-.
  unfold record_reasoning_failure, mbind, stm_bind in Er.
  destruct (append_reasoning k _ _ st) as [r2 st2] eqn:Ea.
  assert (1 <= Z.of_nat (length lb0) + 1 <= Z.of_nat (length lb0) + 1)%Z as Hs by lia.
  pose proof (append_reasoning_spec n h q lb0 _ _ Hs st r2 st2 Ea Hk) as Hpost.
  assert (st1 = st2) as -> by (by destruct r2; injection Er).
  assert (kinv n h q lb0 st2) as Hk2 by (by destruct r2). by eapply kinv_weaken.
Qed.

Lemma pres_reason request : pres 1 (reason k request).
Proof.
  unfold reason. apply pres_bind0; [apply pres_with_timeout; [done|apply (wo_complete _ _ Hw)]|].
  intros [[response|e]|]; [|apply pres_fail_reasoning..].
  apply pres_bind0; [apply pres_lift|]. intros b.
  apply pres_bind0; [apply pres_outside, (wo_now _ _ Hw)|]. intros now. cbn zeta.
  intros n h q lb. apply numbered_spec; [intros st; apply kinv_weaken; [lia|done]|].
  intros s ch lb' Hp Hready. set (e := build _).
  eapply (hoare_bind _ _ _ (fun _ => kinv n h q lb)); [|intros ?; by apply hoare_ret].
  eapply hoare_conseq; [| | |apply (append_ready_spec n h q lb' _ s e None false)]; [done| | |by apply Hready].
  - intros ? st. apply kinv_weaken; [lia|]. etrans; [exact Hp|]. by eexists.
  - intros st. by apply kinv_weaken.
Qed.

Lemma pres_reason_streaming request : pres 1 (reason_streaming k request).
Proof.
  unfold reason_streaming. apply pres_bind0; [apply pres_gets|]. intros projected.
  apply pres_bind0; [by apply pres_map_err, pres_store_read|]. intros window.
  apply pres_bind0; [apply pres_with_timeout; [done|apply (wo_streaming _ _ Hw)]|].
  intros [[u|e]|]; [apply pres_ret|apply pres_fail_reasoning..].
Qed.
(** ** Streamed calls

    The window of a handle is a stretch of the log, and stays one. *)
Definition handle_ok (lb : list RecordEntry) (hd : ReasonStreamHandle) : Prop :=
  exists first last, last <= length lb /\ h_window hd = drop first (take last lb).
Lemma handle_ok_prefix lb lb' hd : lb `prefix_of` lb' -> handle_ok lb hd -> handle_ok lb' hd.
Proof.
  intros [l ->] (f & t & Ht & Eq). exists f, t. rewrite length_app. split; [lia|]. by rewrite take_app_le.
Qed.
Lemma log_window_stretch log from limit :
  exists first last, last <= length log /\ log_window log from limit = drop first (take last log).
Proof.
  unfold log_window. set (n := Z.to_nat (from - 1)). set (m := Z.to_nat limit).
  exists n, (Nat.min (n + m) (length log)). split; [lia|].
  rewrite take_drop_commute. f_equal. destruct (decide (n + m <= length log)).
  - by rewrite Nat.min_l by lia.
  - rewrite Nat.min_r by lia. by rewrite !take_ge by lia.
Qed.
(** Opening a stream gives a handle on the log as it was. *)
Lemma reason_streaming_spec request n h q lb :
  hoare (kinv (S n) h q lb) (reason_streaming k request)
    (fun hd st => exists lb', (lb `prefix_of` lb' /\ handle_ok lb' hd) /\ kinv n h q lb' st) (kinv n h q lb).
Proof.
  unfold reason_streaming.
  eapply (hoare_bind _ _ _ (fun s st => is_u64 s /\ kinv (S n) h q lb st)).
  { apply hoare_gets. intros st Hk. split; [|done]. by destruct Hk as [v []]. }
  intros s. apply hoare_pure. intros Hs.
  eapply (hoare_bind _ _ _ (fun w st => exists lb', (lb `prefix_of` lb' /\ handle_ok lb' {| h_window := w |}) /\ kinv (S n) h q lb' st)).
  { unfold load_window. apply hoare_map_err. cbn zeta.
    eapply hoare_conseq; [| | |apply (hoare_store_read k demand Hw _ (S n) h q lb (fun lb' w => handle_ok lb' {| h_window := w |}))]; [done|done| |].
    { intros st. apply kinv_weaken; [lia|done]. }
    intros s0 v w Ha Hb Hp Hx. pose proof (wo_window _ _ Hw).
    apply (spec_scan _ _ _ _ _ _ Ha) in Hx as ->; [apply log_window_stretch| |done].
    unfold is_u64, saturating_sub in *. lia. }
  intros w. apply hoare_ex. intros lb1. apply hoare_pure. intros [Hp1 Hhd].
  eapply (hoare_bind _ _ _ (fun _ => kinv (S n) h q lb1)).
  { eapply hoare_conseq; [| | |apply (hoare_with_timeout k demand Hw _ _ (S n) h q lb1), (wo_streaming _ _ Hw)]; [done|done|].
    intros st. by apply kinv_weaken; [lia|]. }
  assert (forall A stage reason err, hoare (kinv (S n) h q lb1) (fail_reasoning k stage reason err : stm KS KernelError A)
    (fun _ _ => False) (kinv n h q lb)) as Hfail.
  { intros A stage reason err st r st' Hrun Hk.
    pose proof (pres_fail_reasoning stage reason err n h q lb1 st r st' Hrun Hk) as Hpost.
    destruct r; [|by eapply kinv_weaken; [|exact Hp1|exact Hpost]].
    unfold fail_reasoning, mbind, stm_bind in Hrun. destruct (next_seq k st) as [[s0|] st1]; [|done].
    destruct (try_record_failure k s0 stage reason st1) as [[]]; done. }
  intros [[u|e]|]; [|eapply hoare_conseq; [| | |apply Hfail]; [done|by intros ? ? []|done]..].
  apply hoare_ret. intros st Hk. exists lb1. split; [done|]. eapply kinv_weaken; [|done|exact Hk]. lia.
Qed.
(** A rule that lets the record of a streamed call be hashed over any stretch of
    what is before it. *)
Definition streams_allowed : Prop :=
  forall log e first last, tx_type (re_tx e) = TransactionType_Reasoning ->
    hashed_over e (drop first (take last log)) -> entry_hashed log e.
Lemma handle_append_spec hd tx n h q lb :
  streams_allowed -> tx_type tx = TransactionType_Reasoning -> handle_ok lb hd ->
  hoare (kinv (S n) h q lb) (handle_append k hd tx) (fun _ => kinv n h q lb) (kinv n h q lb).
Proof.
  intros Hall Htx Hhd. unfold handle_append. eapply hoare_bind.
  { eapply hoare_conseq; [| | |apply (next_seq_spec k demand Hw (S n) h q lb)]; [done| |].
    - intros x st Hx. exact Hx.
    - intros st. apply kinv_weaken; [lia|done]. }
  intros s. apply hoare_ex. intros lb0. apply hoare_pure. intros [Hp0 ->].
  eapply (hoare_bind _ _ _ (fun ch st => hash_tx_with_window tx (h_window hd) = Ok ch /\ kinv (S n) h q lb0 st)).
  { apply hoare_lift; [done|]. intros st. by apply kinv_weaken; [lia|]. }
  intros ch. apply hoare_pure. intros Hh. cbn zeta. set (e := build _).
  assert (entry_ready (Z.of_nat (length lb0) + 1) e lb0) as He.
  { destruct (handle_ok_prefix _ _ _ Hp0 Hhd) as (f & t & _ & Eq). split; [lia|]. intros _. split; [done|].
    eapply (Hall _ _ f t); [done|]. unfold hashed_over. by rewrite <-Eq. }
  eapply (hoare_bind _ _ _ (fun _ => kinv n h q lb)); [|intros ?; by apply hoare_ret].
  eapply hoare_conseq; [| | |by apply (append_ready_spec n h q lb0 _ _ e None false)]; [done| |].
  - intros ? st. apply kinv_weaken; [lia|]. etrans; [exact Hp0|]. by eexists.
  - intros st. by apply kinv_weaken.
Qed.
Lemma record_completed_spec hd model stop usage uses thinking ms n h q lb :
  streams_allowed -> handle_ok lb hd ->
  hoare (kinv (S n) h q lb) (record_completed k hd model stop usage uses thinking ms) (fun _ => kinv n h q lb) (kinv n h q lb).
Proof.
  intros Hall Hhd. unfold record_completed. cbn zeta. eapply (hoare_bind _ _ _ (fun _ => kinv (S n) h q lb)).
  { apply hoare_lift; [done|]. intros st. by apply kinv_weaken; [lia|]. }
  intros b. eapply (hoare_bind _ _ _ (fun _ => kinv (S n) h q lb)).
  { eapply hoare_conseq; [| | |apply (hoare_outside k demand w_now_ms), (wo_now _ _ Hw)]; [done|done|].
    intros st. by apply kinv_weaken; [lia|]. }
  intros now. by apply handle_append_spec.
Qed.
Lemma record_failed_spec hd error n h q lb :
  streams_allowed -> handle_ok lb hd ->
  hoare (kinv (S n) h q lb) (record_failed k hd error) (fun _ => kinv n h q lb) (kinv n h q lb).
Proof.
  intros Hall Hhd. unfold record_failed. eapply (hoare_bind _ _ _ (fun _ => kinv (S n) h q lb)).
  { apply hoare_lift; [done|]. intros st. by apply kinv_weaken; [lia|]. }
  intros b. eapply (hoare_bind _ _ _ (fun _ => kinv (S n) h q lb)).
  { eapply hoare_conseq; [| | |apply (hoare_outside k demand w_now_ms), (wo_now _ _ Hw)]; [done|done|].
    intros st. by apply kinv_weaken; [lia|]. }
  intros now. by apply handle_append_spec.
Qed.
(** ** System records *)
Lemma system_window lb :
  log_window lb (Z.max (saturating_sub (Z.of_nat (length lb)) 49) 1) 50 = last_window 50 lb.
Proof.
  unfold log_window, last_window, saturating_sub.
  replace (Z.to_nat (Z.max (Z.max 0 (Z.of_nat (length lb) - 49)) 1 - 1))
    with (length lb - Z.to_nat 50) by lia.
  apply take_ge. rewrite length_drop. lia.
Qed.

Lemma system_once_spec n h q lb tx :
  (forall log e, hashed_over e (last_window 50 log) -> entry_hashed log e) ->
  hoare (kinv (S n) h q lb) (append_system_record_once k tx) (fun _ => kinv n h q lb) (kinv (S n) h q lb).
Proof.
  intros HW. unfold append_system_record_once. eapply hoare_bind.
  { apply hoare_map_err.
    apply (hoare_store_read k demand Hw _ _ _ _ _ (fun lb' x => x = Z.of_nat (length lb')
             /\ (Z.of_nat (length lb') < u64_max)%Z)).
    intros s v x Ha Hb _ Hx. split; [by eapply spec_head_seq|done]. }
  intros head. apply hoare_ex. intros lb0. apply hoare_pure. intros (Hp0 & -> & Hb0). cbn zeta.
  set (s := u64_add (Z.of_nat (length lb0)) 1).
  assert (s = (Z.of_nat (length lb0) + 1)%Z) as Hs.
  { unfold s, u64_add, u64_wrap, u64_max in *. rewrite Z.mod_small; lia. }
  eapply (hoare_bind _ _ _ (fun w st => exists lb1, (lb `prefix_of` lb1 /\ window_ready 50 s w lb1)
                                          /\ kinv (S n) h q lb1 st)).
  { case_bool_decide as E0.
    - apply hoare_ret. intros st Hk. exists lb0. split; [|done]. split; [done|].
      split; [lia|]. intros _. destruct lb0; [done|]. cbn in E0. lia.
    - apply hoare_map_err. eapply hoare_conseq; [| | |apply (hoare_store_read k demand Hw _ (S n) h q lb0
        (fun lb1 w => window_ready 50 s w lb1))]; [done| | |].
      + intros w st (lb1 & [Hp1 Hr] & Hk). exists lb1. split; [|done]. split; [by etrans|done].
      + intros st. by apply kinv_weaken.
      + intros s0 v w Ha Hb Hp Hx. pose proof (prefix_length _ _ Hp) as Hl.
        split; [lia|]. intros Hlen. apply (spec_scan _ _ _ _ _ _ Ha) in Hx as ->.
        * replace (length lb0) with (length (av_log v)) by lia. apply system_window.
        * unfold is_u64, saturating_sub, u64_max in *. lia.
        * lia. }
  intros w. apply hoare_ex. intros lb1. apply hoare_pure. intros [Hp1 Hready].
  eapply (hoare_bind _ _ _ (fun ch st => hash_tx_with_window tx w = Ok ch /\ kinv (S n) h q lb1 st)).
  { apply hoare_lift.
    - intros ch st Hch. by apply map_err_Ok in Hch.
    - intros st. by apply kinv_weaken. }
  intros ch. apply hoare_pure. intros Hh. set (e := build _).
  assert (entry_ready s e lb1) as [He1 He2] by (by eapply (entry_ready_intro 50 s w)).
  eapply hoare_bind.
  { apply hoare_map_err. eapply hoare_conseq;
      [| | |by apply (store_append_spec k demand Hw n h q lb1 s e None false)]; [done| |].
    - intros x st Hk. exact Hk.
    - intros st. by apply kinv_weaken. }
  intros []. eapply (hoare_bind _ _ _ (fun _ => kinv n h q lb)); [|intros ?; by apply hoare_ret].
  apply hoare_modify. intros st. apply kinv_weaken; [lia|]. etrans; [exact Hp1|]. by eexists.
Qed.

Lemma pres_write_system_record tx :
  (forall log e, hashed_over e (last_window 50 log) -> entry_hashed log e) -> pres 1 (write_system_record k tx).
Proof.
  intros HW. unfold write_system_record. generalize MAX_RETRIES as retries.
  intros retries n h q lb. induction retries as [|retries IH]; intros st r st' Hrun Hk;
    cbn [write_system_record_from] in Hrun;
    destruct (append_system_record_once k tx st) as [r1 st1] eqn:Ea;
    pose proof (system_once_spec n h q lb tx HW st r1 st1 Ea Hk) as Hpost;
    destruct r1 as [seq|[|err]]; try (injection Hrun as <- <-);
    try (exact Hpost); try (by eapply kinv_weaken; [|done|exact Hpost]; lia).
  unfold mbind, stm_bind in Hrun. destruct (sync st1) as [r2 st2] eqn:Es.
  pose proof (hoare_sync k demand Hw (Err := KernelError) (S n) h q lb st1 r2 st2 Es Hpost) as Hk2.
  assert (kinv (S n) h q lb st2) as Hk2' by (by destruct r2).
  assert (exists x, r2 = Ok x) as [x ->].
  { unfold sync in Es. destruct (w_interfere _ _). injection Es as <- <-. eauto. }
  by eapply IH.
Qed.
End Safe.
