(* ===== verification/KernelTrace.v ===== *)
(** What a tool call leaves behind, in order.

    [emits m R] describes the events a kernel program adds to the ghost trace:
    the entries it persisted and the actions it handed to executors.  The
    pipeline is shown to record a linked chain (proposal, decision, execution)
    and to dispatch an action only after the entry that approved it. *)
From S2P Require Import Prelude Values Modes Permissions CoreTypes Policy Keys StoreSpec Utf8 Exec Context Replay Kernel KernelTools.
From stdpp Require Import list.
From Stdlib Require Import Strings.Byte.

(** * Events of a program *)
Definition emits {ST E F A} (m : stm (KState ST E) F A)
    (R : result F A -> list KernelEvent -> Prop) : Prop :=
  forall st r st', m st = (r, st') -> exists evs, ks_events st' = ks_events st ++ evs /\ R r evs.
Definition silent {ST E F A} (m : stm (KState ST E) F A) : Prop := emits m (fun _ evs => evs = []).

Section Rules.
Context {ST E F : Type}.
Abbreviation KS := (KState ST E).

Lemma emits_mono {A} (m : stm KS F A) (R R' : result F A -> list KernelEvent -> Prop) :
  emits m R -> (forall r evs, R r evs -> R' r evs) -> emits m R'.
Proof. intros Hm Hi st r st' Hrun. destruct (Hm st r st' Hrun) as (evs & He & HR). eauto. Qed.

Lemma emits_bind {A B} (m : stm KS F A) (f : A -> stm KS F B) R1 (R : result F B -> list KernelEvent -> Prop) :
  emits m R1 -> (forall e evs, R1 (Err e) evs -> R (Err e) evs) ->
  (forall x evs1, R1 (Ok x) evs1 -> emits (f x) (fun r evs2 => R r (evs1 ++ evs2))) ->
  emits (m ≫= f) R.
Proof.
  intros Hm He Hf st r st' Hrun. unfold mbind, stm_bind in Hrun.
  destruct (m st) as [[x|e] st1] eqn:Em; destruct (Hm _ _ _ Em) as (evs1 & Hev1 & HR1).
  - destruct (Hf x evs1 HR1 st1 r st' Hrun) as (evs2 & Hev2 & HR2).
    exists (evs1 ++ evs2). rewrite Hev2, Hev1, app_assoc. done.
  - injection Hrun as <- <-. eauto.
Qed.

Lemma emits_silent_bind {A B} (m : stm KS F A) (f : A -> stm KS F B) R :
  silent m -> (forall e, R (Err e) []) -> (forall x, emits (f x) R) -> emits (m ≫= f) R.
Proof.
  intros Hm He Hf. eapply emits_bind; [exact Hm| |].
  - intros e evs ->. apply He.
  - intros x evs1 ->. apply Hf.
Qed.

Lemma emits_lift_bind {A B} (r0 : result F A) (f : A -> stm KS F B) R :
  (forall e, R (Err e) []) -> (forall x, r0 = Ok x -> emits (f x) R) -> emits (lift r0 ≫= f) R.
Proof.
  intros He Hf st r st' Hrun. unfold mbind, stm_bind, lift in Hrun. destruct r0 as [x|e].
  - by eapply Hf.
  - injection Hrun as <- <-. exists []. by rewrite app_nil_r.
Qed.

Lemma emits_ret {A} (x : A) R : R (Ok x) [] -> emits (mret x : stm KS F A) R.
Proof. intros HR st r st' [= <- <-]. exists []. by rewrite app_nil_r. Qed.
Lemma emits_fails {A} (e : F) R : R (Err e) [] -> emits (fails e : stm KS F A) R.
Proof. intros HR st r st' [= <- <-]. exists []. by rewrite app_nil_r. Qed.

Lemma emits_assoc {A B C} (m : stm KS F A) (f : A -> stm KS F B) (g : B -> stm KS F C) R :
  emits (m ≫= fun x => f x ≫= g) R -> emits ((m ≫= f) ≫= g) R.
Proof.
  intros Hm st r st' Hrun. apply (Hm st r st'). revert Hrun. unfold mbind, stm_bind.
  by destruct (m st) as [[x|e] st1].
Qed.
Lemma emits_ret_bind {A B} (x : A) (f : A -> stm KS F B) R : emits (f x) R -> emits (mret x ≫= f) R.
Proof. done. Qed.

Lemma silent_ret {A} (x : A) : silent (mret x : stm KS F A).
Proof. by apply emits_ret. Qed.
Lemma silent_fails {A} (e : F) : silent (fails e : stm KS F A).
Proof. by apply emits_fails. Qed.
Lemma silent_lift {A} (r : result F A) : silent (lift r : stm KS F A).
Proof. intros st r' st' [= <- <-]. exists []. by rewrite app_nil_r. Qed.
Lemma silent_gets {A} (f : KS -> A) : silent (gets f : stm KS F A).
Proof. intros st r' st' [= <- <-]. exists []. by rewrite app_nil_r. Qed.
Lemma silent_modify (f : KS -> KS) :
  (forall st, ks_events (f st) = ks_events st) -> silent (modify f : stm KS F unit).
Proof. intros Hf st r' st' [= <- <-]. exists []. by rewrite app_nil_r, Hf. Qed.
Lemma silent_bind {A B} (m : stm KS F A) (f : A -> stm KS F B) :
  silent m -> (forall x, silent (f x)) -> silent (m ≫= f).
Proof. intros Hm Hf. by apply emits_silent_bind. Qed.
Lemma silent_outside {A} (f : E -> A * E) : silent (outside f : stm KS F A).
Proof.
  intros st r' st' Hrun. unfold outside in Hrun. destruct (f (ks_env st)). injection Hrun as <- <-.
  exists []. by rewrite app_nil_r.
Qed.
Lemma silent_on_store {A} (f : stm ST F A) : silent (on_store f : stm KS F A).
Proof.
  intros st r' st' Hrun. unfold on_store in Hrun. destruct (f (ks_store st)). injection Hrun as <- <-.
  exists []. by rewrite app_nil_r.
Qed.
Lemma silent_map_err {F' A} (g : F' -> F) (m : stm KS F' A) : silent m -> silent (stm_map_err g m).
Proof.
  intros Hm st r' st' Hrun. unfold stm_map_err in Hrun. destruct (m st) as [r1 st1] eqn:Em.
  injection Hrun as <- <-. exact (Hm _ _ _ Em).
Qed.
End Rules.

Create HintDb silent.
#[export] Hint Resolve silent_ret silent_fails silent_lift silent_gets silent_bind silent_outside
  silent_on_store silent_map_err : silent.

Section Sync.
Context {ST E : Type} `{Store ST} `{ModelTypes} `{!World E ST} `{Hex} {F : Type}.
Abbreviation KS := (KState ST E).

Lemma silent_sync : silent (sync : stm KS F unit).
Proof.
  intros st r' st' Hrun. unfold sync in Hrun. destruct (w_interfere _ _). injection Hrun as <- <-.
  exists []. by rewrite app_nil_r.
Qed.
Lemma silent_store_read {A} (f : ST -> result F A) : silent (store_read f : stm KS F A).
Proof.
  apply silent_bind; [apply silent_sync|]. intros _ st r' st' [= <- <-]. exists []. by rewrite app_nil_r.
Qed.
Lemma silent_store_write {A} (f : stm ST F A) : silent (store_write f : stm KS F A).
Proof. apply silent_bind; [apply silent_sync|]. intros _. apply silent_on_store. Qed.
Lemma silent_with_timeout {A} ms (f : E -> A * E) : silent (with_timeout ms f : stm KS F (option A)).
Proof.
  unfold with_timeout. apply silent_bind; [apply silent_outside|]. intros x.
  apply silent_bind; [apply silent_outside|]. intros l.
  apply silent_bind; [apply silent_sync|]. intros _. apply silent_ret.
Qed.
End Sync.
#[export] Hint Resolve silent_sync silent_store_read silent_store_write silent_with_timeout : silent.

(** * The pipeline's entries *)

Ltac appends := repeat (apply Forall_cons; split; [by eexists|]); try apply Forall_nil_2.

Section Approvals.
Context `{Hex} `{!Serde PolicyDecision}.

(** The entry that approves an action: a policy decision whose payload is an
    approval of that action, that accepts exactly its id, for a proposal with
    its payload. *)
Definition approves (e : RecordEntry) (a : Action) : Prop :=
  tx_type (re_tx e) = TransactionType_PolicyDecision
  /\ (exists d, to_vec d = Ok (tx_payload (re_tx e)) /\ pd_verdict d = ToolGateVerdict_Approved
        /\ pd_action_id d = Some (id_to_hex (action_id a)))
  /\ accepted_action_ids (re_decision e) = [action_id a]
  /\ re_proposals e = with_proposals [Proposal_new ActionKind_Delegate (action_payload a)].

(** [later] refers to [earlier] by transaction hash. *)
Definition refers_to (later earlier : RecordEntry) : Prop :=
  tx_reference_tx_hash (re_tx later) = Some (tx_hash (re_tx earlier)).

Definition only_appends (evs : list KernelEvent) : Prop :=
  Forall (fun ev => exists e, ev = Ev_append e) evs.

(** Every dispatched action was approved by an entry appended before. *)
Definition approved_dispatches (evs : list KernelEvent) : Prop :=
  forall l1 a l2, evs = l1 ++ Ev_dispatch a :: l2 -> exists e, Ev_append e ∈ l1 /\ approves e a.

Lemma approved_app evs evs' :
  approved_dispatches evs ->
  (forall l1 a l2, evs' = l1 ++ Ev_dispatch a :: l2 -> exists e, Ev_append e ∈ evs ++ l1 /\ approves e a) ->
  approved_dispatches (evs ++ evs').
Proof.
  intros Hev Hev' l1 a l2 Heq.
  destruct (app_eq_inv evs evs' l1 (Ev_dispatch a :: l2) Heq) as [(l & -> & Hl)|(l & -> & ->)].
  - destruct l as [|x l].
    + destruct (Hev' [] a l2) as (e & He & Ha); [done|]. rewrite !app_nil_r in He. eauto.
    + injection Hl as <- _. by eapply Hev.
  - by eapply Hev'.
Qed.

Lemma only_appends_approved evs : only_appends evs -> approved_dispatches evs.
Proof.
  intros Ho l1 a l2 ->. apply Forall_app in Ho as [_ Ho]. apply Forall_cons in Ho as [[e He] _]. done.
Qed.

Lemma approved_snoc_appends evs evs' :
  approved_dispatches evs -> only_appends evs' -> approved_dispatches (evs ++ evs').
Proof.
  intros Hev Ho. apply approved_app; [done|]. intros l1 a l2 ->.
  apply Forall_app in Ho as [_ Ho]. apply Forall_cons in Ho as [[e He] _]. done.
Qed.

Lemma approved_snoc_dispatch evs e a :
  approved_dispatches evs -> Ev_append e ∈ evs -> approves e a ->
  approved_dispatches (evs ++ [Ev_dispatch a]).
Proof.
  intros Hev He Ha. apply approved_app; [done|]. intros l1 a' l2 Heq.
  destruct l1 as [|x l1]; [|by destruct l1]. injection Heq as <- _. exists e. by rewrite app_nil_r.
Qed.

End Approvals.

Section Pipeline.
Context {ST E : Type} `{Store ST} `{Blake3} `{Hex} `{ModelTypes} `{!World E ST} `{StrDebug} `{JsonText}.
Context `{!Serde Transaction, !Serde json, !FromJson RuntimeCapabilityInstall, !Serde RecordPayload}.
Context `{!Serde ToolCall, !Serde ToolProposal, !Serde ToolExecution, !Serde PolicyDecision}.
Context `{!Serde ToolResult}.
Context (k : Kernel E).
Abbreviation KS := (KState ST E).
Abbreviation K := (stm KS KernelError).

Lemma silent_next_seq : silent (next_seq k : K Z).
Proof.
  unfold next_seq, fallible. apply silent_bind; [auto with silent|]. intros x.
  apply silent_bind; [by apply silent_modify|]. intros _. apply silent_ret.
Qed.
Lemma silent_load_window s : silent (load_window k s : K _).
Proof. unfold load_window, fallible. auto with silent. Qed.
Lemma silent_load_caps : silent (load_runtime_capabilities k : K _).
Proof. unfold load_runtime_capabilities, fallible. auto with silent. Qed.
Lemma silent_observe e : silent (observe_entry k e : K unit).
Proof. unfold observe_entry. destruct (tool_audit_observer _); auto with silent. Qed.

(** A successful append adds its entry; a failed one adds nothing. *)
Definition append_events {A} (e : RecordEntry) (r : result KernelError A) (evs : list KernelEvent) : Prop :=
  evs = match r with Ok _ => [Ev_append e] | Err _ => [] end.

Lemma emits_append_direct context s e caps clear :
  emits (append_direct k context s e caps clear : K unit) (append_events e).
Proof.
  unfold append_direct, fallible. apply emits_silent_bind; [auto with silent|done|].
  intros [] st r st' [= <- <-]. by exists [Ev_append e].
Qed.
Lemma emits_append_dequeued context s e token caps clear :
  emits (append_dequeued k context s e token caps clear : K unit) (append_events e).
Proof.
  unfold append_dequeued, fallible. apply emits_silent_bind; [auto with silent|done|].
  intros [] st r st' [= <- <-]. by exists [Ev_append e].
Qed.

Lemma emits_append_tool_entry tx fill token :
  emits (append_tool_entry k tx fill token : K RecordEntry) (fun r evs =>
    match r with
    | Ok e => evs = [Ev_append e]
              /\ exists s ch, e = build (fill (with_context_hash (builder s tx) ch))
    | Err _ => evs = []
    end).
Proof.
  unfold append_tool_entry. apply emits_silent_bind; [apply silent_next_seq|done|]. intros s.
  apply emits_silent_bind; [apply silent_load_window|done|]. intros w.
  apply emits_lift_bind; [done|]. intros ch Hch. cbn zeta. set (e := build _).
  apply (emits_bind _ _ (append_events e)).
  - destruct token; [apply emits_append_dequeued|apply emits_append_direct].
  - intros err evs ->. done.
  - intros [] evs1 ->. intros st r st' Hrun. unfold mbind, stm_bind in Hrun.
    destruct (observe_entry k e st) as [r1 st1] eqn:Eo.
    destruct (silent_observe e _ _ _ Eo) as (evs & He & ->).
    assert (exists x, r1 = Ok x) as [x ->].
    { unfold observe_entry in Eo. destruct (tool_audit_observer _); [unfold outside in Eo|];
        injection Eo as <- _; eauto. }
    injection Hrun as <- <-. exists []. split; [done|]. split; [done|]. by exists s, ch.
Qed.

Lemma silent_resolve_prompt ev : silent (resolve_prompt k ev : K PolicyEvaluation).
Proof.
  unfold resolve_prompt. destruct (ev_verdict ev) as [|reason [prompt|]|]; auto with silent.
  apply silent_bind.
  { unfold permission_hook. destruct (plugin_hooks _); auto with silent. }
  intros [[verdict rule]|]; [auto with silent|]. destruct (tool_approval_prompter _) as [prompter|]; [|auto with silent].
  apply silent_bind; [auto with silent|]. intros answer. apply silent_bind; [auto with silent|]. intros _.
  apply silent_bind; [auto with silent|]. intros response. apply silent_bind; [|auto with silent].
  assert (forall t s, silent (remember_for_session t s : K unit)) as Hr.
  { intros t s. apply silent_bind; [auto with silent|]. intros p. by apply silent_modify. }
  unfold apply_live_approval_response. destruct (tar_remember response); [auto with silent|apply Hr|].
  destruct (originating_user_id _); [|auto with silent].
  apply silent_bind; [unfold fallible; auto with silent|]. intros _. apply Hr.
Qed.

Lemma silent_resolve_live_ask tool args id ev : silent (resolve_live_ask k tool args id ev : K _).
Proof.
  unfold resolve_live_ask. apply silent_bind; [auto with silent|]. intros p. cbn zeta.
  destruct (is_deny _); [auto with silent|]. destruct (is_ask_without_prompt _ && _); [auto with silent|].
  destruct (_ || _); [|auto with silent].
  destruct (live_tool_prompt_explained _ _ _ _ _ _ _) as [[v r]|]; [|auto with silent].
  apply silent_resolve_prompt.
Qed.

(** ** The decision *)
Record decided (proposal : ToolProposal) (proposal_entry : RecordEntry) (au : Authorized) : Prop := {
  dc_type : tx_type (re_tx (au_decision_entry au)) = TransactionType_PolicyDecision;
  dc_refers : refers_to (au_decision_entry au) proposal_entry;
  dc_proposal : au_proposal au = proposal;
  dc_payload : to_vec (pdr_decision (au_decision_ref au)) = Ok (tx_payload (re_tx (au_decision_entry au)));
  dc_verdict : pd_verdict (pdr_decision (au_decision_ref au))
               = gate_verdict (ev_verdict (au_evaluation au));
  dc_allowed : is_Some (au_action au) <-> ev_verdict (au_evaluation au) = PolicyVerdict_Allow;
  dc_approves a : au_action au = Some a -> approves (au_decision_entry au) a;
}.

(** The part of [authorize_tool_proposal] after the verdict is known. *)
Lemma emits_record_decision proposal proposal_entry kp ev (action : option Action) :
  kp = Proposal_new ActionKind_Delegate (prop_payload kp) ->
  (is_Some action <-> ev_verdict ev = PolicyVerdict_Allow) ->
  (forall a, action = Some a -> action_payload a = prop_payload kp) ->
  emits (p ← gets ks_policy;
         let decision := decision_of p proposal ev action in
         now ← outside w_now_ms;
         tx ← lift (map_err KernelError_Serialization
                      (policy_decision now (k_agent_id k) decision (tx_hash (re_tx proposal_entry))));
         let kernel_decision := kernel_decision_of action (ev_verdict ev) in
         decision_entry ← append_tool_entry k tx
           (fun b => with_decision (with_proposal_set b (with_proposals [kp])) kernel_decision) None;
         mret {| au_proposal := proposal; au_evaluation := ev; au_action := action;
                 au_decision_entry := decision_entry;
                 au_decision_ref :=
                   {| pdr_proposal_seq := re_seq proposal_entry;
                      pdr_proposal_tx_hash := tx_hash (re_tx proposal_entry);
                      pdr_seq := re_seq decision_entry; pdr_tx_hash := tx_hash (re_tx decision_entry);
                      pdr_decision := decision |} |} : K Authorized)
    (fun r evs =>
      match r with
      | Ok au => evs = [Ev_append (au_decision_entry au)] /\ decided proposal proposal_entry au
      | Err _ => evs = []
      end).
Proof.
  intros Hkp Hact Hpay. apply emits_silent_bind; [auto with silent|done|]. intros p. cbn zeta.
  apply emits_silent_bind; [auto with silent|done|]. intros now.
  apply emits_lift_bind; [done|]. intros tx Htx. apply map_err_Ok in Htx. unfold policy_decision in Htx.
  apply result_bind_Ok in Htx as (payload & Hvec & Htx). injection Htx as <-.
  eapply emits_bind; [apply emits_append_tool_entry|by intros e evs|].
  intros e evs1 (-> & s & ch & ->). apply emits_ret. split; [done|].
  split; cbn; try done. intros a ->. split_and!; [done| |done|by rewrite Hkp, (Hpay a eq_refl)].
  eexists. split_and!; [exact Hvec| |done]. cbn. by rewrite (proj1 Hact ltac:(by eexists)).
Qed.

Lemma emits_authorize proposal proposal_entry rc :
  emits (authorize_tool_proposal k proposal proposal_entry rc : K Authorized) (fun r evs =>
    match r with
    | Ok au => evs = [Ev_append (au_decision_entry au)] /\ decided proposal proposal_entry au
    | Err _ => evs = []
    end).
Proof.
  unfold authorize_tool_proposal, kernel_proposal_from_tool_proposal.
  apply emits_assoc, emits_lift_bind; [done|]. intros payload _. apply emits_ret_bind.
  apply emits_silent_bind; [auto with silent|done|]. intros p0. cbn zeta.
  apply emits_silent_bind; [apply silent_resolve_live_ask|done|]. intros ev.
  destruct (is_allowed (ev_verdict ev)) eqn:Ea.
  - apply emits_assoc, emits_silent_bind; [auto with silent|done|]. intros id. apply emits_ret_bind.
    apply emits_record_decision; [done| |by intros a [= <-]].
    split; [|by eexists]. intros _. by destruct (ev_verdict ev).
  - apply emits_ret_bind, emits_record_decision; [done| |done].
    split; [by intros [? ?]|]. intros Hv. by rewrite Hv in Ea.
Qed.

(** ** The execution *)
Record executed_for (au : Authorized) (action : Action) (x : Executed) : Prop := {
  xf_type : tx_type (re_tx (exd_entry x)) = TransactionType_ToolExecution;
  xf_refers : refers_to (exd_entry x) (au_decision_entry au);
  xf_action : re_actions (exd_entry x) = [action];
  xf_effect : exists effect, re_effects (exd_entry x)
                             = [maybe_summarise_effect_payload effect (lite_payload_threshold k)];
}.

Lemma emits_record_execution au action effect :
  emits (record_tool_execution k au action effect : K Executed) (fun r evs =>
    match r with
    | Ok x => evs = [Ev_append (exd_entry x)] /\ executed_for au action x
    | Err _ => evs = []
    end).
Proof.
  unfold record_tool_execution. apply emits_silent_bind; [auto with silent|done|]. intros now.
  apply emits_lift_bind; [done|]. intros tx Htx. apply map_err_Ok in Htx.
  unfold tool_execution_for_decision, tool_execution in Htx.
  apply result_bind_Ok in Htx as (tx0 & Htx0 & Htx). injection Htx as <-.
  apply result_bind_Ok in Htx0 as (payload & _ & Htx0). injection Htx0 as <-.
  eapply emits_bind; [apply emits_append_tool_entry|by intros e evs|].
  intros e evs1 (-> & s & ch & ->). apply emits_ret. split; [done|]. split; cbn; try done. by eexists.
Qed.

Lemma emits_execute ctx a tool :
  emits (execute_with_timeout k ctx a tool : K Effect) (fun _ evs => evs = [Ev_dispatch a]).
Proof.
  intros st r st' Hrun. unfold execute_with_timeout, mbind, stm_bind, modify in Hrun.
  assert (silent (if tool_manages_own_timeout tool then
      (effect ← outside (router_execute (k_executor k) ctx a); _ ← sync; mret effect)
    else (answer ← with_timeout (tool_timeout_ms (k_config k)) (router_execute (k_executor k) ctx a);
          mret (match answer with
          | Some effect => effect
          | None => Effect_failed (action_id a) EffectKind_Agreement
                      (string_to_bytes ("Tool timed out after " +++ fmt_Z (tool_timeout_ms (k_config k)) +++ "ms"))
          end)) : K Effect)) as Hs.
  { destruct (tool_manages_own_timeout tool); auto with silent. }
  destruct (Hs _ _ _ Hrun) as (evs & He & ->). exists [Ev_dispatch a]. split; [|done].
  rewrite app_nil_r in He. exact He.
Qed.

Lemma emits_run_action proposal action :
  emits (run_action k proposal action : K Effect)
    (fun _ evs => evs = [] \/ evs = [Ev_dispatch action]).
Proof.
  unfold run_action. apply emits_silent_bind; [|by left|].
  { destruct (plugin_hooks _); [|auto with silent]. unfold fire_pre_tool_use_and_maybe_block.
    destruct (hook_pre_tool_use_is_empty _); [auto with silent|].
    apply silent_bind; [auto with silent|]. intros []; auto with silent. }
  intros [effect|]; [apply emits_ret; by left|].
  apply emits_silent_bind; [unfold create_workspace; auto with silent|by left|]. intros _.
  eapply emits_mono; [apply emits_execute|]. intros r evs ->. by right.
Qed.
(** ** A single proposal *)
Definition tool_call_trace (tx : Transaction) (r : result KernelError ProcessResult)
    (evs : list KernelEvent) : Prop :=
  match r with
  | Err _ => True
  | Ok res =>
      exists proposal pe au, from_slice (tx_payload tx) = Ok proposal /\ re_tx pe = tx
        /\ decided proposal pe au
        /\ match au_action au with
           | None => evs = [Ev_append pe; Ev_append (au_decision_entry au)]
                     /\ pr_entry res = au_decision_entry au
           | Some a => exists x run, evs = [Ev_append pe; Ev_append (au_decision_entry au)]
                                          ++ run ++ [Ev_append (exd_entry x)]
                         /\ (run = [] \/ run = [Ev_dispatch a])
                         /\ executed_for au a x /\ pr_entry res = exd_entry x
           end
  end.

Lemma finish_denied_entry au : pr_entry (finish_tool_call au None) = au_decision_entry au.
Proof. unfold finish_tool_call. by destruct (ev_verdict (au_evaluation au)). Qed.

Lemma emits_process_one tx token :
  emits (process_one k tx token : K ProcessResult)
    (fun r evs => approved_dispatches evs /\ tool_call_trace tx r evs).
Proof.
  assert (approved_dispatches []) as Hnil by (intros [|? ?] ? ?; done).
  unfold process_one. apply emits_lift_bind; [done|]. intros proposal Hp. apply map_err_Ok in Hp.
  apply emits_silent_bind; [apply silent_load_caps|done|]. intros rc.
  eapply emits_bind; [apply emits_append_tool_entry|by intros e evs ->|].
  intros pe evs1 (-> & s & ch & Hpe).
  assert (approved_dispatches [Ev_append pe]) as Hd1 by (apply only_appends_approved; appends).
  eapply emits_bind; [apply emits_authorize|by intros e evs ->|].
  intros au evs2 (-> & Hdec). cbn [app].
  set (evs := [Ev_append pe; Ev_append (au_decision_entry au)]).
  assert (approved_dispatches evs) as Hd2 by (apply only_appends_approved; appends).
  destruct (au_action au) as [a|] eqn:Ea; cycle 1.
  { apply emits_ret_bind, emits_ret. split; [done|]. exists proposal, pe, au. rewrite Ea.
    split_and!; [done|by rewrite Hpe|done|done|apply finish_denied_entry]. }
  apply emits_assoc.
  eapply emits_bind; [apply emits_run_action|..].
  { intros e run [-> | ->]; (split; [|done]); [done|].
    apply (approved_snoc_dispatch evs (au_decision_entry au)); [done|set_solver|by apply Hdec]. }
  intros effect run Hrun.
  assert (approved_dispatches (evs ++ run)) as Hd3.
  { destruct Hrun as [-> | ->]; [by rewrite app_nil_r|].
    apply (approved_snoc_dispatch evs (au_decision_entry au)); [done|set_solver|by apply Hdec]. }
  apply emits_assoc. eapply emits_bind; [apply emits_record_execution|by intros e evs3 ->; rewrite app_nil_r|].
  intros x evs3 (-> & Hx). apply emits_ret_bind, emits_ret. rewrite app_nil_r.
  split.
  - apply (approved_snoc_appends (evs ++ run) [Ev_append (exd_entry x)]) in Hd3; [|appends].
    by rewrite <-app_assoc in Hd3.
  - exists proposal, pe, au. rewrite Ea. split_and!; [done|by rewrite Hpe|done|].
    exists x, run. done.
Qed.

(** ** A batch *)

(** The two entries of a decided proposal, as events. *)
Definition decision_events (d : RecordEntry * Authorized) : list KernelEvent :=
  [Ev_append d.1; Ev_append (au_decision_entry d.2)].
Definition decided_pair (p : ToolProposal) (d : RecordEntry * Authorized) : Prop :=
  tx_type (re_tx d.1) = TransactionType_ToolProposal
  /\ to_vec p = Ok (tx_payload (re_tx d.1)) /\ decided p d.1 d.2.
Definition ran_as (au : Authorized) (x : option Executed) : Prop :=
  match au_action au, x with
  | None, None => True
  | Some a, Some x => executed_for au a x
  | _, _ => False
  end.
Definition execution_events (xs : list (option Executed)) : list KernelEvent :=
  (fun x => Ev_append (exd_entry x)) <$> omap id xs.

(** A batch's events, however it ends: proposals and decisions, then
    dispatches of approved actions, then executions. *)
Definition batch_trace (evs : list KernelEvent) : Prop :=
  exists decisions dispatches executions,
    evs = decisions ++ dispatches ++ executions
    /\ only_appends decisions /\ only_appends executions
    /\ Forall (fun ev => exists a e, ev = Ev_dispatch a /\ Ev_append e ∈ decisions /\ approves e a) dispatches.

(** The events and results of a batch that succeeds, exactly. *)
Definition batch_ok (proposals : list ToolProposal) (res : list ProcessResult) (evs : list KernelEvent) : Prop :=
  exists dec acts xs,
    Forall2 decided_pair proposals dec
    /\ acts `sublist_of` omap au_action dec.*2
    /\ Forall2 ran_as dec.*2 xs
    /\ evs = mjoin (decision_events <$> dec) ++ (Ev_dispatch <$> acts) ++ execution_events xs
    /\ res = zip_with finish_tool_call dec.*2 xs.

Lemma emits_authorize_all proposals rc :
  emits (authorize_all k proposals rc : K (list Authorized)) (fun r evs =>
    only_appends evs /\
    forall aus, r = Ok aus -> exists dec, aus = dec.*2 /\ Forall2 decided_pair proposals dec
                                /\ evs = mjoin (decision_events <$> dec)).
Proof.
  assert (only_appends []) as Hnil by apply Forall_nil_2.
  induction proposals as [|p rest IH]; cbn [authorize_all].
  { apply emits_ret. split; [done|]. intros aus [= <-]. by exists []. }
  apply emits_silent_bind; [auto with silent|done|]. intros now.
  apply emits_lift_bind; [done|]. intros tx Htx. apply map_err_Ok in Htx. unfold tool_proposal in Htx.
  apply result_bind_Ok in Htx as (payload & Hvec & Htx). injection Htx as <-.
  eapply emits_bind; [apply emits_append_tool_entry|by intros e evs ->|].
  intros pe evs1 (-> & s & ch & Hpe).
  eapply emits_bind; [apply emits_authorize|intros e evs ->; split; [appends|done]|].
  intros au evs2 (-> & Hdec).
  eapply emits_bind; [exact IH|..].
  { intros e evs [Ho _]. split; [|done]. cbn [app]. by repeat (apply Forall_cons; split; [by eexists|]). }
  intros more evs3 [Ho Hmore]. apply emits_ret. rewrite app_nil_r. cbn [app]. split.
  { by repeat (apply Forall_cons; split; [by eexists|]). }
  intros aus [= <-]. destruct (Hmore more eq_refl) as (dec & -> & Hf & ->).
  exists ((pe, au) :: dec). split_and!; [done| |done]. constructor; [|done].
  split_and!; [by rewrite Hpe|by rewrite Hpe|done].
Qed.

(** A slot's cell holds an effect. *)
Definition filled (cells : list (option Effect)) (j : nat) : Prop := exists e, cells !! j = Some (Some e).

(** A plan keeps the cells it was given and accounts for every approved slot:
    its cell is filled (the call was blocked) or it is dispatched. *)
Record planned (i : nat) (slots : list Authorized) (cells : list (option Effect))
    (plan : list (option Effect) * list Dispatch) : Prop := {
  pl_length : length plan.1 = length cells;
  pl_kept j : filled cells j -> filled plan.1 j;
  pl_covers j slot : slots !! j = Some slot -> is_Some (au_action slot) -> i + j < length cells ->
    filled plan.1 (i + j) \/ exists d, d ∈ plan.2 /\ dp_index d = i + j;
  pl_actions : dp_action <$> plan.2 `sublist_of` omap au_action slots;
}.

Lemma filled_insert i j e cells : filled cells j -> filled (<[i := Some e]> cells) j.
Proof.
  intros [e' Hj]. unfold filled. destruct (decide (i = j)) as [->|Hne].
  - exists e. apply list_lookup_insert_eq. by eapply lookup_lt_Some.
  - exists e'. by rewrite list_lookup_insert_ne.
Qed.
Lemma filled_at i e cells : i < length cells -> filled (<[i := Some e]> cells) i.
Proof. intros Hi. exists e. by apply list_lookup_insert_eq. Qed.

Lemma planned_skip i slot slots cells plan :
  au_action slot = None -> planned (S i) slots cells plan -> planned i (slot :: slots) cells plan.
Proof.
  intros Ha [Hl Hk Hc Hs]. split; [done|done| |].
  - intros [|j] s0; cbn; [intros [= <-] [a Ha']; congruence|]. intros Hj Hact Hlt.
    replace (i + S j) with (S i + j) in * by lia. eauto.
  - cbn. by rewrite Ha.
Qed.

Lemma planned_blocked i slot slots cells effect plan :
  planned (S i) slots (<[i := Some effect]> cells) plan -> planned i (slot :: slots) cells plan.
Proof.
  intros [Hl Hk Hc Hs]. rewrite length_insert in *. split; [done| | |].
  - intros j Hj. by apply Hk, filled_insert.
  - intros [|j] s0; cbn.
    + intros _ _ Hlt. left. apply Hk. rewrite Nat.add_0_r in *. by apply filled_at.
    + intros Hj Hact Hlt. replace (i + S j) with (S i + j) in * by lia. eauto.
  - cbn. destruct (au_action slot); [by apply sublist_cons|done].
Qed.

Lemma planned_dispatch i slot slots cells d plan :
  au_action slot = Some (dp_action d) -> dp_index d = i ->
  planned (S i) slots cells plan -> planned i (slot :: slots) cells (plan.1, d :: plan.2).
Proof.
  intros Ha Hi [Hl Hk Hc Hs]. split; [done|done| |].
  - intros [|j] s0; cbn.
    + intros _ _ Hlt. right. exists d. split; [by left|lia].
    + intros Hj Hact Hlt. replace (i + S j) with (S i + j) in * by lia.
      destruct (Hc j s0 Hj Hact Hlt) as [Hf|(d' & Hd' & He)]; [by left|right; exists d'; split; [by right|done]].
  - cbn. rewrite Ha. by apply sublist_skip.
Qed.

(** Dispatches are planned only for slots with an approved action, in order. *)
Lemma plan_slots_run workspace i slots cells :
  emits (plan_slots k workspace i slots cells : K _) (fun r evs => evs = [] /\
    forall plan, r = Ok plan -> planned i slots cells plan).
Proof.
  revert i cells. induction slots as [|slot rest IH]; intros i cells; cbn [plan_slots].
  { apply emits_ret. split; [done|]. intros plan [= <-]. by split. }
  destruct (au_action slot) as [action|] eqn:Ea; cycle 1.
  { eapply emits_mono; [apply IH|]. intros r evs [-> Hp]. split; [done|]. intros plan Hr.
    by apply planned_skip, Hp. }
  apply emits_silent_bind; [|done|].
  { destruct (plugin_hooks _); [|auto with silent].
    unfold fire_pre_tool_use_for_batch, fire_pre_tool_use_and_maybe_block.
    destruct (hook_pre_tool_use_is_empty _); [auto with silent|].
    apply silent_bind; [auto with silent|]. intros []; auto with silent. }
  intros [effect|].
  { eapply emits_mono; [apply IH|]. intros r evs [-> Hp]. split; [done|]. intros plan Hr.
    by eapply planned_blocked, Hp. }
  cbn zeta. eapply emits_bind; [apply IH|by intros e evs [-> _]|].
  intros plan0 evs1 [-> Hp]. apply emits_ret. split; [done|]. intros plan [= <-].
  apply planned_dispatch; [done|done|by apply Hp].
Qed.

Lemma fill_slots_length ds es cells : length (fill_slots ds es cells) = length cells.
Proof.
  revert es cells. induction ds as [|d ds IH]; intros [|e es] cells; try done. cbn.
  by rewrite IH, length_insert.
Qed.
Lemma fill_slots_kept ds es cells j : filled cells j -> filled (fill_slots ds es cells) j.
Proof.
  revert es cells. induction ds as [|d ds IH]; intros [|e es] cells Hj; try done. cbn.
  by apply IH, filled_insert.
Qed.
Lemma fill_slots_fills ds es cells d :
  length es = length ds -> d ∈ ds -> dp_index d < length cells -> filled (fill_slots ds es cells) (dp_index d).
Proof.
  revert es cells. induction ds as [|d' ds IH]; intros [|e es] cells Hl Hd Hlt; try done;
    try (by apply elem_of_nil in Hd). cbn. apply elem_of_cons in Hd as [-> |Hd].
  - by apply fill_slots_kept, filled_at.
  - apply IH; [by injection Hl|done|by rewrite length_insert].
Qed.

(** With every dispatch answered, each approved slot has its effect. *)
Lemma planned_filled slots plan es :
  planned 0 slots (replicate (length slots) None) plan -> length es = length plan.2 ->
  Forall (fun sl => is_Some (au_action sl.1) -> is_Some sl.2) (zip slots (fill_slots plan.2 es plan.1)).
Proof.
  intros [Hl Hk Hc Hs] He. rewrite length_replicate in *. apply Forall_lookup_2. intros j [slot cell] Hj Hact.
  apply lookup_zip_Some in Hj as [Hslot Hcell]. cbn in *. pose proof (lookup_lt_Some _ _ _ Hslot).
  assert (filled (fill_slots plan.2 es plan.1) j) as [e Hf].
  { destruct (Hc j slot Hslot Hact) as [Hf|(d & Hd & Hj)]; [done|by apply fill_slots_kept|].
    cbn in Hj. subst j. apply fill_slots_fills; [done|done|lia]. }
  rewrite Hf in Hcell. by injection Hcell as <-.
Qed.

Lemma emits_execute_all ds :
  emits (execute_all k ds : K (list Effect)) (fun r evs =>
    evs `prefix_of` (Ev_dispatch <$> (dp_action <$> ds))
    /\ (forall es, r = Ok es -> evs = Ev_dispatch <$> (dp_action <$> ds) /\ length es = length ds)).
Proof.
  induction ds as [|d ds IH]; cbn [execute_all].
  { apply emits_ret. split; [done|]. by intros es [= <-]. }
  eapply emits_bind; [apply emits_execute|..].
  { intros e evs ->. split; [|done]. cbn. apply prefix_cons, prefix_nil. }
  intros effect evs1 ->. eapply emits_bind; [exact IH|..].
  { intros e evs [Hev _]. split; [|done]. cbn. by apply prefix_cons. }
  intros more evs2 [Hev Hok]. apply emits_ret. rewrite app_nil_r. cbn. split; [by apply prefix_cons|].
  intros es [= <-]. destruct (Hok more eq_refl) as [-> Hlen]. cbn. by rewrite Hlen.
Qed.

Lemma emits_record_all slots :
  emits (record_all k slots : K (list ProcessResult)) (fun r evs => only_appends evs /\
    forall res, r = Ok res -> exists xs, Forall2 ran_as slots.*1 xs /\ evs = execution_events xs
                                /\ res = zip_with finish_tool_call slots.*1 xs).
Proof.
  assert (only_appends []) as Hnil by apply Forall_nil_2.
  induction slots as [|[slot effect] rest IH]; cbn [record_all].
  { apply emits_ret. split; [done|]. intros res [= <-]. by exists []. }
  eapply (emits_bind _ _ (fun r evs => only_appends evs /\
    forall x, r = Ok x -> ran_as slot x /\ evs = execution_events [x])); [|by intros e evs [Ho _]|].
  { unfold ran_as. destruct (au_action slot) as [a|]; cycle 1.
    { apply emits_ret. split; [done|]. by intros x [= <-]. }
    destruct effect; [|by apply emits_fails].
    eapply emits_bind; [apply emits_record_execution|by intros err evs ->|].
    intros x evs (-> & Hx). apply emits_ret. rewrite app_nil_r. split; [appends|]. by intros y [= <-]. }
  intros x evs1 [Ho1 Hx]. destruct (Hx x eq_refl) as [Hran Hevs]. eapply emits_bind; [exact IH|..].
  { intros e evs [Ho _]. split; [|done]. by apply Forall_app. }
  intros more evs2 [Ho2 Hmore]. apply emits_ret. rewrite app_nil_r. split; [by apply Forall_app|].
  intros res [= <-]. destruct (Hmore more eq_refl) as (xs & Hf & -> & ->).
  exists (x :: xs). split_and!; [by constructor| |done]. rewrite Hevs. by destruct x.
Qed.

Lemma approved_of_decided proposals dec a :
  Forall2 decided_pair proposals dec -> a ∈ omap au_action dec.*2 ->
  exists e, Ev_append e ∈ mjoin (decision_events <$> dec) /\ approves e a.
Proof.
  intros Hf Ha. apply list_elem_of_omap in Ha as (au & Hau & Hact).
  apply list_elem_of_fmap in Hau as (d & -> & Hd). exists (au_decision_entry d.2). split.
  - apply list_elem_of_join. exists (decision_events d). split; [set_solver|].
    apply list_elem_of_fmap. eauto.
  - apply list_elem_of_lookup in Hd as [i Hi].
    destruct (Forall2_lookup_r _ _ _ _ _ Hf Hi) as (p & _ & _ & _ & Hdec). by apply Hdec.
Qed.

Lemma emits_process_many proposals :
  emits (process_many k proposals : K (list ProcessResult)) (fun r evs =>
    batch_trace evs /\ forall res, r = Ok res -> batch_ok proposals res evs).
Proof.
  assert (only_appends []) as Hnil by apply Forall_nil_2.
  assert (forall evs, only_appends evs -> batch_trace evs) as Hpre.
  { intros evs Ho. exists evs, [], []. split_and!; [by rewrite !app_nil_r|done|done|constructor]. }
  unfold process_many. destruct proposals as [|p0 rest].
  { apply emits_ret. split; [by apply Hpre|]. intros res [= <-]. by exists [], [], []. }
  set (proposals := p0 :: rest) in *.
  apply emits_silent_bind; [apply silent_load_caps|by intros; split; [apply Hpre|]|]. intros rc.
  eapply emits_bind; [apply emits_authorize_all|by intros e evs [Ho _]; split; [apply Hpre|]|].
  intros aus evs1 [Ho1 Haus]. destruct (Haus aus eq_refl) as (dec & -> & Hdec & ->). clear Haus. cbn zeta.
  apply emits_silent_bind; [unfold create_workspace; auto with silent
                           |by intros; rewrite app_nil_r; split; [apply Hpre|]|].
  intros _. eapply emits_bind; [apply plan_slots_run
                               |by intros e evs [-> _]; rewrite app_nil_r; split; [apply Hpre|]|].
  intros plan evs2 [-> Hplan]. specialize (Hplan plan eq_refl).
  assert (forall evs, evs `prefix_of` (Ev_dispatch <$> (dp_action <$> plan.2)) ->
    Forall (fun ev => exists a e, ev = Ev_dispatch a /\ Ev_append e ∈ mjoin (decision_events <$> dec)
                                  /\ approves e a) evs) as Hd.
  { intros evs [l Hl]. apply Forall_forall. intros ev Hev.
    assert (ev ∈ Ev_dispatch <$> (dp_action <$> plan.2)) as Hin by (rewrite Hl; set_solver).
    apply list_elem_of_fmap in Hin as (a & -> & Ha).
    destruct (approved_of_decided proposals dec a Hdec) as (e & He & Hap); [|by exists a, e].
    eapply elem_of_submseteq; [exact Ha|]. apply sublist_submseteq, Hplan. }
  eapply emits_bind; [apply emits_execute_all|..].
  { intros e evs [Hev _]. split; [|done]. exists (mjoin (decision_events <$> dec)), evs, [].
    split_and!; [by rewrite app_nil_r|done|done|by apply Hd]. }
  intros effects evs3 [Hev3 Hok3]. eapply emits_mono; [apply emits_record_all|].
  intros r evs4 [Ho4 Hok4]. split.
  { exists (mjoin (decision_events <$> dec)), evs3, evs4. split_and!; [done|done|done|by apply Hd]. }
  intros res ->. destruct (Hok4 res eq_refl) as (xs & Hran & -> & ->).
  rewrite fst_zip in * by (rewrite fill_slots_length, (pl_length _ _ _ _ Hplan), length_replicate; lia).
  exists dec, (dp_action <$> plan.2), xs. split_and!; [done|apply Hplan|done| |done].
  destruct (Hok3 effects eq_refl) as [-> _]. done.
Qed.

Lemma batch_trace_approved evs : batch_trace evs -> approved_dispatches evs.
Proof.
  intros (l1 & l2 & l3 & -> & H1' & H3' & H2'). rewrite app_assoc.
  apply approved_snoc_appends; [|done]. apply approved_app; [by apply only_appends_approved|].
  intros m1 a m2 ->. apply Forall_app in H2' as [_ H2'].
  apply Forall_cons in H2' as [(a' & e & [= <-] & He & Ha) _]. exists e. split; [set_solver|done].
Qed.
End Pipeline.
