(* ===== verification/KernelCalls.v ===== *)
(** Sequences of kernel calls.

    A [KernelCall] is one request to a kernel: a transaction handed to it, the
    inbox drained, a batch of tool proposals, a model call, the record of a streamed
    model call through its handle, a system record.  [run_kcalls] performs a
    sequence of them, whatever each returns; the theorems speak of every such
    sequence, with other tasks interfering throughout. *)
From S2P Require Import Prelude Values Modes Permissions CoreTypes Policy Keys StoreSpec Utf8 Exec Context Replay Kernel KernelTools KernelInv KernelSafe KernelTrace.
From stdpp Require Import list.
From Stdlib Require Import Strings.Byte.

Inductive KernelCall `{ModelTypes} :=
| KCall_direct (tx : Transaction)
| KCall_drain
| KCall_tools (proposals : list ToolProposal)
| KCall_reason (request : ModelRequest)
| KCall_reason_streaming (request : ModelRequest)
| KCall_record_completed (handle : nat) (model : string) (stop_reason : StopReason) (usage : Usage)
    (tool_uses : list string) (thinking : string) (thinking_ms : option Z)
| KCall_record_failed (handle : nat) (error : string)
| KCall_system (tx : Transaction).

Section Calls.
Context {ST E : Type} `{Store ST} `{Blake3} `{Hex} `{ModelTypes} `{!World E ST} `{StrDebug} `{JsonText}.
Context `{!Serde Transaction, !Serde json, !FromJson RuntimeCapabilityInstall, !Serde RecordPayload}.
Context `{!Serde ToolCall, !Serde ToolProposal, !Serde ToolExecution, !Serde PolicyDecision}.
Context `{!Serde ToolResult}.
Context (k : Kernel E).
Abbreviation KS := (KState ST E).
Abbreviation K := (stm KS KernelError).

(** [drain_stale_inbox] of the terminal's event loop
    ([aura-surface-cli/src/event_loop/mod.rs]): process what is in the inbox
    until it is empty, a read or a transaction fails, or eleven have been
    processed; [left] is how many more may follow this one. *)
Fixpoint drain_stale_from (left : nat) : K unit := fun st =>
  match (store_read (fun s => st_dequeue_tx s (k_agent_id k)) : stm KS StoreError _) st with
  | (Ok (Some (token, tx)), st1) =>
      match process_dequeued k tx token st1 with
      | (Ok _, st2) =>
          match left with
          | S n => drain_stale_from n st2
          | O => (Ok tt, st2)
          end
      | (Err _, st2) => (Ok tt, st2)
      end
  | (_, st1) => (Ok tt, st1)
  end.
Definition drain_stale_inbox : K unit := drain_stale_from 10.

(** The handles a call opens. *)
Definition discard {A} (m : K A) : K (list ReasonStreamHandle) := _ ← m; mret [].
(** A record is made through one of the handles opened so far. *)
Definition on_handle {A} (hs : list ReasonStreamHandle) (i : nat) (f : ReasonStreamHandle -> K A) : K (list ReasonStreamHandle) :=
  match hs !! i with Some h => discard (f h) | None => mret [] end.
Definition run_kcall (c : KernelCall) (hs : list ReasonStreamHandle) : K (list ReasonStreamHandle) :=
  match c with
  | KCall_direct tx => discard (process_direct k tx)
  | KCall_drain => discard drain_stale_inbox
  | KCall_tools proposals => discard (process_tools k proposals)
  | KCall_reason request => discard (reason k request)
  | KCall_reason_streaming request => h ← reason_streaming k request; mret [h]
  | KCall_record_completed i model stop_reason usage tool_uses thinking thinking_ms =>
      on_handle hs i (fun h => record_completed k h model stop_reason usage tool_uses thinking thinking_ms)
  | KCall_record_failed i error => on_handle hs i (fun h => record_failed k h error)
  | KCall_system tx => discard (write_system_record k tx)
  end.
Fixpoint run_from (hs : list ReasonStreamHandle) (cs : list KernelCall) (st : KS) : KS :=
  match cs with
  | [] => st
  | c :: cs => let '(r, st') := run_kcall c hs st in run_from (hs ++ match r with Ok new => new | Err _ => [] end) cs st'
  end.
Definition run_kcalls (cs : list KernelCall) (st : KS) : KS := run_from [] cs st.

(** At most this many entries are appended by a call. *)
Definition call_cost (c : KernelCall) : nat :=
  match c with
  | KCall_direct _ => 3
  | KCall_drain => 33
  | KCall_tools proposals => 3 * length proposals
  | _ => 1
  end.
Definition calls_cost (cs : list KernelCall) : nat := sum_list_with call_cost cs.

(** ** Events of a call *)
Lemma emits_fail_reasoning {A} stage reason err :
  emits (fail_reasoning k stage reason err : K A) (fun _ evs => only_appends evs).
Proof.
  assert (only_appends []) as Hnil by apply Forall_nil_2.
  unfold fail_reasoning. apply emits_silent_bind; [apply silent_next_seq|done|]. intros s.
  eapply (emits_bind _ _ (fun _ evs => only_appends evs)); [|done|].
  2: { intros [] evs1 Ho. apply emits_fails. by rewrite app_nil_r. }
  intros st r st' Hrun. unfold try_record_failure in Hrun.
  assert (emits (record_reasoning_failure k s stage reason : K unit) (fun _ evs => only_appends evs)) as He.
  { unfold record_reasoning_failure, append_reasoning. apply emits_assoc.
    apply emits_lift_bind; [done|]. intros b _. apply emits_assoc.
    apply emits_silent_bind; [auto with silent|done|]. intros now. apply emits_assoc.
    apply emits_silent_bind; [apply silent_load_window|done|]. intros w. apply emits_assoc.
    apply emits_lift_bind; [done|]. intros ch _. apply emits_assoc.
    eapply emits_bind; [apply emits_append_direct|by intros e evs ->|].
    intros [] evs ->. apply emits_ret_bind, emits_ret. appends. }
  destruct (record_reasoning_failure k s stage reason st) as [r1 st1] eqn:Er. injection Hrun as <- <-.
  exact (He _ _ _ Er).
Qed.

Lemma emits_reason request : emits (reason k request : K _) (fun _ evs => only_appends evs).
Proof.
  assert (only_appends []) as Hnil by apply Forall_nil_2.
  unfold reason. apply emits_silent_bind; [auto with silent|done|].
  intros [[response|e]|]; [|apply emits_fail_reasoning..].
  apply emits_lift_bind; [done|]. intros b _. apply emits_silent_bind; [auto with silent|done|]. intros now.
  apply emits_silent_bind; [apply silent_next_seq|done|]. intros s.
  apply emits_silent_bind; [apply silent_load_window|done|]. intros w.
  apply emits_lift_bind; [done|]. intros ch _.
  eapply emits_bind; [apply emits_append_direct|by intros e evs ->|].
  intros [] evs ->. apply emits_ret. appends.
Qed.

Lemma emits_reason_streaming request : emits (reason_streaming k request : K _) (fun _ evs => only_appends evs).
Proof.
  assert (only_appends []) as Hnil by apply Forall_nil_2.
  unfold reason_streaming. apply emits_silent_bind; [auto with silent|done|]. intros projected.
  apply emits_silent_bind; [apply silent_load_window|done|]. intros w.
  apply emits_silent_bind; [auto with silent|done|].
  intros [[u|e]|]; [by apply emits_ret|apply emits_fail_reasoning..].
Qed.

Lemma emits_handle_append h tx : emits (handle_append k h tx : K _) (fun _ evs => only_appends evs).
Proof.
  assert (only_appends []) as Hnil by apply Forall_nil_2.
  unfold handle_append. apply emits_silent_bind; [apply silent_next_seq|done|]. intros s.
  apply emits_lift_bind; [done|]. intros ch _.
  eapply emits_bind; [apply emits_append_direct|by intros e evs ->|].
  intros [] evs ->. apply emits_ret. appends.
Qed.
Lemma emits_record_completed h model stop usage uses thinking ms :
  emits (record_completed k h model stop usage uses thinking ms : K _) (fun _ evs => only_appends evs).
Proof.
  assert (only_appends []) as Hnil by apply Forall_nil_2.
  unfold record_completed. apply emits_lift_bind; [done|]. intros b _.
  apply emits_silent_bind; [auto with silent|done|]. intros now. apply emits_handle_append.
Qed.
Lemma emits_record_failed h error : emits (record_failed k h error : K _) (fun _ evs => only_appends evs).
Proof.
  assert (only_appends []) as Hnil by apply Forall_nil_2.
  unfold record_failed. apply emits_lift_bind; [done|]. intros b _.
  apply emits_silent_bind; [auto with silent|done|]. intros now. apply emits_handle_append.
Qed.

Lemma emits_system_once tx :
  emits (append_system_record_once k tx : stm KS SystemRecordError Z) (fun _ evs => only_appends evs).
Proof.
  assert (only_appends []) as Hnil by apply Forall_nil_2.
  unfold append_system_record_once. apply emits_silent_bind; [auto with silent|done|]. intros head.
  apply emits_silent_bind; [case_bool_decide; auto with silent|done|]. intros w.
  apply emits_lift_bind; [done|]. intros ch _. apply emits_silent_bind; [auto with silent|done|]. intros [].
  eapply (emits_bind _ _ (fun _ evs => only_appends evs)); [|done|].
  - intros st r st' [= <- <-]. eexists. split; [done|]. appends.
  - intros [] evs Ho. apply emits_ret. by rewrite app_nil_r.
Qed.

Lemma emits_system tx : emits (write_system_record k tx : K Z) (fun _ evs => only_appends evs).
Proof.
  unfold write_system_record. generalize MAX_RETRIES. intros retries.
  induction retries as [|retries IH]; intros st r st' Hrun; cbn [write_system_record_from] in Hrun;
    destruct (append_system_record_once k tx st) as [r1 st1] eqn:Ea;
    destruct (emits_system_once tx _ _ _ Ea) as (evs & He & Ho);
    destruct r1 as [seq|[|err]]; try (injection Hrun as <- <-; by exists evs).
  destruct (emits_silent_bind sync (fun _ => write_system_record_from k retries tx) _ silent_sync
    (fun e => Forall_nil_2 _) (fun _ => IH) _ _ _ Hrun) as (evs' & He' & Ho').
  exists (evs ++ evs'). rewrite He', He, app_assoc. split; [done|]. by apply Forall_app.
Qed.

(** A processed transaction is in an appended entry. *)
Definition recorded {A} (tx : Transaction) (r : result KernelError A) (evs : list KernelEvent) : Prop :=
  match r with Ok _ => exists e, Ev_append e ∈ evs /\ re_tx e = tx | Err _ => True end.

Lemma emits_process_tx tx s :
  emits (process_tx k tx s : K ProcessResult) (fun r evs => evs = [] /\
    match r with Ok res => re_tx (pr_entry res) = tx | Err _ => True end).
Proof.
  unfold process_tx. apply emits_silent_bind; [apply silent_load_window|done|]. intros w.
  apply emits_lift_bind; [done|]. intros ch _. cbn zeta. destruct (tx_type tx); try (by apply emits_ret).
  - apply emits_lift_bind; [done|]. intros u _. by apply emits_ret.
  - apply emits_silent_bind; [auto with silent|done|]. intros p.
    apply emits_silent_bind; [by apply silent_modify|done|]. intros _. by apply emits_ret.
Qed.

Lemma emits_process_plain (append : Z -> ProcessResult -> K unit) tx :
  (forall s r, emits (append s r) (append_events (pr_entry r))) ->
  emits (seq ← next_seq k; r ← process_tx k tx seq; _ ← append seq r; mret r : K ProcessResult)
    (fun r evs => only_appends evs /\ recorded tx r evs).
Proof.
  assert (only_appends []) as Hnil by apply Forall_nil_2.
  intros Happ. apply emits_silent_bind; [apply silent_next_seq|done|]. intros s.
  eapply emits_bind; [apply emits_process_tx|by intros e evs [-> _]|].
  intros res evs0 [-> Htx]. eapply emits_bind; [apply Happ|by intros e evs ->|].
  intros [] evs ->. apply emits_ret. split; [appends|]. exists (pr_entry res). split; [set_solver|done].
Qed.

Lemma emits_reject tx : silent (reject_kernel_only tx : K unit).
Proof. unfold reject_kernel_only. destruct (_ || _); auto with silent. Qed.

(** The two entry points share what follows the guard. *)
Lemma emits_entry tx token (plain : K ProcessResult) :
  emits plain (fun r evs => only_appends evs /\ recorded tx r evs) ->
  emits (_ ← reject_kernel_only tx;
         if bool_decide (tx_type tx = TransactionType_ToolProposal) then process_tool_proposal k tx token
         else plain) (fun r evs => approved_dispatches evs /\ recorded tx r evs).
Proof.
  assert (approved_dispatches []) as Hnil by (intros [|? ?] ? ?; done).
  intros Hplain. apply emits_silent_bind; [apply emits_reject|done|]. intros [].
  case_bool_decide.
  - eapply emits_mono; [apply emits_process_one|]. intros r evs [Hap Ht]. split; [done|].
    destruct r as [res|]; [|done]. destruct Ht as (p & pe & au & _ & Htx & _ & Hev). exists pe. split; [|done].
    destruct (au_action au) as [a|]; [destruct Hev as (x & run & -> & _)|destruct Hev as [-> _]]; set_solver.
  - eapply emits_mono; [exact Hplain|]. intros r evs [Ho Hr]. split; [by apply only_appends_approved|done].
Qed.

Lemma emits_direct tx :
  emits (process_direct k tx : K _) (fun r evs => approved_dispatches evs /\ recorded tx r evs).
Proof.
  apply emits_entry, (emits_process_plain (fun s r => append_direct k _ s (pr_entry r)
    (pr_runtime_capability_update r) (pr_clear_runtime_capabilities r))).
  intros. apply emits_append_direct.
Qed.

Lemma emits_dequeued tx token :
  emits (process_dequeued k tx token : K _) (fun r evs => approved_dispatches evs /\ recorded tx r evs).
Proof.
  apply emits_entry, (emits_process_plain (fun s r => append_dequeued k _ s (pr_entry r) token
    (pr_runtime_capability_update r) (pr_clear_runtime_capabilities r))).
  intros. apply emits_append_dequeued.
Qed.

Lemma approved_concat evs evs' :
  approved_dispatches evs -> approved_dispatches evs' -> approved_dispatches (evs ++ evs').
Proof.
  intros Hev Hev'. apply approved_app; [done|]. intros l1 a l2 ->.
  destruct (Hev' l1 a l2 eq_refl) as (e & He & Ha). exists e. split; [set_solver|done].
Qed.

Lemma emits_drain left : emits (drain_stale_from left) (fun _ evs => approved_dispatches evs).
Proof.
  assert (approved_dispatches []) as Hnil by (intros [|? ?] ? ?; done).
  induction left as [|left IH]; intros st r st' Hrun; cbn [drain_stale_from] in Hrun;
    destruct (store_read _ st) as [r1 st1] eqn:Er;
    destruct (silent_store_read _ _ _ _ Er) as (evs0 & He0 & ->); rewrite app_nil_r in He0;
    destruct r1 as [[[token tx]|]|e];
    try (injection Hrun as <- <-; exists []; by rewrite app_nil_r, He0);
    destruct (process_dequeued k tx token st1) as [r2 st2] eqn:Ep;
    destruct (emits_dequeued tx token _ _ _ Ep) as (evs & He & Ho & _); rewrite He0 in He;
    destruct r2 as [x|e]; try (injection Hrun as <- <-; by exists evs).
  destruct (IH _ _ _ Hrun) as (evs' & He' & Ho'). exists (evs ++ evs'). rewrite He', He, app_assoc.
  split; [done|]. by apply approved_concat.
Qed.

Lemma emits_discard {A} (m : K A) R :
  emits m (fun _ evs => R evs) -> emits (discard m) (fun _ evs => R evs).
Proof.
  intros Hm. eapply emits_bind; [exact Hm|done|]. intros x evs HR. apply emits_ret. by rewrite app_nil_r.
Qed.

Lemma emits_kcall c hs : emits (run_kcall c hs) (fun _ evs => approved_dispatches evs).
Proof.
  assert (forall A (m : K A), emits m (fun _ evs => only_appends evs) -> emits (discard m) (fun _ evs => approved_dispatches evs)) as Hm.
  { intros A m Ho. apply (emits_discard _ approved_dispatches). eapply emits_mono; [exact Ho|]. intros r evs. apply only_appends_approved. }
  assert (forall A i (f : ReasonStreamHandle -> K A), (forall h, emits (f h) (fun _ evs => only_appends evs)) ->
    emits (on_handle hs i f) (fun _ evs => approved_dispatches evs)) as Hh.
  { intros A i f Hf. unfold on_handle. destruct (hs !! i) as [h|]; [by apply Hm|]. apply emits_ret. intros [|? ?] ? ?; done. }
  destruct c; cbn [run_kcall].
  - apply (emits_discard _ approved_dispatches). eapply emits_mono; [apply emits_direct|]. by intros r evs [Hap _].
  - apply (emits_discard _ approved_dispatches), emits_drain.
  - apply (emits_discard _ approved_dispatches). eapply emits_mono; [apply emits_process_many|].
    intros r evs [Hb _]. by apply batch_trace_approved.
  - apply Hm, emits_reason.
  - eapply emits_bind; [apply emits_reason_streaming|intros e evs; apply only_appends_approved|].
    intros h evs Ho. apply emits_ret. rewrite app_nil_r. by apply only_appends_approved.
  - apply Hh. intros h. apply emits_record_completed.
  - apply Hh. intros h. apply emits_record_failed.
  - apply Hm, emits_system.
Qed.

Lemma kcalls_approved cs st :
  approved_dispatches (ks_events st) -> approved_dispatches (ks_events (run_kcalls cs st)).
Proof.
  unfold run_kcalls. generalize (@nil ReasonStreamHandle) as hs. revert st.
  induction cs as [|c cs IH]; intros st hs Hst; [done|]. cbn [run_from].
  destruct (run_kcall c hs st) as [r st'] eqn:Er. apply IH. destruct (emits_kcall c hs _ _ _ Er) as (evs & He & Ho).
  rewrite He. by apply approved_concat.
Qed.

(** ** The log across calls *)
Context `{!StoreSpec ST} `{Hrule : HashRule} (demand : E -> nat) (Hw : world_ok k demand).
Abbreviation agent := (k_agent_id k).

(** Room for [n] appends and a valid log that extends [lb]. *)
Definition kernel_ok (n : nat) (lb : list RecordEntry) (st : KS) : Prop :=
  exists h, kinv k demand n h [] lb st.

Lemma kernel_ok_weaken n n' lb st : n' <= n -> kernel_ok n lb st -> kernel_ok n' lb st.
Proof. intros Hn [h Hk]. exists h. by eapply kinv_weaken. Qed.

Lemma pres_kernel_ok {F A} c (m : stm KS F A) n lb st r st' :
  pres k demand c m -> m st = (r, st') -> kernel_ok (c + n) lb st -> kernel_ok n lb st'.
Proof. intros Hm Hrun [h Hk]. exists h. pose proof (Hm n h [] lb _ _ _ Hrun Hk). by destruct r. Qed.

Lemma discard_state {A} (m : K A) st : (discard m st).2 = (m st).2.
Proof. unfold discard, mbind, stm_bind. by destruct (m st) as [[x|e] st']. Qed.

(** What [dequeue_tx] returned is at the front of the inbox until it is
    recorded. *)
Lemma dequeue_kernel_ok n lb st token tx st' :
  (store_read (fun s => st_dequeue_tx s agent) : stm KS StoreError _) st = (Ok (Some (token, tx)), st') ->
  kernel_ok n lb st -> exists q, kinv k demand n (token_inbox_seq token) (tx :: q) lb st'.
Proof.
  intros Hrun [h Hk]. unfold store_read, mbind, stm_bind in Hrun.
  destruct (sync st) as [r1 st1] eqn:Es.
  pose proof (hoare_sync k demand Hw (Err := StoreError) n h [] lb _ _ _ Es Hk) as Hk1.
  assert (kinv k demand n h [] lb st1) as [v [Ha Hv Hp Hr Hh Hi He Hsq]] by (by destruct r1).
  destruct r1; [|done]. injection Hrun as Hd <-. pose proof (spec_dequeue _ _ _ _ Ha Hd) as [Ht Hhd].
  destruct (av_inbox v) as [|t q] eqn:Ei; [done|]. injection Hhd as ->. exists q, v.
  split; try done. by rewrite Ei.
Qed.

Lemma kernel_ok_any n h q lb st : kinv k demand n h q lb st -> kernel_ok n lb st.
Proof.
  intros [v [Ha Hv Hp Hr Hh Hi He Hsq]]. exists h, v. split; try done. apply prefix_nil.
Qed.

Lemma dequeued_kernel_ok n q lb tx token st r st' :
  process_dequeued k tx token st = (r, st') ->
  kinv k demand (3 + n) (token_inbox_seq token) (tx :: q) lb st -> kernel_ok n lb st'.
Proof.
  intros Hrun Hk.
  pose proof (process_dequeued_spec k demand Hw tx token n _ tx q lb eq_refl _ _ _ Hrun Hk) as Hpost.
  destruct r; [|destruct Hpost as [Hpost|Hpost]]; by eapply kernel_ok_any.
Qed.

Lemma drain_kernel_ok left n lb st :
  kernel_ok (3 * S left + n) lb st -> kernel_ok n lb (drain_stale_from left st).2.
Proof.
  revert n st. induction left as [|left IH]; intros n st Hk; cbn [drain_stale_from];
    destruct (store_read _ st) as [r1 st1] eqn:Er;
    pose proof (pres_kernel_ok 0 _ _ lb _ _ _ (pres_store_read k demand Hw _) Er Hk) as Hk1;
    (destruct r1 as [[[token tx]|]|e]; [|by eapply kernel_ok_weaken; [|exact Hk1]; lia..]);
    destruct (dequeue_kernel_ok _ _ _ _ _ _ Er Hk) as [q Hq];
    destruct (process_dequeued k tx token st1) as [r2 st2] eqn:Ep.
  - pose proof (dequeued_kernel_ok n q lb _ _ _ _ _ Ep Hq). by destruct r2.
  - replace (3 * S (S left) + n) with (3 + (3 * S left + n)) in Hq by lia.
    pose proof (dequeued_kernel_ok _ q lb _ _ _ _ _ Ep Hq) as Hk2.
    destruct r2; [by apply IH|]. eapply kernel_ok_weaken; [|exact Hk2]. lia.
Qed.

(** What the rule has to allow for a call. *)
Definition call_fits (c : KernelCall) : Prop :=
  match c with
  | KCall_system _ => forall log e, hashed_over e (last_window 50 log) -> entry_hashed log e
  | KCall_record_completed _ _ _ _ _ _ _ | KCall_record_failed _ _ => streams_allowed
  | _ => True
  end.
(** A call that does not drain the inbox keeps the invariant, also of what is in
    front of the inbox, and the handles stay stretches of the log. *)
Definition not_drain (c : KernelCall) : Prop := match c with KCall_drain => False | _ => True end.
Lemma kcall_kinv c hs n h q lb st r st' :
  call_fits c -> not_drain c -> Forall (handle_ok lb) hs -> run_kcall c hs st = (r, st') ->
  kinv k demand (call_cost c + n) h q lb st ->
  exists lb', lb `prefix_of` lb' /\ Forall (handle_ok lb') match r with Ok new => new | Err _ => [] end /\ kinv k demand n h q lb' st'.
Proof.
  intros Hf Hd Hhs Hrun Hk.
  assert (forall A (m : K A), (forall r st', m st = (r, st') -> kinv k demand n h q lb st') -> discard m st = (r, st') ->
    exists lb', lb `prefix_of` lb' /\ Forall (handle_ok lb') match r with Ok new => new | Err _ => [] end /\ kinv k demand n h q lb' st') as Hm.
  { intros A m Hpost Hm. exists lb. unfold discard, mbind, stm_bind in Hm. destruct (m st) as [[x|e] st1] eqn:Em; injection Hm as <- <-.
    - split_and!; [done|constructor|]. by eapply Hpost.
    - split_and!; [done|constructor|]. by eapply Hpost. }
  assert (forall A c0 (m : K A), pres k demand c0 m -> c0 = call_cost c -> forall r st', m st = (r, st') -> kinv k demand n h q lb st') as Hp.
  { intros A c0 m Hpres -> r0 st0 Em. pose proof (Hpres n h q lb st r0 st0 Em Hk) as Hpost. by destruct r0. }
  assert (forall A i (f : ReasonStreamHandle -> K A), call_cost c = 1 ->
    (forall hd, handle_ok lb hd -> hoare (kinv k demand (S n) h q lb) (f hd) (fun _ => kinv k demand n h q lb) (kinv k demand n h q lb)) ->
    on_handle hs i f st = (r, st') -> exists lb', lb `prefix_of` lb'
      /\ Forall (handle_ok lb') match r with Ok new => new | Err _ => [] end /\ kinv k demand n h q lb' st') as Hh.
  { intros A i f Hc Hspec Hon. unfold on_handle in Hon. rewrite Hc in Hk. destruct (hs !! i) as [hd|] eqn:Ei.
    - apply (Hm A (f hd)); [|done]. intros r0 st0 Em. pose proof (Hspec hd (Forall_lookup_1 _ _ _ _ Hhs Ei) _ _ _ Em Hk) as Hpost. by destruct r0.
    - injection Hon as <- <-. exists lb. split_and!; [done|constructor|]. eapply kinv_weaken; [|done|exact Hk]. lia. }
  destruct c; cbn [run_kcall call_cost call_fits not_drain] in *; try done.
  - eapply Hm; [|exact Hrun]. eapply Hp; [by apply pres_process_direct|done].
  - eapply Hm; [|exact Hrun]. eapply Hp; [by apply pres_process_many|done].
  - eapply Hm; [|exact Hrun]. eapply Hp; [by apply pres_reason|done].
  - unfold mbind, stm_bind in Hrun. destruct (reason_streaming k request st) as [[hd|e] st1] eqn:Em; injection Hrun as <- <-;
      pose proof (reason_streaming_spec k demand Hw request n h q lb _ _ _ Em Hk) as Hpost; cbn in Hpost.
    + destruct Hpost as (lb' & [Hp1 Hhd] & Hk1). exists lb'. split_and!; [done|by apply Forall_singleton|done].
    + exists lb. split_and!; [done|constructor|done].
  - eapply (Hh _ _ _ eq_refl); [|exact Hrun]. intros hd Hhd. by apply record_completed_spec.
  - eapply (Hh _ _ _ eq_refl); [|exact Hrun]. intros hd Hhd. by apply record_failed_spec.
  - eapply Hm; [|exact Hrun]. eapply Hp; [by apply pres_write_system_record|done].
Qed.

Lemma kcall_kernel_ok c hs n lb st r st' :
  call_fits c -> Forall (handle_ok lb) hs -> run_kcall c hs st = (r, st') -> kernel_ok (call_cost c + n) lb st ->
  exists lb', lb `prefix_of` lb' /\ Forall (handle_ok lb') match r with Ok new => new | Err _ => [] end /\ kernel_ok n lb' st'.
Proof.
  intros Hf Hhs Hrun Hk. assert (not_drain c \/ c = KCall_drain) as [Hd| ->] by (destruct c; cbn; auto).
  - destruct Hk as [h Hk]. destruct (kcall_kinv _ _ _ _ _ _ _ _ _ Hf Hd Hhs Hrun Hk) as (lb' & ? & ? & ?).
    exists lb'. split_and!; [done..|by exists h].
  - exists lb. cbn [run_kcall] in Hrun. pose proof (drain_kernel_ok 10 n lb st Hk) as Hk'.
    unfold discard, mbind, stm_bind, drain_stale_inbox in Hrun.
    destruct (drain_stale_from 10 st) as [[x|e] st1]; injection Hrun as <- <-; (split_and!; [done|constructor|done]).
Qed.

Lemma run_from_kernel_ok cs hs n lb st :
  Forall call_fits cs -> Forall (handle_ok lb) hs -> kernel_ok (calls_cost cs + n) lb st -> kernel_ok n lb (run_from hs cs st).
Proof.
  revert hs lb st. induction cs as [|c cs IH]; intros hs lb st Hf Hhs Hk; [done|].
  apply Forall_cons in Hf as [Hc Hf]. cbn [run_from]. destruct (run_kcall c hs st) as [r st'] eqn:Er.
  assert (kernel_ok (call_cost c + (calls_cost cs + n)) lb st) as Hk'.
  { replace (call_cost c + (calls_cost cs + n)) with (calls_cost (c :: cs) + n); [done|]. unfold calls_cost. cbn. lia. }
  destruct (kcall_kernel_ok _ _ _ _ _ _ _ Hc Hhs Er Hk') as (lb' & Hp & Hnew & Hk1).
  destruct (IH (hs ++ match r with Ok new => new | Err _ => [] end) lb' st' Hf) as [h Hk2]; [|done|].
  - apply Forall_app. split; [|done]. eapply Forall_impl; [exact Hhs|]. intros hd. by apply handle_ok_prefix.
  - exists h. by eapply kinv_weaken.
Qed.

(** A kernel at rest: nothing emitted yet, and room for the calls to come. *)
Definition ready (cs : list KernelCall) (st : KS) (v : AgentView) : Prop :=
  abstracts (ks_store st) agent v /\ log_follows (av_log v) /\ ks_events st = [] /\ is_u64 (ks_seq st)
  /\ (Z.of_nat (length (av_log v) + demand (ks_env st) + calls_cost cs) < u64_max)%Z.

Lemma ready_final cs st v :
  ready cs st v -> Forall call_fits cs -> kernel_ok 0 (av_log v) (run_kcalls cs st).
Proof.
  intros (Ha & Hv & He & Hs & Hr) Hf. apply run_from_kernel_ok; [done|constructor|]. exists (av_inbox_head v), v.
  split; try done; [lia|apply prefix_nil|]. rewrite He. constructor.
Qed.
End Calls.

(** * Every call *)
Section EveryCall.
Context {ST E : Type} `{Store ST} `{Blake3} `{Hex} `{ModelTypes} `{!World E ST} `{StrDebug} `{JsonText}.
Context `{!Serde Transaction, !Serde json, !FromJson RuntimeCapabilityInstall, !Serde RecordPayload}.
Context `{!Serde ToolCall, !Serde ToolProposal, !Serde ToolExecution, !Serde PolicyDecision}.
Context `{!Serde ToolResult} `{!StoreSpec ST}.
Context (k : Kernel E) (demand : E -> nat).
Abbreviation agent := (k_agent_id k).
Abbreviation W := (record_window_size (k_config k)).
#[local] Instance kernel_rule_here : HashRule := kernel_rule W.
Context (Hw : world_ok k demand).

(** The rule for what kernels write allows every call. *)
Lemma kernel_rule_fits c : call_fits c.
Proof.
  destruct c; cbn; try done.
  - intros log e first last Ht Hh. by eapply hashed_stream.
  - intros log e first last Ht Hh. by eapply hashed_stream.
  - intros log e Hh. by apply hashed_system.
Qed.
Lemma every_call_final cs st v : ready k demand cs st v -> kernel_ok k demand 0 (av_log v) (run_kcalls k cs st).
Proof. intros Hr. apply ready_final; [done..|]. apply Forall_true. intros c. apply kernel_rule_fits. Qed.


(** C1: No action without a recorded approval. Every action a kernel handed to
    an executor, in any sequence of calls, was preceded by a persisted policy
    decision whose payload is an approval of that action, which accepts exactly
    that action for a proposal with its payload, and which is in the log. *)
Theorem dispatched_actions_approved cs st v l1 a l2 :
  ready k demand cs st v -> ks_events (run_kcalls k cs st) = l1 ++ Ev_dispatch a :: l2 ->
  exists e, Ev_append e ∈ l1 /\ approves e a
    /\ exists v' i, abstracts (ks_store (run_kcalls k cs st)) agent v' /\ av_log v' !! i = Some e.
Proof.
  intros Hr Hev. assert (approved_dispatches (ks_events (run_kcalls k cs st))) as Hap.
  { apply kcalls_approved. destruct Hr as (_ & _ & -> & _). by intros [|? ?] ? ?. }
  destruct (Hap l1 a l2 Hev) as (e & He & Ha). exists e. split_and!; [done|done|].
  destruct (every_call_final cs st v Hr) as (h & v' & [Hab _ _ _ _ _ Hin _]). rewrite Hev in Hin.
  apply Forall_app in Hin as [Hin _].
  destruct (proj1 (Forall_forall _ _) Hin _ He) as [i Hi]. by exists v', i.
Qed.
End EveryCall.

(** * Calls whose records replay *)
Section Replayed.
Context {ST E : Type} `{Store ST} `{Blake3} `{Hex} `{ModelTypes} `{!World E ST} `{StrDebug} `{JsonText}.
Context `{!Serde Transaction, !Serde json, !FromJson RuntimeCapabilityInstall, !Serde RecordPayload}.
Context `{!Serde ToolCall, !Serde ToolProposal, !Serde ToolExecution, !Serde PolicyDecision}.
Context `{!Serde ToolResult} `{!StoreSpec ST}.
Context (k : Kernel E) (demand : E -> nat).
Abbreviation agent := (k_agent_id k).
Abbreviation W := (record_window_size (k_config k)).
#[local] Instance exact_rule_here : HashRule := exact_rule W.
Context (Hw : world_ok k demand).

(** System records are hashed over the last fifty entries whatever the kernel's
    window is, and records of streamed calls over the window their handle captured
    ([system_record_window_diverges] and [streaming_record_diverges] show that these
    do not replay). *)
Definition replayable (c : KernelCall) : Prop :=
  match c with
  | KCall_system _ => W = 50%Z
  | KCall_record_completed _ _ _ _ _ _ _ | KCall_record_failed _ _ => False
  | _ => True
  end.

(** C25: What a kernel writes, replay accepts, as long as the kernel makes no record
    of a streamed call, writes system records only with the default window of fifty,
    and other tasks append only entries hashed over the window before them: after any
    such sequence of calls, if the store can be read and the snapshots that summarised
    effects refer to are available, replay from any sequence number succeeds, and its
    report lists exactly the entries from there on. *)
Theorem kernel_log_replays cs st v (snapshots : SnapshotStore) from_seq :
  ready k demand cs st v -> Forall replayable cs -> is_u64 from_seq ->
  reads_succeed (ks_store (run_kcalls k cs st)) agent ->
  (forall v' e, abstracts (ks_store (run_kcalls k cs st)) agent v' -> e ∈ av_log v' ->
    snapshots_ok snapshots e) ->
  exists v', abstracts (ks_store (run_kcalls k cs st)) agent v' /\ av_log v `prefix_of` av_log v'
    /\ replay_run (ks_store (run_kcalls k cs st)) snapshots agent from_seq W
       = Ok (report_of (drop (Z.to_nat (from_seq - 1)) (av_log v')) ReplayReport_empty).
Proof.
  intros Hr Hc Hf Hread Hsnap. destruct (ready_final k demand Hw cs st v Hr) as (h & v' & [Ha Hv Hp _ _ _ _ _]).
  { eapply Forall_impl; [exact Hc|]. intros c. destruct c; cbn; try done. by intros <-. }
  apply log_follows_exact in Hv. exists v'. split_and!; [done|done|]. pose proof (wo_window _ _ Hw) as HW.
  assert (seqs_ok (av_log v')) as Hs by (intros i e Hi; by apply Hv in Hi as [? _]).
  rewrite (replay_run_entries _ _ _ _ _ v') by done. case_bool_decide.
  - rewrite drop_ge by lia. done.
  - apply (replay_entries_accepts _ _ _ _ v' Hread Ha Hs HW (Z.to_nat (from_seq - 1))); [done|].
    intros i e _ Hi. split; [by apply Hv in Hi as [_ ?]|].
    apply (Hsnap v'); [done|]. apply list_elem_of_lookup. eauto.
Qed.
End Replayed.
