(* ===== verification/KernelProps.v ===== *)
(** Per-call theorems of the kernel: what a tool call records, what a batch
    records, what is refused, how a live question is resolved, what becomes of
    a dequeued transaction; and three places where the code loses
    information. *)
From S2P Require Import Prelude Values Modes Permissions CoreTypes Policy Keys StoreSpec Utf8 Exec Context Replay Kernel KernelTools KernelInv KernelSafe KernelTrace KernelCalls.
From stdpp Require Import list.
From Stdlib Require Import Strings.Byte.

Section Props.
Context {ST E : Type} `{Store ST} `{Blake3} `{Hex} `{ModelTypes} `{!World E ST} `{StrDebug} `{JsonText}.
Context `{!Serde Transaction, !Serde json, !FromJson RuntimeCapabilityInstall, !Serde RecordPayload}.
Context `{!Serde ToolCall, !Serde ToolProposal, !Serde ToolExecution, !Serde PolicyDecision}.
Context `{!Serde ToolResult}.
Context (k : Kernel E).
Abbreviation KS := (KState ST E).
Abbreviation K := (stm KS KernelError).
Abbreviation agent := (k_agent_id k).

(** ** Tool calls *)

(** A tool proposal that is processed leaves exactly its linked chain: the
    proposal as submitted, then the decision that refers to it, carries the
    decision payload and accepts the action iff the verdict is to allow, and
    for an approved call the dispatch (unless a hook blocked it) followed by
    the execution entry that refers to the decision and holds the action and
    its effect.  The result returned is the last entry of that chain. *)
Theorem tool_call_recorded tx (st st' : KS) res :
  tx_type tx = TransactionType_ToolProposal -> process_direct k tx st = (Ok res, st') ->
  exists evs, ks_events st' = ks_events st ++ evs /\ tool_call_trace k tx (Ok res) evs.
Proof.
  intros Ht Hrun. unfold process_direct, reject_kernel_only in Hrun. rewrite Ht in Hrun.
  destruct (emits_process_one k tx None _ _ _ Hrun) as (evs & He & _ & Htr). eauto.
Qed.

(** C4: In a batch, however it ends, every proposal is recorded and decided
    before the first action runs, every action that runs was approved by one of
    those decisions, and executions are recorded after.  When it succeeds there
    is one linked pair per proposal in order, the actions that ran are the
    approved ones in order (less those a hook blocked), and the results are one
    per proposal in order, each with its execution iff it was approved. *)
Theorem batch_recorded proposals (st st' : KS) r :
  process_tools k proposals st = (r, st') ->
  exists evs, ks_events st' = ks_events st ++ evs /\ batch_trace evs
    /\ forall res, r = Ok res -> batch_ok k proposals res evs /\ length res = length proposals.
Proof.
  intros Hrun. destruct (emits_process_many k proposals _ _ _ Hrun) as (evs & He & Hb & Hok).
  exists evs. split_and!; [done|done|]. intros res ->. specialize (Hok res eq_refl). split; [done|].
  destruct Hok as (dec & acts & xs & Hd & _ & Hx & _ & ->).
  apply Forall2_length in Hd, Hx. rewrite length_fmap in Hx.
  rewrite length_zip_with, length_fmap, <-Hx, Nat.min_id. done.
Qed.

(** The pairing of a batch is complete: once every dispatch has answered,
    each approved slot has an effect, so the [expect] of the recording loop
    cannot panic. *)
Theorem batch_slots_filled workspace slots plan effects (st st' : KS) :
  plan_slots k workspace 0 slots (replicate (length slots) None) st = (Ok plan, st') ->
  length effects = length plan.2 ->
  Forall (fun sl => is_Some (au_action sl.1) -> is_Some sl.2)
    (zip slots (fill_slots plan.2 effects plan.1)).
Proof.
  intros Hrun. destruct (plan_slots_run k workspace 0 slots _ _ _ _ Hrun) as (evs & _ & _ & Hp).
  apply planned_filled. by apply Hp.
Qed.

(** Decisions and executions cannot be forged: a submitted transaction of
    either type is refused by both entry points, and nothing changes. *)
Theorem forged_transactions_refused tx token (st : KS) :
  tx_type tx = TransactionType_PolicyDecision \/ tx_type tx = TransactionType_ToolExecution ->
  exists message, process_direct k tx st = (Err (KernelError_Internal message), st)
    /\ process_dequeued k tx token st = (Err (KernelError_Internal message), st).
Proof.
  intros Ht. unfold process_direct, process_dequeued, reject_kernel_only.
  by destruct Ht as [-> | ->]; eexists.
Qed.

(** ** Live questions *)

(** The request id a prompt for this call carries. *)
Definition ask_request_id (tool_use_id : string) : string := id_to_hex agent +++ ":" +++ tool_use_id.

(** The question asked about a call. *)
Definition ask_reason (tool : string) : string := "Tool '" +++ tool +++ "' is set to ask".
Definition ask_prompt (tool : string) (args : json) (tool_use_id : string) : PendingToolPrompt :=
  {| ptp_request_id := ask_request_id tool_use_id; ptp_tool_name := tool; ptp_args := args;
     ptp_agent_id := agent; ptp_remember_options := live_prompt_remember_options k |}.
(** What the permission hook answers to it, and the world afterwards. *)
Definition hook_answer (tool : string) (args : json) (e : E) : option HookOutcome * E :=
  match plugin_hooks (k_config k) with
  | None => (None, e)
  | Some host =>
      let '(d, e) := fire_permission_request host tool (json_to_string args) "ask" (ask_reason tool) e in (Some d, e)
  end.

(** In the world [e] the question about the call was answered with yes, by the
    hook, or, where the hook did not decide, by the user; the evaluation names who
    answered. *)
Definition answered_allow (tool : string) (args : json) (tool_use_id : string) (e : E) (ev : PolicyEvaluation)
  : Prop :=
  exists approval, ev_approval ev = Some approval
    /\ pa_request_id approval = Some (ask_request_id tool_use_id)
    /\ ((pa_approver approval = PolicyApprover_Hook
         /\ ev_decided_by ev = mk_rule PolicySource_PermissionHook "approve"
         /\ (hook_answer tool args e).1 = Some HookOutcome_Approve)
        \/ (pa_approver approval = PolicyApprover_User (originating_user_id (k_config k))
            /\ ev_decided_by ev = mk_rule PolicySource_User "on"
            /\ (forall d, (hook_answer tool args e).1 = Some d ->
                  d <> HookOutcome_Approve /\ forall why, d <> HookOutcome_Deny why)
            /\ exists prompter response,
                tool_approval_prompter (k_config k) = Some prompter
                /\ (prompter (ask_prompt tool args tool_use_id) (hook_answer tool args e).2).1 = Ok response
                /\ tar_decision response = ToolState_Allow)).

Lemma permission_hook_answer tool args tool_use_id (st st' : KS) hv :
  permission_hook k (ask_prompt tool args tool_use_id) (ask_reason tool) st = (Ok hv, st') ->
  ks_env st' = (hook_answer tool args (ks_env st)).2
  /\ hv = match (hook_answer tool args (ks_env st)).1 with
          | Some HookOutcome_Approve => Some (PolicyVerdict_Allow, "approve")
          | Some (HookOutcome_Deny why) => Some (PolicyVerdict_Deny why, "deny")
          | _ => None
          end.
Proof.
  unfold permission_hook, hook_answer. destruct (plugin_hooks _) as [host|]; [|by intros [= <- <-]].
  unfold mbind, stm_bind, outside. cbn [ask_prompt ptp_tool_name ptp_args].
  destruct (fire_permission_request _ _ _ _ _ _) as [d e]. intros [= <- <-]. by split.
Qed.

Lemma resolve_prompt_allow ev tool args tool_use_id (st st' : KS) ev' :
  ev_verdict ev = PolicyVerdict_RequireApproval (ask_reason tool) (Some (ask_prompt tool args tool_use_id)) ->
  resolve_prompt k ev st = (Ok ev', st') -> ev_verdict ev' = PolicyVerdict_Allow ->
  answered_allow tool args tool_use_id (ks_env st) ev'.
Proof.
  intros Hev Hrun Ha. unfold resolve_prompt in Hrun. rewrite Hev in Hrun.
  apply stm_bind_Ok in Hrun as (hv & st1 & Hh & Hrun). apply permission_hook_answer in Hh as [Henv Hhv].
  unfold answered_allow. destruct hv as [[v rule]|].
  - injection Hrun as <- _. cbn in Ha. subst v. destruct (hook_answer _ _ _).1 as [[]|]; try done.
    injection Hhv as ->. eexists. split; [done|]. split; [done|]. by left.
  - destruct (tool_approval_prompter _) as [prompter|] eqn:Ep; [|by injection Hrun as <- _].
    apply stm_bind_Ok in Hrun as (answer & st2 & Hans & Hrun). apply stm_bind_Ok in Hrun as ([] & st3 & _ & Hrun).
    apply stm_bind_Ok in Hrun as (response & st4 & Hresp & Hrun).
    apply stm_bind_Ok in Hrun as ([] & st5 & _ & Hrun). injection Hrun as <- _. cbn in Ha.
    eexists. split; [done|]. split; [done|]. right. cbn.
    assert (tar_decision response = ToolState_Allow) as Hd by by destruct (tar_decision response).
    split_and!; [done|by rewrite Hd| |].
    + intros d Hd'. rewrite Hd' in Hhv. destruct d; try done; split; congruence.
    + exists prompter, response. split; [done|]. split; [|done]. rewrite <-Henv.
      unfold outside in Hans. destruct (prompter _ (ks_env st1)) as [x e]. injection Hans as -> _. cbn.
      unfold lift in Hresp. destruct answer; cbn in Hresp; congruence.
Qed.

(** C28: A live question never widens a denial and never answers itself.  A
    denied evaluation is returned as it is, without asking.  An evaluation that
    comes back allowed was either allowed already, with the tool not set to ask
    (or settled for the session), or the question about exactly this call was
    answered with yes: the permission hook approved it, or the hook did not decide
    and the user was shown this call and allowed it; the answer is recorded as the
    deciding rule with its approver. *)
Theorem resolve_live_ask_sound tool args tool_use_id ev (st st' : KS) ev' :
  resolve_live_ask k tool args tool_use_id ev st = (Ok ev', st') ->
  (forall reason, ev_verdict ev = PolicyVerdict_Deny reason -> ev' = ev /\ st' = st)
  /\ (ev_verdict ev' = PolicyVerdict_Allow ->
      (ev' = ev /\ (is_Some (session_tool_state (ks_policy st) tool)
                    \/ resolve_tool_state (ks_policy st) tool <> ToolState_Ask))
      \/ answered_allow tool args tool_use_id (ks_env st) ev').
Proof.
  unfold resolve_live_ask. intros Hrun. unfold mbind, stm_bind, gets in Hrun. cbn zeta in Hrun.
  set (p := ks_policy st) in *.
  destruct (is_deny (ev_verdict ev)) eqn:Ed.
  { injection Hrun as <- <-. split; [done|]. intros Ha. by rewrite Ha in Ed. }
  split. { intros reason Hv. by rewrite Hv in Ed. }
  destruct (is_ask_without_prompt (ev_verdict ev) && _) eqn:E1.
  { injection Hrun as <- <-. intros Ha. by rewrite Ha in E1. }
  destruct (is_allowed (ev_verdict ev) || _) eqn:E2; cycle 1.
  { injection Hrun as <- <-. intros Ha. by rewrite Ha in E2. }
  destruct (live_tool_prompt_explained _ _ _ _ _ _ _) as [[v rule]|] eqn:El.
  - intros Ha. right. unfold live_tool_prompt_explained in El.
    destruct (session_tool_state p tool) as [[]|]; try done; [injection El as <- <-; by injection Hrun as <- _|].
    destruct (resolve_tool_state_with_source p tool) as [[] layer]; try done. cbn in El.
    destruct (bool_decide (is_Some _)); cbn in El; injection El as <- <-; [|by injection Hrun as <- _].
    eapply resolve_prompt_allow; [|exact Hrun|exact Ha]; reflexivity.
  - injection Hrun as <- <-. intros Ha. left. split; [done|]. unfold live_tool_prompt_explained in El.
    destruct (session_tool_state p tool) as [s|]; [left; by eexists|right].
    unfold resolve_tool_state. destruct (resolve_tool_state_with_source p tool) as [[] layer]; try done.
    rewrite bool_decide_eq_true_2 in El by done. clear E1 E2. revert El. cbn [negb]. by destruct (negb _).
Qed.

(** ** The inbox *)

(** A dequeued transaction is consumed with its record, never twice: when
    [process_dequeued] succeeds the transaction is in the log and the inbox has
    advanced past exactly it, with everything queued behind it kept; when it
    fails the inbox is as it was, or it has advanced past exactly it (the
    proposal was recorded and a later step failed).  The log stays valid and
    append-only either way. *)
Theorem process_dequeued_consumes `{!StoreSpec ST} `{HashRule} (demand : E -> nat) tx token q v (st st' : KS) r :
  world_ok k demand -> abstracts (ks_store st) agent v ->
  log_follows (av_log v) -> ks_events st = [] -> is_u64 (ks_seq st) ->
  (Z.of_nat (length (av_log v) + demand (ks_env st) + 3) < u64_max)%Z ->
  token_inbox_seq token = av_inbox_head v -> av_inbox v = tx :: q ->
  process_dequeued k tx token st = (r, st') ->
  exists v', abstracts (ks_store st') agent v' /\ av_log v `prefix_of` av_log v'
    /\ log_follows (av_log v')
    /\ match r with
       | Ok _ => (exists i e, av_log v' !! i = Some e /\ re_tx e = tx)
                 /\ av_inbox_head v' = (av_inbox_head v + 1)%Z /\ q `prefix_of` av_inbox v'
       | Err _ => (av_inbox_head v' = av_inbox_head v /\ tx :: q `prefix_of` av_inbox v')
                  \/ (av_inbox_head v' = (av_inbox_head v + 1)%Z /\ q `prefix_of` av_inbox v')
       end.
Proof.
  intros Hw Ha Hv He Hsq Hr Ht Hq Hrun.
  assert (kinv k demand (3 + 0) (av_inbox_head v) (tx :: q) (av_log v) st) as Hk.
  { exists v. split; try done; [by rewrite Hq|]. rewrite He. constructor. }
  pose proof (process_dequeued_spec k demand Hw tx token 0 _ tx q (av_log v) Ht _ _ _ Hrun Hk) as Hpost.
  destruct (emits_dequeued k tx token _ _ _ Hrun) as (evs & Hevs & _ & Hrec). rewrite He in Hevs.
  destruct r as [res|err].
  - destruct Hpost as [v' [Ha' Hv' Hp' _ Hh' Hq' Hev' _]]. exists v'. split_and!; try done.
    destruct Hrec as (e & Hin & Htx). rewrite Hevs in Hev'.
    destruct (proj1 (Forall_forall _ _) Hev' _ Hin) as [i Hi]. by exists i, e.
  - destruct Hpost as [[v' [Ha' Hv' Hp' _ Hh' Hq' _ _]]|[v' [Ha' Hv' Hp' _ Hh' Hq' _ _]]];
      exists v'; split_and!; try done; [by left|by right].
Qed.

(** ** Where information is lost *)

(** Summarising before decoding turns a large success into an error: with a
    lite threshold, a committed effect whose payload is a successful tool result
    longer than the threshold is decoded from its summary, so the execution is
    reported and recorded as a failure.  (A summary is not a tool result.) *)
Theorem lite_success_reported_as_error authorized action effect threshold summary message (st st' : KS) x :
  lite_payload_threshold k = Some threshold ->
  (threshold < Z.of_nat (length (effect_payload effect)))%Z ->
  dt_is_error (decode_tool_effect effect) = false ->
  to_vec (summarize_payload (effect_payload effect) threshold) = Ok summary ->
  (from_slice summary : result serde_error ToolResult) = Err message ->
  record_tool_execution k authorized action effect st = (Ok x, st') ->
  exd_had_failures x = true
  /\ option_map to_is_error (pr_tool_output (finish_tool_call authorized (Some x))) = Some true.
Proof.
  intros Hl Hlen Hok Hsum Hnot Hrun. assert (exd_had_failures x = true) as Hx; [|by cbn; rewrite Hx].
  unfold record_tool_execution in Hrun. cbn zeta in Hrun. rewrite Hl in Hrun.
  set (e' := maybe_summarise_effect_payload effect (Some threshold)) in Hrun.
  assert (dt_is_error (decode_tool_effect e') = true) as He.
  { unfold e', maybe_summarise_effect_payload. rewrite bool_decide_eq_true_2, Hsum by done.
    unfold decode_tool_effect. cbn [effect_status effect_payload with_payload]. rewrite Hnot.
    by destruct (bool_decide (effect_status effect = EffectStatus_Committed)). }
  apply stm_bind_Ok in Hrun as (now & s1 & _ & Hrun). apply stm_bind_Ok in Hrun as (tx & s2 & _ & Hrun).
  apply stm_bind_Ok in Hrun as (en & s3 & _ & Hrun). injection Hrun as <- _. cbn [exd_had_failures]. fold e'. rewrite He. apply orb_true_r.
Qed.

(** Remembering forever forgets: approving a tool forever writes the
    session's configured defaults with that tool's state, whatever defaults the
    store held before, so an earlier permanent approval of another tool, not in
    the configuration, is overwritten. *)
Theorem forever_overwrites_defaults `{!StoreSpec ST} prompt decision user d (st st' : KS) tool :
  (forall s e, (w_interfere s e).1 = s) -> originating_user_id (k_config k) = Some user ->
  user_defaults (ks_store st) user d -> tool <> ptp_tool_name prompt ->
  apply_live_approval_response k prompt
    {| tar_decision := decision; tar_remember := ToolApprovalRemember_Forever |} st = (Ok tt, st') ->
  exists per_tool fallback,
    user_defaults (ks_store st') user (Some (utd_default_permissions per_tool fallback))
    /\ per_tool !! ptp_tool_name prompt = Some decision
    /\ per_tool !! tool = match utd_mode (user_default (kc_policy (k_config k))) with
                          | UserDefaultMode_DefaultPermissions configured _ => configured !! tool
                          | _ => None
                          end.
Proof.
  intros Hq Hu Hd Hne Hrun. unfold apply_live_approval_response in Hrun. cbn in Hrun. rewrite Hu in Hrun.
  apply stm_bind_Ok in Hrun as ([] & st1 & Hput & Hrun). injection Hrun as <-.
  unfold fallible, stm_map_err, store_write, mbind, stm_bind, sync in Hput.
  pose proof (Hq (ks_store st) (ks_env st)) as Hs.
  destruct (w_interfere (ks_store st) (ks_env st)) as [s e]. cbn in Hs. subst s.
  unfold on_store in Hput. cbn in Hput.
  destruct (st_put_user_tool_defaults _ _ _) as [r s'] eqn:Ep.
  destruct (spec_put_user _ _ _ _ _ Ep) as [_ Hsp]. specialize (Hsp user d Hd).
  destruct r as [[]|]; [|done]. injection Hput as <-. rewrite bool_decide_eq_true_2 in Hsp by done. cbn.
  unfold fold_tool_state_into_defaults in Hsp.
  destruct (utd_mode _) as [| |per_tool fallback];
    (eexists _, _; split; [exact Hsp|]; split; [by rewrite lookup_insert_eq|];
     rewrite lookup_insert_ne by done; by rewrite ?lookup_empty).
Qed.
End Props.
