(* ===== verification/KernelWitness.v ===== *)
(** A kernel run on concrete inputs.

    A world with a clock, a counter for action ids, an executor that answers
    with a tool result and nothing else running; the reference store; codecs
    over small tables.  The kernel theorems are applied to it, and two runs show
    entries that replay does not accept. *)
From S2P Require Import Prelude Values Modes Permissions CoreTypes Policy Keys StoreSpec ViewStore Utf8 Exec Context Replay Kernel KernelTools KernelInv KernelSafe KernelTrace KernelCalls KernelProps.
From stdpp Require Import list.
From Stdlib Require Import Strings.Byte.

Module KernelWitness.
#[local] Existing Instances toy_blake3 lower_hex.
#[local] Instance no_model : ModelTypes :=
  {| ModelRequest := unit; ModelResponse := unit; ReasonerError := unit;
     reasoner_error_display := fun _ => ""; response_model := fun _ => "model";
     response_stop_reason := fun _ => StopReason_EndTurn;
     response_usage := fun _ => Usage_new 0 0;
     response_content := fun _ => [] |}.
(** The outside is a clock. *)
Definition Env : Type := Z.
Definition tick (e : Env) : Z * Env := (e, (e + 1)%Z).
#[local] Instance quiet_world : World Env ViewStore :=
  {| w_now_ms := tick;
     w_generate_action_id := fun e => (arr_fill 16 (byte_of_Z e), (e + 1)%Z);
     w_create_dir_all := fun _ e => (Ok tt, e);
     w_elapsed := fun _ e => (false, e);
     w_complete := fun _ e => (Ok tt, e);
     w_complete_streaming := fun _ e => (Ok tt, e);
     w_interfere := fun s e => (s, e) |}.

Definition agent : AgentId := arr_fill 32 "007"%byte.
Definition call : ToolCall := {| tool_call_tool := "read_file"; tool_call_args := JObject [] |}.
Definition proposal : ToolProposal :=
  {| tp_tool_use_id := "use-1"; tp_tool := "read_file"; tp_args := JObject []; tp_source := None |}.
Definition good_result : ToolResult := ToolResult_success "read_file" ["A"%byte].
(** One executor that accepts every action and answers with the result. *)
Definition reader : Executor Env :=
  {| ex_name := "reader"; ex_can_handle := fun _ => true;
     ex_execute := fun _ a e => (Ok (Effect_new (action_id a) EffectKind_Agreement EffectStatus_Committed
                                      ["000"%byte]), (e + 1)%Z) |}.

(** Codecs: tables where something is read back, a constant where the kernel
    only writes. *)
Definition write_only {A} (f : A -> bytes) : Serde A :=
  {| to_vec := fun a => Ok (f a); from_slice := fun _ => Err "not readable" |}.
#[local] Instance tx_serde : Serde Transaction :=
  write_only (fun tx => byte_of_Z (tx_ts_ms tx) :: tx_payload tx).
#[local] Instance json_serde : Serde json := write_only (fun _ => ["{"%byte]).
#[local] Instance caps_from_json : FromJson RuntimeCapabilityInstall := fun _ => Err "not readable".
#[local] Instance payload_serde : Serde RecordPayload :=
  write_only (fun p => match p with RecordPayload_Inline b => b | _ => ["S"%byte; "M"%byte] end).
#[local] Instance call_serde : Serde ToolCall := table_serde [call].
#[local] Instance proposal_serde : Serde ToolProposal := table_serde [proposal].
#[local] Instance execution_serde : Serde ToolExecution := write_only (fun _ => ["X"%byte]).
#[local] Instance decision_serde : Serde PolicyDecision := write_only (fun _ => ["D"%byte]).
#[local] Instance result_serde : Serde ToolResult := table_serde [good_result].
#[local] Instance w_debug : StrDebug := fun s => s.
#[local] Instance w_text : JsonText := fun _ => "{}".

Definition kernel : Kernel Env :=
  {| k_executor := [reader]; k_config := KernelConfig_default Env; k_agent_id := agent;
     k_replay_report := None |}.
Definition state0 : KState ViewStore Env :=
  {| ks_store := vs_empty; ks_policy := Policy_new (fun _ => "digest") PolicyConfig_default;
     ks_seq := 1; ks_env := 0%Z; ks_events := [] |}.
Definition prompt_tx : Transaction :=
  Transaction_new (arr_fill 32 "001"%byte) agent 0 TransactionType_UserPrompt ["A"%byte].
Definition proposal_tx : Transaction :=
  Transaction_new (arr_fill 32 "002"%byte) agent 0 TransactionType_ToolProposal ["000"%byte].
Definition demand0 : Env -> nat := fun _ => 0.

Lemma quiet_world_ok `{HashRule} :
  (forall log e, hashed_over e (last_window 50 log) -> entry_hashed log e) -> world_ok kernel demand0.
Proof.
  intros Hr. split; try (by intros; intros ?); try done.
  intros s e s' e' v [= <- <-] Ha Hv. exists v. by split_and!.
Qed.
Definition any_world : @world_ok _ _ _ _ _ _ _ _ (kernel_rule 50) kernel demand0 :=
  @quiet_world_ok (kernel_rule 50) (fun log e Hh => hashed_window 50 log e Hh).
Definition exact_world : @world_ok _ _ _ _ _ _ _ _ (exact_rule 50) kernel demand0 :=
  @quiet_world_ok (exact_rule 50) (fun log e Hh => Hh).

(** A prompt, a tool proposal, a batch of two, and a model call. *)
Definition calls : list KernelCall :=
  [KCall_direct prompt_tx; KCall_direct proposal_tx; KCall_tools [proposal; proposal]; KCall_reason tt;
   KCall_system prompt_tx].
Abbreviation final := (run_kcalls kernel calls state0).

Lemma calls_ready `{HashRule} cs : (Z.of_nat (calls_cost cs) < u64_max)%Z -> ready kernel demand0 cs state0 view_empty.
Proof. intros Hc. split_and!; [apply vs_empty_abstracts|apply log_follows_nil|done|by split|exact Hc]. Qed.

Lemma final_view : abstracts (ks_store final) agent (vs_view (ks_store final) agent).
Proof. split; [done|]. split; [by vm_compute|]. by vm_compute. Qed.

Definition streaming_usage : Usage := Usage_new 0 0.
(** A stream is opened, a prompt is recorded meanwhile, and the call is recorded. *)
Definition streamed_calls : list KernelCall :=
  calls ++ [KCall_reason_streaming tt; KCall_direct prompt_tx;
            KCall_record_completed 0 "model" StopReason_EndTurn streaming_usage [] "" None; KCall_record_failed 0 "late"].
Abbreviation streamed := (run_kcalls kernel streamed_calls state0).

(** The first action that ran, with what happened before and after. *)
Definition before : list KernelEvent := take 3 (ks_events final).
Definition after : list KernelEvent := drop 4 (ks_events final).
Definition first_action : Action := Action_new (arr_fill 16 "000"%byte) ActionKind_Delegate ["000"%byte].
Lemma first_action_runs : ks_events final = before ++ Ev_dispatch first_action :: after.
Proof. vm_compute. reflexivity. Qed.

Lemma dispatched_actions_approved_witness :
  exists e, Ev_append e ∈ before /\ approves e first_action.
Proof.
  destruct (dispatched_actions_approved kernel demand0 any_world calls state0 view_empty before
    first_action after (calls_ready calls eq_refl) first_action_runs) as (e & He & Ha & _). by exists e.
Defined.

Lemma view_reads_succeed (s : ViewStore) : reads_succeed s agent.
Proof. split; [by eexists|]. intros from limit _. by eexists. Qed.

(** The effects of the run are inline: no snapshot is needed. *)
Definition resolves (e : RecordEntry) : bool :=
  match resolve_snapshots NoopSnapshotStore e with Ok _ => true | Err _ => false end.
Lemma final_snapshots v' e :
  abstracts (ks_store final) agent v' -> e ∈ av_log v' -> snapshots_ok NoopSnapshotStore e.
Proof.
  intros (<- & _) He.
  assert (forallb resolves (av_log (vs_view (ks_store final) agent)) = true) as Hall
    by (vm_compute; reflexivity).
  rewrite List.forallb_forall in Hall. apply list_elem_of_In, Hall in He. unfold resolves, snapshots_ok in *.
  by destruct (resolve_snapshots _ e) as [[]|].
Qed.

Lemma kernel_log_replays_witness :
  exists r, replay_run (ks_store final) NoopSnapshotStore agent 3 50 = Ok r /\ length (replayed_seqs r) = 10.
Proof.
  destruct (kernel_log_replays kernel demand0 exact_world calls state0 view_empty NoopSnapshotStore 3
    (calls_ready calls eq_refl) ltac:(by repeat constructor) ltac:(by split) (view_reads_succeed _) final_snapshots) as (v' & (Hv & _) & _ & Hr).
  eexists. split; [exact Hr|]. rewrite <-Hv. vm_compute. reflexivity.
Defined.

(** The value and the state of a run that succeeds. *)
Definition value {A} (d : A) (p : result KernelError A * KState ViewStore Env) : A :=
  match p.1 with Ok x => x | Err _ => d end.
Definition succeeds {A} (p : result KernelError A * KState ViewStore Env) : bool :=
  match p.1 with Ok _ => true | Err _ => false end.
Lemma run_value {A} (d : A) p : succeeds p = true -> p = (Ok (value d p), p.2).
Proof. by destruct p as [[x|e] st]. Qed.
Lemma run_first {A} (p : result KernelError A * KState ViewStore Env) :
  succeeds p = true -> exists x, p.1 = Ok x.
Proof. destruct p as [[x|e] st]; [by exists x|done]. Qed.
Definition no_result : ProcessResult := plain_result (build (builder 0 prompt_tx)) None false.

(** ** Single calls *)
Abbreviation one_run := (process_direct kernel proposal_tx state0).
Abbreviation one_res := (value no_result one_run).
Abbreviation one_state := (one_run.2).
Lemma one_runs : process_direct kernel proposal_tx state0 = (Ok one_res, one_state).
Proof. apply (run_value no_result one_run). vm_compute. reflexivity. Qed.

Lemma tool_call_recorded_witness :
  tool_call_trace kernel proposal_tx (Ok one_res) (ks_events one_state).
Proof.
  destruct (tool_call_recorded kernel proposal_tx state0 one_state one_res eq_refl one_runs)
    as (evs & Hevs & Ht). cbn [ks_events state0 app] in Hevs. rewrite Hevs. exact Ht.
Defined.

Abbreviation many_run := (process_tools kernel [proposal; proposal] state0).
Abbreviation many_res := (value [] many_run).
Abbreviation many_state := (many_run.2).
Lemma many_runs : process_tools kernel [proposal; proposal] state0 = (Ok many_res, many_state).
Proof. apply (run_value [] many_run). vm_compute. reflexivity. Qed.

Lemma batch_recorded_witness :
  batch_ok kernel [proposal; proposal] many_res (ks_events many_state) /\ length many_res = 2.
Proof.
  destruct (batch_recorded kernel [proposal; proposal] state0 many_state (Ok many_res) many_runs)
    as (evs & Hevs & _ & Hok). cbn [ks_events state0 app] in Hevs. rewrite Hevs. exact (Hok many_res eq_refl).
Defined.

(** The slot of an approved proposal. *)
Definition entry0 : RecordEntry := build (builder 1 proposal_tx).
Definition slots : list Authorized := value [] (authorize_all kernel [proposal; proposal] None state0).
Abbreviation slots_run := (plan_slots kernel "/w" 0 slots (replicate (length slots) None) state0).
Abbreviation slots_plan := (value ([], []) slots_run).
Definition an_effect : Effect := failed_effect first_action "late".

Lemma batch_slots_filled_witness :
  length slots = 2 /\
  Forall (fun sl => is_Some (au_action sl.1) -> is_Some sl.2)
    (zip slots (fill_slots slots_plan.2 [an_effect; an_effect] slots_plan.1)).
Proof.
  split; [vm_compute; reflexivity|].
  apply (batch_slots_filled kernel "/w" slots slots_plan [an_effect; an_effect] state0 slots_run.2);
    [apply (run_value ([], []) slots_run)|]; vm_compute; reflexivity.
Defined.

Definition forged_tx : Transaction :=
  Transaction_new (arr_fill 32 "003"%byte) agent 0 TransactionType_PolicyDecision [].
Lemma forged_transactions_refused_witness :
  (process_direct kernel forged_tx state0).2 = state0.
Proof.
  destruct (forged_transactions_refused kernel forged_tx {| token_inbox_seq := 0 |} state0 (or_introl eq_refl))
    as (m & Hm & _). rewrite Hm. reflexivity.
Defined.

(** A user who approves every prompt, remembering it forever. *)
Definition yes_forever : PendingToolPrompt -> Env -> result ToolApprovalError ToolApprovalResponse * Env :=
  fun _ e => (Ok {| tar_decision := ToolState_Allow; tar_remember := ToolApprovalRemember_Forever |}, e).
Definition asking_policy : PolicyConfig := with_user_default PolicyConfig_default utd_auto_review.
Definition asking_kernel : Kernel Env :=
  {| k_executor := [reader];
     k_config := {| record_window_size := 50; kc_policy := asking_policy; workspace_base := "/w";
       use_workspace_base_as_root := true; replay_from := None; kc_snapshot_store := NoopSnapshotStore;
       proposal_timeout_ms := 1; tool_timeout_ms := 1; tool_approval_prompter := Some yes_forever;
       originating_user_id := Some "user"; kc_kernel_mode := KernelMode_AuditedLite;
       audited_lite_threshold_bytes := 0; plugin_hooks := None; tool_audit_observer := None |};
     k_agent_id := agent; k_replay_report := None |}.
Definition asking_state : KState ViewStore Env :=
  {| ks_store := vs_empty; ks_policy := Policy_new (fun _ => "digest") asking_policy;
     ks_seq := 1; ks_env := 0%Z; ks_events := [] |}.
Definition asked : PolicyEvaluation :=
  evaluate_proposal (ks_policy asking_state) (Proposal_new ActionKind_Delegate ["000"%byte]) None.
Abbreviation ask_run := (resolve_live_ask asking_kernel "read_file" (JObject []) "use-1" asked asking_state).
Abbreviation answered := (value asked ask_run).

Lemma resolve_live_ask_sound_witness :
  is_allowed (ev_verdict asked) = false /\ answered_allow asking_kernel "read_file" (JObject []) "use-1" 0%Z answered.
Proof.
  split; [vm_compute; reflexivity|].
  assert (ask_run = (Ok answered, ask_run.2)) as Hrun by (apply (run_value asked ask_run); vm_compute; reflexivity).
  destruct (resolve_live_ask_sound asking_kernel "read_file" (JObject []) "use-1" asked asking_state
    ask_run.2 answered Hrun) as [_ Hallow].
  destruct Hallow as [[Heq _]|Ha]; [vm_compute; reflexivity|vm_compute in Heq; discriminate Heq|exact Ha].
Defined.

Definition forever_prompt : PendingToolPrompt :=
  {| ptp_request_id := "r"; ptp_tool_name := "read_file"; ptp_args := JObject []; ptp_agent_id := agent;
     ptp_remember_options := [] |}.
(** The user had permanently approved another tool. *)
Definition approved_before : UserToolDefaults :=
  utd_default_permissions {[ "write_file" := ToolState_Allow ]} ToolState_Ask.
Definition forever_state : KState ViewStore Env :=
  set_store (vs_set_user "user" (Some approved_before) vs_empty) asking_state.
Abbreviation forever_run := (apply_live_approval_response asking_kernel forever_prompt
  {| tar_decision := ToolState_Allow; tar_remember := ToolApprovalRemember_Forever |} forever_state).

Lemma forever_overwrites_defaults_witness :
  exists per_tool fallback,
    vs_user (ks_store forever_run.2) "user" = Some (utd_default_permissions per_tool fallback)
    /\ per_tool !! "write_file" = None.
Proof.
  destruct (forever_overwrites_defaults asking_kernel forever_prompt ToolState_Allow "user"
    (Some approved_before) forever_state forever_run.2 "write_file") as (pt & fb & Hd & _ & Hw);
    [reflexivity|reflexivity|reflexivity|discriminate|reflexivity|].
  exists pt, fb. split; [exact Hd|]. rewrite Hw. reflexivity.
Defined.

(** A committed, successful effect of one byte, over a threshold of zero. *)
Definition good_effect : Effect :=
  Effect_new (action_id first_action) EffectKind_Agreement EffectStatus_Committed ["000"%byte].
Definition lite_slot : Authorized :=
  {| au_proposal := proposal; au_evaluation := asked; au_action := Some first_action;
     au_decision_entry := entry0;
     au_decision_ref := {| pdr_proposal_seq := 0; pdr_proposal_tx_hash := arr_fill 32 "000"%byte;
       pdr_seq := 0; pdr_tx_hash := arr_fill 32 "000"%byte;
       pdr_decision := decision_of (ks_policy asking_state) proposal asked None |} |}.
Abbreviation lite_run := (record_tool_execution asking_kernel lite_slot first_action good_effect asking_state).
Definition lite_default : Executed :=
  {| exd_entry := entry0; exd_decoded := decode_tool_effect good_effect; exd_had_failures := false |}.
Abbreviation lite_result := (value lite_default lite_run).

Lemma lite_success_reported_as_error_witness :
  dt_is_error (decode_tool_effect good_effect) = false /\ exd_had_failures lite_result = true.
Proof.
  split; [vm_compute; reflexivity|].
  refine (proj1 (lite_success_reported_as_error asking_kernel lite_slot first_action good_effect 0
    ["S"%byte; "M"%byte] "one byte expected" asking_state lite_run.2 lite_result _ _ _ _ _ _));
    [..|apply (run_value lite_default lite_run)]; vm_compute; reflexivity.
Defined.

(** ** The inbox *)
Definition queued_view : AgentView := view_enqueue (view_enqueue view_empty proposal_tx) prompt_tx.
Definition queued_state : KState ViewStore Env := set_store (vs_set agent queued_view vs_empty) state0.
Definition token0 : DequeueToken := {| token_inbox_seq := 0 |}.
Abbreviation dequeued_run := (process_dequeued kernel proposal_tx token0 queued_state).

Lemma queued_abstracts : abstracts (ks_store queued_state) agent queued_view.
Proof. by vm_compute. Qed.

Lemma process_dequeued_consumes_witness :
  exists v', abstracts (ks_store dequeued_run.2) agent v' /\ av_inbox_head v' = 1%Z
    /\ [prompt_tx] `prefix_of` av_inbox v' /\ exists i e, av_log v' !! i = Some e /\ re_tx e = proposal_tx.
Proof.
  destruct (process_dequeued_consumes kernel demand0 proposal_tx token0 [prompt_tx] queued_view
    queued_state dequeued_run.2 dequeued_run.1 any_world queued_abstracts log_follows_nil eq_refl
    ltac:(by split) ltac:(by vm_compute) eq_refl eq_refl (surjective_pairing _)) as (v' & Ha & _ & _ & Hr).
  assert (exists x, dequeued_run.1 = Ok x) as [x Hx].
  { apply run_first. vm_compute. reflexivity. }
  rewrite Hx in Hr. destruct Hr as (He & Hh & Hq). exists v'. by split_and!.
Defined.

(** ** Replay *)

(** A log of two entries, and the same with the second hash zeroed. *)
Definition two_log : list RecordEntry := take 2 (av_log (vs_view (ks_store final) agent)).
Definition e1 : RecordEntry := default entry0 (two_log !! 0).
Definition e2 : RecordEntry := default entry0 (two_log !! 1).
Definition e2_bad : RecordEntry := build (builder 2 proposal_tx).
Definition store_of (log : list RecordEntry) : ViewStore := vs_set agent (view_append view_empty log None false) vs_empty.
Definition view_of (log : list RecordEntry) : AgentView := view_append view_empty log None false.

Lemma store_of_abstracts log : length log < 10 -> abstracts (store_of log) agent (view_of log).
Proof.
  intros Hl. split; [done|]. split; [|by vm_compute]. unfold log_room, u64_max. cbn. lia.
Qed.
Lemma two_cases (P : nat -> RecordEntry -> Prop) a b :
  P 0 a -> P 1 b -> forall i e, [a; b] !! i = Some e -> P i e.
Proof. intros Ha Hb [|[|i]] e [= <-]; done. Qed.
Lemma view_of_log log : av_log (view_of log) = log.
Proof. done. Qed.
Lemma seqs_of (a b : RecordEntry) : re_seq a = 1%Z -> re_seq b = 2%Z -> seqs_ok [a; b].
Proof. intros Ha Hb. exact (two_cases (fun i e => re_seq e = (Z.of_nat i + 1)%Z) a b Ha Hb). Qed.
Lemma e1_replays log : entry_replays NoopSnapshotStore 50 (e1 :: log) 0 e1.
Proof. split; vm_compute; reflexivity. Qed.
Lemma e2_replays : entry_replays NoopSnapshotStore 50 [e1; e2] 1 e2.
Proof. split; vm_compute; reflexivity. Qed.

Lemma replay_run_correct_witness :
  exists r, replay_run (store_of [e1; e2]) NoopSnapshotStore agent 1 50 = Ok r /\ replayed_seqs r = [1; 2]%Z.
Proof.
  destruct (replay_run_correct (store_of [e1; e2]) NoopSnapshotStore agent 1 50 (view_of [e1; e2])
    (view_reads_succeed _) (store_of_abstracts [e1; e2] ltac:(cbn; lia)) (seqs_of e1 e2 eq_refl eq_refl)
    eq_refl ltac:(by split)) as [Hiff Hrep].
  destruct (proj2 Hiff) as [r Hr].
  { rewrite view_of_log. intros i e _. revert i e.
    apply (two_cases (entry_replays NoopSnapshotStore 50 [e1; e2])); [apply e1_replays|apply e2_replays]. }
  exists r. split; [exact Hr|]. rewrite (Hrep r Hr). vm_compute. reflexivity.
Defined.

Definition e2_hash : ContextHash :=
  match hash_tx_with_window proposal_tx [e1] with Ok h => h | Err _ => ContextHash_zero end.
Lemma replay_stops_at_divergence_witness :
  replay_run (store_of [e1; e2_bad]) NoopSnapshotStore agent 1 50
  = Err (ReplayError_ContextDivergence 2 (hex_encode (arr_bytes (re_context_hash e2_bad)))
           (hex_encode (arr_bytes e2_hash))).
Proof.
  apply (replay_stops_at_divergence (store_of [e1; e2_bad]) NoopSnapshotStore agent 1 50
    (view_of [e1; e2_bad]) 1 e2_bad e2_hash (view_reads_succeed _)
    (store_of_abstracts [e1; e2_bad] ltac:(cbn; lia)) (seqs_of e1 e2_bad eq_refl eq_refl)
    eq_refl ltac:(by split) ltac:(done) eq_refl).
  - rewrite view_of_log. intros i x Hi Hx. revert Hi. revert i x Hx.
    apply (two_cases (fun i x => Z.to_nat (1 - 1) <= i < 1 ->
      entry_replays NoopSnapshotStore 50 [e1; e2_bad] i x)).
    + intros _. apply e1_replays.
    + intros [_ Hi]. exfalso. lia.
  - vm_compute. reflexivity.
  - vm_compute. discriminate.
Defined.

Lemma log_valid_ignores_effects_witness :
  log_valid 50 ((fun e => retouch e Decision_new [] [an_effect]) <$> [e1; e2])
  /\ re_effects <$> ((fun e => retouch e Decision_new [] [an_effect]) <$> [e1; e2]) = [[an_effect]; [an_effect]].
Proof.
  split; [|reflexivity].
  apply (log_valid_ignores_effects 50 [e1; e2] (fun _ => Decision_new) (fun _ => []) (fun _ => [an_effect])).
  unfold log_valid. apply (two_cases (entry_valid 50 [e1; e2])); split; vm_compute; reflexivity.
Defined.

(** ** Entries that do not replay *)
Definition request : @ModelRequest no_model := tt.

(** The entry of a streamed model call may not replay: its context hash is
    taken over the window captured when the stream was opened.  In this run a
    prompt is recorded while the stream is open; every call succeeds, and
    replay of the resulting log stops with a context divergence at the
    reasoning entry. *)
Theorem streaming_record_diverges :
  exists handle r entry (st1 st2 st3 : KState ViewStore Env) x y,
    reason_streaming kernel request state0 = (Ok handle, st1)
    /\ process_direct kernel prompt_tx st1 = (Ok r, st2)
    /\ record_completed kernel handle "model" StopReason_EndTurn streaming_usage [] "" None st2
       = (Ok entry, st3)
    /\ replay_run (ks_store st3) NoopSnapshotStore agent 0 50
       = Err (ReplayError_ContextDivergence (re_seq entry) x y).
Proof.
  set (p1 := reason_streaming kernel request state0). set (p2 := process_direct kernel prompt_tx p1.2).
  set (h := value {| h_window := [] |} p1).
  set (p3 := record_completed kernel h "model" StopReason_EndTurn streaming_usage [] "" None p2.2).
  exists h, (value no_result p2), (value entry0 p3), p1.2, p2.2, p3.2.
  do 2 eexists. split_and!; [apply (run_value {| h_window := [] |} p1)|apply (run_value no_result p2)
    |apply (run_value entry0 p3)|]; vm_compute; reflexivity.
Qed.

(** A kernel whose context window is one entry. *)
Definition narrow_kernel : Kernel Env :=
  {| k_executor := [];
     k_config := {| record_window_size := 1; kc_policy := PolicyConfig_default; workspace_base := "/w";
       use_workspace_base_as_root := true; replay_from := None; kc_snapshot_store := NoopSnapshotStore;
       proposal_timeout_ms := 1; tool_timeout_ms := 1; tool_approval_prompter := None;
       originating_user_id := None; kc_kernel_mode := KernelMode_Audited;
       audited_lite_threshold_bytes := 0; plugin_hooks := None; tool_audit_observer := None |};
     k_agent_id := agent; k_replay_report := None |}.

(** A system record does not replay when the kernel's window is not fifty:
    it is hashed over the last fifty entries whatever window the kernel is
    configured with.  In this run the kernel's window is one; two prompts and a
    system record are written successfully, and replay with the kernel's own
    window stops at the system record. *)
Theorem system_record_window_diverges :
  exists r1 r2 seq (st1 st2 st3 : KState ViewStore Env) x y,
    process_direct narrow_kernel prompt_tx state0 = (Ok r1, st1)
    /\ process_direct narrow_kernel prompt_tx st1 = (Ok r2, st2)
    /\ write_system_record narrow_kernel prompt_tx st2 = (Ok seq, st3)
    /\ replay_run (ks_store st3) NoopSnapshotStore agent 0 (record_window_size (k_config narrow_kernel))
       = Err (ReplayError_ContextDivergence seq x y).
Proof.
  set (p1 := process_direct narrow_kernel prompt_tx state0).
  set (p2 := process_direct narrow_kernel prompt_tx p1.2).
  set (p3 := write_system_record narrow_kernel prompt_tx p2.2).
  exists (value no_result p1), (value no_result p2), (value 0%Z p3), p1.2, p2.2, p3.2.
  do 2 eexists. split_and!; [apply (run_value no_result p1)|apply (run_value no_result p2)
    |apply (run_value 0%Z p3)|]; vm_compute; reflexivity.
Qed.
End KernelWitness.
