(* ===== verification/Subagent.v ===== *)
(** Subagents: what a parent hands to a child it spawns.

    - the shared request and result data ([aura-core-types/src/types/subagent.rs]);
    - the bundled kinds ([aura-agent-subagent/src/registry.rs]);
    - the derivation of a child's specification from its parent and the
      caller's overrides ([derivation.rs] with [manifest.rs], [overrides.rs],
      [parent.rs], [spec.rs], [errors.rs]);
    - the translation of a dispatch request into derivation inputs
      ([adapters.rs]) and the [task] tool that builds the request
      ([aura-tools/src/agents/task.rs], [executor.rs]).

    The theorems show that a derived child is confined by its parent, that a
    derivation fails on exactly the documented violations in the order of the
    checks, and that nested [task] spawns have bounded depth. *)
From S2P Require Import Prelude Values Utf8 Modes Permissions CoreTypes.
From stdpp Require Import list.
From Stdlib Require Import Strings.Byte.

(** * Requests and results ([types/subagent.rs]) *)
Definition DEFAULT_SUBAGENT_TIMEOUT_MS : Z := 300000.
Definition MAX_TURNS : Z := 300.

(** [aura_core_types::SubagentBudget]. *)
Record KindBudget := {
  kb_max_iterations : Z;
  kb_max_tokens : option Z;
  kb_timeout_ms : Z;
}.
Definition KindBudget_default : KindBudget :=
  {| kb_max_iterations := MAX_TURNS; kb_max_tokens := None;
     kb_timeout_ms := DEFAULT_SUBAGENT_TIMEOUT_MS |}.

Record SubagentKindSpec := {
  sk_name : string;
  sk_description : string;
  sk_system_prompt : string;
  sk_allowed_tools : list string;
  sk_allowed_capabilities : list Capability;
  sk_readonly : bool;
  sk_default_model : option string;
  sk_budget : KindBudget;
}.

Record SubagentDispatchRequest := {
  rq_parent_agent_id : AgentId;
  rq_subagent_type : string;
  rq_prompt : string;
  rq_originating_user_id : option string;
  rq_parent_chain : list AgentId;
  rq_model_override : option string;
  rq_reasoning_effort_override : option string;
  rq_system_prompt_addendum : option string;
  rq_parent_permissions : Permissions;
  rq_parent_tool_permissions : option AgentToolPermissions;
  rq_user_tool_defaults : UserToolDefaults;
  rq_tool_call_id : option string;
  rq_parent_mode : option AgentMode;
  rq_parent_kernel_mode : option KernelMode;
  rq_parent_model_id : option string;
  rq_override_mode : option AgentMode;
  rq_override_permissions : option Permissions;
  rq_override_tool_subset : option (list string);
  rq_override_isolation_id : option string;
  rq_override_budget : option KindBudget;
  rq_spawn_mode : option SpawnMode;
  rq_council_index : option Z;
  rq_council_parent_tool_use_id : option string;
}.

Inductive SubagentExit :=
| SubagentExit_Completed
| SubagentExit_Failed (reason : string)
| SubagentExit_Cancelled
| SubagentExit_Timeout
| SubagentExit_Rejected (reason : string).
#[export] Instance SubagentExit_eq_dec : EqDecision SubagentExit.
Proof. solve_decision. Defined.

Record SubagentResult := {
  sr_child_agent_id : option AgentId;
  sr_final_message : string;
  sr_total_input_tokens : Z;
  sr_total_output_tokens : Z;
  sr_files_changed : list string;
  sr_exit : SubagentExit;
}.
#[export] Instance SubagentResult_eq_dec : EqDecision SubagentResult.
Proof. solve_decision. Defined.

Definition SubagentResult_rejected (reason : string) : SubagentResult :=
  {| sr_child_agent_id := None; sr_final_message := ""; sr_total_input_tokens := 0;
     sr_total_output_tokens := 0; sr_files_changed := [];
     sr_exit := SubagentExit_Rejected reason |}.
Definition SubagentResult_completed (child : AgentId) (final_message : string) : SubagentResult :=
  {| sr_child_agent_id := Some child; sr_final_message := final_message;
     sr_total_input_tokens := 0; sr_total_output_tokens := 0; sr_files_changed := [];
     sr_exit := SubagentExit_Completed |}.

(** * The bundled kinds ([registry.rs]) *)
Definition READ_TOOLS : list string :=
  ["list_files"; "read_file"; "stat_file"; "find_files"; "search_code"].

Record SubagentRegistry := { reg_kinds : list SubagentKindSpec }.

Definition general_purpose : SubagentKindSpec := {|
  sk_name := "general_purpose";
  sk_description := "General-purpose subagent for multi-step codebase work.";
  sk_system_prompt := "You are a focused coding subagent. Complete the delegated task and return a concise final summary.";
  sk_allowed_tools :=
    ["list_files"; "read_file"; "stat_file"; "find_files"; "search_code"; "edit_file";
     "write_file"; "delete_file"; "run_command"; "task"; "spawn_agent"; "send_to_agent";
     "delegate_task"; "agent_lifecycle"; "get_agent_state"; "list_agents"];
  sk_allowed_capabilities :=
    [Capability_ReadAgent; Capability_InvokeProcess; Capability_SpawnAgent;
     Capability_ControlAgent; Capability_ListAgents];
  sk_readonly := false;
  sk_default_model := None;
  sk_budget := {| kb_max_iterations := MAX_TURNS; kb_max_tokens := None; kb_timeout_ms := 300000 |};
|}.

Definition readonly_kind (name description system_prompt : string) : SubagentKindSpec := {|
  sk_name := name;
  sk_description := description;
  sk_system_prompt := system_prompt;
  sk_allowed_tools := READ_TOOLS ++ ["run_command"];
  sk_allowed_capabilities := [Capability_InvokeProcess];
  sk_readonly := true;
  sk_default_model := None;
  sk_budget := {| kb_max_iterations := MAX_TURNS; kb_max_tokens := None; kb_timeout_ms := 180000 |};
|}.

Definition explore : SubagentKindSpec :=
  readonly_kind "explore" "Read-only codebase exploration subagent."
    "Explore the codebase using read/search tools and safe verification commands only. Return relevant files, symbols, and conclusions.".

Definition code_reviewer : SubagentKindSpec :=
  readonly_kind "code_reviewer"
    "Read-only code review subagent focused on bugs, regressions, and missing tests."
    "Review the requested code for correctness risks. Lead with findings and cite concrete files.".

Definition shell : SubagentKindSpec := {|
  sk_name := "shell";
  sk_description := "Command-focused subagent with tightly configured shell access.";
  sk_system_prompt := "Run only the requested safe shell/read operations and summarize the result.";
  sk_allowed_tools := READ_TOOLS ++ ["run_command"];
  sk_allowed_capabilities := [Capability_InvokeProcess];
  sk_readonly := false;
  sk_default_model := None;
  sk_budget := {| kb_max_iterations := MAX_TURNS; kb_max_tokens := None; kb_timeout_ms := 180000 |};
|}.

Definition bundled : SubagentRegistry :=
  {| reg_kinds := [general_purpose; explore; shell; code_reviewer] |}.

Definition reg_get (r : SubagentRegistry) (name : string) : option SubagentKindSpec :=
  List.find (fun k => bool_decide (sk_name k = name)) (reg_kinds r).

Definition registry_chars (r : SubagentRegistry) : Z :=
  foldr Z.add 0%Z
    ((fun k =>
        let tools_chars := foldr Z.add 0%Z ((fun t => str_len t + 1)%Z <$> sk_allowed_tools k) in
        (str_len (sk_name k) + str_len (sk_description k) + str_len (sk_system_prompt k)
         + tools_chars)%Z) <$> reg_kinds r).

Definition LF : string := String (Ascii.ascii_of_nat 10) EmptyString.

Definition registry_segments (r : SubagentRegistry) : list (string * string) :=
  (fun k =>
     (sk_name k,
      sk_description k +++ LF +++ LF +++ sk_system_prompt k +++ LF +++ LF +++ "Tools: "
        +++ String.concat ", " (sk_allowed_tools k))) <$> reg_kinds r.

(** * Derivation inputs ([overrides.rs], [parent.rs], [spec.rs]) *)

(** [aura_agent_subagent::SubagentBudget]. *)
Record SubagentBudget := { sb_max_tokens : Z; sb_max_iterations : Z; sb_timeout_ms : Z }.
Definition SubagentBudget_default_for_phase_6a : SubagentBudget :=
  {| sb_max_tokens := 64000; sb_max_iterations := 50; sb_timeout_ms := 300000 |}.

Record SubagentOverrides := {
  ov_mode : option AgentMode;
  ov_permissions : option Permissions;
  ov_kernel_mode : option KernelMode;
  ov_model_id : option string;
  ov_reasoning_effort : option string;
  ov_response_max_tokens : option Z;
  ov_kind : option string;
  ov_spawn_mode : option SpawnMode;
  ov_replay_mode : option ReplayMode;
  ov_budget : option SubagentBudget;
  ov_tool_subset : option (list string);
  ov_isolation_id : option string;
  ov_subagent_type : option string;
  ov_system_prompt_addendum : option string;
  ov_parent_tool_permissions : option AgentToolPermissions;
  ov_user_tool_defaults : option UserToolDefaults;
}.

Record SubagentLineage := { lin_root_agent_id : AgentId; lin_chain : list AgentId }.
Definition from_root (root : AgentId) : SubagentLineage :=
  {| lin_root_agent_id := root; lin_chain := [root] |}.

Record ParentContext := {
  px_agent_id : AgentId;
  px_depth : Z;
  px_mode : AgentMode;
  px_mode_profile : ModeProfile;
  px_permissions : Permissions;
  px_model_id : string;
  px_lineage : SubagentLineage;
}.
Definition px_kernel_mode (p : ParentContext) : KernelMode := mp_kernel (px_mode_profile p).

(** * The override manifest ([manifest.rs]) *)
Inductive OverriddenField :=
| OverriddenField_Mode (from to : AgentMode)
| OverriddenField_Permissions (capability_count : Z)
| OverriddenField_KernelMode (from to : KernelMode)
| OverriddenField_ModelId (from to : string)
| OverriddenField_Kind (kind : string)
| OverriddenField_SpawnMode (m : SpawnMode)
| OverriddenField_ReplayMode (m : ReplayMode)
| OverriddenField_Budget
| OverriddenField_ToolSubset (count : Z)
| OverriddenField_IsolationId (id : string)
| OverriddenField_SubagentType (ty : string)
| OverriddenField_SystemPromptAddendum (chars : Z)
| OverriddenField_ParentToolPermissions (entries : Z)
| OverriddenField_UserToolDefaults.
#[export] Instance OverriddenField_eq_dec : EqDecision OverriddenField.
Proof. solve_decision. Defined.

Record OverrideManifest := { om_applied : list OverriddenField }.
Definition om_is_empty (m : OverrideManifest) : bool := is_nil (om_applied m).

Record AuditAttribution := { aa_parent_agent_id : AgentId }.

Record SubagentSpec := {
  sp_parent : AgentId;
  sp_depth : Z;
  sp_mode : AgentMode;
  sp_mode_profile : ModeProfile;
  sp_permissions : Permissions;
  sp_kernel_mode : KernelMode;
  sp_model_id : string;
  sp_reasoning_effort : option string;
  sp_response_max_tokens : option Z;
  sp_kind : string;
  sp_spawn_mode : SpawnMode;
  sp_replay_mode : ReplayMode;
  sp_budget : SubagentBudget;
  sp_tool_subset : option (list string);
  sp_isolation_id : option string;
  sp_lineage : SubagentLineage;
  sp_audit_attribution : AuditAttribution;
  sp_overridden_fields : OverrideManifest;
  sp_subagent_type : option string;
  sp_system_prompt_addendum : option string;
  sp_parent_tool_permissions : option AgentToolPermissions;
  sp_user_tool_defaults : option UserToolDefaults;
}.

Inductive DerivationError :=
| DerivationError_DepthExceeded (parent_depth max_depth : Z)
| DerivationError_PermissionsWiden (capability : Capability)
| DerivationError_ModeWidens (parent requested : AgentMode)
| DerivationError_SpawnNotAllowed (mode : AgentMode)
| DerivationError_KernelModeDowngradeForbidden (parent requested : KernelMode)
| DerivationError_InvalidOverride (message : string).
#[export] Instance DerivationError_eq_dec : EqDecision DerivationError.
Proof. solve_decision. Defined.

(** * Derivation ([derivation.rs]) *)
Record SubagentDerivationConfig := {
  dc_max_depth : Z;
  dc_default_kernel_mode_for_subagents : KernelMode;
  dc_default_budget : SubagentBudget;
}.
Definition default_for_phase_6a : SubagentDerivationConfig :=
  {| dc_max_depth := 8; dc_default_kernel_mode_for_subagents := KernelMode_AuditedLite;
     dc_default_budget := SubagentBudget_default_for_phase_6a |}.

Definition narrowing_allowed (parent child : AgentMode) : bool :=
  match parent, child with
  | AgentMode_Agent, _ => true
  | AgentMode_Plan, (AgentMode_Plan | AgentMode_Ask | AgentMode_Debug) => true
  | AgentMode_Ask, AgentMode_Ask => true
  | AgentMode_Debug, AgentMode_Debug => true
  | _, _ => false
  end.

Definition first_widening_capability (parent requested : Permissions) : option Capability :=
  List.find
    (fun requested_cap =>
       negb (existsb (fun held => satisfies held requested_cap) (perm_capabilities parent)))
    (perm_capabilities requested).

Definition downgrades_kernel (parent requested : KernelMode) : bool :=
  match parent, requested with
  | KernelMode_Audited, KernelMode_AuditedLite => true
  | _, _ => false
  end.

(** Each block of [DefaultDerivation::derive] resolves one field and pushes its
    manifest entry; a block returns the value and the manifest so far. *)
Definition derive_mode (parent : ParentContext) (requested : option AgentMode)
    (applied : list OverriddenField) : result DerivationError (AgentMode * list OverriddenField) :=
  match requested with
  | Some requested =>
      if negb (narrowing_allowed (px_mode parent) requested)
      then Err (DerivationError_ModeWidens (px_mode parent) requested)
      else Ok (requested,
               if bool_decide (requested <> px_mode parent)
               then applied ++ [OverriddenField_Mode (px_mode parent) requested] else applied)
  | None => Ok (px_mode parent, applied)
  end.

Definition derive_permissions (parent : ParentContext) (requested : option Permissions)
    (applied : list OverriddenField) : result DerivationError (Permissions * list OverriddenField) :=
  match requested with
  | Some requested =>
      match first_widening_capability (px_permissions parent) requested with
      | Some cap => Err (DerivationError_PermissionsWiden cap)
      | None =>
          let narrowed := narrow (px_permissions parent) requested in
          Ok (narrowed,
              applied ++ [OverriddenField_Permissions
                            (Z.of_nat (length (perm_capabilities narrowed)))])
      end
  | None => Ok (px_permissions parent, applied)
  end.

Definition derive_kernel_mode (default parent_kernel : KernelMode) (requested : option KernelMode)
    (applied : list OverriddenField) : result DerivationError (KernelMode * list OverriddenField) :=
  match requested with
  | Some requested =>
      if downgrades_kernel parent_kernel requested
      then Err (DerivationError_KernelModeDowngradeForbidden parent_kernel requested)
      else Ok (requested,
               if bool_decide (requested <> default)
               then applied ++ [OverriddenField_KernelMode default requested] else applied)
  | None => Ok (default, applied)
  end.

Definition derive_model_id (parent : ParentContext) (requested : option string)
    (applied : list OverriddenField) : string * list OverriddenField :=
  match requested with
  | Some requested =>
      (requested,
       if bool_decide (requested <> px_model_id parent)
       then applied ++ [OverriddenField_ModelId (px_model_id parent) requested] else applied)
  | None => (px_model_id parent, applied)
  end.

(** [if let Some(x) = override { push(entry); x } else { default }]. *)
Definition override_or {A} (entry : A -> OverriddenField) (default : A) (o : option A)
    (applied : list OverriddenField) : A * list OverriddenField :=
  match o with Some x => (x, applied ++ [entry x]) | None => (default, applied) end.

(** [if let Some(x) = &override { push(entry) }]. *)
Definition note_override {A} (entry : A -> OverriddenField) (o : option A)
    (applied : list OverriddenField) : list OverriddenField :=
  match o with Some x => applied ++ [entry x] | None => applied end.

Definition derive (config : SubagentDerivationConfig) (parent : ParentContext)
    (overrides : SubagentOverrides) : result DerivationError (SubagentSpec * OverrideManifest) :=
  let new_depth := u32_saturating_add (px_depth parent) 1 in
  if bool_decide (new_depth > dc_max_depth config)%Z
  then Err (DerivationError_DepthExceeded (px_depth parent) (dc_max_depth config))
  else
  '(mode, a) ← derive_mode parent (ov_mode overrides) [];
  if negb (allows_spawn (px_mode parent)) then Err (DerivationError_SpawnNotAllowed (px_mode parent))
  else
  '(permissions, a) ← derive_permissions parent (ov_permissions overrides) a;
  '(kernel_mode, a) ← derive_kernel_mode (dc_default_kernel_mode_for_subagents config)
                        (px_kernel_mode parent) (ov_kernel_mode overrides) a;
  let '(model_id, a) := derive_model_id parent (ov_model_id overrides) a in
  let '(kind, a) := override_or OverriddenField_Kind "task" (ov_kind overrides) a in
  let '(spawn_mode, a) :=
    override_or OverriddenField_SpawnMode SpawnMode_Wait (ov_spawn_mode overrides) a in
  let '(replay_mode, a) :=
    override_or OverriddenField_ReplayMode ReplayMode_Live (ov_replay_mode overrides) a in
  let '(budget, a) := override_or (fun _ => OverriddenField_Budget) (dc_default_budget config)
                        (ov_budget overrides) a in
  let a := note_override (fun subset => OverriddenField_ToolSubset (Z.of_nat (length subset)))
             (ov_tool_subset overrides) a in
  let a := note_override OverriddenField_IsolationId (ov_isolation_id overrides) a in
  let a := note_override OverriddenField_SubagentType (ov_subagent_type overrides) a in
  let a := note_override (fun addendum => OverriddenField_SystemPromptAddendum (chars_count addendum))
             (ov_system_prompt_addendum overrides) a in
  let a := note_override
             (fun perms => OverriddenField_ParentToolPermissions (Z.of_nat (size (atp_per_tool perms))))
             (ov_parent_tool_permissions overrides) a in
  let a := note_override (fun _ => OverriddenField_UserToolDefaults) (ov_user_tool_defaults overrides) a in
  let manifest := {| om_applied := a |} in
  let chain := lin_chain (px_lineage parent) in
  let chain := if bool_decide (last chain = Some (px_agent_id parent)) then chain
               else chain ++ [px_agent_id parent] in
  Ok ({| sp_parent := px_agent_id parent;
         sp_depth := new_depth;
         sp_mode := mode;
         sp_mode_profile := {| mp_agent := mode; mp_kernel := kernel_mode;
                               mp_sandbox := mp_sandbox (px_mode_profile parent);
                               mp_replay := mp_replay (px_mode_profile parent) |};
         sp_permissions := permissions;
         sp_kernel_mode := kernel_mode;
         sp_model_id := model_id;
         sp_reasoning_effort := ov_reasoning_effort overrides;
         sp_response_max_tokens := ov_response_max_tokens overrides;
         sp_kind := kind;
         sp_spawn_mode := spawn_mode;
         sp_replay_mode := replay_mode;
         sp_budget := budget;
         sp_tool_subset := ov_tool_subset overrides;
         sp_isolation_id := ov_isolation_id overrides;
         sp_lineage := {| lin_root_agent_id := lin_root_agent_id (px_lineage parent);
                          lin_chain := chain |};
         sp_audit_attribution := {| aa_parent_agent_id := px_agent_id parent |};
         sp_overridden_fields := manifest;
         sp_subagent_type := ov_subagent_type overrides;
         sp_system_prompt_addendum := ov_system_prompt_addendum overrides;
         sp_parent_tool_permissions := ov_parent_tool_permissions overrides;
         sp_user_tool_defaults := ov_user_tool_defaults overrides |},
      manifest).

(** * Adapters ([adapters.rs]) *)
Definition narrow_permissions (parent : Permissions) (kind : SubagentKindSpec) : Permissions :=
  {| perm_scope := perm_scope parent;
     perm_capabilities :=
       List.filter (fun held => existsb (fun allowed => satisfies held allowed)
                                  (sk_allowed_capabilities kind))
         (perm_capabilities parent) |}.

Definition legacy_permissions_to_modes (legacy : Permissions) : Permissions :=
  {| perm_scope := perm_scope legacy; perm_capabilities := perm_capabilities legacy |}.

Definition core_to_modes_kernel (kernel : KernelMode) : KernelMode :=
  match kernel with
  | KernelMode_Audited => KernelMode_Audited
  | KernelMode_AuditedLite => KernelMode_AuditedLite
  end.

Definition parent_context_from_request (request : SubagentDispatchRequest) : ParentContext :=
  let lineage :=
    if is_nil (rq_parent_chain request) then from_root (rq_parent_agent_id request)
    else {| lin_root_agent_id := default (rq_parent_agent_id request) (last (rq_parent_chain request));
            lin_chain := rq_parent_chain request |} in
  let len := Z.of_nat (length (rq_parent_chain request)) in
  let depth := if bool_decide (len <= u32_max)%Z then len else u32_max in
  let mode := default AgentMode_Agent (rq_parent_mode request) in
  let kernel := match rq_parent_kernel_mode request with
                | Some k => core_to_modes_kernel k | None => KernelMode_Audited end in
  {| px_agent_id := rq_parent_agent_id request;
     px_depth := depth;
     px_mode := mode;
     px_mode_profile := {| mp_agent := mode; mp_kernel := kernel;
                           mp_sandbox := SandboxMode_Standard; mp_replay := ReplayMode_Live |};
     px_permissions := legacy_permissions_to_modes (rq_parent_permissions request);
     px_model_id := default "" (rq_parent_model_id request);
     px_lineage := lineage |}.

Definition overrides_from_request (request : SubagentDispatchRequest) (kind : SubagentKindSpec)
  : SubagentOverrides :=
  let narrowed_parent := narrow_permissions (rq_parent_permissions request) kind in
  {| ov_mode := rq_override_mode request;
     ov_permissions :=
       match rq_override_permissions request with
       | Some explicit => Some (legacy_permissions_to_modes (narrow_permissions explicit kind))
       | None => Some (legacy_permissions_to_modes narrowed_parent)
       end;
     ov_kernel_mode := None;
     ov_model_id := match rq_model_override request with
                    | Some m => Some m | None => sk_default_model kind end;
     ov_reasoning_effort := rq_reasoning_effort_override request;
     ov_response_max_tokens := rq_override_budget request ≫= kb_max_tokens;
     ov_kind := Some (sk_name kind);
     ov_spawn_mode := rq_spawn_mode request;
     ov_replay_mode := None;
     ov_budget := (fun b => {| sb_max_tokens := default 64000%Z (kb_max_tokens b);
                               sb_max_iterations := kb_max_iterations b;
                               sb_timeout_ms := kb_timeout_ms b |}) <$> rq_override_budget request;
     ov_tool_subset := Some (default (sk_allowed_tools kind) (rq_override_tool_subset request));
     ov_isolation_id := rq_override_isolation_id request;
     ov_subagent_type := Some (sk_name kind);
     ov_system_prompt_addendum := rq_system_prompt_addendum request;
     ov_parent_tool_permissions := rq_parent_tool_permissions request;
     ov_user_tool_defaults := Some (rq_user_tool_defaults request) |}.

(** * The [task] tool ([task.rs])

    [TaskContext] holds the fields of [ToolContext] the tool reads, [TaskInput]
    the arguments the model supplies. *)
Definition MAX_SUBAGENT_DEPTH : Z := 8.

Record TaskInput := {
  ti_subagent_type : string;
  ti_prompt : string;
  ti_model_override : option string;
  ti_system_prompt_addendum : option string;
  ti_mode : option AgentMode;
  ti_permissions : option Permissions;
  ti_model : option string;
  ti_budget : option KindBudget;
  ti_isolation : option string;
  ti_tool_subset : option (list string);
  ti_tool_call_id : option string;
  ti_spawn_mode : option SpawnMode;
}.

Record TaskContext := {
  tc_caller_agent_id : option AgentId;
  tc_caller_permissions : option Permissions;
  tc_caller_tool_permissions : option AgentToolPermissions;
  tc_user_tool_defaults : UserToolDefaults;
  tc_parent_chain : list AgentId;
  tc_originating_user_id : option string;
  tc_caller_mode : option AgentMode;
  tc_caller_kernel_mode : option KernelMode;
  tc_caller_model_id : option string;
  tc_current_tool_use_id : option string;
}.

(** The text of a [ToolError::InvalidArguments]. *)
Definition build_request (ctx : TaskContext) (input : TaskInput)
  : result string SubagentDispatchRequest :=
  if trim_is_empty (ti_subagent_type input) then Err "task: subagent_type must not be empty"
  else if trim_is_empty (ti_prompt input) then Err "task: prompt must not be empty"
  else if bool_decide (Z.of_nat (length (tc_parent_chain ctx)) >= MAX_SUBAGENT_DEPTH)%Z
  then Err ("task: maximum subagent depth " +++ fmt_Z MAX_SUBAGENT_DEPTH +++ " exceeded")
  else
  caller_permissions ← ok_or "task requires caller_permissions on the tool context"
                         (tc_caller_permissions ctx);
  if negb (existsb (fun cap => satisfies cap Capability_SpawnAgent)
             (perm_capabilities caller_permissions))
  then Err "permissions: task requires SpawnAgent capability"
  else
  parent_agent_id ← ok_or "task requires caller_agent_id on the tool context" (tc_caller_agent_id ctx);
  if bool_decide (parent_agent_id ∈ tc_parent_chain ctx)
  then Err "permissions: ancestor cycle detected in parent_chain"
  else
  Ok {| rq_parent_agent_id := parent_agent_id;
        rq_subagent_type := ti_subagent_type input;
        rq_prompt := ti_prompt input;
        rq_originating_user_id := tc_originating_user_id ctx;
        rq_parent_chain := parent_agent_id :: tc_parent_chain ctx;
        rq_model_override := match ti_model_override input with
                             | Some m => Some m | None => ti_model input end;
        rq_reasoning_effort_override := None;
        rq_system_prompt_addendum := ti_system_prompt_addendum input;
        rq_parent_permissions := caller_permissions;
        rq_parent_tool_permissions := tc_caller_tool_permissions ctx;
        rq_user_tool_defaults := tc_user_tool_defaults ctx;
        rq_tool_call_id := match tc_current_tool_use_id ctx with
                           | Some i => Some i | None => ti_tool_call_id input end;
        rq_parent_mode := tc_caller_mode ctx;
        rq_parent_kernel_mode := tc_caller_kernel_mode ctx;
        rq_parent_model_id := tc_caller_model_id ctx;
        rq_override_mode := ti_mode input;
        rq_override_permissions := ti_permissions input;
        rq_override_tool_subset := ti_tool_subset input;
        rq_override_isolation_id := ti_isolation input;
        rq_override_budget := ti_budget input;
        rq_spawn_mode := ti_spawn_mode input;
        rq_council_index := None;
        rq_council_parent_tool_use_id := None |}.

(** * Derivation theorems *)

(** The rules of the error taxonomy, in the order the checks run: each gives the
    error of its violation. *)
Definition violations (config : SubagentDerivationConfig) (parent : ParentContext)
    (overrides : SubagentOverrides) : list (option DerivationError) :=
  [ if bool_decide (Z.min u32_max (px_depth parent + 1) <= dc_max_depth config)%Z then None
    else Some (DerivationError_DepthExceeded (px_depth parent) (dc_max_depth config));
    requested ← ov_mode overrides;
    if narrowing_allowed (px_mode parent) requested then None
    else Some (DerivationError_ModeWidens (px_mode parent) requested);
    if allows_spawn (px_mode parent) then None
    else Some (DerivationError_SpawnNotAllowed (px_mode parent));
    requested ← ov_permissions overrides;
    cap ← List.find (fun c => negb (allows (px_permissions parent) c)) (perm_capabilities requested);
    Some (DerivationError_PermissionsWiden cap);
    requested ← ov_kernel_mode overrides;
    if bool_decide (px_kernel_mode parent = KernelMode_Audited /\ requested = KernelMode_AuditedLite)
    then Some (DerivationError_KernelModeDowngradeForbidden (px_kernel_mode parent) requested)
    else None ].

(** The facts a successful derivation establishes about its child. *)
Record derived (config : SubagentDerivationConfig) (parent : ParentContext)
    (overrides : SubagentOverrides) (spec : SubagentSpec) (manifest : OverrideManifest) : Prop := {
  dv_depth : sp_depth spec = u32_saturating_add (px_depth parent) 1;
  dv_max_depth : (sp_depth spec <= dc_max_depth config)%Z;
  dv_spawner : px_mode parent = AgentMode_Agent;
  dv_mode : sp_mode spec = default (px_mode parent) (ov_mode overrides);
  dv_profile : sp_mode_profile spec =
    {| mp_agent := sp_mode spec; mp_kernel := sp_kernel_mode spec;
       mp_sandbox := mp_sandbox (px_mode_profile parent);
       mp_replay := mp_replay (px_mode_profile parent) |};
  dv_permissions : sp_permissions spec =
    match ov_permissions overrides with
    | Some r => narrow (px_permissions parent) r | None => px_permissions parent end;
  dv_kernel : sp_kernel_mode spec =
    default (dc_default_kernel_mode_for_subagents config) (ov_kernel_mode overrides);
  dv_kernel_ok k : ov_kernel_mode overrides = Some k -> downgrades_kernel (px_kernel_mode parent) k = false;
  dv_parent : sp_parent spec = px_agent_id parent
              /\ aa_parent_agent_id (sp_audit_attribution spec) = px_agent_id parent;
  dv_lineage : lin_root_agent_id (sp_lineage spec) = lin_root_agent_id (px_lineage parent)
               /\ lin_chain (sp_lineage spec) =
                    (if bool_decide (last (lin_chain (px_lineage parent)) = Some (px_agent_id parent))
                     then lin_chain (px_lineage parent)
                     else lin_chain (px_lineage parent) ++ [px_agent_id parent]);
  dv_manifest : sp_overridden_fields spec = manifest;
}.

Lemma derive_mode_Ok parent o a m a' :
  derive_mode parent o a = Ok (m, a') -> m = default (px_mode parent) o.
Proof. unfold derive_mode. destruct o as [r|]; [destruct (narrowing_allowed _ _)|]; naive_solver. Qed.
Lemma derive_permissions_Ok parent o a p a' :
  derive_permissions parent o a = Ok (p, a') ->
  p = match o with Some r => narrow (px_permissions parent) r | None => px_permissions parent end.
Proof.
  unfold derive_permissions. destruct o as [r|]; [destruct (first_widening_capability _ _)|];
    naive_solver.
Qed.
Lemma derive_kernel_mode_Ok d pk o a k a' :
  derive_kernel_mode d pk o a = Ok (k, a') ->
  k = default d o /\ forall r, o = Some r -> downgrades_kernel pk r = false.
Proof.
  unfold derive_kernel_mode. destruct o as [r|]; [destruct (downgrades_kernel _ _) eqn:?|];
    naive_solver.
Qed.

Lemma allows_spawn_agent m : allows_spawn m = true <-> m = AgentMode_Agent.
Proof. by destruct m. Qed.

Lemma derive_Ok config parent overrides spec manifest :
  derive config parent overrides = Ok (spec, manifest) ->
  derived config parent overrides spec manifest.
Proof.
  unfold derive. case_bool_decide as Hd; [done|].
  intros ((mode & a1) & Hm & Hk)%result_bind_Ok.
  destruct (allows_spawn (px_mode parent)) eqn:Hs; [cbn in Hk|done].
  apply result_bind_Ok in Hk as ((perms & a2) & Hp & Hk).
  apply result_bind_Ok in Hk as ((km & a3) & Hkm & Hk).
  apply derive_mode_Ok in Hm. apply derive_permissions_Ok in Hp.
  apply derive_kernel_mode_Ok in Hkm as [Hkm Hkd]. apply allows_spawn_agent in Hs.
  repeat match type of Hk with context [let '(_, _) := ?x in _] => destruct x end.
  injection Hk as <- <-. constructor; cbn; try done; lia.
Qed.

(** Derivation refuses a spawn exactly when one of the documented rules is
    broken, and reports the first broken rule in the order depth, mode
    narrowing, spawn permission of the mode, capability widening (naming the
    first capability the parent does not hold), kernel-mode downgrade; when no
    rule is broken it succeeds. *)
Theorem derive_refuses_first_violation config parent overrides :
  result_err (derive config parent overrides) = head (omap id (violations config parent overrides)).
Proof.
  unfold derive, violations, u32_saturating_add.
  destruct (decide (Z.min u32_max (px_depth parent + 1) <= dc_max_depth config)%Z) as [Hd|Hd].
  all: set (deep := bool_decide (_ > _)%Z); set (fits := bool_decide (_ <= _)%Z).
  2: { assert (deep = true) as -> by (apply bool_decide_eq_true_2; lia).
       by assert (fits = false) as -> by (apply bool_decide_eq_false_2; lia). }
  assert (deep = false) as -> by (apply bool_decide_eq_false_2; lia).
  assert (fits = true) as -> by (apply bool_decide_eq_true_2; lia).
  unfold derive_mode. destruct (ov_mode overrides) as [m|]; cbn.
  1: destruct (narrowing_allowed (px_mode parent) m); cbn; [|done].
  all: destruct (allows_spawn (px_mode parent)); cbn; [|done].
  all: unfold derive_permissions; destruct (ov_permissions overrides) as [r|]; cbn.
  all: unfold first_widening_capability, allows.
  all: try (destruct (List.find _ _); cbn; [done|]).
  all: unfold derive_kernel_mode; destruct (ov_kernel_mode overrides) as [k|]; cbn.
  all: try (destruct (px_kernel_mode parent), k; cbn).
  all: repeat match goal with |- context [let '(_, _) := ?x in _] => destruct x end; done.
Qed.

(** A derived child is confined by its parent: it sits one level deeper and
    within the configured depth, whatever capability it has the parent has, the
    mode gate lets it do nothing the parent's mode does not let the parent do,
    an explicitly requested kernel mode is at least as audited as the parent's,
    and it is attributed to the parent in the same tree with the parent's
    sandbox. *)
Theorem derived_child_confined config parent overrides spec manifest :
  derive config parent overrides = Ok (spec, manifest) ->
  (dc_max_depth config < u32_max)%Z ->
  sp_depth spec = (px_depth parent + 1)%Z /\ (sp_depth spec <= dc_max_depth config)%Z
  /\ (forall cap, allows (sp_permissions spec) cap = true -> allows (px_permissions parent) cap = true)
  /\ mode_covers (px_mode parent) (sp_mode spec)
  /\ (forall k, ov_kernel_mode overrides = Some k ->
        sp_kernel_mode spec = k
        /\ (px_kernel_mode parent = KernelMode_Audited -> k = KernelMode_Audited))
  /\ aa_parent_agent_id (sp_audit_attribution spec) = px_agent_id parent
  /\ lin_root_agent_id (sp_lineage spec) = lin_root_agent_id (px_lineage parent)
  /\ mp_sandbox (sp_mode_profile spec) = mp_sandbox (px_mode_profile parent).
Proof.
  intros H%derive_Ok Hmax. destruct H as [Hd Hd' Hs Hm Hpr Hp Hk Hk' Hpa Hl Hman].
  assert (sp_depth spec = px_depth parent + 1)%Z as Hdepth.
  { rewrite Hd in Hd' |- *. unfold u32_saturating_add, u32_max in *. lia. }
  split_and!; [done|done| | | |apply Hpa|apply Hl|by rewrite Hpr].
  - intros cap. rewrite Hp. destruct (ov_permissions overrides); [|done].
    intros Ha%narrow_capabilities_sound. apply Ha.
  - rewrite Hs. intros act _. by rewrite gate_check_agent.
  - intros k Ek. rewrite Hk, Ek. split; [done|]. intros Hpk. apply Hk' in Ek.
    rewrite Hpk in Ek. by destruct k.
Qed.

(** * From request to child *)
Lemma elem_of_narrow_permissions p k c :
  c ∈ perm_capabilities (narrow_permissions p k) <->
  c ∈ perm_capabilities p /\ exists a, a ∈ sk_allowed_capabilities k /\ satisfies c a = true.
Proof.
  simpl. rewrite !list_elem_of_In, filter_In, existsb_exists.
  setoid_rewrite list_elem_of_In. done.
Qed.

Lemma build_request_Ok ctx input rq :
  build_request ctx input = Ok rq ->
  exists perms parent,
    tc_caller_permissions ctx = Some perms /\ tc_caller_agent_id ctx = Some parent
    /\ allows perms Capability_SpawnAgent = true
    /\ ~ (parent ∈ tc_parent_chain ctx)
    /\ (Z.of_nat (length (tc_parent_chain ctx)) < MAX_SUBAGENT_DEPTH)%Z
    /\ rq_parent_agent_id rq = parent
    /\ rq_parent_chain rq = parent :: tc_parent_chain ctx
    /\ rq_parent_permissions rq = perms
    /\ rq_parent_mode rq = tc_caller_mode ctx
    /\ rq_override_permissions rq = ti_permissions input
    /\ rq_override_mode rq = ti_mode input.
Proof.
  unfold build_request. destruct (trim_is_empty (ti_subagent_type input)), (trim_is_empty (ti_prompt input)); try done.
  case_bool_decide; [done|]. destruct (tc_caller_permissions ctx) as [perms|]; [cbn|done].
  fold (allows perms Capability_SpawnAgent).
  destruct (allows perms Capability_SpawnAgent) eqn:Ha; [cbn|done].
  destruct (tc_caller_agent_id ctx) as [parent|]; [cbn|done].
  case_bool_decide; [done|]. intros [= <-]. exists perms, parent. split_and!; try done. lia.
Qed.

(** The depth and lineage the adapters give to a request from the [task] tool. *)
Lemma parent_context_depth rq :
  (Z.of_nat (length (rq_parent_chain rq)) <= u32_max)%Z ->
  px_depth (parent_context_from_request rq) = Z.of_nat (length (rq_parent_chain rq)).
Proof. intros H. cbn. by rewrite bool_decide_eq_true_2. Qed.

(** C26: A child started through the [task] tool is confined by its caller: each
    capability it gets is literally one of the caller's, serves one the kind
    allows, and is one of those requested when the call names some; its depth is
    two more than the caller's number of ancestors and within the limit; the
    caller holds [SpawnAgent] and does not occur among its own ancestors. *)
Theorem task_child_confined config ctx input rq kind spec manifest :
  build_request ctx input = Ok rq ->
  derive config (parent_context_from_request rq) (overrides_from_request rq kind) = Ok (spec, manifest) ->
  exists perms parent,
    tc_caller_permissions ctx = Some perms /\ tc_caller_agent_id ctx = Some parent
    /\ (forall c, c ∈ perm_capabilities (sp_permissions spec) ->
          c ∈ perm_capabilities perms
          /\ (exists a, a ∈ sk_allowed_capabilities kind /\ satisfies c a = true)
          /\ (forall req, ti_permissions input = Some req -> c ∈ perm_capabilities req))
    /\ sp_depth spec = (Z.of_nat (length (tc_parent_chain ctx)) + 2)%Z
    /\ (sp_depth spec <= dc_max_depth config)%Z
    /\ allows perms Capability_SpawnAgent = true /\ ~ (parent ∈ tc_parent_chain ctx)
    /\ aa_parent_agent_id (sp_audit_attribution spec) = parent.
Proof.
  intros Hb Hd%derive_Ok.
  apply build_request_Ok in Hb as (perms & parent & Hp & Hi & Ha & Hn & Hl & Rp & Rc & Rperm & Rm & Ro & Rom).
  exists perms, parent. split; [done|]. split; [done|].
  assert (Hdepth : sp_depth spec = (Z.of_nat (length (tc_parent_chain ctx)) + 2)%Z).
  { rewrite (dv_depth _ _ _ _ _ Hd), parent_context_depth; rewrite Rc; cbn [length].
    all: unfold u32_saturating_add, MAX_SUBAGENT_DEPTH, u32_max in *; lia. }
  split_and!; [|done|apply (dv_max_depth _ _ _ _ _ Hd)|done|done|].
  - intros c. rewrite (dv_permissions _ _ _ _ _ Hd). unfold overrides_from_request. cbn [ov_permissions].
    rewrite Ro. unfold legacy_permissions_to_modes.
    destruct (ti_permissions input) as [req|]; rewrite elem_of_perm_intersect;
      unfold parent_context_from_request; cbn -[narrow_permissions];
      rewrite elem_of_narrow_permissions, Rperm; naive_solver.
  - rewrite (proj2 (dv_parent _ _ _ _ _ Hd)). cbn. done.
Qed.

(** Audit downgrade by omission: under an audited parent and the default
    configuration, asking for [AuditedLite] is refused as a downgrade, but
    leaving the kernel mode out derives an [AuditedLite] child, without any
    manifest entry for it. *)
Theorem derive_downgrades_by_default config parent overrides :
  px_kernel_mode parent = KernelMode_Audited ->
  dc_default_kernel_mode_for_subagents config = KernelMode_AuditedLite ->
  (ov_kernel_mode overrides = Some KernelMode_AuditedLite ->
     is_ok (derive config parent overrides) = false)
  /\ (forall spec manifest, ov_kernel_mode overrides = None ->
        derive config parent overrides = Ok (spec, manifest) ->
        sp_kernel_mode spec = KernelMode_AuditedLite).
Proof.
  intros Hp Hc. split.
  - intros Ho. destruct (derive config parent overrides) as [[spec m]|] eqn:Hd; [|done].
    apply derive_Ok, dv_kernel_ok with (k := KernelMode_AuditedLite) in Hd; [|done].
    by rewrite Hp in Hd.
  - intros spec m Ho H%derive_Ok. by rewrite (dv_kernel _ _ _ _ _ H), Ho, Hc.
Qed.

(** The lineage of a nested [task] child lists its parent twice: the request's
    chain is nearest-first and starts with the parent, while derivation appends
    the parent unless it is last. *)
Lemma lineage_repeats_parent config rq kind spec manifest anc root :
  rq_parent_chain rq = rq_parent_agent_id rq :: anc -> last anc = Some root ->
  root <> rq_parent_agent_id rq ->
  derive config (parent_context_from_request rq) (overrides_from_request rq kind) = Ok (spec, manifest) ->
  lin_chain (sp_lineage spec) = rq_parent_agent_id rq :: anc ++ [rq_parent_agent_id rq].
Proof.
  intros Hc Hl Hr H%derive_Ok. rewrite (proj2 (dv_lineage _ _ _ _ _ H)).
  unfold parent_context_from_request. cbn [px_lineage px_agent_id]. rewrite Hc. cbn [is_nil lin_chain].
  rewrite bool_decide_eq_false_2; [done|].
  destruct anc as [|a anc]; [done|]. rewrite last_cons_cons. congruence.
Qed.

(** The kind filter keeps a held capability that is stronger than what the kind
    allows: a kind allowing one project's reads keeps write access to all. *)
Lemma narrow_permissions_exceeds_kind :
  let kind := {| sk_name := "reader"; sk_description := ""; sk_system_prompt := "";
                 sk_allowed_tools := []; sk_allowed_capabilities := [Capability_ReadProject "p"];
                 sk_readonly := true; sk_default_model := None; sk_budget := KindBudget_default |} in
  let parent := {| perm_scope := AgentScope_default;
                   perm_capabilities := [Capability_WriteAllProjects] |} in
  perm_capabilities (narrow_permissions parent kind) = [Capability_WriteAllProjects]
  /\ existsb (fun a => satisfies a Capability_WriteAllProjects) (sk_allowed_capabilities kind) = false.
Proof. split; reflexivity. Qed.

(** Every bundled kind is found under its name; a read-only one has no tool that
    changes files, and one with [run_command] keeps [InvokeProcess]. *)
Lemma bundled_kinds_consistent k :
  k ∈ reg_kinds bundled ->
  reg_get bundled (sk_name k) = Some k
  /\ (sk_readonly k = true ->
        forall t, t ∈ ["write_file"; "edit_file"; "delete_file"] -> ~ (t ∈ sk_allowed_tools k))
  /\ ("run_command" ∈ sk_allowed_tools k -> Capability_InvokeProcess ∈ sk_allowed_capabilities k).
Proof.
  intros Hk. repeat (apply elem_of_cons in Hk as [->|Hk]); [..|by apply elem_of_nil in Hk].
  all: split_and!; [reflexivity| |intros _; by apply (bool_decide_unpack _)].
  all: intros Hr t Ht Hin; try done.
  all: repeat (apply elem_of_cons in Ht as [->|Ht]); [..|by apply elem_of_nil in Ht].
  all: revert Hin; apply (bool_decide_unpack _); done.
Qed.

(** * Examples *)
Module SubagentExample.
Definition root_id : AgentId := arr_fill 32 "001"%byte.
Definition caller : TaskContext :=
  {| tc_caller_agent_id := Some root_id;
     tc_caller_permissions := Some Permissions_full_access;
     tc_caller_tool_permissions := None;
     tc_user_tool_defaults := utd_full_access;
     tc_parent_chain := [];
     tc_originating_user_id := Some "user";
     tc_caller_mode := None; tc_caller_kernel_mode := None;
     tc_caller_model_id := Some "model"; tc_current_tool_use_id := Some "use-1" |}.
Definition call : TaskInput :=
  {| ti_subagent_type := "general_purpose"; ti_prompt := "look"; ti_model_override := None;
     ti_system_prompt_addendum := None; ti_mode := Some AgentMode_Plan;
     ti_permissions := Some {| perm_scope := AgentScope_default;
                               perm_capabilities := [Capability_SpawnAgent; Capability_ReadAgent] |};
     ti_model := None; ti_budget := None; ti_isolation := None; ti_tool_subset := None;
     ti_tool_call_id := None; ti_spawn_mode := None |}.
Definition request : option SubagentDispatchRequest :=
  match build_request caller call with Ok rq => Some rq | Err _ => None end.

(** The caller at the root passes two levels of depth to its child. *)
Lemma task_child_confined_witness :
  exists rq spec m,
    build_request caller call = Ok rq
    /\ derive default_for_phase_6a (parent_context_from_request rq)
         (overrides_from_request rq general_purpose) = Ok (spec, m)
    /\ sp_depth spec = 2%Z
    /\ perm_capabilities (sp_permissions spec) = [Capability_SpawnAgent; Capability_ReadAgent]
    /\ exists perms parent, tc_caller_permissions caller = Some perms
         /\ tc_caller_agent_id caller = Some parent
         /\ Capability_ReadAgent ∈ perm_capabilities perms.
Proof.
  eexists _, _, _. split; [reflexivity|]. split; [reflexivity|].
  split; [reflexivity|]. split; [reflexivity|].
  destruct (task_child_confined default_for_phase_6a caller call _ general_purpose _ _ eq_refl eq_refl)
    as (perms & parent & Hp & Hi & Hc & _).
  exists perms, parent. split; [done|]. split; [done|].
  refine (proj1 (Hc Capability_ReadAgent _)). right. left.
Defined.

Definition parent_ctx : ParentContext :=
  {| px_agent_id := root_id; px_depth := 0; px_mode := AgentMode_Agent;
     px_mode_profile := default_profile AgentMode_Agent;
     px_permissions := Permissions_full_access; px_model_id := "model";
     px_lineage := from_root root_id |}.
Definition no_overrides : SubagentOverrides :=
  {| ov_mode := Some AgentMode_Ask; ov_permissions := None; ov_kernel_mode := None;
     ov_model_id := None; ov_reasoning_effort := None; ov_response_max_tokens := None;
     ov_kind := None; ov_spawn_mode := None; ov_replay_mode := None; ov_budget := None;
     ov_tool_subset := None; ov_isolation_id := None; ov_subagent_type := None;
     ov_system_prompt_addendum := None; ov_parent_tool_permissions := None;
     ov_user_tool_defaults := None |}.

Lemma derived_child_confined_witness :
  exists spec m, derive default_for_phase_6a parent_ctx no_overrides = Ok (spec, m)
    /\ sp_depth spec = 1%Z /\ sp_mode spec = AgentMode_Ask
    /\ om_applied m = [OverriddenField_Mode AgentMode_Agent AgentMode_Ask]
    /\ mode_covers AgentMode_Agent (sp_mode spec).
Proof.
  eexists _, _. split; [reflexivity|]. split; [reflexivity|]. split; [reflexivity|].
  split; [reflexivity|].
  apply (derived_child_confined default_for_phase_6a parent_ctx no_overrides _ _ eq_refl eq_refl).
Defined.

Lemma derive_downgrades_by_default_witness :
  exists spec m, derive default_for_phase_6a parent_ctx no_overrides = Ok (spec, m)
    /\ px_kernel_mode parent_ctx = KernelMode_Audited
    /\ sp_kernel_mode spec = KernelMode_AuditedLite.
Proof.
  eexists _, _. split; [reflexivity|]. split; [reflexivity|].
  refine (proj2 (derive_downgrades_by_default default_for_phase_6a parent_ctx no_overrides
    eq_refl eq_refl) _ _ eq_refl _). reflexivity.
Defined.
End SubagentExample.
