(* ===== verification/Billing.v ===== *)
(** Attribution of an agent's work to its ancestors
    ([aura-agent-kernel/src/billing.rs]).

    [walk_parent_chain] is an unbounded loop in the source; here it takes fuel
    and answers [None] when the fuel runs out.  [walk_parent_chain_terminates]
    shows that it always returns: agent ids are finitely many, so with enough
    fuel the answer is always the same chain, whatever parents the records name,
    cycles included. *)
From S2P Require Import Prelude Values Permissions CoreTypes Keys StoreSpec.
From stdpp Require Import list finite.
From Stdlib Require Import Strings.Byte.

(** * Finitely many agent ids *)
#[export] Program Instance byte_finite : Finite byte :=
  {| enum := byte_of_Z ∘ Z.of_nat <$> seq 0 256 |}.
Next Obligation. apply (bool_decide_unpack _). by vm_compute. Qed.
Next Obligation.
  intros b. apply list_elem_of_fmap. exists (Z.to_nat (byte_to_Z b)).
  pose proof (byte_to_Z_range b). split.
  - cbn. by rewrite Z2Nat.id, byte_of_to_Z by lia.
  - apply elem_of_seq. lia.
Qed.

Definition arr_of_sig {n} (l : { l : bytes | length l = n }) : arr n :=
  Arr (proj1_sig l) (bool_decide_pack _ (proj2_sig l)).
#[export] Instance arr_of_sig_surj n : Surj (=) (@arr_of_sig n).
Proof.
  intros a. exists (exist _ (arr_bytes a) (arr_length a)). by apply arr_eq.
Qed.
#[export] Instance arr_finite n : Finite (arr n) := surjective_finite arr_of_sig.

Lemma NoDup_length_card `{Finite A} (l : list A) : NoDup l -> length l <= card A.
Proof. intros Hl. apply submseteq_length, NoDup_submseteq; [done|]. intros x _. apply elem_of_enum. Qed.

(** * The walk *)
Definition LATEST_PARENT_LOOKBACK_LIMIT : Z := 10000.

Section Billing.
Context `{Store ST} `{!Serde ToolExecution}.

Fixpoint parent_from_effects (effects : list Effect) : option AgentId :=
  match effects with
  | [] => None
  | effect :: rest =>
      match from_slice (effect_payload effect) : result serde_error ToolExecution with
      | Ok exec => Some (te_parent_agent_id exec)
      | Err _ => parent_from_effects rest
      end
  end.
Definition parent_from_entry (entry : RecordEntry) : option AgentId :=
  parent_from_effects (re_effects entry).

(** [for entry in &entries { if let Some(parent) = .. { return Some(parent) } }]. *)
Fixpoint first_parent (entries : list RecordEntry) : option AgentId :=
  match entries with
  | [] => None
  | entry :: rest =>
      match parent_from_entry entry with Some p => Some p | None => first_parent rest end
  end.

Definition latest_parent (agent_id : AgentId) (store : ST) : option AgentId :=
  match st_get_head_seq store agent_id with
  | Err _ => None
  | Ok head =>
      if bool_decide (head = 0)%Z then None
      else
        match st_scan_record_descending store agent_id head LATEST_PARENT_LOOKBACK_LIMIT with
        | Err _ => None
        | Ok entries => first_parent entries
        end
  end.

(** One round of the loop per unit of fuel. *)
Fixpoint walk_loop (fuel : nat) (store : ST) (seen : gset AgentId) (cursor : AgentId)
    (chain : list AgentId) : option (list AgentId) :=
  match fuel with
  | O => None
  | S fuel =>
      if bool_decide (cursor ∈ seen) then Some chain
      else
        let chain := chain ++ [cursor] in
        match latest_parent cursor store with
        | Some parent => walk_loop fuel store ({[cursor]} ∪ seen) parent chain
        | None => Some chain
        end
  end.
Definition walk_parent_chain (fuel : nat) (agent_id : AgentId) (store : ST) : option (list AgentId) :=
  walk_loop fuel store ∅ agent_id [].

(** Each agent of the chain is the latest parent of the one before it, and the
    chain stops at an agent without a parent or whose parent is already in it. *)
Fixpoint parent_linked (store : ST) (chain : list AgentId) : Prop :=
  match chain with
  | a :: ((b :: _) as rest) => latest_parent a store = Some b /\ parent_linked store rest
  | _ => True
  end.
Definition chain_closed (store : ST) (chain : list AgentId) : Prop :=
  exists last_agent, last chain = Some last_agent
    /\ forall p, latest_parent last_agent store = Some p -> p ∈ chain.

Lemma parent_linked_snoc store chain a b :
  parent_linked store chain -> last chain = Some a -> latest_parent a store = Some b ->
  parent_linked store (chain ++ [b]).
Proof.
  induction chain as [|x [|y chain] IH]; [done| |].
  - intros _ [= ->] Hab. done.
  - intros [Hxy Hl] Hlast Hab. split; [done|]. by apply IH.
Qed.

(** The loop invariant: what was seen is the chain, without repetition, linked,
    and the cursor is its next agent. *)
Record walk_inv (store : ST) (start : AgentId) (seen : gset AgentId) (cursor : AgentId)
    (chain : list AgentId) : Prop := {
  wi_seen a : a ∈ seen <-> a ∈ chain;
  wi_nodup : NoDup chain;
  wi_linked : parent_linked store chain;
  wi_start : head (chain ++ [cursor]) = Some start;
  wi_cursor : forall a, last chain = Some a -> latest_parent a store = Some cursor;
}.

Lemma walk_inv_step store start seen cursor chain parent :
  walk_inv store start seen cursor chain -> ~ (cursor ∈ seen) ->
  latest_parent cursor store = Some parent ->
  walk_inv store start ({[cursor]} ∪ seen) parent (chain ++ [cursor]).
Proof.
  intros [Hs Hn Hl Hst Hc] Hnew Hp. constructor.
  - intros a. rewrite elem_of_union, elem_of_singleton, elem_of_app, list_elem_of_singleton, Hs.
    naive_solver.
  - apply list.NoDup_app. split_and!; [done| |apply NoDup_singleton].
    intros x Hx ->%list_elem_of_singleton. by apply Hnew, Hs.
  - destruct (last chain) as [a|] eqn:Hlast.
    + by eapply parent_linked_snoc; [| |apply Hc].
    + apply last_None in Hlast. by subst chain.
  - rewrite <-app_assoc. destruct chain; done.
  - intros a. rewrite last_snoc. naive_solver.
Qed.

Lemma walk_loop_spec store start fuel seen cursor chain out :
  walk_inv store start seen cursor chain ->
  walk_loop fuel store seen cursor chain = Some out ->
  NoDup out /\ head out = Some start /\ parent_linked store out /\ chain_closed store out.
Proof.
  revert seen cursor chain. induction fuel as [|fuel IH]; [done|].
  intros seen cursor chain Hinv. cbn [walk_loop]. case_bool_decide as Hseen.
  - intros [= <-]. destruct Hinv as [Hs Hn Hl Hst Hc]. apply Hs in Hseen.
    destruct (last chain) as [a|] eqn:Hlast; [|apply last_None in Hlast; subst; by apply elem_of_nil in Hseen].
    split_and!; [done|by destruct chain|done|]. exists a. split; [done|].
    intros p Hp. rewrite (Hc a eq_refl) in Hp. congruence.
  - destruct (latest_parent cursor store) as [parent|] eqn:Hp.
    + apply IH. by apply walk_inv_step.
    + intros [= <-]. destruct Hinv as [Hs Hn Hl Hst Hc]. split_and!.
      * apply list.NoDup_app. split_and!; [done| |apply NoDup_singleton].
        intros x Hx ->%list_elem_of_singleton. by apply Hseen, Hs.
      * done.
      * destruct (last chain) as [a|] eqn:Hlast.
        -- by eapply parent_linked_snoc; [| |apply Hc].
        -- apply last_None in Hlast. by subst chain.
      * exists cursor. rewrite last_snoc. split; [done|]. intros p Hp'. congruence.
Qed.

Lemma walk_loop_fuel store (bound : nat) fuel seen cursor chain :
  (forall l : list AgentId, NoDup l -> length l <= bound) ->
  NoDup chain -> (forall a, a ∈ seen <-> a ∈ chain) -> bound < fuel + length chain ->
  is_Some (walk_loop fuel store seen cursor chain).
Proof.
  intros Hb. revert seen cursor chain.
  induction fuel as [|fuel IH]; intros seen cursor chain Hn Hs Hf.
  { apply Hb in Hn. lia. }
  cbn [walk_loop]. case_bool_decide as Hseen; [done|].
  destruct (latest_parent cursor store) as [parent|]; [|done].
  apply IH.
  - apply list.NoDup_app. split_and!; [done| |apply NoDup_singleton].
    intros x Hx ->%list_elem_of_singleton. by apply Hseen, Hs.
  - intros a. rewrite elem_of_union, elem_of_singleton, elem_of_app, list_elem_of_singleton, Hs.
    naive_solver.
  - rewrite length_app. cbn. lia.
Qed.

Lemma walk_loop_mono store fuel fuel' seen cursor chain out :
  fuel <= fuel' -> walk_loop fuel store seen cursor chain = Some out ->
  walk_loop fuel' store seen cursor chain = Some out.
Proof.
  revert fuel' seen cursor chain. induction fuel as [|fuel IH]; [done|].
  intros [|fuel'] seen cursor chain Hf; [lia|]. cbn [walk_loop].
  case_bool_decide; [done|]. destruct (latest_parent cursor store); [|done]. apply IH. lia.
Qed.

(** The walk up the parent chain terminates on every store and from every
    agent, however the recorded parents are arranged: some amount of fuel gives
    a chain, and any larger amount gives the same one.  The chain starts with
    the agent, each next agent is the latest recorded parent of the one before,
    no agent occurs twice, and it ends at an agent with no parent or whose
    parent is already in the chain. *)
Theorem walk_parent_chain_terminates store agent_id :
  exists bound chain,
    (forall fuel, bound <= fuel -> walk_parent_chain fuel agent_id store = Some chain)
    /\ NoDup chain /\ head chain = Some agent_id
    /\ parent_linked store chain /\ chain_closed store chain.
Proof.
  assert (exists bound, forall l : list AgentId, NoDup l -> length l <= bound) as [bound Hb]
    by (exists (card AgentId); apply NoDup_length_card).
  assert (walk_inv store agent_id ∅ agent_id []) as Hinv.
  { constructor; try done; [|apply NoDup_nil_2]. intros a. by rewrite elem_of_empty, elem_of_nil. }
  destruct (walk_loop_fuel store bound (S bound) ∅ agent_id []) as [chain Hchain];
    [done|apply Hinv|apply Hinv|simpl; lia|].
  exists (S bound), chain. split.
  - intros fuel Hf. by eapply walk_loop_mono.
  - by eapply walk_loop_spec.
Qed.

(** An entry without effects names no parent. *)
Lemma parent_from_entry_no_effects entry : re_effects entry = [] -> parent_from_entry entry = None.
Proof. intros He. unfold parent_from_entry. by rewrite He. Qed.

(** A log none of whose entries names a parent leaves the agent alone in its
    chain. *)
Lemma walk_parent_chain_root store agent_id fuel :
  latest_parent agent_id store = None ->
  walk_parent_chain (S fuel) agent_id store = Some [agent_id].
Proof. intros Hp. unfold walk_parent_chain. cbn. by rewrite Hp. Qed.

Lemma first_parent_None entries :
  (forall e, e ∈ entries -> parent_from_entry e = None) -> first_parent entries = None.
Proof.
  induction entries as [|e entries IH]; [done|]. intros He. cbn.
  rewrite He by left. apply IH. intros e' Hin. apply He. by right.
Qed.
End Billing.
