(* ===== verification/SpawnHook.v ===== *)
(** Spawning a child on record ([aura-agent-kernel/src/spawn_hook.rs], with the
    trait's data in [aura-exec-traits/src/spawn_hook.rs] and [Identity] of
    [aura-core-types/src/types/identity.rs]).

    [KernelSpawnHook::spawn_child] writes the child's identity as the next entry
    of the child's log and a delegation marker as the next entry of the parent's.
    The clock and the generated identifier are arguments.  The theorems show what
    a spawn leaves in both logs, that a child's listed tools never exceed the
    parent's, and where the record falls short: the entries are hashed over an
    empty window, the two appends are not atomic, and the billing walk does not
    find the parent they name. *)
From S2P Require Import Prelude Values Modes Permissions CoreTypes Keys StoreSpec ViewStore Context Billing.
From stdpp Require Import list sorting.
From Stdlib Require Import Strings.Byte.

(** * Identity ([identity.rs]) *)
Record Identity := {
  id_agent_id : AgentId;
  id_zns_id : string;
  id_name : string;
  id_identity_hash : arr 32;
  id_permissions : Permissions;
  id_tool_permissions : option AgentToolPermissions;
}.
Definition Identity_new `{Blake3} (zns_id name : string) : Identity :=
  let identity_hash := blake3_hash (string_to_bytes zns_id) in
  {| id_agent_id := identity_hash; id_zns_id := zns_id; id_name := name;
     id_identity_hash := identity_hash; id_permissions := Permissions_full_access;
     id_tool_permissions := None |}.
Definition id_with_permissions (i : Identity) (p : Permissions) : Identity :=
  {| id_agent_id := id_agent_id i; id_zns_id := id_zns_id i; id_name := id_name i;
     id_identity_hash := id_identity_hash i; id_permissions := p;
     id_tool_permissions := id_tool_permissions i |}.
Definition id_with_tool_permissions (i : Identity) (p : option AgentToolPermissions) : Identity :=
  {| id_agent_id := id_agent_id i; id_zns_id := id_zns_id i; id_name := id_name i;
     id_identity_hash := id_identity_hash i; id_permissions := id_permissions i;
     id_tool_permissions := p |}.
Definition id_with_agent_id (i : Identity) (a : AgentId) : Identity :=
  {| id_agent_id := a; id_zns_id := id_zns_id i; id_name := id_name i;
     id_identity_hash := id_identity_hash i; id_permissions := id_permissions i;
     id_tool_permissions := id_tool_permissions i |}.

(** * The trait's data ([aura-exec-traits]) *)
Record ChildAgentSpec := {
  ca_name : string;
  ca_role : string;
  ca_permissions : Permissions;
  ca_tool_permissions : option AgentToolPermissions;
  ca_parent_tool_permissions : option AgentToolPermissions;
  ca_system_prompt_override : option string;
  ca_preassigned_agent_id : option AgentId;
  ca_initial_prompt : option string;
}.
Record SpawnOutcome := {
  so_child_agent_id : AgentId;
  so_external_agent_id : option string;
  so_delegate_tx_hash : Hash;
}.
Inductive SpawnError :=
| SpawnError_Store (message : string)
| SpawnError_Serialization (message : string)
| SpawnError_Other (message : string).

(** [NoopSpawnHook::spawn_child]; [Hash::default()] is all zero. *)
Definition noop_spawn_child (generated : AgentId) (child : ChildAgentSpec) : result SpawnError SpawnOutcome :=
  Ok {| so_child_agent_id := default generated (ca_preassigned_agent_id child);
        so_external_agent_id := None; so_delegate_tx_hash := arr_fill 32 "000"%byte |}.

(** * Payloads *)
Record ChildIdentityPayload := {
  ci_identity : Identity;
  ci_role : string;
  ci_system_prompt_override : option string;
  ci_parent_agent_id : option AgentId;
  ci_originating_user_id : option string;
}.
Record DelegateSpawnPayload := {
  dp_kind : string;
  dp_parent_agent_id : AgentId;
  dp_child_agent_id : AgentId;
  dp_name : string;
  dp_role : string;
  dp_permissions : Permissions;
  dp_tool_permissions : option AgentToolPermissions;
  dp_originating_user_id : option string;
}.

(** * Tool subset *)
Definition state_label (state : ToolState) : string :=
  match state with ToolState_Allow => "on" | ToolState_Deny => "off" | ToolState_Ask => "ask" end.

(** A [BTreeMap<String, _>] iterates in the byte order of its keys. *)
Definition string_le (a b : string) : Prop := String.leb a b = true.
#[export] Instance string_le_dec : RelDecision string_le.
Proof. intros a b. unfold string_le. apply _. Defined.
Definition entry_le (p q : string * ToolState) : Prop := string_le p.1 q.1.
#[export] Instance entry_le_dec : RelDecision entry_le.
Proof. intros p q. unfold entry_le. apply _. Defined.
Definition btree_entries (m : gmap string ToolState) : list (string * ToolState) :=
  merge_sort entry_le (map_to_list m).

Fixpoint enforce_entries (user_default : UserToolDefaults) (parent : option AgentToolPermissions)
    (entries : list (string * ToolState)) : result SpawnError unit :=
  match entries with
  | [] => Ok tt
  | (tool, child_state) :: rest =>
      let parent_state := resolve_effective_permission user_default parent tool in
      if negb (is_subset_of child_state parent_state)
      then Err (SpawnError_Other
                  ("tool permissions: requested '" +++ tool +++ "'=" +++ state_label child_state
                   +++ " exceeds parent effective " +++ state_label parent_state))
      else enforce_entries user_default parent rest
  end.
Definition enforce_tool_subset (user_default : UserToolDefaults) (parent child : option AgentToolPermissions)
  : result SpawnError unit :=
  match child with
  | None => Ok tt
  | Some child => enforce_entries user_default parent (btree_entries (atp_per_tool child))
  end.

(** [serde_json::from_value::<Identity>(v).ok()]. *)
Class IdentityFromValue := identity_from_value : json -> option Identity.

Section Spawn.
Context `{Store ST} `{Blake3} `{Hex} `{ModelTypes}.
Context `{!Serde Transaction, !Serde ChildIdentityPayload, !Serde DelegateSpawnPayload, !Serde json}.
Context `{!IdentityFromValue}.

Definition identity_from_payload (payload : bytes) : option Identity :=
  match from_slice payload : result serde_error json with
  | Err _ => None
  | Ok value => identity ← json_get "identity" value; identity_from_value identity
  end.

Fixpoint find_identity (entries : list RecordEntry) : option Identity :=
  match entries with
  | [] => None
  | e :: rest =>
      match identity_from_payload (tx_payload (re_tx e)) with
      | Some i => Some i | None => find_identity rest
      end
  end.

Definition latest_identity (store : ST) (agent_id : AgentId) : option Identity :=
  match st_get_head_seq store agent_id with
  | Err _ => None
  | Ok head =>
      let from_seq := Z.min u64_max (saturating_sub head 256 + 1) in
      match st_scan_record store agent_id from_seq 256 with
      | Err _ => None
      | Ok entries => find_identity (rev entries)
      end
  end.

(** The two payloads of a spawn. *)
Definition child_payload (parent : AgentId) (user : option string) (child_id : AgentId)
    (child : ChildAgentSpec) : ChildIdentityPayload :=
  let zns_id := "0://spawn/" +++ id_to_hex child_id in
  let identity := id_with_agent_id (Identity_new zns_id (ca_name child)) child_id in
  let identity := id_with_permissions identity (ca_permissions child) in
  let identity := id_with_tool_permissions identity (ca_tool_permissions child) in
  {| ci_identity := identity; ci_role := ca_role child;
     ci_system_prompt_override := ca_system_prompt_override child;
     ci_parent_agent_id := Some parent; ci_originating_user_id := user |}.
Definition delegate_payload (parent : AgentId) (user : option string) (child_id : AgentId)
    (child : ChildAgentSpec) : DelegateSpawnPayload :=
  {| dp_kind := "spawn_agent"; dp_parent_agent_id := parent; dp_child_agent_id := child_id;
     dp_name := ca_name child; dp_role := ca_role child; dp_permissions := ca_permissions child;
     dp_tool_permissions := ca_tool_permissions child; dp_originating_user_id := user |}.

Definition spawn_user_default (store : ST) (user : option string) : result SpawnError UserToolDefaults :=
  match user with
  | Some user_id =>
      d ← map_err (fun e => SpawnError_Store ("get_user_tool_defaults: " +++ StoreError_display e))
            (st_get_user_tool_defaults store user_id);
      Ok (default utd_full_access d)
  | None => Ok utd_full_access
  end.
Definition spawn_parent_tools (store : ST) (parent : AgentId) (child : ChildAgentSpec)
  : option AgentToolPermissions :=
  match ca_parent_tool_permissions child with
  | Some p => Some p
  | None => latest_identity store parent ≫= id_tool_permissions
  end.

(** Append a system entry hashed over the empty window at the head of a log;
    [who] names the log in the error messages. *)
Definition append_system (who : string) (agent : AgentId) (tx : Transaction) : stm ST SpawnError unit :=
  head ← reads (fun s => map_err (fun e => SpawnError_Store
                  ("get_head_seq(" +++ who +++ "): " +++ StoreError_display e)) (st_get_head_seq s agent));
  let seq := u64_add head 1 in
  ctx_hash ← lift (map_err (fun e => SpawnError_Other
                  ("context hash(" +++ who +++ "): " +++ KernelError_display e))
                  (hash_tx_with_window tx []));
  let entry := build (with_context_hash (builder seq tx) ctx_hash) in
  stm_map_err (fun e => SpawnError_Store ("append_entry_direct(" +++ who +++ "): " +++ StoreError_display e))
    (st_append_entry_direct agent seq entry).

(** [KernelSpawnHook::spawn_child]: [now1] and [now2] are the clock at the two
    transactions, [generated] the identifier drawn when none is assigned. *)
Definition spawn_child (now1 now2 : Z) (generated parent : AgentId) (user : option string)
    (child : ChildAgentSpec) : stm ST SpawnError SpawnOutcome :=
  let child_id := default generated (ca_preassigned_agent_id child) in
  user_default ← reads (fun s => spawn_user_default s user);
  parent_tools ← gets (fun s => spawn_parent_tools s parent child);
  _ ← lift (enforce_tool_subset user_default parent_tools (ca_tool_permissions child));
  identity_bytes ← lift (map_err (fun e => SpawnError_Serialization ("child identity: " +++ e))
                           (to_vec (child_payload parent user child_id child)));
  _ ← append_system "child" child_id
        (new_chained now1 child_id TransactionType_System identity_bytes None);
  delegate_bytes ← lift (map_err (fun e => SpawnError_Serialization ("delegate payload: " +++ e))
                           (to_vec (delegate_payload parent user child_id child)));
  let delegate_tx := new_chained now2 parent TransactionType_System delegate_bytes None in
  _ ← append_system "parent" parent delegate_tx;
  mret {| so_child_agent_id := child_id; so_external_agent_id := None;
          so_delegate_tx_hash := tx_hash delegate_tx |}.
End Spawn.

(** * Tool confinement *)
Lemma elem_of_btree_entries m t s : (t, s) ∈ btree_entries m <-> m !! t = Some s.
Proof.
  unfold btree_entries. rewrite (merge_sort_Permutation entry_le). apply elem_of_map_to_list.
Qed.

Lemma enforce_entries_Ok user parent entries :
  enforce_entries user parent entries = Ok tt <->
  forall t s, (t, s) ∈ entries ->
    is_subset_of s (resolve_effective_permission user parent t) = true.
Proof.
  induction entries as [|[t s] entries IH]; cbn.
  - split; [|done]. intros _ t s Hin. by apply elem_of_nil in Hin.
  - destruct (is_subset_of s _) eqn:Hs; cbn.
    + rewrite IH. split.
      * intros Ha t' s' [[= -> ->]|Hin]%elem_of_cons; [done|by apply Ha].
      * intros Ha t' s' Hin. apply Ha. by right.
    + split; [done|]. intros Ha. specialize (Ha t s ltac:(by left)). congruence.
Qed.

(** The spawn-time tool check accepts a child exactly when every tool the
    child lists is at most what the parent's effective policy gives that tool
    (off below ask below on).  Tools the child does not list are not compared:
    they fall through to the user default, so a child that lists nothing is
    accepted under any parent. *)
Theorem enforce_tool_subset_iff user parent child :
  enforce_tool_subset user parent child = Ok tt <->
  forall perms tool state, child = Some perms -> atp_per_tool perms !! tool = Some state ->
    (rank state <= rank (resolve_effective_permission user parent tool))%Z.
Proof.
  unfold enforce_tool_subset. destruct child as [child|]; [|naive_solver].
  rewrite enforce_entries_Ok. setoid_rewrite elem_of_btree_entries.
  unfold is_subset_of. setoid_rewrite bool_decide_eq_true. naive_solver.
Qed.

(** A parent's denial does not bind a child that leaves the tool out: for
    every tool, a parent that denies it may spawn (with the full-access default)
    a child for which the same tool resolves to allowed. *)
Theorem unlisted_tool_escapes_denial tool :
  let parent := Some (atp_with atp_new tool ToolState_Deny) in
  resolve_effective_permission utd_full_access parent tool = ToolState_Deny
  /\ enforce_tool_subset utd_full_access parent (Some atp_new) = Ok tt
  /\ resolve_effective_permission utd_full_access (Some atp_new) tool = ToolState_Allow.
Proof.
  cbn zeta. split; [|split].
  - apply resolve_with_override. apply lookup_insert_eq.
  - reflexivity.
  - unfold resolve_effective_permission, resolve_effective_permission_with_source. cbn.
    by rewrite lookup_empty.
Qed.

(** * What a spawn leaves on record *)
Section SpawnSpec.
Context `{StoreSpec ST} `{Blake3} `{Hex} `{ModelTypes}.
Context `{!Serde Transaction, !Serde ChildIdentityPayload, !Serde DelegateSpawnPayload, !Serde json}.
Context `{!IdentityFromValue}.

(** The entry a spawn appends for a transaction at the head of a log. *)
Definition system_entry (log : list RecordEntry) (tx : Transaction) (e : RecordEntry) : Prop :=
  re_seq e = (Z.of_nat (length log) + 1)%Z /\ re_tx e = tx /\ re_effects e = []
  /\ hash_tx_with_window tx [] = Ok (re_context_hash e).

Lemma append_system_spec who a tx s r s' v :
  append_system who a tx s = (r, s') -> abstracts s a v -> log_room v 1 ->
  (forall b w, b <> a -> abstracts s b w -> abstracts s' b w)
  /\ match r with
     | Ok _ => exists e, system_entry (av_log v) tx e /\ abstracts s' a (view_append v [e] None false)
     | Err _ => abstracts s' a v
     end.
Proof.
  intros Ha Hv Hroom. unfold append_system, reads, lift, mbind, stm_bind in Ha.
  destruct (st_get_head_seq s a) as [n|e] eqn:Hn; cbn in Ha.
  2: { injection Ha as <- <-. split; [done|]. done. }
  apply (spec_head_seq s a v) in Hn as ->; [|done].
  rewrite u64_add_small in Ha by (unfold is_u64; unfold log_room, u64_max in Hroom; lia).
  destruct (hash_tx_with_window tx []) as [h|e] eqn:Hh; cbn in Ha.
  2: { injection Ha as <- <-. split; [done|]. done. }
  unfold stm_map_err, st_append_entry_direct in Ha.
  destruct (st_append_entry_direct_with_runtime_capabilities _ _ _ _ _ s) as [r1 s1] eqn:Hs.
  injection Ha as <- <-. apply spec_append_direct in Hs as [_ Hs]. split.
  - intros b w Hb Hw. specialize (Hs b w Hw). by rewrite bool_decide_eq_false_2 in Hs by naive_solver.
  - specialize (Hs a v Hv). destruct r1 as [[]|e]; cbn.
    + rewrite bool_decide_eq_true_2 in Hs by done. destruct Hs as [_ Hs].
      eexists. split; [|by apply Hs]. done.
    + by rewrite bool_decide_eq_false_2 in Hs by naive_solver.
Qed.

Lemma append_system_frame who a tx s r s' b w :
  append_system who a tx s = (r, s') -> b <> a -> abstracts s b w -> abstracts s' b w.
Proof.
  intros Ha Hb Hw. unfold append_system, reads, lift, mbind, stm_bind in Ha.
  destruct (st_get_head_seq s a) as [n|e]; cbn in Ha; [|by injection Ha as <- <-].
  destruct (hash_tx_with_window tx []) as [h|e]; cbn in Ha; [|by injection Ha as <- <-].
  unfold stm_map_err, st_append_entry_direct in Ha.
  destruct (st_append_entry_direct_with_runtime_capabilities _ _ _ _ _ s) as [r1 s1] eqn:Hs.
  injection Ha as <- <-. apply spec_append_direct in Hs as [_ Hs].
  specialize (Hs b w Hw). by rewrite bool_decide_eq_false_2 in Hs by naive_solver.
Qed.

(** The steps of a spawn: it fails before touching the store, or appends to the
    child and then to the parent. *)
Lemma spawn_child_inv now1 now2 generated parent user child s r s' :
  spawn_child now1 now2 generated parent user child s = (r, s') ->
  let child_id := default generated (ca_preassigned_agent_id child) in
  (exists e, r = Err e /\ s' = s)
  \/ exists user_default bytes1 s1 r1,
      spawn_user_default s user = Ok user_default
      /\ enforce_tool_subset user_default (spawn_parent_tools s parent child) (ca_tool_permissions child) = Ok tt
      /\ to_vec (child_payload parent user child_id child) = Ok bytes1
      /\ append_system "child" child_id (new_chained now1 child_id TransactionType_System bytes1 None) s = (r1, s1)
      /\ match r1 with
         | Err e => r = Err e /\ s' = s1
         | Ok _ =>
             (exists e, to_vec (delegate_payload parent user child_id child) = Err e
                /\ is_ok r = false /\ s' = s1)
             \/ exists bytes2 r2,
                to_vec (delegate_payload parent user child_id child) = Ok bytes2
                /\ append_system "parent" parent
                     (new_chained now2 parent TransactionType_System bytes2 None) s1 = (r2, s')
                /\ match r2 with
                   | Err e => r = Err e
                   | Ok _ => exists out, r = Ok out /\ so_child_agent_id out = child_id
                   end
         end.
Proof.
  intros Hs child_id. subst child_id. unfold spawn_child, reads, gets, lift, mbind, stm_bind in Hs.
  destruct (spawn_user_default s user) as [ud|e] eqn:Hu; cbn in Hs; [|injection Hs as <- <-; eauto].
  destruct (enforce_tool_subset ud _ _) as [[]|e] eqn:He; cbn in Hs; [|injection Hs as <- <-; eauto].
  destruct (to_vec (child_payload _ _ _ _)) as [b1|e] eqn:Hb1; cbn in Hs; [|injection Hs as <- <-; eauto].
  destruct (append_system "child" _ _ s) as [r1 s1] eqn:Happ1. right. exists ud, b1, s1, r1.
  split_and!; try done. destruct r1 as [[]|e]; [|by injection Hs as <- <-].
  destruct (to_vec (delegate_payload _ _ _ _)) as [b2|e] eqn:Hb2; cbn in Hs.
  2: { left. injection Hs as <- <-. eauto. }
  right. destruct (append_system "parent" _ _ s1) as [r2 s2] eqn:Happ2. exists b2, r2.
  destruct r2 as [[]|e]; injection Hs as <- <-; split_and!; eauto.
Qed.

Lemma spawn_child_steps now1 now2 generated parent user child s out s' vp vc :
  spawn_child now1 now2 generated parent user child s = (Ok out, s') ->
  let child_id := so_child_agent_id out in
  child_id <> parent ->
  abstracts s parent vp -> abstracts s child_id vc -> log_room vp 1 -> log_room vc 1 ->
  child_id = default generated (ca_preassigned_agent_id child)
  /\ (exists e b, abstracts s' child_id (view_append vc [e] None false)
        /\ to_vec (child_payload parent user child_id child) = Ok b
        /\ system_entry (av_log vc) (new_chained now1 child_id TransactionType_System b None) e)
  /\ (exists e b, abstracts s' parent (view_append vp [e] None false)
        /\ to_vec (delegate_payload parent user child_id child) = Ok b
        /\ system_entry (av_log vp) (new_chained now2 parent TransactionType_System b None) e)
  /\ (forall b v, b <> child_id -> b <> parent -> abstracts s b v -> abstracts s' b v).
Proof.
  intros Hs child_id Hne Hp Hc Rp Rc.
  apply spawn_child_inv in Hs as [(e & [=] & _)|(ud & b1 & s1 & r1 & Hu & He & Hb1 & Happ1 & Hr)].
  destruct r1 as [[]|e]; [|by destruct Hr].
  destruct Hr as [(e & _ & Hf & _)|(b2 & r2 & Hb2 & Happ2 & Hr2)]; [done|].
  destruct r2 as [[]|e]; [|done]. destruct Hr2 as (o & [= <-] & Ho).
  fold child_id in Ho. rewrite <-Ho in Hb1, Happ1, Hb2.
  destruct (append_system_spec _ _ _ _ _ _ vc Happ1 Hc Rc) as [F1 (e1 & He1 & A1)].
  assert (abstracts s1 parent vp) as Hp1 by (by apply F1; [|]).
  destruct (append_system_spec _ _ _ _ _ _ vp Happ2 Hp1 Rp) as [F2 (e2 & He2 & A2)].
  split; [done|]. split; [|split].
  - exists e1, b1. split_and!; [by apply F2|done|apply He1..].
  - exists e2, b2. split_and!; [done|done|apply He2..].
  - intros b v Hb Hb' Hv. apply F2; [done|]. by apply F1.
Qed.

(** A successful spawn of a child other than its parent leaves exactly one
    new entry in each of the two logs and nothing anywhere else.  The child's
    entry carries its identity (its own id, the granted permissions and tool
    permissions, its parent and the originating user); the parent's entry
    carries the delegation to that child. *)
Theorem spawn_child_recorded now1 now2 generated parent user child s out s' vp vc :
  spawn_child now1 now2 generated parent user child s = (Ok out, s') ->
  let child_id := so_child_agent_id out in
  child_id <> parent ->
  abstracts s parent vp -> abstracts s child_id vc -> log_room vp 1 -> log_room vc 1 ->
  child_id = default generated (ca_preassigned_agent_id child)
  /\ (exists e b, abstracts s' child_id (view_append vc [e] None false)
        /\ to_vec (child_payload parent user child_id child) = Ok b
        /\ system_entry (av_log vc) (new_chained now1 child_id TransactionType_System b None) e)
  /\ (exists e b, abstracts s' parent (view_append vp [e] None false)
        /\ to_vec (delegate_payload parent user child_id child) = Ok b
        /\ system_entry (av_log vp) (new_chained now2 parent TransactionType_System b None) e)
  /\ (forall b v, b <> child_id -> b <> parent -> abstracts s b v -> abstracts s' b v).
Proof. apply spawn_child_steps. Qed.

(** A failed spawn never writes to its parent's log, nor to any agent but
    the child; the child's log is left as it was or with its identity entry, the
    two appends not being one transaction. *)
Theorem spawn_child_failure now1 now2 generated parent user child s e s' :
  spawn_child now1 now2 generated parent user child s = (Err e, s') ->
  let child_id := default generated (ca_preassigned_agent_id child) in
  child_id <> parent ->
  (forall vp, abstracts s parent vp -> log_room vp 1 -> abstracts s' parent vp)
  /\ (forall b v, b <> child_id -> b <> parent -> abstracts s b v -> abstracts s' b v)
  /\ (forall vc, abstracts s child_id vc -> log_room vc 1 ->
        abstracts s' child_id vc
        \/ exists entry, re_effects entry = [] /\ abstracts s' child_id (view_append vc [entry] None false)).
Proof.
  intros Hs child_id Hne.
  apply spawn_child_inv in Hs as [(e0 & _ & ->)|(ud & b1 & s1 & r1 & Hu & He & Hb1 & Happ1 & Hr)];
    [by eauto|]. fold child_id in Happ1, Hb1, Hr.
  assert (F1 : forall b v, b <> child_id -> abstracts s b v -> abstracts s1 b v)
    by (intros b v; by eapply append_system_frame).
  assert (C1 : forall vc, abstracts s child_id vc -> log_room vc 1 ->
     abstracts s1 child_id vc
     \/ exists entry, re_effects entry = [] /\ abstracts s1 child_id (view_append vc [entry] None false)).
  { intros vc Hc Rc. destruct (append_system_spec _ _ _ _ _ _ vc Happ1 Hc Rc) as [_ Hm].
    destruct r1; [|by left]. destruct Hm as (en & Hen & A). right. exists en. split; [apply Hen|done]. }
  assert (s' = s1 \/ exists tx, append_system "parent" parent tx s1 = (Err e, s')) as [->|[tx Happ2]].
  { destruct r1 as [[]|e1]; [|left; apply Hr].
    destruct Hr as [(e1 & _ & _ & ->)|(b2 & r2 & _ & Happ2 & Hr2)]; [by left|].
    right. destruct r2; [by destruct Hr2 as (? & [=] & _)|]. injection Hr2 as <-. eauto. }
  - split_and!; [intros vp Hp _; by apply F1|intros b v Hb _; by apply F1|exact C1].
  - split_and!.
    + intros vp Hp Rp.
      by destruct (append_system_spec _ _ _ _ _ _ vp Happ2 (F1 _ _ (not_eq_sym Hne) Hp) Rp) as [_ Hm].
    + intros b v Hb Hb' Hv. eapply append_system_frame; [exact Happ2|done|]. by apply F1.
    + intros vc Hc Rc. destruct (C1 vc Hc Rc) as [A|(en & Hen & A)].
      * left. by eapply append_system_frame.
      * right. exists en. split; [done|]. by eapply append_system_frame.
Qed.

(** The delegation entry does not replay: it is hashed over an empty window,
    so appended to a non-empty log it is valid (for a context window that is not
    empty) only if the digest has a collision. *)
Theorem spawn_entry_breaks_log w log tx e :
  system_entry log tx e -> log <> [] -> (0 < w)%Z -> log_valid w (log ++ [e]) ->
  exists x y, x <> y /\ blake3_hash x = blake3_hash y.
Proof.
  intros (Hseq & Htx & _ & Hh) Hne Hw Hv.
  destruct (Hv (length log) e) as [_ Hh']; [by apply list_lookup_middle|].
  rewrite (prior_window_prefix w log) in Hh' by (by eexists || lia).
  rewrite Htx in Hh'. apply hash_tx_with_window_Ok in Hh as (b & Hb & Hh).
  rewrite (hash_tx_with_window_eq tx _ b) in Hh' by done. injection Hh' as Hh'.
  unfold prior_window in Hh'. rewrite firstn_all in Hh'.
  set (prior := drop (length log - Z.to_nat w) log) in *.
  assert (exists p rest, prior = p :: rest) as (p & rest & Ep).
  { destruct prior as [|p rest] eqn:Ep; [|eauto]. exfalso.
    apply (f_equal length) in Ep. unfold prior in Ep. rewrite length_drop in Ep. cbn in Ep.
    destruct log; [done|]. cbn [length] in Ep. lia. }
  exists (context_bytes b []), (context_bytes b prior). split; [|congruence].
  unfold context_bytes. rewrite Ep. cbn. intros Heq%(f_equal length).
  rewrite !length_app, arr_length in Heq. cbn in Heq. lia.
Qed.
(** The billing walk does not see a spawn: after a successful spawn of an
    agent with an empty log, the parent chain of the child is the child alone,
    although both new entries name the parent, because the walk looks for tool
    executions among effects and a spawn records its payloads in transactions. *)
Theorem spawn_invisible_to_billing `{!Serde ToolExecution} now1 now2 generated parent user child s out s' vp vc fuel :
  spawn_child now1 now2 generated parent user child s = (Ok out, s') ->
  so_child_agent_id out <> parent ->
  abstracts s parent vp -> abstracts s (so_child_agent_id out) vc -> av_log vc = [] ->
  log_room vp 1 ->
  walk_parent_chain (S fuel) (so_child_agent_id out) s' = Some [so_child_agent_id out].
Proof.
  intros Hs Hne Hp Hc Hempty Rp. apply walk_parent_chain_root.
  assert (log_room vc 1) as Rc by (unfold log_room; rewrite Hempty; by vm_compute).
  destruct (spawn_child_steps _ _ _ _ _ _ _ _ _ _ _ Hs Hne Hp Hc Rp Rc) as (_ & (e & b & A & _ & He) & _).
  unfold latest_parent. destruct (st_get_head_seq s' _) as [n|] eqn:Hn; [|done].
  apply (spec_head_seq _ _ _ _ A) in Hn as ->. cbn [av_log view_append]. rewrite Hempty. cbn.
  destruct (st_scan_record_descending s' _ _ _) as [es|] eqn:Hes; [|done].
  apply (spec_scan_desc _ _ _ _ _ _ A) in Hes as ->; [|by vm_compute|by vm_compute].
  apply first_parent_None. intros e' Hin. apply parent_from_entry_no_effects.
  unfold log_window_desc in Hin. cbn [av_log view_append] in Hin. rewrite Hempty in Hin.
  apply elem_of_take in Hin as (j & Hj & _). change (rev _) with [e] in Hj.
  apply list_lookup_singleton_Some in Hj as [_ <-]. apply He.
Qed.
End SpawnSpec.

(** * Witnesses *)
Module SpawnWitness.
#[local] Existing Instances toy_blake3 lower_hex.
#[local] Existing Instance ContextWitness.no_model.
(** Codecs that write one byte per kind of payload. *)
Definition one_byte {A} (z : Z) : Serde A :=
  {| to_vec := fun _ => Ok [byte_of_Z z]; from_slice := fun _ => Err "unreadable" |}.
#[local] Instance tx_serde : Serde Transaction := one_byte 1.
#[local] Instance child_serde : Serde ChildIdentityPayload := one_byte 2.
#[local] Instance delegate_serde : Serde DelegateSpawnPayload := one_byte 3.
#[local] Instance json_serde : Serde json := one_byte 4.
#[local] Instance exec_serde : Serde ToolExecution := one_byte 5.
#[local] Instance no_identity : IdentityFromValue := fun _ => None.

Definition parent_id : AgentId := arr_fill 32 "001"%byte.
Definition new_id : AgentId := arr_fill 32 "002"%byte.
Definition child_spec : ChildAgentSpec :=
  {| ca_name := "worker"; ca_role := "builder"; ca_permissions := Permissions_empty;
     ca_tool_permissions := Some (atp_with atp_new "read_file" ToolState_Ask);
     ca_parent_tool_permissions := None; ca_system_prompt_override := None;
     ca_preassigned_agent_id := None; ca_initial_prompt := None |}.
Abbreviation spawn_run := (spawn_child 1 2 new_id parent_id (Some "user") child_spec vs_empty).
Definition spawn_out : SpawnOutcome :=
  match spawn_run.1 with
  | Ok o => o
  | Err _ => {| so_child_agent_id := parent_id; so_external_agent_id := None;
                so_delegate_tx_hash := parent_id |}
  end.
Lemma spawn_run_ok : spawn_run = (Ok spawn_out, spawn_run.2).
Proof. reflexivity. Qed.
Lemma new_not_parent : so_child_agent_id spawn_out <> parent_id.
Proof. apply (bool_decide_unpack _). by vm_compute. Qed.
Lemma both_empty_abstracts a : abstracts vs_empty a view_empty.
Proof. apply vs_empty_abstracts. Qed.
Lemma both_empty_room : log_room view_empty 1.
Proof. by vm_compute. Qed.

Lemma spawn_child_recorded_witness :
  spawn_run = (Ok spawn_out, spawn_run.2)
  /\ exists e b, abstracts spawn_run.2 parent_id (view_append view_empty [e] None false)
       /\ to_vec (delegate_payload parent_id (Some "user") (so_child_agent_id spawn_out) child_spec) = Ok b
       /\ system_entry [] (new_chained 2 parent_id TransactionType_System b None) e.
Proof.
  split; [exact spawn_run_ok|].
  apply (spawn_child_recorded 1 2 new_id parent_id (Some "user") child_spec vs_empty spawn_out _
           view_empty view_empty spawn_run_ok new_not_parent (both_empty_abstracts _) (both_empty_abstracts _)
           both_empty_room both_empty_room).
Defined.

Lemma spawn_invisible_to_billing_witness :
  spawn_run = (Ok spawn_out, spawn_run.2)
  /\ walk_parent_chain 1 (so_child_agent_id spawn_out) spawn_run.2 = Some [so_child_agent_id spawn_out].
Proof.
  split; [exact spawn_run_ok|].
  apply (spawn_invisible_to_billing 1 2 new_id parent_id (Some "user") child_spec vs_empty spawn_out _
           view_empty view_empty 0 spawn_run_ok new_not_parent (both_empty_abstracts _)
           (both_empty_abstracts _) eq_refl both_empty_room).
Defined.

(** A parent whose own policy denies the tool. *)
Definition bold_spec : ChildAgentSpec :=
  {| ca_name := "worker"; ca_role := "builder"; ca_permissions := Permissions_empty;
     ca_tool_permissions := Some (atp_with atp_new "read_file" ToolState_Ask);
     ca_parent_tool_permissions := Some (atp_with atp_new "read_file" ToolState_Deny);
     ca_system_prompt_override := None; ca_preassigned_agent_id := None; ca_initial_prompt := None |}.
Abbreviation refused_run := (spawn_child 1 2 new_id parent_id None bold_spec vs_empty).
Lemma spawn_child_failure_witness :
  exists e, refused_run = (Err e, refused_run.2) /\ abstracts refused_run.2 parent_id view_empty.
Proof.
  eexists. split; [reflexivity|].
  refine (proj1 (spawn_child_failure 1 2 new_id parent_id None bold_spec vs_empty _ _ _ _)
            view_empty _ _).
  - reflexivity.
  - exact new_not_parent.
  - apply both_empty_abstracts.
  - exact both_empty_room.
Defined.

(** With a digest that maps everything to one value, the invalid entry passes. *)
Definition constant_blake3 : Blake3 :=
  {| blake3_hash := fun _ => arr_fill 32 "000"%byte; Blake3Hasher := unit; blake3_new := tt;
     blake3_update := fun _ _ => tt; blake3_finalize := fun _ => arr_fill 32 "000"%byte;
     blake3_parts := fun _ => eq_refl |}.
Definition some_tx : Transaction :=
  Transaction_new (arr_fill 32 "001"%byte) parent_id 0 TransactionType_System [].
Definition some_entry (seq : Z) : RecordEntry := build (builder seq some_tx).
Lemma spawn_entry_breaks_log_witness :
  exists x y : bytes, x <> y /\ @blake3_hash constant_blake3 x = @blake3_hash constant_blake3 y.
Proof.
  refine (@spawn_entry_breaks_log constant_blake3 _ _ 1 [some_entry 1] some_tx (some_entry 2) _ _ _ _).
  - split_and!; reflexivity.
  - discriminate.
  - lia.
  - intros [|[|i]] e; cbn; [intros [= <-]; split; reflexivity..|done].
Defined.
End SpawnWitness.
