(* ===== verification/HostTable.v ===== *)
(** The table of live agents of [aura-engine/src/agents/host.rs].

    [AgentHost] keeps, under one lock, a table of agents: roots, whose turns a
    surface drives, and hosted agents, each with a queue of messages and at most
    one turn running.  Every locked section of the source is one atomic
    operation here, and what a section leaves to be done after the lock is
    released is part of the state: a turn spawned on the runtime ([hs_turns]), a
    finished turn that still has to deliver its reply and then retire or restart
    its agent ([hs_finishing]), a [pump] about to be called ([hs_wake],
    [hs_wake_all]).
    Any interleaving of concurrent calls is then a sequence of operations
    ([host_step]).

    Channels, event sinks and cancellation tokens are handles; what is done with
    them is an output event.  A token remembers the token it was made from:
    cancelling a token cancels those made from it.  The setup of a run and the
    messages of a history are opaque.

    The theorems show that no queued message is stranded, that a waiter is
    answered exactly once, that stopping an agent removes and cancels its whole
    subtree, and that replies cannot bounce between agents forever. *)
From S2P Require Import Prelude Values Utf8 Modes Permissions CoreTypes Context Subagent.
From stdpp Require Import list.

(** * Data *)
Definition Handle := nat.

(** A [CancellationToken] made by [new] or by [child_token]. *)
Inductive Token := Token_new (n : Handle) | Token_child (parent : Token) (n : Handle).
#[export] Instance Token_eq_dec : EqDecision Token.
Proof. solve_decision. Defined.

(** Cancelling [t] cancels [u]. *)
Fixpoint token_covers (t u : Token) : bool :=
  bool_decide (t = u) || match u with Token_child p _ => token_covers t p | Token_new _ => false end.

(** [inbox.rs]. *)
Inductive MessageKind := MessageKind_Request | MessageKind_Reply.
#[export] Instance MessageKind_eq_dec : EqDecision MessageKind.
Proof. solve_decision. Defined.

Record InboxMessage := {
  im_to : AgentId;
  im_from : AgentId;
  im_from_name : string;
  im_kind : MessageKind;
  im_text : string;
}.

Inductive AgentState := AgentState_Root | AgentState_Idle | AgentState_Running | AgentState_Paused.
#[export] Instance AgentState_eq_dec : EqDecision AgentState.
Proof. solve_decision. Defined.

Inductive LifecycleAction :=
| LifecycleAction_Pause | LifecycleAction_Resume | LifecycleAction_Stop | LifecycleAction_Restart.
#[export] Instance LifecycleAction_eq_dec : EqDecision LifecycleAction.
Proof. solve_decision. Defined.
Definition LifecycleAction_parse (action : string) : option LifecycleAction :=
  if bool_decide (action = "pause") then Some LifecycleAction_Pause
  else if bool_decide (action = "resume") then Some LifecycleAction_Resume
  else if bool_decide (action = "stop") then Some LifecycleAction_Stop
  else if bool_decide (action = "restart") then Some LifecycleAction_Restart
  else None.

Record Envelope := {
  en_from : option AgentId;
  en_from_name : string;
  en_kind : MessageKind;
  en_text : string;
  en_waiter : option Handle;
  en_events : option Handle;
  en_cancel : option Handle;
}.

(** What every agent of one tree shares; the factory and the remote hooks are
    objects of the surfaces. *)
Record AgentEnv := {
  ae_workspace : option (string * bool);
  ae_user_tool_defaults : UserToolDefaults;
  ae_originating_user_id : option string;
}.

Section HostTable.
Context {Setup Msg : Type} `{Hex}.

Inductive Body :=
| Body_Root (inbox : option Handle)
| Body_Hosted (setup : Setup) (history : list Msg) (queue : list Envelope).

Record AgentEntry := {
  e_name : string;
  e_role : string;
  e_chain : list AgentId;
  e_permissions : Permissions;
  e_tool_permissions : option AgentToolPermissions;
  e_mode : AgentMode;
  e_model : string;
  e_env : AgentEnv;
  e_stop : Token;
  e_one_shot : bool;
  e_running : bool;
  e_paused : bool;
  e_turns : Z;
  e_last_reply : option string;
  e_body : Body;
}.

Record Turn := {
  tn_envelope : Envelope;
  tn_prompt : string;
  tn_history : list Msg;
  tn_setup : Setup;
  tn_workspace : option (string * bool);
  tn_stop : Token;
}.

Record AgentInfo := {
  ai_agent_id : AgentId;
  ai_name : string;
  ai_role : string;
  ai_parent : option AgentId;
  ai_depth : Z;
  ai_state : AgentState;
  ai_model : string;
  ai_turns : Z;
  ai_queued : Z;
  ai_last_reply : option string;
}.

Inductive HostEvent :=
| HostEvent_cancel (t : Token)
| HostEvent_answer (waiter : Handle) (r : SubagentResult)
| HostEvent_inbox (inbox : option Handle) (m : InboxMessage)
| HostEvent_unregister (a : AgentId)
| HostEvent_forget_lock (a : AgentId).

Record HostState := {
  hs_agents : gmap AgentId AgentEntry;
  hs_turns : list (AgentId * Turn);
  hs_finishing : list (AgentId * option (AgentId * string));
  hs_wake : list AgentId;
  hs_wake_all : nat;
  hs_fresh : Handle;
}.
Definition with_agents (h : HostState) (m : gmap AgentId AgentEntry) : HostState :=
  {| hs_agents := m; hs_turns := hs_turns h; hs_finishing := hs_finishing h; hs_wake := hs_wake h;
     hs_wake_all := hs_wake_all h; hs_fresh := hs_fresh h |}.
Definition with_wake (h : HostState) (w : list AgentId) : HostState :=
  {| hs_agents := hs_agents h; hs_turns := hs_turns h; hs_finishing := hs_finishing h; hs_wake := w;
     hs_wake_all := hs_wake_all h; hs_fresh := hs_fresh h |}.
Definition with_finishing (h : HostState) (f : list (AgentId * option (AgentId * string))) : HostState :=
  {| hs_agents := hs_agents h; hs_turns := hs_turns h; hs_finishing := f; hs_wake := hs_wake h;
     hs_wake_all := hs_wake_all h; hs_fresh := hs_fresh h |}.

(** ** [impl AgentEntry] *)
Definition entry_parent (e : AgentEntry) : option AgentId := head (e_chain e).
Definition entry_root (e : AgentEntry) (own_id : AgentId) : AgentId := default own_id (last (e_chain e)).
Definition entry_queue (e : AgentEntry) : list Envelope :=
  match e_body e with Body_Hosted _ _ q => q | Body_Root _ => [] end.
Definition entry_state (e : AgentEntry) : AgentState :=
  match e_body e with
  | Body_Root _ => AgentState_Root
  | Body_Hosted _ _ _ =>
      if e_running e then AgentState_Running
      else if e_paused e then AgentState_Paused else AgentState_Idle
  end.
Definition entry_info (e : AgentEntry) (agent_id : AgentId) : AgentInfo :=
  {| ai_agent_id := agent_id; ai_name := e_name e; ai_role := e_role e; ai_parent := entry_parent e;
     ai_depth := Z.of_nat (length (e_chain e)); ai_state := entry_state e; ai_model := e_model e;
     ai_turns := e_turns e; ai_queued := Z.of_nat (length (entry_queue e));
     ai_last_reply := e_last_reply e |}.

(** Field updates. *)
Definition set_run (e : AgentEntry) (stop : Token) (running paused : bool) (turns : Z)
    (last_reply : option string) (body : Body) : AgentEntry :=
  {| e_name := e_name e; e_role := e_role e; e_chain := e_chain e; e_permissions := e_permissions e;
     e_tool_permissions := e_tool_permissions e; e_mode := e_mode e; e_model := e_model e;
     e_env := e_env e; e_stop := stop; e_one_shot := e_one_shot e; e_running := running;
     e_paused := paused; e_turns := turns; e_last_reply := last_reply; e_body := body |}.
Definition set_paused (e : AgentEntry) (p : bool) : AgentEntry :=
  set_run e (e_stop e) (e_running e) p (e_turns e) (e_last_reply e) (e_body e).
Definition set_body (e : AgentEntry) (b : Body) : AgentEntry :=
  set_run e (e_stop e) (e_running e) (e_paused e) (e_turns e) (e_last_reply e) b.

(** ** Texts *)
Definition render_for_hosted (envelope : Envelope) (parent : option AgentId) : string :=
  match en_from envelope with
  | None => en_text envelope
  | Some from =>
      match en_kind envelope with
      | MessageKind_Request =>
          if bool_decide (Some from = parent) then en_text envelope
          else "Message from agent " +++ en_from_name envelope +++ " (" +++ id_display from +++ "):"
               +++ LF +++ LF +++ en_text envelope +++ LF +++ LF
               +++ "Your final answer is sent back to " +++ en_from_name envelope +++ "."
      | MessageKind_Reply =>
          "Agent " +++ en_from_name envelope +++ " (" +++ id_display from +++ ") reported back:"
          +++ LF +++ LF +++ en_text envelope
      end
  end.

Definition reply_text (r : SubagentResult) : string :=
  match sr_exit r with
  | SubagentExit_Completed =>
      if trim_is_empty (sr_final_message r) then "(finished without a reply)" else sr_final_message r
  | SubagentExit_Failed reason => "failed: " +++ reason
  | SubagentExit_Cancelled => "was cancelled"
  | SubagentExit_Timeout => "timed out"
  | SubagentExit_Rejected reason => "rejected: " +++ reason
  end.

Definition ended (agent_id : AgentId) (exit : SubagentExit) : SubagentResult :=
  {| sr_child_agent_id := Some agent_id; sr_final_message := ""; sr_total_input_tokens := 0;
     sr_total_output_tokens := 0; sr_files_changed := []; sr_exit := exit |}.
Definition cancelled (agent_id : AgentId) : SubagentResult := ended agent_id SubagentExit_Cancelled.
Definition failed (agent_id : AgentId) (reason : string) : SubagentResult :=
  ended agent_id (SubagentExit_Failed reason).

(** [notify_dropped]: a dropped message answers its waiter, if it has one. *)
Definition notify_dropped (dropped : list (AgentId * Envelope)) : list HostEvent :=
  omap (fun '(id, env) => (fun w => HostEvent_answer w (cancelled id)) <$> en_waiter env) dropped.

(** ** Roots and messages *)
Definition register_root (agent_id : AgentId) (name : string) (permissions : Permissions)
    (tool_permissions : option AgentToolPermissions) (mode : AgentMode) (model : string)
    (env : AgentEnv) (inbox : option Handle) (h : HostState) : HostState :=
  let existing := hs_agents h !! agent_id in
  let stop := match existing with Some e => e_stop e | None => Token_new (hs_fresh h) end in
  let '(turns, last_reply) := match existing with
                              | Some e => (e_turns e, e_last_reply e) | None => (0%Z, None) end in
  let entry := {| e_name := name; e_role := "root"; e_chain := []; e_permissions := permissions;
                  e_tool_permissions := tool_permissions; e_mode := mode; e_model := model;
                  e_env := env; e_stop := stop; e_one_shot := false; e_running := false;
                  e_paused := false; e_turns := turns; e_last_reply := last_reply;
                  e_body := Body_Root inbox |} in
  {| hs_agents := <[agent_id := entry]> (hs_agents h); hs_turns := hs_turns h;
     hs_finishing := hs_finishing h; hs_wake := hs_wake h; hs_wake_all := hs_wake_all h;
     hs_fresh := S (hs_fresh h) |}.

(** The sender's name, looked up before the message is queued. *)
Definition envelope (h : HostState) (from : option AgentId) (kind : MessageKind) (text : string)
    (waiter events cancel : option Handle) : Envelope :=
  {| en_from := from;
     en_from_name := default "user" (id ← from; e_name <$> hs_agents h !! id);
     en_kind := kind; en_text := text; en_waiter := waiter; en_events := events;
     en_cancel := cancel |}.

(** [enqueue]: push to a hosted agent and leave a [pump] to do, or hand over to a
    root's inbox. *)
Definition enqueue (to : AgentId) (env : Envelope) (h : HostState)
  : result string (list HostEvent) * HostState :=
  match hs_agents h !! to with
  | None => (Err ("unknown agent " +++ id_display to), h)
  | Some entry =>
      match e_body entry with
      | Body_Hosted setup history queue =>
          (Ok [], with_wake (with_agents h
                    (<[to := set_body entry (Body_Hosted setup history (queue ++ [env]))]> (hs_agents h)))
                    (hs_wake h ++ [to]))
      | Body_Root inbox =>
          match en_from env with
          | None => (Err "roots only accept messages from agents", h)
          | Some from =>
              (Ok [HostEvent_inbox inbox {| im_to := to; im_from := from;
                     im_from_name := en_from_name env; im_kind := en_kind env;
                     im_text := en_text env |}], h)
          end
      end
  end.

Definition deliver_message (from : option AgentId) (to : AgentId) (kind : MessageKind) (text : string)
    (h : HostState) : result string (list HostEvent) * HostState :=
  enqueue to (envelope h from kind text None None None) h.

(** ** Turns *)

(** [pump]: start the next queued turn if the agent is free to run one. *)
Definition pump (agent_id : AgentId) (h : HostState) : HostState :=
  match hs_agents h !! agent_id with
  | None => h
  | Some entry =>
      if e_running entry || e_paused entry then h
      else
        match e_body entry with
        | Body_Root _ => h
        | Body_Hosted setup history [] => h
        | Body_Hosted setup history (env :: queue) =>
            let entry' := set_run entry (e_stop entry) true (e_paused entry) (e_turns entry)
                            (e_last_reply entry) (Body_Hosted setup history queue) in
            let turn := {| tn_envelope := env; tn_prompt := render_for_hosted env (entry_parent entry);
                           tn_history := history; tn_setup := setup;
                           tn_workspace := ae_workspace (e_env entry); tn_stop := e_stop entry |} in
            {| hs_agents := <[agent_id := entry']> (hs_agents h);
               hs_turns := hs_turns h ++ [(agent_id, turn)]; hs_finishing := hs_finishing h;
               hs_wake := hs_wake h; hs_wake_all := hs_wake_all h; hs_fresh := hs_fresh h |}
        end
  end.

(** Where a finished turn's reply goes. *)
Definition reply_to (entry : AgentEntry) (env : Envelope) : option AgentId :=
  match en_kind env with
  | MessageKind_Request => en_from env
  | MessageKind_Reply => entry_parent entry
  end.

(** The locked section of [run_turn] after the turn ran. *)
Definition finish_entry (entry : AgentEntry) (r : SubagentResult) (messages : option (list Msg)) : AgentEntry :=
  set_run entry (e_stop entry) false (e_paused entry) (e_turns entry + 1)
    (if trim_is_empty (sr_final_message r) then e_last_reply entry else Some (sr_final_message r))
    (match messages, e_body entry with
     | Some ms, Body_Hosted setup _ queue => Body_Hosted setup ms queue
     | _, b => b
     end).

(** The locked section of [run_turn] with what follows it: a waiter is answered
    at once; without one the reply to deliver, if any, is left to be done. *)
Definition run_turn_end (agent_id : AgentId) (turn : Turn) (r : SubagentResult)
    (messages : option (list Msg)) (rest : list (AgentId * Turn)) (h : HostState)
  : list HostEvent * HostState :=
  let env := tn_envelope turn in
  let entry := hs_agents h !! agent_id in
  let reply := match en_waiter env with
               | Some _ => None
               | None => to ← (e ← entry; reply_to e env); Some (to, reply_text r) end in
  (match en_waiter env with Some w => [HostEvent_answer w r] | None => [] end,
   {| hs_agents := match entry with
                   | Some e => <[agent_id := finish_entry e r messages]> (hs_agents h)
                   | None => hs_agents h end;
      hs_turns := rest; hs_finishing := hs_finishing h ++ [(agent_id, reply)];
      hs_wake := hs_wake h; hs_wake_all := hs_wake_all h; hs_fresh := hs_fresh h |}).

(** The delivery of that reply; a failure is only logged. *)
Definition send_reply (agent_id to : AgentId) (from_name text : string)
    (finishing : list (AgentId * option (AgentId * string))) (h : HostState) : list HostEvent * HostState :=
  let env := {| en_from := Some agent_id; en_from_name := from_name; en_kind := MessageKind_Reply;
                en_text := text; en_waiter := None; en_events := None; en_cancel := None |} in
  let '(res, h') := enqueue to env (with_finishing h (finishing ++ [(agent_id, None)])) in
  (match res with Ok evs => evs | Err _ => [] end, h').

(** ** Removal *)
Definition in_subtree (target : AgentId) (include_target : bool) (p : AgentId * AgentEntry) : bool :=
  (include_target && bool_decide (p.1 = target)) || bool_decide (target ∈ e_chain p.2).

(** [remove_subtree]: the table without the subtree, what is dropped, and the
    events of the removal. *)
Definition remove_subtree (m : gmap AgentId AgentEntry) (target : AgentId) (include_target : bool)
  : gmap AgentId AgentEntry * list (AgentId * Envelope) * list HostEvent :=
  let gone := List.filter (in_subtree target include_target) (map_to_list m) in
  (filter (fun p => in_subtree target include_target p = false) m,
   concat ((fun '(id, e) => (fun env => (id, env)) <$> entry_queue e) <$> gone),
   concat ((fun '(id, e) =>
      HostEvent_cancel (e_stop e) :: HostEvent_forget_lock id ::
      match e_body e with Body_Hosted _ _ _ => [HostEvent_unregister id] | Body_Root _ => [] end) <$> gone)).

Definition remove_root (root : AgentId) (h : HostState) : list HostEvent * HostState :=
  let '(m, dropped, evs) := remove_subtree (hs_agents h) root true in
  (evs ++ notify_dropped dropped, with_agents h m).

(** [retire_if_done]: remove a finished one-shot child with its subtree, else
    leave a [pump] to do. *)
Definition retire_if_done (agent_id : AgentId)
    (finishing : list (AgentId * option (AgentId * string))) (h : HostState)
  : list HostEvent * HostState :=
  let done := match hs_agents h !! agent_id with
              | Some e => e_one_shot e && negb (e_running e)
                          && match e_body e with
                             | Body_Hosted _ _ queue => is_nil queue | Body_Root _ => false end
              | None => false
              end in
  let h := with_finishing h finishing in
  if done
  then let '(m, dropped, evs) := remove_subtree (hs_agents h) agent_id true in
       (evs ++ notify_dropped dropped, with_agents h m)
  else ([], with_wake h (hs_wake h ++ [agent_id])).

(** ** Lifecycle *)
Definition lifecycle (target : AgentId) (action : LifecycleAction) (h : HostState)
  : result string (list HostEvent) * HostState :=
  match hs_agents h !! target with
  | None => (Err ("unknown agent " +++ id_display target), h)
  | Some entry =>
      match e_body entry with
      | Body_Root _ => (Err "root agents are controlled by their surface", h)
      | Body_Hosted _ _ _ =>
          let parent_stop := p ← entry_parent entry; e_stop <$> hs_agents h !! p in
          let wake := {| hs_agents := hs_agents h; hs_turns := hs_turns h;
                         hs_finishing := hs_finishing h; hs_wake := hs_wake h;
                         hs_wake_all := S (hs_wake_all h); hs_fresh := hs_fresh h |} in
          match action with
          | LifecycleAction_Pause | LifecycleAction_Resume =>
              let paused := bool_decide (action = LifecycleAction_Pause) in
              let m := map_imap (fun id e =>
                         Some (if bool_decide (id = target) || bool_decide (target ∈ e_chain e)
                               then set_paused e paused else e)) (hs_agents h) in
              (Ok [], with_agents (if paused then h else wake) m)
          | LifecycleAction_Stop =>
              let '(m, dropped, evs) := remove_subtree (hs_agents h) target true in
              (Ok (evs ++ notify_dropped dropped), with_agents h m)
          | LifecycleAction_Restart =>
              let '(m, dropped, evs) := remove_subtree (hs_agents h) target false in
              match m !! target with
              | Some entry =>
                  let stop := match parent_stop with
                              | Some p => Token_child p (hs_fresh h)
                              | None => Token_new (hs_fresh h) end in
                  let body := match e_body entry with
                              | Body_Hosted setup _ queue => Body_Hosted setup [] queue
                              | b => b end in
                  (Ok (evs ++ [HostEvent_cancel (e_stop entry)] ++ notify_dropped dropped),
                   {| hs_agents := <[target := set_run entry stop (e_running entry) false
                                       (e_turns entry) (e_last_reply entry) body]> m;
                      hs_turns := hs_turns h; hs_finishing := hs_finishing h; hs_wake := hs_wake h;
                      hs_wake_all := S (hs_wake_all h); hs_fresh := S (hs_fresh h) |})
              | None => (Ok (evs ++ notify_dropped dropped), with_agents wake m)
              end
          end
      end
  end.

(** The [pump] of every agent in the table after a resume or restart. *)
Definition wake_all (h : HostState) : HostState :=
  {| hs_agents := hs_agents h; hs_turns := hs_turns h; hs_finishing := hs_finishing h;
     hs_wake := hs_wake h ++ (map_to_list (hs_agents h)).*1; hs_wake_all := pred (hs_wake_all h);
     hs_fresh := hs_fresh h |}.

(** The end of [create_child]: the child enters the table, idle. *)
Definition insert_child (child_id parent : AgentId) (parent_chain : list AgentId)
    (parent_stop : Token) (name role : string) (permissions : Permissions)
    (tool_permissions : AgentToolPermissions) (mode : AgentMode) (model : string) (env : AgentEnv)
    (one_shot : bool) (setup : Setup) (h : HostState) : HostState :=
  let entry := {| e_name := name; e_role := role; e_chain := parent :: parent_chain;
                  e_permissions := permissions; e_tool_permissions := Some tool_permissions;
                  e_mode := mode; e_model := model; e_env := env;
                  e_stop := Token_child parent_stop (hs_fresh h); e_one_shot := one_shot;
                  e_running := false; e_paused := false; e_turns := 0; e_last_reply := None;
                  e_body := Body_Hosted setup [] [] |} in
  {| hs_agents := <[child_id := entry]> (hs_agents h); hs_turns := hs_turns h;
     hs_finishing := hs_finishing h; hs_wake := hs_wake h; hs_wake_all := hs_wake_all h;
     hs_fresh := S (hs_fresh h) |}.

(** ** Queries *)
Definition root_of (h : HostState) (agent_id : AgentId) : option AgentId :=
  (fun e => entry_root e agent_id) <$> hs_agents h !! agent_id.
Definition is_descendant (h : HostState) (agent ancestor : AgentId) : bool :=
  match hs_agents h !! agent with Some e => bool_decide (ancestor ∈ e_chain e) | None => false end.
Definition running_count (h : HostState) : Z :=
  Z.of_nat (length (List.filter (fun p => e_running p.2) (map_to_list (hs_agents h)))).
End HostTable.
Arguments AgentEntry : clear implicits.
Arguments HostState : clear implicits.
Arguments Turn : clear implicits.
Arguments Body : clear implicits.
