(* ===== verification/HostProps.v ===== *)
(** Runs of the agent host: the step relation over the operations of
    [HostTable], its invariants, and what they mean for messages and waiters. *)
From S2P Require Import Prelude Values Utf8 Modes Permissions CoreTypes Context Subagent HostTable.
From stdpp Require Import list.
From Stdlib Require Import Strings.Byte.

Section HostProps.
Context {Setup Msg : Type} `{Hex}.
Abbreviation Host := (HostState Setup Msg).
Abbreviation Entry := (AgentEntry Setup Msg).
Implicit Types (h : Host) (e : Entry).

Definition host_empty : Host :=
  {| hs_agents := ∅; hs_turns := []; hs_finishing := []; hs_wake := []; hs_wake_all := 0;
     hs_fresh := 0 |}.

Definition is_root e : Prop := exists inbox, e_body e = Body_Root inbox.

(** An identifier nothing refers to, as a generated one is. *)
Definition id_unused h (a : AgentId) : Prop :=
  hs_agents h !! a = None /\ ~ (a ∈ (hs_turns h).*1)
  /\ forall b e, hs_agents h !! b = Some e -> ~ (a ∈ e_chain e).

(** A surface registers identifiers of its own: not a hosted agent's. *)
Definition id_for_root h (a : AgentId) : Prop :=
  (exists e, hs_agents h !! a = Some e /\ is_root e)
  \/ (hs_agents h !! a = None /\ ~ (a ∈ (hs_turns h).*1)
      /\ forall b e, hs_agents h !! b = Some e -> a ∈ e_chain e -> last (e_chain e) = Some a).

(** One locked section of one call.  The label lists the waiters that enter with
    a message and the events that come out. *)
Inductive host_step : Host -> list Handle -> list HostEvent -> Host -> Prop :=
| step_register_root h a name perms tools mode model env inbox :
    id_for_root h a ->
    host_step h [] [] (register_root a name perms tools mode model env inbox h)
| step_insert_child h child parent chain stop name role perms tools mode model env one_shot setup :
    id_unused h child -> child <> parent -> ~ (child ∈ chain) -> NoDup (parent :: chain) ->
    (forall pe, hs_agents h !! parent = Some pe -> e_chain pe = chain) ->
    host_step h [] []
      (insert_child child parent chain stop name role perms tools mode model env one_shot setup h)
| step_enqueue h to env evs h' :
    enqueue to env h = (Ok evs, h') ->
    host_step h (if decide (evs = []) then option_list (en_waiter env) else []) evs h'
| step_pump h pre a post :
    hs_wake h = pre ++ a :: post ->
    host_step h [] [] (pump a (with_wake h (pre ++ post)))
| step_turn_end h pre a turn post r messages evs h' :
    hs_turns h = pre ++ (a, turn) :: post ->
    run_turn_end a turn r messages (pre ++ post) h = (evs, h') ->
    host_step h [] evs h'
| step_reply h pre a to text post from_name evs h' :
    hs_finishing h = pre ++ (a, Some (to, text)) :: post ->
    send_reply a to from_name text (pre ++ post) h = (evs, h') ->
    host_step h [] evs h'
| step_retire h pre a post evs h' :
    hs_finishing h = pre ++ (a, None) :: post ->
    retire_if_done a (pre ++ post) h = (evs, h') ->
    host_step h [] evs h'
| step_lifecycle h target action evs h' :
    lifecycle target action h = (Ok evs, h') ->
    host_step h [] evs h'
| step_wake_all h n :
    hs_wake_all h = S n -> host_step h [] [] (wake_all h)
| step_remove_root h root e evs h' :
    hs_agents h !! root = Some e -> is_root e -> remove_root root h = (evs, h') ->
    host_step h [] evs h'.

Inductive host_steps : Host -> list Handle -> list HostEvent -> Host -> Prop :=
| host_steps_nil h : host_steps h [] [] h
| host_steps_snoc h ws evs h' ws1 evs1 h'' :
    host_steps h ws evs h' -> host_step h' ws1 evs1 h'' ->
    host_steps h (ws ++ ws1) (evs ++ evs1) h''.

(** * The table invariant *)

(** Something will call [pump] for the agent. *)
Definition pending_wake h (a : AgentId) : Prop :=
  a ∈ hs_wake h \/ a ∈ (hs_finishing h).*1 \/ 0 < hs_wake_all h.

Definition turns_of h (a : AgentId) : list (AgentId * Turn Setup Msg) :=
  List.filter (fun p => bool_decide (p.1 = a)) (hs_turns h).

Record entry_ok h (a : AgentId) e : Prop := {
  eo_wake : entry_queue e <> [] -> e_running e = false -> e_paused e = false -> pending_wake h a;
  eo_turns : length (turns_of h a) = if e_running e then 1 else 0;
  eo_chain : NoDup (a :: e_chain e);
  eo_root : is_root e <-> e_chain e = [];
  eo_root_idle : is_root e -> e_running e = false;
  eo_parent p rest pe : e_chain e = p :: rest -> hs_agents h !! p = Some pe -> e_chain pe = rest;
}.
Definition host_inv h : Prop := forall a e, hs_agents h !! a = Some e -> entry_ok h a e.

Lemma host_inv_empty : host_inv host_empty.
Proof. intros a e He. cbn in He. by rewrite lookup_empty in He. Qed.

Lemma pending_wake_mono h h' a :
  (forall b, b ∈ hs_wake h -> b ∈ hs_wake h') ->
  (forall b, b ∈ (hs_finishing h).*1 -> b ∈ (hs_finishing h').*1) ->
  hs_wake_all h <= hs_wake_all h' -> pending_wake h a -> pending_wake h' a.
Proof. unfold pending_wake. intros ? ? ? [?|[?|?]]; [left|right;left|right;right]; eauto. lia. Qed.

(** Operations that add no entry: each entry of the new table has an old one with
    the same chain. *)
Lemma inv_update h h' :
  host_inv h ->
  (forall a e', hs_agents h' !! a = Some e' ->
     exists e, hs_agents h !! a = Some e /\ e_chain e' = e_chain e /\ (is_root e' <-> is_root e)
       /\ (entry_queue e' <> [] -> e_running e' = false -> e_paused e' = false -> pending_wake h' a)
       /\ length (turns_of h' a) = (if e_running e' then 1 else 0)
       /\ (is_root e' -> e_running e' = false)) ->
  host_inv h'.
Proof.
  intros Hinv Hstep a e' He'. destruct (Hstep a e' He') as (e & He & Hc & Hr & Hw & Ht & Hi).
  destruct (Hinv a e He) as [_ _ Hn Hroot _ Hpar]. constructor; [done|done|by rewrite Hc| |done|].
  - by rewrite Hr, Hc.
  - intros p rest pe' Hch Hpe'. rewrite Hc in Hch.
    destruct (Hstep p pe' Hpe') as (pe & Hpe & -> & _). by eapply Hpar.
Qed.

(** An entry kept as it was. *)
Lemma entry_kept h h' a e :
  host_inv h -> hs_agents h !! a = Some e ->
  (pending_wake h a -> pending_wake h' a) -> turns_of h' a = turns_of h a ->
  exists e0, hs_agents h !! a = Some e0 /\ e_chain e = e_chain e0 /\ (is_root e <-> is_root e0)
    /\ (entry_queue e <> [] -> e_running e = false -> e_paused e = false -> pending_wake h' a)
    /\ length (turns_of h' a) = (if e_running e then 1 else 0)
    /\ (is_root e -> e_running e = false).
Proof.
  intros Hinv He Hp Ht. destruct (Hinv a e He) as [Hw Hl _ _ Hi _]. exists e.
  split_and!; try done; [by intros; apply Hp, Hw|by rewrite Ht].
Qed.

(** Operations that add or replace one entry. *)
Lemma inv_insert h h' a e :
  host_inv h -> hs_agents h' = <[a := e]> (hs_agents h) ->
  (forall b, pending_wake h b -> pending_wake h' b) -> hs_turns h' = hs_turns h ->
  entry_queue e = [] -> e_running e = false -> turns_of h a = [] ->
  NoDup (a :: e_chain e) -> (is_root e <-> e_chain e = []) ->
  (forall p rest pe, e_chain e = p :: rest -> p <> a -> hs_agents h !! p = Some pe -> e_chain pe = rest) ->
  (forall b eb rest, hs_agents h !! b = Some eb -> e_chain eb = a :: rest -> e_chain e = rest) ->
  host_inv h'.
Proof.
  intros Hinv Hag Hpw Htu Hq Hrun Hnone Hn Hr Hp Hc b eb Hb. rewrite Hag in Hb.
  assert (Htof : turns_of h' b = turns_of h b) by (unfold turns_of; by rewrite Htu).
  apply lookup_insert_Some in Hb as [[<- <-]|[Hne Hb]].
  - constructor; [done|by rewrite Htof, Hnone, Hrun|done|done|done|].
    intros p rest pe Hch. rewrite Hag, lookup_insert_Some. intros [[<- <-]|[Hne Hpe]].
    + rewrite Hch in Hn. apply NoDup_cons in Hn as [Hn _]. exfalso. apply Hn. left.
    + by eapply Hp.
  - destruct (Hinv b eb Hb) as [Hw Hl Hn' Hr' Hi' Hp'].
    constructor; [by intros; apply Hpw, Hw|by rewrite Htof|done|done|done|].
    intros p rest pe Hch. rewrite Hag, lookup_insert_Some. intros [[<- <-]|[Hne' Hpe]].
    + by eapply Hc.
    + by eapply Hp'.
Qed.

Lemma turns_of_nil h a : ~ (a ∈ (hs_turns h).*1) -> turns_of h a = [].
Proof.
  intros Hn. unfold turns_of. induction (hs_turns h) as [|[b t] l IH]; [done|]. cbn in *.
  rewrite bool_decide_eq_false_2 by set_solver. apply IH. set_solver.
Qed.

Lemma turns_of_remove pre post a b (t : Turn Setup Msg) h :
  hs_turns h = pre ++ (b, t) :: post ->
  turns_of h a ≡ₚ (if decide (b = a) then [(b, t)] else [])
                  ++ List.filter (fun p => bool_decide (p.1 = a)) (pre ++ post).
Proof.
  intros Ht. unfold turns_of. rewrite Ht, !List.filter_app. cbn.
  destruct (decide (b = a)) as [->|Hne].
  - rewrite bool_decide_eq_true_2 by done. cbn. by rewrite <-Permutation_middle.
  - by rewrite bool_decide_eq_false_2.
Qed.

(** ** Preservation *)
Lemma inv_register_root h a name perms tools mode model env inbox :
  host_inv h -> id_for_root h a ->
  host_inv (register_root a name perms tools mode model env inbox h).
Proof.
  intros Hinv Hid. unfold register_root.
  destruct (match hs_agents h !! a with Some e => _ | None => _ end) as [turns last_reply].
  eapply (inv_insert h _ a); [done|reflexivity|done|done|done|done|..].
  - destruct Hid as [(e & He & Hr)|(He & Ht & _)]; [|by apply turns_of_nil].
    destruct (Hinv a e He) as [_ Hl _ _ Hi _]. rewrite (Hi Hr) in Hl. by apply nil_length_inv.
  - cbn. apply NoDup_singleton.
  - split; [done|]. intros _. by eexists.
  - intros p rest pe [=].
  - intros b eb rest Hb Hch. cbn. destruct Hid as [(e & He & Hr)|(He & _ & Hlast)].
    + destruct (Hinv b eb Hb) as [_ _ _ _ _ Hp]. destruct (Hinv a e He) as [_ _ _ Hroot _ _].
      apply Hroot in Hr. by rewrite <-(Hp a rest e Hch He).
    + specialize (Hlast b eb Hb). rewrite Hch in Hlast. specialize (Hlast ltac:(left)).
      destruct (Hinv b eb Hb) as [_ _ Hn _ _ _]. rewrite Hch in Hn.
      destruct rest as [|c rest]; [done|]. rewrite last_cons_cons in Hlast.
      apply NoDup_cons in Hn as [_ Hn]. apply NoDup_cons in Hn as [Hn _].
      exfalso. apply Hn. by eapply last_Some_elem_of.
Qed.

Lemma inv_insert_child h child parent chain stop name role perms tools mode model env one_shot setup :
  host_inv h -> id_unused h child -> child <> parent -> ~ (child ∈ chain) -> NoDup (parent :: chain) ->
  (forall pe, hs_agents h !! parent = Some pe -> e_chain pe = chain) ->
  host_inv (insert_child child parent chain stop name role perms tools mode model env one_shot setup h).
Proof.
  intros Hinv (Hnew & Ht & Hch) Hne Hnc Hnd Hpar.
  eapply (inv_insert h _ child); [done|reflexivity|done|done|done|done|by apply turns_of_nil|..]; cbn.
  - apply NoDup_cons. split; [set_solver|done].
  - split; [|done]. intros [inbox [=]].
  - intros p rest pe [= <- <-] _. apply Hpar.
  - intros b eb rest Hb Hc. exfalso. apply (Hch b eb Hb). rewrite Hc. left.
Qed.

(** A change of one entry with the same chain. *)
Lemma inv_update_one h h' a e e' :
  host_inv h -> hs_agents h !! a = Some e -> hs_agents h' = <[a := e']> (hs_agents h) ->
  e_chain e' = e_chain e -> (is_root e' <-> is_root e) -> (is_root e' -> e_running e' = false) ->
  (entry_queue e' <> [] -> e_running e' = false -> e_paused e' = false -> pending_wake h' a) ->
  length (turns_of h' a) = (if e_running e' then 1 else 0) ->
  (forall b, b <> a -> pending_wake h b -> pending_wake h' b) ->
  (forall b, b <> a -> turns_of h' b = turns_of h b) ->
  host_inv h'.
Proof.
  intros Hinv He Hag Hc Hr Hi Hw Ht Hpw Htu. apply (inv_update h h' Hinv). intros b eb Hb.
  rewrite Hag in Hb. apply lookup_insert_Some in Hb as [[<- <-]|[Hne Hb]].
  - exists e. done.
  - apply entry_kept; eauto.
Qed.

Lemma inv_enqueue h to env r h' :
  host_inv h -> enqueue to env h = (r, h') -> host_inv h'.
Proof.
  intros Hinv. unfold enqueue. destruct (hs_agents h !! to) as [e|] eqn:He; [|by intros [= <- <-]].
  destruct (e_body e) as [inbox|setup history queue] eqn:Hb; [destruct (en_from env)|];
    intros [= <- <-]; try done.
  destruct (Hinv to e He) as [Hw Ht _ _ _ _].
  eapply (inv_update_one h _ to e); [done|done|reflexivity|done|..]; cbn.
  - split; intros [i Hi]; cbn in Hi; congruence.
  - intros [i [=]].
  - intros _ _ _. left. cbn. set_solver.
  - done.
  - intros b _. apply pending_wake_mono; cbn; [set_solver|done|done].
  - done.
Qed.

(** Dropping a pending [pump] is harmless for agents that cannot run. *)
Lemma inv_drop_wake h pre a post :
  host_inv h -> hs_wake h = pre ++ a :: post ->
  (forall e, hs_agents h !! a = Some e ->
     entry_queue e <> [] -> e_running e = false -> e_paused e = false -> False) ->
  host_inv (with_wake h (pre ++ post)).
Proof.
  intros Hinv Hwake Hno. apply (inv_update h _ Hinv). cbn. intros b eb Hb.
  destruct (Hinv b eb Hb) as [Hw Ht _ _ Hi _]. exists eb. split_and!; try done.
  intros Hq Hr Hp. destruct (decide (b = a)) as [->|Hne].
  - exfalso. by eapply Hno.
  - specialize (Hw Hq Hr Hp). unfold pending_wake in *. cbn. rewrite Hwake in Hw. set_solver.
Qed.

Lemma inv_pump h pre a post :
  host_inv h -> hs_wake h = pre ++ a :: post -> host_inv (pump a (with_wake h (pre ++ post))).
Proof.
  intros Hinv Hwake. unfold pump. cbn.
  destruct (hs_agents h !! a) as [e|] eqn:He; [|by eapply inv_drop_wake; eauto; congruence].
  destruct (e_running e || e_paused e) eqn:Hrp.
  { eapply inv_drop_wake; eauto. rewrite He. intros e0 [= <-] _ Hr Hp.
    rewrite Hr, Hp in Hrp. done. }
  apply orb_false_iff in Hrp as [Hr Hp].
  destruct (e_body e) as [inbox|setup history [|env queue]] eqn:Hb.
  1, 2: eapply inv_drop_wake; eauto; rewrite He; intros e0 [= <-]; unfold entry_queue; by rewrite Hb.
  destruct (Hinv a e He) as [Hw Ht _ _ _ _]. rewrite Hr in Ht. apply nil_length_inv in Ht.
  eapply (inv_update_one h _ a e); [done|done|reflexivity|done|..]; cbn.
  - split; intros [i Hi]; cbn in Hi; congruence.
  - intros [i [=]].
  - done.
  - unfold turns_of in *. cbn. rewrite List.filter_app, Ht. cbn. by rewrite bool_decide_eq_true_2.
  - intros b Hne. unfold pending_wake. cbn. rewrite Hwake. set_solver.
  - intros b Hne. unfold turns_of. cbn. rewrite List.filter_app. cbn.
    rewrite bool_decide_eq_false_2 by congruence. by rewrite app_nil_r.
Qed.

Lemma turns_of_other pre post a b (t : Turn Setup Msg) h :
  hs_turns h = pre ++ (b, t) :: post -> a <> b ->
  List.filter (fun p => bool_decide (p.1 = a)) (pre ++ post) = turns_of h a.
Proof.
  intros Ht Hne. unfold turns_of. rewrite Ht, !List.filter_app. cbn.
  by rewrite bool_decide_eq_false_2 by congruence.
Qed.

Lemma inv_turn_end h pre a turn post r messages evs h' :
  host_inv h -> hs_turns h = pre ++ (a, turn) :: post ->
  run_turn_end a turn r messages (pre ++ post) h = (evs, h') -> host_inv h'.
Proof.
  intros Hinv Ht. unfold run_turn_end. intros [= _ <-].
  assert (Hpw : forall b reply, pending_wake h b -> pending_wake
    {| hs_agents := hs_agents h; hs_turns := pre ++ post; hs_finishing := hs_finishing h ++ [(a, reply)];
       hs_wake := hs_wake h; hs_wake_all := hs_wake_all h; hs_fresh := hs_fresh h |} b).
  { intros b reply. apply pending_wake_mono; cbn; [done| |done]. intros c. rewrite fmap_app. set_solver. }
  destruct (hs_agents h !! a) as [e|] eqn:He.
  - destruct (Hinv a e He) as [Hw Hl _ _ _ _].
    eapply (inv_update_one h _ a e); [done|done|reflexivity|done|..]; cbn.
    + unfold is_root, finish_entry, set_run. cbn.
      destruct messages, (e_body e); split; intros [i Hi]; try congruence; by eexists.
    + done.
    + intros _ _ _. right; left. cbn. rewrite fmap_app. set_solver.
    + pose proof (turns_of_remove pre post a a turn h Ht) as Hp.
      apply Permutation_length in Hp. rewrite decide_True in Hp by done. cbn in Hp.
      unfold turns_of in *; cbn in *. destruct (e_running e); lia.
    + intros b _. apply Hpw.
    + intros b Hne. unfold turns_of at 1. cbn. by eapply turns_of_other.
  - apply (inv_update h _ Hinv). cbn. intros b eb Hb. apply entry_kept; [done|done|apply Hpw|].
    unfold turns_of at 1. cbn. eapply turns_of_other; [done|congruence].
Qed.

Lemma inv_finishing h f :
  host_inv h -> (forall a, a ∈ (hs_finishing h).*1 -> a ∈ f.*1 \/ pending_wake (with_finishing h f) a
                            \/ forall e, hs_agents h !! a = Some e -> entry_queue e = []) ->
  host_inv (with_finishing h f).
Proof.
  intros Hinv Hf. apply (inv_update h _ Hinv). cbn. intros b eb Hb.
  destruct (Hinv b eb Hb) as [Hw Ht _ _ Hi _]. exists eb. split_and!; try done.
  intros Hq Hr Hp. destruct (Hw Hq Hr Hp) as [Hin|[Hin|Hin]]; [by left| |by right; right].
  destruct (Hf b Hin) as [Hin'|[?|Hnone]]; [right; by left|done|]. by destruct (Hq (Hnone eb Hb)).
Qed.

Lemma inv_reply h pre a to text post from_name evs h' :
  host_inv h -> hs_finishing h = pre ++ (a, Some (to, text)) :: post ->
  send_reply a to from_name text (pre ++ post) h = (evs, h') -> host_inv h'.
Proof.
  intros Hinv Hf. unfold send_reply.
  destruct (enqueue _ _ _) as [res h1] eqn:Henq. intros [= _ <-].
  eapply inv_enqueue; [|exact Henq]. apply inv_finishing; [done|].
  intros b Hb. left. rewrite Hf in Hb. rewrite !fmap_app in *. cbn in *. set_solver.
Qed.

(** Removing a subtree keeps a part of the table. *)
Lemma remove_subtree_lookup (m : gmap AgentId Entry) target incl m' dropped evs a e :
  remove_subtree m target incl = (m', dropped, evs) ->
  m' !! a = Some e <-> m !! a = Some e /\ in_subtree target incl (a, e) = false.
Proof. unfold remove_subtree. intros [= <- _ _]. by rewrite map_lookup_filter_Some. Qed.

Lemma inv_remove_subtree h target incl m' dropped evs :
  host_inv h -> remove_subtree (hs_agents h) target incl = (m', dropped, evs) ->
  host_inv (with_agents h m').
Proof.
  intros Hinv Hrem. apply (inv_update h _ Hinv). cbn. intros a e He.
  apply (remove_subtree_lookup _ _ _ _ _ _ _ _ Hrem) in He as [He _].
  by apply entry_kept.
Qed.

Lemma inv_retire h pre a post evs h' :
  host_inv h -> hs_finishing h = pre ++ (a, None) :: post ->
  retire_if_done a (pre ++ post) h = (evs, h') -> host_inv h'.
Proof.
  intros Hinv Hf. unfold retire_if_done.
  set (done := match hs_agents h !! a with Some e => _ | None => false end).
  destruct done eqn:Hdone.
  - destruct (remove_subtree _ _ _) as [[m dropped] evs'] eqn:Hrem. intros [= _ <-].
    eapply (inv_remove_subtree (with_finishing h (pre ++ post))); [|exact Hrem].
    apply inv_finishing; [done|]. intros b Hb.
    destruct (decide (b = a)) as [->|Hne].
    + right; right. intros e He. unfold done in Hdone. rewrite He in Hdone.
      unfold entry_queue. destruct (e_body e); [done|].
      apply andb_true_iff in Hdone as [_ Hq]. by destruct queue.
    + left. rewrite Hf in Hb. rewrite !fmap_app in *. cbn in *. set_solver.
  - intros [= _ <-]. apply (inv_update h _ Hinv). cbn. intros b eb Hb.
    apply entry_kept; [done|done| |done]. unfold pending_wake. cbn. rewrite Hf, !fmap_app. cbn. set_solver.
Qed.

Lemma is_root_set_paused e p : is_root (set_paused e p) <-> is_root e.
Proof. done. Qed.

Lemma inv_lifecycle h target action evs h' :
  host_inv h -> lifecycle target action h = (Ok evs, h') -> host_inv h'.
Proof.
  intros Hinv. unfold lifecycle. destruct (hs_agents h !! target) as [e|] eqn:He; [|done].
  destruct (e_body e) as [inbox|setup history queue] eqn:Hb; [done|].
  assert (Hset : forall n p, (p = true /\ n = hs_wake_all h \/ p = false /\ n = S (hs_wake_all h)) ->
    host_inv {| hs_agents := map_imap (fun id e => Some (if bool_decide (id = target)
                    || bool_decide (target ∈ e_chain e) then set_paused e p else e)) (hs_agents h);
                hs_turns := hs_turns h; hs_finishing := hs_finishing h; hs_wake := hs_wake h;
                hs_wake_all := n; hs_fresh := hs_fresh h |}).
  { intros n p Hnp. apply (inv_update h _ Hinv). cbn. intros a ea Ha.
    rewrite map_lookup_imap in Ha. destruct (hs_agents h !! a) as [e0|] eqn:He0; [|done].
    cbn in Ha. injection Ha as <-. destruct (Hinv a e0 He0) as [Hw Ht _ _ Hi _]. exists e0.
    destruct (bool_decide _ || bool_decide _); (split_and!; try done).
    - intros Hq Hr Hp. destruct Hnp as [[-> _]|[_ ->]]; [done|]. right; right. cbn. lia.
    - intros Hq Hr Hp. specialize (Hw Hq Hr Hp). unfold pending_wake in *. cbn.
      destruct Hw as [?|[?|?]]; [by left|by right; left|right; right; lia]. }
  destruct action.
  - rewrite bool_decide_eq_true_2 by done. intros [= _ <-]. apply Hset. by left.
  - rewrite bool_decide_eq_false_2 by done. intros [= _ <-]. apply Hset. by right.
  - destruct (remove_subtree _ _ _) as [[m dropped] evs'] eqn:Hrem. intros [= _ <-].
    by eapply inv_remove_subtree.
  - destruct (remove_subtree _ _ _) as [[m dropped] evs'] eqn:Hrem.
    pose proof (inv_remove_subtree _ _ _ _ _ _ Hinv Hrem) as Hinv'.
    destruct (m !! target) as [e'|] eqn:He'; intros [= _ <-].
    + assert (He2 := He'). apply (remove_subtree_lookup _ _ _ _ _ _ _ _ Hrem) in He2 as [He2 _].
      assert (e' = e) as -> by congruence. destruct (Hinv' target e He') as [Hw Ht _ _ Hi _].
      eapply (inv_update_one (with_agents h m) _ target e); [done|done|reflexivity|done|..]; cbn.
      * rewrite Hb. split; intros [i Hi']; cbn in Hi'; congruence.
      * rewrite Hb. intros [i [=]].
      * intros _ _ _. right; right. cbn. lia.
      * exact Ht.
      * intros b _. apply pending_wake_mono; cbn; try done. lia.
      * done.
    + apply (inv_update _ _ Hinv'). intros a ea Ha. cbn in Ha.
      apply (entry_kept (with_agents h m)); [done|done| |done].
      apply pending_wake_mono; cbn; try done. lia.
Qed.

Lemma inv_wake_all h n : host_inv h -> hs_wake_all h = S n -> host_inv (wake_all h).
Proof.
  intros Hinv _. apply (inv_update h _ Hinv). cbn. intros a e He. apply entry_kept; [done|done| |done].
  intros _. left. cbn. apply elem_of_app. right. apply list_elem_of_fmap.
  exists (a, e). split; [done|]. by apply elem_of_map_to_list.
Qed.

Lemma host_step_inv h ws evs h' : host_step h ws evs h' -> host_inv h -> host_inv h'.
Proof.
  destruct 1; intros Hinv.
  - by apply inv_register_root.
  - by apply inv_insert_child.
  - by eapply inv_enqueue.
  - by eapply inv_pump.
  - by eapply inv_turn_end.
  - by eapply inv_reply.
  - by eapply inv_retire.
  - by eapply inv_lifecycle.
  - by eapply inv_wake_all.
  - match goal with Hr : remove_root _ _ = _ |- _ => unfold remove_root in Hr;
      destruct (remove_subtree _ _ _) as [[m dropped] evs'] eqn:Hrem; injection Hr as _ <- end.
    by eapply inv_remove_subtree.
Qed.

Lemma host_steps_inv h ws evs h' : host_steps h ws evs h' -> host_inv h -> host_inv h'.
Proof. induction 1; [done|]. eauto using host_step_inv. Qed.

(** * Progress *)

(** The steps the host owes: what its own tasks still have to do, without any new
    call from outside. *)
Inductive owed_step : Host -> Host -> Prop :=
| owed_pump h pre a post :
    hs_wake h = pre ++ a :: post -> owed_step h (pump a (with_wake h (pre ++ post)))
| owed_reply h pre a to text post from_name evs h' :
    hs_finishing h = pre ++ (a, Some (to, text)) :: post ->
    send_reply a to from_name text (pre ++ post) h = (evs, h') -> owed_step h h'
| owed_retire h pre a post evs h' :
    hs_finishing h = pre ++ (a, None) :: post ->
    retire_if_done a (pre ++ post) h = (evs, h') -> owed_step h h'
| owed_wake_all h n : hs_wake_all h = S n -> owed_step h (wake_all h).

(** [env] is the oldest message of the idle agent [a]. *)
Definition waits_first h (a : AgentId) (env : Envelope) : Prop :=
  exists e q, hs_agents h !! a = Some e /\ entry_state e = AgentState_Idle /\ entry_queue e = env :: q.
(** The turn of [env] at [a] is running. *)
Definition turn_started h (a : AgentId) (env : Envelope) : Prop :=
  exists turn, (a, turn) ∈ hs_turns h /\ tn_envelope turn = env.

Lemma waits_first_inv h a env :
  waits_first h a env ->
  exists e setup history q, hs_agents h !! a = Some e /\ e_running e = false /\ e_paused e = false
    /\ e_body e = Body_Hosted setup history (env :: q).
Proof.
  intros (e & q & He & Hs & Hq). exists e. unfold entry_state, entry_queue in *.
  destruct (e_body e) as [|setup history queue]; [done|]. destruct (e_running e), (e_paused e); try done.
  exists setup, history, q. by rewrite Hq.
Qed.

Lemma start_from_wake h a env :
  waits_first h a env -> a ∈ hs_wake h -> exists h', owed_step h h' /\ turn_started h' a env.
Proof.
  intros (e & setup & history & q & He & Hr & Hp & Hb)%waits_first_inv (pre & post & Hw)%list_elem_of_split.
  eexists. split; [by eapply owed_pump|]. unfold turn_started, pump. cbn.
  rewrite He, Hr, Hp, Hb. cbn. eexists. split; [apply elem_of_app; right; left|]. done.
Qed.

Lemma start_from_retire h a env :
  waits_first h a env -> (a, None) ∈ hs_finishing h ->
  exists h', rtc owed_step h h' /\ turn_started h' a env.
Proof.
  intros Hwf (pre & post & Hf)%list_elem_of_split.
  pose proof Hwf as (e & setup & history & q & He & Hr & Hp & Hb)%waits_first_inv.
  destruct (retire_if_done a (pre ++ post) h) as [evs h1] eqn:Hret.
  assert (owed_step h h1) as Hstep by (by eapply owed_retire).
  unfold retire_if_done in Hret. rewrite He, Hb in Hret. cbn in Hret. rewrite andb_false_r in Hret.
  injection Hret as <- <-.
  destruct (start_from_wake (with_wake (with_finishing h (pre ++ post)) (hs_wake h ++ [a])) a env)
    as (h2 & Hstep2 & Hs); [by destruct Hwf as (e0 & q0 & ? & ? & ?); exists e0, q0|cbn; set_solver|].
  exists h2. split; [|done]. by eapply rtc_l, rtc_once.
Qed.

Lemma waits_first_enqueue h a env to env' r h' :
  waits_first h a env -> enqueue to env' h = (r, h') ->
  waits_first h' a env /\ hs_finishing h' = hs_finishing h.
Proof.
  intros Hwf. unfold enqueue. destruct (hs_agents h !! to) as [et|] eqn:Het; [|by intros [= <- <-]].
  destruct (e_body et) as [|setup history queue] eqn:Hb; [destruct (en_from env'); by intros [= <- <-]|].
  intros [= <- <-]. split; [|done]. destruct Hwf as (e & q & He & Hs & Hq).
  destruct (decide (a = to)) as [->|Hne].
  - assert (et = e) as -> by congruence. unfold entry_queue in Hq. rewrite Hb in Hq. subst queue.
    eexists _, (q ++ [env']). cbn. rewrite lookup_insert_eq. split_and!; [done| |done].
    unfold entry_state in *. cbn. by rewrite Hb in Hs.
  - exists e, q. cbn. by rewrite lookup_insert_ne.
Qed.

(** C9: No queued message is stranded.  In every state the host can reach, under
    any interleaving of concurrent calls, if an agent is idle and has queued
    messages then the steps the host already owes suffice to start a turn with
    the oldest of them; no further message or call is needed. *)
Theorem queued_message_starts ws evs h a env :
  host_steps host_empty ws evs h -> waits_first h a env ->
  exists h', rtc owed_step h h' /\ turn_started h' a env.
Proof.
  intros Hsteps Hwf. pose proof (host_steps_inv _ _ _ _ Hsteps host_inv_empty) as Hinv.
  pose proof Hwf as (e & setup & history & q & He & Hr & Hp & Hb)%waits_first_inv.
  destruct (eo_wake _ _ _ (Hinv a e He)) as [Hw|[Hf|Hall]]; [|done|done|..].
  - unfold entry_queue. by rewrite Hb.
  - destruct (start_from_wake h a env Hwf Hw) as (h' & Hs & Ht). eauto using rtc_once.
  - apply list_elem_of_fmap in Hf as ([b [[to text]|]] & -> & Hf); [|by apply start_from_retire].
    pose proof Hf as (pre & post & Hsplit)%list_elem_of_split. cbn in *.
    destruct (send_reply b to "" text (pre ++ post) h) as [evs1 h1] eqn:Hrep.
    assert (owed_step h h1) as Hstep by (by eapply owed_reply).
    unfold send_reply in Hrep. destruct (enqueue _ _ _) as [res h2] eqn:Henq. injection Hrep as _ ->.
    eapply waits_first_enqueue in Henq as [Hwf1 Hf1]; [|exact Hwf].
    destruct (start_from_retire h1 b env Hwf1) as (h' & Hs & Ht); [rewrite Hf1; cbn; set_solver|].
    exists h'. split; [by eapply rtc_l|done].
  - destruct (hs_wake_all h) as [|n] eqn:Hn; [lia|].
    destruct (start_from_wake (wake_all h) a env) as (h' & Hs & Ht).
    + destruct Hwf as (e0 & q0 & ? & ? & ?). by exists e0, q0.
    + cbn. apply elem_of_app. right. apply list_elem_of_fmap. exists (a, e). split; [done|].
      by apply elem_of_map_to_list.
    + exists h'. split; [|done]. eapply rtc_l; [by eapply owed_wake_all|by apply rtc_once].
Qed.

(** * Waiters *)
Definition queue_waiters (p : AgentId * Entry) : list Handle := omap en_waiter (entry_queue p.2).
Definition turn_waiters (ts : list (AgentId * Turn Setup Msg)) : list Handle :=
  omap (fun p => en_waiter (tn_envelope p.2)) ts.
(** The callers waiting on a queued message or a running turn. *)
Definition outstanding h : list Handle :=
  gather queue_waiters (hs_agents h) ++ turn_waiters (hs_turns h).
Definition answered (evs : list HostEvent) : list Handle :=
  omap (fun ev => match ev with HostEvent_answer w _ => Some w | _ => None end) evs.

Lemma answered_app evs1 evs2 : answered (evs1 ++ evs2) = answered evs1 ++ answered evs2.
Proof. apply omap_app. Qed.

Lemma answered_notify dropped : answered (notify_dropped dropped) = omap (fun p => en_waiter p.2) dropped.
Proof.
  unfold answered, notify_dropped. induction dropped as [|[id env] l IH]; [done|]. cbn.
  destruct (en_waiter env); cbn; by rewrite IH.
Qed.

Lemma answered_removal (gone : list (AgentId * Entry)) :
  answered (concat ((fun '(id, e) =>
      HostEvent_cancel (e_stop e) :: HostEvent_forget_lock id ::
      match e_body e with Body_Hosted _ _ _ => [HostEvent_unregister id] | Body_Root _ => [] end) <$> gone)) = [].
Proof.
  induction gone as [|[id e] l IH]; [done|]. cbn. by destruct (e_body e).
Qed.

Lemma dropped_waiters (gone : list (AgentId * Entry)) :
  omap (fun p : AgentId * Envelope => en_waiter p.2)
    (concat ((fun '(id, e) => (fun env => (id, env)) <$> entry_queue e) <$> gone))
  = concat (queue_waiters <$> gone).
Proof.
  induction gone as [|[id e] l IH]; [done|]. cbn. rewrite omap_app, IH. f_equal.
  unfold queue_waiters. cbn. induction (entry_queue e) as [|env q IHq]; [done|]. cbn.
  destruct (en_waiter env); by rewrite IHq.
Qed.

(** A removal answers exactly the waiters queued in the subtree. *)
Lemma removal_answers (m : gmap AgentId Entry) target incl m' dropped evs :
  remove_subtree m target incl = (m', dropped, evs) ->
  gather queue_waiters m ≡ₚ answered (evs ++ notify_dropped dropped) ++ gather queue_waiters m'.
Proof.
  unfold remove_subtree. intros [= <- <- <-].
  rewrite answered_app, answered_removal, answered_notify, dropped_waiters.
  apply gather_filter.
Qed.

Lemma gather_replace (m : gmap AgentId Entry) a e e' :
  m !! a = Some e -> queue_waiters (a, e') = queue_waiters (a, e) ->
  gather queue_waiters (<[a := e']> m) ≡ₚ gather queue_waiters m.
Proof. intros Ha Hq. by rewrite gather_insert, Hq, <-gather_lookup. Qed.

Lemma root_queue_waiters a e : is_root e -> queue_waiters (a, e) = [].
Proof. intros [i Hi]. unfold queue_waiters, entry_queue. cbn. by rewrite Hi. Qed.

Lemma enqueue_waiters h to env evs h' :
  enqueue to env h = (Ok evs, h') ->
  outstanding h ++ (if decide (evs = []) then option_list (en_waiter env) else [])
  ≡ₚ answered evs ++ outstanding h'.
Proof.
  unfold enqueue. destruct (hs_agents h !! to) as [e|] eqn:He; [|done].
  destruct (e_body e) as [inbox|setup history queue] eqn:Hb.
  { destruct (en_from env); [|done]. intros [= <- <-]. by rewrite app_nil_r. }
  intros [= <- <-]. rewrite decide_True by done. unfold outstanding. cbn.
  rewrite gather_insert, (gather_lookup queue_waiters (hs_agents h) to e He).
  unfold queue_waiters at 1 3. unfold entry_queue. cbn. rewrite Hb, omap_app. cbn.
  assert ((match en_waiter env with Some y => [y] | None => [] end) = option_list (en_waiter env)) as ->
    by (by destruct (en_waiter env)).
  rewrite <-!app_assoc. apply Permutation_app_head.
  by rewrite !app_assoc, Permutation_app_comm, <-!app_assoc.
Qed.

Lemma pump_waiters h w a : outstanding (pump a (with_wake h w)) ≡ₚ outstanding h.
Proof.
  unfold pump. cbn. destruct (hs_agents h !! a) as [e|] eqn:He; [|done].
  destruct (e_running e || e_paused e); [done|].
  destruct (e_body e) as [|setup history [|env queue]] eqn:Hb; [done|done|].
  unfold outstanding. cbn. rewrite gather_insert, (gather_lookup queue_waiters (hs_agents h) a e He).
  unfold turn_waiters. rewrite omap_app. unfold queue_waiters at 1 3. unfold entry_queue. cbn. rewrite Hb. cbn.
  destruct (en_waiter env); cbn; [|by rewrite app_nil_r].
  rewrite !app_assoc. by rewrite <-Permutation_cons_append.
Qed.

Lemma turn_end_waiters h pre a turn post r messages evs h' :
  hs_turns h = pre ++ (a, turn) :: post ->
  run_turn_end a turn r messages (pre ++ post) h = (evs, h') ->
  outstanding h ≡ₚ answered evs ++ outstanding h'.
Proof.
  intros Ht. unfold run_turn_end. intros [= <- <-]. unfold outstanding. cbn. rewrite Ht.
  unfold turn_waiters. rewrite !omap_app. cbn.
  assert (gather queue_waiters match hs_agents h !! a with
            | Some e => <[a := finish_entry e r messages]> (hs_agents h)
            | None => hs_agents h end ≡ₚ gather queue_waiters (hs_agents h)) as ->.
  { destruct (hs_agents h !! a) as [e|] eqn:He; [|done]. apply (gather_replace _ _ e); [done|].
    unfold queue_waiters, entry_queue, finish_entry. cbn. by destruct messages, (e_body e). }
  destruct (en_waiter (tn_envelope turn)); cbn; [|done].
  rewrite !app_assoc. by rewrite <-Permutation_middle.
Qed.

Lemma register_waiters h a name perms tools mode model env inbox :
  id_for_root h a ->
  outstanding (register_root a name perms tools mode model env inbox h) ≡ₚ outstanding h.
Proof.
  intros Hid. unfold register_root.
  destruct (match hs_agents h !! a with Some e => _ | None => _ end) as [turns last_reply].
  unfold outstanding. cbn. apply Permutation_app_tail. destruct Hid as [(e & He & Hr)|(He & _)].
  - apply (gather_replace _ _ e); [done|]. by rewrite (root_queue_waiters a e Hr).
  - by rewrite gather_insert_new.
Qed.

Lemma lifecycle_waiters h target action evs h' :
  lifecycle target action h = (Ok evs, h') -> outstanding h ≡ₚ answered evs ++ outstanding h'.
Proof.
  unfold lifecycle. destruct (hs_agents h !! target) as [e|] eqn:He; [|done].
  destruct (e_body e) as [inbox|setup history queue] eqn:Hb; [done|].
  assert (Himap : forall p, gather queue_waiters (map_imap (fun id e => Some (if bool_decide (id = target)
            || bool_decide (target ∈ e_chain e) then set_paused e p else e)) (hs_agents h))
          ≡ₚ gather queue_waiters (hs_agents h)).
  { intros p. apply (gather_imap queue_waiters (fun id e => if bool_decide (id = target)
      || bool_decide (target ∈ e_chain e) then set_paused e p else e)).
    intros k v. by destruct (bool_decide _ || bool_decide _). }
  destruct action.
  1, 2: rewrite ?bool_decide_eq_true_2, ?bool_decide_eq_false_2 by done; intros [= <- <-];
    unfold outstanding; cbn; by rewrite Himap.
  - destruct (remove_subtree _ _ _) as [[m dropped] evs'] eqn:Hrem. intros [= <- <-].
    unfold outstanding. cbn. rewrite (removal_answers _ _ _ _ _ _ Hrem). by rewrite app_assoc.
  - destruct (remove_subtree _ _ _) as [[m dropped] evs'] eqn:Hrem.
    pose proof (removal_answers _ _ _ _ _ _ Hrem) as Hans. rewrite answered_app in Hans.
    destruct (m !! target) as [e'|] eqn:He'; intros [= <- <-]; unfold outstanding; cbn.
    + rewrite Hans, !answered_app. cbn. rewrite <-!app_assoc. do 2 apply Permutation_app_head.
      apply Permutation_app_tail. symmetry. apply (gather_replace _ _ e'); [done|].
      unfold queue_waiters, entry_queue. cbn. by destruct (e_body e').
    + rewrite Hans, answered_app. by rewrite <-!app_assoc.
Qed.

Lemma host_step_waiters h ws evs h' :
  host_step h ws evs h' -> outstanding h ++ ws ≡ₚ answered evs ++ outstanding h'.
Proof.
  destruct 1 as [h a name perms tools mode model env inbox Hid
    |h child parent chain stop name role perms tools mode model env one_shot setup (Hnew & _)
    |h to env evs h' Henq|h pre a post Hw|h pre a turn post r messages evs h' Ht Hend
    |h pre a to text post from_name evs h' Hf Hrep|h pre a post evs h' Hf Hret
    |h target action evs h' Hl|h n Hn|h root e evs h' He Hr Hrem]; rewrite ?app_nil_r.
  - by rewrite register_waiters.
  - unfold outstanding. cbn. by rewrite gather_insert_new.
  - by eapply enqueue_waiters.
  - by rewrite pump_waiters.
  - by eapply turn_end_waiters.
  - unfold send_reply in Hrep. destruct (enqueue _ _ _) as [[evs1|err] h1] eqn:Henq; injection Hrep as <- <-.
    + pose proof (enqueue_waiters _ _ _ _ _ Henq) as Hout. cbn in Hout. rewrite <-Hout.
      destruct (decide (evs1 = [])); by rewrite app_nil_r.
    + unfold enqueue in Henq. cbn in Henq. destruct (hs_agents h !! to) as [e|]; [|by injection Henq as <- <-].
      by destruct (e_body e).
  - unfold retire_if_done in Hret. destruct (match hs_agents h !! a with Some e => _ | None => false end).
    + destruct (remove_subtree _ _ _) as [[m dropped] evs'] eqn:Hrem. injection Hret as <- <-.
      unfold outstanding. cbn in *. rewrite (removal_answers _ _ _ _ _ _ Hrem). by rewrite app_assoc.
    + by injection Hret as <- <-.
  - by eapply lifecycle_waiters.
  - done.
  - unfold remove_root in Hrem. destruct (remove_subtree _ _ _) as [[m dropped] evs'] eqn:Hrs.
    injection Hrem as <- <-. unfold outstanding. cbn. rewrite (removal_answers _ _ _ _ _ _ Hrs).
    by rewrite app_assoc.
Qed.

(** C29: Every waiter is answered exactly once.  Along any run of the host from the
    empty table, the callers that queued a message with a waiter are, counted
    with multiplicity, those answered so far and those still outstanding (on a
    queued message or a running turn); so once nothing is outstanding each has
    had exactly one answer, whether its turn ran, its agent was stopped,
    restarted above it or retired, or its root removed. *)
Theorem waiters_answered_once ws evs h :
  host_steps host_empty ws evs h ->
  ws ≡ₚ answered evs ++ outstanding h
  /\ (outstanding h = [] -> forall w, length (List.filter (fun x => bool_decide (x = w)) (answered evs))
                                      = length (List.filter (fun x => bool_decide (x = w)) ws)).
Proof.
  intros Hs. assert (ws ≡ₚ answered evs ++ outstanding h) as Hp.
  { remember host_empty as h0 eqn:E0. induction Hs as [h|h ws evs h' ws1 evs1 h'' Hs IH Hstep].
    - subst. unfold outstanding. cbn. by rewrite gather_empty.
    - apply host_step_waiters in Hstep. rewrite answered_app, <-app_assoc, <-Hstep, app_assoc.
      by rewrite <-IH. }
  split; [done|]. intros Hout w. rewrite Hout, app_nil_r in Hp.
  assert (Hperm : forall l l' : list Handle, l ≡ₚ l' ->
    length (List.filter (fun x => bool_decide (x = w)) l) = length (List.filter (fun x => bool_decide (x = w)) l')).
  { induction 1 as [|x l l' _ IHl|x y l|l1 l2 l3 _ IH1 _ IH2]; cbn; [done| | |congruence];
      repeat case_bool_decide; cbn; congruence. }
  symmetry. by apply Hperm.
Qed.

(** * Stopping *)

(** Stopping a hosted agent removes exactly the agent and its descendants and
    leaves every other entry as it was; each removed agent's token is cancelled,
    and each caller waiting on a message queued in the subtree is told that the
    agent was cancelled. *)
Theorem stop_removes_subtree h target evs h' :
  lifecycle target LifecycleAction_Stop h = (Ok evs, h') ->
  (forall a e, hs_agents h' !! a = Some e <->
     hs_agents h !! a = Some e /\ a <> target /\ ~ (target ∈ e_chain e))
  /\ (forall a e, hs_agents h !! a = Some e -> a = target \/ target ∈ e_chain e ->
       HostEvent_cancel (e_stop e) ∈ evs
       /\ forall env w, env ∈ entry_queue e -> en_waiter env = Some w ->
            HostEvent_answer w (cancelled a) ∈ evs).
Proof.
  unfold lifecycle. destruct (hs_agents h !! target) as [et|] eqn:He; [|done].
  destruct (e_body et); [done|].
  destruct (remove_subtree _ _ _) as [[m dropped] evs'] eqn:Hrem. intros [= <- <-]. cbn. split.
  - intros a e. rewrite (remove_subtree_lookup _ _ _ _ _ _ _ _ Hrem). unfold in_subtree. cbn.
    rewrite orb_false_iff, !bool_decide_eq_false. done.
  - intros a e Ha Hin. unfold remove_subtree in Hrem. injection Hrem as _ <- <-.
    assert ((a, e) ∈ List.filter (in_subtree target true) (map_to_list (hs_agents h))) as Hgone.
    { rewrite list_elem_of_In, List.filter_In, <-list_elem_of_In, elem_of_map_to_list.
      split; [done|]. unfold in_subtree. cbn. rewrite orb_true_iff, !bool_decide_eq_true. done. }
    split.
    + apply elem_of_app. left. rewrite list_elem_of_In, List.in_concat. eexists.
      split; [apply List.in_map_iff; exists (a, e); split; [reflexivity|by apply list_elem_of_In]|by left].
    + intros env w Henv Hw. apply elem_of_app. right. unfold notify_dropped.
      apply list_elem_of_omap. exists (a, env). rewrite Hw. split; [|done].
      rewrite list_elem_of_In, List.in_concat. eexists.
      split; [apply List.in_map_iff; exists (a, e); split; [reflexivity|by apply list_elem_of_In]|].
      apply list_elem_of_In, list_elem_of_fmap. eauto.
Qed.

(** * Replies *)

(** The message a turn sends on its own when it ends with result [r]: nothing
    from a root, whose turns the host does not run. *)
Definition next_message (m : gmap AgentId Entry) (p : AgentId * Envelope) (r : SubagentResult)
  : option (AgentId * Envelope) :=
  let '(a, env) := p in
  e ← m !! a;
  match e_body e with
  | Body_Root _ => None
  | Body_Hosted _ _ _ =>
      to ← reply_to e env;
      Some (to, {| en_from := Some a; en_from_name := e_name e; en_kind := MessageKind_Reply;
                   en_text := reply_text r; en_waiter := None; en_events := None; en_cancel := None |})
  end.
(** The messages caused by [p], one per result. *)
Fixpoint cascade (m : gmap AgentId Entry) (p : AgentId * Envelope) (rs : list SubagentResult)
  : option (AgentId * Envelope) :=
  match rs with
  | [] => Some p
  | r :: rs => p' ← next_message m p r; cascade m p' rs
  end.

Lemma cascade_reply h a env rs :
  host_inv h -> en_kind env = MessageKind_Reply ->
  (forall e, hs_agents h !! a = Some e -> length (e_chain e) < length rs) -> rs <> [] ->
  cascade (hs_agents h) (a, env) rs = None.
Proof.
  intros Hinv. revert a env. induction rs as [|r rs IH]; [done|]. intros a env Hk Hlen _.
  cbn. destruct (hs_agents h !! a) as [e|] eqn:He; [cbn|done].
  destruct (e_body e); [done|]. unfold reply_to. rewrite Hk. unfold entry_parent.
  destruct (e_chain e) as [|p rest] eqn:Hc; [done|]. cbn. specialize (Hlen e eq_refl).
  rewrite Hc in Hlen. cbn in Hlen. apply IH; [done| |by destruct rs; cbn in *; [lia|]].
  intros pe Hpe. destruct (Hinv a e He) as [_ _ _ _ _ Hp]. rewrite (Hp p rest pe Hc Hpe). lia.
Qed.

(** Replies do not bounce forever.  In every reachable state, whatever message
    an agent handles, the chain of messages the host sends on its own (the answer
    to a request, then the reports up the ancestors) has at most one message more
    than the deepest agent has ancestors: a chain long enough to exceed that does
    not exist. *)
Theorem reply_cascade_bounded ws evs h max a env rs :
  host_steps host_empty ws evs h ->
  (forall b e, hs_agents h !! b = Some e -> length (e_chain e) <= max) ->
  max + 1 < length rs -> cascade (hs_agents h) (a, env) rs = None.
Proof.
  intros Hs Hmax Hlen. pose proof (host_steps_inv _ _ _ _ Hs host_inv_empty) as Hinv.
  destruct rs as [|r rs]; [cbn in Hlen; lia|]. cbn in Hlen |- *.
  destruct (hs_agents h !! a) as [e|]; [cbn|done]. destruct (e_body e); [done|].
  destruct (reply_to e env) as [to|]; [cbn|done].
  apply cascade_reply; [done|done| |by destruct rs; cbn in *; [lia|]].
  intros b Hb%Hmax. lia.
Qed.

(** The host never runs two turns of one agent: in every reachable state an
    agent of the table has exactly one turn in flight when it is marked running
    and none otherwise, roots never run, and no agent is among its own
    ancestors, which are distinct. *)
Theorem host_single_turn ws evs h a e :
  host_steps host_empty ws evs h -> hs_agents h !! a = Some e ->
  length (turns_of h a) = (if e_running e then 1 else 0)
  /\ (entry_state e = AgentState_Root -> e_running e = false)
  /\ NoDup (a :: e_chain e).
Proof.
  intros Hs He. pose proof (host_steps_inv _ _ _ _ Hs host_inv_empty a e He) as [_ Ht Hn _ Hi _].
  split_and!; [done| |done]. intros Hr. apply Hi. unfold entry_state, is_root in *.
  destruct (e_body e); [by eexists|]. destruct (e_running e), (e_paused e); done.
Qed.
End HostProps.

(** * Witnesses: a root, its child, and one queued message. *)
Module HostWitness.
#[local] Existing Instance lower_hex.
Abbreviation Host := (HostState unit unit).
Definition root_id : AgentId := arr_fill 32 "001"%byte.
Definition child_id : AgentId := arr_fill 32 "002"%byte.
Definition env0 : AgentEnv :=
  {| ae_workspace := None; ae_user_tool_defaults := utd_full_access; ae_originating_user_id := None |}.
Definition msg : Envelope :=
  {| en_from := Some root_id; en_from_name := "root"; en_kind := MessageKind_Request; en_text := "go";
     en_waiter := Some 7; en_events := None; en_cancel := None |}.
Definition h1 : Host :=
  register_root root_id "root" Permissions_full_access None AgentMode_Agent "m" env0 None host_empty.
Definition h2 : Host :=
  insert_child child_id root_id [] (Token_new 0) "child" "worker" Permissions_empty atp_new
    AgentMode_Agent "m" env0 false tt h1.
Definition h3 : Host := (enqueue child_id msg h2).2.

Lemma roots_h1 b e : hs_agents h1 !! b = Some e -> e_chain e = [].
Proof.
  apply (map_Forall_lookup_1 (fun _ e => e_chain e = [])).
  apply (bool_decide_unpack _). vm_compute. exact I.
Qed.

Lemma run_h3 : host_steps host_empty [7] [] h3.
Proof.
  change [7] with (([] ++ []) ++ [] ++ [7]). change (@nil HostEvent) with ((@nil HostEvent ++ []) ++ []).
  eapply host_steps_snoc; [eapply host_steps_snoc; [eapply (host_steps_snoc _ [] []); [constructor|]|]|].
  - apply (step_register_root host_empty root_id "root" Permissions_full_access None AgentMode_Agent "m" env0 None).
    right. split_and!; [done|set_solver|]. intros b e Hb. cbn in Hb. by rewrite lookup_empty in Hb.
  - apply (step_insert_child h1 child_id root_id [] (Token_new 0) "child" "worker" Permissions_empty atp_new
             AgentMode_Agent "m" env0 false tt).
    + split_and!; [by vm_compute|cbn; set_solver|]. intros b e Hb.
      assert (e_chain e = []) as -> by (by eapply roots_h1). set_solver.
    + apply (bool_decide_unpack _). by vm_compute.
    + set_solver.
    + apply NoDup_singleton.
    + intros pe. apply roots_h1.
  - exact (step_enqueue h2 child_id msg [] h3 eq_refl).
Qed.

Lemma waits_h3 : waits_first h3 child_id msg.
Proof. eexists _, []. split; [reflexivity|]. split; reflexivity. Qed.

Lemma queued_message_starts_witness :
  waits_first h3 child_id msg /\ exists h', rtc owed_step h3 h' /\ turn_started h' child_id msg.
Proof.
  split; [exact waits_h3|].
  apply (queued_message_starts [7] [] h3 child_id msg run_h3 waits_h3).
Defined.

Lemma waiters_answered_once_witness : [7] ≡ₚ answered [] ++ outstanding h3.
Proof. apply (waiters_answered_once [7] [] h3 run_h3). Defined.

Lemma stop_removes_subtree_witness :
  exists evs h', lifecycle child_id LifecycleAction_Stop h3 = (Ok evs, h')
    /\ hs_agents h' !! child_id = None.
Proof.
  eexists _, _. split; [reflexivity|].
  match goal with |- hs_agents ?x !! _ = None => destruct (hs_agents x !! child_id) as [e|] eqn:He; [|reflexivity] end.
  exfalso.
  refine (proj1 (proj2 (proj1 (proj1 (stop_removes_subtree h3 child_id _ _ _) child_id e) _)) eq_refl);
    [reflexivity|exact He].
Defined.

Definition ok_result : SubagentResult := SubagentResult_completed child_id "done".
Lemma reply_cascade_bounded_witness :
  cascade (hs_agents h3) (child_id, msg) [ok_result; ok_result; ok_result] = None.
Proof.
  apply (reply_cascade_bounded [7] [] h3 1 child_id msg [ok_result; ok_result; ok_result] run_h3).
  - intros b e. apply (map_Forall_lookup_1 (fun _ e => length (e_chain e) <= 1)).
    apply (bool_decide_unpack _). vm_compute. exact I.
  - cbn. lia.
Defined.

Lemma host_single_turn_witness :
  exists e, hs_agents h3 !! child_id = Some e /\ NoDup (child_id :: e_chain e).
Proof.
  eexists. split; [reflexivity|].
  refine (proj2 (proj2 (host_single_turn [7] [] h3 child_id _ run_h3 _))). reflexivity.
Defined.
End HostWitness.
