(* ===== verification/ModelRequest.v ===== *)
(** Requests to the model: messages ([aura-model-reasoner/src/types/message.rs]),
    the typed request and its builder ([types/request.rs]), tool definitions
    ([aura-core-types/src/types/reasoner_types.rs]), the prompt cache key
    ([aura-protocol/src/client.rs]), and the content profile and contract every
    outgoing request is checked against ([types/content_profile.rs]).

    [f32] is the binary32 format of [SpecFloat] (precision 24, maximal exponent
    128).  [serde_json::to_string] is the [Serde json] instance: it writes the
    bytes of [to_vec]. *)
From S2P Require Import Prelude Values Utf8 Permissions CoreTypes Context.
From stdpp Require Import list pretty.
From Stdlib Require Import Ascii Strings.Byte SpecFloat.

(** * Messages *)
Inductive Role := Role_User | Role_Assistant.
#[export] Instance Role_eq_dec : EqDecision Role.
Proof. solve_decision. Defined.
Definition Role_debug (r : Role) : string :=
  match r with Role_User => "User" | Role_Assistant => "Assistant" end.

Record Message := { msg_role : Role; msg_content : list ContentBlock }.

Definition as_text (b : ContentBlock) : option string :=
  match b with ContentBlock_Text t => Some t | _ => None end.
Definition is_tool_use (b : ContentBlock) : bool :=
  match b with ContentBlock_ToolUse _ _ _ => true | _ => false end.

Definition Message_user (text : string) : Message :=
  {| msg_role := Role_User; msg_content := [ContentBlock_Text text] |}.
Definition Message_assistant (text : string) : Message :=
  {| msg_role := Role_Assistant; msg_content := [ContentBlock_Text text] |}.
Definition Message_tool_results (results : list (string * ToolResultContent * bool)) : Message :=
  {| msg_role := Role_User;
     msg_content := (fun '(id, content, is_error) => ContentBlock_ToolResult id content is_error)
                      <$> results |}.
Definition text_content (m : Message) : string :=
  foldr String.append EmptyString (omap as_text (msg_content m)).
Definition tool_uses (m : Message) : list ContentBlock := List.filter is_tool_use (msg_content m).
Definition has_tool_use (m : Message) : bool := existsb is_tool_use (msg_content m).

(** * Tools *)
Record CacheControl := { cache_type : string }.
Record ToolDefinition := {
  td_name : string;
  td_description : string;
  td_input_schema : json;
  td_cache_control : option CacheControl;
  td_eager_input_streaming : option bool;
}.
Definition ToolDefinition_new (name description : string) (input_schema : json) : ToolDefinition :=
  {| td_name := name; td_description := description; td_input_schema := input_schema;
     td_cache_control := None; td_eager_input_streaming := None |}.
Inductive ToolChoice :=
| ToolChoice_Auto | ToolChoice_None | ToolChoice_Required | ToolChoice_Tool (name : string).

(** * Request primitives *)
Record ThinkingConfig := { budget_tokens : Z }.
Inductive ThinkingEffort :=
| ThinkingEffort_Off | ThinkingEffort_Minimal | ThinkingEffort_Low | ThinkingEffort_Medium
| ThinkingEffort_High | ThinkingEffort_XHigh | ThinkingEffort_Max.
#[export] Instance ThinkingEffort_eq_dec : EqDecision ThinkingEffort.
Proof. solve_decision. Defined.

Definition from_wire (s : string) : option ThinkingEffort :=
  let w := to_ascii_lowercase (trim s) in
  if bool_decide (w = "off") then Some ThinkingEffort_Off
  else if bool_decide (w = "minimal") then Some ThinkingEffort_Minimal
  else if bool_decide (w = "low") then Some ThinkingEffort_Low
  else if bool_decide (w = "medium") then Some ThinkingEffort_Medium
  else if bool_decide (w = "high") then Some ThinkingEffort_High
  else if bool_decide (w = "xhigh") then Some ThinkingEffort_XHigh
  else if bool_decide (w = "max") then Some ThinkingEffort_Max
  else None.
Definition reasoning_effort_wire (e : ThinkingEffort) : option string :=
  match e with
  | ThinkingEffort_Off => None
  | ThinkingEffort_Minimal => Some "minimal"
  | ThinkingEffort_Low => Some "low"
  | ThinkingEffort_Medium => Some "medium"
  | ThinkingEffort_High => Some "high"
  | ThinkingEffort_XHigh => Some "xhigh"
  | ThinkingEffort_Max => Some "max"
  end.

Inductive PromptCacheRetention := PromptCacheRetention_InMemory | PromptCacheRetention_Hours24.
Definition retention_wire (r : PromptCacheRetention) : string :=
  match r with PromptCacheRetention_InMemory => "in_memory" | PromptCacheRetention_Hours24 => "24h" end.

Inductive ModelRequestKind :=
| ModelRequestKind_Chat | ModelRequestKind_ProjectToolSpecGen
| ModelRequestKind_ProjectToolTaskExtract | ModelRequestKind_DevLoopBootstrap
| ModelRequestKind_DevLoopContinuation | ModelRequestKind_Auxiliary.
#[export] Instance ModelRequestKind_eq_dec : EqDecision ModelRequestKind.
Proof. solve_decision. Defined.
Definition ModelRequestKind_debug (k : ModelRequestKind) : string :=
  match k with
  | ModelRequestKind_Chat => "Chat"
  | ModelRequestKind_ProjectToolSpecGen => "ProjectToolSpecGen"
  | ModelRequestKind_ProjectToolTaskExtract => "ProjectToolTaskExtract"
  | ModelRequestKind_DevLoopBootstrap => "DevLoopBootstrap"
  | ModelRequestKind_DevLoopContinuation => "DevLoopContinuation"
  | ModelRequestKind_Auxiliary => "Auxiliary"
  end.
Record ModelRequestMetadata := { md_kind : option ModelRequestKind }.

(** The one [ReasonerError] the request layer raises. *)
Inductive RequestError := RequestError_Internal (message : string).

Definition ModelName_try_new (name : string) : result RequestError string :=
  if trim_is_empty name then Err (RequestError_Internal "model name must not be empty") else Ok name.
Definition MaxTokens_try_new (value : Z) : result RequestError Z :=
  if (value =? 0)%Z then Err (RequestError_Internal "max_tokens must be > 0") else Ok value.

(** [f32]. *)
Definition f32_lit (num den : Z) : spec_float :=
  SFdiv 24 128 (binary_normalize 24 128 num 0 false) (binary_normalize 24 128 den 0 false).
Definition f32_is_finite (v : spec_float) : bool :=
  match v with S754_zero _ | S754_finite _ _ _ => true | _ => false end.
Definition Temperature_try_new (display : spec_float -> string) (value : spec_float)
  : result RequestError spec_float :=
  if f32_is_finite value && SFleb (f32_lit 0 1) value && SFleb value (f32_lit 2 1) then Ok value
  else Err (RequestError_Internal
              ("temperature " +++ display value +++ " is outside the allowed range 0.0..=2.0")).

Definition MAX_PROMPT_CACHE_KEY_LEN : Z := 64.

Section Request.
Context `{Hhash : Blake3} `{Hhex : Hex} `{Hjson : !Serde json}.

(** [blake3::Hash::to_hex] is lower-case hexadecimal, as [hex::encode]. *)
Definition clamp_prompt_cache_key (key : string) : string :=
  if (str_len key <=? MAX_PROMPT_CACHE_KEY_LEN)%Z then key
  else
    let hash := hex_encode (arr_bytes (blake3_hash (string_to_bytes key))) in
    let digest := String.substring 0 32 hash in
    let prefix := default EmptyString (head (split_on ":"%char key)) in
    let max_prefix := (MAX_PROMPT_CACHE_KEY_LEN - str_len digest - 1)%Z in
    chars_take (Z.to_nat max_prefix) prefix +++ ":" +++ digest.

(** * The request and its builder *)
Record ModelRequestData := {
  mr_model : string;
  mr_system : string;
  mr_messages : list Message;
  mr_tools : list ToolDefinition;
  mr_tool_choice : ToolChoice;
  mr_max_tokens : Z;
  mr_temperature : option spec_float;
  mr_thinking : option ThinkingConfig;
  mr_thinking_effort : option ThinkingEffort;
  mr_parallel_tool_use : bool;
  mr_auth_token : option string;
  mr_upstream_provider_family : option string;
  mr_extra_headers : list (string * string);
  mr_aura_project_id : option string;
  mr_aura_agent_id : option string;
  mr_aura_session_id : option string;
  mr_aura_org_id : option string;
  mr_prompt_cache_key : option string;
  mr_prompt_cache_retention : option PromptCacheRetention;
  mr_metadata : ModelRequestMetadata;
}.

Record ModelRequestBuilder := {
  mb_model : string;
  mb_system : string;
  mb_messages : list Message;
  mb_tools : list ToolDefinition;
  mb_tool_choice : ToolChoice;
  mb_max_tokens : Z;
  mb_temperature : option spec_float;
  mb_thinking : option ThinkingConfig;
  mb_thinking_effort : option ThinkingEffort;
  mb_parallel_tool_use : bool;
  mb_auth_token : option string;
  mb_upstream_provider_family : option string;
  mb_aura_project_id : option string;
  mb_aura_agent_id : option string;
  mb_aura_session_id : option string;
  mb_aura_org_id : option string;
  mb_prompt_cache_key : option string;
  mb_prompt_cache_retention : option PromptCacheRetention;
  mb_metadata : ModelRequestMetadata;
}.

Definition ModelRequestBuilder_new (model system : string) : ModelRequestBuilder := {|
  mb_model := model; mb_system := system; mb_messages := []; mb_tools := [];
  mb_tool_choice := ToolChoice_Auto; mb_max_tokens := 4096; mb_temperature := None;
  mb_thinking := None; mb_thinking_effort := None; mb_parallel_tool_use := true;
  mb_auth_token := None; mb_upstream_provider_family := None; mb_aura_project_id := None;
  mb_aura_agent_id := None; mb_aura_session_id := None; mb_aura_org_id := None;
  mb_prompt_cache_key := None; mb_prompt_cache_retention := None;
  mb_metadata := {| md_kind := None |} |}.

Definition try_build (display : spec_float -> string) (b : ModelRequestBuilder)
  : result RequestError ModelRequestData :=
  model ← ModelName_try_new (mb_model b);
  max_tokens ← MaxTokens_try_new (mb_max_tokens b);
  temperature ← (match mb_temperature b with
                 | Some t => Some <$> Temperature_try_new display t
                 | None => Ok None
                 end);
  Ok {| mr_model := model; mr_system := mb_system b; mr_messages := mb_messages b;
        mr_tools := mb_tools b; mr_tool_choice := mb_tool_choice b; mr_max_tokens := max_tokens;
        mr_temperature := temperature; mr_thinking := mb_thinking b;
        mr_thinking_effort := mb_thinking_effort b;
        mr_parallel_tool_use := mb_parallel_tool_use b; mr_auth_token := mb_auth_token b;
        mr_upstream_provider_family := mb_upstream_provider_family b; mr_extra_headers := [];
        mr_aura_project_id := mb_aura_project_id b; mr_aura_agent_id := mb_aura_agent_id b;
        mr_aura_session_id := mb_aura_session_id b; mr_aura_org_id := mb_aura_org_id b;
        mr_prompt_cache_key := clamp_prompt_cache_key <$> mb_prompt_cache_key b;
        mr_prompt_cache_retention := mb_prompt_cache_retention b;
        mr_metadata := mb_metadata b |}.

(** * The content profile *)
Definition DEV_LOOP_BOOTSTRAP_LAST_USER_MAX_BYTES : Z := 16 * 1024.
Definition DEV_LOOP_BOOTSTRAP_TOTAL_TEXT_MAX_BYTES : Z := 24 * 1024.
Definition PROJECT_TOOL_LAST_USER_MAX_BYTES : Z := 32 * 1024.
Definition PROJECT_TOOL_TOTAL_TEXT_MAX_BYTES : Z := 48 * 1024.

Inductive ModelContractVerdict :=
| ModelContractVerdict_Accept | ModelContractVerdict_Warn | ModelContractVerdict_Block.
#[export] Instance ModelContractVerdict_eq_dec : EqDecision ModelContractVerdict.
Proof. solve_decision. Defined.
Definition ModelContractVerdict_debug (v : ModelContractVerdict) : string :=
  match v with
  | ModelContractVerdict_Accept => "Accept" | ModelContractVerdict_Warn => "Warn"
  | ModelContractVerdict_Block => "Block"
  end.
Inductive ModelContractViolationReason :=
| MissingStableSessionId | UnboundedBootstrapContext | EmergencyCapRequired
| OversizedToolResult | UnknownRequestKind.
#[export] Instance ModelContractViolationReason_eq_dec : EqDecision ModelContractViolationReason.
Proof. solve_decision. Defined.
Definition reason_debug (r : ModelContractViolationReason) : string :=
  match r with
  | MissingStableSessionId => "MissingStableSessionId"
  | UnboundedBootstrapContext => "UnboundedBootstrapContext"
  | EmergencyCapRequired => "EmergencyCapRequired"
  | OversizedToolResult => "OversizedToolResult"
  | UnknownRequestKind => "UnknownRequestKind"
  end.

Record ModelContentProfile := {
  cp_kind : ModelRequestKind;
  cp_verdict : ModelContractVerdict;
  cp_reasons : list ModelContractViolationReason;
  cp_has_aura_project_id : bool;
  cp_has_aura_agent_id : bool;
  cp_has_aura_session_id : bool;
  cp_has_aura_org_id : bool;
  cp_system_bytes : Z;
  cp_messages_text_bytes : Z;
  cp_last_user_text_bytes : Z;
  cp_max_tool_result_bytes : Z;
  cp_tool_count : Z;
  cp_tool_names : list string;
  cp_content_signature : string;
}.
Record ModelRequestContractViolation := {
  cv_reason : ModelContractViolationReason;
  cv_profile : ModelContentProfile;
  cv_message : string;
}.

Definition has_stable_value (value : option string) : bool :=
  match value with Some v => negb (trim_is_empty v) | None => false end.

(** [serde_json::to_string]. *)
Definition json_text (v : json) : result serde_error string := String.string_of_list_byte <$> to_vec v.
Definition json_len (v : json) : Z := match json_text v with Ok s => str_len s | Err _ => 0 end.
Definition tool_result_len (content : ToolResultContent) : Z :=
  match content with
  | ToolResultContent_Text text => str_len text
  | ToolResultContent_Json value => json_len value
  end.

Definition has_project_task_tools (r : ModelRequestData) : bool :=
  existsb (fun tool => bool_decide (td_name tool ∈
    ["create_task"; "update_task"; "list_tasks"; "get_task"; "delete_task"])) (mr_tools r).
Definition is_single_user_bootstrap (r : ModelRequestData) : bool :=
  match mr_messages r with
  | [m] => bool_decide (msg_role m = Role_User)
  | _ => false
  end.

Definition infer_request_kind (r : ModelRequestData) : ModelRequestKind :=
  match md_kind (mr_metadata r) with
  | Some kind => kind
  | None =>
      if has_project_task_tools r then ModelRequestKind_ProjectToolTaskExtract
      else
        let has_identity := has_stable_value (mr_aura_project_id r)
          || has_stable_value (mr_aura_agent_id r) || has_stable_value (mr_aura_org_id r)
          || has_stable_value (mr_aura_session_id r) in
        if has_identity && negb (is_nil (mr_tools r)) then
          if is_single_user_bootstrap r then ModelRequestKind_DevLoopBootstrap
          else ModelRequestKind_DevLoopContinuation
        else match mr_tool_choice r with
             | ToolChoice_None =>
                 if is_nil (mr_tools r) then ModelRequestKind_Chat else ModelRequestKind_Auxiliary
             | _ => ModelRequestKind_Auxiliary
             end
  end.

(** The FNV-1a digest of the content; [{hash:016x}]. *)
Definition fnv_byte (hash : Z) (b : byte) : Z :=
  u64_wrap (Z.lxor hash (byte_to_Z b) * 0x100000001b3).
Definition fnv_write (hash : Z) (s : string) : Z := foldl fnv_byte hash (string_to_bytes s).
Definition fmt_016x (z : Z) : string := foldr hex_byte EmptyString (to_be_bytes z).
Definition write_json (hash : Z) (v : json) : Z :=
  match json_text v with Ok s => fnv_write hash s | Err _ => hash end.
Definition signature_block (hash : Z) (b : ContentBlock) : Z :=
  match b with
  | ContentBlock_Text text => fnv_write hash text
  | ContentBlock_Thinking thinking _ => fnv_write hash thinking
  | ContentBlock_Image source => fnv_write hash (source_data source)
  | ContentBlock_ToolUse id name input => write_json (fnv_write (fnv_write hash id) name) input
  | ContentBlock_ToolResult id content _ =>
      let hash := fnv_write hash id in
      match content with
      | ToolResultContent_Text text => fnv_write hash text
      | ToolResultContent_Json value => write_json hash value
      end
  end.
Definition content_signature (r : ModelRequestData) : string :=
  let hash := fnv_write (fnv_write 0xcbf29ce484222325 (mr_model r)) (mr_system r) in
  fmt_016x (foldl (fun hash m => foldl signature_block (fnv_write hash (Role_debug (msg_role m)))
                                   (msg_content m)) hash (mr_messages r)).

(** The three counters of [from_request] after a block and after a message:
    all text, the last user message's text, the largest tool result. *)
Record Counters := { ct_total : Z; ct_last_user : Z; ct_max_result : Z }.
Definition block_bytes (b : ContentBlock) : Z :=
  match b with
  | ContentBlock_Text text => str_len text
  | ContentBlock_ToolResult _ content _ => tool_result_len content
  | ContentBlock_Thinking thinking _ => str_len thinking
  | ContentBlock_ToolUse _ _ input => json_len input
  | ContentBlock_Image source => str_len (source_data source)
  end.
Definition count_block (p : Z * Z * Z) (b : ContentBlock) : Z * Z * Z :=
  let '(total, message, max_result) := p in
  let len := block_bytes b in
  (total + len, message + len,
   match b with ContentBlock_ToolResult _ _ _ => Z.max max_result len | _ => max_result end)%Z.
Definition count_message (c : Counters) (m : Message) : Counters :=
  let '(total, message, max_result) :=
    foldl count_block (ct_total c, 0%Z, ct_max_result c) (msg_content m) in
  {| ct_total := total;
     ct_last_user := if bool_decide (msg_role m = Role_User) then message else ct_last_user c;
     ct_max_result := max_result |}.
Definition count_messages (ms : list Message) : Counters :=
  foldl count_message {| ct_total := 0; ct_last_user := 0; ct_max_result := 0 |} ms.

Definition requires_stable_session (k : ModelRequestKind) : bool :=
  match k with
  | ModelRequestKind_ProjectToolSpecGen | ModelRequestKind_ProjectToolTaskExtract
  | ModelRequestKind_DevLoopBootstrap | ModelRequestKind_DevLoopContinuation => true
  | _ => false
  end.

Definition apply_contract (p : ModelContentProfile) : ModelContentProfile :=
  let reasons := cp_reasons p ++
    (if requires_stable_session (cp_kind p) && negb (cp_has_aura_session_id p)
     then [MissingStableSessionId] else []) in
  let reasons := reasons ++
    match cp_kind p with
    | ModelRequestKind_DevLoopBootstrap =>
        if (DEV_LOOP_BOOTSTRAP_LAST_USER_MAX_BYTES <? cp_last_user_text_bytes p)%Z
           || (DEV_LOOP_BOOTSTRAP_TOTAL_TEXT_MAX_BYTES <? cp_messages_text_bytes p)%Z
        then [UnboundedBootstrapContext] else []
    | ModelRequestKind_ProjectToolSpecGen | ModelRequestKind_ProjectToolTaskExtract =>
        if (PROJECT_TOOL_LAST_USER_MAX_BYTES <? cp_last_user_text_bytes p)%Z
           || (PROJECT_TOOL_TOTAL_TEXT_MAX_BYTES <? cp_messages_text_bytes p)%Z
        then [EmergencyCapRequired] else []
    | ModelRequestKind_Chat | ModelRequestKind_DevLoopContinuation | ModelRequestKind_Auxiliary => []
    end in
  {| cp_kind := cp_kind p;
     cp_verdict := if is_nil reasons then ModelContractVerdict_Accept
                   else ModelContractVerdict_Block;
     cp_reasons := reasons; cp_has_aura_project_id := cp_has_aura_project_id p;
     cp_has_aura_agent_id := cp_has_aura_agent_id p;
     cp_has_aura_session_id := cp_has_aura_session_id p; cp_has_aura_org_id := cp_has_aura_org_id p;
     cp_system_bytes := cp_system_bytes p; cp_messages_text_bytes := cp_messages_text_bytes p;
     cp_last_user_text_bytes := cp_last_user_text_bytes p;
     cp_max_tool_result_bytes := cp_max_tool_result_bytes p; cp_tool_count := cp_tool_count p;
     cp_tool_names := cp_tool_names p; cp_content_signature := cp_content_signature p |}.

Definition from_request (r : ModelRequestData) : ModelContentProfile :=
  let c := count_messages (mr_messages r) in
  apply_contract
    {| cp_kind := infer_request_kind r; cp_verdict := ModelContractVerdict_Accept;
       cp_reasons := []; cp_has_aura_project_id := has_stable_value (mr_aura_project_id r);
       cp_has_aura_agent_id := has_stable_value (mr_aura_agent_id r);
       cp_has_aura_session_id := has_stable_value (mr_aura_session_id r);
       cp_has_aura_org_id := has_stable_value (mr_aura_org_id r);
       cp_system_bytes := str_len (mr_system r); cp_messages_text_bytes := ct_total c;
       cp_last_user_text_bytes := ct_last_user c; cp_max_tool_result_bytes := ct_max_result c;
       cp_tool_count := Z.of_nat (length (mr_tools r)); cp_tool_names := td_name <$> mr_tools r;
       cp_content_signature := content_signature r |}.

Definition profile_summary (p : ModelContentProfile) : string :=
  "kind=" +++ ModelRequestKind_debug (cp_kind p) +++ "; verdict="
  +++ ModelContractVerdict_debug (cp_verdict p) +++ "; reasons=["
  +++ String.concat ", " (reason_debug <$> cp_reasons p) +++ "]; content_signature="
  +++ cp_content_signature p +++ "; system_bytes=" +++ fmt_Z (cp_system_bytes p)
  +++ "; messages_text_bytes=" +++ fmt_Z (cp_messages_text_bytes p)
  +++ "; last_user_text_bytes=" +++ fmt_Z (cp_last_user_text_bytes p)
  +++ "; tools=" +++ fmt_Z (cp_tool_count p) +++ "; aura_session_id="
  +++ (if cp_has_aura_session_id p then "present" else "missing").

Definition profile_validate (p : ModelContentProfile)
  : result ModelRequestContractViolation ModelContentProfile :=
  if bool_decide (cp_verdict p = ModelContractVerdict_Block)
  then Err {| cv_reason := default UnknownRequestKind (head (cp_reasons p));
              cv_message := "model request contract blocked: " +++ profile_summary p;
              cv_profile := p |}
  else Ok p.
End Request.

(** * What the profile measures *)
Section Profile.
Context `{Hhash : Blake3} `{Hhex : Hex} `{Hjson : !Serde json}.

Definition sumZ (l : list Z) : Z := foldr Z.add 0%Z l.
Definition message_bytes (m : Message) : Z := sumZ (block_bytes <$> msg_content m).
Definition total_bytes (ms : list Message) : Z := sumZ (message_bytes <$> ms).
Definition user_messages (ms : list Message) : list Message :=
  List.filter (fun m => bool_decide (msg_role m = Role_User)) ms.

Lemma sumZ_app l k : sumZ (l ++ k) = (sumZ l + sumZ k)%Z.
Proof. unfold sumZ. induction l as [|x l IH]; [done|]. cbn. rewrite IH. lia. Qed.

Lemma count_block_sum bs total message mx :
  exists mx', foldl count_block (total, message, mx) bs
  = (total + sumZ (block_bytes <$> bs), message + sumZ (block_bytes <$> bs), mx')%Z.
Proof.
  revert total message mx. induction bs as [|b bs IH]; intros total message mx.
  - exists mx. cbn. by rewrite !Z.add_0_r.
  - cbn [foldl count_block fmap list_fmap sumZ foldr].
    destruct (IH (total + block_bytes b)%Z (message + block_bytes b)%Z
      (match b with ContentBlock_ToolResult _ _ _ => Z.max mx (block_bytes b) | _ => mx end))
      as [mx' ->].
    exists mx'. unfold sumZ. cbn. do 2 f_equal; lia.
Qed.

Lemma count_messages_from ms c :
  ct_total (foldl count_message c ms) = (ct_total c + total_bytes ms)%Z /\
  ct_last_user (foldl count_message c ms)
  = from_option message_bytes (ct_last_user c) (last (user_messages ms)).
Proof.
  revert c. induction ms as [|m ms IH]; intros c; [cbn; split; [lia|done]|].
  cbn [foldl]. destruct (IH (count_message c m)) as [Ht Hl]. rewrite Ht, Hl.
  unfold count_message. destruct (count_block_sum (msg_content m) (ct_total c) 0 (ct_max_result c))
    as [mx Hm]. rewrite Hm. cbn [ct_total ct_last_user].
  split; [unfold total_bytes, message_bytes, sumZ; cbn; lia|].
  unfold user_messages. cbn [List.filter]. fold (user_messages ms).
  case_bool_decide as Hu; [|done]. rewrite last_cons. by destruct (last (user_messages ms)).
Qed.

(** The counters are the bytes of all messages and of the last user message. *)
Lemma count_messages_spec ms :
  ct_total (count_messages ms) = total_bytes ms /\
  ct_last_user (count_messages ms) = from_option message_bytes 0%Z (last (user_messages ms)).
Proof.
  unfold count_messages.
  by destruct (count_messages_from ms {| ct_total := 0; ct_last_user := 0; ct_max_result := 0 |})
    as [-> ->].
Qed.

(** The contract of a request of kind [k], over reference measures. *)
Definition size_limits (k : ModelRequestKind) : option (Z * Z) :=
  match k with
  | ModelRequestKind_DevLoopBootstrap => Some (16384, 24576)
  | ModelRequestKind_ProjectToolSpecGen | ModelRequestKind_ProjectToolTaskExtract =>
      Some (32768, 49152)
  | _ => None
  end%Z.
Definition within_contract (r : ModelRequestData) : Prop :=
  let k := infer_request_kind r in
  (k ∈ [ModelRequestKind_Chat; ModelRequestKind_Auxiliary]
   \/ has_stable_value (mr_aura_session_id r) = true) /\
  forall user total, size_limits k = Some (user, total) ->
    (from_option message_bytes 0 (last (user_messages (mr_messages r))) <= user)%Z /\
    (total_bytes (mr_messages r) <= total)%Z.

Lemma validate_spec r :
  is_ok (profile_validate (from_request r)) = true <-> within_contract r.
Proof.
  unfold profile_validate, from_request, within_contract.
  destruct (count_messages_spec (mr_messages r)) as [-> ->].
  set (u := from_option message_bytes 0%Z _). set (t := total_bytes _). clearbody u t.
  unfold apply_contract, DEV_LOOP_BOOTSTRAP_LAST_USER_MAX_BYTES,
    DEV_LOOP_BOOTSTRAP_TOTAL_TEXT_MAX_BYTES, PROJECT_TOOL_LAST_USER_MAX_BYTES,
    PROJECT_TOOL_TOTAL_TEXT_MAX_BYTES. cbn [cp_kind cp_verdict cp_has_aura_session_id cp_reasons
    cp_last_user_text_bytes cp_messages_text_bytes app].
  destruct (infer_request_kind r), (has_stable_value (mr_aura_session_id r));
    cbn [requires_stable_session negb andb app size_limits];
    repeat match goal with |- context [(?a <? ?b)%Z] => destruct (Z.ltb_spec a b) end;
    cbn [orb is_nil app]; rewrite ?bool_decide_eq_true_2, ?bool_decide_eq_false_2 by done;
    cbn [is_ok]; split; intros Hx; try done;
    try (split; [by (left; set_solver) || by right|]; intros ?? [= <- <-]; lia);
    try (split; [by (left; set_solver) || by right|]; by intros ??);
    destruct Hx as [Hs Hb];
    try (destruct Hs as [Hs|Hs]; [set_solver|done]);
    destruct (Hb _ _ eq_refl); lia.
Qed.

(** A request passes validation exactly when it meets its kind's contract:
    project-tool and dev-loop requests carry a stable session id, and the last
    user message and the whole transcript stay within the limits of the kind. *)
Theorem validate_iff_within_contract r :
  is_ok (profile_validate (from_request r)) = true <-> within_contract r.
Proof. apply validate_spec. Qed.

(** A violation names the missing session first. *)
Lemma violation_reason r v :
  profile_validate (from_request r) = Err v ->
  cv_reason v = MissingStableSessionId <->
  requires_stable_session (infer_request_kind r) = true /\
  has_stable_value (mr_aura_session_id r) = false.
Proof.
  unfold profile_validate. case_bool_decide as Hb; [|done]. intros [= <-]. cbn [cv_reason].
  unfold from_request, apply_contract in *. cbn in *.
  destruct (infer_request_kind r), (has_stable_value (mr_aura_session_id r)); cbn in *;
    repeat case_match; cbn in *; naive_solver.
Qed.

(** ** Building a request *)
Lemma try_build_Ok display b r :
  try_build display b = Ok r ->
  trim_is_empty (mr_model r) = false /\ mr_max_tokens r <> 0%Z /\
  mr_messages r = mb_messages b /\ mr_tools r = mb_tools b /\
  mr_prompt_cache_key r = clamp_prompt_cache_key <$> mb_prompt_cache_key b.
Proof.
  unfold try_build. intros (m & Hm & Hx)%result_bind_Ok.
  apply result_bind_Ok in Hx as (mt & Hmt & Hx). apply result_bind_Ok in Hx as (t & _ & Hx).
  injection Hx as <-. cbn. unfold ModelName_try_new, MaxTokens_try_new in *.
  destruct (trim_is_empty (mb_model b)) eqn:He; [done|]. destruct (Z.eqb_spec (mb_max_tokens b) 0); [done|].
  by simplify_eq.
Qed.

(** ** Prompt cache keys *)
Definition starts (l : bytes) : nat := length (List.filter (fun b => negb (is_cont b)) l).
Lemma starts_app l k : starts (l ++ k) = starts l + starts k.
Proof. unfold starts. by rewrite List.filter_app, length_app. Qed.
Lemma starts_le l : starts l <= length l.
Proof. apply List.filter_length_le. Qed.

Lemma utf8_chars_starts l : Forall (fun g => exists b t, g = b :: t /\ starts t = 0) (utf8_chars l).
Proof.
  induction l as [|b r IH]; [constructor|]. cbn [utf8_chars].
  destruct (utf8_chars r) as [|g gs] eqn:Eg; [by repeat econstructor|].
  destruct r as [|c r']; [done|]. apply Forall_cons in IH as [(b' & t & -> & Ht) Hgs].
  destruct (is_cont c) eqn:Ec; [|by repeat (econstructor; eauto)].
  constructor; [|done]. exists b, (b' :: t). split; [done|].
  assert (b' = c) as ->.
  { pose proof (concat_utf8_chars (c :: r')) as Hc. rewrite Eg in Hc. cbn in Hc. congruence. }
  unfold starts in *. cbn. by rewrite Ec.
Qed.

Lemma starts_take n l : starts (concat (take n (utf8_chars l))) <= n.
Proof.
  pose proof (utf8_chars_starts l) as Hl. revert n.
  induction Hl as [|g gs (b & t & -> & Ht) _ IH]; intros [|n]; cbn; try lia.
  specialize (IH n). unfold starts in *. cbn. destruct (negb (is_cont b)); cbn;
    rewrite List.filter_app, length_app; lia.
Qed.

Lemma string_length_substring n s : String.length (String.substring 0 n s) = min n (String.length s).
Proof. revert s. induction n as [|n IH]; intros [|c s]; cbn; try done. by rewrite IH. Qed.

(** Whatever key the caller supplies, the key on the wire has at most the
    sixty-four characters the provider accepts, and a key that fits is sent
    unchanged. *)
Theorem prompt_cache_key_bounded key :
  (chars_count (clamp_prompt_cache_key key) <= MAX_PROMPT_CACHE_KEY_LEN)%Z /\
  ((str_len key <= MAX_PROMPT_CACHE_KEY_LEN)%Z -> clamp_prompt_cache_key key = key).
Proof.
  unfold clamp_prompt_cache_key, MAX_PROMPT_CACHE_KEY_LEN.
  destruct (Z.leb_spec (str_len key) 64) as [Hk|Hk]; (split; [|lia || done]).
  - unfold chars_count. fold (starts (string_to_bytes key)).
    pose proof (starts_le (string_to_bytes key)) as Hs. rewrite string_to_bytes_length in Hs.
    unfold str_len in Hk. lia.
  - set (digest := String.substring 0 32 _).
    assert (String.length digest = 32) as Hd.
    { unfold digest. by rewrite string_length_substring, hex_length, arr_length. }
    assert (str_len digest = 32%Z) as Hdz by (unfold str_len; lia).
    clearbody digest. rewrite Hdz. unfold chars_count, chars_take, of_chars.
    rewrite !string_to_bytes_app, string_to_of_bytes.
    match goal with |- (Z.of_nat (length (List.filter _ ?l)) <= _)%Z => fold (starts l) end.
    rewrite !starts_app.
    pose proof (starts_take (Z.to_nat (64 - 32 - 1))
      (string_to_bytes (default EmptyString (head (split_on ":"%char key))))) as Hp.
    pose proof (starts_le (string_to_bytes digest)) as Hsd. rewrite string_to_bytes_length in Hsd.
    unfold chars. cbn [starts string_to_bytes] in *.
    change (starts (string_to_bytes ":")) with 1. lia.
Qed.
End Profile.

(** The wire names of the effort tiers are read back, in any case and with
    blanks around them; [Off] has no wire name. *)
Lemma from_wire_reads e w : reasoning_effort_wire e = Some w -> from_wire w = Some e.
Proof. destruct e; intros [= <-]; reflexivity. Qed.
Example from_wire_cases :
  (from_wire " XHigh ", from_wire "off", from_wire "nope")
  = (Some ThinkingEffort_XHigh, Some ThinkingEffort_Off, None).
Proof. reflexivity. Qed.

Module RequestExample.
#[local] Existing Instances toy_blake3 lower_hex.
#[local] Instance json_serde : Serde json :=
  {| to_vec _ := Ok (string_to_bytes "{}"); from_slice _ := Ok (JObject []) |}.

Lemma prompt_cache_key_bounded_witness :
  (chars_count (clamp_prompt_cache_key "session:1") <= MAX_PROMPT_CACHE_KEY_LEN)%Z /\
  clamp_prompt_cache_key "session:1" = "session:1".
Proof.
  pose proof (prompt_cache_key_bounded "session:1") as [Hc Hs].
  split; [exact Hc|]. apply Hs. by apply Z.leb_le.
Defined.

(** A dev-loop bootstrap without a session is blocked for that reason, and
    passes with one. *)
Definition bootstrap (session : option string) : ModelRequestData := {|
  mr_model := "m"; mr_system := ""; mr_messages := [Message_user "build it"]; mr_tools := [];
  mr_tool_choice := ToolChoice_Auto; mr_max_tokens := 1024; mr_temperature := None;
  mr_thinking := None; mr_thinking_effort := None; mr_parallel_tool_use := true;
  mr_auth_token := None; mr_upstream_provider_family := None; mr_extra_headers := [];
  mr_aura_project_id := None; mr_aura_agent_id := None; mr_aura_session_id := session;
  mr_aura_org_id := None; mr_prompt_cache_key := None; mr_prompt_cache_retention := None;
  mr_metadata := {| md_kind := Some ModelRequestKind_DevLoopBootstrap |} |}.
Example bootstrap_needs_session :
  match profile_validate (from_request (bootstrap None)) with
  | Err v => Some (cv_reason v, profile_summary (cv_profile v)) | Ok _ => None end
  = Some (MissingStableSessionId,
      "kind=DevLoopBootstrap; verdict=Block; reasons=[MissingStableSessionId]; "
      +++ "content_signature=" +++ cp_content_signature (from_request (bootstrap None))
      +++ "; system_bytes=0; messages_text_bytes=8; last_user_text_bytes=8; tools=0; "
      +++ "aura_session_id=missing").
Proof. vm_compute. reflexivity. Qed.
Example bootstrap_with_session :
  is_ok (profile_validate (from_request (bootstrap (Some "s1")))) = true.
Proof. vm_compute. reflexivity. Qed.
End RequestExample.
