(* ===== verification/Compaction.v ===== *)
(** Context compaction ([aura-context-compaction/src/messages.rs, tools.rs]):
    truncation, folding of repeated reads, image stubs, the tiers and the pressure
    that selects them, summary ranges, redaction of tool inputs and the storage
    cap.

    Sizes are [Z], bytes as [str::len] counts them; positions in a message list
    are [nat].  [f64] is the binary64 format of [SpecFloat].  The 64-bit
    [DefaultHasher], whose algorithm the Standard Library leaves open, is the
    parameter [DefaultHasher]; [serde_json::to_string] is [json_text]. *)
From S2P Require Import Prelude Values Utf8 Permissions CoreTypes Context ModelRequest.
From stdpp Require Import list pretty.
From Stdlib Require Import Strings.Byte SpecFloat.
From Equations Require Import Equations.

(** * Floating point *)
Definition f64_of_Z (z : Z) : spec_float := binary_normalize 53 1024 z 0 false.
Definition f64_div (a b : spec_float) : spec_float := SFdiv 53 1024 a b.
Definition f64_lit (num den : Z) : spec_float := f64_div (f64_of_Z num) (f64_of_Z den).
Definition f64_ge (a b : spec_float) : bool := SFleb b a.
Definition is_nan (a : spec_float) : bool := match a with S754_nan => true | _ => false end.
Definition f64_max (a b : spec_float) : spec_float := if is_nan a || SFltb a b then b else a.
Definition f64_min (a b : spec_float) : spec_float := if is_nan a || SFltb b a then b else a.

(** [usize] and [u64] arithmetic that saturates. *)
Definition saturating_add (a b : Z) : Z := Z.min u64_max (a + b).
Definition saturating_mul (a b : Z) : Z := Z.min u64_max (a * b).
Definition clamp (lo hi x : Z) : Z := Z.max lo (Z.min hi x).

(** * Constants of [aura-config] and the crate *)
Definition COMPACTION_TIER_HISTORY : spec_float := f64_lit 85 100.
Definition COMPACTION_TIER_AGGRESSIVE : spec_float := f64_lit 70 100.
Definition COMPACTION_TIER_60 : spec_float := f64_lit 60 100.
Definition COMPACTION_TIER_30 : spec_float := f64_lit 30 100.
Definition COMPACTION_TIER_MICRO : spec_float := f64_lit 15 100.
Definition CHARS_PER_TOKEN : Z := 4.
Definition CACHEABLE_TOOLS : list string :=
  ["read_file"; "list_files"; "stat_file"; "find_files"; "search_code"].
Definition DEFAULT_SUMMARY_AT : spec_float := f64_lit 85 100.
Definition SUMMARY_TARGET_CEILING : Z := 96 * 1024.
Definition SESSION_TOOL_BLOB_MAX_BYTES : Z := 8 * 1024.

(** * Configuration, policy, reports *)
Record CompactionConfig := {
  tool_result_max_chars : Z;
  text_max_chars : Z;
  preserve_recent : nat;
}.
#[export] Instance CompactionConfig_eq_dec : EqDecision CompactionConfig.
Proof. solve_decision. Defined.
Definition tier_micro : CompactionConfig :=
  {| tool_result_max_chars := 200; text_max_chars := 400; preserve_recent := 2 |}.
Definition tier_aggressive : CompactionConfig :=
  {| tool_result_max_chars := 500; text_max_chars := 800; preserve_recent := 4 |}.
Definition tier_moderate : CompactionConfig :=
  {| tool_result_max_chars := 1000; text_max_chars := 1500; preserve_recent := 6 |}.
Definition tier_light : CompactionConfig :=
  {| tool_result_max_chars := 3000; text_max_chars := 4000; preserve_recent := 8 |}.
Definition tier_history : CompactionConfig :=
  {| tool_result_max_chars := 1500; text_max_chars := 2000; preserve_recent := 6 |}.

Record CompactionPolicy := {
  max_context_tokens : option Z;
  estimated_context_tokens : Z;
  current_context_tokens : option Z;
  reserved_output_tokens : Z;
  raw_message_bytes : option Z;
  request_kind : option ModelRequestKind;
  request_body_cap_bytes : option Z;
  summary_at : spec_float;
}.
(** [CompactionPolicy::new]; the summary threshold comes from the environment or
    is the default. *)
Definition CompactionPolicy_new (summary : spec_float) (max_context : option Z)
    (estimated reserved : Z) : CompactionPolicy := {|
  max_context_tokens := max_context; estimated_context_tokens := estimated;
  current_context_tokens := None; reserved_output_tokens := reserved; raw_message_bytes := None;
  request_kind := None; request_body_cap_bytes := None; summary_at := summary |}.

Record SummaryInput := {
  si_compact_start : nat;
  si_compact_end : nat;
  si_compactable_messages : list Message;
  si_recent_tail : list Message;
  si_original_chars : Z;
  si_local_chars : Z;
  si_target_total_chars : Z;
  si_max_summary_chars : Z;
}.
Inductive CompactionAction :=
| CompactionAction_None
| CompactionAction_Applied (tier : CompactionConfig)
| CompactionAction_NeedsSummary (input : SummaryInput).
Record CompactionReport := {
  before_chars : Z;
  after_chars : Z;
  report_action : CompactionAction;
}.
Definition reduced (r : CompactionReport) : bool := (after_chars r <? before_chars r)%Z.
Inductive SummaryOutput :=
| SummaryOutput_Input (value : json)
| SummaryOutput_Text (text : string)
| SummaryOutput_Messages (text : string) (compact_start compact_end : nat).

Record OverflowStep := { os_tier : CompactionConfig; os_warning : string }.
Definition OverflowStep_AGGRESSIVE : OverflowStep := {|
  os_tier := tier_aggressive;
  os_warning := "Context limit reached; compacting older context, trimming response budget, and retrying." |}.
Definition OverflowStep_MICRO : OverflowStep := {|
  os_tier := tier_micro;
  os_warning := "Context is still too large; applying emergency compaction, trimming response budget again, and retrying." |}.

(** * Redaction markers *)
Definition REDACTION_KIND : string := "aura_compaction_redaction".
Definition json_of_Z (z : Z) : json := JNumber (fmt_Z z).
(** [Value::as_u64]: a number written as an integer in range. *)
Definition json_as_u64 (v : json) : option Z :=
  match v with
  | JNumber text =>
      z ← parse_nonempty (byte_to_Z <$> string_to_bytes text);
      if (z <=? u64_max)%Z then Some z else None
  | _ => None
  end.
Definition json_is_array (v : json) : bool := match v with JArray _ => true | _ => false end.

Definition entry_without_kind (field : string) (n : Z) : json :=
  json_object [("field", JString field); ("bytes", json_of_Z n)].
Definition redaction_entry (field : string) (n : Z) : json :=
  json_object [("kind", JString REDACTION_KIND); ("version", json_of_Z 1);
               ("field", JString field); ("bytes", json_of_Z n)].
Definition redaction_fields (fields : list json) : json :=
  json_object [("kind", JString REDACTION_KIND); ("version", json_of_Z 1);
               ("fields", JArray fields)].

(** The [_redacted] value after one more field was removed. *)
Definition merged_marker (old : option json) (field : string) (n : Z) : json :=
  match old with
  | Some (JObject existing) =>
      match fields_get "fields" existing with
      | Some (JArray fields) => redaction_fields (fields ++ [entry_without_kind field n])
      | _ =>
          match fields_get "field" existing ≫= json_as_str,
                fields_get "bytes" existing ≫= json_as_u64 with
          | Some f, Some b => redaction_fields [entry_without_kind f b; entry_without_kind field n]
          | _, _ => redaction_entry field n
          end
      end
  | Some other => other
  | None => redaction_entry field n
  end.
Definition mark_fields (source : list (string * json)) (field : string) (n : Z)
  : list (string * json) :=
  let marked := fields_remove field source in
  fields_insert "_redacted" (merged_marker (fields_get "_redacted" marked) field n)
    (fields_remove "_redacted" marked).
Definition mark (input : json) (field : string) (n : Z) : json :=
  match input with
  | JObject source => JObject (mark_fields source field n)
  | _ => input
  end.

Fixpoint is_marker (value : json) : bool :=
  match value with
  | JObject map =>
      let nested := (fix find (fs : list (string * json)) : option bool :=
        match fs with
        | [] => None
        | (k, marker) :: r => if bool_decide (k = "_redacted") then Some (is_marker marker) else find r
        end) map in
      match nested with
      | Some b => b
      | None =>
          bool_decide (fields_get "kind" map ≫= json_as_str = Some REDACTION_KIND)
          && (bool_decide (is_Some (fields_get "field" map ≫= json_as_str))
              || match fields_get "fields" map with Some v => json_is_array v | None => false end)
      end
  | _ => false
  end.

(** * Truncation *)
Definition BLANK_LINE : string :=
  String (Ascii.ascii_of_nat 10) (String (Ascii.ascii_of_nat 10) EmptyString).
Definition omission (omitted : Z) : string :=
  BLANK_LINE +++ "[...content truncated (" +++ fmt_Z omitted +++ " chars omitted)...]" +++ BLANK_LINE.

(** The number of characters kept at the head and at the tail. *)
Definition head_tail (len max_chars : Z) (head_chars tail_chars : option Z) : Z * Z :=
  let head := default (max_chars / 3)%Z head_chars in
  let tail := default (max_chars / 3)%Z tail_chars in
  let '(head, tail) :=
    if (max_chars <? u64_add head tail)%Z then
      let requested_total := u64_add head tail in
      if (requested_total =? 0)%Z then (0, 0)%Z
      else
        let head := (saturating_mul max_chars head / requested_total)%Z in
        (head, saturating_sub max_chars head)
    else (head, tail) in
  let head := Z.min head len in
  (head, Z.min tail (saturating_sub len head)).

Definition truncate_content (content : string) (max_chars : Z) (head_chars tail_chars : option Z)
  : string :=
  if (str_len content <=? max_chars)%Z then content
  else
    let '(head, tail) := head_tail (str_len content) max_chars head_chars tail_chars in
    chars_take (Z.to_nat head) content
    +++ omission (saturating_sub (str_len content) (u64_add head tail))
    +++ chars_take_back (Z.to_nat tail) content.

(** [truncate_str]: the longest prefix of whole characters within [max] bytes;
    [is_char_boundary] holds at the ends and before a byte that starts a
    character. *)
Definition is_char_boundary (s : bytes) (n : nat) : bool :=
  match s !! n with
  | Some b => (n =? 0) || negb (is_cont b)
  | None => n =? length s
  end.
Fixpoint char_boundary (s : bytes) (n : nat) : nat :=
  match n with
  | O => O
  | S n' => if is_char_boundary s n then n else char_boundary s n'
  end.
Definition truncate_str (s : string) (max : Z) : option string :=
  if (str_len s <=? max)%Z then None
  else
    let l := string_to_bytes s in
    Some (String.string_of_list_byte (take (char_boundary l (Z.to_nat max)) l)
          +++ "... [truncated " +++ fmt_Z (str_len s) +++ " bytes]").

(** [DefaultHasher::finish] after hashing a byte slice. *)
Class DefaultHasher := default_hash : bytes -> Z.

Section Compaction.
Context `{Hjson : !Serde json} `{Hhasher : DefaultHasher}.

(** [serde_json::to_string(v).unwrap_or_default()] and [Value::to_string]. *)
Definition json_text_or_empty (v : json) : string :=
  match json_text v with Ok s => s | Err _ => EmptyString end.
Definition result_text (content : ToolResultContent) : string :=
  match content with
  | ToolResultContent_Text t => t
  | ToolResultContent_Json v => json_text_or_empty v
  end.

(** * Size estimate and pressure *)
Definition block_chars (b : ContentBlock) : Z :=
  match b with
  | ContentBlock_Text text => str_len text
  | ContentBlock_Thinking thinking _ => str_len thinking
  | ContentBlock_ToolUse _ _ input => match json_text input with Ok s => str_len s | Err _ => 0 end
  | ContentBlock_ToolResult _ content _ =>
      match content with
      | ToolResultContent_Text t => str_len t
      | ToolResultContent_Json v => match json_text v with Ok s => str_len s | Err _ => 0 end
      end
  | ContentBlock_Image source => str_len (source_data source)
  end.
Definition estimate_message_chars (messages : list Message) : Z :=
  sumZ ((fun m => sumZ (block_chars <$> msg_content m)) <$> messages).
Definition message_chars_to_tokens (chars : Z) : Z := chars / CHARS_PER_TOKEN.

Definition tier_for (pressure : spec_float) : option CompactionConfig :=
  if f64_ge pressure COMPACTION_TIER_HISTORY then Some tier_micro
  else if f64_ge pressure COMPACTION_TIER_AGGRESSIVE then Some tier_aggressive
  else if f64_ge pressure COMPACTION_TIER_60 then Some tier_moderate
  else if f64_ge pressure COMPACTION_TIER_30 then Some tier_light
  else if f64_ge pressure COMPACTION_TIER_MICRO then Some tier_history
  else None.
Definition select_tier (utilization : spec_float) : option CompactionConfig := tier_for utilization.

Definition request_body_cap (p : CompactionPolicy) : option Z :=
  match request_body_cap_bytes p with
  | Some cap => Some cap
  | None =>
      match request_kind p with
      | Some ModelRequestKind_DevLoopBootstrap => Some DEV_LOOP_BOOTSTRAP_TOTAL_TEXT_MAX_BYTES
      | Some ModelRequestKind_ProjectToolSpecGen | Some ModelRequestKind_ProjectToolTaskExtract =>
          Some PROJECT_TOOL_TOTAL_TEXT_MAX_BYTES
      | _ => None
      end
  end.
Definition cap_pressure (n cap : Z) : spec_float :=
  if (cap =? 0)%Z then f64_of_Z 0 else f64_div (f64_of_Z n) (f64_of_Z cap).
Definition context_pressure (p : CompactionPolicy) : spec_float :=
  match max_context_tokens p with
  | None => f64_of_Z 0
  | Some max_ctx =>
      if (max_ctx =? 0)%Z then f64_of_Z 0
      else
        let context_tokens := Z.max (default (estimated_context_tokens p) (current_context_tokens p))
                                (estimated_context_tokens p) in
        let pressure_tokens := Z.min (saturating_add context_tokens (reserved_output_tokens p)) max_ctx in
        f64_div (f64_of_Z pressure_tokens) (f64_of_Z max_ctx)
  end.
Definition effective_pressure (messages : list Message) (p : CompactionPolicy) : spec_float :=
  let request_cap_pressure :=
    match request_body_cap p with
    | None => f64_of_Z 0
    | Some cap => cap_pressure (default (estimate_message_chars messages) (raw_message_bytes p)) cap
    end in
  f64_min (f64_max (context_pressure p) request_cap_pressure) (f64_of_Z 1).

Definition pick_stricter_tier (a b : option CompactionConfig) : option CompactionConfig :=
  match a, b with
  | Some x, Some y =>
      if (tool_result_max_chars y <? tool_result_max_chars x)%Z then Some y else Some x
  | Some x, None => Some x
  | None, b => b
  end.

(** * Compacting older messages *)
Record CompactionParams := {
  cp_compact_end : nat;
  cp_head_chars : option Z;
  cp_tail_chars : option Z;
}.
Definition select_compaction_candidates (messages : list Message) (config : CompactionConfig)
  : option CompactionParams :=
  if length messages <=? preserve_recent config + 1 then None
  else
    let compact_end := length messages - preserve_recent config in
    let is_micro := (preserve_recent config =? preserve_recent tier_micro)
      && (tool_result_max_chars config =? tool_result_max_chars tier_micro)%Z in
    Some {| cp_compact_end := compact_end;
            cp_head_chars := if is_micro then Some 6000%Z else None;
            cp_tail_chars := if is_micro then Some 3000%Z else None |}.

Definition compact_content_block (config : CompactionConfig) (head_chars tail_chars : option Z)
    (block : ContentBlock) : ContentBlock :=
  match block with
  | ContentBlock_ToolResult id content is_error =>
      let text := result_text content in
      if (tool_result_max_chars config <? str_len text)%Z
      then ContentBlock_ToolResult id
             (ToolResultContent_Text
                (truncate_content text (tool_result_max_chars config) head_chars tail_chars)) is_error
      else block
  | ContentBlock_Text text =>
      if (text_max_chars config <? str_len text)%Z
      then ContentBlock_Text (truncate_content text (text_max_chars config) head_chars tail_chars)
      else block
  | _ => block
  end.
Definition stub_image_block (block : ContentBlock) : ContentBlock :=
  match block with
  | ContentBlock_Image source =>
      ContentBlock_Text ("[image removed during context compaction: " +++ source_media_type source
        +++ ", ~" +++ fmt_Z (str_len (source_data source) / 1024) +++ " KB base64]")
  | _ => block
  end.
Definition map_blocks (f : ContentBlock -> ContentBlock) (m : Message) : Message :=
  {| msg_role := msg_role m; msg_content := f <$> msg_content m |}.

Definition compact_older_messages (messages : list Message) (config : CompactionConfig)
  : list Message :=
  match select_compaction_candidates messages config with
  | None => messages
  | Some params =>
      let e := cp_compact_end params in
      let messages := (map_blocks stub_image_block <$> take e messages) ++ drop e messages in
      take 1 messages
      ++ (map_blocks (compact_content_block config (cp_head_chars params) (cp_tail_chars params))
            <$> drop 1 (take e messages))
      ++ drop e messages
  end.

(** * Folding repeated reads *)
Definition dedup_content_hash_hex (b : bytes) : string := fmt_016x (default_hash b).
(** The last [ToolUse] with an id wins. *)
Definition index_block (map : gmap string string) (b : ContentBlock) : gmap string string :=
  match b with ContentBlock_ToolUse id name _ => <[id := name]> map | _ => map end.
Definition tool_use_name_index (messages : list Message) : gmap string string :=
  foldl (fun map m => foldl index_block map (msg_content m)) ∅ messages.
Fixpoint input_path_in (blocks : list ContentBlock) (tool_use_id : string) : option (option string) :=
  match blocks with
  | [] => None
  | ContentBlock_ToolUse id _ input :: r =>
      if bool_decide (id = tool_use_id) then Some (json_get_str "path" input)
      else input_path_in r tool_use_id
  | _ :: r => input_path_in r tool_use_id
  end.
Fixpoint tool_use_input_path (messages : list Message) (tool_use_id : string) : option string :=
  match messages with
  | [] => None
  | m :: r => match input_path_in (msg_content m) tool_use_id with
              | Some path => path
              | None => tool_use_input_path r tool_use_id
              end
  end.
Definition is_dedup_marker_text (text : string) : bool :=
  match from_slice (string_to_bytes text) : result _ json with
  | Ok (JObject map) =>
      match fields_get "_redacted" map ≫= json_as_str with
      | Some redacted => bool_decide (redacted ∈ CACHEABLE_TOOLS)
      | None => false
      end
  | _ => false
  end.

Definition dedup_marker (tool_name path hash : string) : json :=
  json_object [("_redacted", JString tool_name); ("path", JString path);
               ("content_hash", JString hash); ("note", JString "see later identical read")].

(** What the pass knows: the names of all tool calls, the messages it searches
    for paths (their tool calls never change), the results seen so far, newest
    first, and the number of folds. *)
Record DedupState := { dd_seen : gset (string * string); dd_folded : nat }.
Definition dedup_start : DedupState := {| dd_seen := ∅; dd_folded := 0 |}.
Definition dedup_key (names : gmap string string) (b : ContentBlock)
  : option (string * (string * string)) :=
  match b with
  | ContentBlock_ToolResult id content _ =>
      let text := result_text content in
      if is_dedup_marker_text text then None
      else match names !! id with
           | Some name =>
               if bool_decide (name ∈ CACHEABLE_TOOLS)
               then Some (id, (name, dedup_content_hash_hex (string_to_bytes text)))
               else None
           | None => None
           end
  | _ => None
  end.
Definition fold_result (messages : list Message) (b : ContentBlock) (id name hash : string)
  : ContentBlock :=
  match b with
  | ContentBlock_ToolResult tid _ is_error =>
      ContentBlock_ToolResult tid
        (ToolResultContent_Text (json_text_or_empty
           (dedup_marker name (default EmptyString (tool_use_input_path messages id)) hash))) is_error
  | _ => b
  end.
Definition dedup_block (names : gmap string string) (messages : list Message) (st : DedupState)
    (b : ContentBlock) : ContentBlock * DedupState :=
  match dedup_key names b with
  | None => (b, st)
  | Some (id, (name, hash)) =>
      if bool_decide ((name, hash) ∈ dd_seen st)
      then (fold_result messages b id name hash,
            {| dd_seen := dd_seen st; dd_folded := S (dd_folded st) |})
      else (b, {| dd_seen := {[ (name, hash) ]} ∪ dd_seen st; dd_folded := dd_folded st |})
  end.
Fixpoint dedup_blocks (names : gmap string string) (messages : list Message) (st : DedupState)
    (bs : list ContentBlock) : list ContentBlock * DedupState :=
  match bs with
  | [] => ([], st)
  | b :: r =>
      let '(b', st) := dedup_block names messages st b in
      let '(r', st) := dedup_blocks names messages st r in
      (b' :: r', st)
  end.
Fixpoint dedup_messages (names : gmap string string) (messages : list Message)
    (todo : list Message) : list Message * DedupState :=
  match todo with
  | [] => ([], dedup_start)
  | m :: r =>
      let '(r', st) := dedup_messages names messages r in
      let '(bs, st) := dedup_blocks names messages st (msg_content m) in
      ({| msg_role := msg_role m; msg_content := bs |} :: r', st)
  end.
Definition dedup_read_results_by_content_hash (messages : list Message) : list Message * nat :=
  let '(messages', st) := dedup_messages (tool_use_name_index messages) messages messages in
  (messages', dd_folded st).

(** * Summaries of the middle of the history *)
Definition summary_target_total_chars (p : CompactionPolicy) (before : Z) : Z :=
  let target := (saturating_mul before 7 / 10)%Z in
  let target := match max_context_tokens p with
    | Some max_ctx =>
        let available_tokens := saturating_sub max_ctx (reserved_output_tokens p) in
        let available_chars := saturating_mul available_tokens CHARS_PER_TOKEN in
        Z.min target (saturating_mul available_chars 8 / 10)
    | None => target end in
  let target := match request_body_cap p with
    | Some cap => Z.min target (saturating_mul cap 8 / 10)
    | None => target end in
  clamp 1024 SUMMARY_TARGET_CEILING target.

Definition message_tool_use_ids (m : Message) : list string :=
  omap (fun b => match b with ContentBlock_ToolUse id _ _ => Some id | _ => None end) (msg_content m).
Definition message_tool_result_ids (m : Message) : list string :=
  omap (fun b => match b with ContentBlock_ToolResult id _ _ => Some id | _ => None end)
    (msg_content m).
Definition result_is_for_previous_tool_use (messages : list Message) (idx : nat) : bool :=
  match idx with
  | O => false
  | S prev =>
      match messages !! idx, messages !! prev with
      | Some m, Some p =>
          let result_ids := message_tool_result_ids m in
          if is_nil result_ids then false
          else existsb (fun r => existsb (fun u => bool_decide (u = r)) (message_tool_use_ids p))
                 result_ids
      | _, _ => false
      end
  end.
Definition boundary_splits_tool_pair (messages : list Message) (e : nat) : bool :=
  (e <? length messages) && result_is_for_previous_tool_use messages e.

(** The two loops of [select_summary_range]; each is bounded by the distance
    between the ends. *)
Fixpoint advance_start (messages : list Message) (room start : nat) : nat :=
  match room with
  | O => start
  | S room => if result_is_for_previous_tool_use messages start
              then advance_start messages room (S start) else start
  end.
Fixpoint retreat_end (messages : list Message) (room e : nat) : nat :=
  match room with
  | O => e
  | S room => if boundary_splits_tool_pair messages e
              then retreat_end messages room (e - 1) else e
  end.
Definition select_summary_range (messages : list Message) : option (nat * nat) :=
  if length messages <=? preserve_recent tier_micro + 2 then None
  else
    let e := length messages - preserve_recent tier_micro in
    let start := advance_start messages (e - 1) 1 in
    let e := retreat_end messages (e - start) e in
    if 4 <=? e - start then Some (start, e) else None.

Definition build_summary_input (messages : list Message) (p : CompactionPolicy) (before local : Z)
  : option SummaryInput :=
  let target_total_chars := summary_target_total_chars p before in
  if (local <=? target_total_chars)%Z then None
  else
    '(compact_start, compact_end) ← select_summary_range messages;
    let compactable_messages := take (compact_end - compact_start) (drop compact_start messages) in
    let compactable_chars := estimate_message_chars compactable_messages in
    if (compactable_chars =? 0)%Z then None
    else
      Some {| si_compact_start := compact_start; si_compact_end := compact_end;
              si_compactable_messages := compactable_messages;
              si_recent_tail := drop compact_end messages;
              si_original_chars := before; si_local_chars := local;
              si_target_total_chars := target_total_chars;
              si_max_summary_chars :=
                clamp 512 12000 (Z.min (compactable_chars / 4) (target_total_chars / 4)) |}.

(** * Entry points *)
Definition action_of (chosen : option CompactionConfig) : CompactionAction :=
  match chosen with
  | Some tier => CompactionAction_Applied tier
  | None => CompactionAction_None
  end.
Definition compact_messages (messages : list Message) (p : CompactionPolicy)
  : list Message * CompactionReport :=
  let before := estimate_message_chars messages in
  let pressure := effective_pressure messages p in
  let chosen := tier_for pressure in
  let messages' := match chosen with
    | Some tier =>
        compact_older_messages (dedup_read_results_by_content_hash messages).1 tier
    | None => messages end in
  let after := estimate_message_chars messages' in
  let action :=
    if f64_ge pressure (summary_at p) then
      match build_summary_input messages' p before after with
      | Some input => CompactionAction_NeedsSummary input
      | None => action_of chosen
      end
    else action_of chosen in
  (messages', {| before_chars := before; after_chars := after; report_action := action |}).

Definition recover_overflow (messages : list Message) (tier : CompactionConfig)
  : list Message * CompactionReport :=
  let messages' := compact_older_messages messages tier in
  (messages', {| before_chars := estimate_message_chars messages;
                 after_chars := estimate_message_chars messages';
                 report_action := CompactionAction_Applied tier |}).

Definition SUMMARY_HEADER : string := "[summary of compacted prior conversation]" +++ BLANK_LINE.
Definition assistant_text (text : string) : Message :=
  {| msg_role := Role_Assistant; msg_content := [ContentBlock_Text text] |}.
Definition splice_one (messages : list Message) (s e : nat) (m : Message) : list Message :=
  take s messages ++ m :: drop e messages.
Definition summary_refused (messages : list Message) (text : string) (s e : nat) : bool :=
  trim_is_empty text || (s =? 0) || (e <=? s) || (length messages <? e)
  || result_is_for_previous_tool_use messages s || boundary_splits_tool_pair messages e.

Definition apply_message_summary (messages : list Message) (summary : SummaryOutput)
  : list Message * CompactionReport :=
  let before := estimate_message_chars messages in
  let unchanged := (messages, {| before_chars := before; after_chars := before;
                                 report_action := CompactionAction_None |}) in
  match summary with
  | SummaryOutput_Messages text s e =>
      if summary_refused messages text s e then unchanged
      else
        let removed_chars := estimate_message_chars (take (e - s) (drop s messages)) in
        let max_summary_chars := clamp 256 12000 (saturating_sub removed_chars 1) in
        let summary_text := if (max_summary_chars <? str_len text)%Z
                            then truncate_content text max_summary_chars None None else text in
        let messages := splice_one messages s e (assistant_text (SUMMARY_HEADER +++ trim summary_text)) in
        let after := estimate_message_chars messages in
        let messages :=
          if (before <=? after)%Z && (s <? length messages) then
            let fallback_cap := clamp 128 4000 (removed_chars / 4) in
            let fallback := truncate_content (from_option text_content EmptyString (messages !! s))
                              fallback_cap None None in
            <[s := assistant_text fallback]> messages
          else messages in
        (messages, {| before_chars := before; after_chars := estimate_message_chars messages;
                      report_action := CompactionAction_Applied tier_micro |})
  | _ => unchanged
  end.

(** * Tool inputs *)
Definition str_field_len (k : string) (input : json) : Z :=
  match json_get_str k input with Some s => str_len s | None => 0 end.
Definition summarize_write_input (tool_name : string) (input : json) : option json :=
  if bool_decide (tool_name = "write_file") then
    match json_get "content" input with
    | Some _ => Some (mark input "content" (str_field_len "content" input))
    | None => None
    end
  else if bool_decide (tool_name = "edit_file") then
    let old_key := match json_get "old_string" input with
                   | Some _ => "old_string" | None => "old_text" end in
    let new_key := match json_get "new_string" input with
                   | Some _ => "new_string" | None => "new_text" end in
    match json_get old_key input, json_get new_key input with
    | Some _, Some _ =>
        let redacted := mark input old_key (str_field_len old_key input) in
        Some (mark redacted new_key (str_field_len new_key input))
    | _, _ => None
    end
  else None.
Definition apply_summary (tool_name : string) (input : json) : option SummaryOutput :=
  SummaryOutput_Input <$> summarize_write_input tool_name input.

(** The largest redactable field, the last of several equals; its size. *)
Definition redactable (p : string * json) : option Z :=
  match p.2 with
  | JString s => if bool_decide (p.1 = "_redacted") || bool_decide (s = "") then None
                 else Some (str_len s)
  | _ => None
  end.
Definition larger (best : option (string * Z)) (p : string * json) : option (string * Z) :=
  match redactable p with
  | None => best
  | Some n => match best with
              | Some (_, m) => if (m <=? n)%Z then Some (p.1, n) else best
              | None => Some (p.1, n)
              end
  end.
Definition largest_field (fields : list (string * json)) : option (string * Z) :=
  foldl larger None fields.
Definition redact_step (fields : list (string * json)) : option (list (string * json)) :=
  '(field, n) ← largest_field fields; Some (mark_fields fields field n).

(** Each step removes a redactable field and adds none. *)
Definition candidates (fields : list (string * json)) : nat := length (omap redactable fields).

Lemma largest_field_elem fields best f n :
  foldl larger best fields = Some (f, n) ->
  best = Some (f, n) \/ exists v, (f, v) ∈ fields /\ redactable (f, v) = Some n.
Proof.
  revert best. induction fields as [|[k v] fs IH]; intros best; [by left|].
  cbn [foldl]. intros [Hb|(v' & Hv & Hr)]%IH; [|right; exists v'; split; [by right|done]].
  unfold larger in Hb. destruct (redactable (k, v)) as [m|] eqn:Er; [|by left].
  destruct best as [[k' m']|]; [destruct (m' <=? m)%Z; [|by left]|];
    injection Hb as <- <-; right; exists v; split; [left|done|left|done].
Qed.

Lemma candidates_remove k fields : candidates (fields_remove k fields) <= candidates fields.
Proof.
  unfold candidates, fields_remove. induction fields as [|[k' v] fs IH]; [done|]. cbn.
  case_bool_decide; cbn; destruct (redactable (k', v)); cbn; lia.
Qed.
Lemma candidates_remove_lt k v fields n :
  (k, v) ∈ fields -> redactable (k, v) = Some n ->
  candidates (fields_remove k fields) < candidates fields.
Proof.
  intros Hin Hr. induction fields as [|[k' v'] fs IH]; [by apply not_elem_of_nil in Hin|].
  pose proof (candidates_remove k fs) as Hle. unfold candidates, fields_remove in *. cbn.
  apply elem_of_cons in Hin as [[= <- <-]|Hin].
  - rewrite bool_decide_eq_true_2 by done. cbn [negb omap list_omap]. rewrite Hr. cbn. lia.
  - specialize (IH Hin). case_bool_decide; cbn; destruct (redactable (k', v')); cbn; lia.
Qed.
Lemma candidates_insert_redacted v fields :
  candidates (fields_insert "_redacted" v fields) <= candidates fields.
Proof.
  assert (forall u, redactable ("_redacted", u) = None) as Hn by (by intros []).
  unfold candidates. induction fields as [|[k' v'] fs IH]; cbn [fields_insert].
  - cbn [omap list_omap]. by rewrite Hn.
  - destruct (String.compare "_redacted" k') eqn:Ec; cbn [omap list_omap].
    + rewrite Hn. destruct (redactable (k', v')); cbn; unfold omap in *; lia.
    + by rewrite Hn.
    + destruct (redactable (k', v')); cbn; unfold omap in *; lia.
Qed.
Lemma redact_step_lt fields fields' :
  redact_step fields = Some fields' -> candidates fields' < candidates fields.
Proof.
  unfold redact_step. destruct (largest_field fields) as [[f n]|] eqn:El; [|done].
  intros [= <-]. apply largest_field_elem in El as [|(v & Hv & Hr)]; [done|].
  unfold mark_fields. eapply Nat.le_lt_trans; [apply candidates_insert_redacted|].
  eapply Nat.le_lt_trans; [apply candidates_remove|]. by eapply candidates_remove_lt.
Qed.

(** A value together with the equation that it is that value. *)
Definition inspect {A} (a : A) : { b : A | a = b } := exist _ a eq_refl.

Equations? redact_loop (cap serialized_len : Z) (fields : list (string * json))
  : list (string * json) by wf (candidates fields) lt :=
redact_loop cap serialized_len fields with (serialized_len <=? cap)%Z := {
  | true => fields
  | false with inspect (redact_step fields) := {
    | exist _ None _ => fields
    | exist _ (Some fields') Hstep with json_text (JObject fields') := {
      | Err _ => fields'
      | Ok text with (serialized_len <=? str_len text)%Z := {
        | true => fields'
        | false => redact_loop cap (str_len text) fields' } } } }.
Proof. by apply redact_step_lt. Defined.

Definition redact_oversized_tool_use_input (input : json) (cap : Z) : json :=
  match input with
  | JObject fields =>
      if is_marker input then input
      else match json_text input with
           | Ok text => JObject (redact_loop cap (str_len text) fields)
           | Err _ => input
           end
  | _ => input
  end.

(** * Storage *)
Definition truncate_block_for_storage (b : ContentBlock) : ContentBlock :=
  match b with
  | ContentBlock_ToolUse id name input =>
      ContentBlock_ToolUse id name (redact_oversized_tool_use_input input SESSION_TOOL_BLOB_MAX_BYTES)
  | ContentBlock_ToolResult id content is_error =>
      let content' := match content with
        | ToolResultContent_Text t =>
            match truncate_str t SESSION_TOOL_BLOB_MAX_BYTES with
            | Some truncated => ToolResultContent_Text truncated
            | None => content
            end
        | ToolResultContent_Json v =>
            match json_text v with
            | Ok serialized =>
                match truncate_str serialized SESSION_TOOL_BLOB_MAX_BYTES with
                | Some truncated => ToolResultContent_Text truncated
                | None => content
                end
            | Err _ => content
            end
        end in
      ContentBlock_ToolResult id content' is_error
  | _ => b
  end.
Definition truncate_messages_for_storage (messages : list Message) : list Message :=
  map_blocks truncate_block_for_storage <$> messages.
Definition compact_for_storage (messages : list Message) : list Message :=
  truncate_messages_for_storage messages.

(** * The tool surface *)
Record ToolSurfaceReport := {
  ts_tool_count : Z;
  ts_before_chars : Z;
  ts_after_chars : Z;
}.
Definition tool_definition_chars (tool : ToolDefinition) : Z :=
  let schema_chars := match json_text (td_input_schema tool) with
                      | Ok s => str_len s | Err _ => 0%Z end in
  (str_len (td_name tool) + str_len (td_description tool) + schema_chars)%Z.
Definition tools_chars (tools : list ToolDefinition) : Z := sumZ (tool_definition_chars <$> tools).
Definition strip_description (schema : json) : json :=
  match schema with
  | JObject inner => JObject (fields_remove "description" inner)
  | _ => schema
  end.
(** [get_mut(k)] followed by an update in place. *)
Definition fields_update (k : string) (f : json -> json) (fs : list (string * json))
  : list (string * json) :=
  (fun p => if bool_decide (p.1 = k) then (p.1, f p.2) else p) <$> fs.
Definition compact_tool (tool : ToolDefinition) : ToolDefinition :=
  {| td_name := td_name tool; td_description := td_description tool;
     td_input_schema :=
       match td_input_schema tool with
       | JObject fs =>
           JObject (fields_update "properties" (fun props =>
             match props with
             | JObject obj => JObject ((fun p => (p.1, strip_description p.2)) <$> obj)
             | _ => props
             end) fs)
       | v => v
       end;
     td_cache_control := td_cache_control tool;
     td_eager_input_streaming := td_eager_input_streaming tool |}.
Definition compact_tools (tools : list ToolDefinition) : list ToolDefinition := compact_tool <$> tools.
Definition compact_tool_surface (tools : list ToolDefinition)
  : list ToolDefinition * ToolSurfaceReport :=
  let tools' := compact_tools tools in
  (tools', {| ts_tool_count := Z.of_nat (length tools'); ts_before_chars := tools_chars tools;
              ts_after_chars := tools_chars tools' |}).
End Compaction.
