(* ===== verification/CompactionProps.v ===== *)
(** What compaction guarantees: the shape of the conversation survives, repeated
    reads fold to one surviving copy, truncation keeps a prefix and a suffix,
    summaries never separate a tool call from its result, redaction terminates
    and touches nothing but the fields it records, and the size compaction
    measures is the size the request contract limits. *)
From S2P Require Import Prelude Values Utf8 Permissions CoreTypes Context ModelRequest Compaction.
From stdpp Require Import list pretty.
From Stdlib Require Import Strings.Byte SpecFloat.
From Equations Require Import Equations.

(** * Shape *)

(** [b'] is what compaction may make of [b]: text is rewritten, an image becomes
    text, a tool result keeps its call and its error flag; tool calls and
    thinking are untouched. *)
Inductive block_compacted : ContentBlock -> ContentBlock -> Prop :=
| bc_text t t' : block_compacted (ContentBlock_Text t) (ContentBlock_Text t')
| bc_stub s t : block_compacted (ContentBlock_Image s) (ContentBlock_Text t)
| bc_result id c c' e :
    block_compacted (ContentBlock_ToolResult id c e) (ContentBlock_ToolResult id c' e)
| bc_same b : block_compacted b b.
#[export] Hint Constructors block_compacted : core.
Definition message_compacted (m m' : Message) : Prop :=
  msg_role m = msg_role m' /\ Forall2 block_compacted (msg_content m) (msg_content m').

#[export] Instance block_compacted_trans : Transitive block_compacted.
Proof. intros x y z Hxy Hyz. inversion Hxy; subst; inversion Hyz; subst; auto. Qed.
#[export] Instance message_compacted_preorder : PreOrder message_compacted.
Proof.
  split.
  - intros m. split; [done|]. induction (msg_content m); constructor; auto.
  - intros x y z [Hr Hxy] [Hr' Hyz]. split; [congruence|]. by etrans.
Qed.

Lemma map_blocks_compacted f m :
  (forall b, block_compacted b (f b)) -> message_compacted m (map_blocks f m).
Proof.
  intros Hf. split; [done|]. cbn. induction (msg_content m); constructor; auto.
Qed.

Section Shape.
Context `{Hjson : !Serde json} `{Hhasher : DefaultHasher}.

Lemma stub_image_block_compacted b : block_compacted b (stub_image_block b).
Proof. destruct b; cbn; auto. Qed.
Lemma compact_content_block_compacted config h t b :
  block_compacted b (compact_content_block config h t b).
Proof. destruct b; cbn; try case_match; auto. Qed.

Lemma Forall2_fmap_r_same {A} (R : A -> A -> Prop) f (l : list A) :
  (forall x, R x (f x)) -> Forall2 R l (f <$> l).
Proof. intros Hf. induction l; constructor; auto. Qed.
Lemma Forall2_same {A} (R : A -> A -> Prop) `{!Reflexive R} (l : list A) : Forall2 R l l.
Proof. induction l; constructor; auto. Qed.

(** Updating a stretch of a list by a function that respects a preorder. *)
Lemma Forall2_take_drop {A} (R : A -> A -> Prop) `{!Reflexive R} f n (l : list A) :
  (forall x, R x (f x)) -> Forall2 R l ((f <$> take n l) ++ drop n l).
Proof.
  intros Hf. rewrite <- (take_drop n l) at 1. apply Forall2_app; [|by apply Forall2_same].
  by apply Forall2_fmap_r_same.
Qed.
Lemma Forall2_first_rest {A} (R : A -> A -> Prop) `{!Reflexive R} f n (l : list A) :
  (forall x, R x (f x)) ->
  Forall2 R l (take 1 l ++ (f <$> drop 1 (take (S n) l)) ++ drop (S n) l).
Proof.
  intros Hf. destruct l as [|x l]; [constructor|]. cbn. constructor; [done|].
  rewrite drop_0. by apply Forall2_take_drop.
Qed.

Lemma candidates_end messages config params :
  select_compaction_candidates messages config = Some params ->
  cp_compact_end params = length messages - preserve_recent config /\
  2 <= cp_compact_end params <= length messages.
Proof.
  unfold select_compaction_candidates. case_match eqn:El; [done|]. intros [= <-]. cbn.
  apply Nat.leb_gt in El. lia.
Qed.

Lemma compact_older_messages_compacted messages config :
  Forall2 message_compacted messages (compact_older_messages messages config).
Proof.
  unfold compact_older_messages.
  destruct (select_compaction_candidates messages config) as [params|] eqn:Ep;
    [|by apply Forall2_same; apply _].
  apply candidates_end in Ep as [_ [He _]].
  destruct (cp_compact_end params) as [|e]; [lia|].
  etrans.
  - refine (Forall2_take_drop message_compacted (map_blocks stub_image_block) (S e) messages _).
    intros m. apply map_blocks_compacted, stub_image_block_compacted.
  - refine (Forall2_first_rest message_compacted _ e _ _). intros m.
    apply map_blocks_compacted, compact_content_block_compacted.
Qed.

Lemma dedup_block_compacted names ms st b : block_compacted b (dedup_block names ms st b).1.
Proof.
  unfold dedup_block. destruct (dedup_key names b) as [[id [name hash]]|]; [|auto].
  case_bool_decide; [|auto]. destruct b; cbn; auto.
Qed.
Lemma dedup_blocks_compacted names ms st bs :
  Forall2 block_compacted bs (dedup_blocks names ms st bs).1.
Proof.
  revert st. induction bs as [|b bs IH]; intros st; [constructor|]. cbn.
  pose proof (dedup_block_compacted names ms st b). destruct (dedup_block names ms st b) as [b' st1].
  specialize (IH st1). destruct (dedup_blocks names ms st1 bs) as [bs' st2]. by constructor.
Qed.
Lemma dedup_messages_compacted names ms todo :
  Forall2 message_compacted todo (dedup_messages names ms todo).1.
Proof.
  induction todo as [|m todo IH]; [constructor|]. cbn.
  destruct (dedup_messages names ms todo) as [r' st].
  pose proof (dedup_blocks_compacted names ms st (msg_content m)).
  destruct (dedup_blocks names ms st (msg_content m)) as [bs st']. by constructor.
Qed.
Lemma dedup_read_results_compacted ms :
  Forall2 message_compacted ms (dedup_read_results_by_content_hash ms).1.
Proof.
  unfold dedup_read_results_by_content_hash.
  pose proof (dedup_messages_compacted (tool_use_name_index ms) ms ms).
  by destruct (dedup_messages _ _ _).
Qed.

(** Tool calls and their results stay paired. *)
Lemma compacted_use_ids m m' : message_compacted m m' -> message_tool_use_ids m' = message_tool_use_ids m.
Proof.
  intros [_ Hb]. unfold message_tool_use_ids. induction Hb as [|b b' bs bs' Hb _ IH]; [done|].
  cbn. destruct Hb; cbn; by rewrite IH.
Qed.
Lemma compacted_result_ids m m' :
  message_compacted m m' -> message_tool_result_ids m' = message_tool_result_ids m.
Proof.
  intros [_ Hb]. unfold message_tool_result_ids. induction Hb as [|b b' bs bs' Hb _ IH]; [done|].
  cbn. destruct Hb; cbn; by rewrite IH.
Qed.
Lemma compacted_pairing ms ms' i :
  Forall2 message_compacted ms ms' ->
  result_is_for_previous_tool_use ms' i = result_is_for_previous_tool_use ms i.
Proof.
  intros Hm. destruct i as [|i]; [done|]. unfold result_is_for_previous_tool_use.
  destruct (ms !! S i) as [m|] eqn:E1.
  - destruct (Forall2_lookup_l _ _ _ _ _ Hm E1) as (m' & -> & Hc).
    destruct (ms !! i) as [q|] eqn:E2.
    + destruct (Forall2_lookup_l _ _ _ _ _ Hm E2) as (q' & -> & Hq).
      by rewrite (compacted_result_ids _ _ Hc), (compacted_use_ids _ _ Hq).
    + apply lookup_ge_None in E2. apply lookup_lt_Some in E1. lia.
  - apply lookup_ge_None in E1. rewrite (Forall2_length _ _ _ Hm) in E1.
    by apply lookup_ge_None in E1 as ->.
Qed.

Lemma compact_messages_shape messages p :
  Forall2 message_compacted messages (compact_messages messages p).1.
Proof.
  unfold compact_messages. cbn [fst].
  destruct (tier_for _) as [tier|]; [|by apply Forall2_same; apply _].
  etrans; [apply dedup_read_results_compacted|]. apply compact_older_messages_compacted.
Qed.

(** C31: compaction keeps the conversation's shape: as many messages, the same
    roles, the same blocks with the same tool calls and the same result ids and
    error flags, so every result still answers the message before it; and without
    pressure nothing changes. *)
Theorem compact_messages_keeps_shape messages p :
  Forall2 message_compacted messages (compact_messages messages p).1 /\
  (forall i, result_is_for_previous_tool_use (compact_messages messages p).1 i
             = result_is_for_previous_tool_use messages i) /\
  (tier_for (effective_pressure messages p) = None -> (compact_messages messages p).1 = messages).
Proof.
  split; [apply compact_messages_shape|]. split.
  - intros i. apply compacted_pairing, compact_messages_shape.
  - intros Ht. unfold compact_messages. cbn [fst]. by rewrite Ht.
Qed.
End Shape.

(** * Size *)
Section Size.
Context `{Hhash : Blake3} `{Hhex : Hex} `{Hjson : !Serde json}.

Lemma estimate_total messages : estimate_message_chars messages = total_bytes messages.
Proof. reflexivity. Qed.

(** Compaction and the request contract agree: what compaction estimates is
    what the contract counts, the cap compaction aims at for a kind of request is
    the contract's limit for that kind, and so a request that has its session, and
    whose last user message is within two thirds of the cap, passes exactly when
    the estimate is within the cap. *)
Theorem estimate_matches_contract r p cap :
  request_kind p = Some (infer_request_kind r) -> request_body_cap_bytes p = None ->
  estimate_message_chars (mr_messages r) = cp_messages_text_bytes (from_request r) /\
  (request_body_cap p = Some cap <-> exists user, size_limits (infer_request_kind r) = Some (user, cap)) /\
  (request_body_cap p = Some cap -> has_stable_value (mr_aura_session_id r) = true ->
   (3 * from_option message_bytes 0 (last (user_messages (mr_messages r))) <= 2 * cap)%Z ->
   is_ok (profile_validate (from_request r)) = true <->
   (estimate_message_chars (mr_messages r) <= cap)%Z).
Proof.
  intros Hk Hc.
  assert (request_body_cap p = Some cap <->
    exists user, size_limits (infer_request_kind r) = Some (user, cap)) as Hcap.
  { unfold request_body_cap. rewrite Hc, Hk. destruct (infer_request_kind r); cbn; naive_solver. }
  split; [|split; [done|]].
  - rewrite estimate_total. unfold from_request. cbn. by destruct (count_messages_spec (mr_messages r)) as [-> _].
  - intros [user Hu]%Hcap Hs Hl. rewrite validate_spec, estimate_total.
    unfold within_contract. rewrite Hu. split.
    + intros [_ Hb]. by destruct (Hb _ _ eq_refl).
    + intros Ht. split; [by right|]. intros ?? [= <- <-]. split; [|done].
      destruct (infer_request_kind r); cbn in Hu; try discriminate Hu; injection Hu as <- <-; lia.
Qed.
End Size.

(** * Summaries *)
Section Summary.
Context `{Hjson : !Serde json} `{Hhasher : DefaultHasher}.

Lemma advance_start_spec ms room start :
  let s := advance_start ms room start in
  start <= s <= start + room /\
  (s < start + room -> result_is_for_previous_tool_use ms s = false).
Proof.
  revert start. induction room as [|room IH]; intros start; cbn; [lia|].
  destruct (result_is_for_previous_tool_use ms start) eqn:Er; [|split; [lia|done]].
  destruct (IH (S start)) as [Hb Hs]. split; [lia|]. intros. apply Hs. lia.
Qed.
Lemma retreat_end_spec ms room e :
  let e' := retreat_end ms room e in
  e - room <= e' <= e /\ (e - room < e' -> boundary_splits_tool_pair ms e' = false).
Proof.
  revert e. induction room as [|room IH]; intros e; cbn; [lia|].
  destruct (boundary_splits_tool_pair ms e) eqn:Er; [|split; [lia|done]].
  destruct (IH (e - 1)) as [Hb Hs]. split; [lia|]. intros. apply Hs. lia.
Qed.

Lemma select_summary_range_spec ms s e :
  select_summary_range ms = Some (s, e) ->
  1 <= s /\ s + 4 <= e /\ e + 2 <= length ms /\
  result_is_for_previous_tool_use ms s = false /\ boundary_splits_tool_pair ms e = false.
Proof.
  unfold select_summary_range. cbn [preserve_recent tier_micro].
  destruct (Nat.leb_spec (length ms) (2 + 2)) as [|Hl]; [done|].
  set (e0 := length ms - 2). set (s0 := advance_start ms (e0 - 1) 1).
  destruct (Nat.leb_spec 4 (retreat_end ms (e0 - s0) e0 - s0)) as [H4|]; [|done].
  intros [= <- <-].
  destruct (advance_start_spec ms (e0 - 1) 1) as [Hs Hsf]. fold s0 in Hs, Hsf.
  destruct (retreat_end_spec ms (e0 - s0) e0) as [He Hef].
  repeat split; try lia; [apply Hsf; lia|apply Hef; lia].
Qed.

Lemma build_summary_input_range ms p before local si :
  build_summary_input ms p before local = Some si ->
  select_summary_range ms = Some (si_compact_start si, si_compact_end si) /\
  si_compactable_messages si
  = take (si_compact_end si - si_compact_start si) (drop (si_compact_start si) ms) /\
  si_recent_tail si = drop (si_compact_end si) ms /\
  (512 <= si_max_summary_chars si <= 12000)%Z.
Proof.
  unfold build_summary_input. case_match; [done|].
  destruct (select_summary_range ms) as [[s e]|]; [|done]. cbn.
  case_match; [done|]. intros [= <-]. cbn. repeat split; unfold clamp; lia.
Qed.

(** What applying an accepted summary leaves: the prefix and the tail with one
    assistant message between them. *)
Lemma apply_message_summary_splice ms text s e :
  summary_refused ms text s e = false ->
  exists t, (apply_message_summary ms (SummaryOutput_Messages text s e)).1
            = take s ms ++ assistant_text t :: drop e ms.
Proof.
  intros Hr. unfold apply_message_summary. rewrite Hr. cbn [fst].
  assert (s < length ms) as Hs.
  { unfold summary_refused in Hr. repeat (apply orb_false_iff in Hr as [Hr ?]).
    repeat match goal with
           | Hb : (_ <=? _) = false |- _ => apply Nat.leb_gt in Hb
           | Hb : (_ <? _) = false |- _ => apply Nat.ltb_ge in Hb end. lia. }
  case_match; cbn [fst]; [|by eexists].
  unfold splice_one. rewrite insert_app_r_alt by (rewrite length_take; lia).
  rewrite length_take_le, Nat.sub_diag by lia. cbn.
  by eexists.
Qed.

(** The range offered for summarising leaves the first message and at least
    the last two, covers four messages or more, and separates no tool result from
    its call; a summary that is not blank is then accepted for it, and replaces
    exactly that range by one assistant message, everything around it kept. *)
Theorem summary_range_applies ms p before local si text :
  build_summary_input ms p before local = Some si -> trim_is_empty text = false ->
  let s := si_compact_start si in let e := si_compact_end si in
  1 <= s /\ s + 4 <= e /\ e + 2 <= length ms /\
  result_is_for_previous_tool_use ms s = false /\ boundary_splits_tool_pair ms e = false /\
  ms = take s ms ++ si_compactable_messages si ++ si_recent_tail si /\
  exists m, msg_role m = Role_Assistant /\
    (apply_message_summary ms (SummaryOutput_Messages text s e)).1
    = take s ms ++ m :: si_recent_tail si.
Proof.
  intros (Hr & Hc & Ht & _)%build_summary_input_range Hb. cbn zeta.
  pose proof (select_summary_range_spec ms _ _ Hr) as (H1 & H2 & H3 & H4 & H5).
  repeat (split; [done|]). rewrite Hc, Ht. split.
  - rewrite <- (take_drop (si_compact_start si) ms) at 1. f_equal.
    rewrite <- (take_drop (si_compact_end si - si_compact_start si) (drop (si_compact_start si) ms)) at 1.
    rewrite drop_drop. do 2 f_equal. lia.
  - destruct (apply_message_summary_splice ms text (si_compact_start si) (si_compact_end si)) as [t ->];
      [|by exists (assistant_text t)]. unfold summary_refused.
    repeat (apply orb_false_iff; split); try done;
      [apply Nat.eqb_neq|apply Nat.leb_gt|apply Nat.ltb_ge]; lia.
Qed.
End Summary.

(** * Folding repeated reads *)
Section Dedup.
Context `{Hjson : !Serde json} `{Hhasher : DefaultHasher}.
Variable names : gmap string string.

(** The order in which the pass visits blocks, and the keys it sees. *)
Definition visit (ms : list Message) : list ContentBlock := concat (msg_content <$> rev ms).
Definition keys (bs : list ContentBlock) : list (string * string) :=
  omap (fun b => snd <$> dedup_key names b) bs.
(** The reference: a result is folded exactly when its key was visited before. *)
Definition fold_repeat (ms : list Message) (before : list ContentBlock) (b : ContentBlock) : ContentBlock :=
  match dedup_key names b with
  | Some (id, (name, hash)) =>
      if bool_decide ((name, hash) ∈ keys before) then fold_result ms b id name hash else b
  | None => b
  end.

Lemma visit_cons m ms : visit (m :: ms) = visit ms ++ msg_content m.
Proof.
  unfold visit. cbn [rev]. rewrite fmap_app, concat_app. cbn. by rewrite app_nil_r.
Qed.
Lemma keys_app l k : keys (l ++ k) = keys l ++ keys k.
Proof. apply omap_app. Qed.

Lemma keys_cons b bs :
  keys (b :: bs) = match dedup_key names b with Some (_, k) => k :: keys bs | None => keys bs end.
Proof. unfold keys. cbn. by destruct (dedup_key names b) as [[]|]. Qed.

Lemma dedup_blocks_app ms st l k :
  dedup_blocks names ms st (l ++ k) =
  let '(l', st1) := dedup_blocks names ms st l in
  let '(k', st2) := dedup_blocks names ms st1 k in (l' ++ k', st2).
Proof.
  revert st. induction l as [|b l IH]; intros st; cbn.
  - by destruct (dedup_blocks names ms st k).
  - destruct (dedup_block names ms st b) as [b' st1]. rewrite IH.
    destruct (dedup_blocks names ms st1 l) as [l' st2].
    by destruct (dedup_blocks names ms st2 k).
Qed.

Lemma dedup_messages_visit ms todo :
  let '(out, st) := dedup_messages names ms todo in
  dedup_blocks names ms dedup_start (visit todo) = (visit out, st).
Proof.
  induction todo as [|m todo IH]; [done|]. cbn [dedup_messages].
  destruct (dedup_messages names ms todo) as [out st].
  destruct (dedup_blocks names ms st (msg_content m)) as [bs st'] eqn:Eb.
  by rewrite !visit_cons, dedup_blocks_app, IH, Eb.
Qed.

Lemma dedup_blocks_ref ms before st bs :
  dd_seen st = list_to_set (keys before) ->
  let '(out, st') := dedup_blocks names ms st bs in
  out = imap (fun k b => fold_repeat ms (before ++ take k bs) b) bs /\
  dd_seen st' = list_to_set (keys (before ++ bs)).
Proof.
  revert before st. induction bs as [|b bs IH]; intros before st Hs; cbn [dedup_blocks].
  { by rewrite app_nil_r. }
  assert (dedup_block names ms st b = (fold_repeat ms before b, (dedup_block names ms st b).2) /\
          dd_seen (dedup_block names ms st b).2 = list_to_set (keys (before ++ [b]))) as [Hb Hs'].
  { unfold dedup_block, fold_repeat. rewrite keys_app.
    destruct (dedup_key names b) as [[id [name hash]]|] eqn:Ek.
    - rewrite (bool_decide_ext _ ((name, hash) ∈ keys before)) by (rewrite Hs; set_solver).
      case_bool_decide as Hin; cbn [snd dd_seen]; rewrite Hs; (split; [done|]);
        rewrite keys_cons, Ek; cbn; set_solver.
    - split; [done|]. rewrite keys_cons, Ek. cbn. by rewrite app_nil_r. }
  rewrite Hb. specialize (IH (before ++ [b]) _ Hs').
  destruct (dedup_blocks names ms (dedup_block names ms st b).2 bs) as [out st'].
  destruct IH as [-> ->]. rewrite <- app_assoc. split; [|done].
  rewrite imap_cons. cbn [take]. rewrite app_nil_r. f_equal. apply imap_ext. intros k x _. cbn.
  by rewrite <- app_assoc.
Qed.

(** Once no key repeats, the pass changes nothing. *)
Lemma dedup_blocks_id ms st bs :
  NoDup (keys bs) -> (forall x, x ∈ keys bs -> x ∉ dd_seen st) ->
  dedup_blocks names ms st bs
  = (bs, {| dd_seen := list_to_set (keys bs) ∪ dd_seen st; dd_folded := dd_folded st |}).
Proof.
  revert st. induction bs as [|b bs IH]; intros st Hn Hd; cbn [dedup_blocks].
  { destruct st; cbn. by rewrite (left_id_L ∅ (∪)). }
  unfold dedup_block. rewrite keys_cons in *.
  destruct (dedup_key names b) as [[id [name hash]]|] eqn:Ek.
  - apply NoDup_cons in Hn as [Hnew Hn].
    rewrite bool_decide_eq_false_2 by (apply Hd; left).
    rewrite IH; [|done|].
    + cbn. f_equal. f_equal. set_solver.
    + cbn. intros x Hx. apply not_elem_of_union. split; [set_solver|]. apply Hd. by right.
  - by rewrite IH.
Qed.
Lemma dedup_messages_id ms todo :
  NoDup (keys (visit todo)) ->
  dedup_messages names ms todo = (todo, {| dd_seen := list_to_set (keys (visit todo)); dd_folded := 0 |}).
Proof.
  induction todo as [|m todo IH]; [done|]. rewrite visit_cons, keys_app. intros Hn.
  apply NoDup_app in Hn as (Hn1 & Hd & Hn2). cbn [dedup_messages]. rewrite (IH Hn1).
  rewrite dedup_blocks_id; [|done|cbn; set_solver]. cbn. rewrite list_to_set_app_L.
  destruct m. do 2 f_equal. set_solver.
Qed.

(** ** The folded result is recognised as folded *)
Lemma dedup_marker_redacted name path hash :
  exists fs, dedup_marker name path hash = JObject fs /\
             fields_get "_redacted" fs = Some (JString name).
Proof. eexists. split; reflexivity. Qed.
Lemma dedup_marker_recognised `{!SerdeOk json} name path hash :
  name ∈ CACHEABLE_TOOLS -> is_ok (to_vec (dedup_marker name path hash)) = true ->
  is_dedup_marker_text (json_text_or_empty (dedup_marker name path hash)) = true.
Proof.
  intros Hn Ho. unfold json_text_or_empty, json_text, is_dedup_marker_text.
  destruct (to_vec (dedup_marker name path hash)) as [b|e] eqn:Ev; [|done]. cbn [fmap result_fmap].
  rewrite string_to_of_bytes, (serde_roundtrip _ _ Ev).
  destruct (dedup_marker_redacted name path hash) as (fs & -> & ->). cbn.
  by apply bool_decide_eq_true_2.
Qed.

(** A folding pass leaves no key twice. *)
Lemma dedup_blocks_keys ms st bs :
  (forall b id name hash, b ∈ bs -> dedup_key names b = Some (id, (name, hash)) ->
     dedup_key names (fold_result ms b id name hash) = None) ->
  let '(out, st') := dedup_blocks names ms st bs in
  NoDup (keys out) /\ (forall x, x ∈ keys out -> x ∉ dd_seen st) /\
  length (keys bs) + dd_folded st = length (keys out) + dd_folded st'.
Proof.
  revert st. induction bs as [|b bs IH]; intros st Hf; cbn [dedup_blocks].
  { split; [constructor|]. split; [set_solver|done]. }
  specialize (IH (dedup_block names ms st b).2 ltac:(intros; eapply Hf; [by right|done])).
  unfold dedup_block in *. destruct (dedup_key names b) as [[id [name hash]]|] eqn:Ek.
  - specialize (Hf b id name hash ltac:(left) Ek).
    case_bool_decide as Hin; cbn [snd] in IH;
      destruct (dedup_blocks names ms _ bs) as [out st'];
      rewrite !keys_cons, ?Hf, Ek; cbn in *.
    + destruct IH as (? & ? & ?). repeat split; [done..|lia].
    + destruct IH as (Hn & Hd & Hl). split; [|split; [|lia]].
      * constructor; [|done]. intros Hx. apply Hd in Hx. set_solver.
      * intros x [->|Hx]%elem_of_cons; [done|]. apply Hd in Hx. set_solver.
  - cbn [snd] in IH. destruct (dedup_blocks names ms st bs) as [out st'].
    by rewrite !keys_cons, Ek.
Qed.
End Dedup.

Section DedupTheorems.
Context `{Hjson : !Serde json} `{Hhasher : DefaultHasher}.

Lemma index_compacted ms ms' map :
  Forall2 message_compacted ms ms' ->
  foldl (fun map m => foldl index_block map (msg_content m)) map ms'
  = foldl (fun map m => foldl index_block map (msg_content m)) map ms.
Proof.
  intros Hm. revert map. induction Hm as [|m m' ms ms' [_ Hb] _ IH]; intros map; [done|].
  cbn. rewrite IH. f_equal. clear IH. revert map.
  induction Hb as [|b b' bs bs' Hb _ IH]; intros map; [done|]. cbn. by destruct Hb; cbn; rewrite IH.
Qed.
Lemma tool_use_name_index_compacted ms ms' :
  Forall2 message_compacted ms ms' -> tool_use_name_index ms' = tool_use_name_index ms.
Proof. apply index_compacted. Qed.

Lemma dedup_key_cacheable names b id name hash :
  dedup_key names b = Some (id, (name, hash)) -> name ∈ CACHEABLE_TOOLS /\
  exists c e, b = ContentBlock_ToolResult id c e.
Proof.
  destruct b as [| | | |tid c e]; cbn; try discriminate.
  destruct (is_dedup_marker_text _); [done|]. destruct (names !! tid) as [n|]; [|done].
  case_bool_decide; [|done]. intros [= <- <- <-]. eauto.
Qed.

(** The folding pass equals its reference: visiting messages newest first
    (and the blocks of one message in order), a read-only tool result is replaced
    by a marker exactly when a result of the same tool with the same content hash
    was visited before; the first visited copy stays verbatim. *)
Theorem dedup_matches_reference ms :
  let names := tool_use_name_index ms in
  visit (dedup_read_results_by_content_hash ms).1
  = imap (fun k b => fold_repeat names ms (take k (visit ms)) b) (visit ms).
Proof.
  cbn zeta. unfold dedup_read_results_by_content_hash. set (names := tool_use_name_index ms).
  pose proof (dedup_messages_visit names ms ms) as Hv.
  destruct (dedup_messages names ms ms) as [out st]. cbn [fst].
  pose proof (dedup_blocks_ref names ms [] dedup_start (visit ms) eq_refl) as Hr.
  rewrite Hv in Hr. by destruct Hr as [-> _].
Qed.

(** Folding is complete and stable: afterwards no two read results of one
    tool have the same content hash, the number of folds is the number of results
    that disappeared, and a second pass changes nothing; provided serialising a
    marker succeeds and reads back. *)
Theorem dedup_idempotent `{!SerdeOk json} ms :
  let names := tool_use_name_index ms in
  (forall b id name hash, b ∈ visit ms -> dedup_key names b = Some (id, (name, hash)) ->
     is_ok (to_vec (dedup_marker name (default "" (tool_use_input_path ms id)) hash)) = true) ->
  let '(out, folded) := dedup_read_results_by_content_hash ms in
  NoDup (keys names (visit out)) /\
  length (keys names (visit ms)) = length (keys names (visit out)) + folded /\
  dedup_read_results_by_content_hash out = (out, 0).
Proof.
  cbn zeta. intros Hm. pose proof (dedup_read_results_compacted ms) as Hc.
  unfold dedup_read_results_by_content_hash in *. set (names := tool_use_name_index ms) in *.
  pose proof (dedup_messages_visit names ms ms) as Hv.
  destruct (dedup_messages names ms ms) as [out st]. cbn [fst] in Hc.
  pose proof (dedup_blocks_keys names ms dedup_start (visit ms)) as Hk.
  rewrite Hv in Hk. destruct Hk as (Hn & _ & Hl).
  { intros b id name hash Hb Ek. specialize (Hm _ _ _ _ Hb Ek).
    destruct (dedup_key_cacheable _ _ _ _ _ Ek) as (Hcache & c & e & ->). cbn.
    by rewrite dedup_marker_recognised. }
  cbn [dd_folded dedup_start] in Hl. split; [done|]. split; [lia|].
  rewrite (tool_use_name_index_compacted _ _ Hc). fold names. by rewrite dedup_messages_id.
Qed.
End DedupTheorems.

(** * Truncation *)

(** Strings as bytes: equalities of strings are equalities of byte lists. *)
Lemma string_bytes_inj s t : string_to_bytes s = string_to_bytes t -> s = t.
Proof. intros Hs. by rewrite <- (string_of_to_bytes s), <- (string_of_to_bytes t), Hs. Qed.

Lemma head_tail_bound len max h t :
  (0 <= max <= u64_max)%Z -> (max < len)%Z ->
  (0 <= default (max / 3) h)%Z -> (0 <= default (max / 3) t)%Z ->
  (default (max / 3) h + default (max / 3) t <= u64_max)%Z ->
  (max * default (max / 3) h <= u64_max)%Z ->
  let '(a, b) := head_tail len max h t in (0 <= a /\ 0 <= b /\ a + b <= max)%Z.
Proof.
  intros Hm Hl. set (hh := default _ h). set (tt := default _ t). intros Hh Ht Hs Hp.
  unfold head_tail. fold hh tt. rewrite u64_add_small by (unfold is_u64, u64_max in *; lia).
  unfold saturating_sub, saturating_mul. rewrite Z.min_r by lia.
  destruct (Z.ltb_spec max (hh + tt)) as [Hgt|Hle]; [|lia].
  destruct (Z.eqb_spec (hh + tt) 0); [lia|].
  assert (0 <= max * hh / (hh + tt) <= max)%Z as Hd.
  { split; [apply Z.div_pos; nia|]. apply Z.div_le_upper_bound; nia. }
  lia.
Qed.

Lemma ascii_take n s :
  is_ascii s = true -> string_to_bytes (chars_take n s) = take n (string_to_bytes s).
Proof.
  intros Ha. unfold chars_take, of_chars, chars. rewrite string_to_of_bytes, utf8_chars_ascii by done.
  rewrite <- fmap_take. generalize (take n (string_to_bytes s)). intros l.
  induction l as [|b l IH]; [done|]. cbn. f_equal. exact IH.
Qed.
Lemma ascii_take_back n s :
  is_ascii s = true ->
  string_to_bytes (chars_take_back n s)
  = drop (length (string_to_bytes s) - n) (string_to_bytes s).
Proof.
  intros Ha. unfold chars_take_back, of_chars, chars.
  rewrite string_to_of_bytes, utf8_chars_ascii, length_fmap, <- fmap_drop by done.
  generalize (drop (length (string_to_bytes s) - n) (string_to_bytes s)). intros l.
  induction l as [|b l IH]; [done|]. cbn. f_equal. exact IH.
Qed.

(** Truncating ASCII text over its limit keeps a prefix and a suffix of at
    most [max_chars] characters together, and the omission note between them
    names exactly the number of characters left out. *)
Theorem truncate_content_ascii content max h t :
  is_ascii content = true -> (0 <= max < str_len content)%Z -> (str_len content <= u64_max)%Z ->
  (0 <= default (max / 3) h)%Z -> (0 <= default (max / 3) t)%Z ->
  (default (max / 3) h + default (max / 3) t <= u64_max)%Z ->
  (max * default (max / 3) h <= u64_max)%Z ->
  exists p mid s,
    content = p +++ mid +++ s /\ (str_len p + str_len s <= max)%Z /\
    truncate_content content max h t = p +++ omission (str_len mid) +++ s.
Proof.
  intros Ha Hm Hu Hh Ht Hs Hp.
  pose proof (head_tail_bound (str_len content) max h t ltac:(lia) ltac:(lia) Hh Ht Hs Hp) as Hb.
  unfold truncate_content. destruct (Z.leb_spec (str_len content) max); [lia|].
  destruct (head_tail _ _ _ _) as [a b]. destruct Hb as (Hp0 & Hb0 & Hab).
  set (l := string_to_bytes content). set (n := length l).
  assert (str_len content = Z.of_nat n) as Hn by (unfold n, l; by rewrite string_to_bytes_length).
  exists (chars_take (Z.to_nat a) content),
    (String.string_of_list_byte (drop (Z.to_nat a) (take (n - Z.to_nat b) l))),
    (chars_take_back (Z.to_nat b) content).
  assert (str_len (String.string_of_list_byte (drop (Z.to_nat a) (take (n - Z.to_nat b) l)))
          = (str_len content - a - b)%Z) as Hmid.
  { unfold str_len at 1. rewrite <- string_to_bytes_length, string_to_of_bytes, length_drop, length_take.
    fold n. lia. }
  split; [|split].
  - apply string_bytes_inj. rewrite !string_to_bytes_app, string_to_of_bytes, ascii_take, ascii_take_back
      by done. fold l n.
    rewrite <- (take_drop (n - Z.to_nat b) l) at 1. rewrite app_assoc. f_equal.
    rewrite <- (take_drop (Z.to_nat a) (take (n - Z.to_nat b) l)) at 1. f_equal.
    rewrite take_take. f_equal. lia.
  - unfold str_len at 1 2. rewrite <- !string_to_bytes_length, ascii_take, ascii_take_back by done.
    fold l n. rewrite length_take, length_drop. fold n. lia.
  - rewrite Hmid, u64_add_small by (unfold is_u64, u64_max in *; lia).
    unfold saturating_sub. rewrite Z.max_r by lia. by rewrite Z.sub_add_distr.
Qed.

(** Counting characters against bytes duplicates text instead of cutting it:
    a text of [n] four-byte characters, truncated to a limit between [3n] and
    [4n] bytes, comes back in full twice, around a note that characters were
    omitted. *)
Theorem truncate_wide_duplicates s max :
  let n := Z.of_nat (length (chars s)) in
  Forall (fun c => length c = 4) (chars s) -> (3 * n <= max < 4 * n)%Z -> (4 * n <= u64_max)%Z ->
  truncate_content s max None None = s +++ omission (4 * n - 2 * (max / 3)) +++ s.
Proof.
  cbn zeta. intros Hw Hm Hu.
  assert (str_len s = 4 * Z.of_nat (length (chars s)))%Z as Hl.
  { unfold str_len. rewrite <- string_to_bytes_length, <- (concat_utf8_chars (string_to_bytes s)).
    fold (chars s). clear -Hw. induction Hw as [|c cs Hc _ IH]; [done|].
    cbn [concat]. rewrite length_app, Hc. cbn [length]. lia. }
  assert (Z.of_nat (length (chars s)) <= max / 3)%Z as Hd by (apply Z.div_le_lower_bound; lia).
  assert (3 * (max / 3) <= max)%Z as Hd' by (apply Z.mul_div_le; lia).
  assert (head_tail (str_len s) max None None = (max / 3, max / 3)%Z) as Hht.
  { unfold head_tail. cbn [default from_option].
    rewrite u64_add_small by (unfold is_u64, u64_max in *; lia).
    destruct (Z.ltb_spec max (max / 3 + max / 3)); [lia|]. unfold saturating_sub.
    f_equal; lia. }
  unfold truncate_content. destruct (Z.leb_spec (str_len s) max); [lia|]. rewrite Hht.
  rewrite u64_add_small by (unfold is_u64, u64_max in *; lia).
  unfold chars_take, chars_take_back, saturating_sub.
  rewrite take_ge by lia. replace (length (chars s) - Z.to_nat (max / 3)) with 0 by lia.
  rewrite drop_0, of_chars_chars, Z.max_r by lia. do 2 f_equal. rewrite Hl. f_equal. lia.
Qed.

(** The stored prefix of an oversized text. *)
Lemma char_boundary_le s n : char_boundary s n <= n.
Proof. induction n as [|n IH]; [done|]. cbn [char_boundary]. case_match; lia. Qed.
Lemma char_boundary_ok s n : s <> [] -> is_char_boundary s (char_boundary s n) = true.
Proof.
  intros Hs. induction n as [|n IH]; cbn [char_boundary]; [by destruct s|].
  by destruct (is_char_boundary s (S n)) eqn:Eb.
Qed.
Lemma truncate_str_spec s max out :
  (0 <= max)%Z -> truncate_str s max = Some out ->
  exists p rest, s = p +++ rest /\ (str_len p <= max < str_len s)%Z /\
    is_char_boundary (string_to_bytes s) (String.length p) = true /\
    out = p +++ "... [truncated " +++ fmt_Z (str_len s) +++ " bytes]".
Proof.
  intros Hm. unfold truncate_str. destruct (Z.leb_spec (str_len s) max) as [|Hlt]; [done|].
  intros [= <-]. set (l := string_to_bytes s). set (n := char_boundary l (Z.to_nat max)).
  assert (length l = String.length s) as Hl by apply string_to_bytes_length.
  assert (n <= Z.to_nat max) as Hn by apply char_boundary_le.
  assert (String.length (String.string_of_list_byte (take n l)) = n) as Hp.
  { rewrite <- string_to_bytes_length, string_to_of_bytes, length_take. unfold str_len in Hlt. lia. }
  exists (String.string_of_list_byte (take n l)), (String.string_of_list_byte (drop n l)).
  split; [|split; [|split; [|done]]].
  - apply string_bytes_inj. by rewrite string_to_bytes_app, !string_to_of_bytes, take_drop.
  - unfold str_len at 1. rewrite Hp. lia.
  - rewrite Hp. apply char_boundary_ok. intros Hnil. rewrite Hnil in Hl. unfold str_len in Hlt.
    cbn in Hl. lia.
Qed.

(** * Redaction *)
Section Redaction.
Context `{Hjson : !Serde json}.

(** [fs'] keeps every field of [fs] but for some non-empty texts it dropped. *)
Definition fields_kept (fs fs' : list (string * json)) : Prop :=
  forall k, k <> "_redacted" ->
    fields_get k fs' = fields_get k fs \/
    (fields_get k fs' = None /\ exists s, s <> "" /\ fields_get k fs = Some (JString s)).
#[export] Instance fields_kept_preorder : PreOrder fields_kept.
Proof.
  split; [by left|]. intros a b c Hab Hbc k Hk.
  destruct (Hbc k Hk) as [->|[-> (s & Hs & Hb)]]; [by apply Hab|].
  destruct (Hab k Hk) as [He|[He _]]; [|congruence]. right. split; [done|]. exists s. by rewrite <- He.
Qed.

Lemma elem_of_fields_get k v (fs : list (string * json)) :
  NoDup fs.*1 -> (k, v) ∈ fs -> fields_get k fs = Some v.
Proof.
  induction fs as [|[k' v'] fs IH]; intros Hn Hin; [by apply not_elem_of_nil in Hin|].
  cbn in *. apply NoDup_cons in Hn as [Hk Hn].
  apply elem_of_cons in Hin as [[= <- <-]|Hin]; [by rewrite bool_decide_eq_true_2|].
  rewrite bool_decide_eq_false_2; [by apply IH|]. intros ->. apply Hk.
  apply list_elem_of_fmap. by exists (k, v).
Qed.
Lemma fields_remove_keys k (fs : list (string * json)) :
  NoDup fs.*1 -> NoDup (fields_remove k fs).*1 /\ k ∉ (fields_remove k fs).*1.
Proof.
  unfold fields_remove. induction fs as [|[k' v'] fs IH]; intros Hn; [split; [constructor|set_solver]|].
  cbn in *. apply NoDup_cons in Hn as [Hk Hn]. destruct (IH Hn) as [Hn' Hk'].
  case_bool_decide as Ek; cbn; [done|]. split; [|set_solver]. constructor; [|done].
  intros (p & Hp1 & Hp2)%list_elem_of_fmap. apply Hk. rewrite Hp1. apply list_elem_of_fmap.
  exists p. split; [done|]. apply list_elem_of_In, List.filter_In in Hp2 as [Hp2 _].
  by apply list_elem_of_In.
Qed.
Lemma fields_insert_keys k v (fs : list (string * json)) :
  k ∉ fs.*1 -> NoDup fs.*1 ->
  NoDup (fields_insert k v fs).*1 /\
  (forall x, x ∈ (fields_insert k v fs).*1 -> x = k \/ x ∈ fs.*1).
Proof.
  induction fs as [|[k' v'] fs IH]; intros Hk Hn; cbn in *; [split; [apply NoDup_singleton|set_solver]|].
  apply NoDup_cons in Hn as [Hk' Hn]. destruct (IH ltac:(set_solver) Hn) as [Hn' Hx].
  destruct (String.compare k k') eqn:Ec; cbn.
  - apply String.compare_eq_iff in Ec. set_solver.
  - split; [|set_solver]. constructor; [set_solver|]. by constructor.
  - split; [|set_solver]. constructor; [|done]. intros [->|]%Hx; set_solver.
Qed.
Lemma mark_fields_keys fs f n : NoDup fs.*1 -> NoDup (mark_fields fs f n).*1.
Proof.
  intros Hn. unfold mark_fields. apply fields_insert_keys.
  - by apply fields_remove_keys, fields_remove_keys.
  - by apply fields_remove_keys, fields_remove_keys.
Qed.
Lemma mark_fields_get fs f n k :
  k <> "_redacted" ->
  fields_get k (mark_fields fs f n) = if bool_decide (k = f) then None else fields_get k fs.
Proof.
  intros Hk. unfold mark_fields.
  rewrite fields_get_insert_ne, fields_get_remove_ne by congruence.
  case_bool_decide as Ef; [subst; apply fields_get_remove|by apply fields_get_remove_ne].
Qed.

Lemma redact_step_kept fs fs' :
  NoDup fs.*1 -> redact_step fs = Some fs' ->
  fields_kept fs fs' /\ NoDup fs'.*1 /\ is_Some (fields_get "_redacted" fs').
Proof.
  intros Hn. unfold redact_step. destruct (largest_field fs) as [[f n]|] eqn:El; [|done].
  intros [= <-]. apply largest_field_elem in El as [|(v & Hv & Hr)]; [done|].
  split; [|split; [by apply mark_fields_keys|unfold mark_fields; rewrite fields_get_insert; eauto]].
  intros k Hk. rewrite mark_fields_get by done. case_bool_decide as Ef; [right|by left]. subst.
  split; [done|]. rewrite (elem_of_fields_get f v) by done.
  unfold redactable in Hr. cbn in Hr. destruct v as [| | |s| |]; try discriminate.
  case_bool_decide; [done|]. case_bool_decide; [done|]. by exists s.
Qed.

(** Why the loop stopped at [fs]. *)
Definition redaction_done (cap : Z) (fs : list (string * json)) : Prop :=
  (json_len (JObject fs) <= cap)%Z \/ largest_field fs = None \/
  exists prev, redact_step prev = Some fs /\
    (is_ok (json_text (JObject fs)) = false \/ (json_len (JObject prev) <= json_len (JObject fs))%Z).

Lemma redact_loop_spec cap len fs text :
  NoDup fs.*1 -> json_text (JObject fs) = Ok text -> len = str_len text ->
  let out := redact_loop cap len fs in
  fields_kept fs out /\ (out = fs \/ is_Some (fields_get "_redacted" out)) /\ redaction_done cap out.
Proof.
  cbn zeta. revert text. funelim (redact_loop cap len fs); intros text0 Hn Ht Hlen;
    try match goal with Hs : redact_step _ = Some _ |- _ =>
          destruct (redact_step_kept _ _ Hn Hs) as (Hk & Hn' & Hr) end.
  - split; [done|]. split; [by left|]. left. unfold json_len. rewrite Ht. lia.
  - split; [done|]. split; [by left|]. right. left. unfold redact_step in *.
    by destruct (largest_field fields) as [[]|].
  - split; [done|]. split; [by right|]. right. right. exists fields. split; [done|]. left.
    by match goal with Hj : json_text (JObject ?f) = _ |- context [?f] => rewrite Hj end.
  - split; [done|]. split; [by right|]. right. right. exists fields. split; [done|]. right.
    match goal with Hj : json_text (JObject ?f) = _ |- context [?f] => unfold json_len; rewrite Ht, Hj end.
    lia.
  - match goal with IH : forall _, _, Hj : json_text (JObject fields') = Ok text |- _ =>
      destruct (IH text Hn' Hj eq_refl) as (Hk' & Hr' & Hd) end.
    split; [by etrans|]. split; [|done]. right. by destruct Hr' as [->|].
Qed.

(** Shrinking an oversized tool input keeps it an object and its other
    fields as they were: only non-empty texts are dropped, a marker records that,
    and the loop ends because the input fits, because no text is left to drop, or
    because the last marker was no smaller than the text it replaced. *)
Theorem redact_oversized_outcome fs cap text :
  NoDup fs.*1 -> is_marker (JObject fs) = false -> json_text (JObject fs) = Ok text ->
  exists out, redact_oversized_tool_use_input (JObject fs) cap = JObject out /\
    fields_kept fs out /\ (out = fs \/ is_Some (fields_get "_redacted" out)) /\
    redaction_done cap out.
Proof.
  intros Hn Hm Ht. unfold redact_oversized_tool_use_input. rewrite Hm, Ht.
  eexists. split; [done|]. by eapply redact_loop_spec.
Qed.
End Redaction.

(** * Examples *)
Module CompactionExample.
#[local] Existing Instances toy_blake3 lower_hex.
#[local] Instance length_hash : DefaultHasher := fun b => Z.of_nat (length b).
Definition input : json := JObject [("path", JString "a.rs")].
Definition marker : json := dedup_marker "read_file" "a.rs" (dedup_content_hash_hex (string_to_bytes "body")).
#[local] Instance table_json : Serde json := table_serde [input; marker].
#[local] Instance table_json_ok : SerdeOk json := table_serde_ok _.

Definition call (id : string) : Message :=
  {| msg_role := Role_Assistant; msg_content := [ContentBlock_ToolUse id "read_file" input] |}.
Definition answer (id : string) : Message :=
  Message_tool_results [(id, ToolResultContent_Text "body", false)].
Definition history : list Message :=
  [Message_user "task"; call "1"; answer "1"; Message_assistant "hm"; call "2"; answer "2";
   Message_assistant "done"; Message_user "next"].

Example history_folds :
  (dedup_read_results_by_content_hash history).2 = 1 /\
  msg_content <$> (dedup_read_results_by_content_hash history).1 !! 2
  = Some [ContentBlock_ToolResult "1" (ToolResultContent_Text (json_text_or_empty marker)) false].
Proof. vm_compute. done. Qed.

Lemma compact_messages_keeps_shape_witness :
  (compact_messages history (CompactionPolicy_new DEFAULT_SUMMARY_AT (Some 200000%Z) 100 0)).1 = history.
Proof.
  refine (proj2 (proj2 (compact_messages_keeps_shape history
    (CompactionPolicy_new DEFAULT_SUMMARY_AT (Some 200000%Z) 100 0))) _).
  vm_compute. reflexivity.
Defined.

Lemma dedup_idempotent_witness :
  dedup_read_results_by_content_hash (dedup_read_results_by_content_hash history).1
  = ((dedup_read_results_by_content_hash history).1, 0).
Proof.
  pose proof (dedup_idempotent history) as Hd. cbn zeta in Hd.
  destruct (dedup_read_results_by_content_hash history) as [out folded] eqn:Eo.
  refine (proj2 (proj2 (Hd _))). clear Hd.
  intros b id name hash Hb Hk.
  assert (Forall (fun b => match dedup_key (tool_use_name_index history) b with
    | Some (id, (name, hash)) => is_ok (to_vec (dedup_marker name
        (default "" (tool_use_input_path history id)) hash)) = true
    | None => True end) (visit history)) as Hall by (repeat constructor).
  rewrite Forall_forall in Hall. specialize (Hall b Hb). by rewrite Hk in Hall.
Defined.

Definition chat_request : ModelRequestData := RequestExample.bootstrap (Some "s1").
Definition chat_policy : CompactionPolicy := {|
  max_context_tokens := None; estimated_context_tokens := 0; current_context_tokens := None;
  reserved_output_tokens := 0; raw_message_bytes := None;
  request_kind := Some ModelRequestKind_DevLoopBootstrap; request_body_cap_bytes := None;
  summary_at := DEFAULT_SUMMARY_AT |}.
Lemma estimate_matches_contract_witness :
  is_ok (profile_validate (from_request chat_request)) = true.
Proof.
  pose proof (estimate_matches_contract chat_request chat_policy 24576 eq_refl eq_refl)
    as (_ & _ & Hc).
  apply Hc; [reflexivity|reflexivity|by vm_compute|by vm_compute].
Defined.

Definition long_policy : CompactionPolicy := CompactionPolicy_new DEFAULT_SUMMARY_AT None 0 0.
Definition line : string := String.string_of_list_byte (repeat "a"%byte 200).
Definition long_history : list Message := repeat (Message_assistant line) 8.
Lemma summary_range_applies_witness :
  exists m, msg_role m = Role_Assistant /\
    (apply_message_summary long_history (SummaryOutput_Messages "so far" 1 6)).1
    = take 1 long_history ++ m :: drop 6 long_history.
Proof.
  pose proof (summary_range_applies long_history long_policy 1600 1600) as Hs.
  specialize (Hs _ "so far" eq_refl eq_refl). apply Hs.
Defined.

Lemma truncate_content_ascii_witness :
  exists p mid s, line = p +++ mid +++ s /\ (str_len p + str_len s <= 90)%Z /\
    truncate_content line 90 None None = p +++ omission (str_len mid) +++ s.
Proof.
  apply (truncate_content_ascii line 90 None None); by vm_compute.
Defined.

(** Ten times U+1F600, truncated to thirty-two bytes. *)
Definition smiles : string :=
  String.string_of_list_byte (concat (repeat [byte_of_Z 240; byte_of_Z 159; byte_of_Z 152; byte_of_Z 128] 10)).
Lemma truncate_wide_duplicates_witness :
  truncate_content smiles 32 None None = smiles +++ omission 20 +++ smiles.
Proof.
  refine (truncate_wide_duplicates smiles 32 _ _ _); [|by vm_compute..].
  apply (bool_decide_unpack _). vm_compute. exact I.
Defined.

Lemma redact_oversized_outcome_witness :
  exists out, redact_oversized_tool_use_input input 0 = JObject out /\
    fields_kept [("path", JString "a.rs")] out /\
    (out = [("path", JString "a.rs")] \/ is_Some (fields_get "_redacted" out)) /\
    redaction_done 0 out.
Proof.
  refine (redact_oversized_outcome [("path", JString "a.rs")] 0 _ _ _ _).
  - apply NoDup_singleton.
  - reflexivity.
  - reflexivity.
Defined.

(** Truncating twice in the emergency tier, whose head and tail fill the limit:
    the second pass counts the first note as the omitted text. *)
Example micro_truncates_again :
  let once := truncate_content (line +++ line +++ line) 400 (Some 6000%Z) (Some 3000%Z) in
  (String.length once, String.length (truncate_content once 400 (Some 6000%Z) (Some 3000%Z)))
  = (449, 448) /\
  truncate_content once 400 (Some 6000%Z) (Some 3000%Z)
  = truncate_content (line +++ line +++ String.substring 0 49 line) 400 (Some 6000%Z) (Some 3000%Z).
Proof. vm_compute. done. Qed.

(** The tier between fifteen and thirty per cent truncates more than the next
    one. *)
Example light_keeps_more_than_history :
  select_tier (f64_lit 20 100) = Some tier_history /\ select_tier (f64_lit 40 100) = Some tier_light /\
  (tool_result_max_chars tier_history < tool_result_max_chars tier_light)%Z /\
  preserve_recent tier_history < preserve_recent tier_light.
Proof. vm_compute. repeat split; lia. Qed.
End CompactionExample.
