(* ===== verification/MemoryTypes.v ===== *)
(** The memories an agent keeps between sessions: facts, events and procedures, who
    may see them, how they are scored and how they are written into a prompt
    ([aura-context-memory/src/{types,safety,salience,error}.rs]).

    [f32] is binary32 in [SpecFloat]; [DateTime<Utc>] is a number of nanoseconds
    since 1970.  The exponential and the logarithms of the platform ([Libm]) and
    the calendar of [chrono] ([Chrono]) are parameters. *)
From S2P Require Import Prelude Values CoreTypes Exec Utf8 Text ModelRequest.
From stdpp Require Import list.
From Stdlib Require Import Ascii Strings.Byte SpecFloat.

(** * [f32] *)
Module F32.
Definition of_Z (z : Z) : spec_float := binary_normalize 24 128 z 0 false.
Definition add (a b : spec_float) : spec_float := SFadd 24 128 a b.
Definition mul (a b : spec_float) : spec_float := SFmul 24 128 a b.
Definition div (a b : spec_float) : spec_float := SFdiv 24 128 a b.
Definition sqrt (a : spec_float) : spec_float := SFsqrt 24 128 a.
(** [a.mul_add(b, c)]: the product is not rounded before the sum. *)
Definition mul_add (a b c : spec_float) : spec_float :=
  match a, b with
  | S754_finite sa ma ea, S754_finite sb mb eb => add (S754_finite (xorb sa sb) (ma * mb) (ea + eb)) c
  | _, _ => add (mul a b) c
  end.
Definition is_nan (a : spec_float) : bool := match a with S754_nan => true | _ => false end.
Definition max (a b : spec_float) : spec_float := if is_nan a || SFltb a b then b else a.
Definition min (a b : spec_float) : spec_float := if is_nan a || SFltb b a then b else a.
(** [a.partial_cmp(&b).unwrap_or(Equal) == Greater]. *)
Definition gt_or_equal_on_nan (a b : spec_float) : bool :=
  match SFcompare a b with Some Gt => true | _ => false end.
(** A decimal fraction [digits / 10^scale], rounded once. *)
Definition of_decimal (digits : Z) (scale : nat) : spec_float :=
  match digits with
  | Z0 => S754_zero false
  | Zpos m => match (10 ^ Z.of_nat scale)%Z with
              | Zpos d => div (S754_finite false m 0) (S754_finite false d 0)
              | _ => S754_nan
              end
  | Zneg _ => S754_nan
  end.
(** [{:.d}]: the exact value rounded to [d] decimals, halves to even. *)
Definition round_half_even (num den : Z) : Z :=
  let q := (num `div` den)%Z in
  let r := (num `mod` den)%Z in
  if (2 * r <? den)%Z then q else if (den <? 2 * r)%Z then (q + 1)%Z else if Z.even q then q else (q + 1)%Z.
Definition zero_pad (width : nat) (s : string) : string :=
  match width - String.length s with O => s | S k => String.append (String.string_of_list_ascii (replicate (S k) "0"%char)) s end.
Definition fixed_digits (d : nat) (n : Z) : string :=
  let p := (10 ^ Z.of_nat d)%Z in
  match d with
  | O => fmt_Z n
  | S _ => fmt_Z (n `div` p) +++ "." +++ zero_pad d (fmt_Z (n `mod` p))
  end.
Definition to_fixed (d : nat) (a : spec_float) : string :=
  let p := (10 ^ Z.of_nat d)%Z in
  let signed (s : bool) (n : Z) := (if s then "-" else "") +++ fixed_digits d n in
  match a with
  | S754_zero s => signed s 0%Z
  | S754_infinity s => if s then "-inf" else "inf"
  | S754_nan => "NaN"
  | S754_finite s m e =>
      signed s (if (0 <=? e)%Z then Z.pos m * 2 ^ e * p else round_half_even (Z.pos m * p) (2 ^ (- e)))%Z
  end.
End F32.

Example fixed_print :
  (F32.to_fixed 2 (F32.of_decimal 9 1), F32.to_fixed 2 (f32_lit 1 8), F32.to_fixed 0 (f32_lit 251 2),
   F32.to_fixed 2 (f32_lit 205 200)) = ("0.90", "0.12", "126", "1.02").
Proof. vm_compute. reflexivity. Qed.
Example one_rounding : F32.of_decimal 85 2 = f32_lit 85 100 /\ F32.mul_add (f32_lit 8 10) (f32_lit 1 2) (f32_lit 2 10) = f32_lit 6 10.
Proof. by vm_compute. Qed.

(** The mathematical functions of the platform, whose precision Rust leaves
    open. *)
Class Libm := { exp_f32 : spec_float -> spec_float; ln_f32 : spec_float -> spec_float; ln_1p_f32 : spec_float -> spec_float }.
(** [chrono]: the date [%Y-%m-%d] of a time, and the time at a number of
    milliseconds, when the calendar reaches it. *)
Definition timestamp_millis (t : Z) : Z := (t `div` 1000000)%Z.
Class Chrono := {
  format_date : Z -> string;
  from_timestamp_millis : Z -> option Z;
}.
(** The milliseconds of a time the calendar has lead back to that millisecond. *)
Class ChronoOk `{Chrono} : Prop :=
  chrono_back m t : from_timestamp_millis m = Some t -> timestamp_millis t = m.
(** [TimeDelta::num_seconds] and [num_hours] truncate. *)
Definition num_seconds (delta : Z) : Z := (delta `quot` 1000000000)%Z.
Definition num_hours (delta : Z) : Z := (num_seconds delta `quot` 3600)%Z.

(** * Errors *)
Inductive MemoryError :=
| MemoryError_Store (e : string)
| MemoryError_Serialization (e : string)
| MemoryError_Deserialization (e : string)
| MemoryError_FactNotFound (agent_id fact_id : string)
| MemoryError_EventNotFound (agent_id event_id : string)
| MemoryError_ProcedureNotFound (agent_id procedure_id : string)
| MemoryError_ColumnFamilyNotFound (name : string)
| MemoryError_Refinement (e : string)
| MemoryError_Provider (e : string)
| MemoryError_BlockingTaskFailed (e : string).
#[export] Instance MemoryError_eq_dec : EqDecision MemoryError.
Proof. solve_decision. Defined.
Definition is_not_found (e : MemoryError) : bool :=
  match e with
  | MemoryError_FactNotFound _ _ | MemoryError_EventNotFound _ _ | MemoryError_ProcedureNotFound _ _ => true
  | _ => false
  end.

(** * Visibility *)
Inductive MemoryScope := MemoryScope_Agent | MemoryScope_User | MemoryScope_Project.
#[export] Instance MemoryScope_eq_dec : EqDecision MemoryScope.
Proof. solve_decision. Defined.
Definition MemoryScope_debug (s : MemoryScope) : string :=
  match s with MemoryScope_Agent => "Agent" | MemoryScope_User => "User" | MemoryScope_Project => "Project" end.
Record MemoryAccessContext := {
  ac_project_id : option string;
  ac_user_id : option string;
  ac_include_legacy : bool;
}.
Definition MemoryAccessContext_default : MemoryAccessContext :=
  {| ac_project_id := None; ac_user_id := None; ac_include_legacy := false |}.

Section Partitions.
Context `{Hex} `{Blake3}.
Definition missing_scope_identity (c : MemoryAccessContext) (scope : MemoryScope) : bool :=
  match scope with
  | MemoryScope_Agent | MemoryScope_Project => bool_decide (ac_project_id c = None)
  | MemoryScope_User => bool_decide (ac_user_id c = None)
  end.
Definition scope_namespace (c : MemoryAccessContext) (agent_id : AgentId) (scope : MemoryScope) : string :=
  match scope with
  | MemoryScope_Agent => "project-agent:" +++ default "" (ac_project_id c) +++ ":" +++ id_to_hex agent_id
  | MemoryScope_Project => "project:" +++ default "" (ac_project_id c)
  | MemoryScope_User => "user:" +++ default "" (ac_user_id c)
  end.
Definition storage_id (c : MemoryAccessContext) (agent_id : AgentId) (scope : MemoryScope) : AgentId :=
  if missing_scope_identity c scope then agent_id
  else blake3_hash (string_to_bytes ("aura-memory-v2:" +++ scope_namespace c agent_id scope)).
Definition push_new (p : AgentId) (ps : list AgentId) : list AgentId := if bool_decide (p ∈ ps) then ps else ps ++ [p].
Definition readable_partitions (c : MemoryAccessContext) (agent_id : AgentId) (allow_user_scope allow_project_scope : bool)
  : list AgentId :=
  let has_project := bool_decide (is_Some (ac_project_id c)) in
  let ps := if has_project then [storage_id c agent_id MemoryScope_Agent] else [agent_id] in
  let ps := if allow_project_scope && has_project then push_new (storage_id c agent_id MemoryScope_Project) ps else ps in
  let ps := if allow_user_scope && bool_decide (is_Some (ac_user_id c))
            then push_new (storage_id c agent_id MemoryScope_User) ps else ps in
  if ac_include_legacy c && has_project then push_new agent_id ps else ps.
End Partitions.

(** * Records *)
Inductive MemoryStatus := MemoryStatus_Active | MemoryStatus_Pending | MemoryStatus_Rejected | MemoryStatus_Superseded.
#[export] Instance MemoryStatus_eq_dec : EqDecision MemoryStatus.
Proof. solve_decision. Defined.
Inductive MemorySensitivity := MemorySensitivity_Normal | MemorySensitivity_Sensitive.
#[export] Instance MemorySensitivity_eq_dec : EqDecision MemorySensitivity.
Proof. solve_decision. Defined.
Record MemoryProvenance := {
  mp_session_id : option string;
  mp_excerpt : option string;
  mp_extractor_model : option string;
  mp_project_id : option string;
  mp_user_id : option string;
  mp_contributor_agent_id : option string;
}.
Definition MemoryProvenance_default : MemoryProvenance := {|
  mp_session_id := None; mp_excerpt := None; mp_extractor_model := None; mp_project_id := None; mp_user_id := None;
  mp_contributor_agent_id := None |}.
Record MemoryContinuity := {
  mc_scope : MemoryScope;
  mc_status : MemoryStatus;
  mc_sensitivity : MemorySensitivity;
  mc_pinned : bool;
  mc_provenance : MemoryProvenance;
  mc_superseded_by : option string;
}.
Definition MemoryContinuity_default : MemoryContinuity := {|
  mc_scope := MemoryScope_Agent; mc_status := MemoryStatus_Active; mc_sensitivity := MemorySensitivity_Normal;
  mc_pinned := false; mc_provenance := MemoryProvenance_default; mc_superseded_by := None |}.
Inductive MemoryWritePolicy := MemoryWritePolicy_Automatic | MemoryWritePolicy_Approval | MemoryWritePolicy_ExplicitOnly.
#[export] Instance MemoryWritePolicy_eq_dec : EqDecision MemoryWritePolicy.
Proof. solve_decision. Defined.
Inductive MemoryRetrievalMode := MemoryRetrievalMode_Salience | MemoryRetrievalMode_QueryAware.
#[export] Instance MemoryRetrievalMode_eq_dec : EqDecision MemoryRetrievalMode.
Proof. solve_decision. Defined.
Record AgentContinuityConfig := {
  cc_use_memory : bool;
  cc_generate_memory : bool;
  cc_write_policy : MemoryWritePolicy;
  cc_retrieval_mode : MemoryRetrievalMode;
  cc_allow_user_scope : bool;
  cc_allow_project_scope : bool;
}.
Definition AgentContinuityConfig_default : AgentContinuityConfig := {|
  cc_use_memory := true; cc_generate_memory := true; cc_write_policy := MemoryWritePolicy_Automatic;
  cc_retrieval_mode := MemoryRetrievalMode_QueryAware; cc_allow_user_scope := true; cc_allow_project_scope := true |}.

(** [FactId], [AgentEventId] and [ProcedureId] are sixteen bytes. *)
Abbreviation FactId := (arr 16).
Abbreviation AgentEventId := (arr 16).
Abbreviation ProcedureId := (arr 16).
Inductive FactSource := FactSource_Extracted | FactSource_UserProvided | FactSource_Consolidated.
Definition FactSource_display (s : FactSource) : string :=
  match s with
  | FactSource_Extracted => "extracted" | FactSource_UserProvided => "user_provided"
  | FactSource_Consolidated => "consolidated"
  end.
Record Fact := {
  fa_fact_id : FactId;
  fa_agent_id : AgentId;
  fa_key : string;
  fa_value : json;
  fa_confidence : spec_float;
  fa_source : FactSource;
  fa_importance : spec_float;
  fa_access_count : Z;
  fa_last_accessed : Z;
  fa_created_at : Z;
  fa_updated_at : Z;
  fa_continuity : MemoryContinuity;
}.
Record AgentEvent := {
  ev_event_id : AgentEventId;
  ev_agent_id : AgentId;
  ev_event_type : string;
  ev_summary : string;
  ev_metadata : json;
  ev_importance : spec_float;
  ev_access_count : Z;
  ev_last_accessed : Z;
  ev_timestamp : Z;
  ev_continuity : MemoryContinuity;
}.
Record Procedure := {
  pr_procedure_id : ProcedureId;
  pr_agent_id : AgentId;
  pr_name : string;
  pr_trigger : string;
  pr_steps : list string;
  pr_context_constraints : json;
  pr_success_rate : spec_float;
  pr_execution_count : Z;
  pr_last_used : Z;
  pr_created_at : Z;
  pr_updated_at : Z;
  pr_skill_name : option string;
  pr_skill_relevance : option spec_float;
  pr_continuity : MemoryContinuity;
}.
#[export] Instance MemoryContinuity_settable : Settable MemoryContinuity := fun c => {|
  mc_scope := mc_scope c; mc_status := mc_status c; mc_sensitivity := mc_sensitivity c; mc_pinned := mc_pinned c;
  mc_provenance := mc_provenance c; mc_superseded_by := mc_superseded_by c |}.
#[export] Instance Fact_settable : Settable Fact := fun f => {|
  fa_fact_id := fa_fact_id f; fa_agent_id := fa_agent_id f; fa_key := fa_key f; fa_value := fa_value f;
  fa_confidence := fa_confidence f; fa_source := fa_source f; fa_importance := fa_importance f;
  fa_access_count := fa_access_count f; fa_last_accessed := fa_last_accessed f; fa_created_at := fa_created_at f;
  fa_updated_at := fa_updated_at f; fa_continuity := fa_continuity f |}.
#[export] Instance Procedure_settable : Settable Procedure := fun p => {|
  pr_procedure_id := pr_procedure_id p; pr_agent_id := pr_agent_id p; pr_name := pr_name p; pr_trigger := pr_trigger p;
  pr_steps := pr_steps p; pr_context_constraints := pr_context_constraints p; pr_success_rate := pr_success_rate p;
  pr_execution_count := pr_execution_count p; pr_last_used := pr_last_used p; pr_created_at := pr_created_at p;
  pr_updated_at := pr_updated_at p; pr_skill_name := pr_skill_name p; pr_skill_relevance := pr_skill_relevance p;
  pr_continuity := pr_continuity p |}.

(** * What a prompt gets *)
Record MemorySelection := {
  ms_memory_id : string;
  ms_kind : string;
  ms_score : spec_float;
  ms_relevance : spec_float;
  ms_reason : string;
  ms_scope : MemoryScope;
}.
Record MemoryRetrievalTrace := {
  rt_candidate_count : nat;
  rt_selected_count : nat;
  rt_estimated_tokens : nat;
  rt_duration_ms : Z;
  rt_query_aware : bool;
  rt_selections : list MemorySelection;
}.
Record MemoryPacket := {
  pk_facts : list Fact;
  pk_events : list AgentEvent;
  pk_procedures : list Procedure;
  pk_trace : option MemoryRetrievalTrace;
}.
Definition packet_is_empty (p : MemoryPacket) : bool :=
  match pk_facts p, pk_events p, pk_procedures p with [], [], [] => true | _, _, _ => false end.
Inductive CandidateType := CandidateType_Fact | CandidateType_Event | CandidateType_Procedure.
Record MemoryCandidate := {
  ca_type : CandidateType;
  ca_key : option string;
  ca_value : json;
  ca_summary : option string;
  ca_source_hint : string;
  ca_confidence : spec_float;
  ca_importance : spec_float;
}.
Record RefinedCandidate := {
  rc_type : CandidateType;
  rc_key : string;
  rc_value : json;
  rc_summary : option string;
  rc_confidence : spec_float;
  rc_importance : spec_float;
  rc_keep : bool;
  rc_scope : MemoryScope;
  rc_trigger : option string;
  rc_steps : option (list string);
  rc_skill_name : option string;
}.

(** ** Text that must not reach a prompt *)
Definition unsafe_needles : list string := [
  "ignore previous instructions"; "ignore all previous"; "disregard previous instructions"; "system prompt";
  "reveal your instructions"; "show your hidden prompt"; "exfiltrate"; "send all secrets"; "override the developer";
  "you are now"; "act as system"; "<system>"; "</system>"; "<developer>"; "</developer>"].
(** The characters U+200B, U+200C, U+200D, U+2060 and U+FEFF in UTF-8. *)
Definition of_Zs (l : list Z) : string := String.string_of_list_byte (byte_of_Z <$> l).
Definition invisible_chars : list string :=
  of_Zs <$> [[226; 128; 139]; [226; 128; 140]; [226; 128; 141]; [226; 129; 160]; [239; 187; 191]]%Z.
Definition unsafe_for_prompt (text : string) : bool :=
  existsb (fun needle => contains needle (to_ascii_lowercase text)) unsafe_needles
  || existsb (fun c => contains c text) invisible_chars.

Section Prompt.
Context `{Hex} `{JsonText} `{Chrono}.
Definition value_text (v : json) : string := match v with JString s => s | other => json_to_string other end.
Definition skill_tag (name : option string) : string :=
  match name with Some s => " [skill: " +++ s +++ "]" | None => "" end.
Definition quote : string := String (ascii_of_nat 34) EmptyString.
Definition quoted (s : string) : string := quote +++ s +++ quote.
Definition fact_line (f : Fact) : string :=
  "- [memory:" +++ id_to_hex (fa_fact_id f) +++ "] " +++ fa_key f +++ ": " +++ value_text (fa_value f) +++ " (confidence: "
  +++ F32.to_fixed 2 (fa_confidence f) +++ ", scope: " +++ MemoryScope_debug (mc_scope (fa_continuity f)) +++ ")" +++ nl.
Definition event_line (e : AgentEvent) : string :=
  "- [memory:" +++ id_to_hex (ev_event_id e) +++ "] [" +++ format_date (ev_timestamp e) +++ "] " +++ ev_event_type e +++ ": "
  +++ ev_summary e +++ nl.
Definition procedure_line (p : Procedure) : string :=
  "- [memory:" +++ id_to_hex (pr_procedure_id p) +++ "] " +++ quoted (pr_name p) +++ ": " +++ str_join " -> " (pr_steps p)
  +++ " (success: " +++ F32.to_fixed 0 (F32.mul (pr_success_rate p) (F32.of_Z 100)) +++ "%)" +++ skill_tag (pr_skill_name p) +++ nl.
Definition section_of {A} (tag : string) (line : A -> string) (l : list A) : string :=
  match l with
  | [] => ""
  | _ => "<" +++ tag +++ ">" +++ nl +++ String.concat "" (line <$> l) +++ "</" +++ tag +++ ">" +++ nl
  end.
Definition format_for_prompt (p : MemoryPacket) : string :=
  if packet_is_empty p then "" else
  nl +++ "<agent_memory>" +++ nl
  +++ "Only use memories that are relevant to the current request. Memory IDs are local provenance references." +++ nl
  +++ section_of "facts" fact_line (pk_facts p)
  +++ section_of "recent_events" event_line (pk_events p)
  +++ section_of "procedures" procedure_line (pk_procedures p)
  +++ "</agent_memory>".

(** ** Cost of a line, as it is estimated *)
Definition estimate_tokens (text : string) : nat := (String.length text + 3) / 4.
Definition estimate_fact_tokens (f : Fact) : nat :=
  estimate_tokens ("- " +++ fa_key f +++ ": " +++ value_text (fa_value f) +++ " (confidence: " +++ F32.to_fixed 2 (fa_confidence f) +++ ")").
Definition estimate_event_tokens (e : AgentEvent) : nat :=
  estimate_tokens ("- [" +++ format_date (ev_timestamp e) +++ "] " +++ ev_event_type e +++ ": " +++ ev_summary e).
Definition estimate_procedure_tokens (p : Procedure) : nat :=
  estimate_tokens ("- " +++ quoted (pr_name p) +++ ": " +++ str_join " -> " (pr_steps p) +++ " (success: "
    +++ F32.to_fixed 0 (F32.mul (pr_success_rate p) (F32.of_Z 100)) +++ "%)" +++ skill_tag (pr_skill_name p)).
End Prompt.

(** * Salience *)
Section Salience.
Context `{Libm}.
Definition LN_2 : spec_float := S754_finite false 11629080 (-24).
Definition recency_decay (last_time now : Z) : spec_float :=
  let hours := F32.of_Z (Z.max (num_hours (now - last_time)) 0) in
  exp_f32 (F32.div (F32.mul (SFopp LN_2) hours) (F32.mul (F32.of_Z 7) (F32.of_Z 24))).
Definition normalized_access (count : Z) : spec_float :=
  if (count =? 0)%Z then f32_lit 0 1
  else F32.min (F32.div (ln_1p_f32 (F32.of_Z count)) (ln_f32 (F32.of_Z 101))) (f32_lit 1 1).
Definition score_fact (f : Fact) (now : Z) : spec_float :=
  let recency := recency_decay (fa_last_accessed f) now in
  let access := normalized_access (fa_access_count f) in
  F32.mul_add (f32_lit 2 10) access (F32.mul_add (f32_lit 5 10) (fa_importance f) (F32.mul (f32_lit 3 10) recency)).
Definition score_event (e : AgentEvent) (now : Z) : spec_float :=
  F32.mul_add (f32_lit 4 10) (ev_importance e) (F32.mul (f32_lit 6 10) (recency_decay (ev_timestamp e) now)).
Definition score_procedure (p : Procedure) (now : Z) : spec_float :=
  let recency := recency_decay (pr_last_used p) now in
  let frequency := normalized_access (pr_execution_count p) in
  F32.mul_add (f32_lit 3 10) frequency (F32.mul_add (f32_lit 3 10) recency (F32.mul (f32_lit 4 10) (pr_success_rate p))).
End Salience.
