(* ===== verification/MemoryStore.v ===== *)
(** Where memories are kept ([aura-context-memory/src/store.rs]).

    [MemoryStoreApi] is the trait the rest of the crate is written against;
    [MemoryStore] is its implementation on the database of [Rocks]: five column
    families of JSON records, sealed or plain, keyed by the agent, for events
    also by the time, and by the record.  The clock is an argument. *)
From S2P Require Import Prelude Values CoreTypes Seal Rocks RocksStore MemoryTypes.
From stdpp Require Import list.
From Stdlib Require Import Strings.Byte.

(** [serde_json::Error::classify] gives [Data] or [Eof]. *)
Class SerdeCategory := data_or_eof : serde_error -> bool.

Record MemoryStats := { st_facts : nat; st_events : nat; st_procedures : nat }.

(** * The trait *)
Class MemoryStoreApi (S : Type) := {
  get_continuity_config : S -> AgentId -> result MemoryError AgentContinuityConfig;
  put_continuity_config : AgentId -> AgentContinuityConfig -> stm S MemoryError unit;
  put_fact : Fact -> stm S MemoryError unit;
  get_fact : S -> AgentId -> FactId -> result MemoryError Fact;
  get_fact_by_key : S -> AgentId -> string -> result MemoryError (option Fact);
  list_facts : S -> AgentId -> result MemoryError (list Fact);
  touch_fact : Z -> AgentId -> FactId -> stm S MemoryError unit;
  delete_fact : AgentId -> FactId -> stm S MemoryError unit;
  put_event : AgentEvent -> stm S MemoryError unit;
  list_events : S -> AgentId -> nat -> result MemoryError (list AgentEvent);
  list_events_since : S -> AgentId -> Z -> result MemoryError (list AgentEvent);
  delete_event_direct : AgentId -> Z -> AgentEventId -> stm S MemoryError unit;
  delete_event : AgentId -> AgentEventId -> stm S MemoryError unit;
  delete_events_before : AgentId -> Z -> stm S MemoryError nat;
  put_procedure : Procedure -> stm S MemoryError unit;
  get_procedure : S -> AgentId -> ProcedureId -> result MemoryError Procedure;
  list_procedures : S -> AgentId -> result MemoryError (list Procedure);
  delete_procedure : AgentId -> ProcedureId -> stm S MemoryError unit;
  delete_all : AgentId -> stm S MemoryError unit;
  stats : S -> AgentId -> result MemoryError MemoryStats;
}.

(** * Keys *)
Definition cf_MEMORY_FACTS : string := "memory_facts".
Definition cf_MEMORY_EVENTS : string := "memory_events".
Definition cf_MEMORY_PROCEDURES : string := "memory_procedures".
Definition cf_MEMORY_EVENT_INDEX : string := "memory_event_index".
Definition cf_MEMORY_CONFIG : string := "memory_config".

Definition fact_key (agent_id : AgentId) (fact_id : FactId) : bytes := arr_bytes agent_id ++ arr_bytes fact_id.
Definition procedure_key (agent_id : AgentId) (procedure_id : ProcedureId) : bytes := arr_bytes agent_id ++ arr_bytes procedure_id.
Definition event_index_key (agent_id : AgentId) (event_id : AgentEventId) : bytes := arr_bytes agent_id ++ arr_bytes event_id.
(** [i64::to_be_bytes]: [to_be_bytes] takes the number modulo 2^64. *)
Definition event_key (agent_id : AgentId) (timestamp : Z) (event_id : AgentEventId) : bytes :=
  arr_bytes agent_id ++ to_be_bytes (timestamp_millis timestamp) ++ arr_bytes event_id.
Definition time_key (agent_id : AgentId) (timestamp : Z) : bytes :=
  arr_bytes agent_id ++ to_be_bytes (timestamp_millis timestamp).
Definition agent_prefix (agent_id : AgentId) : bytes := arr_bytes agent_id.
(** The loop of [agent_prefix_end], over the bytes from the last one: the first
    byte below 0xFF is incremented, those before it become zero. *)
Fixpoint increment_rev (l : bytes) : bytes * bool :=
  match l with
  | [] => ([], false)
  | b :: r =>
      if (byte_to_Z b <? 255)%Z then (byte_of_Z (byte_to_Z b + 1) :: r, true)
      else let '(r', found) := increment_rev r in ("000"%byte :: r', found)
  end.
Definition agent_prefix_end (agent_id : AgentId) : bytes :=
  let '(l, found) := increment_rev (rev (arr_bytes agent_id)) in
  if found then rev l else rev l ++ ["000"%byte].
(** [i64::from_be_bytes]. *)
Definition i64_of_be_bytes (l : bytes) : Z :=
  let u := from_be_bytes l in if (u <? 2 ^ 63)%Z then u else (u - 2 ^ 64)%Z.

(** * The implementation *)
Section MemoryStore.
Context {DB : Type} `{RocksDB DB} `{Aead} `{Hex} `{Chrono} `{SerdeCategory}.
Context `{Serde Fact, Serde AgentEvent, Serde Procedure, Serde AgentContinuityConfig}.
Abbreviation St := (RocksStore DB).
Abbreviation MM := (stm (RocksStore DB) MemoryError).

Definition from_serde_error (e : serde_error) : MemoryError :=
  if data_or_eof e then MemoryError_Deserialization e else MemoryError_Serialization e.
Definition mem_seal (plain : bytes) : MM bytes := fun st =>
  match rs_cipher st with
  | Some cipher =>
      (map_err (fun e => MemoryError_Deserialization ("sealing value: " +++ SealError_display e)) (cipher_seal cipher (rs_nonces st 0) plain),
       MkRocksStore (rs_db st) (rs_cipher st) (fun n => rs_nonces st (S n)))
  | None => (Ok plain, st)
  end.
Definition mem_open (cipher : option SealCipher) (b : bytes) : result MemoryError bytes :=
  match cipher with
  | Some cipher => map_err (fun e => MemoryError_Deserialization ("opening sealed value: " +++ SealError_display e)) (cipher_open cipher b)
  | None => Ok b
  end.
Definition mem_cf (st : St) (name : string) : result MemoryError unit :=
  if cf_handle (rs_db st) name then Ok tt else Err (MemoryError_ColumnFamilyNotFound name).
Definition mem_decode {A} `{Serde A} (cipher : option SealCipher) (b : bytes) : result MemoryError A :=
  plain ← mem_open cipher b; map_err MemoryError_Deserialization (from_slice plain).
Definition mem_write (batch : WriteBatch) : MM unit := fun st =>
  let '(r, db') := db_write batch (rs_db st) in
  (map_err MemoryError_Store r, MkRocksStore db' (rs_cipher st) (rs_nonces st)).
Definition mem_get (st : St) (cf : string) (key : bytes) : result MemoryError (option bytes) :=
  map_err MemoryError_Store (db_get (rs_db st) cf key).
(** [cf_handle], [to_vec], [seal_value], [put_cf]. *)
Definition mem_put {A} `{Serde A} (cf : string) (key : bytes) (x : A) : MM unit :=
  _ ← reads (fun st => mem_cf st cf);
  plain ← lift (map_err from_serde_error (to_vec x));
  value ← mem_seal plain;
  mem_write [BatchPut cf key value].
Definition mem_delete (cf : string) (key : bytes) : MM unit :=
  _ ← reads (fun st => mem_cf st cf);
  mem_write [BatchDelete cf key].
Definition mem_lookup {A} `{Serde A} (st : St) (cf : string) (key : bytes) (absent : result MemoryError A) : result MemoryError A :=
  _ ← mem_cf st cf;
  found ← mem_get st cf key;
  match found with Some b => mem_decode (rs_cipher st) b | None => absent end.

(** A walk from a key up to an end, decoding each value before the next item. *)
Fixpoint scan_until {A} `{Serde A} (cipher : option SealCipher) (end_ : bytes) (items : list (result string (bytes * bytes)))
  : result MemoryError (list A) :=
  match items with
  | [] => Ok []
  | Err e :: _ => Err (MemoryError_Store e)
  | Ok (k, v) :: r =>
      if lex_le end_ k then Ok []
      else x ← mem_decode cipher v; rest ← scan_until cipher end_ r; Ok (x :: rest)
  end.
Fixpoint keys_until (end_ : bytes) (items : list (result string (bytes * bytes))) : result MemoryError (list bytes) :=
  match items with
  | [] => Ok []
  | Err e :: _ => Err (MemoryError_Store e)
  | Ok (k, _) :: r => if lex_le end_ k then Ok [] else rest ← keys_until end_ r; Ok (k :: rest)
  end.
Definition list_records {A} `{Serde A} (st : St) (cf : string) (start : bytes) (agent_id : AgentId) : result MemoryError (list A) :=
  _ ← mem_cf st cf;
  scan_until (rs_cipher st) (agent_prefix_end agent_id) (db_iterator (rs_db st) cf start Forward).
Definition agent_keys (st : St) (cf : string) (agent_id : AgentId) : result MemoryError (list bytes) :=
  keys_until (agent_prefix_end agent_id) (db_iterator (rs_db st) cf (agent_prefix agent_id) Forward).
Definition count_for_agent (st : St) (cf : string) (agent_id : AgentId) : result MemoryError nat :=
  _ ← mem_cf st cf; length <$> agent_keys st cf agent_id.

(** ** Controls and facts *)
Definition MemoryStore_get_continuity_config (st : St) (agent_id : AgentId) : result MemoryError AgentContinuityConfig :=
  mem_lookup st cf_MEMORY_CONFIG (arr_bytes agent_id) (Ok AgentContinuityConfig_default).
Definition MemoryStore_put_continuity_config (agent_id : AgentId) (config : AgentContinuityConfig) : MM unit :=
  mem_put cf_MEMORY_CONFIG (arr_bytes agent_id) config.
Definition MemoryStore_put_fact (fact : Fact) : MM unit :=
  mem_put cf_MEMORY_FACTS (fact_key (fa_agent_id fact) (fa_fact_id fact)) fact.
Definition MemoryStore_get_fact (st : St) (agent_id : AgentId) (fact_id : FactId) : result MemoryError Fact :=
  mem_lookup st cf_MEMORY_FACTS (fact_key agent_id fact_id)
    (Err (MemoryError_FactNotFound (id_to_hex agent_id) (id_to_hex fact_id))).
Definition fact_is_active (f : Fact) : bool := bool_decide (mc_status (fa_continuity f) = MemoryStatus_Active).
Fixpoint find_by_key (cipher : option SealCipher) (end_ : bytes) (key : string) (fallback : option Fact)
    (items : list (result string (bytes * bytes))) : result MemoryError (option Fact) :=
  match items with
  | [] => Ok fallback
  | Err e :: _ => Err (MemoryError_Store e)
  | Ok (k, v) :: r =>
      if lex_le end_ k then Ok fallback
      else fact ← mem_decode cipher v;
           if bool_decide (fa_key fact = key) then
             if fact_is_active fact then Ok (Some fact) else find_by_key cipher end_ key (Some fact) r
           else find_by_key cipher end_ key fallback r
  end.
Definition MemoryStore_get_fact_by_key (st : St) (agent_id : AgentId) (key : string) : result MemoryError (option Fact) :=
  _ ← mem_cf st cf_MEMORY_FACTS;
  find_by_key (rs_cipher st) (agent_prefix_end agent_id) key None
    (db_iterator (rs_db st) cf_MEMORY_FACTS (agent_prefix agent_id) Forward).
Definition MemoryStore_list_facts (st : St) (agent_id : AgentId) : result MemoryError (list Fact) :=
  list_records st cf_MEMORY_FACTS (agent_prefix agent_id) agent_id.
(** [access_count] is a [u32]. *)
Definition touched (now : Z) (f : Fact) : Fact :=
  f <| fa_access_count := ((fa_access_count f + 1) `mod` 2 ^ 32)%Z |> <| fa_last_accessed := now |>.
Definition MemoryStore_touch_fact (now : Z) (agent_id : AgentId) (fact_id : FactId) : MM unit :=
  fact ← reads (fun st => MemoryStore_get_fact st agent_id fact_id);
  MemoryStore_put_fact (touched now fact).
Definition MemoryStore_delete_fact (agent_id : AgentId) (fact_id : FactId) : MM unit :=
  mem_delete cf_MEMORY_FACTS (fact_key agent_id fact_id).

(** ** Events *)
Definition MemoryStore_put_event (event : AgentEvent) : MM unit :=
  _ ← mem_put cf_MEMORY_EVENTS (event_key (ev_agent_id event) (ev_timestamp event) (ev_event_id event)) event;
  _ ← reads (fun st => mem_cf st cf_MEMORY_EVENT_INDEX);
  mem_write [BatchPut cf_MEMORY_EVENT_INDEX (event_index_key (ev_agent_id event) (ev_event_id event))
               (to_be_bytes (timestamp_millis (ev_timestamp event)))].
Definition key_of_agent (prefix k : bytes) : bool := bool_decide (take (length prefix) k = prefix).
(** [list_events] walks down from the end of the agent's keys; the limit is
    looked at after an event has been taken, [n] is how many more are wanted. *)
Fixpoint newest_events (cipher : option SealCipher) (prefix : bytes) (n : nat) (items : list (result string (bytes * bytes))) {struct items}
  : result MemoryError (list AgentEvent) :=
  match items with
  | [] => Ok []
  | Err e :: _ => Err (MemoryError_Store e)
  | Ok (k, v) :: r =>
      if key_of_agent prefix k then
        event ← mem_decode cipher v;
        match n with
        | O | 1 => Ok [event]
        | S m => rest ← newest_events cipher prefix m r; Ok (event :: rest)
        end
      else Ok []
  end.
Definition MemoryStore_list_events (st : St) (agent_id : AgentId) (limit : nat) : result MemoryError (list AgentEvent) :=
  _ ← mem_cf st cf_MEMORY_EVENTS;
  newest_events (rs_cipher st) (agent_prefix agent_id) limit
    (db_iterator (rs_db st) cf_MEMORY_EVENTS (agent_prefix_end agent_id) Reverse).
Definition MemoryStore_list_events_since (st : St) (agent_id : AgentId) (since : Z) : result MemoryError (list AgentEvent) :=
  list_records st cf_MEMORY_EVENTS (time_key agent_id since) agent_id.
Definition MemoryStore_delete_event_direct (agent_id : AgentId) (timestamp : Z) (event_id : AgentEventId) : MM unit :=
  _ ← mem_delete cf_MEMORY_EVENTS (event_key agent_id timestamp event_id);
  mem_delete cf_MEMORY_EVENT_INDEX (event_index_key agent_id event_id).
Definition MemoryStore_delete_event (agent_id : AgentId) (event_id : AgentEventId) : MM unit :=
  _ ← reads (fun st => mem_cf st cf_MEMORY_EVENT_INDEX);
  found ← reads (fun st => mem_get st cf_MEMORY_EVENT_INDEX (event_index_key agent_id event_id));
  match found with
  | Some ts_bytes =>
      ts_arr ← lift (ok_or (MemoryError_Deserialization "invalid timestamp in event index") (arr_try_from 8 ts_bytes));
      timestamp ← lift (ok_or (MemoryError_Deserialization "invalid timestamp millis in event index")
                          (from_timestamp_millis (i64_of_be_bytes (arr_bytes ts_arr))));
      _ ← mem_delete cf_MEMORY_EVENTS (event_key agent_id timestamp event_id);
      mem_write [BatchDelete cf_MEMORY_EVENT_INDEX (event_index_key agent_id event_id)]
  | None => fails (MemoryError_EventNotFound (id_to_hex agent_id) (id_to_hex event_id))
  end.
(** The keys [delete_events_before] removes. *)
Fixpoint keys_before (cutoff prefix : bytes) (items : list (result string (bytes * bytes))) : result MemoryError (list bytes) :=
  match items with
  | [] => Ok []
  | Err e :: _ => Err (MemoryError_Store e)
  | Ok (k, _) :: r =>
      if lex_le cutoff k then Ok [] else if negb (key_of_agent prefix k) then Ok []
      else rest ← keys_before cutoff prefix r; Ok (k :: rest)
  end.
Definition delete_ops (agent_id : AgentId) (k : bytes) : WriteBatch :=
  BatchDelete cf_MEMORY_EVENTS k
  :: (if 56 <=? length k then [BatchDelete cf_MEMORY_EVENT_INDEX (arr_bytes agent_id ++ take 16 (drop 40 k))] else []).
Definition MemoryStore_delete_events_before (agent_id : AgentId) (before : Z) : MM nat :=
  _ ← reads (fun st => mem_cf st cf_MEMORY_EVENTS);
  _ ← reads (fun st => mem_cf st cf_MEMORY_EVENT_INDEX);
  ks ← reads (fun st => keys_before (time_key agent_id before) (agent_prefix agent_id)
                          (db_iterator (rs_db st) cf_MEMORY_EVENTS (agent_prefix agent_id) Forward));
  _ ← (match ks with [] => mret tt | _ => mem_write (ks ≫= delete_ops agent_id) end);
  mret (length ks).

(** ** Procedures, and everything of an agent *)
Definition MemoryStore_put_procedure (proc : Procedure) : MM unit :=
  mem_put cf_MEMORY_PROCEDURES (procedure_key (pr_agent_id proc) (pr_procedure_id proc)) proc.
Definition MemoryStore_get_procedure (st : St) (agent_id : AgentId) (procedure_id : ProcedureId) : result MemoryError Procedure :=
  mem_lookup st cf_MEMORY_PROCEDURES (procedure_key agent_id procedure_id)
    (Err (MemoryError_ProcedureNotFound (id_to_hex agent_id) (id_to_hex procedure_id))).
Definition MemoryStore_list_procedures (st : St) (agent_id : AgentId) : result MemoryError (list Procedure) :=
  list_records st cf_MEMORY_PROCEDURES (agent_prefix agent_id) agent_id.
Definition MemoryStore_delete_procedure (agent_id : AgentId) (procedure_id : ProcedureId) : MM unit :=
  mem_delete cf_MEMORY_PROCEDURES (procedure_key agent_id procedure_id).
Definition batch_delete_range (st : St) (cf : string) (agent_id : AgentId) : result MemoryError WriteBatch :=
  ks ← agent_keys st cf agent_id; Ok (BatchDelete cf <$> (ks : list bytes)).
Definition MemoryStore_delete_all (agent_id : AgentId) : MM unit :=
  batch ← reads (fun st =>
    _ ← mem_cf st cf_MEMORY_FACTS; _ ← mem_cf st cf_MEMORY_EVENTS;
    _ ← mem_cf st cf_MEMORY_PROCEDURES; _ ← mem_cf st cf_MEMORY_EVENT_INDEX;
    facts ← batch_delete_range st cf_MEMORY_FACTS agent_id;
    events ← batch_delete_range st cf_MEMORY_EVENTS agent_id;
    procs ← batch_delete_range st cf_MEMORY_PROCEDURES agent_id;
    index ← batch_delete_range st cf_MEMORY_EVENT_INDEX agent_id;
    Ok (facts ++ events ++ procs ++ index));
  mem_write batch.
Definition MemoryStore_stats (st : St) (agent_id : AgentId) : result MemoryError MemoryStats :=
  facts ← count_for_agent st cf_MEMORY_FACTS agent_id;
  events ← count_for_agent st cf_MEMORY_EVENTS agent_id;
  procedures ← count_for_agent st cf_MEMORY_PROCEDURES agent_id;
  Ok {| st_facts := facts; st_events := events; st_procedures := procedures |}.

#[export] Instance MemoryStore_api : MemoryStoreApi (RocksStore DB) := {|
  get_continuity_config := MemoryStore_get_continuity_config;
  put_continuity_config := MemoryStore_put_continuity_config;
  put_fact := MemoryStore_put_fact;
  get_fact := MemoryStore_get_fact;
  get_fact_by_key := MemoryStore_get_fact_by_key;
  list_facts := MemoryStore_list_facts;
  touch_fact := MemoryStore_touch_fact;
  delete_fact := MemoryStore_delete_fact;
  put_event := MemoryStore_put_event;
  list_events := MemoryStore_list_events;
  list_events_since := MemoryStore_list_events_since;
  delete_event_direct := MemoryStore_delete_event_direct;
  delete_event := MemoryStore_delete_event;
  delete_events_before := MemoryStore_delete_events_before;
  put_procedure := MemoryStore_put_procedure;
  get_procedure := MemoryStore_get_procedure;
  list_procedures := MemoryStore_list_procedures;
  delete_procedure := MemoryStore_delete_procedure;
  delete_all := MemoryStore_delete_all;
  stats := MemoryStore_stats;
|}.
End MemoryStore.
