(* ===== verification/MemoryStoreProps.v ===== *)
(** What the memory store promises, and that it keeps the promise.

    [MemView] is what a store holds, as finite maps; [MemoryStoreSpec] says what
    each call of the trait does to it.  The rest of the crate is proved against
    that class; the store on the database implements it, whatever calls fail.  [call_effect]
    says what a call may have done when it failed. *)
From S2P Require Import Prelude Values CoreTypes Seal Rocks RocksStore RocksRefine SideStores SideStoresProps MemoryTypes MemoryStore.
From stdpp Require Import list sorting.
From Stdlib Require Import Strings.Byte.

(** * The end of the keys of an agent *)
Lemma increment_rev_ok l :
  length (increment_rev l).1 = length l
  /\ ((increment_rev l).2 = true -> be_combine (rev (increment_rev l).1) = (be_combine (rev l) + 1)%Z).
Proof.
  induction l as [|b l [IHl IHc]]; [done|]. cbn [increment_rev].
  pose proof (byte_to_Z_range b) as Hb. destruct (Z.ltb_spec (byte_to_Z b) 255).
  - cbn [fst snd length rev]. split; [done|]. intros _. rewrite !be_combine_snoc, byte_to_of_Z, Z.mod_small by lia. lia.
  - destruct (increment_rev l) as [r' found]; cbn [fst snd length rev] in *. split; [lia|]. intros Hf.
    rewrite !be_combine_snoc, (IHc Hf). replace (byte_to_Z b) with 255%Z by lia.
    change (byte_to_Z "000") with 0%Z. lia.
Qed.
(** The agents whose keys have an end: those with a byte below 0xFF. *)
Definition has_end (a : AgentId) : Prop := (increment_rev (rev (arr_bytes a))).2 = true.
#[export] Instance has_end_dec a : Decision (has_end a).
Proof. unfold has_end. apply _. Defined.
Lemma prefix_end_ok a : has_end a ->
  length (agent_prefix_end a) = 32 /\ be_combine (agent_prefix_end a) = (be_combine (arr_bytes a) + 1)%Z.
Proof.
  unfold has_end, agent_prefix_end. intros Hb. destruct (increment_rev_ok (rev (arr_bytes a))) as [Hl Hc].
  specialize (Hc Hb). rewrite rev_involutive, length_rev, arr_length in *.
  destruct (increment_rev _) as [l found]; cbn [fst snd] in *. subst found. by rewrite length_rev.
Qed.
Lemma lex_le_head h e r : length h = length e -> lex_le e (h ++ r) = negb (lex_lt h e).
Proof.
  intros L. unfold lex_le. f_equal. apply eq_iff_eq_true.
  rewrite <-(app_nil_r e) at 1. rewrite lex_lt_app by done. split; [|by left].
  by intros [?|[_ Hr]]; [|destruct r].
Qed.
Lemma lex_lt_head h e r : length h = length e -> lex_lt e (h ++ r) = true -> (be_combine e <= be_combine h)%Z.
Proof.
  intros L. rewrite <-(app_nil_r e) at 1. rewrite lex_lt_app by done.
  intros [Hlt|[-> _]]; [|lia]. apply lex_lt_be_combine in Hlt; [lia|done].
Qed.
(** The id of all 0xFF bytes has no end: the one computed is below all its keys. *)
Lemma increment_rev_all l : (increment_rev l).2 = false ->
  l = replicate (length l) "255"%byte /\ (increment_rev l).1 = replicate (length l) "000"%byte.
Proof.
  induction l as [|b l IH]; [done|]. cbn. pose proof (byte_to_Z_range b). destruct (Z.ltb_spec (byte_to_Z b) 255); [done|].
  destruct (increment_rev l) as [r' found]. cbn in *. intros [Hl Hr]%IH. split; f_equal; [|done..].
  rewrite <-(byte_of_to_Z b). by replace (byte_to_Z b) with 255%Z by lia.
Qed.
Lemma end_below_prefix a : ~ has_end a -> lex_lt (agent_prefix_end a) (arr_bytes a) = true.
Proof.
  unfold has_end. intros Hf%not_true_is_false. destruct (increment_rev_all _ Hf) as [Hl _].
  rewrite length_rev, arr_length in Hl. apply (f_equal (@rev byte)) in Hl. rewrite rev_involutive in Hl.
  unfold agent_prefix_end. rewrite Hl. vm_compute. reflexivity.
Qed.
(** Among the keys that are long enough, those from the prefix on and before its
    end are those with the prefix. *)
Lemma end_of_prefix a k : has_end a -> 32 <= length k -> lex_le (arr_bytes a) k = true ->
  lex_le (agent_prefix_end a) k = negb (key_has_prefix (arr_bytes a) k).
Proof.
  intros [Hl Hc]%prefix_end_ok Hk Hle. rewrite <-(take_drop 32 k) in Hle |- *.
  assert (length (take 32 k) = 32) as Ht by (rewrite length_take; lia).
  pose proof (arr_length a) as Ha. rewrite lex_le_head in Hle |- * by lia. f_equal. unfold key_has_prefix.
  rewrite Ha, take_app_length' by done. apply eq_iff_eq_true. rewrite bool_decide_eq_true.
  apply negb_true_iff, not_true_iff_false in Hle. rewrite lex_lt_be_combine in Hle |- * by lia. rewrite Hc. split; [|intros ->; lia].
  intros Hlt. assert (be_combine (take 32 k) = be_combine (arr_bytes a)) as E by lia.
  rewrite <-(be_split_combine (take 32 k)), <-(be_split_combine (arr_bytes a)), Ht, Ha. by rewrite E.
Qed.

(** * A column family as a finite map *)
Section TableRep.
Context {K A : Type} `{Countable K} (dec : bytes -> result MemoryError A) (kf : K -> bytes) (cf : string).

Definition table_rep (m : content) (t : gmap K A) : Prop :=
  (forall k v, m !! (cf, k) = Some v -> exists i, k = kf i)
  /\ forall i, match t !! i with
               | Some x => exists v, m !! (cf, kf i) = Some v /\ dec v = Ok x
               | None => m !! (cf, kf i) = None
               end.
Lemma table_rep_same m m' t :
  (forall k, m' !! (cf, k) = m !! (cf, k)) -> table_rep m t -> table_rep m' t.
Proof.
  intros E [Hk Ht]. split; [intros k v; rewrite E; apply Hk|]. intros i. specialize (Ht i). destruct (t !! i); by rewrite E.
Qed.
Lemma table_rep_put `{!Inj (=) (=) kf} m t i x v : table_rep m t -> dec v = Ok x -> table_rep (<[(cf, kf i) := v]> m) (<[i := x]> t).
Proof.
  intros [Hk Ht] Hv. split.
  - intros k w [[[= <-] _]|[_ Hw]]%lookup_insert_Some; [by exists i|by eapply Hk].
  - intros j. destruct (decide (i = j)) as [<-|Hne]; [rewrite !lookup_insert_eq; by exists v|].
    rewrite !lookup_insert_ne by (try done; intros [= ?%(inj kf)]; done). apply Ht.
Qed.
Lemma table_rep_delete `{!Inj (=) (=) kf} m t i : table_rep m t -> table_rep (delete (cf, kf i) m) (delete i t).
Proof.
  intros [Hk Ht]. split; [intros k w [_ Hw]%lookup_delete_Some; by eapply Hk|].
  intros j. destruct (decide (i = j)) as [<-|Hne]; [by rewrite !lookup_delete_eq|].
  rewrite !lookup_delete_ne by (try done; intros [= ?%(inj kf)]; done). apply Ht.
Qed.
(** The rows of a table and the records they decode to. *)
Lemma table_rep_row `{!Inj (=) (=) kf} m t i x v : table_rep m t -> m !! (cf, kf i) = Some v -> dec v = Ok x -> t !! i = Some x.
Proof.
  intros [_ Ht] Hm Hv. specialize (Ht i). destruct (t !! i) as [y|]; [|congruence].
  destruct Ht as (w & Hw & Hy). congruence.
Qed.
Lemma table_rep_get m t i : table_rep m t -> t !! i = (m !! (cf, kf i)) ≫= fun v => match dec v with Ok x => Some x | Err _ => None end.
Proof. intros [_ Ht]. specialize (Ht i). destruct (t !! i) as [x|]; [destruct Ht as (v & -> & Hv); cbn; by rewrite Hv|by rewrite Ht]. Qed.

Context (key_of : A -> bytes) (P : bytes -> bool).
(** Rows picked by a test on the key, with their records. *)
Lemma rows_records `{!Inj (=) (=) kf} (R : bytes -> bytes -> Prop) m t kvs (xs : list A) :
  table_rep m t -> (forall i x, t !! i = Some x -> key_of x = kf i) ->
  StronglySorted (fun p q : bytes * bytes => R p.1 q.1) kvs ->
  (forall k v, (k, v) ∈ kvs <-> m !! (cf, k) = Some v /\ P k = true) ->
  Forall2 (fun kv x => dec kv.2 = Ok x) kvs xs ->
  StronglySorted (fun x y => R (key_of x) (key_of y)) xs
  /\ forall x, x ∈ xs <-> exists i, t !! i = Some x /\ P (kf i) = true.
Proof.
  intros Hrep Hkey Hs Hin HF.
  assert (Forall2 (fun kv x => dec kv.2 = Ok x /\ key_of x = kv.1) kvs xs) as HF'.
  { apply Forall2_same_length_lookup_2; [by eapply Forall2_length|]. intros n [k v] x Hkv Hx.
    pose proof (Forall2_lookup_lr _ _ _ _ _ _ HF Hkv Hx) as Hd. cbn in *. split; [done|].
    destruct (proj1 (Hin k v)) as [Hm _]; [by eapply list_elem_of_lookup_2|].
    destruct (proj1 Hrep k v Hm) as [i ->]. by eapply Hkey, table_rep_row. }
  split.
  - clear Hin HF. induction HF' as [|[k v] x kvs xs [_ Hx] HF IH]; [constructor|].
    inversion Hs as [|?? Hs' Hall]; subst. constructor; [by apply IH|]. apply Forall_forall. intros y [n Hy]%list_elem_of_lookup_1.
    destruct (Forall2_lookup_r _ _ _ _ _ HF Hy) as ([k' v'] & Hkv & _ & ->). cbn in *. rewrite Hx.
    rewrite Forall_forall in Hall. apply (Hall (k', v')). by eapply list_elem_of_lookup_2.
  - intros x. split.
    + intros [n Hx]%list_elem_of_lookup_1. destruct (Forall2_lookup_r _ _ _ _ _ HF Hx) as ([k v] & Hkv & Hd).
      destruct (proj1 (Hin k v)) as [Hm HP]; [by eapply list_elem_of_lookup_2|]. cbn in *.
      destruct (proj1 Hrep k v Hm) as [i ->]. exists i. split; [by eapply table_rep_row|done].
    + intros (i & Hi & HP). destruct Hrep as [_ Ht]. specialize (Ht i). rewrite Hi in Ht. destruct Ht as (v & Hm & Hv).
      assert ((kf i, v) ∈ kvs) as [n Hn]%list_elem_of_lookup_1 by by apply Hin.
      destruct (Forall2_lookup_l _ _ _ _ _ HF Hn) as (y & Hy & Hd). cbn in Hd. assert (x = y) as -> by congruence.
      by eapply list_elem_of_lookup_2.
Qed.
End TableRep.

(** Batches that only delete. *)
#[local] Instance BatchOp_eq_dec : EqDecision BatchOp.
Proof. solve_decision. Defined.
Lemma deletes_lookup (ops : WriteBatch) (m : content) c k :
  Forall (fun op => exists cf' k', op = BatchDelete cf' k') ops ->
  apply_batch m ops !! (c, k) = if bool_decide (BatchDelete c k ∈ ops) then None else m !! (c, k).
Proof.
  unfold apply_batch. revert m. induction ops as [|op ops IH]; intros m Hd; cbn.
  { rewrite bool_decide_eq_false_2; [done|]. apply not_elem_of_nil. }
  inversion Hd as [|?? (c' & k' & ->) Hd']; subst. rewrite (IH _ Hd').
  destruct (decide ((c', k') = (c, k))) as [[= -> ->]|Hne]; cbn [apply_op].
  - rewrite (bool_decide_eq_true_2 (_ ∈ _ :: _)) by apply list_elem_of_here. rewrite lookup_delete_eq. by case_bool_decide.
  - rewrite lookup_delete_ne by done. case_bool_decide as E1; case_bool_decide as E2; try done;
      [by destruct E2; apply list_elem_of_further|].
    apply elem_of_cons in E2 as [[= -> ->]|?]; done.
Qed.
Lemma table_rep_deletes {K A} `{Countable K} (dec : bytes -> result MemoryError A) (kf : K -> bytes) (cf : string) (m : content) (t t' : gmap K A) ops :
  Forall (fun op => exists cf' k', op = BatchDelete cf' k') ops -> table_rep dec kf cf m t ->
  (forall i, t' !! i = if bool_decide (BatchDelete cf (kf i) ∈ ops) then None else t !! i) ->
  table_rep dec kf cf (apply_batch m ops) t'.
Proof.
  intros Hd [Hk Ht] Ht'. split.
  - intros k v. rewrite deletes_lookup by done. case_bool_decide; [done|]. apply Hk.
  - intros i. rewrite Ht', deletes_lookup by done. case_bool_decide; [done|]. apply Ht.
Qed.

(** * What a store holds *)
Definition stamp (t : Z) : arr 8 := Arr (to_be_bytes (timestamp_millis t)) (bool_decide_pack _ (to_be_bytes_length _)).
Record MemView := {
  mv_facts : gmap (AgentId * FactId) Fact;
  mv_events : gmap (AgentId * arr 8 * AgentEventId) AgentEvent;
  mv_index : gmap (AgentId * AgentEventId) (arr 8);
  mv_procedures : gmap (AgentId * ProcedureId) Procedure;
  mv_config : gmap AgentId AgentContinuityConfig;
}.
#[export] Instance MemView_settable : Settable MemView := fun v => {|
  mv_facts := mv_facts v; mv_events := mv_events v; mv_index := mv_index v; mv_procedures := mv_procedures v;
  mv_config := mv_config v |}.
Definition empty_view : MemView := {| mv_facts := ∅; mv_events := ∅; mv_index := ∅; mv_procedures := ∅; mv_config := ∅ |}.
(** Records lie under their own keys. *)
Definition view_wf (v : MemView) : Prop :=
  (forall a i f, mv_facts v !! (a, i) = Some f -> fa_agent_id f = a /\ fa_fact_id f = i)
  /\ (forall a s i e, mv_events v !! (a, s, i) = Some e -> ev_agent_id e = a /\ stamp (ev_timestamp e) = s /\ ev_event_id e = i)
  /\ (forall a i p, mv_procedures v !! (a, i) = Some p -> pr_agent_id p = a /\ pr_procedure_id p = i).

Definition v_put_fact (f : Fact) (v : MemView) : MemView := v <| mv_facts := <[(fa_agent_id f, fa_fact_id f) := f]> (mv_facts v) |>.
Definition v_delete_fact (a : AgentId) (i : FactId) (v : MemView) : MemView := v <| mv_facts := delete (a, i) (mv_facts v) |>.
Definition v_put_procedure (p : Procedure) (v : MemView) : MemView :=
  v <| mv_procedures := <[(pr_agent_id p, pr_procedure_id p) := p]> (mv_procedures v) |>.
Definition v_delete_procedure (a : AgentId) (i : ProcedureId) (v : MemView) : MemView :=
  v <| mv_procedures := delete (a, i) (mv_procedures v) |>.
Definition v_put_config (a : AgentId) (c : AgentContinuityConfig) (v : MemView) : MemView := v <| mv_config := <[a := c]> (mv_config v) |>.
Definition v_put_event_row (e : AgentEvent) (v : MemView) : MemView :=
  v <| mv_events := <[(ev_agent_id e, stamp (ev_timestamp e), ev_event_id e) := e]> (mv_events v) |>.
Definition v_put_event (e : AgentEvent) (v : MemView) : MemView :=
  v_put_event_row e v
    <| mv_index := <[(ev_agent_id e, ev_event_id e) := stamp (ev_timestamp e)]> (mv_index v) |>.
Definition v_delete_event_row (a : AgentId) (s : arr 8) (i : AgentEventId) (v : MemView) : MemView :=
  v <| mv_events := delete (a, s, i) (mv_events v) |>.
Definition v_delete_event (a : AgentId) (s : arr 8) (i : AgentEventId) (v : MemView) : MemView :=
  v_delete_event_row a s i v <| mv_index := delete (a, i) (mv_index v) |>.
(** The events of an agent from before a time: the stamps are compared as bytes. *)
Definition from_before (a : AgentId) (t : Z) (k : AgentId * arr 8 * AgentEventId) : Prop :=
  k.1.1 = a /\ lex_lt (arr_bytes k.1.2) (arr_bytes (stamp t)) = true.
#[export] Instance from_before_dec a t k : Decision (from_before a t k).
Proof. unfold from_before. apply _. Defined.
Definition events_before (a : AgentId) (t : Z) (v : MemView) : gset (AgentId * arr 8 * AgentEventId) :=
  filter (from_before a t) (dom (mv_events v)).
Definition v_delete_events_before (a : AgentId) (t : Z) (v : MemView) : MemView :=
  v <| mv_events := filter (fun p => p.1 ∉ events_before a t v) (mv_events v) |>
    <| mv_index := filter (fun p => p.1 ∉ (set_map (fun k => (k.1.1, k.2)) (events_before a t v) : gset (AgentId * AgentEventId))) (mv_index v) |>.
(** An agent without an end of its keys is not reached. *)
Definition v_delete_all (a : AgentId) (v : MemView) : MemView :=
  if negb (increment_rev (rev (arr_bytes a))).2 then v else
  v <| mv_facts := filter (fun p => p.1.1 <> a) (mv_facts v) |>
    <| mv_events := filter (fun p => p.1.1.1 <> a) (mv_events v) |>
    <| mv_index := filter (fun p => p.1.1 <> a) (mv_index v) |>
    <| mv_procedures := filter (fun p => p.1.1 <> a) (mv_procedures v) |>.

(** The records of an agent in the order of their keys; events newest first. *)
Definition facts_of (v : MemView) (a : AgentId) (l : list Fact) : Prop :=
  StronglySorted (fun f g => lex_lt (arr_bytes (fa_fact_id f)) (arr_bytes (fa_fact_id g)) = true) l
  /\ forall f, f ∈ l <-> exists i, mv_facts v !! (a, i) = Some f.
Definition procedures_of (v : MemView) (a : AgentId) (l : list Procedure) : Prop :=
  StronglySorted (fun p q => lex_lt (arr_bytes (pr_procedure_id p)) (arr_bytes (pr_procedure_id q)) = true) l
  /\ forall p, p ∈ l <-> exists i, mv_procedures v !! (a, i) = Some p.
Definition event_order (e : AgentEvent) : bytes := to_be_bytes (timestamp_millis (ev_timestamp e)) ++ arr_bytes (ev_event_id e).
Definition events_of (v : MemView) (a : AgentId) (l : list AgentEvent) : Prop :=
  StronglySorted (fun e e' => lex_lt (event_order e') (event_order e) = true) l
  /\ forall e, e ∈ l <-> exists s i, mv_events v !! (a, s, i) = Some e.

(** * The contract *)
Definition done_or_not (r : result MemoryError unit) (v v' : MemView) : MemView := match r with Ok _ => v' | Err _ => v end.
(** A read of one record: what it finds is there, and what it misses is not. *)
Definition found_agrees {A} (o : option A) (r : result MemoryError A) : Prop :=
  match r with Ok x => o = Some x | Err e => is_not_found e = true -> o = None end.
Class MemoryStoreSpec (S : Type) `{MemoryStoreApi S} := {
  mem_rep : S -> MemView -> Prop;
  rep_wf s v : mem_rep s v -> view_wf v;
  get_config_spec s v a c : mem_rep s v -> get_continuity_config s a = Ok c ->
    c = default AgentContinuityConfig_default (mv_config v !! a);
  put_config_spec s v a c r s' : mem_rep s v -> put_continuity_config a c s = (r, s') ->
    mem_rep s' (done_or_not r v (v_put_config a c v));
  put_fact_spec s v f r s' : mem_rep s v -> put_fact f s = (r, s') -> mem_rep s' (done_or_not r v (v_put_fact f v));
  get_fact_spec s v a i : mem_rep s v -> found_agrees (mv_facts v !! (a, i)) (get_fact s a i);
  get_fact_by_key_spec s v a key o : has_end a -> mem_rep s v -> get_fact_by_key s a key = Ok o ->
    match o with
    | Some f => (exists i, mv_facts v !! (a, i) = Some f) /\ fa_key f = key
                /\ (fact_is_active f = true \/ forall i g, mv_facts v !! (a, i) = Some g -> fa_key g = key -> fact_is_active g = false)
    | None => forall i g, mv_facts v !! (a, i) = Some g -> fa_key g <> key
    end;
  list_facts_spec s v a l : has_end a -> mem_rep s v -> list_facts s a = Ok l -> facts_of v a l;
  touch_fact_spec s v now a i r s' : mem_rep s v -> touch_fact now a i s = (r, s') ->
    match r with
    | Ok _ => exists f, mv_facts v !! (a, i) = Some f /\ mem_rep s' (v_put_fact (touched now f) v)
    | Err e => mem_rep s' v /\ (is_not_found e = true -> mv_facts v !! (a, i) = None)
    end;
  delete_fact_spec s v a i r s' : mem_rep s v -> delete_fact a i s = (r, s') -> mem_rep s' (done_or_not r v (v_delete_fact a i v));
  put_event_spec s v e r s' : mem_rep s v -> put_event e s = (r, s') ->
    match r with Ok _ => mem_rep s' (v_put_event e v) | Err er => mem_rep s' v \/ is_not_found er = false /\ mem_rep s' (v_put_event_row e v) end;
  list_events_spec s v a n l : has_end a -> mem_rep s v -> list_events s a n = Ok l ->
    exists all, events_of v a all /\ l = take (Nat.max 1 n) all;
  delete_event_direct_spec s v a t i r s' : mem_rep s v -> delete_event_direct a t i s = (r, s') ->
    match r with
    | Ok _ => mem_rep s' (v_delete_event a (stamp t) i v)
    | Err er => mem_rep s' v \/ is_not_found er = false /\ mem_rep s' (v_delete_event_row a (stamp t) i v)
    end;
  delete_event_spec s v a i r s' : mem_rep s v -> delete_event a i s = (r, s') ->
    match r with
    | Ok _ => exists st, mv_index v !! (a, i) = Some st /\ mem_rep s' (v_delete_event a st i v)
    | Err e => mem_rep s' v /\ (is_not_found e = true -> mv_index v !! (a, i) = None)
               \/ exists st, mv_index v !! (a, i) = Some st /\ is_not_found e = false /\ mem_rep s' (v_delete_event_row a st i v)
    end;
  delete_events_before_spec s v a t r s' : mem_rep s v -> delete_events_before a t s = (r, s') ->
    match r with
    | Ok n => n = size (events_before a t v) /\ mem_rep s' (v_delete_events_before a t v)
    | Err _ => mem_rep s' v
    end;
  put_procedure_spec s v p r s' : mem_rep s v -> put_procedure p s = (r, s') -> mem_rep s' (done_or_not r v (v_put_procedure p v));
  get_procedure_spec s v a i : mem_rep s v -> found_agrees (mv_procedures v !! (a, i)) (get_procedure s a i);
  list_procedures_spec s v a l : has_end a -> mem_rep s v -> list_procedures s a = Ok l -> procedures_of v a l;
  delete_procedure_spec s v a i r s' : mem_rep s v -> delete_procedure a i s = (r, s') ->
    mem_rep s' (done_or_not r v (v_delete_procedure a i v));
  delete_all_spec s v a r s' : mem_rep s v -> delete_all a s = (r, s') ->
    mem_rep s' (done_or_not r v (v_delete_all a v));
}.

(** * The store on the database implements it *)
Definition pair_key (p : AgentId * arr 16) : bytes := arr_bytes p.1 ++ arr_bytes p.2.
Definition triple_key (p : AgentId * arr 8 * AgentEventId) : bytes := arr_bytes p.1.1 ++ arr_bytes p.1.2 ++ arr_bytes p.2.
#[local] Instance pair_key_inj : Inj (=) (=) pair_key.
Proof.
  intros [a i] [b j]. unfold pair_key. cbn. intros [Ha Hi]%app_inj_1; [|by rewrite !arr_length].
  apply arr_eq in Ha. apply arr_eq in Hi. by subst.
Qed.
#[local] Instance triple_key_inj : Inj (=) (=) triple_key.
Proof.
  intros [[a s] i] [[b u] j]. unfold triple_key. cbn. intros [Ha [Hs Hi]%app_inj_1]%app_inj_1; try by rewrite !arr_length.
  apply arr_eq in Ha, Hs, Hi. by subst.
Qed.
#[local] Instance agent_key_inj : Inj (=) (=) (arr_bytes : AgentId -> bytes).
Proof. intros a b. apply arr_eq. Qed.
Definition dec_stamp (b : bytes) : result MemoryError (arr 8) :=
  ok_or (MemoryError_Deserialization "invalid timestamp in event index") (arr_try_from 8 b).

Lemma Forall2_exists_r_aux {A B} (R : A -> B -> Prop) l : (forall x, x ∈ l -> exists y, R x y) -> exists k, Forall2 R l k.
Proof.
  induction l as [|x l IH]; intros Hl; [by exists []|]. destruct (Hl x ltac:(by left)) as [y Hy].
  destruct IH as [k Hk]; [intros; apply Hl; by right|]. exists (y :: k). by constructor.
Qed.

Section Implementation.
Context {DB : Type} `{RocksDBLaws DB} `{Aead} `{Hex} `{ChronoOk} `{SerdeCategory}.
Context `{SerdeOk Fact, SerdeOk AgentEvent, SerdeOk Procedure, SerdeOk AgentContinuityConfig}.
Abbreviation view st := (db_view (rs_db st)).

Definition store_rep (st : RocksStore DB) (v : MemView) : Prop :=
  table_rep (mem_decode (rs_cipher st)) pair_key cf_MEMORY_FACTS (view st) (mv_facts v)
  /\ table_rep (mem_decode (rs_cipher st)) triple_key cf_MEMORY_EVENTS (view st) (mv_events v)
  /\ table_rep dec_stamp pair_key cf_MEMORY_EVENT_INDEX (view st) (mv_index v)
  /\ table_rep (mem_decode (rs_cipher st)) pair_key cf_MEMORY_PROCEDURES (view st) (mv_procedures v)
  /\ table_rep (mem_decode (rs_cipher st)) arr_bytes cf_MEMORY_CONFIG (view st) (mv_config v)
  /\ view_wf v.

(** Writes *)
Lemma mem_write_ok ops (st st' : RocksStore DB) r : mem_write ops st = (r, st') ->
  rs_cipher st' = rs_cipher st /\ view st' = (if is_ok r then apply_batch (view st) ops else view st).
Proof.
  unfold mem_write. destruct (db_write ops (rs_db st)) as [[[]|e] db'] eqn:Ew; intros [= <- <-]; cbn;
    (split; [done|]); [by apply db_write_Ok in Ew|by eapply db_write_Err].
Qed.
Lemma mem_put_ok {A} `{SerdeOk A} cf key (x : A) (st st' : RocksStore DB) r : mem_put cf key x st = (r, st') ->
  rs_cipher st' = rs_cipher st
  /\ match r with
     | Ok _ => exists v, view st' = <[(cf, key) := v]> (view st) /\ mem_decode (rs_cipher st) v = Ok x
     | Err _ => view st' = view st
     end.
Proof.
  unfold mem_put, mbind, stm_bind, reads, lift. destruct (mem_cf st cf); [|by intros [= <- <-]].
  destruct (to_vec x) as [plain|] eqn:Ev; cbn; [|by intros [= <- <-]]. apply serde_roundtrip in Ev.
  unfold mem_seal, mem_decode, mem_open. destruct (rs_cipher st) as [cipher|] eqn:Ec.
  - destruct (cipher_seal cipher (rs_nonces st 0) plain) as [sealed|] eqn:Es; cbn; [|by intros [= <- <-]].
    intros [Hc Hv]%mem_write_ok. cbn in Hc, Hv. split; [done|]. destruct r; [|done]. exists sealed.
    split; [done|]. rewrite (open_seal _ _ _ _ Es). cbn. by rewrite Ev.
  - cbn. intros [Hc Hv]%mem_write_ok. cbn in Hc, Hv. split; [congruence|]. destruct r; [|done]. exists plain. split; [done|]. cbn. by rewrite Ev.
Qed.
Lemma mem_put_not_missing {A} `{Serde A} cf key (x : A) (st st' : RocksStore DB) r :
  mem_put cf key x st = (r, st') -> forall e, r = Err e -> is_not_found e = false.
Proof.
  unfold mem_put, mbind, stm_bind, reads, lift, mem_cf. intros Hp e ->. revert Hp.
  destruct (cf_handle _ _); [|by intros [= <- _]]. destruct (to_vec x) as [plain|e0]; cbn.
  2: { unfold from_serde_error. destruct (data_or_eof e0); by intros [= <- _]. }
  destruct (mem_seal plain st) as [[w|e1] st1] eqn:Es; [unfold mem_write; destruct (db_write _ _) as [[]]; by intros [= <- _]|].
  intros [= <- _]. revert Es. unfold mem_seal. destruct (rs_cipher st); [|done]. destruct (cipher_seal _ _ _); by intros [= <- _].
Qed.
Lemma mem_delete_ok cf key (st st' : RocksStore DB) r : mem_delete cf key st = (r, st') ->
  rs_cipher st' = rs_cipher st /\ view st' = (if is_ok r then delete (cf, key) (view st) else view st).
Proof.
  unfold mem_delete, mbind, stm_bind, reads. destruct (mem_cf st cf); [|by intros [= <- <-]].
  by intros [Hc Hv]%mem_write_ok.
Qed.
Lemma mem_decode_not_missing {A} `{Serde A} c b e : mem_decode (A:=A) c b = Err e -> is_not_found e = false.
Proof.
  unfold mem_decode, mem_open. destruct c; cbn; [destruct (cipher_open _ b); cbn; [|by intros [= <-]]|];
    by destruct (from_slice _); intros [= <-].
Qed.
(** A failed lookup that says the record is missing is right. *)
Lemma mem_lookup_missing {A K} `{Serde A} `{Countable K} (kf : K -> bytes) cf (st : RocksStore DB) (t : gmap K A) i absent e :
  table_rep (mem_decode (rs_cipher st)) kf cf (view st) t -> mem_lookup st cf (kf i) absent = Err e -> is_not_found e = true -> t !! i = None.
Proof.
  intros Hrep. rewrite (table_rep_get _ _ _ _ _ i Hrep). unfold mem_lookup, mem_get, mem_cf.
  destruct (cf_handle _ _); cbn; [|by intros [= <-]]. destruct (db_get (rs_db st) cf (kf i)) as [o|] eqn:Ho; cbn; [|by intros [= <-]].
  apply db_get_Ok in Ho as ->. destruct (view st !! (cf, kf i)) as [b|]; cbn; [|done].
  intros He Hm. apply mem_decode_not_missing in He. congruence.
Qed.
Lemma mem_write_not_missing ops (st st' : RocksStore DB) r : mem_write ops st = (r, st') -> forall e, r = Err e -> is_not_found e = false.
Proof. unfold mem_write. destruct (db_write _ _) as [[]]; by intros [= <- _] ? [= <-]. Qed.
Lemma mem_delete_not_missing cf key (st st' : RocksStore DB) r : mem_delete cf key st = (r, st') -> forall e, r = Err e -> is_not_found e = false.
Proof.
  unfold mem_delete, mbind, stm_bind, reads, mem_cf. destruct (cf_handle _ _); [apply mem_write_not_missing|].
  by intros [= <- _] ? [= <-].
Qed.
Lemma mem_lookup_ok {A K} `{Serde A} `{Countable K} (kf : K -> bytes) cf (st : RocksStore DB) (t : gmap K A) i absent x :
  table_rep (mem_decode (rs_cipher st)) kf cf (view st) t -> mem_lookup st cf (kf i) absent = Ok x ->
  t !! i = Some x \/ t !! i = None /\ absent = Ok x.
Proof.
  intros Hrep. rewrite (table_rep_get _ _ _ _ _ i Hrep). unfold mem_lookup, mem_get.
  intros (_ & _ & (o & Ho%map_err_Ok & Hx)%result_bind_Ok)%result_bind_Ok. apply db_get_Ok in Ho as ->.
  destruct (view st !! (cf, kf i)); cbn; [|by right]. left. by rewrite Hx.
Qed.

(** A write to one family leaves the tables of the others. *)
Ltac other_table :=
  eapply table_rep_same; [|eassumption];
  intros; cbn; first [by rewrite lookup_insert_ne by (intros [=]) | by rewrite lookup_delete_ne by (intros [=])].
Ltac keep_rep Hv Hc := unfold store_rep; rewrite ?Hv, ?Hc; cbn.

Lemma store_rep_same st st' v : rs_cipher st' = rs_cipher st -> view st' = view st -> store_rep st v -> store_rep st' v.
Proof. unfold store_rep. by intros -> ->. Qed.
Lemma rep_put_fact st st' v f w : rs_cipher st' = rs_cipher st ->
  view st' = <[(cf_MEMORY_FACTS, fact_key (fa_agent_id f) (fa_fact_id f)) := w]> (view st) ->
  mem_decode (rs_cipher st) w = Ok f -> store_rep st v -> store_rep st' (v_put_fact f v).
Proof.
  intros Hc Hv Hw (HF & HE & HI & HP & HC & (W1 & W2 & W3)). keep_rep Hv Hc. split_and!; try other_table.
  - by apply (table_rep_put _ pair_key _ _ _ (fa_agent_id f, fa_fact_id f)).
  - split_and!; [|done..]. intros a i g Hg; cbn in Hg; apply lookup_insert_Some in Hg as [[[= <- <-] <-]|[_ Hg]]; [done|by apply W1].
Qed.
Lemma rep_put_procedure st st' v p w : rs_cipher st' = rs_cipher st ->
  view st' = <[(cf_MEMORY_PROCEDURES, procedure_key (pr_agent_id p) (pr_procedure_id p)) := w]> (view st) ->
  mem_decode (rs_cipher st) w = Ok p -> store_rep st v -> store_rep st' (v_put_procedure p v).
Proof.
  intros Hc Hv Hw (HF & HE & HI & HP & HC & (W1 & W2 & W3)). keep_rep Hv Hc. split_and!; try other_table.
  - by apply (table_rep_put _ pair_key _ _ _ (pr_agent_id p, pr_procedure_id p)).
  - split_and!; [done..|]. intros a i g Hg; cbn in Hg; apply lookup_insert_Some in Hg as [[[= <- <-] <-]|[_ Hg]]; [done|by apply W3].
Qed.
Lemma rep_put_config st st' v a c w : rs_cipher st' = rs_cipher st ->
  view st' = <[(cf_MEMORY_CONFIG, arr_bytes a) := w]> (view st) ->
  mem_decode (rs_cipher st) w = Ok c -> store_rep st v -> store_rep st' (v_put_config a c v).
Proof.
  intros Hc Hv Hw (HF & HE & HI & HP & HC & W). keep_rep Hv Hc. split_and!; try other_table; [|done].
  eapply table_rep_put; [apply _|done|done].
Qed.
Lemma rep_put_event_row st st' v e w : rs_cipher st' = rs_cipher st ->
  view st' = <[(cf_MEMORY_EVENTS, event_key (ev_agent_id e) (ev_timestamp e) (ev_event_id e)) := w]> (view st) ->
  mem_decode (rs_cipher st) w = Ok e -> store_rep st v ->
  store_rep st' (v <| mv_events := <[(ev_agent_id e, stamp (ev_timestamp e), ev_event_id e) := e]> (mv_events v) |>).
Proof.
  intros Hc Hv Hw (HF & HE & HI & HP & HC & (W1 & W2 & W3)). keep_rep Hv Hc. split_and!; try other_table.
  - by apply (table_rep_put _ triple_key _ _ _ (ev_agent_id e, stamp (ev_timestamp e), ev_event_id e)).
  - split_and!; [done| |done]. intros a s i g Hg; cbn in Hg; apply lookup_insert_Some in Hg as [[[= <- <- <-] <-]|[_ Hg]]; [done|by apply W2].
Qed.
Lemma rep_put_index st st' v a i s : rs_cipher st' = rs_cipher st ->
  view st' = <[(cf_MEMORY_EVENT_INDEX, event_index_key a i) := arr_bytes s]> (view st) ->
  store_rep st v -> store_rep st' (v <| mv_index := <[(a, i) := s]> (mv_index v) |>).
Proof.
  intros Hc Hv (HF & HE & HI & HP & HC & W). keep_rep Hv Hc. split_and!; try other_table; [|done].
  apply (table_rep_put _ pair_key _ _ _ (a, i)); [done|]. unfold dec_stamp. by rewrite arr_try_from_bytes.
Qed.
Lemma rep_delete_fact st st' v a i : rs_cipher st' = rs_cipher st ->
  view st' = delete (cf_MEMORY_FACTS, fact_key a i) (view st) -> store_rep st v -> store_rep st' (v_delete_fact a i v).
Proof.
  intros Hc Hv (HF & HE & HI & HP & HC & (W1 & W2 & W3)). keep_rep Hv Hc. split_and!; try other_table.
  - by apply (table_rep_delete _ pair_key _ _ _ (a, i)).
  - split_and!; [|done..]. intros b j g Hg; cbn in Hg; apply lookup_delete_Some in Hg as [_ Hg]. by apply W1.
Qed.
Lemma rep_delete_procedure st st' v a i : rs_cipher st' = rs_cipher st ->
  view st' = delete (cf_MEMORY_PROCEDURES, procedure_key a i) (view st) -> store_rep st v -> store_rep st' (v_delete_procedure a i v).
Proof.
  intros Hc Hv (HF & HE & HI & HP & HC & (W1 & W2 & W3)). keep_rep Hv Hc. split_and!; try other_table.
  - by apply (table_rep_delete _ pair_key _ _ _ (a, i)).
  - split_and!; [done..|]. intros b j g Hg; cbn in Hg; apply lookup_delete_Some in Hg as [_ Hg]. by apply W3.
Qed.
Lemma rep_delete_event_row st st' v a s i : rs_cipher st' = rs_cipher st ->
  view st' = delete (cf_MEMORY_EVENTS, triple_key (a, s, i)) (view st) -> store_rep st v ->
  store_rep st' (v <| mv_events := delete (a, s, i) (mv_events v) |>).
Proof.
  intros Hc Hv (HF & HE & HI & HP & HC & (W1 & W2 & W3)). keep_rep Hv Hc. split_and!; try other_table.
  - by apply (table_rep_delete _ triple_key _ _ _ (a, s, i)).
  - split_and!; [done| |done]. intros b u j g Hg; cbn in Hg; apply lookup_delete_Some in Hg as [_ Hg]. by apply W2.
Qed.
Lemma rep_delete_index st st' v a i : rs_cipher st' = rs_cipher st ->
  view st' = delete (cf_MEMORY_EVENT_INDEX, event_index_key a i) (view st) -> store_rep st v ->
  store_rep st' (v <| mv_index := delete (a, i) (mv_index v) |>).
Proof.
  intros Hc Hv (HF & HE & HI & HP & HC & W). keep_rep Hv Hc. split_and!; try other_table; [|done].
  by apply (table_rep_delete _ pair_key _ _ _ (a, i)).
Qed.

(** Reads: an iterator ends, fails or goes on with the listing it walks. *)
Lemma iter_agrees_inv items l : iter_agrees items l ->
  (items = [] /\ l = []) \/ (exists e rest, items = Err e :: rest)
  \/ exists kv items' l', items = Ok kv :: items' /\ l = kv :: l' /\ iter_agrees items' l'.
Proof.
  intros [->|([|kv q] & e & rest & Hq & ->)].
  - destruct l as [|kv l]; [by left|]. right; right. exists kv, (Ok <$> l), l. split_and!; [done..|by left].
  - right; left. by exists e, rest.
  - right; right. destruct Hq as [tl ->]. eexists kv, _, (q ++ tl). split_and!; [done..|]. right. exists q, e, rest.
    split; [by exists tl|done].
Qed.
Lemma scan_until_ok {A} `{Serde A} c end_ items l (xs : list A) :
  iter_agrees items l -> scan_until c end_ items = Ok xs ->
  exists l1 l2, l = l1 ++ l2 /\ Forall (fun kv => lex_le end_ kv.1 = false) l1
    /\ (forall kv, head l2 = Some kv -> lex_le end_ kv.1 = true) /\ Forall2 (fun kv x => mem_decode c kv.2 = Ok x) l1 xs.
Proof.
  revert l xs. induction items as [|it items IH]; intros l xs Hag Hs;
    destruct (iter_agrees_inv _ _ Hag) as [[? ->]|[(e & rest & [= -> ->])|([k v] & items' & l' & [= -> ->] & -> & Hag')]]; try done; cbn in Hs.
  { injection Hs as <-. exists [], []. by split_and!. }
  destruct (lex_le end_ k) eqn:Ek.
  { injection Hs as <-. exists [], ((k, v) :: l'). split_and!; [done|constructor| |constructor]. by intros ? [= <-]. }
  apply result_bind_Ok in Hs as (x & Hx & Hs). apply result_bind_Ok in Hs as (xs' & Hxs & [= <-]).
  destruct (IH _ _ Hag' Hxs) as (l1 & l2 & -> & ? & ? & ?). exists ((k, v) :: l1), l2. split_and!; [done|by constructor|done|by constructor].
Qed.
Lemma keys_until_ok end_ items l ks :
  iter_agrees items l -> keys_until end_ items = Ok ks ->
  exists l1 l2, l = l1 ++ l2 /\ Forall (fun kv => lex_le end_ kv.1 = false) l1
    /\ (forall kv, head l2 = Some kv -> lex_le end_ kv.1 = true) /\ ks = l1.*1.
Proof.
  revert l ks. induction items as [|it items IH]; intros l ks Hag Hs;
    destruct (iter_agrees_inv _ _ Hag) as [[? ->]|[(e & rest & [= -> ->])|([k v] & items' & l' & [= -> ->] & -> & Hag')]]; try done; cbn in Hs.
  { injection Hs as <-. exists [], []. by split_and!. }
  destruct (lex_le end_ k) eqn:Ek.
  { injection Hs as <-. exists [], ((k, v) :: l'). split_and!; [done|constructor| |done]. by intros ? [= <-]. }
  apply result_bind_Ok in Hs as (ks' & Hks & [= <-]).
  destruct (IH _ _ Hag' Hks) as (l1 & l2 & -> & ? & ? & ->). exists ((k, v) :: l1), l2. split_and!; [done|by constructor|done|done].
Qed.
(** Walking from the prefix to its end gives the keys with the prefix. *)
Lemma range_of_agent m cf a l1 l2 : has_end a -> (forall k v, m !! (cf, k) = Some v -> 32 <= length k) ->
  range_list m cf (agent_prefix a) Forward (l1 ++ l2) -> Forall (fun kv => lex_le (agent_prefix_end a) kv.1 = false) l1 ->
  (forall kv, head l2 = Some kv -> lex_le (agent_prefix_end a) kv.1 = true) -> listing m cf (arr_bytes a) l1.
Proof.
  intros Hb Hlen Hr Hl1 Hl2.
  assert (forall k v, (k, v) ∈ l1 ++ l2 -> lex_le (agent_prefix_end a) k = negb (key_has_prefix (arr_bytes a) k)) as Hend.
  { intros k v [Hm Hc]%(proj2 Hr). by apply end_of_prefix; [|eapply Hlen|]. }
  eapply range_listing; [exact Hr|..].
  - apply Forall_forall. intros [k v] Hkv. rewrite Forall_forall in Hl1. specialize (Hl1 _ Hkv). cbn in *.
    rewrite (Hend k v) in Hl1; [by apply negb_false_iff|]. rewrite elem_of_app. by left.
  - intros [k v] Hkv. specialize (Hl2 _ Hkv). cbn in *. rewrite (Hend k v) in Hl2; [by apply negb_true_iff|].
    rewrite elem_of_app. right. destruct l2; [done|]. injection Hkv as ->. by left.
Qed.
Lemma table_keys_long {K A} `{Countable K} dec (kf : K -> bytes) cf m (t : gmap K A) :
  (forall i, 32 <= length (kf i)) -> table_rep dec kf cf m t -> forall k v, m !! (cf, k) = Some v -> 32 <= length k.
Proof. intros Hkf [Hk _] k v [i ->]%Hk. apply Hkf. Qed.
Lemma pair_key_long p : 32 <= length (pair_key p).
Proof. unfold pair_key. rewrite length_app, !arr_length. lia. Qed.
Lemma triple_key_long p : 32 <= length (triple_key p).
Proof. unfold triple_key. rewrite !length_app, !arr_length. lia. Qed.
Lemma pair_key_prefix a p : key_has_prefix (arr_bytes a) (pair_key p) = bool_decide (p.1 = a).
Proof.
  unfold key_has_prefix, pair_key. rewrite take_app_length' by by rewrite !arr_length.
  apply bool_decide_ext. split; [apply arr_eq|by intros ->].
Qed.
Lemma triple_key_prefix a p : key_has_prefix (arr_bytes a) (triple_key p) = bool_decide (p.1.1 = a).
Proof.
  unfold key_has_prefix, triple_key. rewrite take_app_length' by by rewrite !arr_length.
  apply bool_decide_ext. split; [apply arr_eq|by intros ->].
Qed.
Lemma lex_lt_pair p q : p.1 = q.1 -> lex_lt (pair_key p) (pair_key q) = lex_lt (arr_bytes p.2) (arr_bytes q.2).
Proof. unfold pair_key. intros ->. apply lex_lt_app_l. Qed.
(** Records of one agent in the order of their keys are in the order of their ids. *)
Lemma sorted_by_id {A} (agent : A -> AgentId) (id : A -> arr 16) (a : AgentId) (l : list A) :
  StronglySorted (fun x y => lex_lt (pair_key (agent x, id x)) (pair_key (agent y, id y)) = true) l ->
  (forall x, x ∈ l -> agent x = a) -> StronglySorted (fun x y => lex_lt (arr_bytes (id x)) (arr_bytes (id y)) = true) l.
Proof.
  induction 1 as [|x l Hs IH Hall]; intros Ha; [constructor|]. constructor; [apply IH; intros; apply Ha; by right|].
  rewrite Forall_forall in *. intros y Hy. specialize (Hall y Hy). rewrite lex_lt_pair in Hall; [done|].
  cbn. by rewrite !Ha by (by left || by right).
Qed.
(** The records of an agent in a table of pairs, listed. *)
Lemma list_records_ok {A} `{Serde A} (cf : string) (st : RocksStore DB) (a : AgentId) (t : gmap (AgentId * arr 16) A) (key_of : A -> bytes) xs :
  has_end a -> table_rep (mem_decode (rs_cipher st)) pair_key cf (view st) t -> (forall i x, t !! i = Some x -> key_of x = pair_key i) ->
  list_records st cf (agent_prefix a) a = Ok xs ->
  StronglySorted (fun x y => lex_lt (key_of x) (key_of y) = true) xs /\ forall x, x ∈ xs <-> exists i, t !! (a, i) = Some x.
Proof.
  intros Hb Hrep Hkey. unfold list_records. intros (_ & _ & Hs)%result_bind_Ok.
  destruct (db_iterator_ok (rs_db st) cf (agent_prefix a) Forward) as (l & Hr & Hag).
  destruct (scan_until_ok _ _ _ _ _ Hag Hs) as (l1 & l2 & -> & Hl1 & Hl2 & HF).
  destruct (range_of_agent _ _ _ _ _ Hb (table_keys_long _ _ _ _ _ pair_key_long Hrep) Hr Hl1 Hl2) as [Hsorted Hin].
  destruct (rows_records _ pair_key cf key_of (key_has_prefix (arr_bytes a)) (fun k k' => lex_lt k k' = true) _ _ _ _ Hrep Hkey Hsorted Hin HF)
    as [Ho Hx]. split; [done|]. intros x. rewrite Hx. split.
  - intros ([b i] & Hi & Hp). rewrite pair_key_prefix in Hp. apply bool_decide_eq_true in Hp. cbn in Hp. subst b. by exists i.
  - intros [i Hi]. exists (a, i). rewrite pair_key_prefix. by rewrite bool_decide_eq_true_2.
Qed.

Lemma find_by_key_ok c end_ key fb items l o :
  iter_agrees items l -> find_by_key c end_ key fb items = Ok o ->
  (exists k v f, o = Some f /\ (k, v) ∈ l /\ lex_le end_ k = false /\ mem_decode c v = Ok f /\ fa_key f = key /\ fact_is_active f = true)
  \/ exists l1 l2 xs, l = l1 ++ l2 /\ Forall (fun kv => lex_le end_ kv.1 = false) l1
    /\ (forall kv, head l2 = Some kv -> lex_le end_ kv.1 = true) /\ Forall2 (fun kv x => mem_decode c kv.2 = Ok x) l1 xs
    /\ (forall f, f ∈ xs -> fa_key f = key -> fact_is_active f = false)
    /\ match o with
       | Some f => (f ∈ xs /\ fa_key f = key) \/ fb = Some f
       | None => fb = None /\ forall f, f ∈ xs -> fa_key f <> key
       end.
Proof.
  revert fb l. induction items as [|it items IH]; intros fb l Hag Hs;
    destruct (iter_agrees_inv _ _ Hag) as [[? ->]|[(e & rest & [= -> ->])|([k v] & items' & l' & [= -> ->] & -> & Hag')]]; try done; cbn in Hs.
  { injection Hs as <-. right. exists [], [], []. split_and!; try done; [by intros f ?%elem_of_nil|]. destruct fb; [by right|]. split; [done|]. by intros f ?%elem_of_nil. }
  destruct (lex_le end_ k) eqn:Ek.
  { injection Hs as <-. right. exists [], ((k, v) :: l'), []. split_and!; try done; [by intros ? [= <-]|by intros f ?%elem_of_nil|].
    destruct fb; [by right|]. split; [done|]. by intros f ?%elem_of_nil. }
  apply result_bind_Ok in Hs as (x & Hx & Hs). case_bool_decide as Hkey; [destruct (fact_is_active x) eqn:Ha|].
  { injection Hs as <-. left. exists k, v, x. split_and!; try done. by left. }
  all: destruct (IH _ _ Hag' Hs) as [(k' & v' & f & ? & ? & ?)|(l1 & l2 & xs & -> & ? & ? & ? & Hna & Ho)];
    [left; exists k', v', f; split_and!; [done|by right|naive_solver..]|];
    right; exists ((k, v) :: l1), l2, (x :: xs); split_and!; [done|by constructor|done|by constructor| |].
  - intros f [->|Hf]%elem_of_cons; [done|by apply Hna].
  - destruct o as [f|]; [|by destruct Ho]. left. destruct Ho as [[Hf ?]|[= <-]]; [split; [by right|done]|split; [by left|done]].
  - intros f [->|Hf]%elem_of_cons; [done|by apply Hna].
  - destruct o as [f|].
    + destruct Ho as [[Hf ?]|Hfb]; [left; split; [by right|done]|by right].
    + destruct Ho as [-> Ho]. split; [done|]. intros f [->|Hf]%elem_of_cons; [done|by apply Ho].
Qed.
Lemma split_while {X} (P : X -> bool) (l : list X) :
  exists l1 l2, l = l1 ++ l2 /\ Forall (fun x => P x = true) l1 /\ forall x, head l2 = Some x -> P x = false.
Proof.
  induction l as [|x l (l1 & l2 & -> & ? & ?)]; [by exists [], []|]. destruct (P x) eqn:Ex.
  - exists (x :: l1), l2. split_and!; [done|by constructor|done].
  - exists [], (x :: l1 ++ l2). split_and!; [done|constructor|]. by intros ? [= <-].
Qed.
Lemma newest_events_ok c prefix n items l1 l2 ys xs :
  iter_agrees items (l1 ++ l2) -> Forall (fun kv => key_of_agent prefix kv.1 = true) l1 ->
  (forall kv, head l2 = Some kv -> key_of_agent prefix kv.1 = false) ->
  Forall2 (fun kv x => mem_decode c kv.2 = Ok x) l1 ys -> newest_events c prefix n items = Ok xs -> xs = take (Nat.max 1 n) ys.
Proof.
  intros Hag Hp Hn HF. revert n items xs Hag Hp. induction HF as [|[k v] y l1 ys Hy HF IH]; intros n items xs Hag Hp Hs.
  - rewrite take_nil. destruct (iter_agrees_inv _ _ Hag) as [[-> _]|[(e & rest & ->)|([k v] & items' & l' & -> & Hl & _)]]; cbn in *; [by simplify_eq|done|].
    rewrite Hl in Hn. specialize (Hn _ eq_refl). cbn in Hn. rewrite Hn in Hs. by simplify_eq.
  - destruct (iter_agrees_inv _ _ Hag) as [[_ ?]|[(e & rest & ->)|(kv & items' & l' & -> & Hl & Hag')]]; [done..|].
    injection Hl as <- <-. inversion Hp as [|?? Hk Hp']; subst. cbn in *. rewrite Hk, Hy in Hs. cbn in Hs.
    destruct n as [|[|n]]; [by injection Hs as <-..|].
    apply result_bind_Ok in Hs as (rest & Hr & [= <-]). rewrite (IH (S n) _ _ Hag' Hp' Hr). done.
Qed.
(** Walking down from the end of the prefix gives the keys with the prefix. *)
Lemma range_of_agent_down m cf a l1 l2 : has_end a -> (forall k v, m !! (cf, k) = Some v -> 32 < length k) ->
  range_list m cf (agent_prefix_end a) Reverse (l1 ++ l2) -> Forall (fun kv => key_has_prefix (arr_bytes a) kv.1 = true) l1 ->
  (forall kv, head l2 = Some kv -> key_has_prefix (arr_bytes a) kv.1 = false) ->
  StronglySorted (iter_order Reverse) l1 /\ forall k v, (k, v) ∈ l1 <-> m !! (cf, k) = Some v /\ key_has_prefix (arr_bytes a) k = true.
Proof.
  intros Hb Hlen [Hs Hin] Hl1 Hl2. apply StronglySorted_app in Hs as (Hs12 & Hs1 & Hs2). split; [done|]. intros k v.
  rewrite Forall_forall in Hl1. split.
  - intros Hkv. split; [|by apply (Hl1 (k, v))]. apply Hin. rewrite elem_of_app. by left.
  - intros [Hm Hp]. pose proof (key_has_prefix_le _ _ Hp) as Hle.
    assert ((k, v) ∈ l1 ++ l2) as [?|Hkv]%elem_of_app; [|done|].
    { apply Hin. split; [done|]. cbn. specialize (Hlen _ _ Hm). pose proof (end_of_prefix a k Hb ltac:(lia) Hle) as E.
      rewrite Hp in E. cbn in E. unfold lex_le in *. apply negb_false_iff in E. by rewrite (lex_lt_asym _ _ E). }
    exfalso. destruct l2 as [|[k0 v0] l2]; [by apply elem_of_nil in Hkv|]. specialize (Hl2 _ eq_refl). cbn in Hl2.
    apply elem_of_cons in Hkv as [[= <- <-]|Hkv]; [congruence|].
    inversion Hs2 as [|?? _ Hall]. rewrite Forall_forall in Hall. specialize (Hall _ Hkv). cbn in Hall.
    destruct (proj1 (Hin k0 v0)) as [Hm0 Hc0]; [rewrite elem_of_app; right; by left|]. cbn in Hc0. specialize (Hlen _ _ Hm0).
    assert (lex_le (arr_bytes a) k0 = true) as Hle0.
    { unfold lex_le in *. apply negb_true_iff, not_true_iff_false. intros Hlt.
      apply negb_true_iff, not_true_iff_false in Hle. apply Hle. by eapply lex_lt_trans. }
    pose proof (end_of_prefix a k0 Hb ltac:(lia) Hle0) as E. rewrite Hl2 in E. cbn in E. unfold lex_le in E, Hc0.
    apply negb_true_iff in E. apply negb_true_iff in Hc0. assert (k0 = agent_prefix_end a) as -> by by apply lex_lt_total.
    destruct (prefix_end_ok a Hb) as [Hl _]. lia.
Qed.

Lemma no_end_above a k : ~ has_end a -> lex_le (arr_bytes a) k = true -> lex_lt (agent_prefix_end a) k = true.
Proof.
  intros Hn%end_below_prefix. unfold lex_le. rewrite negb_true_iff. intros Hle.
  destruct (lex_lt (arr_bytes a) k) eqn:E; [by eapply lex_lt_trans|]. by rewrite (lex_lt_total _ _ E Hle) in Hn.
Qed.

(** ** The calls, one by one *)
Lemma stm_reads_bind {S E X Y} (g : S -> result E X) (k : X -> stm S E Y) st r st' :
  (reads g ≫= k) st = (r, st') -> (exists e, g st = Err e /\ r = Err e /\ st' = st) \/ exists x, g st = Ok x /\ k x st = (r, st').
Proof. unfold mbind, stm_bind, reads. destruct (g st) as [x|e]; [eauto|]. intros [= <- <-]. left. by exists e. Qed.
Lemma fact_table st v : store_rep st v -> table_rep (mem_decode (rs_cipher st)) pair_key cf_MEMORY_FACTS (view st) (mv_facts v).
Proof. by intros [? _]. Qed.
Lemma rep_view_wf st v : store_rep st v -> view_wf v.
Proof. by intros (_ & _ & _ & _ & _ & ?). Qed.
Lemma put_fact_impl st v f r st' : store_rep st v -> MemoryStore_put_fact f st = (r, st') -> store_rep st' (done_or_not r v (v_put_fact f v)).
Proof.
  intros Hrep [Hc Hr]%mem_put_ok. destruct r as [[]|]; cbn; [|by eapply store_rep_same].
  destruct Hr as (w & Hv & Hw). by eapply rep_put_fact.
Qed.
Lemma put_procedure_impl st v p r st' : store_rep st v -> MemoryStore_put_procedure p st = (r, st') ->
  store_rep st' (done_or_not r v (v_put_procedure p v)).
Proof.
  intros Hrep [Hc Hr]%mem_put_ok. destruct r as [[]|]; cbn; [|by eapply store_rep_same].
  destruct Hr as (w & Hv & Hw). by eapply rep_put_procedure.
Qed.
Lemma put_config_impl st v a c r st' : store_rep st v -> MemoryStore_put_continuity_config a c st = (r, st') ->
  store_rep st' (done_or_not r v (v_put_config a c v)).
Proof.
  intros Hrep [Hc Hr]%mem_put_ok. destruct r as [[]|]; cbn; [|by eapply store_rep_same].
  destruct Hr as (w & Hv & Hw). by eapply rep_put_config.
Qed.
Lemma delete_fact_impl st v a i r st' : store_rep st v -> MemoryStore_delete_fact a i st = (r, st') ->
  store_rep st' (done_or_not r v (v_delete_fact a i v)).
Proof. intros Hrep [Hc Hv]%mem_delete_ok. destruct r as [[]|]; cbn in *; [by eapply rep_delete_fact|by eapply store_rep_same]. Qed.
Lemma delete_procedure_impl st v a i r st' : store_rep st v -> MemoryStore_delete_procedure a i st = (r, st') ->
  store_rep st' (done_or_not r v (v_delete_procedure a i v)).
Proof. intros Hrep [Hc Hv]%mem_delete_ok. destruct r as [[]|]; cbn in *; [by eapply rep_delete_procedure|by eapply store_rep_same]. Qed.
Lemma lookup_agrees {A K} `{Serde A} `{Countable K} (kf : K -> bytes) cf (st : RocksStore DB) (t : gmap K A) i e :
  table_rep (mem_decode (rs_cipher st)) kf cf (view st) t -> found_agrees (t !! i) (mem_lookup st cf (kf i) (Err e)).
Proof.
  intros Hrep. unfold found_agrees. destruct (mem_lookup st cf (kf i) (Err e)) as [x|e'] eqn:Hg.
  - by destruct (mem_lookup_ok _ _ _ _ _ _ _ Hrep Hg) as [?|[_ ?]].
  - by eapply mem_lookup_missing.
Qed.
Lemma get_fact_impl st v a i : store_rep st v -> found_agrees (mv_facts v !! (a, i)) (MemoryStore_get_fact st a i).
Proof. intros Hrep%fact_table. by apply (lookup_agrees pair_key _ _ _ (a, i)). Qed.
Lemma get_procedure_impl st v a i : store_rep st v -> found_agrees (mv_procedures v !! (a, i)) (MemoryStore_get_procedure st a i).
Proof. intros (_ & _ & _ & Hrep & _). by apply (lookup_agrees pair_key _ _ _ (a, i)). Qed.
Lemma get_config_impl st v a c : store_rep st v -> MemoryStore_get_continuity_config st a = Ok c ->
  c = default AgentContinuityConfig_default (mv_config v !! a).
Proof.
  intros (_ & _ & _ & _ & Hrep & _) Hg. destruct (mem_lookup_ok _ _ _ _ a _ _ Hrep Hg) as [E|[E ?]]; rewrite E; [done|by simplify_eq].
Qed.
Lemma touch_fact_impl st v now a i r st' : store_rep st v -> MemoryStore_touch_fact now a i st = (r, st') ->
  match r with
  | Ok _ => exists f, mv_facts v !! (a, i) = Some f /\ store_rep st' (v_put_fact (touched now f) v)
  | Err e => store_rep st' v /\ (is_not_found e = true -> mv_facts v !! (a, i) = None)
  end.
Proof.
  intros Hrep Ht. unfold MemoryStore_touch_fact in Ht. pose proof (get_fact_impl _ _ a i Hrep) as Hg.
  apply stm_reads_bind in Ht as [(e & He & -> & ->)|(f & Hf & Hp)]; [by rewrite He in Hg|]. rewrite Hf in Hg.
  pose proof (mem_put_not_missing _ _ _ _ _ _ Hp) as Hm. apply (put_fact_impl _ v) in Hp; [|done].
  destruct r; [by exists f|]. split; [done|]. rewrite Hm; [done|reflexivity].
Qed.
Lemma list_facts_impl st v a l : has_end a -> store_rep st v -> MemoryStore_list_facts st a = Ok l -> facts_of v a l.
Proof.
  intros Hb Hrep Hl. destruct (rep_view_wf _ _ Hrep) as (W & _ & _).
  destruct (list_records_ok cf_MEMORY_FACTS st a (mv_facts v) (fun f => pair_key (fa_agent_id f, fa_fact_id f)) l Hb (fact_table _ _ Hrep)) as [Hs Hin]; [|done|].
  { intros [b i] f Hf. by destruct (W _ _ _ Hf) as [-> ->]. }
  split; [|done]. apply (sorted_by_id fa_agent_id fa_fact_id a); [done|]. by intros f [i Hf]%Hin; destruct (W _ _ _ Hf).
Qed.
Lemma list_procedures_impl st v a l : has_end a -> store_rep st v -> MemoryStore_list_procedures st a = Ok l -> procedures_of v a l.
Proof.
  intros Hb Hrep Hl. destruct (rep_view_wf _ _ Hrep) as (_ & _ & W). destruct Hrep as (_ & _ & _ & Hrep & _).
  destruct (list_records_ok cf_MEMORY_PROCEDURES st a (mv_procedures v) (fun p => pair_key (pr_agent_id p, pr_procedure_id p)) l Hb Hrep) as [Hs Hin]; [|done|].
  { intros [b i] f Hf. by destruct (W _ _ _ Hf) as [-> ->]. }
  split; [|done]. apply (sorted_by_id pr_agent_id pr_procedure_id a); [done|]. by intros f [i Hf]%Hin; destruct (W _ _ _ Hf).
Qed.
Lemma get_fact_by_key_impl st v a key o : has_end a -> store_rep st v -> MemoryStore_get_fact_by_key st a key = Ok o ->
  match o with
  | Some f => (exists i, mv_facts v !! (a, i) = Some f) /\ fa_key f = key
              /\ (fact_is_active f = true \/ forall i g, mv_facts v !! (a, i) = Some g -> fa_key g = key -> fact_is_active g = false)
  | None => forall i g, mv_facts v !! (a, i) = Some g -> fa_key g <> key
  end.
Proof.
  intros Hb Hrep (_ & _ & Hf)%result_bind_Ok. pose proof (rep_view_wf _ _ Hrep) as (W & _ & _). apply fact_table in Hrep.
  destruct (db_iterator_ok (rs_db st) cf_MEMORY_FACTS (agent_prefix a) Forward) as (l & Hr & Hag).
  pose proof (table_keys_long _ _ _ _ _ pair_key_long Hrep) as Hlong.
  destruct (find_by_key_ok _ _ _ _ _ _ _ Hag Hf) as [(k & w & f & -> & Hkv & Hend & Hd & Hkey & Hact)|(l1 & l2 & xs & -> & Hl1 & Hl2 & HF & Hna & Ho)].
  - destruct (proj1 (proj2 Hr k w) Hkv) as [Hm Hle]. rewrite (end_of_prefix a k Hb (Hlong _ _ Hm) Hle), negb_false_iff in Hend.
    destruct (proj1 Hrep _ _ Hm) as [[b i] ->]. rewrite pair_key_prefix in Hend. apply bool_decide_eq_true in Hend. cbn in Hend. subst b.
    split_and!; [|done|by left]. exists i. eapply (table_rep_row _ pair_key _ _ _ (a, i)); [exact Hrep|exact Hm|exact Hd].
  - destruct (range_of_agent _ _ _ _ _ Hb Hlong Hr Hl1 Hl2) as [Hs Hin].
    destruct (rows_records _ pair_key _ (fun f => pair_key (fa_agent_id f, fa_fact_id f)) (key_has_prefix (arr_bytes a)) (fun k k' => lex_lt k k' = true)
      _ _ _ _ Hrep ltac:(intros [b i] f Hx; by destruct (W _ _ _ Hx) as [-> ->]) Hs Hin HF) as [_ Hx].
    assert (forall i g, mv_facts v !! (a, i) = Some g -> g ∈ xs) as Hall.
    { intros i g Hg. apply Hx. exists (a, i). by rewrite pair_key_prefix, bool_decide_eq_true_2. }
    destruct o as [f|]; [|destruct Ho as [_ Ho]; eauto]. destruct Ho as [[Hfx Hkey]|]; [|done]. split_and!; [|done|right; eauto].
    destruct (proj1 (Hx f) Hfx) as ([b i] & Hi & Hp). rewrite pair_key_prefix in Hp. apply bool_decide_eq_true in Hp. cbn in Hp. subst b. by exists i.
Qed.

(** ** Events *)
Lemma stm_bind_inv {S E X Y} (m : stm S E X) (k : X -> stm S E Y) st r st' : (m ≫= k) st = (r, st') ->
  (exists e, m st = (Err e, st') /\ r = Err e) \/ exists x st1, m st = (Ok x, st1) /\ k x st1 = (r, st').
Proof. unfold mbind, stm_bind. destruct (m st) as [[x|e] st1]; [right; eauto|]. intros [= <- <-]. left. eauto. Qed.
Lemma put_event_impl st v e r st' : store_rep st v -> MemoryStore_put_event e st = (r, st') ->
  match r with Ok _ => store_rep st' (v_put_event e v) | Err er => store_rep st' v \/ is_not_found er = false /\ store_rep st' (v_put_event_row e v) end.
Proof.
  intros Hrep Hp. unfold MemoryStore_put_event in Hp. apply stm_bind_inv in Hp as [(er & Hp & ->)|([] & st1 & Hp & Hi)].
  { apply mem_put_ok in Hp as [Hc Hv]. left. by eapply store_rep_same. }
  apply mem_put_ok in Hp as (Hc & w & Hv & Hw). pose proof (rep_put_event_row _ _ _ _ _ Hc Hv Hw Hrep) as Hrep1.
  apply stm_reads_bind in Hi as [(er & He & -> & ->)|([] & _ & Hi)].
  { right. split; [|done]. revert He. unfold mem_cf. destruct (cf_handle _ _); [done|by intros [= <-]]. }
  pose proof (mem_write_not_missing _ _ _ _ Hi) as Hm. apply mem_write_ok in Hi as [Hc' Hv'].
  destruct r as [[]|]; cbn in Hv'; [|right; split; [by apply Hm|by eapply store_rep_same]].
  by apply (rep_put_index st1 st' _ (ev_agent_id e) (ev_event_id e) (stamp (ev_timestamp e))) in Hrep1.
Qed.
Lemma delete_event_direct_impl st v a t i r st' : store_rep st v -> MemoryStore_delete_event_direct a t i st = (r, st') ->
  match r with
  | Ok _ => store_rep st' (v_delete_event a (stamp t) i v)
  | Err er => store_rep st' v \/ is_not_found er = false /\ store_rep st' (v_delete_event_row a (stamp t) i v)
  end.
Proof.
  intros Hrep Hd. unfold MemoryStore_delete_event_direct in Hd. apply stm_bind_inv in Hd as [(er & Hd & ->)|([] & st1 & Hd & Hi)].
  { apply mem_delete_ok in Hd as [Hc Hv]. left. by eapply store_rep_same. }
  apply mem_delete_ok in Hd as [Hc Hv]. pose proof (rep_delete_event_row _ _ _ a (stamp t) i Hc Hv Hrep) as Hrep1.
  pose proof (mem_delete_not_missing _ _ _ _ _ Hi) as Hm. apply mem_delete_ok in Hi as [Hc' Hv'].
  destruct r as [[]|]; cbn in Hv'; [|right; split; [by apply Hm|by eapply store_rep_same]].
  by apply (rep_delete_index st1 st' _ a i) in Hrep1.
Qed.
Lemma stamp_of_index (s : arr 8) t : from_timestamp_millis (i64_of_be_bytes (arr_bytes s)) = Some t -> stamp t = s.
Proof.
  intros Ht%chrono_back. apply arr_eq. cbn. rewrite Ht. unfold i64_of_be_bytes, to_be_bytes.
  pose proof (from_be_bytes_is_u64 _ (arr_length s)) as Hu. unfold is_u64 in Hu.
  assert (be_split 8 (from_be_bytes (arr_bytes s)) = arr_bytes s) as E
    by (rewrite <-(arr_length s) at 1; apply be_split_combine).
  destruct (Z.ltb_spec (from_be_bytes (arr_bytes s)) (2 ^ 63)); [done|]. rewrite <-E at 2.
  generalize (from_be_bytes (arr_bytes s)) as u. intros u. clear.
  assert (forall n z, be_split n (z - 256 ^ Z.of_nat n) = be_split n z) as Hw.
  { induction n as [|n IH]; intros z; [done|]. cbn [be_split]. rewrite Nat2Z.inj_succ, Z.pow_succ_r by lia.
    replace (z - 256 * 256 ^ Z.of_nat n)%Z with (z + (- 256 ^ Z.of_nat n) * 256)%Z by lia. f_equal.
    - rewrite Z.div_add by lia. rewrite <-(IH (z `div` 256)%Z). done.
    - f_equal. unfold byte_of_Z. by rewrite Z.mod_add by lia. }
  by rewrite <-(Hw 8 u).
Qed.
Lemma delete_event_impl st v a i r st' : store_rep st v -> MemoryStore_delete_event a i st = (r, st') ->
  match r with
  | Ok _ => exists s, mv_index v !! (a, i) = Some s /\ store_rep st' (v_delete_event a s i v)
  | Err e => store_rep st' v /\ (is_not_found e = true -> mv_index v !! (a, i) = None)
             \/ exists s, mv_index v !! (a, i) = Some s /\ is_not_found e = false /\ store_rep st' (v_delete_event_row a s i v)
  end.
Proof.
  intros Hrep Hd. unfold MemoryStore_delete_event in Hd. apply stm_reads_bind in Hd as [(er & He & -> & ->)|([] & _ & Hd)].
  { left. split; [done|]. revert He. unfold mem_cf. destruct (cf_handle _ _); [done|by intros [= <-]]. }
  apply stm_reads_bind in Hd as [(er & He & -> & ->)|(o & Ho & Hd)].
  { left. split; [done|]. revert He. unfold mem_get. destruct (db_get _ _ _); [done|by intros [= <-]]. }
  apply map_err_Ok, db_get_Ok in Ho. pose proof Hrep as (_ & _ & HI & _). destruct o as [b|].
  2: { injection Hd as <- <-. left. split; [done|]. intros _. rewrite (table_rep_get _ _ _ _ _ (a, i) HI).
       change (pair_key (a, i)) with (event_index_key a i). by rewrite <-Ho. }
  apply stm_bind_inv in Hd as [(er & [= He <-] & ->)|(s & st1 & [= Hs <-] & Hd)].
  { left. split; [done|]. destruct (arr_try_from 8 b); [done|]. by injection He as <-. }
  destruct (arr_try_from 8 b) as [s'|] eqn:Es; [|done]. injection Hs as ->.
  apply stm_bind_inv in Hd as [(er & [= He <-] & ->)|(t & st2 & [= Ht <-] & Hd)].
  { left. split; [done|]. destruct (from_timestamp_millis _); [done|]. by injection He as <-. }
  destruct (from_timestamp_millis _) as [t'|] eqn:Et; [|done]. injection Ht as ->. apply stamp_of_index in Et.
  assert (mv_index v !! (a, i) = Some s) as Hidx.
  { apply (table_rep_row _ pair_key _ _ _ (a, i) s b HI); [done|]. unfold dec_stamp. by rewrite Es. }
  apply stm_bind_inv in Hd as [(er & Hd & ->)|([] & st1 & Hd & Hi)].
  { left. pose proof (mem_delete_not_missing _ _ _ _ _ Hd _ eq_refl) as Hm. apply mem_delete_ok in Hd as [Hc Hv].
    split; [by eapply store_rep_same|]. by rewrite Hm. }
  apply mem_delete_ok in Hd as [Hc Hv]. pose proof (rep_delete_event_row _ _ _ a (stamp t) i Hc Hv Hrep) as Hrep1. rewrite Et in Hrep1.
  pose proof (mem_write_not_missing _ _ _ _ Hi) as Hm. apply mem_write_ok in Hi as [Hc' Hv']. destruct r as [[]|]; cbn in Hv'.
  - exists s. split; [done|]. by apply (rep_delete_index st1 st' _ a i) in Hrep1.
  - right. exists s. split_and!; [done|by apply Hm|by eapply store_rep_same].
Qed.
(** [delete_events_before]: the keys it collects, and what the batch removes. *)
Lemma keys_before_ok cutoff prefix items l ks :
  iter_agrees items l -> keys_before cutoff prefix items = Ok ks ->
  exists l1 l2, l = l1 ++ l2 /\ Forall (fun kv => lex_le cutoff kv.1 = false) l1
    /\ (forall kv, head l2 = Some kv -> lex_le cutoff kv.1 = true \/ key_of_agent prefix kv.1 = false) /\ ks = l1.*1.
Proof.
  revert l ks. induction items as [|it items IH]; intros l ks Hag Hs;
    destruct (iter_agrees_inv _ _ Hag) as [[? ->]|[(e & rest & [= -> ->])|([k v] & items' & l' & [= -> ->] & -> & Hag')]]; try done; cbn in Hs.
  { injection Hs as <-. exists [], []. by split_and!. }
  destruct (lex_le cutoff k) eqn:Ek; [|destruct (key_of_agent prefix k) eqn:Ep; cbn in Hs].
  - injection Hs as <-. exists [], ((k, v) :: l'). split_and!; [done|constructor| |done]. intros ? [= <-]. by left.
  - apply result_bind_Ok in Hs as (ks' & Hks & [= <-]). destruct (IH _ _ Hag' Hks) as (l1 & l2 & -> & ? & ? & ->).
    exists ((k, v) :: l1), l2. split_and!; [done|by constructor|done|done].
  - injection Hs as <-. exists [], ((k, v) :: l'). split_and!; [done|constructor| |done]. intros ? [= <-]. by right.
Qed.
(** From the first key of the agent on, what comes before a time is the agent's. *)
Lemma key_before_time a t p : lex_le (arr_bytes a) (triple_key p) = true ->
  lex_le (time_key a t) (triple_key p) = false <-> from_before a t p.
Proof.
  destruct p as [[b s] i]. unfold triple_key, time_key, from_before; cbn [fst snd].
  rewrite lex_le_head by by rewrite !arr_length. intros Hle%negb_true_iff.
  unfold lex_le. rewrite negb_false_iff, lex_lt_app by by rewrite !arr_length. rewrite Hle.
  assert (lex_lt (arr_bytes s ++ arr_bytes i) (to_be_bytes (timestamp_millis t)) = lex_lt (arr_bytes s) (arr_bytes (stamp t))) as E.
  { pose proof (lex_le_head (arr_bytes s) (arr_bytes (stamp t)) (arr_bytes i) ltac:(by rewrite !arr_length)) as Hh.
    unfold lex_le in Hh. apply (f_equal negb) in Hh. by rewrite !negb_involutive in Hh. }
  rewrite E. split; [intros [?|[? ?]]; [done|split; [by apply arr_eq|done]]|]. intros [-> ?]. by right.
Qed.
Lemma keys_before_all (st : RocksStore DB) v a t ks : store_rep st v ->
  keys_before (time_key a t) (agent_prefix a) (db_iterator (rs_db st) cf_MEMORY_EVENTS (agent_prefix a) Forward) = Ok ks ->
  NoDup ks /\ forall k, k ∈ ks <-> exists p, k = triple_key p /\ p ∈ events_before a t v.
Proof.
  intros (_ & HE & _) Hk. destruct (db_iterator_ok (rs_db st) cf_MEMORY_EVENTS (agent_prefix a) Forward) as (l & [Hs Hin] & Hag).
  destruct (keys_before_ok _ _ _ _ _ Hag Hk) as (l1 & l2 & -> & Hl1 & Hl2 & ->). apply StronglySorted_app in Hs as (_ & Hs1 & Hs2).
  assert (forall k w, (k, w) ∈ l1 ++ l2 -> exists p, k = triple_key p /\ is_Some (mv_events v !! p) /\ lex_le (arr_bytes a) (triple_key p) = true) as Hrow.
  { intros k w [Hm Hc]%Hin. destruct (proj1 HE _ _ Hm) as [p ->]. exists p. split_and!; [done| |done].
    pose proof (proj2 HE p) as Hp. destruct (mv_events v !! p); [done|congruence]. }
  assert (forall k w p, (k, w) ∈ l2 -> k = triple_key p -> lex_le (arr_bytes a) (triple_key p) = true -> ~ from_before a t p) as Hlate.
  { destruct l2 as [|[k0 w0] l2]; [by intros ? ? ? ?%elem_of_nil|]. specialize (Hl2 _ eq_refl). cbn in Hl2.
    destruct (Hrow k0 w0) as (p0 & -> & _ & Hle0); [rewrite elem_of_app; right; by left|].
    assert (lex_le (time_key a t) (triple_key p0) = true) as Hcut.
    { destruct Hl2 as [?|Hp]; [done|]. apply not_false_iff_true. intros Hb%key_before_time; [|done]. destruct p0 as [[b s] i].
      destruct Hb as [Hba _]. cbn in Hba. subst b.
      change (key_has_prefix (arr_bytes a) (triple_key (a, s, i)) = false) in Hp. rewrite triple_key_prefix in Hp. by apply bool_decide_eq_false in Hp. }
    intros k w p Hkv -> Hle Hb%key_before_time; [|done]. apply elem_of_cons in Hkv as [[= E _]|Hkv]; [congruence|].
    inversion Hs2 as [|?? _ Hall]. rewrite Forall_forall in Hall. specialize (Hall _ Hkv). cbn in Hall.
    unfold lex_le in Hcut, Hb. apply negb_false_iff in Hb. rewrite (lex_lt_trans _ _ _ Hall Hb) in Hcut. done. }
  split.
  - clear -Hs1. induction Hs1 as [|[k w] l _ IH Hall]; cbn; constructor; [|done].
    intros ([k' w'] & -> & Hkv)%list_elem_of_fmap. rewrite Forall_forall in Hall. specialize (Hall _ Hkv). cbn in Hall. by rewrite lex_lt_irrefl in Hall.
  - intros k. rewrite list_elem_of_fmap. unfold events_before. split.
    + intros ([k' w] & -> & Hkv). destruct (Hrow k' w) as (p & -> & Hp & Hle); [rewrite elem_of_app; by left|].
      exists p. split; [done|]. rewrite elem_of_filter, elem_of_dom. split; [|done]. apply key_before_time; [done|].
      rewrite Forall_forall in Hl1. by apply (Hl1 _ Hkv).
    + intros (p & -> & [Hb [e He]%elem_of_dom]%elem_of_filter). pose proof (proj2 HE p) as Hp. rewrite He in Hp.
      destruct Hp as (w & Hw & _). exists (triple_key p, w). split; [done|].
      assert (lex_le (arr_bytes a) (triple_key p) = true) as Hle.
      { apply key_has_prefix_le. rewrite triple_key_prefix. destruct Hb as [<- _]. by apply bool_decide_eq_true. }
      assert ((triple_key p, w) ∈ l1 ++ l2) as [?|Hkv]%elem_of_app by (by apply Hin); [done|]. by destruct (Hlate _ _ p Hkv eq_refl Hle).
Qed.
Lemma keys_before_count a t v ks : NoDup ks -> (forall k, k ∈ ks <-> exists p, k = triple_key p /\ p ∈ events_before a t v) ->
  length ks = size (events_before a t v).
Proof.
  intros Hnd Hin. unfold size, set_size. cbn. rewrite <-(length_fmap triple_key). apply Permutation_length, NoDup_Permutation; [done| |].
  - apply NoDup_fmap; [apply _|apply NoDup_elements].
  - intros k. rewrite Hin, list_elem_of_fmap. by setoid_rewrite elem_of_elements.
Qed.
Lemma delete_ops_of a p : delete_ops a (triple_key p) =
  [BatchDelete cf_MEMORY_EVENTS (triple_key p); BatchDelete cf_MEMORY_EVENT_INDEX (pair_key (a, p.2))].
Proof.
  destruct p as [[b s] i]. unfold delete_ops, triple_key. cbn [fst snd]. rewrite !length_app, !arr_length. cbn.
  rewrite app_assoc, drop_app_length' by by rewrite length_app, !arr_length. by rewrite take_ge by by rewrite arr_length.
Qed.
Lemma before_batch a t v ks : (forall k, k ∈ ks <-> exists p, k = triple_key p /\ p ∈ events_before a t v) ->
  Forall (fun op => exists cf' k', op = BatchDelete cf' k') (ks ≫= delete_ops a)
  /\ forall cf k, BatchDelete cf k ∈ (ks ≫= delete_ops a) <-> exists p, p ∈ events_before a t v
    /\ (cf = cf_MEMORY_EVENTS /\ k = triple_key p \/ cf = cf_MEMORY_EVENT_INDEX /\ k = pair_key (a, p.2)).
Proof.
  intros Hin. split.
  - apply Forall_forall. intros op (k & Hop & (p & -> & _)%Hin)%list_elem_of_bind. rewrite delete_ops_of in Hop.
    apply elem_of_cons in Hop as [->| ->%list_elem_of_singleton]; by eexists _, _.
  - intros cf k. rewrite list_elem_of_bind. split.
    + intros (k' & Hop & (p & -> & Hp)%Hin). exists p. split; [done|]. rewrite delete_ops_of in Hop.
      apply elem_of_cons in Hop as [[= -> ->]|[= -> ->]%list_elem_of_singleton]; [by left|by right].
    + intros (p & Hp & Hk'). exists (triple_key p). rewrite delete_ops_of. split; [|by apply Hin; exists p].
      rewrite elem_of_cons, list_elem_of_singleton. destruct Hk' as [[-> ->]|[-> ->]]; [by left|by right].
Qed.
Lemma delete_events_before_impl st v a t r st' : store_rep st v -> MemoryStore_delete_events_before a t st = (r, st') ->
  match r with
  | Ok n => n = size (events_before a t v) /\ store_rep st' (v_delete_events_before a t v)
  | Err _ => store_rep st' v
  end.
Proof.
  intros Hrep Hd. unfold MemoryStore_delete_events_before in Hd.
  do 2 (apply stm_reads_bind in Hd as [(? & _ & -> & ->)|(_ & _ & Hd)]; [done|]).
  apply stm_reads_bind in Hd as [(? & _ & -> & ->)|(ks & Hk & Hd)]; [done|].
  destruct (keys_before_all _ _ _ _ _ Hrep Hk) as [Hnd Hin].
  apply stm_bind_inv in Hd as [(e & Hw & ->)|([] & st1 & Hw & [= <- <-])].
  { destruct ks; [done|]. apply mem_write_ok in Hw as [Hc Hv]. by eapply store_rep_same. }
  split; [by apply keys_before_count|].
  assert (rs_cipher st1 = rs_cipher st /\ view st1 = apply_batch (view st) (ks ≫= delete_ops a)) as [Hc Hv].
  { destruct ks; [by injection Hw as <-|by apply mem_write_ok in Hw]. }
  destruct (before_batch a t v ks Hin) as [Hops Hof].
  destruct Hrep as (HF & HE & HI & HP & HC & (W1 & W2 & W3)). unfold store_rep. rewrite Hc, Hv. cbn.
  assert (forall c k, c <> cf_MEMORY_EVENTS -> c <> cf_MEMORY_EVENT_INDEX -> apply_batch (view st) (ks ≫= delete_ops a) !! (c, k) = view st !! (c, k)) as Hother.
  { intros c k ? ?. rewrite deletes_lookup by done. rewrite bool_decide_eq_false_2; [done|]. rewrite Hof. naive_solver. }
  split_and!; try (eapply table_rep_same; [intros k; by apply Hother|done]).
  - eapply table_rep_deletes; [done..|]. intros p. apply option_eq. intros e. rewrite map_lookup_filter_Some. cbn. case_bool_decide as Hb.
    + apply Hof in Hb as (q & Hq & [[_ ->%(inj triple_key)]|[[=] _]]). naive_solver.
    + split; [naive_solver|]. intros He. split; [done|]. intros Hp. apply Hb, Hof. exists p. split; [done|]. by left.
  - eapply table_rep_deletes; [done..|]. intros [b i]. apply option_eq. intros e. rewrite map_lookup_filter_Some. cbn. rewrite elem_of_map.
    case_bool_decide as Hb.
    + apply Hof in Hb as (q & Hq & [[[=] _]|[_ [= -> ->]%(inj pair_key)]]). split; [|done]. intros [_ Hn]. destruct Hn. exists q. split; [|done].
      apply elem_of_filter in Hq as [[<- _] _]. done.
    + split; [naive_solver|]. intros He. split; [done|]. intros (q & [= -> ->] & Hq). apply Hb, Hof. exists q. split; [done|]. right. split; [done|].
      apply elem_of_filter in Hq as [[<- _] _]. done.
  - split_and!; cbn; [done| |done]. intros b s i e [He _]%map_lookup_filter_Some. by apply W2.
Qed.
Lemma list_events_impl st v a n l : has_end a -> store_rep st v -> MemoryStore_list_events st a n = Ok l ->
  exists all, events_of v a all /\ l = take (Nat.max 1 n) all.
Proof.
  intros Hb Hrep (_ & _ & Hl)%result_bind_Ok. destruct (rep_view_wf _ _ Hrep) as (_ & W & _). destruct Hrep as (_ & HE & _).
  destruct (db_iterator_ok (rs_db st) cf_MEMORY_EVENTS (agent_prefix_end a) Reverse) as (its & Hr & Hag).
  destruct (split_while (fun kv => key_has_prefix (arr_bytes a) kv.1) its) as (l1 & l2 & -> & Hl1 & Hl2).
  assert (forall k w, view st !! (cf_MEMORY_EVENTS, k) = Some w -> 32 < length k) as Hlong.
  { intros k w [[[b s] i] ->]%(proj1 HE). unfold triple_key. rewrite !length_app, !arr_length. lia. }
  destruct (range_of_agent_down _ _ _ _ _ Hb Hlong Hr Hl1 Hl2) as [Hs Hin].
  assert (exists ys, Forall2 (fun kv x => mem_decode (rs_cipher st) kv.2 = Ok (x : AgentEvent)) l1 ys) as [ys HF].
  { apply Forall2_exists_r_aux. intros [k w] [Hm _]%Hin. destruct (proj1 HE _ _ Hm) as [i ->]. pose proof (proj2 HE i) as Hi.
    destruct (mv_events v !! i) as [x|]; [|congruence]. destruct Hi as (w' & Hw' & Hx). exists x. cbn. congruence. }
  exists ys. split; [|by eapply newest_events_ok].
  destruct (rows_records _ triple_key _ (fun e => triple_key (ev_agent_id e, stamp (ev_timestamp e), ev_event_id e))
    (key_has_prefix (arr_bytes a)) (fun k k' => lex_lt k' k = true) _ _ _ _ HE
    ltac:(intros [[b s] i] e Hx; by destruct (W _ _ _ _ Hx) as (-> & -> & ->)) Hs Hin HF) as [Ho Hx].
  assert (forall e, e ∈ ys <-> exists s i, mv_events v !! (a, s, i) = Some e) as Hys.
  { intros e. rewrite Hx. split.
    - intros ([[b s] i] & Hi & Hp). rewrite triple_key_prefix in Hp. apply bool_decide_eq_true in Hp. cbn in Hp. subst b. by exists s, i.
    - intros (s & i & Hi). exists (a, s, i). by rewrite triple_key_prefix, bool_decide_eq_true_2. }
  split; [|done]. assert (forall e, e ∈ ys -> ev_agent_id e = a) as Ha by (by intros e (s & i & He)%Hys; destruct (W _ _ _ _ He)).
  clear -Ho Ha. induction Ho as [|f l Hs IH Hall]; [constructor|]. constructor; [apply IH; intros; apply Ha; by right|].
  rewrite Forall_forall in *. intros g Hg. specialize (Hall g Hg). unfold triple_key in Hall. cbn in Hall.
  rewrite !Ha, lex_lt_app_l in Hall by (by left || by right). done.
Qed.

(** ** Everything of an agent *)
Lemma agent_keys_ok cf (st : RocksStore DB) a ks : has_end a -> (forall k w, view st !! (cf, k) = Some w -> 32 <= length k) ->
  agent_keys st cf a = Ok ks -> forall k, k ∈ ks <-> is_Some (view st !! (cf, k)) /\ key_has_prefix (arr_bytes a) k = true.
Proof.
  intros Hb Hlong Hk. destruct (db_iterator_ok (rs_db st) cf (agent_prefix a) Forward) as (l & Hr & Hag).
  destruct (keys_until_ok _ _ _ _ Hag Hk) as (l1 & l2 & -> & Hl1 & Hl2 & ->).
  destruct (range_of_agent _ _ _ _ _ Hb Hlong Hr Hl1 Hl2) as [_ Hin]. intros k. rewrite list_elem_of_fmap. split.
  - intros ([k' w] & -> & [Hm Hp]%Hin). cbn. by rewrite Hm.
  - intros [[w Hm] Hp]. exists (k, w). split; [done|]. by apply Hin.
Qed.
Lemma table_rep_delete_range {K A} `{Countable K} (dec : bytes -> result MemoryError A) (kf : K -> bytes) (agent : K -> AgentId)
    (cf : string) (st : RocksStore DB) (a : AgentId) (t : gmap K A) ks (ops : WriteBatch) :
  (forall p, 32 <= length (kf p)) -> (forall p, key_has_prefix (arr_bytes a) (kf p) = bool_decide (agent p = a)) ->
  has_end a -> agent_keys st cf a = Ok ks -> table_rep dec kf cf (view st) t ->
  Forall (fun op => exists cf' k', op = BatchDelete cf' k') ops -> (forall k, BatchDelete cf k ∈ ops <-> k ∈ ks) ->
  table_rep dec kf cf (apply_batch (view st) ops) (filter (fun p => agent p.1 <> a) t).
Proof.
  intros Hlong Hpre Hb Hk Hrep Hops Hcf. eapply table_rep_deletes; [done..|]. intros i.
  pose proof (agent_keys_ok _ _ _ _ Hb (table_keys_long _ _ _ _ _ Hlong Hrep) Hk (kf i)) as Hki. rewrite <-Hcf in Hki.
  rewrite Hpre, bool_decide_eq_true in Hki. pose proof (proj2 Hrep i) as Hi. apply option_eq. intros x.
  rewrite map_lookup_filter_Some. cbn. case_bool_decide as Hd.
  - split; [|done]. intros [Hx Hne]. by destruct (proj1 Hki Hd) as [_ ?].
  - split; [by intros [? _]|]. intros Hx. rewrite Hx in Hi. split; [done|]. intros Ha. apply Hd, Hki.
    destruct Hi as (w & -> & _). by split; [eexists|].
Qed.
Lemma elem_of_deletes (cf cf' : string) (k : bytes) (ks : list bytes) : BatchDelete cf k ∈ BatchDelete cf' <$> ks <-> cf = cf' /\ k ∈ ks.
Proof. rewrite list_elem_of_fmap. split; [by intros (k' & [= -> ->] & ?)|]. intros [-> ?]. by exists k. Qed.
(** The agent without an end: no key of it is reached. *)
Lemma no_end_keys cf (st : RocksStore DB) a ks : ~ has_end a -> agent_keys st cf a = Ok ks -> ks = [].
Proof.
  intros Hn Hk. destruct (db_iterator_ok (rs_db st) cf (agent_prefix a) Forward) as (l & Hr & Hag).
  destruct (keys_until_ok _ _ _ _ Hag Hk) as (l1 & l2 & -> & Hl1 & _ & ->). destruct l1 as [|[k w] l1]; [done|].
  destruct (proj1 (proj2 Hr k w)) as [_ Hc]; [by left|]. apply (no_end_above a k Hn), lex_lt_asym in Hc. inversion Hl1 as [|?? E]. cbn in E. unfold lex_le in E. by rewrite Hc in E.
Qed.
Lemma no_end_records {A} `{Serde A} cf (st : RocksStore DB) a (l : list A) : ~ has_end a -> list_records st cf (agent_prefix a) a = Ok l -> l = [].
Proof.
  intros Hn (_ & _ & Hs)%result_bind_Ok. destruct (db_iterator_ok (rs_db st) cf (agent_prefix a) Forward) as (its & Hr & Hag).
  destruct (scan_until_ok _ _ _ _ _ Hag Hs) as (l1 & l2 & -> & Hl1 & _ & HF). destruct HF as [|[k w] x l1 xs]; [done|].
  destruct (proj1 (proj2 Hr k w)) as [_ Hc]; [by left|]. apply (no_end_above a k Hn), lex_lt_asym in Hc. inversion Hl1 as [|?? E]. cbn in E. unfold lex_le in E. by rewrite Hc in E.
Qed.
Lemma no_end_events (st : RocksStore DB) a n l : ~ has_end a -> MemoryStore_list_events st a n = Ok l -> l = [].
Proof.
  intros Hn (_ & _ & Hl)%result_bind_Ok. destruct (db_iterator_ok (rs_db st) cf_MEMORY_EVENTS (agent_prefix_end a) Reverse) as (its & Hr & Hag).
  destruct (iter_agrees_inv _ _ Hag) as [[E _]|[(e & rest & E)|([k w] & items & l' & E & -> & _)]];
    rewrite E in Hl; cbn in Hl; [by injection Hl as <-|done|].
  destruct (proj1 (proj2 Hr k w)) as [_ Hc]; [by left|]. cbn in Hc.
  destruct (key_of_agent (agent_prefix a) k) eqn:Hk; [|by injection Hl as <-].
  apply key_has_prefix_le, (no_end_above a k Hn) in Hk. unfold lex_le in Hc. by rewrite Hk in Hc.
Qed.
Lemma delete_all_reached st v a r st' : has_end a -> store_rep st v -> MemoryStore_delete_all a st = (r, st') ->
  store_rep st' (done_or_not r v (v_delete_all a v)).
Proof.
  intros Hb Hrep Hd. unfold v_delete_all. rewrite (Hb : (increment_rev _).2 = true). cbn [negb]. unfold MemoryStore_delete_all in Hd. apply stm_reads_bind in Hd as [(er & _ & -> & ->)|(ops & Ho & Hw)]; [done|].
  apply mem_write_ok in Hw as [Hc Hv]. destruct r as [[]|]; cbn in *; [|by eapply store_rep_same].
  do 4 (apply result_bind_Ok in Ho as (_ & _ & Ho)).
  unfold batch_delete_range in Ho.
  apply result_bind_Ok in Ho as (? & (kf & Hkf & [= <-])%result_bind_Ok & Ho). apply result_bind_Ok in Ho as (? & (ke & Hke & [= <-])%result_bind_Ok & Ho).
  apply result_bind_Ok in Ho as (? & (kp & Hkp & [= <-])%result_bind_Ok & Ho). apply result_bind_Ok in Ho as (? & (ki & Hki & [= <-])%result_bind_Ok & [= <-]).
  destruct Hrep as (HF & HE & HI & HP & HC & (W1 & W2 & W3)).
  assert (Forall (fun op => exists cf' k', op = BatchDelete cf' k') ((BatchDelete cf_MEMORY_FACTS <$> kf) ++ (BatchDelete cf_MEMORY_EVENTS <$> ke)
    ++ (BatchDelete cf_MEMORY_PROCEDURES <$> kp) ++ (BatchDelete cf_MEMORY_EVENT_INDEX <$> ki))) as Hops.
  { rewrite !Forall_app, !Forall_fmap. split_and!; apply Forall_true; intros k; cbn; by eexists _, _. }
  unfold store_rep. rewrite Hc, Hv. cbn. split_and!.
  - eapply (table_rep_delete_range _ pair_key fst); [exact pair_key_long|by intros; rewrite pair_key_prefix|done..|].
    intros k. rewrite !elem_of_app, !elem_of_deletes. naive_solver.
  - eapply (table_rep_delete_range _ triple_key (fun p => p.1.1)); [exact triple_key_long|by intros; rewrite triple_key_prefix|done..|].
    intros k. rewrite !elem_of_app, !elem_of_deletes. naive_solver.
  - eapply (table_rep_delete_range _ pair_key fst); [exact pair_key_long|by intros; rewrite pair_key_prefix|done..|].
    intros k. rewrite !elem_of_app, !elem_of_deletes. naive_solver.
  - eapply (table_rep_delete_range _ pair_key fst); [exact pair_key_long|by intros; rewrite pair_key_prefix|done..|].
    intros k. rewrite !elem_of_app, !elem_of_deletes. naive_solver.
  - eapply table_rep_same; [|exact HC]. intros k. rewrite deletes_lookup by done. rewrite bool_decide_eq_false_2; [done|].
    rewrite !elem_of_app, !elem_of_deletes. naive_solver.
  - split_and!; cbn.
    + intros b i f [Hf _]%map_lookup_filter_Some. by apply W1.
    + intros b s i e [He _]%map_lookup_filter_Some. by apply W2.
    + intros b i p [Hp _]%map_lookup_filter_Some. by apply W3.
Qed.

Lemma delete_all_impl st v a r st' : store_rep st v -> MemoryStore_delete_all a st = (r, st') ->
  store_rep st' (done_or_not r v (v_delete_all a v)).
Proof.
  intros Hrep Hd. destruct (decide (has_end a)) as [Hb|Hn]; [by eapply delete_all_reached|].
  assert (v_delete_all a v = v) as -> by (unfold v_delete_all; by rewrite (not_true_is_false _ Hn)).
  unfold MemoryStore_delete_all in Hd. apply stm_reads_bind in Hd as [(er & _ & -> & ->)|(ops & Ho & Hw)]; [done|].
  do 4 (apply result_bind_Ok in Ho as (_ & _ & Ho)). unfold batch_delete_range in Ho.
  do 4 (apply result_bind_Ok in Ho as (? & (? & ->%(no_end_keys _ _ _ _ Hn) & [= <-])%result_bind_Ok & Ho)). injection Ho as <-.
  apply mem_write_ok in Hw as [Hc Hv]. assert (done_or_not r v v = v) as -> by by destruct r.
  eapply store_rep_same; [done| |done]. rewrite Hv. by destruct (is_ok r).
Qed.

#[export] Instance memory_store_spec : MemoryStoreSpec (RocksStore DB) := {|
  mem_rep := store_rep;
  rep_wf := rep_view_wf;
  get_config_spec := get_config_impl;
  put_config_spec := put_config_impl;
  put_fact_spec := put_fact_impl;
  get_fact_spec := get_fact_impl;
  get_fact_by_key_spec := get_fact_by_key_impl;
  list_facts_spec := list_facts_impl;
  touch_fact_spec := touch_fact_impl;
  delete_fact_spec := delete_fact_impl;
  put_event_spec := put_event_impl;
  list_events_spec := list_events_impl;
  delete_event_direct_spec := delete_event_direct_impl;
  delete_event_spec := delete_event_impl;
  delete_events_before_spec := delete_events_before_impl;
  put_procedure_spec := put_procedure_impl;
  get_procedure_spec := get_procedure_impl;
  list_procedures_spec := list_procedures_impl;
  delete_procedure_spec := delete_procedure_impl;
  delete_all_spec := delete_all_impl;
|}.
(** An empty database is an empty memory. *)
Lemma empty_rep (st : RocksStore DB) : view st = ∅ -> store_rep st empty_view.
Proof.
  intros E. unfold store_rep. rewrite E. cbn.
  split_and!; try (split; [by intros k w; rewrite lookup_empty|intros i; by rewrite !lookup_empty]).
  split_and!; cbn; by intros * ?%lookup_empty_Some.
Qed.
End Implementation.

(** * Sequences of calls *)
Inductive MemCall :=
| Call_put_config (a : AgentId) (c : AgentContinuityConfig)
| Call_put_fact (f : Fact)
| Call_touch_fact (now : Z) (a : AgentId) (i : FactId)
| Call_delete_fact (a : AgentId) (i : FactId)
| Call_put_event (e : AgentEvent)
| Call_delete_event (a : AgentId) (i : AgentEventId)
| Call_delete_event_direct (a : AgentId) (t : Z) (i : AgentEventId)
| Call_delete_events_before (a : AgentId) (before : Z)
| Call_put_procedure (p : Procedure)
| Call_delete_procedure (a : AgentId) (i : ProcedureId)
| Call_delete_all (a : AgentId).
Definition run_call {S} `{MemoryStoreApi S} (c : MemCall) : stm S MemoryError unit :=
  match c with
  | Call_put_config a c => put_continuity_config a c
  | Call_put_fact f => put_fact f
  | Call_touch_fact now a i => touch_fact now a i
  | Call_delete_fact a i => delete_fact a i
  | Call_put_event e => put_event e
  | Call_delete_event a i => delete_event a i
  | Call_delete_event_direct a t i => delete_event_direct a t i
  | Call_delete_events_before a before => _ ← delete_events_before a before; mret tt
  | Call_put_procedure p => put_procedure p
  | Call_delete_procedure a i => delete_procedure a i
  | Call_delete_all a => delete_all a
  end.
Fixpoint run_calls {S} `{MemoryStoreApi S} (cs : list MemCall) (s : S) : list (result MemoryError unit) * S :=
  match cs with
  | [] => ([], s)
  | c :: cs => let '(r, s1) := run_call c s in let '(rs, s2) := run_calls cs s1 in (r :: rs, s2)
  end.

(** What a call that succeeded did, and what one that failed may have done. *)
Definition call_done (c : MemCall) (v v' : MemView) : Prop :=
  match c with
  | Call_put_config a c => v' = v_put_config a c v
  | Call_put_fact f => v' = v_put_fact f v
  | Call_touch_fact now a i => exists f, mv_facts v !! (a, i) = Some f /\ v' = v_put_fact (touched now f) v
  | Call_delete_fact a i => v' = v_delete_fact a i v
  | Call_put_event e => v' = v_put_event e v
  | Call_delete_event a i => exists s, mv_index v !! (a, i) = Some s /\ v' = v_delete_event a s i v
  | Call_delete_event_direct a t i => v' = v_delete_event a (stamp t) i v
  | Call_delete_events_before a before => v' = v_delete_events_before a before v
  | Call_put_procedure p => v' = v_put_procedure p v
  | Call_delete_procedure a i => v' = v_delete_procedure a i v
  | Call_delete_all a => v' = v_delete_all a v
  end.
(** A failed call changes nothing; one that writes an event and then its index may
    have done the first of the two. *)
Definition call_half_done (c : MemCall) (v v' : MemView) : Prop :=
  match c with
  | Call_put_event e => v' = v_put_event_row e v
  | Call_delete_event a i => exists s, mv_index v !! (a, i) = Some s /\ v' = v_delete_event_row a s i v
  | Call_delete_event_direct a t i => v' = v_delete_event_row a (stamp t) i v
  | _ => False
  end.
(** A call that reports a record as missing is right about it. *)
Definition call_missing (c : MemCall) (v : MemView) : Prop :=
  match c with
  | Call_touch_fact _ a i => mv_facts v !! (a, i) = None
  | Call_delete_event a i => mv_index v !! (a, i) = None
  | _ => True
  end.
Definition call_effect (c : MemCall) (r : result MemoryError unit) (v v' : MemView) : Prop :=
  match r with
  | Ok _ => call_done c v v'
  | Err e => v' = v /\ (is_not_found e = true -> call_missing c v) \/ is_not_found e = false /\ call_half_done c v v'
  end.
Inductive calls_effect : list MemCall -> list (result MemoryError unit) -> MemView -> MemView -> Prop :=
| calls_nil v : calls_effect [] [] v v
| calls_cons c r cs rs v v1 v2 : call_effect c r v v1 -> calls_effect cs rs v1 v2 -> calls_effect (c :: cs) (r :: rs) v v2.

(** What the reads of a store return: a listing that answers is the whole listing,
    and that of an agent without an end is empty. *)
Definition listed {X} (a : AgentId) (P : list X -> Prop) (r : result MemoryError (list X)) : Prop :=
  forall l, r = Ok l -> if decide (has_end a) then P l else l = [].
Definition reads_agree {S} `{MemoryStoreApi S} (s : S) (v : MemView) : Prop :=
  (forall a i, found_agrees (mv_facts v !! (a, i)) (get_fact s a i))
  /\ (forall a i, found_agrees (mv_procedures v !! (a, i)) (get_procedure s a i))
  /\ (forall a, listed a (facts_of v a) (list_facts s a))
  /\ (forall a, listed a (procedures_of v a) (list_procedures s a))
  /\ (forall a n, listed a (fun l => exists all, events_of v a all /\ l = take (Nat.max 1 n) all) (list_events s a n))
  /\ (forall a c, get_continuity_config s a = Ok c -> c = default AgentContinuityConfig_default (mv_config v !! a)).

Section Calls.
Context {S : Type} `{MemoryStoreSpec S}.
(** A call whose failure leaves the store as it was. *)
Lemma kept_on_error c (s' : S) r v v' : (forall e, r = Err e -> is_not_found e = true -> call_missing c v) ->
  (is_ok r = true -> call_done c v v') -> mem_rep s' (if is_ok r then v' else v) -> exists v1, call_effect c r v v1 /\ mem_rep s' v1.
Proof. intros Hm Hd Hrep. destruct r as [[]|e]; [exists v'; split; [by apply Hd|done]|exists v; split; [left; eauto|done]]. Qed.
Lemma call_refines c (s s' : S) r v : mem_rep s v -> run_call c s = (r, s') ->
  exists v', call_effect c r v v' /\ mem_rep s' v'.
Proof.
  intros Hrep. destruct c; cbn [run_call]; intros Hr.
  1, 2, 4, 9, 10, 11: eapply kept_on_error; [done|intros _; reflexivity|];
    first [eapply put_config_spec in Hr|eapply put_fact_spec in Hr|eapply delete_fact_spec in Hr|eapply put_procedure_spec in Hr
      |eapply delete_procedure_spec in Hr|eapply delete_all_spec in Hr]; [|done]; by destruct r.
  - eapply touch_fact_spec in Hr; [|done]. destruct r as [[]|e].
    + destruct Hr as (f & Hf & Hr). eexists. split; [by exists f|done].
    + destruct Hr as [Hr Hm]. exists v. split; [by left|done].
  - eapply put_event_spec in Hr; [|done]. destruct r as [[]|er]; [by eexists|].
    destruct Hr as [Hr|[Hm Hr]]; eexists; (split; [|exact Hr]); [by left|by right].
  - eapply delete_event_spec in Hr; [|done]. destruct r as [[]|e]; [destruct Hr as (t & ? & ?); eexists; split; [by exists t|done]|].
    destruct Hr as [[Hr Hm]|(t & Ht & Hm & Hr)]; eexists; (split; [|exact Hr]); [by left|right; split; [done|by exists t]].
  - eapply delete_event_direct_spec in Hr; [|done]. destruct r as [[]|e]; [by eexists|].
    destruct Hr as [Hr|[Hm Hr]]; eexists; (split; [|exact Hr]); [by left|by right].
  - unfold mbind, stm_bind in Hr. destruct (delete_events_before a before s) as [r0 s1] eqn:E.
    eapply delete_events_before_spec in E; [|done]. destruct r0 as [n|e]; injection Hr as <- <-.
    + destruct E as [_ E]. by eexists.
    + exists v. split; [by left|done].
Qed.
Lemma calls_refine cs (s s' : S) rs v : mem_rep s v -> run_calls cs s = (rs, s') ->
  exists v', calls_effect cs rs v v' /\ mem_rep s' v'.
Proof.
  revert s rs v. induction cs as [|c cs IH]; intros s rs v Hrep Hr; cbn in Hr.
  { injection Hr as <- <-. exists v. split; [constructor|done]. }
  destruct (run_call c s) as [r s1] eqn:E. destruct (run_calls cs s1) as [rs' s2] eqn:E'. injection Hr as <- <-.
  destruct (call_refines _ _ _ _ _ Hrep E) as (v1 & Hv1 & Hrep1). destruct (IH _ _ _ Hrep1 E') as (v2 & Hv2 & Hrep2).
  exists v2. split; [by econstructor|done].
Qed.
End Calls.
Lemma rep_reads_agree {DB} `{RocksDBLaws DB} `{Aead} `{Hex} `{ChronoOk} `{SerdeCategory}
    `{SerdeOk Fact, SerdeOk AgentEvent, SerdeOk Procedure, SerdeOk AgentContinuityConfig} (st : RocksStore DB) v :
  store_rep st v -> reads_agree st v.
Proof.
  intros Hrep. split_and!; intros *; [by apply get_fact_impl|by apply get_procedure_impl|..|by apply get_config_impl].
  all: intros Hl; destruct (decide (has_end a)) as [Hb|Hn].
  - by eapply list_facts_impl.
  - by eapply no_end_records.
  - by eapply list_procedures_impl.
  - by eapply no_end_records.
  - by eapply list_events_impl.
  - by eapply no_end_events.
Qed.

(** C30: after any sequence of writing calls on an empty database, whichever of them
    fail, the reads of the memory store return what a store of plain maps returns
    after those calls: single records, an agent's facts and procedures in key order,
    its newest events, and its controls.  A failed call changes nothing, except that
    one that writes an event and its index may have written only the event; a record
    reported missing is missing.  The agent whose id has only bytes 0xFF is the
    exception: its listings are empty and deleting all of it deletes nothing. *)
Theorem memory_calls_refine {DB} `{RocksDBLaws DB} `{Aead} `{Hex} `{ChronoOk} `{SerdeCategory}
    `{SerdeOk Fact, SerdeOk AgentEvent, SerdeOk Procedure, SerdeOk AgentContinuityConfig}
    cs rs (st st' : RocksStore DB)
    (Hempty : db_view (rs_db st) = ∅) (Hrun : run_calls cs st = (rs, st')) :
  exists v, calls_effect cs rs empty_view v /\ reads_agree st' v.
Proof.
  assert (mem_rep st empty_view) as Hrep0 by exact (empty_rep st Hempty).
  destruct (calls_refine _ _ _ _ _ Hrep0 Hrun) as (v & Hv & Hrep).
  exists v. split; [done|by apply rep_reads_agree].
Qed.

(** * Examples *)
Module MemoryStoreExample.
Definition agent : AgentId := arr_fill 32 "001"%byte.
Definition id (b : byte) : arr 16 := arr_fill 16 b.
Definition fact_of (a : AgentId) (i : byte) : Fact := {|
  fa_fact_id := id i; fa_agent_id := a; fa_key := "language"; fa_value := JString "Rust"; fa_confidence := SpecFloat.S754_zero false;
  fa_source := FactSource_Extracted; fa_importance := SpecFloat.S754_zero false; fa_access_count := 0; fa_last_accessed := 0;
  fa_created_at := 0; fa_updated_at := 0; fa_continuity := MemoryContinuity_default |}.
Definition event_at (i : byte) (t : Z) : AgentEvent := {|
  ev_event_id := id i; ev_agent_id := agent; ev_event_type := "run"; ev_summary := "done"; ev_metadata := JNull;
  ev_importance := SpecFloat.S754_zero false; ev_access_count := 0; ev_last_accessed := 0; ev_timestamp := t;
  ev_continuity := MemoryContinuity_default |}.
#[local] Instance float_eq_dec : EqDecision SpecFloat.spec_float. Proof. solve_decision. Defined.
#[local] Instance provenance_eq_dec : EqDecision MemoryProvenance. Proof. solve_decision. Defined.
#[local] Instance continuity_eq_dec : EqDecision MemoryContinuity. Proof. solve_decision. Defined.
#[local] Instance source_eq_dec : EqDecision FactSource. Proof. solve_decision. Defined.
#[local] Instance fact_eq_dec : EqDecision Fact. Proof. solve_decision. Defined.
#[local] Instance event_eq_dec : EqDecision AgentEvent. Proof. solve_decision. Defined.
#[local] Instance procedure_eq_dec : EqDecision Procedure. Proof. solve_decision. Defined.
#[local] Instance config_eq_dec : EqDecision AgentContinuityConfig. Proof. solve_decision. Defined.
(** The id of all ones has no keys after it. *)
Definition last_agent : AgentId := arr_fill 32 "255"%byte.
Definition ms (n : Z) : Z := (n * 1000000)%Z.
#[local] Instance fact_serde : Serde Fact := table_serde [fact_of agent "002"; fact_of agent "003"; fact_of last_agent "002"].
#[local] Instance fact_serde_ok : SerdeOk Fact := table_serde_ok _.
#[local] Instance event_serde : Serde AgentEvent :=
  table_serde [event_at "002" (ms 5); event_at "003" (ms 7); event_at "004" (ms (-1)); event_at "002" (ms 9)].
#[local] Instance event_serde_ok : SerdeOk AgentEvent := table_serde_ok _.
#[local] Instance procedure_serde : Serde Procedure := table_serde [].
#[local] Instance procedure_serde_ok : SerdeOk Procedure := table_serde_ok _.
#[local] Instance config_serde : Serde AgentContinuityConfig := table_serde [AgentContinuityConfig_default].
#[local] Instance config_serde_ok : SerdeOk AgentContinuityConfig := table_serde_ok _.
#[local] Existing Instance toy_aead.
#[local] Existing Instance lower_hex.
#[local] Instance millis : Chrono := {| format_date := fun _ => "1970-01-01"; from_timestamp_millis := fun m => Some (ms m) |}.
#[local] Instance millis_ok : ChronoOk.
Proof. intros m t [= <-]. unfold timestamp_millis, ms. by rewrite Z.div_mul. Qed.
#[local] Instance syntax_errors : SerdeCategory := fun _ => false.
Definition store0 : RocksStore MemDB := MkRocksStore {| mem_content := ∅ |} None (fun _ => arr_fill 12 "002"%byte).
Definition after (cs : list MemCall) : RocksStore MemDB := (run_calls cs store0).2.

Definition three_calls : list MemCall :=
  [Call_put_fact (fact_of agent "003"); Call_put_fact (fact_of agent "002"); Call_delete_fact agent (id "003")].
Lemma memory_calls_refine_witness :
  run_calls three_calls store0 = ([Ok tt; Ok tt; Ok tt], after three_calls)
  /\ list_facts (after three_calls) agent = Ok [fact_of agent "002"]
  /\ exists v, calls_effect three_calls [Ok tt; Ok tt; Ok tt] empty_view v /\ reads_agree (after three_calls) v.
Proof.
  assert (run_calls three_calls store0 = ([Ok tt; Ok tt; Ok tt], after three_calls)) as E
    by (apply SideStoreExample.pair_of_fst; vm_compute; reflexivity).
  split; [exact E|]. split; [vm_compute; reflexivity|].
  apply (memory_calls_refine three_calls _ store0 _); [reflexivity|exact E].
Defined.

(** The end of the keys of the last agent is its id with all bytes zero, which is
    below its own keys: what it keeps is not listed, and not deleted with it. *)
Example last_agent_end_too_low : lex_lt (agent_prefix_end last_agent) (agent_prefix last_agent) = true.
Proof. vm_compute. reflexivity. Qed.
Example last_agent_lists_nothing :
  let st := after [Call_put_fact (fact_of last_agent "002"); Call_delete_all last_agent] in
  (list_facts st last_agent, get_fact st last_agent (id "002")) = (Ok [], Ok (fact_of last_agent "002")).
Proof. vm_compute. reflexivity. Qed.
(** A limit of zero events gives one. *)
Example limit_zero_gives_one :
  list_events (after [Call_put_event (event_at "002" (ms 5)); Call_put_event (event_at "003" (ms 7))]) agent 0
  = Ok [event_at "003" (ms 7)].
Proof. vm_compute. reflexivity. Qed.
(** An event from before 1970 counts as the newest. *)
Example before_1970_is_newest :
  list_events (after [Call_put_event (event_at "003" (ms 7)); Call_put_event (event_at "004" (ms (-1)))]) agent 2
  = Ok [event_at "004" (ms (-1)); event_at "003" (ms 7)].
Proof. vm_compute. reflexivity. Qed.
(** An event put again at another time is kept twice, and deleting it leaves the
    first copy. *)
Example moved_event_kept_twice :
  let cs := [Call_put_event (event_at "002" (ms 5)); Call_put_event (event_at "002" (ms 9)); Call_delete_event agent (id "002")] in
  ((run_calls cs store0).1, list_events (after cs) agent 5) = ([Ok tt; Ok tt; Ok tt], Ok [event_at "002" (ms 5)]).
Proof. vm_compute. reflexivity. Qed.
End MemoryStoreExample.
