(* ===== verification/MemoryWrite.v ===== *)
(** How a finished turn becomes memories ([aura-context-memory/src/{turn_summary,
    extraction,refinement,write_pipeline}.rs]): candidates found in the text, the
    model's refinement of them, the checks, and the writes.

    The state [MemSys] is the store behind the trait, the readings of the clocks
    and the identifiers still to come, the model's answers, and the manager's last
    traces.  A panic is the failure [Panicked].  The texts of the prompts are
    parameters ([Prompts]), as are the two tables of Unicode ([Unicode]). *)
From S2P Require Import Prelude Values CoreTypes Exec Utf8 Text ModelRequest MemoryTypes MemoryStore.
From stdpp Require Import list.
From Stdlib Require Import Ascii Strings.Byte SpecFloat.

(** * The system the calls run in *)
Inductive Failure := Panicked | MemErr (e : MemoryError).
Record MemSys (S : Type) := {
  sy_store : S;
  sy_clock : nat -> Z;
  sy_ids : nat -> arr 16;
  sy_model : nat -> ModelRequestData -> result string Message;
  sy_traces : gmap AgentId MemoryRetrievalTrace;
}.
Arguments sy_store {S} _.
Arguments sy_clock {S} _.
Arguments sy_ids {S} _.
Arguments sy_model {S} _.
Arguments sy_traces {S} _.
Definition with_store {S} (y : MemSys S) (s : S) : MemSys S := {|
  sy_store := s; sy_clock := sy_clock y; sy_ids := sy_ids y; sy_model := sy_model y; sy_traces := sy_traces y |}.

Section System.
Context {S : Type}.
Abbreviation MS := (stm (MemSys S) Failure).
(** [Utc::now()], [FactId::generate()], [provider.complete(request)]. *)
Definition now_ : MS Z := fun y =>
  (Ok (sy_clock y 0), {| sy_store := sy_store y; sy_clock := fun n => sy_clock y (Datatypes.S n); sy_ids := sy_ids y;
                         sy_model := sy_model y; sy_traces := sy_traces y |}).
Definition generate : MS (arr 16) := fun y =>
  (Ok (sy_ids y 0), {| sy_store := sy_store y; sy_clock := sy_clock y; sy_ids := fun n => sy_ids y (Datatypes.S n);
                       sy_model := sy_model y; sy_traces := sy_traces y |}).
Definition complete (request : ModelRequestData) : MS Message := fun y =>
  (map_err (fun e => MemErr (MemoryError_Provider e)) (sy_model y 0 request),
   {| sy_store := sy_store y; sy_clock := sy_clock y; sy_ids := sy_ids y;
      sy_model := fun n => sy_model y (Datatypes.S n); sy_traces := sy_traces y |}).
Definition on_store {A} (m : stm S MemoryError A) : MS A := fun y =>
  let '(r, s) := m (sy_store y) in (map_err MemErr r, with_store y s).
Definition from_store {A} (f : S -> result MemoryError A) : MS A := fun y => (map_err MemErr (f (sy_store y)), y).
Fixpoint for_each {A} (f : A -> MS unit) (l : list A) : MS unit :=
  match l with [] => mret tt | x :: r => _ ← f x; for_each f r end.
End System.

(** * Text *)
(** [char::is_alphanumeric] on the bytes of a character, [str::to_lowercase]. *)
Class Unicode := { is_alphanumeric : bytes -> bool; to_lowercase : string -> string }.
(** [s.find(p)]: where the first occurrence begins. *)
Definition str_find (p s : string) : option nat := (fun ab => String.length ab.1) <$> str_split_once p s.
(** What follows the first occurrence: [&s[s.find(p)? + p.len()..]]. *)
Definition after_first (p s : string) : option string := snd <$> str_split_once p s.
(** [&s[n..]], which panics off the end and inside a character. *)
Definition slice_from (n : nat) (s : string) : option string :=
  if (n <=? String.length s) && negb (match str_drop n s with String c _ => is_cont (byte_of_ascii c) | EmptyString => false end)
  then Some (str_drop n s) else None.
Fixpoint str_take_while (P : ascii -> bool) (s : string) : string :=
  match s with String c r => if P c then String c (str_take_while P r) else EmptyString | EmptyString => EmptyString end.
Fixpoint str_drop_while (P : ascii -> bool) (s : string) : string :=
  match s with String c r => if P c then str_drop_while P r else s | EmptyString => EmptyString end.
(** [s[..s.find(char::is_whitespace).unwrap_or(s.len())]]. *)
Fixpoint until_space (l : list Z) : list Z :=
  match l with [] => [] | b :: r => match ws_len l with O => b :: until_space r | _ => [] end end.
Definition first_word (s : string) : string := of_Zs (until_space (text_bytes s)).
(** [s.split_whitespace()]. *)
Fixpoint words_from (fuel : nat) (l : list Z) : list (list Z) :=
  match fuel with
  | O => []
  | Datatypes.S fuel =>
      match trim_start_from (length l) l with
      | [] => []
      | rest => let w := until_space rest in w :: words_from fuel (drop (length w) rest)
      end
  end.
Definition split_whitespace (s : string) : list string :=
  of_Zs <$> words_from (Datatypes.S (length (text_bytes s))) (text_bytes s).
Example split_words : split_whitespace "  a  bc d " = ["a"; "bc"; "d"].
Proof. reflexivity. Qed.
Definition is_dquote (c : ascii) : bool := bool_decide (c = ascii_of_nat 34).
Definition is_squote (c : ascii) : bool := bool_decide (c = "'"%char).
(** [s.trim_matches] of both kinds of quotes. *)
Definition trim_quotes (s : string) : string :=
  trim_end_matches (fun c => is_dquote c || is_squote c) (str_drop_while (fun c => is_dquote c || is_squote c) s).
Definition is_digit_char (c : ascii) : bool := is_digit (byte_to_Z (byte_of_ascii c)).
Definition is_dot (c : ascii) : bool := bool_decide (c = "."%char).
(** [parse::<f32>()] on a text of digits and dots. *)
Definition parse_f32 (s : string) : option spec_float :=
  let whole := str_take_while is_digit_char s in
  let rest := str_drop (String.length whole) s in
  frac ← (match rest with
          | EmptyString => Some EmptyString
          | String c r => if is_dot c && forallb is_digit (text_bytes r) then Some r else None
          end);
  digits ← parse_nonempty (text_bytes (whole +++ frac));
  Some (F32.of_decimal digits (String.length frac)).
Example parse_f32_cases :
  (parse_f32 "0.85", parse_f32 "5.", parse_f32 ".5", parse_f32 ".", parse_f32 "1.2.3", parse_f32 "")
  = (Some (f32_lit 85 100), Some (f32_lit 5 1), Some (f32_lit 1 2), None, None, None).
Proof. vm_compute. reflexivity. Qed.
(** [extract_quoted] and [extract_quoted_value]. *)
Definition extract_quoted (text prefix : string) : option string :=
  rest ← after_first prefix text;
  match rest with
  | String c stripped =>
      if is_dquote c then fst <$> split_once (ascii_of_nat 34) stripped else Some (first_word rest)
  | EmptyString => Some EmptyString
  end.
(** [extract_float] and [extract_float_value]. *)
Definition extract_float (text prefix : string) : option spec_float :=
  rest ← after_first prefix text; parse_f32 (str_take_while (fun c => is_digit_char c || is_dot c) rest).
Definition extract_unquoted (text prefix : string) : option string :=
  rest ← after_first prefix text; Some (trim_quotes (first_word rest)).
Definition extract_scope (text : string) : MemoryScope :=
  let word := to_ascii_lowercase (default "" (extract_unquoted text "scope=")) in
  if bool_decide (word ∈ ["user"; "personal"]) then MemoryScope_User
  else if bool_decide (word ∈ ["project"; "workspace"; "shared"]) then MemoryScope_Project
  else MemoryScope_Agent.

(** * Stage 1: candidates found in the text *)
Record TurnSummary := {
  tu_timed_out : bool;
  tu_stalled : bool;
  tu_llm_error : option string;
  tu_total_text : string;
  tu_total_input_tokens : Z;
  tu_total_output_tokens : Z;
  tu_iterations : Z;
  tu_messages : list Message;
}.
Record ConversationTurn := { ct_user_message : string; ct_assistant_text : string }.
Definition role_is (r : Role) (m : Message) : bool := bool_decide (msg_role m = r).
Fixpoint take_while {A} (P : A -> bool) (l : list A) : list A :=
  match l with x :: r => if P x then x :: take_while P r else [] | [] => [] end.
Definition from_messages (messages : list Message) (total_text : string) : option ConversationTurn :=
  assistant_text ← (if bool_decide (total_text = "") then
                      let text := String.concat "" (rev (text_content <$> take_while (role_is Role_Assistant) (rev messages))) in
                      if bool_decide (text = "") then None else Some text
                    else Some total_text);
  let user_message := default "" (text_content <$> List.find (role_is Role_User) (rev messages)) in
  if bool_decide (user_message = "") then None
  else Some {| ct_user_message := user_message; ct_assistant_text := assistant_text |}.

Definition patterns : list (string * string) := [
  ("the project uses ", "project_technology"); ("i'll use ", "tool_preference"); ("the test command is ", "test_command");
  ("the build command is ", "build_command"); ("preferred language", "preferred_language"); ("using framework", "framework");
  ("deploy strategy", "deploy_strategy")].
Definition ends_value (c : ascii) : bool := bool_decide (c = "."%char) || bool_decide (c = newline) || bool_decide (c = ","%char).
Definition fact_candidate (key value : string) : MemoryCandidate := {|
  ca_type := CandidateType_Fact; ca_key := Some key; ca_value := JString value; ca_summary := None;
  ca_source_hint := "agent_statement"; ca_confidence := f32_lit 7 10; ca_importance := f32_lit 5 10 |}.
Section Extraction.
Context `{Unicode}.
(** The place of the pattern in the lower-case text is used in the text itself. *)
Definition extract_pattern (text : string) (p : string * string) : option (list MemoryCandidate) :=
  match str_find p.1 (to_lowercase text) with
  | Some idx =>
      rest ← slice_from (idx + String.length p.1) text;
      let value_text := trim (str_take_while (fun c => negb (ends_value c)) rest) in
      Some (if negb (bool_decide (value_text = "")) && (String.length value_text <? 200)
            then [fact_candidate p.2 value_text] else [])
  | None => Some []
  end.
Definition extract_from_text (summary : TurnSummary) : option (list MemoryCandidate) :=
  if bool_decide (tu_total_text summary = "") then Some []
  else mjoin <$> mapM (extract_pattern (tu_total_text summary)) patterns.
Definition task_outcome (summary : TurnSummary) : string :=
  if tu_timed_out summary then "timed_out" else if tu_stalled summary then "stalled"
  else if bool_decide (is_Some (tu_llm_error summary)) then "llm_error" else "completed".
Definition extract_task_outcome (summary : TurnSummary) : list MemoryCandidate :=
  if (tu_iterations summary =? 0)%Z then [] else
  let outcome := task_outcome summary in
  [{| ca_type := CandidateType_Event; ca_key := None;
      ca_value := json_object [("outcome", JString outcome); ("iterations", JNumber (fmt_Z (tu_iterations summary)));
                               ("input_tokens", JNumber (fmt_Z (tu_total_input_tokens summary)));
                               ("output_tokens", JNumber (fmt_Z (tu_total_output_tokens summary)))];
      ca_summary := Some ("Task " +++ outcome +++ " after " +++ fmt_Z (tu_iterations summary) +++ " iterations ("
                          +++ fmt_Z (tu_total_input_tokens summary) +++ " input tokens, "
                          +++ fmt_Z (tu_total_output_tokens summary) +++ " output tokens)");
      ca_source_hint := "task_outcome"; ca_confidence := f32_lit 9 10; ca_importance := f32_lit 6 10 |}].
Definition extract (summary : TurnSummary) : option (list MemoryCandidate) :=
  facts ← extract_from_text summary; Some (take 15 (facts ++ extract_task_outcome summary)).
End Extraction.

(** * Stage 2: the model's refinement *)
Record RefinerConfig := { rf_model : string; rf_auth_token : option string }.
Record RefinementRequestContext := {
  rq_auth_token : option string;
  rq_aura_project_id : option string;
  rq_aura_agent_id : option string;
  rq_aura_session_id : option string;
  rq_aura_org_id : option string;
  rq_user_id : option string;
}.
Definition RefinementRequestContext_default : RefinementRequestContext := {|
  rq_auth_token := None; rq_aura_project_id := None; rq_aura_agent_id := None; rq_aura_session_id := None;
  rq_aura_org_id := None; rq_user_id := None |}.
(** The fixed texts of the prompts. *)
Class Prompts := {
  EXTRACTOR_SYSTEM_PROMPT : string; candidate_instructions : string; extraction_instructions : string;
  COMPRESS_SYSTEM_PROMPT : string; compress_instructions : string; EVOLVE_SYSTEM_PROMPT : string; evolve_instructions : string;
}.
Definition MAX_TURN_TEXT_LEN : nat := 3000.
(** The end moves back to the start of a character. *)
Fixpoint boundary_below (s : string) (n : nat) : nat :=
  match n with
  | O => O
  | Datatypes.S m => match str_drop n s with
                     | String c _ => if is_cont (byte_of_ascii c) then boundary_below s m else n
                     | EmptyString => n
                     end
  end.
Definition truncate_text (s : string) (max_len : nat) : string :=
  if String.length s <=? max_len then s else str_take (boundary_below s max_len) s +++ "...".
Definition CandidateType_label (t : CandidateType) : string :=
  match t with CandidateType_Fact => "fact" | CandidateType_Event => "event" | CandidateType_Procedure => "procedure" end.

Section Refinement.
Context `{Hhash : Blake3} `{Hhex : Hex} `{JsonText} `{Prompts} (display : spec_float -> string).
Definition candidate_line (i : nat) (c : MemoryCandidate) : string :=
  fmt_Z (Z.of_nat i + 1) +++ ". " +++ CandidateType_label (ca_type c) +++ ": key=" +++ default "(none)" (ca_key c) +++ ", value="
  +++ json_to_string (ca_value c) +++ ", source=" +++ ca_source_hint c +++ " " +++ default "" (ca_summary c) +++ nl.
Definition build_extraction_prompt (candidates : list MemoryCandidate) (turn : option ConversationTurn) (active_skills : list string)
  : string :=
  (match turn with
   | Some t => "## Conversation turn" +++ nl +++ nl +++ "User: " +++ truncate_text (ct_user_message t) MAX_TURN_TEXT_LEN +++ nl +++ nl
               +++ "Assistant: " +++ truncate_text (ct_assistant_text t) MAX_TURN_TEXT_LEN +++ nl +++ nl
   | None => ""
   end)
  +++ (match active_skills with
       | [] => ""
       | _ => "## Active skills" +++ nl +++ nl +++ String.concat "" ((fun s => "- " +++ s +++ nl) <$> active_skills) +++ nl
       end)
  +++ (match candidates with
       | [] => ""
       | _ => "## Pre-extracted candidates" +++ nl +++ nl +++ String.concat "" (imap candidate_line candidates) +++ nl
       end)
  +++ "## Instructions" +++ nl +++ nl
  +++ (match candidates with [] => "" | _ => candidate_instructions end)
  +++ extraction_instructions.
Definition build_request (config : RefinerConfig) (prompt : string) (rq : RefinementRequestContext) : result MemoryError ModelRequestData :=
  let b := ModelRequestBuilder_new (rf_model config) EXTRACTOR_SYSTEM_PROMPT in
  map_err (fun e => match e with RequestError_Internal m => MemoryError_Provider m end)
    (try_build display {|
       mb_model := mb_model b; mb_system := mb_system b; mb_messages := [Message_user prompt]; mb_tools := mb_tools b;
       mb_tool_choice := mb_tool_choice b; mb_max_tokens := 1024; mb_temperature := mb_temperature b; mb_thinking := mb_thinking b;
       mb_thinking_effort := mb_thinking_effort b; mb_parallel_tool_use := mb_parallel_tool_use b;
       mb_auth_token := match rq_auth_token rq with Some t => Some t | None => rf_auth_token config end;
       mb_upstream_provider_family := mb_upstream_provider_family b; mb_aura_project_id := rq_aura_project_id rq;
       mb_aura_agent_id := rq_aura_agent_id rq; mb_aura_session_id := rq_aura_session_id rq; mb_aura_org_id := rq_aura_org_id rq;
       mb_prompt_cache_key := mb_prompt_cache_key b; mb_prompt_cache_retention := mb_prompt_cache_retention b;
       mb_metadata := mb_metadata b |}).
Definition parse_fact_line (line : string) : option RefinedCandidate :=
  key ← extract_quoted line "key=";
  value ← extract_quoted line "value=";
  Some {| rc_type := CandidateType_Fact; rc_key := key; rc_value := JString value; rc_summary := None;
          rc_confidence := default (f32_lit 8 10) (extract_float line "confidence=");
          rc_importance := default (f32_lit 5 10) (extract_float line "importance=");
          rc_keep := true; rc_scope := extract_scope line; rc_trigger := None; rc_steps := None; rc_skill_name := None |}.
Definition parse_procedure_line (line : string) : option RefinedCandidate :=
  name ← extract_quoted line "name=";
  trigger ← extract_quoted line "trigger=";
  let skill := default "none" (extract_quoted line "skill=") in
  let steps := List.filter (fun s => negb (bool_decide (s = ""))) (trim <$> split_on ";" (default "" (extract_quoted line "steps="))) in
  Some {| rc_type := CandidateType_Procedure; rc_key := name;
          rc_value := json_object [("trigger", JString trigger); ("steps", JArray (JString <$> steps))];
          rc_summary := Some trigger;
          rc_confidence := default (f32_lit 8 10) (extract_float line "confidence=");
          rc_importance := default (f32_lit 7 10) (extract_float line "importance=");
          rc_keep := true; rc_scope := extract_scope line; rc_trigger := Some trigger; rc_steps := Some steps;
          rc_skill_name := if eq_ignore_ascii_case skill "none" || bool_decide (skill = "") then None else Some skill |}.
Definition kept_candidate (c : MemoryCandidate) (key : string) (confidence importance : spec_float) (keep : bool) (scope : MemoryScope)
  : RefinedCandidate := {|
  rc_type := ca_type c; rc_key := key; rc_value := ca_value c; rc_summary := ca_summary c; rc_confidence := confidence;
  rc_importance := importance; rc_keep := keep; rc_scope := scope; rc_trigger := None; rc_steps := None; rc_skill_name := None |}.
(** [N. KEEP|DROP ..]. *)
Definition parse_numbered_line (candidates : list MemoryCandidate) (line : string) : option (nat * RefinedCandidate) :=
  parts ← str_split_once ". " line;
  n ← parse_usize (trim parts.1);
  if (1 <=? n)%Z && (n <=? Z.of_nat (length candidates))%Z then
    let idx := Z.to_nat (n - 1) in
    let rest := parts.2 in
    c ← candidates !! idx;
    Some (idx, kept_candidate c (default (default "" (ca_key c)) (extract_quoted rest "key="))
                 (default (ca_confidence c) (extract_float rest "confidence="))
                 (default (ca_importance c) (extract_float rest "importance="))
                 (starts_with "KEEP" rest) (extract_scope rest))
  else None.
Inductive ParsedLine := Line_new (c : RefinedCandidate) | Line_numbered (idx : nat) (c : RefinedCandidate) | Line_nothing.
Definition parse_line (candidates : list MemoryCandidate) (raw : string) : ParsedLine :=
  let line := trim raw in
  if bool_decide (line = "") then Line_nothing else
  match (if starts_with "PROCEDURE " line then parse_procedure_line line else None) with
  | Some c => Line_new c
  | None =>
      match (if starts_with "FACT " line then parse_fact_line line else None) with
      | Some c => Line_new c
      | None => match parse_numbered_line candidates line with Some (idx, c) => Line_numbered idx c | None => Line_nothing end
      end
  end.
Definition line_candidates (p : ParsedLine) : list RefinedCandidate :=
  match p with Line_new c | Line_numbered _ c => [c] | Line_nothing => [] end.
Definition line_index (p : ParsedLine) : list nat := match p with Line_numbered idx _ => [idx] | _ => [] end.
Definition parse_response (response : string) (candidates : list MemoryCandidate) : list RefinedCandidate :=
  let parsed := parse_line candidates <$> lines response in
  let seen := parsed ≫= line_index in
  (parsed ≫= line_candidates)
  ++ mjoin (imap (fun i c => if bool_decide (i ∈ seen) then []
                             else [kept_candidate c (default "" (ca_key c)) (ca_confidence c) (ca_importance c) true MemoryScope_Agent])
                 candidates).
Context {S : Type}.
Definition extract_and_refine (config : RefinerConfig) (candidates : list MemoryCandidate) (turn : option ConversationTurn)
    (rq : RefinementRequestContext) (active_skills : list string) : stm (MemSys S) Failure (list RefinedCandidate) :=
  match candidates, turn with
  | [], None => mret []
  | _, _ =>
      request ← lift (map_err MemErr (build_request config (build_extraction_prompt candidates turn active_skills) rq));
      response ← complete request;
      mret (parse_response (text_content response) candidates)
  end.
End Refinement.

(** * The write pipeline *)
Record WriteConfig := {
  wc_confidence_floor : spec_float;
  wc_max_facts_per_agent : nat;
  wc_max_events_per_agent : nat;
  wc_max_procedures_per_agent : nat;
}.
Definition WriteConfig_default : WriteConfig := {|
  wc_confidence_floor := f32_lit 5 10; wc_max_facts_per_agent := 100; wc_max_events_per_agent := 500; wc_max_procedures_per_agent := 50 |}.
Record WriteReport := {
  wr_candidates_extracted : nat;
  wr_candidates_refined : nat;
  wr_facts_written : nat;
  wr_facts_updated : nat;
  wr_events_written : nat;
  wr_procedures_written : nat;
  wr_candidates_dropped : nat;
  wr_sensitive_dropped : nat;
  wr_unsafe_dropped : nat;
  wr_conflicts_pending : nat;
}.
Definition WriteReport_default : WriteReport := {|
  wr_candidates_extracted := 0; wr_candidates_refined := 0; wr_facts_written := 0; wr_facts_updated := 0; wr_events_written := 0;
  wr_procedures_written := 0; wr_candidates_dropped := 0; wr_sensitive_dropped := 0; wr_unsafe_dropped := 0; wr_conflicts_pending := 0 |}.
#[export] Instance WriteReport_settable : Settable WriteReport := fun r => {|
  wr_candidates_extracted := wr_candidates_extracted r; wr_candidates_refined := wr_candidates_refined r;
  wr_facts_written := wr_facts_written r; wr_facts_updated := wr_facts_updated r; wr_events_written := wr_events_written r;
  wr_procedures_written := wr_procedures_written r; wr_candidates_dropped := wr_candidates_dropped r;
  wr_sensitive_dropped := wr_sensitive_dropped r; wr_unsafe_dropped := wr_unsafe_dropped r; wr_conflicts_pending := wr_conflicts_pending r |}.

(** [sort_by], which is stable: an element moves past those it is greater than.
    The comparisons used are consistent unless a number is [NaN]. *)
Fixpoint sort_insert {A} (greater : A -> A -> bool) (x : A) (l : list A) : list A :=
  match l with
  | [] => [x]
  | y :: r => if greater x y then y :: sort_insert greater x r else x :: l
  end.
Definition sort_by {A} (greater : A -> A -> bool) (l : list A) : list A := foldr (sort_insert greater) [] l.
Example sort_by_stable : sort_by (fun a b : nat * nat => b.1 <? a.1) [(2, 0); (1, 1); (2, 2); (1, 3)] = [(1, 1); (1, 3); (2, 0); (2, 2)].
Proof. reflexivity. Qed.

Definition effective_scope (scope : MemoryScope) (c : MemoryAccessContext) : MemoryScope :=
  match scope with
  | MemoryScope_Project => if bool_decide (ac_project_id c = None) then MemoryScope_Agent else scope
  | MemoryScope_User => if bool_decide (ac_user_id c = None) then MemoryScope_Agent else scope
  | MemoryScope_Agent => scope
  end.
Definition is_shared_scope (scope : MemoryScope) : bool :=
  match scope with MemoryScope_Project | MemoryScope_User => true | MemoryScope_Agent => false end.
Definition turn_excerpt (c : RefinedCandidate) : option string :=
  raw ← (match rc_summary c with Some s => Some s | None => json_as_str (rc_value c) end);
  let excerpt := chars_take 240 raw in
  if trim_is_empty excerpt then None else Some excerpt.
Definition sensitive_needles : list string := [
  "password"; "passcode"; "api_key"; "api key"; "secret"; "private_key"; "private key"; "access_token"; "access token";
  "credit card"; "social security"].
Section Checks.
Context `{JsonText}.
Definition candidate_is_sensitive (c : RefinedCandidate) : bool :=
  let haystack := to_ascii_lowercase (rc_key c +++ " " +++ json_to_string (rc_value c)) in
  existsb (fun needle => contains needle haystack) sensitive_needles.
Definition candidate_is_unsafe (c : RefinedCandidate) : bool :=
  unsafe_for_prompt (rc_key c +++ " " +++ json_to_string (rc_value c) +++ " " +++ default "" (rc_summary c)).
(** The counters of a candidate that is not written. *)
Inductive Dropped := Dropped_sensitive | Dropped_unsafe | Dropped_other.
Definition dropped (cfg : WriteConfig) (c : RefinedCandidate) : option Dropped :=
  if candidate_is_sensitive c then Some Dropped_sensitive
  else if candidate_is_unsafe c then Some Dropped_unsafe
  else if negb (rc_keep c) then Some Dropped_other
  else if SFltb (rc_confidence c) (wc_confidence_floor cfg) then Some Dropped_other
  else None.
Definition count_dropped (d : Dropped) (r : WriteReport) : WriteReport :=
  match d with
  | Dropped_sensitive => r <| wr_sensitive_dropped := Datatypes.S (wr_sensitive_dropped r) |>
  | Dropped_unsafe => r <| wr_unsafe_dropped := Datatypes.S (wr_unsafe_dropped r) |>
  | Dropped_other => r <| wr_candidates_dropped := Datatypes.S (wr_candidates_dropped r) |>
  end.
End Checks.

Section Pipeline.
Context {S : Type} `{MemoryStoreApi S} `{Hhash : Blake3} `{Hhex : Hex} `{JsonText} `{Prompts} `{Unicode}.
Context (display : spec_float -> string) (refiner : RefinerConfig) (config : WriteConfig).
Abbreviation MS := (stm (MemSys S) Failure).

Definition continuity_for_candidate (c : RefinedCandidate) (excerpt source_session_id : option string) (initial_status : MemoryStatus)
    (scope : MemoryScope) (ctx : MemoryAccessContext) (contributor : AgentId) : MemoryContinuity := {|
  mc_scope := scope; mc_status := initial_status;
  mc_sensitivity := if candidate_is_sensitive c then MemorySensitivity_Sensitive else MemorySensitivity_Normal;
  mc_pinned := false;
  mc_provenance := {| mp_session_id := source_session_id; mp_excerpt := excerpt; mp_extractor_model := Some (rf_model refiner);
                      mp_project_id := ac_project_id ctx; mp_user_id := ac_user_id ctx;
                      mp_contributor_agent_id := Some (id_to_hex contributor) |};
  mc_superseded_by := None |}.

(** Where a candidate is written and what it is written with. *)
Record Target := {
  tg_storage_id : AgentId;
  tg_contributor : AgentId;
  tg_session : option string;
  tg_status : MemoryStatus;
  tg_scope : MemoryScope;
  tg_ctx : MemoryAccessContext;
}.
Definition continuity_at (t : Target) (c : RefinedCandidate) (excerpt : option string) (status : MemoryStatus) : MemoryContinuity :=
  continuity_for_candidate c excerpt (tg_session t) status (tg_scope t) (tg_ctx t) (tg_contributor t).
Definition new_fact (t : Target) (c : RefinedCandidate) (id : FactId) (now : Z) (status : MemoryStatus) : Fact := {|
  fa_fact_id := id; fa_agent_id := tg_storage_id t; fa_key := rc_key c; fa_value := rc_value c; fa_confidence := rc_confidence c;
  fa_source := FactSource_Extracted; fa_importance := rc_importance c; fa_access_count := 0; fa_last_accessed := now;
  fa_created_at := now; fa_updated_at := now; fa_continuity := continuity_at t c (turn_excerpt c) status |}.
Definition other_contributor (t : Target) (k : MemoryContinuity) : bool :=
  negb (bool_decide (mp_contributor_agent_id (mc_provenance k) = Some (id_to_hex (tg_contributor t)))).
Definition superseded (f : Fact) (by_ : FactId) (now : Z) : Fact :=
  f <| fa_continuity := (fa_continuity f) <| mc_status := MemoryStatus_Superseded |> <| mc_superseded_by := Some (id_to_hex by_) |> |>
    <| fa_updated_at := now |>.
Definition count_fact (updated : nat) (r : WriteReport) : WriteReport :=
  r <| wr_facts_updated := wr_facts_updated r + updated |> <| wr_facts_written := Datatypes.S (wr_facts_written r) |>.
Definition write_fact (t : Target) (c : RefinedCandidate) (report : WriteReport) : MS WriteReport :=
  now ← now_;
  existing ← gets (fun y => if bool_decide (tg_status t = MemoryStatus_Active)
                             then match get_fact_by_key (sy_store y) (tg_storage_id t) (rc_key c) with Ok o => o | Err _ => None end
                             else None);
  match existing with
  | Some existing =>
      if bool_decide (fa_value existing = rc_value c) then
        _ ← on_store (put_fact (existing <| fa_confidence := rc_confidence c |> <| fa_importance := rc_importance c |>
                                         <| fa_updated_at := now |>));
        mret (report <| wr_facts_updated := Datatypes.S (wr_facts_updated report) |>)
      else
        replacement_id ← generate;
        if is_shared_scope (tg_scope t) && other_contributor t (fa_continuity existing) then
          _ ← on_store (put_fact (new_fact t c replacement_id now MemoryStatus_Pending));
          mret (count_fact 1 (report <| wr_conflicts_pending := Datatypes.S (wr_conflicts_pending report) |>))
        else
          _ ← on_store (put_fact (superseded existing replacement_id now));
          _ ← on_store (put_fact (new_fact t c replacement_id now (tg_status t)));
          mret (count_fact 1 report)
  | None =>
      id ← generate;
      _ ← on_store (put_fact (new_fact t c id now (tg_status t)));
      mret (count_fact 0 report)
  end.
Definition new_event (t : Target) (c : RefinedCandidate) (id : AgentEventId) (now : Z) : AgentEvent := {|
  ev_event_id := id; ev_agent_id := tg_storage_id t; ev_event_type := "task_run"; ev_summary := default "" (rc_summary c);
  ev_metadata := rc_value c; ev_importance := rc_importance c; ev_access_count := 0; ev_last_accessed := now; ev_timestamp := now;
  ev_continuity := continuity_at t c None (tg_status t) |}.
Definition write_event (t : Target) (c : RefinedCandidate) (report : WriteReport) : MS WriteReport :=
  now ← now_;
  id ← generate;
  _ ← on_store (put_event (new_event t c id now));
  mret (report <| wr_events_written := Datatypes.S (wr_events_written report) |>).
Definition count_procedure (r : WriteReport) : WriteReport := r <| wr_procedures_written := Datatypes.S (wr_procedures_written r) |>.
Definition new_procedure (t : Target) (c : RefinedCandidate) (id : ProcedureId) (now : Z) (trigger : string) (steps : list string)
    (status : MemoryStatus) : Procedure := {|
  pr_procedure_id := id; pr_agent_id := tg_storage_id t; pr_name := rc_key c; pr_trigger := trigger; pr_steps := steps;
  pr_context_constraints := JNull; pr_success_rate := f32_lit 1 1; pr_execution_count := 0; pr_last_used := now; pr_created_at := now;
  pr_updated_at := now; pr_skill_name := rc_skill_name c; pr_skill_relevance := (fun _ => f32_lit 8 10) <$> rc_skill_name c;
  pr_continuity := continuity_at t c None status |}.
Definition procedure_is_active (p : Procedure) : bool := bool_decide (mc_status (pr_continuity p) = MemoryStatus_Active).
Definition write_procedure (t : Target) (c : RefinedCandidate) (report : WriteReport) : MS WriteReport :=
  now ← now_;
  let trigger := match rc_trigger c with Some s => s | None => default "" (rc_summary c) end in
  let steps := default [] (rc_steps c) in
  existing ← from_store (fun s => list_procedures s (tg_storage_id t));
  let existing_active := if bool_decide (tg_status t = MemoryStatus_Active)
                         then List.find (fun p => bool_decide (pr_name p = rc_key c) && procedure_is_active p) existing else None in
  let conflict := match existing_active with
                  | Some p => is_shared_scope (tg_scope t) && other_contributor t (pr_continuity p)
                              && negb (bool_decide (pr_trigger p = trigger) && bool_decide (pr_steps p = steps))
                  | None => false
                  end in
  let add (status : MemoryStatus) (report : WriteReport) : MS WriteReport :=
    id ← generate;
    _ ← on_store (put_procedure (new_procedure t c id now trigger steps status));
    mret (count_procedure report) in
  match existing_active with
  | Some p =>
      if conflict then add MemoryStatus_Pending (report <| wr_conflicts_pending := Datatypes.S (wr_conflicts_pending report) |>)
      else
        _ ← on_store (put_procedure (p <| pr_trigger := trigger |> <| pr_steps := steps |> <| pr_skill_name := rc_skill_name c |>
                                       <| pr_updated_at := now |>));
        mret (count_procedure report)
  | None => add (tg_status t) report
  end.

(** The least important facts, the oldest events and the least used procedures go. *)
Definition use_score (p : Procedure) : spec_float := F32.mul (pr_success_rate p) (F32.of_Z (pr_execution_count p)).
Definition enforce_capacity (agent_id : AgentId) : MS unit :=
  facts ← from_store (fun s => list_facts s agent_id);
  _ ← (if wc_max_facts_per_agent config <? length facts then
         let by_importance := sort_by (fun a b => F32.gt_or_equal_on_nan (fa_importance a) (fa_importance b)) facts in
         for_each (fun f => on_store (delete_fact agent_id (fa_fact_id f)))
           (take (length facts - wc_max_facts_per_agent config) by_importance)
       else mret tt);
  events ← from_store (fun s => list_events s agent_id (wc_max_events_per_agent config + 100));
  _ ← (if wc_max_events_per_agent config <? length events then
         for_each (fun e => on_store (delete_event agent_id (ev_event_id e))) (drop (wc_max_events_per_agent config) events)
       else mret tt);
  procs ← from_store (fun s => list_procedures s agent_id);
  if wc_max_procedures_per_agent config <? length procs then
    let by_use := sort_by (fun a b => F32.gt_or_equal_on_nan (use_score a) (use_score b)) procs in
    for_each (fun p => on_store (delete_procedure agent_id (pr_procedure_id p)))
      (take (length procs - wc_max_procedures_per_agent config) by_use)
  else mret tt.

(** One turn of the loop over the refined candidates: the report and the
    partitions written to. *)
Definition write_candidate (agent_id : AgentId) (ctx : MemoryAccessContext) (session : option string) (initial_status : MemoryStatus)
    (acc : WriteReport * list AgentId) (c : RefinedCandidate) : MS (WriteReport * list AgentId) :=
  match dropped config c with
  | Some d => mret (count_dropped d acc.1, acc.2)
  | None =>
      let scope := effective_scope (rc_scope c) ctx in
      let t := {| tg_storage_id := storage_id ctx agent_id scope; tg_contributor := agent_id; tg_session := session;
                  tg_status := initial_status; tg_scope := scope; tg_ctx := ctx |} in
      let write := match rc_type c with
                   | CandidateType_Fact => write_fact
                   | CandidateType_Event => write_event
                   | CandidateType_Procedure => write_procedure
                   end in
      report ← write t c acc.1;
      mret (report, push_new (tg_storage_id t) acc.2)
  end.
Fixpoint write_candidates (agent_id : AgentId) (ctx : MemoryAccessContext) (session : option string) (initial_status : MemoryStatus)
    (cs : list RefinedCandidate) (acc : WriteReport * list AgentId) : MS (WriteReport * list AgentId) :=
  match cs with
  | [] => mret acc
  | c :: r => acc ← write_candidate agent_id ctx session initial_status acc c;
              write_candidates agent_id ctx session initial_status r acc
  end.
(** [ingest_with_provenance_and_request_context]; the set of touched partitions is
    walked in the order in which they were touched. *)
Definition ingest (agent_id : AgentId) (summary : TurnSummary) (turn : option ConversationTurn) (rq : RefinementRequestContext)
    (active_skills : list string) (session : option string) (initial_status : MemoryStatus) : MS WriteReport :=
  candidates ← lift (ok_or Panicked (extract summary));
  let report := WriteReport_default <| wr_candidates_extracted := length candidates |> in
  match candidates, turn with
  | [], None => mret report
  | _, _ =>
      let ctx := {| ac_project_id := rq_aura_project_id rq; ac_user_id := rq_user_id rq; ac_include_legacy := false |} in
      refined ← extract_and_refine display refiner candidates turn rq active_skills;
      acc ← write_candidates agent_id ctx session initial_status refined
              (report <| wr_candidates_refined := length refined |>, []);
      _ ← for_each enforce_capacity acc.2;
      mret acc.1
  end.
Definition ingest_with_context (agent_id : AgentId) (summary : TurnSummary) (turn : option ConversationTurn) (auth_token : option string)
    (active_skills : list string) : MS WriteReport :=
  ingest agent_id summary turn (Build_RefinementRequestContext auth_token None None None None None) active_skills None MemoryStatus_Active.
End Pipeline.
