(* ===== verification/MemoryRecall.v ===== *)
(** How memories come back ([aura-context-memory/src/{retrieval,consolidation,
    procedures,manager}.rs]): retrieval into the system prompt under a budget,
    the consolidation that forgets, compresses and merges, the procedures learned
    from repeated steps, and the manager that owns them all. *)
From S2P Require Import Prelude Values CoreTypes Exec Utf8 Text ModelRequest MemoryTypes MemoryStore MemoryWrite.
From stdpp Require Import list.
From Stdlib Require Import Ascii Strings.Byte SpecFloat.

(** * Retrieval *)
Record MemoryQueryContext := {
  mq_text : string;
  mq_active_skills : list string;
  mq_allow_user_scope : bool;
  mq_allow_project_scope : bool;
  mq_access : MemoryAccessContext;
}.
Definition MemoryQueryContext_default : MemoryQueryContext := {|
  mq_text := ""; mq_active_skills := []; mq_allow_user_scope := false; mq_allow_project_scope := false;
  mq_access := MemoryAccessContext_default |}.
Record RetrievalConfig := {
  rv_max_facts : nat;
  rv_max_events : nat;
  rv_max_procedures : nat;
  rv_min_confidence : spec_float;
  rv_token_budget : nat;
}.
Definition RetrievalConfig_default : RetrievalConfig := {|
  rv_max_facts := 12; rv_max_events := 6; rv_max_procedures := 4; rv_min_confidence := f32_lit 3 10; rv_token_budget := 800 |}.

Definition eligible (c : MemoryContinuity) (q : MemoryQueryContext) : bool :=
  bool_decide (mc_status c = MemoryStatus_Active) && bool_decide (mc_sensitivity c = MemorySensitivity_Normal)
  && match mc_scope c with
     | MemoryScope_Agent => true
     | MemoryScope_User => mq_allow_user_scope q
     | MemoryScope_Project => mq_allow_project_scope q
     end.
Definition STOP_WORDS : list string := [
  "a"; "an"; "and"; "are"; "as"; "at"; "be"; "by"; "for"; "from"; "i"; "in"; "is"; "it"; "my"; "of"; "on"; "or"; "that"; "the";
  "this"; "to"; "we"; "what"; "when"; "with"; "you"].
(** [split] on the characters that fail the test. *)
Fixpoint split_chars (keep : bytes -> bool) (cs : list bytes) : list (list bytes) :=
  match cs with
  | [] => [[]]
  | c :: r => if keep c then match split_chars keep r with w :: ws => (c :: w) :: ws | [] => [[c]] end
              else [] :: split_chars keep r
  end.
Section Ranking.
Context `{Unicode} `{JsonText}.
Definition tokenize (text : string) : gset string :=
  list_to_set (List.filter (fun t => (1 <? String.length t) && negb (bool_decide (t ∈ STOP_WORDS)))
                 ((fun w => to_ascii_lowercase (of_chars w)) <$> split_chars is_alphanumeric (chars text))).
Definition lexical_relevance (query : gset string) (document : string) : spec_float :=
  if bool_decide (query = ∅) then f32_lit 0 1 else
  let doc := tokenize document in
  if bool_decide (doc = ∅) then f32_lit 0 1 else
  let count (s : gset string) := F32.of_Z (Z.of_nat (size s)) in
  F32.div (count (query ∩ doc)) (F32.max (F32.sqrt (F32.mul (count query) (count doc))) (f32_lit 1 1)).
Definition fact_text (f : Fact) : string := fa_key f +++ " " +++ json_to_string (fa_value f).
Definition event_text (e : AgentEvent) : string := ev_event_type e +++ " " +++ ev_summary e +++ " " +++ json_to_string (ev_metadata e).
Definition procedure_text (p : Procedure) : string :=
  pr_name p +++ " " +++ pr_trigger p +++ " " +++ str_join " " (pr_steps p) +++ " " +++ default "" (pr_skill_name p).

Context `{Libm} (query_aware : bool) (query : gset string) (active_skills : gset string) (now : Z).
Definition is_zero (x : spec_float) : bool := SFeqb x (f32_lit 0 1).
Definition pin_bonus (c : MemoryContinuity) : spec_float := if mc_pinned c then f32_lit 75 100 else f32_lit 0 1.
Definition relevance_of (text : string) : spec_float := if query_aware then lexical_relevance query text else f32_lit 0 1.
Definition scored_fact (f : Fact) : option (Fact * spec_float * spec_float) :=
  let relevance := relevance_of (fact_text f) in
  if query_aware && is_zero relevance && negb (mc_pinned (fa_continuity f)) then None else
  let base := score_fact f now in
  let score := if query_aware then F32.mul_add relevance (f32_lit 65 100) (F32.mul base (f32_lit 35 100)) else base in
  Some (f, F32.add score (pin_bonus (fa_continuity f)), relevance).
Definition scored_event (e : AgentEvent) : option (AgentEvent * spec_float * spec_float) :=
  let relevance := relevance_of (event_text e) in
  if query_aware && is_zero relevance && SFltb (ev_importance e) (f32_lit 85 100) then None else
  let base := score_event e now in
  Some (e, (if query_aware then F32.mul_add relevance (f32_lit 7 10) (F32.mul base (f32_lit 3 10)) else base), relevance).
Definition skill_active (p : Procedure) : bool :=
  match pr_skill_name p with Some s => bool_decide (to_ascii_lowercase s ∈ active_skills) | None => false end.
Definition scored_procedure (p : Procedure) : option (Procedure * spec_float * spec_float) :=
  let relevance := relevance_of (procedure_text p) in
  let relevance := if skill_active p then F32.min (F32.add relevance (f32_lit 5 10)) (f32_lit 1 1) else relevance in
  if query_aware && is_zero relevance && negb (mc_pinned (pr_continuity p)) then None else
  let base := score_procedure p now in
  let score := if query_aware then F32.mul_add relevance (f32_lit 7 10) (F32.mul base (f32_lit 3 10)) else base in
  Some (p, F32.add score (pin_bonus (pr_continuity p)), relevance).
(** [sort_by(score_order)] and [truncate]. *)
Definition best {A} (n : nat) (scored : list (A * spec_float * spec_float)) : list (A * spec_float * spec_float) :=
  take n (sort_by (fun a b => F32.gt_or_equal_on_nan b.1.2 a.1.2) scored).
End Ranking.

Fixpoint select_budgeted {A} (estimator : A -> nat) (kind : string) (id : A -> string) (scope_of : A -> MemoryScope)
    (items : list (A * spec_float * spec_float)) (budget : nat) : list A * list MemorySelection * nat :=
  match items with
  | [] => ([], [], budget)
  | (item, score, relevance) :: r =>
      if budget <? estimator item then select_budgeted estimator kind id scope_of r budget
      else
        let '(xs, sels, unspent) := select_budgeted estimator kind id scope_of r (budget - estimator item) in
        (item :: xs,
         {| ms_memory_id := id item; ms_kind := kind; ms_score := score; ms_relevance := relevance;
            ms_reason := if SFltb (f32_lit 0 1) relevance then "current_request" else "durable_salience";
            ms_scope := scope_of item |} :: sels, unspent)
  end.

Section Retriever.
Context {S : Type} `{MemoryStoreApi S} `{Hhash : Blake3} `{Hhex : Hex} `{JsonText} `{Unicode} `{Libm} `{Chrono}.
Context (config : RetrievalConfig).
Abbreviation MS := (stm (MemSys S) Failure).

Fixpoint read_partitions (ps : list AgentId) : MS (list Fact * list AgentEvent * list Procedure) :=
  match ps with
  | [] => mret ([], [], [])
  | p :: r =>
      facts ← from_store (fun s => list_facts s p);
      events ← from_store (fun s => list_events s p (Nat.max (rv_max_events config * 10) 50));
      procedures ← from_store (fun s => list_procedures s p);
      more ← read_partitions r;
      mret (facts ++ more.1.1, events ++ more.1.2, procedures ++ more.2)
  end.
Definition admissible_fact (q : MemoryQueryContext) (f : Fact) : bool :=
  SFleb (rv_min_confidence config) (fa_confidence f) && eligible (fa_continuity f) q && negb (unsafe_for_prompt (fact_text f)).
Definition admissible_event (q : MemoryQueryContext) (e : AgentEvent) : bool :=
  eligible (ev_continuity e) q && negb (unsafe_for_prompt (event_text e)).
Definition admissible_procedure (q : MemoryQueryContext) (p : Procedure) : bool :=
  eligible (pr_continuity p) q && negb (unsafe_for_prompt (procedure_text p)).
Definition select_memories (q : MemoryQueryContext) (mode : MemoryRetrievalMode) (now : Z)
    (read : list Fact * list AgentEvent * list Procedure)
  : (list Fact * list AgentEvent * list Procedure) * (bool * list MemorySelection * nat) :=
  let '(facts, events, procedures) := read in
  let query_tokens := tokenize (mq_text q) in
  let query_aware := bool_decide (mode = MemoryRetrievalMode_QueryAware) && negb (bool_decide (query_tokens = ∅)) in
  let active_skills := list_to_set (to_ascii_lowercase <$> mq_active_skills q) : gset string in
  let ranked_facts := best (rv_max_facts config) (omap (scored_fact query_aware query_tokens now) (List.filter (admissible_fact q) facts)) in
  let ranked_events := best (rv_max_events config) (omap (scored_event query_aware query_tokens now) (List.filter (admissible_event q) events)) in
  let ranked_procedures := best (rv_max_procedures config)
    (omap (scored_procedure query_aware query_tokens active_skills now) (List.filter (admissible_procedure q) procedures)) in
  let '(fs, s1, b1) := select_budgeted estimate_fact_tokens "fact" (fun f => id_to_hex (fa_fact_id f))
                         (fun f => mc_scope (fa_continuity f)) ranked_facts (rv_token_budget config) in
  let '(es, s2, b2) := select_budgeted estimate_event_tokens "event" (fun e => id_to_hex (ev_event_id e))
                         (fun e => mc_scope (ev_continuity e)) ranked_events b1 in
  let '(ps, s3, b3) := select_budgeted estimate_procedure_tokens "procedure" (fun p => id_to_hex (pr_procedure_id p))
                         (fun p => mc_scope (pr_continuity p)) ranked_procedures b2 in
  ((fs, es, ps), (query_aware, s1 ++ s2 ++ s3, b3)).
Definition touch (f : Fact) : MS unit := now ← now_; on_store (touch_fact now (fa_agent_id f) (fa_fact_id f)).
Definition retrieve_with_query (agent_id : AgentId) (q : MemoryQueryContext) (mode : MemoryRetrievalMode) : MS MemoryPacket :=
  started ← now_;
  now ← now_;
  read ← read_partitions (readable_partitions (mq_access q) agent_id (mq_allow_user_scope q) (mq_allow_project_scope q));
  let '((facts, events, procedures), (query_aware, selections, budget)) := select_memories q mode now read in
  _ ← for_each touch facts;
  finished ← now_;
  mret {| pk_facts := facts; pk_events := events; pk_procedures := procedures;
          pk_trace := Some {| rt_candidate_count := length read.1.1 + length read.1.2 + length read.2;
                              rt_selected_count := length selections; rt_estimated_tokens := rv_token_budget config - budget;
                              rt_duration_ms := Z.min (Z.max 0 ((finished - started) `div` 1000000)) u64_max;
                              rt_query_aware := query_aware; rt_selections := selections |} |}.
Definition retrieve (agent_id : AgentId) : MS MemoryPacket :=
  retrieve_with_query agent_id MemoryQueryContext_default MemoryRetrievalMode_Salience.
End Retriever.

(** * Consolidation *)
Record ConsolidationConfig := {
  co_model : string;
  co_auth_token : option string;
  co_max_events_before_compression : nat;
  co_max_event_age_days : Z;
  co_importance_forget_threshold : spec_float;
  co_access_forget_days : Z;
  co_procedure_forget_threshold : spec_float;
  co_procedure_min_executions : Z;
}.
Record ConsolidationReport := {
  cr_facts_merged : nat;
  cr_facts_evolved : nat;
  cr_events_compressed : nat;
  cr_events_deleted : nat;
  cr_facts_forgotten : nat;
  cr_procedures_forgotten : nat;
  cr_insights_created : nat;
}.
Definition consolidatable (c : MemoryContinuity) : bool :=
  bool_decide (mc_status c = MemoryStatus_Active) && bool_decide (mc_sensitivity c = MemorySensitivity_Normal).
Definition consolidated_continuity (source : MemoryContinuity) : MemoryContinuity := {|
  mc_scope := mc_scope source; mc_status := MemoryStatus_Active; mc_sensitivity := MemorySensitivity_Normal; mc_pinned := false;
  mc_provenance := {| mp_session_id := None; mp_excerpt := None; mp_extractor_model := None;
                      mp_project_id := mp_project_id (mc_provenance source); mp_user_id := mp_user_id (mc_provenance source);
                      mp_contributor_agent_id := None |};
  mc_superseded_by := None |}.
(** One-based indices of the answer. *)
Definition parse_index (w : string) (max : nat) : option nat :=
  n ← parse_usize w; if (1 <=? n)%Z && (n - 1 <? Z.of_nat max)%Z then Some (Z.to_nat (n - 1)) else None.
Definition parse_merge_indices (text : string) (max : nat) : option (nat * nat) :=
  match split_whitespace text with
  | w1 :: w2 :: _ => src ← parse_index w1 max; dst ← parse_index w2 max; if bool_decide (src = dst) then None else Some (src, dst)
  | _ => None
  end.
Definition parse_single_index (text : string) (max : nat) : option nat :=
  match split_whitespace text with w :: _ => parse_index w max | [] => None end.
Definition parse_compress_response (response : string) : list string :=
  List.filter (fun s => negb (bool_decide (s = "")))
    (omap (fun line => let trimmed := trim line in
                       trim <$> match str_strip_prefix "SUMMARY: " trimmed with
                                | Some s => Some s
                                | None => str_strip_prefix "SUMMARY:" trimmed
                                end) (lines response)).

Section Consolidator.
Context {S : Type} `{MemoryStoreApi S} `{Hhash : Blake3} `{Hhex : Hex} `{JsonText} `{Prompts} `{Chrono}.
Context (display : spec_float -> string) (config : ConsolidationConfig).
Abbreviation MS := (stm (MemSys S) Failure).

(** ** Forget *)
Definition forgettable_fact (now : Z) (f : Fact) : bool :=
  SFltb (fa_importance f) (co_importance_forget_threshold config) && (fa_access_count f =? 0)%Z
  && (co_access_forget_days config * 86400 <? num_seconds (now - fa_updated_at f))%Z.
Definition forgettable_procedure (p : Procedure) : bool :=
  SFltb (pr_success_rate p) (co_procedure_forget_threshold config)
  && (co_procedure_min_executions config <=? pr_execution_count p)%Z.
Definition forget (agent_id : AgentId) : MS (nat * nat) :=
  now ← now_;
  facts ← from_store (fun s => list_facts s agent_id);
  let ff := List.filter (forgettable_fact now) facts in
  _ ← for_each (fun f => on_store (delete_fact agent_id (fa_fact_id f))) ff;
  procedures ← from_store (fun s => list_procedures s agent_id);
  let pf := List.filter forgettable_procedure procedures in
  _ ← for_each (fun p => on_store (delete_procedure agent_id (pr_procedure_id p))) pf;
  mret (length ff, length pf).

(** ** Compress *)
Definition ask (system prompt : string) : MS string :=
  let b := ModelRequestBuilder_new (co_model config) system in
  request ← lift (map_err (fun e => match e with RequestError_Internal m => MemErr (MemoryError_Provider m) end)
    (try_build display {|
       mb_model := mb_model b; mb_system := mb_system b; mb_messages := [Message_user prompt]; mb_tools := mb_tools b;
       mb_tool_choice := mb_tool_choice b; mb_max_tokens := 2048; mb_temperature := mb_temperature b; mb_thinking := mb_thinking b;
       mb_thinking_effort := mb_thinking_effort b; mb_parallel_tool_use := mb_parallel_tool_use b; mb_auth_token := co_auth_token config;
       mb_upstream_provider_family := mb_upstream_provider_family b; mb_aura_project_id := mb_aura_project_id b;
       mb_aura_agent_id := mb_aura_agent_id b; mb_aura_session_id := mb_aura_session_id b; mb_aura_org_id := mb_aura_org_id b;
       mb_prompt_cache_key := mb_prompt_cache_key b; mb_prompt_cache_retention := mb_prompt_cache_retention b;
       mb_metadata := mb_metadata b |}));
  response ← complete request;
  mret (text_content response).
Definition dated_line (e : AgentEvent) : string :=
  "[" +++ format_date (ev_timestamp e) +++ "] " +++ ev_event_type e +++ ": " +++ ev_summary e +++ nl.
Definition build_compress_prompt (events : list AgentEvent) : string :=
  compress_instructions +++ String.concat "" (imap (fun i e => fmt_Z (Z.of_nat i + 1) +++ ". " +++ dated_line e) events).
Definition summary_event (agent_id : AgentId) (id : AgentEventId) (now : Z) (summary : string) (overflow : nat) (c : MemoryContinuity)
  : AgentEvent := {|
  ev_event_id := id; ev_agent_id := agent_id; ev_event_type := "consolidated_summary"; ev_summary := summary;
  ev_metadata := json_object [("source", JString "consolidation"); ("original_count", JNumber (fmt_Z (Z.of_nat overflow)))];
  ev_importance := f32_lit 6 10; ev_access_count := 0; ev_last_accessed := now; ev_timestamp := now; ev_continuity := c |}.
Definition compress_events (agent_id : AgentId) : MS (nat * nat) :=
  all_events ← from_store (fun s => list_events s agent_id 100000);
  let kept := List.filter (fun e => consolidatable (ev_continuity e)) all_events in
  let overflow := length kept - co_max_events_before_compression config in
  match take overflow (rev kept) with
  | [] => mret (0, 0)
  | (first :: _) as oldest =>
      text ← ask COMPRESS_SYSTEM_PROMPT (build_compress_prompt oldest);
      match parse_compress_response text with
      | [] => mret (0, 0)
      | summaries =>
          now ← now_;
          _ ← for_each (fun summary =>
                 id ← generate;
                 on_store (put_event (summary_event agent_id id now summary overflow (consolidated_continuity (ev_continuity first)))))
                summaries;
          _ ← for_each (fun e => on_store (delete_event_direct agent_id (ev_timestamp e) (ev_event_id e))) oldest;
          mret (length summaries, length oldest)
      end
  end.

(** ** Evolve *)
Definition evolve_line (i : nat) (f : Fact) : string :=
  fmt_Z (Z.of_nat i + 1) +++ ". key=" +++ quoted (fa_key f) +++ " value=" +++ quoted (value_text (fa_value f)) +++ " confidence="
  +++ F32.to_fixed 2 (fa_confidence f) +++ " importance=" +++ F32.to_fixed 2 (fa_importance f) +++ nl.
Definition build_evolve_prompt (facts : list Fact) (recent_events : list AgentEvent) : string :=
  "Current facts:" +++ nl +++ String.concat "" (imap evolve_line facts)
  +++ (match recent_events with
       | [] => ""
       | _ => nl +++ "Recent events:" +++ nl +++ String.concat "" ((fun e => "- " +++ dated_line e) <$> take 20 recent_events)
       end)
  +++ evolve_instructions.
Record Evolution := {
  eo_to_delete : list nat;
  eo_evolved_indices : list nat;
  eo_merged : nat;
  eo_evolved : nat;
  eo_insights : nat;
}.
Definition Evolution_start : Evolution := {| eo_to_delete := []; eo_evolved_indices := []; eo_merged := 0; eo_evolved := 0; eo_insights := 0 |}.
#[local] Instance Evolution_settable : Settable Evolution := fun o => {|
  eo_to_delete := eo_to_delete o; eo_evolved_indices := eo_evolved_indices o; eo_merged := eo_merged o; eo_evolved := eo_evolved o;
  eo_insights := eo_insights o |}.
Definition replace_value (rest : string) (f : Fact) : Fact :=
  match extract_quoted rest "value=" with Some v => f <| fa_value := JString v |> | None => f end.
Definition replace_key (rest : string) (f : Fact) : Fact :=
  match extract_quoted rest "key=" with Some k => f <| fa_key := k |> | None => f end.
Definition replace_confidence (rest : string) (f : Fact) : Fact :=
  match extract_float rest "confidence=" with Some c => f <| fa_confidence := c |> | None => f end.
Definition consolidated (now : Z) (f : Fact) : Fact := f <| fa_source := FactSource_Consolidated |> <| fa_updated_at := now |>.
Definition insight (agent_id : AgentId) (id : FactId) (now : Z) (k v : string) (c : MemoryContinuity) : Fact := {|
  fa_fact_id := id; fa_agent_id := agent_id; fa_key := k; fa_value := JString v; fa_confidence := f32_lit 7 10;
  fa_source := FactSource_Consolidated; fa_importance := f32_lit 5 10; fa_access_count := 0; fa_last_accessed := now;
  fa_created_at := now; fa_updated_at := now; fa_continuity := consolidated_continuity c |}.
(** One line of the answer, on the facts as they were listed. *)
Definition evolve_step (now : Z) (agent_id : AgentId) (facts : list Fact) (o : Evolution) (raw : string) : MS Evolution :=
  let trimmed := trim raw in
  if bool_decide (trimmed = "") then mret o else
  match str_strip_prefix "MERGE " trimmed with
  | Some rest =>
      match parse_merge_indices rest (length facts) with
      | Some (src, dst) =>
          if bool_decide (src ∈ eo_to_delete o) || bool_decide (dst ∈ eo_to_delete o) then mret o else
          match facts !! dst with
          | Some target =>
              _ ← on_store (put_fact (consolidated now (replace_key rest (replace_value rest target))));
              mret (o <| eo_to_delete := eo_to_delete o ++ [src] |> <| eo_merged := Datatypes.S (eo_merged o) |>)
          | None => fails Panicked
          end
      | None => mret o
      end
  | None =>
      match str_strip_prefix "EVOLVE " trimmed with
      | Some rest =>
          match parse_single_index rest (length facts) with
          | Some idx =>
              if bool_decide (idx ∈ eo_evolved_indices o) || bool_decide (idx ∈ eo_to_delete o) then mret o else
              match facts !! idx with
              | Some fact =>
                  _ ← on_store (put_fact (consolidated now (replace_confidence rest (replace_value rest fact))));
                  mret (o <| eo_evolved_indices := eo_evolved_indices o ++ [idx] |> <| eo_evolved := Datatypes.S (eo_evolved o) |>)
              | None => fails Panicked
              end
          | None => mret o
          end
      | None =>
          match str_strip_prefix "INSIGHT " trimmed with
          | Some rest =>
              match extract_quoted rest "key=", extract_quoted rest "value=" with
              | Some k, Some v =>
                  match facts with
                  | first :: _ =>
                      id ← generate;
                      _ ← on_store (put_fact (insight agent_id id now k v (fa_continuity first)));
                      mret (o <| eo_insights := Datatypes.S (eo_insights o) |>)
                  | [] => fails Panicked
                  end
              | _, _ => mret o
              end
          | None => mret o
          end
      end
  end.
Fixpoint evolve_lines (now : Z) (agent_id : AgentId) (facts : list Fact) (o : Evolution) (ls : list string) : MS Evolution :=
  match ls with
  | [] => mret o
  | l :: r => o ← evolve_step now agent_id facts o l; evolve_lines now agent_id facts o r
  end.
Definition apply_evolution (response : string) (agent_id : AgentId) (facts : list Fact) : MS (nat * nat * nat) :=
  now ← now_;
  o ← evolve_lines now agent_id facts Evolution_start (lines response);
  _ ← for_each (fun idx => match facts !! idx with
                           | Some f => on_store (delete_fact agent_id (fa_fact_id f))
                           | None => fails Panicked
                           end) (eo_to_delete o);
  mret (eo_merged o, eo_evolved o, eo_insights o).
Definition evolve_facts (agent_id : AgentId) : MS (nat * nat * nat) :=
  facts ← from_store (fun s => list_facts s agent_id);
  recent_events ← from_store (fun s => list_events s agent_id 50);
  let facts := List.filter (fun f => consolidatable (fa_continuity f)) facts in
  let recent_events := List.filter (fun e => consolidatable (ev_continuity e)) recent_events in
  if length facts <? 2 then mret (0, 0, 0) else
  text ← ask EVOLVE_SYSTEM_PROMPT (build_evolve_prompt facts recent_events);
  apply_evolution text agent_id facts.
Definition consolidate (agent_id : AgentId) : MS ConsolidationReport :=
  forgotten ← forget agent_id;
  compressed ← compress_events agent_id;
  evolved ← evolve_facts agent_id;
  mret {| cr_facts_merged := evolved.1.1; cr_facts_evolved := evolved.1.2; cr_events_compressed := compressed.1;
          cr_events_deleted := compressed.2; cr_facts_forgotten := forgotten.1; cr_procedures_forgotten := forgotten.2;
          cr_insights_created := evolved.2 |}.
End Consolidator.

(** * Procedures *)
Record ProcedureConfig := { pc_min_occurrences : nat; pc_min_steps : nat; pc_max_procedures : nat }.
Definition ProcedureConfig_default : ProcedureConfig := {| pc_min_occurrences := 2; pc_min_steps := 3; pc_max_procedures := 50 |}.
Record StepSequence := {
  sq_steps : list string;
  sq_task_hint : option string;
  sq_succeeded : bool;
  sq_skill_name : option string;
  sq_skill_description : option string;
}.
Definition SIMILARITY_THRESHOLD : spec_float := f32_lit 7 10.
Definition abs_diff (a b : nat) : nat := (a - b) + (b - a).
Definition f32_ratio (n d : nat) : spec_float := F32.div (F32.of_Z (Z.of_nat n)) (F32.of_Z (Z.of_nat d)).
Definition sequences_match (a b : list string) : bool :=
  if 1 <? abs_diff (length a) (length b) then false else
  let min_len := Nat.min (length a) (length b) in
  if min_len =? 0 then false else
  let matching := length (List.filter (fun p => bool_decide (p.1 = p.2)) (zip a b)) in
  SFleb SIMILARITY_THRESHOLD (f32_ratio matching min_len).
Definition merge_steps (existing new : list string) : list string := if length existing <=? length new then new else existing.
Definition apply_success_ema (rate : spec_float) (succeeded : bool) : spec_float :=
  if succeeded then F32.mul_add (f32_lit 8 10) rate (f32_lit 2 10) else F32.mul rate (f32_lit 8 10).
(** [serde_json::from_value::<Vec<String>>]. *)
Definition json_strings (v : json) : option (list string) :=
  match v with JArray items => mapM json_as_str items | _ => None end.

Section Procedures.
Context {S : Type} `{MemoryStoreApi S} `{Unicode} (config : ProcedureConfig).
Abbreviation MS := (stm (MemSys S) Failure).

Definition trim_word (w : string) : string :=
  let drop_front := fix go (cs : list bytes) := match cs with c :: r => if is_alphanumeric c then cs else go r | [] => [] end in
  of_chars (rev (drop_front (rev (drop_front (chars w))))).
Definition tokenize_words (text : string) : list string :=
  List.filter (fun w => 2 <? String.length w) (trim_word <$> split_whitespace text).
Definition overlap_count (words others : list string) : nat :=
  length (List.filter (fun w => existsb (fun o => eq_ignore_ascii_case o w) others) words).
Definition compute_skill_relevance (name trigger : string) (steps : list string) (skill_description : string) : spec_float :=
  if bool_decide (skill_description = "") then f32_lit 5 10 else
  match tokenize_words skill_description with
  | [] => f32_lit 5 10
  | skill_words =>
      match tokenize_words (name +++ " " +++ trigger +++ " " +++ str_join " " steps) with
      | [] => f32_lit 0 1
      | proc_words => F32.min (f32_ratio (overlap_count proc_words skill_words) (Nat.max (length proc_words) 1)) (f32_lit 1 1)
      end
  end.
Definition derive_name (steps : list string) (task_hint : option string) : string :=
  let from_steps :=
    match take 3 (List.filter (fun s => negb (contains "read" s)) steps) with
    | [] => "unnamed_procedure"
    | key_steps => str_join " -> " key_steps
    end in
  match task_hint with
  | Some hint => match take 5 (split_whitespace hint) with [] => from_steps | words => to_lowercase (str_join " " words) end
  | None => from_steps
  end.
Definition used (now updated : Z) (succeeded : bool) (p : Procedure) : Procedure :=
  p <| pr_execution_count := ((pr_execution_count p + 1) `mod` 2 ^ 32)%Z |> <| pr_last_used := now |> <| pr_updated_at := updated |>
    <| pr_success_rate := apply_success_ema (pr_success_rate p) succeeded |>.
Definition with_steps (steps : list string) (p : Procedure) : Procedure :=
  if bool_decide (pr_steps p = steps) then p else p <| pr_steps := merge_steps (pr_steps p) steps |>.
Definition try_update_existing (agent_id : AgentId) (sequence : StepSequence) : MS (option Procedure) :=
  existing ← from_store (fun s => list_procedures s agent_id);
  match List.find (fun p => sequences_match (pr_steps p) (sq_steps sequence)) existing with
  | Some p =>
      now ← now_;
      updated ← now_;
      let p := with_steps (sq_steps sequence) (used now updated (sq_succeeded sequence) p) in
      _ ← on_store (put_procedure p);
      mret (Some p)
  | None => mret None
  end.
Definition enforce_procedure_capacity (agent_id : AgentId) : MS unit :=
  procs ← from_store (fun s => list_procedures s agent_id);
  if length procs <=? pc_max_procedures config then mret tt else
  let by_use := sort_by (fun a b => F32.gt_or_equal_on_nan (use_score a) (use_score b)) procs in
  for_each (fun p => on_store (delete_procedure agent_id (pr_procedure_id p))) (take (length procs - pc_max_procedures config) by_use).
Definition similar_event (steps : list string) (e : AgentEvent) : bool :=
  match json_get "tool_sequence" (ev_metadata e) ≫= json_strings with Some prev => sequences_match prev steps | None => false end.
Definition learned (agent_id : AgentId) (id : ProcedureId) (now : Z) (q : StepSequence) : Procedure :=
  let name := derive_name (sq_steps q) (sq_task_hint q) in
  let trigger := match sq_task_hint q with Some h => h | None => default "" (head (sq_steps q)) end in {|
  pr_procedure_id := id; pr_agent_id := agent_id; pr_name := name; pr_trigger := trigger; pr_steps := sq_steps q;
  pr_context_constraints := JNull; pr_success_rate := if sq_succeeded q then f32_lit 1 1 else f32_lit 0 1; pr_execution_count := 1;
  pr_last_used := now; pr_created_at := now; pr_updated_at := now; pr_skill_name := sq_skill_name q;
  pr_skill_relevance := (fun _ => compute_skill_relevance name trigger (sq_steps q) (default "" (sq_skill_description q))) <$> sq_skill_name q;
  pr_continuity := MemoryContinuity_default |}.
Definition try_promote_pattern (agent_id : AgentId) (sequence : StepSequence) : MS (option Procedure) :=
  events ← from_store (fun s => list_events s agent_id 50);
  let similar_count := length (List.filter (similar_event (sq_steps sequence)) events) in
  if similar_count + 1 <? pc_min_occurrences config then mret None else
  now ← now_;
  id ← generate;
  let procedure := learned agent_id id now sequence in
  _ ← on_store (put_procedure procedure);
  _ ← enforce_procedure_capacity agent_id;
  mret (Some procedure).
Definition extract_from_steps (agent_id : AgentId) (sequence : StepSequence) : MS (option Procedure) :=
  if length (sq_steps sequence) <? pc_min_steps config then mret None else
  updated ← try_update_existing agent_id sequence;
  match updated with Some p => mret (Some p) | None => try_promote_pattern agent_id sequence end.
Definition match_score (task_words : list string) (p : Procedure) : option (Procedure * spec_float) :=
  let trigger_words := tokenize_words (pr_trigger p) in
  match overlap_count task_words trigger_words with
  | O => None
  | overlap => Some (p, f32_ratio overlap (Nat.max (length trigger_words) 1))
  end.
Definition match_procedures (agent_id : AgentId) (task_text : string) : MS (list Procedure) :=
  procedures ← from_store (fun s => list_procedures s agent_id);
  mret (fst <$> sort_by (fun a b => F32.gt_or_equal_on_nan b.2 a.2) (omap (match_score (tokenize_words task_text)) procedures)).
Definition record_feedback (agent_id : AgentId) (procedure_id : ProcedureId) (succeeded : bool) (actual_steps : option (list string))
  : MS unit :=
  p ← from_store (fun s => get_procedure s agent_id procedure_id);
  now ← now_;
  updated ← now_;
  let p := used now updated succeeded p in
  on_store (put_procedure (match actual_steps with Some actual => with_steps actual p | None => p end)).
End Procedures.

(** * The manager *)
Section Manager.
Context {S : Type} `{MemoryStoreApi S} `{Hhash : Blake3} `{Hhex : Hex} `{JsonText} `{Prompts} `{Unicode} `{Libm} `{Chrono}.
Context (display : spec_float -> string) (refiner : RefinerConfig) (write_config : WriteConfig) (retrieval_config : RetrievalConfig).
Abbreviation MS := (stm (MemSys S) Failure).

Definition continuity_config (agent_id : AgentId) : MS AgentContinuityConfig :=
  from_store (fun s => get_continuity_config s agent_id).
Definition save_continuity_config (agent_id : AgentId) (config : AgentContinuityConfig) : MS AgentContinuityConfig :=
  _ ← on_store (put_continuity_config agent_id config); mret config.
Definition latest_retrieval_trace (y : MemSys S) (partition_id : AgentId) : option MemoryRetrievalTrace := sy_traces y !! partition_id.
Definition set_trace (partition : AgentId) (t : MemoryRetrievalTrace) (y : MemSys S) : MemSys S := {|
  sy_store := sy_store y; sy_clock := sy_clock y; sy_ids := sy_ids y; sy_model := sy_model y;
  sy_traces := <[partition := t]> (sy_traces y) |}.
(** The prompt up to a memory block that is already there. *)
Definition without_memory (system_prompt : string) : string :=
  match str_split_once (nl +++ "<agent_memory>") system_prompt with Some (before, _) => before | None => system_prompt end.
(** The prompt that results; failures are logged and leave it without memory. *)
Definition prepare_context_with_query (agent_id : AgentId) (system_prompt : string) (q : MemoryQueryContext) : MemSys S -> string * MemSys S :=
  fun y =>
  let prompt := without_memory system_prompt in
  let continuity := match get_continuity_config (sy_store y) agent_id with Ok c => c | Err _ => AgentContinuityConfig_default end in
  if negb (cc_use_memory continuity) then (prompt, y) else
  let q := {| mq_text := mq_text q; mq_active_skills := mq_active_skills q; mq_allow_user_scope := cc_allow_user_scope continuity;
              mq_allow_project_scope := cc_allow_project_scope continuity; mq_access := mq_access q |} in
  let trace_partition := storage_id (mq_access q) agent_id MemoryScope_Agent in
  match retrieve_with_query retrieval_config agent_id q (cc_retrieval_mode continuity) y with
  | (Ok packet, y') =>
      (prompt +++ format_for_prompt packet,
       match pk_trace packet with Some t => set_trace trace_partition t y' | None => y' end)
  | (Err _, y') => (prompt, y')
  end.
Definition prepare_context (agent_id : AgentId) (system_prompt : string) : MemSys S -> string * MemSys S :=
  prepare_context_with_query agent_id system_prompt MemoryQueryContext_default.
(** [process_result_with_source_and_request_context]. *)
Definition process_result (agent_id : AgentId) (summary : TurnSummary) (rq : RefinementRequestContext) (active_skills : list string)
    (session : option string) : MS WriteReport :=
  continuity ← continuity_config agent_id;
  if negb (cc_generate_memory continuity) || bool_decide (cc_write_policy continuity = MemoryWritePolicy_ExplicitOnly)
  then mret WriteReport_default else
  let initial_status := if bool_decide (cc_write_policy continuity = MemoryWritePolicy_Approval)
                        then MemoryStatus_Pending else MemoryStatus_Active in
  ingest display refiner write_config agent_id summary (from_messages (tu_messages summary) (tu_total_text summary)) rq active_skills
    session initial_status.
End Manager.
