(* ===== verification/MemoryProps.v ===== *)
(** What the memory of an agent guarantees: partitions of different projects,
    agents and users are apart; extraction writes no fact that reads as a secret or
    as an instruction; what enters a prompt is admissible and within its budget;
    capacity is enforced on the least important first. *)
From S2P Require Import Prelude Values CoreTypes Seal Rocks RocksStore SideStoresProps Exec Utf8 Text Context ModelRequest MemoryTypes MemoryStore MemoryStoreProps MemoryWrite MemoryRecall.
From stdpp Require Import list sorting.
From Stdlib Require Import Ascii Strings.Byte SpecFloat.

(** * Partitions *)
Section Isolation.
Context `{Hex} `{Blake3}.
Lemma string_app_inj_l (a b c : string) : a +++ b = a +++ c -> b = c.
Proof. induction a as [|x a IH]; [done|]. cbn. intros [= E]. by apply IH. Qed.
Lemma string_app_inj_len (a a' b b' : string) :
  String.length b = String.length b' -> a +++ b = a' +++ b' -> a = a' /\ b = b'.
Proof.
  intros L E. assert (String.length a = String.length a') as L'.
  { apply (f_equal String.length) in E. rewrite !string_app_length in E. lia. }
  clear L. revert a' L' E. induction a as [|x a IH]; intros [|x' a'] L'; try done; cbn; intros E.
  injection E as -> E. injection L' as L'. destruct (IH _ L' E) as [-> ->]. done.
Qed.
Lemma id_to_hex_inj {n} (x y : arr n) : id_to_hex x = id_to_hex y -> x = y.
Proof.
  unfold id_to_hex. intros E. apply arr_eq. pose proof (hex_roundtrip (arr_bytes x)) as Hx. rewrite E, hex_roundtrip in Hx. by injection Hx.
Qed.
(** Whose memories a partition holds. *)
Definition same_owner (c : MemoryAccessContext) (a : AgentId) (s : MemoryScope) (c' : MemoryAccessContext) (a' : AgentId) (s' : MemoryScope) : Prop :=
  s = s' /\ match s with
            | MemoryScope_Agent => ac_project_id c = ac_project_id c' /\ a = a'
            | MemoryScope_Project => ac_project_id c = ac_project_id c'
            | MemoryScope_User => ac_user_id c = ac_user_id c'
            end.
Lemma namespace_inj c a s c' a' s' : missing_scope_identity c s = false -> missing_scope_identity c' s' = false ->
  scope_namespace c a s = scope_namespace c' a' s' -> same_owner c a s c' a' s'.
Proof.
  unfold missing_scope_identity, scope_namespace, same_owner. intros Hs Hs' E.
  destruct s, s'; rewrite ?bool_decide_eq_false in Hs, Hs'; try (by injection E); (split; [done|]); apply string_app_inj_l in E.
  - apply not_eq_None_Some in Hs as [p Hp]. apply not_eq_None_Some in Hs' as [p' Hp']. rewrite Hp, Hp' in *.
    change (default "" (Some p)) with p in E. change (default "" (Some p')) with p' in E.
    apply (string_app_inj_len _ _ (":" +++ id_to_hex a) (":" +++ id_to_hex a')) in E as [-> E'].
    + apply string_app_inj_l in E' as ->%id_to_hex_inj. done.
    + rewrite !string_app_length. unfold id_to_hex. by rewrite !hex_length, !arr_length.
  - apply not_eq_None_Some in Hs as [u Hu]. apply not_eq_None_Some in Hs' as [u' Hu']. rewrite Hu, Hu' in *. cbn in E. by subst.
  - apply not_eq_None_Some in Hs as [p Hp]. apply not_eq_None_Some in Hs' as [p' Hp']. rewrite Hp, Hp' in *. cbn in E. by subst.
Qed.
Definition digest_collision : Prop := exists x y : bytes, x <> y /\ blake3_hash x = blake3_hash y.
Lemma storage_id_inj c a s c' a' s' : missing_scope_identity c s = false -> missing_scope_identity c' s' = false ->
  storage_id c a s = storage_id c' a' s' -> same_owner c a s c' a' s' \/ digest_collision.
Proof.
  unfold storage_id. intros Hs Hs'. rewrite Hs, Hs'. intros E.
  destruct (decide (scope_namespace c a s = scope_namespace c' a' s')) as [En|Hne]; [left; by apply namespace_inj|].
  right. eexists _, _. split; [|exact E]. intros Eb. apply Hne.
  apply (f_equal String.string_of_list_byte) in Eb. rewrite !string_of_to_bytes in Eb. by apply string_app_inj_l in Eb.
Qed.
Lemma elem_of_push_new p x ps : x ∈ push_new p ps <-> x = p \/ x ∈ ps.
Proof.
  unfold push_new. case_bool_decide; [split; [by right|by intros [->|?]]|].
  rewrite elem_of_app, list_elem_of_singleton. naive_solver.
Qed.
Lemma elem_of_readable c a u pr x : x ∈ readable_partitions c a u pr ->
  x = a \/ exists s, missing_scope_identity c s = false /\ x = storage_id c a s
                    /\ (s = MemoryScope_User -> u = true) /\ (s = MemoryScope_Project -> pr = true).
Proof.
  assert (forall (b : bool) p (l : list AgentId) (P : Prop), x ∈ (if b then push_new p l else l) -> (b = true -> x = p -> P) -> (x ∈ l -> P) -> P) as Hstep.
  { intros [] p l P; [rewrite elem_of_push_new|]; naive_solver. }
  unfold readable_partitions. intros Hx. eapply Hstep; [exact Hx|by left|]. clear Hx. intros Hx. eapply Hstep; [exact Hx| |].
  { intros [-> [v Hv]%bool_decide_eq_true]%andb_true_iff ->. right. exists MemoryScope_User. unfold missing_scope_identity. by rewrite Hv. }
  clear Hx. intros Hx. eapply Hstep; [exact Hx| |].
  { intros [-> [v Hv]%bool_decide_eq_true]%andb_true_iff ->. right. exists MemoryScope_Project. unfold missing_scope_identity. by rewrite Hv. }
  clear Hx. case_bool_decide as Hp; intros ->%list_elem_of_singleton; [|by left].
  destruct Hp as [v Hv]. right. exists MemoryScope_Agent. unfold missing_scope_identity. by rewrite Hv.
Qed.
End Isolation.

(** * Sorting and selecting *)
Lemma sort_insert_perm {A} g (x : A) l : sort_insert g x l ≡ₚ x :: l.
Proof.
  induction l as [|y l IH]; cbn; [done|]. destruct (g x y); [|done]. rewrite IH. apply Permutation_swap.
Qed.
Lemma sort_by_perm {A} g (l : list A) : sort_by g l ≡ₚ l.
Proof. unfold sort_by. induction l as [|x l IH]; cbn; [done|]. by rewrite sort_insert_perm, IH. Qed.
Lemma best_sub {A} n (l : list (A * spec_float * spec_float)) : length (best n l) <= n /\ forall x, x ∈ best n l -> x ∈ l.
Proof.
  unfold best. split; [rewrite length_take; lia|]. intros x Hx. rewrite <-(sort_by_perm (fun a b => F32.gt_or_equal_on_nan b.1.2 a.1.2) l).
  rewrite <-(take_drop n (sort_by _ l)), elem_of_app. by left.
Qed.
Definition total {A} (cost : A -> nat) (l : list A) : nat := sum_list (cost <$> l).
Lemma select_budgeted_ok {A} (cost : A -> nat) kind id sc items budget xs sels unspent :
  select_budgeted cost kind id sc items budget = (xs, sels, unspent) ->
  total cost xs + unspent = budget /\ length xs <= length items /\ length sels = length xs
  /\ forall x, x ∈ xs -> exists s r, (x, s, r) ∈ items.
Proof.
  revert budget xs sels unspent. induction items as [|[[x s] r] items IH]; intros budget xs sels unspent E; cbn [select_budgeted] in E.
  { injection E as <- <- <-. split_and!; [done..|]. by intros x ?%elem_of_nil. }
  destruct (Nat.ltb_spec budget (cost x)).
  - destruct (IH _ _ _ _ E) as (? & ? & ? & Hin). split_and!; [done|cbn; lia|done|]. intros z (s' & r' & Hz)%Hin. exists s', r'. by right.
  - destruct (select_budgeted cost kind id sc items (budget - cost x)) as [[xs' sels'] u'] eqn:E'. injection E as <- <- <-.
    destruct (IH _ _ _ _ E') as (Ht & Hl & Hs & Hin). unfold total in *. cbn. split_and!; [lia|lia|by rewrite Hs|].
    intros z [->|(s' & r' & Hz)%Hin]%elem_of_cons; [exists s, r; by left|exists s', r'; by right].
Qed.
(** What is selected from ranked memories: some of those that were scored. *)
Lemma select_best {A} (cost : A -> nat) kind id sc n (score : A -> option (A * spec_float * spec_float)) (l : list A) budget xs sels unspent :
  (forall x y s r, score x = Some (y, s, r) -> y = x) ->
  select_budgeted cost kind id sc (best n (omap score l)) budget = (xs, sels, unspent) ->
  total cost xs + unspent = budget /\ length xs <= n /\ length sels = length xs /\ forall x, x ∈ xs -> x ∈ l.
Proof.
  intros Hscore E. destruct (select_budgeted_ok _ _ _ _ _ _ _ _ _ E) as (Ht & Hl & Hs & Hin).
  destruct (best_sub n (omap score l)) as [Hn Hb]. split_and!; [done|lia|done|].
  intros x (s & r & Hx%Hb)%Hin. apply list_elem_of_omap in Hx as (z & Hz & Hsc). by apply Hscore in Hsc as ->.
Qed.

(** * What enters a prompt *)
Definition may_enter (q : MemoryQueryContext) (c : MemoryContinuity) : Prop :=
  mc_status c = MemoryStatus_Active /\ mc_sensitivity c = MemorySensitivity_Normal
  /\ match mc_scope c with
     | MemoryScope_Agent => True
     | MemoryScope_User => mq_allow_user_scope q = true
     | MemoryScope_Project => mq_allow_project_scope q = true
     end.
Lemma eligible_enters c q : eligible c q = true -> may_enter q c.
Proof.
  unfold eligible, may_enter. rewrite !andb_true_iff, !bool_decide_eq_true. intros [[-> ->] Hs]. split_and!; [done..|].
  by destruct (mc_scope c).
Qed.
Lemma elem_of_filter_bool {A} (P : A -> bool) (l : list A) x : x ∈ List.filter P l <-> x ∈ l /\ P x = true.
Proof. rewrite !list_elem_of_In, List.filter_In. done. Qed.

Section Retrieved.
Context {S : Type} `{MemoryStoreApi S} `{Hhash : Blake3} `{Hhex : Hex} `{JsonText} `{Unicode} `{Libm} `{Chrono}.
Context (config : RetrievalConfig).

Definition packet_cost (p : MemoryPacket) : nat :=
  total estimate_fact_tokens (pk_facts p) + total estimate_event_tokens (pk_events p) + total estimate_procedure_tokens (pk_procedures p).
Lemma from_store_Ok {A} (f : S -> result MemoryError A) y x y' : from_store f y = (Ok x, y') -> f (sy_store y) = Ok x /\ y' = y.
Proof. unfold from_store. intros [= E <-]. by apply map_err_Ok in E. Qed.
Lemma read_partitions_ok ps y read y' : read_partitions config ps y = (Ok read, y') ->
  y' = y /\ (forall f, f ∈ read.1.1 -> exists p l, p ∈ ps /\ list_facts (sy_store y) p = Ok l /\ f ∈ l)
  /\ (forall e, e ∈ read.1.2 -> exists p n l, p ∈ ps /\ list_events (sy_store y) p n = Ok l /\ e ∈ l)
  /\ (forall x, x ∈ read.2 -> exists p l, p ∈ ps /\ list_procedures (sy_store y) p = Ok l /\ x ∈ l).
Proof.
  revert read. induction ps as [|p ps IH]; intros read Hr; cbn [read_partitions] in Hr.
  { injection Hr as <- <-. split_and!; [done|..]; by intros ? ?%elem_of_nil. }
  apply stm_bind_Ok in Hr as (fs & y1 & [Hf ->]%from_store_Ok & Hr). apply stm_bind_Ok in Hr as (es & y2 & [He ->]%from_store_Ok & Hr).
  apply stm_bind_Ok in Hr as (xs & y3 & [Hx ->]%from_store_Ok & Hr). apply stm_bind_Ok in Hr as (more & y4 & Hm & [= <- <-]).
  destruct (IH _ Hm) as (-> & IHf & IHe & IHx). cbn. split_and!; [done|..].
  - intros f [Hin|(q & l & ? & ?)%IHf]%elem_of_app; [exists p, fs; split; [by left|done]|exists q, l; split; [by right|done]].
  - intros e [Hin|(q & n & l & ? & ?)%IHe]%elem_of_app; [eexists p, _, es; split; [by left|done]|exists q, n, l; split; [by right|done]].
  - intros x [Hin|(q & l & ? & ?)%IHx]%elem_of_app; [exists p, xs; split; [by left|done]|exists q, l; split; [by right|done]].
Qed.
Lemma select_memories_ok q mode now read fs es ps qa sels unspent :
  select_memories config q mode now read = ((fs, es, ps), (qa, sels, unspent)) ->
  (forall f, f ∈ fs -> f ∈ read.1.1 /\ admissible_fact config q f = true)
  /\ (forall e, e ∈ es -> e ∈ read.1.2 /\ admissible_event q e = true)
  /\ (forall p, p ∈ ps -> p ∈ read.2 /\ admissible_procedure q p = true)
  /\ length fs <= rv_max_facts config /\ length es <= rv_max_events config /\ length ps <= rv_max_procedures config
  /\ total estimate_fact_tokens fs + total estimate_event_tokens es + total estimate_procedure_tokens ps + unspent = rv_token_budget config
  /\ length sels = length fs + length es + length ps.
Proof.
  unfold select_memories. destruct read as [[facts events] procs]. cbn [fst snd].
  set (qa' := bool_decide (mode = _) && _). set (skills := list_to_set _).
  destruct (select_budgeted estimate_fact_tokens _ _ _ _ _) as [[fs' s1] b1] eqn:E1.
  destruct (select_budgeted estimate_event_tokens _ _ _ _ _) as [[es' s2] b2] eqn:E2.
  destruct (select_budgeted estimate_procedure_tokens _ _ _ _ _) as [[ps' s3] b3] eqn:E3. intros [= <- <- <- <- <- <-].
  apply select_best in E1 as (T1 & L1 & S1 & I1); [|intros x y s r; unfold scored_fact; by case_match; intros [= <- _ _]].
  apply select_best in E2 as (T2 & L2 & S2 & I2); [|intros x y s r; unfold scored_event; by case_match; intros [= <- _ _]].
  apply select_best in E3 as (T3 & L3 & S3 & I3); [|intros x y s r; unfold scored_procedure; by case_match; intros [= <- _ _]].
  split_and!; [intros x Hx%I1; by apply elem_of_filter_bool in Hx|intros x Hx%I2; by apply elem_of_filter_bool in Hx
              |intros x Hx%I3; by apply elem_of_filter_bool in Hx|lia..|]. rewrite !length_app. lia.
Qed.

(** C32: whatever the store answers, every fact retrieved for a prompt is active, not
    sensitive, of an allowed scope, confident enough, free of text that reads as an
    instruction, and was listed under a partition the caller may read; the same
    holds of events and procedures but for confidence; the numbers of each stay
    within their limits; and what they are estimated to cost is what the trace
    says, within the budget. *)
Theorem retrieved_memories_admissible agent_id q mode (y y' : MemSys S) packet
    (Hr : retrieve_with_query config agent_id q mode y = (Ok packet, y')) :
  let ps := readable_partitions (mq_access q) agent_id (mq_allow_user_scope q) (mq_allow_project_scope q) in
  (forall f, f ∈ pk_facts packet ->
     SFleb (rv_min_confidence config) (fa_confidence f) = true /\ may_enter q (fa_continuity f) /\ unsafe_for_prompt (fact_text f) = false
     /\ exists p l, p ∈ ps /\ list_facts (sy_store y) p = Ok l /\ f ∈ l)
  /\ (forall e, e ∈ pk_events packet ->
        may_enter q (ev_continuity e) /\ unsafe_for_prompt (event_text e) = false
        /\ exists p n l, p ∈ ps /\ list_events (sy_store y) p n = Ok l /\ e ∈ l)
  /\ (forall x, x ∈ pk_procedures packet ->
        may_enter q (pr_continuity x) /\ unsafe_for_prompt (procedure_text x) = false
        /\ exists p l, p ∈ ps /\ list_procedures (sy_store y) p = Ok l /\ x ∈ l)
  /\ length (pk_facts packet) <= rv_max_facts config /\ length (pk_events packet) <= rv_max_events config
  /\ length (pk_procedures packet) <= rv_max_procedures config
  /\ packet_cost packet <= rv_token_budget config
  /\ exists t, pk_trace packet = Some t /\ rt_estimated_tokens t = packet_cost packet
     /\ rt_selected_count t = length (pk_facts packet) + length (pk_events packet) + length (pk_procedures packet).
Proof.
  intros ps. unfold retrieve_with_query in Hr.
  apply stm_bind_Ok in Hr as (started & y1 & [= <- <-] & Hr). apply stm_bind_Ok in Hr as (now & y2 & [= <- <-] & Hr).
  apply stm_bind_Ok in Hr as (read & y3 & Hread & Hr). apply read_partitions_ok in Hread as (-> & Rf & Re & Rx). cbn [sy_store] in Rf, Re, Rx.
  destruct (select_memories _ _ _ _ read) as [[[fs es] xs] [[qa sels] unspent]] eqn:Es.
  apply stm_bind_Ok in Hr as ([] & y4 & _ & Hr). apply stm_bind_Ok in Hr as (finished & y5 & _ & [= <- <-]). cbn [pk_facts pk_events pk_procedures pk_trace].
  destruct (select_memories_ok _ _ _ _ _ _ _ _ _ _ Es) as (If & Ie & Ix & Lf & Le & Lx & Ht & Hs). split_and!; try done.
  - intros f Hf. destruct (If f Hf) as [Hin Ha]. unfold admissible_fact in Ha. rewrite !andb_true_iff, negb_true_iff in Ha.
    destruct Ha as [[Hc He] Hu]. split_and!; [done|by apply eligible_enters|done|by apply Rf].
  - intros e He. destruct (Ie e He) as [Hin Ha]. unfold admissible_event in Ha. rewrite !andb_true_iff, negb_true_iff in Ha.
    destruct Ha as [Hel Hu]. split_and!; [by apply eligible_enters|done|by apply Re].
  - intros x Hx. destruct (Ix x Hx) as [Hin Ha]. unfold admissible_procedure in Ha. rewrite !andb_true_iff, negb_true_iff in Ha.
    destruct Ha as [Hel Hu]. split_and!; [by apply eligible_enters|done|by apply Rx].
  - unfold packet_cost. cbn [pk_facts pk_events pk_procedures]. lia.
  - eexists. split; [done|]. unfold packet_cost. cbn [pk_facts pk_events pk_procedures rt_estimated_tokens rt_selected_count]. split; [lia|done].
Qed.
End Retrieved.

(** * What extraction writes *)
Lemma string_map_app f (a b : string) : string_map f (a +++ b) = string_map f a +++ string_map f b.
Proof. induction a as [|c a IH]; [done|]. rewrite string_app_cons. cbn [string_map]. by rewrite IH, string_app_cons. Qed.
Lemma contains_app_l p a b : contains p a = true -> contains p (a +++ b) = true.
Proof.
  rewrite !split_once_contains, !bool_decide_eq_true. intros [[x y] E]. eexists. by eapply split_once_more.
Qed.
Lemma unsafe_app_l a b : unsafe_for_prompt (a +++ b) = false -> unsafe_for_prompt a = false.
Proof.
  rewrite <-!not_true_iff_false. intros Hab Ha. apply Hab. unfold unsafe_for_prompt in *. rewrite orb_true_iff in *.
  destruct Ha as [(n & Hin & Hn)%existsb_exists|(n & Hin & Hn)%existsb_exists]; [left|right]; apply existsb_exists; exists n; (split; [done|]).
  - unfold to_ascii_lowercase. rewrite string_map_app. by apply contains_app_l.
  - by apply contains_app_l.
Qed.
Definition reads_sensitive (text : string) : bool :=
  existsb (fun needle => contains needle (to_ascii_lowercase text)) sensitive_needles.

Section Written.
Context {S : Type} `{MemoryStoreSpec S} `{Hhash : Blake3} `{Hhex : Hex} `{JsonText} `{Prompts} `{Unicode}.
Context (display : spec_float -> string) (refiner : RefinerConfig) (config : WriteConfig).
Abbreviation MS := (stm (MemSys S) Failure).

(** Every run of [m] from a store that satisfies [I] ends in one that does, and what
    it returns satisfies [Q]. *)
Definition yields {A} (I : MemView -> Prop) (m : MS A) (Q : A -> Prop) : Prop :=
  forall y v r y', mem_rep (sy_store y) v -> I v -> m y = (r, y') ->
    (exists v', mem_rep (sy_store y') v' /\ I v') /\ forall x, r = Ok x -> Q x.
Lemma yields_bind {A B} I (m : MS A) (f : A -> MS B) Q R :
  yields I m Q -> (forall x, Q x -> yields I (f x) R) -> yields I (m ≫= f) R.
Proof.
  intros Hm Hf y v r y' Hrep HI [(e & E & ->)|(x & y1 & E & E')]%stm_bind_inv.
  - destruct (Hm _ _ _ _ Hrep HI E) as [? _]. by split.
  - destruct (Hm _ _ _ _ Hrep HI E) as [(v1 & Hrep1 & HI1) HQ]. by apply (Hf x (HQ x eq_refl) y1 v1).
Qed.
Lemma yields_ret {A} I (x : A) (Q : A -> Prop) : Q x -> yields I (mret x) Q.
Proof. intros HQ y v r y' Hrep HI [= <- <-]. split; [by exists v|by intros ? [= <-]]. Qed.
Lemma yields_fails {A} I e (Q : A -> Prop) : yields I (fails e) Q.
Proof. intros y v r y' Hrep HI [= <- <-]. split; [by exists v|done]. Qed.
Lemma yields_lift {A} I (r : result Failure A) : yields I (lift r) (fun _ => True).
Proof. intros y v r' y' Hrep HI [= <- <-]. split; [by exists v|done]. Qed.
Lemma yields_now I : yields I now_ (fun _ => True).
Proof. intros y v r y' Hrep HI [= <- <-]. split; [by exists v|done]. Qed.
Lemma yields_generate I : yields I generate (fun _ => True).
Proof. intros y v r y' Hrep HI [= <- <-]. split; [by exists v|done]. Qed.
Lemma yields_complete I rq : yields I (complete rq) (fun _ => True).
Proof. intros y v r y' Hrep HI [= <- <-]. split; [by exists v|done]. Qed.
Lemma yields_read {A} I (f : S -> result MemoryError A) : yields I (from_store f) (fun _ => True).
Proof. intros y v r y' Hrep HI [= <- <-]. split; [by exists v|done]. Qed.
Lemma yields_store {A} I (m : stm S MemoryError A) :
  (forall s v r s', mem_rep s v -> I v -> m s = (r, s') -> exists v', mem_rep s' v' /\ I v') -> yields I (on_store m) (fun _ => True).
Proof.
  intros Hm y v r y' Hrep HI E. unfold on_store in E. destruct (m (sy_store y)) as [r0 s'] eqn:Em. injection E as <- <-.
  split; [by eapply Hm|done].
Qed.
Lemma yields_for_each {A} I (f : A -> MS unit) l : (forall x, x ∈ l -> yields I (f x) (fun _ => True)) -> yields I (for_each f l) (fun _ => True).
Proof.
  induction l as [|x l IH]; intros Hl; cbn; [by apply yields_ret|].
  eapply yields_bind; [apply Hl; by left|]. intros _ _. apply IH. intros; apply Hl; by right.
Qed.

(** A fact that reads neither as a secret nor as an instruction. *)
Definition clean (f : Fact) : Prop := unsafe_for_prompt (fact_text f) = false /\ reads_sensitive (fact_text f) = false.
Definition all_clean (v : MemView) : Prop := forall k f, mv_facts v !! k = Some f -> clean f.
Lemma clean_same_text f g : fa_key g = fa_key f -> fa_value g = fa_value f -> clean f -> clean g.
Proof. unfold clean, fact_text. by intros -> ->. Qed.
Lemma clean_put_fact f : clean f -> yields all_clean (on_store (put_fact f)) (fun _ => True).
Proof.
  intros Hf. apply yields_store. intros s v r s' Hrep HI E. eapply put_fact_spec in E; [|done]. eexists. split; [exact E|].
  destruct r; [|done]. intros k g Hg. cbn in Hg. apply lookup_insert_Some in Hg as [[_ <-]|[_ Hg]]; [done|by eapply HI].
Qed.
Lemma clean_delete_fact a i : yields all_clean (on_store (delete_fact a i)) (fun _ => True).
Proof.
  apply yields_store. intros s v r s' Hrep HI E. eapply delete_fact_spec in E; [|done]. eexists. split; [exact E|].
  destruct r; [|done]. intros k g Hg. cbn in Hg. apply lookup_delete_Some in Hg as [_ Hg]. by eapply HI.
Qed.
Lemma clean_put_event e : yields all_clean (on_store (put_event e)) (fun _ => True).
Proof.
  apply yields_store. intros s v r s' Hrep HI E. eapply put_event_spec in E; [|done].
  destruct r; [|destruct E as [E|[_ E]]]; by eexists.
Qed.
Lemma clean_delete_event a i : yields all_clean (on_store (delete_event a i)) (fun _ => True).
Proof.
  apply yields_store. intros s v r s' Hrep HI E. eapply delete_event_spec in E; [|done].
  destruct r; [destruct E as (st & _ & E)|destruct E as [[E _]|(st & _ & _ & E)]]; by eexists.
Qed.
Lemma clean_put_procedure p : yields all_clean (on_store (put_procedure p)) (fun _ => True).
Proof. apply yields_store. intros s v r s' Hrep HI E. eapply put_procedure_spec in E; [|done]. destruct r; by eexists. Qed.
Lemma clean_delete_procedure a i : yields all_clean (on_store (delete_procedure a i)) (fun _ => True).
Proof. apply yields_store. intros s v r s' Hrep HI E. eapply delete_procedure_spec in E; [|done]. destruct r; by eexists. Qed.

Lemma passed_clean c : dropped config c = None ->
  unsafe_for_prompt (rc_key c +++ " " +++ json_to_string (rc_value c)) = false
  /\ reads_sensitive (rc_key c +++ " " +++ json_to_string (rc_value c)) = false.
Proof.
  unfold dropped. destruct (candidate_is_sensitive c) eqn:Es; [done|]. destruct (candidate_is_unsafe c) eqn:Eu; [done|]. intros _.
  split; [|done]. unfold candidate_is_unsafe in Eu.
  apply (unsafe_app_l _ (" " +++ default "" (rc_summary c))). rewrite !string_app_assoc. exact Eu.
Qed.
Ltac step := first
  [ eapply yields_bind; [|intros ? _; cbn beta]
  | apply yields_now | apply yields_generate | apply yields_complete | apply yields_read | apply yields_lift
  | apply clean_delete_fact | apply clean_put_event | apply clean_delete_event | apply clean_put_procedure | apply clean_delete_procedure
  | apply yields_for_each; intros ? _ | by apply yields_ret | apply clean_put_fact | case_match ].

Lemma write_fact_clean t c report : has_end (tg_storage_id t) -> dropped config c = None ->
  yields all_clean (write_fact refiner t c report) (fun _ => True).
Proof.
  intros Hb Hc%passed_clean. unfold write_fact. eapply yields_bind; [apply yields_now|]. intros now _.
  eapply (yields_bind _ _ _ (fun o => forall f, o = Some f -> clean f)).
  { intros y v r y' Hrep HI [= <- <-]. split; [by exists v|]. intros o [= <-] f. case_bool_decide; [|done].
    destruct (get_fact_by_key _ _ _) as [o|] eqn:E; [|done]. intros ->.
    eapply get_fact_by_key_spec in E; [|done..]. destruct E as [[i Hi] _]. by eapply HI. }
  intros [f|] Hf; [specialize (Hf f eq_refl)|]; repeat step; first [exact Hc|by eapply clean_same_text; [| |exact Hf]].
Qed.
Lemma write_candidate_clean agent ctx session status acc c : (forall s, has_end (storage_id ctx agent s)) ->
  yields all_clean (write_candidate refiner config agent ctx session status acc c) (fun _ => True).
Proof.
  intros Hb. unfold write_candidate. destruct (dropped config c) eqn:Ed; [by apply yields_ret|].
  eapply yields_bind; [|intros; by apply yields_ret]. destruct (rc_type c).
  - apply write_fact_clean; [apply Hb|done].
  - unfold write_event. repeat step.
  - unfold write_procedure. repeat step.
Qed.
Lemma enforce_capacity_clean a : yields all_clean (enforce_capacity config a) (fun _ => True).
Proof. unfold enforce_capacity. repeat step. Qed.
Lemma write_candidates_clean agent ctx session status cs acc : (forall s, has_end (storage_id ctx agent s)) ->
  yields all_clean (write_candidates refiner config agent ctx session status cs acc) (fun _ => True).
Proof.
  intros Hb. revert acc. induction cs as [|c cs IH]; intros acc; cbn; [by apply yields_ret|].
  eapply yields_bind; [by apply write_candidate_clean|]. intros acc' _. apply IH.
Qed.
(** C38: whatever a turn says and whatever the model answers, ingesting the turn, even
    when it fails on the way, leaves no fact that reads as a secret or as an
    instruction in a memory that had none. *)
Theorem ingest_keeps_facts_clean agent summary turn rq skills session status (y y' : MemSys S) v r
    (Hrep : mem_rep (sy_store y) v) (Hclean : all_clean v)
    (Hbounded : forall s, has_end (storage_id {| ac_project_id := rq_aura_project_id rq; ac_user_id := rq_user_id rq; ac_include_legacy := false |} agent s))
    (Hrun : ingest display refiner config agent summary turn rq skills session status y = (r, y')) :
  exists v', mem_rep (sy_store y') v' /\ all_clean v'.
Proof.
  refine (proj1 ((_ : yields all_clean (ingest display refiner config agent summary turn rq skills session status) (fun _ => True)) y v r y' Hrep Hclean Hrun)).
  unfold ingest. eapply yields_bind; [apply yields_lift|]. intros candidates _.
  destruct candidates, turn; [|by apply yields_ret|..];
    (eapply yields_bind; [unfold extract_and_refine; repeat step|]; intros refined _;
     eapply yields_bind; [by apply write_candidates_clean|]; intros acc _;
     eapply yields_bind; [apply yields_for_each; intros; apply enforce_capacity_clean|]; intros _ _; by apply yields_ret).
Qed.
End Written.

(** * Capacity *)
(** ** The order of floats *)
Definition float_key (x : spec_float) : Z * Z * Z :=
  match x with
  | S754_nan => (0, 0, 0)
  | S754_zero _ => (0, 0, 0)
  | S754_infinity s => (if s then -2 else 2, 0, 0)
  | S754_finite false m e => (1, e, Z.pos m)
  | S754_finite true m e => (-1, - e, - Z.pos m)
  end%Z.
Definition key_lt (a b : Z * Z * Z) : Prop :=
  (a.1.1 < b.1.1 \/ a.1.1 = b.1.1 /\ (a.1.2 < b.1.2 \/ a.1.2 = b.1.2 /\ a.2 < b.2))%Z.
Lemma float_gt_key x y : F32.is_nan x = false -> F32.is_nan y = false ->
  F32.gt_or_equal_on_nan x y = true <-> key_lt (float_key y) (float_key x).
Proof.
  unfold F32.gt_or_equal_on_nan, key_lt. destruct x as [[]|[]| |[] mx ex], y as [[]|[]| |[] my ey]; cbn; intros ? ?; try done; try lia.
  - destruct (Z.compare_spec ex ey); cbn; [|lia..]. rewrite Pos.compare_cont_spec. destruct (Pos.compare_spec mx my); cbn; lia.
  - destruct (Z.compare_spec ex ey); cbn; [|lia..]. rewrite Pos.compare_cont_spec. destruct (Pos.compare_spec mx my); cbn; lia.
Qed.
Lemma float_ge_trans x y z : F32.is_nan x = false -> F32.is_nan y = false -> F32.is_nan z = false ->
  F32.gt_or_equal_on_nan x y = false -> F32.gt_or_equal_on_nan y z = false -> F32.gt_or_equal_on_nan x z = false.
Proof.
  intros Hx Hy Hz. rewrite <-!not_true_iff_false, !float_gt_key by done. unfold key_lt. lia.
Qed.
Lemma float_gt_asym x y : F32.gt_or_equal_on_nan x y = true -> F32.gt_or_equal_on_nan y x = false.
Proof.
  intros Hxy. destruct (F32.is_nan x) eqn:Ex; [by destruct x|]. destruct (F32.is_nan y) eqn:Ey; [by destruct y|].
  rewrite <-not_true_iff_false. rewrite float_gt_key in * by done. unfold key_lt in *. lia.
Qed.
Lemma sort_by_sorted {A} (P : A -> Prop) (g : A -> A -> bool) (l : list A) :
  (forall x y z, P x -> P y -> P z -> g x y = false -> g y z = false -> g x z = false) ->
  (forall x y, g x y = true -> g y x = false) -> Forall P l -> StronglySorted (fun x y => g x y = false) (sort_by g l).
Proof.
  intros Htr Has. unfold sort_by. induction 1 as [|x l Hx Hl IH]; cbn; [constructor|].
  assert (Forall P (foldr (sort_insert g) [] l)) as HP by (by rewrite (sort_by_perm g l : foldr _ _ _ ≡ₚ l)).
  induction IH as [|y r IHs IH' Hy]; cbn; [repeat constructor|]. inversion HP as [|?? Hpy HPr]; subst. destruct (g x y) eqn:Eg.
  - constructor; [by apply IH'|]. rewrite sort_insert_perm. constructor; [by apply Has|done].
  - constructor; [by constructor|]. constructor; [done|]. rewrite Forall_forall in *. intros z Hz.
    apply (Htr x y z); [done|done|by apply HPr|done|by apply Hy].
Qed.
(** ** Counting what is left *)
Lemma strict_sorted_nodup {A} (R : A -> A -> Prop) (l : list A) : (forall x, ~ R x x) -> StronglySorted R l -> NoDup l.
Proof.
  intros Hirr. induction 1 as [|x l Hs IH Hall]; constructor; [|done]. rewrite Forall_forall in Hall. intros Hx. by apply (Hirr x), Hall.
Qed.
Lemma evicted_perm {A} (id : A -> arr 16) (a : AgentId) (t t' : gmap (AgentId * arr 16) A) (l sorted l' : list A) (n : nat) :
  sorted ≡ₚ l -> NoDup l -> (forall x, x ∈ l <-> exists i, t !! (a, i) = Some x) -> (forall i x, t !! (a, i) = Some x -> id x = i) ->
  (forall k x, t' !! k = Some x <-> t !! k = Some x /\ forall d, d ∈ take n sorted -> k <> (a, id d)) ->
  NoDup l' -> (forall x, x ∈ l' <-> exists i, t' !! (a, i) = Some x) -> l' ≡ₚ drop n sorted.
Proof.
  intros Hp Hnd Hl Hid Ht Hnd' Hl'. assert (NoDup sorted) as Hns by by rewrite Hp.
  rewrite <-(take_drop n sorted) in Hns. apply NoDup_app in Hns as (_ & Hdisj & Hnd2).
  apply NoDup_Permutation; [done|done|]. intros x. rewrite Hl'. split.
  - intros (i & [Hx Hd]%Ht). assert (x ∈ sorted) as Hs by (rewrite Hp; apply Hl; eauto).
    rewrite <-(take_drop n sorted), elem_of_app in Hs. destruct Hs as [Hs|?]; [|done].
    exfalso. apply (Hd x Hs). by rewrite (Hid _ _ Hx).
  - intros Hx. assert (x ∈ sorted) as Hs by (rewrite <-(take_drop n sorted), elem_of_app; by right).
    rewrite Hp in Hs. apply Hl in Hs as [i Hi]. exists i. apply Ht. split; [done|]. intros d Hd [= ->].
    assert (d ∈ l) as Hdl by (rewrite <-Hp, <-(take_drop n sorted), elem_of_app; by left).
    apply Hl in Hdl as [i' Hi']. rewrite (Hid _ _ Hi'), Hi' in Hi. injection Hi as ->. by apply (Hdisj x).
Qed.
Lemma sublist_sorted {A} (R : A -> A -> Prop) (k l : list A) : k `sublist_of` l -> StronglySorted R l -> StronglySorted R k.
Proof.
  induction 1 as [|x k l Hs IH|x k l Hs IH]; intros Hl; [constructor|inversion Hl; subst..]; [constructor; [auto|]|auto].
  eapply Forall_forall. intros y Hy. by eapply Forall_forall; [|eapply sublist_submseteq in Hs; by eapply elem_of_submseteq].
Qed.

Section Capacity.
Context {S : Type} `{MemoryStoreSpec S} (config : WriteConfig).
Abbreviation MS := (stm (MemSys S) Failure).

Lemma on_store_Ok {A} (m : stm S MemoryError A) (y y' : MemSys S) x : on_store m y = (Ok x, y') -> m (sy_store y) = (Ok x, sy_store y').
Proof. unfold on_store. destruct (m (sy_store y)) as [r s]. intros [= E <-]. by apply map_err_Ok in E as ->. Qed.
Lemma for_each_fold {A} (f : A -> MS unit) (g : A -> MemView -> MemView) l (y y' : MemSys S) v :
  (forall x (y y' : MemSys S) v, mem_rep (sy_store y) v -> f x y = (Ok tt, y') -> mem_rep (sy_store y') (g x v)) ->
  mem_rep (sy_store y) v -> for_each f l y = (Ok tt, y') -> mem_rep (sy_store y') (foldl (fun v x => g x v) v l).
Proof.
  intros Hf. revert y v. induction l as [|x l IH]; intros y v Hrep Hr; cbn in Hr; [by injection Hr as <-|].
  apply stm_bind_Ok in Hr as ([] & y1 & Hx & Hr). cbn. eapply IH; [|done]. by eapply Hf.
Qed.
Lemma deleted_facts a ds v k f : mv_facts (foldl (fun v d => v_delete_fact a (fa_fact_id d) v) v ds) !! k = Some f
  <-> mv_facts v !! k = Some f /\ forall d, d ∈ ds -> k <> (a, fa_fact_id d).
Proof.
  revert v. induction ds as [|d ds IH]; intros v; cbn; [split; [intros ?; split; [done|by intros ? ?%elem_of_nil]|by intros [? _]]|].
  rewrite IH. cbn. rewrite lookup_delete_Some. setoid_rewrite elem_of_cons. naive_solver.
Qed.
Lemma deleted_facts_rest a (ds : list Fact) v : let v' := foldl (fun v d => v_delete_fact a (fa_fact_id d) v) v ds in
  mv_events v' = mv_events v /\ mv_index v' = mv_index v /\ mv_procedures v' = mv_procedures v.
Proof. cbn. revert v. induction ds as [|d ds IH]; intros v; cbn; [done|]. destruct (IH (v_delete_fact a (fa_fact_id d) v)) as (-> & -> & ->). done. Qed.
Lemma deleted_procedures a ds v k p : mv_procedures (foldl (fun v d => v_delete_procedure a (pr_procedure_id d) v) v ds) !! k = Some p
  <-> mv_procedures v !! k = Some p /\ forall d, d ∈ ds -> k <> (a, pr_procedure_id d).
Proof.
  revert v. induction ds as [|d ds IH]; intros v; cbn; [split; [intros ?; split; [done|by intros ? ?%elem_of_nil]|by intros [? _]]|].
  rewrite IH. cbn. rewrite lookup_delete_Some. setoid_rewrite elem_of_cons. naive_solver.
Qed.
Lemma deleted_procedures_rest a (ds : list Procedure) v : let v' := foldl (fun v d => v_delete_procedure a (pr_procedure_id d) v) v ds in
  mv_facts v' = mv_facts v /\ mv_events v' = mv_events v.
Proof. cbn. revert v. induction ds as [|d ds IH]; intros v; cbn; [done|]. destruct (IH (v_delete_procedure a (pr_procedure_id d) v)) as (-> & ->). done. Qed.

(** Facts: the least important ones are gone. *)
Lemma evict_facts a facts (y y' : MemSys S) v : has_end a -> mem_rep (sy_store y) v -> list_facts (sy_store y) a = Ok facts ->
  (if wc_max_facts_per_agent config <? length facts then
     for_each (fun f => on_store (delete_fact a (fa_fact_id f)))
       (take (length facts - wc_max_facts_per_agent config)
          (sort_by (fun a b => F32.gt_or_equal_on_nan (fa_importance a) (fa_importance b)) facts))
   else mret tt) y = (Ok tt, y') ->
  exists ds, mem_rep (sy_store y') (foldl (fun v d => v_delete_fact a (fa_fact_id d) v) v ds)
    /\ ds = take (length facts - wc_max_facts_per_agent config)
              (sort_by (fun a b => F32.gt_or_equal_on_nan (fa_importance a) (fa_importance b)) facts).
Proof.
  intros Hb Hrep Hl Hr. eexists. split; [|done]. destruct (Nat.ltb_spec (wc_max_facts_per_agent config) (length facts)).
  - eapply for_each_fold; [|exact Hrep|exact Hr]. intros x y1 y1' v1 Hrep1 E%on_store_Ok. by eapply delete_fact_spec in E.
  - injection Hr as <-. replace (length facts - wc_max_facts_per_agent config) with 0 by lia. done.
Qed.
Lemma evict_procedures a procs (y y' : MemSys S) v : has_end a -> mem_rep (sy_store y) v -> list_procedures (sy_store y) a = Ok procs ->
  (if wc_max_procedures_per_agent config <? length procs then
     for_each (fun p => on_store (delete_procedure a (pr_procedure_id p)))
       (take (length procs - wc_max_procedures_per_agent config)
          (sort_by (fun a b => F32.gt_or_equal_on_nan (use_score a) (use_score b)) procs))
   else mret tt) y = (Ok tt, y') ->
  exists ds, mem_rep (sy_store y') (foldl (fun v d => v_delete_procedure a (pr_procedure_id d) v) v ds)
    /\ ds = take (length procs - wc_max_procedures_per_agent config)
              (sort_by (fun a b => F32.gt_or_equal_on_nan (use_score a) (use_score b)) procs).
Proof.
  intros Hb Hrep Hl Hr. eexists. split; [|done]. destruct (Nat.ltb_spec (wc_max_procedures_per_agent config) (length procs)).
  - eapply for_each_fold; [|exact Hrep|exact Hr]. intros x y1 y1' v1 Hrep1 E%on_store_Ok. by eapply delete_procedure_spec in E.
  - injection Hr as <-. replace (length procs - wc_max_procedures_per_agent config) with 0 by lia. done.
Qed.
(** Events: an event is deleted through the index, which must know it. *)
Definition indexed (v : MemView) (a : AgentId) : Prop :=
  forall s i e, mv_events v !! (a, s, i) = Some e -> mv_index v !! (a, i) = Some s.
Lemma evict_events a ds (y y' : MemSys S) v : mem_rep (sy_store y) v -> indexed v a ->
  for_each (fun e => on_store (delete_event a (ev_event_id e))) ds y = (Ok tt, y') ->
  exists v', mem_rep (sy_store y') v' /\ mv_facts v' = mv_facts v /\ mv_procedures v' = mv_procedures v /\ indexed v' a
    /\ (forall k e, mv_events v' !! k = Some e -> mv_events v !! k = Some e)
    /\ (forall s i e d, mv_events v' !! (a, s, i) = Some e -> d ∈ ds -> i <> ev_event_id d)
    /\ (forall b s i e, mv_events v !! (b, s, i) = Some e -> (b = a -> forall d, d ∈ ds -> i <> ev_event_id d) ->
          mv_events v' !! (b, s, i) = Some e).
Proof.
  revert y v. induction ds as [|d ds IH]; intros y v Hrep Hidx Hr; cbn in Hr.
  { injection Hr as <-. exists v. split_and!; try done. by intros ? ? ? ? _ ?%elem_of_nil. }
  apply stm_bind_Ok in Hr as ([] & y1 & Hd%on_store_Ok & Hr). eapply delete_event_spec in Hd; [|exact Hrep].
  destruct Hd as (st & Hst & Hrep1). destruct (IH _ _ Hrep1) as (v' & Hrep' & Hf & Hp & Hidx' & Hsub & Hgone & Hkept); [|done|].
  { intros s i e He. cbn in He. apply lookup_delete_Some in He as [Hne He]. cbn. rewrite lookup_delete_ne; [by eapply Hidx|].
    intros [= <-]. apply Hidx in He as Hs. rewrite Hst in Hs. by injection Hs as ->. }
  exists v'. split_and!; [done..| | |].
  - intros k e He%Hsub. cbn in He. by apply lookup_delete_Some in He as [_ ?].
  - intros s i e d' He [->|Hd']%elem_of_cons; [|by eapply Hgone].
    apply Hsub in He. cbn in He. apply lookup_delete_Some in He as [Hne He]. intros ->. apply Hne. apply Hidx in He. rewrite Hst in He.
    by injection He as ->.
  - intros b s i e He Hne. apply Hkept; [|intros -> d' Hd'; apply Hne; [done|by right]].
    cbn. rewrite lookup_delete_ne; [done|]. intros [= <- _ Ei]. apply (Hne eq_refl d); [by left|done].
Qed.

(** The events that stay: the newest up to the limit, and the ones more than a hundred
    beyond it, which are not looked at. *)
Definition kept_events (limit : nat) (l : list AgentEvent) : list AgentEvent := take limit l ++ drop (limit + 100) l.
Lemma evict_events_kept a events (y y' : MemSys S) v : has_end a -> mem_rep (sy_store y) v -> indexed v a ->
  list_events (sy_store y) a (wc_max_events_per_agent config + 100) = Ok events ->
  (if wc_max_events_per_agent config <? length events then
     for_each (fun e => on_store (delete_event a (ev_event_id e))) (drop (wc_max_events_per_agent config) events)
   else mret tt) y = (Ok tt, y') ->
  exists v', mem_rep (sy_store y') v' /\ mv_facts v' = mv_facts v /\ mv_procedures v' = mv_procedures v
    /\ (forall b s i, b <> a -> mv_events v' !! (b, s, i) = mv_events v !! (b, s, i))
    /\ exists all, events_of v a all /\ events_of v' a (kept_events (wc_max_events_per_agent config) all).
Proof.
  intros Hend Hrep Hidx Hl Hr. destruct (list_events_spec _ _ _ _ _ Hend Hrep Hl) as (all & Hall & ->).
  set (L := wc_max_events_per_agent config) in *. replace (Nat.max 1 (L + 100)) with (L + 100) in Hr by lia.
  unfold kept_events. destruct (Nat.ltb_spec L (length (take (L + 100) all))) as [Hlt|Hge]; rewrite length_take in *.
  2: { injection Hr as <-. exists v. split_and!; [done..|]. exists all. split; [done|].
       by rewrite take_ge, drop_ge, app_nil_r by lia. }
  destruct (evict_events _ _ _ _ _ Hrep Hidx Hr) as (v' & Hrep' & Ef & Ep & _ & Hsub & Hgone & Hkept).
  exists v'. split_and!; [done..| |].
  { intros b s i Hb. destruct (mv_events v !! (b, s, i)) as [e|] eqn:E; [by apply Hkept|].
    destruct (mv_events v' !! (b, s, i)) as [e|] eqn:E'; [|done]. apply Hsub in E'. congruence. }
  exists all. split; [done|]. set (ds := drop L (take (L + 100) all)) in *. destruct Hall as [Hs Hin].
  assert (all = take L all ++ ds ++ drop (L + 100) all) as Eall.
  { unfold ds. rewrite <-(take_drop L all) at 1. f_equal. rewrite skipn_firstn_comm.
    replace (L + 100 - L) with 100 by lia. rewrite <-(take_drop 100 (drop L all)) at 1. by rewrite drop_drop. }
  assert (NoDup all) as Hnd.
  { eapply strict_sorted_nodup; [|exact Hs]. intros e He. cbn in He. by rewrite lex_lt_irrefl in He. }
  destruct (rep_wf _ _ Hrep) as (_ & W & _).
  assert (forall e d, e ∈ all -> d ∈ all -> ev_event_id e = ev_event_id d -> e = d) as Huniq.
  { intros e d (s1 & i1 & E1)%Hin (s2 & i2 & E2)%Hin Eid. pose proof (Hidx _ _ _ E1) as X1. pose proof (Hidx _ _ _ E2) as X2.
    destruct (W _ _ _ _ E1) as (_ & _ & <-), (W _ _ _ _ E2) as (_ & _ & <-). rewrite Eid in *. congruence. }
  split.
  - eapply sublist_sorted; [|exact Hs]. rewrite Eall at 3. apply sublist_app; [done|]. by apply sublist_inserts_l.
  - intros e. rewrite Eall in Hnd. apply NoDup_app in Hnd as (_ & Hd1 & Hnd). apply NoDup_app in Hnd as (_ & Hd2 & _).
    rewrite elem_of_app. split.
    + intros He. assert (e ∈ all) as Hea by (rewrite Eall, !elem_of_app; tauto).
      assert (e ∉ ds) as Hds by (destruct He as [He|He]; [intros Hx; apply (Hd1 e He); rewrite elem_of_app; by left|intros Hx; by apply (Hd2 e)]).
      apply Hin in Hea as Hv. destruct Hv as (s & i & Ev). exists s, i. apply Hkept; [done|]. intros _ d Hd ->.
      assert (d ∈ all) as Hda by (rewrite Eall, !elem_of_app; tauto).
      destruct (W _ _ _ _ Ev) as (_ & _ & Eid). by rewrite (Huniq e d Hea Hda Eid) in Hds.
    + intros (s & i & Ev). pose proof (Hsub _ _ Ev) as Ev0. assert (e ∈ all) as Hea by (apply Hin; eauto).
      rewrite Eall, !elem_of_app in Hea. destruct Hea as [?|[Hd|?]]; [by left| |by right].
      destruct (W _ _ _ _ Ev0) as (_ & _ & <-). by destruct (Hgone _ _ _ _ Ev Hd).
Qed.
(** What is taken from the front of the sorted records does not count for more than what
    is left. *)
Lemma evicted_least {A} (id : A -> arr 16) (score : A -> spec_float) (a : AgentId) (t t' : gmap (AgentId * arr 16) A)
    (l sorted : list A) (n : nat) i j x y :
  sorted = sort_by (fun x y => F32.gt_or_equal_on_nan (score x) (score y)) l ->
  (forall x, x ∈ l <-> exists i, t !! (a, i) = Some x) -> (forall i x, t !! (a, i) = Some x -> id x = i) ->
  (forall k x, t' !! k = Some x <-> t !! k = Some x /\ forall d, d ∈ take n sorted -> k <> (a, id d)) ->
  (forall i x, t !! (a, i) = Some x -> F32.is_nan (score x) = false) ->
  t !! (a, i) = Some x -> t' !! (a, i) = None -> t' !! (a, j) = Some y ->
  F32.gt_or_equal_on_nan (score x) (score y) = false.
Proof.
  intros Hsort Hl Hid Ht Hnan Hx Hgone Hy.
  assert (sorted ≡ₚ l) as Hp by (rewrite Hsort; apply sort_by_perm).
  assert (x ∈ take n sorted) as Hxd.
  { destruct (decide (i ∈ id <$> take n sorted)) as [(d & -> & Hd)%list_elem_of_fmap|Hno].
    - assert (d ∈ l) as Hdl by (rewrite <-Hp, <-(take_drop n sorted), elem_of_app; by left).
      apply Hl in Hdl as [i' Hi']. rewrite (Hid _ _ Hi'), Hi' in Hx. by injection Hx as ->.
    - assert (t' !! (a, i) = Some x) as E; [|by rewrite E in Hgone]. apply Ht. split; [done|].
      intros d Hd [= ->]. apply Hno, list_elem_of_fmap. by exists d. }
  assert (y ∈ drop n sorted) as Hyd.
  { apply Ht in Hy as [Hy Hkept]. assert (y ∈ sorted) as Hys by (rewrite Hp; apply Hl; eauto).
    rewrite <-(take_drop n sorted), elem_of_app in Hys. destruct Hys as [Hys|?]; [|done].
    exfalso. apply (Hkept y Hys). by rewrite (Hid _ _ Hy). }
  assert (StronglySorted (fun x y => F32.gt_or_equal_on_nan (score x) (score y) = false) sorted) as Hsorted.
  { rewrite Hsort. apply (sort_by_sorted (fun x => F32.is_nan (score x) = false)); [intros ? ? ?; apply float_ge_trans|intros ? ?; apply float_gt_asym|].
    apply Forall_forall. intros z [i' Hz]%Hl. by eapply Hnan. }
  rewrite <-(take_drop n sorted) in Hsorted. apply StronglySorted_app in Hsorted as (Hlt & _ & _). by apply Hlt.
Qed.

(** What enforcing a limit does to the records of an agent, by the score that decides who
    stays: [lists t l] says that [l] are the records of the agent in [t]. *)
Record capped {A} (a : AgentId) (limit : nat) (score : A -> spec_float) (t t' : gmap (AgentId * arr 16) A)
    (lists lists' : list A -> Prop) : Prop := {
  cap_others b i : b <> a -> t' !! (b, i) = t !! (b, i);
  cap_kept k x : t' !! k = Some x -> t !! k = Some x;
  cap_count l l' : lists l -> lists' l' -> length l' = Nat.min limit (length l);
  cap_least : (forall i x, t !! (a, i) = Some x -> F32.is_nan (score x) = false) ->
    forall i j x y, t !! (a, i) = Some x -> t' !! (a, i) = None -> t' !! (a, j) = Some y ->
    F32.gt_or_equal_on_nan (score x) (score y) = false;
}.
Lemma capped_by_deletion {A} (id : A -> arr 16) (score : A -> spec_float) (a : AgentId) (t t' : gmap (AgentId * arr 16) A)
    (l0 : list A) limit (lists lists' : list A -> Prop) :
  let sorted := sort_by (fun x y => F32.gt_or_equal_on_nan (score x) (score y)) l0 in
  (forall l, lists l -> NoDup l /\ forall x, x ∈ l <-> exists i, t !! (a, i) = Some x) -> lists l0 ->
  (forall l, lists' l -> NoDup l /\ forall x, x ∈ l <-> exists i, t' !! (a, i) = Some x) ->
  (forall i x, t !! (a, i) = Some x -> id x = i) ->
  (forall k x, t' !! k = Some x <-> t !! k = Some x /\ forall d, d ∈ take (length l0 - limit) sorted -> k <> (a, id d)) ->
  capped a limit score t t' lists lists'.
Proof.
  intros sorted Hlists H0' Hlists' Hid Ht. destruct (Hlists _ H0') as [Hnd Hl]. split.
  - intros b i Hb. apply option_eq. intros x. rewrite Ht. split; [by intros [? _]|]. intros Hx. split; [done|]. intros d _ [= ? _]. done.
  - by intros k x [? _]%Ht.
  - intros l l' [Hnd1 Hl1]%Hlists [Hnd2 Hl2]%Hlists'.
    assert (l ≡ₚ l0) as -> by (apply NoDup_Permutation; [done..|]; intros x; by rewrite Hl1, Hl).
    assert (sorted ≡ₚ l0) as Hp by apply sort_by_perm.
    rewrite (evicted_perm id a t t' l0 sorted l' _ Hp Hnd Hl Hid Ht Hnd2 Hl2), length_drop, Hp. lia.
  - intros Hnan i j x y. by apply (evicted_least id score a t t' l0 sorted (length l0 - limit)).
Qed.
Lemma facts_listed v a l : facts_of v a l -> NoDup l /\ forall x, x ∈ l <-> exists i, mv_facts v !! (a, i) = Some x.
Proof. intros [Hs Hin]. split; [|done]. eapply strict_sorted_nodup; [|exact Hs]. intros x Hx. cbn in Hx. by rewrite lex_lt_irrefl in Hx. Qed.
Lemma procedures_listed v a l :
  procedures_of v a l -> NoDup l /\ forall x, x ∈ l <-> exists i, mv_procedures v !! (a, i) = Some x.
Proof. intros [Hs Hin]. split; [|done]. eapply strict_sorted_nodup; [|exact Hs]. intros x Hx. cbn in Hx. by rewrite lex_lt_irrefl in Hx. Qed.

(** C37: enforcing the capacity of an agent evicts as much as its limits ask for and no
    more: of its facts and of its procedures the limit or all are left, whichever is
    fewer, and, as long as no score is not a number, none that is gone scored higher
    (facts by importance, procedures by use) than one that is left; of its events the
    newest up to the limit are left, and those more than a hundred beyond it, which are
    not looked at.  Nothing is added or altered, and the memories of other agents stay.
    The events of the agent are indexed, as [put_event] leaves them; an agent without a
    key after all its keys is excluded. *)
Theorem capacity_enforced a (y y' : MemSys S) v
    (Hrep : mem_rep (sy_store y) v) (Hend : has_end a) (Hindexed : indexed v a) (Hrun : enforce_capacity config a y = (Ok tt, y')) :
  exists v', mem_rep (sy_store y') v'
  /\ capped a (wc_max_facts_per_agent config) fa_importance (mv_facts v) (mv_facts v') (facts_of v a) (facts_of v' a)
  /\ capped a (wc_max_procedures_per_agent config) use_score (mv_procedures v) (mv_procedures v')
       (procedures_of v a) (procedures_of v' a)
  /\ (exists all, events_of v a all /\ events_of v' a (kept_events (wc_max_events_per_agent config) all))
  /\ (forall b s i, b <> a -> mv_events v' !! (b, s, i) = mv_events v !! (b, s, i)).
Proof.
  unfold enforce_capacity in Hrun. apply stm_bind_Ok in Hrun as (facts & y1 & [Hfacts ->]%from_store_Ok & Hrun).
  apply stm_bind_Ok in Hrun as ([] & y2 & Hef & Hrun). apply stm_bind_Ok in Hrun as (events & y3 & [Hevents ->]%from_store_Ok & Hrun).
  apply stm_bind_Ok in Hrun as ([] & y4 & Hee & Hrun). apply stm_bind_Ok in Hrun as (procs & y5 & [Hprocs ->]%from_store_Ok & Hrun).
  destruct (evict_facts _ _ _ _ _ Hend Hrep Hfacts Hef) as (ds & Hrep1 & Hds).
  set (v1 := foldl (fun v d => v_delete_fact a (fa_fact_id d) v) v ds) in *.
  destruct (deleted_facts_rest a ds v) as (Ee & Ei & Epr). fold v1 in Ee, Ei, Epr.
  assert (indexed v1 a) as Hidx1 by (unfold indexed; rewrite Ee, Ei; exact Hindexed).
  destruct (evict_events_kept _ _ _ _ _ Hend Hrep1 Hidx1 Hevents Hee) as (v2 & Hrep2 & Ef2 & Ep2 & Hoth & all & Hall & Hkept).
  destruct (evict_procedures _ _ _ _ _ Hend Hrep2 Hprocs Hrun) as (dp & Hrep3 & Hdp).
  set (v3 := foldl (fun v d => v_delete_procedure a (pr_procedure_id d) v) v2 dp) in *.
  destruct (deleted_procedures_rest a dp v2) as (Ef3 & Ee3). fold v3 in Ef3, Ee3. rewrite Ef2 in Ef3.
  destruct (rep_wf _ _ Hrep) as (W & _ & Wp). rewrite Epr in Ep2. exists v3. split_and!; [done|..].
  - eapply (capped_by_deletion fa_fact_id fa_importance a _ _ facts);
      [apply facts_listed|by eapply list_facts_spec|apply facts_listed|by intros i x []%W|].
    rewrite <-Hds, Ef3. apply deleted_facts.
  - eapply (capped_by_deletion pr_procedure_id use_score a _ _ procs);
      [apply procedures_listed| |apply procedures_listed|by intros i x []%Wp|].
    + assert (procedures_of v2 a procs) as Hp by by eapply list_procedures_spec. unfold procedures_of in *. by rewrite Ep2 in Hp.
    + intros k x. rewrite <-Hdp, <-Ep2. apply deleted_procedures.
  - exists all. split; [unfold events_of in *; by rewrite Ee in Hall|unfold events_of in *; by rewrite Ee3].
  - intros b s i Hb. by rewrite Ee3, Hoth, Ee.
Qed.
End Capacity.

(** * Examples *)
Module MemoryExample.
Import MemoryStoreExample.
#[local] Existing Instances float_eq_dec provenance_eq_dec continuity_eq_dec source_eq_dec fact_eq_dec event_eq_dec procedure_eq_dec config_eq_dec.
#[local] Existing Instances toy_aead lower_hex toy_blake3 millis millis_ok syntax_errors.
#[local] Instance strings_only : JsonText := fun v => match v with JString s => quoted s | _ => "null" end.
#[local] Instance ascii_text : Unicode := {|
  is_alphanumeric := fun c => match c with [b] => is_digit (byte_to_Z b) || (97 <=? byte_to_Z b)%Z && (byte_to_Z b <=? 122)%Z | _ => false end;
  to_lowercase := to_ascii_lowercase |}.
#[local] Instance flat_libm : Libm := {| exp_f32 := fun _ => f32_lit 1 1; ln_f32 := fun _ => f32_lit 1 1; ln_1p_f32 := fun _ => f32_lit 1 1 |}.
#[local] Instance no_prompts : Prompts := Build_Prompts "" "" "" "" "" "" "".
Definition refiner : RefinerConfig := {| rf_model := "small"; rf_auth_token := None |}.
Definition limits : WriteConfig := {|
  wc_confidence_floor := f32_lit 5 10; wc_max_facts_per_agent := 2; wc_max_events_per_agent := 2; wc_max_procedures_per_agent := 2 |}.
Definition fact (i : byte) (k v : string) (importance : Z) : Fact := {|
  fa_fact_id := id i; fa_agent_id := agent; fa_key := k; fa_value := JString v; fa_confidence := f32_lit 8 10;
  fa_source := FactSource_Extracted; fa_importance := f32_lit importance 10; fa_access_count := 0; fa_last_accessed := 0;
  fa_created_at := 0; fa_updated_at := 0; fa_continuity := MemoryContinuity_default |}.
Definition f1 : Fact := fact "001" "editor" "vim" 5.
Definition f2 : Fact := fact "002" "language" "Rust" 9.
Definition f3 : Fact := fact "003" "shell" "zsh" 7.
Definition parsed (k v : string) : RefinedCandidate := {|
  rc_type := CandidateType_Fact; rc_key := k; rc_value := JString v; rc_summary := None; rc_confidence := f32_lit 8 10;
  rc_importance := f32_lit 5 10; rc_keep := true; rc_scope := MemoryScope_Agent; rc_trigger := None; rc_steps := None; rc_skill_name := None |}.
Definition target (status : MemoryStatus) : Target := {|
  tg_storage_id := agent; tg_contributor := agent; tg_session := None; tg_status := status; tg_scope := MemoryScope_Agent;
  tg_ctx := MemoryAccessContext_default |}.
Definition written : Fact := new_fact refiner (target MemoryStatus_Active) (parsed "editor" "vim") (id "009") 0 MemoryStatus_Active.
Definition merged : Fact := consolidated 0 (replace_value "value=both" f2).
Definition evolved : Fact := consolidated 0 (replace_confidence "confidence=0.9" f2).
Definition learnt : Fact := insight agent (id "009") 0 "login" "password=hunter2" MemoryContinuity_default.
Definition rejected : Fact := f1 <| fa_continuity := MemoryContinuity_default <| mc_status := MemoryStatus_Rejected |> |>.
Definition confirmed : Fact := rejected <| fa_importance := f32_lit 5 10 |>.
Definition pinned : Fact := f1 <| fa_continuity := MemoryContinuity_default <| mc_pinned := true |> |>.
#[local] Instance facts_serde : Serde Fact :=
  table_serde [f1; f2; f3; touched 0 f1; touched 0 f2; touched 0 f3; written; merged; evolved; learnt; rejected; confirmed; pinned].
#[local] Instance facts_serde_ok : SerdeOk Fact := table_serde_ok _.
#[local] Existing Instances event_serde event_serde_ok procedure_serde procedure_serde_ok config_serde config_serde_ok.

Definition says (answer : string) : MemSys (RocksStore MemDB) := {|
  sy_store := store0; sy_clock := fun _ => 0%Z; sy_ids := fun _ => id "009";
  sy_model := fun _ _ => Ok {| msg_role := Role_Assistant; msg_content := [ContentBlock_Text answer] |}; sy_traces := ∅ |}.
Fixpoint putting (fs : list Fact) (s : RocksStore MemDB) : RocksStore MemDB :=
  match fs with [] => s | f :: r => putting r (put_fact f s).2 end.
Definition knowing (fs : list Fact) (answer : string) : MemSys (RocksStore MemDB) := with_store (says answer) (putting fs store0).
Definition view_of (fs : list Fact) : MemView := foldl (fun v f => v_put_fact f v) empty_view fs.
Lemma knowing_rep (f g h : Fact) :
  (put_fact f store0).1 = Ok tt -> (put_fact g (putting [f] store0)).1 = Ok tt -> (put_fact h (putting [f; g] store0)).1 = Ok tt ->
  mem_rep (putting [f; g; h] store0) (view_of [f; g; h]).
Proof.
  intros Hf Hg Hh. assert (mem_rep store0 empty_view) as H0 by exact (empty_rep store0 eq_refl).
  assert (mem_rep (putting [f] store0) (view_of [f])) as H1.
  { generalize (put_fact_spec store0 empty_view f _ _ H0 (surjective_pairing _)). by rewrite Hf. }
  assert (mem_rep (putting [f; g] store0) (view_of [f; g])) as H2.
  { generalize (put_fact_spec _ _ g _ _ H1 (surjective_pairing _)). by rewrite Hg. }
  generalize (put_fact_spec _ _ h _ _ H2 (surjective_pairing _)). by rewrite Hh.
Qed.
Lemma agent_has_end : has_end agent. Proof. vm_compute. congruence. Qed.

Definition in_project (p : string) : MemoryAccessContext := {| ac_project_id := Some p; ac_user_id := None; ac_include_legacy := false |}.

Definition asking (text : string) : MemoryQueryContext := {|
  mq_text := text; mq_active_skills := []; mq_allow_user_scope := true; mq_allow_project_scope := true; mq_access := MemoryAccessContext_default |}.
Definition recalled (fs : list Fact) (text : string) : result Failure MemoryPacket :=
  (retrieve_with_query RetrievalConfig_default agent (asking text) MemoryRetrievalMode_QueryAware (knowing fs "")).1.
Definition packet : MemoryPacket := match recalled [f1; f2; f3] "which language" with Ok p => p | Err _ => Build_MemoryPacket [] [] [] None end.
Lemma retrieved_memories_admissible_witness :
  pk_facts packet = [f2] /\ may_enter (asking "which language") (fa_continuity f2) /\ unsafe_for_prompt (fact_text f2) = false
  /\ exists p l, p ∈ readable_partitions MemoryAccessContext_default agent true true
                 /\ list_facts (sy_store (knowing [f1; f2; f3] "")) p = Ok l /\ f2 ∈ l.
Proof.
  assert (pk_facts packet = [f2]) as E by (vm_compute; reflexivity). split; [exact E|].
  assert (retrieve_with_query RetrievalConfig_default agent (asking "which language") MemoryRetrievalMode_QueryAware (knowing [f1; f2; f3] "")
          = (Ok packet, (retrieve_with_query RetrievalConfig_default agent (asking "which language") MemoryRetrievalMode_QueryAware
                           (knowing [f1; f2; f3] "")).2)) as Hr by (apply SideStoreExample.pair_of_fst; vm_compute; reflexivity).
  destruct (retrieved_memories_admissible RetrievalConfig_default agent (asking "which language") MemoryRetrievalMode_QueryAware
              (knowing [f1; f2; f3] "") _ packet Hr) as [Hf _].
  destruct (Hf f2) as (_ & Hm & Hu & Hp); [rewrite E; left|]. split; [exact Hm|]. split; [exact Hu|exact Hp].
Defined.

Definition no_text : TurnSummary := {|
  tu_timed_out := false; tu_stalled := false; tu_llm_error := None; tu_total_text := ""; tu_total_input_tokens := 0;
  tu_total_output_tokens := 0; tu_iterations := 0; tu_messages := [] |}.
Definition a_turn : option ConversationTurn := Some {| ct_user_message := "hi"; ct_assistant_text := "hello" |}.
Definition two_answers : string := "FACT key=editor value=vim" +++ nl +++ "FACT key=login value=password=hunter2".
Definition ingested : result Failure WriteReport * MemSys (RocksStore MemDB) :=
  ingest (fun _ => "") refiner limits agent no_text a_turn RefinementRequestContext_default [] None MemoryStatus_Active (says two_answers).
Lemma ingest_keeps_facts_clean_witness :
  ingested.1 = Ok (WriteReport_default <| wr_candidates_refined := 2 |> <| wr_facts_written := 1 |> <| wr_sensitive_dropped := 1 |>)
  /\ list_facts (sy_store ingested.2) agent = Ok [written]
  /\ exists v', mem_rep (sy_store ingested.2) v' /\ all_clean v'.
Proof.
  split; [vm_compute; reflexivity|]. split; [vm_compute; reflexivity|].
  apply (ingest_keeps_facts_clean (fun _ => "") refiner limits agent no_text a_turn RefinementRequestContext_default [] None MemoryStatus_Active
           (says two_answers) ingested.2 empty_view ingested.1).
  - exact (empty_rep store0 eq_refl).
  - intros k f. unfold empty_view. cbn. rewrite lookup_empty. congruence.
  - intros s. destruct s; vm_compute; congruence.
  - apply surjective_pairing.
Defined.

Lemma capacity_enforced_witness :
  let y := knowing [f1; f2; f3] "" in
  let y' := (enforce_capacity limits agent y).2 in
  list_facts (sy_store y') agent = Ok [f2; f3]
  /\ exists v', mem_rep (sy_store y') v'
      /\ forall l l', facts_of (view_of [f1; f2; f3]) agent l -> facts_of v' agent l' -> length l' = Nat.min 2 (length l).
Proof.
  cbv zeta. split; [vm_compute; reflexivity|].
  destruct (capacity_enforced limits agent (knowing [f1; f2; f3] "") (enforce_capacity limits agent (knowing [f1; f2; f3] "")).2
              (view_of [f1; f2; f3])) as (v' & Hrep & Hf & _).
  - apply knowing_rep; vm_compute; reflexivity.
  - exact agent_has_end.
  - intros s i e He. vm_compute in He. congruence.
  - apply SideStoreExample.pair_of_fst. vm_compute. reflexivity.
  - exists v'. split; [exact Hrep|exact (cap_count _ _ _ _ _ _ _ Hf)].
Defined.

(** The lines of an answer apply to the facts as they were listed: what a merge
    wrote is overwritten when the same fact is then evolved. *)
Example merge_lost_when_evolved :
  let r := apply_evolution ("MERGE 1 2 value=both" +++ nl +++ "EVOLVE 2 confidence=0.9") agent [f1; f2; f3] (knowing [f1; f2; f3] "") in
  (r.1, list_facts (sy_store r.2) agent, fa_value merged, fa_value evolved) = (Ok (1, 1, 0), Ok [evolved; f3], JString "both", JString "Rust").
Proof. vm_compute. reflexivity. Qed.
(** What consolidation learns is not checked: a secret is kept and can be recalled. *)
Example insight_keeps_secret :
  let r := apply_evolution "INSIGHT key=login value=password=hunter2" agent [f1; f2; f3] (knowing [f1; f2; f3] "") in
  list_facts (sy_store r.2) agent = Ok [f1; f2; f3; learnt] /\ reads_sensitive (fact_text learnt) = true
  /\ admissible_fact RetrievalConfig_default (asking "") learnt = true.
Proof. vm_compute. repeat split; reflexivity. Qed.
(** A candidate with the value of a rejected fact only updates the rejected one. *)
Example rejected_fact_updated :
  let r := write_fact refiner (target MemoryStatus_Active) (parsed "editor" "vim") WriteReport_default (knowing [rejected] "") in
  r.1 = Ok (WriteReport_default <| wr_facts_updated := 1 |>) /\ list_facts (sy_store r.2) agent = Ok [confirmed]
  /\ fact_is_active confirmed = false.
Proof. vm_compute. repeat split; reflexivity. Qed.
(** A pinned fact goes like any other when there are too many. *)
Example pinned_fact_evicted :
  list_facts (sy_store (enforce_capacity limits agent (knowing [pinned; f2; f3] "")).2) agent = Ok [f2; f3].
Proof. vm_compute. reflexivity. Qed.
(** What follows an older memory block in a prompt is lost with it. *)
Example text_after_memory_lost :
  without_memory ("Be brief." +++ nl +++ "<agent_memory>old</agent_memory>" +++ nl +++ "Never push.") = "Be brief.".
Proof. vm_compute. reflexivity. Qed.
(** A prompt is longer than its estimate, which leaves out the identifiers and the
    frame. *)
Example prompt_exceeds_estimate :
  (packet_cost packet, String.length (format_for_prompt packet)) = (9, 244).
Proof. vm_compute. reflexivity. Qed.
(** The capital I with a dot, two bytes, has three bytes in lower case. *)
Fixpoint dotted_lowercase (s : string) : string :=
  match s with
  | String a t =>
      match t with
      | String b r =>
          if bool_decide (String a (String b "") = of_Zs [196; 176]%Z) then of_Zs [105; 204; 135]%Z +++ dotted_lowercase r
          else String (ascii_lower a) (dotted_lowercase t)
      | EmptyString => to_ascii_lowercase s
      end
  | EmptyString => EmptyString
  end.
Definition dotted : Unicode := {| is_alphanumeric := fun _ => true; to_lowercase := dotted_lowercase |}.
Example value_cut_wrong :
  (@extract_pattern dotted (of_Zs [196; 176]%Z +++ "t: the project uses Rust") ("the project uses ", "project_technology"),
   @extract_pattern dotted (of_Zs [196; 176]%Z +++ "t: the project uses " +++ of_Zs [195; 169]%Z) ("the project uses ", "project_technology"))
  = (Some [fact_candidate "project_technology" "ust"], None).
Proof. vm_compute. reflexivity. Qed.
End MemoryExample.
