(* ===== verification/LoopTypes.v ===== *)
(** Data of the agent loop: its configuration
    ([aura-agent/src/agent_loop/config.rs]), its result and the file changes it
    reports ([aura-agent/src/types.rs], [aura-agent-steering/src/types.rs],
    [aura-agent/src/helpers.rs]).

    The theorem is about the report of file changes: several changes of one file
    are collapsed to their net effect. *)
From S2P Require Import Prelude Values Utf8 CoreTypes Context ModelRequest.
From stdpp Require Import list.

(** * Configuration *)

(** [aura_config::MAX_ITERATIONS], which is [aura_core_types::MAX_TURNS]. *)
Definition MAX_ITERATIONS : Z := 300.

(** The hint to run the project's tests, off unless a task declares them. *)
Record EarlyTestOracleConfig := { eo_enabled : bool; eo_test_command : option string }.

(** The part of [AgentLoopConfig] that the scheduler, the host and the loop set or
    read.  [lc_intent_filter] is the intent classifier applied to its manifest,
    absent where either is; [lc_phase_reset_signal] says whether a plan signal was
    installed. *)
Record AgentLoopConfig := {
  lc_model : string;
  lc_max_iterations : Z;
  lc_credit_budget : option Z;
  lc_max_turns_per_task : Z;
  lc_max_iterations_per_task : Z;
  lc_auto_continue_no_op_turns : bool;
  lc_user_thinking_effort : option ThinkingEffort;
  lc_thinking_budget : option Z;
  lc_disable_thinking_iteration_0 : bool;
  lc_auto_build_cooldown : Z;
  lc_tool_hints : option (list string);
  lc_intent_filter : option (string -> list ToolDefinition -> list ToolDefinition);
  lc_phase_reset_signal : bool;
  lc_early_test_oracle : option EarlyTestOracleConfig;
  lc_upstream_provider_family : option string;
  lc_system_prompt : string;
  lc_max_tokens : Z;
  lc_max_context_tokens : option Z;
  lc_auth_token : option string;
  lc_aura_project_id : option string;
  lc_aura_agent_id : option string;
  lc_aura_session_id : option string;
  lc_aura_org_id : option string;
  lc_prompt_cache_key : option string;
  lc_prompt_cache_retention : option string;
  lc_request_kind : ModelRequestKind;
  lc_memory_observer : bool;
}.
#[export] Instance AgentLoopConfig_eta : Settable AgentLoopConfig := fun c =>
  Build_AgentLoopConfig (lc_model c) (lc_max_iterations c) (lc_credit_budget c)
    (lc_max_turns_per_task c) (lc_max_iterations_per_task c) (lc_auto_continue_no_op_turns c)
    (lc_user_thinking_effort c) (lc_thinking_budget c) (lc_disable_thinking_iteration_0 c)
    (lc_auto_build_cooldown c) (lc_tool_hints c) (lc_intent_filter c) (lc_phase_reset_signal c)
    (lc_early_test_oracle c) (lc_upstream_provider_family c) (lc_system_prompt c) (lc_max_tokens c)
    (lc_max_context_tokens c) (lc_auth_token c) (lc_aura_project_id c) (lc_aura_agent_id c)
    (lc_aura_session_id c) (lc_aura_org_id c) (lc_prompt_cache_key c) (lc_prompt_cache_retention c)
    (lc_request_kind c) (lc_memory_observer c).
Definition for_agent (model : string) : AgentLoopConfig := {|
  lc_model := model; lc_max_iterations := MAX_ITERATIONS; lc_credit_budget := None;
  lc_max_turns_per_task := 300; lc_max_iterations_per_task := 300;
  lc_auto_continue_no_op_turns := true; lc_user_thinking_effort := None; lc_thinking_budget := None;
  lc_disable_thinking_iteration_0 := false; lc_auto_build_cooldown := 2; lc_tool_hints := None;
  lc_intent_filter := None; lc_phase_reset_signal := false; lc_early_test_oracle := None;
  lc_upstream_provider_family := None; lc_system_prompt := ""; lc_max_tokens := 16384;
  lc_max_context_tokens := Some 200000%Z; lc_auth_token := None; lc_aura_project_id := None;
  lc_aura_agent_id := None; lc_aura_session_id := None; lc_aura_org_id := None;
  lc_prompt_cache_key := None; lc_prompt_cache_retention := None;
  lc_request_kind := ModelRequestKind_Chat; lc_memory_observer := false |}.

(** The fields a host or a scheduler changes on a configuration it was given. *)
Definition set_limits (c : AgentLoopConfig) (iterations tokens : Z) (effort : option ThinkingEffort)
    (observer : bool) : AgentLoopConfig :=
  c <| lc_max_iterations := iterations |> <| lc_max_tokens := tokens |>
    <| lc_user_thinking_effort := effort |> <| lc_memory_observer := observer |>.

(** * Results *)
Inductive FileChangeKind := FileChangeKind_Create | FileChangeKind_Modify | FileChangeKind_Delete.
#[export] Instance FileChangeKind_eq_dec : EqDecision FileChangeKind.
Proof. solve_decision. Defined.
Record FileChange := {
  fc_path : string;
  fc_kind : FileChangeKind;
  fc_lines_added : Z;
  fc_lines_removed : Z;
}.

(** A tool call of the model and what came of it. *)
Record ToolCallInfo := { tc_id : string; tc_name : string; tc_input : json }.
Record ToolCallResult := {
  tcr_tool_use_id : string;
  tcr_content : string;
  tcr_is_error : bool;
  tcr_kind : ToolResultKind;
  tcr_stop_loop : bool;
  tcr_file_changes : list FileChange;
  tcr_image : option ToolResultImage;
}.
Definition ToolCallResult_success (id content : string) : ToolCallResult := {|
  tcr_tool_use_id := id; tcr_content := content; tcr_is_error := false;
  tcr_kind := ToolResultKind_Ok; tcr_stop_loop := false; tcr_file_changes := []; tcr_image := None |}.
Definition ToolCallResult_error (id content : string) : ToolCallResult := {|
  tcr_tool_use_id := id; tcr_content := content; tcr_is_error := true;
  tcr_kind := ToolResultKind_AgentError; tcr_stop_loop := false; tcr_file_changes := [];
  tcr_image := None |}.
Definition WRITE_TOOLS : list string := ["write_file"; "edit_file"; "delete_file"].
Definition EXPLORATION_TOOLS : list string :=
  ["read_file"; "list_files"; "find_files"; "stat_file"; "search_code"].
Definition is_write_tool (name : string) : bool := bool_decide (name ∈ WRITE_TOOLS).
Definition is_exploration_tool (name : string) : bool := bool_decide (name ∈ EXPLORATION_TOOLS).

(** [AgentLoopResult] without the breakdown of context usage by source. *)
Record AgentLoopResult := {
  lr_output_truncated : bool;
  lr_task_done_completed : bool;
  lr_timed_out : bool;
  lr_insufficient_credits : bool;
  lr_stalled : bool;
  lr_llm_error : option string;
  lr_total_text : string;
  lr_total_thinking : string;
  lr_total_input_tokens : Z;
  lr_total_output_tokens : Z;
  lr_total_cache_creation_input_tokens : Z;
  lr_total_cache_read_input_tokens : Z;
  lr_estimated_context_tokens : Z;
  lr_file_changes : list FileChange;
  lr_iterations : Z;
  lr_messages : list Message;
}.
Definition AgentLoopResult_default : AgentLoopResult := {|
  lr_output_truncated := false; lr_task_done_completed := false; lr_timed_out := false;
  lr_insufficient_credits := false; lr_stalled := false; lr_llm_error := None; lr_total_text := "";
  lr_total_thinking := ""; lr_total_input_tokens := 0; lr_total_output_tokens := 0;
  lr_total_cache_creation_input_tokens := 0; lr_total_cache_read_input_tokens := 0;
  lr_estimated_context_tokens := 0; lr_file_changes := []; lr_iterations := 0; lr_messages := [] |}.

#[export] Instance AgentLoopResult_eta : Settable AgentLoopResult := fun r =>
  Build_AgentLoopResult (lr_output_truncated r) (lr_task_done_completed r) (lr_timed_out r)
    (lr_insufficient_credits r) (lr_stalled r) (lr_llm_error r) (lr_total_text r)
    (lr_total_thinking r) (lr_total_input_tokens r) (lr_total_output_tokens r)
    (lr_total_cache_creation_input_tokens r) (lr_total_cache_read_input_tokens r)
    (lr_estimated_context_tokens r) (lr_file_changes r) (lr_iterations r) (lr_messages r).

(** [u32::saturating_add] on line counts. *)
Definition u32_sat_add (a b : Z) : Z := Z.min u32_max (a + b).

(** [record_file_change] on the list of changes: the first entry of the same path
    absorbs the new one. *)
Definition merged_kind (existing next : FileChangeKind) : option FileChangeKind :=
  match existing, next with
  | FileChangeKind_Create, FileChangeKind_Modify => Some FileChangeKind_Create
  | FileChangeKind_Create, FileChangeKind_Delete => None
  | FileChangeKind_Modify, FileChangeKind_Modify => Some FileChangeKind_Modify
  | FileChangeKind_Modify, FileChangeKind_Delete => Some FileChangeKind_Delete
  | FileChangeKind_Delete, FileChangeKind_Create => Some FileChangeKind_Modify
  | FileChangeKind_Delete, FileChangeKind_Modify => Some FileChangeKind_Modify
  | _, next => Some next
  end.
Definition absorb (existing change : FileChange) (kind : FileChangeKind) : FileChange :=
  {| fc_path := fc_path existing; fc_kind := kind;
     fc_lines_added := u32_sat_add (fc_lines_added existing) (fc_lines_added change);
     fc_lines_removed := u32_sat_add (fc_lines_removed existing) (fc_lines_removed change) |}.
Fixpoint update_first (change : FileChange) (kind : FileChangeKind) (l : list FileChange)
  : list FileChange :=
  match l with
  | [] => []
  | c :: rest =>
      if bool_decide (fc_path c = fc_path change) then absorb c change kind :: rest
      else c :: update_first change kind rest
  end.
Definition record_file_change (change : FileChange) (l : list FileChange) : list FileChange :=
  match List.find (fun c => bool_decide (fc_path c = fc_path change)) l with
  | Some existing =>
      match merged_kind (fc_kind existing) (fc_kind change) with
      | Some kind => update_first change kind l
      | None => List.filter (fun c => negb (bool_decide (fc_path c = fc_path change))) l
      end
  | None => l ++ [change]
  end.

(** [infer_file_changes]; [existed] answers whether the path existed before under
    the given base, [None] without a base. *)
Definition infer_file_changes (tool_name : string) (input : json) (existed : string -> option bool)
    (line_diff : option (Z * Z)) : list FileChange :=
  match json_get "path" input ≫= json_as_str with
  | None => []
  | Some path =>
      let kind :=
        if bool_decide (tool_name = "write_file") then
          Some (if bool_decide (existed path = Some false) then FileChangeKind_Create
                else FileChangeKind_Modify)
        else if bool_decide (tool_name = "edit_file") then Some FileChangeKind_Modify
        else if bool_decide (tool_name = "delete_file") then
          if bool_decide (existed path = Some false) then None else Some FileChangeKind_Delete
        else None in
      match kind with
      | None => []
      | Some kind =>
          let '(added, removed) := default (0, 0)%Z line_diff in
          [{| fc_path := path; fc_kind := kind; fc_lines_added := added; fc_lines_removed := removed |}]
      end
  end.

(** * Net effect *)

(** The kind recorded for a path; paths occur once. *)
Definition kind_of (l : list FileChange) (path : string) : option FileChangeKind :=
  fc_kind <$> List.find (fun c => bool_decide (fc_path c = path)) l.

(** Whether a file exists after a change of it. *)
Definition exists_after (k : FileChangeKind) : bool :=
  match k with FileChangeKind_Delete => false | _ => true end.
(** A file can be created only where there is none, changed and deleted only
    where there is one. *)
Definition change_fits (present : bool) (k : FileChangeKind) : bool :=
  match k with FileChangeKind_Create => negb present | _ => present end.
(** What happened to a file, from whether it was there and is there now and
    whether anything touched it. *)
Definition net_kind (before after touched : bool) : option FileChangeKind :=
  match before, after with
  | false, true => Some FileChangeKind_Create
  | true, false => Some FileChangeKind_Delete
  | true, true => if touched then Some FileChangeKind_Modify else None
  | false, false => None
  end.
(** The state of [path] after a sequence of changes, when each of them fits. *)
Fixpoint follow (path : string) (present : bool) (cs : list FileChange) : option bool :=
  match cs with
  | [] => Some present
  | c :: rest =>
      if bool_decide (fc_path c = path)
      then if change_fits present (fc_kind c) then follow path (exists_after (fc_kind c)) rest else None
      else follow path present rest
  end.
Definition touched (path : string) (cs : list FileChange) : bool :=
  existsb (fun c => bool_decide (fc_path c = path)) cs.

Lemma find_filter_ne l path path' :
  path <> path' ->
  List.find (fun c => bool_decide (fc_path c = path))
    (List.filter (fun c => negb (bool_decide (fc_path c = path'))) l)
  = List.find (fun c => bool_decide (fc_path c = path)) l.
Proof.
  intros Hne. induction l as [|c l IH]; cbn; [done|]. destruct (bool_decide (fc_path c = path')) eqn:E'; cbn.
  - apply bool_decide_eq_true in E'. rewrite IH, bool_decide_eq_false_2 by congruence. done.
  - by rewrite IH.
Qed.
Lemma kind_of_other change l path :
  fc_path change <> path -> kind_of (record_file_change change l) path = kind_of l path.
Proof.
  intros Hne. unfold kind_of, record_file_change. f_equal.
  destruct (List.find _ l) as [e|] eqn:Hf.
  - destruct (merged_kind _ _) as [k|]; [|by apply find_filter_ne; congruence]. clear Hf.
    induction l as [|c l IH]; cbn; [done|]. case_bool_decide as E; cbn; [|by rewrite IH].
    by rewrite bool_decide_eq_false_2 by congruence.
  - clear Hf. induction l as [|c l IH]; cbn; [by rewrite bool_decide_eq_false_2|]. by rewrite IH.
Qed.
Lemma find_filter_same l path :
  List.find (fun c => bool_decide (fc_path c = path))
    (List.filter (fun c => negb (bool_decide (fc_path c = path))) l) = None.
Proof.
  induction l as [|c l IH]; cbn; [done|]. destruct (bool_decide (fc_path c = path)) eqn:E; cbn; [done|].
  by rewrite E.
Qed.
Lemma kind_of_same change l :
  kind_of (record_file_change change l) (fc_path change)
  = match kind_of l (fc_path change) with
    | Some k => merged_kind k (fc_kind change)
    | None => Some (fc_kind change)
    end.
Proof.
  unfold kind_of, record_file_change. destruct (List.find _ l) as [e|] eqn:Hf; cbn.
  - destruct (merged_kind _ _) as [k|]; [|by rewrite find_filter_same].
    induction l as [|c l IH]; cbn in *; [done|]. case_bool_decide as E; cbn.
    + by rewrite bool_decide_eq_true_2.
    + rewrite bool_decide_eq_false_2 by done. by apply IH.
  - induction l as [|c l IH]; cbn in *; [by rewrite bool_decide_eq_true_2|].
    case_bool_decide; [done|]. by apply IH.
Qed.
(** Merging kinds composes effects. *)
Lemma merged_net before mid k seen :
  change_fits mid k = true ->
  match net_kind before mid seen with Some k0 => merged_kind k0 k | None => Some k end
  = net_kind before (exists_after k) true
  \/ (before = false /\ mid = true /\ seen = false).
Proof. destruct before, mid, k, seen; cbn; auto; discriminate. Qed.

Lemma follow_app path before cs ds :
  follow path before (cs ++ ds) = follow path before cs ≫= (fun mid => follow path mid ds).
Proof.
  revert before. induction cs as [|c cs IH]; intros before; cbn; [done|]. repeat case_match; auto.
Qed.
Lemma follow_untouched path before cs : touched path cs = false -> follow path before cs = Some before.
Proof.
  unfold touched. induction cs as [|c cs IH]; cbn; [done|]. case_bool_decide; [done|]. apply IH.
Qed.

(** The report lists the net effect of a turn on every file: whatever
    sequence of changes was recorded, as long as each fits what was there, a file
    is reported as created, deleted or modified exactly when it is new, gone, or
    was touched and is still there; a file created and deleted again is not
    reported. *)
Theorem file_changes_net cs path before after :
  follow path before cs = Some after ->
  kind_of (foldl (fun l c => record_file_change c l) [] cs) path
  = net_kind before after (touched path cs).
Proof.
  revert after. induction cs as [|c cs IH] using rev_ind; intros after.
  { cbn. intros [= <-]. by destruct before. }
  rewrite follow_app. intros (mid & Hm & Hl)%bind_Some. specialize (IH mid Hm).
  rewrite foldl_app. unfold touched in *. rewrite existsb_app. cbn [foldl existsb follow] in Hl |- *.
  rewrite orb_false_r. case_bool_decide as E.
  - destruct (change_fits mid (fc_kind c)) eqn:Hfit; [|discriminate]. injection Hl as <-.
    rewrite <-E, kind_of_same, E, IH, orb_true_r.
    destruct (merged_net before mid (fc_kind c) (touched path cs) Hfit) as [H0|(-> & -> & Hs)]; [exact H0|].
    by rewrite (follow_untouched path false cs Hs) in Hm.
  - injection Hl as <-. by rewrite kind_of_other, IH, orb_false_r.
Qed.

Module LoopTypesExample.
Definition change (path : string) (k : FileChangeKind) : FileChange :=
  {| fc_path := path; fc_kind := k; fc_lines_added := 1; fc_lines_removed := 0 |}.
Definition turn : list FileChange :=
  [change "a" FileChangeKind_Delete; change "b" FileChangeKind_Create; change "a" FileChangeKind_Create;
   change "b" FileChangeKind_Delete].
Lemma file_changes_net_witness :
  follow "a" true turn = Some true
  /\ kind_of (foldl (fun l c => record_file_change c l) [] turn) "a" = Some FileChangeKind_Modify.
Proof. split; [reflexivity|]. exact (file_changes_net turn "a" true true eq_refl). Defined.
End LoopTypesExample.
