(* ===== verification/Steering.v ===== *)
(** Steering of the agent loop ([aura-agent-steering/src]): the sources that watch
    tool calls and queue notes for the model (repeated reads, the nudge to
    implement, the hint to run the tests), the registry that drives them, and the
    way a note is put into the conversation.

    The configuration read from the environment is a [SteeringConfig]; the prose of
    a note is the parameter [SteeringText], the hash of read results the parameter
    [DefaultHasher].  *)
From S2P Require Import Prelude Values Utf8 Text CoreTypes Context ModelRequest Compaction LoopTypes.
From stdpp Require Import list sorting.
From Stdlib Require Import Ascii Strings.Byte.

(** * Notes *)
Record StubReportView := { stub_path : string; stub_line : Z; stub_pattern : string; stub_context : string }.
Inductive SteeringKind :=
| SteeringKind_TaskDoneNoWrites
| SteeringKind_StubDetected (reports : list StubReportView)
| SteeringKind_RepeatedRead (content_hash : string)
| SteeringKind_TaskAlreadySatisfiedHint (test_command : string)
| SteeringKind_ImplementNow (exploration_count : Z) (sample_paths : list string).
Definition steering_label (k : SteeringKind) : string :=
  match k with
  | SteeringKind_TaskDoneNoWrites => "task_done_rejected"
  | SteeringKind_StubDetected _ => "stub_detected"
  | SteeringKind_RepeatedRead _ => "repeated_read"
  | SteeringKind_TaskAlreadySatisfiedHint _ => "task_already_satisfied"
  | SteeringKind_ImplementNow _ _ => "implement_now"
  end.
(** The prose [messages::render] writes for a note. *)
Class SteeringText := steering_body : SteeringKind -> string.
Definition dquote : string := String "034" EmptyString.

Definition append_warning (messages : list Message) (warning : string) : list Message :=
  match last messages with
  | Some m =>
      if bool_decide (msg_role m = Role_User)
      then take (length messages - 1) messages
           ++ [{| msg_role := msg_role m; msg_content := msg_content m ++ [ContentBlock_Text warning] |}]
      else messages ++ [Message_user warning]
  | None => messages ++ [Message_user warning]
  end.

Record SteeringConfig := {
  sc_implement_now_enabled : bool;
  sc_implement_now_threshold : Z;
  sc_implement_now_hard_block : bool;
}.
Definition SteeringConfig_defaults : SteeringConfig :=
  {| sc_implement_now_enabled := true; sc_implement_now_threshold := 10;
     sc_implement_now_hard_block := true |}.
Definition IMPLEMENT_NOW_MAX_PATHS_IN_MESSAGE : nat := 5.
Definition REPEATED_READ_THRESHOLD : nat := 3.

(** * Repeated reads *)
Record RepeatedReadTracker := { rrt_counts : gmap string nat; rrt_pending : list string }.
Definition RepeatedReadTracker_new : RepeatedReadTracker := {| rrt_counts := ∅; rrt_pending := [] |}.
Definition record (t : RepeatedReadTracker) (content_hash : string) : RepeatedReadTracker :=
  if bool_decide (content_hash = "") then t
  else
    let count := S (default 0 (rrt_counts t !! content_hash)) in
    {| rrt_counts := <[content_hash := count]> (rrt_counts t);
       rrt_pending := if bool_decide (count = REPEATED_READ_THRESHOLD)
                      then rrt_pending t ++ [content_hash] else rrt_pending t |}.

(** * The nudge to implement *)
Record ImplementNowSteering := {
  in_has_phase_reset_signal : bool;
  in_fired : bool;
  in_exploration_count : Z;
  in_had_any_file_write : bool;
  in_session_read_paths : path_set;
  in_pending : list SteeringKind;
}.
Definition ImplementNowSteering_new (signal : bool) : ImplementNowSteering := {|
  in_has_phase_reset_signal := signal; in_fired := false; in_exploration_count := 0;
  in_had_any_file_write := false; in_session_read_paths := ∅; in_pending := [] |}.
Definition path_le (a b : string) : Prop := lex_le (string_to_bytes a) (string_to_bytes b) = true.
#[export] Instance path_le_dec a b : Decision (path_le a b) := decide (_ = true).
Definition sample_read_paths (paths : path_set) : list string :=
  take IMPLEMENT_NOW_MAX_PATHS_IN_MESSAGE (merge_sort path_le (path_set_paths paths)).

(** * The hint to run the tests *)
Inductive OracleState :=
| OracleState_AwaitingFirstRead | OracleState_InsideFirstBatch | OracleState_HintQueued | OracleState_Done.
Record EarlyTestOracle := {
  or_test_command : option string;
  or_state : OracleState;
  or_pending : list SteeringKind;
}.
Definition EarlyTestOracle_new (test_command : option string) (enabled : bool) : EarlyTestOracle := {|
  or_test_command := test_command;
  or_state :=
    if enabled && match test_command with Some s => negb (trim_is_empty s) | None => false end
    then OracleState_AwaitingFirstRead else OracleState_Done;
  or_pending := [] |}.
Definition observe_tool_name (o : EarlyTestOracle) (tool_name : string) : EarlyTestOracle :=
  let st :=
    match or_state o with
    | OracleState_AwaitingFirstRead =>
        if is_exploration_tool tool_name then OracleState_InsideFirstBatch
        else OracleState_AwaitingFirstRead
    | OracleState_InsideFirstBatch =>
        if is_exploration_tool tool_name then OracleState_InsideFirstBatch else OracleState_HintQueued
    | st => st
    end in
  let st := match st with
            | OracleState_AwaitingFirstRead =>
                if is_write_tool tool_name then OracleState_Done else st
            | _ => st
            end in
  {| or_test_command := or_test_command o; or_state := st; or_pending := or_pending o |}.
Definition close_batch (o : EarlyTestOracle) : EarlyTestOracle :=
  match or_state o with
  | OracleState_InsideFirstBatch =>
      {| or_test_command := or_test_command o; or_state := OracleState_HintQueued;
         or_pending := or_pending o |}
  | _ => o
  end.
Definition take_hint (o : EarlyTestOracle) : option SteeringKind * EarlyTestOracle :=
  match or_state o, or_test_command o with
  | OracleState_HintQueued, Some test_command =>
      (Some (SteeringKind_TaskAlreadySatisfiedHint test_command),
       {| or_test_command := or_test_command o; or_state := OracleState_Done; or_pending := or_pending o |})
  | _, _ => (None, o)
  end.

(** * The sources as one interface *)
Inductive TurnSteering :=
| Source_RepeatedRead (t : RepeatedReadTracker)
| Source_ImplementNow (s : ImplementNowSteering)
| Source_EarlyTestOracle (o : EarlyTestOracle).
Record SteeringRegistry := { sr_sources : list TurnSteering; sr_implement_now_injected : bool }.
Definition is_implement_now (k : SteeringKind) : bool :=
  match k with SteeringKind_ImplementNow _ _ => true | _ => false end.

Section Steering.
Context `{DefaultHasher}.

Definition path_arg (tool : ToolCallInfo) : option string :=
  json_get "path" (tc_input tool) ≫= json_as_str.
Definition observe_implement_now (s : ImplementNowSteering) (tool : ToolCallInfo) (r : ToolCallResult)
  : ImplementNowSteering :=
  let explores := is_exploration_tool (tc_name tool) in
  let count := if explores then (in_exploration_count s + 1)%Z else in_exploration_count s in
  let paths :=
    match explores && negb (tcr_is_error r), path_arg tool with
    | true, Some path => path_set_insert path (in_session_read_paths s)
    | _, _ => in_session_read_paths s
    end in
  let writes :=
    is_write_tool (tc_name tool) && negb (tcr_is_error r)
    && (match path_arg tool with Some _ => true | None => false end
        || match tcr_file_changes r with [] => false | _ => true end) in
  {| in_has_phase_reset_signal := in_has_phase_reset_signal s; in_fired := in_fired s;
     in_exploration_count := count;
     in_had_any_file_write := in_had_any_file_write s || writes;
     in_session_read_paths :=
       if writes
       then foldr path_set_remove paths (option_list (path_arg tool) ++ (fc_path <$> tcr_file_changes r))
       else paths;
     in_pending := in_pending s |}.
Definition begin_implement_now (cfg : SteeringConfig) (s : ImplementNowSteering) : ImplementNowSteering :=
  if in_fired s || negb (sc_implement_now_enabled cfg) || negb (in_has_phase_reset_signal s)
     || in_had_any_file_write s || (in_exploration_count s <? sc_implement_now_threshold cfg)%Z
  then s
  else {| in_has_phase_reset_signal := in_has_phase_reset_signal s; in_fired := true;
          in_exploration_count := in_exploration_count s;
          in_had_any_file_write := in_had_any_file_write s;
          in_session_read_paths := in_session_read_paths s;
          in_pending := in_pending s ++ [SteeringKind_ImplementNow (in_exploration_count s)
                                           (sample_read_paths (in_session_read_paths s))] |}.

Definition source_observe (tool : ToolCallInfo) (r : ToolCallResult) (s : TurnSteering) : TurnSteering :=
  match s with
  | Source_RepeatedRead t =>
      if tcr_is_error r || negb (bool_decide (tc_name tool = "read_file")) then s
      else Source_RepeatedRead (record t (dedup_content_hash_hex (string_to_bytes (tcr_content r))))
  | Source_ImplementNow i => Source_ImplementNow (observe_implement_now i tool r)
  | Source_EarlyTestOracle o => Source_EarlyTestOracle (observe_tool_name o (tc_name tool))
  end.
Definition source_begin_turn (cfg : SteeringConfig) (s : TurnSteering) : TurnSteering :=
  match s with
  | Source_RepeatedRead t =>
      Source_RepeatedRead {| rrt_counts := ∅; rrt_pending := rrt_pending t |}
  | Source_ImplementNow i => Source_ImplementNow (begin_implement_now cfg i)
  | Source_EarlyTestOracle o =>
      let '(hint, o) := take_hint (close_batch o) in
      Source_EarlyTestOracle
        {| or_test_command := or_test_command o; or_state := or_state o;
           or_pending := or_pending o ++ option_list hint |}
  end.
Definition source_drain (s : TurnSteering) : list SteeringKind * TurnSteering :=
  match s with
  | Source_RepeatedRead t =>
      (SteeringKind_RepeatedRead <$> rrt_pending t,
       Source_RepeatedRead {| rrt_counts := rrt_counts t; rrt_pending := [] |})
  | Source_ImplementNow i =>
      (in_pending i,
       Source_ImplementNow
         {| in_has_phase_reset_signal := in_has_phase_reset_signal i; in_fired := in_fired i;
            in_exploration_count := in_exploration_count i;
            in_had_any_file_write := in_had_any_file_write i;
            in_session_read_paths := in_session_read_paths i; in_pending := [] |})
  | Source_EarlyTestOracle o =>
      (or_pending o,
       Source_EarlyTestOracle
         {| or_test_command := or_test_command o; or_state := or_state o; or_pending := [] |})
  end.

(** * The registry *)
Definition for_loop (phase_reset_signal_present : bool) (oracle : option EarlyTestOracleConfig)
  : SteeringRegistry := {|
  sr_sources :=
    [Source_RepeatedRead RepeatedReadTracker_new;
     Source_ImplementNow (ImplementNowSteering_new phase_reset_signal_present)]
    ++ match oracle with
       | Some cfg => if eo_enabled cfg
                     then [Source_EarlyTestOracle (EarlyTestOracle_new (eo_test_command cfg) true)] else []
       | None => []
       end;
  sr_implement_now_injected := false |}.
Definition observe_tool (tool : ToolCallInfo) (r : ToolCallResult) (reg : SteeringRegistry)
  : SteeringRegistry :=
  {| sr_sources := source_observe tool r <$> sr_sources reg;
     sr_implement_now_injected := sr_implement_now_injected reg |}.
Definition registry_begin_turn (cfg : SteeringConfig) (reg : SteeringRegistry) : SteeringRegistry :=
  {| sr_sources := source_begin_turn cfg <$> sr_sources reg;
     sr_implement_now_injected := sr_implement_now_injected reg |}.
Definition drain_for_next_turn (reg : SteeringRegistry) : list SteeringKind * SteeringRegistry :=
  let out := concat (fst ∘ source_drain <$> sr_sources reg) in
  (out,
   {| sr_sources := snd ∘ source_drain <$> sr_sources reg;
      sr_implement_now_injected := sr_implement_now_injected reg || existsb is_implement_now out |}).

(** * Injection *)
Definition steering_render `{SteeringText} (k : SteeringKind) : string :=
  "<harness_steering kind=" +++ dquote +++ steering_label k +++ dquote +++ ">" +++ nl +++ steering_body k +++ nl +++ "</harness_steering>".
Definition inject `{SteeringText} (messages : list Message) (k : SteeringKind) : list Message :=
  append_warning messages (steering_render k).
End Steering.

(** * A run of the registry

    Every iteration of the loop begins a turn, drains the notes and then observes
    the tool results of the iteration. *)
Section Runs.
Context `{DefaultHasher} (cfg : SteeringConfig).
Definition observed : Type := list (ToolCallInfo * ToolCallResult).
Definition observe_all (obs : observed) (reg : SteeringRegistry) : SteeringRegistry :=
  foldl (fun reg '(tool, r) => observe_tool tool r reg) reg obs.
Fixpoint steer (reg : SteeringRegistry) (turns : list observed) : list (list SteeringKind) :=
  match turns with
  | [] => []
  | obs :: rest =>
      let '(out, reg) := drain_for_next_turn (registry_begin_turn cfg reg) in
      out :: steer (observe_all obs reg) rest
  end.

(** ** How many notes are left

    A source that can still queue a note of a kind owes at most one. *)
Definition is_hint (k : SteeringKind) : bool :=
  match k with SteeringKind_TaskAlreadySatisfiedHint _ => true | _ => false end.
Definition count (f : SteeringKind -> bool) (l : list SteeringKind) : nat := length (List.filter f l).
Definition owed (f : SteeringKind -> bool) (s : TurnSteering) : nat :=
  match s with
  | Source_RepeatedRead t => count f (SteeringKind_RepeatedRead <$> rrt_pending t)
  | Source_ImplementNow i =>
      (if in_fired i then 0 else if f (SteeringKind_ImplementNow 0 []) then 1 else 0) + count f (in_pending i)
  | Source_EarlyTestOracle o =>
      match or_state o with
      | OracleState_Done => 0
      | _ => if f (SteeringKind_TaskAlreadySatisfiedHint "") then 1 else 0
      end + count f (or_pending o)
  end.
(** The kinds of note that are queued at most once. *)
Definition one_shot (f : SteeringKind -> bool) : Prop :=
  (forall h, f (SteeringKind_RepeatedRead h) = false)
  /\ (forall n l, f (SteeringKind_ImplementNow n l) = f (SteeringKind_ImplementNow 0 []))
  /\ (forall c, f (SteeringKind_TaskAlreadySatisfiedHint c) = f (SteeringKind_TaskAlreadySatisfiedHint "")).

Lemma count_app f l l' : count f (l ++ l') = count f l + count f l'.
Proof. unfold count. rewrite List.filter_app, length_app. done. Qed.
Lemma count_reads f l : one_shot f -> count f (SteeringKind_RepeatedRead <$> l) = 0.
Proof.
  intros (Hr & _). unfold count. induction l as [|h l IH]; [done|]. rewrite fmap_cons. cbn [List.filter].
  by rewrite Hr.
Qed.
Lemma owed_observe f tool r s : one_shot f -> owed f (source_observe tool r s) <= owed f s.
Proof.
  intros Hf. destruct s as [t|i|o]; cbn [source_observe owed].
  - destruct (_ || _); [done|]. cbn [owed]. by rewrite !count_reads.
  - done.
  - unfold observe_tool_name. cbn [or_state or_pending].
    destruct (or_state o), (is_exploration_tool (tc_name tool)), (is_write_tool (tc_name tool)); lia.
Qed.
Lemma owed_begin f s : one_shot f -> owed f (source_begin_turn cfg s) <= owed f s.
Proof.
  intros (Hr & Hi & Hh). destruct s as [t|i|o]; cbn [source_begin_turn owed]; [done| |].
  - unfold begin_implement_now. destruct (in_fired i) eqn:Hfi; [by cbn; rewrite Hfi|]. cbn [orb].
    destruct (_ || _); [by rewrite Hfi|]. cbn [in_fired in_pending]. rewrite count_app.
    unfold count at 2. cbn [List.filter]. rewrite Hi. destruct (f _); cbn [length]; lia.
  - unfold close_batch, take_hint. destruct (f (SteeringKind_TaskAlreadySatisfiedHint ""));
    destruct (or_state o) eqn:Ho; cbn [or_state or_test_command or_pending]; rewrite ?Ho;
      destruct (or_test_command o); cbn [owed or_state or_test_command or_pending];
      unfold option_list; rewrite ?Ho, ?app_nil_r, ?count_app; unfold count; cbn [option_rect List.filter]; rewrite ?Hh;
      cbn [length]; lia.
Qed.
Lemma owed_drain f s :
  count f (fst (source_drain s)) + owed f (snd (source_drain s)) = owed f s.
Proof. destruct s as [t|i|o]; cbn; unfold count; cbn; lia. Qed.

Definition owed_all (f : SteeringKind -> bool) (reg : SteeringRegistry) : nat :=
  foldr (fun s n => owed f s + n) 0 (sr_sources reg).
Lemma owed_all_fmap f (g : TurnSteering -> TurnSteering) l :
  (forall s, owed f (g s) <= owed f s) ->
  foldr (fun s n => owed f s + n) 0 (g <$> l) <= foldr (fun s n => owed f s + n) 0 l.
Proof. intros Hg. induction l as [|s l IH]; cbn; [done|]. specialize (Hg s). lia. Qed.
Lemma owed_all_observe f obs reg : one_shot f -> owed_all f (observe_all obs reg) <= owed_all f reg.
Proof.
  intros Hf. unfold observe_all. revert reg. induction obs as [|[tool r] obs IH]; intros reg; cbn; [done|].
  etrans; [apply IH|]. apply (owed_all_fmap f (source_observe tool r)). intros s. by apply owed_observe.
Qed.
Lemma owed_all_drain f reg :
  count f (fst (drain_for_next_turn reg)) + owed_all f (snd (drain_for_next_turn reg)) = owed_all f reg.
Proof.
  unfold owed_all, drain_for_next_turn. cbn [fst snd sr_sources].
  induction (sr_sources reg) as [|s l IH]; [done|]. rewrite !fmap_cons. cbn [concat foldr].
  rewrite count_app. pose proof (owed_drain f s) as Hs. unfold compose at 1 3. lia.
Qed.
Lemma steer_owed f reg turns : one_shot f -> count f (concat (steer reg turns)) <= owed_all f reg.
Proof.
  intros Hf. revert reg. induction turns as [|obs turns IH]; intros reg; cbn [steer]; [cbn; lia|].
  pose proof (owed_all_drain f (registry_begin_turn cfg reg)) as Hd.
  destruct (drain_for_next_turn _) as [out reg'] eqn:E. cbn [fst snd] in Hd. cbn [concat].
  rewrite count_app. specialize (IH (observe_all obs reg')).
  pose proof (owed_all_observe f obs reg' Hf).
  pose proof (owed_all_fmap f (source_begin_turn cfg) (sr_sources reg) (fun s => owed_begin f s Hf)) as Hb.
  change (owed_all f (registry_begin_turn cfg reg) <= owed_all f reg) in Hb. lia.
Qed.

(** Whatever tools run, the nudge to implement and the hint to run the tests
    are each put into the conversation at most once in a run of the loop. *)
Theorem steering_notes_once signal oracle turns :
  count is_implement_now (concat (steer (for_loop signal oracle) turns)) <= 1
  /\ count is_hint (concat (steer (for_loop signal oracle) turns)) <= 1.
Proof.
  split; (etrans; [apply steer_owed; by repeat split|]);
    destruct oracle as [[[] [c|]]|]; cbn; try lia; destruct (trim_is_empty c); cbn; lia.
Qed.

(** ** When the nudge is given *)
Definition explores (o : ToolCallInfo * ToolCallResult) : bool := is_exploration_tool (tc_name (fst o)).
Definition writes (o : ToolCallInfo * ToolCallResult) : bool :=
  is_write_tool (tc_name (fst o)) && negb (tcr_is_error (snd o))
  && (match path_arg (fst o) with Some _ => true | None => false end
      || match tcr_file_changes (snd o) with [] => false | _ => true end).
(** The condition for the nudge, on everything observed so far. *)
Definition nudge_due (signal : bool) (history : observed) : bool :=
  sc_implement_now_enabled cfg && signal && negb (existsb writes history)
  && (sc_implement_now_threshold cfg <=? Z.of_nat (length (List.filter explores history)))%Z.
(** The turns at which it is given: the first one at which it is due. *)
Fixpoint nudges (signal : bool) (history : observed) (given : bool) (turns : list observed) : list bool :=
  match turns with
  | [] => []
  | obs :: rest =>
      (negb given && nudge_due signal history)
      :: nudges signal (history ++ obs) (given || nudge_due signal history) rest
  end.

Definition nudge_inv (signal : bool) (history : observed) (given : bool) (reg : SteeringRegistry) : Prop :=
  exists t i os,
    sr_sources reg = Source_RepeatedRead t :: Source_ImplementNow i :: (Source_EarlyTestOracle <$> os)
    /\ Forall (fun o => existsb is_implement_now (or_pending o) = false) os
    /\ in_has_phase_reset_signal i = signal /\ in_fired i = given
    /\ in_exploration_count i = Z.of_nat (length (List.filter explores history))
    /\ in_had_any_file_write i = existsb writes history /\ in_pending i = [].

Lemma nudge_inv_observe signal history given reg obs :
  nudge_inv signal history given reg -> nudge_inv signal (history ++ obs) given (observe_all obs reg).
Proof.
  revert history reg. induction obs as [|[tool r] obs IH]; intros history reg; cbn.
  { by rewrite app_nil_r. }
  intros (t & i & os & Hs & Hos & Hsig & Hf & Hn & Hw & Hp).
  rewrite (cons_middle _ history obs), app_assoc. apply IH. unfold nudge_inv, observe_tool. cbn [sr_sources]. rewrite Hs.
  cbn [fmap list_fmap]. destruct (source_observe tool r (Source_RepeatedRead t)) as [t'| |] eqn:Et;
    cbn in Et; try (destruct (_ || _); discriminate).
  exists t', (observe_implement_now i tool r), ((fun o => observe_tool_name o (tc_name tool)) <$> os).
  repeat split; cbn [observe_implement_now in_has_phase_reset_signal in_fired in_exploration_count
                     in_had_any_file_write in_pending]; try done.
  - f_equal. f_equal. rewrite <-!list_fmap_compose. done.
  - by apply Forall_fmap.
  - rewrite List.filter_app, length_app, Hn. cbn [List.filter]. unfold explores. cbn [fst].
    destruct (is_exploration_tool (tc_name tool)); cbn [length]; lia.
  - by rewrite existsb_app, Hw; cbn [existsb]; rewrite orb_false_r.
Qed.
Lemma existsb_concat {A} (f : A -> bool) (ls : list (list A)) : existsb f (concat ls) = existsb (existsb f) ls.
Proof. induction ls as [|l ls IH]; cbn; [done|]. by rewrite existsb_app, IH. Qed.
Lemma no_nudge_in_reads l : existsb is_implement_now (SteeringKind_RepeatedRead <$> l) = false.
Proof. by induction l. Qed.
Lemma oracle_begin_drain os :
  Forall (fun o => existsb is_implement_now (or_pending o) = false) os ->
  exists os', source_begin_turn cfg <$> (Source_EarlyTestOracle <$> os) = Source_EarlyTestOracle <$> os'
  /\ Forall (fun o => existsb is_implement_now (or_pending o) = false) os'.
Proof.
  induction 1 as [|o os Ho _ (os' & He & Hos')]; [by exists []|].
  rewrite !fmap_cons, He. cbn [source_begin_turn]. destruct (take_hint (close_batch o)) as [hint o'] eqn:E.
  assert (or_pending o' = or_pending o /\ existsb is_implement_now (option_list hint) = false) as [Hp Hh].
  { unfold take_hint, close_batch in E. destruct (or_state o) eqn:Es; cbn in E; rewrite ?Es in E;
      destruct (or_test_command o); injection E as <- <-; done. }
  eexists (_ :: os'). split; [done|]. constructor; [|done]. cbn [or_pending].
  by rewrite existsb_app, Hp, Ho, Hh.
Qed.
Lemma nudge_inv_turn signal history given reg out reg' :
  nudge_inv signal history given reg ->
  drain_for_next_turn (registry_begin_turn cfg reg) = (out, reg') ->
  existsb is_implement_now out = negb given && nudge_due signal history
  /\ nudge_inv signal history (given || nudge_due signal history) reg'.
Proof.
  intros (t & i & os & Hs & Hos & Hsig & Hf & Hn & Hw & Hp). unfold drain_for_next_turn, registry_begin_turn.
  cbn [sr_sources]. rewrite Hs, !fmap_cons. destruct (oracle_begin_drain os Hos) as (os' & -> & Hos').
  intros [= <- <-]. cbn [source_begin_turn].
  set (i' := begin_implement_now cfg i).
  assert (existsb is_implement_now (in_pending i') = negb given && nudge_due signal history
          /\ in_fired i' = given || nudge_due signal history
          /\ in_has_phase_reset_signal i' = signal /\ in_exploration_count i' = in_exploration_count i
          /\ in_had_any_file_write i' = in_had_any_file_write i) as (Hi1 & Hi2 & Hi3 & Hi4 & Hi5).
  { unfold i', begin_implement_now, nudge_due. rewrite Hsig, Hf, Hn, Hw. rewrite Z.leb_antisym.
    destruct given, (sc_implement_now_enabled cfg), signal, (existsb writes history), (Z.ltb _ _); cbn;
      rewrite ?Hp; done. }
  split.
  - rewrite !existsb_app, existsb_concat.
    rewrite no_nudge_in_reads, Hi1. rewrite orb_false_l.
    assert (existsb (existsb is_implement_now) (fst ∘ source_drain <$> (Source_EarlyTestOracle <$> os')) = false)
      as ->; [|by rewrite orb_false_r].
    clear -Hos'. induction Hos' as [|o os Ho _ IH]; [done|]. rewrite !fmap_cons. cbn [existsb]. cbn [compose fst source_drain].
    by rewrite Ho, IH.
  - exists {| rrt_counts := ∅; rrt_pending := [] |}.
    exists {| in_has_phase_reset_signal := in_has_phase_reset_signal i'; in_fired := in_fired i';
              in_exploration_count := in_exploration_count i'; in_had_any_file_write := in_had_any_file_write i';
              in_session_read_paths := in_session_read_paths i'; in_pending := [] |}.
    exists ((fun o => {| or_test_command := or_test_command o; or_state := or_state o; or_pending := [] |}) <$> os').
    cbn [sr_sources]. rewrite <-!list_fmap_compose. repeat split; cbn; try done; try congruence.
    by apply Forall_fmap, Forall_true.
Qed.

(** The nudge to implement is given exactly at the first turn at which it is
    due: the loop has a plan signal, the feature is on, no write has succeeded so
    far and at least the threshold of exploration calls has been made. *)
Theorem nudge_given_when_due signal oracle turns :
  existsb is_implement_now <$> steer (for_loop signal oracle) turns = nudges signal [] false turns.
Proof.
  assert (nudge_inv signal [] false (for_loop signal oracle)) as Hinv.
  { unfold nudge_inv, for_loop. cbn [sr_sources]. exists RepeatedReadTracker_new, (ImplementNowSteering_new signal).
    destruct oracle as [[[] c]|]; [exists [EarlyTestOracle_new c true]|exists []..]; repeat split; cbn;
      by repeat constructor. }
  revert Hinv. generalize (for_loop signal oracle), (@nil (ToolCallInfo * ToolCallResult)), false.
  induction turns as [|obs turns IH]; intros reg history given Hinv; [done|]. cbn [steer nudges].
  destruct (drain_for_next_turn _) as [out reg'] eqn:E. rewrite fmap_cons.
  destruct (nudge_inv_turn _ _ _ _ _ _ Hinv E) as [Hout Hinv']. rewrite Hout. f_equal.
  apply IH. by apply nudge_inv_observe.
Qed.
End Runs.

(** * Repeated reads within a turn *)
Definition occurrences (h : string) (hs : list string) : nat :=
  length (List.filter (fun x => bool_decide (x = h)) hs).
Lemma occurrences_snoc h hs x :
  occurrences h (hs ++ [x]) = occurrences h hs + (if bool_decide (x = h) then 1 else 0).
Proof. unfold occurrences. rewrite List.filter_app, length_app. cbn. by case_bool_decide. Qed.

Lemma record_counts hs h :
  h <> "" -> default 0 (rrt_counts (foldl record RepeatedReadTracker_new hs) !! h) = occurrences h hs.
Proof.
  intros Hh. induction hs as [|x hs IH] using rev_ind; [done|].
  rewrite foldl_app, occurrences_snoc. cbn [foldl]. unfold record at 1. case_bool_decide as Hx.
  - subst x. rewrite bool_decide_eq_false_2 by congruence. by rewrite IH, Nat.add_0_r.
  - cbn [rrt_counts]. case_bool_decide as E.
    + subst x. rewrite lookup_insert_eq. cbn. rewrite IH. lia.
    + rewrite lookup_insert_ne by done. by rewrite IH, Nat.add_0_r.
Qed.

(** Within a turn, a note about repeated reads is queued once for each text
    that was read at least [REPEATED_READ_THRESHOLD] times, and for no other. *)
Theorem repeated_reads_noted hs :
  let pending := rrt_pending (foldl record RepeatedReadTracker_new hs) in
  NoDup pending
  /\ forall h, h ∈ pending <-> h <> "" /\ REPEATED_READ_THRESHOLD <= occurrences h hs.
Proof.
  cbv zeta. induction hs as [|x hs [IHn IHp]] using rev_ind.
  { split; [constructor|]. intros h. cbn. split; [by intros ?%not_elem_of_nil|]. unfold REPEATED_READ_THRESHOLD. cbn. lia. }
  rewrite foldl_app. cbn [foldl]. set (t := foldl record RepeatedReadTracker_new hs) in *.
  unfold record. destruct (bool_decide (x = "")) eqn:Hx.
  { apply bool_decide_eq_true in Hx. subst x. split; [done|]. intros h. rewrite IHp, occurrences_snoc.
    case_bool_decide; [subst; naive_solver|]. by rewrite Nat.add_0_r. }
  apply bool_decide_eq_false in Hx. cbn [rrt_pending]. pose proof (record_counts hs x Hx) as Hc. fold t in Hc.
  unfold REPEATED_READ_THRESHOLD in *. case_bool_decide as E.
  - split.
    + apply NoDup_app. split; [done|]. split; [|apply NoDup_singleton]. intros h Hh ->%list_elem_of_singleton.
      apply IHp in Hh. lia.
    + intros h. rewrite elem_of_app, list_elem_of_singleton, IHp, occurrences_snoc.
      case_bool_decide as Exh; [subst h; split; [intros [?|?]|right]; try done; split; naive_solver lia|].
      rewrite Nat.add_0_r. split; [intros [?|?]; [done|congruence]|naive_solver].
  - split; [done|]. intros h. rewrite IHp, occurrences_snoc.
    case_bool_decide as Exh; [subst h|by rewrite Nat.add_0_r]. naive_solver lia.
Qed.
