(* ===== verification/ToolCache.v ===== *)
(** The tool-result cache of the agent loop
    ([aura-agent/src/agent_loop/cache.rs, tool_execution.rs, search_cache.rs]) and
    the text the [read_file] tool returns ([aura-tools/src/fs_tools/read.rs]),
    which the cache cuts windows out of.

    [serde_json::Value::to_string] is [json_to_string]; reading it back is the
    parameter [json_from_str].  Line numbers and sizes are [usize] values in [Z];
    paths are Unix paths. *)
From S2P Require Import Prelude Values Utf8 Text CoreTypes Exec Compaction LoopTypes.
From stdpp Require Import list sorting pretty.
From Stdlib Require Import Ascii Strings.Byte.

(** [serde_json::from_str]. *)
Class JsonFromStr := json_from_str : string -> option json.
Class JsonFromStrOk `{JsonText} `{JsonFromStr} : Prop :=
  json_from_to v : json_from_str (json_to_string v) = Some v.

Record ReadRangeEntry := {
  rre_start_line : option Z;
  rre_end_line : option Z;
  rre_rendered : string;
}.
Record ToolResultCache := {
  tcache_exact : gmap string string;
  tcache_fuzzy : gmap string string;
  tcache_ranges : gmap string (list ReadRangeEntry);
}.
Definition ToolResultCache_default : ToolResultCache :=
  {| tcache_exact := ∅; tcache_fuzzy := ∅; tcache_ranges := ∅ |}.

Definition usize_max : Z := u64_max.
Definition nul : ascii := "000".
Definition nul_text : string := String nul EmptyString.
Definition is_cacheable (tool_name : string) : bool := bool_decide (tool_name ∈ CACHEABLE_TOOLS).

(** * The text of [read_file]

    [fs_read] on the contents of a file that was found; [None] where the slice
    [lines\[(start - 1)..end\]] panics. *)
Definition truncation_marker (dropped total : Z) : string :=
  nl +++ "... [truncated " +++ fmt_Z dropped +++ " of " +++ fmt_Z total
  +++ " bytes; use start_line/end_line for slicing or pass max_bytes to read more.]".
Definition numbered (n : Z) (line : string) : string := pad_left 6 (fmt_Z n) +++ "|" +++ line.
Fixpoint number_from (n : Z) (ls : list string) : list string :=
  match ls with [] => [] | l :: r => numbered n l :: number_from (n + 1) r end.
(** [lines\[(start - 1)..end\]]. *)
Definition line_range (ls : list string) (start last : Z) : list string :=
  take (Z.to_nat (last - (start - 1))) (drop (Z.to_nat (start - 1)) ls).
Definition loaded (contents : bytes) (max_bytes : Z) : bytes :=
  let size := Z.of_nat (length contents) in
  if (max_bytes <? size)%Z
  then take (Z.to_nat max_bytes) contents ++ string_to_bytes (truncation_marker (size - max_bytes) size)
  else contents.
Definition cut_output (output : string) (max_bytes : Z) : string :=
  if (max_bytes <? str_len output)%Z then
    let l := string_to_bytes output in
    let idx := char_boundary l (Z.to_nat max_bytes) in
    String.string_of_list_byte (take idx l)
    +++ truncation_marker (str_len output - Z.of_nat idx) (str_len output)
  else output.
Definition fs_read (contents : bytes) (max_bytes : Z) (start_line end_line : option Z) : option string :=
  let text := from_utf8_lossy (loaded contents max_bytes) in
  match start_line, end_line with
  | None, None => Some text
  | _, _ =>
      let ls := lines text in
      let total := Z.of_nat (length ls) in
      let start := Z.max 1 (default 1 start_line)%Z in
      let last := Z.min total (default total end_line) in
      if (total <? start)%Z
      then Some ("(file has " +++ fmt_Z total +++ " lines, requested start_line=" +++ fmt_Z start +++ ")")
      else if (last <? start - 1)%Z then None
      else Some (cut_output (str_join nl (number_from start (line_range ls start last))) max_bytes)
  end.

(** * Paths *)
Definition canonical_tool_path (path : string) : string :=
  let s := string_map (fun c => if bool_decide (c = "\"%char) then "/"%char else c) path in
  trim_end_matches (fun c => bool_decide (c = "/"%char)) (trim_start_matches "./" s).
Definition extract_path_arg (input : json) : option string :=
  raw ← json_get "path" input ≫= json_as_str;
  let raw := trim raw in
  if bool_decide (raw = "") then None else Some (canonical_tool_path raw).
Definition paths_overlap (a b : string) : bool :=
  if bool_decide (a = "") || bool_decide (b = "") then false
  else bool_decide (a = b) || path_starts_with a b || path_starts_with b a.

(** * Windows of a file *)
Definition read_file_window (input : json) : option (string * option Z * option Z) :=
  path ← extract_path_arg input;
  Some (path, json_get "start_line" input ≫= json_as_u64, json_get "end_line" input ≫= json_as_u64).
Definition entry_covers (e : ReadRangeEntry) (req_start req_end : option Z) : bool :=
  match rre_start_line e, rre_end_line e with
  | None, None => true
  | s, l =>
      let want_start := Z.max 1 (default 1 req_start)%Z in
      let want_end := default usize_max req_end in
      ((default 1 s <=? want_start) && (want_end <=? default usize_max l))%Z
  end.
Definition in_window (want_start want_end : Z) (row : string) : bool :=
  match split_once "|" row with
  | Some (prefix, _) =>
      match parse_usize (trim prefix) with
      | Some n => ((want_start <=? n) && (n <=? want_end))%Z
      | None => false
      end
  | None => false
  end.
Definition slice_line_numbered (rendered : string) (want_start want_end : Z) : option string :=
  match List.filter (in_window want_start want_end) (split_on newline rendered) with
  | [] => None
  | kept => Some (str_join nl kept)
  end.
Definition slice_raw_to_line_numbered (rendered : string) (want_start want_end : Z) : option string :=
  let ls := lines rendered in
  let total := Z.of_nat (length ls) in
  if ((total =? 0) || (total <? want_start))%Z then None
  else
    let last := Z.min total want_end in
    let start := Z.max 1 want_start in
    if (last <? start)%Z then None
    else Some (str_join nl (number_from start (line_range ls start last))).
Definition TRUNCATION_MARKER : string := nl +++ "... [truncated".
Definition slice_entry (e : ReadRangeEntry) (req_start req_end : option Z) : option string :=
  if contains TRUNCATION_MARKER (rre_rendered e) then None
  else
    let want_start := Z.max 1 (default 1 req_start)%Z in
    let want_end := default usize_max req_end in
    if (want_end <? want_start)%Z then None
    else match rre_start_line e, rre_end_line e with
         | None, None => slice_raw_to_line_numbered (rre_rendered e) want_start want_end
         | _, _ => slice_line_numbered (rre_rendered e) want_start want_end
         end.
Fixpoint first_slice (entries : list ReadRangeEntry) (req_start req_end : option Z) : option string :=
  match entries with
  | [] => None
  | e :: rest =>
      match (if entry_covers e req_start req_end then slice_entry e req_start req_end else None) with
      | Some s => Some s
      | None => first_slice rest req_start req_end
      end
  end.
Definition range_cache_lookup (cache : ToolResultCache) (input : json) : option string :=
  '(path, req_start, req_end) ← read_file_window input;
  entries ← tcache_ranges cache !! path;
  first_slice entries req_start req_end.
Definition entry_strictly_covers (outer inner : ReadRangeEntry) : bool :=
  match rre_start_line outer, rre_end_line outer with
  | None, None => true
  | s, l =>
      ((default 1 s <=? default 1 (rre_start_line inner))
       && (default usize_max (rre_end_line inner) <=? default usize_max l))%Z
  end.
Definition insert_read_range_entry (cache : ToolResultCache) (input : json) (rendered : string)
  : ToolResultCache :=
  match read_file_window input with
  | None => cache
  | Some (path, start_line, end_line) =>
      let e := {| rre_start_line := start_line; rre_end_line := end_line; rre_rendered := rendered |} in
      let old := default [] (tcache_ranges cache !! path) in
      {| tcache_exact := tcache_exact cache; tcache_fuzzy := tcache_fuzzy cache;
         tcache_ranges :=
           <[path := List.filter (fun x => negb (entry_strictly_covers e x)) old ++ [e]]>
             (tcache_ranges cache) |}
  end.

Section Cache.
Context `{JsonText} `{JsonFromStr}.

(** * Keys *)
Definition tool_result_cache_key (tool_name : string) (input : json) : string :=
  tool_name +++ nul_text +++ json_to_string input.

Definition value_to_display (v : json) : string :=
  match v with JString s => s | other => json_to_string other end.
Definition normalize_scalar (raw : option string) : string :=
  match raw with Some s => to_ascii_lowercase (trim s) | None => "" end.
Definition normalize_path (raw : option string) : string :=
  match raw with
  | None => ""
  | Some raw =>
      let trimmed := trim raw in
      if bool_decide (trimmed = "") then ""
      else
        let unified := string_map (fun c => if bool_decide (c = "\"%char) then "/"%char else c) trimmed in
        to_ascii_lowercase (trim_end_matches (fun c => bool_decide (c = "/"%char)) unified)
  end.
Fixpoint dedup (seen : list string) (l : list string) : list string :=
  match l with
  | [] => []
  | s :: r => if bool_decide (s ∈ seen) then dedup seen r else s :: dedup (s :: seen) r
  end.
Definition str_le (a b : string) : Prop := lex_le (string_to_bytes a) (string_to_bytes b) = true.
#[local] Instance str_le_dec a b : Decision (str_le a b).
Proof. unfold str_le. apply _. Defined.
Definition normalize_pattern (raw : option string) : string :=
  match raw with
  | None => ""
  | Some raw =>
      let pieces := List.filter (fun p => negb (bool_decide (p = "")))
                      ((fun p => to_ascii_lowercase (trim p)) <$> split_on "|" raw) in
      str_join "|" (merge_sort str_le (dedup [] pieces))
  end.
Definition build_key (tool pattern include path ctx : string) : string :=
  tool +++ nul_text +++ "pattern=" +++ pattern +++ nul_text +++ "include=" +++ include
  +++ nul_text +++ "path=" +++ path +++ nul_text +++ "ctx=" +++ ctx.
Definition str_arg (k : string) (input : json) : option string := json_get k input ≫= json_as_str.
Definition normalized_search_key (tool : string) (input : json) : option string :=
  if bool_decide (tool = "search_code") then
    Some (build_key "search_code" (normalize_pattern (str_arg "pattern" input))
            (normalize_scalar (str_arg "include" input)) (normalize_path (str_arg "path" input))
            (normalize_scalar (value_to_display <$> json_get "context_lines" input)))
  else if bool_decide (tool = "find_files") then
    let pattern := match str_arg "pattern" input with Some p => Some p | None => str_arg "glob" input end in
    Some (build_key "find_files" (normalize_pattern pattern) "" (normalize_path (str_arg "path" input)) "")
  else None.

(** * Lookup *)
Definition cached_tool_result (call : ToolCallInfo) (content : string) : ToolCallResult :=
  ToolCallResult_success (tc_id call) content.
Definition cache_lookup (cache : ToolResultCache) (tc : ToolCallInfo) : option string :=
  if negb (is_cacheable (tc_name tc)) then None
  else match tcache_exact cache !! tool_result_cache_key (tc_name tc) (tc_input tc) with
       | Some hit => Some hit
       | None =>
           match (if bool_decide (tc_name tc = "read_file")
                  then range_cache_lookup cache (tc_input tc) else None) with
           | Some hit => Some hit
           | None =>
               fkey ← normalized_search_key (tc_name tc) (tc_input tc);
               tcache_fuzzy cache !! fkey
           end
       end.
Fixpoint split_cached (tool_calls : list ToolCallInfo) (cache : ToolResultCache)
  : list ToolCallResult * list ToolCallInfo :=
  match tool_calls with
  | [] => ([], [])
  | tc :: rest =>
      let '(cached, uncached) := split_cached rest cache in
      match cache_lookup cache tc with
      | Some hit => (cached_tool_result tc hit :: cached, uncached)
      | None => (cached, tc :: uncached)
      end
  end.

(** * Update *)
Definition cached_input_path (canonical_input : string) : option string :=
  json_from_str canonical_input ≫= extract_path_arg.
Definition key_dropped (write_paths : list string) (key : string) : bool :=
  match split_once nul key with
  | None => false
  | Some (tool_name, canonical_input) =>
      if bool_decide (tool_name = "search_code") || bool_decide (tool_name = "find_files") then true
      else match cached_input_path canonical_input with
           | Some p => existsb (fun w => paths_overlap w p) write_paths
           | None => false
           end
  end.
Definition invalidate_on_writes (cache : ToolResultCache) (write_paths : list string)
  : ToolResultCache := {|
  tcache_exact := filter (fun kv => key_dropped write_paths (fst kv) = false) (tcache_exact cache);
  tcache_fuzzy := ∅;
  tcache_ranges :=
    filter (fun kv => existsb (fun w => paths_overlap w (fst kv)) write_paths = false)
      (tcache_ranges cache) |}.
Definition written_path (executed : list ToolCallResult) (tc : ToolCallInfo) : option string :=
  if is_write_tool (tc_name tc)
     && existsb (fun r => bool_decide (tcr_tool_use_id r = tc_id tc) && negb (tcr_is_error r)) executed
  then extract_path_arg (tc_input tc) else None.
Definition cache_result (uncached : list ToolCallInfo) (cache : ToolResultCache) (r : ToolCallResult)
  : ToolResultCache :=
  match List.find (fun t => bool_decide (tc_id t = tcr_tool_use_id r)) uncached with
  | None => cache
  | Some tc =>
      if is_cacheable (tc_name tc) && negb (tcr_is_error r) then
        let exact :=
          <[tool_result_cache_key (tc_name tc) (tc_input tc) := tcr_content r]> (tcache_exact cache) in
        let fuzzy :=
          match normalized_search_key (tc_name tc) (tc_input tc) with
          | Some fkey => <[fkey := tcr_content r]> (tcache_fuzzy cache)
          | None => tcache_fuzzy cache
          end in
        let cache := {| tcache_exact := exact; tcache_fuzzy := fuzzy;
                        tcache_ranges := tcache_ranges cache |} in
        if bool_decide (tc_name tc = "read_file")
        then insert_read_range_entry cache (tc_input tc) (tcr_content r) else cache
      else cache
  end.
Definition update_cache (cache : ToolResultCache) (uncached : list ToolCallInfo)
    (executed : list ToolCallResult) : ToolResultCache :=
  let write_paths := omap (written_path executed) uncached in
  let cache := if bool_decide (write_paths = []) then cache else invalidate_on_writes cache write_paths in
  foldl (cache_result uncached) cache executed.
End Cache.
