(* ===== verification/ToolCacheProps.v ===== *)
(** Correctness of the tool-result cache: a window served from the cache is what
    reading the file again would return, after any reads and writes ([cache_filled]);
    a write forgets the results it affects;
    and where the cache answers with something else. *)
From S2P Require Import Prelude Values Utf8 Text CoreTypes Exec Compaction LoopTypes ToolCache.
From stdpp Require Import list sorting pretty.
From Stdlib Require Import Ascii Strings.Byte.

(** * Windows *)
Lemma fmt_no_char c z :
  (0 <= z)%Z -> is_digit (byte_to_Z (byte_of_ascii c)) = false -> contains_char c (fmt_Z z) = false.
Proof. intros Hz Hc. apply digits_no_char; [done|]. by destruct (fmt_digits z Hz). Qed.

Lemma in_window_numbered a b n line :
  (0 <= n <= usize_max)%Z -> in_window a b (numbered n line) = ((a <=? n) && (n <=? b))%Z.
Proof.
  intros Hn. unfold in_window, numbered. rewrite (string_app_cons "|" ""), string_app_nil_l.
  rewrite split_once_app by (apply padded_no_char; [lia|done|done]). by rewrite parse_padded.
Qed.
Lemma numbered_no_newline n line :
  (0 <= n)%Z -> contains_char newline line = false -> contains_char newline (numbered n line) = false.
Proof.
  intros Hn Hl. unfold numbered. rewrite !contains_char_app, Hl, orb_false_r.
  by rewrite padded_no_char.
Qed.
Lemma number_from_no_newline n ls :
  (0 <= n)%Z -> Forall (fun r => contains_char newline r = false) ls ->
  Forall (fun r => contains_char newline r = false) (number_from n ls).
Proof.
  intros Hn Hls. revert n Hn. induction Hls as [|l ls Hl _ IH]; intros n Hn; cbn; constructor.
  - by apply numbered_no_newline.
  - apply IH. lia.
Qed.

Lemma filter_after a b n ls :
  (0 <= a <= n)%Z -> (n + Z.of_nat (length ls) <= usize_max + 1)%Z ->
  List.filter (in_window a b) (number_from n ls) = number_from n (take (Z.to_nat (b - n + 1)) ls).
Proof.
  revert n. induction ls as [|l ls IH]; intros n Ha Hn; [by rewrite take_nil|]. cbn [number_from List.filter].
  cbn [length] in Hn. rewrite in_window_numbered by lia. rewrite (proj2 (Z.leb_le a n)) by lia.
  rewrite IH by lia. destruct (Z.leb_spec n b); cbn [andb].
  - replace (Z.to_nat (b - n + 1)) with (S (Z.to_nat (b - (n + 1) + 1))) by lia. done.
  - replace (Z.to_nat (b - n + 1)) with 0 by lia. by replace (Z.to_nat (b - (n + 1) + 1)) with 0 by lia.
Qed.
Lemma filter_window a b n ls :
  (0 <= n <= a)%Z -> (n + Z.of_nat (length ls) <= usize_max + 1)%Z ->
  List.filter (in_window a b) (number_from n ls)
  = number_from a (take (Z.to_nat (b - a + 1)) (drop (Z.to_nat (a - n)) ls)).
Proof.
  revert n. induction ls as [|l ls IH]; intros n Ha Hn; [by rewrite drop_nil, take_nil|].
  destruct (decide (n = a)) as [->|Hne].
  { replace (Z.to_nat (a - a)) with 0 by lia. apply filter_after; cbn in *; lia. }
  cbn [number_from List.filter]. cbn [length] in Hn. rewrite in_window_numbered by lia.
  rewrite (proj2 (Z.leb_gt a n)) by lia. cbn [andb]. rewrite IH by lia.
  by replace (Z.to_nat (a - n)) with (S (Z.to_nat (a - (n + 1)))) by lia.
Qed.
Lemma number_from_nil n ls : number_from n ls = [] -> ls = [].
Proof. by destruct ls. Qed.

Lemma str_strip_prefix_app p s : str_strip_prefix p (p +++ s) = Some s.
Proof.
  induction p as [|c p IH]; [done|]. rewrite string_app_cons. cbn. by rewrite bool_decide_eq_true_2.
Qed.
Lemma contains_app p a s : contains p (a +++ p +++ s) = true.
Proof.
  induction a as [|c a IH].
  - rewrite string_app_nil_l. destruct (p +++ s) eqn:E; cbn; unfold starts_with; rewrite <-E, str_strip_prefix_app;
      by rewrite bool_decide_eq_true_2.
  - rewrite string_app_cons. cbn [contains]. rewrite IH. apply orb_true_r.
Qed.
Lemma cut_has_marker output max_bytes :
  (max_bytes < str_len output)%Z -> contains TRUNCATION_MARKER (cut_output output max_bytes) = true.
Proof.
  intros Hlt. unfold cut_output. rewrite (proj2 (Z.ltb_lt _ _)) by done. unfold truncation_marker.
  match goal with |- contains _ (?a +++ nl +++ "... [truncated " +++ ?r) = _ =>
    replace (a +++ nl +++ "... [truncated " +++ r) with (a +++ TRUNCATION_MARKER +++ (" " +++ r)) by done
  end.
  apply contains_app.
Qed.
Lemma cut_output_fits output max_bytes : (str_len output <= max_bytes)%Z -> cut_output output max_bytes = output.
Proof. intros Hle. unfold cut_output. by rewrite (proj2 (Z.ltb_ge _ _)). Qed.

(** What a window of [fs_read] is, when the window is not empty. *)
Lemma fs_read_window contents max_bytes rs re out :
  let ls := lines (from_utf8_lossy (loaded contents max_bytes)) in
  let ws := Z.max 1 (default 1 rs)%Z in
  let last := Z.min (Z.of_nat (length ls)) (default (Z.of_nat (length ls)) re) in
  ~ (rs = None /\ re = None) ->
  line_range ls ws last <> [] ->
  out = str_join nl (number_from ws (line_range ls ws last)) ->
  (str_len out <= max_bytes)%Z ->
  fs_read contents max_bytes rs re = Some out.
Proof.
  cbv zeta. intros Hr Hne -> Hlen. unfold fs_read, line_range in *.
  set (ls := lines _) in *. set (total := Z.of_nat (length ls)) in *.
  set (ws := Z.max 1 (default 1 rs)%Z) in *. set (l := Z.min total (default total re)) in *.
  assert ((total <? ws)%Z = false) as Ht.
  { apply Z.ltb_ge. destruct (decide (ws <= total)%Z) as [|Hn]; [done|]. destruct Hne.
    rewrite (drop_ge ls) by lia. apply take_nil. }
  assert ((l <? ws - 1)%Z = false) as Hl.
  { apply Z.ltb_ge. destruct (decide (ws - 1 <= l)%Z) as [|Hn]; [done|]. destruct Hne.
    by replace (Z.to_nat (l - (ws - 1))) with 0 by lia. }
  rewrite Ht, Hl, cut_output_fits by done. destruct rs, re; try done. by destruct Hr.
Qed.

(** Cutting a window out of a wider one. *)
Lemma range_of_range {A} (ls : list A) (s0 last0 ws we last1 : Z) :
  (1 <= s0 <= ws)%Z -> Z.min we last0 = last1 -> (last0 <= Z.of_nat (length ls))%Z ->
  take (Z.to_nat (we - ws + 1))
    (drop (Z.to_nat (ws - s0)) (take (Z.to_nat (last0 - (s0 - 1))) (drop (Z.to_nat (s0 - 1)) ls)))
  = take (Z.to_nat (last1 - (ws - 1))) (drop (Z.to_nat (ws - 1)) ls).
Proof.
  intros Hs Hl Hn. rewrite skipn_firstn_comm, drop_drop, take_take.
  f_equal; [lia|]. f_equal. lia.
Qed.

Lemma no_bar_no_rows a b s : contains_char "|" s = false -> in_window a b s = false.
Proof.
  intros Hs. unfold in_window. destruct (split_once "|" s) as [[p r]|] eqn:E; [|done]. exfalso.
  revert p r E. induction s as [|c s IH]; intros p r; cbn in *; [done|].
  apply orb_false_iff in Hs as [Hc Hs]. rewrite Hc. destruct (split_once "|" s) as [[p' r']|]; [|done].
  intros _. by apply (IH Hs p' r').
Qed.
Lemma no_bar_pieces s : contains_char "|" s = false -> Forall (fun r => contains_char "|" r = false) (split_on newline s).
Proof.
  induction s as [|c s IH]; cbn; [by repeat constructor|]. intros [Hc Hs]%orb_false_iff. specialize (IH Hs).
  destruct (bool_decide (c = newline)); [by constructor|]. destruct (split_on newline s) as [|w ws]; [repeat constructor|].
  - cbn. by rewrite Hc.
  - apply Forall_cons in IH as [Hw Hws]. constructor; [|done]. cbn. by rewrite Hc.
Qed.

(** [file has N lines] names no line. *)
Lemma beyond_end_unsliced total start ws we :
  (0 <= total)%Z -> (0 <= start)%Z ->
  slice_line_numbered
    ("(file has " +++ fmt_Z total +++ " lines, requested start_line=" +++ fmt_Z start +++ ")") ws we = None.
Proof.
  intros Ht Hs. unfold slice_line_numbered. rewrite filter_none; [done|].
  eapply Forall_impl; [|intros r; apply no_bar_no_rows]. apply no_bar_pieces.
  rewrite !contains_char_app, !fmt_no_char by done. done.
Qed.
Lemma slice_of_rows n ls ws we out :
  (0 <= n <= ws)%Z -> (n + Z.of_nat (length ls) <= usize_max + 1)%Z ->
  Forall (fun r => contains_char newline r = false) ls ->
  slice_line_numbered (str_join nl (number_from n ls)) ws we = Some out ->
  take (Z.to_nat (we - ws + 1)) (drop (Z.to_nat (ws - n)) ls) <> []
  /\ out = str_join nl (number_from ws (take (Z.to_nat (we - ws + 1)) (drop (Z.to_nat (ws - n)) ls))).
Proof.
  intros Hn Hlen Hls. unfold slice_line_numbered.
  destruct (decide (ls = [])) as [->|Hne]; [done|].
  rewrite split_join by (try (by apply number_from_no_newline; [lia|]); by destruct ls).
  rewrite filter_window by done. set (kept := take _ _).
  destruct kept as [|k ks]; cbn [number_from]; [done|]. intros [= <-]. done.
Qed.

(** The two shapes of a cached entry. *)
Lemma raw_window_is_fresh contents max_bytes rs re out :
  let text := from_utf8_lossy (loaded contents max_bytes) in
  (Z.of_nat (length (lines text)) <= usize_max)%Z ->
  (Z.max 1 (default 1 rs) <= default usize_max re)%Z ->
  slice_raw_to_line_numbered text (Z.max 1 (default 1 rs)%Z) (default usize_max re) = Some out ->
  ~ (rs = None /\ re = None) -> (str_len out <= max_bytes)%Z ->
  fs_read contents max_bytes rs re = Some out.
Proof.
  cbv zeta. intros Htot Hw Hslice Hr Hlen. unfold slice_raw_to_line_numbered in Hslice.
  set (ls := lines (from_utf8_lossy (loaded contents max_bytes))) in *.
  set (total := Z.of_nat (length ls)) in *. set (ws := Z.max 1 (default 1 rs)%Z) in *.
  assert (1 <= ws)%Z as Hws by (unfold ws; lia).
  destruct ((total =? 0) || (total <? ws))%Z eqn:E; [done|].
  apply orb_false_iff in E as [E0%Z.eqb_neq Et%Z.ltb_ge].
  destruct (Z.ltb_spec (Z.min total (default usize_max re)) (Z.max 1 ws))%Z as [|Hll]; [done|].
  injection Hslice as Hout. replace (Z.max 1 ws) with ws in * by lia.
  assert (Z.min total (default usize_max re) = Z.min total (default total re)) as Hm
    by (destruct re; cbn in *; lia).
  rewrite Hm in *. apply fs_read_window; [done| |by fold ls total ws|done]. fold ls total ws.
  unfold line_range. intros Hnil%(f_equal length). rewrite length_take, length_drop in Hnil. cbn in Hnil. lia.
Qed.
Lemma line_window_is_fresh contents max_bytes s l rendered rs re out :
  (Z.of_nat (length (lines (from_utf8_lossy (loaded contents max_bytes)))) <= usize_max)%Z ->
  ~ (s = None /\ l = None) -> fs_read contents max_bytes s l = Some rendered ->
  contains TRUNCATION_MARKER rendered = false ->
  (default 1 s <= Z.max 1 (default 1 rs))%Z -> (default usize_max re <= default usize_max l)%Z ->
  (Z.max 1 (default 1 rs) <= default usize_max re)%Z ->
  slice_line_numbered rendered (Z.max 1 (default 1 rs)%Z) (default usize_max re) = Some out ->
  ~ (rs = None /\ re = None) -> (str_len out <= max_bytes)%Z ->
  fs_read contents max_bytes rs re = Some out.
Proof.
  intros Htot Hsl Hread Hmark Hc1 Hc2 Hw Hs Hr Hlen. unfold fs_read in Hread.
  set (ls := lines (from_utf8_lossy (loaded contents max_bytes))) in *.
  set (total := Z.of_nat (length ls)) in *. set (ws := Z.max 1 (default 1 rs)%Z) in *.
  set (s0 := Z.max 1 (default 1 s)%Z) in *. set (last0 := Z.min total (default total l)) in *.
  assert ((if (total <? s0)%Z
           then Some ("(file has " +++ fmt_Z total +++ " lines, requested start_line=" +++ fmt_Z s0 +++ ")")
           else if (last0 <? s0 - 1)%Z then None
           else Some (cut_output (str_join nl (number_from s0 (line_range ls s0 last0))) max_bytes))
          = Some rendered) as Hread' by (destruct s, l; try done; by destruct Hsl).
  clear Hread. destruct (Z.ltb_spec total s0) as [Hlt|Hge].
  { injection Hread' as <-. rewrite beyond_end_unsliced in Hs by lia. done. }
  destruct (Z.ltb_spec last0 (s0 - 1)) as [|Hlast]; [done|]. injection Hread' as <-.
  destruct (decide (max_bytes < str_len (str_join nl (number_from s0 (line_range ls s0 last0))))%Z) as [Hcut|Hfit].
  { by rewrite cut_has_marker in Hmark. }
  rewrite cut_output_fits in Hs by lia. assert (1 <= s0 <= ws)%Z as Hs0 by lia.
  assert (length (line_range ls s0 last0) <= length ls - Z.to_nat (s0 - 1)) as Hll.
  { unfold line_range. rewrite length_take, length_drop. lia. }
  apply slice_of_rows in Hs as [Hne Hout]; [|lia|lia|by apply Forall_take, Forall_drop, lines_no_newline].
  unfold line_range in Hne, Hout.
  assert (Z.min (default usize_max re) last0 = Z.min total (default total re)) as Hm
    by (destruct re, l; cbn in *; lia).
  rewrite (range_of_range _ _ _ _ _ (Z.min total (default total re))) in Hne, Hout by (done || lia).
  by apply fs_read_window.
Qed.

(** One entry: if reading the window returned [rendered] and the file has the
    same contents, the text cut out of [rendered] for a window it covers is what
    reading that window returns. *)
Lemma entry_window_is_fresh contents max_bytes s l rendered rs re out :
  (Z.of_nat (length (lines (from_utf8_lossy (loaded contents max_bytes)))) <= usize_max)%Z ->
  fs_read contents max_bytes s l = Some rendered ->
  entry_covers {| rre_start_line := s; rre_end_line := l; rre_rendered := rendered |} rs re = true ->
  slice_entry {| rre_start_line := s; rre_end_line := l; rre_rendered := rendered |} rs re = Some out ->
  ~ (rs = None /\ re = None) ->
  (str_len out <= max_bytes)%Z ->
  fs_read contents max_bytes rs re = Some out.
Proof.
  intros Htot Hread Hcov Hslice Hr Hlen. unfold entry_covers, slice_entry in *.
  cbn [rre_start_line rre_end_line rre_rendered] in *.
  destruct (contains TRUNCATION_MARKER rendered) eqn:Hmark; [done|].
  destruct (Z.ltb_spec (default usize_max re) (Z.max 1 (default 1 rs)))%Z as [|Hw]; [done|].
  assert (s = None /\ l = None \/ ~ (s = None /\ l = None)) as [[-> ->]|Hsl] by (destruct s, l; naive_solver).
  - injection Hread as <-. by apply raw_window_is_fresh.
  - assert ((default 1 s <=? Z.max 1 (default 1 rs)) && (default usize_max re <=? default usize_max l) = true)%Z
      as [Hc1%Z.leb_le Hc2%Z.leb_le]%andb_true_iff by (destruct s, l; try done; by destruct Hsl).
    apply (line_window_is_fresh contents max_bytes s l rendered); try done.
    destruct s, l; try done; by destruct Hsl.
Qed.

(** * The range cache over reads and writes *)
Section Ranges.
Context `{Htext : JsonText} `{Hfrom : JsonFromStr} (max_bytes : Z).

(** The caches that reads and writes of [files], by canonical path, leave: a read
    puts in what [read_file] returned, and a write may change the files at, above or
    below the written paths, which it invalidates. *)
Inductive cache_filled : (string -> bytes) -> ToolResultCache -> Prop :=
| filled_empty files : cache_filled files ToolResultCache_default
| filled_read files cache input path s l rendered :
    cache_filled files cache ->
    read_file_window input = Some (path, s, l) -> fs_read (files path) max_bytes s l = Some rendered ->
    (Z.of_nat (length (lines (from_utf8_lossy (loaded (files path) max_bytes)))) <= usize_max)%Z ->
    cache_filled files (insert_read_range_entry cache input rendered)
| filled_write files files' cache write_paths :
    cache_filled files cache ->
    (forall p, existsb (fun w => paths_overlap w p) write_paths = false -> files' p = files p) ->
    cache_filled files' (invalidate_on_writes cache write_paths).

Definition entry_fresh (contents : bytes) (e : ReadRangeEntry) : Prop :=
  fs_read contents max_bytes (rre_start_line e) (rre_end_line e) = Some (rre_rendered e)
  /\ (Z.of_nat (length (lines (from_utf8_lossy (loaded contents max_bytes)))) <= usize_max)%Z.
Lemma filled_fresh files cache : cache_filled files cache ->
  forall path es, tcache_ranges cache !! path = Some es -> Forall (entry_fresh (files path)) es.
Proof.
  induction 1 as [|files cache input path s l rendered _ IH Hw Hr Hn|files files' cache ws _ IH Hsame]; intros q es Hq.
  - cbn in Hq. by apply lookup_empty_Some in Hq.
  - unfold insert_read_range_entry in Hq. rewrite Hw in Hq. cbn in Hq.
    apply lookup_insert_Some in Hq as [[<- <-]|[_ Hq]]; [|by apply IH]. rewrite Forall_app. split; [|by repeat constructor].
    apply Forall_forall. intros e [He _]%list_elem_of_In%List.filter_In. apply list_elem_of_In in He. destruct (tcache_ranges cache !! path) as [old|] eqn:Ho; cbn in He;
      [|by apply elem_of_nil in He]. specialize (IH _ _ Ho). rewrite Forall_forall in IH. by apply IH.
  - cbn in Hq. apply map_lookup_filter_Some in Hq as [Hq Hk]. cbn in Hk. rewrite (Hsame q Hk). by apply IH.
Qed.
Lemma first_slice_Some es rs re out : first_slice es rs re = Some out ->
  exists e, e ∈ es /\ entry_covers e rs re = true /\ slice_entry e rs re = Some out.
Proof.
  induction es as [|e es IH]; cbn; [done|]. destruct (entry_covers e rs re) eqn:Ec; [destruct (slice_entry e rs re) eqn:Es|].
  - intros [= ->]. exists e. by split_and!; [left|..].
  - intros (e' & ? & ? & ?)%IH. exists e'. by split_and!; [right|..].
  - intros (e' & ? & ? & ?)%IH. exists e'. by split_and!; [right|..].
Qed.

End Ranges.

(** * What a write leaves *)
Section Writes.
Context `{Htext : JsonText} `{Hfrom : JsonFromStr} `{Hok : !JsonFromStrOk}.

(** Two caches that answer a call the same way. *)
Record agree (tc : ToolCallInfo) (c1 c2 : ToolResultCache) : Prop := {
  agree_exact : tcache_exact c1 !! tool_result_cache_key (tc_name tc) (tc_input tc)
                = tcache_exact c2 !! tool_result_cache_key (tc_name tc) (tc_input tc);
  agree_fuzzy : tcache_fuzzy c1 = tcache_fuzzy c2;
  agree_ranges : forall q, tc_name tc = "read_file" -> extract_path_arg (tc_input tc) = Some q ->
                 tcache_ranges c1 !! q = tcache_ranges c2 !! q;
}.
Lemma agree_lookup tc c1 c2 : agree tc c1 c2 -> cache_lookup c1 tc = cache_lookup c2 tc.
Proof.
  intros [He Hf Hr]. unfold cache_lookup. rewrite He, Hf. destruct (negb _); [done|].
  destruct (tcache_exact c2 !! _); [done|]. case_bool_decide as Hn; [|done].
  unfold range_cache_lookup, read_file_window. destruct (extract_path_arg (tc_input tc)) as [q|] eqn:Hq; [|done].
  cbn. by rewrite (Hr q Hn eq_refl).
Qed.
Lemma insert_range_agree tc c1 c2 input rendered :
  agree tc c1 c2 ->
  agree tc (insert_read_range_entry c1 input rendered) (insert_read_range_entry c2 input rendered).
Proof.
  intros Ha. pose proof Ha as [He Hf Hr]. unfold insert_read_range_entry.
  destruct (read_file_window input) as [[[path s] l]|]; [|done].
  split; cbn; [done..|]. intros q Hn Hq. specialize (Hr q Hn Hq).
  destruct (decide (path = q)) as [->|Hne]; [by rewrite !lookup_insert_eq, Hr|by rewrite !lookup_insert_ne].
Qed.
Lemma cache_result_agree tc c1 c2 calls r :
  agree tc c1 c2 -> agree tc (cache_result calls c1 r) (cache_result calls c2 r).
Proof.
  intros Ha. unfold cache_result. destruct (List.find _ calls) as [t|]; [|done].
  destruct (_ && _); [|done]. pose proof Ha as [He Hf Hr].
  match goal with |- agree _ (if _ then insert_read_range_entry ?a _ _ else _)
                             (if _ then insert_read_range_entry ?b _ _ else _) =>
    assert (agree tc a b) as Hab end.
  { split; cbn; [|by destruct (normalized_search_key _ _); [rewrite Hf|]|done].
    destruct (decide (tool_result_cache_key (tc_name t) (tc_input t)
                      = tool_result_cache_key (tc_name tc) (tc_input tc))) as [->|Hne];
      [by rewrite !lookup_insert_eq|by rewrite !lookup_insert_ne]. }
  case_bool_decide; [by apply insert_range_agree|done].
Qed.
Lemma cacheable_no_nul name : is_cacheable name = true -> contains_char nul name = false.
Proof.
  unfold is_cacheable, CACHEABLE_TOOLS. rewrite bool_decide_eq_true. set_unfold. intros Hn.
  destruct_or! Hn; subst name; reflexivity.
Qed.
(** The results a write of [p] affects: searches, and whatever was asked about a
    path that is [p], above it or below it. *)
Definition affected (p : string) (tc : ToolCallInfo) : Prop :=
  tc_name tc = "search_code" \/ tc_name tc = "find_files"
  \/ exists q, extract_path_arg (tc_input tc) = Some q /\ paths_overlap p q = true.
Lemma affected_key_dropped p paths tc :
  p ∈ paths -> is_cacheable (tc_name tc) = true -> affected p tc ->
  key_dropped paths (tool_result_cache_key (tc_name tc) (tc_input tc)) = true.
Proof.
  intros Hp Hc Ha. unfold key_dropped, tool_result_cache_key, nul_text.
  rewrite (string_app_cons nul ""), string_app_nil_l, split_once_app by (by apply cacheable_no_nul).
  destruct Ha as [->|[->|(q & Hq & Ho)]]; [done|done|].
  destruct (bool_decide _ || bool_decide _); [done|].
  unfold cached_input_path. rewrite json_from_to. cbn. rewrite Hq.
  apply existsb_exists. exists p. split; [by apply list_elem_of_In|done].
Qed.
Lemma invalidated_agree p paths tc cache :
  p ∈ paths -> is_cacheable (tc_name tc) = true -> affected p tc ->
  agree tc (invalidate_on_writes cache paths) (invalidate_on_writes ToolResultCache_default paths).
Proof.
  intros Hp Hc Ha. split; cbn [invalidate_on_writes tcache_exact tcache_fuzzy tcache_ranges]; [|done|].
  - rewrite !map_lookup_filter_None_2; [done| |].
    + by left.
    + right. intros v _. cbn. by rewrite (affected_key_dropped p).
  - intros q Hn Hq. rewrite !map_lookup_filter_None_2; [done| |].
    + by left.
    + right. intros v _. cbn. destruct Ha as [Ha|[Ha|(q' & Hq' & Ho)]]; [congruence..|].
      rewrite Hq in Hq'. injection Hq' as <-.
      rewrite (proj2 (existsb_exists _ _)); [done|]. exists p. split; [by apply list_elem_of_In|done].
Qed.

(** A successful write forgets everything it affects: after a batch in which
    the path [p] was written, what the cache answers to a search, or to a call
    about [p], a directory above it or a path below it, does not depend on anything
    that was cached before the batch. *)
Theorem write_forgets_affected cache calls results p tc :
  p ∈ omap (written_path results) calls ->
  is_cacheable (tc_name tc) = true -> affected p tc ->
  cache_lookup (update_cache cache calls results) tc
  = cache_lookup (update_cache ToolResultCache_default calls results) tc.
Proof.
  intros Hp Hc Ha. apply agree_lookup. unfold update_cache.
  rewrite bool_decide_eq_false_2 by (intros Hnil; rewrite Hnil in Hp; by apply not_elem_of_nil in Hp).
  pose proof (invalidated_agree p _ tc cache Hp Hc Ha) as Hag. revert Hag.
  generalize (invalidate_on_writes cache (omap (written_path results) calls)).
  generalize (invalidate_on_writes ToolResultCache_default (omap (written_path results) calls)).
  generalize results as rs. induction rs as [|r rs IH]; intros c2 c1 Hag; cbn; [done|].
  apply IH. by apply cache_result_agree.
Qed.
End Writes.

Module ToolCacheExample.
(** A codec for JSON values that can be read back: the number of a tree. *)
Fixpoint json_tree (v : json) : gen_tree (string + bool) :=
  match v with
  | JNull => GenNode 0 []
  | JBool b => GenLeaf (inr b)
  | JNumber text => GenNode 1 [GenLeaf (inl text)]
  | JString s => GenLeaf (inl s)
  | JArray items => GenNode 2 (json_tree <$> items)
  | JObject fields => GenNode 3 ((fun '(k, v) => GenNode 4 [GenLeaf (inl k); json_tree v]) <$> fields)
  end.
Fixpoint tree_json (t : gen_tree (string + bool)) : json :=
  match t with
  | GenLeaf (inl s) => JString s
  | GenLeaf (inr b) => JBool b
  | GenNode 1 [GenLeaf (inl text)] => JNumber text
  | GenNode 2 items => JArray (tree_json <$> items)
  | GenNode 3 fields =>
      JObject ((fun t => match t with
                         | GenNode _ [GenLeaf (inl k); v] => (k, tree_json v)
                         | _ => ("", JNull)
                         end) <$> fields)
  | GenNode _ _ => JNull
  end.
Lemma tree_json_tree : forall v, tree_json (json_tree v) = v.
Proof.
  fix go 1. intros [|b|text|s|items|fields]; cbn; try done; f_equal.
  - induction items as [|i items IH]; cbn; [done|]. by rewrite go, IH.
  - induction fields as [|[k v] fields IH]; cbn; [done|]. by rewrite go, IH.
Qed.
#[local] Instance tree_text : JsonText := fun v => fmt_Z (Zpos (encode (json_tree v))).
#[local] Instance tree_from_str : JsonFromStr := fun s =>
  z ← parse_nonempty (text_bytes s);
  match z with Zpos p => tree_json <$> decode p | _ => None end.
#[local] Instance tree_codec_ok : JsonFromStrOk.
Proof.
  intros v. unfold json_from_str, tree_from_str, json_to_string, tree_text.
  destruct (fmt_digits (Zpos (encode (json_tree v))) ltac:(done)) as (_ & -> & _).
  cbn [mbind option_bind]. rewrite decode_encode. cbn. by rewrite tree_json_tree.
Qed.

Definition file : bytes := string_to_bytes ("one" +++ nl +++ "two|2" +++ nl +++ "three" +++ nl).
Definition lines_1_3 : string := "     1|one" +++ nl +++ "     2|two|2" +++ nl +++ "     3|three".
Definition call (id name : string) (args : list (string * string)) : ToolCallInfo :=
  {| tc_id := id; tc_name := name; tc_input := JObject ((fun '(k, v) => (k, JString v)) <$> args) |}.
(** Lines 1 to 9 are read, another file is written, and lines 2 to 2 are asked for. *)
Definition window (path : string) (s l : Z) : json :=
  JObject [("path", JString path); ("start_line", JNumber (fmt_Z s)); ("end_line", JNumber (fmt_Z l))].
Definition one_read : ToolResultCache := insert_read_range_entry ToolResultCache_default (window "src/a.rs" 1 9) lines_1_3.
Definition written_other : ToolResultCache := invalidate_on_writes one_read ["src/b.rs"].

Definition read_a (id : string) : ToolCallInfo := call id "read_file" [("path", "src/a.rs")].
Definition write_a (id : string) : ToolCallInfo :=
  call id "write_file" [("content", "new"); ("path", "./src/a.rs")].
Definition after_read : ToolResultCache :=
  update_cache ToolResultCache_default [read_a "1"] [ToolCallResult_success "1" "old"].
Lemma write_forgets_affected_witness :
  cache_lookup after_read (read_a "3") = Some "old"
  /\ cache_lookup (update_cache after_read [write_a "2"] [ToolCallResult_success "2" "written"]) (read_a "3")
     = None.
Proof.
  split; [vm_compute; reflexivity|].
  rewrite (write_forgets_affected after_read [write_a "2"] [ToolCallResult_success "2" "written"] "src/a.rs"
             (read_a "3")).
  - vm_compute. reflexivity.
  - vm_compute. left.
  - reflexivity.
  - right. right. exists "src/a.rs". split; vm_compute; reflexivity.
Defined.

(** A read and a write of one file in the same response, the read being first to
    run: the update puts the old text back after the write's invalidation, and the
    next read is answered with it. *)
Lemma batch_read_outlives_write :
  cache_lookup (update_cache ToolResultCache_default [read_a "1"; write_a "2"]
                  [ToolCallResult_success "1" "old"; ToolCallResult_success "2" "written"]) (read_a "3")
  = Some "old".
Proof. vm_compute. reflexivity. Qed.

(** Searches that differ only in [file_pattern], or only in case, share a key: the
    second is answered with the result of the first. *)
Definition search (id pattern file_pattern : string) : ToolCallInfo :=
  call id "search_code" [("file_pattern", file_pattern); ("pattern", pattern)].
Lemma search_key_collides :
  let cache := update_cache ToolResultCache_default [search "1" "\S+" "*.rs"]
                 [ToolCallResult_success "1" "src/a.rs:1: fn"] in
  cache_lookup cache (search "2" "\S+" "*.ts") = Some "src/a.rs:1: fn"
  /\ cache_lookup cache (search "3" "\s+" "*.rs") = Some "src/a.rs:1: fn".
Proof. vm_compute. split; reflexivity. Qed.

(** A listing of the working directory survives the creation of a file in it. *)
Lemma root_listing_kept :
  let listed := update_cache ToolResultCache_default [call "1" "list_files" [("path", ".")]]
                  [ToolCallResult_success "1" "a.txt"] in
  cache_lookup (update_cache listed [call "2" "write_file" [("content", "x"); ("path", "b.txt")]]
                  [ToolCallResult_success "2" "written"]) (call "3" "list_files" [("path", ".")])
  = Some "a.txt".
Proof. vm_compute. reflexivity. Qed.

(** A whole-file read under another spelling of the path is answered with
    numbered lines, where the tool returns the text. *)
Lemma whole_file_numbered :
  let cache := update_cache ToolResultCache_default [call "1" "read_file" [("path", "a")]]
                 [ToolCallResult_success "1" "x"] in
  cache_lookup cache (call "2" "read_file" [("path", "./a")]) = Some "     1|x"
  /\ fs_read (string_to_bytes "x") 100 None None = Some "x".
Proof. vm_compute. split; reflexivity. Qed.

(** A window that ends before it starts, inside the file, is out of range for the
    slice. *)
Lemma fs_read_backwards_panics : fs_read file 100 (Some 3%Z) (Some 1%Z) = None.
Proof. vm_compute. reflexivity. Qed.
End ToolCacheExample.
