(* ===== verification/Sanitize.v ===== *)
(** Repair of a message history before it is sent
    ([aura-agent/src/sanitize.rs]).

    Providers accept a transcript only when it starts with a user message, roles
    alternate, every tool result answers a tool call of the message just before
    it, and every tool call of the assistant is answered in the message just
    after it.  [validate_and_repair] enforces this in five passes and a sixth
    only logs what is still wrong.  The theorems show that the sixth pass never
    finds anything, that a valid transcript is left alone, and what is kept. *)
From S2P Require Import Prelude Values Utf8 Permissions Context ModelRequest Compaction.
From stdpp Require Import list.

(** * The passes *)

(** Pass 1. *)
Definition block_has_content (b : ContentBlock) : bool :=
  match b with ContentBlock_Text text => negb (trim_is_empty text) | _ => true end.
Definition message_has_content (m : Message) : bool :=
  negb (is_nil (msg_content m)) && existsb block_has_content (msg_content m).
Definition remove_empty_messages (messages : list Message) : list Message :=
  List.filter message_has_content messages.

(** Pass 2: [merge_from m rest] is the loop at the message [m]. *)
Definition extend_content (m : Message) (next : list ContentBlock) : Message :=
  {| msg_role := msg_role m; msg_content := msg_content m ++ next |}.
Fixpoint merge_from (m : Message) (rest : list Message) : list Message :=
  match rest with
  | [] => [m]
  | next :: rest =>
      if bool_decide (msg_role m = msg_role next)
      then merge_from (extend_content m (msg_content next)) rest
      else m :: merge_from next rest
  end.
Definition merge_consecutive_same_role (messages : list Message) : list Message :=
  match messages with [] => [] | m :: rest => merge_from m rest end.

(** Pass 3: the loop over the messages, then the retain.  The loop reads the
    message before, whose own results it has already filtered. *)
Definition previous_tool_use_ids (previous : option Message) : list string :=
  match previous with Some p => message_tool_use_ids p | None => [] end.
Definition keep_block (ids : list string) (b : ContentBlock) : bool :=
  match b with
  | ContentBlock_ToolResult tool_use_id _ _ => bool_decide (tool_use_id ∈ ids)
  | _ => true
  end.
Definition retain_blocks (ids : list string) (m : Message) : Message :=
  {| msg_role := msg_role m; msg_content := List.filter (keep_block ids) (msg_content m) |}.
Fixpoint drop_orphans (previous : option Message) (messages : list Message) : list Message :=
  match messages with
  | [] => []
  | m :: rest =>
      let m := retain_blocks (previous_tool_use_ids previous) m in
      m :: drop_orphans (Some m) rest
  end.
Definition fix_orphan_tool_results (messages : list Message) : list Message :=
  List.filter (fun m => negb (is_nil (msg_content m))) (drop_orphans None messages).

(** Pass 4.  After an injection the next iteration is at a user message, which it
    skips. *)
Definition LOST_RESULT : string := "[Tool result was lost during context compaction]".
Definition synthetic_result (id : string) : ContentBlock :=
  ContentBlock_ToolResult id (ToolResultContent_Text LOST_RESULT) true.
Definition next_user_result_ids (rest : list Message) : list string :=
  match rest with
  | next :: _ => if bool_decide (msg_role next = Role_User) then message_tool_result_ids next else []
  | [] => []
  end.
Definition missing_results (m : Message) (rest : list Message) : list string :=
  List.filter (fun id => negb (bool_decide (id ∈ next_user_result_ids rest))) (message_tool_use_ids m).
Fixpoint fix_unpaired_tool_uses (messages : list Message) : list Message :=
  match messages with
  | [] => []
  | m :: rest =>
      if negb (bool_decide (msg_role m = Role_Assistant)) then m :: fix_unpaired_tool_uses rest
      else
        let missing := missing_results m rest in
        if is_nil missing then m :: fix_unpaired_tool_uses rest
        else
          let synthetic := synthetic_result <$> missing in
          match rest with
          | next :: rest' =>
              if bool_decide (msg_role next = Role_User)
              then m :: {| msg_role := Role_User; msg_content := synthetic ++ msg_content next |}
                     :: fix_unpaired_tool_uses rest'
              else m :: {| msg_role := Role_User; msg_content := synthetic |}
                     :: fix_unpaired_tool_uses rest
          | [] => [m; {| msg_role := Role_User; msg_content := synthetic |}]
          end
  end.

(** Pass 5. *)
Definition CONTEXT_MESSAGE : Message := Message_user "[System: conversation context]".
Definition ensure_starts_with_user (messages : list Message) : list Message :=
  match messages with
  | m :: _ => if bool_decide (msg_role m = Role_User) then messages else CONTEXT_MESSAGE :: messages
  | [] => [CONTEXT_MESSAGE]
  end.

(** Pass 6: the warnings it logs, as positions and call ids; first the results
    without a call just before, then the calls without a result just after. *)
Fixpoint unpaired_results (i : nat) (previous : option Message) (messages : list Message)
  : list (nat * string) :=
  match messages with
  | [] => []
  | m :: rest =>
      ((fun id => (i, id)) <$>
         List.filter (fun id => negb (bool_decide (id ∈ previous_tool_use_ids previous)))
           (message_tool_result_ids m))
      ++ unpaired_results (S i) (Some m) rest
  end.
Fixpoint unpaired_uses (i : nat) (messages : list Message) : list (nat * string) :=
  match messages with
  | [] => []
  | m :: rest =>
      (if bool_decide (msg_role m = Role_Assistant)
       then (fun id => (i, id)) <$> missing_results m rest else [])
      ++ unpaired_uses (S i) rest
  end.
Definition debug_assert_tool_pairing (messages : list Message) : list (nat * string) :=
  unpaired_results 0 None messages ++ unpaired_uses 0 messages.

Definition validate_and_repair (messages : list Message) : list Message :=
  let messages := remove_empty_messages messages in
  let messages := merge_consecutive_same_role messages in
  let messages := fix_orphan_tool_results messages in
  let messages := merge_consecutive_same_role messages in
  let messages := fix_unpaired_tool_uses messages in
  ensure_starts_with_user messages.

(** * Valid transcripts *)
Definition results_follow (previous : option Message) (m : Message) : Prop :=
  forall id, id ∈ message_tool_result_ids m -> id ∈ previous_tool_use_ids previous.
Fixpoint results_paired (previous : option Message) (ms : list Message) : Prop :=
  match ms with
  | [] => True
  | m :: rest => results_follow previous m /\ results_paired (Some m) rest
  end.
Definition uses_answered (m : Message) (rest : list Message) : Prop :=
  msg_role m = Role_Assistant ->
  forall id, id ∈ message_tool_use_ids m -> id ∈ next_user_result_ids rest.
Fixpoint uses_paired (ms : list Message) : Prop :=
  match ms with [] => True | m :: rest => uses_answered m rest /\ uses_paired rest end.
Fixpoint alternates (previous : option Role) (ms : list Message) : Prop :=
  match ms with
  | [] => True
  | m :: rest => previous <> Some (msg_role m) /\ alternates (Some (msg_role m)) rest
  end.
Definition starts_with_user (ms : list Message) : Prop :=
  exists m rest, ms = m :: rest /\ msg_role m = Role_User.

(** The four conditions together.  Two results for one call, and a message of blank
    text only, are not excluded by them: [repair_leaves_blank] is such a case. *)
Record transcript_ok (ms : list Message) : Prop := {
  to_start : starts_with_user ms;
  to_alternates : alternates None ms;
  to_results : results_paired None ms;
  to_uses : uses_paired ms;
}.

(** ** The guard *)
Lemma filter_nil_iff {A} (f : A -> bool) (l : list A) :
  List.filter f l = [] <-> forall x, x ∈ l -> f x = false.
Proof.
  induction l as [|a l IH]; cbn; [set_solver|]. destruct (f a) eqn:Hf.
  - split; [done|]. intros Hn. specialize (Hn a ltac:(left)). congruence.
  - rewrite IH. split; [|set_solver]. intros Hn x [->|Hx]%elem_of_cons; auto.
Qed.
Lemma fmap_nil_eq {A B} (f : A -> B) (l : list A) : f <$> l = [] <-> l = [].
Proof. by destruct l. Qed.
Lemma missing_results_nil m rest :
  missing_results m rest = [] <->
  forall id, id ∈ message_tool_use_ids m -> id ∈ next_user_result_ids rest.
Proof.
  unfold missing_results. rewrite filter_nil_iff. apply forall_proper. intros id.
  rewrite negb_false_iff, bool_decide_eq_true. done.
Qed.
Lemma unpaired_results_nil i previous ms :
  unpaired_results i previous ms = [] <-> results_paired previous ms.
Proof.
  revert i previous. induction ms as [|m ms IH]; intros i previous; cbn; [done|].
  rewrite app_nil, IH, fmap_nil_eq, filter_nil_iff. unfold results_follow.
  setoid_rewrite negb_false_iff. setoid_rewrite bool_decide_eq_true. done.
Qed.
Lemma unpaired_uses_nil i ms : unpaired_uses i ms = [] <-> uses_paired ms.
Proof.
  revert i. induction ms as [|m ms IH]; intros i; cbn; [done|]. rewrite app_nil, IH.
  unfold uses_answered. case_bool_decide.
  - rewrite fmap_nil_eq, missing_results_nil. naive_solver.
  - naive_solver.
Qed.

(** ** Merging *)
Lemma merge_from_alternates m rest previous :
  previous <> Some (msg_role m) -> alternates previous (merge_from m rest).
Proof.
  revert m previous. induction rest as [|n rest IH]; intros m previous Hp; cbn; [done|].
  case_bool_decide as Hr; [by apply IH|]. cbn. split; [done|]. apply IH. congruence.
Qed.
Lemma merge_alternates ms : alternates None (merge_consecutive_same_role ms).
Proof. destruct ms; [done|]. by apply merge_from_alternates. Qed.
Lemma merge_from_id m rest previous : alternates previous (m :: rest) -> merge_from m rest = m :: rest.
Proof.
  revert m previous. induction rest as [|n rest IH]; intros m previous [_ Ha]; cbn; [done|].
  pose proof Ha as [Hn _]. rewrite bool_decide_eq_false_2 by congruence. f_equal. by eapply IH.
Qed.

Lemma extend_use_ids m c : message_tool_use_ids (extend_content m c)
  = message_tool_use_ids m ++ message_tool_use_ids {| msg_role := msg_role m; msg_content := c |}.
Proof. apply omap_app. Qed.
Lemma extend_result_ids m c : message_tool_result_ids (extend_content m c)
  = message_tool_result_ids m ++ message_tool_result_ids {| msg_role := msg_role m; msg_content := c |}.
Proof. apply omap_app. Qed.

(** What the second merge relies on: neighbours it joins carry no results. *)
Definition joinable (previous : option Message) (m : Message) : Prop :=
  results_follow previous m /\
  forall p, previous = Some p -> msg_role p = msg_role m -> message_tool_result_ids m = [].
Fixpoint results_joinable (previous : option Message) (ms : list Message) : Prop :=
  match ms with
  | [] => True
  | m :: rest => joinable previous m /\ results_joinable (Some m) rest
  end.

Lemma joinable_extend m n c rest :
  msg_role m = msg_role n -> msg_content n = c ->
  results_joinable (Some n) rest -> results_joinable (Some (extend_content m c)) rest.
Proof.
  intros Hr <- Hj. destruct rest as [|z rest]; [done|]. destruct Hj as [[Hf Hs] Hj]. split; [split|done].
  - intros id Hid. apply Hf in Hid. unfold previous_tool_use_ids in *. rewrite extend_use_ids.
    apply elem_of_app. by right.
  - intros p [= <-] Hz. apply (Hs n eq_refl). cbn in Hz. congruence.
Qed.
Lemma merge_from_results m rest previous :
  results_follow previous m -> results_joinable (Some m) rest ->
  results_paired previous (merge_from m rest).
Proof.
  revert m previous. induction rest as [|n rest IH]; intros m previous Hm Hj; cbn; [done|].
  destruct Hj as [[Hf Hs] Hj]. case_bool_decide as Hr.
  - apply IH; [|by eapply joinable_extend]. intros id. rewrite extend_result_ids.
    specialize (Hs m eq_refl Hr). unfold message_tool_result_ids in *. cbn. rewrite Hs, app_nil_r.
    apply Hm.
  - split; [done|]. by apply IH.
Qed.

(** ** Orphans *)
Lemma omap_filter {A B} (f : A -> option B) (g : A -> bool) (l : list A) :
  (forall x, g x = false -> f x = None) -> omap f (List.filter g l) = omap f l.
Proof.
  intros Hg. induction l as [|x l IH]; cbn; [done|]. destruct (g x) eqn:Hx; cbn; [by rewrite IH|].
  by rewrite Hg.
Qed.
Lemma retain_use_ids ids m : message_tool_use_ids (retain_blocks ids m) = message_tool_use_ids m.
Proof. apply omap_filter. by intros []. Qed.
Lemma elem_of_result_ids m id :
  id ∈ message_tool_result_ids m <->
  exists content is_error, ContentBlock_ToolResult id content is_error ∈ msg_content m.
Proof.
  unfold message_tool_result_ids. rewrite list_elem_of_omap. split.
  - intros ([] & Hb & [=]); subst. eauto.
  - intros (c & e & Hb). by eexists.
Qed.
Lemma retain_results_follow previous m :
  results_follow previous (retain_blocks (previous_tool_use_ids previous) m).
Proof.
  intros id (c & e & Hb)%elem_of_result_ids. cbn in Hb.
  apply list_elem_of_In, List.filter_In in Hb as [_ Hb]. by apply bool_decide_eq_true in Hb.
Qed.
Lemma drop_orphans_joinable previous ms :
  alternates (msg_role <$> previous) ms -> results_joinable previous (drop_orphans previous ms).
Proof.
  revert previous. induction ms as [|m ms IH]; intros previous Ha; cbn; [done|]. destruct Ha as [Hn Ha].
  split; [split; [apply retain_results_follow|]|by apply IH]. intros p -> Hr. by destruct Hn; cbn in *; rewrite Hr.
Qed.

(** Removing a message without content joins its neighbours; the one after it
    has no results. *)
Lemma empty_no_ids m : msg_content m = [] -> message_tool_use_ids m = [] /\ message_tool_result_ids m = [].
Proof. unfold message_tool_use_ids, message_tool_result_ids. by intros ->. Qed.
Lemma filter_joinable previous previous' ms :
  previous' = previous \/ previous_tool_use_ids previous = [] ->
  results_joinable previous ms ->
  results_joinable previous' (List.filter (fun m => negb (is_nil (msg_content m))) ms).
Proof.
  revert previous previous'. induction ms as [|m ms IH]; intros previous previous' Hp Hj; cbn; [done|].
  destruct Hj as [[Hf Hs] Hj]. destruct (msg_content m) as [|b c] eqn:Hc; cbn.
  - eapply IH; [|done]. right. by apply empty_no_ids.
  - split; [|by apply (IH (Some m)); [left|]].
    destruct Hp as [->|Hp]; [done|]. assert (message_tool_result_ids m = []) as Hr.
    { destruct (message_tool_result_ids m) as [|id ids] eqn:Hi; [done|].
      specialize (Hf id). rewrite Hi, Hp in Hf. set_solver. }
    split; [|done]. intros id. rewrite Hr. set_solver.
Qed.

Lemma repaired_results ms :
  alternates None ms ->
  results_paired None (merge_consecutive_same_role (fix_orphan_tool_results ms)).
Proof.
  intros Ha. assert (results_joinable None (fix_orphan_tool_results ms)) as Hj.
  { apply (filter_joinable None); [by left|]. by apply drop_orphans_joinable. }
  unfold merge_consecutive_same_role. destruct (fix_orphan_tool_results ms) as [|m rest]; [done|].
  destruct Hj as [[Hf _] Hj]. by apply merge_from_results.
Qed.

(** ** Missing results *)
Lemma synthetic_ids_app ids c r :
  message_tool_result_ids {| msg_role := r; msg_content := (synthetic_result <$> ids) ++ c |}
  = ids ++ message_tool_result_ids {| msg_role := r; msg_content := c |}.
Proof.
  unfold message_tool_result_ids. cbn. induction ids as [|id ids IH]; cbn; [done|]. by rewrite IH.
Qed.
Lemma synthetic_use_ids ids c r :
  message_tool_use_ids {| msg_role := r; msg_content := (synthetic_result <$> ids) ++ c |}
  = message_tool_use_ids {| msg_role := r; msg_content := c |}.
Proof.
  unfold message_tool_use_ids. cbn. induction ids as [|id ids IH]; cbn; [done|]. by rewrite IH.
Qed.
Lemma fix_unpaired_head ms m rest :
  ms = m :: rest -> msg_role m = Role_User ->
  fix_unpaired_tool_uses ms = m :: fix_unpaired_tool_uses rest.
Proof. intros -> Hr. cbn. by rewrite Hr. Qed.
Lemma results_paired_prev p p' ms :
  previous_tool_use_ids p = previous_tool_use_ids p' -> results_paired p ms -> results_paired p' ms.
Proof.
  intros Hp. destruct ms as [|m ms]; [done|]. intros [Hf Hr]. split; [|done].
  intros id Hid. rewrite <-Hp. by apply Hf.
Qed.
Lemma missing_or_present m rest id :
  id ∈ message_tool_use_ids m -> id ∈ missing_results m rest \/ id ∈ next_user_result_ids rest.
Proof.
  intros Hid. destruct (decide (id ∈ next_user_result_ids rest)) as [Hp|Hp]; [by right|left].
  apply list_elem_of_In, List.filter_In. split; [by apply list_elem_of_In|].
  by rewrite bool_decide_eq_false_2.
Qed.
Lemma missing_are_uses m rest id : id ∈ missing_results m rest -> id ∈ message_tool_use_ids m.
Proof. intros [Hid _]%list_elem_of_In%List.filter_In. by apply list_elem_of_In. Qed.

(** The step at an assistant message whose calls are all answered. *)
Lemma next_ids_fix m rest id :
  alternates (Some (msg_role m)) rest -> msg_role m = Role_Assistant ->
  id ∈ next_user_result_ids rest -> id ∈ next_user_result_ids (fix_unpaired_tool_uses rest).
Proof.
  destruct rest as [|n rest]; [done|]. intros [Hn _] Hr Hid. rewrite Hr in Hn.
  destruct (msg_role n) eqn:Hrn; [|done]. rewrite (fix_unpaired_head _ n rest); [|done|done].
  cbn in *. by rewrite Hrn in *.
Qed.

Definition paired_from (role : option Role) (previous : option Message) (ms : list Message) : Prop :=
  alternates role ms /\ results_paired previous ms /\ uses_paired ms.

(** The step that injects results into the following user message. *)
Lemma inject_paired role previous m n rest :
  msg_role m = Role_Assistant -> msg_role n = Role_User ->
  alternates role (m :: n :: rest) -> results_paired previous (m :: n :: rest) ->
  let n' := {| msg_role := Role_User;
               msg_content := (synthetic_result <$> missing_results m (n :: rest)) ++ msg_content n |} in
  paired_from (Some Role_User) (Some n') (fix_unpaired_tool_uses rest) ->
  paired_from role previous (m :: n' :: fix_unpaired_tool_uses rest).
Proof.
  intros Hm Hn (Ha & Hb & _) (Hr & Hs & _) n' (Ia & Ir & Iu). cbn -[message_tool_result_ids].
  assert (message_tool_result_ids n' = missing_results m (n :: rest) ++ message_tool_result_ids n) as Hids
    by apply synthetic_ids_app.
  split; [|split].
  - cbn. rewrite Hm. split_and!; [by rewrite <-Hm|done|done].
  - split; [done|]. split; [|done]. intros id. rewrite Hids. intros [Hid|Hid]%elem_of_app.
    + by apply missing_are_uses in Hid.
    + by apply Hs.
  - split; [|split; [intros [=]|done]]. intros _ id Hid. unfold next_user_result_ids.
    rewrite bool_decide_eq_true_2 by done. rewrite Hids. apply elem_of_app.
    apply (missing_or_present m (n :: rest)) in Hid as [Hid|Hid]; [by left|right].
    unfold next_user_result_ids in Hid. by rewrite bool_decide_eq_true_2 in Hid.
Qed.

Lemma fix_unpaired_paired role previous ms :
  alternates role ms -> results_paired previous ms ->
  paired_from role previous (fix_unpaired_tool_uses ms).
Proof.
  revert role previous. induction ms as [ms IH] using (induction_ltof1 _ (@length Message)).
  unfold ltof in IH. intros role previous Ha Hr. destruct ms as [|m rest]; [by split_and!|].
  pose proof Ha as [Hr0 Har]. pose proof Hr as [Hf Hrr].
  assert (paired_from (Some (msg_role m)) (Some m) (fix_unpaired_tool_uses rest)) as Hrest
    by (apply IH; [cbn; lia|done|done]).
  assert (uses_answered m (fix_unpaired_tool_uses rest) ->
          paired_from role previous (m :: fix_unpaired_tool_uses rest)) as Hplain.
  { intros Hu. destruct Hrest as (? & ? & ?). by split_and!. }
  cbn [fix_unpaired_tool_uses]. case_bool_decide as Hrole; cbn [negb].
  2: { apply Hplain. by intros Hm. }
  destruct (is_nil (missing_results m rest)) eqn:Hmiss.
  { apply Hplain. intros _ id Hid. apply (next_ids_fix m); [done|done|].
    revert id Hid. apply missing_results_nil. by destruct (missing_results m rest). }
  destruct rest as [|n rest].
  - split; [|split].
    + cbn. rewrite Hrole in *. split_and!; done.
    + split; [done|]. split; [|done]. intros id. rewrite <-(app_nil_r (synthetic_result <$> _)), synthetic_ids_app.
      rewrite app_nil_r. apply missing_are_uses.
    + split; [|split; [intros [=]|done]]. intros _ id Hid. unfold next_user_result_ids.
      rewrite bool_decide_eq_true_2 by done. rewrite <-(app_nil_r (synthetic_result <$> _)), synthetic_ids_app.
      apply (missing_or_present m []) in Hid as [Hid|[]%elem_of_nil]. apply elem_of_app. by left.
  - destruct Har as [Hn Har]. destruct Hrr as [Hfn Hrn]. rewrite Hrole in Hn.
    destruct (msg_role n) eqn:Hrolen; [|done]. rewrite bool_decide_eq_true_2 by done.
    apply inject_paired; [done|done|done|done|]. apply IH; [cbn; lia|done|].
    eapply results_paired_prev; [|exact Hrn]. symmetry. apply synthetic_use_ids.
Qed.

(** * What repair guarantees *)
Lemma ensure_starts_ok ms :
  paired_from None None ms -> transcript_ok (ensure_starts_with_user ms).
Proof.
  intros (Ha & Hr & Hu). unfold ensure_starts_with_user. destruct ms as [|m ms].
  - constructor; [by eexists _, _| | |]; cbn; repeat split; try done. set_solver.
  - case_bool_decide as Hrole; [constructor; [by eexists _, _|done..]|].
    constructor; [by eexists _, _| | |].
    + cbn. destruct Ha as [_ Ha]. split_and!; [done| |done]. by destruct (msg_role m).
    + split; [set_solver|]. destruct Hr as [Hf Hr]. split; [|done].
      intros id Hid%Hf. by apply elem_of_nil in Hid.
    + split; [intros [=]|done].
Qed.

Lemma validate_and_repair_ok ms : transcript_ok (validate_and_repair ms).
Proof.
  apply ensure_starts_ok, fix_unpaired_paired; [apply merge_alternates|].
  apply repaired_results, merge_alternates.
Qed.

(** C35: whatever history it is given, repair produces a transcript that starts with
    a user message, whose roles alternate, in which every tool result answers a call
    of the message just before it and every call of the assistant is answered by the
    message just after it, so the guard that runs last never reports anything. *)
Theorem repaired_transcript_ok ms :
  transcript_ok (validate_and_repair ms) /\ debug_assert_tool_pairing (validate_and_repair ms) = [].
Proof.
  pose proof (validate_and_repair_ok ms) as Hok.
  split; [done|]. destruct Hok as [_ _ Hr Hu]. unfold debug_assert_tool_pairing.
  by rewrite (proj2 (unpaired_results_nil 0 None _) Hr), (proj2 (unpaired_uses_nil 0 _) Hu).
Qed.

(** ** Valid transcripts are left alone *)
Lemma drop_orphans_id previous ms : results_paired previous ms -> drop_orphans previous ms = ms.
Proof.
  revert previous. induction ms as [|m ms IH]; intros previous; cbn; [done|]. intros [Hf Hr].
  assert (retain_blocks (previous_tool_use_ids previous) m = m) as ->; [|by rewrite IH].
  destruct m as [r c]. unfold retain_blocks. cbn. f_equal. apply filter_all, Forall_forall. intros b Hb.
  destruct b; try done. apply bool_decide_eq_true, Hf, elem_of_result_ids. eauto.
Qed.
Lemma fix_unpaired_id ms : uses_paired ms -> fix_unpaired_tool_uses ms = ms.
Proof.
  induction ms as [|m ms IH]; cbn; [done|]. intros [Hu Hp]. case_bool_decide as Hr; cbn; [|by rewrite IH].
  by rewrite (proj2 (missing_results_nil m ms) (Hu Hr)), IH.
Qed.
Lemma valid_untouched ms :
  transcript_ok ms -> (forall m, m ∈ ms -> message_has_content m = true) -> validate_and_repair ms = ms.
Proof.
  intros [Hs Ha Hr Hu] Hc. unfold validate_and_repair, remove_empty_messages. rewrite filter_all by by apply Forall_forall.
  assert (merge_consecutive_same_role ms = ms) as Hm.
  { destruct ms; [done|]. by eapply merge_from_id. }
  unfold fix_orphan_tool_results. rewrite Hm, drop_orphans_id by done. rewrite filter_all.
  2: { apply Forall_forall. intros m Hin%Hc. unfold message_has_content in Hin. by apply andb_true_iff in Hin as [? _]. }
  rewrite Hm, fix_unpaired_id by done. destruct Hs as (m & rest & -> & Hrole). cbn. by rewrite Hrole.
Qed.

(** ** Content *)
Definition is_tool_result (b : ContentBlock) : bool :=
  match b with ContentBlock_ToolResult _ _ _ => true | _ => false end.
(** Everything but tool results, in order. *)
Definition body (ms : list Message) : list ContentBlock :=
  List.filter (fun b => negb (is_tool_result b)) (concat (msg_content <$> ms)).
Lemma body_cons m ms : body (m :: ms) = body [m] ++ body ms.
Proof. unfold body. cbn. by rewrite app_nil_r, List.filter_app. Qed.

Lemma body_merge_from m rest : body (merge_from m rest) = body (m :: rest).
Proof.
  revert m. induction rest as [|n rest IH]; intros m; cbn [merge_from]; [done|].
  case_bool_decide; [|by rewrite body_cons, IH, <-body_cons].
  rewrite IH. unfold body. cbn. by rewrite <-app_assoc.
Qed.
Lemma body_merge ms : body (merge_consecutive_same_role ms) = body ms.
Proof. destruct ms; [done|]. apply body_merge_from. Qed.
Lemma filter_filter_same {A} (f g : A -> bool) (l : list A) :
  (forall x, f x = true -> g x = true) -> List.filter f (List.filter g l) = List.filter f l.
Proof.
  intros Hfg. induction l as [|x l IH]; cbn; [done|]. destruct (g x) eqn:Hg; cbn; [by rewrite IH|].
  destruct (f x) eqn:Hf; [|done]. by rewrite Hfg in Hg.
Qed.
Lemma body_orphans ms : body (fix_orphan_tool_results ms) = body ms.
Proof.
  unfold fix_orphan_tool_results. generalize (@None Message) as previous.
  induction ms as [|m ms IH]; intros previous; cbn [drop_orphans]; [done|].
  set (m' := retain_blocks _ m). rewrite (body_cons m), <-(IH (Some m')). cbn [List.filter].
  assert (body [m] = body [m']) as ->.
  { unfold body, m'. cbn. rewrite !app_nil_r, filter_filter_same; [done|]. by intros []. }
  destruct (msg_content m') eqn:Hc; cbn [is_nil negb]; [|by rewrite <-body_cons].
  assert (body [m'] = []) as ->; [|done]. unfold body. cbn -[m']. by rewrite Hc.
Qed.
Lemma body_synthetic r ids c :
  body [{| msg_role := r; msg_content := (synthetic_result <$> ids) ++ c |}]
  = body [{| msg_role := r; msg_content := c |}].
Proof. unfold body. cbn. rewrite !app_nil_r. induction ids; cbn; done. Qed.
Lemma body_unpaired ms : body (fix_unpaired_tool_uses ms) = body ms.
Proof.
  induction ms as [ms IH] using (induction_ltof1 _ (@length Message)). unfold ltof in IH.
  destruct ms as [|m rest]; [done|]. cbn [fix_unpaired_tool_uses].
  assert (body (m :: fix_unpaired_tool_uses rest) = body (m :: rest)) as Hplain
    by (rewrite body_cons, IH, <-body_cons by (cbn; lia); done).
  destruct (negb _); [done|]. destruct (is_nil _); [done|].
  assert (forall ids, body [{| msg_role := Role_User; msg_content := synthetic_result <$> ids |}] = []) as Hsyn.
  { intros ids. rewrite <-(app_nil_r (synthetic_result <$> ids)), body_synthetic. done. }
  destruct rest as [|n rest].
  - by rewrite body_cons, Hsyn, app_nil_r.
  - case_bool_decide.
    + rewrite (body_cons m), (body_cons _ (fix_unpaired_tool_uses rest)), body_synthetic, IH by (cbn; lia).
      rewrite (body_cons m (n :: rest)), (body_cons n rest). by destruct n.
    + rewrite (body_cons m), (body_cons _ (fix_unpaired_tool_uses _)), Hsyn, IH by (cbn; lia).
      by rewrite (body_cons m (n :: rest)).
Qed.

(** Repair changes no more than it must: a transcript that is already valid
    and has no blank message comes back unchanged; and from any history every
    block that is not a tool result survives, in order, but for those of messages
    with nothing in them but blank text; an opening user message is the only
    thing that may be added before. *)
Theorem repair_keeps_content ms :
  (transcript_ok ms -> (forall m, m ∈ ms -> message_has_content m = true) -> validate_and_repair ms = ms)
  /\ exists opening, (opening = [] \/ opening = msg_content CONTEXT_MESSAGE) /\
       body (validate_and_repair ms) = opening ++ body (remove_empty_messages ms).
Proof.
  split; [apply valid_untouched|].
  rewrite <-(body_merge (remove_empty_messages ms)).
  rewrite <-(body_orphans (merge_consecutive_same_role _)), <-(body_merge (fix_orphan_tool_results _)).
  rewrite <-(body_unpaired (merge_consecutive_same_role (fix_orphan_tool_results _))).
  unfold validate_and_repair, ensure_starts_with_user. destruct (fix_unpaired_tool_uses _) as [|m rest].
  - exists (msg_content CONTEXT_MESSAGE). by split; [right|].
  - case_bool_decide; [by exists []; split; [left|]|].
    exists (msg_content CONTEXT_MESSAGE). split; [by right|]. by rewrite body_cons.
Qed.

Module SanitizeExample.
Definition result_for (id : string) : ContentBlock :=
  ContentBlock_ToolResult id (ToolResultContent_Text "ok") false.
Definition call (id : string) : ContentBlock := ContentBlock_ToolUse id "read_file" (JObject []).

(** A history with a leading result, two user messages in a row and a call
    without a result. *)
Definition broken : list Message :=
  [ {| msg_role := Role_User; msg_content := [result_for "t1"] |};
    {| msg_role := Role_Assistant; msg_content := [call "t1"; call "t2"] |};
    {| msg_role := Role_User; msg_content := [ContentBlock_Text "note"] |};
    {| msg_role := Role_User; msg_content := [result_for "t1"] |} ].
Example broken_repaired :
  validate_and_repair broken
  = [ CONTEXT_MESSAGE;
      {| msg_role := Role_Assistant; msg_content := [call "t1"; call "t2"] |};
      {| msg_role := Role_User;
         msg_content := [synthetic_result "t2"; ContentBlock_Text "note"; result_for "t1"] |} ].
Proof. vm_compute. reflexivity. Qed.

Definition valid : list Message :=
  [ Message_user "task"; {| msg_role := Role_Assistant; msg_content := [call "t1"] |};
    {| msg_role := Role_User; msg_content := [result_for "t1"] |} ].
Lemma valid_ok : transcript_ok valid.
Proof.
  constructor; [by eexists _, _|by repeat split|repeat split; cbn; set_solver|].
  repeat split; cbn; try discriminate. intros _ id Hid. done.
Qed.
Lemma repair_keeps_content_witness :
  transcript_ok valid /\ validate_and_repair valid = valid.
Proof.
  split; [exact valid_ok|]. apply (proj1 (repair_keeps_content valid)); [exact valid_ok|].
  intros m Hm. cbn in Hm. repeat (apply elem_of_cons in Hm as [->|Hm]; [reflexivity|]).
  by apply elem_of_nil in Hm.
Defined.

(** Dropping an orphan may leave a message with blank text only, which the first
    pass would have removed: a second repair changes the transcript again. *)
Definition blank_left : list Message :=
  [ Message_user "task"; Message_assistant "hi";
    {| msg_role := Role_User; msg_content := [ContentBlock_Text " "; result_for "gone"] |};
    Message_assistant "bye" ].
Example repair_leaves_blank :
  validate_and_repair blank_left
  = [ Message_user "task"; Message_assistant "hi"; Message_user " "; Message_assistant "bye" ]
  /\ validate_and_repair (validate_and_repair blank_left) <> validate_and_repair blank_left.
Proof. vm_compute. split; [reflexivity|discriminate]. Qed.
End SanitizeExample.
