(* ===== verification/InputQueue.v ===== *)
(** The buffer of user input for a running task
    ([aura-agent/src/session/input_queue.rs]).

    Handles push, the agent loop drains.  The buffer is behind a lock, the flag
    [has_pending] and the mark [closed] are atomics outside it, so [push] and
    [drain] are each several atomic steps that interleave: a call in progress is
    a [PushCall] or a [DrainCall] of the state.  The theorems show that every
    accepted input is drained exactly once and in order, when the flag can be
    trusted, and the interleaving in which it is wrong. *)
From S2P Require Import Prelude Values.
From stdpp Require Import list.

Inductive UserInput :=
| UserInput_Message (text : string)
| UserInput_Cancel
| UserInput_Steer (instruction : string).
#[export] Instance UserInput_eq_dec : EqDecision UserInput.
Proof. solve_decision. Defined.
Definition is_cancel (i : UserInput) : bool := match i with UserInput_Cancel => true | _ => false end.

(** Where a [push] is: it has seen the queue open; it has put its input into the
    buffer; it has raised the flag and has the token to cancel. *)
Inductive PushCall :=
| Push_checked (i : UserInput)
| Push_buffered (i : UserInput)
| Push_flagged.
#[export] Instance PushCall_eq_dec : EqDecision PushCall.
Proof. solve_decision. Defined.
(** A [drain] that has emptied the buffer and not yet lowered the flag. *)
Inductive DrainCall := Drain_took (inputs : list UserInput).

Record InputQueue := {
  iq_inner : list UserInput;
  iq_has_pending : bool;
  iq_closed : bool;
  iq_cancelled : bool;
  iq_pushes : list PushCall;
  iq_drains : list DrainCall;
}.
Definition InputQueue_new : InputQueue :=
  {| iq_inner := []; iq_has_pending := false; iq_closed := false; iq_cancelled := false;
     iq_pushes := []; iq_drains := [] |}.

Definition with_calls (q : InputQueue) (inner : list UserInput) (flag : bool)
    (pushes : list PushCall) (drains : list DrainCall) : InputQueue :=
  {| iq_inner := inner; iq_has_pending := flag; iq_closed := iq_closed q;
     iq_cancelled := iq_cancelled q; iq_pushes := pushes; iq_drains := drains |}.

(** ** The steps of [push] *)

(** The check of [closed]; [Err] is [AgentError::InputQueueClosed]. *)
Definition push_check (i : UserInput) (q : InputQueue) : result unit InputQueue :=
  if iq_closed q then Err tt
  else Ok (with_calls q (iq_inner q) (iq_has_pending q) (iq_pushes q ++ [Push_checked i]) (iq_drains q)).
(** [push_back] under the lock. *)
Definition push_buffer (i : UserInput) (rest : list PushCall) (q : InputQueue) : InputQueue :=
  with_calls q (iq_inner q ++ [i]) (iq_has_pending q) (rest ++ [Push_buffered i]) (iq_drains q).
(** The store of [has_pending]; a cancel goes on to fire the token. *)
Definition push_flag (i : UserInput) (rest : list PushCall) (q : InputQueue) : InputQueue :=
  with_calls q (iq_inner q) true (if is_cancel i then rest ++ [Push_flagged] else rest) (iq_drains q).
Definition push_cancel (rest : list PushCall) (q : InputQueue) : InputQueue :=
  {| iq_inner := iq_inner q; iq_has_pending := iq_has_pending q; iq_closed := iq_closed q;
     iq_cancelled := true; iq_pushes := rest; iq_drains := iq_drains q |}.

(** ** The steps of [drain] *)
Definition drain_take (q : InputQueue) : InputQueue :=
  with_calls q [] (iq_has_pending q) (iq_pushes q) (iq_drains q ++ [Drain_took (iq_inner q)]).
Definition drain_clear (rest : list DrainCall) (q : InputQueue) : InputQueue :=
  with_calls q (iq_inner q) false (iq_pushes q) rest.

Definition queue_close (q : InputQueue) : InputQueue :=
  {| iq_inner := iq_inner q; iq_has_pending := iq_has_pending q; iq_closed := true;
     iq_cancelled := iq_cancelled q; iq_pushes := iq_pushes q; iq_drains := iq_drains q |}.

(** Whole calls without others in between. *)
Definition push (i : UserInput) (q : InputQueue) : result unit InputQueue :=
  q1 ← push_check i q;
  let q2 := push_buffer i (iq_pushes q) q1 in
  let q3 := push_flag i (iq_pushes q) q2 in
  Ok (if is_cancel i then push_cancel (iq_pushes q) q3 else q3).
Definition drain (q : InputQueue) : list UserInput * InputQueue :=
  (iq_inner q, drain_clear (iq_drains q) (drain_take q)).

(** * Interleavings *)

(** What a step shows: the input it put into the buffer, the inputs a drain took
    out. *)
Inductive queue_step : InputQueue -> list UserInput -> list UserInput -> InputQueue -> Prop :=
| step_push_check i q q' : push_check i q = Ok q' -> queue_step q [] [] q'
| step_push_buffer i pre post q :
    iq_pushes q = pre ++ Push_checked i :: post -> queue_step q [i] [] (push_buffer i (pre ++ post) q)
| step_push_flag i pre post q :
    iq_pushes q = pre ++ Push_buffered i :: post -> queue_step q [] [] (push_flag i (pre ++ post) q)
| step_push_cancel pre post q :
    iq_pushes q = pre ++ Push_flagged :: post -> queue_step q [] [] (push_cancel (pre ++ post) q)
| step_drain_take q : queue_step q [] (iq_inner q) (drain_take q)
| step_drain_clear inputs pre post q :
    iq_drains q = pre ++ Drain_took inputs :: post -> queue_step q [] [] (drain_clear (pre ++ post) q)
| step_close q : queue_step q [] [] (queue_close q).

Inductive queue_steps : InputQueue -> list UserInput -> list UserInput -> InputQueue -> Prop :=
| queue_steps_nil q : queue_steps q [] [] q
| queue_steps_snoc q ins outs q' ins' outs' q'' :
    queue_steps q ins outs q' -> queue_step q' ins' outs' q'' ->
    queue_steps q (ins ++ ins') (outs ++ outs') q''.

(** Nobody is in the middle of a call. *)
Definition quiescent (q : InputQueue) : Prop := iq_pushes q = [] /\ iq_drains q = [].

Lemma queue_step_fifo q ins outs q' :
  queue_step q ins outs q' -> iq_inner q ++ ins = outs ++ iq_inner q'.
Proof.
  destruct 1 as [i q q' Hc| | | | | |]; cbn; rewrite ?app_nil_r; try done.
  unfold push_check in Hc. destruct (iq_closed q); [done|]. by injection Hc as <-.
Qed.

(** No input is lost, repeated or reordered, whatever the interleaving: what
    has been drained so far followed by what is still buffered is what was put in,
    in the order in which the pushes took the lock. *)
Theorem queue_fifo ins outs q :
  queue_steps InputQueue_new ins outs q -> ins = outs ++ iq_inner q.
Proof.
  remember InputQueue_new as q0 eqn:E. induction 1 as [q|q ins outs q' ins' outs' q'' Hs IH Hstep].
  - by subst.
  - rewrite (IH E), <-app_assoc, (queue_step_fifo _ _ _ _ Hstep). by rewrite app_assoc.
Qed.

(** ** The flag *)

(** A push about to raise the flag. *)
Definition flag_coming (q : InputQueue) : Prop := exists i, Push_buffered i ∈ iq_pushes q.
(** The flag is right as long as no drain is about to lower it. *)
Definition flag_ok (q : InputQueue) : Prop :=
  iq_inner q = [] \/ iq_has_pending q = true \/ flag_coming q.

(** Steps in which a push never takes the lock while a drain is about to lower
    the flag. *)
Definition no_overlap (q : InputQueue) (ins : list UserInput) : Prop := ins = [] \/ iq_drains q = [].
Inductive queue_steps_apart : InputQueue -> InputQueue -> Prop :=
| apart_nil q : queue_steps_apart q q
| apart_snoc q q' ins outs q'' :
    queue_steps_apart q q' -> queue_step q' ins outs q'' -> no_overlap q' ins ->
    queue_steps_apart q q''.

(** Between taking the buffer and lowering the flag the buffer stays empty. *)
Definition apart_inv (q : InputQueue) : Prop := flag_ok q /\ (iq_drains q <> [] -> iq_inner q = []).

Lemma apart_step q ins outs q' :
  queue_step q ins outs q' -> no_overlap q ins -> apart_inv q -> apart_inv q'.
Proof.
  intros Hstep Hno [Hf Hd].
  destruct Hstep as [i q q' Hc|i pre post q Hp|i pre post q Hp|pre post q Hp|q|inputs pre post q Hp|q].
  - unfold push_check in Hc. destruct (iq_closed q); [done|]. injection Hc as <-.
    split; [|done]. destruct Hf as [|[|[j Hj]]]; [by left|by right; left|right; right].
    exists j. cbn. set_solver.
  - destruct Hno as [[=]|Hn]. split; cbn.
    + right. right. exists i. cbn. set_solver.
    + by rewrite Hn.
  - split; [|done]. by right; left.
  - split; [|done]. destruct Hf as [|[|[j Hj]]]; [by left|by right; left|right; right].
    exists j. cbn in *. rewrite Hp in Hj. set_solver.
  - split; [by left|done].
  - split; cbn.
    + left. apply Hd. rewrite Hp. by destruct pre.
    + intros _. apply Hd. rewrite Hp. by destruct pre.
  - split; [|done]. exact Hf.
Qed.

(** When no push takes the lock inside a drain, the flag tells the truth in
    every quiescent state: input in the buffer means that the flag is up. *)
Lemma flag_trusted_apart q :
  queue_steps_apart InputQueue_new q -> quiescent q -> iq_inner q <> [] -> iq_has_pending q = true.
Proof.
  intros Hs [Hp _] Hin. assert (apart_inv q) as [[Hi|[Hf|[i Hi]]] _]; [|done|done|].
  { remember InputQueue_new as q0 eqn:E. clear Hp Hin. induction Hs as [q|q q' ins outs q'' Hs IH Hstep Hno].
    - subst. split; [by left|done].
    - eapply apart_step; [done|done|by apply IH]. }
  rewrite Hp in Hi. by apply elem_of_nil in Hi.
Qed.

(** A push that takes the lock between the two halves of a drain is
    forgotten by the flag: every call has returned, the input is in the buffer,
    and [has_pending] says that there is none, so the task shell that only asks
    the flag ends without looking. *)
Theorem drain_race_loses_wakeup i :
  is_cancel i = false ->
  exists q, queue_steps InputQueue_new [i] [] q /\ quiescent q /\ iq_inner q = [i]
    /\ iq_has_pending q = false.
Proof.
  intros Hi. pose (q1 := drain_take InputQueue_new).
  pose (q2 := with_calls q1 [] false [Push_checked i] [Drain_took []]).
  pose (q3 := push_buffer i [] q2). pose (q4 := push_flag i [] q3). pose (q5 := drain_clear [] q4).
  exists q5. split; [|by unfold q5, q4, push_flag; rewrite Hi].
  apply (queue_steps_snoc _ [i] [] q4 [] []); [|by apply (step_drain_clear [] [] [])].
  apply (queue_steps_snoc _ [i] [] q3 [] []); [|by apply (step_push_flag i [] [])].
  apply (queue_steps_snoc _ [] [] q2 [i] []); [|by apply (step_push_buffer i [] [])].
  apply (queue_steps_snoc _ [] [] q1 [] []); [|by apply (step_push_check i)].
  apply (queue_steps_snoc _ [] [] InputQueue_new [] []); [constructor|apply step_drain_take].
Qed.

(** Whole calls one after the other. *)
Lemma push_drain_sequential i q q' :
  push i q = Ok q' ->
  iq_inner q' = iq_inner q ++ [i] /\ iq_has_pending q' = true /\ iq_pushes q' = iq_pushes q
  /\ (is_cancel i = true -> iq_cancelled q' = true)
  /\ (drain q').1 = iq_inner q ++ [i] /\ iq_inner (drain q').2 = [] /\ iq_has_pending (drain q').2 = false.
Proof.
  unfold push, push_check. destruct (iq_closed q); [done|]. cbn. intros [= <-].
  destruct (is_cancel i) eqn:Hi; unfold push_flag; rewrite ?Hi; cbn; split_and!; try done.
Qed.
Lemma push_closed i q : iq_closed q = true -> push i q = Err tt.
Proof. intros Hc. unfold push, push_check. by rewrite Hc. Qed.

Module InputQueueExample.
Definition hello : UserInput := UserInput_Message "hello".
Definition one : InputQueue := match push hello InputQueue_new with Ok q => q | Err _ => InputQueue_new end.
Lemma one_steps : queue_steps InputQueue_new [hello] [] one.
Proof.
  pose (q1 := with_calls InputQueue_new [] false [Push_checked hello] []).
  apply (queue_steps_snoc _ [hello] [] (push_buffer hello [] q1) [] []); [|by apply (step_push_flag hello [] [])].
  apply (queue_steps_snoc _ [] [] q1 [hello] []); [|by apply (step_push_buffer hello [] [])].
  apply (queue_steps_snoc _ [] [] InputQueue_new [] []); [constructor|by apply (step_push_check hello)].
Qed.
Lemma queue_fifo_witness : [hello] = [] ++ iq_inner one.
Proof. exact (queue_fifo [hello] [] one one_steps). Defined.
Lemma drain_race_loses_wakeup_witness :
  exists q, queue_steps InputQueue_new [hello] [] q /\ quiescent q /\ iq_inner q = [hello]
    /\ iq_has_pending q = false.
Proof. exact (drain_race_loses_wakeup hello eq_refl). Defined.
End InputQueueExample.
