(* ===== verification/FileSystem.v ===== *)
(** Unix paths and the file system, as far as the file tools use them: what
    [std::path] and [std::fs] do.

    A path is a string; its components are those of [Path::components], with ["/"]
    for the root, ["."] and [".."].  A file system is a finite map from locations
    (names from the root) to files, directories and symbolic links; a path is
    walked the way the operating system walks it, following at most forty links.
    Errors are those the walk, a directory in the place of a file and a missing
    write permission give. *)
From S2P Require Import Prelude Values Utf8 Text.
From stdpp Require Import list.
From Stdlib Require Import Ascii Strings.Byte.

(** * Paths *)
Definition is_absolute (p : string) : bool := starts_with "/" p.
Fixpoint ends_with_slash (s : string) : bool :=
  match s with
  | EmptyString => false
  | String c EmptyString => bool_decide (c = "/"%char)
  | String _ t => ends_with_slash t
  end.
(** [PathBuf::push]; [Path::join] is [push] on a copy. *)
Definition path_push (buf p : string) : string :=
  if is_absolute p then p
  else if bool_decide (buf = "") || ends_with_slash buf then buf +++ p
  else buf +++ "/" +++ p.
Definition path_join : string -> string -> string := path_push.
(** Collecting components into a [PathBuf]. *)
Definition path_of_components (cs : list string) : string := foldl path_push "" cs.
(** [Path::parent]. *)
Definition path_parent (p : string) : option string :=
  match rev (path_components p) with
  | [] => None
  | c :: r => if bool_decide (c = "/") then None else Some (path_of_components (rev r))
  end.

(** * The file system *)
Inductive Node := Node_File (contents : bytes) | Node_Dir | Node_Symlink (target : string).
Record FileSystem := {
  fs_nodes : gmap (list string) Node;
  fs_cwd : list string;
  fs_readonly : gset (list string);
}.
Inductive IoErrorKind :=
  | IoErrorKind_NotFound | IoErrorKind_NotADirectory | IoErrorKind_IsADirectory
  | IoErrorKind_AlreadyExists | IoErrorKind_FilesystemLoop | IoErrorKind_PermissionDenied
  | IoErrorKind_InvalidData | IoErrorKind_InvalidInput | IoErrorKind_DirectoryNotEmpty.
(** The text of the error of the operating system. *)
Definition io_error_text (k : IoErrorKind) : string :=
  match k with
  | IoErrorKind_NotFound => "No such file or directory (os error 2)"
  | IoErrorKind_NotADirectory => "Not a directory (os error 20)"
  | IoErrorKind_IsADirectory => "Is a directory (os error 21)"
  | IoErrorKind_AlreadyExists => "File exists (os error 17)"
  | IoErrorKind_FilesystemLoop => "Too many levels of symbolic links (os error 40)"
  | IoErrorKind_PermissionDenied => "Permission denied (os error 13)"
  | IoErrorKind_InvalidData => "stream did not contain valid UTF-8"
  | IoErrorKind_InvalidInput => "Invalid argument (os error 22)"
  | IoErrorKind_DirectoryNotEmpty => "Directory not empty (os error 39)"
  end.

Definition node_at (fs : FileSystem) (loc : list string) : option Node :=
  if bool_decide (loc = []) then Some Node_Dir else fs_nodes fs !! loc.
Definition set_node (loc : list string) (n : Node) (fs : FileSystem) : FileSystem :=
  {| fs_nodes := <[loc := n]> (fs_nodes fs); fs_cwd := fs_cwd fs; fs_readonly := fs_readonly fs |}.
Definition remove_node (loc : list string) (fs : FileSystem) : FileSystem :=
  {| fs_nodes := delete loc (fs_nodes fs); fs_cwd := fs_cwd fs; fs_readonly := fs_readonly fs |}.

(** The steps a path asks of the walk: a trailing slash stands for ["."]. *)
Definition os_parts (p : string) : list string :=
  (if is_absolute p then ["/"] else [])
  ++ List.filter (fun c => negb (bool_decide (c = ""))) (split_on "/" p)
  ++ (if ends_with_slash p then ["."] else []).
Definition MAX_LINKS : nat := 40.
(** The location the steps lead to from [cur]; with [create] the last name may be
    missing. *)
Fixpoint walk (create : bool) (links : nat) (fs : FileSystem) : list string -> list string -> result IoErrorKind (list string) :=
  fix go (cur todo : list string) {struct todo} :=
    match todo with
    | [] => Ok cur
    | c :: rest =>
        if bool_decide (c = "/") then go [] rest
        else match node_at fs cur with
             | Some Node_Dir =>
                 if bool_decide (c = ".") then go cur rest
                 else if bool_decide (c = "..") then go (take (length cur - 1) cur) rest
                 else match node_at fs (cur ++ [c]) with
                      | Some (Node_Symlink t) =>
                          match links with
                          | O => Err IoErrorKind_FilesystemLoop
                          | S links => walk create links fs cur (os_parts t ++ rest)
                          end
                      | Some _ => go (cur ++ [c]) rest
                      | None => if create && bool_decide (rest = []) then Ok (cur ++ [c])
                                else Err IoErrorKind_NotFound
                      end
             | _ => Err IoErrorKind_NotADirectory
             end
    end.
Definition locate (create : bool) (fs : FileSystem) (p : string) : result IoErrorKind (list string) :=
  if bool_decide (p = "") then Err IoErrorKind_NotFound
  else walk create MAX_LINKS fs (fs_cwd fs) (os_parts p).

(** [fs::metadata], [Path::exists], [is_file], [is_dir], [fs::canonicalize]. *)
Definition metadata (fs : FileSystem) (p : string) : result IoErrorKind (list string * Node) :=
  loc ← locate false fs p;
  match node_at fs loc with Some n => Ok (loc, n) | None => Err IoErrorKind_NotFound end.
Definition path_exists (fs : FileSystem) (p : string) : bool := is_ok (metadata fs p).
Definition path_is_file (fs : FileSystem) (p : string) : bool :=
  match metadata fs p with Ok (_, Node_File _) => true | _ => false end.
Definition path_is_dir (fs : FileSystem) (p : string) : bool :=
  match metadata fs p with Ok (_, Node_Dir) => true | _ => false end.
Definition location_path (loc : list string) : string := path_of_components ("/" :: loc).
Definition canonicalize (fs : FileSystem) (p : string) : result IoErrorKind string :=
  '(loc, _) ← metadata fs p; Ok (location_path loc).

(** [fs::read_to_string], [fs::write], [fs::remove_file], [fs::create_dir],
    [fs::create_dir_all]. *)
Definition read_to_string (fs : FileSystem) (p : string) : result IoErrorKind string :=
  '(_, n) ← metadata fs p;
  match n with
  | Node_File b => ok_or IoErrorKind_InvalidData (from_utf8 b)
  | _ => Err IoErrorKind_IsADirectory
  end.
Definition parent_location (loc : list string) : list string := take (length loc - 1) loc.
Definition may_add (fs : FileSystem) (loc : list string) : bool :=
  negb (bool_decide (parent_location loc ∈ fs_readonly fs)).
Definition write_file (p : string) (content : string) : stm FileSystem IoErrorKind unit := fun fs =>
  match locate true fs p with
  | Err e => (Err e, fs)
  | Ok loc =>
      match node_at fs loc with
      | Some Node_Dir => (Err IoErrorKind_IsADirectory, fs)
      | Some (Node_Symlink _) => (Err IoErrorKind_FilesystemLoop, fs)
      | Some (Node_File _) =>
          if bool_decide (loc ∈ fs_readonly fs) then (Err IoErrorKind_PermissionDenied, fs)
          else (Ok tt, set_node loc (Node_File (string_to_bytes content)) fs)
      | None =>
          if may_add fs loc then (Ok tt, set_node loc (Node_File (string_to_bytes content)) fs)
          else (Err IoErrorKind_PermissionDenied, fs)
      end
  end.
(** The directory entry some steps name: the last name is not followed. *)
Definition entry_of (fs : FileSystem) (parts : list string) : result IoErrorKind (list string) :=
  match rev parts with
  | [] => Err IoErrorKind_NotFound
  | c :: r =>
      if bool_decide (c = "/" \/ c = "." \/ c = "..") then Err IoErrorKind_IsADirectory
      else d ← walk false MAX_LINKS fs (fs_cwd fs) (rev r);
           match node_at fs d with
           | Some Node_Dir => Ok (d ++ [c])
           | _ => Err IoErrorKind_NotADirectory
           end
  end.
Definition remove_file (p : string) : stm FileSystem IoErrorKind unit := fun fs =>
  match entry_of fs (os_parts p) with
  | Err e => (Err e, fs)
  | Ok loc =>
      match node_at fs loc with
      | None => (Err IoErrorKind_NotFound, fs)
      | Some Node_Dir => (Err IoErrorKind_IsADirectory, fs)
      | Some _ => if may_add fs loc then (Ok tt, remove_node loc fs)
                  else (Err IoErrorKind_PermissionDenied, fs)
      end
  end.
(** A directory may be created with slashes after its name. *)
Definition create_dir (p : string) : stm FileSystem IoErrorKind unit := fun fs =>
  let bare := trim_end_matches (fun c => bool_decide (c = "/"%char)) p in
  match entry_of fs (os_parts (if bool_decide (bare = "") then p else bare)) with
  | Err IoErrorKind_IsADirectory => (Err IoErrorKind_AlreadyExists, fs)
  | Err e => (Err e, fs)
  | Ok loc =>
      match node_at fs loc with
      | Some _ => (Err IoErrorKind_AlreadyExists, fs)
      | None => if may_add fs loc then (Ok tt, set_node loc Node_Dir fs)
                else (Err IoErrorKind_PermissionDenied, fs)
      end
  end.
Fixpoint create_dir_all_from (fuel : nat) (p : string) : stm FileSystem IoErrorKind unit := fun fs =>
  if bool_decide (p = "") then (Ok tt, fs)
  else match create_dir p fs with
       | (Ok _, fs) => (Ok tt, fs)
       | (Err IoErrorKind_NotFound, fs) =>
           match fuel, path_parent p with
           | S fuel, Some parent =>
               match create_dir_all_from fuel parent fs with
               | (Err e, fs) => (Err e, fs)
               | (Ok _, fs) =>
                   match create_dir p fs with
                   | (Ok _, fs) => (Ok tt, fs)
                   | (Err e, fs) => if path_is_dir fs p then (Ok tt, fs) else (Err e, fs)
                   end
               end
           | _, _ => (Err IoErrorKind_NotFound, fs)
           end
       | (Err e, fs) => if path_is_dir fs p then (Ok tt, fs) else (Err e, fs)
       end.
Definition create_dir_all (p : string) : stm FileSystem IoErrorKind unit :=
  create_dir_all_from (length (path_components p)) p.

Example paths_cases :
  (path_components "/a/./b//../c/", os_parts "a/./b/") = (["/"; "a"; "b"; ".."; "c"], ["a"; "."; "b"; "."])
  /\ (path_join "/w" "./a", path_join "/" "a", path_join "/w" "/x") = ("/w/./a", "/a", "/x")
  /\ (path_of_components ["/"; "a"; "b"], path_parent "/a/b", path_parent "/") = ("/a/b", Some "/a", None).
Proof. repeat split; reflexivity. Qed.

(** * Laws of paths *)

(** A name of a directory entry, and a step of a walk. *)
Definition is_name (c : string) : Prop :=
  c <> "" /\ c <> "." /\ c <> ".." /\ contains_char "/" c = false.
Definition is_step (c : string) : Prop := c = "/" \/ (c <> "" /\ contains_char "/" c = false).

Lemma name_not_slash c : is_name c -> c <> "/".
Proof. intros (_ & _ & _ & H) ->. discriminate H. Qed.
Lemma starts_with_slash_char p : is_absolute p = true -> contains_char "/" p = true.
Proof.
  unfold is_absolute, starts_with. destruct p as [|c p]; cbn; [done|].
  intros H%bool_decide_eq_true. destruct (bool_decide ("/"%char = c)) eqn:E; [|by destruct H].
  apply bool_decide_eq_true in E. subst. done.
Qed.
Lemma ends_with_slash_app a b : b <> "" -> ends_with_slash (a +++ b) = ends_with_slash b.
Proof.
  intros Hb. induction a as [|x a IH]; [done|]. rewrite string_app_cons. cbn [ends_with_slash].
  destruct (a +++ b) eqn:E; [|exact IH]. destruct a; [|discriminate E]. by destruct b.
Qed.
Lemma ends_with_slash_char p : ends_with_slash p = true -> contains_char "/" p = true.
Proof.
  induction p as [|c p IH]; [done|]. cbn [ends_with_slash contains_char]. destruct p as [|d p].
  - intros ->. done.
  - intros H. rewrite (IH H). by rewrite orb_true_r.
Qed.

Lemma push_name buf n :
  ends_with_slash buf = false -> buf <> "" -> is_name n -> path_push buf n = buf +++ "/" +++ n.
Proof.
  intros He Hb (_ & _ & _ & Hn). unfold path_push.
  destruct (is_absolute n) eqn:Ha; [apply starts_with_slash_char in Ha; congruence|].
  by rewrite bool_decide_eq_false_2, He.
Qed.
Lemma push_names buf n ns :
  ends_with_slash buf = false -> buf <> "" -> Forall is_name (n :: ns) ->
  foldl path_push buf (n :: ns) = buf +++ "/" +++ str_join "/" (n :: ns).
Proof.
  revert buf n. induction ns as [|m ns IH]; intros buf n He Hb [Hn Hns]%Forall_cons.
  - by apply push_name.
  - rewrite join_cons by done. change (foldl path_push (path_push buf n) (m :: ns) = buf +++ "/" +++ n +++ "/" +++ str_join "/" (m :: ns)).
    rewrite push_name by done. destruct Hn as (Hn0 & _ & _ & Hn).
    rewrite IH; [by rewrite !string_app_assoc| | |done].
    + rewrite <- string_app_assoc, ends_with_slash_app by done.
      destruct (ends_with_slash n) eqn:E; [apply ends_with_slash_char in E; congruence|done].
    + by destruct buf.
Qed.
(** The string of a location. *)
Lemma location_path_eq ns : Forall is_name ns -> location_path ns = "/" +++ str_join "/" ns.
Proof.
  unfold location_path, path_of_components. destruct ns as [|n ns]; [done|]. intros Hns.
  pose proof Hns as [(Hn0 & _ & _ & Hn) Hr]%Forall_cons.
  change (foldl path_push (path_push "/" n) ns = "/" +++ str_join "/" (n :: ns)).
  assert (path_push "/" n = "/" +++ n) as ->.
  { unfold path_push. destruct (is_absolute n) eqn:Ha; [apply starts_with_slash_char in Ha; congruence|done]. }
  assert (ends_with_slash ("/" +++ n) = false) as He.
  { rewrite ends_with_slash_app by done. destruct (ends_with_slash n) eqn:E; [apply ends_with_slash_char in E; congruence|done]. }
  destruct ns as [|m ns]; [done|]. rewrite push_names; [|done|done|done].
  rewrite (join_cons _ n) by done. by rewrite !string_app_assoc.
Qed.
Lemma location_path_absolute ns : Forall is_name ns -> is_absolute (location_path ns) = true.
Proof. intros H. rewrite location_path_eq by done. reflexivity. Qed.
Lemma location_path_split n ns :
  Forall is_name (n :: ns) -> split_on "/" (location_path (n :: ns)) = "" :: n :: ns.
Proof.
  intros H. rewrite location_path_eq by done.
  change ("/" +++ str_join "/" (n :: ns)) with ("" +++ String "/" (str_join "/" (n :: ns))).
  rewrite split_on_app by done. rewrite split_join; [done|done|].
  eapply Forall_impl; [exact H|]. by intros c (_ & _ & _ & Hc).
Qed.
(** Reading a location back from its path. *)
Lemma location_components ns : Forall is_name ns -> path_components (location_path ns) = "/" :: ns.
Proof.
  intros H. destruct ns as [|n ns]; [done|]. unfold path_components.
  pose proof (location_path_absolute _ H) as Ha. unfold is_absolute in Ha. rewrite Ha.
  rewrite location_path_split by done. cbn [List.filter]. rewrite bool_decide_eq_true_2 by auto. cbn [negb].
  change (["/"] ++ List.filter (fun c => negb (bool_decide (c = "" \/ c = "."))) (n :: ns) = "/" :: n :: ns).
  rewrite filter_all; [done|]. eapply Forall_impl; [exact H|].
  intros c (H1 & H2 & _). by rewrite bool_decide_eq_false_2 by naive_solver.
Qed.
Lemma str_join_ends n ns :
  Forall is_name (n :: ns) -> ends_with_slash (str_join "/" (n :: ns)) = false /\ str_join "/" (n :: ns) <> "".
Proof.
  revert n. induction ns as [|m ns IH]; intros n [(Hn0 & _ & _ & Hn) Hns]%Forall_cons.
  - split; [|done]. cbn. destruct (ends_with_slash n) eqn:E; [apply ends_with_slash_char in E; congruence|done].
  - destruct (IH m Hns) as [He Hne]. rewrite join_cons by done. split; [|by destruct n].
    rewrite ends_with_slash_app by done. by rewrite ends_with_slash_app.
Qed.
Lemma location_parts n ns : Forall is_name (n :: ns) -> os_parts (location_path (n :: ns)) = "/" :: n :: ns.
Proof.
  intros H. unfold os_parts. rewrite (location_path_absolute _ H), location_path_split by done.
  assert (ends_with_slash (location_path (n :: ns)) = false) as ->.
  { rewrite location_path_eq by done. destruct (str_join_ends n ns H). by rewrite ends_with_slash_app. }
  cbn [List.filter]. rewrite bool_decide_eq_true_2 by done. cbn [negb]. rewrite app_nil_r.
  change (["/"] ++ List.filter (fun c => negb (bool_decide (c = ""))) (n :: ns) = "/" :: n :: ns).
  rewrite filter_all; [done|]. eapply Forall_impl; [exact H|]. intros c (H1 & _). by rewrite bool_decide_eq_false_2.
Qed.
Lemma location_path_nonempty ns : Forall is_name ns -> location_path ns <> "".
Proof. intros H. by rewrite location_path_eq. Qed.
Lemma os_parts_steps p : Forall is_step (os_parts p).
Proof.
  unfold os_parts. rewrite !Forall_app. repeat split.
  - destruct (is_absolute p); [|done]. by repeat constructor; left.
  - apply Forall_forall. intros c Hc. apply list_elem_of_In, filter_In in Hc as [Hin Hne].
    right. apply negb_true_iff, bool_decide_eq_false in Hne. split; [done|].
    pose proof (split_on_pieces "/" p) as Hp. rewrite Forall_forall in Hp. by apply Hp, list_elem_of_In.
  - destruct (ends_with_slash p); [|done]. apply Forall_cons. split; [by right|done].
Qed.

(** * Laws of the walk *)

(** Everything above a location is a directory, and the location is not a link. *)
Definition dirs_above (fs : FileSystem) (loc : list string) : Prop :=
  forall k, k < length loc -> node_at fs (take k loc) = Some Node_Dir.
Definition not_link (fs : FileSystem) (loc : list string) : Prop :=
  match node_at fs loc with Some (Node_Symlink _) => False | _ => True end.
Definition canonical (fs : FileSystem) (loc : list string) : Prop :=
  Forall is_name loc /\ dirs_above fs loc /\ not_link fs loc.

Lemma canonical_nil fs : canonical fs [].
Proof. split_and!; [done| |done]. intros k Hk. cbn in Hk. lia. Qed.
Lemma canonical_child fs loc c :
  canonical fs loc -> node_at fs loc = Some Node_Dir -> is_name c -> not_link fs (loc ++ [c]) ->
  canonical fs (loc ++ [c]).
Proof.
  intros (Hn & Hd & _) Hdir Hc Hl. split_and!; [apply Forall_app; split; [done|by apply Forall_singleton]| |done].
  intros k Hk. rewrite length_app in Hk. cbn in Hk. destruct (decide (k < length loc)) as [Hk'|Hk'].
  - rewrite take_app_le by lia. by apply Hd.
  - assert (k = length loc) as -> by lia. by rewrite take_app_length.
Qed.
Lemma canonical_take fs loc k : canonical fs loc -> canonical fs (take k loc).
Proof.
  intros (Hn & Hd & Hl). destruct (decide (length loc <= k)) as [Hk|Hk]; [by rewrite take_ge|].
  split_and!; [by apply Forall_take| |].
  - intros j Hj. rewrite length_take in Hj. rewrite take_take, Nat.min_l by lia. apply Hd. lia.
  - unfold not_link. by rewrite Hd by lia.
Qed.
Lemma step_name c : is_step c -> c <> "/" -> c <> "." -> c <> ".." -> is_name c.
Proof. intros [?|[? ?]] ? ? ?; [done|]. by split_and!. Qed.

(** A walk from a canonical place ends in a canonical place, ... *)
Lemma walk_canonical create links fs cur todo loc :
  canonical fs cur -> Forall is_step todo -> walk create links fs cur todo = Ok loc -> canonical fs loc.
Proof.
  revert cur todo. induction links as [|links IHl]; intros cur todo; revert cur;
    (induction todo as [|c todo IH]; intros cur Hcur Ht Hw; [injection Hw as <-; done|]);
    apply Forall_cons in Ht as [Hc Ht]; cbn in Hw;
    (case_bool_decide as E1; [by eapply IH; [apply canonical_nil| |]|]);
    (destruct (node_at fs cur) as [[| |]|] eqn:Hdir; [done| |done|done]);
    (case_bool_decide as E2; [by eapply IH|]);
    (case_bool_decide as E3; [by eapply IH; [apply canonical_take| |]|]);
    pose proof (step_name c Hc E1 E2 E3) as Hname;
    destruct (node_at fs (cur ++ [c])) as [[| |t]|] eqn:Hn.
  1-2,5-6: (eapply IH; [apply canonical_child; try done; unfold not_link; by rewrite Hn|done|done]).
  - done.
  - destruct (create && _); [|done]. injection Hw as <-. apply canonical_child; try done. unfold not_link. by rewrite Hn.
  - eapply IHl; [done| |exact Hw]. apply Forall_app. split; [apply os_parts_steps|done].
  - destruct (create && _); [|done]. injection Hw as <-. apply canonical_child; try done. unfold not_link. by rewrite Hn.
Qed.
(** ... and a canonical place is reached by walking its names. *)
Lemma walk_names create links fs base ns :
  canonical fs (base ++ ns) -> node_at fs (base ++ ns) <> None \/ create = true ->
  walk create links fs base ns = Ok (base ++ ns).
Proof.
  revert base. induction ns as [|n ns IH]; intros base Hc He.
  { rewrite app_nil_r. by destruct links. }
  assert (node_at fs base = Some Node_Dir) as Hdir.
  { destruct Hc as (_ & Hd & _). specialize (Hd (length base)). rewrite take_app_length in Hd.
    apply Hd. rewrite length_app. cbn. lia. }
  assert (is_name n) as Hn.
  { destruct Hc as (Hn & _). rewrite Forall_app, Forall_cons in Hn. tauto. }
  assert (canonical fs ((base ++ [n]) ++ ns)) as Hc' by (by rewrite <- app_assoc).
  assert (not_link fs (base ++ [n])) as Hl.
  { apply (canonical_take _ _ (length (base ++ [n]))) in Hc'. rewrite take_app_length in Hc'. by destruct Hc' as (_ & _ & ?). }
  assert (walk create links fs base (n :: ns)
          = match node_at fs (base ++ [n]) with
            | Some _ => walk create links fs (base ++ [n]) ns
            | None => if create && bool_decide (ns = []) then Ok (base ++ [n]) else Err IoErrorKind_NotFound
            end) as ->.
  { unfold not_link in Hl. destruct Hn as (? & ? & ? & Hs). destruct links; cbn; rewrite Hdir.
    all: rewrite (bool_decide_eq_false_2 (n = "/")) by (intros ->; discriminate Hs).
    all: rewrite !bool_decide_eq_false_2 by done.
    all: by destruct (node_at fs (base ++ [n])) as [[]|]. }
  destruct (node_at fs (base ++ [n])) eqn:Hnode.
  - rewrite IH; [by rewrite <- app_assoc|done|]. by rewrite <- app_assoc.
  - destruct ns as [|m ns].
    + destruct He as [He| ->]; [by destruct He|]. done.
    + destruct Hc' as (_ & Hd & _). specialize (Hd (length (base ++ [n]))). rewrite take_app_length in Hd.
      rewrite Hd in Hnode; [done|]. rewrite !length_app. cbn. lia.
Qed.

Definition fs_ok (fs : FileSystem) : Prop := canonical fs (fs_cwd fs).
Lemma locate_canonical create fs p loc : fs_ok fs -> locate create fs p = Ok loc -> canonical fs loc.
Proof.
  unfold locate. intros Hok. case_bool_decide; [done|]. apply walk_canonical; [done|apply os_parts_steps].
Qed.
(** A canonical place is where its own path leads. *)
Lemma locate_location create fs loc :
  canonical fs loc -> node_at fs loc <> None \/ create = true -> locate create fs (location_path loc) = Ok loc.
Proof.
  intros Hc He. pose proof Hc as (Hn & _). unfold locate. rewrite bool_decide_eq_false_2 by by apply location_path_nonempty.
  destruct loc as [|n ns]; [reflexivity|]. rewrite location_parts by done.
  transitivity (walk create MAX_LINKS fs [] (n :: ns)); [reflexivity|]. by apply walk_names.
Qed.
Lemma metadata_location fs loc n :
  canonical fs loc -> node_at fs loc = Some n -> metadata fs (location_path loc) = Ok (loc, n).
Proof.
  intros Hc Hn. unfold metadata. rewrite locate_location; [|done|left; by rewrite Hn]. cbn. by rewrite Hn.
Qed.
Lemma canonicalize_Ok fs p q :
  fs_ok fs -> canonicalize fs p = Ok q ->
  exists loc n, q = location_path loc /\ canonical fs loc /\ node_at fs loc = Some n
                /\ locate false fs p = Ok loc.
Proof.
  unfold canonicalize, metadata. intros Hok Hq. destruct (locate false fs p) as [loc|] eqn:Hl; [|done]. cbn in Hq.
  destruct (node_at fs loc) as [n|] eqn:Hn; [|done]. injection Hq as <-.
  exists loc, n. split_and!; try done. by eapply locate_canonical.
Qed.
Lemma node_at_set fs loc n l : loc <> [] -> node_at (set_node loc n fs) l = if bool_decide (l = loc) then Some n else node_at fs l.
Proof.
  intros Hloc. unfold node_at, set_node. cbn. repeat case_bool_decide; subst; try done; by simplify_map_eq.
Qed.
Lemma node_at_remove fs loc l : loc <> [] -> node_at (remove_node loc fs) l = if bool_decide (l = loc) then None else node_at fs l.
Proof.
  intros Hloc. unfold node_at, remove_node. cbn. repeat case_bool_decide; subst; try done; by simplify_map_eq.
Qed.

(** * Directories: listing, removing, renaming and copying ([std::fs])

    Operations on directory trees: what [std::fs] does for listing, links, renaming
    and removing trees.

    A tree that holds a directory that may not be changed is not removed at all,
    where the operating system removes what it can before it fails. *)
(** The entries of a directory with what they are, links not followed. *)
Definition child_of (loc : list string) (k : list string) : option string :=
  if bool_decide (take (length loc) k = loc)
  then match drop (length loc) k with [n] => Some n | _ => None end else None.
Definition children (fs : FileSystem) (loc : list string) : list (string * Node) :=
  omap (fun '(k, n) => (., n) <$> child_of loc k) (map_to_list (fs_nodes fs)).
(** [fs::read_dir], [fs::read_link]. *)
Definition read_dir (fs : FileSystem) (p : string) : result IoErrorKind (list (string * Node)) :=
  '(loc, n) ← metadata fs p;
  match n with Node_Dir => Ok (children fs loc) | _ => Err IoErrorKind_NotADirectory end.
Definition read_link (fs : FileSystem) (p : string) : result IoErrorKind string :=
  loc ← entry_of fs (os_parts p);
  match node_at fs loc with
  | Some (Node_Symlink t) => Ok t
  | Some _ => Err IoErrorKind_InvalidInput
  | None => Err IoErrorKind_NotFound
  end.

Definition set_nodes (nodes : gmap (list string) Node) (fs : FileSystem) : FileSystem :=
  {| fs_nodes := nodes; fs_cwd := fs_cwd fs; fs_readonly := fs_readonly fs |}.
Definition remove_tree (loc : list string) (fs : FileSystem) : FileSystem :=
  set_nodes (filter (fun kv => is_prefix_of loc kv.1 = false) (fs_nodes fs)) fs.
Definition tree_locked (loc : list string) (fs : FileSystem) : bool :=
  existsb (fun l => is_prefix_of loc l && negb (bool_decide (children fs l = []))) (elements (fs_readonly fs)).
(** [fs::remove_dir_all]: a link goes, not what it points to. *)
Definition remove_dir_all (p : string) : stm FileSystem IoErrorKind unit := fun fs =>
  match entry_of fs (os_parts p) with
  | Err e => (Err e, fs)
  | Ok loc =>
      match node_at fs loc with
      | None => (Err IoErrorKind_NotFound, fs)
      | Some (Node_File _) => (Err IoErrorKind_NotADirectory, fs)
      | Some n =>
          if may_add fs loc then
            match n with
            | Node_Dir => if tree_locked loc fs then (Err IoErrorKind_PermissionDenied, fs) else (Ok tt, remove_tree loc fs)
            | _ => (Ok tt, remove_node loc fs)
            end
          else (Err IoErrorKind_PermissionDenied, fs)
      end
  end.

Definition move_key (from to k : list string) : list string :=
  if is_prefix_of from k then to ++ drop (length from) k else k.
Definition move_tree (from to : list string) (fs : FileSystem) : FileSystem :=
  set_nodes (list_to_map ((fun '(k, n) => (move_key from to k, n)) <$> map_to_list (fs_nodes fs))) fs.
(** [fs::rename]. *)
Definition rename (from to : string) : stm FileSystem IoErrorKind unit := fun fs =>
  match entry_of fs (os_parts from), entry_of fs (os_parts to) with
  | Err e, _ | _, Err e => (Err e, fs)
  | Ok l1, Ok l2 =>
      match node_at fs l1 with
      | None => (Err IoErrorKind_NotFound, fs)
      | Some n1 =>
          if bool_decide (l1 = l2) then (Ok tt, fs)
          else if negb (may_add fs l1 && may_add fs l2) then (Err IoErrorKind_PermissionDenied, fs)
          else match n1, node_at fs l2 with
               | Node_Dir, Some Node_Dir =>
                   if bool_decide (children fs l2 = []) then (Ok tt, move_tree l1 l2 (remove_node l2 fs))
                   else (Err IoErrorKind_DirectoryNotEmpty, fs)
               | Node_Dir, Some _ => (Err IoErrorKind_NotADirectory, fs)
               | Node_Dir, None => if is_prefix_of l1 l2 then (Err IoErrorKind_InvalidInput, fs)
                                   else (Ok tt, move_tree l1 l2 fs)
               | _, Some Node_Dir => (Err IoErrorKind_IsADirectory, fs)
               | _, _ => (Ok tt, remove_node l1 (set_node l2 n1 fs))
               end
      end
  end.
(** [fs::copy] of a file. *)
Definition copy_file (from to : string) : stm FileSystem IoErrorKind unit := fun fs =>
  match metadata fs from with
  | Err e => (Err e, fs)
  | Ok (_, Node_File b) => write_file to (String.string_of_list_byte b) fs
  | Ok _ => (Err IoErrorKind_InvalidInput, fs)
  end.

Example trees :
  let fs := {| fs_nodes := {[ ["a"] := Node_Dir; ["a"; "x"] := Node_File []; ["b"] := Node_Dir ]};
               fs_cwd := []; fs_readonly := ∅ |} in
  (rename "/a" "/c" fs).1 = Ok tt
  /\ node_at (rename "/a" "/c" fs).2 ["c"; "x"] = Some (Node_File [])
  /\ node_at (rename "/a" "/c" fs).2 ["a"] = None
  /\ node_at (remove_dir_all "/a" fs).2 ["a"; "x"] = None
  /\ (fst <$> children fs []) ≡ₚ ["a"; "b"].
Proof. repeat split; vm_compute; try reflexivity. all: apply perm_swap || reflexivity. Qed.
