(* ===== verification/Sandbox.v ===== *)
(** The sandbox of the file tools ([aura-tools/src/sandbox.rs]) and the errors of
    the tools ([aura-tools/src/error.rs]), on Unix paths over [FileSystem].

    [resolve] works on the text of a path, [resolve_existing] also asks the file
    system where the path really leads.  Paths are valid UTF-8. *)
From S2P Require Import Prelude Values Utf8 Text FileSystem.
From stdpp Require Import list.
From Stdlib Require Import Ascii.

(** * Errors of the tools *)
Inductive ToolError :=
  | ToolError_UnknownTool (name : string)
  | ToolError_ToolDisabled (name : string)
  | ToolError_SandboxViolation (path : string)
  | ToolError_PathNotFound (path : string)
  | ToolError_Io (kind : IoErrorKind) (text : string)
  | ToolError_InvalidArguments (text : string)
  | ToolError_CompactionStructural (text : string)
  | ToolError_CommandNotAllowed (text : string)
  | ToolError_Forbidden (text : string)
  | ToolError_CommandTimeout (timeout_ms : Z)
  | ToolError_CommandFailed (text : string)
  | ToolError_SizeLimitExceeded (actual limit : Z)
  | ToolError_Serialization (text : string)
  | ToolError_ExternalToolError (text : string)
  | ToolError_ExternalToolCallbackFailed (url : string) (status : Z) (body : string)
  | ToolError_ExternalToolCallbackUnreachable (url reason : string).

Definition tool_error_text (e : ToolError) : string :=
  match e with
  | ToolError_UnknownTool n => "unknown tool: " +++ n
  | ToolError_ToolDisabled n => "tool disabled: " +++ n
  | ToolError_SandboxViolation p => "sandbox violation: path " +++ p +++ " escapes workspace root"
  | ToolError_PathNotFound p => "path not found: " +++ p
  | ToolError_Io _ t => "io error: " +++ t
  | ToolError_InvalidArguments t => "invalid arguments: " +++ t
  | ToolError_CompactionStructural t => t
  | ToolError_CommandNotAllowed t => "command not allowed: " +++ t
  | ToolError_Forbidden t => "forbidden: " +++ t
  | ToolError_CommandTimeout ms => "command timeout after " +++ fmt_Z ms +++ "ms"
  | ToolError_CommandFailed t => "command failed: " +++ t
  | ToolError_SizeLimitExceeded a l => "size limit exceeded: " +++ fmt_Z a +++ " > " +++ fmt_Z l
  | ToolError_Serialization t => "serialization error: " +++ t
  | ToolError_ExternalToolError t => "external tool error: " +++ t
  | ToolError_ExternalToolCallbackFailed url status body =>
      "external tool callback failed: " +++ url +++ " returned status " +++ fmt_Z status +++ ": " +++ body
  | ToolError_ExternalToolCallbackUnreachable url reason =>
      "external tool callback unreachable: " +++ url +++ ": " +++ reason
  end.
Definition error_code (e : ToolError) : string :=
  match e with
  | ToolError_UnknownTool _ => "unknown_tool"
  | ToolError_ToolDisabled _ => "tool_disabled"
  | ToolError_SandboxViolation _ => "sandbox_violation"
  | ToolError_PathNotFound _ => "path_not_found"
  | ToolError_Io _ _ => "io_error"
  | ToolError_InvalidArguments _ => "invalid_arguments"
  | ToolError_CompactionStructural _ => "compaction_structural"
  | ToolError_CommandNotAllowed _ => "command_not_allowed"
  | ToolError_Forbidden _ => "forbidden"
  | ToolError_CommandTimeout _ => "tool_timeout"
  | ToolError_CommandFailed _ => "command_failed"
  | ToolError_SizeLimitExceeded _ _ => "size_limit_exceeded"
  | ToolError_Serialization _ => "serialization_error"
  | ToolError_ExternalToolError _ => "external_tool_error"
  | ToolError_ExternalToolCallbackFailed _ _ _ => "external_tool_callback_failed"
  | ToolError_ExternalToolCallbackUnreachable _ _ => "external_tool_callback_unreachable"
  end.
Definition tool_error_is_recoverable (e : ToolError) : bool :=
  match e with
  | ToolError_UnknownTool _ | ToolError_ToolDisabled _ | ToolError_SandboxViolation _
  | ToolError_CommandNotAllowed _ | ToolError_Forbidden _ => false
  | _ => true
  end.
(** An error of the file system, with the operation it came from. *)
Definition io_error (op path : string) (k : IoErrorKind) : ToolError :=
  ToolError_Io k (op +++ "(" +++ path +++ "): " +++ io_error_text k).

(** * The sandbox *)
Record Sandbox := { sb_root : string; sb_extra_roots : list string }.

Definition unc_prefix : string := "\\?\".
Definition strip_unc_prefix (path : string) : string := default path (str_strip_prefix unc_prefix path).

Definition normalize_step (components : list string) (c : string) : list string :=
  if bool_decide (c = "..") then take (length components - 1) components
  else if bool_decide (c = ".") then components
  else components ++ [c].
Definition normalize_path (path : string) : string :=
  path_of_components (foldl normalize_step [] (path_components path)).
Definition is_workspace_root_alias (path : string) : bool :=
  bool_decide (path_components path = ["/"]).
Definition is_within_allowed (sb : Sandbox) (path : string) : bool :=
  let normalized := strip_unc_prefix path in
  path_starts_with normalized (sb_root sb) || existsb (path_starts_with normalized) (sb_extra_roots sb).
Definition joined_path (sb : Sandbox) (path : string) : string :=
  if is_absolute path then path else path_join (sb_root sb) path.
Definition sandbox_resolve (sb : Sandbox) (path : string) : result ToolError string :=
  if is_workspace_root_alias path then Ok (sb_root sb)
  else
    let normalized := normalize_path (joined_path sb path) in
    if is_within_allowed sb normalized then Ok normalized
    else Err (ToolError_SandboxViolation path).
Definition resolve_new : Sandbox -> string -> result ToolError string := sandbox_resolve.
Definition resolve_existing (fs : FileSystem) (sb : Sandbox) (path : string) : result ToolError string :=
  match sandbox_resolve sb path with
  | Ok resolved =>
      if negb (path_exists fs resolved) then Err (ToolError_PathNotFound path)
      else canonical ← map_err (io_error "canonicalize" resolved) (canonicalize fs resolved);
           let canonical := strip_unc_prefix canonical in
           if is_within_allowed sb canonical then Ok canonical
           else Err (ToolError_SandboxViolation path)
  | Err (ToolError_SandboxViolation p) =>
      let candidate := joined_path sb path in
      if negb (path_exists fs candidate) then Err (ToolError_SandboxViolation p)
      else canonical ← map_err (io_error "canonicalize" candidate) (canonicalize fs candidate);
           let canonical := strip_unc_prefix canonical in
           if is_within_allowed sb canonical then Ok canonical
           else Err (ToolError_SandboxViolation p)
  | Err e => Err e
  end.

Definition Sandbox_new (root : string) : stm FileSystem ToolError Sandbox :=
  fs ← gets id;
  _ ← (if path_exists fs root then mret tt
       else stm_map_err (io_error "create_dir_all" root) (create_dir_all root));
  canonical ← reads (fun fs => map_err (io_error "canonicalize" root) (canonicalize fs root));
  mret {| sb_root := strip_unc_prefix canonical; sb_extra_roots := [] |}.
Definition extra_root (fs : FileSystem) (path : string) : option string :=
  if path_exists fs path
  then match canonicalize fs path with Ok c => Some (strip_unc_prefix c) | Err _ => None end
  else None.
Definition with_extra_roots (root : string) (extra : list string) : stm FileSystem ToolError Sandbox :=
  sb ← Sandbox_new root;
  fs ← gets id;
  mret {| sb_root := sb_root sb; sb_extra_roots := sb_extra_roots sb ++ omap (extra_root fs) extra |}.

(** * Where the sandbox lets a path lead *)

(** A location under the root or one of the extra roots. *)
Definition within (sb : Sandbox) (loc : list string) : bool :=
  existsb (fun r => is_prefix_of (path_components r) ("/" :: loc)) (sb_root sb :: sb_extra_roots sb).
(** Roots are canonical absolute paths, as the constructors make them. *)
Definition sandbox_ok (sb : Sandbox) : Prop :=
  Forall (fun r => exists names, r = location_path names /\ Forall is_name names)
    (sb_root sb :: sb_extra_roots sb).

Lemma location_not_unc loc : Forall is_name loc -> strip_unc_prefix (location_path loc) = location_path loc.
Proof. intros H. unfold strip_unc_prefix. rewrite location_path_eq by done. reflexivity. Qed.
Lemma within_location sb loc :
  Forall is_name loc -> is_within_allowed sb (location_path loc) = within sb loc.
Proof.
  intros H. unfold is_within_allowed, within. rewrite location_not_unc by done.
  cbn [existsb]. unfold path_starts_with. by rewrite location_components.
Qed.

Lemma prefix_refl (l : list string) l' : is_prefix_of l (l ++ l') = true.
Proof. induction l as [|x l IH]; [done|]. cbn. rewrite bool_decide_eq_true_2 by done. exact IH. Qed.

(** What the file system says about a path that was checked is a place inside. *)
Lemma checked_location fs sb p c :
  fs_ok fs -> canonicalize fs p = Ok c -> is_within_allowed sb (strip_unc_prefix c) = true ->
  exists loc n, strip_unc_prefix c = location_path loc /\ canonical fs loc /\ node_at fs loc = Some n
                /\ within sb loc = true.
Proof.
  intros Hok Hc Hin. destruct (canonicalize_Ok _ _ _ Hok Hc) as (loc & n & -> & Hloc & Hn & _).
  pose proof Hloc as (Hnames & _). rewrite location_not_unc in * by done.
  rewrite within_location in Hin by done. eauto 10.
Qed.
Lemma resolve_existing_location fs sb path q :
  fs_ok fs -> resolve_existing fs sb path = Ok q ->
  exists loc n, q = location_path loc /\ canonical fs loc /\ node_at fs loc = Some n /\ within sb loc = true.
Proof.
  unfold resolve_existing. intros Hok H.
  destruct (sandbox_resolve sb path) as [resolved|[]]; try done;
    (destruct (path_exists fs _); [cbn [negb] in H|done]);
    (destruct (canonicalize fs _) as [c|] eqn:Hc; [|done]);
    (cbn -[is_within_allowed strip_unc_prefix] in H; destruct (is_within_allowed sb (strip_unc_prefix c)) eqn:Hin; [|done]; injection H as <-);
    exact (checked_location _ _ _ _ Hok Hc Hin).
Qed.

(** ** The text of a path *)
Lemma path_components_shape p :
  exists rest, path_components p = (if is_absolute p then ["/"] else []) ++ rest
    /\ Forall (fun c => c <> "" /\ contains_char "/" c = false) rest.
Proof.
  unfold path_components, is_absolute. destruct (starts_with "/" p).
  all: assert (Forall (fun c => c <> "" /\ contains_char "/" c = false)
         (List.filter (fun c => negb (bool_decide (c = "" \/ c = "."))) (split_on "/" p))) as Hf.
  1, 3: apply Forall_forall; intros c Hc; apply list_elem_of_In, filter_In in Hc as [Hin Hne];
     apply negb_true_iff, bool_decide_eq_false in Hne; split; [naive_solver|];
     pose proof (split_on_pieces "/" p) as Hp; rewrite Forall_forall in Hp; by apply Hp, list_elem_of_In.
  - eauto.
  - eexists. split; [reflexivity|]. destruct (split_on "/" p) as [|s r]; [done|].
    destruct (decide (s = ".")) as [->|]; [apply Forall_cons; split; done|].
    assert (match s :: r with "." :: _ => ["."] | _ => [] end = []) as ->; [|done].
    destruct s as [|[[] [] [] [] [] [] [] []] [|? ?]]; done.
Qed.
Lemma names_snoc ns c : Forall is_name ns -> is_name c -> Forall is_name (ns ++ [c]).
Proof. intros. apply Forall_app. split; [done|]. by apply Forall_singleton. Qed.
(** Parts after the first one keep the shape of what was collected. *)
Lemma normalize_names rest acc :
  Forall (fun c => c <> "" /\ contains_char "/" c = false) rest ->
  (Forall is_name acc \/ exists ns, acc = "/" :: ns /\ Forall is_name ns) ->
  let acc' := foldl normalize_step acc rest in
  Forall is_name acc' \/ exists ns, acc' = "/" :: ns /\ Forall is_name ns.
Proof.
  revert acc. induction rest as [|c rest IH]; intros acc Hr Hacc; [done|].
  apply Forall_cons in Hr as [[Hc0 Hcs] Hr]. cbn [foldl]. apply IH; [done|]. unfold normalize_step.
  repeat case_bool_decide.
  - destruct Hacc as [Hn|(ns & -> & Hn)]; [left; by apply Forall_take|].
    cbn. destruct ns as [|n ns]; [by left|]. right. exists (take (length ns) (n :: ns)).
    split; [by rewrite Nat.sub_0_r|by apply Forall_take].
  - done.
  - assert (is_name c) as Hc by (by split_and!). destruct Hacc as [Hn|(ns & -> & Hn)].
    + left. by apply names_snoc.
    + right. exists (ns ++ [c]). split; [done|by apply names_snoc].
Qed.
Lemma normalize_shape p :
  (exists ns, normalize_path p = location_path ns /\ Forall is_name ns)
  \/ (exists ns, normalize_path p = path_of_components ns /\ Forall is_name ns).
Proof.
  unfold normalize_path. destruct (path_components_shape p) as (rest & -> & Hr).
  rewrite foldl_app.
  destruct (normalize_names rest (foldl normalize_step [] (if is_absolute p then ["/"] else [])) Hr) as [H|(ns & -> & H)].
  - destruct (is_absolute p); [right; by exists []|by left].
  - right. eauto.
  - left. exists ns. eauto.
Qed.
Lemma relative_not_absolute ns : Forall is_name ns -> is_absolute (path_of_components ns) = false.
Proof.
  unfold path_of_components. destruct ns as [|n ns]; [done|]. intros H.
  pose proof H as [(Hn0 & _ & _ & Hn) _]%Forall_cons. apply Forall_cons in H as [_ H].
  change (is_absolute (foldl path_push (path_push "" n) ns) = false).
  assert (is_absolute n = false) as Ha.
  { destruct (is_absolute n) eqn:Ha; [apply starts_with_slash_char in Ha; congruence|done]. }
  assert (path_push "" n = n) as -> by (unfold path_push; by rewrite Ha).
  assert (ends_with_slash n = false) as He.
  { destruct (ends_with_slash n) eqn:E; [apply ends_with_slash_char in E; congruence|done]. }
  destruct ns as [|m ns]; [done|]. rewrite push_names by done.
  destruct n as [|x n]; [done|]. rewrite string_app_cons. unfold is_absolute, starts_with in *. cbn in *.
  destruct (bool_decide ("/"%char = x)); done.
Qed.
Lemma relative_not_within sb p : sandbox_ok sb -> is_absolute p = false -> starts_with unc_prefix p = false ->
  is_within_allowed sb p = false.
Proof.
  intros Hok Ha Hu. unfold is_within_allowed, strip_unc_prefix. unfold starts_with in Hu.
  apply bool_decide_eq_false in Hu. apply eq_None_not_Some in Hu. rewrite Hu. cbn [default].
  assert (forall r, r ∈ sb_root sb :: sb_extra_roots sb -> path_starts_with p r = false) as Hr.
  { intros r Hin. unfold sandbox_ok in Hok. rewrite Forall_forall in Hok. destruct (Hok r Hin) as (names & -> & Hn).
    unfold path_starts_with. rewrite location_components by done.
    destruct (path_components_shape p) as (rest & -> & Hrest). rewrite Ha.
    destruct rest as [|c rest]; [done|]. apply Forall_cons in Hrest as [[_ Hc] _].
    cbn. rewrite bool_decide_eq_false_2; [done|]. intros <-. discriminate Hc. }
  rewrite Hr by (by left). cbn. apply not_true_iff_false. intros (r & Hin & Hp)%existsb_exists.
  rewrite Hr in Hp; [done|]. right. by apply list_elem_of_In.
Qed.
Lemma sandbox_root_within sb names :
  sb_root sb = location_path names -> Forall is_name names -> forall rest, within sb (names ++ rest) = true.
Proof.
  intros Hr Hn rest. unfold within. cbn [existsb]. rewrite Hr, location_components by done.
  apply orb_true_iff. left. exact (prefix_refl ("/" :: names) rest).
Qed.
Lemma resolve_lexical sb path q :
  sandbox_ok sb -> sandbox_resolve sb path = Ok q -> starts_with unc_prefix q = false ->
  exists loc, q = location_path loc /\ Forall is_name loc /\ within sb loc = true.
Proof.
  intros Hok H Hu. unfold sandbox_resolve in H. destruct (is_workspace_root_alias path).
  - injection H as <-. pose proof Hok as [(names & Hr & Hn) _]%Forall_cons.
    exists names. split_and!; [done..|]. rewrite <- (app_nil_r names). by eapply sandbox_root_within.
  - destruct (is_within_allowed sb _) eqn:Hin; [|done]. injection H as <-.
    destruct (normalize_shape (joined_path sb path)) as [(ns & Hq & Hn)|(ns & Hq & Hn)]; rewrite Hq in *.
    + rewrite within_location in Hin by done. eauto.
    + rewrite relative_not_within in Hin; [done|done|by apply relative_not_absolute|done].
Qed.
