(* ===== verification/FsTools.v ===== *)
(** The tools that change files ([aura-tools/src/fs_tools/edit.rs, write.rs,
    delete.rs, diff.rs]) with the checks they run on Cargo manifests
    ([cargo_toml_guard.rs]) and on new Rust modules ([module_link.rs]).

    A tool runs over the [FileSystem] it finds; nothing else changes files while it
    runs.  Parameters: the line diff of the [similar] crate, the TOML parser, the
    size the system reports for a directory and the text of a join error.  Where a
    string is cut at a byte that is not the start of a character the code panics:
    the result is then [None]. *)
From S2P Require Import Prelude Values Utf8 Text CoreTypes Compaction FileSystem Sandbox.
From stdpp Require Import list.
From Stdlib Require Import Ascii Strings.Byte.

(** [similar::TextDiff::from_lines] with [iter_all_changes], [toml::from_str],
    [Metadata::len] of a directory, the text of a [JoinError] after a panic. *)
Inductive ChangeTag := ChangeTag_Equal | ChangeTag_Delete | ChangeTag_Insert.
Class LineDiffs := line_changes : string -> string -> list ChangeTag.
Class TomlParser := toml_error : string -> option string.
Class DirLen := dir_len : list string -> Z.
Class PanicText := panic_text : string.

(** * Strings *)
Fixpoint str_ends_with (p s : string) : bool :=
  bool_decide (s = p) || match s with EmptyString => false | String _ t => str_ends_with p t end.
(** The pieces between the occurrences of a pattern; the empty pattern occurs
    before, between and after the characters. *)
Fixpoint pieces_from (fuel : nat) (p s : string) : list string :=
  match fuel with
  | O => [s]
  | S fuel => match str_split_once p s with
              | Some (a, b) => a :: pieces_from fuel p b
              | None => [s]
              end
  end.
Definition pieces (p s : string) : list string :=
  if bool_decide (p = "") then "" :: (of_chars <$> ((fun c => [c]) <$> chars s)) ++ [""]
  else pieces_from (String.length s) p s.
(** [str::matches(p).count()], [str::replace], [str::replacen(_, _, 1)]. *)
Definition match_count (p s : string) : Z := Z.of_nat (length (pieces p s)) - 1.
Definition str_replace (p new s : string) : string := str_join new (pieces p s).
Definition str_replacen1 (p new s : string) : string :=
  match str_split_once p s with Some (a, b) => a +++ new +++ b | None => s end.
Definition crlf_text : string := String carriage_return nl.
(** [&s\[..n\]] and [&s\[n..\]]: [None] off a character boundary. *)
Definition str_upto (n : nat) (s : string) : option string :=
  if is_char_boundary (string_to_bytes s) n then Some (str_take n s) else None.
Definition str_from (n : nat) (s : string) : option string :=
  if is_char_boundary (string_to_bytes s) n then Some (str_drop n s) else None.

(** * Line counts *)
Section Diff.
Context `{LineDiffs}.
Definition count_change (acc : Z * Z) (tag : ChangeTag) : Z * Z :=
  match tag with
  | ChangeTag_Insert => (u32_saturating_add acc.1 1, acc.2)
  | ChangeTag_Delete => (acc.1, u32_saturating_add acc.2 1)
  | ChangeTag_Equal => acc
  end.
Definition count_line_diff (old_text new_text : string) : Z * Z :=
  foldl count_change (0, 0)%Z (line_changes old_text new_text).
End Diff.
Definition count_lines (text : string) : Z :=
  if bool_decide (text = "") then 0%Z
  else foldl (fun count _ => u32_saturating_add count 1) 0%Z (lines text).
Definition with_metadata (k v : string) (r : ToolResult) : ToolResult :=
  {| tr_tool := tr_tool r; tr_ok := tr_ok r; tr_kind := tr_kind r; tr_exit_code := tr_exit_code r;
     tr_stdout := tr_stdout r; tr_stderr := tr_stderr r; tr_metadata := <[k := v]> (tr_metadata r);
     tr_line_diff := tr_line_diff r; tr_image := tr_image r |}.
Definition with_line_diff (d : Z * Z) (r : ToolResult) : ToolResult :=
  {| tr_tool := tr_tool r; tr_ok := tr_ok r; tr_kind := tr_kind r; tr_exit_code := tr_exit_code r;
     tr_stdout := tr_stdout r; tr_stderr := tr_stderr r; tr_metadata := tr_metadata r;
     tr_line_diff := Some {| lines_added := d.1; lines_removed := d.2 |}; tr_image := tr_image r |}.
Definition success_text (tool text : string) : ToolResult := ToolResult_success tool (string_to_bytes text).

(** * Cargo manifests *)
Definition DEPENDENCY_TABLE_NAMES : list string := ["dependencies"; "dev-dependencies"; "build-dependencies"].
Definition is_cargo_manifest (path : string) : bool :=
  match path_file_name path with Some n => eq_ignore_ascii_case n "Cargo.toml" | None => false end.
Definition parse_table_header (line : string) : option string :=
  match str_strip_prefix "[[" line with
  | Some rest => '(inner, _) ← str_split_once "]]" rest; Some (trim inner)
  | None =>
      rest ← str_strip_prefix "[" line;
      '(inner, _) ← str_split_once "]" rest;
      Some (trim inner)
  end.
Definition is_dependency_table (table : string) : bool :=
  bool_decide (table ∈ DEPENDENCY_TABLE_NAMES)
  || match str_strip_prefix "target." table with
     | Some rest => bool_decide (rsplit_first "." rest ∈ DEPENDENCY_TABLE_NAMES)
     | None => false
     end.
Definition quoted_with (q key : string) : bool := starts_with q key && str_ends_with q key.
Definition dquote : string := String "034" EmptyString.
Definition strip_surrounding_quotes (key : string) : string :=
  if (2 <=? str_len key)%Z && (quoted_with dquote key || quoted_with "'" key)
  then str_take (String.length key - 2) (str_drop 1 key)
  else key.
Definition parse_key_assignment (line : string) : option string :=
  '(before, _) ← split_once "=" line;
  let raw_key := trim before in
  if bool_decide (raw_key = "") then None
  else
    first ← head (split_on "." raw_key);
    let first_segment := trim first in
    if bool_decide (first_segment = "") then None
    else Some (strip_surrounding_quotes first_segment).

Record KeyScan := {
  ks_table : option string;
  ks_seen : gmap string (list string);
  ks_duplicates : list (string * string * Z);
}.
Definition scan_line (k : KeyScan) (line_no : Z) (raw_line : string) : KeyScan :=
  let line := trim_start raw_line in
  if bool_decide (line = "") || starts_with "#" line then k
  else match parse_table_header line with
       | Some header => {| ks_table := Some header; ks_seen := ks_seen k; ks_duplicates := ks_duplicates k |}
       | None =>
           match ks_table k with
           | None => k
           | Some table =>
               if negb (is_dependency_table table) then k
               else match parse_key_assignment line with
                    | None => k
                    | Some key =>
                        let entry := default [] (ks_seen k !! table) in
                        if bool_decide (key ∈ entry)
                        then {| ks_table := ks_table k; ks_seen := <[table := entry]> (ks_seen k);
                                ks_duplicates := ks_duplicates k ++ [(table, key, line_no)] |}
                        else {| ks_table := ks_table k; ks_seen := <[table := entry ++ [key]]> (ks_seen k);
                                ks_duplicates := ks_duplicates k |}
                    end
           end
       end.
Fixpoint scan_lines (k : KeyScan) (line_no : Z) (ls : list string) : KeyScan :=
  match ls with [] => k | l :: r => scan_lines (scan_line k line_no l) (line_no + 1) r end.
Definition KeyScan_start : KeyScan := {| ks_table := None; ks_seen := ∅; ks_duplicates := [] |}.
Definition find_duplicate_dependency_keys (content : string) : option string :=
  match ks_duplicates (scan_lines KeyScan_start 1 (lines content)) with
  | [] => None
  | dups => Some (str_join ", " ((fun '(table, key, line) =>
              "`" +++ key +++ "` in [" +++ table +++ "] (line " +++ fmt_Z line +++ ")") <$> dups))
  end.
Definition validate_cargo_toml `{TomlParser} (content : string) : result ToolError unit :=
  match toml_error content with
  | Some parse_err =>
      Err (ToolError_InvalidArguments ("Cargo.toml does not parse as TOML: " +++ parse_err
        +++ ". Fix the structural error before retrying — the file would otherwise break `cargo` for every subsequent command in this workspace."))
  | None =>
      match find_duplicate_dependency_keys content with
      | Some report =>
          Err (ToolError_InvalidArguments ("Cargo.toml declares the same dependency key more than once: " +++ report
            +++ ". Remove the duplicate entries; cargo refuses to compile a manifest with repeated keys."))
      | None => Ok tt
      end
  end.

(** * Editing *)
Definition line_offset (ls : list string) (n : nat) : nat :=
  foldr (fun l acc => String.length l + 1 + acc) 0 (take n ls).
Definition lines_match (content_lines needle_lines : list string) (start : nat) : bool :=
  bool_decide (start + length needle_lines <= length content_lines)
  && bool_decide (trim <$> take (length needle_lines) (drop start content_lines) = needle_lines).
Definition line_matches (content_lines needle_lines : list string) : list nat :=
  List.filter (lines_match content_lines needle_lines) (seq 0 (length content_lines)).
Definition fuzzy_line_match (content old_text : string) : result string (option (nat * nat)) :=
  let needle_lines := trim <$> lines old_text in
  match needle_lines with
  | [] => Ok None
  | _ =>
      let content_lines := lines content in
      match line_matches content_lines needle_lines with
      | [] => Ok None
      | [start] =>
          let match_end_line := start + length needle_lines - 1 in
          Ok (Some (line_offset content_lines start,
                    line_offset content_lines match_end_line
                    + String.length (nth match_end_line content_lines "")))
      | more => Err ("Found " +++ fmt_Z (Z.of_nat (length more))
                     +++ " occurrences of the search text (fuzzy match). Use replace_all=true to replace all, or make the search text more specific.")
      end
  end.

Record AnchorWindow := {
  aw_matched_lines : Z;
  aw_anchor_start_line : Z;
  aw_anchor_end_line : Z;
  aw_lines : list string;
}.
Definition anchor_context : nat := 3.
Definition anchor_line (content_lines : list string) (i : nat) : string :=
  pad_left 6 (fmt_Z (Z.of_nat (i + 1))) +++ "|" +++ nth i content_lines "".
Definition anchor_window (content_lines : list string) (k start : nat) : AnchorWindow :=
  let last := start + k - 1 in
  let window_start := start - anchor_context in
  let window_end := min (last + anchor_context) (length content_lines - 1) in
  {| aw_matched_lines := Z.of_nat k; aw_anchor_start_line := Z.of_nat (start + 1);
     aw_anchor_end_line := Z.of_nat (last + 1);
     aw_lines := anchor_line content_lines <$> seq window_start (window_end + 1 - window_start) |}.
Fixpoint best_anchor_from (content_lines needle_lines : list string) (k : nat) : option AnchorWindow :=
  match k with
  | O => None
  | S k' =>
      match line_matches content_lines (take k needle_lines) with
      | [start] => Some (anchor_window content_lines k start)
      | _ => best_anchor_from content_lines needle_lines k'
      end
  end.
Definition best_partial_anchor (content needle : string) : option AnchorWindow :=
  let needle_lines := trim <$> lines needle in
  best_anchor_from (lines content) needle_lines (length needle_lines).
Definition format_not_found_error (content needle : string) : string :=
  let needle_total := fmt_Z (Z.of_nat (length (lines needle))) in
  match best_partial_anchor content needle with
  | Some w =>
      "The specified text was not found in the file." +++ nl
      +++ "Closest partial match: " +++ fmt_Z (aw_matched_lines w) +++ " of " +++ needle_total
      +++ " needle line(s) matched at lines " +++ fmt_Z (aw_anchor_start_line w) +++ "-"
      +++ fmt_Z (aw_anchor_end_line w) +++ "." +++ nl
      +++ "---- file context (±3 lines, line-numbered) ----" +++ nl
      +++ str_join nl (aw_lines w) +++ nl +++ "----" +++ nl
      +++ "Re-derive old_text from the bytes shown above; do not retry the previous old_text."
  | None =>
      "The specified text was not found in the file. None of the " +++ needle_total
      +++ " needle line(s) match any line in the file; read_file the target path first and copy real bytes into old_text."
  end.

Record ValidatedEdit := {
  ve_resolved : string;
  ve_content : string;
  ve_had_crlf : bool;
  ve_old_text_norm : string;
  ve_new_text_norm : string;
}.
Definition is_elided_edit_placeholder (value : string) : bool :=
  starts_with "<<<AURA_ELIDED_OLD::" value || starts_with "<<<AURA_ELIDED_NEW::" value.
Definition has_redacted_field_marker (args : json) (field : string) : bool :=
  match json_get "_redacted" args ≫= json_as_object with
  | None => false
  | Some marker =>
      (bool_decide (fields_get "kind" marker ≫= json_as_str = Some "aura_compaction_redaction")
       && bool_decide (fields_get "field" marker ≫= json_as_str = Some field))
      || match fields_get "fields" marker with
         | Some (JArray fields) =>
             existsb (fun entry => bool_decide (json_get_str "field" entry = Some field)) fields
         | _ => false
         end
  end.
Definition elided_edit_error (field : string) : ToolError :=
  ToolError_CompactionStructural (field +++ " is an elided history placeholder; supply the real edit text. Prior turns redact write_file/edit_file inputs to save context; never copy the placeholder verbatim. Re-derive the intended old_text/new_text here.").
Definition reject_elided_edit_placeholder (field value : string) : result ToolError unit :=
  if is_elided_edit_placeholder value && str_ends_with ">>>" value then Err (elided_edit_error field) else Ok tt.
Definition validate_edit_input (fs : FileSystem) (sb : Sandbox) (path old_text new_text : string)
  : result ToolError ValidatedEdit :=
  resolved ← resolve_existing fs sb path;
  if negb (path_is_file fs resolved) then Err (ToolError_InvalidArguments (path +++ " is not a file"))
  else
    raw_content ← map_err (io_error "read_to_string" resolved) (read_to_string fs resolved);
    let had_crlf := contains crlf_text raw_content in
    Ok {| ve_resolved := resolved;
          ve_content := if had_crlf then str_replace crlf_text nl raw_content else raw_content;
          ve_had_crlf := had_crlf;
          ve_old_text_norm := str_replace crlf_text nl old_text;
          ve_new_text_norm := str_replace crlf_text nl new_text |}.
Definition find_match_in_content (content old_text_norm new_text_norm : string) (replace_all : bool)
  : option (result ToolError (string * Z)) :=
  let exact_count := match_count old_text_norm content in
  if (exact_count =? 0)%Z then
    match fuzzy_line_match content old_text_norm with
    | Ok (Some (start, last)) =>
        before ← str_upto start content;
        after ← str_from last content;
        Some (Ok (before +++ new_text_norm +++ after, 1%Z))
    | Ok None => Some (Err (ToolError_InvalidArguments (format_not_found_error content old_text_norm)))
    | Err msg => Some (Err (ToolError_InvalidArguments msg))
    end
  else if negb replace_all && (1 <? exact_count)%Z then
    Some (Err (ToolError_InvalidArguments ("Found " +++ fmt_Z exact_count
      +++ " occurrences of the search text. Use replace_all=true to replace all, or make the search text more specific.")))
  else if replace_all then Some (Ok (str_replace old_text_norm new_text_norm content, exact_count))
  else Some (Ok (str_replacen1 old_text_norm new_text_norm content, 1%Z)).

Section Edit.
Context `{LineDiffs} `{TomlParser}.
Definition apply_edit (resolved path content new_content : string) (had_crlf : bool) (replacements : Z)
  : stm FileSystem ToolError ToolResult :=
  if negb (bool_decide (content = "")) && (str_len new_content <? str_len content / 5)%Z
  then fails (ToolError_InvalidArguments "Edit would reduce file to less than 20% of original size. This likely indicates truncated content.")
  else
    _ ← lift (if is_cargo_manifest resolved then validate_cargo_toml new_content else Ok tt);
    let diff := count_line_diff content new_content in
    let final_content := if had_crlf then str_replace nl crlf_text new_content else new_content in
    _ ← stm_map_err (io_error "write" resolved) (write_file resolved final_content);
    mret (with_line_diff diff (with_metadata "replacements" (fmt_Z replacements)
            (success_text "edit_file" ("Replaced " +++ fmt_Z replacements +++ " occurrence(s) in " +++ path)))).
Definition fs_edit (sb : Sandbox) (path old_text new_text : string) (replace_all : bool)
  (fs : FileSystem) : option (result ToolError ToolResult) * FileSystem :=
  match (_ ← reject_elided_edit_placeholder "old_text" old_text;
         _ ← reject_elided_edit_placeholder "new_text" new_text;
         validate_edit_input fs sb path old_text new_text) with
  | Err e => (Some (Err e), fs)
  | Ok edit =>
      match find_match_in_content (ve_content edit) (ve_old_text_norm edit) (ve_new_text_norm edit) replace_all with
      | None => (None, fs)
      | Some (Err e) => (Some (Err e), fs)
      | Some (Ok (new_content, replacements)) =>
          let '(r, fs) := apply_edit (ve_resolved edit) path (ve_content edit) new_content (ve_had_crlf edit) replacements fs in
          (Some r, fs)
      end
  end.
Definition spawn_blocking_tool `{PanicText} (r : option (result ToolError ToolResult)) : result ToolError ToolResult :=
  match r with
  | Some r => r
  | None => Err (ToolError_CommandFailed ("blocking task panicked: " +++ panic_text))
  end.
Definition str_arg (args : json) (field : string) : result ToolError string :=
  ok_or (ToolError_InvalidArguments ("missing '" +++ field +++ "' argument")) (json_get_str field args).
Definition bool_arg (args : json) (field : string) (dflt : bool) : bool :=
  match json_get field args with Some (JBool b) => b | _ => dflt end.
Definition FsEditTool_execute `{PanicText} (sb : Sandbox) (args : json) : stm FileSystem ToolError ToolResult := fun fs =>
  if has_redacted_field_marker args "old_text" then (Err (elided_edit_error "old_text"), fs)
  else if has_redacted_field_marker args "new_text" then (Err (elided_edit_error "new_text"), fs)
  else match (path ← str_arg args "path"; old_text ← str_arg args "old_text"; new_text ← str_arg args "new_text";
              Ok (path, old_text, new_text)) with
       | Err e => (Err e, fs)
       | Ok (path, old_text, new_text) =>
           let '(r, fs) := fs_edit sb path old_text new_text (bool_arg args "replace_all" false) fs in
           (spawn_blocking_tool r, fs)
       end.
End Edit.

(** * New Rust modules *)
Record ModuleLinkCheck := { mlc_linked : bool; mlc_message : option string }.
(** [Path::file_stem]. *)
Definition path_file_stem (p : string) : option string :=
  name ← path_file_name p;
  match rev (split_on "." name) with
  | _ :: before =>
      if bool_decide (before = [] \/ before = [EmptyString]) then Some name
      else Some (str_join "." (rev before))
  | [] => None
  end.
Definition rust_module_stem (path : string) : option string :=
  file_name ← path_file_name path;
  if negb (str_ends_with ".rs" file_name) then None
  else stem ← path_file_stem path;
       if bool_decide (stem ∈ ["mod"; "lib"; "main"; "build"]) then None else Some stem.
Definition forward_slashes (s : string) : string :=
  string_map (fun c => if bool_decide (c = "\"%char) then "/"%char else c) s.
Definition under_rust_src_tree (relative_path : string) : bool :=
  bool_decide ("src" ∈ split_on "/" (forward_slashes relative_path)).
Definition parent_module_candidates (parent : string) : list string :=
  path_join parent "mod.rs"
  :: (if bool_decide (path_file_name parent = Some "src")
      then [path_join parent "lib.rs"; path_join parent "main.rs"] else []).
Definition strip_line_comment (line : string) : string :=
  match str_split_once "//" line with Some (a, _) => a | None => line end.
Definition strip_visibility_prefix (line : string) : string :=
  let trimmed := trim_start line in
  match (rest ← str_strip_prefix "pub(" trimmed; split_once ")" rest) with
  | Some (_, after) => trim_start after
  | None =>
      match str_strip_prefix "pub " trimmed with
      | Some rest => trim_start rest
      | None => trimmed
      end
  end.
Definition is_ident_char (c : ascii) : bool :=
  let n := Z.of_N (N_of_ascii c) in
  bool_decide (c = "_"%char)
  || ((48 <=? n) && (n <=? 57))%Z || ((65 <=? n) && (n <=? 90))%Z || ((97 <=? n) && (n <=? 122))%Z.
Definition declares_module (stem raw_line : string) : bool :=
  let line := trim (strip_line_comment raw_line) in
  if bool_decide (line = "") then false
  else match str_strip_prefix "mod " (strip_visibility_prefix line) with
       | None => false
       | Some rest =>
           let rest := trim_start rest in
           match find_char (fun c => negb (is_ident_char c)) rest with
           | None => bool_decide (rest = stem)
           | Some name_end =>
               bool_decide (str_take name_end rest = stem)
               && match trim_start (str_drop name_end rest) with
                  | String c _ => bool_decide (c = ";"%char \/ c = "{"%char)
                  | EmptyString => false
                  end
           end
       end.
Definition contains_mod_declaration (text stem : string) : bool := existsb (declares_module stem) (lines text).
(** [Path::strip_prefix], as a path. *)
Fixpoint drop_prefix (p l : list string) : option (list string) :=
  match p, l with
  | [], _ => Some l
  | a :: p', b :: l' => if bool_decide (a = b) then drop_prefix p' l' else None
  | _ :: _, [] => None
  end.
Definition path_strip_prefix (base p : string) : option string :=
  path_of_components <$> drop_prefix (path_components base) (path_components p).
Definition check_module_link (fs : FileSystem) (sb : Sandbox) (relative_path resolved_path : string)
  : option ModuleLinkCheck :=
  stem ← rust_module_stem resolved_path;
  if negb (under_rust_src_tree relative_path) then None
  else
    parent ← path_parent resolved_path;
    let inspected := List.filter (fun p => path_starts_with p (sb_root sb) && path_is_file fs p)
                       (parent_module_candidates parent) in
    match inspected with
    | [] => None
    | _ =>
        let linked := existsb (fun candidate =>
          match read_to_string fs candidate with Ok text => contains_mod_declaration text stem | Err _ => false end)
          inspected in
        if linked then Some {| mlc_linked := true; mlc_message := None |}
        else
          let candidate_list := omap (fun p => forward_slashes <$> path_strip_prefix (sb_root sb) p) inspected in
          let candidate_blob := match candidate_list with
                                | [] => "<sibling module file>"
                                | _ => str_join " or " candidate_list
                                end in
          Some {| mlc_linked := false;
                  mlc_message := Some ("Created '" +++ relative_path +++ "' but no sibling module declares `mod " +++ stem
                    +++ ";` — cargo will silently ignore the file. Add `pub mod " +++ stem +++ ";` (or `mod " +++ stem
                    +++ ";`) to " +++ candidate_blob +++ " before relying on the new module.") |}
    end.

(** * Writing *)
Definition WRITE_FILE_CHUNK_BYTES : Z := 12000.
Definition CODE_EXTENSIONS : list string :=
  ["rs"; "js"; "ts"; "tsx"; "jsx"; "c"; "cpp"; "h"; "java"; "go"; "cs"; "swift"; "kt"].
Definition is_elided_write_placeholder (content : string) : bool :=
  starts_with "<<<AURA_ELIDED_CONTENT::" content && str_ends_with ">>>" content.
Definition is_code_file (path : string) : bool :=
  match path_extension path with
  | Some ext => existsb (eq_ignore_ascii_case ext) CODE_EXTENSIONS
  | None => false
  end.
Fixpoint char_balance (up down : ascii) (s : string) : Z :=
  match s with
  | EmptyString => 0
  | String c t => (if bool_decide (c = up) then 1 else if bool_decide (c = down) then -1 else 0)
                  + char_balance up down t
  end%Z.
Definition looks_truncated (path content : string) : bool :=
  is_code_file path
  && (negb (char_balance "{" "}" content =? 0)%Z || negb (char_balance "(" ")" content =? 0)%Z).
Definition elided_write_error : ToolError :=
  ToolError_CompactionStructural "content is an elided history placeholder; supply the real file content. Prior turns redact write_file/edit_file inputs to save context; never copy the placeholder verbatim. Re-emit the full intended content here.".

Section Write.
Context `{LineDiffs} `{TomlParser} `{DirLen}.
(** [fs::metadata(p).map_or(0, |m| m.len())]. *)
Definition metadata_len (fs : FileSystem) (p : string) : Z :=
  match metadata fs p with
  | Ok (_, Node_File b) => Z.of_nat (length b)
  | Ok (loc, _) => dir_len loc
  | Err _ => 0
  end.
Definition write_result (fs : FileSystem) (sb : Sandbox) (path resolved pre_content content : string) (file_existed : bool)
  : ToolResult :=
  let bytes_written := str_len content in
  let result :=
    with_line_diff (count_line_diff pre_content content)
      (with_metadata "file_existed" (if file_existed then "true" else "false")
        (with_metadata "bytes_written" (fmt_Z bytes_written)
          (success_text "write_file" ("Wrote " +++ fmt_Z bytes_written +++ " bytes to " +++ path)))) in
  let result := if looks_truncated resolved content
                then with_metadata "warning" "Content has unbalanced braces/parentheses – may be truncated" result
                else result in
  let result := match (if file_existed then None else check_module_link fs sb path resolved) with
                | Some {| mlc_linked := false; mlc_message := m |} =>
                    let result := with_metadata "unlinked_module" "true" result in
                    match m with Some message => with_metadata "unlinked_module_hint" message result | None => result end
                | _ => result
                end in
  if (WRITE_FILE_CHUNK_BYTES <? bytes_written)%Z then with_metadata "chunk_suggestion" "true" result else result.
Definition ensure_parent (resolved : string) : stm FileSystem ToolError unit := fun fs =>
  match path_parent resolved with
  | Some parent =>
      if path_exists fs parent then (Ok tt, fs)
      else stm_map_err (io_error "create_dir_all" parent) (create_dir_all parent) fs
  | None => (Ok tt, fs)
  end.
Definition fs_write (sb : Sandbox) (path content : string) : stm FileSystem ToolError ToolResult :=
  if is_elided_write_placeholder content then fails elided_write_error
  else
    resolved ← lift (resolve_new sb path);
    fs0 ← gets id;
    let file_existed := path_exists fs0 resolved in
    let pre_content := if file_existed
                       then match read_to_string fs0 resolved with Ok s => s | Err _ => "" end else "" in
    let existing_size := if file_existed then metadata_len fs0 resolved else 0%Z in
    if file_existed && (0 <? existing_size)%Z && (str_len content <? existing_size / 10)%Z
    then fails (ToolError_InvalidArguments "New content is less than 10% of existing file size. This likely indicates truncated output.")
    else
      _ ← ensure_parent resolved;
      _ ← lift (if is_cargo_manifest resolved then validate_cargo_toml content else Ok tt);
      _ ← stm_map_err (io_error "write" resolved) (write_file resolved content);
      fs1 ← gets id;
      let on_disk_size := metadata_len fs1 resolved in
      if negb (on_disk_size =? str_len content)%Z
      then fails (ToolError_InvalidArguments ("Post-write verification failed: wrote " +++ fmt_Z (str_len content)
             +++ " bytes but file is " +++ fmt_Z on_disk_size +++ " bytes on disk"))
      else mret (write_result fs1 sb path resolved pre_content content file_existed).
Definition FsWriteTool_execute (sb : Sandbox) (args : json) : stm FileSystem ToolError ToolResult :=
  if has_redacted_field_marker args "content" then fails elided_write_error
  else path ← lift (str_arg args "path"); content ← lift (str_arg args "content"); fs_write sb path content.
End Write.

(** * Deleting *)
Definition fs_delete (sb : Sandbox) (path : string) : stm FileSystem ToolError ToolResult :=
  resolved ← reads (fun fs => resolve_existing fs sb path);
  fs ← gets id;
  if negb (path_is_file fs resolved) then fails (ToolError_InvalidArguments (path +++ " is not a file"))
  else
    let lines_removed := match read_to_string fs resolved with Ok content => count_lines content | Err _ => 0%Z end in
    _ ← stm_map_err (io_error "remove_file" resolved) (remove_file resolved);
    mret (with_line_diff (0%Z, lines_removed) (success_text "delete_file" ("Deleted " +++ path))).
Definition FsDeleteTool_execute (sb : Sandbox) (args : json) : stm FileSystem ToolError ToolResult :=
  path ← lift (str_arg args "path"); fs_delete sb path.
