(* ===== verification/FsToolsProps.v ===== *)
(** What the file tools guarantee: where they can change the file system, what a
    successful write or edit leaves in the file, and that elided history is never
    written. *)
From S2P Require Import Prelude Values CoreTypes Utf8 Text Compaction FileSystem Sandbox FsTools.
From stdpp Require Import list.
From Stdlib Require Import Ascii Strings.Byte.

(** * Changes at one place *)

(** Nothing outside the sandbox differs. *)
Definition only_inside (sb : Sandbox) (fs fs' : FileSystem) : Prop :=
  forall loc, within sb loc = false -> node_at fs' loc = node_at fs loc.
Lemma only_inside_refl sb fs : only_inside sb fs fs.
Proof. done. Qed.
Lemma only_inside_trans sb fs1 fs2 fs3 : only_inside sb fs1 fs2 -> only_inside sb fs2 fs3 -> only_inside sb fs1 fs3.
Proof. intros H1 H2 loc Hl. by rewrite H2, H1. Qed.
Lemma only_inside_set sb fs loc n : within sb loc = true -> node_at fs loc <> Some Node_Dir -> only_inside sb fs (set_node loc n fs).
Proof.
  intros Hin Hd l Hl. rewrite node_at_set by (intros ->; by apply Hd).
  rewrite bool_decide_eq_false_2; [done|]. congruence.
Qed.
Lemma only_inside_remove sb fs loc : within sb loc = true -> node_at fs loc <> Some Node_Dir -> only_inside sb fs (remove_node loc fs).
Proof.
  intros Hin Hd l Hl. rewrite node_at_remove by (intros ->; by apply Hd).
  rewrite bool_decide_eq_false_2; [done|]. congruence.
Qed.
#[local] Hint Resolve only_inside_refl only_inside_set only_inside_remove : core.

(** Writing changes the place the path leads to, or nothing. *)
Lemma write_file_changes p content fs r fs' :
  write_file p content fs = (r, fs') ->
  (fs' = fs /\ exists e, r = Err e)
  \/ (exists loc, locate true fs p = Ok loc /\ fs' = set_node loc (Node_File (string_to_bytes content)) fs
                  /\ r = Ok tt /\ (node_at fs loc = None \/ exists b, node_at fs loc = Some (Node_File b))).
Proof.
  unfold write_file. destruct (locate true fs p) as [loc|e]; [|intros [= <- <-]; eauto].
  destruct (node_at fs loc) as [[b| |t]|] eqn:Hn.
  all: try (case_bool_decide || destruct (may_add fs loc)).
  all: intros [= <- <-]; eauto 10.
Qed.
Lemma write_file_inside sb loc content fs r fs' :
  canonical fs loc -> within sb loc = true -> write_file (location_path loc) content fs = (r, fs') -> only_inside sb fs fs'.
Proof.
  intros Hc Hin Hw. destruct (write_file_changes _ _ _ _ _ Hw) as [[-> _]|(l & Hl & -> & _ & Hn)]; [done|].
  rewrite locate_location in Hl by auto. injection Hl as <-.
  apply only_inside_set; [done|]. destruct Hn as [->|[b ->]]; done.
Qed.
(** Removing a file removes the entry at the end of its canonical path. *)
Lemma entry_of_location fs loc n :
  canonical fs (loc ++ [n]) -> entry_of fs (os_parts (location_path (loc ++ [n]))) = Ok (loc ++ [n]).
Proof.
  intros Hc. pose proof Hc as (Hnames & Hd & _).
  assert (os_parts (location_path (loc ++ [n])) = "/" :: loc ++ [n]) as ->.
  { destruct loc as [|m loc]; [by apply location_parts|]. cbn [app] in *. by apply location_parts. }
  unfold entry_of. change ("/" :: loc ++ [n]) with (("/" :: loc) ++ [n]). rewrite rev_app_distr. cbn [rev app].
  apply Forall_app in Hnames as [Hnames [Hn _]%Forall_cons]. pose proof (name_not_slash _ Hn).
  rewrite bool_decide_eq_false_2 by (destruct Hn as (? & ? & ? & ?); naive_solver).
  rewrite rev_app_distr, rev_involutive. cbn [rev app].
  assert (node_at fs loc = Some Node_Dir) as Hdir.
  { rewrite <- (take_app_length loc [n]). apply Hd. rewrite length_app. cbn. lia. }
  assert (walk false MAX_LINKS fs (fs_cwd fs) ("/" :: loc) = Ok loc) as ->.
  { transitivity (walk false MAX_LINKS fs [] loc); [reflexivity|]. apply (walk_names _ _ _ []); cbn; [|left; by rewrite Hdir].
    rewrite <- (take_app_length loc [n]). by apply canonical_take. }
  cbn. by rewrite Hdir.
Qed.
Lemma remove_file_inside sb loc fs r fs' :
  canonical fs loc -> within sb loc = true -> node_at fs loc <> Some Node_Dir ->
  remove_file (location_path loc) fs = (r, fs') -> only_inside sb fs fs'.
Proof.
  intros Hc Hin Hd. destruct loc as [|n loc _] using rev_ind; [done|].
  unfold remove_file. rewrite entry_of_location by done.
  destruct (node_at fs (loc ++ [n])) as [[| |]|] eqn:Hn; [| |destruct (may_add fs _)|]; try destruct (may_add fs _).
  all: intros [= <- <-]; auto.
  all: apply only_inside_remove; [done|]; by rewrite Hn.
Qed.

(** * Editing and deleting *)
Section Confined.
Context `{LineDiffs} `{TomlParser} `{PanicText}.

Lemma apply_edit_write resolved path content new_content had_crlf n fs r fs' :
  apply_edit resolved path content new_content had_crlf n fs = (r, fs') ->
  (fs' = fs /\ is_ok r = false)
  \/ write_file resolved (if had_crlf then str_replace nl crlf_text new_content else new_content) fs = (Ok tt, fs').
Proof.
  unfold apply_edit. destruct (_ && _); [intros [= <- <-]; auto|].
  unfold mbind, stm_bind, lift. destruct (if is_cargo_manifest resolved then _ else _); [|intros [= <- <-]; auto].
  unfold stm_map_err. destruct (write_file _ _ fs) as [[[]|e] fs1] eqn:Hw; cbn [map_err].
  - intros [= _ <-]. auto.
  - intros [= <- <-]. left. split; [|done]. by destruct (write_file_changes _ _ _ _ _ Hw) as [[-> _]|(? & _ & _ & ? & _)].
Qed.
(** An edit that reports an error, or panics, changed nothing; a successful one
    wrote the new text to the resolved file. *)
Lemma fs_edit_cases sb path old_text new_text all fs r fs' :
  fs_edit sb path old_text new_text all fs = (r, fs') ->
  (fs' = fs /\ forall ok, r <> Some (Ok ok))
  \/ exists edit new_content n,
       validate_edit_input fs sb path old_text new_text = Ok edit
       /\ find_match_in_content (ve_content edit) (ve_old_text_norm edit) (ve_new_text_norm edit) all
          = Some (Ok (new_content, n))
       /\ write_file (ve_resolved edit)
            (if ve_had_crlf edit then str_replace nl crlf_text new_content else new_content) fs = (Ok tt, fs').
Proof.
  unfold fs_edit. destruct (_ ← reject_elided_edit_placeholder _ _; _) as [edit|e] eqn:He; [|intros [= <- <-]; left; by split].
  apply result_bind_Ok in He as ([] & _ & He). apply result_bind_Ok in He as ([] & _ & He).
  destruct (find_match_in_content _ _ _ _) as [[[new_content n]|e]|] eqn:Hf; [|intros [= <- <-]; left; by split..].
  destruct (apply_edit _ _ _ _ _ _ fs) as [r' fs1] eqn:Ha. intros [= <- <-].
  apply apply_edit_write in Ha as [[-> Hr]|Hw]; [left|right; eauto 10].
  split; [done|]. intros ok [= ->]. done.
Qed.
Lemma validate_edit_location fs sb path old_text new_text edit :
  fs_ok fs -> validate_edit_input fs sb path old_text new_text = Ok edit ->
  exists loc b, ve_resolved edit = location_path loc /\ canonical fs loc /\ within sb loc = true
    /\ node_at fs loc = Some (Node_File b)
    /\ exists raw, from_utf8 b = Some raw
       /\ ve_had_crlf edit = contains crlf_text raw
       /\ ve_content edit = (if contains crlf_text raw then str_replace crlf_text nl raw else raw)
       /\ ve_old_text_norm edit = str_replace crlf_text nl old_text
       /\ ve_new_text_norm edit = str_replace crlf_text nl new_text.
Proof.
  intros Hok He. unfold validate_edit_input in He. apply result_bind_Ok in He as (q & Hq & He).
  destruct (resolve_existing_location _ _ _ _ Hok Hq) as (loc & n & -> & Hc & Hn & Hin).
  pose proof (metadata_location _ _ _ Hc Hn) as Hm.
  unfold path_is_file, read_to_string in He. rewrite Hm in He. cbn [negb mbind result_bind] in He.
  destruct n as [b| |]; [|done..]. cbn [negb] in He.
  destruct (from_utf8 b) as [raw|] eqn:Hu; [|done]. cbn in He. injection He as <-.
  exists loc, b. split_and!; try done. exists raw. split_and!; done.
Qed.

Lemma fs_edit_inside sb path old_text new_text all fs r fs' :
  fs_ok fs -> fs_edit sb path old_text new_text all fs = (r, fs') -> only_inside sb fs fs'.
Proof.
  intros Hok He. destruct (fs_edit_cases _ _ _ _ _ _ _ _ He) as [[-> _]|(edit & new & n & Hv & _ & Hw)]; [done|].
  destruct (validate_edit_location _ _ _ _ _ _ Hok Hv) as (loc & b & Hr & Hc & Hin & _). rewrite Hr in Hw.
  by eapply write_file_inside.
Qed.
Lemma fs_delete_inside sb path fs r fs' :
  fs_ok fs -> fs_delete sb path fs = (r, fs') -> only_inside sb fs fs'.
Proof.
  intros Hok. unfold fs_delete, mbind, stm_bind, reads, gets, fails.
  destruct (resolve_existing fs sb path) as [q|e] eqn:Hq; [|by intros [= <- <-]].
  unfold id.
  destruct (resolve_existing_location _ _ _ _ Hok Hq) as (loc & n & -> & Hc & Hn & Hin).
  unfold path_is_file. rewrite (metadata_location _ _ _ Hc Hn).
  destruct n as [b| |]; [|by intros [= <- <-]..]. cbn [negb]. unfold stm_map_err.
  destruct (remove_file (location_path loc) fs) as [r' fs1] eqn:Hr.
  assert (only_inside sb fs fs1) by (eapply remove_file_inside; [done|done|by rewrite Hn|done]).
  destruct r'; cbn; by intros [= <- <-].
Qed.

(** C13: Editing and deleting never reach outside the sandbox, whatever links the
    file system holds and whatever path is given: every place that is not under an
    allowed root is as it was, also when the tool reports an error. *)
Theorem edit_and_delete_stay_inside sb args fs :
  fs_ok fs ->
  only_inside sb fs (FsEditTool_execute sb args fs).2 /\ only_inside sb fs (FsDeleteTool_execute sb args fs).2.
Proof.
  intros Hok. split.
  - unfold FsEditTool_execute. repeat (destruct (has_redacted_field_marker _ _); [done|]).
    destruct (path ← _; _) as [[[path old] new]|]; [|done].
    destruct (fs_edit _ _ _ _ _ fs) as [r fs'] eqn:He. by eapply fs_edit_inside.
  - unfold FsDeleteTool_execute, mbind, stm_bind, lift. destruct (str_arg args "path") as [path|]; [|done].
    destruct (fs_delete sb path fs) as [r fs'] eqn:He. by eapply fs_delete_inside.
Qed.
End Confined.

(** * Writing *)

(** Where no place on the way is a link, the path leads to its own location. *)
Lemma walk_no_links create links fs base ns loc :
  Forall is_name ns ->
  (forall k, not_link fs (base ++ take k ns)) ->
  walk create links fs base ns = Ok loc -> loc = base ++ ns.
Proof.
  revert base. induction ns as [|n ns IH]; intros base Hn Hl.
  { rewrite app_nil_r. destruct links; by intros [= <-]. }
  apply Forall_cons in Hn as [Hn Hns].
  assert (not_link fs (base ++ [n])) as Hl1 by (apply (Hl 1)).
  assert (forall k, not_link fs ((base ++ [n]) ++ take k ns)) as Hl' by (intros k; rewrite <- app_assoc; apply (Hl (S k))).
  intros Hw. assert (walk create links fs (base ++ [n]) ns = Ok loc \/ (ns = [] /\ loc = base ++ [n])) as [Hw'|[-> ->]].
  { pose proof (name_not_slash _ Hn). destruct Hn as (? & ? & ? & _). unfold not_link in Hl1.
    destruct links; cbn in Hw; rewrite !bool_decide_eq_false_2 in Hw by done.
    all: destruct (node_at fs base) as [[]|]; try done.
    all: destruct (node_at fs (base ++ [n])) as [[| |t]|]; try done; auto.
    all: destruct (create && _) eqn:E; [|done].
    all: apply andb_true_iff in E as [_ E%bool_decide_eq_true]; injection Hw as <-; auto. }
  - rewrite (IH _ Hns Hl' Hw'). by rewrite <- app_assoc.
  - done.
Qed.
Lemma locate_no_links create fs ns loc :
  Forall is_name ns -> (forall k, not_link fs (take k ns)) -> locate create fs (location_path ns) = Ok loc -> loc = ns.
Proof.
  intros Hn Hl. unfold locate. rewrite bool_decide_eq_false_2 by by apply location_path_nonempty.
  destruct ns as [|n ns]; [by intros [= <-]|]. rewrite location_parts by done. intros Hw.
  exact (walk_no_links create MAX_LINKS fs [] (n :: ns) loc Hn Hl Hw).
Qed.
Lemma entry_no_links fs ns n loc :
  Forall is_name (ns ++ [n]) -> (forall k, not_link fs (take k (ns ++ [n]))) ->
  entry_of fs (os_parts (location_path (ns ++ [n]))) = Ok loc -> loc = ns ++ [n].
Proof.
  intros Hn Hl.
  assert (os_parts (location_path (ns ++ [n])) = "/" :: ns ++ [n]) as ->.
  { destruct ns as [|m ns]; [by apply location_parts|]. cbn [app] in *. by apply location_parts. }
  unfold entry_of. change ("/" :: ns ++ [n]) with (("/" :: ns) ++ [n]). rewrite rev_app_distr. cbn [rev app].
  case_bool_decide; [done|]. rewrite rev_app_distr, rev_involutive. cbn [rev app].
  destruct (walk false MAX_LINKS fs (fs_cwd fs) ("/" :: ns)) as [d|] eqn:Hw; [|done]. cbn [mbind result_bind].
  assert (d = ns) as ->.
  { apply Forall_app in Hn as [Hn _]. apply (walk_no_links false MAX_LINKS fs [] ns d Hn); [|exact Hw].
    intros k. cbn. specialize (Hl (min k (length ns))).
    rewrite take_app_le in Hl by lia. destruct (decide (k <= length ns)); [by rewrite Nat.min_l in Hl by lia|].
    rewrite Nat.min_r, firstn_all in Hl by lia. by rewrite take_ge by lia. }
  destruct (node_at fs ns) as [[]|]; try done. by intros [= <-].
Qed.

(** The change creating directories makes: missing places on the way become
    directories. *)
Definition only_new_dirs (ns : list string) (fs fs' : FileSystem) : Prop :=
  forall loc, node_at fs' loc = node_at fs loc
    \/ (node_at fs loc = None /\ node_at fs' loc = Some Node_Dir /\ exists k, loc = take k ns).
Lemma only_new_dirs_refl ns fs : only_new_dirs ns fs fs.
Proof. intros loc. by left. Qed.
Lemma only_new_dirs_trans ns fs1 fs2 fs3 : only_new_dirs ns fs1 fs2 -> only_new_dirs ns fs2 fs3 -> only_new_dirs ns fs1 fs3.
Proof.
  intros H1 H2 loc. destruct (H1 loc) as [E1|(N1 & D1 & K1)], (H2 loc) as [E2|(N2 & D2 & K2)]; rewrite ?E1, ?E2 in *; auto.
Qed.
Lemma only_new_dirs_no_links ns fs fs' :
  only_new_dirs ns fs fs' -> (forall k, not_link fs (take k ns)) -> forall k, not_link fs' (take k ns).
Proof.
  intros H Hl k. specialize (Hl k). unfold not_link in *. destruct (H (take k ns)) as [->|(_ & -> & _)]; done.
Qed.
Lemma location_path_trim ns n :
  Forall is_name (ns ++ [n]) ->
  trim_end_matches (fun c => bool_decide (c = "/"%char)) (location_path (ns ++ [n])) = location_path (ns ++ [n]).
Proof.
  intros H. assert (forall s, s <> "" -> ends_with_slash s = false ->
    trim_end_matches (fun c => bool_decide (c = "/"%char)) s = s) as Ht.
  { induction s as [|c s IH]; [done|]. intros _. cbn. destruct s as [|d s].
    - intros E. cbn. by rewrite E.
    - intros E. rewrite IH by done. done. }
  apply Ht; [by apply location_path_nonempty|]. rewrite location_path_eq by done.
  destruct (ns ++ [n]) as [|m ms] eqn:E; [by destruct ns|]. destruct (str_join_ends m ms H). by rewrite ends_with_slash_app.
Qed.
Lemma create_dir_changes ns fs r fs' :
  Forall is_name ns -> (forall k, not_link fs (take k ns)) ->
  create_dir (location_path ns) fs = (r, fs') -> only_new_dirs ns fs fs'.
Proof.
  intros Hn Hl. destruct ns as [|n ns _] using rev_ind.
  { cbn. intros [= <- <-]. apply only_new_dirs_refl. }
  unfold create_dir. cbv zeta. rewrite location_path_trim by done.
  rewrite (bool_decide_eq_false_2 (_ = "")) by by apply location_path_nonempty.
  destruct (entry_of fs _) as [loc|[]] eqn:He; try (intros [= <- <-]; apply only_new_dirs_refl).
  apply entry_no_links in He as ->; [|done..].
  destruct (node_at fs (ns ++ [n])) eqn:Hnode; [intros [= <- <-]; apply only_new_dirs_refl|].
  destruct (may_add _ _); intros [= <- <-]; [|apply only_new_dirs_refl].
  intros loc. rewrite node_at_set by (by destruct ns). case_bool_decide as E; [|by left]. subst.
  right. split_and!; [done..|]. exists (length (ns ++ [n])). by rewrite firstn_all.
Qed.
Lemma path_parent_location ns n :
  Forall is_name (ns ++ [n]) -> path_parent (location_path (ns ++ [n])) = Some (location_path ns).
Proof.
  intros H. unfold path_parent. rewrite location_components by done.
  change ("/" :: ns ++ [n]) with (("/" :: ns) ++ [n]). rewrite rev_app_distr. cbn [rev app].
  apply Forall_app in H as [_ [H _]%Forall_cons]. rewrite bool_decide_eq_false_2 by by apply name_not_slash.
  rewrite rev_app_distr, rev_involutive. done.
Qed.
Lemma create_dir_all_changes fuel ns fs r fs' :
  Forall is_name ns -> (forall k, not_link fs (take k ns)) ->
  create_dir_all_from fuel (location_path ns) fs = (r, fs') -> only_new_dirs ns fs fs'.
Proof.
  revert ns fs r fs'. induction fuel as [|fuel IH]; intros ns fs r fs' Hn Hl; cbn -[create_dir location_path].
  all: rewrite bool_decide_eq_false_2 by by apply location_path_nonempty.
  all: destruct (create_dir (location_path ns) fs) as [[[]|e] fs1] eqn:Hc;
       pose proof (create_dir_changes _ _ _ _ Hn Hl Hc) as Hch.
  - by intros [= <- <-].
  - destruct e; try (destruct (path_is_dir fs1 _)); by intros [= <- <-].
  - by intros [= <- <-].
  - destruct e; try (by destruct (path_is_dir fs1 _); intros [= <- <-]).
    destruct ns as [|n ns _] using rev_ind; [by intros [= <- <-]|].
    rewrite path_parent_location by done.
    assert (forall l l', only_new_dirs ns l l' -> only_new_dirs (ns ++ [n]) l l') as Hw.
    { intros l l' Hd loc. destruct (Hd loc) as [->|(? & ? & k & ->)]; [by left|]. right. split_and!; [done..|].
      destruct (decide (k <= length ns)); [exists k; by rewrite take_app_le|].
      exists (length ns). by rewrite take_app_length, take_ge by lia. }
    pose proof (only_new_dirs_no_links _ _ _ Hch Hl) as Hl1.
    destruct (create_dir_all_from fuel (location_path ns) fs1) as [r2 fs2] eqn:Hr2.
    assert (only_new_dirs (ns ++ [n]) fs1 fs2) as H2.
    { apply Hw. apply (IH ns fs1 r2 fs2); [by apply Forall_app in Hn as [? _]| |done].
      intros k. destruct (decide (k <= length ns)).
      - specialize (Hl1 k). by rewrite take_app_le in Hl1 by lia.
      - specialize (Hl1 (length ns)). rewrite take_app_length in Hl1. by rewrite take_ge by lia. }
    pose proof (only_new_dirs_trans _ _ _ _ Hch H2) as H02.
    destruct r2 as [[]|e2]; [|by intros [= <- <-]].
    destruct (create_dir (location_path (ns ++ [n])) fs2) as [r3 fs3] eqn:Hr3.
    apply create_dir_changes in Hr3; [|done|by eapply only_new_dirs_no_links].
    pose proof (only_new_dirs_trans _ _ _ _ H02 Hr3).
    destruct r3 as [[]|e3]; [|destruct (path_is_dir fs3 _)]; by intros [= <- <-].
Qed.

(** The sandbox as it was made: every root is a directory that no link leads to. *)
Definition sandbox_live (fs : FileSystem) (sb : Sandbox) : Prop :=
  Forall (fun r => exists names, r = location_path names /\ canonical fs names /\ node_at fs names = Some Node_Dir)
    (sb_root sb :: sb_extra_roots sb).
Definition no_links_inside (fs : FileSystem) (sb : Sandbox) : Prop :=
  forall loc, within sb loc = true -> not_link fs loc.

Lemma prefix_app p l : is_prefix_of p l = true -> exists r, l = p ++ r.
Proof.
  revert l. induction p as [|a p IH]; intros l; [by exists l|]. destruct l as [|b l]; [done|]. cbn.
  intros [->%bool_decide_eq_true [r ->]%IH]%andb_true_iff. by exists r.
Qed.
Lemma within_root sb loc :
  within sb loc = true -> sandbox_ok sb ->
  exists names rest, location_path names ∈ sb_root sb :: sb_extra_roots sb /\ Forall is_name names /\ loc = names ++ rest
    /\ forall rest', within sb (names ++ rest') = true.
Proof.
  intros (r & Hin & Hp)%existsb_exists Hok. apply list_elem_of_In in Hin.
  unfold sandbox_ok in Hok. rewrite Forall_forall in Hok. destruct (Hok r Hin) as (names & -> & Hn).
  rewrite location_components in Hp by done. apply prefix_app in Hp as [rest [= ->]].
  exists names, rest. split_and!; [done..|]. intros rest'. apply existsb_exists. exists (location_path names).
  split; [by apply list_elem_of_In|]. rewrite location_components by done. exact (prefix_refl ("/" :: names) rest').
Qed.
Lemma live_ok fs sb : sandbox_live fs sb -> sandbox_ok sb.
Proof. intros H. eapply Forall_impl; [exact H|]. intros r (names & -> & (? & _) & _). eauto. Qed.
(** Of the places on the way to one inside, those above the root are directories and
    the others are inside too. *)
Lemma take_within fs sb loc k :
  sandbox_live fs sb -> within sb loc = true ->
  (canonical fs (take k loc) /\ node_at fs (take k loc) = Some Node_Dir) \/ within sb (take k loc) = true.
Proof.
  intros Hlive Hin. destruct (within_root _ _ Hin (live_ok _ _ Hlive)) as (names & rest & Hr & Hn & -> & Hw).
  unfold sandbox_live in Hlive. rewrite Forall_forall in Hlive. destruct (Hlive _ Hr) as (names' & Heq & Hc & Hd).
  assert (names = names') as <-.
  { pose proof Hc as (Hn' & _). apply (f_equal path_components) in Heq. rewrite !location_components in Heq by done.
    by injection Heq. }
  destruct (decide (k <= length names)) as [Hk|Hk].
  - left. rewrite take_app_le by done. split; [by apply canonical_take|].
    destruct (decide (k = length names)) as [->|]; [by rewrite firstn_all|]. destruct Hc as (_ & Hdirs & _). apply Hdirs. lia.
  - right. rewrite take_app_ge by lia. apply Hw.
Qed.
Lemma way_no_links fs sb loc :
  sandbox_live fs sb -> no_links_inside fs sb -> within sb loc = true -> forall k, not_link fs (take k loc).
Proof. intros Hlive Hl Hin k. destruct (take_within fs sb loc k Hlive Hin) as [[(_ & _ & ?) _]|?]; [done|by apply Hl]. Qed.
Lemma new_dirs_inside fs sb ns fs' :
  sandbox_live fs sb -> (exists rest, within sb (ns ++ rest) = true) -> only_new_dirs ns fs fs' -> only_inside sb fs fs'.
Proof.
  intros Hlive [rest Hin] Hd loc Hout. destruct (Hd loc) as [->|(Hnone & _ & k & ->)]; [done|].
  assert (take k ns = take (min k (length ns)) (ns ++ rest)) as Htk.
  { rewrite take_app_le by lia. destruct (decide (k <= length ns)); [by rewrite Nat.min_l by lia|].
    by rewrite Nat.min_r, firstn_all, take_ge by lia. }
  destruct (take_within fs sb (ns ++ rest) (min k (length ns)) Hlive Hin) as [[_ Hdir]|Hw]; rewrite <- Htk in *; congruence.
Qed.

(** ** What a write leaves *)
Lemma walk_after_write create links fs loc b cur todo :
  node_at fs loc <> Some Node_Dir -> (forall t, node_at fs loc <> Some (Node_Symlink t)) ->
  walk true links fs cur todo = Ok loc ->
  walk create links (set_node loc (Node_File b) fs) cur todo = Ok loc.
Proof.
  intros Hd Hs. assert (loc <> []) as Hloc by (intros ->; by apply Hd).
  revert cur todo. induction links as [|links IHl]; intros cur todo; revert cur;
    (induction todo as [|c todo IH]; intros cur Hw; [exact Hw|]); cbn in Hw |- *;
    (case_bool_decide; [by apply IH|]);
    rewrite !node_at_set by done;
    (destruct (node_at fs cur) as [[| |]|] eqn:Hcur; [done| |done|done]);
    (rewrite (bool_decide_eq_false_2 (cur = loc)) by congruence);
    (case_bool_decide; [by apply IH|]);
    (case_bool_decide; [by apply IH|]);
    destruct (decide (cur ++ [c] = loc)) as [<-|Hne];
    [rewrite bool_decide_eq_true_2 by done|rewrite bool_decide_eq_false_2 by done
    |rewrite bool_decide_eq_true_2 by done|rewrite bool_decide_eq_false_2 by done].
  all: destruct (node_at fs (cur ++ [c])) as [[| |t]|] eqn:Hn; try done; try (by apply IH); try (by apply IHl);
       try (by destruct (Hs t)).
  all: destruct (bool_decide (todo = [])) eqn:E; cbn in Hw; [|done].
  all: apply bool_decide_eq_true in E; subst; try injection Hw as Hw; try done.
Qed.
Lemma written_file p content fs fs' :
  write_file p content fs = (Ok tt, fs') ->
  exists loc, locate true fs p = Ok loc /\ metadata fs' p = Ok (loc, Node_File (string_to_bytes content)).
Proof.
  intros Hw. destruct (write_file_changes _ _ _ _ _ Hw) as [[_ [e He]]|(loc & Hl & -> & _ & Hn)]; [done|].
  exists loc. split; [done|].
  assert (loc <> []) as Hne by (intros ->; destruct Hn as [Hn|[b Hn]]; discriminate Hn).
  unfold metadata. assert (locate false (set_node loc (Node_File (string_to_bytes content)) fs) p = Ok loc) as ->.
  { unfold locate in *. case_bool_decide; [done|]. cbn [fs_cwd set_node]. apply walk_after_write; [..|done].
    - by destruct Hn as [->|[b ->]].
    - intros t. by destruct Hn as [->|[b ->]]. }
  cbn -[set_node node_at]. rewrite node_at_set by done. by rewrite bool_decide_eq_true_2.
Qed.

Section Writes.
Context `{LineDiffs} `{TomlParser} `{DirLen}.

Lemma ensure_parent_changes resolved fs r fs1 :
  ensure_parent resolved fs = (r, fs1) ->
  fs1 = fs \/ exists parent r', path_parent resolved = Some parent /\ create_dir_all parent fs = (r', fs1).
Proof.
  unfold ensure_parent, stm_map_err. destruct (path_parent resolved) as [parent|]; [|by intros [= <- <-]; left].
  destruct (path_exists fs parent); [by intros [= <- <-]; left|].
  destruct (create_dir_all parent fs) as [r' fs2] eqn:E. intros [= <- <-]. eauto.
Qed.
(** A write that fails leaves at most new directories; one that gets as far as
    writing succeeds: what is on disk has the size that was written. *)
Lemma fs_write_cases sb path content fs r fs' :
  fs_write sb path content fs = (r, fs') ->
  (fs' = fs /\ is_ok r = false)
  \/ exists resolved r1 fs1, resolve_new sb path = Ok resolved /\ ensure_parent resolved fs = (r1, fs1)
     /\ ((fs' = fs1 /\ is_ok r = false)
         \/ (write_file resolved content fs1 = (Ok tt, fs') /\ is_ok r = true)).
Proof.
  unfold fs_write, fails. destruct (is_elided_write_placeholder content); [intros [= <- <-]; auto|].
  unfold mbind, stm_bind, lift, gets, id. destruct (resolve_new sb path) as [resolved|e]; [|intros [= <- <-]; auto].
  destruct (_ && _); [intros [= <- <-]; auto|].
  destruct (ensure_parent resolved fs) as [[[]|e] fs1] eqn:Hp; [|intros [= <- <-]; right; eauto 10].
  destruct (if is_cargo_manifest resolved then _ else _); [|intros [= <- <-]; right; eauto 10].
  unfold stm_map_err. destruct (write_file resolved content fs1) as [[[]|e] fs2] eqn:Hw; cbn [map_err].
  - destruct (written_file _ _ _ _ Hw) as (loc & _ & Hm).
    assert (metadata_len fs2 resolved = str_len content) as Hlen.
    { unfold metadata_len, str_len. by rewrite Hm, string_to_bytes_length. }
    rewrite Hlen, Z.eqb_refl. cbn [negb]. intros [= <- <-]. right. eauto 10.
  - destruct (write_file_changes _ _ _ _ _ Hw) as [[-> _]|(? & _ & _ & ? & _)]; [|done].
    intros [= <- <-]. right. eauto 10.
Qed.

(** What was written is what is read: after a successful write the path leads to
    a file that holds exactly the content, and the check of its size on disk never
    fails. *)
Theorem write_reads_back sb path content fs r fs' :
  fs_write sb path content fs = (Ok r, fs') -> from_utf8 (string_to_bytes content) = Some content ->
  exists resolved, resolve_new sb path = Ok resolved /\ read_to_string fs' resolved = Ok content
    /\ metadata_len fs' resolved = str_len content.
Proof.
  intros Hw Hu. destruct (fs_write_cases _ _ _ _ _ _ Hw) as [[_ Hr]|(resolved & r1 & fs1 & Hres & _ & [[_ Hr]|[Hwr _]])]; [done..|].
  exists resolved. split; [done|]. destruct (written_file _ _ _ _ Hwr) as (loc & _ & Hm).
  unfold read_to_string, metadata_len, str_len. rewrite Hm, string_to_bytes_length. cbn. by rewrite Hu.
Qed.

Lemma fs_write_inside sb path content fs r fs' :
  sandbox_live fs sb -> no_links_inside fs sb ->
  (forall q, resolve_new sb path = Ok q -> starts_with unc_prefix q = false) ->
  fs_write sb path content fs = (r, fs') -> only_inside sb fs fs'.
Proof.
  intros Hlive Hl Hunc Hw.
  destruct (fs_write_cases _ _ _ _ _ _ Hw) as [[-> _]|(resolved & r1 & fs1 & Hres & Hp & Hcase)]; [done|].
  destruct (resolve_lexical sb path resolved (live_ok _ _ Hlive) Hres (Hunc _ Hres)) as (loc & -> & Hn & Hin).
  pose proof (way_no_links _ _ _ Hlive Hl Hin) as Hway.
  assert (only_new_dirs loc fs fs1 /\ only_inside sb fs fs1) as [Hnew Hin1].
  { destruct (ensure_parent_changes _ _ _ _ Hp) as [->|(parent & r' & Hpar & Hc)]; [split; [apply only_new_dirs_refl|done]|].
    destruct loc as [|n loc _] using rev_ind; [discriminate Hpar|].
    rewrite path_parent_location in Hpar by done. injection Hpar as <-.
    assert (only_new_dirs loc fs fs1) as Hd.
    { eapply create_dir_all_changes; [by apply Forall_app in Hn as [? _]| |exact Hc].
      intros k. destruct (decide (k <= length loc)).
      - specialize (Hway k). by rewrite take_app_le in Hway by lia.
      - specialize (Hway (length loc)). rewrite take_app_length in Hway. by rewrite take_ge by lia. }
    split; [|eapply new_dirs_inside; eauto].
    intros l. destruct (Hd l) as [->|(? & ? & k & ->)]; [by left|]. right. split_and!; [done..|].
    exists (min k (length loc)). rewrite take_app_le by lia. destruct (decide (k <= length loc)); [by rewrite Nat.min_l by lia|].
    by rewrite Nat.min_r, firstn_all, take_ge by lia. }
  destruct Hcase as [[-> _]|[Hwr _]]; [done|]. eapply only_inside_trans; [exact Hin1|].
  destruct (write_file_changes _ _ _ _ _ Hwr) as [[-> _]|(l & Hloc & -> & _ & Hnode)]; [done|].
  apply locate_no_links in Hloc as ->; [|done|by eapply only_new_dirs_no_links].
  apply only_inside_set; [done|]. by destruct Hnode as [->|[b ->]].
Qed.

(** C14: Writing stays inside the sandbox as long as no place inside it is a link and
    the resolved path does not start with the Windows prefix: only places under an
    allowed root change, the directories that are created included. *)
Theorem write_stays_inside sb args fs :
  sandbox_live fs sb -> no_links_inside fs sb ->
  (forall path q, json_get_str "path" args = Some path -> resolve_new sb path = Ok q -> starts_with unc_prefix q = false) ->
  only_inside sb fs (FsWriteTool_execute sb args fs).2.
Proof.
  intros Hlive Hl Hunc. unfold FsWriteTool_execute, fails. destruct (has_redacted_field_marker _ _); [done|].
  unfold mbind, stm_bind, lift, str_arg. destruct (json_get_str "path" args) as [path|]; [|done]. cbn [ok_or].
  destruct (json_get_str "content" args) as [content|]; [|done]. cbn [ok_or].
  destruct (fs_write sb path content fs) as [r fs'] eqn:Hw. eapply fs_write_inside; eauto.
Qed.
End Writes.
