(* ===== verification/FileEditProps.v ===== *)
(** What an edit does to the text of a file, that redacted history is refused by the
    tools that would write it, and that the scan of a Cargo manifest finds exactly
    the repeated dependencies. *)
From S2P Require Import Prelude Values CoreTypes Utf8 Text Compaction FileSystem Sandbox.
From S2P Require Import FsTools FsToolsProps.
From stdpp Require Import list.
From Stdlib Require Import Ascii Strings.Byte.

(** * Lines and offsets *)
Lemma str_take_app a b : str_take (String.length a) (a +++ b) = a.
Proof. induction a as [|c a IH]; [by destruct b|]. rewrite string_app_cons. cbn. by rewrite IH. Qed.
Lemma str_drop_app a b : str_drop (String.length a) (a +++ b) = b.
Proof. induction a as [|c a IH]; [by destruct b|]. rewrite string_app_cons. cbn. by rewrite IH. Qed.
(** Lines that were closed by a line end. *)
Definition closed_lines (ls : list string) : string := foldr (fun l acc => l +++ nl +++ acc) "" ls.
Lemma closed_lines_length ls n : String.length (closed_lines (take n ls)) = line_offset ls n.
Proof.
  unfold line_offset. revert n. induction ls as [|l ls IH]; intros [|n]; [done..|]. cbn [take closed_lines foldr].
  rewrite !string_app_length. change (foldr _ "" (take n ls)) with (closed_lines (take n ls)). rewrite IH. cbn. lia.
Qed.
Lemma join_closed pre rest : rest <> [] -> str_join nl (pre ++ rest) = closed_lines pre +++ str_join nl rest.
Proof.
  intros Hr. induction pre as [|l pre IH]; [done|]. cbn [app closed_lines foldr]. rewrite join_cons by (by destruct pre).
  rewrite IH. change (foldr _ "" pre) with (closed_lines pre). by rewrite !string_app_assoc.
Qed.
Lemma join_window pre w post :
  w <> [] -> str_join nl (pre ++ w ++ post)
    = closed_lines pre +++ str_join nl w +++ (if decide (post = []) then "" else nl +++ str_join nl post).
Proof.
  intros Hw. rewrite join_closed by (by destruct w). f_equal. case_decide as E; [by rewrite E, app_nil_r, string_app_nil_r|].
  destruct w as [|l w]; [done|]. clear Hw. revert l. induction w as [|m w IH]; intros l.
  - cbn [app]. by rewrite join_cons.
  - cbn [app]. rewrite (join_cons _ l (m :: w ++ post)), (join_cons _ l (m :: w)) by done.
    rewrite !string_app_assoc. do 2 f_equal. apply IH.
Qed.
(** Without carriage returns before line ends the lines are the pieces between line
    ends, a last empty one aside. *)
Lemma strip_cr_keep s : str_ends_with (String carriage_return "") s = false -> strip_cr s = s.
Proof.
  induction s as [|c s IH]; [done|]. cbn [str_ends_with strip_cr]. intros [E1 E2]%orb_false_iff.
  destruct s as [|d s].
  - rewrite bool_decide_eq_false_2; [done|]. apply bool_decide_eq_false in E1. congruence.
  - rewrite IH by done. done.
Qed.
Lemma contains_app_r p a b : contains p b = true -> contains p (a +++ b) = true.
Proof. induction a as [|c a IH]; [done|]. intros H. rewrite string_app_cons. cbn [contains]. by rewrite IH, orb_true_r. Qed.
Lemma ends_with_split p s : str_ends_with p s = true -> exists a, s = a +++ p.
Proof.
  induction s as [|c s IH]; cbn [str_ends_with].
  - rewrite orb_false_r. intros <-%bool_decide_eq_true. by exists "".
  - intros [<-%bool_decide_eq_true|[a ->]%IH]%orb_true_iff; [by exists ""|]. by exists (String c a).
Qed.
Lemma contains_here p s : contains p (p +++ s) = true.
Proof.
  destruct (p +++ s) eqn:E; cbn [contains]; unfold starts_with; rewrite <- E, strip_prefix_self.
  all: by rewrite bool_decide_eq_true_2 by eauto.
Qed.
Lemma no_crlf_pieces l ls rest :
  contains crlf_text (str_join nl (l ++ ls :: rest)) = false -> rest <> [] -> strip_cr ls = ls.
Proof.
  intros Hc Hr. apply strip_cr_keep. apply not_true_iff_false. intros (a & ->)%ends_with_split.
  apply not_true_iff_false in Hc. apply Hc. rewrite join_closed by done. apply contains_app_r.
  rewrite join_cons by done. rewrite string_app_assoc. apply contains_app_r.
  change (contains crlf_text (crlf_text +++ str_join nl rest) = true). apply contains_here.
Qed.
Lemma lines_no_crlf s :
  contains crlf_text s = false -> exists tail, split_on newline s = lines s ++ tail /\ (tail = [] \/ tail = [""]).
Proof.
  intros Hc. unfold lines. cbv zeta. set (parts := split_on newline s). set (n := length parts - 1).
  assert (str_join nl parts = s) as Hj by apply join_split.
  assert (strip_cr <$> take n parts = take n parts) as ->.
  { apply list_eq_Forall2. apply Forall2_fmap_l, Forall_Forall2_diag, Forall_forall. intros l Hl.
    apply list_elem_of_split in Hl as (l1 & l2 & Hsplit).
    apply (no_crlf_pieces l1 l (l2 ++ drop n parts)).
    - change (l :: l2 ++ drop n parts) with ((l :: l2) ++ drop n parts). rewrite app_assoc, <- Hsplit, take_drop. by rewrite Hj.
    - intros [_ Hd]%app_eq_nil. apply (f_equal length) in Hd. rewrite length_drop in Hd. cbn in Hd.
      assert (length parts <> 0) by (intros E%nil_length_inv; by apply (split_on_nonempty newline s)). unfold n in Hd. lia. }
  rewrite take_drop. unfold drop_last_empty. destruct (last parts) as [[|c w]|] eqn:Hlast.
  - exists [""]. split; [|by right]. apply last_Some in Hlast as [ps ->]. rewrite length_app. cbn [length].
    replace (length ps + 1 - 1) with (length ps) by lia. by rewrite take_app_length.
  - exists []. split; [by rewrite app_nil_r|by left].
  - exists []. split; [by rewrite app_nil_r|by left].
Qed.

(** * The text after an edit *)

(** Text with bare line feeds, as the edit works on it, and back. *)
Definition lf_text (raw : string) : string := if contains crlf_text raw then str_replace crlf_text nl raw else raw.
Definition restore_line_ends (raw text : string) : string :=
  if contains crlf_text raw then str_replace nl crlf_text text else text.

(** Replacing the line feeds goes character by character, so it goes part by part. *)
Lemma pieces_from_fuel p s f f' : p <> "" -> String.length s <= f -> f <= f' -> pieces_from f p s = pieces_from f' p s.
Proof.
  intros Hp. assert (0 < String.length p) as Hl by (destruct p; [done|cbn; lia]).
  revert s f'. induction f as [|f IH]; intros s [|f'] Hs Hf; try done; try lia; cbn [pieces_from].
  - destruct (str_split_once p s) as [[a b]|] eqn:E; [|done]. apply split_once_length in E. lia.
  - destruct (str_split_once p s) as [[a b]|] eqn:E; [|done]. apply split_once_length in E. f_equal. apply IH; lia.
Qed.
Lemma replace_nl_cons new c s : str_replace nl new (String c s) =
  if bool_decide (c = newline) then new +++ str_replace nl new s else String c (str_replace nl new s).
Proof.
  unfold str_replace, pieces. rewrite !bool_decide_eq_false_2 by done. cbn [String.length pieces_from str_split_once].
  assert (str_strip_prefix nl (String c s) = if bool_decide (c = newline) then Some s else None) as ->.
  { unfold nl. cbn. repeat case_bool_decide; naive_solver. }
  case_bool_decide.
  - destruct s; cbn [String.length pieces_from]; [by rewrite join_cons|].
    rewrite join_cons; [done|]. by destruct (str_split_once nl _) as [[? ?]|].
  - destruct (str_split_once nl s) as [[a b]|] eqn:E.
    + assert (pieces_from (String.length s) nl s = a :: pieces_from (String.length s) nl b) as ->;
      [|cbn [mbind option_bind]; destruct (pieces_from (String.length s) nl b); [done|rewrite (join_cons _ (String c a)), (join_cons _ a) by done; by rewrite string_app_cons]].
      apply split_once_length in E as Hl. cbn in Hl. destruct (String.length s) as [|n]; [lia|].
      transitivity (a :: pieces_from n nl b); [cbn [pieces_from]; by rewrite E|]. f_equal. apply pieces_from_fuel; [done|lia..].
    + cbn [mbind option_bind]. destruct s; cbn [String.length pieces_from]; [done|]. by rewrite E.
Qed.
Lemma replace_nl_app new a b : str_replace nl new (a +++ b) = str_replace nl new a +++ str_replace nl new b.
Proof.
  induction a as [|c a IH]; [done|]. rewrite string_app_cons, !replace_nl_cons, IH.
  case_bool_decide; [by rewrite string_app_assoc|done].
Qed.
Lemma restore_app raw a b : restore_line_ends raw (a +++ b) = restore_line_ends raw a +++ restore_line_ends raw b.
Proof. unfold restore_line_ends. destruct (contains _ _); [apply replace_nl_app|done]. Qed.
(** Texts whose lines all end the same way. *)
Definition line_ends_uniform (raw : string) : Prop := restore_line_ends raw (lf_text raw) = raw.
Lemma uniform_parts raw before middle after : line_ends_uniform raw -> lf_text raw = before +++ middle +++ after ->
  raw = restore_line_ends raw before +++ restore_line_ends raw middle +++ restore_line_ends raw after.
Proof. intros Hu Hr. unfold line_ends_uniform in Hu. rewrite Hr, !restore_app in Hu. by symmetry. Qed.

(** [middle] is the place an edit replaces: the only occurrence of the text, or the
    only run of lines that equals it up to the blanks around each line. *)
Inductive edit_place (content old before middle after : string) : Prop :=
  | place_exact :
      middle = old -> (old <> "" -> contains old after = false) ->
      (forall x y, content = x +++ old +++ y -> String.length before <= String.length x) ->
      edit_place content old before middle after
  | place_fuzzy start :
      contains old content = false ->
      before = closed_lines (take start (lines content)) ->
      middle = str_join nl (take (length (lines old)) (drop start (lines content))) ->
      (forall i, (i + length (lines old) <= length (lines content)
                  /\ trim <$> take (length (lines old)) (drop i (lines content)) = trim <$> lines old)
                 <-> i = start) ->
      edit_place content old before middle after.

Lemma pieces_from_single fuel p s :
  p <> "" -> String.length s <= fuel -> length (pieces_from fuel p s) = 1 -> contains p s = false.
Proof.
  intros Hp Hf Hl. apply split_once_none. destruct fuel as [|fuel]; cbn in Hl.
  - destruct s; [|cbn in Hf; lia]. destruct p; done.
  - destruct (str_split_once p s) as [[a b]|]; [|done]. cbn in Hl. destruct fuel; cbn in Hl; [done|].
    by destruct (str_split_once p b) as [[? ?]|].
Qed.
Lemma pieces_none p s : match_count p s = 0%Z -> p <> "" /\ contains p s = false.
Proof.
  unfold match_count, pieces. case_bool_decide as E.
  - cbn [length]. rewrite length_app. cbn. lia.
  - intros Hl. split; [done|]. eapply pieces_from_single; [done|reflexivity|lia].
Qed.
Lemma exact_place content old new :
  match_count old content = 1%Z ->
  exists before after, content = before +++ old +++ after
    /\ str_replacen1 old new content = before +++ new +++ after
    /\ edit_place content old before old after.
Proof.
  unfold match_count, pieces, str_replacen1. case_bool_decide as E.
  - cbn [length]. rewrite length_app, !length_fmap. cbn [length]. intros Hl. subst old.
    assert (chars content = []) as Hc by (apply nil_length_inv; lia).
    assert (content = "") as -> by (by rewrite <- (of_chars_chars content), Hc).
    exists "", "". split_and!; [done..|]. apply place_exact; [done|done|]. intros. cbn. lia.
  - destruct (String.length content) as [|n] eqn:Hn; cbn [pieces_from length]; [lia|].
    destruct (str_split_once old content) as [[a b]|] eqn:Hs; cbn [length]; [|lia]. intros Hl.
    pose proof (split_once_eq _ _ _ _ Hs). pose proof (split_once_length _ _ _ _ Hs).
    assert (String.length old <> 0) by (by destruct old).
    exists a, b. split_and!; [done..|]. apply place_exact; [done| |].
    + intros _. apply (pieces_from_single n); [done|lia|lia].
    + intros x y Hx. eapply split_once_leftmost; eauto.
Qed.
Lemma closed_lines_app a b : closed_lines (a ++ b) = closed_lines a +++ closed_lines b.
Proof.
  induction a as [|l a IH]; [done|]. cbn [app closed_lines foldr].
  change (foldr _ "" (a ++ b)) with (closed_lines (a ++ b)). rewrite IH. by rewrite !string_app_assoc.
Qed.
Lemma window_offset ls start k :
  k <> 0 -> start + k <= length ls ->
  line_offset ls (start + k - 1) + String.length (nth (start + k - 1) ls "")
  = String.length (closed_lines (take start ls)) + String.length (str_join nl (take k (drop start ls))).
Proof.
  intros Hk Hle. destruct k as [|k]; [done|]. replace (start + S k - 1) with (start + k) by lia.
  destruct (lookup_lt_is_Some_2 ls (start + k)) as [x Hx]; [lia|].
  assert (take (S k) (drop start ls) = take k (drop start ls) ++ [x]) as ->.
  { apply take_S_r. by rewrite lookup_drop. }
  rewrite join_closed by done. rewrite string_app_length, Nat.add_assoc, <- string_app_length, <- closed_lines_app.
  rewrite <- closed_lines_length, <- take_take_drop. f_equal.
  rewrite (nth_lookup_Some _ _ _ _ Hx). done.
Qed.
Lemma lines_match_spec ls needle i :
  lines_match ls needle i = true
  <-> i + length needle <= length ls /\ trim <$> take (length needle) (drop i ls) = needle.
Proof. unfold lines_match. by rewrite andb_true_iff, !bool_decide_eq_true. Qed.
Lemma line_matches_unique ls needle start :
  needle <> [] -> line_matches ls needle = [start] ->
  forall i, (i + length needle <= length ls /\ trim <$> take (length needle) (drop i ls) = needle) <-> i = start.
Proof.
  intros Hne Hm i. rewrite <- lines_match_spec. split.
  - intros Hi. assert (i ∈ line_matches ls needle) as Hin.
    { apply list_elem_of_In, filter_In. split; [|done]. apply in_seq. apply lines_match_spec in Hi as [Hi _].
      destruct needle; [done|]. cbn in Hi. lia. }
    rewrite Hm in Hin. by apply list_elem_of_singleton in Hin.
  - intros ->. assert (In start (line_matches ls needle)) as [_ ?]%filter_In by (rewrite Hm; by left). done.
Qed.
Lemma fuzzy_place content old s e :
  contains crlf_text content = false -> contains old content = false ->
  fuzzy_line_match content old = Ok (Some (s, e)) ->
  exists before middle after, content = before +++ middle +++ after
    /\ s = String.length before /\ e = String.length before + String.length middle
    /\ edit_place content old before middle after.
Proof.
  intros Hc Ho. unfold fuzzy_line_match. set (needle := trim <$> lines old). set (ls := lines content).
  destruct needle as [|n0 ns] eqn:Hneedle; [done|]. rewrite <- Hneedle.
  destruct (line_matches ls needle) as [|start [|? ?]] eqn:Hm; [done| |done]. intros [= <- <-].
  assert (needle <> []) as Hne by (by rewrite Hneedle).
  pose proof (line_matches_unique _ _ _ Hne Hm) as Hu. destruct (proj2 (Hu start) eq_refl) as [Hle Hw].
  assert (length needle = length (lines old)) as Hk by apply length_fmap.
  destruct (lines_no_crlf content Hc) as (tail & Hsplit & _). fold ls in Hsplit.
  set (k := length needle) in *. assert (k <> 0) as Hk0 by (unfold k; by rewrite Hneedle).
  assert (take k (drop start ls) <> []) as Hwne.
  { intros E. apply (f_equal length) in E. rewrite length_take, length_drop in E. cbn in E. lia. }
  assert (content = str_join nl (take start ls ++ take k (drop start ls) ++ (drop k (drop start ls) ++ tail))) as Heq.
  { rewrite (app_assoc (take k _)), take_drop, app_assoc, take_drop, <- Hsplit. symmetry. apply join_split. }
  rewrite join_window in Heq by done.
  eexists (closed_lines (take start ls)), (str_join nl (take k (drop start ls))), _. split_and!.
  - exact Heq.
  - symmetry. apply closed_lines_length.
  - by apply window_offset.
  - apply (place_fuzzy _ _ _ _ _ start); [done|done|by rewrite <- Hk|]. rewrite <- Hk. exact Hu.
Qed.

Section Edits.
Context `{LineDiffs} `{TomlParser}.

End Edits.

(** * Redacted history *)
(** A marker that is there already is an object, as compaction writes it. *)
Definition marker_is_object (source : list (string * json)) : Prop :=
  match fields_get "_redacted" source with Some (JObject _) | None => True | Some _ => False end.
Lemma fields_marker_seen args fields e field :
  json_get "_redacted" args = Some (redaction_fields (fields ++ [e])) -> json_get_str "field" e = Some field ->
  has_redacted_field_marker args field = true.
Proof.
  intros Hm He. unfold has_redacted_field_marker. rewrite Hm. cbn [mbind option_bind].
  assert (exists o, json_as_object (redaction_fields (fields ++ [e])) = Some o
            /\ fields_get "fields" o = Some (JArray (fields ++ [e]))) as (o & -> & ->) by (eexists; split; reflexivity).
  apply orb_true_iff. right. apply existsb_exists. exists e. split; [apply in_app_iff; right; by left|].
  by apply bool_decide_eq_true.
Qed.
Lemma entry_marker_seen args field n :
  json_get "_redacted" args = Some (redaction_entry field n) -> has_redacted_field_marker args field = true.
Proof.
  intros Hm. unfold has_redacted_field_marker. rewrite Hm. cbn [mbind option_bind].
  assert (exists o, json_as_object (redaction_entry field n) = Some o
            /\ fields_get "kind" o = Some (JString REDACTION_KIND)
            /\ fields_get "field" o = Some (JString field)) as (o & -> & -> & ->) by (eexists; split_and!; reflexivity).
  cbn [mbind option_bind json_as_str]. by rewrite !bool_decide_eq_true_2 by done.
Qed.
Lemma merged_marker_shape old field n :
  (forall v, old = Some v -> exists o, v = JObject o) ->
  merged_marker old field n = redaction_entry field n
  \/ exists l, merged_marker old field n = redaction_fields (l ++ [entry_without_kind field n]).
Proof.
  intros Ho. unfold merged_marker. destruct old as [v|]; [|by left]. destruct (Ho v eq_refl) as [existing ->].
  destruct (fields_get "fields" existing) as [[| | | |fields|]|];
    [..|right; by eexists| |];
    (destruct (fields_get "field" existing ≫= json_as_str) as [f|]; [|by left]);
    (destruct (fields_get "bytes" existing ≫= json_as_u64) as [size|]; [|by left]);
    right; by exists [entry_without_kind f size].
Qed.
Lemma marker_seen source field n :
  field <> "_redacted" -> marker_is_object source -> has_redacted_field_marker (mark (JObject source) field n) field = true.
Proof.
  intros Hf Hm.
  assert (json_get "_redacted" (mark (JObject source) field n) = Some (merged_marker (fields_get "_redacted" source) field n)) as Hg.
  { unfold json_get, mark, mark_fields. cbn [json_as_object mbind option_bind].
    rewrite fields_get_insert, fields_get_remove_ne by congruence. done. }
  destruct (merged_marker_shape (fields_get "_redacted" source) field n) as [Hs|[l Hs]].
  - intros v Hv. unfold marker_is_object in Hm. rewrite Hv in Hm. destruct v; try done. eauto.
  - rewrite Hs in Hg. by eapply entry_marker_seen.
  - rewrite Hs in Hg. by eapply fields_marker_seen.
Qed.

(** C18: Text that compaction took out of a call is not written back: a call whose
    content or edit text was redacted is refused by the tool before it touches the
    file system, with the error that asks for the real text. *)
Theorem redacted_input_refused `{LineDiffs} `{TomlParser} `{DirLen} `{PanicText} sb fs source n :
  marker_is_object source ->
  FsWriteTool_execute sb (mark (JObject source) "content" n) fs = (Err elided_write_error, fs)
  /\ forall field, field = "old_text" \/ field = "new_text" ->
     exists f, FsEditTool_execute sb (mark (JObject source) field n) fs = (Err (elided_edit_error f), fs).
Proof.
  intros Hm. split.
  - unfold FsWriteTool_execute. by rewrite marker_seen.
  - intros field Hf. unfold FsEditTool_execute.
    destruct (has_redacted_field_marker _ "old_text") eqn:E1; [eauto|].
    destruct Hf as [-> | ->]; [by rewrite marker_seen in E1|]. rewrite marker_seen by done. eauto.
Qed.

(** * Repeated dependencies *)

(** Every key assigned in a dependency table, with its table. *)
Fixpoint dependency_keys (table : option string) (ls : list string) : list (string * string) :=
  match ls with
  | [] => []
  | raw_line :: r =>
      let line := trim_start raw_line in
      if bool_decide (line = "") || starts_with "#" line then dependency_keys table r
      else match parse_table_header line, table with
           | Some header, _ => dependency_keys (Some header) r
           | None, None => dependency_keys table r
           | None, Some t =>
               match (if is_dependency_table t then parse_key_assignment line else None) with
               | Some key => (t, key) :: dependency_keys table r
               | None => dependency_keys table r
               end
           end
  end.
Definition seen_keys (k : KeyScan) (p : string * string) : Prop := p.2 ∈ default [] (ks_seen k !! p.1).
Lemma seen_keys_add k t entry p :
  entry = default [] (ks_seen k !! t) ->
  forall key dups, seen_keys {| ks_table := Some t; ks_seen := <[t := entry ++ [key]]> (ks_seen k); ks_duplicates := dups |} p
  <-> p = (t, key) \/ seen_keys k p.
Proof.
  intros -> key dups. destruct p as [t' key']. unfold seen_keys. cbn. destruct (decide (t' = t)) as [->|Hne].
  - rewrite lookup_insert_eq. cbn. rewrite elem_of_app, list_elem_of_singleton. naive_solver.
  - rewrite lookup_insert_ne by done. naive_solver.
Qed.
Lemma scan_lines_duplicates ls : forall k n,
  ks_duplicates (scan_lines k n ls) = []
  <-> ks_duplicates k = [] /\ NoDup (dependency_keys (ks_table k) ls)
      /\ Forall (fun p => ~ seen_keys k p) (dependency_keys (ks_table k) ls).
Proof.
  induction ls as [|raw ls IH]; intros k n.
  { cbn. split; [|by intros [? _]]. intros Hd. split_and!; [done|by constructor|done]. }
  cbn [scan_lines dependency_keys]. rewrite IH. unfold scan_line. cbv zeta.
  destruct (_ || _); [done|]. destruct (parse_table_header _) as [h|]; [done|].
  destruct (ks_table k) as [t|] eqn:Ht; [|by rewrite Ht].
  destruct (is_dependency_table t); cbn [negb]; [|by rewrite Ht].
  destruct (parse_key_assignment _) as [key|]; [|by rewrite Ht].
  case_bool_decide as Hin; cbn [ks_table ks_duplicates].
  - split; [intros [Hd _]; by destruct (ks_duplicates k)|].
    intros (_ & _ & [Hs _]%Forall_cons). by destruct Hs.
  - rewrite NoDup_cons, Forall_cons. split.
    + intros (Hd & Hnd & Hf). assert (((t, key) ∉ dependency_keys (Some t) ls) /\ Forall (fun p => ~ seen_keys k p) (dependency_keys (Some t) ls)) as [? ?].
      { split.
        - intros Hel. rewrite Forall_forall in Hf. apply (Hf _ Hel). apply seen_keys_add; [done|by left].
        - eapply Forall_impl; [exact Hf|]. cbn. intros p Hp Hs. apply Hp. apply seen_keys_add; [done|by right]. }
      split_and!; done.
    + intros (Hd & [Hnot Hnd] & Hs & Hf). split_and!; [done..|]. rewrite Forall_forall in Hf |- *. intros p Hp Hseen.
      apply seen_keys_add in Hseen as [->|?]; [done| |done]. by apply (Hf p).
Qed.
(** The manifest check reports a problem exactly when a dependency key is
    assigned twice in one dependency table, also when the table is opened again
    later in the file. *)
Theorem manifest_duplicates_found content :
  find_duplicate_dependency_keys content = None <-> NoDup (dependency_keys None (lines content)).
Proof.
  pose proof (scan_lines_duplicates (lines content) KeyScan_start 1) as Hs. cbn [ks_table ks_duplicates KeyScan_start] in Hs.
  unfold find_duplicate_dependency_keys.
  assert (Forall (fun p => ~ seen_keys KeyScan_start p) (dependency_keys None (lines content))) as Hnone.
  { apply Forall_forall. intros p _ Hp. unfold seen_keys in Hp. cbn in Hp. rewrite lookup_empty in Hp. by apply elem_of_nil in Hp. }
  destruct (ks_duplicates _) as [|d ds]; [tauto|]. split; [done|]. intros Hnd. exfalso.
  assert (d :: ds = []) as E by (apply Hs; done). discriminate E.
Qed.

(** * Concrete file systems *)
Module FileExample.
#[local] Instance no_changes : LineDiffs := fun _ _ => [].
#[local] Instance any_toml : TomlParser := fun _ => None.
#[local] Instance block_len : DirLen := fun _ => 4096%Z.
#[local] Instance panicked : PanicText := "task panicked".

Definition text (ls : list string) : bytes := string_to_bytes (closed_lines ls).
Definition base_nodes : gmap (list string) Node :=
  list_to_map [(["ws"], Node_Dir); (["ws"; "a.txt"], Node_File (text ["one"; "two"]));
               (["etc"], Node_Dir); (["etc"; "passwd"], Node_File (text ["root"])); (["srv"], Node_Dir)].
Definition plain : FileSystem := {| fs_nodes := base_nodes; fs_cwd := ["srv"]; fs_readonly := ∅ |}.
Definition linked : FileSystem := set_node ["ws"; "out"] (Node_Symlink "/etc") plain.
Definition holding (raw : string) : FileSystem := set_node ["ws"; "a.txt"] (Node_File (string_to_bytes raw)) plain.
Definition sb : Sandbox := {| sb_root := "/ws"; sb_extra_roots := [] |}.
Definition edit_args (old new : string) : json :=
  JObject [("new_text", JString new); ("old_text", JString old); ("path", JString "a.txt")].
Definition write_args (path content : string) : json := JObject [("content", JString content); ("path", JString path)].

Lemma one_level_canonical fs c : is_name c -> not_link fs [c] -> canonical fs [c].
Proof.
  intros Hc Hl. split_and!; [by apply Forall_singleton| |done]. intros k Hk. cbn in Hk.
  by assert (k = 0) as -> by lia.
Qed.
Lemma linked_ok : fs_ok linked.
Proof. apply one_level_canonical; [split_and!; done|vm_compute; done]. Qed.
Lemma plain_ok : fs_ok plain.
Proof. apply one_level_canonical; [split_and!; done|vm_compute; done]. Qed.
Lemma plain_live : sandbox_live plain sb.
Proof.
  apply Forall_singleton. exists ["ws"]. split_and!; [done| |done].
  apply one_level_canonical; [split_and!; done|vm_compute; done].
Qed.
Lemma plain_no_links : no_links_inside plain sb.
Proof.
  intros loc _. unfold not_link, node_at. case_bool_decide; [done|].
  assert (map_Forall (fun _ n => match n with Node_Symlink _ => False | _ => True end) base_nodes) as Hf.
  { unfold base_nodes. cbn [list_to_map foldr uncurry]. repeat apply map_Forall_insert_2; try done. }
  destruct (fs_nodes plain !! loc) as [n|] eqn:E; [|done]. by apply Hf in E.
Qed.

Lemma edit_and_delete_stay_inside_witness :
  only_inside sb linked (FsEditTool_execute sb (edit_args "two" "three") linked).2
  /\ node_at (FsEditTool_execute sb (edit_args "two" "three") linked).2 ["ws"; "a.txt"]
     = Some (Node_File (text ["one"; "three"])).
Proof.
  split; [|vm_compute; reflexivity].
  apply (edit_and_delete_stay_inside sb (edit_args "two" "three") linked). exact linked_ok.
Defined.
Lemma write_stays_inside_witness :
  only_inside sb plain (FsWriteTool_execute sb (write_args "new/b.txt" "x") plain).2
  /\ node_at (FsWriteTool_execute sb (write_args "new/b.txt" "x") plain).2 ["ws"; "new"; "b.txt"]
     = Some (Node_File (string_to_bytes "x")).
Proof.
  split; [|vm_compute; reflexivity].
  apply (write_stays_inside sb (write_args "new/b.txt" "x") plain plain_live plain_no_links).
  intros path q [= <-]. vm_compute. by intros [= <-].
Defined.
Definition write_outcome := fs_write sb "b.txt" "text" plain.
Lemma write_reads_back_witness :
  exists resolved, resolve_new sb "b.txt" = Ok resolved /\ read_to_string write_outcome.2 resolved = Ok "text"
    /\ metadata_len write_outcome.2 resolved = str_len "text".
Proof.
  destruct (fs_write sb "b.txt" "text" plain) as [[r|e] fs'] eqn:E.
  - unfold write_outcome. rewrite E. apply (write_reads_back sb "b.txt" "text" plain r fs' E). reflexivity.
  - exfalso. vm_compute in E. discriminate E.
Defined.
Lemma redacted_input_refused_witness :
  FsWriteTool_execute sb (mark (write_args "a.txt" "secret") "content" 6) plain = (Err elided_write_error, plain).
Proof. apply (redacted_input_refused sb plain [("content", JString "secret"); ("path", JString "a.txt")] 6). exact I. Defined.

(** A write through a link inside the workspace lands outside of it; an edit of the
    same path is refused. *)
Lemma write_follows_link :
  within sb ["etc"; "passwd"] = false
  /\ node_at (FsWriteTool_execute sb (write_args "out/passwd" "mine") linked).2 ["etc"; "passwd"]
     = Some (Node_File (string_to_bytes "mine"))
  /\ resolve_existing linked sb "out/passwd" = Err (ToolError_SandboxViolation "out/passwd").
Proof. vm_compute. done. Qed.
(** A path that climbs above the root and names a directory like the Windows prefix
    passes the check and is taken relative to the working directory. *)
Definition escape_path : string := "/../\\?\/ws/x".
Lemma unc_prefix_escapes :
  sandbox_resolve sb escape_path = Ok "\\?\/ws/x"
  /\ within sb ["srv"; "\\?\"; "ws"; "x"] = false
  /\ node_at (FsWriteTool_execute sb (write_args escape_path "out") plain).2 ["srv"; "\\?\"; "ws"; "x"]
     = Some (Node_File (string_to_bytes "out")).
Proof. vm_compute. done. Qed.

Definition cr : string := String carriage_return "".
Definition edited (raw old new : string) (all : bool) : option (option bool * string) :=
  match fs_edit sb "a.txt" old new all (holding raw) with
  | (r, fs) => match node_at fs ["ws"; "a.txt"] with
               | Some (Node_File b) => Some (is_ok <$> r, String.string_of_list_byte b)
               | _ => None
               end
  end.
(** A carriage return that is left before a line end shifts the offsets of a fuzzy
    match: the edit cuts the wrong bytes, or panics. *)
Lemma stray_return_shifts_edit :
  edited ("a" +++ cr +++ cr +++ nl +++ "foo" +++ nl) " foo" "bar" false
  = Some (Some true, "a" +++ cr +++ "baro" +++ cr +++ nl)
  /\ edited ("a" +++ cr +++ cr +++ nl +++ "fé" +++ nl) " fé" "bar" false
     = Some (None, "a" +++ cr +++ cr +++ nl +++ "fé" +++ nl).
Proof. vm_compute. done. Qed.
(** Line ends of a file with both kinds are all rewritten. *)
Lemma mixed_line_ends_rewritten :
  edited ("a" +++ cr +++ nl +++ "b" +++ nl +++ "c") "c" "d" false
  = Some (Some true, "a" +++ cr +++ nl +++ "b" +++ cr +++ nl +++ "d").
Proof. vm_compute. done. Qed.
(** Two occurrences are an error by default; two fuzzy matches are one also with
    [replace_all], which the error recommends. *)
Lemma several_matches_refused :
  edited ("x" +++ nl +++ "x") "x" "y" false = Some (Some false, "x" +++ nl +++ "x")
  /\ edited ("x y" +++ nl +++ "x y") " x y" "z" true = Some (Some false, "x y" +++ nl +++ "x y").
Proof. vm_compute. done. Qed.
End FileExample.
