(* ===== verification/CommandPolicy.v ===== *)
(** The command tool ([aura-tools/src/fs_tools/cmd/mod.rs, pty.rs]) with its policy
    ([aura-tools/src/lib.rs]): what a call may run, where, and how the output of a
    process becomes a tool result.

    Unix only.  Spawning and waiting are parameters: a process is what the code
    observes of it.  [which] looks a name up on the search path.  [None] stands for
    a panic: [split_at] off a character boundary. *)
From S2P Require Import Prelude Values Utf8 Text CoreTypes Exec Compaction FileSystem Sandbox FsTools.
From stdpp Require Import list.
From Stdlib Require Import Ascii Strings.Byte.

(** [which::which]: the path found, or the text of the error. *)
Class Which := which : string -> result string string.

Record CommandPolicy := {
  cp_enabled : bool;
  cp_command_allowlist : list string;
  cp_binary_allowlist : list string;
  cp_allow_shell : bool;
  cp_allowed_shell_scripts : list string;
  cp_allow_unrestricted_full_access : bool;
  cp_bypass_allowlists : bool;
}.
Record ToolConfig := {
  tcfg_command : CommandPolicy;
  tcfg_max_read_bytes : Z;
  tcfg_sync_threshold_ms : Z;
  tcfg_max_async_timeout_ms : Z;
  tcfg_git_push_timeout_ms : Z;
  tcfg_git_push_attempts : Z;
  tcfg_extra_allowed_paths : list string;
}.
Definition CommandPolicy_restricted : CommandPolicy := {|
  cp_enabled := false; cp_command_allowlist := []; cp_binary_allowlist := []; cp_allow_shell := false;
  cp_allowed_shell_scripts := []; cp_allow_unrestricted_full_access := false; cp_bypass_allowlists := false |}.
Definition default_autonomous_dev_loop_binaries : list string :=
  ["apt"; "apt-get"; "bash"; "bun"; "cargo"; "cargo-clippy"; "cargo-fmt"; "cmd"; "dir"; "dpkg"; "git"; "go";
   "make"; "node"; "npm"; "npx"; "pip"; "pip3"; "pnpm"; "powershell"; "pwsh"; "pytest"; "python"; "python3";
   "rustc"; "rustfmt"; "service"; "sh"; "sudo"; "systemctl"; "uv"; "where"; "yarn"] ++ ["ls"].
Definition CommandPolicy_for_autonomous_dev_loop : CommandPolicy := {|
  cp_enabled := true; cp_command_allowlist := []; cp_binary_allowlist := default_autonomous_dev_loop_binaries;
  cp_allow_shell := true; cp_allowed_shell_scripts := []; cp_allow_unrestricted_full_access := true;
  cp_bypass_allowlists := false |}.
Definition ToolConfig_restricted : ToolConfig := {|
  tcfg_command := CommandPolicy_restricted; tcfg_max_read_bytes := 64 * 1024; tcfg_sync_threshold_ms := 5000;
  tcfg_max_async_timeout_ms := 600000; tcfg_git_push_timeout_ms := 10000; tcfg_git_push_attempts := 2;
  tcfg_extra_allowed_paths := [] |}.
Definition ToolConfig_for_autonomous_dev_loop : ToolConfig := {|
  tcfg_command := CommandPolicy_for_autonomous_dev_loop; tcfg_max_read_bytes := tcfg_max_read_bytes ToolConfig_restricted;
  tcfg_sync_threshold_ms := tcfg_sync_threshold_ms ToolConfig_restricted;
  tcfg_max_async_timeout_ms := tcfg_max_async_timeout_ms ToolConfig_restricted;
  tcfg_git_push_timeout_ms := tcfg_git_push_timeout_ms ToolConfig_restricted;
  tcfg_git_push_attempts := tcfg_git_push_attempts ToolConfig_restricted;
  tcfg_extra_allowed_paths := tcfg_extra_allowed_paths ToolConfig_restricted |}.

(** * Program names *)
Definition meta_chars : list ascii :=
  [";"; "&"; "|"; ">"; "<"; "$"; "`"; "\"; "("; ")"; "{"; "}"; "["; "]"; "*"; "?"; "#"; "'"; "034"; "010"; "013"]%char.
Definition disallowed_char (c : ascii) : bool :=
  let code := N_of_ascii c in
  ((code <? 32)%N || (code =? 127)%N) || bool_decide (c = " "%char) || bool_decide (c = "009"%char)
  || bool_decide (c ∈ meta_chars).
Definition hex_digit (n : N) : string :=
  String (ascii_of_N (if (n <? 10)%N then 48 + n else 87 + n)%N) EmptyString.
(** [{c:?}] of a character of ASCII. *)
Definition char_debug (c : ascii) : string :=
  let code := N_of_ascii c in
  "'" +++
  (if bool_decide (c = "010"%char) then "\n"
   else if bool_decide (c = "013"%char) then "\r"
   else if bool_decide (c = "009"%char) then "\t"
   else if bool_decide (c = "000"%char) then "\0"
   else if bool_decide (c = "\"%char) then "\\"
   else if bool_decide (c = "'"%char) then "\'"
   else if (code <? 16)%N then "\u{" +++ hex_digit code +++ "}"
   else if (code <? 32)%N || (code =? 127)%N then "\u{" +++ hex_digit (code / 16) +++ hex_digit (code mod 16) +++ "}"
   else String c EmptyString) +++ "'".
Definition validate_program_name (program : string) : result ToolError unit :=
  if bool_decide (program = "") then Err (ToolError_InvalidArguments "program must not be empty")
  else match find_char disallowed_char program with
       | None => Ok tt
       | Some i =>
           Err (ToolError_InvalidArguments ("program '" +++ program +++ "' contains disallowed character "
             +++ char_debug (default "000"%char (String.get i program))
             +++ "; use the 'shell_script' field for shell-quoted scripts"))
       end.

(** [split_at(len - suffix.len())] with its panic off a character boundary. *)
Definition EXECUTABLE_SUFFIXES : list string := [".exe"; ".cmd"; ".bat"].
Fixpoint strip_suffixes (suffixes : list string) (name : string) : option string :=
  match suffixes with
  | [] => Some name
  | suffix :: rest =>
      if String.length suffix <? String.length name then
        let cut := String.length name - String.length suffix in
        head ← str_upto cut name;
        if eq_ignore_ascii_case (str_drop cut name) suffix then Some head else strip_suffixes rest name
      else strip_suffixes rest name
  end.
Definition strip_windows_executable_suffix (name : string) : option string := strip_suffixes EXECUTABLE_SUFFIXES name.

(** * Allow lists *)
Section Policy.
Context `{Which}.

(** The name of the file that was found is listed. *)
Definition check_resolved_name (program resolved : string) (allowlist : list string) : option (result ToolError unit) :=
  match path_file_name resolved with
  | None => Some (Err (ToolError_Forbidden ("program '" +++ program +++ "' resolved to a non-UTF-8 path")))
  | Some name =>
      file_name ← strip_windows_executable_suffix name;
      Some (if bool_decide (file_name ∈ allowlist) then Ok tt else Err (ToolError_Forbidden file_name))
  end.
Definition check_binary_allowlist (program : string) (command_enabled bypass_allowlists : bool) (allowlist : list string)
  : option (result ToolError unit) :=
  if negb command_enabled then Some (Ok tt)
  else if bypass_allowlists then Some (Ok tt)
  else match allowlist with
       | [] => Some (Err (ToolError_Forbidden "command execution requires a non-empty binary_allowlist; configure ToolConfig::command.binary_allowlist"))
       | _ =>
           let count := length (path_components program) in
           listed ← (if count =? 1
                     then bare ← strip_windows_executable_suffix program; Some (bool_decide (bare ∈ allowlist))
                     else Some true);
           if negb listed
           then Some (Err (ToolError_Forbidden ("program '" +++ program +++ "' is not present in ToolConfig::command.binary_allowlist")))
           else
             match (if 1 <? count then Ok program else which program) with
             | Err e => Some (Err (ToolError_Forbidden ("could not resolve program '" +++ program +++ "': " +++ e)))
             | Ok resolved => check_resolved_name program resolved allowlist
             end
       end.

Definition dangerous : list string := [";"; "&&"; "||"; "|"; "$("; "`"; nl; ">"; "<"; "<("].
Fixpoint token_bytes (l : list Z) : list Z :=
  match l with [] => [] | b :: r => if ws_len l =? 0 then b :: token_bytes r else [] end.
(** [split_whitespace().next()]. *)
Definition first_token (s : string) : option string :=
  match text_bytes (trim_start s) with
  | [] => None
  | l => Some (String.string_of_list_byte (bytes_of_Zs (token_bytes l)))
  end.
Definition check_command_allowlist (command : string) (bypass_allowlists : bool) (allowlist : list string)
  : result ToolError unit :=
  if bypass_allowlists then Ok tt
  else match allowlist with
       | [] => Ok tt
       | _ =>
           match List.find (fun meta => contains meta command) dangerous with
           | Some meta => Err (ToolError_CommandNotAllowed ("shell metacharacter '" +++ meta +++ "' not allowed"))
           | None =>
               let program := default command (first_token command) in
               if existsb (fun a => if contains_char " " a then starts_with a command else bool_decide (a = program)) allowlist
               then Ok tt
               else Err (ToolError_CommandNotAllowed program)
           end
       end.

(** * Calls *)
Record RunArgs := {
  ra_cwd : option string;
  ra_timeout_ms : Z;
  ra_allow_shell : bool;
  ra_shell_script : option string;
  ra_program : option string;
  ra_cmd_args : list string;
  ra_tty_cols : option Z;
}.
Definition or_else {A} (a b : option A) : option A := match a with Some _ => a | None => b end.
(** [secs * 1000] wraps in a release build. *)
Definition parse_run_args (args : json) (config : ToolConfig) : RunArgs := {|
  ra_cwd := or_else (json_get_str "cwd" args) (json_get_str "working_dir" args);
  ra_timeout_ms :=
    match json_get "timeout_secs" args ≫= json_as_u64 with
    | Some secs => u64_wrap (secs * 1000)
    | None => default (tcfg_sync_threshold_ms config) (json_get "timeout_ms" args ≫= json_as_u64)
    end;
  ra_allow_shell := bool_arg args "allow_shell" (cp_allow_shell (tcfg_command config));
  ra_shell_script := or_else (json_get_str "shell_script" args) (json_get_str "command" args);
  ra_program := json_get_str "program" args;
  ra_cmd_args := match json_get "args" args with Some (JArray arr) => omap json_as_str arr | _ => [] end;
  ra_tty_cols :=
    cols ← json_get "tty_cols" args ≫= json_as_u64;
    if ((cols <=? 65535) && (0 <? cols))%Z then Some cols else None |}.

Definition missing_program : ToolError :=
  ToolError_InvalidArguments "missing 'program' argument; use 'shell_script' for shell commands".
Definition and_then (a b : option (result ToolError unit)) : option (result ToolError unit) :=
  match a with Some (Ok _) => b | _ => a end.
Definition enforce_command_policy (args : RunArgs) (p : CommandPolicy) : option (result ToolError unit) :=
  if negb (cp_enabled p)
  then Some (Err (ToolError_Forbidden "command execution disabled; set ToolConfig::command.enabled=true and populate binary_allowlist to opt in"))
  else match ra_shell_script args with
       | Some script =>
           if negb (ra_allow_shell args)
           then Some (Err (ToolError_InvalidArguments "'shell_script' requires allow_shell=true (per-call or in ToolConfig)"))
           else if bool_decide (is_Some (ra_program args)) || negb (bool_decide (ra_cmd_args args = []))
           then Some (Err (ToolError_InvalidArguments "'shell_script' is mutually exclusive with 'program' / 'args'"))
           else if negb (cp_bypass_allowlists p) && negb (bool_decide (cp_allowed_shell_scripts p = []))
                   && negb (bool_decide (script ∈ cp_allowed_shell_scripts p))
           then Some (Err (ToolError_Forbidden "shell_script not present in ToolConfig::command.allowed_shell_scripts; operator must opt in by listing the script verbatim"))
           else
             and_then (Some (check_command_allowlist script (cp_bypass_allowlists p) (cp_command_allowlist p)))
               match first_token script with
               | Some first => check_binary_allowlist first (cp_enabled p) (cp_bypass_allowlists p) (cp_binary_allowlist p)
               | None => Some (Ok tt)
               end
       | None =>
           match ra_program args with
           | None => Some (Err missing_program)
           | Some program =>
               and_then (Some (validate_program_name program))
                 (and_then (Some (check_command_allowlist program (cp_bypass_allowlists p) (cp_command_allowlist p)))
                   (check_binary_allowlist program (cp_enabled p) (cp_bypass_allowlists p) (cp_binary_allowlist p)))
           end
       end.
End Policy.

(** * Processes *)
Record Output := { out_code : option Z; out_success : bool; out_stdout : bytes; out_stderr : bytes }.
(** What is started: a program without a shell, in a process group of its own. *)
Record Launch := {
  ln_program : string;
  ln_args : list string;
  ln_env : list (string * string);
  ln_cwd : string;
}.
(** A process that has exited: its status, and what reading each of its pipes to
    the end gives.  [None] when the read never returns: another process, one it
    left behind in the background, holds the other end of the pipe. *)
Record Exited := { ex_code : option Z; ex_success : bool; ex_stdout : option bytes; ex_stderr : option bytes }.
(** A running process, by what the polls at its exit see: the time since the start
    when the timeout is checked and the answer of [try_wait]. *)
Definition Child : Type := nat -> Z * result string (option Exited).
Class Processes := spawn : Launch -> result string Child.

Definition plain_output_env : list (string * string) :=
  [("CARGO_TERM_COLOR", "never"); ("CARGO_TERM_PROGRESS_WHEN", "never"); ("NO_COLOR", "1");
   ("CLICOLOR", "0"); ("CLICOLOR_FORCE", "0"); ("TERM", "dumb")].
Definition working_dir (fs : FileSystem) (sb : Sandbox) (cwd : option string) : result ToolError string :=
  match cwd with Some dir => resolve_existing fs sb dir | None => Ok (sb_root sb) end.
Definition cmd_launch (fs : FileSystem) (sb : Sandbox) (program : string) (args : list string) (cwd : option string)
  : result ToolError (Launch * string) :=
  _ ← validate_program_name program;
  dir ← working_dir fs sb cwd;
  Ok ({| ln_program := program; ln_args := args; ln_env := plain_output_env; ln_cwd := dir |},
      match args with [] => program | _ => program +++ " " +++ str_join " " args end).
Definition shell_launch (fs : FileSystem) (sb : Sandbox) (shell_script : string) (cwd : option string)
  : result ToolError (Launch * string) :=
  dir ← working_dir fs sb cwd;
  Ok ({| ln_program := "sh"; ln_args := ["-c"; shell_script]; ln_env := plain_output_env; ln_cwd := dir |}, shell_script).

(** The two calls of [read_to_end], which have no timeout. *)
Definition read_output (e : Exited) : option Output :=
  stdout ← ex_stdout e;
  stderr ← ex_stderr e;
  Some {| out_code := ex_code e; out_success := ex_success e; out_stdout := stdout; out_stderr := stderr |}.
(** The loop of [wait_with_hard_timeout]; [None] when the polls given run out, or a
    read of the output does not return. *)
Fixpoint wait_from (fuel i : nat) (child : Child) (timeout : Z) : option (result string Output) :=
  match fuel with
  | O => None
  | S fuel =>
      match child i with
      | (_, Err e) => Some (Err e)
      | (_, Ok (Some exited)) => output ← read_output exited; Some (Ok output)
      | (elapsed, Ok None) =>
          if (timeout <? elapsed)%Z then Some (Err "Process timed out") else wait_from fuel (S i) child timeout
      end
  end.
(** Every turn of the loop sleeps ten milliseconds. *)
Definition wait_fuel (timeout : Z) : nat := Z.to_nat (timeout / 10) + 2.
Definition wait_with_hard_timeout (child : Child) (timeout : Z) : option (result string Output) :=
  wait_from (wait_fuel timeout) 0 child timeout.

(** * Output *)
Definition STDOUT_TRUNCATE_LIMIT : nat := Z.to_nat 8000.
Definition STDERR_TRUNCATE_LIMIT : nat := Z.to_nat 4000.
Definition truncation_note (limit : nat) : string := nl +++ "... (truncated, " +++ fmt_Z (Z.of_nat limit) +++ " char limit)".
Definition truncate_output (s : string) (limit : nat) : string :=
  if String.length s <=? limit then s
  else str_take (char_boundary (string_to_bytes s) limit) s +++ truncation_note limit.

Record CargoError := { ce_code : string; ce_message : string; ce_location : option string }.
Definition strip_suffix (suffix s : string) : option string :=
  if str_ends_with suffix s then Some (str_take (String.length s - String.length suffix) s) else None.
Fixpoint after_last_separator (s : string) : string :=
  match s with
  | EmptyString => EmptyString
  | String c t =>
      if contains_char "/" t || contains_char "\" t then after_last_separator t
      else if bool_decide (c = "/"%char \/ c = "\"%char) then t else s
  end.
Definition classify_cargo_invocation (program : option string) (args : list string) : option string :=
  program_name ← after_last_separator <$> program;
  let stem := default program_name (or_else (strip_suffix ".exe" program_name) (strip_suffix ".EXE" program_name)) in
  if negb (eq_ignore_ascii_case stem "cargo") then None
  else subcommand ← List.find (fun a => negb (starts_with "+" a)) args;
       if bool_decide (subcommand ∈ ["check"; "build"; "test"; "clippy"; "run"]) then Some subcommand else None.
Definition MAX_CAPTURED_ERRORS : nat := 5.
Definition location_line (follow : string) : option string := trim <$> str_strip_prefix "--> " (trim_start follow).
Fixpoint first_location (ls : list string) : option string :=
  match ls with
  | [] => None
  | l :: r => match location_line l with Some loc => Some loc | None => first_location r end
  end.
Definition cargo_error_at (line : string) (following : list string) : option CargoError :=
  remainder ← str_strip_prefix "error[" (trim_start line);
  '(code, after) ← split_once "]" remainder;
  let after_code := trim_start after in
  Some {| ce_code := code;
          ce_message := match str_strip_prefix ":" after_code with Some s => trim s | None => after_code end;
          ce_location := first_location (take 3 following) |}.
Fixpoint extract_from (out : list CargoError) (ls : list string) : list CargoError :=
  match ls with
  | [] => out
  | l :: r =>
      if length out <? MAX_CAPTURED_ERRORS
      then extract_from (match cargo_error_at l r with Some e => out ++ [e] | None => out end) r
      else out
  end.
Definition extract_cargo_errors (stderr : string) : list CargoError := extract_from [] (lines stderr).

Section Results.
Context `{JsonText}.
Definition cargo_error_json (e : CargoError) : json :=
  json_object [("code", JString (ce_code e)); ("message", JString (ce_message e));
               ("location", match ce_location e with Some l => JString l | None => JNull end)].
Definition attach_cargo_error_metadata (errors : list CargoError) (r : ToolResult) : ToolResult :=
  match errors with
  | [] => r
  | _ => with_metadata "compiler_errors" (fmt_Z (Z.of_nat (length errors)))
           (with_metadata "cargo_errors" (json_to_string (JArray (cargo_error_json <$> errors))) r)
  end.
Definition with_stderr (stderr : bytes) (r : ToolResult) : ToolResult :=
  {| tr_tool := tr_tool r; tr_ok := tr_ok r; tr_kind := tr_kind r; tr_exit_code := tr_exit_code r;
     tr_stdout := tr_stdout r; tr_stderr := stderr; tr_metadata := tr_metadata r;
     tr_line_diff := tr_line_diff r; tr_image := tr_image r |}.
Definition with_exit_code (code : Z) (r : ToolResult) : ToolResult :=
  {| tr_tool := tr_tool r; tr_ok := tr_ok r; tr_kind := tr_kind r; tr_exit_code := Some code;
     tr_stdout := tr_stdout r; tr_stderr := tr_stderr r; tr_metadata := tr_metadata r;
     tr_line_diff := tr_line_diff r; tr_image := tr_image r |}.
Definition output_to_tool_result_with_program (output : Output) (program : option string) (cmd_args : list string) : ToolResult :=
  let raw_stdout := from_utf8_lossy (out_stdout output) in
  let raw_stderr := from_utf8_lossy (out_stderr output) in
  let stdout := truncate_output raw_stdout STDOUT_TRUNCATE_LIMIT in
  let stderr := truncate_output raw_stderr STDERR_TRUNCATE_LIMIT in
  let exit_code := default (-1)%Z (out_code output) in
  let cargo_diagnostics := match classify_cargo_invocation program cmd_args with
                           | Some _ => extract_cargo_errors raw_stderr
                           | None => []
                           end in
  if out_success output then
    let result := ToolResult_success "run_command" (string_to_bytes stdout) in
    let result := if bool_decide (stderr = "") then result else with_stderr (string_to_bytes stderr) result in
    attach_cargo_error_metadata cargo_diagnostics (with_metadata "exit_code" "0" result)
  else
    let structured := "exit_code: " +++ fmt_Z exit_code +++ nl +++ "stdout:" +++ nl +++ stdout +++ nl
                      +++ "stderr:" +++ nl +++ stderr in
    attach_cargo_error_metadata cargo_diagnostics
      (with_metadata "exit_code" (fmt_Z exit_code)
        (with_exit_code exit_code (ToolResult_failure "run_command" (string_to_bytes structured)))).
Definition output_to_tool_result (output : Output) : ToolResult := output_to_tool_result_with_program output None [].

Context `{Processes}.
Definition timed_out (e : string) : ToolError := ToolError_CommandFailed ("Command timed out: " +++ e).
Definition cmd_run (fs : FileSystem) (sb : Sandbox) (program : string) (args : list string) (cwd : option string) (timeout_ms : Z)
  : option (result ToolError ToolResult) :=
  match cmd_launch fs sb program args cwd with
  | Err e => Some (Err e)
  | Ok (launch, _) =>
      match spawn launch with
      | Err e => Some (Err (ToolError_CommandFailed ("Failed to spawn command '" +++ program +++ "': " +++ e)))
      | Ok child =>
          r ← wait_with_hard_timeout child timeout_ms;
          Some (match r with
                | Err e => Err (timed_out e)
                | Ok output => Ok (output_to_tool_result_with_program output (Some program) args)
                end)
      end
  end.
Definition cmd_run_shell_script (fs : FileSystem) (sb : Sandbox) (script : string) (cwd : option string) (timeout_ms : Z)
  : option (result ToolError ToolResult) :=
  match shell_launch fs sb script cwd with
  | Err e => Some (Err e)
  | Ok (launch, _) =>
      match spawn launch with
      | Err e => Some (Err (ToolError_CommandFailed ("Failed to spawn shell script: " +++ e)))
      | Ok child =>
          r ← wait_with_hard_timeout child timeout_ms;
          Some (match r with Err e => Err (timed_out e) | Ok output => Ok (output_to_tool_result output) end)
      end
  end.
End Results.

(** * Pseudo-terminals *)
Inductive PtyCommand :=
  | PtyCommand_Program (program : string) (args : list string)
  | PtyCommand_ShellScript (script : string).
Definition PTY_ROWS : Z := 50.
Definition MAX_CAPTURE_BYTES : nat := Z.to_nat (2 ^ 20).
Definition COLOR_AUTO_PROGRAMS : list string := ["ls"; "dir"; "vdir"; "grep"; "egrep"; "fgrep"; "diff"].
Definition wants_color_flag (program : string) (args : list string) : bool :=
  bool_decide (program ∈ COLOR_AUTO_PROGRAMS) && negb (existsb (starts_with "--color") args).
Definition terminal_env (cols : Z) : list (string * string) :=
  [("TERM", "xterm-256color"); ("COLUMNS", fmt_Z cols); ("LINES", fmt_Z PTY_ROWS); ("CLICOLOR", "1");
   ("PAGER", "cat"); ("GIT_PAGER", "cat"); ("GIT_TERMINAL_PROMPT", "0")].
Definition command_builder (command : PtyCommand) (dir : string) (cols : Z) : Launch :=
  match command with
  | PtyCommand_Program program args =>
      {| ln_program := program; ln_args := (if wants_color_flag program args then ["--color=auto"] else []) ++ args;
         ln_env := terminal_env cols; ln_cwd := dir |}
  | PtyCommand_ShellScript script =>
      {| ln_program := "sh"; ln_args := ["-c"; script]; ln_env := terminal_env cols; ln_cwd := dir |}
  end.
Definition command_label (command : PtyCommand) : string :=
  match command with PtyCommand_Program program _ => program | PtyCommand_ShellScript script => script end.
Definition capture (captured chunk : bytes) : bytes :=
  let room := MAX_CAPTURE_BYTES - length captured in
  captured ++ take (min (length chunk) room) chunk.

(** One turn of [wait_capturing]: the answer of [try_wait] with the exit code, the
    time, and the chunk that arrived. *)
Record PtyPoll := { pp_wait : result string (option (Z * bool)); pp_elapsed : Z; pp_chunk : option bytes }.
(** A program in a terminal: whether its output can be read, the turns of the wait,
    after how many of them a time has passed (a turn ends early when output
    arrives), and what is read after the exit. *)
Record PtyChild := {
  pc_reader : result string unit;
  pc_polls : nat -> PtyPoll;
  pc_turns : Z -> nat;
  pc_rest : list bytes;
}.
Class Terminals := open_terminal : Launch -> option (result string PtyChild).
Fixpoint wait_capturing (fuel i : nat) (polls : nat -> PtyPoll) (captured : bytes) (timeout_ms : Z)
  : option (result ToolError (Z * bool * bytes)) :=
  match fuel with
  | O => None
  | S fuel =>
      let p := polls i in
      match pp_wait p with
      | Err e => Some (Err (ToolError_CommandFailed ("Failed to wait for command: " +++ e)))
      | Ok (Some (code, success)) => Some (Ok (code, success, captured))
      | Ok None =>
          if (timeout_ms <? pp_elapsed p)%Z
          then Some (Err (ToolError_CommandFailed "Command timed out: Process timed out"))
          else wait_capturing fuel (S i) polls
                 (match pp_chunk p with Some chunk => capture captured chunk | None => captured end) timeout_ms
      end
  end.
Definition is_return (c : ascii) : bool := bool_decide (c = carriage_return).
Definition last_redraw (line : string) : string :=
  let line := trim_end_matches is_return line in
  default line (last (split_on carriage_return line)).
Definition normalize_terminal_output (raw : string) : string :=
  str_join nl (last_redraw <$> split_on newline raw).
Definition pty_result (code : Z) (success : bool) (captured : bytes) : ToolResult :=
  let output := truncate_output (normalize_terminal_output (from_utf8_lossy captured)) STDOUT_TRUNCATE_LIMIT in
  let exit_code := if (code <=? 2 ^ 31 - 1)%Z then code else (-1)%Z in
  let result :=
    if success then ToolResult_success "run_command" (string_to_bytes output)
    else {| tr_tool := "run_command"; tr_ok := false; tr_kind := ToolResultKind_AgentError;
            tr_exit_code := Some exit_code; tr_stdout := string_to_bytes output; tr_stderr := [];
            tr_metadata := ∅; tr_line_diff := None; tr_image := None |} in
  with_metadata "exit_code" (fmt_Z exit_code) result.

Section Terminal.
Context `{JsonText} `{Processes} `{Terminals} `{Which} `{PanicText}.
(** The outer [None] is a wait that did not end within the polls, the inner one a
    terminal that could not be opened. *)
Definition cmd_run_in_pty (fs : FileSystem) (sb : Sandbox) (command : PtyCommand) (cwd : option string) (cols timeout_ms : Z)
  : option (option (result ToolError ToolResult)) :=
  match working_dir fs sb cwd with
  | Err e => Some (Some (Err e))
  | Ok dir =>
      match open_terminal (command_builder command dir cols) with
      | None => Some None
      | Some (Err e) => Some (Some (Err (ToolError_CommandFailed ("Failed to spawn command '" +++ command_label command +++ "': " +++ e))))
      | Some (Ok child) =>
          match pc_reader child with
          | Err e => Some (Some (Err (ToolError_CommandFailed ("Failed to read terminal output: " +++ e))))
          | Ok _ =>
              r ← wait_capturing (S (pc_turns child timeout_ms)) 0 (pc_polls child) [] timeout_ms;
              Some (Some (match r with
                          | Err e => Err e
                          | Ok (code, success, captured) => Ok (pty_result code success (foldl capture captured (pc_rest child)))
                          end))
          end
      end
  end.
Definition pty_command (args : RunArgs) : option PtyCommand :=
  match ra_shell_script args, ra_program args with
  | Some script, _ => Some (PtyCommand_ShellScript script)
  | None, Some program => Some (PtyCommand_Program program (ra_cmd_args args))
  | None, None => None
  end.
Definition execute_over_pipes (fs : FileSystem) (sb : Sandbox) (args : RunArgs) : option (result ToolError ToolResult) :=
  match ra_shell_script args, ra_program args with
  | Some script, _ => cmd_run_shell_script fs sb script (ra_cwd args) (ra_timeout_ms args)
  | None, Some program => cmd_run fs sb program (ra_cmd_args args) (ra_cwd args) (ra_timeout_ms args)
  | None, None => Some (Err missing_program)
  end.
Definition execute_run_command (fs : FileSystem) (sb : Sandbox) (args : RunArgs) : option (result ToolError ToolResult) :=
  match ra_tty_cols args, pty_command args with
  | Some cols, Some command =>
      r ← cmd_run_in_pty fs sb command (ra_cwd args) cols (ra_timeout_ms args);
      match r with
      | Some r => Some r
      | None => execute_over_pipes fs sb args
      end
  | _, _ => execute_over_pipes fs sb args
  end.
(** [None]: the policy check panicked. *)
Definition CmdRunTool_execute (fs : FileSystem) (sb : Sandbox) (config : ToolConfig) (args : json)
  : option (result ToolError ToolResult) :=
  let run_args := parse_run_args args config in
  match enforce_command_policy run_args (tcfg_command config) with
  | None => None
  | Some (Err e) => Some (Err e)
  | Some (Ok _) => execute_run_command fs sb run_args
  end.
End Terminal.
