(* ===== verification/Hooks.v ===== *)
(** Plugin hooks ([aura-plugin-hooks/src]): the lifecycle events, what a handler may
    answer, the environment a handler's process is given, the engine that runs the
    handlers of an event, and the host the agent fires events through.

    A handler is a process.  What a process does is the class [HookWorld]: the
    variables of this process, and for a command the child it starts, given by what
    the polls at its exit see and by what its pipes hold.  Times are milliseconds.
    Environment variables are taken to be Unicode ([std::env::vars] panics when one
    is not). *)
From S2P Require Import Prelude Values Utf8 Text CoreTypes Context Kernel FileSystem FsTools.
From stdpp Require Import list.
From Stdlib Require Import Ascii Strings.Byte.

(** * Events ([event.rs]) *)
Inductive HookEvent :=
| HookEvent_PreToolUse | HookEvent_PostToolUse | HookEvent_SessionStart | HookEvent_UserPromptSubmit
| HookEvent_SubagentStart | HookEvent_SubagentStop | HookEvent_Stop | HookEvent_PreCompact
| HookEvent_PostCompact | HookEvent_PermissionRequest.
#[export] Instance HookEvent_eq_dec : EqDecision HookEvent.
Proof. solve_decision. Defined.
Definition HookEvent_as_str (e : HookEvent) : string :=
  match e with
  | HookEvent_PreToolUse => "pre_tool_use"
  | HookEvent_PostToolUse => "post_tool_use"
  | HookEvent_SessionStart => "session_start"
  | HookEvent_UserPromptSubmit => "user_prompt_submit"
  | HookEvent_SubagentStart => "subagent_start"
  | HookEvent_SubagentStop => "subagent_stop"
  | HookEvent_Stop => "stop"
  | HookEvent_PreCompact => "pre_compact"
  | HookEvent_PostCompact => "post_compact"
  | HookEvent_PermissionRequest => "permission_request"
  end.
Definition HookEvent_parse_wire (s : string) : option HookEvent :=
  if bool_decide (s = "pre_tool_use") then Some HookEvent_PreToolUse
  else if bool_decide (s = "post_tool_use") then Some HookEvent_PostToolUse
  else if bool_decide (s = "session_start") then Some HookEvent_SessionStart
  else if bool_decide (s = "user_prompt_submit") then Some HookEvent_UserPromptSubmit
  else if bool_decide (s = "subagent_start") then Some HookEvent_SubagentStart
  else if bool_decide (s = "subagent_stop") then Some HookEvent_SubagentStop
  else if bool_decide (s = "stop") then Some HookEvent_Stop
  else if bool_decide (s = "pre_compact") then Some HookEvent_PreCompact
  else if bool_decide (s = "post_compact") then Some HookEvent_PostCompact
  else if bool_decide (s = "permission_request") then Some HookEvent_PermissionRequest
  else None.
Definition HookEvent_ALL : list HookEvent :=
  [HookEvent_PreToolUse; HookEvent_PostToolUse; HookEvent_SessionStart; HookEvent_UserPromptSubmit;
   HookEvent_SubagentStart; HookEvent_SubagentStop; HookEvent_Stop; HookEvent_PreCompact;
   HookEvent_PostCompact; HookEvent_PermissionRequest].
Lemma parse_wire_as_str e : HookEvent_parse_wire (HookEvent_as_str e) = Some e.
Proof. by destruct e. Qed.
#[export] Instance HookEvent_countable : Countable HookEvent :=
  inj_countable HookEvent_as_str HookEvent_parse_wire parse_wire_as_str.

(** * Outcomes ([outcome.rs]); [HookOutcome] itself is the kernel's *)
Definition is_terminal (o : HookOutcome) : bool :=
  match o with HookOutcome_Block _ | HookOutcome_Approve | HookOutcome_Deny _ => true | _ => false end.
Record AggregateOutcome := { agg_ran : Z; agg_timed_out : Z; agg_decision : HookOutcome }.
Definition AggregateOutcome_empty : AggregateOutcome :=
  {| agg_ran := 0; agg_timed_out := 0; agg_decision := HookOutcome_Continue |}.
Definition is_blocked (a : AggregateOutcome) : bool :=
  match agg_decision a with HookOutcome_Block _ => true | _ => false end.
Definition observe (a : AggregateOutcome) : AggregateOutcome :=
  match agg_decision a with
  | HookOutcome_Continue | HookOutcome_TimedOut => a
  | _ => {| agg_ran := agg_ran a; agg_timed_out := agg_timed_out a; agg_decision := HookOutcome_Continue |}
  end.

(** * The environment of a handler ([sandbox.rs]) *)
Definition SECRET_NAMES : list string :=
  ["OPENAI_API_KEY"; "ANTHROPIC_API_KEY"; "GOOGLE_API_KEY"; "KUBECONFIG"; "SSH_AUTH_SOCK";
   "AURA_AUTH_TOKEN"; "AURA_REFRESH_TOKEN"].
Definition SECRET_PATTERNS : list string :=
  ["AWS_*"; "GCP_*"; "AZURE_*"; "DOCKER_*"; "*_TOKEN"; "*_SECRET"; "*_PASSWORD"; "*_KEY"].
(** [strip_suffix('*')]. *)
Definition strip_last_star (s : string) : option string :=
  if str_ends_with "*" s then Some (str_take (String.length s - 1) s) else None.
Definition matches_pattern (pattern name : string) : bool :=
  if bool_decide (pattern = name) then true
  else match strip_last_star pattern with
       | Some prefix => starts_with prefix name
       | None => match str_strip_prefix "*" pattern with
                 | Some suffix => str_ends_with suffix name
                 | None => false
                 end
       end.
Definition is_secret_name (name : string) : bool :=
  bool_decide (name ∈ SECRET_NAMES) || existsb (fun pat => matches_pattern pat name) SECRET_PATTERNS.

(** [BTreeMap<String, String>]. *)
Abbreviation env_map := (gmap string string).
Record InjectedEnv := {
  in_event_name : string;
  in_aura_home : string;
  in_plugin_root : string;
  in_session_id : string;
  in_agent_id : string;
  in_parent_agent_id : option string;
  in_extra : env_map;
}.
Definition canonical_vars (i : InjectedEnv) : list (string * string) :=
  let parent := default "" (in_parent_agent_id i) in
  [("AURA_HOME", in_aura_home i); ("PLUGIN_ROOT", in_plugin_root i); ("AURA_SESSION_ID", in_session_id i);
   ("AURA_AGENT_ID", in_agent_id i); ("AURA_PARENT_AGENT_ID", parent); ("AURA_EVENT", in_event_name i);
   ("CODEX_HOME", in_aura_home i); ("CLAUDE_PLUGIN_ROOT", in_plugin_root i); ("CODEX_SESSION_ID", in_session_id i);
   ("CODEX_AGENT_ID", in_agent_id i); ("CODEX_PARENT_ID", parent); ("CODEX_EVENT", in_event_name i)].
Definition insert_all (vars : list (string * string)) (env : env_map) : env_map :=
  foldl (fun env '(k, v) => <[k := v]> env) env vars.
Definition overlay_canonical (env : env_map) (i : InjectedEnv) : env_map := insert_all (canonical_vars i) env.
(** The variables of this process that are not secrets, the later of two of one name. *)
Definition inherited (vars : list (string * string)) : env_map :=
  insert_all (List.filter (fun kv => negb (is_secret_name kv.1)) vars) ∅.
Definition scrubbed_env (vars : list (string * string)) (i : InjectedEnv) : env_map :=
  in_extra i ∪ overlay_canonical (inherited vars) i.

Definition LEGACY_SAFE : list string :=
  ["PATH"; "HOME"; "USER"; "USERNAME"; "TERM"; "LANG"; "TMPDIR"; "TMP"; "TEMP"; "TZ"; "SHELL"; "SYSTEMROOT";
   "WINDIR"; "APPDATA"; "LOCALAPPDATA"; "USERPROFILE"; "COMPUTERNAME"; "PATHEXT"; "PROCESSOR_ARCHITECTURE"].
(** [std::env::var]: the first of that name. *)
Definition env_var (vars : list (string * string)) (k : string) : option string :=
  snd <$> find (fun kv => bool_decide (kv.1 = k)) vars.
Definition scrubbed_inherit (vars : list (string * string)) : env_map :=
  insert_all (List.filter (fun kv => starts_with "LC_" kv.1) vars)
    (insert_all (omap (fun k => (k,.) <$> env_var vars k) LEGACY_SAFE) ∅).

(** * Contexts ([ctx.rs], [redacted.rs]) *)
Record Redacted (A : Type) := { redacted_inner : A }.
Arguments redacted_inner {A} _.
Definition Redacted_new {A} (a : A) : Redacted A := {| redacted_inner := a |}.
Definition Redacted_into_inner {A} (r : Redacted A) : A := redacted_inner r.
Definition Redacted_debug {A} (_ : Redacted A) : string := "<REDACTED>".
Record PluginRef := { pr_id : string; pr_version : string }.
Record PluginLoadFailure := { plf_plugin_id : string; plf_reason : string }.
Record CtxMeta := { cm_session_id : string; cm_agent_id : string; cm_parent_agent_id : option string }.
Definition make_meta (session_id agent_id : string) (parent_agent_id : option string) : CtxMeta :=
  {| cm_session_id := session_id; cm_agent_id := agent_id; cm_parent_agent_id := parent_agent_id |}.
Class HookCtx (C : Type) := {
  ctx_event : C -> HookEvent;
  ctx_meta : C -> CtxMeta;
  ctx_extra_env : C -> env_map;
}.
Record SessionStartHookCtx := {
  ss_meta : CtxMeta; ss_mode : string; ss_model_id : string;
  ss_enabled_plugins : list PluginRef; ss_plugin_load_failures : list PluginLoadFailure;
}.
#[export] Instance SessionStart_ctx : HookCtx SessionStartHookCtx :=
  {| ctx_event _ := HookEvent_SessionStart; ctx_meta := ss_meta; ctx_extra_env _ := ∅ |}.
Record UserPromptSubmitHookCtx := { up_meta : CtxMeta; up_prompt_text : Redacted string; up_ts : string }.
#[export] Instance UserPromptSubmit_ctx : HookCtx UserPromptSubmitHookCtx :=
  {| ctx_event _ := HookEvent_UserPromptSubmit; ctx_meta := up_meta; ctx_extra_env _ := ∅ |}.
Record PreToolUseHookCtx := {
  ptu_meta : CtxMeta; ptu_tool_name : string; ptu_tool_args : Redacted string; ptu_tool_use_id : string;
}.
#[export] Instance PreToolUse_ctx : HookCtx PreToolUseHookCtx := {|
  ctx_event _ := HookEvent_PreToolUse; ctx_meta := ptu_meta;
  ctx_extra_env c := insert_all [("AURA_TOOL_NAME", ptu_tool_name c); ("AURA_TOOL_USE_ID", ptu_tool_use_id c)] ∅ |}.
Record PostToolUseHookCtx := {
  pou_meta : CtxMeta; pou_tool_name : string; pou_tool_use_id : string;
  pou_effect_status : string; pou_effect_payload_summary : string;
}.
#[export] Instance PostToolUse_ctx : HookCtx PostToolUseHookCtx := {|
  ctx_event _ := HookEvent_PostToolUse; ctx_meta := pou_meta;
  ctx_extra_env c := insert_all [("AURA_TOOL_NAME", pou_tool_name c); ("AURA_TOOL_USE_ID", pou_tool_use_id c);
                                 ("AURA_EFFECT_STATUS", pou_effect_status c)] ∅ |}.
Record SubagentStartHookCtx := {
  sst_meta : CtxMeta; sst_child_id : string; sst_mode : string; sst_kernel_mode : string; sst_override_manifest : string;
}.
#[export] Instance SubagentStart_ctx : HookCtx SubagentStartHookCtx := {|
  ctx_event _ := HookEvent_SubagentStart; ctx_meta := sst_meta;
  ctx_extra_env c := insert_all [("AURA_CHILD_AGENT_ID", sst_child_id c); ("AURA_CHILD_MODE", sst_mode c);
                                 ("AURA_CHILD_KERNEL_MODE", sst_kernel_mode c);
                                 ("AURA_OVERRIDE_MANIFEST", sst_override_manifest c)] ∅ |}.
Record SubagentStopHookCtx := {
  ssp_meta : CtxMeta; ssp_child_id : string; ssp_result_summary : string; ssp_duration_ms : Z;
}.
#[export] Instance SubagentStop_ctx : HookCtx SubagentStopHookCtx := {|
  ctx_event _ := HookEvent_SubagentStop; ctx_meta := ssp_meta;
  ctx_extra_env c := insert_all [("AURA_CHILD_AGENT_ID", ssp_child_id c);
                                 ("AURA_CHILD_RESULT_SUMMARY", ssp_result_summary c);
                                 ("AURA_CHILD_DURATION_MS", fmt_Z (ssp_duration_ms c))] ∅ |}.
Record StopHookCtx := {
  sp_meta : CtxMeta; sp_total_iterations : Z; sp_total_input_tokens : Z; sp_total_output_tokens : Z; sp_duration_ms : Z;
}.
#[export] Instance Stop_ctx : HookCtx StopHookCtx := {|
  ctx_event _ := HookEvent_Stop; ctx_meta := sp_meta;
  ctx_extra_env c := insert_all [("AURA_TOTAL_ITERATIONS", fmt_Z (sp_total_iterations c));
                                 ("AURA_TOTAL_INPUT_TOKENS", fmt_Z (sp_total_input_tokens c));
                                 ("AURA_TOTAL_OUTPUT_TOKENS", fmt_Z (sp_total_output_tokens c));
                                 ("AURA_DURATION_MS", fmt_Z (sp_duration_ms c))] ∅ |}.
Record PreCompactHookCtx := {
  prc_meta : CtxMeta; prc_pre_compact_token_count : Z; prc_planned_compaction_strategy : string;
}.
#[export] Instance PreCompact_ctx : HookCtx PreCompactHookCtx := {|
  ctx_event _ := HookEvent_PreCompact; ctx_meta := prc_meta;
  ctx_extra_env c := insert_all [("AURA_PRE_COMPACT_TOKEN_COUNT", fmt_Z (prc_pre_compact_token_count c));
                                 ("AURA_COMPACTION_STRATEGY", prc_planned_compaction_strategy c)] ∅ |}.
Record PostCompactHookCtx := {
  poc_meta : CtxMeta; poc_pre_compact_token_count : Z; poc_post_compact_token_count : Z; poc_summary : string;
}.
#[export] Instance PostCompact_ctx : HookCtx PostCompactHookCtx := {|
  ctx_event _ := HookEvent_PostCompact; ctx_meta := poc_meta;
  ctx_extra_env c := insert_all [("AURA_PRE_COMPACT_TOKEN_COUNT", fmt_Z (poc_pre_compact_token_count c));
                                 ("AURA_POST_COMPACT_TOKEN_COUNT", fmt_Z (poc_post_compact_token_count c))] ∅ |}.
Record PermissionRequestHookCtx := {
  prq_meta : CtxMeta; prq_tool_name : string; prq_tool_args : Redacted string; prq_risk_level : string;
  prq_prompt_text : Redacted string;
}.
#[export] Instance PermissionRequest_ctx : HookCtx PermissionRequestHookCtx := {|
  ctx_event _ := HookEvent_PermissionRequest; ctx_meta := prq_meta;
  ctx_extra_env c := insert_all [("AURA_TOOL_NAME", prq_tool_name c); ("AURA_RISK_LEVEL", prq_risk_level c)] ∅ |}.

(** * The engine ([engine.rs]) *)
Definition DEFAULT_HOOK_TIMEOUT : Z := 5000.
Definition HOOK_STDOUT_CAP_BYTES : nat := Z.to_nat (256 * 1024).
Record RegisteredHook := {
  rh_plugin_id : string;
  rh_event : HookEvent;
  rh_command : string;
  rh_args : list string;
  rh_plugin_root : string;
  rh_env : env_map;
}.
Record HookEngine := { by_event : gmap HookEvent (list RegisteredHook); he_timeout : Z }.
Definition HookEngine_new : HookEngine := {| by_event := ∅; he_timeout := DEFAULT_HOOK_TIMEOUT |}.
Definition with_timeout (timeout : Z) (eng : HookEngine) : HookEngine :=
  {| by_event := by_event eng; he_timeout := timeout |}.
Definition hooks_for (eng : HookEngine) (e : HookEvent) : list RegisteredHook := default [] (by_event eng !! e).
Definition HookEngine_register (hook : RegisteredHook) (eng : HookEngine) : HookEngine :=
  {| by_event := <[rh_event hook := hooks_for eng (rh_event hook) ++ [hook]]> (by_event eng);
     he_timeout := he_timeout eng |}.
Definition HookEngine_is_empty (eng : HookEngine) (e : HookEvent) : bool :=
  match by_event eng !! e with None => true | Some l => bool_decide (l = []) end.
Definition registered_count (eng : HookEngine) (e : HookEvent) : nat :=
  match by_event eng !! e with None => 0 | Some l => length l end.

Definition merge_extra (from_ctx from_hook : env_map) : env_map := from_hook ∪ from_ctx.
Definition resolve_command (command plugin_root : string) : string :=
  let has_separator := contains_char "/" command || contains_char "\" command in
  if is_absolute command then command
  else if has_separator then path_join plugin_root command
  else command.

(** A command, and the child it starts: the answer of the [i]-th [try_wait] and the
    time since the start when it is given, and what the pipes hold at the exit. *)
Record Command := { co_program : string; co_args : list string; co_env : env_map }.
Inductive TryWait := TryWait_Exited (code : option Z) | TryWait_Running | TryWait_Error.
Record HookChild := { hc_polls : nat -> TryWait * Z; hc_stdout : bytes; hc_stderr : bytes }.
Class HookWorld (E : Type) := {
  env_vars : E -> list (string * string);
  spawn_hook : Command -> E -> option HookChild * E;
}.

Inductive WaitResult := WaitResult_Completed (code : option Z) (out err : bytes) | WaitResult_TimedOut.
(** The loop of [wait_with_timeout]; [None] when the polls given run out. *)
Fixpoint wait_polls (fuel i : nat) (child : HookChild) (timeout : Z) : option WaitResult :=
  match fuel with
  | O => None
  | S fuel =>
      match hc_polls child i with
      | (TryWait_Exited code, _) =>
          Some (WaitResult_Completed code (take (S HOOK_STDOUT_CAP_BYTES) (hc_stdout child))
                                          (take (S HOOK_STDOUT_CAP_BYTES) (hc_stderr child)))
      | (TryWait_Running, elapsed) =>
          if (timeout <=? elapsed)%Z then Some WaitResult_TimedOut else wait_polls fuel (S i) child timeout
      | (TryWait_Error, _) => Some WaitResult_TimedOut
      end
  end.
(** Every turn of the loop sleeps twenty-five milliseconds. *)
Definition hook_wait_fuel (timeout : Z) : nat := Z.to_nat (timeout / 25) + 2.
Definition wait_with_timeout (child : HookChild) (timeout : Z) : option WaitResult :=
  wait_polls (hook_wait_fuel timeout) 0 child timeout.

Definition map_exit_code (code : option Z) (out err : string) : HookOutcome :=
  match code with
  | Some 0%Z => HookOutcome_Continue
  | Some 2%Z => HookOutcome_Block (trim err)
  | Some 3%Z => HookOutcome_Approve
  | Some 4%Z => HookOutcome_Deny (trim err)
  | Some 5%Z => HookOutcome_Replace (trim_end_matches (fun c => bool_decide (c = newline)) out)
  | _ => HookOutcome_Continue
  end.

(** The context of the earlier manual firing ([context.rs]). *)
Record HookFiringContext := {
  fc_plugin_root : string;
  fc_event : HookEvent;
  fc_agent_id : AgentId;
  fc_session_id : string;
  fc_turn_id : option string;
  fc_extra : env_map;
}.
Definition firing_env_vars `{Hex} (ctx : HookFiringContext) : env_map :=
  fc_extra ctx ∪
  insert_all [("CODEX_PLUGIN_ROOT", fc_plugin_root ctx); ("CLAUDE_PLUGIN_ROOT", fc_plugin_root ctx)]
    (insert_all (match fc_turn_id ctx with Some t => [("AURA_TURN_ID", t)] | None => [] end)
      (insert_all [("AURA_PLUGIN_ROOT", fc_plugin_root ctx); ("AURA_EVENT", HookEvent_as_str (fc_event ctx));
                   ("AURA_AGENT_ID", id_display (fc_agent_id ctx)); ("AURA_SESSION_ID", fc_session_id ctx)] ∅)).
Record HookFireSummary := { fs_succeeded : Z; fs_failed : Z }.

Section Firing.
Context {E : Type} `{!HookWorld E}.
Definition hook_command (hook : RegisteredHook) (env : env_map) : Command :=
  {| co_program := resolve_command (rh_command hook) (rh_plugin_root hook); co_args := rh_args hook; co_env := env |}.
Definition spawn_phase8 (eng : HookEngine) (hook : RegisteredHook) (injected : InjectedEnv) (w : E)
  : HookOutcome * E :=
  let '(child, w) := spawn_hook (hook_command hook (scrubbed_env (env_vars w) injected)) w in
  (match child with
   | None => HookOutcome_Continue
   | Some child =>
       match wait_with_timeout child (he_timeout eng) with
       | Some (WaitResult_Completed code out err) =>
           map_exit_code code (from_utf8_lossy out) (from_utf8_lossy err)
       | Some WaitResult_TimedOut | None => HookOutcome_TimedOut
       end
   end, w).

(** The environment one handler is started with. *)
Definition injected_env {C} `{!HookCtx C} (ctx : C) (aura_home : string) (hook : RegisteredHook) : InjectedEnv :=
  {| in_event_name := HookEvent_as_str (ctx_event ctx); in_aura_home := aura_home;
     in_plugin_root := rh_plugin_root hook; in_session_id := cm_session_id (ctx_meta ctx);
     in_agent_id := cm_agent_id (ctx_meta ctx); in_parent_agent_id := cm_parent_agent_id (ctx_meta ctx);
     in_extra := merge_extra (ctx_extra_env ctx) (rh_env hook) |}.
Definition note_outcome (agg : AggregateOutcome) (o : HookOutcome) : AggregateOutcome :=
  {| agg_ran := (agg_ran agg + 1) `mod` 2 ^ 32;
     agg_timed_out := match o with
                      | HookOutcome_TimedOut => (agg_timed_out agg + 1) `mod` 2 ^ 32
                      | _ => agg_timed_out agg
                      end;
     agg_decision := match o with
                     | HookOutcome_Continue | HookOutcome_TimedOut => agg_decision agg
                     | _ => o
                     end |}.
Fixpoint fire_hooks {C} `{!HookCtx C} (eng : HookEngine) (ctx : C) (aura_home : string)
    (hooks : list RegisteredHook) (agg : AggregateOutcome) (w : E) : AggregateOutcome * E :=
  match hooks with
  | [] => (agg, w)
  | hook :: rest =>
      let '(o, w) := spawn_phase8 eng hook (injected_env ctx aura_home hook) w in
      let agg := note_outcome agg o in
      if is_terminal o then (agg, w) else fire_hooks eng ctx aura_home rest agg w
  end.
Definition fire_event {C} `{!HookCtx C} (eng : HookEngine) (ctx : C) (aura_home : string) (w : E)
  : AggregateOutcome * E :=
  if HookEngine_is_empty eng (ctx_event ctx) then (AggregateOutcome_empty, w)
  else fire_hooks eng ctx aura_home (hooks_for eng (ctx_event ctx)) AggregateOutcome_empty w.

(** [spawn_phase4c] waits for the child without a limit; [exit_status] is the code of
    the exit it waits for. *)
Context (exit_status : HookChild -> option Z) `{Hex}.
Definition spawn_phase4c (hook : RegisteredHook) (ctx : HookFiringContext) (w : E) : bool * E :=
  let env := rh_env hook ∪ (firing_env_vars ctx ∪ scrubbed_inherit (env_vars w)) in
  let '(child, w) := spawn_hook (hook_command hook env) w in
  (match child with None => false | Some child => bool_decide (exit_status child = Some 0%Z) end, w).
Fixpoint fire_each (ctx : HookFiringContext) (hooks : list RegisteredHook) (sum : HookFireSummary) (w : E)
  : HookFireSummary * E :=
  match hooks with
  | [] => (sum, w)
  | hook :: rest =>
      let '(ok, w) := spawn_phase4c hook ctx w in
      fire_each ctx rest
        (if ok then {| fs_succeeded := (fs_succeeded sum + 1) `mod` 2 ^ 32; fs_failed := fs_failed sum |}
         else {| fs_succeeded := fs_succeeded sum; fs_failed := (fs_failed sum + 1) `mod` 2 ^ 32 |}) w
  end.
Definition HookEngine_fire (eng : HookEngine) (ctx : HookFiringContext) (w : E) : HookFireSummary * E :=
  fire_each ctx (hooks_for eng (fc_event ctx)) {| fs_succeeded := 0; fs_failed := 0 |} w.
End Firing.

(** * The host ([host.rs]) *)
Module Host.
Record PluginHookHost := {
  engine : HookEngine;
  aura_home : string;
  session_id : string;
  agent_id : string;
  parent_agent_id : option string;
}.
Definition is_empty (h : PluginHookHost) (e : HookEvent) : bool := HookEngine_is_empty (engine h) e.
Definition meta (h : PluginHookHost) : CtxMeta :=
  {| cm_session_id := session_id h; cm_agent_id := agent_id h; cm_parent_agent_id := parent_agent_id h |}.
Definition with_agent_id (id : string) (h : PluginHookHost) : PluginHookHost :=
  {| engine := engine h; aura_home := aura_home h; session_id := session_id h; agent_id := id;
     parent_agent_id := parent_agent_id h |}.
Section Fire.
Context {E : Type} `{!HookWorld E}.
Definition fire_user_prompt_submit (h : PluginHookHost) (prompt_text ts : string) (w : E) : AggregateOutcome * E :=
  if is_empty h HookEvent_UserPromptSubmit then (AggregateOutcome_empty, w)
  else fire_event (engine h) {| up_meta := meta h; up_prompt_text := Redacted_new prompt_text; up_ts := ts |}
         (aura_home h) w.
Definition fire_pre_tool_use (h : PluginHookHost) (tool_name tool_args tool_use_id : string) (w : E)
  : AggregateOutcome * E :=
  if is_empty h HookEvent_PreToolUse then (AggregateOutcome_empty, w)
  else fire_event (engine h)
         {| ptu_meta := meta h; ptu_tool_name := tool_name; ptu_tool_args := Redacted_new tool_args;
            ptu_tool_use_id := tool_use_id |} (aura_home h) w.
Definition fire_post_tool_use (h : PluginHookHost) (tool_name tool_use_id effect_status summary : string) (w : E)
  : AggregateOutcome * E :=
  if is_empty h HookEvent_PostToolUse then (AggregateOutcome_empty, w)
  else let '(a, w) := fire_event (engine h)
         {| pou_meta := meta h; pou_tool_name := tool_name; pou_tool_use_id := tool_use_id;
            pou_effect_status := effect_status; pou_effect_payload_summary := summary |} (aura_home h) w in
       (observe a, w).
Definition fire_stop (h : PluginHookHost) (total_iterations total_input_tokens total_output_tokens duration_ms : Z) (w : E)
  : AggregateOutcome * E :=
  if is_empty h HookEvent_Stop then (AggregateOutcome_empty, w)
  else let '(a, w) := fire_event (engine h)
         {| sp_meta := meta h; sp_total_iterations := total_iterations; sp_total_input_tokens := total_input_tokens;
            sp_total_output_tokens := total_output_tokens; sp_duration_ms := duration_ms |} (aura_home h) w in
       (observe a, w).
Definition fire_pre_compact (h : PluginHookHost) (token_count : Z) (strategy : string) (w : E) : AggregateOutcome * E :=
  if is_empty h HookEvent_PreCompact then (AggregateOutcome_empty, w)
  else fire_event (engine h)
         {| prc_meta := meta h; prc_pre_compact_token_count := token_count;
            prc_planned_compaction_strategy := strategy |} (aura_home h) w.
Definition fire_post_compact (h : PluginHookHost) (pre post : Z) (summary : string) (w : E) : AggregateOutcome * E :=
  if is_empty h HookEvent_PostCompact then (AggregateOutcome_empty, w)
  else let '(a, w) := fire_event (engine h)
         {| poc_meta := meta h; poc_pre_compact_token_count := pre; poc_post_compact_token_count := post;
            poc_summary := summary |} (aura_home h) w in
       (observe a, w).
Definition fire_permission_request (h : PluginHookHost) (tool_name tool_args risk_level prompt_text : string) (w : E)
  : AggregateOutcome * E :=
  if is_empty h HookEvent_PermissionRequest then (AggregateOutcome_empty, w)
  else fire_event (engine h)
         {| prq_meta := meta h; prq_tool_name := tool_name; prq_tool_args := Redacted_new tool_args;
            prq_risk_level := risk_level; prq_prompt_text := Redacted_new prompt_text |} (aura_home h) w.
(** The host as the kernel uses it: it reads the decisions only. *)
Definition for_kernel (h : PluginHookHost) : Kernel.PluginHookHost E := {|
  Kernel.hook_pre_tool_use_is_empty := is_empty h HookEvent_PreToolUse;
  Kernel.fire_pre_tool_use t a i w := let '(agg, w) := fire_pre_tool_use h t a i w in (agg_decision agg, w);
  Kernel.fire_permission_request t a r p w :=
    let '(agg, w) := fire_permission_request h t a r p w in (agg_decision agg, w) |}.
End Fire.
End Host.
