(* ===== verification/HooksProps.v ===== *)
(** What the hook engine guarantees: an event is decided by its first terminal handler
    or else by its last replacement, observers decide nothing, a handler never gets a
    variable of this process with a secret's name, and every firing ends. *)
From S2P Require Import Prelude Values CoreTypes Policy Utf8 Text Exec Kernel KernelTools FileSystem FsTools FileEditProps Hooks.
From stdpp Require Import list.
From Stdlib Require Import Ascii Strings.Byte.

(** * Event names *)
Lemma as_str_parse_wire s e : HookEvent_parse_wire s = Some e -> s = HookEvent_as_str e.
Proof. unfold HookEvent_parse_wire. intros H. repeat (case_bool_decide; [by simplify_eq|]). done. Qed.
Lemma all_events e : e ∈ HookEvent_ALL.
Proof. apply list_elem_of_In. destruct e; cbn; tauto. Qed.

(** * Registration *)
Lemma hooks_for_register hook eng e :
  hooks_for (HookEngine_register hook eng) e
  = hooks_for eng e ++ (if bool_decide (rh_event hook = e) then [hook] else []).
Proof.
  unfold hooks_for at 1, HookEngine_register. cbn. case_bool_decide as E.
  - subst. by simplify_map_eq.
  - rewrite lookup_insert_ne by done. by rewrite app_nil_r.
Qed.
Lemma is_empty_hooks_for eng e : HookEngine_is_empty eng e = bool_decide (hooks_for eng e = []).
Proof.
  unfold HookEngine_is_empty, hooks_for. destruct (by_event eng !! e); done.
Qed.
Lemma registered_count_hooks_for eng e : registered_count eng e = length (hooks_for eng e).
Proof. unfold registered_count, hooks_for. by destruct (by_event eng !! e). Qed.

(** * The decision of a firing

    The reference: the first terminal outcome, else the last replacement, else
    [Continue]. *)
Definition is_replace (o : HookOutcome) : bool := match o with HookOutcome_Replace _ => true | _ => false end.
Definition reference_decision (os : list HookOutcome) : HookOutcome :=
  match find is_terminal os with
  | Some o => o
  | None => default HookOutcome_Continue (last (List.filter is_replace os))
  end.
Definition count_timed_out (os : list HookOutcome) : nat :=
  length (List.filter (fun o => match o with HookOutcome_TimedOut => true | _ => false end) os).
(** The outcomes a firing sees, in order: handlers run until one is terminal. *)
Inductive firing {E C} `{!HookWorld E, !HookCtx C} (eng : HookEngine) (ctx : C) (home : string)
  : list RegisteredHook -> E -> list HookOutcome -> E -> Prop :=
| firing_done w : firing eng ctx home [] w [] w
| firing_stop hook rest o w w' :
    spawn_phase8 eng hook (injected_env ctx home hook) w = (o, w') -> is_terminal o = true ->
    firing eng ctx home (hook :: rest) w [o] w'
| firing_next hook rest o os w w' w'' :
    spawn_phase8 eng hook (injected_env ctx home hook) w = (o, w') -> is_terminal o = false ->
    firing eng ctx home rest w' os w'' -> firing eng ctx home (hook :: rest) w (o :: os) w''.

Definition decide_from (d : HookOutcome) (os : list HookOutcome) : HookOutcome :=
  match find is_terminal os with
  | Some o => o
  | None => default d (last (List.filter is_replace os))
  end.
Lemma decide_from_cons d o os :
  is_terminal o = false ->
  decide_from d (o :: os) = decide_from (if is_replace o then o else d) os.
Proof.
  intros Ht. unfold decide_from. cbn. rewrite Ht. destruct (find is_terminal os); [done|].
  destruct (is_replace o) eqn:Hr; [|done]. rewrite last_cons. by destruct (last _).
Qed.
Lemma fire_hooks_trace {E C} `{!HookWorld E, !HookCtx C} eng (ctx : C) home hooks agg (w : E) :
  (0 <= agg_ran agg)%Z -> (agg_ran agg + Z.of_nat (length hooks) < 2 ^ 32)%Z ->
  (0 <= agg_timed_out agg <= agg_ran agg)%Z ->
  exists os w', firing eng ctx home hooks w os w'
    /\ fire_hooks eng ctx home hooks agg w
       = ({| agg_ran := agg_ran agg + Z.of_nat (length os);
             agg_timed_out := agg_timed_out agg + Z.of_nat (count_timed_out os);
             agg_decision := decide_from (agg_decision agg) os |}, w').
Proof.
  revert agg w. induction hooks as [|hook hooks IH]; intros agg w H0 Hb Ht.
  - exists [], w. split; [constructor|]. cbn. rewrite !Z.add_0_r. by destruct agg.
  - cbn [fire_hooks]. destruct (spawn_phase8 _ _ _ w) as [o w1] eqn:Hs. cbn [length] in Hb.
    assert (Hran : agg_ran (note_outcome agg o) = (agg_ran agg + 1)%Z) by (cbn; apply Z.mod_small; lia).
    assert (Hto : agg_timed_out (note_outcome agg o) = (agg_timed_out agg + Z.of_nat (count_timed_out [o]))%Z)
      by (destruct o; cbn; rewrite ?Z.add_0_r; try done; apply Z.mod_small; lia).
    assert (count_timed_out [o] <= 1) by (by destruct o; cbn; lia).
    destruct (is_terminal o) eqn:Hterm.
    + exists [o], w1. split; [by eapply firing_stop|]. f_equal. rewrite <- Hto. cbn [length].
      destruct (note_outcome agg o) eqn:Hn. cbn in Hran. subst. f_equal.
      unfold decide_from. cbn [find]. rewrite Hterm. unfold note_outcome in Hn. by destruct o; try done; simplify_eq.
    + destruct (IH (note_outcome agg o) w1) as (os & w2 & Hf & He); [lia|lia|lia|].
      exists (o :: os), w2. split; [by eapply firing_next|]. rewrite He, Hran, Hto. f_equal. f_equal.
      * cbn [length]. lia.
      * unfold count_timed_out in *. destruct o; cbn [List.filter length]; lia.
      * rewrite decide_from_cons by done. by destruct o.
Qed.

(** C24: firing an event runs its handlers in registration order up to the first that
    blocks, approves or denies; its decision is that one's answer, else the last
    replacement, else [Continue]; and it counts the handlers it ran and those of
    them that timed out. *)
Theorem fire_event_decision {E C} `{!HookWorld E, !HookCtx C} eng (ctx : C) home (w : E)
    (Hsmall : (Z.of_nat (registered_count eng (ctx_event ctx)) < 2 ^ 32)%Z) :
  exists os w', firing eng ctx home (hooks_for eng (ctx_event ctx)) w os w'
    /\ fire_event eng ctx home w
       = ({| agg_ran := Z.of_nat (length os); agg_timed_out := Z.of_nat (count_timed_out os);
             agg_decision := reference_decision os |}, w').
Proof.
  rewrite registered_count_hooks_for in Hsmall.
  unfold fire_event. rewrite is_empty_hooks_for. case_bool_decide as He.
  - rewrite He. exists [], w. split; [constructor|done].
  - by apply fire_hooks_trace.
Qed.

(** ** The decision is never a timeout, and observers decide nothing *)
Lemma reference_decision_not_timed_out os : reference_decision os <> HookOutcome_TimedOut.
Proof.
  unfold reference_decision. destruct (find is_terminal os) as [o|] eqn:Hf.
  - apply find_some in Hf as [_ Hf]. by destruct o.
  - destruct (last (List.filter is_replace os)) as [o|] eqn:Hl; [|done]. cbn.
    apply last_Some_elem_of, list_elem_of_In, filter_In in Hl as [_ Hl]. by destruct o.
Qed.
Lemma observe_decision a : agg_decision a <> HookOutcome_TimedOut -> agg_decision (observe a) = HookOutcome_Continue.
Proof. unfold observe. by destruct (agg_decision a) eqn:E. Qed.
Lemma fire_hooks_not_timed_out {E C} `{!HookWorld E, !HookCtx C} eng (ctx : C) home hooks agg (w : E) :
  agg_decision agg <> HookOutcome_TimedOut -> agg_decision (fire_hooks eng ctx home hooks agg w).1 <> HookOutcome_TimedOut.
Proof.
  revert agg w. induction hooks as [|hook hooks IH]; intros agg w Ha; [done|]. cbn [fire_hooks].
  destruct (spawn_phase8 _ _ _ w) as [o w1].
  assert (agg_decision (note_outcome agg o) <> HookOutcome_TimedOut) by (by destruct o).
  destruct (is_terminal o); [done|auto].
Qed.
Lemma fire_event_not_timed_out {E C} `{!HookWorld E, !HookCtx C} eng (ctx : C) home (w : E) :
  agg_decision (fire_event eng ctx home w).1 <> HookOutcome_TimedOut.
Proof. unfold fire_event. destruct (HookEngine_is_empty eng _); [done|]. by apply fire_hooks_not_timed_out. Qed.

(** Whatever the handlers answer, the observed events come to [Continue]. *)
Lemma observers_decide_nothing {E} `{!HookWorld E} h (w : E) :
  (forall t i st su, agg_decision (Host.fire_post_tool_use h t i st su w).1 = HookOutcome_Continue)
  /\ (forall n i o d, agg_decision (Host.fire_stop h n i o d w).1 = HookOutcome_Continue)
  /\ (forall a b s, agg_decision (Host.fire_post_compact h a b s w).1 = HookOutcome_Continue).
Proof.
  split_and!; intros; unfold Host.fire_post_tool_use, Host.fire_stop, Host.fire_post_compact;
    destruct (Host.is_empty h _); try done;
    match goal with |- context [fire_event ?e ?c ?a ?w] => pose proof (fire_event_not_timed_out e c a w) as Ht end;
    destruct (fire_event _ _ _ _) as [a1 w1]; by apply observe_decision.
Qed.

(** * Secrets *)
Lemma insert_all_fresh vars env k : Forall (fun kv => kv.1 <> k) vars -> insert_all vars env !! k = env !! k.
Proof.
  revert env. induction vars as [|[a v] vars IH]; intros env Hv; [done|]. apply Forall_cons in Hv as [Ha Hv].
  etransitivity; [exact (IH (<[a:=v]> env) Hv)|]. by apply lookup_insert_ne.
Qed.
Lemma canonical_not_secret i : Forall (fun kv => is_secret_name kv.1 = false) (canonical_vars i).
Proof. by repeat constructor. Qed.
(** Of the variables with a secret's name a handler gets those it is given explicitly. *)
Lemma scrubbed_env_secret vars i k :
  is_secret_name k = true -> in_extra i !! k = None -> scrubbed_env vars i !! k = None.
Proof.
  intros Hk Hx. unfold scrubbed_env. rewrite lookup_union_r by done. unfold overlay_canonical.
  rewrite insert_all_fresh.
  2:{ eapply Forall_impl; [apply canonical_not_secret|]. intros kv Ha Hkv. cbv beta in Ha. congruence. }
  unfold inherited. rewrite insert_all_fresh; [done|]. apply Forall_forall. intros kv Hin Hkv.
  apply list_elem_of_In, filter_In in Hin as [_ Hin]. by rewrite Hkv, Hk in Hin.
Qed.

(** Two worlds in which processes behave alike and which agree on every variable that
    does not have a secret's name. *)
Definition public_vars (vars : list (string * string)) : list (string * string) :=
  List.filter (fun kv => negb (is_secret_name kv.1)) vars.
Definition same_but_secrets {E} (W1 W2 : HookWorld E) : Prop :=
  (forall c w, @spawn_hook _ W1 c w = @spawn_hook _ W2 c w)
  /\ (forall w, public_vars (@env_vars _ W1 w) = public_vars (@env_vars _ W2 w)).
Lemma scrubbed_env_public vars1 vars2 i : public_vars vars1 = public_vars vars2 -> scrubbed_env vars1 i = scrubbed_env vars2 i.
Proof. intros H. unfold scrubbed_env, inherited. unfold public_vars in H. by rewrite H. Qed.
Lemma spawn_public {E} (W1 W2 : HookWorld E) eng hook i w :
  same_but_secrets W1 W2 -> @spawn_phase8 _ W1 eng hook i w = @spawn_phase8 _ W2 eng hook i w.
Proof. intros [Hs Hv]. unfold spawn_phase8. by rewrite (scrubbed_env_public _ _ _ (Hv w)), Hs. Qed.

(** C33: no handler can tell what the secret variables of this process hold, or whether
    they are there: worlds that differ in them alone give every firing the same
    decision, the same counts and the same effects, whatever the engine and the
    event. *)
Theorem secrets_hidden_from_hooks {E C} `{!HookCtx C} (W1 W2 : HookWorld E) eng (ctx : C) home (w : E)
    (Hsame : same_but_secrets W1 W2) :
  @fire_event _ W1 _ _ eng ctx home w = @fire_event _ W2 _ _ eng ctx home w.
Proof.
  unfold fire_event. destruct (HookEngine_is_empty eng _); [done|].
  generalize AggregateOutcome_empty as agg, (hooks_for eng (ctx_event ctx)) as hooks. intros agg hooks. revert agg w.
  induction hooks as [|hook hooks IH]; intros agg w; [done|]. cbn [fire_hooks].
  rewrite (spawn_public W1 W2) by done. destruct (spawn_phase8 _ _ _ w) as [o w1].
  destruct (is_terminal o); [done|apply IH].
Qed.

(** * Waiting ends *)
Definition hook_clock (child : HookChild) : Prop := forall i, (25 * Z.of_nat i <= (hc_polls child i).2)%Z.
Lemma wait_polls_ends fuel i child timeout :
  hook_clock child -> (timeout <= 25 * Z.of_nat (i + fuel - 1))%Z -> fuel <> 0 ->
  is_Some (wait_polls fuel i child timeout).
Proof.
  intros Hclock. revert i. induction fuel as [|fuel IH]; intros i Ht Hf; [done|]. cbn.
  specialize (Hclock i). destruct (hc_polls child i) as [[c| |] elapsed]; [eauto| |eauto].
  destruct (timeout <=? elapsed)%Z eqn:E; [eauto|]. cbn in Hclock. apply Z.leb_gt in E.
  apply IH; [by replace (S i + fuel - 1) with (i + S fuel - 1) by lia|]. intros ->. lia.
Qed.
(** A handler is waited for no longer than the timeout and one poll: it has exited, or
    it is reported as timed out. *)
Lemma hook_wait_ends child timeout :
  hook_clock child -> (0 <= timeout)%Z -> is_Some (wait_with_timeout child timeout).
Proof.
  intros Hc Ht. apply wait_polls_ends; [done| |unfold hook_wait_fuel; lia]. unfold hook_wait_fuel.
  pose proof (Z.div_mod timeout 25). pose proof (Z.mod_pos_bound timeout 25).
  rewrite Nat2Z.inj_sub, !Nat2Z.inj_add, Z2Nat.id by lia. lia.
Qed.

(** * Flaws *)

(** A handler that approves ends any event, also those at which approving means
    nothing: the handlers after it, which might block, do not run, and nothing is
    blocked. *)
Lemma approve_masks_later_blocks {E C} `{!HookWorld E, !HookCtx C} eng (ctx : C) home hook rest (w w' : E) :
  hooks_for eng (ctx_event ctx) = hook :: rest ->
  spawn_phase8 eng hook (injected_env ctx home hook) w = (HookOutcome_Approve, w') ->
  (fire_event eng ctx home w).2 = w' /\ is_blocked (fire_event eng ctx home w).1 = false.
Proof.
  intros Hh Hs. unfold fire_event. rewrite is_empty_hooks_for, bool_decide_eq_false_2 by (by rewrite Hh).
  rewrite Hh. cbn. by rewrite Hs.
Qed.
Lemma fire_event_ext {E C1 C2} `{!HookWorld E, !HookCtx C1, !HookCtx C2} eng (c1 : C1) (c2 : C2) home (w : E) :
  ctx_event c1 = ctx_event c2 -> ctx_meta c1 = ctx_meta c2 -> ctx_extra_env c1 = ctx_extra_env c2 ->
  fire_event eng c1 home w = fire_event eng c2 home w.
Proof.
  intros He Hm Hx. unfold fire_event. rewrite He. destruct (HookEngine_is_empty eng _); [done|].
  generalize AggregateOutcome_empty as agg, (hooks_for eng (ctx_event c2)) as hooks. intros agg hooks. revert agg w.
  induction hooks as [|hook hooks IH]; intros agg w; [done|]. cbn [fire_hooks].
  assert (injected_env c1 home hook = injected_env c2 home hook) as -> by (unfold injected_env; by rewrite He, Hm, Hx).
  destruct (spawn_phase8 _ _ _ w) as [o w1]. destruct (is_terminal o); [done|apply IH].
Qed.
(** A handler is given neither the arguments of the call nor the prompt: the events
    that carry them fire alike whatever they are. *)
Lemma hooks_blind_to_arguments {E} `{!HookWorld E} h (w : E) t a1 a2 i r p1 p2 ts :
  Host.fire_pre_tool_use h t a1 i w = Host.fire_pre_tool_use h t a2 i w
  /\ Host.fire_permission_request h t a1 r p1 w = Host.fire_permission_request h t a2 r p2 w
  /\ Host.fire_user_prompt_submit h p1 ts w = Host.fire_user_prompt_submit h p2 ts w.
Proof.
  unfold Host.fire_pre_tool_use, Host.fire_permission_request, Host.fire_user_prompt_submit.
  split_and!; (destruct (Host.is_empty h _); [done|by apply fire_event_ext]).
Qed.

(** * Examples *)
Module HooksExample.
(** A machine whose programs are told by their names; the state is the commands started. *)
Definition exits (code : Z) (out err : string) : HookChild :=
  {| hc_polls i := (match i with O => TryWait_Running | _ => TryWait_Exited (Some code) end, (25 * Z.of_nat i)%Z);
     hc_stdout := string_to_bytes out; hc_stderr := string_to_bytes err |}.
Definition hangs : HookChild :=
  {| hc_polls i := (TryWait_Running, 25 * Z.of_nat i)%Z; hc_stdout := []; hc_stderr := [] |}.
Definition child_of (program : string) : option HookChild :=
  if bool_decide (program = "ok") then Some (exits 0 "" "")
  else if bool_decide (program = "block") then Some (exits 2 "" ("not here" +++ nl))
  else if bool_decide (program = "approve") then Some (exits 3 "" "")
  else if bool_decide (program = "rewrite") then Some (exits 5 ("better" +++ nl) "")
  else if bool_decide (program = "hang") then Some hangs
  else None.
Definition world (vars : list (string * string)) : HookWorld (list Command) :=
  {| env_vars _ := vars; spawn_hook c w := (child_of (co_program c), w ++ [c]) |}.
Definition W1 := world [("PATH", "/bin"); ("AWS_SECRET_ACCESS_KEY", "k")].
Definition W2 := world [("PATH", "/bin")].
Definition hook (e : HookEvent) (command : string) : RegisteredHook :=
  {| rh_plugin_id := "p"; rh_event := e; rh_command := command; rh_args := []; rh_plugin_root := "/plugins/p/1";
     rh_env := ∅ |}.
Definition eng (commands : list string) : HookEngine :=
  foldr HookEngine_register HookEngine_new (hook HookEvent_PreToolUse <$> rev commands).
Definition host (commands : list string) : Host.PluginHookHost :=
  {| Host.engine := eng commands; Host.aura_home := "/h"; Host.session_id := "s"; Host.agent_id := "a";
     Host.parent_agent_id := None |}.
Definition ctx : PreToolUseHookCtx :=
  {| ptu_meta := make_meta "s" "a" None; ptu_tool_name := "write_file"; ptu_tool_args := Redacted_new "{}";
     ptu_tool_use_id := "t1" |}.
Definition decision (commands : list string) : HookOutcome :=
  agg_decision (@Host.fire_pre_tool_use _ W1 (host commands) "write_file" "{}" "t1" []).1.

Example decisions :
  decision ["ok"; "missing"] = HookOutcome_Continue
  /\ decision ["rewrite"; "hang"; "block"; "ok"] = HookOutcome_Block "not here"
  /\ decision ["rewrite"; "ok"] = HookOutcome_Replace "better"
  /\ decision ["approve"; "block"] = HookOutcome_Approve.
Proof. repeat split; vm_compute; reflexivity. Qed.

Lemma fire_event_decision_witness :
  (Z.of_nat (registered_count (eng ["rewrite"; "hang"; "block"; "ok"]) (ctx_event ctx)) < 2 ^ 32)%Z
  /\ exists os w', @firing _ _ W1 _ (eng ["rewrite"; "hang"; "block"; "ok"]) ctx "/h"
                     (hooks_for (eng ["rewrite"; "hang"; "block"; "ok"]) (ctx_event ctx)) [] os w'
    /\ @fire_event _ W1 _ _ (eng ["rewrite"; "hang"; "block"; "ok"]) ctx "/h" []
       = ({| agg_ran := Z.of_nat (length os); agg_timed_out := Z.of_nat (count_timed_out os);
             agg_decision := reference_decision os |}, w').
Proof. split; [done|]. by apply (@fire_event_decision _ _ W1). Defined.

Lemma secrets_hidden_witness :
  same_but_secrets W1 W2
  /\ @fire_event _ W1 _ _ (eng ["ok"; "block"]) ctx "/h" [] = @fire_event _ W2 _ _ (eng ["ok"; "block"]) ctx "/h" [].
Proof. split; [by split|]. apply (secrets_hidden_from_hooks W1 W2). by split. Defined.

(** The handler that approves keeps the one that would block from running. *)
Example approve_hides_block :
  (Kernel.fire_pre_tool_use (@Host.for_kernel _ W1 (host ["approve"; "block"])) "write_file" "{}" "t1" []).1
    = HookOutcome_Approve
  /\ (co_program <$> (Kernel.fire_pre_tool_use (@Host.for_kernel _ W1 (host ["approve"; "block"])) "write_file" "{}" "t1" []).2)
    = ["approve"].
Proof. split; vm_compute; reflexivity. Qed.
End HooksExample.
