(* ===== verification/Plugins.v ===== *)
(** Plugins: the manifest and its discovery, the on-disk cache, installation, the trust
    decision, the marketplace catalogue and the loading of the enabled plugins
    ([aura-plugin-core/src]), the connector registry
    ([aura-plugin-connectors/src/registry.rs]) and the connections to tool servers
    ([aura-plugin-mcp/src]).

    Semantic versions, TOML and the walk of a source tree belong to other packages and
    are parameters: [PluginTypes], [ManifestToml], [WalkDir].  The pipes of a tool
    server are [McpWorld].  A tree is walked before it is copied. *)
From S2P Require Import Prelude Values CoreTypes Utf8 Text Exec ToolCache FileSystem FsTools Hooks.
From stdpp Require Import list sorting.
From Stdlib Require Import Ascii Strings.Byte.

(** * Connectors *)
Record ConnectorEntry := { ce_id : string; ce_plugin_id : string; ce_endpoint : string }.
Inductive ConnectorError :=
| ConnectorError_AlreadyRegistered (id : string)
| ConnectorError_UnknownConnector (id : string).
Abbreviation ConnectorRegistry := (gmap string ConnectorEntry).
Definition connector_register (entry : ConnectorEntry) : stm ConnectorRegistry ConnectorError unit := fun r =>
  if bool_decide (is_Some (r !! ce_id entry)) then (Err (ConnectorError_AlreadyRegistered (ce_id entry)), r)
  else (Ok tt, <[ce_id entry := entry]> r).
Definition connector_get (id : string) (r : ConnectorRegistry) : result ConnectorError ConnectorEntry :=
  ok_or (ConnectorError_UnknownConnector id) (r !! id).
Definition connector_replace (entry : ConnectorEntry) (r : ConnectorRegistry)
  : option ConnectorEntry * ConnectorRegistry := (r !! ce_id entry, <[ce_id entry := entry]> r).
Definition connector_remove (id : string) (r : ConnectorRegistry) : option ConnectorEntry * ConnectorRegistry :=
  (r !! id, delete id r).
(** [BTreeMap] keys in order. *)
Definition connector_list (r : ConnectorRegistry) : list ConnectorEntry :=
  omap (r !!.) (merge_sort String.le (map_to_list r).*1).

(** * Tool servers *)
Inductive McpError :=
| McpError_Io (kind : string)
| McpError_Disconnected
| McpError_TimedOut (timeout_ms : Z)
| McpError_InvalidResponse (message : string)
| McpError_ServerError (code : Z) (message : string)
| McpError_DuplicateServer (id : string)
| McpError_UnknownServer (id : string).
Definition DEFAULT_MCP_REQUEST_TIMEOUT : Z := 5000.
Record ServerConfig := {
  sc_server_id : string;
  sc_command : string;
  sc_args : list string;
  sc_env : env_map;
  sc_request_timeout : Z;
}.
(** What waiting for a line gives within the deadline. *)
Inductive LineRead := LineRead_Line (line : string) | LineRead_Eof | LineRead_Error (e : string)
  | LineRead_Timeout | LineRead_ReaderGone.
Class McpWorld (E : Type) := {
  mcp_spawn : Command -> E -> result string nat * E;
  mcp_write : nat -> string -> E -> result string unit * E;
  mcp_read_line : nat -> Z -> E -> LineRead * E;
  mcp_kill : nat -> E -> E;
}.
Class JsonParseError := json_parse_error : string -> string.
Record McpClient := { mc_child : nat; mc_next_id : Z; mc_request_timeout : Z }.
Abbreviation McpConnectionManager := (gmap string McpClient).

Section Mcp.
Context {E : Type} `{!McpWorld E} `{JsonText} `{JsonFromStr} `{JsonParseError}.
Definition spawn_with_timeout (command : string) (args : list string) (env : env_map) (request_timeout : Z) (w : E)
  : result McpError McpClient * E :=
  match mcp_spawn {| co_program := command; co_args := args; co_env := env |} w with
  | (Err e, w) => (Err (McpError_Io e), w)
  | (Ok child, w) =>
      (Ok {| mc_child := child; mc_next_id := 1; mc_request_timeout := request_timeout |}, w)
  end.
Definition request_line (id : Z) (method : string) (params : json) : string :=
  json_to_string (json_object [("jsonrpc", JString "2.0"); ("id", JNumber (fmt_Z id)); ("method", JString method);
                               ("params", params)]).
(** [as_i64] and then [i32::try_from]. *)
Definition json_i32 (v : json) : option Z := match v with JNumber t => parse_i32 t | _ => None end.
Definition response_of (resp : json) : result McpError json :=
  match json_get "error" resp with
  | Some err =>
      Err (McpError_ServerError (default (-1)%Z (json_get "code" err ≫= json_i32)) (default "" (json_get_str "message" err)))
  | None => Ok (default JNull (json_get "result" resp))
  end.
(** A request: the client's counter moves on, and a deadline that passes kills the
    server. *)
Definition mcp_request (method : string) (params : json) (c : McpClient) (w : E) : result McpError json * McpClient * E :=
  let id := mc_next_id c in
  let c := {| mc_child := mc_child c; mc_next_id := u64_add id 1; mc_request_timeout := mc_request_timeout c |} in
  match mcp_write (mc_child c) (request_line id method params +++ nl) w with
  | (Err e, w) => (Err (McpError_Io e), c, w)
  | (Ok _, w) =>
      match mcp_read_line (mc_child c) (mc_request_timeout c) w with
      | (LineRead_Timeout, w) =>
          (Err (McpError_TimedOut (Z.min (mc_request_timeout c) u64_max)), c, mcp_kill (mc_child c) w)
      | (LineRead_ReaderGone, w) => (Err McpError_Disconnected, c, w)
      | (LineRead_Error e, w) => (Err (McpError_Io e), c, w)
      | (LineRead_Eof, w) => (Err McpError_Disconnected, c, w)
      | (LineRead_Line line, w) =>
          (match json_from_str line with
           | None => Err (McpError_InvalidResponse ("parse response: " +++ json_parse_error line))
           | Some resp => response_of resp
           end, c, w)
      end
  end.
Definition manager_register (cfg : ServerConfig) (m : McpConnectionManager) (w : E)
  : result McpError unit * McpConnectionManager * E :=
  if bool_decide (is_Some (m !! sc_server_id cfg)) then (Err (McpError_DuplicateServer (sc_server_id cfg)), m, w)
  else match spawn_with_timeout (sc_command cfg) (sc_args cfg) (sc_env cfg) (sc_request_timeout cfg) w with
       | (Err e, w) => (Err e, m, w)
       | (Ok client, w) => (Ok tt, <[sc_server_id cfg := client]> m, w)
       end.
Definition manager_contains (server_id : string) (m : McpConnectionManager) : bool := bool_decide (is_Some (m !! server_id)).
Definition server_ids (m : McpConnectionManager) : list string := (map_to_list m).*1.
(** [with_client] around one request. *)
Definition with_client_request (server_id method : string) (params : json) (m : McpConnectionManager) (w : E)
  : result McpError json * McpConnectionManager * E :=
  match m !! server_id with
  | None => (Err (McpError_UnknownServer server_id), m, w)
  | Some c => let '(r, c, w) := mcp_request method params c w in (r, <[server_id := c]> m, w)
  end.
End Mcp.

(** * Manifests ([manifest.rs], [error.rs]) *)
Class PluginTypes := {
  Version : Type;
  TomlValue : Type;
  version_to_string : Version -> string;
  version_compare : Version -> Version -> comparison;
}.
Inductive PluginManifestVersion := PluginManifestVersion_V1.
Definition PluginManifestVersion_as_u8 (v : PluginManifestVersion) : Z := match v with PluginManifestVersion_V1 => 1 end.
Record SkillContribution := { skc_id : string; skc_path : string }.
Record HookContribution := { hkc_event : string; hkc_command : string; hkc_args : list string }.
Record McpContribution := { mcc_server_id : string; mcc_command : string; mcc_args : list string; mcc_env : env_map }.
Record ConnectorContribution := { cnc_id : string; cnc_endpoint : string }.
Record CommandContribution := { cmc_name : string; cmc_command : string }.
Record AgentContribution := { agc_id : string; agc_config_path : string }.
Record SystemPromptContribution := { spc_id : string; spc_path : string }.
Record ContributesSection := {
  cs_skills : list SkillContribution;
  cs_hooks : list HookContribution;
  cs_mcp : list McpContribution;
  cs_connectors : list ConnectorContribution;
  cs_commands : list CommandContribution;
  cs_agents : list AgentContribution;
  cs_system_prompts : list SystemPromptContribution;
}.
Record TrustSection := { ts_source : option string; ts_require_explicit_trust : bool }.
Record PluginManifest `{PluginTypes} := {
  pm_manifest_version : PluginManifestVersion;
  pm_id : string;
  pm_version : Version;
  pm_name : option string;
  pm_description : option string;
  pm_active : bool;
  pm_contributes : ContributesSection;
  pm_trust : TrustSection;
  pm_meta : gmap string TomlValue;
}.
Inductive ManifestError :=
| ManifestError_Io (e : IoErrorKind)
| ManifestError_Toml (e : string)
| ManifestError_UnsupportedVersion (v : Z)
| ManifestError_InvalidSchema (message : string).
(** [toml::from_str] and [toml::to_string_pretty] of a manifest. *)
Class ManifestToml `{PluginTypes} := {
  toml_from_str : string -> result string PluginManifest;
  toml_to_string : PluginManifest -> result string string;
}.
Definition is_blank (s : string) : bool := bool_decide (trim s = "").
Fixpoint validate_skills (skills : list SkillContribution) : result ManifestError unit :=
  match skills with
  | [] => Ok tt
  | skill :: rest =>
      if is_blank (skc_id skill) then Err (ManifestError_InvalidSchema "skill contribution `id` must not be empty")
      else if contains ".." (skc_path skill)
           then Err (ManifestError_InvalidSchema ("skill path `" +++ skc_path skill +++ "` contains parent-dir traversal"))
           else validate_skills rest
  end.

(** The operator's table ([aura-config/src/plugins.rs]). *)
Record PluginConfig := { pc_enabled : bool; pc_trusted : bool; pc_version : option string }.
Definition PluginConfig_defaults : PluginConfig := {| pc_enabled := false; pc_trusted := false; pc_version := None |}.
Abbreviation PluginsTable := (gmap string PluginConfig).

Section Core.
Context `{PT : PluginTypes} `{!ManifestToml}.
Definition manifest_validate (m : PluginManifest) : result ManifestError unit :=
  if is_blank (pm_id m) then Err (ManifestError_InvalidSchema "manifest `id` must not be empty")
  else validate_skills (cs_skills (pm_contributes m)).
Definition from_toml_str (s : string) : result ManifestError PluginManifest :=
  parsed ← map_err ManifestError_Toml (toml_from_str s);
  _ ← manifest_validate parsed;
  Ok parsed.
Definition to_toml_string (m : PluginManifest) : result ManifestError string :=
  _ ← manifest_validate m;
  map_err (fun e => ManifestError_InvalidSchema ("toml serialize failed: " +++ e)) (toml_to_string m).

(** ** Discovery ([discover.rs]) *)
Inductive ManifestAlias := ManifestAlias_Aura | ManifestAlias_Codex | ManifestAlias_Claude.
Definition dir_name (a : ManifestAlias) : string :=
  match a with
  | ManifestAlias_Aura => ".aura-plugin"
  | ManifestAlias_Codex => ".codex-plugin"
  | ManifestAlias_Claude => ".claude-plugin"
  end.
Definition relative_path (a : ManifestAlias) : string := path_join (dir_name a) "manifest.toml".
Definition ManifestAlias_ALL : list ManifestAlias := [ManifestAlias_Aura; ManifestAlias_Codex; ManifestAlias_Claude].
Record DiscoveredManifest := { dm_alias : ManifestAlias; dm_path : string; dm_manifest : PluginManifest }.
Fixpoint discover_from (aliases : list ManifestAlias) (fs : FileSystem) (source : string)
  : result ManifestError (option DiscoveredManifest) :=
  match aliases with
  | [] => Ok None
  | alias :: rest =>
      let path := path_join source (relative_path alias) in
      if path_is_file fs path then
        body ← map_err ManifestError_Io (read_to_string fs path);
        manifest ← from_toml_str body;
        Ok (Some {| dm_alias := alias; dm_path := path; dm_manifest := manifest |})
      else discover_from rest fs source
  end.
Definition discover_manifest : FileSystem -> string -> result ManifestError (option DiscoveredManifest) :=
  discover_from ManifestAlias_ALL.
(** [a_active.cmp(&b_active).then_with(version)]; [max_by] keeps the last of equals. *)
Definition preference (a b : DiscoveredManifest) : comparison :=
  match Bool.compare (pm_active (dm_manifest a)) (pm_active (dm_manifest b)) with
  | Eq => version_compare (pm_version (dm_manifest a)) (pm_version (dm_manifest b))
  | c => c
  end.
Definition max_step (best : option DiscoveredManifest) (x : DiscoveredManifest) : option DiscoveredManifest :=
  match best with
  | None => Some x
  | Some b => match preference b x with Gt => Some b | _ => Some x end
  end.
Definition pick_preferred (candidates : list DiscoveredManifest) : option DiscoveredManifest :=
  foldl max_step None candidates.

(** ** The cache ([cache.rs]); a cache is its root *)
Definition plugin_dir (root id : string) : string := path_join root id.
Definition version_dir (root id version : string) : string := path_join (plugin_dir root id) version.
Definition active_pointer (root id : string) : string := path_join (plugin_dir root id) "active".
Definition active_version (fs : FileSystem) (root id : string) : result IoErrorKind (option string) :=
  let p := active_pointer root id in
  if negb (path_exists fs p) then Ok None
  else match read_to_string fs p with
       | Ok s => Ok (if is_blank s then None else Some (trim s))
       | Err _ => target ← read_link fs p; Ok (path_file_name target)
       end.
(** Renaming over the pointer, a second time after removing it. *)
Definition swap_pointer (tmp p : string) : stm FileSystem IoErrorKind unit := fun fs =>
  match rename tmp p fs with
  | (Ok _, fs) => (Ok tt, fs)
  | (Err e, fs) =>
      if path_exists fs p then
        match remove_file p fs with
        | (Ok _, fs) => rename tmp p fs
        | (Err e, fs) => (Err e, fs)
        end
      else (Err e, fs)
  end.
(** [with_extension] on a name that has none. *)
Definition pointer_temp (root id : string) : string := active_pointer root id +++ ".tmp".
Definition set_active (root id version : string) : stm FileSystem IoErrorKind unit :=
  _ ← create_dir_all (plugin_dir root id);
  _ ← write_file (pointer_temp root id) version;
  swap_pointer (pointer_temp root id) (active_pointer root id).
Definition dir_names (entries : list (string * Node)) : list string :=
  omap (fun '(name, n) => match n with Node_Dir => Some name | _ => None end) entries.
Definition list_versions (fs : FileSystem) (root id : string) : result IoErrorKind (list string) :=
  let dir := plugin_dir root id in
  if negb (path_exists fs dir) then Ok []
  else entries ← read_dir fs dir;
       Ok (merge_sort String.le (List.filter (fun n => negb (bool_decide (n = "active"))) (dir_names entries))).
Definition list_plugins (fs : FileSystem) (root : string) : result IoErrorKind (list string) :=
  if negb (path_exists fs root) then Ok []
  else entries ← read_dir fs root; Ok (merge_sort String.le (dir_names entries)).

(** ** Installing ([install.rs]) *)
Inductive FileType := FileType_Dir | FileType_File | FileType_Other.
Context (walk_dir : FileSystem -> string -> list (result IoErrorKind (string * FileType))).
Inductive PluginInstallError :=
| PluginInstallError_Manifest (e : ManifestError)
| PluginInstallError_Io (e : IoErrorKind)
| PluginInstallError_AlreadyInstalled (id existing : string)
| PluginInstallError_SourceNotDirectory (source : string)
| PluginInstallError_MissingManifest (source : string)
| PluginInstallError_TrustRequired (id : string).
Record InstalledPlugin := { ip_manifest : PluginManifest; ip_version_dir : string; ip_source_alias : ManifestAlias }.
Definition copy_entry (src dst path : string) (t : FileType) : stm FileSystem IoErrorKind unit :=
  match path_strip_prefix src path with
  | None => mret tt
  | Some rel =>
      if bool_decide (rel = "") then mret tt
      else let target := path_join dst rel in
           match t with
           | FileType_Dir => create_dir_all target
           | FileType_File =>
               _ ← match path_parent target with Some parent => create_dir_all parent | None => mret tt end;
               copy_file path target
           | FileType_Other => mret tt
           end
  end.
Fixpoint copy_entries (src dst : string) (entries : list (result IoErrorKind (string * FileType)))
  : stm FileSystem IoErrorKind unit :=
  match entries with
  | [] => mret tt
  | Err e :: _ => fails e
  | Ok (path, t) :: rest => _ ← copy_entry src dst path t; copy_entries src dst rest
  end.
Definition copy_tree (src dst : string) : stm FileSystem IoErrorKind unit :=
  _ ← create_dir_all dst;
  entries ← gets (fun fs => walk_dir fs src);
  copy_entries src dst entries.


Definition io {A} : stm FileSystem IoErrorKind A -> stm FileSystem PluginInstallError A := stm_map_err PluginInstallError_Io.
Definition when {S E} (b : bool) (m : stm S E unit) : stm S E unit := if b then m else mret tt.
Definition check_installed (root id version : string) : stm FileSystem PluginInstallError unit :=
  there ← gets (fun fs => path_exists fs (version_dir root id version));
  if (there : bool) then
    active ← io (reads (fun fs => active_version fs root id));
    if bool_decide (active = Some version) then fails (PluginInstallError_AlreadyInstalled id version) else mret tt
  else mret tt.
Definition fill_temp (source root id version : string) (m : PluginManifest) : stm FileSystem PluginInstallError string :=
  let dir := plugin_dir root id in
  _ ← io (create_dir_all dir);
  let tmp := path_join dir (version +++ ".tmp") in
  there ← gets (fun fs => path_exists fs tmp);
  _ ← io (when (there : bool) (remove_dir_all tmp));
  _ ← io (create_dir_all tmp);
  _ ← io (copy_tree source tmp);
  normalised ← lift (map_err PluginInstallError_Manifest (to_toml_string m));
  _ ← io (write_file (path_join tmp ".aura-plugin.toml") normalised);
  mret tmp.
(** Renaming into place, or copying when the rename fails. *)
Definition move_into (tmp target : string) : stm FileSystem PluginInstallError unit := fun fs =>
  match rename tmp target fs with
  | (Ok _, fs) => (Ok tt, fs)
  | (Err _, fs) => io (_ ← copy_tree tmp target; remove_dir_all tmp) fs
  end.
Definition promote (tmp target : string) : stm FileSystem PluginInstallError unit :=
  there ← gets (fun fs => path_exists fs target);
  _ ← io (when (there : bool) (remove_dir_all target));
  move_into tmp target.
Definition install_with_trust (source root : string) (trust_override : bool) : stm FileSystem PluginInstallError InstalledPlugin :=
  is_dir ← gets (fun fs => path_is_dir fs source);
  if negb (is_dir : bool) then fails (PluginInstallError_SourceNotDirectory source)
  else
    found ← reads (fun fs => map_err PluginInstallError_Manifest (discover_manifest fs source));
    match found : option DiscoveredManifest with
    | None => fails (PluginInstallError_MissingManifest source)
    | Some d =>
        let m := dm_manifest d in
        _ ← lift (map_err PluginInstallError_Manifest (manifest_validate m));
        if ts_require_explicit_trust (pm_trust m) && negb trust_override
        then fails (PluginInstallError_TrustRequired (pm_id m))
        else
          let id := pm_id m in
          let version := version_to_string (pm_version m) in
          let target := version_dir root id version in
          _ ← check_installed root id version;
          tmp ← fill_temp source root id version m;
          _ ← promote tmp target;
          _ ← io (set_active root id version);
          mret {| ip_manifest := m; ip_version_dir := target; ip_source_alias := dm_alias d |}
    end.
Definition install (source root : string) : stm FileSystem PluginInstallError InstalledPlugin := install_with_trust source root false.

(** ** Trust ([trust.rs]) *)
Inductive EnableDecision := EnableDecision_Enabled | EnableDecision_TrustDeclined | EnableDecision_AlreadyTrusted.
Inductive EnableError :=
| EnableError_Io (e : IoErrorKind)
| EnableError_NotInstalled (id : string)
| EnableError_Manifest (e : ManifestError).
Record PluginEnableState := { pes_enabled : option bool; pes_trusted : option bool }.
Record EnableOutcome := { eo_decision : EnableDecision; eo_version : string; eo_trusted_after : bool; eo_enabled_after : bool }.
Definition read_active_manifest (fs : FileSystem) (version_dir : string) : result EnableError PluginManifest :=
  body ← map_err EnableError_Io (read_to_string fs (path_join version_dir ".aura-plugin.toml"));
  map_err EnableError_Manifest (from_toml_str body).
Definition fmt_len {A} (l : list A) : string := fmt_Z (Z.of_nat (length l)).
Definition summarise_contributions (m : PluginManifest) : string :=
  let c := pm_contributes m in
  "skills(" +++ fmt_len (cs_skills c) +++ "), hooks(" +++ fmt_len (cs_hooks c) +++ "), mcp(" +++ fmt_len (cs_mcp c)
  +++ "), connectors(" +++ fmt_len (cs_connectors c) +++ "), commands(" +++ fmt_len (cs_commands c)
  +++ "), agents(" +++ fmt_len (cs_agents c) +++ "), system_prompts(" +++ fmt_len (cs_system_prompts c) +++ ")".
(** A prompter answers from the plugin, its version, its source and the summary. *)
Definition TrustPrompter (E : Type) : Type := string -> string -> option string -> string -> E -> bool * E.
Definition AlwaysYes {E} : TrustPrompter E := fun _ _ _ _ w => (true, w).
Definition AlwaysNo {E} : TrustPrompter E := fun _ _ _ _ w => (false, w).
(** [TtyPrompter] on the line that was read, [None] when writing or reading failed. *)
Definition tty_answer (line : option string) : bool :=
  match line with
  | None => false
  | Some line => let a := to_ascii_lowercase (trim line) in bool_decide (a = "y") || bool_decide (a = "yes")
  end.
Definition enable_with_prompter {E} (fs : FileSystem) (root id : string) (prior : PluginEnableState)
    (prompter : TrustPrompter E) (w : E) : result EnableError EnableOutcome * E :=
  match map_err EnableError_Io (active_version fs root id) with
  | Err e => (Err e, w)
  | Ok None => (Err (EnableError_NotInstalled id), w)
  | Ok (Some version) =>
      match read_active_manifest fs (version_dir root id version) with
      | Err e => (Err e, w)
      | Ok manifest =>
          let outcome d b := Ok {| eo_decision := d; eo_version := version; eo_trusted_after := b; eo_enabled_after := b |} in
          if negb (ts_require_explicit_trust (pm_trust manifest)) then (outcome EnableDecision_Enabled true, w)
          else if bool_decide (pes_trusted prior = Some true) then (outcome EnableDecision_AlreadyTrusted true, w)
          else let '(confirmed, w) := prompter id version (ts_source (pm_trust manifest)) (summarise_contributions manifest) w in
               (if confirmed then outcome EnableDecision_Enabled true else outcome EnableDecision_TrustDeclined false, w)
      end
  end.
Definition EnableDecision_display (d : EnableDecision) : string :=
  match d with
  | EnableDecision_Enabled => "enabled"
  | EnableDecision_TrustDeclined => "trust declined; plugin not enabled"
  | EnableDecision_AlreadyTrusted => "already trusted; plugin enabled"
  end.

(** ** The marketplace catalogue ([marketplace.rs]) *)
Record MarketplaceEntry := { me_id : string; me_latest_version : string; me_source_url : string; me_description : option string }.
Record MarketplaceManifest := { mm_registry : string; mm_plugins : list MarketplaceEntry }.
Definition marketplace_find (m : MarketplaceManifest) (id : string) : option MarketplaceEntry :=
  find (fun p => bool_decide (me_id p = id)) (mm_plugins m).

(** ** Loading the enabled plugins ([runtime.rs]) *)
Definition live_row (row : PluginConfig) : bool := pc_enabled row && pc_trusted row.
Definition plugin_enabled (plugin_id : string) (cfg : PluginsTable) : bool :=
  match cfg !! plugin_id with
  | Some row => live_row row
  | None => existsb (fun '(k, row) => live_row row && (bool_decide (k = plugin_id) || starts_with (plugin_id +++ "@") k))
              (map_to_list cfg)
  end.
Definition read_manifest (fs : FileSystem) (path : string) : result string PluginManifest :=
  body ← map_err (fun e => "read manifest " +++ path +++ ": " +++ io_error_text e) (read_to_string fs path);
  map_err (fun e => "parse manifest: " +++ match e with
     | ManifestError_Io e => "io error: " +++ io_error_text e
     | ManifestError_Toml e => "toml parse error: " +++ e
     | ManifestError_UnsupportedVersion v => "unsupported manifest version: " +++ fmt_Z v
     | ManifestError_InvalidSchema s => "invalid manifest schema: " +++ s
     end) (from_toml_str body).
Fixpoint snake_tail (s : string) : string :=
  match s with
  | EmptyString => EmptyString
  | String c t => (if bool_decide (ascii_lower c = c) then "" else "_") +++ String (ascii_lower c) (snake_tail t)
  end.
Definition pascal_to_snake (s : string) : string :=
  match s with EmptyString => EmptyString | String c t => String (ascii_lower c) (snake_tail t) end.
Definition parse_hook_event (s : string) : option HookEvent :=
  match HookEvent_parse_wire s with
  | Some e => Some e
  | None => match HookEvent_parse_wire (to_ascii_lowercase s) with
            | Some e => Some e
            | None => HookEvent_parse_wire (pascal_to_snake s)
            end
  end.
Definition resolve_command_for_spawn (command plugin_root : string) : string :=
  if is_absolute command then command
  else if contains_char "/" command || contains_char "\" command then path_join plugin_root command
  else command.
Record PluginRuntime := {
  rt_hook_engine : HookEngine;
  rt_mcp : McpConnectionManager;
  rt_connectors : ConnectorRegistry;
  rt_skill_roots : list string;
  rt_enabled : list PluginRef;
  rt_load_failures : list PluginLoadFailure;
}.
#[export] Instance PluginRuntime_settable : Settable PluginRuntime := fun r =>
  {| rt_hook_engine := rt_hook_engine r; rt_mcp := rt_mcp r; rt_connectors := rt_connectors r;
     rt_skill_roots := rt_skill_roots r; rt_enabled := rt_enabled r; rt_load_failures := rt_load_failures r |}.
Definition PluginRuntime_default : PluginRuntime :=
  {| rt_hook_engine := HookEngine_new; rt_mcp := ∅; rt_connectors := ∅; rt_skill_roots := []; rt_enabled := [];
     rt_load_failures := [] |}.
Definition PluginRuntime_is_empty (r : PluginRuntime) : bool := bool_decide (rt_enabled r = []).
Definition add_skill_root (plugin_root : string) (roots : list string) (skill : SkillContribution) : list string :=
  let parent := default plugin_root (path_parent (path_join plugin_root (skc_path skill))) in
  if existsb (fun r => bool_decide (path_components r = path_components parent)) roots then roots else roots ++ [parent].
Definition hook_of (plugin_id plugin_root : string) (h : HookContribution) : option RegisteredHook :=
  event ← parse_hook_event (hkc_event h);
  Some {| rh_plugin_id := plugin_id; rh_event := event; rh_command := hkc_command h; rh_args := hkc_args h;
          rh_plugin_root := plugin_root; rh_env := ∅ |}.
Definition register_hook (plugin_id plugin_root : string) (eng : HookEngine) (h : HookContribution) : HookEngine :=
  match hook_of plugin_id plugin_root h with Some hook => HookEngine_register hook eng | None => eng end.
Definition server_config (plugin_root : string) (c : McpContribution) : ServerConfig :=
  {| sc_server_id := mcc_server_id c; sc_command := resolve_command_for_spawn (mcc_command c) plugin_root;
     sc_args := mcc_args c; sc_env := mcc_env c; sc_request_timeout := DEFAULT_MCP_REQUEST_TIMEOUT |}.
Definition connector_entry (plugin_id : string) (c : ConnectorContribution) : ConnectorEntry :=
  {| ce_id := cnc_id c; ce_plugin_id := plugin_id; ce_endpoint := cnc_endpoint c |}.

Section Load.
Context {E : Type} `{!McpWorld E}.
Fixpoint register_servers (plugin_root : string) (l : list McpContribution) (m : McpConnectionManager) (w : E)
  : McpConnectionManager * E :=
  match l with
  | [] => (m, w)
  | c :: rest => let '(_, m, w) := manager_register (server_config plugin_root c) m w in
                 register_servers plugin_root rest m w
  end.
Definition materialise_one (p : PluginRef) (manifest : PluginManifest) (plugin_root : string) (rt : PluginRuntime) (w : E)
  : PluginRuntime * E :=
  let c := pm_contributes manifest in
  let rt := rt <| rt_skill_roots := foldl (add_skill_root plugin_root) (rt_skill_roots rt) (cs_skills c) |> in
  let rt := rt <| rt_hook_engine := foldl (register_hook (pr_id p) plugin_root) (rt_hook_engine rt) (cs_hooks c) |> in
  let '(m, w) := register_servers plugin_root (cs_mcp c) (rt_mcp rt) w in
  let rt := rt <| rt_mcp := m |> in
  (rt <| rt_connectors := foldl (fun r c => (connector_replace (connector_entry (pr_id p) c) r).2)
                            (rt_connectors rt) (cs_connectors c) |>, w).
Definition note_failure (plugin_id reason : string) (rt : PluginRuntime) : PluginRuntime :=
  rt <| rt_load_failures := rt_load_failures rt ++ [{| plf_plugin_id := plugin_id; plf_reason := reason |}] |>.
Definition load_one (fs : FileSystem) (cfg : PluginsTable) (root plugin_id : string) (rt : PluginRuntime) (w : E)
  : PluginRuntime * E :=
  if negb (plugin_enabled plugin_id cfg) then (rt, w)
  else match active_version fs root plugin_id with
       | Err e => (note_failure plugin_id ("read active version: " +++ io_error_text e) rt, w)
       | Ok None => (rt, w)
       | Ok (Some version) =>
           let dir := version_dir root plugin_id version in
           match read_manifest fs (path_join dir ".aura-plugin.toml") with
           | Err reason => (note_failure plugin_id reason rt, w)
           | Ok manifest =>
               let p := {| pr_id := pm_id manifest; pr_version := version_to_string (pm_version manifest) |} in
               let '(rt, w) := materialise_one p manifest dir rt w in
               (rt <| rt_enabled := rt_enabled rt ++ [p] |>, w)
           end
       end.
Fixpoint load_plugins (fs : FileSystem) (cfg : PluginsTable) (root : string) (ids : list string) (rt : PluginRuntime) (w : E)
  : PluginRuntime * E :=
  match ids with
  | [] => (rt, w)
  | id :: rest => let '(rt, w) := load_one fs cfg root id rt w in load_plugins fs cfg root rest rt w
  end.
(** The error of the signature is never produced. *)
Definition load_enabled_plugins (fs : FileSystem) (aura_home : string) (cfg : PluginsTable) (w : E) : PluginRuntime * E :=
  let root := path_join aura_home "plugins" in
  let plugin_ids := match list_plugins fs root with Ok ids => ids | Err _ => [] end in
  load_plugins fs cfg root plugin_ids PluginRuntime_default w.
End Load.
End Core.
