(* ===== verification/PluginsProps.v ===== *)
(** What the plugin system guarantees: only plugins that are enabled and trusted
    contribute anything to a session, a gated plugin is not installed without trust
    and leaves no trace, the active version is what was last set, the preferred of
    several manifests is the active one of the highest version, and the registries
    keep their first or last owner. *)
From S2P Require Import Prelude Values CoreTypes Utf8 Text Exec ToolCache FileSystem Sandbox FsTools FsToolsProps Hooks HooksProps Plugins.
From stdpp Require Import list sorting.
From Stdlib Require Import Ascii Strings.Byte.

(** * Loading *)
Section Loading.
Context `{PT : PluginTypes} `{!ManifestToml} {E : Type} `{!McpWorld E}.
Context (fs : FileSystem) (cfg : PluginsTable) (root : string).

(** What the configuration says of a plugin: its own row enables and trusts it, or it has
    no row of its own and a row for it in some marketplace does. *)
Definition enabled_and_trusted (id : string) : Prop :=
  match cfg !! id with
  | Some row => pc_enabled row = true /\ pc_trusted row = true
  | None => exists key row, cfg !! key = Some row /\ starts_with (id +++ "@") key = true
                            /\ pc_enabled row = true /\ pc_trusted row = true
  end.
Lemma plugin_enabled_spec id : plugin_enabled id cfg = true -> enabled_and_trusted id.
Proof.
  unfold plugin_enabled, enabled_and_trusted, live_row. destruct (cfg !! id) as [row|] eqn:Hid; [by intros [? ?]%andb_true_iff|].
  intros ([key row] & Hin & Hrow)%existsb_exists. apply andb_true_iff in Hrow as [[He Ht]%andb_true_iff Hk].
  apply list_elem_of_In, elem_of_map_to_list in Hin. apply orb_true_iff in Hk as [->%bool_decide_eq_true|Hk]; [congruence|].
  by exists key, row.
Qed.
(** A manifest the loader may use: that of the active version of a plugin that is
    enabled and trusted. *)
Record admitted (dir : string) (m : PluginManifest) (id : string) : Prop := {
  ad_enabled : enabled_and_trusted id;
  ad_active : exists version, active_version fs root id = Ok (Some version) /\ dir = version_dir root id version;
  ad_manifest : read_manifest fs (path_join dir ".aura-plugin.toml") = Ok m;
}.
(** The client's process was started with the command, the arguments and the environment
    of the contribution. *)
Definition started_as (dir : string) (s : McpContribution) (c : McpClient) : Prop :=
  exists w w' : E,
    mcp_spawn {| co_program := resolve_command_for_spawn (mcc_command s) dir; co_args := mcc_args s; co_env := mcc_env s |} w
      = (Ok (mc_child c), w').
(** Everything a runtime holds comes from such a manifest. *)
Record sourced (rt : PluginRuntime) : Prop := {
  so_hooks e hook : hook ∈ hooks_for (rt_hook_engine rt) e ->
    exists dir m id h, admitted dir m id /\ h ∈ cs_hooks (pm_contributes m) /\ hook_of (pm_id m) dir h = Some hook
                       /\ rh_event hook = e;
  so_servers sid c : rt_mcp rt !! sid = Some c ->
    exists dir m id s, admitted dir m id /\ s ∈ cs_mcp (pm_contributes m) /\ mcc_server_id s = sid /\ started_as dir s c;
  so_connectors cid c : rt_connectors rt !! cid = Some c ->
    exists dir m id k, admitted dir m id /\ k ∈ cs_connectors (pm_contributes m) /\ c = connector_entry (pm_id m) k
                       /\ ce_id c = cid;
  so_skills p : p ∈ rt_skill_roots rt ->
    exists dir m id s, admitted dir m id /\ s ∈ cs_skills (pm_contributes m)
                       /\ p = default dir (path_parent (path_join dir (skc_path s)));
  so_enabled p : p ∈ rt_enabled rt -> exists dir m id, admitted dir m id /\ pr_id p = pm_id m;
}.

Lemma register_hooks_origin pid dir hs eng e hook :
  hook ∈ hooks_for (foldl (register_hook pid dir) eng hs) e ->
  hook ∈ hooks_for eng e \/ exists h, h ∈ hs /\ hook_of pid dir h = Some hook /\ rh_event hook = e.
Proof.
  revert eng. induction hs as [|h hs IH]; intros eng Hin; [by left|]. cbn in Hin. apply IH in Hin as [Hin|(h' & ? & ? & ?)].
  - unfold register_hook in Hin. destruct (hook_of pid dir h) as [hk|] eqn:Hh; [|by left].
    rewrite hooks_for_register in Hin. apply elem_of_app in Hin as [Hin|Hin]; [by left|].
    case_bool_decide as He; [|by apply elem_of_nil in Hin]. apply list_elem_of_singleton in Hin as ->.
    right. exists h. split_and!; [apply list_elem_of_here|done|done].
  - right. exists h'. split_and!; [by apply list_elem_of_further|done|done].
Qed.
Lemma register_servers_origin dir l m (w : E) m' w' sid c :
  register_servers dir l m w = (m', w') -> m' !! sid = Some c ->
  m !! sid = Some c \/ exists s, s ∈ l /\ mcc_server_id s = sid /\ started_as dir s c.
Proof.
  revert m w. induction l as [|s l IH]; intros m w Hr Hc; cbn in Hr; [injection Hr as <- <-; eauto|].
  destruct (manager_register (server_config dir s) m w) as [[r m1] w1] eqn:Hm.
  destruct (IH _ _ Hr Hc) as [Hs|(s' & ? & ? & ?)]; [|right; exists s'; split_and!; [by apply list_elem_of_further|done|done]].
  unfold manager_register in Hm. case_bool_decide; [simplify_eq; by left|].
  unfold spawn_with_timeout in Hm. cbn in Hm.
  destruct (mcp_spawn _ w) as [[child|e] w2] eqn:Hsp; simplify_eq; [|by left].
  destruct (decide (mcc_server_id s = sid)) as [He|He].
  - right. exists s. split_and!; [apply list_elem_of_here|done|].
    rewrite He, lookup_insert in Hs. rewrite decide_True in Hs by done. injection Hs as <-. by exists w, w1.
  - left. by rewrite lookup_insert_ne in Hs.
Qed.
Lemma connectors_origin pid l r cid c :
  foldl (fun r k => (connector_replace (connector_entry pid k) r).2) r l !! cid = Some c ->
  r !! cid = Some c \/ exists k, k ∈ l /\ c = connector_entry pid k /\ ce_id c = cid.
Proof.
  revert r. induction l as [|k l IH]; intros r Hc; [by left|]. cbn in Hc. apply IH in Hc as [Hc|(k' & ? & ? & ?)].
  - destruct (decide (cnc_id k = cid)) as [He|He].
    + rewrite He, lookup_insert in Hc. rewrite decide_True in Hc by done. injection Hc as <-.
      right. exists k. split_and!; [apply list_elem_of_here|done|done].
    + left. by rewrite lookup_insert_ne in Hc.
  - right. exists k'. split_and!; [by apply list_elem_of_further|done|done].
Qed.
Lemma skills_origin dir l roots p :
  p ∈ foldl (add_skill_root dir) roots l ->
  p ∈ roots \/ exists s, s ∈ l /\ p = default dir (path_parent (path_join dir (skc_path s))).
Proof.
  revert roots. induction l as [|s l IH]; intros roots Hp; [by left|]. cbn in Hp. apply IH in Hp as [Hp|(s' & ? & ?)].
  - unfold add_skill_root in Hp. destruct (existsb _ roots); [by left|].
    apply elem_of_app in Hp as [Hp|Hp]; [by left|]. apply list_elem_of_singleton in Hp.
    right. exists s. split; [apply list_elem_of_here|done].
  - right. exists s'. split; [by apply list_elem_of_further|done].
Qed.

Lemma materialise_sourced p m dir id rt (w : E) rt' w' :
  admitted dir m id -> pr_id p = pm_id m -> sourced rt -> materialise_one p m dir rt w = (rt', w') ->
  sourced (rt' <| rt_enabled := rt_enabled rt' ++ [p] |>).
Proof.
  intros Ha Hp [Hh Hs Hc Hk He] Hm. unfold materialise_one in Hm. cbn in Hm.
  destruct (register_servers dir _ (rt_mcp rt) w) as [mg w1] eqn:Hr. injection Hm as <- <-. rewrite Hp.
  split; cbn.
  - intros e hook [?|(h & ? & ? & ?)]%register_hooks_origin; [by apply Hh|]. by exists dir, m, id, h.
  - intros sid c Hsc. destruct (register_servers_origin _ _ _ _ _ _ _ _ Hr Hsc) as [?|(s & ? & ? & ?)]; [by eapply Hs|].
    by exists dir, m, id, s.
  - intros cid c [?|(k & ? & ? & ?)]%connectors_origin; [by apply Hc|]. by exists dir, m, id, k.
  - intros q [?|(s & ? & ?)]%skills_origin; [by apply Hk|]. by exists dir, m, id, s.
  - intros q [?|Hq]%elem_of_app; [by apply He|]. apply list_elem_of_singleton in Hq as ->. by exists dir, m, id.
Qed.
Lemma load_one_sourced id rt (w : E) rt' w' :
  sourced rt -> load_one fs cfg root id rt w = (rt', w') -> sourced rt'.
Proof.
  intros Hrt. unfold load_one. destruct (plugin_enabled id cfg) eqn:Hen; cbn; [|by intros [= <- <-]].
  destruct (active_version fs root id) as [[version|]|e] eqn:Hv; [| by intros [= <- <-] |].
  2:{ intros [= <- <-]. by destruct Hrt. }
  destruct (read_manifest fs _) as [m|reason] eqn:Hm; [|intros [= <- <-]; by destruct Hrt].
  destruct (materialise_one _ m _ rt w) as [rt1 w1] eqn:Hmat. intros [= <- <-].
  eapply materialise_sourced in Hmat; [exact Hmat| |done|done]. split; [by apply plugin_enabled_spec|eauto|done].
Qed.
Lemma load_plugins_sourced ids rt (w : E) rt' w' :
  sourced rt -> load_plugins fs cfg root ids rt w = (rt', w') -> sourced rt'.
Proof.
  revert rt w. induction ids as [|id ids IH]; intros rt w Hrt Hl; cbn in Hl; [by simplify_eq|].
  destruct (load_one fs cfg root id rt w) as [rt1 w1] eqn:H1. eapply IH; [|exact Hl]. by eapply load_one_sourced.
Qed.
Lemma default_sourced : sourced PluginRuntime_default.
Proof.
  split; cbn.
  - intros e hook Hin. by apply elem_of_nil in Hin.
  - intros sid c Hc. by rewrite lookup_empty in Hc.
  - intros cid c Hc. by rewrite lookup_empty in Hc.
  - intros p Hp. by apply elem_of_nil in Hp.
  - intros p Hp. by apply elem_of_nil in Hp.
Qed.
End Loading.

Lemma load_enabled_sourced `{PT : PluginTypes} `{!ManifestToml} {E : Type} `{!McpWorld E} fs home cfg (w : E) :
  sourced fs cfg (path_join home "plugins") (load_enabled_plugins fs home cfg w).1.
Proof.
  unfold load_enabled_plugins. destruct (load_plugins _ _ _ _ _ w) as [rt w'] eqn:Hl.
  eapply load_plugins_sourced; [apply default_sourced|exact Hl].
Qed.
(** C40: whatever is on disk, every hook, tool server, connector, skill directory and
    plugin of a loaded runtime comes from the manifest of the active version of a
    plugin that the configuration enables and trusts, by a row for the plugin's name or,
    where there is none, for the plugin in a marketplace; a server's process was started
    with the command, arguments and environment its manifest gives. *)
Theorem loaded_from_trusted_plugins `{PT : PluginTypes} `{!ManifestToml} {E : Type} `{!McpWorld E} fs home cfg (w : E) :
  sourced fs cfg (path_join home "plugins") (load_enabled_plugins fs home cfg w).1.
Proof. apply load_enabled_sourced. Qed.
(** With no plugin enabled and trusted nothing is loaded and no server is started. *)
Lemma nothing_enabled_nothing_loaded `{PT : PluginTypes} `{!ManifestToml} {E : Type} `{!McpWorld E} fs home cfg (w : E) :
  (forall id, plugin_enabled id cfg = false) -> load_enabled_plugins fs home cfg w = (PluginRuntime_default, w).
Proof.
  intros Hn. unfold load_enabled_plugins. generalize (match list_plugins fs (path_join home "plugins") with Ok ids => ids | Err _ => [] end).
  intros ids. induction ids as [|id ids IH]; [done|]. cbn. unfold load_one. by rewrite Hn.
Qed.
(** A loaded hook gets no variable with a secret's name but those its event defines. *)
Lemma loaded_hooks_get_no_secrets `{PT : PluginTypes} `{!ManifestToml} {E : Type} `{!McpWorld E} {C} `{!HookCtx C}
    fs home cfg (w : E) e hook (ctx : C) vars k :
  hook ∈ hooks_for (rt_hook_engine (load_enabled_plugins fs home cfg w).1) e ->
  is_secret_name k = true -> ctx_extra_env ctx !! k = None ->
  scrubbed_env vars (injected_env ctx home hook) !! k = None.
Proof.
  intros Hin Hk Hx. apply scrubbed_env_secret; [done|]. cbn. unfold merge_extra.
  destruct (so_hooks _ _ _ _ (load_enabled_sourced fs home cfg w) _ _ Hin) as (dir & m & id & h & _ & _ & Hh & _).
  unfold hook_of in Hh. destruct (parse_hook_event _); [|done]. cbn in Hh. injection Hh as <-. cbn. by rewrite lookup_union, lookup_empty, Hx.
Qed.

(** * The active version *)
Lemma location_path_snoc loc n : location_path (loc ++ [n]) = path_join (location_path loc) n.
Proof. unfold location_path, path_of_components. by rewrite app_comm_cons, foldl_app. Qed.
Lemma pointer_temp_location loc : path_join (location_path loc) "active" +++ ".tmp" = path_join (location_path loc) "active.tmp".
Proof.
  unfold path_join, path_push. cbn [is_absolute]. change (is_absolute "active") with false. change (is_absolute "active.tmp") with false.
  destruct (bool_decide _ || _); by rewrite ?string_app_assoc.
Qed.
Lemma create_dir_all_there fs loc n :
  canonical fs (loc ++ [n]) -> node_at fs (loc ++ [n]) = Some Node_Dir ->
  create_dir_all (location_path (loc ++ [n])) fs = (Ok tt, fs).
Proof.
  intros Hc Hd. pose proof Hc as (Hnames & _).
  assert (path_is_dir fs (location_path (loc ++ [n])) = true) as His.
  { unfold path_is_dir. by rewrite (metadata_location _ _ Node_Dir). }
  assert (create_dir (location_path (loc ++ [n])) fs = (Err IoErrorKind_AlreadyExists, fs)) as Hcd.
  { unfold create_dir. rewrite location_path_trim by done.
    rewrite bool_decide_eq_false_2 by by apply location_path_nonempty.
    rewrite entry_of_location by done. by rewrite Hd. }
  unfold create_dir_all. destruct (length _); cbn [create_dir_all_from];
    rewrite bool_decide_eq_false_2 by (by apply location_path_nonempty); by rewrite Hcd, His.
Qed.
Lemma canonical_sibling fs loc n m :
  canonical fs (loc ++ [n]) -> is_name m -> not_link fs (loc ++ [m]) -> canonical fs (loc ++ [m]).
Proof.
  intros Hc Hm Hl. pose proof Hc as (_ & Hd & _). apply canonical_child; [|..|done|done].
  - rewrite <- (take_app_length loc [n]). by apply canonical_take.
  - rewrite <- (take_app_length loc [n]). apply Hd. rewrite length_app. cbn. lia.
Qed.
Lemma node_at_above fs fs' d : (forall l, length l <= length d -> node_at fs' l = node_at fs l) ->
  canonical fs d -> canonical fs' d.
Proof.
  intros Heq (Hn & Hd & Hl). split_and!; [done| |].
  - intros k Hk. rewrite Heq; [by apply Hd|]. rewrite length_take. lia.
  - unfold not_link. by rewrite Heq.
Qed.

Section Active.
Context (fs : FileSystem) (loc : list string) (id version : string).
Context (Hdir : canonical fs (loc ++ [id])) (Hd : node_at fs (loc ++ [id]) = Some Node_Dir).
Let A := (loc ++ [id]) ++ ["active"].
Let T := (loc ++ [id]) ++ ["active.tmp"].
Context (HA : not_link fs A) (HT : not_link fs T).

Lemma pointer_path : active_pointer (location_path loc) id = location_path A.
Proof. unfold active_pointer, plugin_dir, A. by rewrite !location_path_snoc. Qed.
Lemma temp_path : pointer_temp (location_path loc) id = location_path T.
Proof.
  unfold pointer_temp, active_pointer, plugin_dir, T. rewrite <- location_path_snoc, pointer_temp_location.
  by rewrite <- location_path_snoc.
Qed.
Lemma write_temp fs2 :
  write_file (location_path T) version fs = (Ok tt, fs2) -> fs2 = set_node T (Node_File (string_to_bytes version)) fs.
Proof.
  intros Hw. destruct (write_file_changes _ _ _ _ _ Hw) as [[_ [e He]]|(l & Hl & -> & _ & _)]; [done|].
  rewrite locate_location in Hl; [by injection Hl as <-| |by right].
  unfold T. apply canonical_child; [done|done|by repeat split|done].
Qed.
Let fs2 := set_node T (Node_File (string_to_bytes version)) fs.
Lemma temp_nonempty : T <> [].
Proof. unfold T. by destruct (loc ++ [id]). Qed.
Lemma node_at_fs2 l : l <> T -> node_at fs2 l = node_at fs l.
Proof. intros Hl. unfold fs2. rewrite node_at_set by apply temp_nonempty. by rewrite bool_decide_eq_false_2. Qed.
Lemma fs2_above : canonical fs2 (loc ++ [id]) /\ node_at fs2 (loc ++ [id]) = Some Node_Dir.
Proof.
  assert (forall l, length l <= length (loc ++ [id]) -> node_at fs2 l = node_at fs l) as Heq.
  { intros l Hl. apply node_at_fs2. intros ->. unfold T in Hl. rewrite !length_app in Hl. cbn in Hl. lia. }
  split; [by eapply node_at_above|]. by rewrite Heq.
Qed.
Lemma A_not_T : A <> T.
Proof. unfold A, T. intros [= H]%app_inv_head. Qed.
Lemma fs2_entries :
  entry_of fs2 (os_parts (location_path T)) = Ok T /\ entry_of fs2 (os_parts (location_path A)) = Ok A.
Proof.
  destruct fs2_above as [Hc Hn]. split; unfold T, A; apply entry_of_location; (apply canonical_child; [done|done|by repeat split|]).
  - change (not_link fs2 T). unfold not_link, fs2. rewrite node_at_set by apply temp_nonempty. by rewrite bool_decide_eq_true_2.
  - change (not_link fs2 A). unfold not_link. rewrite node_at_fs2 by apply A_not_T. exact HA.
Qed.
Lemma remove_pointer_fails e fs3 :
  node_at fs2 A = Some Node_Dir \/ may_add fs2 A = false ->
  (if path_exists fs2 (location_path A) then
     match remove_file (location_path A) fs2 with
     | (Ok _, fs) => rename (location_path T) (location_path A) fs
     | (Err e, fs) => (Err e, fs)
     end else (Err e, fs2)) = (Ok tt, fs3) -> False.
Proof.
  intros Hbad. destruct (path_exists _ _); [|done]. unfold remove_file. rewrite (proj2 fs2_entries).
  destruct (node_at fs2 A) as [[| |t]|] eqn:Hn; try done; destruct Hbad as [Hbad|Hbad]; try done; by rewrite Hbad.
Qed.
Lemma swap_result fs' :
  swap_pointer (location_path T) (location_path A) fs2 = (Ok tt, fs') ->
  fs' = remove_node T (set_node A (Node_File (string_to_bytes version)) fs2).
Proof.
  unfold swap_pointer, rename. rewrite (proj1 fs2_entries), (proj2 fs2_entries).
  assert (node_at fs2 T = Some (Node_File (string_to_bytes version))) as HnT.
  { unfold fs2. rewrite node_at_set by apply temp_nonempty. by rewrite bool_decide_eq_true_2. }
  rewrite HnT, (bool_decide_eq_false_2 (T = A)) by (intros H; by apply A_not_T).
  assert (may_add fs2 T = may_add fs2 A) as ->.
  { unfold may_add, parent_location, T, A. generalize (loc ++ [id]). intros d.
    by rewrite !length_app, !Nat.add_sub, !take_app_length. }
  destruct (may_add fs2 A) eqn:Hm; cbn [andb negb].
  2:{ intros H. exfalso. eapply remove_pointer_fails; [by right|exact H]. }
  destruct (node_at fs2 A) as [[b| |t]|] eqn:HnA; try (by intros [= <-]).
  intros H. exfalso. eapply remove_pointer_fails; [by left|exact H].
Qed.
Lemma read_pointer :
  let fs' := remove_node T (set_node A (Node_File (string_to_bytes version)) fs2) in
  metadata fs' (location_path A) = Ok (A, Node_File (string_to_bytes version)).
Proof.
  intros fs'. assert (A <> []) as HAne by (unfold A; by destruct (loc ++ [id])).
  assert (forall l, node_at fs' l = if bool_decide (l = T) then None
                    else if bool_decide (l = A) then Some (Node_File (string_to_bytes version)) else node_at fs2 l) as Hn.
  { intros l. unfold fs'. rewrite node_at_remove by apply temp_nonempty. by rewrite node_at_set. }
  assert (HnA : node_at fs' A = Some (Node_File (string_to_bytes version))).
  { rewrite Hn, bool_decide_eq_false_2 by apply A_not_T. by rewrite bool_decide_eq_true_2. }
  apply metadata_location; [|done]. destruct fs2_above as [Hc Hdd].
  assert (forall l, length l <= length (loc ++ [id]) -> node_at fs' l = node_at fs2 l) as Heq.
  { intros l Hl. assert (length A = S (length (loc ++ [id])) /\ length T = S (length (loc ++ [id]))) as [? ?]
      by (unfold A, T; rewrite (length_app (loc ++ [id])), (length_app (loc ++ [id])); cbn; lia).
    rewrite Hn, !bool_decide_eq_false_2; [done|..]; intros ->; lia. }
  unfold A. apply canonical_child; [by eapply node_at_above|by rewrite Heq|by repeat split|].
  change (not_link fs' A). unfold not_link. by rewrite HnA.
Qed.
End Active.

(** Setting the active version of an installed plugin and reading it back gives
    that version, whatever pointer was there before; the cache root is a directory
    reached without links, the name of the plugin is one path component and the
    pointer is no link. *)
Theorem set_active_reads_back fs fs' loc id version
    (Hplace : canonical fs (loc ++ [id])) (Hdir : node_at fs (loc ++ [id]) = Some Node_Dir)
    (Hpointer : not_link fs ((loc ++ [id]) ++ ["active"])) (Htemp : not_link fs ((loc ++ [id]) ++ ["active.tmp"]))
    (Hutf8 : from_utf8 (string_to_bytes version) = Some version) (Htrim : trim version = version) (Hne : version <> "")
    (Hset : set_active (location_path loc) id version fs = (Ok tt, fs')) :
  active_version fs' (location_path loc) id = Ok (Some version).
Proof.
  unfold set_active in Hset. rewrite pointer_path, temp_path in Hset.
  apply stm_bind_Ok in Hset as (? & fs1 & Hc & Hset). unfold plugin_dir in Hc. rewrite <- location_path_snoc in Hc.
  rewrite create_dir_all_there in Hc by done. injection Hc as _ <-.
  apply stm_bind_Ok in Hset as ([] & fs2 & Hw & Hset). apply (write_temp fs loc id) in Hw as ->; [|done..].
  apply (swap_result fs loc id version) in Hset as ->; [|done..].
  unfold active_version. rewrite pointer_path. unfold path_exists, read_to_string. rewrite read_pointer by done.
  cbn -[from_utf8]. rewrite Hutf8. cbn. unfold is_blank. by rewrite Htrim, bool_decide_eq_false_2.
Qed.

(** * Trust *)
Section Trust.
Context `{PT : PluginTypes} `{!ManifestToml}.
(** A plugin whose manifest asks for explicit trust is not installed without it, and
    nothing is written. *)
Lemma gated_install_refused walk_dir source root fs d :
  path_is_dir fs source = true -> discover_manifest fs source = Ok (Some d) ->
  ts_require_explicit_trust (pm_trust (dm_manifest d)) = true ->
  exists e, install walk_dir source root fs = (Err e, fs).
Proof.
  intros Hs Hd Ht. unfold install, install_with_trust, gets, reads, lift, mbind, stm_bind.
  rewrite Hs. cbn -[discover_manifest manifest_validate]. rewrite Hd. cbn -[manifest_validate].
  destruct (manifest_validate (dm_manifest d)); cbn; [|eauto]. rewrite Ht. cbn. eauto.
Qed.
(** Enabling gives enabled and trusted together: when the manifest asks for no trust,
    when the operator had given it before, or when it is confirmed now. *)
Lemma enabled_only_with_trust {E} fs root id prior (prompter : TrustPrompter E) w o w' :
  enable_with_prompter fs root id prior prompter w = (Ok o, w') ->
  exists m, read_active_manifest fs (version_dir root id (eo_version o)) = Ok m
    /\ active_version fs root id = Ok (Some (eo_version o))
    /\ eo_enabled_after o = eo_trusted_after o
    /\ (eo_trusted_after o = true <->
        ts_require_explicit_trust (pm_trust m) = false \/ pes_trusted prior = Some true
        \/ (prompter id (eo_version o) (ts_source (pm_trust m)) (summarise_contributions m) w).1 = true).
Proof.
  unfold enable_with_prompter. destruct (active_version fs root id) as [[v|]|] eqn:Ha; cbn; [|done..].
  destruct (read_active_manifest fs _) as [m|] eqn:Hm; [|done].
  destruct (ts_require_explicit_trust (pm_trust m)) eqn:Ht; cbn.
  2:{ intros [= <- <-]. exists m. split_and!; [done|done|done|]. cbn. tauto. }
  case_bool_decide as Hp; [intros [= <- <-]; exists m; split_and!; [done|done|done|]; cbn; tauto|].
  destruct (prompter _ _ _ _ w) as [[|] w1] eqn:Hq; intros [= <- <-]; exists m; cbn; rewrite Hq; cbn; (split_and!; [done|done|done|]).
  - tauto.
  - split; [done|]. intros [?|[?|?]]; congruence.
Qed.
End Trust.

(** * The preferred manifest *)
(** What the documentation of [semver::Version] says of its order. *)
Class VersionOrder `{PT : PluginTypes} : Prop := {
  version_compare_refl v : version_compare v v = Eq;
  version_compare_sym a b : version_compare a b = CompOpp (version_compare b a);
  version_le_trans a b c : version_compare a b <> Gt -> version_compare b c <> Gt -> version_compare a c <> Gt;
}.
Section Preferred.
Context `{PT : PluginTypes} `{!VersionOrder}.
Lemma preference_refl a : preference a a = Eq.
Proof. unfold preference. rewrite version_compare_refl. by destruct (pm_active _). Qed.
Lemma preference_trans a b c : preference a b <> Gt -> preference b c <> Gt -> preference a c <> Gt.
Proof.
  unfold preference. pose proof (version_le_trans (pm_version (dm_manifest a)) (pm_version (dm_manifest b)) (pm_version (dm_manifest c))).
  destruct (pm_active (dm_manifest a)), (pm_active (dm_manifest b)), (pm_active (dm_manifest c)); cbn; try done; tauto.
Qed.
Lemma preference_total a b : preference a b = Gt -> preference b a <> Gt.
Proof.
  unfold preference. rewrite (version_compare_sym (pm_version (dm_manifest b))).
  destruct (pm_active (dm_manifest a)), (pm_active (dm_manifest b)); cbn; try done;
    by destruct (version_compare _ _).
Qed.
Lemma max_from best l :
  exists d, foldl max_step (Some best) l = Some d /\ (d = best \/ d ∈ l)
    /\ preference best d <> Gt /\ forall c, c ∈ l -> preference c d <> Gt.
Proof.
  revert best. induction l as [|x l IH]; intros best.
  - exists best. split_and!; [done|by left|by rewrite preference_refl|]. intros c Hc. by apply elem_of_nil in Hc.
  - cbn [foldl max_step]. set (b := match preference best x with Gt => Some best | _ => Some x end).
    assert (exists y, b = Some y /\ (y = best \/ y = x) /\ preference best y <> Gt /\ preference x y <> Gt) as (y & -> & Hy & H1 & H2).
    { unfold b. destruct (preference best x) eqn:Hp; [exists x|exists x|exists best]; rewrite preference_refl, ?Hp; split_and!; auto.
      by apply preference_total. }
    destruct (IH y) as (d & Hd & Hin & Hb & Hl). exists d. split_and!; [done| | |].
    + destruct Hin as [->|Hin]; [destruct Hy as [->| ->]; [by left|right; apply list_elem_of_here]|].
      right. by apply list_elem_of_further.
    + by eapply preference_trans.
    + intros c [->|Hc]%elem_of_cons; [by eapply preference_trans|by apply Hl].
Qed.
(** Of several manifests the preferred one is among them, no other is preferred to
    it, and it is active when one of them is: an inactive manifest never beats an
    active one, whatever its version. *)
Theorem pick_preferred_best l d (Hpick : pick_preferred l = Some d) :
  d ∈ l /\ (forall c, c ∈ l -> preference c d <> Gt)
  /\ (pm_active (dm_manifest d) = false -> forall c, c ∈ l -> pm_active (dm_manifest c) = false).
Proof.
  unfold pick_preferred in Hpick. destruct l as [|x l]; [done|]. cbn in Hpick.
  destruct (max_from x l) as (d' & Hd & Hin & Hb & Hl). rewrite Hd in Hpick. injection Hpick as ->.
  assert (forall c, c ∈ x :: l -> preference c d <> Gt) as Hall by (by intros c [->|Hc]%elem_of_cons; auto).
  split_and!; [|done|].
  - destruct Hin as [->|Hin]; [apply list_elem_of_here|by apply list_elem_of_further].
  - intros Ha c Hc. specialize (Hall c Hc). unfold preference in Hall. rewrite Ha in Hall.
    by destruct (pm_active (dm_manifest c)).
Qed.
End Preferred.

(** * Registries *)
(** A server keeps its slot: a second registration starts no process. *)
Lemma first_server_wins {E} `{!McpWorld E} cfg m (w : E) c :
  m !! sc_server_id cfg = Some c ->
  manager_register cfg m w = (Err (McpError_DuplicateServer (sc_server_id cfg)), m, w).
Proof. intros Hm. unfold manager_register. by rewrite bool_decide_eq_true_2 by (rewrite Hm; eauto). Qed.
(** A connector belongs to the last plugin that contributed it. *)
Lemma last_connector_wins pid l r k :
  foldl (fun r k => (connector_replace (connector_entry pid k) r).2) r (l ++ [k]) !! cnc_id k
  = Some (connector_entry pid k).
Proof. rewrite foldl_app. cbn. by rewrite lookup_insert, decide_True. Qed.

(** * Flaws *)
Section Flaws.
Context {E : Type} `{!McpWorld E} `{JsonText} `{JsonFromStr} `{JsonParseError}.
(** A server that was killed for not answering keeps its slot: the manager holds its
    client, and a new registration under its name is refused. *)
Lemma timed_out_server_keeps_slot sid method params m (w : E) c w1 w2 cfg w3 :
  m !! sid = Some c -> sc_server_id cfg = sid ->
  mcp_write (mc_child c) (request_line (mc_next_id c) method params +++ nl) w = (Ok tt, w1) ->
  mcp_read_line (mc_child c) (mc_request_timeout c) w1 = (LineRead_Timeout, w2) ->
  exists m', (with_client_request sid method params m w).1.2 = m'
    /\ (with_client_request sid method params m w).2 = mcp_kill (mc_child c) w2
    /\ manager_register cfg m' w3 = (Err (McpError_DuplicateServer sid), m', w3).
Proof.
  intros Hm <- Hw Hr. unfold with_client_request, mcp_request. rewrite Hm. cbn. rewrite Hw, Hr. cbn.
  eexists. split_and!; [done|done|]. eapply first_server_wins. by rewrite lookup_insert, decide_True.
Qed.
(** The next line is taken for the answer, whoever it answers: a notification the
    server sends first is an empty result, and its answer is left for the request
    after. *)
Lemma any_line_answers method params c (w : E) w1 w2 line resp :
  mcp_write (mc_child c) (request_line (mc_next_id c) method params +++ nl) w = (Ok tt, w1) ->
  mcp_read_line (mc_child c) (mc_request_timeout c) w1 = (LineRead_Line line, w2) ->
  json_from_str line = Some resp -> json_get "error" resp = None -> json_get "result" resp = None ->
  (mcp_request method params c w).1.1 = Ok JNull.
Proof. intros Hw Hr Hj He Hres. unfold mcp_request. cbn. rewrite Hw, Hr, Hj. unfold response_of. by rewrite He, Hres. Qed.
End Flaws.

(** * Examples *)
Module PluginsExample.
#[local] Instance types : PluginTypes := {|
  Version := nat; TomlValue := unit;
  version_to_string v := fmt_Z (Z.of_nat v) +++ ".0.0"; version_compare := Nat.compare |}.
#[local] Instance order : VersionOrder.
Proof.
  split; cbn.
  - apply Nat.compare_refl.
  - intros a b. by rewrite (Nat.compare_antisym b a).
  - intros a b c. rewrite !Nat.compare_le_iff. lia.
Qed.
Definition no_contributions : ContributesSection :=
  {| cs_skills := []; cs_hooks := []; cs_mcp := []; cs_connectors := []; cs_commands := []; cs_agents := []; cs_system_prompts := [] |}.
Definition manifest (id : string) (v : nat) (active gated : bool) : PluginManifest :=
  {| pm_manifest_version := PluginManifestVersion_V1; pm_id := id; pm_version := v; pm_name := None; pm_description := None;
     pm_active := active; pm_contributes := no_contributions;
     pm_trust := {| ts_source := None; ts_require_explicit_trust := gated |}; pm_meta := ∅ |}.
(** Manifests are written as their names. *)
#[local] Instance toml : ManifestToml := {|
  toml_from_str s := if bool_decide (s = "") then Err "empty" else Ok (manifest s 1 false false);
  toml_to_string m := Ok (pm_id m) |}.
Definition text (s : string) : Node := Node_File (string_to_bytes s).
Definition disk (id : string) : FileSystem :=
  {| fs_nodes := list_to_map
       [(["src"], Node_Dir); (["src"; ".aura-plugin"], Node_Dir); (["src"; ".aura-plugin"; "manifest.toml"], text id);
        (["src"; "x"], text "x"); (["u"], Node_Dir); (["u"; ".aura"], Node_Dir); (["u"; ".aura"; "plugins"], Node_Dir)];
     fs_cwd := []; fs_readonly := ∅ |}.
Definition entries (_ : FileSystem) (src : string) : list (result IoErrorKind (string * FileType)) :=
  [Ok (src, FileType_Dir); Ok (src +++ "/x", FileType_File)].
Definition installed (id : string) : FileSystem := (install entries "/src" "/u/.aura/plugins" (disk id)).2.

(** Installing puts the payload and the manifest under the plugin's version and makes
    it active. *)
Example install_alpha :
  node_at (installed "alpha") ["u"; ".aura"; "plugins"; "alpha"; "1.0.0"; "x"] = Some (text "x")
  /\ node_at (installed "alpha") ["u"; ".aura"; "plugins"; "alpha"; "1.0.0"; ".aura-plugin.toml"] = Some (text "alpha")
  /\ node_at (installed "alpha") ["u"; ".aura"; "plugins"; "alpha"; "1.0.0.tmp"] = None
  /\ active_version (installed "alpha") "/u/.aura/plugins" "alpha" = Ok (Some "1.0.0").
Proof. repeat split; vm_compute; reflexivity. Qed.
(** The name of a plugin is not checked: one that climbs is installed outside the
    cache. *)
Example climbing_name_escapes :
  node_at (installed "../../evil") ["u"; "evil"; "1.0.0"; "x"] = Some (text "x")
  /\ node_at (installed "../../evil") ["u"; "evil"; "active"] = Some (text "1.0.0").
Proof. repeat split; vm_compute; reflexivity. Qed.
(** A skill with an absolute path passes validation, and its directory becomes a skill
    root. *)
Example absolute_skill_escapes :
  validate_skills [{| skc_id := "s"; skc_path := "/etc/x.md" |}] = Ok tt
  /\ add_skill_root "/u/.aura/plugins/p/1.0.0" [] {| skc_id := "s"; skc_path := "/etc/x.md" |} = ["/etc"].
Proof. repeat split; vm_compute; reflexivity. Qed.
(** What an interrupted installation leaves is listed as a version. *)
Example temporary_tree_listed :
  list_versions {| fs_nodes := list_to_map [(["p"], Node_Dir); (["p"; "a"], Node_Dir); (["p"; "a"; "1.0.0.tmp"], Node_Dir)];
                   fs_cwd := []; fs_readonly := ∅ |} "/p" "a" = Ok ["1.0.0.tmp"].
Proof. vm_compute; reflexivity. Qed.
Example event_names :
  parse_hook_event "PreToolUse" = Some HookEvent_PreToolUse /\ parse_hook_event "PRE_TOOL_USE" = Some HookEvent_PreToolUse
  /\ parse_hook_event "toolUse" = None.
Proof. repeat split; vm_compute; reflexivity. Qed.

Definition found (id : string) (v : nat) (active : bool) : DiscoveredManifest :=
  {| dm_alias := ManifestAlias_Aura; dm_path := "p"; dm_manifest := manifest id v active false |}.
Lemma pick_preferred_best_witness :
  pick_preferred [found "x" 9 false; found "x" 1 true] = Some (found "x" 1 true)
  /\ found "x" 1 true ∈ [found "x" 9 false; found "x" 1 true].
Proof.
  split; [reflexivity|]. exact (proj1 (pick_preferred_best [found "x" 9 false; found "x" 1 true] (found "x" 1 true) eq_refl)).
Defined.

Definition cache_disk : FileSystem :=
  {| fs_nodes := list_to_map [(["p"], Node_Dir); (["p"; "a"], Node_Dir); (["p"; "a"; "active"], text "0.9.0")];
     fs_cwd := []; fs_readonly := ∅ |}.
Lemma set_active_reads_back_witness :
  (set_active "/p" "a" "1.0.0" cache_disk).1 = Ok tt
  /\ active_version (set_active "/p" "a" "1.0.0" cache_disk).2 "/p" "a" = Ok (Some "1.0.0").
Proof.
  split; [vm_compute; reflexivity|].
  apply (set_active_reads_back cache_disk _ ["p"] "a" "1.0.0"); try (vm_compute; reflexivity).
  - split_and!; [by repeat constructor| |done]. intros [|[|k]] Hk; [done|done|cbn in Hk; lia].
  - done.
Defined.
End PluginsExample.
