(* ===== verification/Scheduler.v ===== *)
(** The scheduler and its worker ([aura-engine/src/scheduler.rs, worker.rs]).

    The scheduler checks an agent's status and inbox, resolves its loop
    configuration, claims the agent in the store, builds a kernel and lets the
    worker drain the inbox: each transaction is recorded and consumed, the agent
    loop runs on its text, and the reply is recorded.  Other tasks act on the
    store before every access ([s_sync] here, [sync] in the kernel).

    The agent loop is the interface [AgentLoop]: what the worker needs from it is
    its result and that it acts on the kernel only through kernel calls, none of
    which touches the inbox ([AgentLoopOk]).  The drain loop of the worker may run
    as long as others keep enqueuing; [worker_loop n] is its first [n] turns, with
    [None] while it has not ended. *)
From S2P Require Import Prelude Values Modes Permissions CoreTypes Policy Keys StoreSpec Utf8 Exec Context Replay Kernel KernelTools KernelInv KernelSafe KernelTrace KernelCalls ModelRequest LoopTypes.
From stdpp Require Import list.
From Stdlib Require Import Strings.Byte.

Definition AGENT_LOOP_TIMEOUT : Z := 300000.

(** * Identities *)
Record AgentIdentity := {
  aid_reasoning_effort : option ThinkingEffort;
  aid_upstream_provider_family : option string;
  aid_model : string;
  aid_aura_org_id : option string;
  aid_aura_session_id : option string;
  aid_aura_agent_id : option string;
  aid_aura_project_id : option string;
  aid_system_prompt : string;
  aid_prompt_cache_key : option string;
  aid_prompt_cache_retention : option PromptCacheRetention;
  aid_request_kind : ModelRequestKind;
  aid_max_tokens : Z;
  aid_max_context_tokens : Z;
  aid_auth_token : option string;
}.

Definition into_loop_config (i : AgentIdentity) : AgentLoopConfig :=
  (for_agent (aid_model i))
    <| lc_user_thinking_effort := aid_reasoning_effort i |>
    <| lc_upstream_provider_family := aid_upstream_provider_family i |>
    <| lc_system_prompt := aid_system_prompt i |>
    <| lc_max_tokens := aid_max_tokens i |>
    <| lc_max_context_tokens := Some (aid_max_context_tokens i) |>
    <| lc_auth_token := aid_auth_token i |>
    <| lc_aura_project_id := aid_aura_project_id i |>
    <| lc_aura_agent_id := aid_aura_agent_id i |>
    <| lc_aura_session_id := aid_aura_session_id i |>
    <| lc_aura_org_id := aid_aura_org_id i |>
    <| lc_prompt_cache_key := aid_prompt_cache_key i |>
    <| lc_prompt_cache_retention := retention_wire <$> aid_prompt_cache_retention i |>
    <| lc_request_kind := aid_request_kind i |>.
Definition observe_memory (c : AgentLoopConfig) : AgentLoopConfig :=
  set_limits c (lc_max_iterations c) (lc_max_tokens c) (lc_user_thinking_effort c) true.

(** [AgentIdentityRegistry]: [register], [get], [unregister]. *)
Abbreviation AgentIdentityRegistry := (gmap AgentId AgentIdentity).
Definition registry_register (a : AgentId) (i : AgentIdentity) (r : AgentIdentityRegistry) :=
  <[a := i]> r.
Definition registry_get (a : AgentId) (r : AgentIdentityRegistry) : option AgentIdentity := r !! a.
Definition registry_unregister (a : AgentId) (r : AgentIdentityRegistry) := delete a r.

Section Scheduler.
Context {ST E : Type} `{Store ST} `{Blake3} `{Hex} `{ModelTypes} `{!World E ST} `{StrDebug} `{JsonText}.
Context `{!Serde Transaction, !Serde json, !FromJson RuntimeCapabilityInstall, !Serde RecordPayload}.
Context `{!Serde ToolCall, !Serde ToolProposal, !Serde ToolExecution, !Serde PolicyDecision}.
Context `{!Serde ToolResult}.
Abbreviation KS := (KState ST E).

(** ** The agent loop, as the worker sees it *)
Class AgentLoop := {
  (** [run_with_events] on a kernel's gateways under an optional deadline in
      milliseconds: [None] when the deadline passed, the run having been dropped
      at some await. *)
  loop_run : AgentLoopConfig -> Kernel E -> list Message -> list ToolDefinition -> option Z ->
    KS -> option (result string AgentLoopResult) * KS;
}.

Class AgentLoopOk `{AgentLoop} (k : Kernel E) (cost : nat) : Prop :=
  loop_run_calls cfg messages tools deadline st r st' :
    loop_run cfg k messages tools deadline st = (r, st') ->
    exists cs, st' = run_kcalls k cs st /\ Forall not_drain cs /\ calls_cost cs <= cost.

Context `{Hloop : AgentLoop}.

(** ** The worker *)
Inductive WorkerError :=
| WorkerError_Store (e : StoreError)
| WorkerError_Dequeued (e : KernelError)
| WorkerError_Utf8
| WorkerError_Timeout (ms : Z)
| WorkerError_Loop (e : string)
| WorkerError_Response (e : KernelError).

Record ProcessedAgent := { pa_processed : Z; pa_last_result : option AgentLoopResult }.
Definition ProcessedAgent_default : ProcessedAgent := {| pa_processed := 0; pa_last_result := None |}.

Section Worker.
Context (k : Kernel E) (config : AgentLoopConfig) (tools : list ToolDefinition) (timeout : option Z).
Abbreviation W := (stm KS WorkerError).

Definition run_loop (messages : list Message) : W AgentLoopResult := fun st =>
  match loop_run config k messages tools timeout st with
  | (Some (Ok result), st') => (Ok result, st')
  | (Some (Err e), st') => (Err (WorkerError_Loop e), st')
  | (None, st') => (Err (WorkerError_Timeout (default 0%Z timeout)), st')
  end.

(** One turn of the drain loop; [None] when the inbox is empty. *)
Definition worker_step (history : list Message) : W (option AgentLoopResult) :=
  next ← stm_map_err WorkerError_Store (store_read (fun s => st_dequeue_tx s (k_agent_id k)));
  match next with
  | None => mret None
  | Some (token, tx) =>
      _ ← stm_map_err WorkerError_Dequeued (process_dequeued k tx token);
      prompt ← lift (ok_or WorkerError_Utf8 (from_utf8 (tx_payload tx)));
      result ← run_loop (history ++ [Message_user prompt]);
      now ← outside w_now_ms;
      let response_tx := new_chained now (k_agent_id k) TransactionType_AgentMsg
                           (string_to_bytes (lr_total_text result)) None in
      _ ← stm_map_err WorkerError_Response (process_direct k response_tx);
      mret (Some result)
  end.

Fixpoint worker_loop (fuel : nat) (history : list Message) (acc : ProcessedAgent) (st : KS)
  : option (result WorkerError ProcessedAgent) * KS :=
  match fuel with
  | O => (None, st)
  | S fuel =>
      match worker_step history st with
      | (Ok (Some result), st) =>
          worker_loop fuel [] {| pa_processed := u64_add (pa_processed acc) 1;
                                 pa_last_result := Some result |} st
      | (Ok None, st) => (Some (Ok acc), st)
      | (Err e, st) => (Some (Err e), st)
      end
  end.
Definition process_agent_with_timeout (fuel : nat) (history : list Message) (st : KS)
  : option (result WorkerError ProcessedAgent) * KS :=
  worker_loop fuel history ProcessedAgent_default st.
End Worker.
Definition process_agent_detailed (fuel : nat) (k : Kernel E) (config : AgentLoopConfig)
    (tools : list ToolDefinition) (st : KS) : option (result WorkerError ProcessedAgent) * KS :=
  process_agent_with_timeout k config tools (Some AGENT_LOOP_TIMEOUT) fuel [] st.

(** ** The scheduler *)
Inductive SchedulerError :=
| SchedulerError_AgentNotRegistered (a : AgentId)
| SchedulerError_Store (e : StoreError)
| SchedulerError_KernelConstruction (e : KernelError)
| SchedulerError_Worker (e : WorkerError).

Record ScheduleOverrides := {
  so_caller_owns_deadline : bool;
  so_loop_config : option AgentLoopConfig;
  so_policy : option PolicyConfig;
  so_workspace_override : option (string * bool);
  so_router_override : option (list (Executor E));
  so_tools_override : option (list ToolDefinition);
  so_history : list Message;
}.
Definition ScheduleOverrides_default : ScheduleOverrides := {|
  so_caller_owns_deadline := false; so_loop_config := None; so_policy := None;
  so_workspace_override := None; so_router_override := None; so_tools_override := None;
  so_history := [] |}.

Record Scheduler := {
  sc_identity_registry : AgentIdentityRegistry;
  sc_executors : list (Executor E);
  sc_tools : list ToolDefinition;
  sc_kernel_config : KernelConfig E;
  sc_memory_manager : bool;
}.

(** The store and everything outside it. *)
Record SState := { ss_store : ST; ss_env : E }.
Abbreviation M := (stm SState).
Definition s_sync {F} : M F unit := fun st =>
  let '(s, e) := w_interfere (ss_store st) (ss_env st) in (Ok tt, {| ss_store := s; ss_env := e |}).
Definition s_read {F A} (f : ST -> result F A) : M F A := _ ← s_sync; reads (fun st => f (ss_store st)).
Definition s_write {F A} (f : stm ST F A) : M F A :=
  _ ← s_sync;
  ((fun st => let '(r, s) := f (ss_store st) in (r, {| ss_store := s; ss_env := ss_env st |})) : M F A).

(** [ProcessingClaim::try_new], [release] and [drop]: the guard is whether the
    claim was taken; releasing twice is one release. *)
Definition try_processing_claim (a : AgentId) : M SchedulerError bool :=
  stm_map_err SchedulerError_Store (s_write (st_try_claim_agent_processing a)).
Definition claim_release (a : AgentId) : M SchedulerError unit :=
  stm_map_err SchedulerError_Store (s_write (st_release_agent_processing a)).
(** [processing_claim]: poll until the claim is taken; the first [fuel] polls. *)
Fixpoint processing_claim (fuel : nat) (a : AgentId) (st : SState)
  : option (result SchedulerError unit) * SState :=
  match fuel with
  | O => (None, st)
  | S fuel =>
      match try_processing_claim a st with
      | (Ok true, st) => (Some (Ok tt), st)
      | (Ok false, st) => processing_claim fuel a st
      | (Err e, st) => (Some (Err e), st)
      end
  end.
Definition is_agent_busy (a : AgentId) (st : SState) : bool :=
  match st_is_agent_processing (ss_store st) a with Ok b => b | Err _ => false end.

(** The kernel configuration of this run. *)
Definition overridden_config (c : KernelConfig E) (o : ScheduleOverrides) : KernelConfig E := {|
  record_window_size := record_window_size c;
  kc_policy := default (kc_policy c) (so_policy o);
  workspace_base := match so_workspace_override o with Some (b, _) => b | None => workspace_base c end;
  use_workspace_base_as_root :=
    match so_workspace_override o with Some (_, r) => r | None => use_workspace_base_as_root c end;
  replay_from := replay_from c; kc_snapshot_store := kc_snapshot_store c;
  proposal_timeout_ms := proposal_timeout_ms c; tool_timeout_ms := tool_timeout_ms c;
  tool_approval_prompter := tool_approval_prompter c; originating_user_id := originating_user_id c;
  kc_kernel_mode := kc_kernel_mode c;
  audited_lite_threshold_bytes := audited_lite_threshold_bytes c; plugin_hooks := plugin_hooks c;
  tool_audit_observer := tool_audit_observer c |}.

(** [schedule_agent_with_options] up to the claim; [None] when there is nothing
    to do or another worker is at it. *)
Definition schedule_prepare (sc : Scheduler) (a : AgentId) (o : ScheduleOverrides)
  : M SchedulerError (option AgentLoopConfig) :=
  status ← stm_map_err SchedulerError_Store (s_read (fun s => st_get_agent_status s a));
  if bool_decide (status = AgentStatus_Active) then
    pending ← stm_map_err SchedulerError_Store (s_read (fun s => st_has_pending_tx s a));
    if (pending : bool) then
      config ← match so_loop_config o with
               | Some config => mret config
               | None => match registry_get a (sc_identity_registry sc) with
                         | Some registered => mret (into_loop_config registered)
                         | None => fails (SchedulerError_AgentNotRegistered a)
                         end
               end;
      claimed ← try_processing_claim a;
      mret (if (claimed : bool) then Some config else None)
    else mret None
  else mret None.

(** Under the claim: build the kernel, drain, release.  A failed construction
    drops the guard, and so does a failed release, which releases again. *)
Definition state_of (kst : KS) : SState := {| ss_store := ks_store kst; ss_env := ks_env kst |}.
Definition finish_claim (a : AgentId) (result : result WorkerError ProcessedAgent) (st : SState)
  : Prelude.result SchedulerError ProcessedAgent * SState :=
  match claim_release a st with
  | (Ok _, st') => (map_err SchedulerError_Worker result, st')
  | (Err e, st') =>
      (match result with Ok _ => Err e | Err w => Err (SchedulerError_Worker w) end,
       (claim_release a st').2)
  end.
Definition schedule_claimed (fuel : nat) (sc : Scheduler) (snapshot_hash : PolicyConfig -> string)
    (a : AgentId) (o : ScheduleOverrides) (config : AgentLoopConfig) (st : SState)
  : option (result SchedulerError ProcessedAgent) * SState :=
  let st := (s_sync (F := SchedulerError) st).2 in
  let router := default (sc_executors sc) (so_router_override o) in
  match Kernel_new snapshot_hash (ss_store st) router
          (overridden_config (sc_kernel_config sc) o) a (ss_env st) with
  | Err e => (Some (Err (SchedulerError_KernelConstruction e)), (claim_release a st).2)
  | Ok (k, kst) =>
      let config := if sc_memory_manager sc then observe_memory config else config in
      let tools := default (sc_tools sc) (so_tools_override o) in
      let timeout := if so_caller_owns_deadline o then None else Some AGENT_LOOP_TIMEOUT in
      match process_agent_with_timeout k config tools timeout fuel (so_history o) kst with
      | (None, kst') => (None, state_of kst')
      | (Some result, kst') =>
          let '(r, st') := finish_claim a result (state_of kst') in (Some r, st')
      end
  end.

Definition schedule_agent_with_options (fuel : nat) (sc : Scheduler)
    (snapshot_hash : PolicyConfig -> string) (a : AgentId) (o : ScheduleOverrides) (st : SState)
  : option (result SchedulerError ProcessedAgent) * SState :=
  match schedule_prepare sc a o st with
  | (Err e, st') => (Some (Err e), st')
  | (Ok None, st') => (Some (Ok ProcessedAgent_default), st')
  | (Ok (Some config), st') => schedule_claimed fuel sc snapshot_hash a o config st'
  end.
Definition schedule_agent_with_overrides (fuel : nat) (sc : Scheduler)
    (snapshot_hash : PolicyConfig -> string) (a : AgentId) (loop_config : option AgentLoopConfig)
    (policy : option PolicyConfig) (st : SState) :=
  schedule_agent_with_options fuel sc snapshot_hash a
    {| so_caller_owns_deadline := false; so_loop_config := loop_config; so_policy := policy;
       so_workspace_override := None; so_router_override := None; so_tools_override := None;
       so_history := [] |} st.
Definition schedule_agent (fuel : nat) (sc : Scheduler) (snapshot_hash : PolicyConfig -> string)
    (a : AgentId) (st : SState) : option (result SchedulerError Z) * SState :=
  let '(r, st') := schedule_agent_with_overrides fuel sc snapshot_hash a None None st in
  (fmap (M := option) (fmap (M := Prelude.result SchedulerError) pa_processed) r, st').
End Scheduler.
