(* ===== verification/SchedulerProps.v ===== *)
(** What the scheduler guarantees: a claim is taken only for an active,
    registered agent with work that nobody else processes; it is released on
    every way out; and the worker consumes the inbox in order, recording every
    transaction it consumes in a log that stays valid. *)
From S2P Require Import Prelude Values Modes Permissions CoreTypes Policy Keys StoreSpec ViewStore Utf8 Exec Context Replay Kernel KernelTools KernelInv KernelSafe KernelTrace KernelCalls KernelWitness ModelRequest LoopTypes Scheduler.
From stdpp Require Import list.
From Stdlib Require Import Strings.Byte.

Section Worker.
Context {ST E : Type} `{Store ST} `{!StoreSpec ST} `{Blake3} `{Hex} `{ModelTypes} `{!World E ST}.
Context `{StrDebug} `{JsonText}.
Context `{!Serde Transaction, !Serde json, !FromJson RuntimeCapabilityInstall, !Serde RecordPayload}.
Context `{!Serde ToolCall, !Serde ToolProposal, !Serde ToolExecution, !Serde PolicyDecision}.
Context `{!Serde ToolResult} `{Hloop : !AgentLoop (ST := ST) (E := E)}.
Context (k : Kernel E) (demand : E -> nat).
#[local] Instance kernel_rule_of : HashRule := kernel_rule (record_window_size (k_config k)).
Context (Hw : world_ok k demand) (cost : nat).
Context `{Hcalls : !AgentLoopOk k cost}.
Abbreviation KS := (KState ST E).
Abbreviation kinv := (kinv k demand).
Abbreviation agent := (k_agent_id k).

(** ** Kernel calls that leave the inbox alone *)
Lemma kcalls_kinv cs hs n h q lb st :
  Forall not_drain cs -> Forall (handle_ok lb) hs -> kinv (calls_cost cs + n) h q lb st -> kinv n h q lb (run_from k hs cs st).
Proof.
  revert hs lb st. induction cs as [|c cs IH]; intros hs lb st Hd Hhs Hk; [done|].
  apply Forall_cons in Hd as [Hdc Hd]. cbn [run_from]. destruct (run_kcall k c hs st) as [r st'] eqn:Er.
  assert (kinv (call_cost c + (calls_cost cs + n)) h q lb st) as Hk' by (unfold calls_cost in *; cbn in Hk; by rewrite Nat.add_assoc).
  destruct (kcall_kinv k demand Hw c hs _ _ _ _ _ _ _ (kernel_rule_fits k c) Hdc Hhs Er Hk') as (lb' & Hp & Hnew & Hk1).
  eapply kinv_weaken; [done|exact Hp|]. apply IH; [done| |done].
  apply Forall_app. split; [|done]. eapply Forall_impl; [exact Hhs|]. intros hd. by apply handle_ok_prefix.
Qed.
Lemma loop_run_kinv cfg messages tools deadline n h q lb st r st' :
  loop_run cfg k messages tools deadline st = (r, st') -> kinv (cost + n) h q lb st -> kinv n h q lb st'.
Proof.
  intros (cs & -> & Hd & Hc)%loop_run_calls Hk. apply kcalls_kinv; [done|constructor|].
  eapply kinv_weaken; [|done|exact Hk]. lia.
Qed.

(** What [dequeue_tx] returns is the front of the inbox. *)
Lemma dequeue_kinv n h q lb st r st' :
  (store_read (fun s => st_dequeue_tx s agent) : stm KS StoreError _) st = (r, st') ->
  kinv n h q lb st ->
  match r with
  | Ok (Some (token, tx)) =>
      token_inbox_seq token = h /\ kinv n h (tx :: tail q) lb st' /\ (q = [] \/ head q = Some tx)
  | Ok None => q = [] /\ kinv n h q lb st'
  | Err _ => kinv n h q lb st'
  end.
Proof.
  intros Hrun Hk. unfold store_read, mbind, stm_bind in Hrun.
  destruct (sync st) as [r1 st1] eqn:Es.
  pose proof (hoare_sync k demand Hw (Err := StoreError) n h q lb _ _ _ Es Hk) as Hk1.
  assert (kinv n h q lb st1) as Hk1' by (by destruct r1). clear Hk1.
  destruct r1 as [u|e]; [|by injection Hrun as <- <-]. injection Hrun as Hd <-.
  destruct r as [[[token tx]|]|]; [| |done]; destruct Hk1' as [v [Ha Hv Hp Hr Hh Hi He Hsq]];
    pose proof (spec_dequeue _ _ _ _ Ha Hd) as Hs.
  - destruct Hs as [Ht Hhd]. split; [congruence|].
    destruct (av_inbox v) as [|t rest] eqn:Ei; [done|]. injection Hhd as ->.
    destruct q as [|t' q]; cbn.
    + split; [|by left]. exists v. split; try done. rewrite Ei. by exists rest.
    + destruct Hi as [l Hl]. injection Hl as -> ->. split; [|by right]. exists v. split; try done.
      rewrite Ei. by exists l.
  - rewrite Hs in Hi. apply prefix_nil_inv in Hi as ->. split; [done|]. exists v.
    split; try done. rewrite Hs. done.
Qed.

(** What a processed transaction left in the log. *)
Definition is_recorded (lb : list RecordEntry) (tx : Transaction) : Prop :=
  exists i e, lb !! i = Some e /\ re_tx e = tx.
Lemma is_recorded_prefix lb lb' tx : lb `prefix_of` lb' -> is_recorded lb tx -> is_recorded lb' tx.
Proof. intros Hp (i & e & Hi & He). exists i, e. split; [by eapply prefix_lookup_Some|done]. Qed.

Lemma process_dequeued_records tx token n h q lb st r st' :
  process_dequeued k tx token st = (r, st') -> token_inbox_seq token = h ->
  kinv (3 + n) h (tx :: q) lb st ->
  match r with
  | Ok _ => exists lb', lb `prefix_of` lb' /\ is_recorded lb' tx /\ kinv n (h + 1) q lb' st'
  | Err _ => kinv n h (tx :: q) lb st' \/ kinv n (h + 1) q lb st'
  end.
Proof.
  intros Hrun Ht Hk.
  pose proof (process_dequeued_spec k demand Hw tx token n h tx q lb Ht _ _ _ Hrun Hk) as Hpost.
  destruct r as [res|err]; [|done].
  destruct (emits_dequeued k tx token _ _ _ Hrun) as (evs & Hevs & _ & Hrec).
  destruct Hpost as [v Hv]. exists (av_log v). split; [apply (kv_lb _ _ _ _ _ _ _ _ Hv)|].
  destruct Hrec as (e & Hin & Htx). split.
  - pose proof (kv_events _ _ _ _ _ _ _ _ Hv) as Hev. rewrite Hevs in Hev.
    assert (event_in_log (av_log v) (Ev_append e)) as [i Hi].
    { rewrite Forall_forall in Hev. apply Hev, elem_of_app. by right. }
    by exists i, e.
  - exists v. destruct Hv. by split.
Qed.

(** One turn: the inbox was empty, or its front was consumed and recorded, or
    something failed, before or after the front was consumed. *)
Definition step_outcome (n : nat) (h : Z) (q : list Transaction) (lb : list RecordEntry)
    (r : result WorkerError (option AgentLoopResult)) (st' : KS) : Prop :=
  let consumed recorded := exists tx lb', lb `prefix_of` lb' /\ (recorded -> is_recorded lb' tx) /\
    (q = [] \/ head q = Some tx) /\ kinv n (h + 1) (tail q) lb' st' in
  match r with
  | Ok (Some _) => consumed True
  | Ok None => q = [] /\ kinv n h q lb st'
  | Err _ => kinv n h q lb st' \/ consumed False
  end.

Lemma kinv_tail_front n h tx q lb st :
  kinv n h (tx :: tail q) lb st -> q = [] \/ head q = Some tx -> kinv n h q lb st.
Proof.
  intros [v [Ha Hv Hp Hr Hh Hi He Hsq]] Hq. exists v. split; try done.
  destruct Hq as [->|Hq]; [apply prefix_nil|]. destruct q as [|t q]; [done|]. by injection Hq as ->.
Qed.

Lemma worker_step_spec config tools timeout history n h q lb st r st' :
  worker_step k config tools timeout history st = (r, st') ->
  kinv (6 + cost + n) h q lb st -> step_outcome n h q lb r st'.
Proof.
  intros Hrun Hk. unfold worker_step, mbind, stm_bind, stm_map_err in Hrun.
  destruct (store_read _ st) as [r1 st1] eqn:Er.
  pose proof (dequeue_kinv _ _ _ _ _ _ _ Er Hk) as Hd.
  assert (forall m, kinv (6 + cost + n) h q lb m -> kinv n h q lb m) as Hweak
    by (intros m; apply kinv_weaken; [lia|done]).
  destruct r1 as [[[token tx]|]|e]; cbn [map_err] in Hrun;
    [|by injection Hrun as <- <-; destruct Hd as [-> Hd]; split; [|apply Hweak]
     |by injection Hrun as <- <-; left; apply Hweak].
  destruct Hd as (Ht & Hd & Hq).
  destruct (process_dequeued k tx token st1) as [r2 st2] eqn:Ep.
  replace (6 + cost + n) with (3 + (3 + cost + n)) in Hd by lia.
  pose proof (process_dequeued_records _ _ _ _ _ _ _ _ _ Ep Ht Hd) as Hp.
  destruct r2 as [res|e]; cbn [map_err] in Hrun.
  2: { injection Hrun as <- <-. destruct Hp as [Hp|Hp].
       - left. apply (kinv_tail_front n h tx); [|done]. eapply kinv_weaken; [|done|exact Hp]. lia.
       - right. exists tx, lb. split_and!; try done. eapply kinv_weaken; [|done|exact Hp]. lia. }
  destruct Hp as (lb' & Hlb & Hrec & Hk2).
  assert (forall m c, kinv (c + n) (h + 1) (tail q) lb' m ->
    (exists tx lb', lb `prefix_of` lb' /\ (True -> is_recorded lb' tx) /\
      (q = [] \/ head q = Some tx) /\ kinv n (h + 1) (tail q) lb' m)) as Hdone.
  { intros m c Hm. exists tx, lb'. split_and!; try done. eapply kinv_weaken; [|done|exact Hm]. lia. }
  assert (forall m c e, kinv (c + n) (h + 1) (tail q) lb' m -> step_outcome n h q lb (Err e) m) as Herr.
  { intros m c e Hm. right. destruct (Hdone m c Hm) as (tx' & l' & ?&?&?&?). exists tx', l'. by split_and!. }
  destruct (from_utf8 (tx_payload tx)) as [prompt|]; cbn [ok_or lift] in Hrun;
    [|injection Hrun as <- <-; by apply (Herr st2 (3 + cost))].
  unfold run_loop in Hrun. destruct (loop_run config k _ tools timeout st2) as [r3 st3] eqn:El.
  replace (3 + cost + n) with (cost + (3 + n)) in Hk2 by lia.
  pose proof (loop_run_kinv _ _ _ _ _ _ _ _ _ _ _ El Hk2) as Hk3.
  destruct r3 as [[result|e]|]; [|injection Hrun as <- <-; by apply (Herr st3 3)..].
  destruct (outside w_now_ms st3) as [r4 st4] eqn:Eo.
  pose proof (hoare_outside k demand (Err := WorkerError) w_now_ms (3 + n) (h + 1)%Z (tail q) lb'
    (wo_now _ _ Hw) _ _ _ Eo Hk3) as Hk4.
  destruct r4 as [now|e]; [|injection Hrun as <- <-; by apply (Herr st4 3)].
  destruct (process_direct k _ st4) as [r5 st5] eqn:Ed.
  pose proof (pres_process_direct k demand Hw _ n (h + 1)%Z (tail q) lb' _ _ _ Ed Hk4) as Hk5.
  destruct r5 as [out|e]; cbn [map_err] in Hrun; injection Hrun as <- <-.
  - by apply (Hdone st5 0).
  - by apply (Herr st5 0).
Qed.

(** ** The drain loop

    [c] is what has been consumed, [q] what is known to be in front. *)
Definition loop_outcome (n : nat) (fuel : nat) (h : Z) (q0 : list Transaction) (lb : list RecordEntry)
    (acc : Z) (out : option (result WorkerError ProcessedAgent)) (st' : KS) : Prop :=
  exists c q lb', lb `prefix_of` lb' /\ q0 `prefix_of` c ++ q /\
    kinv n (h + Z.of_nat (length c)) q lb' st' /\ length c <= fuel /\
    match out with
    | None => length c = fuel /\ Forall (is_recorded lb') c
    | Some (Ok p) => q = [] /\ pa_processed p = (acc + Z.of_nat (length c))%Z /\ Forall (is_recorded lb') c
    | Some (Err _) => forall i tx, c !! i = Some tx -> S i < length c -> is_recorded lb' tx
    end.

Lemma worker_loop_spec config tools timeout fuel history acc n h q lb st out st' :
  worker_loop k config tools timeout fuel history acc st = (out, st') ->
  (0 <= pa_processed acc)%Z -> (pa_processed acc + Z.of_nat fuel <= u64_max)%Z ->
  kinv ((6 + cost) * fuel + n) h q lb st ->
  loop_outcome n fuel h q lb (pa_processed acc) out st'.
Proof.
  revert history acc h q lb st. induction fuel as [|fuel IH]; intros history acc h q lb st Hrun Hpos Hacc Hk.
  { injection Hrun as <- <-. exists [], q, lb. cbn. rewrite Z.add_0_r. split_and!; try done.
    eapply kinv_weaken; [|done|exact Hk]. lia. }
  cbn [worker_loop] in Hrun. destruct (worker_step k config tools timeout history st) as [r st1] eqn:Es.
  replace ((6 + cost) * S fuel + n) with (6 + cost + ((6 + cost) * fuel + n)) in Hk by lia.
  pose proof (worker_step_spec _ _ _ _ _ _ _ _ _ _ _ Es Hk) as Ho.
  assert (forall m h q lb, kinv ((6 + cost) * fuel + n) h q lb m -> kinv n h q lb m) as Hweak
    by (intros m ???; apply kinv_weaken; [lia|done]).
  destruct r as [[result|]|e]; cbn [step_outcome] in Ho.
  - destruct Ho as (tx & lb1 & Hlb1 & Hrec & Hq & Hk1). specialize (Hrec I).
    destruct (IH [] _ (h + 1)%Z (tail q) lb1 _ Hrun) as (c & q' & lb' & Hlb & Hpre & Hk' & Hlen & Hout);
      [| |done|].
    { cbn. unfold u64_add, u64_wrap. apply Z.mod_pos_bound. lia. }
    { cbn. rewrite u64_add_small by (unfold is_u64, u64_max in *; lia). lia. }
    cbn [pa_processed] in Hout. rewrite u64_add_small in Hout by (unfold is_u64, u64_max in *; lia).
    exists (tx :: c), q', lb'. cbn [length].
    replace (h + Z.of_nat (S (length c)))%Z with (h + 1 + Z.of_nat (length c))%Z by lia.
    split_and!; [by etrans| |done|lia|].
    + destruct Hq as [->|Hq]; [apply prefix_nil|]. destruct q as [|t q]; [done|].
      injection Hq as ->. cbn. by apply prefix_cons.
    + assert (is_recorded lb' tx) as Hrec' by (by eapply is_recorded_prefix).
      destruct out as [[p|e]|].
      * destruct Hout as (? & ? & ?). split_and!; [done|lia|by constructor].
      * intros [|i] t Hi Hl; [by injection Hi as <-|]. eapply Hout; [exact Hi|lia].
      * destruct Hout. split; [lia|by constructor].
  - injection Hrun as <- <-. destruct Ho as [-> Ho]. exists [], [], lb. cbn. rewrite Z.add_0_r.
    split_and!; try done; [by apply Hweak|lia|lia].
  - injection Hrun as <- <-. destruct Ho as [Ho|(tx & lb' & Hlb & _ & Hq & Ho)].
    + exists [], q, lb. cbn. rewrite Z.add_0_r. split_and!; try done; [by apply Hweak|lia].
    + exists [tx], (tail q), lb'. cbn. split_and!; [done| |by apply Hweak|lia|].
      * destruct Hq as [->|Hq]; [apply prefix_nil|]. destruct q as [|t q]; [done|]. by injection Hq as ->.
      * intros i t Hi Hl. destruct i; [lia|done].
Qed.

(** The worker consumes the inbox in order and records what it consumes.
    After any number of turns the log is valid and extends the old one, the inbox
    has lost exactly the consumed transactions from its front, each of them is in
    the log (the last one may not be when the worker failed), and a worker that
    is still running has consumed one transaction per turn, so it ends as soon as
    fewer transactions than turns have arrived. *)
Theorem worker_consumes_in_order config tools timeout fuel history st out st' v :
  process_agent_with_timeout k config tools timeout fuel history st = (out, st') ->
  abstracts (ks_store st) agent v -> log_follows (av_log v) ->
  ks_events st = [] -> is_u64 (ks_seq st) ->
  (Z.of_nat (length (av_log v) + demand (ks_env st) + (6 + cost) * fuel) < u64_max)%Z ->
  exists v' c, abstracts (ks_store st') agent v' /\ av_log v `prefix_of` av_log v' /\
    log_follows (av_log v') /\
    av_inbox_head v' = (av_inbox_head v + Z.of_nat (length c))%Z /\
    av_inbox v `prefix_of` c ++ av_inbox v' /\
    (forall i tx, c !! i = Some tx -> (S i < length c \/ forall e, out <> Some (Err e)) ->
       is_recorded (av_log v') tx) /\
    (out = None -> length c = fuel) /\
    (forall p, out = Some (Ok p) -> pa_processed p = Z.of_nat (length c)).
Proof.
  intros Hrun Ha Hv He Hsq Hroom.
  assert (kinv ((6 + cost) * fuel + 0) (av_inbox_head v) (av_inbox v) (av_log v) st) as Hk.
  { exists v. split; try done; [lia|]. rewrite He. constructor. }
  destruct (worker_loop_spec config tools timeout fuel history ProcessedAgent_default
    0 (av_inbox_head v) (av_inbox v) (av_log v) _ _ _ Hrun)
    as (c & q & lb' & Hlb & Hpre & Hk' & Hlen & Hout); [done|cbn; lia|exact Hk|].
  destruct Hk' as [v' [Ha' Hv' Hp' _ Hh' Hi' _ _]]. exists v', c.
  split_and!; try done; [by etrans| | | |].
  - etrans; [exact Hpre|]. by apply prefix_app.
  - intros i tx Hi Hcase. apply (is_recorded_prefix lb'); [done|].
    destruct out as [[p|e]|].
    + destruct Hout as (_ & _ & Hf). by eapply Forall_lookup_1.
    + destruct Hcase as [Hc|Hc]; [by eapply Hout|by destruct (Hc e)].
    + destruct Hout as [_ Hf]. by eapply Forall_lookup_1.
  - intros ->. by destruct Hout.
  - intros p ->. by destruct Hout as (_ & -> & _).
Qed.
End Worker.

(** * The scheduler *)
Section Schedule.
Context {ST E : Type} `{Store ST} `{!StoreSpec ST} `{Blake3} `{Hex} `{ModelTypes} `{!World E ST}.
Context `{StrDebug} `{JsonText}.
Context `{!Serde Transaction, !Serde json, !FromJson RuntimeCapabilityInstall, !Serde RecordPayload}.
Context `{!Serde ToolCall, !Serde ToolProposal, !Serde ToolExecution, !Serde PolicyDecision}.
Context `{!Serde ToolResult} `{Hloop : !AgentLoop (ST := ST) (E := E)}.
Context (sc : @Scheduler E) (snapshot_hash : PolicyConfig -> string) (a : AgentId).
Abbreviation SS := (@SState ST E).

(** ** Taking the claim *)

(** Others leave the agent alone. *)
Definition undisturbed : Prop :=
  forall s e s' e' v, w_interfere s e = (s', e') -> abstracts s a v -> abstracts s' a v.

Lemma undisturbed_sync {F} (st : SS) r st' v :
  undisturbed -> (s_sync : stm SS F unit) st = (r, st') -> abstracts (ss_store st) a v ->
  r = Ok tt /\ abstracts (ss_store st') a v.
Proof.
  intros Hu Hs Ha. unfold s_sync in Hs. destruct (w_interfere _ _) as [s e] eqn:Ew.
  injection Hs as <- <-. split; [done|]. by eapply Hu.
Qed.
Lemma undisturbed_read {F A} (f : ST -> result F A) (st : SS) r st' v :
  undisturbed -> (s_read f : stm SS F A) st = (r, st') -> abstracts (ss_store st) a v ->
  r = f (ss_store st') /\ abstracts (ss_store st') a v.
Proof.
  intros Hu Hr Ha. unfold s_read, mbind, stm_bind in Hr. destruct (s_sync st) as [r1 st1] eqn:Es.
  destruct (undisturbed_sync st r1 st1 v Hu Es Ha) as [-> Ha1]. by injection Hr as <- <-.
Qed.
Lemma undisturbed_claim (st : SS) r st' v :
  undisturbed -> try_processing_claim a st = (r, st') -> abstracts (ss_store st) a v ->
  match r with
  | Ok true => av_claimed v = false /\ abstracts (ss_store st') a (view_claim v true)
  | Ok false => av_claimed v = true /\ abstracts (ss_store st') a v
  | Err _ => abstracts (ss_store st') a v
  end.
Proof.
  intros Hu Hr Ha. unfold try_processing_claim, stm_map_err, s_write, mbind, stm_bind in Hr.
  destruct (s_sync st) as [r1 st1] eqn:Es.
  destruct (undisturbed_sync st r1 st1 v Hu Es Ha) as [-> Ha1].
  destruct (st_try_claim_agent_processing a (ss_store st1)) as [r2 s2] eqn:Ec.
  injection Hr as <- <-. destruct (spec_try_claim _ _ _ _ Ec) as (_ & Hv & Hc).
  specialize (Hv a v Ha1). destruct r2 as [[]|e]; cbn [map_err ss_store];
    [rewrite bool_decide_eq_true_2 in Hv by done|rewrite bool_decide_eq_false_2 in Hv by naive_solver..];
    [|  |done]; specialize (Hc v _ Ha1 eq_refl); destruct (av_claimed v); done.
Qed.

(** The scheduler starts work exactly when it should: it takes the claim only
    for an active agent with pending transactions that nobody processes, with the
    configuration the caller gave or the registered one; in every other case it
    leaves the agent's state as it was. *)
Theorem schedule_prepare_claims o (st : SS) r st' v :
  undisturbed -> schedule_prepare sc a o st = (r, st') -> abstracts (ss_store st) a v ->
  match r with
  | Ok (Some config) =>
      av_status v = AgentStatus_Active /\ av_inbox v <> [] /\ av_claimed v = false /\
      (so_loop_config o = Some config \/
       so_loop_config o = None /\
       into_loop_config <$> sc_identity_registry sc !! a = Some config) /\
      abstracts (ss_store st') a (view_claim v true)
  | Ok None =>
      (av_status v <> AgentStatus_Active \/ av_inbox v = [] \/ av_claimed v = true) /\
      abstracts (ss_store st') a v
  | Err e =>
      (e = SchedulerError_AgentNotRegistered a ->
       so_loop_config o = None /\ sc_identity_registry sc !! a = None) /\
      abstracts (ss_store st') a v
  end.
Proof.
  intros Hu Hr Ha. unfold schedule_prepare, mbind, stm_bind, stm_map_err in Hr.
  destruct (s_read (fun s => st_get_agent_status s a) st) as [r1 st1] eqn:E1.
  destruct (undisturbed_read _ _ _ _ v Hu E1 Ha) as [Hr1 Ha1].
  destruct r1 as [status|e]; cbn [map_err] in Hr; [|by injection Hr as <- <-].
  apply eq_sym, (spec_status _ _ _ _ Ha1) in Hr1 as ->.
  case_bool_decide as Hact; [|injection Hr as <- <-; split; [by left|done]].
  destruct (s_read (fun s => st_has_pending_tx s a) st1) as [r2 st2] eqn:E2.
  destruct (undisturbed_read _ _ _ _ v Hu E2 Ha1) as [Hr2 Ha2].
  destruct r2 as [pending|e]; cbn [map_err] in Hr; [|by injection Hr as <- <-].
  apply eq_sym, (spec_pending _ _ _ _ Ha2) in Hr2 as ->.
  case_bool_decide as Hin; cbn [negb] in Hr; [injection Hr as <- <-; split; [by right; left|done]|].
  set (cfg := match so_loop_config o with
              | Some config => Some config
              | None => into_loop_config <$> sc_identity_registry sc !! a end).
  assert (match cfg with
          | Some config =>
              match try_processing_claim a st2 with
              | (Ok claimed, st3) => (Ok (if (claimed : bool) then Some config else None), st3)
              | (Err e, st3) => (Err e, st3)
              end
          | None => (Err (SchedulerError_AgentNotRegistered a), st2)
          end = (r, st')) as Hc.
  { rewrite <- Hr. unfold cfg, registry_get. destruct (so_loop_config o); [done|].
    by destruct (sc_identity_registry sc !! a). }
  assert (cfg = None -> so_loop_config o = None /\ sc_identity_registry sc !! a = None) as Hnone.
  { unfold cfg. destruct (so_loop_config o), (sc_identity_registry sc !! a); done. }
  clear Hr. destruct cfg as [config|] eqn:Ecfg; [|injection Hc as <- <-; split; [by intros; apply Hnone|done]].
  destruct (try_processing_claim a st2) as [r3 st3] eqn:E3.
  pose proof (undisturbed_claim _ _ _ v Hu E3 Ha2) as H3c.
  destruct r3 as [[]|e]; injection Hc as <- <-.
  - destruct H3c as [Hcl Ha3]. split_and!; try done. unfold cfg in Ecfg.
    destruct (so_loop_config o); [left; congruence|by right].
  - destruct H3c as [Hcl Ha3]. split; [by right; right|done].
  - split; [|done]. intros ->. exfalso. unfold try_processing_claim, stm_map_err in E3.
    destruct (s_write _ st2) as [[]]; discriminate E3.
Qed.

(** ** Releasing it *)

(** Whatever happens under the claim, the last thing the scheduler does to
    the store is to release it: when the kernel cannot be built, when the worker
    fails, and when it succeeds; and a success is reported only when the release
    succeeded, which leaves the agent unclaimed. *)
Theorem schedule_releases_claim fuel o (st : SS) r st' :
  schedule_agent_with_options fuel sc snapshot_hash a o st = (Some r, st') ->
  (exists r0, schedule_prepare sc a o st = (r0, st') /\ forall config, r0 <> Ok (Some config)) \/
  exists config st1 st2 rel, schedule_prepare sc a o st = (Ok (Some config), st1) /\
    claim_release a st2 = (rel, st') /\
    (forall p, r = Ok p -> rel = Ok tt) /\
    (rel = Ok tt -> forall s e v, w_interfere (ss_store st2) (ss_env st2) = (s, e) ->
       abstracts s a v -> abstracts (ss_store st') a (view_claim v false)).
Proof.
  intros Hrun. unfold schedule_agent_with_options in Hrun.
  assert (forall st2 rel st3, claim_release a st2 = (rel, st3) -> rel = Ok tt ->
    forall s e v, w_interfere (ss_store st2) (ss_env st2) = (s, e) ->
      abstracts s a v -> abstracts (ss_store st3) a (view_claim v false)) as Hrel.
  { intros st2 rel st3 Hc -> s e v Hi Ha.
    unfold claim_release, stm_map_err, s_write, s_sync, mbind, stm_bind in Hc. rewrite Hi in Hc.
    cbn [ss_store ss_env] in Hc. destruct (st_release_agent_processing a s) as [r2 s2] eqn:Er.
    destruct r2 as [[]|]; [|done]. injection Hc as <-.
    destruct (spec_release _ _ _ _ Er) as [_ Hv]. specialize (Hv a v Ha).
    by rewrite bool_decide_eq_true_2 in Hv. }
  destruct (schedule_prepare sc a o st) as [[[config|]|e] st1] eqn:Ep;
    [|left; injection Hrun as <- <-; eexists; split; [done|]; done..].
  right. unfold schedule_claimed in Hrun. set (st2 := (s_sync st1).2) in Hrun.
  destruct (Kernel_new _ _ _ _ _ _) as [[k kst]|e].
  - destruct (process_agent_with_timeout _ _ _ _ _ _ _) as [[result|] kst']; [|done].
    unfold finish_claim in Hrun. destruct (claim_release a (state_of kst')) as [[[]|e] st3] eqn:Ec.
    + injection Hrun as <- <-. exists config, st1, (state_of kst'), (Ok tt). split_and!; try done.
      by apply Hrel.
    + injection Hrun as <- <-. destruct (claim_release a st3) as [rel st4] eqn:Ec2.
      exists config, st1, st3, rel. split_and!; try done; [|by apply Hrel]. by destruct result.
  - injection Hrun as <- <-. destruct (claim_release a st2) as [rel st3] eqn:Ec.
    exists config, st1, st2, rel. split_and!; try done. by apply Hrel.
Qed.

(** ** A whole run, with others at work *)
Context (demand : E -> nat) (o : @ScheduleOverrides E).

(** The kernel the scheduler builds. *)
Definition built_kernel (report : option ReplayReport) : Kernel E :=
  {| k_executor := default (sc_executors sc) (so_router_override o);
     k_config := overridden_config (sc_kernel_config sc) o; k_agent_id := a;
     k_replay_report := report |}.
Abbreviation W := (record_window_size (sc_kernel_config sc)).

#[local] Instance scheduled_rule : HashRule := kernel_rule W.
(** The kernel's invariant on the scheduler's state. *)
Definition sinv (n : nat) (h : Z) (q : list Transaction) (lb : list RecordEntry) (st : SS) : Prop :=
  exists v, abstracts (ss_store st) a v /\ log_follows (av_log v) /\ lb `prefix_of` av_log v /\
    (Z.of_nat (length (av_log v) + demand (ss_env st) + n) < u64_max)%Z /\
    av_inbox_head v = h /\ q `prefix_of` av_inbox v.

Context (Hw : forall report, world_ok (built_kernel report) demand).

Lemma sinv_sync {F} n h q lb (st : SS) :
  sinv n h q lb st -> sinv n h q lb ((s_sync : stm SS F unit) st).2.
Proof.
  intros (v & Ha & Hv & Hp & Hr & Hh & Hi). unfold s_sync.
  destruct (w_interfere (ss_store st) (ss_env st)) as [s e] eqn:Ew.
  destruct (wo_interfere _ _ (Hw None) _ _ _ _ v Ew Ha Hv) as (v' & Ha' & Hp' & Hv' & Hd & Hh' & Hi').
  exists v'. cbn. split_and!; try done; [by etrans|lia|congruence|by etrans].
Qed.
Lemma sinv_read {F A} (f : ST -> result F A) n h q lb (st : SS) :
  sinv n h q lb st -> sinv n h q lb ((s_read f : stm SS F A) st).2.
Proof.
  intros Hs. unfold s_read, mbind, stm_bind. pose proof (sinv_sync (F := F) _ _ _ _ _ Hs) as Hs'.
  by destruct (s_sync st) as [[]].
Qed.
(** A claim or a release changes the claim only. *)
Lemma sinv_try_claim n h q lb (st : SS) :
  sinv n h q lb st -> sinv n h q lb (try_processing_claim a st).2.
Proof.
  intros Hs. unfold try_processing_claim, stm_map_err, s_write, mbind, stm_bind.
  pose proof (sinv_sync (F := StoreError) _ _ _ _ _ Hs) as Hs'.
  destruct (s_sync st) as [[u|e] st1]; [|done]. cbn [snd] in Hs'.
  destruct (st_try_claim_agent_processing a (ss_store st1)) as [r2 s2] eqn:Ec.
  destruct Hs' as (v & Ha & Hrest). destruct (spec_try_claim _ _ _ _ Ec) as (_ & Hv & _).
  specialize (Hv a v Ha). case_bool_decide; eexists; (split; [exact Hv|]); done.
Qed.
Lemma sinv_release n h q lb (st : SS) r st' :
  claim_release a st = (r, st') -> sinv n h q lb st ->
  sinv n h q lb st' /\
  (r = Ok tt -> exists v, abstracts (ss_store st') a v /\ log_follows (av_log v) /\
     lb `prefix_of` av_log v /\ av_inbox_head v = h /\ q `prefix_of` av_inbox v /\
     av_claimed v = false).
Proof.
  intros Hr Hs. unfold claim_release, stm_map_err, s_write, mbind, stm_bind in Hr.
  pose proof (sinv_sync (F := StoreError) _ _ _ _ _ Hs) as Hs'.
  destruct (s_sync st) as [[u|e] st1]; [|by injection Hr as <- <-]. cbn [snd] in Hs'.
  destruct (st_release_agent_processing a (ss_store st1)) as [r2 s2] eqn:Ec. injection Hr as <- <-.
  destruct Hs' as (v & Ha & Hv & Hp & Hroom & Hh & Hi). destruct (spec_release _ _ _ _ Ec) as [_ Hv2].
  specialize (Hv2 a v Ha). split.
  - case_bool_decide; eexists; (split; [exact Hv2|]); done.
  - intros Hok. assert (r2 = Ok tt) as -> by (by destruct r2 as [[]|]).
    rewrite bool_decide_eq_true_2 in Hv2 by done. eexists. split; [exact Hv2|]. by split_and!.
Qed.

Lemma sinv_prepare n h q lb (st : SS) r st' :
  schedule_prepare sc a o st = (r, st') -> sinv n h q lb st -> sinv n h q lb st'.
Proof.
  intros Hr Hs. unfold schedule_prepare, mbind, stm_bind, stm_map_err in Hr.
  pose proof (sinv_read (fun s => st_get_agent_status s a) _ _ _ _ _ Hs) as H1s.
  destruct (s_read (fun s => st_get_agent_status s a) st) as [[status|e] st1]; cbn in Hr, H1s;
    [|by injection Hr as <- <-].
  case_bool_decide; [|by injection Hr as <- <-].
  pose proof (sinv_read (fun s => st_has_pending_tx s a) _ _ _ _ _ H1s) as H2s.
  destruct (s_read (fun s => st_has_pending_tx s a) st1) as [[[]|e] st2]; cbn in Hr, H2s;
    [|by injection Hr as <- <-..].
  pose proof (sinv_try_claim _ _ _ _ _ H2s) as H3s.
  destruct (so_loop_config o), (registry_get a (sc_identity_registry sc)); cbn in Hr;
    try (by injection Hr as <- <-); destruct (try_processing_claim a st2) as [[]];
    by injection Hr as <- <-.
Qed.

Context (cost : nat) `{Hcalls : forall report, AgentLoopOk (built_kernel report) cost}.

Lemma Kernel_new_built store env k kst :
  Kernel_new snapshot_hash store (default (sc_executors sc) (so_router_override o))
    (overridden_config (sc_kernel_config sc) o) a env = Ok (k, kst) ->
  (exists report, k = built_kernel report) /\ ks_store kst = store /\ ks_env kst = env /\
  ks_events kst = [] /\ is_u64 (ks_seq kst).
Proof.
  unfold Kernel_new. intros (head_seq & _ & Hk)%result_bind_Ok.
  apply result_bind_Ok in Hk as (report & _ & Hk). injection Hk as <- <-. split_and!; [by exists report|done..|]. apply u64_add_range.
Qed.

(** C8: a scheduled run that reports success has drained in order and left nothing
    behind: the agent's log extends the old one and follows the rules of what kernels
    write, as many transactions as reported left the front of the inbox, each
    recorded in the log, and the claim is free again if the run took it; a run that
    did not get the claim consumed nothing.  Other tasks may append to the log and
    enqueue all along, and the agent's loop may make any kernel calls but drain the
    inbox itself, up to a number of entries. *)
Theorem schedule_drains_inbox fuel (st : SS) p st' v :
  schedule_agent_with_options fuel sc snapshot_hash a o st = (Some (Ok p), st') ->
  abstracts (ss_store st) a v -> log_follows (av_log v) ->
  (Z.of_nat (length (av_log v) + demand (ss_env st) + (6 + cost) * fuel) < u64_max)%Z ->
  exists v' c, abstracts (ss_store st') a v' /\ av_log v `prefix_of` av_log v' /\
    log_follows (av_log v') /\ pa_processed p = Z.of_nat (length c) /\
    av_inbox_head v' = (av_inbox_head v + Z.of_nat (length c))%Z /\
    av_inbox v `prefix_of` c ++ av_inbox v' /\ Forall (is_recorded (av_log v')) c /\
    match (schedule_prepare sc a o st).1 with Ok (Some _) => av_claimed v' = false | _ => c = [] end.
Proof.
  intros Hrun Ha Hv Hroom. unfold schedule_agent_with_options in Hrun.
  assert (sinv ((6 + cost) * fuel) (av_inbox_head v) (av_inbox v) (av_log v) st) as Hs.
  { exists v. by split_and!. }
  destruct (schedule_prepare sc a o st) as [r0 st1] eqn:Ep. cbn [fst].
  pose proof (sinv_prepare _ _ _ _ _ _ _ Ep Hs) as H1s. clear Hs.
  destruct r0 as [[config|]|e]; [|injection Hrun as <- <-|done].
  2: { destruct H1s as (v' & Ha' & Hv' & Hp' & _ & Hh' & Hi'). exists v', []. cbn.
       rewrite Z.add_0_r. by split_and!. }
  unfold schedule_claimed in Hrun.
  pose proof (sinv_sync (F := SchedulerError) _ _ _ _ _ H1s) as H2s.
  set (st2 := (s_sync st1).2) in *.
  destruct (Kernel_new _ _ _ _ _ _) as [[k kst]|e] eqn:Ek; [|done].
  destruct (Kernel_new_built _ _ _ _ Ek) as ([report ->] & Hst & Henv & Hev & Hsq).
  destruct (process_agent_with_timeout _ _ _ _ _ _ _) as [out kst'] eqn:Ew.
  destruct out as [result|]; [|done].
  destruct H2s as (v2 & Ha2 & Hv2 & Hp2 & Hr2 & Hh2 & Hi2).
  assert (KernelInv.kinv (built_kernel report) demand ((6 + cost) * fuel + 0) (av_inbox_head v)
            (av_inbox v) (av_log v) kst) as Hk.
  { exists v2. split; rewrite ?Hst, ?Henv, ?Hev; try done. lia. }
  destruct (worker_loop_spec (built_kernel report) demand (Hw report) cost _ _ _ fuel (so_history o)
    ProcessedAgent_default 0 (av_inbox_head v) (av_inbox v) (av_log v) _ _ _ Ew)
    as (c & q & lb' & Hlb & Hpre & Hk' & Hlen & Hout); [done|cbn; lia|exact Hk|].
  destruct Hk' as [v3 [Ha3 Hv3 Hp3 Hr3 Hh3 Hi3 _ _]].
  assert (sinv 0 (av_inbox_head v + Z.of_nat (length c)) q lb' (state_of kst')) as H3s.
  { exists v3. by split_and!. }
  unfold finish_claim in Hrun. destruct (claim_release a (state_of kst')) as [[[]|e] st3] eqn:Ec;
    [|by destruct result].
  destruct result as [p'|]; [|done]. injection Hrun as <- <-.
  destruct (sinv_release _ _ _ _ _ _ _ Ec H3s) as [_ Hfree].
  destruct (Hfree eq_refl) as (v4 & Ha4 & Hv4 & Hp4 & Hh4 & Hi4 & Hc4).
  destruct Hout as (_ & Hproc & Hrec). exists v4, c. split_and!; try done; [by etrans| |].
  - etrans; [exact Hpre|]. by apply prefix_app.
  - eapply Forall_impl; [exact Hrec|]. intros tx. by apply is_recorded_prefix.
Qed.
End Schedule.

(** * A concrete run *)
Module SchedulerWitness.
#[local] Existing Instances toy_blake3 lower_hex.
#[local] Existing Instances KernelWitness.no_model KernelWitness.quiet_world KernelWitness.tx_serde
  KernelWitness.json_serde KernelWitness.caps_from_json KernelWitness.payload_serde
  KernelWitness.call_serde KernelWitness.proposal_serde KernelWitness.execution_serde
  KernelWitness.decision_serde KernelWitness.result_serde KernelWitness.w_debug KernelWitness.w_text.
Abbreviation agent := KernelWitness.agent.
Abbreviation Env := KernelWitness.Env.

(** A loop that asks the model once, by a stream that it records. *)
Definition ask : KernelCall := @KCall_reason_streaming KernelWitness.no_model tt.
Definition answered : KernelCall := KCall_record_completed 0 "model" StopReason_EndTurn (Usage_new 0 0) [] "" None.
#[local] Instance one_call : AgentLoop (ST := ViewStore) (E := Env) :=
  {| loop_run := fun _ k _ _ _ st => (Some (Ok AgentLoopResult_default), run_kcalls k [ask; answered] st) |}.
Lemma one_call_ok (k : Kernel Env) : AgentLoopOk k 2.
Proof. intros cfg ms tools d st r st' [= <- <-]. exists [ask; answered]. split; [done|]. split; [by repeat constructor|done]. Qed.

Definition registered : AgentIdentity := {|
  aid_reasoning_effort := None; aid_upstream_provider_family := None; aid_model := "m";
  aid_aura_org_id := None; aid_aura_session_id := None; aid_aura_agent_id := None;
  aid_aura_project_id := None; aid_system_prompt := ""; aid_prompt_cache_key := None;
  aid_prompt_cache_retention := None; aid_request_kind := ModelRequestKind_Chat;
  aid_max_tokens := 1024; aid_max_context_tokens := 200000; aid_auth_token := None |}.
Definition sched : @Scheduler Env := {|
  sc_identity_registry := registry_register agent registered ∅; sc_executors := [KernelWitness.reader];
  sc_tools := []; sc_kernel_config := KernelConfig_default Env; sc_memory_manager := false |}.
Definition plain : @ScheduleOverrides Env := ScheduleOverrides_default.

(** Two prompts wait in the inbox. *)
Definition second_tx : Transaction :=
  Transaction_new (arr_fill 32 "003"%byte) agent 0 TransactionType_UserPrompt ["B"%byte].
Definition waiting : ViewStore :=
  (st_enqueue_tx second_tx (st_enqueue_tx KernelWitness.prompt_tx vs_empty).2).2.
Definition start : @SState ViewStore Env := {| ss_store := waiting; ss_env := 0%Z |}.
Definition run := schedule_agent_with_options 5 sched (fun _ => "digest") agent plain start.

Example run_processes_both : fmap (fmap (M := result _) pa_processed) run.1 = Some (Ok 2%Z).
Proof. vm_compute. reflexivity. Qed.

Lemma run_ok : exists p, run.1 = Some (Ok p) /\ pa_processed p = 2%Z.
Proof.
  pose proof run_processes_both as Hr. destruct run.1 as [[p|]|]; try discriminate Hr.
  exists p. split; [done|]. by injection Hr.
Qed.
(** The claim was taken. *)
Definition claims : bool :=
  match (schedule_prepare sched agent plain start).1 with Ok (Some _) => true | _ => false end.
Lemma claims_ok : exists config, (schedule_prepare sched agent plain start).1 = Ok (Some config).
Proof.
  assert (claims = true) as Hc by (vm_compute; reflexivity). unfold claims in Hc.
  destruct (schedule_prepare sched agent plain start).1 as [[config|]|]; try discriminate Hc.
  by exists config.
Qed.
Lemma run_pair : run = (run.1, run.2).
Proof. by destruct run. Qed.

Lemma waiting_view : abstracts waiting agent (vs_view waiting agent).
Proof. split; [done|]. split; by vm_compute. Qed.
Lemma waiting_log : av_log (vs_view waiting agent) = [].
Proof. vm_compute. reflexivity. Qed.
#[local] Instance rule50 : HashRule := kernel_rule 50.
Lemma built_world report : world_ok (built_kernel sched agent plain report) KernelWitness.demand0.
Proof.
  split; try (by intros; apply hashed_window); try (by intros; intros ?); try done.
  intros s e s' e' v [= <- <-] Ha Hv. exists v. by split_and!.
Qed.

Lemma schedule_drains_inbox_witness :
  exists v' c, abstracts (ss_store run.2) agent v' /\
    length c = 2 /\ log_follows (av_log v') /\ Forall (is_recorded (av_log v')) c /\
    av_claimed v' = false.
Proof.
  destruct run_ok as (p & Hp & Hn).
  destruct (schedule_drains_inbox sched (fun _ => "digest") agent KernelWitness.demand0 plain
    built_world 2 (Hcalls := fun report => one_call_ok _) 5 start p run.2 (vs_view waiting agent))
    as (v' & c & Ha & _ & Hv & Hc & _ & _ & Hf & Hfree).
  - rewrite <- Hp. exact run_pair.
  - exact waiting_view.
  - rewrite waiting_log. apply log_follows_nil.
  - rewrite waiting_log. reflexivity.
  - exists v', c. rewrite Hn in Hc. assert (length c = 2) as Hl by lia.
    split; [exact Ha|]. split; [exact Hl|]. split; [exact Hv|]. split; [exact Hf|].
    destruct claims_ok as [config Hx]. rewrite Hx in Hfree. exact Hfree.
Defined.

Lemma schedule_releases_claim_witness :
  exists st2 rel, claim_release agent st2 = (rel, run.2) /\ rel = Ok tt.
Proof.
  destruct run_ok as (p & Hp & _).
  destruct (schedule_releases_claim sched (fun _ => "digest") agent 5 plain start (Ok p) run.2)
    as [(r0 & Hr & Hno)|(config & st1 & st2 & rel & _ & Hrel & Hok & _)].
  - rewrite <- Hp. exact run_pair.
  - exfalso. destruct claims_ok as [config Hc]. rewrite Hr in Hc. by destruct (Hno config).
  - exists st2, rel. split; [exact Hrel|]. by apply (Hok p).
Defined.

Lemma schedule_prepare_claims_witness :
  abstracts (ss_store (schedule_prepare sched agent plain start).2) agent
    (view_claim (vs_view waiting agent) true).
Proof.
  assert (undisturbed agent (ST := ViewStore) (E := Env)) as Hu
    by (intros s e s' e' v [= <- <-] Ha; exact Ha).
  destruct (schedule_prepare sched agent plain start) as [r st'] eqn:Er.
  pose proof (schedule_prepare_claims sched agent plain start r st' (vs_view waiting agent) Hu Er
    waiting_view) as Hc.
  assert (exists config, r = Ok (Some config)) as [config ->].
  { destruct claims_ok as [config Hx]. rewrite Er in Hx. by exists config. }
  by destruct Hc as (_ & _ & _ & _ & Hc).
Defined.

Definition kernel0 : Kernel Env := built_kernel sched agent plain None.
Definition kstate0 : KState ViewStore Env :=
  {| ks_store := waiting; ks_policy := Policy_new (fun _ => "digest") PolicyConfig_default;
     ks_seq := 1; ks_env := 0%Z; ks_events := [] |}.
Definition one_turn := process_agent_with_timeout kernel0 (into_loop_config registered) [] None 1 [] kstate0.
Lemma one_turn_pair :
  process_agent_with_timeout kernel0 (into_loop_config registered) [] None 1 [] kstate0
  = (one_turn.1, one_turn.2).
Proof. unfold one_turn. apply surjective_pairing. Qed.
Definition still_running : bool := match one_turn.1 with None => true | Some _ => false end.
Lemma one_turn_running : one_turn.1 = None.
Proof.
  assert (still_running = true) as Hr by (vm_compute; reflexivity). unfold still_running in Hr.
  destruct one_turn.1; [discriminate Hr|reflexivity].
Qed.
Lemma worker_consumes_in_order_witness :
  exists v' c, abstracts (ks_store one_turn.2) agent v' /\ length c = 1 /\
    av_inbox_head v' = 1%Z /\ av_inbox (vs_view waiting agent) `prefix_of` c ++ av_inbox v'.
Proof.
  destruct (worker_consumes_in_order kernel0 KernelWitness.demand0 (built_world None) 2
    (Hcalls := one_call_ok kernel0) (into_loop_config registered) [] None 1 [] kstate0 one_turn.1
    one_turn.2 (vs_view waiting agent)) as (v' & c & Ha & _ & _ & Hh & Hp & _ & Hrun & _).
  - exact one_turn_pair.
  - exact waiting_view.
  - rewrite waiting_log. apply log_follows_nil.
  - reflexivity.
  - by split.
  - rewrite waiting_log. reflexivity.
  - assert (length c = 1) as Hc by (exact (Hrun one_turn_running)).
    exists v', c. split; [exact Ha|]. split; [exact Hc|]. split; [|exact Hp].
    rewrite Hh, Hc. reflexivity.
Defined.
End SchedulerWitness.
