(* ===== verification/TextScrub.v ===== *)
(** Scrubbing of tool-call markup from assistant text
    ([aura-agent/src/agent_loop/text_sanitize.rs]).

    The scan is over bytes: everything it looks for is ASCII, so a character of
    several bytes is copied whole. *)
From S2P Require Import Prelude Values Utf8 Text Context ModelRequest.
From stdpp Require Import list.
From Stdlib Require Import Ascii Strings.Byte.

Definition XML_TOOL_TAGS : list string := ["function_calls"; "invoke"; "parameter"].

Definition is_name_char (c : ascii) : bool :=
  let b := byte_to_Z (byte_of_ascii c) in
  ((48 <=? b) && (b <=? 57) || (65 <=? b) && (b <=? 90) || (97 <=? b) && (b <=? 122) || (b =? 95))%Z.
Definition is_char (c d : ascii) : bool := bool_decide (d = c).

Definition match_xml_tool_tag (rest : string) : option nat :=
  let after_lt := str_drop 1 rest in
  let after_slash := default after_lt (str_strip_prefix "/" after_lt) in
  let name_len := default (String.length after_slash) (find_char (fun c => negb (is_name_char c)) after_slash) in
  if bool_decide (str_take name_len after_slash ∈ XML_TOOL_TAGS)
  then S <$> find_char (is_char ">") rest else None.
Definition match_hybrid_tool_use (rest : string) : option nat :=
  let bound := default (String.length rest)
                 (find_char (fun c => is_char "]" c || is_char newline c || is_char carriage_return c) rest) in
  let window := str_take bound rest in
  if contains (String "n" (String "a" (String "m" (String "e" (String "=" (String "034" EmptyString)))))) window
  then S <$> find_char (is_char ">") window else None.

(** The length of the markup at the head of the rest, if there is any. *)
Definition markup_at (rest : string) : option nat :=
  if starts_with "<" rest then match_xml_tool_tag rest
  else if starts_with "[tool_use " rest then match_hybrid_tool_use rest else None.

Fixpoint scrub_from (fuel : nat) (s : string) : string * bool :=
  match fuel, s with
  | S fuel, String c t =>
      match markup_at s with
      | Some len => (fst (scrub_from fuel (str_drop len s)), true)
      | None => let '(out, changed) := scrub_from fuel t in (String c out, changed)
      end
  | _, _ => (EmptyString, false)
  end.

Fixpoint collapse_from (run : nat) (s : string) : string :=
  match s with
  | EmptyString => EmptyString
  | String c t =>
      if bool_decide (c = newline)
      then if bool_decide (S run <= 2) then String c (collapse_from (S run) t) else collapse_from (S run) t
      else String c (collapse_from 0 t)
  end.
Definition collapse_blank_lines (s : string) : string := collapse_from 0 s.

Definition scrub_tool_markup (text : string) : string * bool :=
  if negb (contains_char "<" text) && negb (contains "[tool_use" text) then (text, false)
  else let '(out, changed) := scrub_from (String.length text) text in (collapse_blank_lines out, changed).

Definition sanitize_block (b : ContentBlock) : ContentBlock * bool :=
  match b with
  | ContentBlock_Text text => let '(out, changed) := scrub_tool_markup text in (ContentBlock_Text out, changed)
  | other => (other, false)
  end.
Definition sanitize_message (m : Message) : Message * bool :=
  ({| msg_role := msg_role m; msg_content := fst ∘ sanitize_block <$> msg_content m |},
   existsb (fun b => snd (sanitize_block b)) (msg_content m)).

Definition invoke_text : string :=
  "I will read it." +++ nl +++ "<function_calls>" +++ nl +++ "<invoke name=x>" +++ nl
  +++ "<parameter name=y>a.ts</parameter>" +++ nl +++ "</invoke>" +++ nl +++ "</function_calls>" +++ nl +++ "Done.".
Example scrub_cases :
  scrub_tool_markup invoke_text = ("I will read it." +++ nl +++ nl +++ "a.ts" +++ nl +++ nl +++ "Done.", true)
  /\ scrub_tool_markup "compare a < b and note x > y" = ("compare a < b and note x > y", false).
Proof. split; reflexivity. Qed.

(** * The scan *)
Lemma markup_len_pos s n : markup_at s = Some n -> 0 < n.
Proof.
  unfold markup_at, match_xml_tool_tag, match_hybrid_tool_use. intros Hm.
  repeat case_match; try discriminate; apply fmap_Some in Hm as (k & _ & ->); lia.
Qed.

(** The fuel given is enough: more does not change the result. *)
Lemma scrub_fuel s fuel fuel' :
  String.length s <= fuel -> String.length s <= fuel' -> scrub_from fuel s = scrub_from fuel' s.
Proof.
  revert fuel' s. induction fuel as [|fuel IH]; intros fuel' [|c s] Hf Hf'; cbn in *; try lia; destruct fuel' as [|fuel'];
    cbn in *; try done; try lia.
  destruct (markup_at (String c s)) as [n|] eqn:E.
  - pose proof (markup_len_pos _ _ E). rewrite (IH fuel'); [done|..]; rewrite str_drop_length; cbn; lia.
  - by rewrite (IH fuel') by lia.
Qed.

(** Deleting: every character kept, in order. *)
Inductive deleted : string -> string -> Prop :=
| deleted_nil : deleted EmptyString EmptyString
| deleted_keep c a b : deleted a b -> deleted (String c a) (String c b)
| deleted_drop c a b : deleted a b -> deleted a (String c b).
Lemma deleted_refl s : deleted s s.
Proof. induction s; by constructor. Qed.
Lemma deleted_empty s : deleted EmptyString s.
Proof. induction s; by constructor. Qed.
Lemma deleted_trans a b c : deleted a b -> deleted b c -> deleted a c.
Proof.
  intros Hab Hbc. revert a Hab. induction Hbc as [|x b c _ IH|x b c _ IH]; intros a Hab; [done| |].
  - inversion Hab; subst; constructor; by apply IH.
  - constructor. by apply IH.
Qed.
Lemma deleted_str_drop n s a : deleted a (str_drop n s) -> deleted a s.
Proof.
  revert s. induction n as [|n IH]; intros [|c s]; cbn; try done. intros Ha. constructor. by apply IH.
Qed.
Lemma scrub_deleted fuel s : deleted (fst (scrub_from fuel s)) s.
Proof.
  revert s. induction fuel as [|fuel IH]; intros [|c s]; cbn; try apply deleted_empty.
  destruct (markup_at (String c s)) as [n|]; cbn [fst].
  - apply (deleted_str_drop n). apply IH.
  - specialize (IH s). destruct (scrub_from fuel s) as [out ch]. by constructor.
Qed.
Lemma collapse_deleted run s : deleted (collapse_from run s) s.
Proof.
  revert run. induction s as [|c s IH]; intros run; cbn; [constructor|].
  repeat case_bool_decide; by constructor.
Qed.
Lemma scrub_unmarked fuel s :
  String.length s <= fuel -> snd (scrub_from fuel s) = false -> fst (scrub_from fuel s) = s.
Proof.
  revert s. induction fuel as [|fuel IH]; intros [|c s] Hf; cbn in *; try done; try lia.
  destruct (markup_at (String c s)) as [n|]; [done|]. specialize (IH s ltac:(lia)).
  destruct (scrub_from fuel s) as [out ch]. cbn in *. intros Hc. by rewrite IH.
Qed.

(** Scrubbing only deletes: what remains of an assistant text is its
    characters in their order, and when no markup is reported nothing but surplus
    blank lines is gone. *)
Theorem scrub_only_deletes text out changed :
  scrub_tool_markup text = (out, changed) ->
  deleted out text /\ (changed = false -> out = text \/ out = collapse_blank_lines text).
Proof.
  unfold scrub_tool_markup. destruct (negb _ && negb _).
  { intros [= <- <-]. split; [apply deleted_refl|by left]. }
  pose proof (scrub_deleted (String.length text) text) as Hd.
  pose proof (scrub_unmarked (String.length text) text (le_n _)) as Hu.
  destruct (scrub_from _ text) as [o ch]. cbn [fst snd] in *. intros [= <- <-].
  split; [eapply deleted_trans; [apply collapse_deleted|done]|]. intros Hc. right. by rewrite (Hu Hc).
Qed.

Module TextScrubExample.
Lemma scrub_only_deletes_witness :
  scrub_tool_markup "a<invoke>b" = ("ab", true) /\ deleted "ab" "a<invoke>b".
Proof. split; [reflexivity|]. by apply (scrub_only_deletes "a<invoke>b" "ab" true). Defined.

(** Removing a tag can put another one together. *)
Lemma scrub_rebuilds_tag :
  scrub_tool_markup "<inv<invoke>oke>" = ("<invoke>", true)
  /\ scrub_tool_markup (fst (scrub_tool_markup "<inv<invoke>oke>")) = ("", true).
Proof. split; reflexivity. Qed.
(** A text without markup loses blank lines as soon as it holds a [<]. *)
Lemma scrub_collapses_code :
  scrub_tool_markup ("if a < b {" +++ nl +++ nl +++ nl +++ "}") = ("if a < b {" +++ nl +++ nl +++ "}", false).
Proof. reflexivity. Qed.
End TextScrubExample.
