(* ===== verification/LoopState.v ===== *)
(** The state one run of the agent loop carries ([aura-agent/src/agent_loop/state.rs,
    turn_diff.rs, iteration/mod.rs, context.rs], [aura-agent/src/budget.rs]): the
    start of an iteration, the request it sends, the response it takes in, context
    compaction and the budgets.

    Counters and token counts are [Z]; 64-bit sums that the code does not guard wrap
    as in a release build.  Events for the user interface are advisory and left out.
    What comes from outside is an argument: the steering configuration, the value
    the plan signal held, whether compaction is switched off, the threshold of
    summaries, whether a plugin hook blocks compaction. *)
From S2P Require Import Prelude Values Utf8 Text CoreTypes Context ModelRequest Compaction LoopTypes.
From S2P Require Import Steering ToolCache TextScrub Sanitize.
From stdpp Require Import list.
From Stdlib Require Import Ascii Strings.Byte SpecFloat.

(** * File operations of one iteration *)
Inductive FileOp := FileOp_Created | FileOp_Modified (bytes_written : Z) | FileOp_Deleted.
Record TurnDiff := { td_writes : gmap (list string) FileOp; td_read_paths : path_set }.
Definition TurnDiff_default : TurnDiff := {| td_writes := ∅; td_read_paths := ∅ |}.
Definition record_create (path : string) (d : TurnDiff) : TurnDiff :=
  {| td_writes := <[path_components path := FileOp_Created]> (td_writes d); td_read_paths := td_read_paths d |}.
Definition record_modify (path : string) (n : Z) (d : TurnDiff) : TurnDiff :=
  let op := match td_writes d !! path_components path with
            | Some (FileOp_Modified m) => FileOp_Modified (saturating_add m n)
            | Some op => op
            | None => FileOp_Modified n
            end in
  {| td_writes := <[path_components path := op]> (td_writes d); td_read_paths := td_read_paths d |}.
Definition record_delete (path : string) (d : TurnDiff) : TurnDiff :=
  {| td_writes := <[path_components path := FileOp_Deleted]> (td_writes d); td_read_paths := td_read_paths d |}.
Definition record_read (path : string) (d : TurnDiff) : TurnDiff :=
  {| td_writes := td_writes d; td_read_paths := path_set_insert path (td_read_paths d) |}.

(** * Budgets *)
Record BudgetState := { warned_30 : bool; warned_40_no_write : bool; warned_60 : bool }.
Definition BudgetState_default : BudgetState :=
  {| warned_30 := false; warned_40_no_write := false; warned_60 := false |}.
Definition BUDGET_WARNING_30 : spec_float := f64_lit 30 100.
Definition BUDGET_WARNING_40_NO_WRITE : spec_float := f64_lit 40 100.
Definition BUDGET_WARNING_60 : spec_float := f64_lit 60 100.
Definition WARN_60 : string :=
  "WARNING: You have used over 60% of your iteration budget. Wrap up immediately. Complete your current changes and stop.".
Definition WARN_40 : string :=
  "CRITICAL WARNING: You have used 40% of your budget without making ANY writes. Stop exploring and start implementing immediately with what you know.".
Definition WARN_30 : string :=
  "NOTE: You have used 30% of your iteration budget. Prioritize implementing your solution over further exploration.".
Definition check_budget_warning (b : BudgetState) (utilization : spec_float) (had_any_write : bool)
  : option string * BudgetState :=
  if f64_ge utilization BUDGET_WARNING_60 && negb (warned_60 b) then
    (Some WARN_60, {| warned_30 := warned_30 b; warned_40_no_write := warned_40_no_write b; warned_60 := true |})
  else if f64_ge utilization BUDGET_WARNING_40_NO_WRITE && negb had_any_write && negb (warned_40_no_write b) then
    (Some WARN_40, {| warned_30 := warned_30 b; warned_40_no_write := true; warned_60 := warned_60 b |})
  else if f64_ge utilization BUDGET_WARNING_30 && negb (warned_30 b) then
    (Some WARN_30, {| warned_30 := true; warned_40_no_write := warned_40_no_write b; warned_60 := warned_60 b |})
  else (None, b).
(** [budget::should_stop_for_budget]. *)
Definition budget_exhausted (iteration max_iterations avg_tokens total_tokens : Z) (credit_budget : option Z)
  : bool :=
  match credit_budget with
  | Some budget => (budget <? u64_add total_tokens avg_tokens)%Z
  | None => false
  end
  || negb (max_iterations =? usize_max)%Z && (saturating_sub max_iterations 1 <=? iteration)%Z.

(** * The state *)
Record LoopState := {
  ls_result : AgentLoopResult;
  ls_tool_cache : ToolResultCache;
  ls_exploration_count : Z;
  ls_budget_state : BudgetState;
  ls_had_any_write : bool;
  ls_had_any_file_write : bool;
  ls_task_done_completed : bool;
  ls_output_limit_recoveries : Z;
  ls_submit_plan_called : bool;
  ls_checkpoint_emitted : bool;
  ls_exploration_compaction_done : bool;
  ls_build_cooldown : Z;
  ls_thinking_budget : Z;
  ls_restore_next_iteration : bool;
  ls_last_context_tokens_estimate : option Z;
  ls_messages : list Message;
  ls_build_baseline : option (list string);
  ls_turn_diff : TurnDiff;
  ls_session_read_paths : path_set;
  ls_read_after_write_allowances : gmap (list string) Z;
  ls_implement_now_injected : bool;
  ls_steering : SteeringRegistry;
  ls_failed_edit_attempts : gmap string Z;
}.
#[export] Instance LoopState_eta : Settable LoopState := fun s =>
  Build_LoopState (ls_result s) (ls_tool_cache s) (ls_exploration_count s) (ls_budget_state s)
    (ls_had_any_write s) (ls_had_any_file_write s) (ls_task_done_completed s)
    (ls_output_limit_recoveries s) (ls_submit_plan_called s) (ls_checkpoint_emitted s)
    (ls_exploration_compaction_done s) (ls_build_cooldown s) (ls_thinking_budget s)
    (ls_restore_next_iteration s) (ls_last_context_tokens_estimate s) (ls_messages s)
    (ls_build_baseline s) (ls_turn_diff s) (ls_session_read_paths s)
    (ls_read_after_write_allowances s) (ls_implement_now_injected s) (ls_steering s)
    (ls_failed_edit_attempts s).
Definition LoopState_new (config : AgentLoopConfig) (messages : list Message) : LoopState := {|
  ls_result := AgentLoopResult_default; ls_tool_cache := ToolResultCache_default;
  ls_exploration_count := 0; ls_budget_state := BudgetState_default; ls_had_any_write := false;
  ls_had_any_file_write := false; ls_task_done_completed := false; ls_output_limit_recoveries := 0;
  ls_submit_plan_called := false; ls_checkpoint_emitted := false;
  ls_exploration_compaction_done := false; ls_build_cooldown := 0;
  ls_thinking_budget :=
    Z.min (default (lc_max_tokens config) (lc_thinking_budget config)) (lc_max_tokens config);
  ls_restore_next_iteration := false; ls_last_context_tokens_estimate := None;
  ls_messages := messages; ls_build_baseline := None; ls_turn_diff := TurnDiff_default;
  ls_session_read_paths := ∅; ls_read_after_write_allowances := ∅;
  ls_implement_now_injected := false;
  ls_steering := for_loop (lc_phase_reset_signal config) (lc_early_test_oracle config);
  ls_failed_edit_attempts := ∅ |}.

(** * The start of an iteration *)
Section Begin.
Context `{DefaultHasher} `{SteeringText}.

(** [signal] is what swapping the plan signal returned, [false] without one. *)
Definition begin_iteration (cfg : SteeringConfig) (config : AgentLoopConfig) (iteration : Z) (signal : bool)
    (s : LoopState) : LoopState :=
  let '(notes, steering) := drain_for_next_turn (registry_begin_turn cfg (ls_steering s)) in
  let s := s <| ls_build_cooldown := saturating_sub (ls_build_cooldown s) 1 |>
             <| ls_turn_diff := TurnDiff_default |>
             <| ls_messages := foldl inject (ls_messages s) notes |>
             <| ls_steering := steering |>
             <| ls_implement_now_injected := sr_implement_now_injected steering |> in
  let s := if lc_phase_reset_signal config && signal then
             s <| ls_exploration_count := 0%Z |> <| ls_exploration_compaction_done := false |>
               <| ls_submit_plan_called := ls_submit_plan_called s || (0 <? iteration)%Z |>
           else s in
  if ls_restore_next_iteration s then
    s <| ls_thinking_budget := lc_max_tokens config |> <| ls_restore_next_iteration := false |>
  else s <| ls_thinking_budget := Z.min (ls_thinking_budget s) (lc_max_tokens config) |>.
End Begin.

(** * The request *)
Definition compute_thinking_effort (config : AgentLoopConfig) (iteration : Z) (s : LoopState) : ThinkingEffort :=
  if lc_disable_thinking_iteration_0 config then ThinkingEffort_Medium
  else if (iteration =? 0)%Z then ThinkingEffort_Medium
  else if ls_had_any_file_write s || ls_submit_plan_called s then ThinkingEffort_Low
  else ThinkingEffort_Medium.

Definition first_text (blocks : list ContentBlock) : option string := head (omap as_text blocks).
Fixpoint latest_in (rev_messages : list Message) : option string :=
  match rev_messages with
  | [] => None
  | m :: rest =>
      match msg_role m, first_text (msg_content m) with
      | Role_User, Some text => Some text
      | _, _ => latest_in rest
      end
  end.
Definition latest_user_text (messages : list Message) : option string := latest_in (reverse messages).

Definition scope_tools_for_iteration (config : AgentLoopConfig) (messages : list Message)
    (tools : list ToolDefinition) : list ToolDefinition :=
  let classified :=
    match lc_intent_filter config, latest_user_text messages with
    | Some filter_tools, Some text => filter_tools text tools
    | _, _ => tools
    end in
  match lc_tool_hints config with
  | Some (_ :: _ as hints) =>
      match List.filter (fun t => bool_decide (td_name t ∈ hints)) classified with
      | [] => classified
      | filtered => filtered
      end
  | _ => classified
  end.
Definition pick_request_kind (effective_tools : list ToolDefinition) (kind : ModelRequestKind) (iteration : Z)
  : ModelRequestKind :=
  let has names := existsb (fun t => bool_decide (td_name t ∈ names)) effective_tools in
  match kind with
  | ModelRequestKind_DevLoopBootstrap | ModelRequestKind_DevLoopContinuation =>
      if has ["create_task"; "update_task"; "list_tasks"; "get_task"; "delete_task"]
      then ModelRequestKind_ProjectToolTaskExtract
      else if has ["create_spec"; "update_spec"; "list_specs"; "get_spec"; "delete_spec"]
      then ModelRequestKind_ProjectToolSpecGen
      else match kind with
           | ModelRequestKind_DevLoopBootstrap =>
               if (iteration =? 0)%Z then ModelRequestKind_DevLoopBootstrap
               else ModelRequestKind_DevLoopContinuation
           | kind => kind
           end
  | kind => kind
  end.
Definition parse_cache_retention (value : option string) : option PromptCacheRetention :=
  v ← value;
  let v := trim v in
  if bool_decide (v ∈ ["24h"; "h24"; "hours_24"; "Hours24"]) then Some PromptCacheRetention_Hours24
  else if bool_decide (v ∈ ["in_memory"; "InMemory"; "memory"]) then Some PromptCacheRetention_InMemory
  else None.

Section Requests.
Context `{Blake3} `{Hex}.
Definition build_request (display : spec_float -> string) (config : AgentLoopConfig)
    (tools : list ToolDefinition) (iteration : Z) (s : LoopState) : result RequestError ModelRequestData :=
  let effective_tools := scope_tools_for_iteration config (ls_messages s) tools in
  try_build display {|
    mb_model := lc_model config; mb_system := lc_system_prompt config;
    mb_messages := ls_messages s; mb_tools := effective_tools; mb_tool_choice := ToolChoice_Auto;
    mb_max_tokens := Z.min (ls_thinking_budget s) (lc_max_tokens config);
    mb_temperature := None; mb_thinking := None;
    mb_thinking_effort :=
      Some (default (compute_thinking_effort config iteration s) (lc_user_thinking_effort config));
    mb_parallel_tool_use := true; mb_auth_token := lc_auth_token config;
    mb_upstream_provider_family := lc_upstream_provider_family config;
    mb_aura_project_id := lc_aura_project_id config; mb_aura_agent_id := lc_aura_agent_id config;
    mb_aura_session_id := lc_aura_session_id config; mb_aura_org_id := lc_aura_org_id config;
    mb_prompt_cache_key := lc_prompt_cache_key config;
    mb_prompt_cache_retention := parse_cache_retention (lc_prompt_cache_retention config);
    mb_metadata :=
      {| md_kind := Some (pick_request_kind effective_tools (lc_request_kind config) iteration) |} |}.
End Requests.

(** * The response *)
Record ResponseData := {
  rd_stop_reason : StopReason;
  rd_message : Message;
  rd_usage : Usage;
  rd_model : string;
}.
Definition response_has_visible_output (r : ResponseData) : bool :=
  existsb (fun b => match b with ContentBlock_Text text => negb (trim_is_empty text) | _ => false end)
    (msg_content (rd_message r)).

Section Responses.
Context `{Hjson : !Serde json}.

Definition text_of (blocks : list ContentBlock) : string :=
  foldl (fun acc b => match b with ContentBlock_Text t => acc +++ t | _ => acc end) "" blocks.
Definition thinking_of (blocks : list ContentBlock) : string :=
  foldl (fun acc b => match b with ContentBlock_Thinking t _ => acc +++ t | _ => acc end) "" blocks.
Definition context_tokens (u : Usage) (messages : list Message) : Z :=
  let provider := saturating_add (saturating_add
    (saturating_add (usage_input_tokens u) (usage_output_tokens u))
    (default 0%Z (usage_cache_creation_input_tokens u)))
    (default 0%Z (usage_cache_read_input_tokens u)) in
  Z.max provider (estimate_message_chars messages / CHARS_PER_TOKEN).
Definition accumulate_response (r : ResponseData) (s : LoopState) : bool * LoopState :=
  let u := rd_usage r in
  let '(sanitized, scrubbed) := sanitize_message (rd_message r) in
  let messages := ls_messages s ++ [sanitized] in
  let tokens := context_tokens u messages in
  let res := ls_result s in
  let res := res
    <| lr_total_input_tokens := u64_add (lr_total_input_tokens res) (usage_input_tokens u) |>
    <| lr_total_output_tokens := u64_add (lr_total_output_tokens res) (usage_output_tokens u) |>
    <| lr_total_cache_creation_input_tokens :=
         u64_add (lr_total_cache_creation_input_tokens res) (default 0%Z (usage_cache_creation_input_tokens u)) |>
    <| lr_total_cache_read_input_tokens :=
         u64_add (lr_total_cache_read_input_tokens res) (default 0%Z (usage_cache_read_input_tokens u)) |>
    <| lr_total_text := lr_total_text res +++ text_of (msg_content sanitized) |>
    <| lr_total_thinking := lr_total_thinking res +++ thinking_of (msg_content sanitized) |>
    <| lr_estimated_context_tokens := tokens |> in
  (scrubbed,
   s <| ls_result := res |> <| ls_messages := messages |>
     <| ls_last_context_tokens_estimate := Some tokens |>).

(** * Compaction before a request *)
Definition effective_compaction_request_kind (config : AgentLoopConfig) (iteration : Z) : ModelRequestKind :=
  match lc_request_kind config with
  | ModelRequestKind_DevLoopBootstrap =>
      if (iteration =? 0)%Z then ModelRequestKind_DevLoopBootstrap
      else ModelRequestKind_DevLoopContinuation
  | kind => kind
  end.
Definition heuristic_context_tokens (messages : list Message) : Z :=
  (estimate_message_chars messages / CHARS_PER_TOKEN)%Z.
Definition state_context_tokens (s : LoopState) : Z :=
  Z.max (default 0%Z (ls_last_context_tokens_estimate s)) (heuristic_context_tokens (ls_messages s)).
(** After a compaction: repair, and estimate the tokens again. *)
Definition repaired (messages : list Message) (s : LoopState) : LoopState :=
  let messages := validate_and_repair messages in
  let tokens := heuristic_context_tokens messages in
  s <| ls_messages := messages |> <| ls_last_context_tokens_estimate := Some tokens |>
    <| ls_result := (ls_result s) <| lr_estimated_context_tokens := tokens |> |>.

Context `{DefaultHasher}.
Record CompactionEnv := {
  ce_disabled : bool;
  ce_summary_at : spec_float;
  (** Whether the hook before compaction blocks it, given the token estimate. *)
  ce_blocked : Z -> bool;
}.
Definition compact_if_needed (env : CompactionEnv) (config : AgentLoopConfig) (iteration : Z) (s : LoopState)
  : CompactionAction * LoopState :=
  let s := s <| ls_messages := validate_and_repair (ls_messages s) |> in
  if ce_disabled env then (CompactionAction_None, s)
  else match lc_max_context_tokens config with
       | None => (CompactionAction_None, s)
       | Some max_ctx =>
           let estimated := state_context_tokens s in
           let s := s <| ls_result := (ls_result s) <| lr_estimated_context_tokens := estimated |> |> in
           if ce_blocked env estimated then (CompactionAction_None, s)
           else
             let policy := {|
               max_context_tokens := Some max_ctx; estimated_context_tokens := estimated;
               current_context_tokens := Some estimated;
               reserved_output_tokens := Z.min (lc_max_tokens config) max_ctx;
               raw_message_bytes := Some (estimate_message_chars (ls_messages s));
               request_kind := Some (effective_compaction_request_kind config iteration);
               request_body_cap_bytes := None; summary_at := ce_summary_at env |} in
             let '(messages, report) := compact_messages (ls_messages s) policy in
             match report_action report with
             | CompactionAction_None => (CompactionAction_None, s <| ls_messages := messages |>)
             | action => (action, repaired messages s)
             end
       end.
Definition apply_summary_output (env : CompactionEnv) (summary : SummaryOutput) (s : LoopState)
  : bool * LoopState :=
  if ce_disabled env then (false, s)
  else let '(messages, report) := apply_message_summary (ls_messages s) summary in
       if negb (reduced report) then (false, s <| ls_messages := messages |>)
       else (true, repaired messages s).
End Responses.

(** * Warnings and the credit budget *)
Definition CHECKPOINT_NOTE : string :=
  "NOTE: You've made your first file change. Before making more changes, consider verifying your work (e.g., run the build or tests) to catch issues early.".
Definition emit_checkpoint_if_needed (s : LoopState) : LoopState :=
  if negb (ls_had_any_write s) || ls_checkpoint_emitted s then s
  else s <| ls_checkpoint_emitted := true |>
         <| ls_messages := append_warning (ls_messages s) CHECKPOINT_NOTE |>.
Definition check_budget_warnings (config : AgentLoopConfig) (iteration : Z) (s : LoopState) : LoopState :=
  if (lc_max_iterations config =? usize_max)%Z then s
  else
    let utilization := f64_div (f64_of_Z (iteration + 1)) (f64_of_Z (lc_max_iterations config)) in
    let '(warning, budget) := check_budget_warning (ls_budget_state s) utilization (ls_had_any_write s) in
    let s := s <| ls_budget_state := budget |> in
    match warning with
    | Some w => s <| ls_messages := append_warning (ls_messages s) w |>
    | None => s
    end.
(** [context::should_stop_for_budget]. *)
Definition should_stop_for_budget (config : AgentLoopConfig) (iteration : Z) (s : LoopState) : bool :=
  let total := u64_add (lr_total_input_tokens (ls_result s)) (lr_total_output_tokens (ls_result s)) in
  let avg := (total / Z.max 1 (iteration + 1))%Z in
  budget_exhausted (iteration + 1) (lc_max_iterations config) avg total (lc_credit_budget config).
(** [run_turn_stop_hooks]: whether the turn breaks. *)
Definition run_turn_stop_hooks (config : AgentLoopConfig) (iteration : Z) (s : LoopState) : bool * LoopState :=
  let s := check_budget_warnings config iteration (emit_checkpoint_if_needed s) in
  if should_stop_for_budget config iteration s
  then (true, s <| ls_result := (ls_result s) <| lr_timed_out := true |> |>)
  else (false, s).
