(* ===== verification/ToolPipeline.v ===== *)
(** What the agent loop does with the tool results of a response
    ([aura-agent/src/agent_loop/tool_pipeline.rs], [aura-agent/src/build.rs]): the
    gates before a call runs, the bookkeeping after it, the guard against repeated
    failed edits, the automatic build, the message that answers the model and the
    dispatch on the stop reason.

    The batch comes executed from the stream pump.  The build check of the executor
    is the argument [build], the answer it gives if it is asked.  Events, logging and
    observer hooks are left out. *)
From S2P Require Import Prelude Values Utf8 Text CoreTypes Exec Context ModelRequest Compaction LoopTypes.
From S2P Require Import Steering ToolCache LoopState.
From stdpp Require Import list.
From Stdlib Require Import Ascii Strings.Byte.

Definition WRITE_FILE_CHUNK_BYTES : Z := 32000.
Definition READS_AFTER_WRITE_ALLOWANCE : Z := 3.
Definition MAX_OUTPUT_LIMIT_RECOVERIES : Z := 2.
Definition CANCELLED_TEXT : string :=
  "[CANCELLED] Tool execution was cancelled by the user before the tool returned.".
Definition IMPLEMENT_NOW_HARD_BLOCK_BODY : string :=
  "implement_now has already fired after enough exploration. This read/search tool was blocked; the next action must be write_file, edit_file, delete_file, or task_done with no_changes_needed: true and notes explaining why no file changes are required.".
Definition OUTPUT_LIMIT_CONTINUE : string :=
  "Your response reached the output-token limit. Continue from the interruption without repeating prior text or completed tools. Use smaller complete tool calls if needed; finish the requested work and clearly report any remaining limitation.".
Definition EDIT_THREE_TIMES : string :=
  "The identical edit has failed three times. Do not repeat it unchanged. Read the current file, inspect the error, and use a different matching edit; if blocked, explain the blocker.".
Definition EDIT_STOPPED : string :=
  "Aura stopped a repeated failed edit loop after four identical failures. No successful edit was made by those attempts. Review the tool error and current file before restarting.".

Definition find_call (calls : list ToolCallInfo) (id : string) : option ToolCallInfo :=
  List.find (fun t => bool_decide (tc_id t = id)) calls.

(** The calls of a response, in the order the model made them. *)
Definition call_of_block (b : ContentBlock) : option ToolCallInfo :=
  match b with
  | ContentBlock_ToolUse id name input => Some {| tc_id := id; tc_name := name; tc_input := input |}
  | _ => None
  end.
Definition tool_calls (r : ResponseData) : list ToolCallInfo := omap call_of_block (msg_content (rd_message r)).

(** * Gates before a call runs *)
Definition stopping_error (id content : string) : ToolCallResult := {|
  tcr_tool_use_id := id; tcr_content := content; tcr_is_error := true;
  tcr_kind := ToolResultKind_AgentError; tcr_stop_loop := true; tcr_file_changes := []; tcr_image := None |}.
Definition cancelled_results_for (to_execute : list ToolCallInfo) : list ToolCallResult :=
  (fun tc => stopping_error (tc_id tc) CANCELLED_TEXT) <$> to_execute.
Definition partition_circling_duplicate_reads (cfg : SteeringConfig) (calls : list ToolCallInfo) (s : LoopState)
  : list ToolCallResult * list ToolCallInfo :=
  if negb (sc_implement_now_hard_block cfg) || negb (ls_implement_now_injected s) || ls_had_any_file_write s
  then ([], calls)
  else
    ((fun t => ToolCallResult_error (tc_id t) IMPLEMENT_NOW_HARD_BLOCK_BODY)
       <$> List.filter (fun t => is_exploration_tool (tc_name t)) calls,
     List.filter (fun t => negb (is_exploration_tool (tc_name t))) calls).
(** [render_body] is the prose of the chunk guard, [tag] its marker. *)
Definition oversized_write (t : ToolCallInfo) : option Z :=
  if bool_decide (tc_name t = "write_file") then
    content ← json_get "content" (tc_input t) ≫= json_as_str;
    if (WRITE_FILE_CHUNK_BYTES <? str_len content)%Z then Some (str_len content) else None
  else None.
Fixpoint partition_oversized_writes (render_body : Z -> Z -> string) (tag : string) (calls : list ToolCallInfo)
  : list string * list ToolCallResult * list ToolCallInfo :=
  match calls with
  | [] => ([], [], [])
  | t :: rest =>
      let '(side, oversized, remaining) := partition_oversized_writes render_body tag rest in
      match oversized_write t with
      | Some n =>
          let msg := render_body n WRITE_FILE_CHUNK_BYTES in
          (msg :: side, ToolCallResult_error (tc_id t) (tag +++ msg) :: oversized, remaining)
      | None => (side, oversized, t :: remaining)
      end
  end.

(** * Bookkeeping of executed calls *)
Section Pipeline.
Context `{Hhasher : DefaultHasher} `{Htext : JsonText}.

Definition record_into_turn_diff (change : FileChange) (d : TurnDiff) : TurnDiff :=
  match fc_kind change with
  | FileChangeKind_Create => record_create (fc_path change) d
  | FileChangeKind_Modify => record_modify (fc_path change) (fc_lines_added change) d
  | FileChangeKind_Delete => record_delete (fc_path change) d
  end.
Definition record_change (s : LoopState) (change : FileChange) : LoopState :=
  s <| ls_result := (ls_result s)
         <| lr_file_changes := record_file_change change (lr_file_changes (ls_result s)) |> |>
    <| ls_turn_diff := record_into_turn_diff change (ls_turn_diff s) |>.
(** A path was written: it may be read again. *)
Definition allow_reads (path : string) (s : LoopState) : LoopState :=
  s <| ls_session_read_paths := path_set_remove path (ls_session_read_paths s) |>
    <| ls_read_after_write_allowances :=
         <[path_components path := READS_AFTER_WRITE_ALLOWANCE]> (ls_read_after_write_allowances s) |>.
Definition track_read (path : string) (s : LoopState) : LoopState :=
  let s := s <| ls_turn_diff := record_read path (ls_turn_diff s) |>
             <| ls_session_read_paths := path_set_insert path (ls_session_read_paths s) |> in
  match ls_read_after_write_allowances s !! path_components path with
  | Some remaining =>
      let remaining := saturating_sub remaining 1 in
      s <| ls_read_after_write_allowances :=
             if (remaining =? 0)%Z then delete (path_components path) (ls_read_after_write_allowances s)
             else <[path_components path := remaining]> (ls_read_after_write_allowances s) |>
  | None => s
  end.
Definition track_write (tool : ToolCallInfo) (r : ToolCallResult) (s : LoopState) : bool * LoopState :=
  match path_arg tool with
  | Some path =>
      (true, foldl record_change ((allow_reads path s) <| ls_had_any_write := true |>) (tcr_file_changes r))
  | None =>
      match tcr_file_changes r with
      | [] => (false, s)
      | changes =>
          (true, (foldl (fun s c => record_change (allow_reads (fc_path c) s) c) s changes)
                   <| ls_had_any_write := true |>)
      end
  end.
Definition track_one (calls : list ToolCallInfo) (acc : bool * LoopState) (r : ToolCallResult)
  : bool * LoopState :=
  let '(any, s) := acc in
  match find_call calls (tcr_tool_use_id r) with
  | None => acc
  | Some tool =>
      let s := s <| ls_steering := observe_tool tool r (ls_steering s) |> in
      let s :=
        if is_exploration_tool (tc_name tool) then
          let s := s <| ls_exploration_count := (ls_exploration_count s + 1)%Z |> in
          match path_arg tool with
          | Some path => if tcr_is_error r then s else track_read path s
          | None => s
          end
        else s in
      if is_write_tool (tc_name tool) && negb (tcr_is_error r) then
        let '(wrote, s) := track_write tool r s in (any || wrote, s)
      else (any, s)
  end.
Definition track_tool_effects (calls : list ToolCallInfo) (executed : list ToolCallResult) (s : LoopState)
  : bool * LoopState := foldl (track_one calls) (false, s) executed.

(** * Repeated failed edits *)
Definition edit_key (call : ToolCallInfo) (r : ToolCallResult) : string :=
  json_to_string (tc_input call) +++ nl +++ tcr_content r.
Fixpoint guard_failed_edits (calls : list ToolCallInfo) (results : list ToolCallResult)
    (attempts : gmap string Z) (side : list string) : option string * gmap string Z * list string :=
  match results with
  | [] => (None, attempts, side)
  | r :: rest =>
      match find_call calls (tcr_tool_use_id r) with
      | None => guard_failed_edits calls rest attempts side
      | Some call =>
          if negb (tcr_is_error r) && match tcr_file_changes r with [] => false | _ => true end
          then guard_failed_edits calls rest ∅ side
          else if negb (bool_decide (tc_name call = "edit_file")) || negb (tcr_is_error r)
                  || bool_decide (tcr_kind r = ToolResultKind_CompactionStructural)
          then guard_failed_edits calls rest attempts side
          else
            let key := edit_key call r in
            let count := u32_saturating_add (default 0%Z (attempts !! key)) 1 in
            let attempts := <[key := count]> attempts in
            let side := if (count =? 3)%Z then side ++ [EDIT_THREE_TIMES] else side in
            if (4 <=? count)%Z then (Some EDIT_STOPPED, attempts, side)
            else guard_failed_edits calls rest attempts side
      end
  end.

(** * The automatic build *)
Record AutoBuildResult := { ab_success : bool; ab_output : string; ab_error_count : Z }.
Definition normalize_error_block (block : string) : string :=
  str_join nl (List.filter (fun l => negb (starts_with "help:" (trim_start l))
                                     && negb (starts_with "-->" (trim_start l))) (lines block)).
Fixpoint signatures_from (ls : list string) (block : option string) : list string :=
  match ls with
  | [] => match block with Some b => [normalize_error_block b] | None => [] end
  | line :: rest =>
      if starts_with "error[" line || starts_with "error:" line then
        option_list (normalize_error_block <$> block) ++ signatures_from rest (Some (line +++ nl))
      else match block with
           | Some b =>
               if bool_decide (line = "") || starts_with "warning" line
               then normalize_error_block b :: signatures_from rest None
               else signatures_from rest (Some (b +++ line +++ nl))
           | None => signatures_from rest None
           end
  end.
Definition extract_error_signatures (output : string) : list string := signatures_from (lines output) None.
(** [str::replacen(from, to, 1)]. *)
Fixpoint replace_first (from to s : string) : string :=
  match str_strip_prefix from s with
  | Some rest => to +++ rest
  | None => match s with EmptyString => s | String c t => String c (replace_first from to t) end
  end.
Definition annotate_one (baseline : list string) (annotated sig : string) : string :=
  match head (lines sig) with
  | None => annotated
  | Some first_line =>
      let n := Nat.min (String.length first_line) 60 in
      if is_char_boundary (string_to_bytes first_line) n then
        let trimmed := str_take n first_line in
        let label := if bool_decide (sig ∈ baseline) then "[PRE-EXISTING]" else "[NEW]" in
        replace_first trimmed (label +++ " " +++ trimmed) annotated
      else annotated
  end.
Definition annotate_build_output (output : string) (baseline : list string) : string :=
  match baseline with
  | [] => output
  | _ => foldl (annotate_one baseline) output (extract_error_signatures output)
  end.
Definition run_auto_build (config : AgentLoopConfig) (build : option AutoBuildResult) (s : LoopState)
  : option string * LoopState :=
  match build with
  | None => (None, s)
  | Some b =>
      let s := s <| ls_build_cooldown := lc_auto_build_cooldown config |> in
      if ab_success b then (None, s)
      else
        let annotated := match ls_build_baseline s with
                         | Some baseline => annotate_build_output (ab_output b) baseline
                         | None => ab_output b
                         end in
        (Some ("Build check failed with " +++ fmt_Z (ab_error_count b) +++ " error(s):" +++ nl +++ nl
               +++ annotated), s)
  end.

(** * The answer to the model *)
Definition result_block (r : ToolCallResult) : ContentBlock :=
  ContentBlock_ToolResult (tcr_tool_use_id r) (ToolResultContent_Text (tcr_content r)) (tcr_is_error r).
Definition image_block (r : ToolCallResult) : option ContentBlock :=
  image ← tcr_image r;
  Some (ContentBlock_Image {| source_type := "base64"; source_media_type := image_media_type image;
                              source_data := image_base64 image |}).
Definition push_tool_result_message (messages : list Message) (results : list ToolCallResult)
    (context_texts : list string) : list Message :=
  match (result_block <$> results) ++ omap image_block results ++ (ContentBlock_Text <$> context_texts) with
  | [] => messages
  | blocks => messages ++ [{| msg_role := Role_User; msg_content := blocks |}]
  end.

Definition batch : Type := list (ToolCallInfo * ToolCallResult).
Definition process_tool_results (config : AgentLoopConfig) (build : option AutoBuildResult) (pairs : batch)
    (s : LoopState) : bool * LoopState :=
  match pairs with
  | [] => (true, s)
  | _ =>
      let calls := fst <$> pairs in
      let results := snd <$> pairs in
      let '(any_write, s) := track_tool_effects calls results s in
      let '(stalled, attempts, side) := guard_failed_edits calls results (ls_failed_edit_attempts s) [] in
      let s := s <| ls_failed_edit_attempts := attempts |> in
      let '(build_text, s) :=
        if any_write && (ls_build_cooldown s =? 0)%Z then run_auto_build config build s else (None, s) in
      let side := side ++ option_list build_text in
      let s := if ls_had_any_write s then s <| ls_had_any_file_write := true |> else s in
      let done :=
        existsb (fun tc => bool_decide (tc_name tc = "task_done")
                           && existsb (fun r => bool_decide (tcr_tool_use_id r = tc_id tc)
                                                && negb (tcr_is_error r) && tcr_stop_loop r) results) calls in
      let s := if done then s <| ls_task_done_completed := true |> else s in
      let stop := match stalled with Some _ => true | None => existsb tcr_stop_loop results end in
      let s := s <| ls_messages := push_tool_result_message (ls_messages s) results side |> in
      match stalled with
      | Some message =>
          (stop, s <| ls_result := (ls_result s) <| lr_stalled := true |> <| lr_llm_error := Some message |> |>)
      | None => (stop, s)
      end
  end.

(** [dispatch]: whether the sampling loop breaks. *)
Definition dispatch (config : AgentLoopConfig) (build : option AutoBuildResult) (r : ResponseData)
    (pairs : batch) (s : LoopState) : bool * LoopState :=
  let truncated := match rd_stop_reason r with StopReason_MaxTokens => true | _ => false end in
  let s := s <| ls_result := (ls_result s) <| lr_output_truncated := truncated |> |> in
  match rd_stop_reason r with
  | StopReason_EndTurn | StopReason_StopSequence => (true, s)
  | StopReason_MaxTokens =>
      let '(stop, s) := match tool_calls r with
                        | [] => (false, s)
                        | _ => process_tool_results config build pairs s
                        end in
      if stop then (true, s)
      else if (MAX_OUTPUT_LIMIT_RECOVERIES <=? ls_output_limit_recoveries s)%Z then (true, s)
      else (false,
            s <| ls_output_limit_recoveries := (ls_output_limit_recoveries s + 1)%Z |>
              <| ls_restore_next_iteration := true |>
              <| ls_messages := ls_messages s ++ [Message_user OUTPUT_LIMIT_CONTINUE] |>)
  | StopReason_ToolUse => process_tool_results config build pairs s
  end.
End Pipeline.
