(* ===== verification/StreamPump.v ===== *)
(** The streaming pump of the agent loop
    ([aura-agent/src/agent_loop/stream_pump/], [transport.rs],
    [iteration/mod.rs], [aura-model-reasoner/src/response_stream.rs, error.rs]): one
    sampling request, with its retries, from the events of the provider to the
    response and the executed tool calls.

    The provider is a sequence of attempts, each with the events its stream has
    delivered so far; a stream that has neither ended nor failed nor timed out is
    still open, and the pump has not returned ([Pump_Open]).  The
    executor is a function from a call to the result its future resolves to (the
    error of the per-tool timeout included).  Cancellation is an input at every
    place the code polls for it.  Futures are lazy: a call runs when the pump drains
    the queue of calls, in the order of submission. *)
From S2P Require Import Prelude Values Utf8 Text CoreTypes Exec Context ModelRequest Compaction LoopTypes.
From S2P Require Import Steering ToolCache InputQueue LoopState ToolPipeline.
From stdpp Require Import list sorting.
From Stdlib Require Import Ascii Strings.Byte.

(** * Errors *)
Record PartialToolUse := { pt_tool_use_id : string; pt_tool_name : string; pt_partial_json : string }.
(** [ReasonerError]; durations of [retry_after] are not read here, the contract
    violation is its text. *)
Inductive ProviderError :=
| ProviderError_RateLimited (message : string)
| ProviderError_InsufficientCredits (message : string)
| ProviderError_Transient (status : Z) (message : string)
| ProviderError_Api (status : Z) (message : string)
| ProviderError_Request (message : string)
| ProviderError_Timeout
| ProviderError_Parse (message : string)
| ProviderError_StreamAbortedWithPartial (reason : string) (partial : option PartialToolUse)
| ProviderError_ModelRequestContractViolation (message : string)
| ProviderError_Internal (message : string).
Definition ProviderError_display (e : ProviderError) : string :=
  match e with
  | ProviderError_RateLimited m => "Rate limited: " +++ m
  | ProviderError_InsufficientCredits m => "Insufficient credits: " +++ m
  | ProviderError_Transient status m | ProviderError_Api status m =>
      "API error (status " +++ fmt_Z status +++ "): " +++ m
  | ProviderError_Request m => "request error: " +++ m
  | ProviderError_Timeout => "timeout"
  | ProviderError_Parse m => "parse error: " +++ m
  | ProviderError_StreamAbortedWithPartial reason _ => reason
  | ProviderError_ModelRequestContractViolation m | ProviderError_Internal m => m
  end.
Definition message_indicates_context_overflow (message : string) : bool :=
  let normalized := to_ascii_lowercase message in
  existsb (fun needle => contains needle normalized)
    ["prompt is too long"; "prompt too long"; "prompt too large"; "context length exceeded";
     "context window exceeded"; "context window limit"; "exceeds context window";
     "exceed the model context window"; "input length and max_tokens exceed context limit";
     "requested tokens exceed the context window"; "request exceeds the context window";
     "too many tokens"].
Definition is_context_overflow (e : ProviderError) : bool :=
  match e with
  | ProviderError_Api status m | ProviderError_Transient status m =>
      (status =? 413)%Z
      || ((status =? 400) || (status =? 422))%Z && message_indicates_context_overflow m
  | ProviderError_Request m | ProviderError_Parse m | ProviderError_Internal m =>
      message_indicates_context_overflow m
  | _ => false
  end.

Inductive StreamError :=
| StreamError_TransportClosed (context : string)
| StreamError_InvalidEvent (reason : string)
| StreamError_Timeout (elapsed_ms : Z)
| StreamError_StreamAbortedWithPartial (reason : string) (partial : option PartialToolUse).
Definition StreamError_display (e : StreamError) : string :=
  match e with
  | StreamError_TransportClosed c => "transport closed before stream completed: " +++ c
  | StreamError_InvalidEvent r => "provider returned invalid event shape: " +++ r
  | StreamError_Timeout ms => "stream timed out after " +++ fmt_Z ms +++ "ms waiting for next event"
  | StreamError_StreamAbortedWithPartial r _ => r
  end.
(** The variants of [AgentError] the pump raises. *)
Inductive PumpError :=
| PumpError_Reason (e : ProviderError)
| PumpError_Stream (e : StreamError)
| PumpError_StreamTimeout (elapsed_ms : Z)
| PumpError_Internal (message : string).
Definition PumpError_display (e : PumpError) : string :=
  match e with
  | PumpError_Reason e => ProviderError_display e
  | PumpError_Stream e => StreamError_display e
  | PumpError_StreamTimeout ms =>
      "stream event timeout after " +++ fmt_Z ms +++ "ms waiting for next response event"
  | PumpError_Internal m => m
  end.

(** [LlmCallError] and how it ends a run. *)
Inductive LlmCallError :=
| LlmCallError_InsufficientCredits (message : string)
| LlmCallError_PromptTooLong (message : string)
| LlmCallError_RateLimited (message : string)
| LlmCallError_Fatal (message : string).
Definition looks_like_rate_limited (message : string) : bool :=
  let lower := to_ascii_lowercase message in
  contains "rate limited" lower || contains "rate_limited" lower || contains "too many requests" lower.
Definition from_reasoner_error (e : ProviderError) : LlmCallError :=
  match e with
  | ProviderError_InsufficientCredits m => LlmCallError_InsufficientCredits m
  | ProviderError_RateLimited m => LlmCallError_RateLimited m
  | other =>
      let text := ProviderError_display other in
      if looks_like_rate_limited text then LlmCallError_RateLimited text
      else if is_context_overflow other then LlmCallError_PromptTooLong text
      else LlmCallError_Fatal text
  end.
Definition llm_error_apply (e : LlmCallError) (r : AgentLoopResult) : AgentLoopResult :=
  match e with
  | LlmCallError_InsufficientCredits _ => r <| lr_insufficient_credits := true |>
  | LlmCallError_RateLimited m | LlmCallError_PromptTooLong m | LlmCallError_Fatal m =>
      r <| lr_llm_error := Some m |>
  end.

(** * Events *)
Inductive OutputItem :=
| OutputItem_Message (text : string)
| OutputItem_Thinking (thinking : string) (signature : option string)
| OutputItem_ToolUse (call : ToolCallInfo)
| OutputItem_InvalidToolUse (id name reason : string).
(** What the frame behind a keep-alive was about. *)
Inductive StreamPhase :=
| StreamPhase_Connecting | StreamPhase_Thinking | StreamPhase_Text | StreamPhase_ToolInput | StreamPhase_Ping.
Inductive ResponseEvent :=
| ResponseEvent_OutputItemDone (item : OutputItem)
| ResponseEvent_Keepalive (phase : StreamPhase)
| ResponseEvent_OutputTextDelta (chunk : string)
| ResponseEvent_OutputThinkingDelta (chunk : string)
| ResponseEvent_Completed (end_turn : option bool) (stop_reason : option StopReason) (usage : Usage)
| ResponseEvent_Error (e : StreamError).
(** What [next_stream_step] returns, and what draining the input queue returned
    while the step was handled. *)
Inductive StreamStep :=
| StreamStep_Event (e : ResponseEvent) (pending : list UserInput)
| StreamStep_End
| StreamStep_Cancelled
| StreamStep_TimedOut (elapsed_ms : Z)
| StreamStep_TransportErr (e : StreamError).

(** * User input *)
Definition harness_steer (instruction : string) : string :=
  "<harness_steer>" +++ nl +++ instruction +++ nl +++ "</harness_steer>".
Definition apply_user_input (messages : list Message) (i : UserInput) : list Message :=
  match i with
  | UserInput_Message text => append_warning messages text
  | UserInput_Steer instruction => append_warning messages (harness_steer instruction)
  | UserInput_Cancel => messages
  end.
Definition apply_user_inputs_to_messages (messages : list Message) (inputs : list UserInput) : list Message :=
  foldl apply_user_input messages inputs.

(** * The response put together from what was streamed *)
Definition synthesize_response (texts : list string) (thinkings : list (string * option string))
    (calls : list ToolCallInfo) (end_turn : option bool) (stop_reason : option StopReason) (usage : Usage)
    (model_name : string) : ResponseData :=
  let content :=
    ((fun '(t, sig) => ContentBlock_Thinking t sig) <$> thinkings)
    ++ (ContentBlock_Text <$> texts)
    ++ ((fun c => ContentBlock_ToolUse (tc_id c) (tc_name c) (tc_input c)) <$> calls) in
  let reason :=
    match stop_reason, calls with
    | Some StopReason_MaxTokens, _ => StopReason_MaxTokens
    | _, _ :: _ => StopReason_ToolUse
    | Some r, [] => r
    | None, [] => if bool_decide (end_turn = Some false) then StopReason_ToolUse else StopReason_EndTurn
    end in
  {| rd_stop_reason := reason;
     rd_message := {| msg_role := Role_Assistant; msg_content := content |};
     rd_usage := usage; rd_model := model_name |}.

Inductive StreamPumpOutcome :=
| Pump_Completed (response : ResponseData) (tool_results : batch)
| Pump_Cancelled
| Pump_Error (e : PumpError)
| Pump_RetryableTransport (e : PumpError)
| Pump_AbortedWithPartial (reason : string) (partial : option PartialToolUse)
(** The pump has not returned: the stream is open after all events so far. *)
| Pump_Open.

(** * One stream *)
Definition indexed : Type := list (nat * (ToolCallInfo * ToolCallResult)).
Record DriveLocals := {
  dl_text_chunks : list string;
  dl_thinking_chunks : list (string * option string);
  dl_calls_seen : list ToolCallInfo;
  dl_cached_pairs : indexed;
  dl_spawned_indices : list nat;
}.
#[export] Instance DriveLocals_eta : Settable DriveLocals := fun l =>
  Build_DriveLocals (dl_text_chunks l) (dl_thinking_chunks l) (dl_calls_seen l) (dl_cached_pairs l)
    (dl_spawned_indices l).
Definition DriveLocals_new : DriveLocals := {|
  dl_text_chunks := []; dl_thinking_chunks := []; dl_calls_seen := []; dl_cached_pairs := [];
  dl_spawned_indices := [] |}.

Definition interrupted_outcome (e : StreamError) (no_tools_admitted : bool) : StreamPumpOutcome :=
  match e, no_tools_admitted with
  | StreamError_TransportClosed _, true => Pump_RetryableTransport (PumpError_Stream e)
  | StreamError_StreamAbortedWithPartial reason partial, true => Pump_AbortedWithPartial reason partial
  | e, _ => Pump_Error (PumpError_Stream e)
  end.
Definition by_index (a b : nat * (ToolCallInfo * ToolCallResult)) : Prop := fst a <= fst b.
#[export] Instance by_index_dec a b : Decision (by_index a b) := decide (_ <= _).
Definition merged_results (pairs : indexed) : batch := snd <$> merge_sort by_index pairs.
Definition no_usage : Usage := Usage_new 0 0.

Section Pump.
Context `{JsonText} `{JsonFromStr} `{DefaultHasher}.
(** The environment of a request: the result of a call's future by its position,
    after how many results cancellation is seen while draining, the steering
    configuration and the model's name. *)
Record PumpEnv := {
  pe_result : nat -> ToolCallInfo -> ToolCallResult;
  pe_drain_cancelled : option nat;
  pe_steering : SteeringConfig;
  pe_model_name : string;
}.
Implicit Types env : PumpEnv.

Definition handle_invalid_tool_use (id name reason : string) (l : DriveLocals) : DriveLocals :=
  let call := {| tc_id := id; tc_name := name; tc_input := JObject [] |} in
  l <| dl_calls_seen := dl_calls_seen l ++ [call] |>
    <| dl_cached_pairs :=
         dl_cached_pairs l ++ [(length (dl_calls_seen l), (call, ToolCallResult_error id reason))] |>.
Definition handle_tool_use_event env (call : ToolCallInfo) (pending : list UserInput) (l : DriveLocals)
    (s : LoopState) : DriveLocals * LoopState :=
  let index := length (dl_calls_seen l) in
  let l := l <| dl_calls_seen := dl_calls_seen l ++ [call] |> in
  let '(blocked, allowed) := partition_circling_duplicate_reads (pe_steering env) [call] s in
  match blocked with
  | b :: _ => (l <| dl_cached_pairs := dl_cached_pairs l ++ [(index, (call, b))] |>, s)
  | [] =>
      let '(cached, uncached) := split_cached allowed (ls_tool_cache s) in
      let l := match cached, uncached with
               | first :: _, _ => l <| dl_cached_pairs := dl_cached_pairs l ++ [(index, (call, first))] |>
               | [], _ :: _ => l <| dl_spawned_indices := dl_spawned_indices l ++ [index] |>
               | [], [] => l
               end in
      (l, s <| ls_messages := apply_user_inputs_to_messages (ls_messages s) pending |>)
  end.

(** The event loop: either an outcome, or the signal that ends a response.  The
    timeout of [next_stream_step] is per event: it starts anew with every
    keep-alive, so a stream can stay open for ever. *)
Definition terminal : Type := option bool * option StopReason * Usage.
Fixpoint drive_events env (steps : list StreamStep) (l : DriveLocals) (s : LoopState)
  : (StreamPumpOutcome + terminal) * DriveLocals * LoopState :=
  let none := match dl_calls_seen l with [] => true | _ => false end in
  match steps with
  | [] => (inl Pump_Open, l, s)
  | StreamStep_End :: _ =>
      (inl (interrupted_outcome (StreamError_TransportClosed "missing completed event") none), l, s)
  | StreamStep_Cancelled :: _ => (inl Pump_Cancelled, l, s)
  | StreamStep_TimedOut ms :: _ => (inl (Pump_Error (PumpError_StreamTimeout ms)), l, s)
  | StreamStep_TransportErr e :: _ => (inl (interrupted_outcome e none), l, s)
  | StreamStep_Event e pending :: rest =>
      match e with
      | ResponseEvent_OutputItemDone (OutputItem_InvalidToolUse id name reason) =>
          drive_events env rest (handle_invalid_tool_use id name reason l) s
      | ResponseEvent_OutputItemDone (OutputItem_ToolUse call) =>
          let '(l, s) := handle_tool_use_event env call pending l s in drive_events env rest l s
      | ResponseEvent_OutputItemDone (OutputItem_Message text) =>
          drive_events env rest (l <| dl_text_chunks := dl_text_chunks l ++ [text] |>) s
      | ResponseEvent_OutputItemDone (OutputItem_Thinking thinking sig) =>
          drive_events env rest
            (l <| dl_thinking_chunks := dl_thinking_chunks l ++ [(thinking, sig)] |>) s
      | ResponseEvent_OutputTextDelta _ | ResponseEvent_OutputThinkingDelta _ | ResponseEvent_Keepalive _ =>
          drive_events env rest l s
      | ResponseEvent_Completed end_turn stop_reason usage => (inr (end_turn, stop_reason, usage), l, s)
      | ResponseEvent_Error e => (inl (interrupted_outcome e none), l, s)
      end
  end.

(** The results of the submitted calls whose position is among [indices]. *)
Definition resolve env (calls : list ToolCallInfo) (indices : list nat) : indexed :=
  omap (fun i => call ← calls !! i; Some (i, (call, pe_result env i call))) indices.
Definition cancelled_pair (calls : list ToolCallInfo) (i : nat) : option (nat * (ToolCallInfo * ToolCallResult)) :=
  call ← calls !! i; Some (i, (call, stopping_error (tc_id call) CANCELLED_TEXT)).
Definition synthesize_from env (l : DriveLocals) (t : terminal) : ResponseData :=
  let '(end_turn, stop_reason, usage) := t in
  synthesize_response (dl_text_chunks l) (dl_thinking_chunks l) (dl_calls_seen l) end_turn stop_reason usage
    (pe_model_name env).
(** [cancelled_outcome]: what was resolved keeps its result, every other submitted
    call gets a cancelled one. *)
Definition cancelled_outcome env (l : DriveLocals) (end_turn : option bool) (usage : Usage) (spawned : indexed)
  : StreamPumpOutcome :=
  let already := (fst <$> dl_cached_pairs l) ++ (fst <$> spawned) in
  let still := List.filter (fun i => negb (bool_decide (i ∈ already))) (dl_spawned_indices l) in
  let rest := omap (cancelled_pair (dl_calls_seen l)) still in
  Pump_Completed (synthesize_from env l (end_turn, None, usage))
    (merged_results (dl_cached_pairs l ++ spawned ++ rest)).

(** The end of a response: results in the order of submission, the cache refreshed
    with the calls that ran. *)
Definition complete env (l : DriveLocals) (t : terminal) (resolved : indexed) (s : LoopState)
  : StreamPumpOutcome * LoopState :=
  let results := merged_results (dl_cached_pairs l ++ resolved) in
  let spawned := omap (fun i => dl_calls_seen l !! i) (dl_spawned_indices l) in
  let executed :=
    snd <$> List.filter (fun p => existsb (fun c => bool_decide (tc_id c = tc_id (fst p))) spawned) results in
  (Pump_Completed (synthesize_from env l t) results,
   s <| ls_tool_cache := update_cache (ls_tool_cache s) spawned executed |>).
Definition drive_stream env (steps : list StreamStep) (s : LoopState) : StreamPumpOutcome * LoopState :=
  let '(ended, l, s) := drive_events env steps DriveLocals_new s in
  match ended with
  | inl Pump_Cancelled =>
      match dl_calls_seen l with
      | [] => (Pump_Cancelled, s)
      | _ => (cancelled_outcome env l None no_usage [], s)
      end
  | inl outcome => (outcome, s)
  | inr (end_turn, stop_reason, usage) =>
      let resolved := resolve env (dl_calls_seen l) (dl_spawned_indices l) in
      match pe_drain_cancelled env with
      | Some n =>
          if bool_decide (n < length (dl_spawned_indices l))
          then (cancelled_outcome env l end_turn usage (take n resolved), s)
          else complete env l (end_turn, stop_reason, usage) resolved s
      | None => complete env l (end_turn, stop_reason, usage) resolved s
      end
  end.

(** * A request with its retries *)
Inductive OpenResult :=
| Open_Cancelled
| Open_Err (e : ProviderError)
| Open_Stream (env : PumpEnv) (steps : list StreamStep).
(** What one attempt meets: cancellation before it, while it backs off, and what
    opening the stream gives. *)
Record Attempt := { at_cancelled : bool; at_cancelled_waiting : bool; at_open : OpenResult }.
Record PartialRetryState := { pr_tool_use_id : string; pr_tool_name : string; pr_reason : string }.
Definition update_partial_retry_state (previous : option PartialRetryState) (reason : string)
    (partial : option PartialToolUse) : PartialRetryState :=
  match partial, previous with
  | Some p, _ => {| pr_tool_use_id := pt_tool_use_id p; pr_tool_name := pt_tool_name p; pr_reason := reason |}
  | None, Some s => {| pr_tool_use_id := pr_tool_use_id s; pr_tool_name := pr_tool_name s; pr_reason := reason |}
  | None, None => {| pr_tool_use_id := "<unknown>"; pr_tool_name := "<unknown>"; pr_reason := reason |}
  end.
Definition exhausted (retry : option PartialRetryState) (transport : option PumpError) : StreamPumpOutcome :=
  match transport with
  | Some e => Pump_Error e
  | None =>
      let reason := match retry with
                    | Some r => pr_reason r
                    | None => "stream aborted while tool_use was in flight"
                    end in
      Pump_Error (PumpError_Reason (ProviderError_StreamAbortedWithPartial reason None))
  end.
Fixpoint pump_attempts (attempts : nat -> Attempt) (remaining index : nat)
    (retry : option PartialRetryState) (transport : option PumpError) (s : LoopState)
  : StreamPumpOutcome * LoopState :=
  match remaining with
  | O => (exhausted retry transport, s)
  | S remaining =>
      let a := attempts index in
      if at_cancelled a then (Pump_Cancelled, s)
      else if bool_decide (0 < index) && bool_decide (retry = None /\ transport = None) then
        (Pump_Error (PumpError_Reason
           (ProviderError_Internal "stream retry requested without an interrupted request")), s)
      else if bool_decide (0 < index) && at_cancelled_waiting a then (Pump_Cancelled, s)
      else
        match at_open a with
        | Open_Cancelled => (Pump_Cancelled, s)
        | Open_Err (ProviderError_StreamAbortedWithPartial reason partial) =>
            pump_attempts attempts remaining (S index)
              (Some (update_partial_retry_state retry reason partial)) None s
        | Open_Err ((ProviderError_Request _ | ProviderError_Timeout) as e) =>
            pump_attempts attempts remaining (S index) None (Some (PumpError_Reason e)) s
        | Open_Err e => (Pump_Error (PumpError_Reason e), s)
        | Open_Stream env steps =>
            match drive_stream env steps s with
            | (Pump_AbortedWithPartial reason partial, s) =>
                pump_attempts attempts remaining (S index)
                  (Some (update_partial_retry_state retry reason partial)) None s
            | (Pump_RetryableTransport e, s) =>
                pump_attempts attempts remaining (S index) None (Some e) s
            | (outcome, s) => (outcome, s)
            end
        end
  end.
Definition run_stream_pump (max_retries : nat) (attempts : nat -> Attempt) (s : LoopState)
  : StreamPumpOutcome * LoopState := pump_attempts attempts (S max_retries) 0 None None s.

(** * The transport *)
Inductive TransportOutcome :=
| Transport_Streamed (response : ResponseData) (pre_executed : batch)
| Transport_Cancelled
(** The request has not returned. *)
| Transport_Open.
Definition sample (max_retries : nat) (attempts : nat -> Attempt) (s : LoopState)
  : result LlmCallError TransportOutcome * LoopState :=
  let '(outcome, s) := run_stream_pump max_retries attempts s in
  (match outcome with
   | Pump_Completed response tool_results => Ok (Transport_Streamed response tool_results)
   | Pump_Cancelled => Ok Transport_Cancelled
   | Pump_Open => Ok Transport_Open
   | Pump_Error (PumpError_Reason e) => Err (from_reasoner_error e)
   | Pump_Error other => Err (LlmCallError_Fatal (PumpError_display other))
   | Pump_AbortedWithPartial _ _ =>
       Err (LlmCallError_Fatal "stream pump returned an unretried partial tool-use abort")
   | Pump_RetryableTransport e => Err (LlmCallError_Fatal (PumpError_display e))
   end, s).
End Pump.
