(* ===== verification/StreamPumpProps.v ===== *)
(** Correctness of the streaming pump: every call the model made is answered once
    and in order, cancelled or not; a request is replayed only when nothing came of
    the attempt before. *)
From S2P Require Import Prelude Values Permissions Utf8 Text CoreTypes Exec Context ModelRequest Compaction.
From S2P Require Import LoopTypes Steering ToolCache InputQueue LoopState ToolPipeline StreamPump.
From stdpp Require Import list sorting.
From Stdlib Require Import Ascii Strings.Byte.

(** * Sorting by position *)
#[export] Instance by_index_trans : Transitive by_index.
Proof. intros a b c. unfold by_index. lia. Qed.
#[export] Instance by_index_total : Total by_index.
Proof. intros a b. unfold by_index. lia. Qed.

Lemma sorted_positions l n :
  fst <$> l ≡ₚ seq 0 n -> fst <$> merge_sort by_index l = seq 0 n.
Proof.
  intros Hp. apply (StronglySorted_unique (le : relation nat)).
  - pose proof (StronglySorted_merge_sort by_index l) as Hs.
    induction Hs as [|x r _ IH Hx]; cbn; constructor; [done|]. by apply Forall_fmap.
  - clear Hp. generalize 0. induction n as [|n IH]; intros k; cbn; constructor; [apply IH|].
    apply Forall_seq. lia.
  - rewrite <-Hp. apply fmap_Permutation, merge_sort_Permutation.
Qed.

(** A result belongs to its call, and the call to its position. *)
Definition placed (calls : list ToolCallInfo) (p : nat * (ToolCallInfo * ToolCallResult)) : Prop :=
  calls !! fst p = Some (fst (snd p)) /\ tcr_tool_use_id (snd (snd p)) = tc_id (fst (snd p)).
Lemma merged_in_order calls l :
  fst <$> l ≡ₚ seq 0 (length calls) -> Forall (placed calls) l ->
  fst <$> merged_results l = calls
  /\ Forall (fun '(c, r) => tcr_tool_use_id r = tc_id c) (merged_results l).
Proof.
  intros Hp Hl. unfold merged_results. pose proof (sorted_positions l _ Hp) as Hs.
  assert (Forall (placed calls) (merge_sort by_index l)) as Hm
    by (by rewrite merge_sort_Permutation).
  generalize dependent (merge_sort by_index l). intros m Hs Hm. split.
  - apply list_eq. intros i. rewrite list_lookup_fmap, list_lookup_fmap.
    destruct (m !! i) as [[k [c r]]|] eqn:Ei; cbn.
    + assert (k = i) as ->.
      { assert ((fst <$> m) !! i = Some k) as Hk by (by rewrite list_lookup_fmap, Ei).
        rewrite Hs in Hk. apply lookup_seq in Hk. lia. }
      apply Forall_lookup_1 with (i := i) (x := (i, (c, r))) in Hm; [|done]. by destruct Hm.
    + apply lookup_ge_None in Ei. symmetry. apply lookup_ge_None.
      apply (f_equal length) in Hs. rewrite length_fmap, length_seq in Hs. lia.
  - apply Forall_fmap. eapply Forall_impl; [done|]. intros [k [c r]] [_ Hid]. done.
Qed.

Section Pump.
Context `{JsonText} `{JsonFromStr} `{DefaultHasher}.

(** * The invariant of the event loop *)
Record locals_ok (l : DriveLocals) : Prop := {
  lo_positions : (fst <$> dl_cached_pairs l) ++ dl_spawned_indices l ≡ₚ seq 0 (length (dl_calls_seen l));
  lo_placed : Forall (placed (dl_calls_seen l)) (dl_cached_pairs l);
}.
Lemma placed_snoc calls c p : placed calls p -> placed (calls ++ [c]) p.
Proof. intros [Hc Hid]. split; [|done]. by apply lookup_app_l_Some. Qed.
Lemma snoc_positions (a b : list nat) n (i := n) :
  a ++ b ≡ₚ seq 0 n -> (a ++ [i]) ++ b ≡ₚ seq 0 (S n) /\ a ++ (b ++ [i]) ≡ₚ seq 0 (S n).
Proof.
  intros Hp. rewrite seq_S. cbn. split.
  - rewrite <-app_assoc, (Permutation_app_comm [i] b), app_assoc. by rewrite Hp.
  - rewrite app_assoc. by rewrite Hp.
Qed.
Lemma length_snoc {A} (l : list A) x : length (l ++ [x]) = S (length l).
Proof. rewrite length_app. cbn. lia. Qed.
(** Answering the new call at once keeps the invariant, and so does submitting it. *)
Lemma answered_ok l call r :
  locals_ok l -> tcr_tool_use_id r = tc_id call ->
  locals_ok (l <| dl_calls_seen := dl_calls_seen l ++ [call] |>
               <| dl_cached_pairs := dl_cached_pairs l ++ [(length (dl_calls_seen l), (call, r))] |>).
Proof.
  intros [Hp Hl] Hid. split; cbn.
  - rewrite length_snoc, fmap_app. by apply snoc_positions.
  - apply Forall_app. split; [eapply Forall_impl; [done|]; intros; by apply placed_snoc|].
    constructor; [|constructor]. split; cbn; [|done]. rewrite lookup_app_r by lia. by rewrite Nat.sub_diag.
Qed.
Lemma submitted_ok l call :
  locals_ok l ->
  locals_ok (l <| dl_calls_seen := dl_calls_seen l ++ [call] |>
               <| dl_spawned_indices := dl_spawned_indices l ++ [length (dl_calls_seen l)] |>).
Proof.
  intros [Hp Hl]. split; cbn.
  - rewrite length_snoc. by apply snoc_positions.
  - eapply Forall_impl; [done|]. intros. by apply placed_snoc.
Qed.
Lemma handle_tool_use_ok env call pending l s l' s' :
  handle_tool_use_event env call pending l s = (l', s') -> locals_ok l ->
  locals_ok l' /\ dl_calls_seen l' = dl_calls_seen l ++ [call].
Proof.
  unfold handle_tool_use_event, partition_circling_duplicate_reads. intros Hh Hok.
  assert (forall r, tcr_tool_use_id r = tc_id call ->
    locals_ok (l <| dl_calls_seen := dl_calls_seen l ++ [call] |>
                 <| dl_cached_pairs := dl_cached_pairs l ++ [(length (dl_calls_seen l), (call, r))] |>)) as Hans
    by (intros; by apply answered_ok).
  pose proof (submitted_ok l call Hok) as Hsub.
  destruct (_ || _ || _); [|cbn [List.filter] in Hh; destruct (is_exploration_tool (tc_name call))]; cbn in Hh.
  1,3: destruct (cache_lookup (ls_tool_cache s) call) as [hit|]; injection Hh as <- _; split; try done;
       by apply Hans.
  injection Hh as <- _. split; [by apply Hans|done].
Qed.
(** What a step of the event loop may do to its locals and to the state, and how the
    loop ends. *)
Definition preserved env (I : DriveLocals -> LoopState -> Prop) : Prop :=
  (forall l s chunks, I l s -> I (l <| dl_text_chunks := chunks |>) s)
  /\ (forall l s chunks, I l s -> I (l <| dl_thinking_chunks := chunks |>) s)
  /\ (forall l s id name reason, I l s -> I (handle_invalid_tool_use id name reason l) s)
  /\ (forall l s call pending l' s',
        handle_tool_use_event env call pending l s = (l', s') -> I l s -> I l' s').
Definition ends_as (ended : StreamPumpOutcome + terminal) (l : DriveLocals) : Prop :=
  match ended with
  | inl o =>
      o = Pump_Open \/ o = Pump_Cancelled \/ (exists ms, o = Pump_Error (PumpError_StreamTimeout ms))
      \/ exists e, o = interrupted_outcome e (is_nil (dl_calls_seen l))
  | inr _ => True
  end.
Definition closed_early : StreamError := StreamError_TransportClosed "missing completed event".
Lemma ends_interrupted e l : ends_as (inl (interrupted_outcome e (is_nil (dl_calls_seen l)))) l.
Proof. right. right. right. by exists e. Qed.
Lemma drive_events_inv env (I : DriveLocals -> LoopState -> Prop) steps l s ended l' s' :
  preserved env I -> drive_events env steps l s = (ended, l', s') -> I l s ->
  I l' s' /\ ends_as ended l'.
Proof.
  intros (Htext & Hthink & Hinvalid & Htool). revert l s.
  induction steps as [|step steps IH]; intros l s; cbn [drive_events].
  { intros [= <- <- <-] HI. split; [done|]. by left. }
  destruct step as [e pending| | |ms|e].
  2-5: intros [= <- <- <-] HI; split; [done|];
    try first [apply (ends_interrupted closed_early)|apply (ends_interrupted e)]; cbn; eauto.
  destruct e as [[text|thinking sig|call|id name reason]|phase|chunk|chunk|et sr u|e].
  3: { destruct (handle_tool_use_event env call pending l s) as [l1 s1] eqn:Eh. intros Hd HI.
       eapply IH; [exact Hd|]. by eapply Htool. }
  8: { intros [= <- <- <-] HI. split; [done|]. apply (ends_interrupted e). }
  7: { intros [= <- <- <-] HI. by split. }
  all: intros Hd HI; eapply IH; [exact Hd|]; auto.
Qed.
Lemma drive_events_ok env steps l s ended l' s' :
  drive_events env steps l s = (ended, l', s') -> locals_ok l -> locals_ok l' /\ ends_as ended l'.
Proof.
  apply (drive_events_inv env (fun l _ => locals_ok l)). split; [|split; [|split]].
  - intros l1 s1 chunks [Hp Hl]. by split.
  - intros l1 s1 chunks [Hp Hl]. by split.
  - intros. by apply answered_ok.
  - intros. by eapply handle_tool_use_ok.
Qed.
(** Until a call was admitted the state is the one the stream was opened with. *)
Lemma drive_events_idle env steps s ended l' s' :
  drive_events env steps DriveLocals_new s = (ended, l', s') -> dl_calls_seen l' = [] -> s' = s.
Proof.
  intros Hd. refine (proj1 (drive_events_inv env (fun l s' => dl_calls_seen l = [] -> s' = s) _ _ _ _ _ _ _ Hd _));
    [|done]. split; [done|split; [done|split]].
  - intros l s1 id name reason _ Hnil. cbn in Hnil. by destruct (dl_calls_seen l).
  - intros l s1 call pending l2 s2 Hh _ Hnil. exfalso. revert Hh Hnil. unfold handle_tool_use_event.
    destruct (partition_circling_duplicate_reads _ _ _) as [[|b ?] ?];
      [destruct (split_cached _ _) as [[|? ?] [|? ?]]|]; intros [= <- _] Hnil; cbn in Hnil;
      by destruct (dl_calls_seen l).
Qed.

(** * The answers *)
Definition answers (env : PumpEnv) : Prop := forall i c, tcr_tool_use_id (pe_result env i c) = tc_id c.
Lemma resolve_positions env calls indices :
  Forall (fun i => i < length calls) indices -> fst <$> resolve env calls indices = indices.
Proof.
  induction 1 as [|i ixs Hi _ IH]; [done|]. unfold resolve. cbn.
  destruct (lookup_lt_is_Some_2 calls i Hi) as [c Hc]. rewrite Hc. cbn. f_equal. exact IH.
Qed.
Lemma resolve_placed env calls indices : answers env -> Forall (placed calls) (resolve env calls indices).
Proof.
  intros Ha. induction indices as [|i ixs IH]; [constructor|]. unfold resolve. cbn.
  destruct (calls !! i) as [c|] eqn:E; cbn; [|exact IH]. constructor; [by split; cbn|exact IH].
Qed.
Lemma cancelled_positions calls indices :
  Forall (fun i => i < length calls) indices -> fst <$> omap (cancelled_pair calls) indices = indices.
Proof.
  induction 1 as [|i ixs Hi _ IH]; [done|]. cbn. unfold cancelled_pair at 1.
  destruct (lookup_lt_is_Some_2 calls i Hi) as [c Hc]. rewrite Hc. cbn. f_equal. exact IH.
Qed.
Lemma cancelled_placed calls indices : Forall (placed calls) (omap (cancelled_pair calls) indices).
Proof.
  induction indices as [|i ixs IH]; [constructor|]. cbn. unfold cancelled_pair at 1.
  destruct (calls !! i) as [c|] eqn:E; cbn; [|exact IH]. constructor; [by split; cbn|exact IH].
Qed.
Lemma locals_bounds l : locals_ok l ->
  NoDup ((fst <$> dl_cached_pairs l) ++ dl_spawned_indices l)
  /\ Forall (fun i => i < length (dl_calls_seen l)) (dl_spawned_indices l).
Proof.
  intros [Hp _]. split; [rewrite Hp; apply NoDup_seq|]. apply Forall_forall. intros i Hi.
  assert (i ∈ seq 0 (length (dl_calls_seen l))) as Hs by (rewrite <-Hp; apply elem_of_app; by right).
  apply elem_of_seq in Hs. lia.
Qed.

(** The positions still open when the drain was cut short. *)
Lemma filter_still (cached spawned : list nat) n :
  NoDup (cached ++ spawned) ->
  List.filter (fun i => negb (bool_decide (i ∈ cached ++ take n spawned))) spawned = drop n spawned.
Proof.
  intros Hnd. apply NoDup_app in Hnd as (_ & Hdis & Hnd).
  pose proof Hnd as Hcut. rewrite <-(take_drop n spawned) in Hcut. apply NoDup_app in Hcut as (_ & Hcut & _).
  transitivity (List.filter (fun i => negb (bool_decide (i ∈ cached ++ take n spawned)))
                  (take n spawned ++ drop n spawned)); [by rewrite take_drop|].
  rewrite List.filter_app, filter_none, filter_all; [done| |]; apply Forall_forall; intros i Hi.
  - rewrite bool_decide_false; [done|]. rewrite elem_of_app. intros [Hc|Ht].
    + apply (Hdis i Hc). rewrite <-(take_drop n spawned). apply elem_of_app. by right.
    + by apply (Hcut i Ht).
  - rewrite bool_decide_true; [done|]. apply elem_of_app. by right.
Qed.

(** * Every call of a response is answered *)
Lemma synthesized_calls texts thinkings calls et sr u m :
  tool_calls (synthesize_response texts thinkings calls et sr u m) = calls.
Proof.
  unfold tool_calls, synthesize_response. cbn. rewrite !omap_app.
  assert (omap call_of_block ((fun '(t, sig) => ContentBlock_Thinking t sig) <$> thinkings) = []) as ->
    by (induction thinkings as [|[? ?] r IH]; [done|exact IH]).
  assert (omap call_of_block (ContentBlock_Text <$> texts) = []) as ->
    by (induction texts as [|? r IH]; [done|exact IH]).
  induction calls as [|[i n v] r IH]; [done|]. cbn. cbn in IH. by rewrite IH.
Qed.
Definition answered (resp : ResponseData) (results : batch) : Prop :=
  fst <$> results = tool_calls resp
  /\ Forall (fun '(c, r) => tcr_tool_use_id r = tc_id c) results.
(** How a response that reached the caller was put together. *)
Definition streamed_ok (resp : ResponseData) (results : batch) : Prop :=
  answered resp results
  /\ exists env l t, resp = synthesize_from env l t.
Lemma answered_by env l t (pairs : indexed) :
  fst <$> pairs ≡ₚ seq 0 (length (dl_calls_seen l)) -> Forall (placed (dl_calls_seen l)) pairs ->
  streamed_ok (synthesize_from env l t) (merged_results pairs).
Proof.
  intros Hp Hl. split; [|by exists env, l, t]. unfold answered, synthesize_from. destruct t as [[et sr] u].
  rewrite synthesized_calls. by apply merged_in_order.
Qed.
Lemma cancelled_outcome_ok env l et u n :
  answers env -> locals_ok l ->
  exists resp results,
    cancelled_outcome env l et u (take n (resolve env (dl_calls_seen l) (dl_spawned_indices l)))
      = Pump_Completed resp results /\ streamed_ok resp results.
Proof.
  intros Ha Hok. destruct (locals_bounds l Hok) as [Hnd Hb]. unfold cancelled_outcome.
  rewrite (fmap_take fst), resolve_positions, filter_still by done.
  eexists _, _. split; [done|]. destruct Hok as [Hp Hl]. apply answered_by.
  - rewrite !fmap_app, (fmap_take fst), resolve_positions by done.
    rewrite cancelled_positions by by apply Forall_drop. by rewrite take_drop.
  - rewrite !Forall_app. repeat split; [done|apply Forall_take; by apply resolve_placed|].
    apply cancelled_placed.
Qed.
Lemma complete_ok env l t resolved s resp results s' :
  complete env l t resolved s = (Pump_Completed resp results, s') ->
  resolved = resolve env (dl_calls_seen l) (dl_spawned_indices l) -> answers env -> locals_ok l ->
  streamed_ok resp results.
Proof.
  intros [= <- <- _] -> Ha Hok. destruct (locals_bounds l Hok) as [_ Hb]. destruct Hok as [Hp Hl].
  apply answered_by.
  - by rewrite fmap_app, resolve_positions.
  - apply Forall_app. split; [done|by apply resolve_placed].
Qed.
Lemma locals_new_ok : locals_ok DriveLocals_new.
Proof. split; [done|constructor]. Qed.
Lemma drive_stream_answered env steps s resp results s' :
  answers env -> drive_stream env steps s = (Pump_Completed resp results, s') -> streamed_ok resp results.
Proof.
  intros Ha. unfold drive_stream.
  destruct (drive_events env steps DriveLocals_new s) as [[ended l] s1] eqn:Ed.
  destruct (drive_events_ok _ _ _ _ _ _ _ Ed locals_new_ok) as [Hok Hends].
  assert (forall et u n (o s2 : LoopState),
    (cancelled_outcome env l et u (take n (resolve env (dl_calls_seen l) (dl_spawned_indices l))), s2)
      = (Pump_Completed resp results, o) -> streamed_ok resp results) as Hcan.
  { intros et u n o s2 Hc. destruct (cancelled_outcome_ok env l et u n Ha Hok) as (r & b & Hr & Hans).
    rewrite Hr in Hc. by injection Hc as <- <- _. }
  destruct ended as [o|[[et sr] u]].
  - destruct Hends as [->|[->|[[ms ->]|[e ->]]]]; [done| |done|by destruct e, (is_nil _)].
    destruct (dl_calls_seen l) eqn:El; [done|]. rewrite <-El in *. intros Hc.
    by eapply (Hcan None no_usage 0).
  - destruct (pe_drain_cancelled env) as [n|]; [destruct (bool_decide _)|].
    + by apply Hcan.
    + intros Hc. by eapply complete_ok.
    + intros Hc. by eapply complete_ok.
Qed.

(** * Retrying *)
(** What one attempt comes to, taken alone: nothing when it is to be replayed. *)
Definition attempt_once (first : bool) (a : Attempt) (s : LoopState) : option (StreamPumpOutcome * LoopState) :=
  if at_cancelled a then Some (Pump_Cancelled, s)
  else if negb first && at_cancelled_waiting a then Some (Pump_Cancelled, s)
  else match at_open a with
       | Open_Cancelled => Some (Pump_Cancelled, s)
       | Open_Err (ProviderError_StreamAbortedWithPartial _ _ | ProviderError_Request _ | ProviderError_Timeout) =>
           None
       | Open_Err e => Some (Pump_Error (PumpError_Reason e), s)
       | Open_Stream env steps =>
           match drive_stream env steps s with
           | (Pump_AbortedWithPartial _ _, _) | (Pump_RetryableTransport _, _) => None
           | r => Some r
           end
       end.
(** The first of the attempts that settles the request. *)
Fixpoint settled_by (attempts : nat -> Attempt) (remaining index : nat) (s : LoopState)
  : option (StreamPumpOutcome * LoopState) :=
  match remaining with
  | O => None
  | S remaining =>
      match attempt_once (bool_decide (index = 0)) (attempts index) s with
      | Some r => Some r
      | None => settled_by attempts remaining (S index) s
      end
  end.
Definition retryable (o : StreamPumpOutcome) : bool :=
  match o with Pump_AbortedWithPartial _ _ | Pump_RetryableTransport _ => true | _ => false end.
Lemma drive_stream_retryable env steps s o s' :
  drive_stream env steps s = (o, s') -> retryable o = true ->
  s' = s /\ exists l, drive_events env steps DriveLocals_new s = (inl o, l, s) /\ dl_calls_seen l = [].
Proof.
  unfold drive_stream. destruct (drive_events env steps DriveLocals_new s) as [[ended l] s1] eqn:Ed.
  destruct (drive_events_ok _ _ _ _ _ _ _ Ed locals_new_ok) as [_ Hends].
  pose proof (drive_events_idle _ _ _ _ _ _ Ed) as Hidle. destruct ended as [o'|[[et sr] u]].
  - assert (retryable o' = true -> dl_calls_seen l = []) as Hnone.
    { destruct Hends as [->|[->|[[ms ->]|[e ->]]]]; try done. destruct (dl_calls_seen l); [done|]. by destruct e. }
    destruct o'; try (by intros [= <- <-]); try (intros [= <- <-] Hr; rewrite (Hidle (Hnone Hr)) in *; eauto).
    destruct (dl_calls_seen l); intros [= <- <-]; by cbn.
  - destruct (pe_drain_cancelled env) as [n|]; [destruct (bool_decide _)|]; intros [= <- <-]; by cbn.
Qed.
Lemma pump_attempts_settled attempts remaining index retry transport s :
  (index = 0 \/ retry <> None \/ transport <> None) ->
  match settled_by attempts remaining index s with
  | Some r => pump_attempts attempts remaining index retry transport s = r
  | None => exists e, pump_attempts attempts remaining index retry transport s = (Pump_Error e, s)
  end.
Proof.
  revert index retry transport. induction remaining as [|rem IH]; intros index retry transport Hlive; cbn.
  { destruct transport; by eexists. }
  unfold attempt_once. destruct (at_cancelled (attempts index)); [done|].
  assert (bool_decide (0 < index) = negb (bool_decide (index = 0))) as ->
    by (repeat case_bool_decide; cbn; lia || done).
  assert (negb (bool_decide (index = 0)) && bool_decide (retry = None /\ transport = None) = false) as ->
    by (repeat case_bool_decide; naive_solver).
  destruct (negb (bool_decide (index = 0)) && at_cancelled_waiting (attempts index)); [done|].
  destruct (at_open (attempts index)) as [|e|env steps]; [done| |].
  { destruct e; try done; apply IH; right; naive_solver. }
  destruct (drive_stream env steps s) as [o s'] eqn:Ed.
  pose proof (drive_stream_retryable _ _ _ _ _ Ed) as Hr.
  destruct o; try done; destruct (Hr eq_refl) as [-> _]; apply IH; right; naive_solver.
Qed.
Lemma settled_inv attempts remaining index s r :
  settled_by attempts remaining index s = Some r ->
  exists k, index <= k < index + remaining
    /\ attempt_once (bool_decide (k = 0)) (attempts k) s = Some r
    /\ forall j, index <= j < k -> attempt_once (bool_decide (j = 0)) (attempts j) s = None.
Proof.
  revert index. induction remaining as [|rem IH]; intros index; cbn; [done|].
  destruct (attempt_once _ (attempts index) s) as [r'|] eqn:Ea.
  - intros [= ->]. exists index. repeat split; [lia|lia|done|intros; lia].
  - intros Hs. destruct (IH _ Hs) as (k & Hk & Hr & Hj). exists k. repeat split; [lia|lia|done|].
    intros j Hjk. destruct (decide (j = index)) as [->|]; [done|]. apply Hj. lia.
Qed.

Lemma sample_streamed max_retries attempts s resp results s' :
  (forall i env steps, at_open (attempts i) = Open_Stream env steps -> answers env) ->
  sample max_retries attempts s = (Ok (Transport_Streamed resp results), s') ->
  streamed_ok resp results.
Proof.
  intros Ha. unfold sample, run_stream_pump. destruct (pump_attempts _ _ _ _ _ _) as [o s1] eqn:Ep.
  intros [= Ho ->]. assert (o = Pump_Completed resp results) as -> by (destruct o as [| |[]| | |]; naive_solver).
  pose proof (pump_attempts_settled attempts (S max_retries) 0 None None s (or_introl eq_refl)) as Hs.
  rewrite Ep in Hs. destruct (settled_by _ _ _ _) as [r|] eqn:Es; [subst r|by destruct Hs].
  destruct (settled_inv _ _ _ _ _ Es) as (k & _ & Hk & _). revert Hk. unfold attempt_once.
  repeat (destruct (_ : bool); [by intros [=]|]).
  destruct (at_open (attempts k)) as [|e|env steps] eqn:Eo; [done|by destruct e|].
  destruct (drive_stream env steps s) as [o s2] eqn:Ed.
  destruct o; intros [= -> -> ->]. eapply drive_stream_answered; [by eapply Ha|exact Ed].
Qed.

(** C20: Every call of a response is answered exactly once and in the order the model
    made it: what a sampling request hands over pairs each tool call of the response
    with one result that carries its id, whether the call ran, was answered from the
    cache, was refused before it ran, did not parse, or was cut short by a
    cancellation - provided the executor labels a result with the call it was given. *)
Theorem sample_answers_every_call max_retries attempts s resp results s' :
  (forall i env steps, at_open (attempts i) = Open_Stream env steps -> answers env) ->
  sample max_retries attempts s = (Ok (Transport_Streamed resp results), s') ->
  answered resp results.
Proof. intros Ha Hs. by destruct (sample_streamed _ _ _ _ _ _ Ha Hs). Qed.

(** A request is replayed only when nothing came of the attempt before: the
    outcome of a request with its retries is that of the first of its
    [max_retries + 1] attempts that settles it, each attempt made from the state the
    request started with; an attempt that is given up had admitted no tool call and
    left the state alone, and when all are given up the request ends in an error with
    the state it started with. *)
Theorem retries_leave_no_trace max_retries attempts s :
  match settled_by attempts (S max_retries) 0 s with
  | Some r => run_stream_pump max_retries attempts s = r
  | None => exists e, run_stream_pump max_retries attempts s = (Pump_Error e, s)
  end
  /\ forall k env steps,
       at_open (attempts k) = Open_Stream env steps ->
       at_cancelled (attempts k) = false -> at_cancelled_waiting (attempts k) = false ->
       attempt_once (bool_decide (k = 0)) (attempts k) s = None ->
       exists o l, drive_stream env steps s = (o, s)
         /\ drive_events env steps DriveLocals_new s = (inl o, l, s) /\ dl_calls_seen l = [].
Proof.
  split; [apply pump_attempts_settled; by left|].
  intros k env steps Eo Hc Hw. unfold attempt_once. rewrite Hc, Hw, andb_false_r, Eo.
  destruct (drive_stream env steps s) as [o s'] eqn:Ed. intros Hnone.
  assert (retryable o = true) as Hr by (by destruct o).
  destruct (drive_stream_retryable _ _ _ _ _ Ed Hr) as [-> (l & Hl & Hnil)]. by exists o, l.
Qed.
End Pump.

Module StreamPumpExample.
#[local] Instance braces : JsonText := fun _ => "{}".
#[local] Instance unread : JsonFromStr := fun _ => None.
#[local] Instance length_hash : DefaultHasher := fun b => Z.of_nat (length b).

Definition call (id name : string) : ToolCallInfo := {| tc_id := id; tc_name := name; tc_input := JObject [] |}.
Definition env : PumpEnv := {|
  pe_result := fun _ c => ToolCallResult_success (tc_id c) "ran"; pe_drain_cancelled := Some 1;
  pe_steering := SteeringConfig_defaults; pe_model_name := "m" |}.
Definition item (i : OutputItem) : StreamStep := StreamStep_Event (ResponseEvent_OutputItemDone i) [].
(** The connection drops once; the second attempt makes three calls, one of them
    unreadable, and is cancelled after the first result. *)
Definition attempts (i : nat) : Attempt := {|
  at_cancelled := false; at_cancelled_waiting := false;
  at_open := Open_Stream env
    (match i with
     | 0 => [item (OutputItem_Message "let me see"); StreamStep_End]
     | _ => [item (OutputItem_ToolUse (call "a" "run_command"));
             item (OutputItem_InvalidToolUse "b" "edit_file" "bad json");
             item (OutputItem_ToolUse (call "c" "run_command"));
             StreamStep_Event (ResponseEvent_Completed None (Some StopReason_ToolUse) (Usage_new 5 7)) []]
     end) |}.
Definition state : LoopState := LoopState_new (for_agent "m") [Message_user "go"].
Definition outcome : result LlmCallError TransportOutcome := fst (sample 2 attempts state).
Definition expected : ResponseData * batch :=
  match outcome with
  | Ok (Transport_Streamed resp results) => (resp, results)
  | _ => (synthesize_response [] [] [] None None no_usage "m", [])
  end.
Lemma sample_answers_every_call_witness :
  sample 2 attempts state
    = (Ok (Transport_Streamed (fst expected) (snd expected)), snd (sample 2 attempts state))
  /\ (tc_id ∘ fst) <$> snd expected = ["a"; "b"; "c"]
  /\ (tcr_content ∘ snd) <$> snd expected = ["ran"; "bad json"; CANCELLED_TEXT]
  /\ answered (fst expected) (snd expected).
Proof.
  split; [vm_compute; reflexivity|]. split; [vm_compute; reflexivity|]. split; [vm_compute; reflexivity|].
  apply (sample_answers_every_call 2 attempts state _ _ (snd (sample 2 attempts state))).
  - intros i e steps. unfold attempts. cbn. intros [= <- _]. intros k c. reflexivity.
  - vm_compute. reflexivity.
Defined.
End StreamPumpExample.
