(* ===== verification/SseStream.v ===== *)
(** The event stream of a provider
    ([aura-model-reasoner/src/anthropic/sse/parse.rs, event.rs, state.rs],
    [anthropic/api_types.rs], [types/streaming.rs]): from the chunks of an HTTP body
    to stream events.

    The body is a list of what polling it gives, its end the end of the list; the
    idle timer going off is one of these.  Deserialisation by [serde_json] and the
    text of a UTF-8 error are parameters. *)
From S2P Require Import Prelude Values Utf8 Text Exec Context StreamPump.
From stdpp Require Import list.
From Stdlib Require Import Ascii Strings.Byte.

(** * Events *)
Inductive StreamContentType :=
| StreamContentType_Text
| StreamContentType_Thinking
| StreamContentType_ToolUse (id name : string).
Inductive StreamEvent :=
| StreamEvent_MessageStart (message_id model : string) (input_tokens : option Z)
    (cache_creation_input_tokens cache_read_input_tokens : option Z)
| StreamEvent_ContentBlockStart (index : Z) (content_type : StreamContentType)
| StreamEvent_TextDelta (text : string)
| StreamEvent_ThinkingDelta (thinking : string)
| StreamEvent_SignatureDelta (signature : string)
| StreamEvent_InputJsonDelta (partial_json : string)
| StreamEvent_ContentBlockStop (index : Z)
| StreamEvent_MessageDelta (stop_reason : option StopReason) (output_tokens : Z)
| StreamEvent_MessageStop
| StreamEvent_Ping
| StreamEvent_Error (message : string) (request_id : option string)
| StreamEvent_HttpMeta (request_id : option string).

(** ** The wire format *)
Record SseUsageStart := {
  su_input_tokens : Z;
  su_cache_creation_input_tokens : option Z;
  su_cache_read_input_tokens : option Z;
}.
Record SseMessageStart := { sm_id : string; sm_model : string; sm_usage : option SseUsageStart }.
Inductive SseContentBlock :=
| SseContentBlock_Text (text : string)
| SseContentBlock_Thinking (thinking : string)
| SseContentBlock_ToolUse (id name : string).
Inductive SseDelta :=
| SseDelta_Text (text : string)
| SseDelta_Thinking (thinking : string)
| SseDelta_Signature (signature : string)
| SseDelta_InputJson (partial_json : string).
Record SseError := { serr_message : string; serr_type : option string; serr_request_id : option string }.
Inductive SseEvent :=
| SseEvent_MessageStart (message : SseMessageStart)
| SseEvent_ContentBlockStart (index : Z) (content_block : SseContentBlock)
| SseEvent_ContentBlockDelta (index : Z) (delta : SseDelta)
| SseEvent_ContentBlockStop (index : Z)
| SseEvent_MessageDelta (stop_reason : option string) (output_tokens : option Z)
| SseEvent_MessageStop
| SseEvent_Ping
| SseEvent_Error (error : SseError).
(** [serde_json::from_str::<SseEvent>], the error as its text. *)
Class SseFromStr := sse_from_str : string -> result string SseEvent.
(** The text of a [Utf8Error]. *)
Class Utf8ErrorText := utf8_error : bytes -> string.

Definition stop_reason_of (s : string) : StopReason :=
  if bool_decide (s = "tool_use") then StopReason_ToolUse
  else if bool_decide (s = "max_tokens") then StopReason_MaxTokens
  else if bool_decide (s = "stop_sequence") then StopReason_StopSequence
  else StopReason_EndTurn.
Definition sse_event_to_stream_event (e : SseEvent) : StreamEvent :=
  match e with
  | SseEvent_MessageStart m =>
      StreamEvent_MessageStart (sm_id m) (sm_model m) (su_input_tokens <$> sm_usage m)
        (sm_usage m ≫= su_cache_creation_input_tokens) (sm_usage m ≫= su_cache_read_input_tokens)
  | SseEvent_ContentBlockStart index block =>
      StreamEvent_ContentBlockStart index
        match block with
        | SseContentBlock_Text _ => StreamContentType_Text
        | SseContentBlock_Thinking _ => StreamContentType_Thinking
        | SseContentBlock_ToolUse id name => StreamContentType_ToolUse id name
        end
  | SseEvent_ContentBlockDelta _ delta =>
      match delta with
      | SseDelta_Text text => StreamEvent_TextDelta text
      | SseDelta_Thinking thinking => StreamEvent_ThinkingDelta thinking
      | SseDelta_Signature signature => StreamEvent_SignatureDelta signature
      | SseDelta_InputJson partial => StreamEvent_InputJsonDelta partial
      end
  | SseEvent_ContentBlockStop index => StreamEvent_ContentBlockStop index
  | SseEvent_MessageDelta stop_reason output_tokens =>
      StreamEvent_MessageDelta (stop_reason_of <$> stop_reason) (default 0%Z output_tokens)
  | SseEvent_MessageStop => StreamEvent_MessageStop
  | SseEvent_Ping => StreamEvent_Ping
  | SseEvent_Error err =>
      let message := match serr_type err with
                     | Some kind => if bool_decide (kind = "") then serr_message err
                                    else kind +++ ": " +++ serr_message err
                     | None => serr_message err
                     end in
      StreamEvent_Error message (serr_request_id err)
  end.

(** * Blocks *)
Definition MAX_SSE_BUFFER_SIZE : Z := 10 * 1024 * 1024.
Definition crlf : string := String carriage_return nl.
(** The block and the buffer after it. *)
Definition pop_event_block (buffer : string) : option (string * string) :=
  match str_split_once (nl +++ nl) buffer with
  | Some r => Some r
  | None => str_split_once (crlf +++ crlf) buffer
  end.

Section Sse.
Context `{SseFromStr} `{Utf8ErrorText}.

(** The last [event:] and the last [data:] line of a block. *)
Definition sse_line (acc : option string * option string) (line : string) : option string * option string :=
  let line := trim line in
  match str_strip_prefix "event:" line with
  | Some suffix => (Some (trim suffix), snd acc)
  | None => match str_strip_prefix "data:" line with
            | Some suffix => (fst acc, Some (trim suffix))
            | None => acc
            end
  end.
Definition parse_sse_event (block : string) : option StreamEvent :=
  let '(event_type, data) := foldl sse_line (None, None) (lines block) in
  data ← data;
  if bool_decide (event_type = Some "ping") then Some StreamEvent_Ping
  else Some match sse_from_str data with
            | Ok e => sse_event_to_stream_event e
            | Err e => StreamEvent_Error ("malformed SSE JSON: " +++ e) None
            end.

(** * The stream *)
Inductive SseInput :=
| Sse_bytes (b : bytes)
| Sse_failed (e : string)
| Sse_idle.
Definition is_final (e : StreamEvent) : bool :=
  match e with StreamEvent_MessageStop | StreamEvent_Error _ _ => true | _ => false end.
(** The polls answered from the buffer: the events, whether the stream finished, and
    the buffer left.  A block that gives no event sends the poll to the body. *)
Fixpoint sse_drain (fuel : nat) (buffer : string) : list StreamEvent * bool * string :=
  match fuel with
  | O => ([], false, buffer)
  | S fuel =>
      match pop_event_block buffer with
      | None => ([], false, buffer)
      | Some (block, rest) =>
          match parse_sse_event block with
          | None => ([], false, rest)
          | Some e =>
              if is_final e then ([e], true, rest)
              else let '(es, finished, kept) := sse_drain fuel rest in (e :: es, finished, kept)
          end
      end
  end.
Fixpoint sse_run (inputs : list SseInput) (buffer : string) : list (result ProviderError StreamEvent) :=
  let '(es, finished, buffer) := sse_drain (String.length buffer) buffer in
  (Ok <$> es) ++
  if finished then []
  else match inputs with
       | [] => []
       | Sse_bytes b :: rest =>
           match from_utf8 b with
           | None =>
               Ok (StreamEvent_Error ("invalid UTF-8 in SSE stream: " +++ utf8_error b) None)
                 :: sse_run rest buffer
           | Some s =>
               let buffer := buffer +++ s in
               if (MAX_SSE_BUFFER_SIZE <? str_len buffer)%Z
               then [Err (ProviderError_Internal ("SSE buffer exceeded " +++ fmt_Z MAX_SSE_BUFFER_SIZE +++ " bytes"))]
               else sse_run rest buffer
           end
       | Sse_failed e :: _ => [Err (ProviderError_Request ("Stream error: " +++ e))]
       | Sse_idle :: _ => [Err ProviderError_Timeout]
       end.
Definition sse_stream (request_id : option string) (inputs : list SseInput)
  : list (result ProviderError StreamEvent) :=
  Ok (StreamEvent_HttpMeta request_id) :: sse_run inputs "".
End Sse.
