(* ===== verification/SseStreamProps.v ===== *)
(** The event stream does not depend on how the body was cut into chunks, as long as
    every chunk is valid UTF-8, lines end in a bare line feed and every block carries
    data; and what happens otherwise. *)
From S2P Require Import Prelude Values Utf8 Text Exec Context StreamPump SseStream.
From stdpp Require Import list.
From Stdlib Require Import Ascii Strings.Byte.

(** * First occurrences *)
Lemma strip_prefix_char c p s : contains_char c s = false -> contains_char c p = true -> str_strip_prefix p s = None.
Proof.
  revert s. induction p as [|d p IH]; intros s; [done|]. destruct s as [|e s]; [done|]. cbn.
  intros [Hs Hn]%orb_false_elim Hp. destruct (decide (d = e)) as [->|Hne]; [rewrite bool_decide_true by done|by rewrite bool_decide_false].
  apply IH; [done|]. by rewrite Hs in Hp.
Qed.
Lemma split_once_char c p s : contains_char c s = false -> contains_char c p = true -> str_split_once p s = None.
Proof.
  intros Hs Hp. induction s as [|d s IH]; cbn [str_split_once]; rewrite (strip_prefix_char c) by done; [done|].
  cbn in Hs. apply orb_false_elim in Hs as [_ Hs]. by rewrite (IH Hs).
Qed.
Lemma pop_lf buffer :
  contains_char carriage_return buffer = false -> pop_event_block buffer = str_split_once (nl +++ nl) buffer.
Proof.
  intros Hc. unfold pop_event_block. destruct (str_split_once (nl +++ nl) buffer); [done|].
  by apply (split_once_char carriage_return).
Qed.

(** * The blocks of a text *)
Section Chunks.
Context `{SseFromStr} `{Utf8ErrorText}.

Fixpoint sse_blocks (fuel : nat) (text : string) : list string :=
  match fuel with
  | O => []
  | S fuel => match pop_event_block text with
              | Some (block, rest) => block :: sse_blocks fuel rest
              | None => []
              end
  end.
Definition blocks (text : string) : list string := sse_blocks (String.length text) text.
(** Events up to and including the first that ends a stream. *)
Fixpoint until_final (es : list StreamEvent) : list StreamEvent :=
  match es with
  | [] => []
  | e :: es => if is_final e then [e] else e :: until_final es
  end.
(** What a text means, all of it at hand. *)
Definition sse_events (text : string) : list StreamEvent := until_final (omap parse_sse_event (blocks text)).
(** Every line ends in a bare line feed and every block carries data. *)
Definition plain (text : string) : Prop :=
  contains_char carriage_return text = false
  /\ Forall (fun b => is_Some (parse_sse_event b)) (blocks text).

Lemma pop_shorter buffer block rest :
  pop_event_block buffer = Some (block, rest) -> String.length rest < String.length buffer.
Proof.
  unfold pop_event_block. destruct (str_split_once (nl +++ nl) buffer) as [[a b]|] eqn:E.
  - intros [= <- <-]. apply split_once_length in E. change (String.length (nl +++ nl)) with 2 in E. lia.
  - intros Hs. apply split_once_length in Hs. change (String.length (crlf +++ crlf)) with 4 in Hs. lia.
Qed.
Lemma sse_blocks_fuel fuel text : String.length text <= fuel -> sse_blocks fuel text = blocks text.
Proof.
  unfold blocks. assert (forall n fuel fuel' text, String.length text <= n -> String.length text <= fuel ->
    String.length text <= fuel' -> sse_blocks fuel text = sse_blocks fuel' text) as Hgen.
  { induction n as [|n IH]; intros f f' t Hn Hf Hf'.
    - destruct t; [|cbn in Hn; lia]. by destruct f, f'.
    - destruct f as [|f], f' as [|f']; cbn; try done;
        destruct (pop_event_block t) as [[b r]|] eqn:E; try done;
        pose proof (pop_shorter _ _ _ E); try lia. f_equal. apply IH; lia. }
  intros Hf. by apply (Hgen (String.length text)).
Qed.
Lemma blocks_pop text block rest :
  pop_event_block text = Some (block, rest) -> blocks text = block :: blocks rest.
Proof.
  intros Hp. pose proof (pop_shorter _ _ _ Hp). unfold blocks at 1.
  destruct (String.length text) as [|n] eqn:El; [lia|]. cbn. rewrite Hp, sse_blocks_fuel by lia. done.
Qed.
Lemma sse_drain_fuel fuel buffer :
  String.length buffer <= fuel -> sse_drain fuel buffer = sse_drain (String.length buffer) buffer.
Proof.
  assert (forall n fuel fuel' t, String.length t <= n -> String.length t <= fuel ->
    String.length t <= fuel' -> sse_drain fuel t = sse_drain fuel' t) as Hgen.
  { induction n as [|n IH]; intros f f' t Hn Hf Hf'.
    - destruct t; [|cbn in Hn; lia]. by destruct f, f'.
    - destruct f as [|f], f' as [|f']; cbn; try done;
        destruct (pop_event_block t) as [[b r]|] eqn:E; try done;
        pose proof (pop_shorter _ _ _ E); try lia.
      destruct (parse_sse_event b) as [e|]; [|done]. destruct (is_final e); [done|].
      by rewrite (IH f f' r) by lia. }
  intros Hf. by apply (Hgen (String.length buffer)).
Qed.
Lemma drain_pop buffer block rest :
  pop_event_block buffer = Some (block, rest) ->
  sse_drain (String.length buffer) buffer
  = match parse_sse_event block with
    | None => ([], false, rest)
    | Some e =>
        if is_final e then ([e], true, rest)
        else let '(es, finished, kept) := sse_drain (String.length rest) rest in (e :: es, finished, kept)
    end.
Proof.
  intros Hp. pose proof (pop_shorter _ _ _ Hp). destruct (String.length buffer) as [|n] eqn:El; [lia|].
  cbn [sse_drain]. rewrite Hp. destruct (parse_sse_event block) as [e|]; [|done].
  rewrite sse_drain_fuel by lia. done.
Qed.
Lemma drain_stuck buffer : pop_event_block buffer = None -> sse_drain (String.length buffer) buffer = ([], false, buffer).
Proof. intros Hp. destruct (String.length buffer); [done|]. cbn. by rewrite Hp. Qed.

(** Without an event that ends the stream, draining stops where no block is left. *)
Lemma drain_idle buffer es kept :
  plain buffer -> sse_drain (String.length buffer) buffer = (es, false, kept) -> pop_event_block kept = None.
Proof.
  revert es. induction buffer as [buffer IH] using (induction_ltof1 _ String.length). unfold ltof in IH.
  intros es [Hcr Hdata]. destruct (pop_event_block buffer) as [[block rest]|] eqn:Ep;
    [|rewrite (drain_stuck _ Ep); by intros [= _ <-]].
  rewrite (drain_pop _ _ _ Ep). rewrite (blocks_pop _ _ _ Ep) in Hdata.
  apply Forall_cons in Hdata as [[e ->] Hdata]. destruct (is_final e); [done|].
  destruct (sse_drain (String.length rest) rest) as [[es' finished'] kept'] eqn:Ed. intros [= _ -> ->].
  eapply (IH rest); [by eapply pop_shorter| |exact Ed]. split; [|done].
  rewrite pop_lf in Ep by done. apply split_once_eq in Ep. rewrite Ep, !contains_char_app in Hcr.
  by repeat apply orb_false_elim in Hcr as [_ Hcr].
Qed.
(** Draining what has arrived and then the rest is draining everything. *)
Lemma drain_then_more buffer t es finished kept :
  plain (buffer +++ t) -> sse_drain (String.length buffer) buffer = (es, finished, kept) ->
  sse_events (buffer +++ t) = es ++ (if finished then [] else sse_events (kept +++ t))
  /\ (finished = false -> plain (kept +++ t) /\ String.length kept <= String.length buffer).
Proof.
  revert es finished kept. induction buffer as [buffer IH] using (induction_ltof1 _ String.length).
  unfold ltof in IH. intros es finished kept Hplain.
  pose proof Hplain as [Hcr Hdata]. pose proof Hcr as Hcb. rewrite contains_char_app in Hcb.
  apply orb_false_elim in Hcb as [Hcb Hct].
  destruct (pop_event_block buffer) as [[block rest]|] eqn:Ep.
  2: { rewrite (drain_stuck _ Ep). intros [= <- <- <-]. by rewrite app_nil_l. }
  assert (pop_event_block (buffer +++ t) = Some (block, rest +++ t)) as Hpt.
  { rewrite pop_lf in Ep |- * by done. by apply split_once_more. }
  rewrite (drain_pop _ _ _ Ep). unfold sse_events at 1. rewrite (blocks_pop _ _ _ Hpt) in Hdata |- *.
  apply Forall_cons in Hdata as [[e He] Hdata]. cbn [omap list_omap]. rewrite He. cbn [until_final].
  destruct (is_final e); [by intros [= <- <- <-]|].
  pose proof (pop_shorter _ _ _ Ep) as Hshort. pose proof (pop_shorter _ _ _ Hpt) as Hshort'.
  destruct (sse_drain (String.length rest) rest) as [[es' finished'] kept'] eqn:Ed. intros [= <- <- <-].
  destruct (IH rest Hshort es' finished' kept') as [Hev Hrest]; [|done|].
  - split; [|done]. rewrite pop_lf in Ep by done. apply split_once_eq in Ep. rewrite contains_char_app, Hct, orb_false_r.
    rewrite Ep, !contains_char_app in Hcb. by repeat apply orb_false_elim in Hcb as [_ Hcb].
  - fold (sse_events (rest +++ t)). rewrite Hev. split; [done|]. intros Hf. destruct (Hrest Hf). split; [done|lia].
Qed.

(** The chunks of a body, decoded. *)
Definition decoded (chunks : list bytes) : string :=
  foldr (fun b t => String.string_of_list_byte b +++ t) "" chunks.
Lemma sse_run_chunks chunks buffer :
  Forall (fun b => utf8_lossy b = b) chunks -> plain (buffer +++ decoded chunks) ->
  (str_len (buffer +++ decoded chunks) <= MAX_SSE_BUFFER_SIZE)%Z ->
  sse_run (Sse_bytes <$> chunks) buffer = Ok <$> sse_events (buffer +++ decoded chunks).
Proof.
  revert buffer. induction chunks as [|b chunks IH]; intros buffer Hutf Hplain Hlen;
    cbn [fmap list_fmap sse_run decoded foldr] in *;
    destruct (sse_drain (String.length buffer) buffer) as [[es finished] kept] eqn:Ed;
    destruct (drain_then_more _ _ _ _ _ Hplain Ed) as [Hev Hkept]; rewrite Hev, fmap_app; f_equal;
    (destruct finished; [done|]); destruct (Hkept eq_refl) as [Hp Hl].
  - rewrite string_app_nil_r in *. pose proof (drain_idle _ _ _ Hplain Ed) as Hstuck.
    unfold sse_events, blocks. by destruct (String.length kept); cbn; [|rewrite Hstuck].
  - apply Forall_cons in Hutf as [Hb Hutf]. unfold from_utf8. rewrite bool_decide_true by done.
    rewrite <-string_app_assoc in Hp.
    assert ((str_len ((kept +++ String.string_of_list_byte b) +++ decoded chunks) <= MAX_SSE_BUFFER_SIZE)%Z) as Hlen'.
    { unfold str_len in *. rewrite !string_app_length in *. fold (decoded chunks) in *. lia. }
    destruct (Z.ltb_spec MAX_SSE_BUFFER_SIZE (str_len (kept +++ String.string_of_list_byte b))) as [Hover|_].
    { unfold str_len in *. rewrite !string_app_length in *. lia. }
    rewrite (IH _ Hutf Hp Hlen'). by rewrite string_app_assoc.
Qed.

(** C23: The events of a stream do not depend on how its body was cut into chunks:
    when every chunk is valid UTF-8 on its own, lines end in a bare line feed, every
    block carries data and the body fits the buffer, polling the stream gives the
    synthetic first event and then exactly the events of the blocks of the whole
    text, in order, up to the first that ends the stream. *)
Theorem sse_chunks_irrelevant request_id chunks :
  Forall (fun b => utf8_lossy b = b) chunks -> plain (decoded chunks) ->
  (str_len (decoded chunks) <= MAX_SSE_BUFFER_SIZE)%Z ->
  sse_stream request_id (Sse_bytes <$> chunks)
  = Ok (StreamEvent_HttpMeta request_id) :: (Ok <$> sse_events (decoded chunks)).
Proof.
  intros Hu Hp Hl. unfold sse_stream. by rewrite sse_run_chunks; rewrite ?string_app_nil_l.
Qed.
End Chunks.

Module SseExample.
(** A toy decoder: [stop] ends the message, other data is text. *)
#[local] Instance toy_sse : SseFromStr := fun d =>
  if bool_decide (d = "stop") then Ok SseEvent_MessageStop
  else Ok (SseEvent_ContentBlockDelta 0 (SseDelta_Text d)).
#[local] Instance toy_utf8 : Utf8ErrorText := fun _ => "incomplete".
Definition chunk (s : string) : bytes := string_to_bytes s.
Definition texts (out : list (result ProviderError StreamEvent)) : list string :=
  omap (fun r => match r with Ok (StreamEvent_TextDelta t) => Some t | _ => None end) out.
Definition stopped (out : list (result ProviderError StreamEvent)) : bool :=
  existsb (fun r => match r with Ok StreamEvent_MessageStop => true | _ => false end) out.

Definition body : list bytes :=
  [chunk ("data: a" +++ nl); chunk (nl +++ "da"); chunk ("ta: b" +++ nl +++ nl +++ "data: stop" +++ nl +++ nl)].
Lemma sse_chunks_irrelevant_witness :
  sse_stream None (Sse_bytes <$> body)
  = [Ok (StreamEvent_HttpMeta None); Ok (StreamEvent_TextDelta "a"); Ok (StreamEvent_TextDelta "b");
     Ok StreamEvent_MessageStop].
Proof.
  etransitivity; [apply (sse_chunks_irrelevant None body)|vm_compute; reflexivity].
  - repeat constructor.
  - split; [reflexivity|]. vm_compute. repeat constructor; eexists; reflexivity.
  - vm_compute. discriminate.
Defined.

(** A character cut in two by a chunk boundary turns into an error. *)
Definition accented : bytes := chunk ("data: é" +++ nl +++ nl).
Lemma split_character_is_error :
  texts (sse_stream None [Sse_bytes accented]) = ["é"]
  /\ texts (sse_stream None [Sse_bytes (take 7 accented); Sse_bytes (drop 7 accented)]) = [].
Proof. vm_compute. split; reflexivity. Qed.

(** A block without data, such as a comment, hides the complete blocks behind it when
    the body ends there. *)
Lemma comment_hides_end :
  stopped (sse_stream None [Sse_bytes (chunk ("data: stop" +++ nl +++ nl))]) = true
  /\ stopped (sse_stream None [Sse_bytes (chunk (": ping" +++ nl +++ nl +++ "data: stop" +++ nl +++ nl))]) = false.
Proof. vm_compute. split; reflexivity. Qed.

(** A block that ends in CRLF is joined to a later one that ends in LF when both are
    in the buffer, and not otherwise. *)
Lemma mixed_line_ends_join :
  let a := chunk ("data: a" +++ crlf +++ crlf) in let b := chunk ("data: b" +++ nl +++ nl) in
  texts (sse_stream None [Sse_bytes a; Sse_bytes b]) = ["a"; "b"]
  /\ texts (sse_stream None [Sse_bytes (a ++ b)]) = ["b"].
Proof. vm_compute. split; reflexivity. Qed.
End SseExample.
