(* ===== verification/ResponseStream.v ===== *)
(** From stream events to a response
    ([aura-model-reasoner/src/types/streaming.rs, response_stream.rs]): the
    accumulator, the response it becomes, and the adapter that turns stream events
    into the items the pump consumes. *)
From S2P Require Import Prelude Values Utf8 Text CoreTypes Exec Context ModelRequest LoopTypes ToolCache.
From S2P Require Import InputQueue LoopState StreamPump SseStream.
From stdpp Require Import list.
From Stdlib Require Import Ascii Strings.Byte.

(** * The accumulator *)
Record AccumulatedToolUse := { at_id : string; at_name : string; at_input_json : string }.
Record StreamAccumulator := {
  sa_message_id : string;
  sa_model : string;
  sa_text_content : string;
  sa_thinking_content : string;
  sa_thinking_signature : option string;
  sa_in_thinking_block : bool;
  sa_tool_uses : list AccumulatedToolUse;
  sa_current_tool_use : option AccumulatedToolUse;
  sa_stop_reason : option StopReason;
  sa_input_tokens : Z;
  sa_output_tokens : Z;
  sa_cache_creation_input_tokens : option Z;
  sa_cache_read_input_tokens : option Z;
  sa_stream_error : option string;
  sa_provider_request_id : option string;
}.
#[export] Instance StreamAccumulator_eta : Settable StreamAccumulator := fun a =>
  Build_StreamAccumulator (sa_message_id a) (sa_model a) (sa_text_content a) (sa_thinking_content a)
    (sa_thinking_signature a) (sa_in_thinking_block a) (sa_tool_uses a) (sa_current_tool_use a)
    (sa_stop_reason a) (sa_input_tokens a) (sa_output_tokens a) (sa_cache_creation_input_tokens a)
    (sa_cache_read_input_tokens a) (sa_stream_error a) (sa_provider_request_id a).
Definition StreamAccumulator_new : StreamAccumulator := {|
  sa_message_id := ""; sa_model := ""; sa_text_content := ""; sa_thinking_content := "";
  sa_thinking_signature := None; sa_in_thinking_block := false; sa_tool_uses := [];
  sa_current_tool_use := None; sa_stop_reason := None; sa_input_tokens := 0; sa_output_tokens := 0;
  sa_cache_creation_input_tokens := None; sa_cache_read_input_tokens := None; sa_stream_error := None;
  sa_provider_request_id := None |}.

Definition accumulator_process (e : StreamEvent) (a : StreamAccumulator) : StreamAccumulator :=
  match e with
  | StreamEvent_MessageStart message_id model input_tokens creation read =>
      a <| sa_message_id := message_id |> <| sa_model := model |>
        <| sa_input_tokens := default (sa_input_tokens a) input_tokens |>
        <| sa_cache_creation_input_tokens := creation |> <| sa_cache_read_input_tokens := read |>
  | StreamEvent_ContentBlockStart _ (StreamContentType_ToolUse id name) =>
      a <| sa_current_tool_use := Some {| at_id := id; at_name := name; at_input_json := "" |} |>
        <| sa_in_thinking_block := false |>
  | StreamEvent_ContentBlockStart _ StreamContentType_Thinking => a <| sa_in_thinking_block := true |>
  | StreamEvent_ContentBlockStart _ StreamContentType_Text => a <| sa_in_thinking_block := false |>
  | StreamEvent_TextDelta text => a <| sa_text_content := sa_text_content a +++ text |>
  | StreamEvent_ThinkingDelta thinking => a <| sa_thinking_content := sa_thinking_content a +++ thinking |>
  | StreamEvent_SignatureDelta signature =>
      a <| sa_thinking_signature := Some (default "" (sa_thinking_signature a) +++ signature) |>
  | StreamEvent_InputJsonDelta partial =>
      a <| sa_current_tool_use :=
             (fun t => {| at_id := at_id t; at_name := at_name t; at_input_json := at_input_json t +++ partial |})
               <$> sa_current_tool_use a |>
  | StreamEvent_ContentBlockStop _ =>
      a <| sa_tool_uses := sa_tool_uses a ++ option_list (sa_current_tool_use a) |>
        <| sa_current_tool_use := None |> <| sa_in_thinking_block := false |>
  | StreamEvent_MessageDelta stop_reason output_tokens =>
      a <| sa_stop_reason := stop_reason |> <| sa_output_tokens := output_tokens |>
  | StreamEvent_MessageStop | StreamEvent_Ping => a
  | StreamEvent_Error message request_id =>
      a <| sa_stream_error := Some message |>
        <| sa_provider_request_id :=
             match sa_provider_request_id a with Some id => Some id | None => request_id end |>
  | StreamEvent_HttpMeta request_id =>
      a <| sa_provider_request_id := match request_id with Some id => Some id | None => sa_provider_request_id a end |>
  end.

Definition nonempty (label value : string) : list string := if bool_decide (value = "") then [] else [label +++ value].
Definition format_stream_error_reason (a : StreamAccumulator) (message : string) : string :=
  let parts := nonempty "model=" (sa_model a) ++ nonempty "msg_id=" (sa_message_id a)
               ++ nonempty "request_id=" (default "" (sa_provider_request_id a)) in
  let context := match parts with [] => "" | _ => " (" +++ str_join ", " parts +++ ")" end in
  "stream terminated with error" +++ context +++ ": " +++ message.
Definition partial_of (t : AccumulatedToolUse) : PartialToolUse :=
  {| pt_tool_use_id := at_id t; pt_tool_name := at_name t; pt_partial_json := at_input_json t |}.

Record ProviderTrace := {
  trace_message_id : option string;
  trace_provider_request_id : option string;
  trace_latency_ms : Z;
  trace_model : string;
}.
(** The text of a [serde_json::Error] for some input. *)
Class JsonErrorText := json_error : string -> string.

Section Responses.
Context `{JsonFromStr} `{JsonErrorText}.

(** A tool call left open by the end of the stream is taken for complete. *)
Definition recover_open_tool (a : StreamAccumulator) : StreamAccumulator :=
  match sa_current_tool_use a with
  | None => a
  | Some t =>
      a <| sa_current_tool_use := None |> <| sa_tool_uses := sa_tool_uses a ++ [t] |>
        <| sa_stop_reason := Some (default StopReason_MaxTokens (sa_stop_reason a)) |>
  end.
Definition tool_use_block (t : AccumulatedToolUse) : ContentBlock :=
  let input := if bool_decide (at_input_json t = "") then JObject []
               else default (JObject [("raw", JString (at_input_json t))]) (json_from_str (at_input_json t)) in
  ContentBlock_ToolUse (at_id t) (at_name t) input.
Definition into_response (a : StreamAccumulator) (input_tokens latency_ms : Z)
  : result ProviderError (ResponseData * ProviderTrace) :=
  let a := recover_open_tool a in
  match sa_stream_error a with
  | Some message =>
      let reason := format_stream_error_reason a message in
      match last (sa_tool_uses a) with
      | Some t => Err (ProviderError_StreamAbortedWithPartial reason (Some (partial_of t)))
      | None => Err (ProviderError_Transient 502 reason)
      end
  | None =>
      let content :=
        (if bool_decide (sa_thinking_content a = "") then []
         else [ContentBlock_Thinking (sa_thinking_content a) (sa_thinking_signature a)])
        ++ (if bool_decide (sa_text_content a = "") then [] else [ContentBlock_Text (sa_text_content a)])
        ++ (tool_use_block <$> sa_tool_uses a) in
      Ok ({| rd_stop_reason := default StopReason_EndTurn (sa_stop_reason a);
             rd_message := {| msg_role := Role_Assistant; msg_content := content |};
             rd_usage := {| usage_input_tokens := if (0 <? sa_input_tokens a)%Z then sa_input_tokens a else input_tokens;
                            usage_output_tokens := sa_output_tokens a;
                            usage_cache_creation_input_tokens := sa_cache_creation_input_tokens a;
                            usage_cache_read_input_tokens := sa_cache_read_input_tokens a |};
             rd_model := sa_model a |},
          {| trace_message_id := if bool_decide (sa_message_id a = "") then None else Some (sa_message_id a);
             trace_provider_request_id := sa_provider_request_id a;
             trace_latency_ms := latency_ms; trace_model := sa_model a |})
  end.

(** * The adapter *)
Definition INVALID_ARGUMENTS_TAIL : string :=
  ". No tool was executed; regenerate this call with complete arguments.".
Definition finished_tool (t : AccumulatedToolUse) : OutputItem :=
  if bool_decide (at_input_json t = "") then
    OutputItem_ToolUse {| tc_id := at_id t; tc_name := at_name t; tc_input := JObject [] |}
  else match json_from_str (at_input_json t) with
       | Some input => OutputItem_ToolUse {| tc_id := at_id t; tc_name := at_name t; tc_input := input |}
       | None => OutputItem_InvalidToolUse (at_id t) (at_name t)
                   ("Tool arguments were incomplete or invalid JSON: " +++ json_error (at_input_json t)
                    +++ INVALID_ARGUMENTS_TAIL)
       end.
Definition take_completed_item (a : StreamAccumulator) : option OutputItem * StreamAccumulator :=
  match last (sa_tool_uses a) with
  | Some t => (Some (finished_tool t), a <| sa_tool_uses := removelast (sa_tool_uses a) |>)
  | None =>
      if negb (bool_decide (sa_thinking_content a = "")) then
        (Some (OutputItem_Thinking (sa_thinking_content a) (sa_thinking_signature a)),
         a <| sa_thinking_content := "" |> <| sa_thinking_signature := None |>)
      else if negb (bool_decide (sa_text_content a = "")) then
        (Some (OutputItem_Message (sa_text_content a)), a <| sa_text_content := "" |>)
      else (None, a)
  end.
Definition synthesize_completed (a : StreamAccumulator) : ResponseEvent :=
  ResponseEvent_Completed
    ((fun r => match r with StopReason_EndTurn | StopReason_StopSequence => true | _ => false end)
       <$> sa_stop_reason a)
    (sa_stop_reason a)
    {| usage_input_tokens := sa_input_tokens a; usage_output_tokens := sa_output_tokens a;
       usage_cache_creation_input_tokens := sa_cache_creation_input_tokens a;
       usage_cache_read_input_tokens := sa_cache_read_input_tokens a |}.
(** [provider_error], [transport_error] and [closed_with_partial_error]: a tool call
    in flight makes the error one that carries it. *)
Definition aborted (a : StreamAccumulator) (message : string) : option StreamError * StreamAccumulator :=
  match sa_current_tool_use a with
  | Some t => (Some (StreamError_StreamAbortedWithPartial (format_stream_error_reason a message) (Some (partial_of t))),
               a <| sa_current_tool_use := None |>)
  | None => (None, a)
  end.
Definition provider_error (a : StreamAccumulator) (message : string) : StreamError * StreamAccumulator :=
  let '(e, a) := aborted a message in (default (StreamError_InvalidEvent message) e, a).
Definition transport_error (a : StreamAccumulator) (context : string) : StreamError :=
  default (StreamError_TransportClosed context) (fst (aborted a context)).
Definition closed_with_partial_error (a : StreamAccumulator) : option StreamError :=
  fst (aborted a "transport closed before stream completed").

(** [handle_event]: what is queued for the consumer. *)
Definition handle_event (e : StreamEvent) (a : StreamAccumulator)
  : option (result StreamError ResponseEvent) * StreamAccumulator :=
  let keepalive phase := (Some (Ok (ResponseEvent_Keepalive phase)), a) in
  match e with
  | StreamEvent_ContentBlockStop _ =>
      let '(item, a) := take_completed_item a in
      ((fun i => Ok (ResponseEvent_OutputItemDone i)) <$> item, a)
  | StreamEvent_MessageStop => (Some (Ok (synthesize_completed a)), a)
  | StreamEvent_Error message _ =>
      let '(err, a) := provider_error a message in
      (Some match err with
            | StreamError_StreamAbortedWithPartial _ _ => Err err
            | other => Ok (ResponseEvent_Error other)
            end, a)
  | StreamEvent_Ping => keepalive StreamPhase_Ping
  | StreamEvent_MessageStart _ _ _ _ _ | StreamEvent_HttpMeta _ | StreamEvent_MessageDelta _ _ =>
      keepalive StreamPhase_Connecting
  | StreamEvent_ContentBlockStart _ StreamContentType_Thinking => keepalive StreamPhase_Thinking
  | StreamEvent_ContentBlockStart _ StreamContentType_Text => keepalive StreamPhase_Text
  | StreamEvent_ContentBlockStart _ (StreamContentType_ToolUse _ _) => keepalive StreamPhase_ToolInput
  | StreamEvent_ThinkingDelta thinking => (Some (Ok (ResponseEvent_OutputThinkingDelta thinking)), a)
  | StreamEvent_SignatureDelta _ => keepalive StreamPhase_Thinking
  | StreamEvent_TextDelta text => (Some (Ok (ResponseEvent_OutputTextDelta text)), a)
  | StreamEvent_InputJsonDelta _ => keepalive StreamPhase_ToolInput
  end.
Definition is_stop (e : StreamEvent) : bool := match e with StreamEvent_MessageStop => true | _ => false end.
(** What the consumer sees of a stream of events. *)
Fixpoint adapter_run (events : list (result ProviderError StreamEvent)) (a : StreamAccumulator) (completed : bool)
  : list (result StreamError ResponseEvent) :=
  match events with
  | Ok e :: rest =>
      let '(out, a) := handle_event e (accumulator_process e a) in
      option_list out ++ adapter_run rest a (completed || is_stop e)
  | Err e :: _ => [Err (transport_error a (ProviderError_display e))]
  | [] =>
      match closed_with_partial_error a with
      | Some e => [Err e]
      | None => if completed then [] else [Err (StreamError_TransportClosed "missing message_stop")]
      end
  end.
Definition response_stream_from_event_stream (events : list (result ProviderError StreamEvent))
  : list (result StreamError ResponseEvent) := adapter_run events StreamAccumulator_new false.

(** A buffered response as a stream. *)
Definition item_of_block (b : ContentBlock) : option OutputItem :=
  match b with
  | ContentBlock_Text text => Some (OutputItem_Message text)
  | ContentBlock_Thinking thinking signature => Some (OutputItem_Thinking thinking signature)
  | ContentBlock_ToolUse id name input =>
      Some (OutputItem_ToolUse {| tc_id := id; tc_name := name; tc_input := input |})
  | _ => None
  end.
Definition response_stream_from_response (r : ResponseData) : list (result StreamError ResponseEvent) :=
  let end_turn := match rd_stop_reason r with
                  | StopReason_EndTurn | StopReason_StopSequence => true
                  | StopReason_ToolUse | StopReason_MaxTokens => false
                  end in
  ((fun i => Ok (ResponseEvent_OutputItemDone i)) <$> omap item_of_block (msg_content (rd_message r)))
  ++ [Ok (ResponseEvent_Completed (Some end_turn) (Some (rd_stop_reason r)) (rd_usage r))].

(** What the pump polls. *)
Definition step_of (r : result StreamError ResponseEvent) : StreamStep :=
  match r with Ok e => StreamStep_Event e [] | Err e => StreamStep_TransportErr e end.
Definition steps_of (out : list (result StreamError ResponseEvent)) : list StreamStep := (step_of <$> out) ++ [StreamStep_End].
End Responses.
