(* ===== verification/ResponseStreamProps.v ===== *)
(** A message streamed by a provider is put together again: the adapter yields its
    blocks as items, in order, and the pump the response that has them. *)
From S2P Require Import Prelude Values Utf8 Text CoreTypes Exec Context ModelRequest LoopTypes Steering ToolCache.
From S2P Require Import Compaction InputQueue LoopState ToolPipeline StreamPump StreamPumpProps SseStream ResponseStream.
From stdpp Require Import list.
From Stdlib Require Import Ascii Strings.Byte.

(** * What a provider streams *)
(** A block as the pieces its text arrives in. *)
Inductive WireBlock :=
| Wire_text (chunks : list string)
| Wire_thinking (chunks signature : list string)
| Wire_tool (id name : string) (chunks : list string).
Definition cat (chunks : list string) : string := foldr String.append "" chunks.
Definition block_start (b : WireBlock) : StreamContentType :=
  match b with
  | Wire_text _ => StreamContentType_Text
  | Wire_thinking _ _ => StreamContentType_Thinking
  | Wire_tool id name _ => StreamContentType_ToolUse id name
  end.
Definition block_deltas (b : WireBlock) : list StreamEvent :=
  match b with
  | Wire_text chunks => StreamEvent_TextDelta <$> chunks
  | Wire_thinking chunks signature =>
      (StreamEvent_ThinkingDelta <$> chunks) ++ (StreamEvent_SignatureDelta <$> signature)
  | Wire_tool _ _ chunks => StreamEvent_InputJsonDelta <$> chunks
  end.
Definition block_events (index : Z) (b : WireBlock) : list StreamEvent :=
  StreamEvent_ContentBlockStart index (block_start b) :: block_deltas b ++ [StreamEvent_ContentBlockStop index].
Fixpoint blocks_events (index : Z) (bs : list WireBlock) : list StreamEvent :=
  match bs with [] => [] | b :: bs => block_events index b ++ blocks_events (index + 1) bs end.
(** A signature comes with the thinking it signs. *)
Definition block_ok (b : WireBlock) : Prop :=
  match b with Wire_thinking chunks signature => signature = [] \/ cat chunks <> "" | _ => True end.
Record WireMessage := {
  wm_id : string; wm_model : string;
  wm_input : option Z; wm_creation : option Z; wm_read : option Z;
  wm_blocks : list WireBlock;
  wm_stop : option StopReason; wm_output : Z;
}.
Definition message_events (m : WireMessage) : list StreamEvent :=
  StreamEvent_MessageStart (wm_id m) (wm_model m) (wm_input m) (wm_creation m) (wm_read m)
    :: blocks_events 0 (wm_blocks m)
    ++ [StreamEvent_MessageDelta (wm_stop m) (wm_output m); StreamEvent_MessageStop].
(** The events of a message with keep-alive pings anywhere among them. *)
Definition not_ping (e : StreamEvent) : bool := match e with StreamEvent_Ping => false | _ => true end.
Definition carries (m : WireMessage) (events : list StreamEvent) : Prop :=
  List.filter not_ping events = message_events m.
Definition wire_usage (m : WireMessage) : Usage :=
  {| usage_input_tokens := default 0%Z (wm_input m); usage_output_tokens := wm_output m;
     usage_cache_creation_input_tokens := wm_creation m; usage_cache_read_input_tokens := wm_read m |}.
Definition ends_turn (r : StopReason) : bool :=
  match r with StopReason_EndTurn | StopReason_StopSequence => true | _ => false end.

Section Reassembly.
Context `{JsonText} `{JsonFromStr} `{DefaultHasher} `{JsonErrorText}.

Definition signature_of (signature : list string) : option string :=
  match signature with [] => None | _ => Some (cat signature) end.
Definition block_item (b : WireBlock) : option OutputItem :=
  match b with
  | Wire_text chunks => if bool_decide (cat chunks = "") then None else Some (OutputItem_Message (cat chunks))
  | Wire_thinking chunks signature =>
      if bool_decide (cat chunks = "") then None else Some (OutputItem_Thinking (cat chunks) (signature_of signature))
  | Wire_tool id name chunks => Some (finished_tool {| at_id := id; at_name := name; at_input_json := cat chunks |})
  end.
(** Deltas and keep-alives are for display and liveness only. *)
Definition significant (r : result StreamError ResponseEvent) : bool :=
  match r with
  | Ok (ResponseEvent_Keepalive _ | ResponseEvent_OutputTextDelta _ | ResponseEvent_OutputThinkingDelta _) => false
  | _ => true
  end.
Definition done_item (i : OutputItem) : result StreamError ResponseEvent := Ok (ResponseEvent_OutputItemDone i).

(** * The adapter *)
(** Between blocks nothing is pending. *)
Record idle (a : StreamAccumulator) : Prop := {
  idle_text : sa_text_content a = "";
  idle_thinking : sa_thinking_content a = "";
  idle_signature : sa_thinking_signature a = None;
  idle_tools : sa_tool_uses a = [];
  idle_current : sa_current_tool_use a = None;
}.
(** What the end of the message reads. *)
Definition same_meta (a a' : StreamAccumulator) : Prop :=
  sa_input_tokens a = sa_input_tokens a' /\ sa_cache_creation_input_tokens a = sa_cache_creation_input_tokens a'
  /\ sa_cache_read_input_tokens a = sa_cache_read_input_tokens a'.

Lemma adapter_deltas (deltas : list StreamEvent) rest a c :
  Forall (fun e => match e with
                   | StreamEvent_TextDelta _ | StreamEvent_ThinkingDelta _ | StreamEvent_SignatureDelta _
                   | StreamEvent_InputJsonDelta _ => True | _ => False end) deltas ->
  List.filter significant (adapter_run ((Ok <$> deltas) ++ rest) a c)
  = List.filter significant (adapter_run rest (foldl (fun a e => accumulator_process e a) a deltas) c).
Proof.
  intros Hd. revert a. induction Hd as [|e deltas He _ IH]; intros a; [done|].
  cbn [fmap list_fmap app adapter_run foldl]. rewrite <-IH.
  destruct e; try done; cbn; by rewrite orb_false_r.
Qed.
Lemma fold_text chunks a :
  foldl (fun a e => accumulator_process e a) a (StreamEvent_TextDelta <$> chunks)
  = a <| sa_text_content := sa_text_content a +++ cat chunks |>.
Proof.
  revert a. induction chunks as [|x chunks IH]; intros a; cbn; [rewrite string_app_nil_r; by destruct a|].
  rewrite IH. cbn. by rewrite string_app_assoc.
Qed.
Lemma fold_thinking chunks a :
  foldl (fun a e => accumulator_process e a) a (StreamEvent_ThinkingDelta <$> chunks)
  = a <| sa_thinking_content := sa_thinking_content a +++ cat chunks |>.
Proof.
  revert a. induction chunks as [|x chunks IH]; intros a; cbn; [rewrite string_app_nil_r; by destruct a|].
  rewrite IH. cbn. by rewrite string_app_assoc.
Qed.
Lemma fold_signature signature a :
  foldl (fun a e => accumulator_process e a) a (StreamEvent_SignatureDelta <$> signature)
  = a <| sa_thinking_signature :=
           match signature with [] => sa_thinking_signature a
           | _ => Some (default "" (sa_thinking_signature a) +++ cat signature) end |>.
Proof.
  revert a. induction signature as [|x signature IH]; intros a; cbn; [by destruct a|].
  rewrite IH. cbn. destruct signature; cbn; by rewrite ?string_app_nil_r, ?string_app_assoc.
Qed.
Lemma fold_json chunks t a :
  sa_current_tool_use a = Some t ->
  foldl (fun a e => accumulator_process e a) a (StreamEvent_InputJsonDelta <$> chunks)
  = a <| sa_current_tool_use :=
           Some {| at_id := at_id t; at_name := at_name t; at_input_json := at_input_json t +++ cat chunks |} |>.
Proof.
  revert a t. induction chunks as [|x chunks IH]; intros a t Ht; cbn.
  { rewrite string_app_nil_r. destruct a, t; cbn in *. by rewrite Ht. }
  rewrite (IH _ {| at_id := at_id t; at_name := at_name t; at_input_json := at_input_json t +++ x |})
    by (cbn; by rewrite Ht). cbn. by rewrite string_app_assoc.
Qed.
Lemma adapter_start index t rest a c :
  List.filter significant (adapter_run (Ok (StreamEvent_ContentBlockStart index t) :: rest) a c)
  = List.filter significant
      (adapter_run rest (accumulator_process (StreamEvent_ContentBlockStart index t) a) c).
Proof. destruct t; cbn; by rewrite orb_false_r. Qed.
Lemma adapter_message_start i m it cc cr rest a c :
  List.filter significant (adapter_run (Ok (StreamEvent_MessageStart i m it cc cr) :: rest) a c)
  = List.filter significant (adapter_run rest (accumulator_process (StreamEvent_MessageStart i m it cc cr) a) c).
Proof. cbn. by rewrite orb_false_r. Qed.
Lemma adapter_stop index rest a c item a' :
  take_completed_item (accumulator_process (StreamEvent_ContentBlockStop index) a) = (item, a') ->
  List.filter significant (adapter_run (Ok (StreamEvent_ContentBlockStop index) :: rest) a c)
  = (done_item <$> option_list item) ++ List.filter significant (adapter_run rest a' c).
Proof.
  intros Ht. cbn [adapter_run handle_event]. rewrite Ht. cbn [is_stop]. rewrite orb_false_r. by destruct item.
Qed.
Lemma deltas_are_deltas b :
  Forall (fun e => match e with
                   | StreamEvent_TextDelta _ | StreamEvent_ThinkingDelta _ | StreamEvent_SignatureDelta _
                   | StreamEvent_InputJsonDelta _ => True | _ => False end) (block_deltas b).
Proof. destruct b; cbn; rewrite ?Forall_app; repeat split; apply Forall_fmap, Forall_true; done. Qed.
(** What a block leaves in the accumulator when it stops. *)
Definition block_state (index : Z) (b : WireBlock) (a : StreamAccumulator) : StreamAccumulator :=
  accumulator_process (StreamEvent_ContentBlockStop index)
    (foldl (fun a e => accumulator_process e a)
       (accumulator_process (StreamEvent_ContentBlockStart index (block_start b)) a) (block_deltas b)).
Lemma block_state_item index b a :
  idle a -> block_ok b ->
  exists a', take_completed_item (block_state index b a) = (block_item b, a') /\ idle a' /\ same_meta a a'.
Proof.
  intros [Ht Hth Hs Hto Hc] Hb. unfold block_state.
  destruct b as [chunks|chunks signature|id name chunks]; cbn [block_start block_deltas block_item] in *.
  - rewrite fold_text. unfold take_completed_item. cbn. rewrite Ht, Hth, Hto, Hc. cbn. rewrite string_app_nil_l.
    destruct (bool_decide (cat chunks = "")) eqn:E; cbn; eexists; (split; [reflexivity|]); split; try done;
      constructor; cbn; try done. by apply bool_decide_eq_true in E.
  - rewrite foldl_app, fold_thinking, fold_signature. unfold take_completed_item. cbn.
    rewrite Ht, Hth, Hto, Hc, Hs. cbn. rewrite !string_app_nil_l.
    destruct (bool_decide (cat chunks = "")) eqn:E; cbn.
    + apply bool_decide_eq_true in E. destruct Hb as [->|Hb]; [|done].
      eexists. split; [reflexivity|]. split; [|done]. by constructor.
    + eexists. split; [by destruct signature; cbn; rewrite ?string_app_nil_l|]. split; [|done]. by constructor.
  - rewrite (fold_json _ {| at_id := id; at_name := name; at_input_json := "" |}) by done.
    unfold take_completed_item. cbn. rewrite Hto. cbn. rewrite string_app_nil_l.
    eexists. split; [reflexivity|]. split; [|done]. by constructor.
Qed.
(** One block gives its item and leaves the accumulator as it found it. *)
Lemma adapter_block index b rest a c :
  idle a -> block_ok b ->
  exists a', idle a' /\ same_meta a a'
    /\ List.filter significant (adapter_run ((Ok <$> block_events index b) ++ rest) a c)
       = (done_item <$> option_list (block_item b)) ++ List.filter significant (adapter_run rest a' c).
Proof.
  intros Ha Hb. destruct (block_state_item index b a Ha Hb) as (a' & Hitem & Hidle & Hmeta).
  exists a'. split; [done|]. split; [done|]. unfold block_events. cbn [fmap list_fmap app].
  rewrite fmap_app, <-app_assoc, adapter_start, adapter_deltas by apply deltas_are_deltas.
  cbn [fmap list_fmap app]. by apply adapter_stop.
Qed.
Lemma same_meta_trans a b c : same_meta a b -> same_meta b c -> same_meta a c.
Proof. unfold same_meta. naive_solver congruence. Qed.
Lemma adapter_blocks index bs rest a c :
  idle a -> Forall block_ok bs ->
  exists a', idle a' /\ same_meta a a'
    /\ List.filter significant (adapter_run ((Ok <$> blocks_events index bs) ++ rest) a c)
       = (done_item <$> omap block_item bs) ++ List.filter significant (adapter_run rest a' c).
Proof.
  intros Ha Hbs. revert index a Ha. induction Hbs as [|b bs Hb _ IH]; intros index a Ha; cbn [blocks_events].
  { by exists a. }
  rewrite fmap_app, <-app_assoc.
  destruct (adapter_block index b ((Ok <$> blocks_events (index + 1) bs) ++ rest) a c Ha Hb) as (a1 & Ha1 & Hm1 & ->).
  destruct (IH (index + 1)%Z a1 Ha1) as (a2 & Ha2 & Hm2 & ->). exists a2. split; [done|].
  split; [by eapply same_meta_trans|]. rewrite app_assoc. f_equal. cbn. by destruct (block_item b).
Qed.
(** Pings only keep the connection alive. *)
Lemma adapter_pings events a c :
  List.filter significant (adapter_run (Ok <$> events) a c)
  = List.filter significant (adapter_run (Ok <$> List.filter not_ping events) a c).
Proof.
  revert a c. induction events as [|e events IH]; intros a c; [done|]. destruct (not_ping e) eqn:Ep.
  - cbn [List.filter]. rewrite Ep. cbn [fmap list_fmap adapter_run].
    destruct (handle_event e (accumulator_process e a)) as [out a']. rewrite !List.filter_app. f_equal. apply IH.
  - destruct e; try done. cbn. rewrite orb_false_r. apply IH.
Qed.
(** A whole message: its items, then its end, and nothing after it. *)
Lemma adapter_message m :
  Forall block_ok (wm_blocks m) ->
  List.filter significant (response_stream_from_event_stream (Ok <$> message_events m))
  = (done_item <$> omap block_item (wm_blocks m))
    ++ [Ok (ResponseEvent_Completed (ends_turn <$> wm_stop m) (wm_stop m) (wire_usage m))].
Proof.
  intros Hb. unfold response_stream_from_event_stream, message_events. cbn [fmap list_fmap].
  rewrite adapter_message_start, fmap_app.
  match goal with |- context [adapter_run ((Ok <$> blocks_events 0 ?bs) ++ ?r) ?a ?c] =>
    destruct (adapter_blocks 0 bs r a c) as (a' & [Ht Hth Hs Hto Hc] & (Hi & Hcr & Hrd) & ->); [by constructor|done|] end.
  f_equal. cbn. rewrite Hc. cbn in *. unfold synthesize_completed, wire_usage. cbn. by rewrite <-Hi, <-Hcr, <-Hrd.
Qed.

(** * The pump *)
Lemma drive_significant env out rest l s :
  drive_events env ((step_of <$> out) ++ rest) l s
  = drive_events env ((step_of <$> List.filter significant out) ++ rest) l s.
Proof.
  revert l s. induction out as [|[e|e] out IH]; intros l s; [done| |done].
  destruct e as [[text|thinking sig|call|id name reason]|phase|chunk|chunk|et sr u|e]; cbn; try done.
  all: try (apply IH). cbn in IH. by destruct (handle_tool_use_event env call [] l s) as [l' s'].
Qed.
(** What the items of a stream add to the response. *)
Definition item_text (i : OutputItem) : option string := match i with OutputItem_Message t => Some t | _ => None end.
Definition item_thinking (i : OutputItem) : option (string * option string) :=
  match i with OutputItem_Thinking t sig => Some (t, sig) | _ => None end.
Definition item_call (i : OutputItem) : option ToolCallInfo :=
  match i with
  | OutputItem_ToolUse call => Some call
  | OutputItem_InvalidToolUse id name _ => Some {| tc_id := id; tc_name := name; tc_input := JObject [] |}
  | _ => None
  end.
Lemma handle_tool_use_seen env call pending l s l' s' :
  handle_tool_use_event env call pending l s = (l', s') ->
  dl_text_chunks l' = dl_text_chunks l /\ dl_thinking_chunks l' = dl_thinking_chunks l
  /\ dl_calls_seen l' = dl_calls_seen l ++ [call].
Proof.
  unfold handle_tool_use_event. destruct (partition_circling_duplicate_reads _ _ _) as [[|b bs] allowed];
    [destruct (split_cached _ _) as [[|? ?] [|? ?]]|]; by intros [= <- _].
Qed.
Lemma drive_items env items rest l s :
  exists l' s', drive_events env ((step_of <$> (done_item <$> items)) ++ rest) l s = drive_events env rest l' s'
    /\ dl_text_chunks l' = dl_text_chunks l ++ omap item_text items
    /\ dl_thinking_chunks l' = dl_thinking_chunks l ++ omap item_thinking items
    /\ dl_calls_seen l' = dl_calls_seen l ++ omap item_call items.
Proof.
  revert l s. induction items as [|i items IH]; intros l s; [exists l, s; by rewrite !app_nil_r|].
  assert (exists l1 s1, drive_events env ((step_of <$> (done_item <$> i :: items)) ++ rest) l s
      = drive_events env ((step_of <$> (done_item <$> items)) ++ rest) l1 s1
    /\ dl_text_chunks l1 = dl_text_chunks l ++ option_list (item_text i)
    /\ dl_thinking_chunks l1 = dl_thinking_chunks l ++ option_list (item_thinking i)
    /\ dl_calls_seen l1 = dl_calls_seen l ++ option_list (item_call i)) as (l1 & s1 & -> & Ht & Hth & Hc).
  { destruct i as [text|thinking sig|call|id name reason]; cbn.
    - eexists _, s. split; [reflexivity|]. cbn. by rewrite !app_nil_r.
    - eexists _, s. split; [reflexivity|]. cbn. by rewrite !app_nil_r.
    - destruct (handle_tool_use_event env call [] l s) as [l1 s1] eqn:Eh.
      destruct (handle_tool_use_seen _ _ _ _ _ _ _ Eh) as (H1' & H2' & H3'). exists l1, s1.
      split; [reflexivity|]. by rewrite !app_nil_r.
    - eexists _, s. split; [reflexivity|]. cbn. by rewrite !app_nil_r. }
  destruct (IH l1 s1) as (l2 & s2 & -> & Ht2 & Hth2 & Hc2). exists l2, s2. split; [done|].
  rewrite Ht2, Ht, Hth2, Hth, Hc2, Hc, <-!app_assoc. by destruct i.
Qed.

(** The content of the response: thinking, text, calls. *)
Definition items_content (items : list OutputItem) : list ContentBlock :=
  ((fun '(t, sig) => ContentBlock_Thinking t sig) <$> omap item_thinking items)
  ++ (ContentBlock_Text <$> omap item_text items)
  ++ ((fun c => ContentBlock_ToolUse (tc_id c) (tc_name c) (tc_input c)) <$> omap item_call items).
Lemma synthesized_content env l t :
  msg_content (rd_message (synthesize_from env l t))
  = ((fun '(t, sig) => ContentBlock_Thinking t sig) <$> dl_thinking_chunks l)
    ++ (ContentBlock_Text <$> dl_text_chunks l)
    ++ ((fun c => ContentBlock_ToolUse (tc_id c) (tc_name c) (tc_input c)) <$> dl_calls_seen l).
Proof. by destruct t as [[et sr] u]. Qed.

(** C22: A message a provider streams arrives whole: whatever pieces its blocks are cut
    into and wherever pings come between its events, the pump completes with a
    response that has exactly the thinking, the text and the tool calls of the
    message, in order within each kind, and its token counts; a call whose arguments
    do not parse is there with empty arguments and is answered by an error instead of
    run.  The one condition, [block_ok]: a thinking block without text has no
    signature ([signature_leaks] is what happens to one that has). *)
Theorem streamed_message_reassembled env m events s :
  Forall block_ok (wm_blocks m) -> carries m events ->
  exists resp results s',
    drive_stream env (steps_of (response_stream_from_event_stream (Ok <$> events))) s
      = (Pump_Completed resp results, s')
    /\ msg_content (rd_message resp) = items_content (omap block_item (wm_blocks m))
    /\ rd_usage resp = wire_usage m.
Proof.
  intros Hb He. pose proof (adapter_message m Hb) as Hm. unfold response_stream_from_event_stream in *.
  rewrite <-He, <-adapter_pings in Hm. unfold drive_stream, steps_of. rewrite drive_significant, Hm, fmap_app, <-app_assoc.
  destruct (drive_items env (omap block_item (wm_blocks m))
    ((step_of <$> [Ok (ResponseEvent_Completed (ends_turn <$> wm_stop m) (wm_stop m) (wire_usage m))]) ++ [StreamStep_End])
    DriveLocals_new s) as (l & s1 & -> & Ht & Hth & Hc).
  cbn [fmap list_fmap step_of app drive_events].
  assert (forall t, msg_content (rd_message (synthesize_from env l t)) = items_content (omap block_item (wm_blocks m))) as Hcont.
  { intros t. rewrite synthesized_content, Ht, Hth, Hc. done. }
  destruct (pe_drain_cancelled env) as [n|]; [destruct (bool_decide _)|]; eexists _, _, _;
    (split; [reflexivity|]); split; try apply Hcont; done.
Qed.

(** A stream never just ends: what the consumer sees of any sequence of events
    contains the end of the message or an error, so a body cut short is not taken for
    a complete response. *)
Theorem stream_end_is_told events :
  existsb (fun r => match r with Ok (ResponseEvent_Completed _ _ _) | Err _ => true | _ => false end)
    (response_stream_from_event_stream events) = true.
Proof.
  unfold response_stream_from_event_stream. generalize StreamAccumulator_new.
  assert (forall c a, c = true \/ existsb (fun r => match r with Ok (ResponseEvent_Completed _ _ _) | Err _ => true | _ => false end)
    (adapter_run events a c) = true) as Hgen.
  { induction events as [|[e|e] events IH]; intros c a.
    - destruct c; [by left|right]. cbn. by destruct (closed_with_partial_error a).
    - destruct c; [by left|right]. cbn [adapter_run]. destruct (handle_event _ _) as [out a'] eqn:Eh. rewrite existsb_app.
      destruct (is_stop e) eqn:Est; [|destruct (IH false a') as [|Hx]; [done|cbn [orb]; by rewrite Hx, orb_true_r]].
      destruct e; try done. cbn in Eh. by injection Eh as <- <-.
    - right. done. }
  intros a. by destruct (Hgen false a).
Qed.

(** An error in the stream is never swallowed by the buffered path. *)
Lemma stream_error_propagates a message input latency :
  sa_stream_error a = Some message -> exists e, into_response a input latency = Err e.
Proof.
  intros He. unfold into_response. assert (sa_stream_error (recover_open_tool a) = Some message) as ->
    by (unfold recover_open_tool; by destruct (sa_current_tool_use a)).
  destruct (last _); by eexists.
Qed.
End Reassembly.

Module ResponseStreamExample.
#[local] Instance braces : JsonText := fun _ => "{}".
(** A parser that knows one object. *)
#[local] Instance one_object : JsonFromStr := fun s => if bool_decide (s = "{1}") then Some (JObject [("n", JNull)]) else None.
#[local] Instance json_eof : JsonErrorText := fun _ => "EOF".
#[local] Instance length_hash : DefaultHasher := fun b => Z.of_nat (length b).

Definition env : PumpEnv := {|
  pe_result := fun _ c => ToolCallResult_success (tc_id c) "ran"; pe_drain_cancelled := None;
  pe_steering := SteeringConfig_defaults; pe_model_name := "m" |}.
Definition state : LoopState := LoopState_new (for_agent "m") [Message_user "go"].
Definition message : WireMessage := {|
  wm_id := "msg"; wm_model := "m"; wm_input := Some 10%Z; wm_creation := None; wm_read := Some 4%Z;
  wm_blocks := [Wire_text ["let "; "me see"]; Wire_thinking ["hm"] ["sig"; "ned"];
                Wire_tool "a" "run_command" ["{"; "1}"]; Wire_tool "b" "run_command" ["{"]];
  wm_stop := Some StopReason_ToolUse; wm_output := 7 |}.
Definition pinged : list StreamEvent :=
  StreamEvent_Ping :: take 4 (message_events message) ++ [StreamEvent_Ping; StreamEvent_Ping]
  ++ drop 4 (message_events message) ++ [StreamEvent_Ping].
Definition expected : list ContentBlock :=
  [ContentBlock_Thinking "hm" (Some "signed"); ContentBlock_Text "let me see";
   ContentBlock_ToolUse "a" "run_command" (JObject [("n", JNull)]);
   ContentBlock_ToolUse "b" "run_command" (JObject [])].
Lemma streamed_message_reassembled_witness :
  exists resp results s',
    drive_stream env (steps_of (response_stream_from_event_stream (Ok <$> pinged))) state
      = (Pump_Completed resp results, s')
    /\ msg_content (rd_message resp) = expected /\ rd_usage resp = wire_usage message.
Proof.
  change expected with (items_content (omap block_item (wm_blocks message))).
  apply (streamed_message_reassembled env message pinged state); [|vm_compute; reflexivity].
  repeat (apply Forall_cons; split); try apply Forall_nil; try exact I.
  all: right; discriminate.
Defined.

(** A call that was complete when the stream failed is reported as the one in flight. *)
Definition after_complete_call : StreamAccumulator :=
  foldl (fun a e => accumulator_process e a) StreamAccumulator_new
    (block_events 0 (Wire_tool "a" "write_file" ["{1}"]) ++ [StreamEvent_Error "overloaded" None]).
Lemma complete_call_reported_partial :
  sa_current_tool_use after_complete_call = None
  /\ into_response after_complete_call 0 0
     = Err (ProviderError_StreamAbortedWithPartial "stream terminated with error: overloaded"
              (Some {| pt_tool_use_id := "a"; pt_tool_name := "write_file"; pt_partial_json := "{1}" |})).
Proof. split; reflexivity. Qed.

(** The signature of a thinking block without text is given to the next one. *)
Lemma signature_leaks :
  List.filter significant (adapter_run (Ok <$> blocks_events 0 [Wire_thinking [] ["first"]; Wire_thinking ["x"] []])
                             StreamAccumulator_new true)
  = [done_item (OutputItem_Thinking "x" (Some "first"))].
Proof. reflexivity. Qed.
End ResponseStreamExample.
