(* ===== verification/Pairing.v ===== *)
(** Transcripts in which calls and results are paired, and the edits of the agent
    loop that keep them so: notes appended for the model, a response with the
    results of its calls, a summary put in the place of an old stretch. *)
From S2P Require Import Prelude Values Utf8 Text CoreTypes Exec Context ModelRequest Compaction.
From S2P Require Import CompactionProps LoopTypes Steering Sanitize InputQueue LoopState ToolPipeline.
From S2P Require Import StreamPump.
From stdpp Require Import list.

(** What a provider insists on: every result answers a call of the message just
    before it, every call of the assistant is answered by the message just after. *)
Definition paired (ms : list Message) : Prop := results_paired None ms /\ uses_paired ms.

Lemma repair_paired ms : paired (validate_and_repair ms).
Proof. destruct (validate_and_repair_ok ms) as [_ _ Hr Hu]. by split. Qed.

(** * Putting stretches together *)
Definition last_or (previous : option Message) (ms : list Message) : option Message :=
  match last ms with Some m => Some m | None => previous end.
Lemma last_or_cons previous m ms : last_or previous (m :: ms) = last_or (Some m) ms.
Proof. unfold last_or. destruct ms as [|n ms]; [done|]. change (last (m :: n :: ms)) with (last (n :: ms)).
  destruct (last (n :: ms)) eqn:E; [done|]. by apply last_None in E. Qed.
Lemma results_paired_app previous ms ns :
  results_paired previous (ms ++ ns) <-> results_paired previous ms /\ results_paired (last_or previous ms) ns.
Proof.
  revert previous. induction ms as [|m ms IH]; intros previous; [by cbn; naive_solver|].
  cbn [app results_paired]. rewrite IH, last_or_cons. naive_solver.
Qed.
Lemma uses_answered_app m rest ns : uses_answered m rest -> uses_answered m (rest ++ ns).
Proof.
  intros Hu Hrole id Hid. specialize (Hu Hrole id Hid). destruct rest; [by apply elem_of_nil in Hu|done].
Qed.
Lemma uses_paired_app ms ns : uses_paired ms -> uses_paired ns -> uses_paired (ms ++ ns).
Proof.
  induction ms as [|m ms IH]; [done|]. intros [Hm Hms] Hns. split; [by apply uses_answered_app|auto].
Qed.
Lemma uses_paired_drop ms ns : uses_paired (ms ++ ns) -> uses_paired ns.
Proof. induction ms as [|m ms IH]; [done|]. intros [_ Hms]. auto. Qed.
(** A stretch stands on its own when nothing in it waits for what followed. *)
Definition settled_end (ms : list Message) : Prop :=
  forall m, last ms = Some m -> msg_role m = Role_Assistant -> message_tool_use_ids m = [].
Lemma uses_paired_take ms ns : uses_paired (ms ++ ns) -> settled_end ms -> uses_paired ms.
Proof.
  induction ms as [|m ms IH]; [done|]. intros [Hm Hms] Hend. destruct ms as [|n ms].
  - split; [|done]. intros Hrole id Hid. rewrite (Hend m eq_refl Hrole) in Hid. by apply elem_of_nil in Hid.
  - split; [exact Hm|]. apply IH; [done|]. intros p Hp. by apply Hend.
Qed.
Lemma paired_settled ms : uses_paired ms -> settled_end ms.
Proof.
  induction ms as [|m ms IH]; intros Hu p Hp Hrole; [done|]. destruct Hu as [Hm Hms]. destruct ms as [|n ms].
  - injection Hp as ->. destruct (message_tool_use_ids p) as [|id ids] eqn:E; [done|].
    specialize (Hm Hrole id). rewrite E in Hm. specialize (Hm (list_elem_of_here _ _)). by apply elem_of_nil in Hm.
  - by apply IH.
Qed.

(** * Messages that differ in neither role nor ids *)
Definition same_ids (m m' : Message) : Prop :=
  msg_role m = msg_role m' /\ message_tool_use_ids m = message_tool_use_ids m'
  /\ message_tool_result_ids m = message_tool_result_ids m'.
#[export] Instance same_ids_refl : Reflexive same_ids.
Proof. intros m. by split_and!. Qed.
Lemma same_next_ids ms ms' : Forall2 same_ids ms ms' -> next_user_result_ids ms = next_user_result_ids ms'.
Proof. intros [|m m' rest rest' (Hr & _ & Hi) _]; [done|]. cbn -[message_tool_result_ids]. by rewrite Hr, Hi. Qed.
Lemma same_ids_results previous previous' ms ms' :
  previous_tool_use_ids previous = previous_tool_use_ids previous' -> Forall2 same_ids ms ms' ->
  results_paired previous ms -> results_paired previous' ms'.
Proof.
  intros Hp Hs. revert previous previous' Hp. induction Hs as [|m m' ms ms' (_ & Hu & Hi) _ IH]; intros p p' Hp; [done|].
  intros [Hf Hrest]. split; [|by apply (IH (Some m))]. intros id. rewrite <-Hi, <-Hp. apply Hf.
Qed.
Lemma same_ids_uses ms ms' : Forall2 same_ids ms ms' -> uses_paired ms -> uses_paired ms'.
Proof.
  induction 1 as [|m m' ms ms' (Hr & Hu & _) Hs IH]; [done|]. intros [Hm Hms]. split; [|auto].
  intros Hrole id. rewrite <-Hu, <-(same_next_ids _ _ Hs). apply Hm. congruence.
Qed.
Lemma same_ids_paired ms ms' : Forall2 same_ids ms ms' -> paired ms -> paired ms'.
Proof. intros Hs [Hr Hu]. split; [by eapply same_ids_results|by eapply same_ids_uses]. Qed.

(** * Notes for the model *)
Lemma user_text_follows previous text : results_follow previous (Message_user text).
Proof. intros id Hid. by apply elem_of_nil in Hid. Qed.
Lemma push_plain_paired ms m :
  paired ms -> message_tool_use_ids m = [] -> message_tool_result_ids m = [] -> paired (ms ++ [m]).
Proof.
  intros [Hr Hu] Huse Hres. split.
  - apply results_paired_app. split; [done|]. split; [|done]. intros id. rewrite Hres. by intros ?%elem_of_nil.
  - apply uses_paired_app; [done|]. split; [|done]. intros _ id. rewrite Huse. by intros ?%elem_of_nil.
Qed.
Lemma snoc_text_same m text :
  same_ids m {| msg_role := msg_role m; msg_content := msg_content m ++ [ContentBlock_Text text] |}.
Proof.
  split; [done|]. unfold message_tool_use_ids, message_tool_result_ids. cbn [msg_content].
  by rewrite !omap_app, !app_nil_r.
Qed.
Lemma append_warning_paired ms text : paired ms -> paired (append_warning ms text).
Proof.
  intros Hp. unfold append_warning. destruct (last ms) as [m|] eqn:El; [|by apply push_plain_paired].
  destruct (bool_decide _); [|by apply push_plain_paired]. apply last_Some in El as [pre ->].
  rewrite length_app, take_app_length' by (cbn; lia). revert Hp. apply same_ids_paired.
  apply Forall2_app; [by apply Forall2_same|]. constructor; [apply snoc_text_same|constructor].
Qed.
Lemma apply_user_inputs_paired ms inputs : paired ms -> paired (apply_user_inputs_to_messages ms inputs).
Proof.
  unfold apply_user_inputs_to_messages. revert ms. induction inputs as [|i inputs IH]; intros ms Hp; [done|].
  apply IH. destruct i; [by apply append_warning_paired|done|by apply append_warning_paired].
Qed.
Lemma inject_all_paired `{SteeringText} ms notes : paired ms -> paired (foldl inject ms notes).
Proof.
  revert ms. induction notes as [|k notes IH]; intros ms Hp; [done|]. apply IH. by apply append_warning_paired.
Qed.

(** * A response and the results of its calls *)
Lemma push_answered_paired ms m n :
  paired ms -> message_tool_result_ids m = [] -> msg_role n = Role_User -> message_tool_use_ids n = [] ->
  message_tool_result_ids n = message_tool_use_ids m -> paired (ms ++ [m; n]).
Proof.
  intros [Hr Hu] Hm Hn Hnu Hids. split.
  - apply results_paired_app. split; [done|]. split; [|split; [|done]].
    + intros id. rewrite Hm. by intros ?%elem_of_nil.
    + intros id. by rewrite Hids.
  - apply uses_paired_app; [done|]. split; [|split; [|done]].
    + intros _ id Hid. cbn -[message_tool_result_ids]. rewrite bool_decide_true by done. by rewrite Hids.
    + intros _ id. rewrite Hnu. by intros ?%elem_of_nil.
Qed.

(** * A summary in the place of an old stretch *)
Lemma pair_detected messages idx m p id :
  messages !! S idx = Some m -> messages !! idx = Some p ->
  id ∈ message_tool_result_ids m -> id ∈ message_tool_use_ids p ->
  result_is_for_previous_tool_use messages (S idx) = true.
Proof.
  intros Hm Hp Hid Hu. unfold result_is_for_previous_tool_use. rewrite Hm, Hp.
  destruct (message_tool_result_ids m) as [|r rs] eqn:E; [by apply elem_of_nil in Hid|]. cbn -[existsb].
  apply existsb_exists. exists id. split; [by apply list_elem_of_In|]. apply existsb_exists.
  exists id. split; [by apply list_elem_of_In|]. by apply bool_decide_eq_true.
Qed.
Lemma cut_before_settled ms s :
  uses_paired ms -> result_is_for_previous_tool_use ms s = false -> s < length ms -> settled_end (take s ms).
Proof.
  intros Hu Hb Hs p Hp Hrole. destruct (message_tool_use_ids p) as [|id ids] eqn:Eu; [done|exfalso].
  apply last_Some in Hp as [pre Hpre].
  destruct s as [|s]; [by destruct pre|]. destruct (lookup_lt_is_Some_2 ms (S s) Hs) as [n Hn].
  assert (length pre = s) as Hlen.
  { apply (f_equal length) in Hpre. rewrite length_app, length_take_le in Hpre by lia. change (length [p]) with 1 in Hpre. lia. }
  assert (ms = pre ++ p :: n :: drop (S (S s)) ms) as Hms.
  { rewrite <-(take_drop (S s) ms) at 1. rewrite Hpre, (drop_S _ _ _ Hn), <-app_assoc. done. }
  assert (ms !! s = Some p) as Hsp by (rewrite Hms, lookup_app_r, Hlen, Nat.sub_diag by lia; done).
  rewrite Hms in Hu. apply uses_paired_drop in Hu as [Hans _]. specialize (Hans Hrole id).
  rewrite Eu in Hans. specialize (Hans (list_elem_of_here _ _)). cbn -[message_tool_result_ids] in Hans.
  destruct (bool_decide _); [|by apply elem_of_nil in Hans].
  rewrite (pair_detected ms s n p id Hn Hsp Hans) in Hb; [done|]. rewrite Eu. left.
Qed.
Lemma results_paired_lookup previous ms i p m :
  results_paired previous ms -> ms !! i = Some p -> ms !! S i = Some m -> results_follow (Some p) m.
Proof.
  revert previous i. induction ms as [|x ms IH]; intros previous i; [done|]. intros [_ Hms] Hp Hm.
  destruct i as [|i]; [|by eapply IH]. injection Hp as ->. destruct ms as [|y ms]; [done|].
  injection Hm as ->. by destruct Hms.
Qed.
Lemma splice_paired ms s e m :
  paired ms -> 1 <= s -> s < e -> e <= length ms ->
  result_is_for_previous_tool_use ms s = false -> boundary_splits_tool_pair ms e = false ->
  message_tool_use_ids m = [] -> message_tool_result_ids m = [] -> paired (take s ms ++ m :: drop e ms).
Proof.
  intros [Hr Hu] H1 Hse He Hs Hb Huse Hres. split.
  - apply results_paired_app. split.
    { rewrite <-(take_drop s ms) in Hr. by apply results_paired_app in Hr as [Hr _]. }
    split; [intros id; rewrite Hres; by intros ?%elem_of_nil|].
    destruct (drop e ms) as [|x rest] eqn:Ed; [done|].
    assert (ms !! e = Some x) as Hx by (rewrite <-(Nat.add_0_r e), <-lookup_drop, Ed; done).
    pose proof Hr as Hr'. rewrite <-(take_drop e ms) in Hr'. apply results_paired_app in Hr' as [_ Hr'].
    rewrite Ed in Hr'. destruct Hr' as [_ Hrest]. split; [|done]. intros id Hid. exfalso.
    destruct e as [|e]; [lia|]. destruct (lookup_lt_is_Some_2 ms e) as [p Hp]; [lia|].
    pose proof (results_paired_lookup None ms e p x Hr Hp Hx id Hid) as Hid'.
    unfold boundary_splits_tool_pair in Hb. rewrite (pair_detected ms e x p id Hx Hp Hid Hid') in Hb.
    apply lookup_lt_Some, Nat.ltb_lt in Hx. by rewrite Hx in Hb.
  - apply uses_paired_app.
    + apply (uses_paired_take _ (drop s ms)); [by rewrite take_drop|]. apply cut_before_settled; [done|done|lia].
    + split; [intros _ id; rewrite Huse; by intros ?%elem_of_nil|].
      apply (uses_paired_drop (take e ms)). by rewrite take_drop.
Qed.
Lemma summary_paired `{!Serde json} ms summary : paired ms -> paired (apply_message_summary ms summary).1.
Proof.
  intros Hp. destruct summary as [v|t|text s e]; [done|done|].
  destruct (summary_refused ms text s e) eqn:Er; [by unfold apply_message_summary; rewrite Er|].
  destruct (apply_message_summary_splice ms text s e Er) as [t ->].
  unfold summary_refused in Er. repeat (apply orb_false_iff in Er as [Er ?]).
  repeat match goal with
         | Hb : (_ <=? _) = false |- _ => apply Nat.leb_gt in Hb
         | Hb : (_ =? _) = false |- _ => apply Nat.eqb_neq in Hb
         | Hb : (_ <? _) = false |- _ => apply Nat.ltb_ge in Hb end.
  apply splice_paired; try done; lia.
Qed.
