(* ===== verification/TurnLoop.v ===== *)
(** The loop of a task ([aura-agent/src/agent_loop/sampling.rs, turn.rs, task.rs,
    stop_reason.rs, compaction_summary.rs],
    [aura-context-prompts/src/auxiliary/compaction.rs]): a task runs turns while the
    user keeps sending input, a turn runs sampling requests while the model asks for
    more, a sampling request prepares the transcript, streams a response and runs its
    calls.

    What the outside decides is one [SamplingEnv] per sampling request, in the order
    they are made; the loops take fuel, and are undecided ([None]) when it runs out
    or when a response stream stays open: then the code has not returned. *)
From S2P Require Import Prelude Values Utf8 Text CoreTypes Exec Context ModelRequest Compaction LoopTypes.
From S2P Require Import Steering ToolCache TextScrub Sanitize InputQueue LoopState ToolPipeline StreamPump.
From stdpp Require Import list.
From Stdlib Require Import Ascii Strings.Byte SpecFloat.

(** * The summary of an old stretch of conversation *)
Definition PROMPT_COMPACTION_MAX_BLOCK_CHARS : Z := 4000.
Definition COMPACTION_SUMMARY_SYSTEM_PROMPT : string :=
  "Summarize compacted conversation history for a coding agent. Preserve concrete decisions, files, tool outcomes, errors, and unresolved tasks. Do not invent facts.".
Definition COMPACTABLE_MIDDLE_HEADER : string := nl +++ "## Compactable Middle History" +++ nl.
Definition RECENT_TAIL_HEADER : string := nl +++ "## Recent Tail Kept Verbatim" +++ nl.
Definition truncate_for_summary_prompt (text : string) : string :=
  if (str_len text <=? PROMPT_COMPACTION_MAX_BLOCK_CHARS)%Z then text
  else truncate_content text PROMPT_COMPACTION_MAX_BLOCK_CHARS (Some 2000%Z) (Some 1000%Z).
Definition role_debug (r : Role) : string :=
  match r with Role_User => "User" | Role_Assistant => "Assistant" end.
Definition bool_display (b : bool) : string := if b then "true" else "false".
(** [build_compact_summary_user_prompt], the header's numbers read off the input. *)
Definition build_compact_summary_user_prompt (input : SummaryInput) (middle tail : string) : string :=
  "Summarize the compactable middle history below into no more than about "
  +++ fmt_Z (si_max_summary_chars input) +++ " characters." +++ nl
  +++ "The live transcript was " +++ fmt_Z (si_original_chars input)
  +++ " chars before local compaction and " +++ fmt_Z (si_local_chars input)
  +++ " chars after local compaction." +++ nl
  +++ "Target total transcript chars after summary: " +++ fmt_Z (si_target_total_chars input) +++ "." +++ nl
  +++ "Keep exact file paths, tool names, important outputs, decisions, and unresolved errors." +++ nl
  +++ COMPACTABLE_MIDDLE_HEADER +++ middle +++ RECENT_TAIL_HEADER +++ tail.

Section Summary.
Context `{JsonText}.
Definition render_block (b : ContentBlock) : string :=
  match b with
  | ContentBlock_Text text => "text:" +++ nl +++ truncate_for_summary_prompt text +++ nl
  | ContentBlock_Thinking thinking _ => "thinking:" +++ nl +++ truncate_for_summary_prompt thinking +++ nl
  | ContentBlock_ToolUse id name input =>
      "tool_use id=" +++ id +++ " name=" +++ name +++ " input=" +++ json_to_string input +++ nl
  | ContentBlock_ToolResult id content is_error =>
      "tool_result id=" +++ id +++ " is_error=" +++ bool_display is_error +++ ":" +++ nl
      +++ match content with
          | ToolResultContent_Text text => truncate_for_summary_prompt text
          | ToolResultContent_Json value => json_to_string value
          end +++ nl
  | ContentBlock_Image _ => "image: [omitted]" +++ nl
  end.
Definition render_summary_message (idx : nat) (m : Message) : string :=
  foldl (fun out b => out +++ render_block b)
    (nl +++ "### Message " +++ fmt_Z (Z.of_nat idx) +++ " (" +++ role_debug (msg_role m) +++ ")" +++ nl) (msg_content m).
Definition render_message_block (messages : list Message) : string :=
  foldl (fun out s => out +++ s) "" (imap render_summary_message messages).
Definition render_user_prompt (input : SummaryInput) : string :=
  build_compact_summary_user_prompt input (render_message_block (si_compactable_messages input))
    (render_message_block (si_recent_tail input)).

Context `{Hblake : Blake3} `{Hhex : Hex}.
Definition build_summary_request (display : spec_float -> string) (config : AgentLoopConfig)
    (input : SummaryInput) : result RequestError ModelRequestData :=
  try_build display {|
    mb_model := lc_model config; mb_system := COMPACTION_SUMMARY_SYSTEM_PROMPT;
    mb_messages := [Message_user (render_user_prompt input)]; mb_tools := [];
    mb_tool_choice := ToolChoice_None;
    mb_max_tokens := clamp 256 4096 (si_max_summary_chars input / CHARS_PER_TOKEN);
    mb_temperature := None; mb_thinking := None; mb_thinking_effort := Some ThinkingEffort_Off;
    mb_parallel_tool_use := true; mb_auth_token := lc_auth_token config;
    mb_upstream_provider_family := lc_upstream_provider_family config;
    mb_aura_project_id := lc_aura_project_id config; mb_aura_agent_id := lc_aura_agent_id config;
    mb_aura_session_id := lc_aura_session_id config; mb_aura_org_id := lc_aura_org_id config;
    mb_prompt_cache_key := lc_prompt_cache_key config;
    mb_prompt_cache_retention := parse_cache_retention (lc_prompt_cache_retention config);
    mb_metadata := {| md_kind := Some ModelRequestKind_Auxiliary |} |}.
End Summary.

(** * What the outside decides *)
Record SamplingEnv := {
  (** What draining the input queue gave at the top of the iteration; [None] when the
      cancellation token won. *)
  se_drained : option (list UserInput);
  (** The cancellation token, before the request and after it. *)
  se_cancelled_before : bool;
  se_cancelled_summary : bool;
  se_cancelled_after : bool;
  se_plan_signal : bool;
  se_steering : SteeringConfig;
  se_compaction : CompactionEnv;
  (** The buffered provider call behind the summary. *)
  se_complete : ModelRequestData -> result LlmCallError ResponseData;
  se_max_retries : nat;
  (** The attempts to stream the request. *)
  se_attempts : ModelRequestData -> nat -> Attempt;
  se_build : option AutoBuildResult;
  (** [has_pending] as the turn reads it and as the task reads it afterwards. *)
  se_pending_turn : bool;
  se_pending_task : bool;
}.

Record SamplingRequestResult := {
  srr_needs_follow_up : bool;
  srr_broke_for_error : bool;
  srr_produced_visible_output : bool;
  srr_scrubbed_tool_markup : bool;
}.
Definition sampling_failed : SamplingRequestResult :=
  {| srr_needs_follow_up := false; srr_broke_for_error := true; srr_produced_visible_output := false;
     srr_scrubbed_tool_markup := false |}.

Section Loop.
Context `{Hjson : !Serde json} `{JsonText} `{JsonFromStr} `{DefaultHasher} `{SteeringText}
  `{Blake3} `{Hex} (display : spec_float -> string).
Implicit Types (env : SamplingEnv) (config : AgentLoopConfig) (s : LoopState).

Definition apply_summary_compaction env config (input : SummaryInput) s : LoopState :=
  if se_cancelled_summary env then s
  else
    match build_summary_request display config input with
    | Err _ => s
    | Ok request =>
        match se_complete env request with
        | Err _ => s
        | Ok response =>
            let text := str_join (nl +++ nl) (omap as_text (msg_content (rd_message response))) in
            if trim_is_empty text then s
            else snd (apply_summary_output (se_compaction env)
                        (SummaryOutput_Messages text (si_compact_start input) (si_compact_end input)) s)
        end
    end.

(** The transcript made ready for a request. *)
Definition prepare env config (iteration : Z) s : LoopState :=
  let s := begin_iteration (se_steering env) config iteration (se_plan_signal env) s in
  match compact_if_needed (se_compaction env) config iteration s with
  | (CompactionAction_NeedsSummary input, s) => apply_summary_compaction env config input s
  | (_, s) => s
  end.

(** [None] while the response stream is open. *)
Definition run_sampling_request env config (tools : list ToolDefinition) (iteration : Z) s
  : option SamplingRequestResult * LoopState :=
  if se_cancelled_before env then (Some sampling_failed, s)
  else
    let s := prepare env config iteration s in
    match build_request display config tools iteration s with
    | Err (RequestError_Internal m) =>
        (Some sampling_failed, s <| ls_result := llm_error_apply (LlmCallError_Fatal m) (ls_result s) |>)
    | Ok request =>
        match sample (se_max_retries env) (se_attempts env request) s with
        | (Err e, s) => (Some sampling_failed, s <| ls_result := llm_error_apply e (ls_result s) |>)
        | (Ok Transport_Cancelled, s) => (Some sampling_failed, s)
        | (Ok Transport_Open, s) => (None, s)
        | (Ok (Transport_Streamed response results), s) =>
            let visible := response_has_visible_output response in
            let '(scrubbed, s) := accumulate_response response s in
            let s := s <| ls_result := (ls_result s) <| lr_iterations := (iteration + 1)%Z |> |> in
            if se_cancelled_after env && match results with [] => true | _ => false end then
              (Some {| srr_needs_follow_up := false; srr_broke_for_error := true;
                       srr_produced_visible_output := visible; srr_scrubbed_tool_markup := scrubbed |}, s)
            else
              let '(stop, s) := dispatch config (se_build env) response results s in
              (Some {| srr_needs_follow_up := negb stop; srr_broke_for_error := lr_stalled (ls_result s);
                       srr_produced_visible_output := visible; srr_scrubbed_tool_markup := scrubbed |}, s)
        end
    end.

(** * Turns *)
Definition last_of_role (role : Role) (messages : list Message) : option Message :=
  List.find (fun m => bool_decide (msg_role m = role)) (reverse messages).
Definition is_planning_request (messages : list Message) : bool :=
  let text := to_ascii_lowercase
    (from_option (fun m => str_join " " (omap as_text (msg_content m))) "" (last_of_role Role_User messages)) in
  existsb (fun p => starts_with p (trim_start text))
    ["plan"; "outline"; "explain"; "how "; "what "; "draft a plan"; "can you explain"]
  || existsb (fun m => contains m text) ["don't implement"; "do not implement"; "planning only"; "plan only"].
Definition last_sentence (text : string) : string :=
  trim (rsplit_first ". " (rsplit_first nl
    (trim_end_matches (fun c => bool_decide (c = "."%char) || bool_decide (c = "!"%char)) (trim text)))).
Definition strip_promise (sentence : string) : option string :=
  head (omap (fun p => str_strip_prefix p sentence) ["i'll "; "i’ll "; "i will "]).
Definition ends_with_unfinished_action (messages : list Message) : bool :=
  match last_of_role Role_Assistant messages with
  | None => false
  | Some m =>
      let text := to_ascii_lowercase (str_join nl (omap as_text (msg_content m))) in
      if contains_char "?"%char text
         || existsb (fun marker => contains marker text)
              ["please "; "blocked"; "cannot "; "can't "; "need your"; "waiting for"; "tomorrow"; "later";
               "next build"; "if you"; "once you"; "when you"; "after you"; "approval"; "permission"]
      then false
      else
        let sentence := last_sentence text in
        if bool_decide (sentence = "doing it now") then true
        else match strip_promise sentence with
             | None => false
             | Some action =>
                 existsb (fun verb => starts_with verb action)
                   ["read "; "check "; "find "; "locate "; "run "; "test "; "verify "; "edit "; "write ";
                    "patch "; "fix "; "remove "; "delete "; "update "; "implement "; "search "]
             end
  end.
Definition MAX_NO_OP_TURN_NUDGES : Z := 1.
Definition MAX_LEAKED_MARKUP_NUDGES : Z := 1.
Definition NO_OP_TURN_NUDGE : string :=
  "Your previous turn ended without sending a response to the user or making any changes. If the request needs action, continue and complete it now; otherwise reply to the user directly.".
Definition UNFINISHED_ACTION_NUDGE : string :=
  "You ended your response by promising an immediate action, but ended the turn before performing it. Use the available tools to carry out the authorized request now. If you are blocked or need a decision, explain that clearly instead of promising work that will not run.".
Definition LEAKED_TOOL_MARKUP_NUDGE : string :=
  "Your previous message wrote tool-call syntax as plain text, so no tool actually ran and the work is unfinished. Re-issue the tool call using the native tool-calling mechanism — do not write tool invocations (such as <function_calls>, <invoke>, or [tool_use ...]) as text.".

Record TurnOutcome := { to_terminated_cleanly : bool; to_broke_for_error : bool; to_sampling_count : Z }.
Inductive TaskError :=
| TaskError_TurnBudgetExceeded (limit : Z)
| TaskError_IterationBudgetExceeded (limit : Z).
(** The locals of [run_turn]. *)
Record TurnLocals := {
  tl_sampling_count : Z;
  tl_had_visible_output : bool;
  tl_no_op_nudges : Z;
  tl_markup_nudges : Z;
  tl_unfinished_nudges : Z;
}.
#[export] Instance TurnLocals_eta : Settable TurnLocals := fun l =>
  Build_TurnLocals (tl_sampling_count l) (tl_had_visible_output l) (tl_no_op_nudges l) (tl_markup_nudges l)
    (tl_unfinished_nudges l).
Definition TurnLocals_new : TurnLocals :=
  {| tl_sampling_count := 0; tl_had_visible_output := false; tl_no_op_nudges := 0; tl_markup_nudges := 0;
     tl_unfinished_nudges := 0 |}.

Definition push_steer (instruction : string) s : LoopState :=
  s <| ls_messages := apply_user_inputs_to_messages (ls_messages s) [UserInput_Steer instruction] |>.
(** The guards of a model that stopped: a nudge and another request, or the end. *)
Definition stop_guards config (recover : bool) (r : SamplingRequestResult) (l : TurnLocals) s
  : option (TurnLocals * LoopState) :=
  let auto := lc_auto_continue_no_op_turns config in
  if recover && negb (ls_task_done_completed s) && ends_with_unfinished_action (ls_messages s)
     && (auto && (tl_unfinished_nudges l <? MAX_NO_OP_TURN_NUDGES)%Z) then
    Some (l <| tl_unfinished_nudges := (tl_unfinished_nudges l + 1)%Z |>, push_steer UNFINISHED_ACTION_NUDGE s)
  else if srr_scrubbed_tool_markup r && (auto && (tl_markup_nudges l <? MAX_LEAKED_MARKUP_NUDGES)%Z) then
    Some (l <| tl_markup_nudges := u32_saturating_add (tl_markup_nudges l) 1 |>, push_steer LEAKED_TOOL_MARKUP_NUDGE s)
  else if negb (tl_had_visible_output l) && negb (ls_had_any_write s) && negb (ls_task_done_completed s)
          && (auto && (tl_no_op_nudges l <? MAX_NO_OP_TURN_NUDGES)%Z) then
    Some (l <| tl_no_op_nudges := u32_saturating_add (tl_no_op_nudges l) 1 |>, push_steer NO_OP_TURN_NUDGE s)
  else None.

(** One pass through the body of the turn's loop: it ends the turn, or goes on with
    new locals.  The third component tells whether a sampling request was made. *)
Inductive TurnStep :=
| Turn_ends (outcome : TurnOutcome)
| Turn_fails (e : TaskError)
| Turn_continues (l : TurnLocals)
(** The request's stream is open. *)
| Turn_waits.
Definition turn_step env config (tools : list ToolDefinition) (recover : bool) (iteration_offset : Z)
    (l : TurnLocals) s : TurnStep * bool * LoopState :=
  let iteration := u32_saturating_add iteration_offset (tl_sampling_count l) in
  match se_drained env with
  | None =>
      (Turn_ends {| to_terminated_cleanly := false; to_broke_for_error := true;
                    to_sampling_count := tl_sampling_count l |}, false, s)
  | Some inputs =>
      let s := s <| ls_messages := apply_user_inputs_to_messages (ls_messages s) inputs |> in
      if negb (lc_max_iterations config =? usize_max)%Z && (lc_max_iterations config <=? iteration)%Z then
        (Turn_fails (TaskError_IterationBudgetExceeded (lc_max_iterations config)), false, s)
      else
        match run_sampling_request env config tools iteration s with
        | (None, s) => (Turn_waits, true, s)
        | (Some r, s) =>
            let l := l <| tl_sampling_count := u32_saturating_add (tl_sampling_count l) 1 |>
                       <| tl_had_visible_output := tl_had_visible_output l || srr_produced_visible_output r |> in
            let ends clean broke :=
              Turn_ends {| to_terminated_cleanly := clean; to_broke_for_error := broke;
                           to_sampling_count := tl_sampling_count l |} in
            if srr_broke_for_error r then (ends false true, true, s)
            else if srr_needs_follow_up r then
              let '(break, s) := run_turn_stop_hooks config iteration s in
              if break then (ends false true, true, s) else (Turn_continues l, true, s)
            else if se_pending_turn env then (Turn_continues l, true, s)
            else if lr_output_truncated (ls_result s) then (ends false false, true, s)
            else match stop_guards config recover r l s with
                 | Some (l, s) => (Turn_continues l, true, s)
                 | None => (ends true false, true, s)
                 end
        end
  end.

(** [world] numbers the passes from the start of the task. *)
Fixpoint turn_loop (fuel : nat) (world : nat -> SamplingEnv) config (tools : list ToolDefinition)
    (recover : bool) (iteration_offset : Z) (pass requests : nat) (l : TurnLocals) s
  : option (result TaskError TurnOutcome * nat * nat * LoopState) :=
  match fuel with
  | O => None
  | S fuel =>
      let '(step, sampled, s) := turn_step (world pass) config tools recover iteration_offset l s in
      let requests := if sampled then S requests else requests in
      match step with
      | Turn_ends o => Some (Ok o, S pass, requests, s)
      | Turn_fails e => Some (Err e, S pass, requests, s)
      | Turn_continues l => turn_loop fuel world config tools recover iteration_offset (S pass) requests l s
      | Turn_waits => None
      end
  end.
Definition run_turn (fuel : nat) (world : nat -> SamplingEnv) config (tools : list ToolDefinition)
    (iteration_offset : Z) (pass requests : nat) s :=
  let recover := match tools with [] => false | _ => true end && negb (is_planning_request (ls_messages s)) in
  turn_loop fuel world config tools recover iteration_offset pass requests TurnLocals_new s.

(** * Tasks *)
Fixpoint task_loop (fuel turn_fuel : nat) (world : nat -> SamplingEnv) config (tools : list ToolDefinition)
    (turn_index iteration_offset : Z) (pass requests : nat) s
  : option (result TaskError LoopState * nat) :=
  match fuel with
  | O => None
  | S fuel =>
      if (lc_max_turns_per_task config <=? turn_index)%Z then
        Some (Err (TaskError_TurnBudgetExceeded (lc_max_turns_per_task config)), requests)
      else if (lc_max_iterations_per_task config <=? iteration_offset)%Z then
        Some (Err (TaskError_IterationBudgetExceeded (lc_max_iterations_per_task config)), requests)
      else
        match run_turn turn_fuel world config tools iteration_offset pass requests s with
        | None => None
        | Some (Err e, _, requests, _) => Some (Err e, requests)
        | Some (Ok o, pass, requests, s) =>
            let iteration_offset := u32_saturating_add iteration_offset (to_sampling_count o) in
            let turn_index := u32_saturating_add turn_index 1 in
            if to_broke_for_error o || negb (to_terminated_cleanly o) then Some (Ok s, requests)
            else if se_pending_task (world (Nat.pred pass)) then
              task_loop fuel turn_fuel world config tools turn_index iteration_offset pass requests s
            else Some (Ok s, requests)
        end
  end.
(** [run_task]: its result and the number of sampling requests it made; [baseline]
    is the build baseline the executor captured. *)
Definition run_task (fuel turn_fuel : nat) (world : nat -> SamplingEnv) config (messages : list Message)
    (tools : list ToolDefinition) (baseline : option (list string))
  : option (result TaskError AgentLoopResult * nat) :=
  let s := (LoopState_new config messages) <| ls_build_baseline := baseline |> in
  match task_loop fuel turn_fuel world config tools 0 0 0 0 s with
  | None => None
  | Some (Err e, requests) => Some (Err e, requests)
  | Some (Ok s, requests) =>
      Some (Ok ((ls_result s) <| lr_task_done_completed := ls_task_done_completed s |>
                              <| lr_messages := ls_messages s |>), requests)
  end.
End Loop.
