(* ===== verification/TurnLoopProps.v ===== *)
(** Correctness of the loop of a task: every request carries a transcript in which
    calls and results are paired, a task hands such a transcript back, and a task
    with a finite budget ends within it. *)
From S2P Require Import Prelude Values Permissions Utf8 Text CoreTypes Exec Context ModelRequest Compaction.
From S2P Require Import CompactionProps LoopTypes Steering ToolCache TextScrub Sanitize InputQueue.
From S2P Require Import LoopState ToolPipeline StreamPump StreamPumpProps Pairing TurnLoop.
From stdpp Require Import list.
From Stdlib Require Import Ascii Strings.Byte SpecFloat.

(** * The transcript of a request *)
(** A transcript a request may carry. *)
Definition sendable (ms : list Message) : Prop := starts_with_user ms /\ paired ms.
Lemma repair_sendable ms : sendable (validate_and_repair ms).
Proof. split; [by destruct (validate_and_repair_ok ms)|apply repair_paired]. Qed.

Section Loop.
Context `{Hjson : !Serde json} `{JsonText} `{JsonFromStr} `{DefaultHasher} `{SteeringText}
  `{Blake3} `{Hex} (display : spec_float -> string).
Implicit Types (config : AgentLoopConfig) (s : LoopState).

Lemma compact_none ms p : report_action (compact_messages ms p).2 = CompactionAction_None -> (compact_messages ms p).1 = ms.
Proof.
  unfold compact_messages. cbn [fst snd report_action].
  destruct (tier_for (effective_pressure ms p)) as [tier|]; [|done].
  destruct (f64_ge _ _); [|done]. by destruct (build_summary_input _ _ _ _).
Qed.
Lemma compact_if_needed_sendable env config iteration s :
  sendable (ls_messages (compact_if_needed env config iteration s).2).
Proof.
  unfold compact_if_needed. destruct (ce_disabled env); [apply repair_sendable|].
  destruct (lc_max_context_tokens config); [|apply repair_sendable].
  destruct (ce_blocked _ _); [apply repair_sendable|].
  match goal with |- context [compact_messages ?ms ?p] => pose proof (compact_none ms p) as Hnone;
    destruct (compact_messages ms p) as [ms' r] end.
  cbn [fst snd] in Hnone. destruct (report_action r); [rewrite Hnone by done; apply repair_sendable|..];
    apply repair_sendable.
Qed.
Lemma summary_sendable ms summary : sendable ms -> sendable (apply_message_summary ms summary).1.
Proof.
  intros [(m & rest & -> & Hm) Hp]. split; [|by apply summary_paired].
  destruct summary as [v|t|text s e]; [by exists m, rest..|].
  destruct (summary_refused (m :: rest) text s e) eqn:Er;
    [by unfold apply_message_summary; rewrite Er; exists m, rest|].
  destruct (apply_message_summary_splice _ _ _ _ Er) as [t ->]. unfold summary_refused in Er.
  repeat (apply orb_false_iff in Er as [Er ?]). destruct s as [|s]; [done|]. by eexists m, _.
Qed.
Lemma apply_summary_sendable env summary s :
  sendable (ls_messages s) -> sendable (ls_messages (apply_summary_output env summary s).2).
Proof.
  intros Hs. unfold apply_summary_output. destruct (ce_disabled env); [done|].
  pose proof (summary_sendable (ls_messages s) summary Hs) as Hsum.
  destruct (apply_message_summary (ls_messages s) summary) as [ms r]. destruct (negb (reduced r)); [done|].
  apply repair_sendable.
Qed.
Lemma prepare_sendable env config iteration s : sendable (ls_messages (prepare display env config iteration s)).
Proof.
  unfold prepare. set (s1 := begin_iteration _ _ _ _ _).
  pose proof (compact_if_needed_sendable (se_compaction env) config iteration s1) as Hc.
  destruct (compact_if_needed (se_compaction env) config iteration s1) as [action s2]. cbn [snd] in Hc.
  destruct action as [| |input]; [done|done|]. unfold apply_summary_compaction.
  destruct (se_cancelled_summary env); [done|]. destruct (build_summary_request _ _ _) as [r|e]; [|done].
  destruct (se_complete env r) as [resp|e]; [|done]. destruct (trim_is_empty _); [done|].
  by apply apply_summary_sendable.
Qed.

(** * The pump *)
Lemma drive_stream_paired env steps s o s' :
  drive_stream env steps s = (o, s') -> paired (ls_messages s) -> paired (ls_messages s').
Proof.
  unfold drive_stream. destruct (drive_events env steps DriveLocals_new s) as [[ended l] s1] eqn:Ed.
  intros Hd Hp. assert (paired (ls_messages s1)) as Hp1.
  { refine (proj1 (drive_events_inv env (fun _ s => paired (ls_messages s)) _ _ _ _ _ _ _ Ed Hp)).
    split; [done|split; [done|split; [done|]]]. intros l0 s0 call pending l' s2. unfold handle_tool_use_event.
    destruct (partition_circling_duplicate_reads _ _ _) as [[|b bs] allowed];
      [destruct (split_cached _ _) as [cached uncached]|]; intros [= _ <-] Hp0; [|done].
    by apply apply_user_inputs_paired. }
  revert Hd. destruct ended as [o'|[[et sr] u]].
  - destruct o'; try (by intros [= _ <-]). by destruct (dl_calls_seen l); intros [= _ <-].
  - destruct (pe_drain_cancelled env); [destruct (bool_decide _)|]; by intros [= _ <-].
Qed.
Lemma sample_paired max_retries attempts s r s' :
  sample max_retries attempts s = (r, s') -> paired (ls_messages s) -> paired (ls_messages s').
Proof.
  unfold sample, run_stream_pump. destruct (pump_attempts _ _ _ _ _ _) as [o s1] eqn:Ep. intros [= _ <-] Hp.
  pose proof (pump_attempts_settled attempts (S max_retries) 0 None None s (or_introl eq_refl)) as Hs.
  rewrite Ep in Hs. destruct (settled_by _ _ _ _) as [r'|] eqn:Es; [subst r'|by destruct Hs as [? [= _ <-]]].
  destruct (settled_inv _ _ _ _ _ Es) as (k & _ & Hk & _). revert Hk. unfold attempt_once.
  repeat (destruct (_ : bool); [by intros [= _ <-]|]).
  destruct (at_open (attempts k)) as [|e|env steps] eqn:Eo; [by intros [= _ <-]|by destruct e; intros [= _ <-]|].
  destruct (drive_stream env steps s) as [o' s2] eqn:Ed. pose proof (drive_stream_paired _ _ _ _ _ Ed Hp).
  by destruct o'; intros [= _ <-].
Qed.

(** * The response and its results *)
Lemma use_ids_calls m : message_tool_use_ids m = tc_id <$> omap call_of_block (msg_content m).
Proof.
  unfold message_tool_use_ids. induction (msg_content m) as [|b bs IH]; [done|].
  destruct b; cbn; rewrite ?IH; done.
Qed.
Lemma synthesized_no_results env l t : message_tool_result_ids (rd_message (synthesize_from env l t)) = [].
Proof.
  destruct t as [[et sr] u]. unfold message_tool_result_ids. cbn. rewrite !omap_app, !app_nil.
  split; [induction (dl_thinking_chunks l) as [|[? ?] r IH]; [done|exact IH]|].
  split; [induction (dl_text_chunks l) as [|? r IH]; [done|exact IH]|].
  induction (dl_calls_seen l) as [|? r IH]; [done|exact IH].
Qed.
Lemma streamed_facts resp results :
  streamed_ok resp results ->
  message_tool_result_ids (rd_message resp) = []
  /\ message_tool_use_ids (rd_message resp) = (fun p => tcr_tool_use_id (snd p)) <$> results
  /\ (rd_stop_reason resp = StopReason_EndTurn \/ rd_stop_reason resp = StopReason_StopSequence -> results = [])
  /\ (tool_calls resp = [] -> results = []).
Proof.
  intros [[Hc Hids] (env & l & t & ->)]. split; [apply synthesized_no_results|]. split; [|split].
  - rewrite use_ids_calls. fold (tool_calls (synthesize_from env l t)). rewrite <-Hc.
    clear Hc. induction Hids as [|[c r] rest Hr _ IH]; [done|]. cbn. by rewrite <-Hr, IH.
  - destruct t as [[et sr] u]. unfold synthesize_from in *. rewrite synthesized_calls in Hc. cbn.
    destruct (dl_calls_seen l) as [|c cs]; [by destruct results|].
    destruct sr as [[]|]; intros [Hx|Hx]; done.
  - intros Hnil. rewrite Hnil in Hc. by destruct results.
Qed.
Lemma omap_fmap_same {A B} (f : A -> option B) (g : A -> A) (l : list A) :
  (forall b, f (g b) = f b) -> omap f (g <$> l) = omap f l.
Proof. intros Hfg. induction l as [|b l IH]; [done|]. cbn. rewrite Hfg. cbn in IH. by rewrite IH. Qed.
Lemma sanitized_same m : same_ids m (sanitize_message m).1.
Proof.
  unfold same_ids, message_tool_use_ids, message_tool_result_ids. cbn [sanitize_message fst msg_role msg_content].
  rewrite !omap_fmap_same; [done|..]; intros b; cbn; destruct b; try done; cbn;
    by destruct (scrub_tool_markup text).
Qed.
Lemma accumulate_messages resp s :
  exists m, same_ids (rd_message resp) m /\ ls_messages (accumulate_response resp s).2 = ls_messages s ++ [m].
Proof.
  unfold accumulate_response. pose proof (sanitized_same (rd_message resp)) as Hs.
  destruct (sanitize_message (rd_message resp)) as [m scrubbed]. by exists m.
Qed.

(** * Running the calls *)
Lemma track_changes_messages (f : LoopState -> FileChange -> LoopState) changes s :
  (forall s c, ls_messages (f s c) = ls_messages s) -> ls_messages (foldl f s changes) = ls_messages s.
Proof. intros Hf. revert s. induction changes as [|c cs IH]; intros s; [done|]. cbn. by rewrite IH, Hf. Qed.
Lemma track_write_messages tool r s : ls_messages (track_write tool r s).2 = ls_messages s.
Proof.
  unfold track_write. destruct (path_arg tool).
  - cbn [snd]. by rewrite track_changes_messages.
  - destruct (tcr_file_changes r) as [|c cs]; [done|].
    by apply (track_changes_messages (fun s c => record_change (allow_reads (fc_path c) s) c) (c :: cs) s).
Qed.
Lemma track_read_messages path s : ls_messages (track_read path s) = ls_messages s.
Proof. unfold track_read. by case_match. Qed.
Lemma track_one_messages calls acc r : ls_messages (track_one calls acc r).2 = ls_messages acc.2.
Proof.
  destruct acc as [any s]. unfold track_one. destruct (find_call _ _) as [tool|]; [|done].
  set (s1 := s <| ls_steering := _ |>).
  match goal with |- context [if is_exploration_tool ?n then ?a else ?b] => set (s2 := if is_exploration_tool n then a else b) end.
  assert (ls_messages s2 = ls_messages s) as Hs2.
  { subst s2. destruct (is_exploration_tool _); [|done]. destruct (path_arg tool); [|done].
    destruct (tcr_is_error r); [done|]. by rewrite track_read_messages. }
  destruct (_ && _); [|done]. pose proof (track_write_messages tool r s2) as Hw.
  destruct (track_write tool r s2). cbn [snd] in *. congruence.
Qed.
Lemma track_effects_messages calls results s :
  ls_messages (track_tool_effects calls results s).2 = ls_messages s.
Proof.
  unfold track_tool_effects. change (ls_messages s) with (ls_messages (false, s).2). generalize (false, s).
  induction results as [|r rs IH]; intros acc; [done|]. cbn [foldl]. by rewrite IH, track_one_messages.
Qed.
Lemma process_messages config build pairs s stop s' :
  process_tool_results config build pairs s = (stop, s') ->
  (pairs = [] /\ s' = s)
  \/ exists texts, ls_messages s' = push_tool_result_message (ls_messages s) (snd <$> pairs) texts.
Proof.
  unfold process_tool_results. destruct pairs as [|p ps]; [intros [= _ <-]; by left|]. intros Hpr. right.
  pose proof (track_effects_messages (fst <$> p :: ps) (snd <$> p :: ps) s) as Ht.
  destruct (track_tool_effects _ _ s) as [any s1]. cbn [snd] in Ht.
  destruct (guard_failed_edits _ _ _ _) as [[stalled attempts] side].
  match type of Hpr with context [let '(_, _) := ?b in _] => destruct b as [build_text s2] eqn:Eb end.
  assert (ls_messages s2 = ls_messages s) as Hm2.
  { revert Eb. destruct (any && _); [|by intros [= _ <-]]. unfold run_auto_build.
    destruct build as [b|]; [|by intros [= _ <-]]. by destruct (ab_success b); intros [= _ <-]. }
  exists (side ++ option_list build_text). rewrite <-Hm2.
  destruct (ls_had_any_write s2);
    match type of Hpr with context [if existsb ?f ?l then _ else _] => destruct (existsb f l) end;
    by destruct stalled; injection Hpr as _ <-.
Qed.
Lemma omap_result_blocks (results : list ToolCallResult) :
  omap (fun b => match b with ContentBlock_ToolResult id _ _ => Some id | _ => None end) (result_block <$> results)
    = tcr_tool_use_id <$> results.
Proof. induction results as [|r rs IH]; [done|]. cbn. cbn in IH. by rewrite IH. Qed.
Lemma omap_none {A B} (f : A -> option B) (l : list A) : Forall (fun x => f x = None) l -> omap f l = [].
Proof. induction 1 as [|x l Hx _ IH]; [done|]. cbn. by rewrite Hx. Qed.
Lemma image_block_plain r b :
  image_block r = Some b -> exists source, b = ContentBlock_Image source.
Proof. unfold image_block. destruct (tcr_image r); cbn; [|done]. intros [= <-]. by eexists. Qed.
Lemma images_plain (results : list ToolCallResult) : Forall (fun b => exists source, b = ContentBlock_Image source) (omap image_block results).
Proof.
  apply Forall_forall. intros b (r & _ & Hr)%list_elem_of_omap. by eapply image_block_plain.
Qed.
(** The message with the results of a batch carries exactly their ids. *)
Lemma push_results_message ms results texts :
  results <> [] ->
  exists n, push_tool_result_message ms results texts = ms ++ [n] /\ msg_role n = Role_User
    /\ message_tool_use_ids n = [] /\ message_tool_result_ids n = tcr_tool_use_id <$> results.
Proof.
  intros Hne. unfold push_tool_result_message.
  destruct ((result_block <$> results) ++ _) as [|b bs] eqn:E; [by destruct results|].
  eexists. split; [reflexivity|]. split; [done|].
  assert (forall B (f : ContentBlock -> option B), (forall i, f (ContentBlock_Image i) = None) ->
    omap f (omap image_block results) = []) as Himg.
  { intros B f Hf. apply omap_none. eapply Forall_impl; [apply images_plain|]. by intros x [source ->]. }
  assert (forall B (f : ContentBlock -> option B), (forall t, f (ContentBlock_Text t) = None) ->
    omap f (ContentBlock_Text <$> texts) = []) as Htext.
  { intros B f Hf. apply omap_none, Forall_fmap, Forall_true. intros t. apply Hf. }
  unfold message_tool_use_ids, message_tool_result_ids. cbn [msg_content].
  rewrite <-E. split.
  - rewrite !omap_app, Himg, Htext by done. rewrite !app_nil_r. apply omap_none, Forall_fmap, Forall_true. done.
  - rewrite !omap_app, Himg, Htext by done. rewrite !app_nil_r. apply omap_result_blocks.
Qed.
Lemma process_paired config build pairs s stop s' ms m :
  process_tool_results config build pairs s = (stop, s') ->
  ls_messages s = ms ++ [m] -> paired ms -> message_tool_result_ids m = [] ->
  message_tool_use_ids m = (fun p => tcr_tool_use_id (snd p)) <$> pairs -> paired (ls_messages s').
Proof.
  intros Hpr Hs Hp Hres Huse. destruct (process_messages _ _ _ _ _ _ Hpr) as [[-> ->]|[texts Ht]].
  - rewrite Hs. by apply push_plain_paired.
  - destruct pairs as [|p ps].
    { injection Hpr as _ <-. rewrite Hs. by apply push_plain_paired. }
    rewrite Hs in Ht. destruct (push_results_message (ms ++ [m]) (snd <$> p :: ps) texts) as (n & Hn & ? & ? & Hr);
      [done|]. rewrite Ht, Hn, <-app_assoc. apply push_answered_paired; try done.
    rewrite Hr, Huse. by rewrite <-list_fmap_compose.
Qed.
Lemma dispatch_paired config build resp results s stop s' ms m :
  dispatch config build resp results s = (stop, s') -> streamed_ok resp results ->
  same_ids (rd_message resp) m -> ls_messages s = ms ++ [m] -> paired ms -> paired (ls_messages s').
Proof.
  intros Hd Hok (_ & Huse & Hres) Hs Hp.
  destruct (streamed_facts _ _ Hok) as (Hr & Hu & Hend & Hnil). rewrite Hr in Hres. rewrite Hu in Huse.
  assert (results = [] -> paired (ms ++ [m])) as Hplain
    by (intros ->; by apply push_plain_paired).
  revert Hd. unfold dispatch. destruct (rd_stop_reason resp) eqn:Esr.
  - intros [= _ <-]. cbn. rewrite Hs. apply Hplain, Hend. by left.
  - intros Hpr. by eapply process_paired.
  - match goal with |- context [process_tool_results config build results ?s0] => set (s1 := s0) end.
    destruct (match tool_calls resp with [] => (false, s1) | _ => process_tool_results config build results s1 end)
      as [stop1 s2] eqn:E.
    assert (paired (ls_messages s2)) as Hp2.
    { destruct (tool_calls resp) eqn:Et; [|by eapply process_paired].
      injection E as _ <-. cbn. rewrite Hs. by apply Hplain, Hnil. }
    destruct stop1; [by intros [= _ <-]|]. destruct (_ <=? _)%Z; intros [= _ <-]; [done|].
    by apply push_plain_paired.
  - intros [= _ <-]. cbn. rewrite Hs. apply Hplain, Hend. by right.
Qed.

(** * One request, one pass, one turn, one task *)
(** The executor labels a result with the call it was given. *)
Definition labelled (env : SamplingEnv) : Prop :=
  forall request i penv steps, at_open (se_attempts env request i) = Open_Stream penv steps -> answers penv.
Lemma sampling_paired env config tools iteration s r s' :
  labelled env -> run_sampling_request display env config tools iteration s = (r, s') ->
  paired (ls_messages s) -> paired (ls_messages s').
Proof.
  intros Hl. unfold run_sampling_request. destruct (se_cancelled_before env); [by intros [= _ <-]|].
  pose proof (prepare_sendable env config iteration s) as [_ Hp].
  destruct (build_request _ _ _ _ _) as [request|[m]]; [|by intros [= _ <-]].
  destruct (sample _ _ _) as [o s1] eqn:Es. pose proof (sample_paired _ _ _ _ _ Es Hp) as Hp1.
  destruct o as [[resp results| |]|e]; [|by intros [= _ <-]..].
  pose proof (sample_streamed _ _ _ _ _ _ (Hl request) Es) as Hok.
  destruct (accumulate_messages resp s1) as (m & Hm & Hs2).
  destruct (accumulate_response resp s1) as [scrubbed s2]. cbn [snd] in Hs2.
  destruct (_ && _) eqn:Ec.
  - intros [= _ <-] _. cbn. rewrite Hs2. destruct Hm as (_ & Hu & Hr).
    destruct (streamed_facts _ _ Hok) as (Hr0 & Hu0 & _). destruct results; [|by rewrite andb_false_r in Ec].
    apply push_plain_paired; [done|by rewrite <-Hu, Hu0|by rewrite <-Hr, Hr0].
  - destruct (dispatch _ _ _ _ _) as [stop s3] eqn:Ed. intros [= _ <-] _. by eapply dispatch_paired.
Qed.
Lemma stop_hooks_paired config iteration s :
  paired (ls_messages s) -> paired (ls_messages (run_turn_stop_hooks config iteration s).2).
Proof.
  intros Hp. unfold run_turn_stop_hooks. set (s1 := emit_checkpoint_if_needed s).
  assert (paired (ls_messages s1)) as Hp1.
  { subst s1. unfold emit_checkpoint_if_needed. destruct (_ || _); [done|]. by apply append_warning_paired. }
  set (s2 := check_budget_warnings _ _ s1). assert (paired (ls_messages s2)) as Hp2.
  { subst s2. unfold check_budget_warnings. destruct (_ =? _)%Z; [done|].
    destruct (check_budget_warning _ _ _) as [[w|] b]; [|done]. by apply append_warning_paired. }
  by destruct (should_stop_for_budget _ _ _).
Qed.
Lemma stop_guards_paired config recover r l s l' s' :
  stop_guards config recover r l s = Some (l', s') -> paired (ls_messages s) -> paired (ls_messages s').
Proof.
  unfold stop_guards. repeat (destruct (_ : bool)); intros [= _ <-] Hp; by apply apply_user_inputs_paired.
Qed.
Lemma turn_step_paired env config tools recover offset l s step sampled s' :
  labelled env -> turn_step display env config tools recover offset l s = (step, sampled, s') ->
  paired (ls_messages s) -> paired (ls_messages s').
Proof.
  intros Hl Ht Hp. revert Ht. unfold turn_step. destruct (se_drained env) as [inputs|]; [|by intros [= _ _ <-]].
  pose proof (apply_user_inputs_paired _ inputs Hp) as Hp0.
  destruct (_ && _); [by intros [= _ _ <-]|].
  destruct (run_sampling_request _ _ _ _ _ _) as [r s1] eqn:Es.
  pose proof (sampling_paired _ _ _ _ _ _ _ Hl Es Hp0) as Hp1. destruct r as [r|]; [|by intros [= _ _ <-]].
  destruct (srr_broke_for_error r); [by intros [= _ _ <-]|]. destruct (srr_needs_follow_up r).
  { match goal with |- context [run_turn_stop_hooks ?c ?i ?s] => pose proof (stop_hooks_paired c i s Hp1) as Hp2 end.
    destruct (run_turn_stop_hooks _ _ _) as [break s2]. by destruct break; intros [= _ _ <-]. }
  destruct (se_pending_turn env); [by intros [= _ _ <-]|].
  destruct (lr_output_truncated _); [by intros [= _ _ <-]|].
  destruct (stop_guards _ _ _ _ _) as [[l2 s2]|] eqn:Eg; intros [= _ _ <-]; [|done].
  by eapply stop_guards_paired.
Qed.
Lemma turn_loop_paired fuel world config tools recover offset pass requests l s r pass' requests' s' :
  (forall n, labelled (world n)) ->
  turn_loop display fuel world config tools recover offset pass requests l s = Some (r, pass', requests', s') ->
  paired (ls_messages s) -> paired (ls_messages s').
Proof.
  intros Hl. revert pass requests l s. induction fuel as [|fuel IH]; intros pass requests l s; [done|]. cbn.
  destruct (turn_step _ _ _ _ _ _ _ _) as [[step sampled] s1] eqn:Et. intros Hr Hp.
  pose proof (turn_step_paired _ _ _ _ _ _ _ _ _ _ (Hl pass) Et Hp) as Hp1.
  destruct step; [by injection Hr as <- <- <- <-|by injection Hr as <- <- <- <-|by eapply IH|done].
Qed.
Lemma task_loop_paired fuel turn_fuel world config tools turn offset pass requests s s' requests' :
  (forall n, labelled (world n)) ->
  task_loop display fuel turn_fuel world config tools turn offset pass requests s = Some (Ok s', requests') ->
  paired (ls_messages s) -> paired (ls_messages s').
Proof.
  intros Hl. revert turn offset pass requests s.
  induction fuel as [|fuel IH]; intros turn offset pass requests s; [done|]. cbn.
  destruct (_ <=? _)%Z; [done|]. destruct (_ <=? _)%Z; [done|].
  destruct (run_turn _ _ _ _ _ _ _ _ _) as [[[[[o|e] pass1] requests1] s1]|] eqn:Et; [|done..].
  intros Hr Hp. pose proof (turn_loop_paired _ _ _ _ _ _ _ _ _ _ _ _ _ _ Hl Et Hp) as Hp1.
  destruct (_ || _); [by injection Hr as <- _|].
  destruct (se_pending_task _); [by eapply IH|by injection Hr as <- _].
Qed.

(** C19: Every request a task sends carries a well-formed transcript, whatever the
    state it was prepared from: it starts with a user message, every tool result
    answers a call of the message before it and every call of the assistant is
    answered by the message after it - also right after compaction or a summary. *)
Theorem requests_sendable env config tools iteration s request :
  build_request display config tools iteration (prepare display env config iteration s) = Ok request ->
  sendable (mr_messages request).
Proof.
  intros Hb. assert (mr_messages request = ls_messages (prepare display env config iteration s)) as ->;
    [|apply prepare_sendable].
  revert Hb. unfold build_request, try_build. cbn.
  destruct (ModelName_try_new _); cbn; [|done]. destruct (MaxTokens_try_new _); cbn; [|done].
  by intros [= <-].
Qed.

(** C6: A task hands back a transcript in which every call is answered: whatever the
    provider, the executor and the user do, a task that starts from a paired
    transcript and comes to a result returns a paired transcript - after errors,
    cancellation in the middle of tool calls, output-limit recoveries, nudges and
    user input that arrived while the model was streaming. *)
Theorem task_transcript_paired fuel turn_fuel world config messages tools baseline result requests :
  (forall n, labelled (world n)) -> paired messages ->
  run_task display fuel turn_fuel world config messages tools baseline = Some (Ok result, requests) ->
  paired (lr_messages result).
Proof.
  intros Hl Hp. unfold run_task. destruct (task_loop _ _ _ _ _ _ _ _ _ _ _) as [[[s|e] n]|] eqn:Et; [|done..].
  intros [= <- _]. by eapply task_loop_paired.
Qed.

(** * Budgets *)
Section Budget.
Context (config : AgentLoopConfig).
Hypothesis Hmax : (0 <= lc_max_iterations config <= u32_max)%Z.
Lemma finite_budget : (lc_max_iterations config =? usize_max)%Z = false.
Proof. apply Z.eqb_neq. unfold u32_max, usize_max, u64_max in *. lia. Qed.

(** A stream that is over: it ended, failed, timed out, was cancelled or completed. *)
Definition ends_stream (step : StreamStep) : bool :=
  match step with
  | StreamStep_Event (ResponseEvent_Completed _ _ _) _ | StreamStep_Event (ResponseEvent_Error _) _ => true
  | StreamStep_Event _ _ => false
  | _ => true
  end.
Definition streams_end (env : SamplingEnv) : Prop :=
  forall request i penv steps,
    at_open (se_attempts env request i) = Open_Stream penv steps -> existsb ends_stream steps = true.
Lemma interrupted_not_open e none : (inl (interrupted_outcome e none) : StreamPumpOutcome + terminal) <> inl Pump_Open.
Proof. by destruct e, none. Qed.
Lemma drive_events_over penv steps l s :
  existsb ends_stream steps = true -> fst (fst (drive_events penv steps l s)) <> inl Pump_Open.
Proof.
  revert l s. induction steps as [|step steps IH]; intros l s; cbn [existsb]; [done|].
  destruct step as [e pending| | |ms|e]; cbn [drive_events ends_stream orb].
  2-5: intros _ E; cbn [fst] in E; first [discriminate E|by apply interrupted_not_open in E].
  destruct e as [[text|thinking sig|call|id name reason]|phase|chunk|chunk|et sr u|e];
    cbn [orb]; try (intros Hs; by apply IH); try done.
  - intros Hs. destruct (handle_tool_use_event _ _ _ _ _). by apply IH.
  - intros _ E. cbn [fst] in E. by apply interrupted_not_open in E.
Qed.
Lemma drive_stream_over penv steps s :
  existsb ends_stream steps = true -> fst (drive_stream penv steps s) <> Pump_Open.
Proof.
  intros Hs. unfold drive_stream. pose proof (drive_events_over penv steps DriveLocals_new s Hs) as Hd.
  destruct (drive_events _ _ _ _) as [[[o|[[et sr] u]] l] s1]; cbn in Hd.
  - destruct o; try done. by destruct (dl_calls_seen l).
  - destruct (pe_drain_cancelled penv); [destruct (bool_decide _)|]; done.
Qed.
Lemma pump_attempts_over attempts remaining index retry transport s :
  (forall i penv steps, at_open (attempts i) = Open_Stream penv steps -> existsb ends_stream steps = true) ->
  fst (pump_attempts attempts remaining index retry transport s) <> Pump_Open.
Proof.
  intros Hs. revert index retry transport s. induction remaining as [|rem IH]; intros index retry transport s; cbn.
  { unfold exhausted. by destruct transport. }
  destruct (at_cancelled _); [done|]. destruct (_ && _); [done|]. destruct (_ && _); [done|].
  destruct (at_open (attempts index)) as [|e|penv steps] eqn:Eo; [done|destruct e; first [discriminate|apply IH]|].
  pose proof (drive_stream_over penv steps s (Hs _ _ _ Eo)) as Hd.
  destruct (drive_stream penv steps s) as [o s1]. destruct o; try done; apply IH.
Qed.
Lemma sampling_over env tools iteration s :
  streams_end env -> fst (run_sampling_request display env config tools iteration s) <> None.
Proof.
  intros Hs. unfold run_sampling_request. destruct (se_cancelled_before env); [done|].
  destruct (build_request _ _ _ _ _) as [request|[m]]; [|done]. unfold sample, run_stream_pump.
  pose proof (pump_attempts_over (se_attempts env request) (S (se_max_retries env)) 0 None None
    (prepare display env config iteration s) (Hs request)) as Hp.
  destruct (pump_attempts _ _ _ _ _ _) as [o s1]. cbn in Hp.
  destruct o as [resp results| |[]| | |]; try done. destruct (accumulate_response _ _).
  destruct (_ && _); [done|]. by destruct (dispatch _ _ _ _ _).
Qed.

(** What a pass does to the count of samplings. *)
Lemma turn_step_counts env tools recover offset l s step sampled s' :
  streams_end env -> turn_step display env config tools recover offset l s = (step, sampled, s') ->
  (0 <= offset)%Z -> (0 <= tl_sampling_count l)%Z -> (offset + tl_sampling_count l <= lc_max_iterations config)%Z ->
  let count := (tl_sampling_count l + if sampled then 1 else 0)%Z in
  (offset + count <= lc_max_iterations config)%Z
  /\ match step with
     | Turn_ends o => to_sampling_count o = count
     | Turn_fails _ => sampled = false
     | Turn_continues l' => sampled = true /\ tl_sampling_count l' = count
     | Turn_waits => False
     end.
Proof.
  intros Hs Ht Hoff Hc Hle. revert Ht. unfold turn_step.
  assert (u32_saturating_add offset (tl_sampling_count l) = offset + tl_sampling_count l)%Z as ->
    by (unfold u32_saturating_add; lia).
  destruct (se_drained env); [|intros [= <- <- _]; cbn; lia]. rewrite finite_budget. cbn [negb andb].
  destruct (_ <=? _)%Z eqn:Eb; [intros [= <- <- _]; cbn; split; [lia|done]|]. apply Z.leb_gt in Eb.
  assert (u32_saturating_add (tl_sampling_count l) 1 = tl_sampling_count l + 1)%Z as ->
    by (unfold u32_saturating_add; lia).
  assert (forall r l3 s2 out, stop_guards config recover r l3 s2 = Some out ->
    tl_sampling_count (fst out) = tl_sampling_count l3) as Hg.
  { intros r l3 s2 out. unfold stop_guards. by repeat (destruct (_ : bool)); intros [= <-]. }
  match goal with |- context [run_sampling_request ?d ?e ?c ?t ?i ?s] =>
    pose proof (sampling_over e t i s Hs) as Hover; destruct (run_sampling_request d e c t i s) as [[r|] s1] end;
    [clear Hover|by destruct Hover].
  destruct (srr_broke_for_error r); [intros [= <- <- _]; cbn; lia|].
  destruct (srr_needs_follow_up r).
  { destruct (run_turn_stop_hooks _ _ _) as [break s2]. destruct break; intros [= <- <- _]; cbn; split; try done; lia. }
  destruct (se_pending_turn env); [intros [= <- <- _]; cbn; split; [lia|done]|].
  destruct (lr_output_truncated _); [intros [= <- <- _]; cbn; lia|].
  destruct (stop_guards _ _ _ _ _) as [[l2 s2]|] eqn:Eg; intros [= <- <- _]; cbn; [|lia].
  split; [lia|]. split; [done|]. by apply Hg in Eg.
Qed.
Lemma turn_loop_bounded fuel world tools recover offset pass requests l s :
  (forall n, streams_end (world n)) ->
  (0 <= offset)%Z -> (0 <= tl_sampling_count l)%Z ->
  (offset + tl_sampling_count l <= lc_max_iterations config)%Z ->
  (Z.of_nat requests <= offset + tl_sampling_count l)%Z ->
  (lc_max_iterations config - (offset + tl_sampling_count l) < Z.of_nat fuel)%Z ->
  exists r pass' requests' s',
    turn_loop display fuel world config tools recover offset pass requests l s = Some (r, pass', requests', s')
    /\ (Z.of_nat requests' <= lc_max_iterations config)%Z
    /\ match r with
       | Ok o => (0 <= to_sampling_count o /\ offset + to_sampling_count o <= lc_max_iterations config
                  /\ Z.of_nat requests' <= offset + to_sampling_count o)%Z
       | Err _ => True
       end.
Proof.
  intros Hs Hoff. revert pass requests l s. induction fuel as [|fuel IH]; intros pass requests l s Hc Hle Hreq Hf; [lia|].
  cbn [turn_loop]. destruct (turn_step _ _ _ _ _ _ _ _) as [[step sampled] s1] eqn:Et.
  destruct (turn_step_counts _ _ _ _ _ _ _ _ _ (Hs pass) Et Hoff Hc Hle) as [Hle1 Hstep].
  assert (Z.of_nat (if sampled then S requests else requests)
          <= offset + (tl_sampling_count l + if sampled then 1 else 0))%Z as Hreq1 by (destruct sampled; lia).
  destruct step as [o|e|l1|].
  - do 4 eexists. split; [reflexivity|]. split; [lia|]. destruct sampled; cbv iota beta in *; lia.
  - do 4 eexists. split; [reflexivity|]. split; [lia|done].
  - destruct Hstep as [-> Hl1]. apply IH; lia.
  - done.
Qed.
Lemma task_loop_bounded fuel turn_fuel world tools turn offset pass requests s :
  (forall n, streams_end (world n)) ->
  (0 <= lc_max_turns_per_task config <= u32_max)%Z ->
  (lc_max_iterations config < Z.of_nat turn_fuel)%Z ->
  (0 <= turn)%Z -> (0 <= offset <= lc_max_iterations config)%Z -> (Z.of_nat requests <= offset)%Z ->
  (lc_max_turns_per_task config - turn < Z.of_nat fuel)%Z -> 0 < fuel ->
  exists r requests',
    task_loop display fuel turn_fuel world config tools turn offset pass requests s = Some (r, requests')
    /\ (Z.of_nat requests' <= lc_max_iterations config)%Z.
Proof.
  intros Hs Hturns Htf. revert turn offset pass requests s.
  induction fuel as [|fuel IH]; intros turn offset pass requests s Ht Hoff Hreq Hf Hpos; [lia|]. cbn [task_loop].
  destruct (_ <=? turn)%Z eqn:Et; [do 2 eexists; split; [reflexivity|lia]|]. apply Z.leb_gt in Et.
  destruct (_ <=? offset)%Z; [do 2 eexists; split; [reflexivity|lia]|].
  unfold run_turn. destruct (turn_loop_bounded turn_fuel world tools
    (match tools with [] => false | _ => true end && negb (is_planning_request (ls_messages s)))
    offset pass requests TurnLocals_new s) as (r & pass1 & requests1 & s1 & -> & Hreq1 & Hr); try (cbn; lia); [done|].
  destruct r as [o|e]; [|by do 2 eexists]. destruct (_ || _); [by do 2 eexists|].
  destruct (se_pending_task _); [|by do 2 eexists].
  apply IH; unfold u32_saturating_add; lia.
Qed.
End Budget.

(** C5: A task with a finite budget ends within it, as long as every response stream
    it opens comes to an end (a keep-alive restarts the timeout of the pump, so a
    stream of keep-alives has none): with [max_iterations] and
    [max_turns_per_task] within 32 bits, [max_turns_per_task + 1] rounds of
    [max_iterations + 1] passes come to a result, whatever else the provider, the
    executor and the user do, and at most [max_iterations] sampling requests were
    made.  A sampling request stands for its retries and for the summary made before
    it; what a tool call or a summary call answers, its timeout included, is given. *)
Theorem task_ends_within_budget config world messages tools baseline :
  (0 <= lc_max_iterations config <= u32_max)%Z -> (0 <= lc_max_turns_per_task config <= u32_max)%Z ->
  (forall n, streams_end (world n)) ->
  exists result requests,
    run_task display (S (Z.to_nat (lc_max_turns_per_task config))) (S (Z.to_nat (lc_max_iterations config)))
      world config messages tools baseline = Some (result, requests)
    /\ (Z.of_nat requests <= lc_max_iterations config)%Z.
Proof.
  intros Hmax Hturns Hs. unfold run_task.
  edestruct (task_loop_bounded config Hmax (S (Z.to_nat (lc_max_turns_per_task config)))
    (S (Z.to_nat (lc_max_iterations config))) world tools 0 0 0 0) as (r & n & -> & Hn);
    [done|done|lia|lia|lia|lia|lia|lia|]. destruct r; by do 2 eexists.
Qed.
End Loop.

Module TurnLoopExample.
#[local] Existing Instances toy_blake3 lower_hex.
#[local] Instance braces : JsonText := fun _ => "{}".
#[local] Instance unread : JsonFromStr := fun _ => None.
#[local] Instance length_hash : DefaultHasher := fun b => Z.of_nat (length b).
#[local] Instance no_prose : SteeringText := fun _ => "note".
#[local] Instance json_bytes : Serde json := table_serde [JObject []].
Definition display (_ : spec_float) : string := "1".

Definition item (i : OutputItem) : StreamStep := StreamStep_Event (ResponseEvent_OutputItemDone i) [].
Definition completed (r : StopReason) : StreamStep :=
  StreamStep_Event (ResponseEvent_Completed None (Some r) (Usage_new 5 7)) [].
Definition penv : PumpEnv := {|
  pe_result := fun _ c => ToolCallResult_success (tc_id c) "ran"; pe_drain_cancelled := None;
  pe_steering := SteeringConfig_defaults; pe_model_name := "m" |}.
(** The model calls a tool and then has to say something. *)
Definition calls_tool (n : nat) : list StreamStep :=
  [item (OutputItem_ToolUse {| tc_id := fmt_Z (Z.of_nat n); tc_name := "run_command"; tc_input := JObject [] |});
   completed StopReason_ToolUse].
Definition answers_user : list StreamStep :=
  [item (OutputItem_Message "Done: all tests pass."); completed StopReason_EndTurn].
Definition pass (steps : list StreamStep) : SamplingEnv := {|
  se_drained := Some []; se_cancelled_before := false; se_cancelled_summary := false;
  se_cancelled_after := false; se_plan_signal := false; se_steering := SteeringConfig_defaults;
  se_compaction := {| ce_disabled := true; ce_summary_at := f64_lit 60 100; ce_blocked := fun _ => false |};
  se_complete := fun _ => Err (LlmCallError_Fatal "no");
  se_max_retries := 0;
  se_attempts := fun _ _ => {| at_cancelled := false; at_cancelled_waiting := false;
                               at_open := Open_Stream penv steps |};
  se_build := None; se_pending_turn := false; se_pending_task := false |}.
Lemma pass_labelled steps : labelled (pass steps).
Proof. intros r i e st [= <- _] k c. reflexivity. Qed.
(** Three passes that call a tool, then an answer. *)
Definition world (n : nat) : SamplingEnv := pass (if n <? 3 then calls_tool n else answers_user).
Definition config : AgentLoopConfig := for_agent "m".
Definition messages : list Message := [Message_user "fix it"].
Definition ran (config : AgentLoopConfig) : option (result TaskError AgentLoopResult * nat) :=
  run_task display 5 10 world config messages [] None.

Definition result_of (o : option (result TaskError AgentLoopResult * nat)) : AgentLoopResult :=
  match o with Some (Ok r, _) => r | _ => AgentLoopResult_default end.
Lemma task_transcript_paired_witness :
  length (lr_messages (result_of (ran config))) = 8 /\ paired (lr_messages (result_of (ran config))).
Proof.
  split; [vm_compute; reflexivity|].
  apply (task_transcript_paired display 5 10 world config messages [] None (result_of (ran config)) 4).
  - intros n. apply pass_labelled.
  - split; [split; [apply user_text_follows|exact I]|split; [discriminate|exact I]].
  - vm_compute. reflexivity.
Defined.

Definition tight : AgentLoopConfig := config <| lc_max_iterations := 3%Z |> <| lc_max_turns_per_task := 2%Z |>.
Lemma task_ends_within_budget_witness :
  exists result requests, run_task display 3 4 world tight messages [] None = Some (result, requests)
    /\ (Z.of_nat requests <= 3)%Z.
Proof.
  apply (task_ends_within_budget display tight world messages [] None); [split; discriminate..|].
  intros n request i penv steps. unfold world, pass. intros [= _ <-]. by destruct (n <? 3).
Defined.
(** A provider that sends keep-alives only: the task never comes back. *)
Definition silent (_ : nat) : SamplingEnv :=
  pass (replicate 100 (StreamStep_Event (ResponseEvent_Keepalive StreamPhase_Ping) [])).
Example keepalives_hang : run_task display 3 4 silent tight messages [] None = None.
Proof. vm_compute. reflexivity. Qed.

Definition torn : LoopState := LoopState_new config
  [Message_assistant "hm"; {| msg_role := Role_Assistant;
                              msg_content := [ContentBlock_ToolUse "a" "run_command" (JObject [])] |};
   Message_user "go on"].
Definition request : ModelRequestData :=
  match build_request display config [] 0 (prepare display (world 0) config 0 torn) with
  | Ok r => r
  | Err _ => {| mr_model := ""; mr_system := ""; mr_messages := []; mr_tools := []; mr_tool_choice := ToolChoice_Auto;
                mr_max_tokens := 1; mr_temperature := None; mr_thinking := None; mr_thinking_effort := None;
                mr_parallel_tool_use := true; mr_auth_token := None; mr_upstream_provider_family := None;
                mr_extra_headers := []; mr_aura_project_id := None; mr_aura_agent_id := None;
                mr_aura_session_id := None; mr_aura_org_id := None; mr_prompt_cache_key := None;
                mr_prompt_cache_retention := None; mr_metadata := {| md_kind := None |} |}
  end.
Lemma requests_sendable_witness : length (mr_messages request) = 3 /\ sendable (mr_messages request).
Proof.
  split; [vm_compute; reflexivity|].
  apply (requests_sendable display (world 0) config [] 0 torn request). vm_compute. reflexivity.
Defined.

(** A model that keeps calling tools gets one request fewer than [max_iterations]. *)
Lemma budget_stops_one_early :
  snd <$> ran tight = Some 2 /\ lr_timed_out (result_of (ran tight)) = true
  /\ lr_iterations (result_of (ran tight)) = 2%Z.
Proof. vm_compute. repeat split. Qed.

(** The cap on the iterations of a task is only looked at between turns. *)
Lemma task_cap_overrun :
  snd <$> ran (config <| lc_max_iterations_per_task := 1%Z |>) = Some 4
  /\ lr_iterations (result_of (ran (config <| lc_max_iterations_per_task := 1%Z |>))) = 4%Z.
Proof. vm_compute. split; reflexivity. Qed.

(** A summary that does not shrink the transcript is put in all the same, without
    the repair that would join the two assistant messages. *)
Definition short_history : list Message :=
  [Message_user "task"; Message_assistant "a"; Message_user "b"; Message_assistant "c"; Message_user "d";
   Message_assistant "e"; Message_user "f"].
Lemma summary_kept_unrepaired :
  let env := {| ce_disabled := false; ce_summary_at := f64_lit 60 100; ce_blocked := fun _ => false |} in
  let '(applied, s) := apply_summary_output env (SummaryOutput_Messages "they talked at length about it" 1 5)
                         (LoopState_new config short_history) in
  applied = false
  /\ msg_role <$> ls_messages s = [Role_User; Role_Assistant; Role_Assistant; Role_User].
Proof. vm_compute. split; reflexivity. Qed.
End TurnLoopExample.
