(* ===== verification/Automaton.v ===== *)
(** The automaton runtime ([aura-automaton]: [runtime.rs], [context.rs], [state.rs],
    [handle.rs], [events.rs], [error.rs]): how a long-running background task is
    installed, ticked, paused, stopped and reported on.

    What an automaton calls is the class [AutoEnv] over a world: the cancellation
    token, the pause switch, the event channel, the domain API, the model provider,
    the agent runner and the project's build.  Every call may change the world, so
    that other tasks may act between any two of them.  A tick is a computation over
    [Tick], which carries the world, the automaton's own state and the log of the
    calls it made. *)
From S2P Require Import Prelude Values Text.
From stdpp Require Import list.

(** * Data *)
Inductive AutomatonStatus :=
  | AutomatonStatus_Installing
  | AutomatonStatus_Running
  | AutomatonStatus_Paused
  | AutomatonStatus_Stopped
  | AutomatonStatus_Failed
  | AutomatonStatus_Completed.
#[export] Instance AutomatonStatus_eq_dec : EqDecision AutomatonStatus.
Proof. solve_decision. Defined.
(** [{:?}]. *)
Definition status_debug (s : AutomatonStatus) : string :=
  match s with
  | AutomatonStatus_Installing => "Installing"
  | AutomatonStatus_Running => "Running"
  | AutomatonStatus_Paused => "Paused"
  | AutomatonStatus_Stopped => "Stopped"
  | AutomatonStatus_Failed => "Failed"
  | AutomatonStatus_Completed => "Completed"
  end.
Inductive Schedule :=
  | Schedule_Continuous
  | Schedule_Interval (seconds : Z)
  | Schedule_Cron (expression : string)
  | Schedule_OnDemand
  | Schedule_EventDriven (event_filter : string).
Inductive TickOutcome := TickOutcome_Continue | TickOutcome_Done | TickOutcome_Yield (reason : string).

Inductive AutomatonEvent :=
  | AutomatonEvent_Started (automaton_id : string)
  | AutomatonEvent_Stopped (automaton_id reason : string)
  | AutomatonEvent_Paused (automaton_id : string)
  | AutomatonEvent_Resumed (automaton_id : string)
  | AutomatonEvent_Error (automaton_id message : string)
  | AutomatonEvent_TextDelta (task_id : option string) (text : string)
  | AutomatonEvent_ThinkingDelta (task_id : option string) (thinking : string)
  | AutomatonEvent_Progress (task_id : option string) (message : string)
  | AutomatonEvent_ToolCallStarted (task_id : option string) (id name : string)
  | AutomatonEvent_ToolCallSnapshot (task_id : option string) (id name : string) (input : json) (snapshot_partial : bool)
  | AutomatonEvent_ToolCallCompleted (task_id : option string) (id name : string) (input : json) (is_error : bool)
  | AutomatonEvent_ToolResult (task_id : option string) (id name result : string) (is_error : bool)
  | AutomatonEvent_TaskStarted (task_id task_title : string)
  | AutomatonEvent_TaskCompleted (task_id summary : string)
  | AutomatonEvent_TaskFailed (task_id reason : string)
  | AutomatonEvent_TaskDescriptionRefining (task_id : string)
  | AutomatonEvent_TaskDescriptionRefined (task_id : string)
  | AutomatonEvent_ToolCallRetrying (task_id tool_use_id tool_name : string) (attempt max_attempts delay_ms : Z) (reason : string)
  | AutomatonEvent_ToolCallFailed (task_id tool_use_id tool_name reason : string)
  | AutomatonEvent_LoopFinished (outcome : string) (completed_count failed_count : Z)
  | AutomatonEvent_SpecSaved (spec_id title : string)
  | AutomatonEvent_SpecsTitle (title : string)
  | AutomatonEvent_SpecsSummary (summary : string)
  | AutomatonEvent_TokenUsage (task_id : option string) (input_tokens output_tokens : Z)
  | AutomatonEvent_MessageSaved (message_id : string)
  | AutomatonEvent_AgentInstanceUpdated (instance_id : string)
  | AutomatonEvent_LogLine (message : string)
  | AutomatonEvent_Done
  | AutomatonEvent_DebugLlmCall (timestamp : Z) (provider model : string) (input_tokens output_tokens duration_ms : Z)
      (task_id agent_instance_id provider_request_id message_id : option string)
  | AutomatonEvent_DebugIteration (timestamp index tool_calls duration_ms : Z) (task_id : option string)
  | AutomatonEvent_DebugBlocker (timestamp : Z) (kind : string) (path : option string) (message : string) (task_id : option string)
  | AutomatonEvent_DebugRetry (timestamp : Z) (reason : string) (attempt wait_ms : Z) (provider model task_id : option string).
#[export] Instance AutomatonEvent_eq_dec : EqDecision AutomatonEvent.
Proof. solve_decision. Defined.
Definition is_protocol (e : AutomatonEvent) : bool :=
  match e with
  | AutomatonEvent_Started _ | AutomatonEvent_Stopped _ _ | AutomatonEvent_Error _ _ | AutomatonEvent_TaskStarted _ _
  | AutomatonEvent_TaskCompleted _ _ | AutomatonEvent_TaskFailed _ _ | AutomatonEvent_LoopFinished _ _ _
  | AutomatonEvent_TokenUsage _ _ _ | AutomatonEvent_Done => true
  | _ => false
  end.

(** [AgentError]: the errors of other crates by their displayed text. *)
Inductive AgentError :=
  | AgentError_Reason (text : string)
  | AgentError_Kernel (text : string)
  | AgentError_Join (text : string)
  | AgentError_Model (text : string)
  | AgentError_ToolExecution (text : string)
  | AgentError_Timeout (text : string)
  | AgentError_BuildFailed (text : string)
  | AgentError_TurnBudgetExceeded (task_id : string) (limit : Z)
  | AgentError_IterationBudgetExceeded (task_id : string) (limit : Z)
  | AgentError_InputQueueClosed (session_id : string)
  | AgentError_StreamTimeout (elapsed_ms : Z)
  | AgentError_Stream (text : string)
  | AgentError_Internal (text : string).
Definition AgentError_display (e : AgentError) : string :=
  match e with
  | AgentError_Reason t | AgentError_Kernel t | AgentError_Stream t | AgentError_Internal t => t
  | AgentError_Join t => "background task failed: " +++ t
  | AgentError_Model t => "model error: " +++ t
  | AgentError_ToolExecution t => "tool execution error: " +++ t
  | AgentError_Timeout t => "timeout: " +++ t
  | AgentError_BuildFailed t => "build failed: " +++ t
  | AgentError_TurnBudgetExceeded id n => "turn budget exceeded on task " +++ id +++ ": max_turns_per_task=" +++ fmt_Z n +++ " reached"
  | AgentError_IterationBudgetExceeded id n => "iteration budget exceeded on task " +++ id +++ ": max_iterations=" +++ fmt_Z n +++ " reached"
  | AgentError_InputQueueClosed s => "input queue closed for session " +++ s
  | AgentError_StreamTimeout ms => "stream event timeout after " +++ fmt_Z ms +++ "ms waiting for next response event"
  end.
Inductive AutomatonError :=
  | AutomatonError_NotFound (text : string)
  | AutomatonError_AlreadyRunning (text : string)
  | AutomatonError_Stopped (text : string)
  | AutomatonError_InvalidConfig (text : string)
  | AutomatonError_DomainApi (task_id : option string) (source : string)
  | AutomatonError_AgentExecution (task_id : option string) (source : AgentError)
  | AutomatonError_EventDelivery (event : AutomatonEvent)
  | AutomatonError_StateSerialization (key source : string)
  | AutomatonError_CreditsExhausted.
Definition fmt_task_scope (task_id : option string) : string :=
  match task_id with Some id => " (task " +++ id +++ ")" | None => "" end.
(** [kind] of an event; a full channel's error carries the whole event, which is
    displayed here by its kind. *)
Definition event_kind (e : AutomatonEvent) : string :=
  match e with
  | AutomatonEvent_Started _ => "started" | AutomatonEvent_Stopped _ _ => "stopped" | AutomatonEvent_Paused _ => "paused"
  | AutomatonEvent_Resumed _ => "resumed" | AutomatonEvent_Error _ _ => "error" | AutomatonEvent_TextDelta _ _ => "text_delta"
  | AutomatonEvent_ThinkingDelta _ _ => "thinking_delta" | AutomatonEvent_Progress _ _ => "progress"
  | AutomatonEvent_ToolCallStarted _ _ _ => "tool_call_started" | AutomatonEvent_ToolCallSnapshot _ _ _ _ _ => "tool_call_snapshot"
  | AutomatonEvent_ToolCallCompleted _ _ _ _ _ => "tool_call_completed" | AutomatonEvent_ToolResult _ _ _ _ _ => "tool_result"
  | AutomatonEvent_TaskStarted _ _ => "task_started" | AutomatonEvent_TaskCompleted _ _ => "task_completed"
  | AutomatonEvent_TaskFailed _ _ => "task_failed" | AutomatonEvent_TaskDescriptionRefining _ => "task_description_refining"
  | AutomatonEvent_TaskDescriptionRefined _ => "task_description_refined"
  | AutomatonEvent_ToolCallRetrying _ _ _ _ _ _ _ => "tool_call_retrying" | AutomatonEvent_ToolCallFailed _ _ _ _ => "tool_call_failed"
  | AutomatonEvent_LoopFinished _ _ _ => "loop_finished" | AutomatonEvent_SpecSaved _ _ => "spec_saved"
  | AutomatonEvent_SpecsTitle _ => "specs_title" | AutomatonEvent_SpecsSummary _ => "specs_summary"
  | AutomatonEvent_TokenUsage _ _ _ => "token_usage" | AutomatonEvent_MessageSaved _ => "message_saved"
  | AutomatonEvent_AgentInstanceUpdated _ => "agent_instance_updated" | AutomatonEvent_LogLine _ => "log_line"
  | AutomatonEvent_Done => "done" | AutomatonEvent_DebugLlmCall _ _ _ _ _ _ _ _ _ _ => "debug.llm_call"
  | AutomatonEvent_DebugIteration _ _ _ _ _ => "debug.iteration" | AutomatonEvent_DebugBlocker _ _ _ _ _ => "debug.blocker"
  | AutomatonEvent_DebugRetry _ _ _ _ _ _ _ => "debug.retry"
  end.
Definition AutomatonError_display (e : AutomatonError) : string :=
  match e with
  | AutomatonError_NotFound t => "automaton not found: " +++ t
  | AutomatonError_AlreadyRunning t => "automaton already running: " +++ t
  | AutomatonError_Stopped t => "automaton stopped: " +++ t
  | AutomatonError_InvalidConfig t => "invalid configuration: " +++ t
  | AutomatonError_DomainApi id s => "domain API error" +++ fmt_task_scope id +++ ": " +++ s
  | AutomatonError_AgentExecution id s => "agent execution error" +++ fmt_task_scope id +++ ": " +++ AgentError_display s
  | AutomatonError_EventDelivery ev => "automaton event delivery failed: channel full: " +++ event_kind ev
  | AutomatonError_StateSerialization k s => "automaton state serialization failed for key " +++ k +++ ": " +++ s
  | AutomatonError_CreditsExhausted => "credits exhausted"
  end.

(** * The outside *)
Record TaskDescriptor := {
  td_id : string; td_spec_id : string; td_project_id : string; td_title : string; td_description : string;
  td_status : string; td_dependencies : list string; td_order : Z;
}.
Record SpecDescriptor := {
  sd_id : string; sd_project_id : string; sd_title : string; sd_content : string; sd_order : Z;
  sd_parent_id : option string; sd_content_hash : option string;
}.
Record ProjectDescriptor := {
  pd_id : string; pd_name : string; pd_path : string; pd_description : option string; pd_tech_stack : option string;
  pd_build_command : option string; pd_test_command : option string;
}.
Record TaskExecutionResult := { ter_notes : string; ter_input_tokens : Z; ter_output_tokens : Z }.
(** [aura_context_prompts::AgentInfo]: the identity is a name, a role and a
    personality. *)
Record AgentInfo := {
  agi_identity : option (string * string * string); agi_skills : list string; agi_system_prompt : option string;
}.
(** What the agent is given for a task: [AgenticTaskParams], [TaskTrackingConfig]. *)
Record TaskRun := {
  tr_task : TaskDescriptor; tr_spec : SpecDescriptor; tr_project : ProjectDescriptor; tr_folder : string;
  tr_description : string; tr_identity : option AgentInfo; tr_early_test_oracle : option bool;
}.
Record AuxiliaryModelCall := {
  amc_model : string; amc_system_prompt : string; amc_user_body : string; amc_max_tokens : Z; amc_task_scope : option string;
}.
(** [try_send] on the event channel; a wait on the pause switch. *)
Inductive SendResult := SendResult_Sent | SendResult_Full | SendResult_Closed.
Inductive PauseWait := PauseWait_Changed | PauseWait_Closed | PauseWait_Never.
#[export] Instance SendResult_eq_dec : EqDecision SendResult.
Proof. solve_decision. Defined.

Class AutoEnv (W : Type) := {
  env_cancelled : W -> bool * W;
  env_paused : W -> bool * W;
  env_pause_changed : W -> PauseWait * W;
  env_send : AutomatonEvent -> W -> SendResult * W;
  env_list_tasks : string -> W -> result string (list TaskDescriptor) * W;
  env_get_project : string -> W -> result string ProjectDescriptor * W;
  env_get_task : string -> W -> result string TaskDescriptor * W;
  env_get_spec : string -> W -> result string SpecDescriptor * W;
  env_transition_task : string -> string -> W -> result string unit * W;
  (** [update_task] with a new description. *)
  env_update_task : string -> string -> W -> result string TaskDescriptor * W;
  (** [provider.complete] of a request, as the text of the answer. *)
  env_complete : AuxiliaryModelCall -> W -> result AgentError string * W;
  (** [AgentRunner::execute_task_tracked]. *)
  env_execute : TaskRun -> W -> result AgentError TaskExecutionResult * W;
  (** [run_project_build_check]. *)
  env_build : string -> option string -> W -> result string unit * W;
}.

(** What an automaton did, in order. *)
Inductive AutoAct :=
  | AutoAct_Event (event : AutomatonEvent) (sent : SendResult)
  | AutoAct_Transition (task_id status : string)
  | AutoAct_Update (task_id description : string)
  | AutoAct_Complete (task_scope : option string)
  | AutoAct_Execute (task_id : string) (ok : bool)
  | AutoAct_Build (ok : bool).
Record Tick (W : Type) := MkTick {
  tk_world : W;
  tk_state : gmap string json;
  tk_status : AutomatonStatus;
  tk_log : list AutoAct;
}.
Arguments MkTick {W}. Arguments tk_world {W}. Arguments tk_state {W}. Arguments tk_status {W}. Arguments tk_log {W}.

(** [serde_json::to_value] and [from_value]. *)
Class SerdeValue (A : Type) := { to_value : A -> result string json; from_value : json -> result string A }.
Class SerdeValueOk (A : Type) `{SerdeValue A} : Prop :=
  value_roundtrip (a : A) (j : json) : to_value a = Ok j -> from_value j = Ok a.

Record TickConfig := { tc_automaton_id : string; tc_config : json; tc_workspace_root : option string }.

Section Runtime.
Context {W : Type} `{AutoEnv W} (tc : TickConfig).
Abbreviation T := (stm (Tick W) AutomatonError).

(** A call to the outside, with what it adds to the log. *)
Definition call {A} (f : W -> A * W) (act : A -> list AutoAct) : T A := fun s =>
  let '(a, w) := f (tk_world s) in
  (Ok a, MkTick w (tk_state s) (tk_status s) (tk_log s ++ act a)).
Definition is_cancelled : T bool := call env_cancelled (fun _ => []).
Definition is_paused : T bool := call env_paused (fun _ => []).
Definition try_send (e : AutomatonEvent) : T SendResult := call (env_send e) (fun r => [AutoAct_Event e r]).
(** [TickContext::emit]. *)
Definition emit (e : AutomatonEvent) : T unit :=
  r ← try_send e;
  match r with
  | SendResult_Sent | SendResult_Closed => mret tt
  | SendResult_Full => fails (AutomatonError_EventDelivery e)
  end.
(** [let _ = event_tx.try_send(..)]. *)
Definition send_quietly (e : AutomatonEvent) : T unit := _ ← try_send e; mret tt.
Definition set_status (st : AutomatonStatus) : T unit := modify (fun s => MkTick (tk_world s) (tk_state s) st (tk_log s)).
(** [AutomatonState::get], [set]. *)
Definition state_get {A} `{SerdeValue A} (key : string) (s : gmap string json) : option A :=
  v ← s !! key; match from_value v with Ok a => Some a | Err _ => None end.
Definition state_set {A} `{SerdeValue A} (key : string) (a : A) : T unit := fun s =>
  match to_value a with
  | Ok v => (Ok tt, MkTick (tk_world s) (<[key := v]> (tk_state s)) (tk_status s) (tk_log s))
  | Err e => (Err (AutomatonError_StateSerialization key e), s)
  end.
(** [workspace_root_str]. *)
Definition workspace_root_str : option string :=
  match tc_workspace_root tc with Some p => if bool_decide (p = "") then None else Some p | None => None end.

(** * The run loop *)
Variables (on_install : T unit) (tick : T TickOutcome) (on_stop : T unit).
Inductive RunEnd := RunEnd_Finished (status : AutomatonStatus) | RunEnd_Blocked | RunEnd_OutOfFuel.

(** A computation that cannot fail, whatever its error type. *)
Definition ok_of {A} (d : A) (m : T A) (s : Tick W) : A * Tick W :=
  match m s with (Ok a, s') => (a, s') | (Err _, s') => (d, s') end.
Inductive Waited := Waited_Go | Waited_Blocked | Waited_OutOfFuel.
(** The inner loop of a paused automaton: it waits for the switch. *)
Fixpoint await_resume (fuel : nat) (s : Tick W) : Waited * Tick W :=
  match fuel with
  | O => (Waited_OutOfFuel, s)
  | S fuel =>
      let '(stopped, s) := ok_of false is_cancelled s in
      if stopped then (Waited_Go, s)
      else
        match ok_of PauseWait_Never (call env_pause_changed (fun _ => [])) s with
        | (PauseWait_Never, s) => (Waited_Blocked, s)
        | (PauseWait_Closed, s) => (Waited_Go, s)
        | (PauseWait_Changed, s) =>
            let '(paused, s) := ok_of false is_paused s in
            if paused then await_resume fuel s
            else
              let '(_, s) := ok_of tt (_ ← set_status AutomatonStatus_Running;
                                       send_quietly (AutomatonEvent_Resumed (tc_automaton_id tc))) s in
              (Waited_Go, s)
        end
  end.
(** The end of one turn of the loop: the tick and what follows from its outcome. *)
Definition run_tick (s : Tick W) : option AutomatonStatus * Tick W :=
  match tick s with
  | (Ok TickOutcome_Continue, s) => (None, s)
  | (Ok TickOutcome_Done, s) | (Ok (TickOutcome_Yield _), s) => (Some AutomatonStatus_Completed, s)
  | (Err e, s) =>
      let '(_, s) := ok_of tt (send_quietly (AutomatonEvent_Error (tc_automaton_id tc) (AutomatonError_display e))) s in
      (Some AutomatonStatus_Failed, s)
  end.
Fixpoint run_loop (fuel : nat) (s : Tick W) : RunEnd * Tick W :=
  match fuel with
  | O => (RunEnd_OutOfFuel, s)
  | S fuel =>
      let '(stopped, s) := ok_of false is_cancelled s in
      if stopped then (RunEnd_Finished AutomatonStatus_Stopped, s)
      else
        let '(paused, s) := ok_of false is_paused s in
        let go s :=
          match run_tick s with
          | (Some status, s) => (RunEnd_Finished status, s)
          | (None, s) => run_loop fuel s
          end in
        if paused then
          let '(_, s) := ok_of tt (_ ← set_status AutomatonStatus_Paused;
                                   send_quietly (AutomatonEvent_Paused (tc_automaton_id tc))) s in
          match await_resume fuel s with
          | (Waited_Go, s) =>
              let '(stopped, s) := ok_of false is_cancelled s in
              if stopped then (RunEnd_Finished AutomatonStatus_Stopped, s) else go s
          | (Waited_Blocked, s) => (RunEnd_Blocked, s)
          | (Waited_OutOfFuel, s) => (RunEnd_OutOfFuel, s)
          end
        else go s
  end.
(** After the loop: the stop hook, the final status, the last two events. *)
Definition wind_down (status : AutomatonStatus) (s : Tick W) : Tick W :=
  let s := (on_stop s).2 in
  (ok_of tt (_ ← set_status status;
             _ ← send_quietly (AutomatonEvent_Stopped (tc_automaton_id tc) (status_debug status));
             send_quietly AutomatonEvent_Done) s).2.
Definition run_automaton (fuel : nat) (s : Tick W) : RunEnd * Tick W :=
  match on_install s with
  | (Err e, s) =>
      (RunEnd_Finished AutomatonStatus_Failed,
       (ok_of tt (_ ← set_status AutomatonStatus_Failed;
                  _ ← send_quietly (AutomatonEvent_Error (tc_automaton_id tc) (AutomatonError_display e));
                  send_quietly AutomatonEvent_Done) s).2)
  | (Ok _, s) =>
      let '(_, s) := ok_of tt (_ ← set_status AutomatonStatus_Running;
                               send_quietly (AutomatonEvent_Started (tc_automaton_id tc))) s in
      match run_loop fuel s with
      | (RunEnd_Finished status, s) => (RunEnd_Finished status, wind_down status s)
      | other => other
      end
  end.
End Runtime.

(** [AutomatonHandle::is_finished]. *)
Definition is_finished (status : AutomatonStatus) : bool :=
  match status with
  | AutomatonStatus_Stopped | AutomatonStatus_Failed | AutomatonStatus_Completed => true
  | _ => false
  end.

(** * The table of instances *)
Record AutomatonInfo := {
  ai_id : string; ai_kind : string; ai_status : AutomatonStatus; ai_schedule : Schedule; ai_config : json;
  ai_created_at : Z; ai_updated_at : Z;
}.
(** The cancellation token is a number; [stop] cancels it. *)
Record RunningAutomaton := { ra_info : AutomatonInfo; ra_cancel : nat }.
Abbreviation Instances := (gmap string RunningAutomaton).
Definition runtime_install (id kind : string) (schedule : Schedule) (config : json) (now : Z) (token : nat)
    (m : Instances) : Instances :=
  <[id := {| ra_info := {| ai_id := id; ai_kind := kind; ai_status := AutomatonStatus_Installing; ai_schedule := schedule;
                           ai_config := config; ai_created_at := now; ai_updated_at := now |};
             ra_cancel := token |}]> m.
(** What a run does to the table when it ends. *)
Definition runtime_remove (id : string) (m : Instances) : Instances := delete id m.
Definition runtime_list (m : Instances) : list AutomatonInfo := (fun p => ra_info p.2) <$> map_to_list m.
Definition get_info (id : string) (m : Instances) : option AutomatonInfo := ra_info <$> m !! id.
(** The token to cancel, or the error. *)
Definition runtime_stop (id : string) (m : Instances) : result AutomatonError nat :=
  match m !! id with Some r => Ok (ra_cancel r) | None => Err (AutomatonError_NotFound id) end.

(** Nothing else changes the table. *)
Inductive instances_step : Instances -> Instances -> Prop :=
  | instances_install id kind schedule config now token m : instances_step m (runtime_install id kind schedule config now token m)
  | instances_remove id m : instances_step m (runtime_remove id m).

(** The status reported for an automaton is the one it was installed with. *)
Definition all_installing (m : Instances) : Prop :=
  forall id info, get_info id m = Some info -> ai_status info = AutomatonStatus_Installing.
Lemma instances_step_installing m m' : instances_step m m' -> all_installing m -> all_installing m'.
Proof.
  unfold all_installing, get_info. intros Hs IH id info. rewrite fmap_Some. intros (r & Hr & ->).
  destruct Hs as [id' kind schedule config now token m|id' m].
  - unfold runtime_install in Hr. apply lookup_insert_Some in Hr as [[<- <-]|[_ Hr]]; [done|]. apply (IH id). by rewrite Hr.
  - unfold runtime_remove in Hr. apply lookup_delete_Some in Hr as [_ Hr]. apply (IH id). by rewrite Hr.
Qed.
Lemma listed_status_installing m : rtc instances_step ∅ m -> all_installing m.
Proof.
  intros Hr. assert (all_installing ∅) as H0 by (intros id info; unfold get_info; by rewrite lookup_empty).
  revert H0. induction Hr; eauto using instances_step_installing.
Qed.
