(* ===== verification/DevLoop.v ===== *)
(** The dev loop and the single-task automaton ([aura-automaton/src/builtins]:
    [dev_loop/tick.rs], [task_run.rs], [task_refinement.rs], [common/config.rs],
    [common/finalize.rs], [common/task_execution.rs], [common/model_call.rs]): the
    project's tasks are run one by one by the agent, each checked by a build and
    retried once, and the loop stops at the first failure. *)
From S2P Require Import Prelude Values Utf8 Text Compaction Automaton.
From stdpp Require Import list sorting.

(** * Configuration *)
Record AgentIdentityEnvelope := {
  aie_name : string; aie_role : string; aie_personality : string; aie_skills : list string; aie_system_prompt : option string;
}.
Definition or_empty (o : option string) : string := default EmptyString o.
Definition json_as_bool (v : json) : option bool := match v with JBool b => Some b | _ => None end.
Definition non_blank (s : string) : bool := negb (trim_is_empty s).
Definition filter_opt {A} (P : A -> bool) (o : option A) : option A :=
  match o with Some a => if P a then Some a else None | None => None end.
Definition identity_from_json (config : json) : AgentIdentityEnvelope :=
  let identity := json_get "agent_identity" config in
  let field k := match identity with Some v => or_empty (json_get_str k v) | None => "" end in
  {| aie_name := field "name"; aie_role := field "role"; aie_personality := field "personality";
     aie_skills := match json_get "agent_skills" config with Some (JArray l) => omap json_as_str l | _ => [] end;
     aie_system_prompt := filter_opt non_blank (json_get_str "agent_system_prompt" config) |}.
Definition identity_is_empty (e : AgentIdentityEnvelope) : bool :=
  trim_is_empty (aie_name e) && trim_is_empty (aie_role e) && trim_is_empty (aie_personality e)
  && forallb trim_is_empty (aie_skills e)
  && match aie_system_prompt e with Some s => trim_is_empty s | None => true end.
Definition as_agent_info (e : AgentIdentityEnvelope) : option AgentInfo :=
  if identity_is_empty e then None
  else
    let absent := trim_is_empty (aie_name e) && trim_is_empty (aie_role e) && trim_is_empty (aie_personality e) in
    Some {| agi_identity := if absent then None else Some (aie_name e, aie_role e, aie_personality e);
            agi_skills := aie_skills e; agi_system_prompt := filter_opt non_blank (aie_system_prompt e) |}.
Record DevLoopConfig := { dlc_project_id : string; dlc_agent_instance_id : string; dlc_model : string; dlc_identity : AgentIdentityEnvelope }.
Record TaskRunConfig := {
  trc_project_id : string; trc_task_id : string; trc_agent_instance_id : string; trc_model : string;
  trc_identity : AgentIdentityEnvelope; trc_early_test_oracle : bool;
}.
(** A field of type [Option<String>]: absent, null, or a string. *)
Definition opt_string (v : option json) : option (option string) :=
  match v with None | Some JNull => Some None | Some (JString s) => Some (Some s) | _ => None end.
(** [DevLoopConfigRaw], from an object by name or from an array by position. *)
Definition raw_fields (config : json) : option (option string * option string * option string) :=
  match config with
  | JObject _ =>
      p ← opt_string (json_get "project_id" config);
      a ← opt_string (json_get "agent_instance_id" config);
      m ← opt_string (json_get "model" config);
      Some (p, a, m)
  | JArray [jp; ja; jm] => p ← opt_string (Some jp); a ← opt_string (Some ja); m ← opt_string (Some jm); Some (p, a, m)
  | _ => None
  end.

(** * State of the dev loop *)
Record DevLoopState := {
  dls_initialized : bool; dls_task_queue : list string; dls_completed_count : Z; dls_failed_count : Z; dls_loop_finished : bool;
}.
Definition DevLoopState_default : DevLoopState := {|
  dls_initialized := false; dls_task_queue := []; dls_completed_count := 0; dls_failed_count := 0; dls_loop_finished := false |}.
Definition DEV_LOOP_STATE_KEY : string := "dev_loop_state".
Inductive TaskOutcome := TaskOutcome_Success | TaskOutcome_Failure | TaskOutcome_Cancelled.
Inductive LoopFinishOutcome := LoopFinishOutcome_Completed | LoopFinishOutcome_Failed.
Definition LoopFinishOutcome_as_str (o : LoopFinishOutcome) : string :=
  match o with LoopFinishOutcome_Completed => "completed" | LoopFinishOutcome_Failed => "failed" end.

(** * Texts *)
Definition REFINED_MARKER : string := "<!-- aura-refined:v1 -->".
Definition REFINEMENT_SYSTEM_PROMPT : string :=
  "You refine software engineering task descriptions before implementation. Rewrite the task description so it precisely matches the spec's intent and acceptance criteria. Keep it concise and actionable.".
Definition REFINEMENT_MAX_TOKENS : Z := 4096.
Definition DEV_LOOP_RETRY_NOTE_MAX_BYTES : nat := Z.to_nat 12000.
Definition already_refined (description : string) : bool := starts_with REFINED_MARKER (trim_start description).
Definition build_refinement_user_body (spec : SpecDescriptor) (task : TaskDescriptor) : string :=
  "# Spec: " +++ sd_title spec +++ nl +++ nl +++ sd_content spec +++ nl +++ nl +++ "# Current Task: " +++ td_title task +++ nl +++ nl
  +++ td_description task +++ nl +++ nl +++ "# Output" +++ nl +++ "Return only the refined task description in markdown, no preamble.".
Definition assemble_refined_body (refined : string) (task : TaskDescriptor) : string :=
  REFINED_MARKER +++ nl +++ "## Refined Description" +++ nl +++ refined +++ nl +++ nl +++ "## Original Task" +++ nl
  +++ "> " +++ td_title task +++ nl +++ ">" +++ nl
  +++ (if bool_decide (td_description task = "") then ">" +++ nl
       else foldr (fun line r => "> " +++ line +++ nl +++ r) "" (lines (td_description task))).
Definition floor_char_boundary (s : string) (idx : nat) : nat :=
  char_boundary (string_to_bytes s) (Nat.min idx (String.length s)).
Fixpoint ceil_from (fuel : nat) (s : bytes) (idx : nat) : nat :=
  match fuel with
  | O => idx
  | S fuel => if is_char_boundary s idx then idx else ceil_from fuel s (S idx)
  end.
Definition ceil_char_boundary (s : string) (idx : nat) : nat :=
  let idx := Nat.min idx (String.length s) in ceil_from (String.length s - idx) (string_to_bytes s) idx.
Definition truncate_for_retry (message : string) (max_bytes : nat) : string :=
  if String.length message <=? max_bytes then message
  else
    let half := max_bytes / 2 in
    str_take (floor_char_boundary message half) message +++ nl +++ nl +++ "... (truncated) ..." +++ nl +++ nl
    +++ str_drop (ceil_char_boundary message (String.length message - half)) message.

(** [sort_by_key(|t| t.order)], which is stable. *)
Fixpoint insert_task (t : TaskDescriptor) (l : list TaskDescriptor) : list TaskDescriptor :=
  match l with
  | [] => [t]
  | u :: r => if (td_order t <=? td_order u)%Z then t :: l else u :: insert_task t r
  end.
Definition sort_tasks (l : list TaskDescriptor) : list TaskDescriptor := foldr insert_task [] l.
Definition initial_queue (tasks : list TaskDescriptor) : list string :=
  td_id <$> sort_tasks (List.filter (fun t => negb (bool_decide (td_status t = "done"))) tasks).
Definition u32_sat_succ (n : Z) : Z := Z.min (n + 1) (2 ^ 32 - 1).

Section Builtins.
Context {W : Type} `{AutoEnv W} `{SerdeValue DevLoopState} (tc : TickConfig).
(** Whether a tool executor was configured; what the decoder says of a bad start
    request. *)
Context (has_executor : bool) (raw_error : json -> string).
Abbreviation T := (stm (Tick W) AutomatonError).

Definition DevLoopConfig_from_json (config : json) : result AutomatonError DevLoopConfig :=
  raw ← ok_or (AutomatonError_InvalidConfig ("invalid dev-loop config: " +++ raw_error config)) (raw_fields config);
  let '(p, a, m) := raw in
  project_id ← ok_or (AutomatonError_InvalidConfig "missing project_id") (filter_opt non_blank p);
  model ← ok_or (AutomatonError_InvalidConfig "missing model — dev-loop requires an explicit model identifier in the start request")
            (filter_opt (fun s => negb (bool_decide (s = ""))) (trim <$> m));
  Ok {| dlc_project_id := project_id; dlc_agent_instance_id := default "default" (filter_opt non_blank a);
        dlc_model := model; dlc_identity := identity_from_json config |}.
Definition TaskRunConfig_from_json (config : json) : result AutomatonError TaskRunConfig :=
  project_id ← ok_or (AutomatonError_InvalidConfig "missing project_id") (json_get_str "project_id" config);
  task_id ← ok_or (AutomatonError_InvalidConfig "missing task_id") (json_get_str "task_id" config);
  model ← ok_or (AutomatonError_InvalidConfig "missing model — task-run requires an explicit model identifier in the start request")
            (filter_opt (fun s => negb (bool_decide (s = ""))) (trim <$> json_get_str "model" config));
  Ok {| trc_project_id := project_id; trc_task_id := task_id;
        trc_agent_instance_id := default "default" (json_get_str "agent_instance_id" config); trc_model := model;
        trc_identity := identity_from_json config;
        trc_early_test_oracle := match json_get "early_test_oracle" config with Some (JBool b) => b | _ => true end |}.

(** * Calls *)
Definition domain_api {A} (task_id : option string) (r : result string A) : result AutomatonError A :=
  map_err (AutomatonError_DomainApi task_id) r.
Definition agent_execution {A} (task_id : option string) (r : result AgentError A) : result AutomatonError A :=
  map_err (AutomatonError_AgentExecution task_id) r.
Definition get_project (task_id : option string) (project_id : string) : T ProjectDescriptor :=
  r ← call (env_get_project project_id) (fun _ => []); lift (domain_api task_id r).
Definition get_spec (task_id : string) (spec_id : string) : T SpecDescriptor :=
  r ← call (env_get_spec spec_id) (fun _ => []); lift (domain_api (Some task_id) r).
(** Transitions are best-effort: their failure is only logged. *)
Definition transition_task (task_id status : string) : T unit :=
  _ ← call (env_transition_task task_id status) (fun _ => [AutoAct_Transition task_id status]); mret tt.
Definition run_auxiliary_model_call (c : AuxiliaryModelCall) : T (result AutomatonError string) :=
  r ← call (env_complete c) (fun _ => [AutoAct_Complete (amc_task_scope c)]);
  mret (agent_execution (amc_task_scope c) r).

Definition refine_task_description (model : string) (spec : SpecDescriptor) (task : TaskDescriptor) : T TaskDescriptor :=
  if already_refined (td_description task) then mret task
  else
    _ ← send_quietly (AutomatonEvent_TaskDescriptionRefining (td_id task));
    response ← run_auxiliary_model_call
      {| amc_model := model; amc_system_prompt := REFINEMENT_SYSTEM_PROMPT; amc_user_body := build_refinement_user_body spec task;
         amc_max_tokens := REFINEMENT_MAX_TOKENS; amc_task_scope := Some (td_id task) |};
    match response with
    | Err e =>
        _ ← send_quietly (AutomatonEvent_LogLine
              ("task description refinement failed for " +++ td_id task +++ ": " +++ AutomatonError_display e));
        mret task
    | Ok text =>
        let refined := trim text in
        if bool_decide (refined = "") then
          _ ← send_quietly (AutomatonEvent_LogLine ("task description refinement returned empty body for " +++ td_id task));
          mret task
        else
          let body := assemble_refined_body refined task in
          updated ← call (env_update_task (td_id task) body) (fun _ => [AutoAct_Update (td_id task) body]);
          match updated with
          | Err e =>
              _ ← send_quietly (AutomatonEvent_LogLine ("task description refinement failed for " +++ td_id task +++ ": " +++ e));
              mret task
          | Ok t => _ ← send_quietly (AutomatonEvent_TaskDescriptionRefined (td_id task)); mret t
          end
    end.
Definition effective_path (project : ProjectDescriptor) : string := default (pd_path project) (workspace_root_str tc).
Definition described (task : TaskDescriptor) (note : option string) : string :=
  match note with
  | Some n => td_description task +++ nl +++ nl +++ "---" +++ nl +++ nl +++ "Build still failing after your last pass:" +++ nl +++ nl +++ n
  | None => td_description task
  end.
Definition run_tracked_task (task : TaskDescriptor) (spec : SpecDescriptor) (project : ProjectDescriptor)
    (identity : AgentIdentityEnvelope) (oracle : option bool) (note : option string) : T (result AutomatonError TaskExecutionResult) :=
  r ← call (env_execute {| tr_task := task; tr_spec := spec; tr_project := project; tr_folder := effective_path project;
                           tr_description := described task note; tr_identity := as_agent_info identity; tr_early_test_oracle := oracle |})
        (fun r => [AutoAct_Execute (td_id task) (match r with Ok _ => true | Err _ => false end)]);
  mret (agent_execution (Some (td_id task)) r).

(** * Finalizing *)
Definition record_cancelled (task : TaskDescriptor) : T unit :=
  _ ← transition_task (td_id task) "ready";
  emit (AutomatonEvent_LogLine ("Task " +++ td_id task +++ " cancelled by stop request")).
Definition record_success (task : TaskDescriptor) (exec : TaskExecutionResult) : T unit :=
  _ ← transition_task (td_id task) "done";
  _ ← emit (AutomatonEvent_TaskCompleted (td_id task) (ter_notes exec));
  emit (AutomatonEvent_TokenUsage (Some (td_id task)) (ter_input_tokens exec) (ter_output_tokens exec)).
Definition record_failure (task : TaskDescriptor) (e : AutomatonError) : T unit :=
  _ ← transition_task (td_id task) "failed";
  emit (AutomatonEvent_TaskFailed (td_id task) (AutomatonError_display e)).
Definition finalize_task_outcome (task : TaskDescriptor) (result : result AutomatonError TaskExecutionResult) : T TaskOutcome :=
  cancelled ← is_cancelled;
  if cancelled : bool then _ ← record_cancelled task; mret TaskOutcome_Cancelled
  else
    match result with
    | Ok exec => _ ← record_success task exec; mret TaskOutcome_Success
    | Err e => _ ← record_failure task e; mret TaskOutcome_Failure
    end.

(** * The dev loop *)
Definition dev_load : T DevLoopState :=
  gets (fun s => default DevLoopState_default (state_get DEV_LOOP_STATE_KEY (tk_state s))).
Definition dev_save (st : DevLoopState) : T unit := state_set DEV_LOOP_STATE_KEY st.
Definition finish_with_outcome (st : DevLoopState) (o : LoopFinishOutcome) : T TickOutcome :=
  let st := {| dls_initialized := dls_initialized st; dls_task_queue := dls_task_queue st;
               dls_completed_count := dls_completed_count st; dls_failed_count := dls_failed_count st; dls_loop_finished := true |} in
  _ ← dev_save st;
  _ ← emit (AutomatonEvent_LoopFinished (LoopFinishOutcome_as_str o) (dls_completed_count st) (dls_failed_count st));
  mret TickOutcome_Done.
Definition initialize_queue (cfg : DevLoopConfig) (st : DevLoopState) : T TickOutcome :=
  if negb has_executor
  then fails (AutomatonError_InvalidConfig "no tool executor configured — the agent cannot perform file or command operations")
  else
    r ← call (env_list_tasks (dlc_project_id cfg)) (fun _ => []);
    tasks ← lift (domain_api None r);
    match tasks : list TaskDescriptor with
    | [] => finish_with_outcome st LoopFinishOutcome_Completed
    | _ =>
        let queue := initial_queue tasks in
        _ ← dev_save {| dls_initialized := true; dls_task_queue := queue; dls_completed_count := 0; dls_failed_count := 0;
                        dls_loop_finished := dls_loop_finished st |};
        _ ← emit (AutomatonEvent_LogLine ("Dev loop ready: " +++ fmt_Z (Z.of_nat (length queue)) +++ " tasks to execute"));
        mret TickOutcome_Continue
    end.
(** [execute_task]: errors are values, as the caller finalizes them. *)
Definition execute_task (cfg : DevLoopConfig) (project : ProjectDescriptor) (task : TaskDescriptor) (note : option string)
  : T (result AutomatonError TaskExecutionResult) :=
  r ← call (env_get_spec (td_spec_id task)) (fun _ => []);
  match domain_api (Some (td_id task)) r with
  | Err e => mret (Err e)
  | Ok spec =>
      task_owned ← refine_task_description (dlc_model cfg) spec task;
      run_tracked_task task_owned spec project (dlc_identity cfg) None note
  end.
Definition verify_build_after_agent (folder : string) (command : option string) : T (result AutomatonError unit) :=
  r ← call (env_build folder command) (fun r => [AutoAct_Build (match r with Ok _ => true | Err _ => false end)]);
  mret (map_err (fun m => AutomatonError_AgentExecution None (AgentError_BuildFailed m)) r).
Definition execute_task_with_build_retry (cfg : DevLoopConfig) (project : ProjectDescriptor) (task : TaskDescriptor)
  : T (result AutomatonError TaskExecutionResult) :=
  first ← execute_task cfg project task None;
  match first : result AutomatonError TaskExecutionResult with
  | Err e => mret (Err e)
  | Ok exec =>
      cancelled ← is_cancelled;
      if cancelled : bool then mret (Ok exec)
      else
        built ← verify_build_after_agent (effective_path project) (pd_build_command project);
        match built : result AutomatonError unit with
        | Ok _ => mret (Ok exec)
        | Err build_err =>
            second ← execute_task cfg project task
              (Some (truncate_for_retry (AutomatonError_display build_err) DEV_LOOP_RETRY_NOTE_MAX_BYTES));
            match second : result AutomatonError TaskExecutionResult with
            | Err e => mret (Err e)
            | Ok exec =>
                cancelled ← is_cancelled;
                if cancelled : bool then mret (Ok exec)
                else
                  built ← verify_build_after_agent (effective_path project) (pd_build_command project);
                  mret (match built : result AutomatonError unit with Ok _ => Ok exec | Err e => Err e end)
            end
        end
  end.
Definition with_queue (st : DevLoopState) (q : list string) : DevLoopState := {|
  dls_initialized := dls_initialized st; dls_task_queue := q; dls_completed_count := dls_completed_count st;
  dls_failed_count := dls_failed_count st; dls_loop_finished := dls_loop_finished st |}.
Definition with_counts (st : DevLoopState) (completed failed : Z) : DevLoopState := {|
  dls_initialized := dls_initialized st; dls_task_queue := dls_task_queue st; dls_completed_count := completed;
  dls_failed_count := failed; dls_loop_finished := dls_loop_finished st |}.
(** The counters after a task, and whether to go on. *)
Definition settle (st : DevLoopState) (outcome : TaskOutcome) : T TickOutcome :=
  match outcome with
  | TaskOutcome_Cancelled => mret TickOutcome_Done
  | TaskOutcome_Success =>
      _ ← dev_save (with_counts st (u32_sat_succ (dls_completed_count st)) (dls_failed_count st));
      mret TickOutcome_Continue
  | TaskOutcome_Failure =>
      let st := with_counts st (dls_completed_count st) (u32_sat_succ (dls_failed_count st)) in
      _ ← dev_save st;
      finish_with_outcome st LoopFinishOutcome_Failed
  end.
Definition process_next_task (cfg : DevLoopConfig) (st : DevLoopState) : T TickOutcome :=
  match dls_task_queue st with
  | [] => finish_with_outcome st LoopFinishOutcome_Completed
  | task_id :: rest =>
      let st := with_queue st rest in
      _ ← dev_save st;
      project ← get_project (Some task_id) (dlc_project_id cfg);
      fetched ← call (env_get_task task_id) (fun _ => []);
      match fetched : result string TaskDescriptor with
      | Err _ => mret TickOutcome_Continue
      | Ok task =>
          _ ← transition_task (td_id task) "in_progress";
          _ ← emit (AutomatonEvent_TaskStarted (td_id task) (td_title task));
          result ← execute_task_with_build_retry cfg project task;
          outcome ← finalize_task_outcome task result;
          settle st outcome
      end
  end.
Definition dev_tick : T TickOutcome :=
  cancelled ← is_cancelled;
  if cancelled : bool then mret TickOutcome_Done
  else
    cfg ← lift (DevLoopConfig_from_json (tc_config tc));
    st ← dev_load;
    if dls_initialized st then process_next_task cfg st else initialize_queue cfg st.
Definition dev_on_install : T unit :=
  cfg ← lift (DevLoopConfig_from_json (tc_config tc));
  emit (AutomatonEvent_LogLine ("dev loop starting for project " +++ dlc_project_id cfg)).
Definition dev_on_stop : T unit :=
  st ← dev_load;
  if dls_loop_finished st then mret tt
  else emit (AutomatonEvent_LoopFinished "stopped" (dls_completed_count st) (dls_failed_count st)).

(** * A single task *)
Definition task_run_tick : T TickOutcome :=
  if negb has_executor
  then fails (AutomatonError_InvalidConfig "no tool executor configured — the agent cannot perform file or command operations")
  else
    cfg ← lift (TaskRunConfig_from_json (tc_config tc));
    r ← call (env_get_task (trc_task_id cfg)) (fun _ => []);
    task ← lift (domain_api (Some (trc_task_id cfg)) r);
    project ← get_project (Some (trc_task_id cfg)) (trc_project_id cfg);
    spec ← get_spec (trc_task_id cfg) (td_spec_id task);
    _ ← emit (AutomatonEvent_TaskStarted (td_id task) (td_title task));
    _ ← transition_task (td_id task) "in_progress";
    task_owned ← refine_task_description (trc_model cfg) spec task;
    result ← run_tracked_task task_owned spec project (trc_identity cfg) (Some (trc_early_test_oracle cfg)) None;
    _ ← finalize_task_outcome task result;
    mret TickOutcome_Done.
End Builtins.
