(* ===== verification/DevLoopProps.v ===== *)
(** What a dev loop does to its project's tasks.

    [adds] bounds what a computation does: the calls it logs, the world's steps,
    and that the automaton's own state is left alone; it is closed under the
    combinators, so that most of the dev loop is bounded by one tactic.  The
    theorems follow the run loop with invariants closed under it. *)
From S2P Require Import Prelude Values Utf8 Text Compaction CompactionProps Automaton DevLoop.
From stdpp Require Import list relations.

(** * The world's steps *)
Section Steps.
Context {W : Type} `{AutoEnv W}.
Inductive env_step (w : W) : W -> Prop :=
  | step_cancelled : env_step w (env_cancelled w).2
  | step_paused : env_step w (env_paused w).2
  | step_pause_changed : env_step w (env_pause_changed w).2
  | step_send e : env_step w (env_send e w).2
  | step_list_tasks p : env_step w (env_list_tasks p w).2
  | step_get_project p : env_step w (env_get_project p w).2
  | step_get_task t : env_step w (env_get_task t w).2
  | step_get_spec t : env_step w (env_get_spec t w).2
  | step_transition t st : env_step w (env_transition_task t st w).2
  | step_update t d : env_step w (env_update_task t d w).2
  | step_complete c : env_step w (env_complete c w).2
  | step_execute r : env_step w (env_execute r w).2
  | step_build f c : env_step w (env_build f c w).2.
Definition stopped (w : W) : Prop := (env_cancelled w).1 = true.
End Steps.
Create HintDb envs.
#[export] Hint Constructors env_step : envs.
(** A cancelled token stays cancelled. *)
Class StickyCancel (W : Type) `{AutoEnv W} : Prop := sticky (w w' : W) : env_step w w' -> stopped w -> stopped w'.

(** * Bounds on computations *)
Section Adds.
Context {W : Type} `{AutoEnv W}.
Abbreviation T := (stm (Tick W) AutomatonError).

(** From [s] to [s'] the automaton's state is unchanged and only actions in [Q]
    were logged. *)
Definition within (Q : AutoAct -> Prop) (s s' : Tick W) : Prop :=
  tk_state s' = tk_state s /\ rtc env_step (tk_world s) (tk_world s')
  /\ exists add, tk_log s' = tk_log s ++ add /\ Forall Q add.
Definition adds {A} (Q : AutoAct -> Prop) (m : T A) : Prop := forall s r s', m s = (r, s') -> within Q s s'.

Lemma within_refl Q s : within Q s s.
Proof. split_and!; [done|done|]. exists []. by rewrite app_nil_r. Qed.
Lemma within_trans Q s1 s2 s3 : within Q s1 s2 -> within Q s2 s3 -> within Q s1 s3.
Proof.
  intros (E1 & R1 & a1 & L1 & F1) (E2 & R2 & a2 & L2 & F2). split_and!; [congruence|by etrans|].
  exists (a1 ++ a2). rewrite L2, L1. split; [by rewrite app_assoc|by apply Forall_app].
Qed.
Lemma within_mono (Q Q' : AutoAct -> Prop) s s' : (forall a, Q a -> Q' a) -> within Q s s' -> within Q' s s'.
Proof. intros HQ (E & R & a & L & F). split_and!; [done|done|]. exists a. split; [done|]. by eapply Forall_impl. Qed.
Lemma adds_bind {A B} Q (m : T A) (f : A -> T B) : adds Q m -> (forall a, adds Q (f a)) -> adds Q (m ≫= f).
Proof.
  intros Hm Hf s r s'. unfold mbind, stm_bind. destruct (m s) as [[a|e] s1] eqn:E.
  - intros Hs. eapply within_trans; [by eapply Hm|by eapply Hf].
  - intros [= <- <-]. by eapply Hm.
Qed.
Lemma adds_ret {A} Q (a : A) : adds Q (mret a : T A).
Proof. intros s r s' [= <- <-]. apply within_refl. Qed.
Lemma adds_fails {A} Q e : adds Q (fails e : T A).
Proof. intros s r s' [= <- <-]. apply within_refl. Qed.
Lemma adds_lift {A} Q r : adds Q (lift r : T A).
Proof. intros s r' s' [= <- <-]. apply within_refl. Qed.
Lemma adds_gets {A} Q f : adds Q (gets f : T A).
Proof. intros s r' s' [= <- <-]. apply within_refl. Qed.
Lemma adds_call {A} (Q : AutoAct -> Prop) (f : W -> A * W) act :
  (forall w, env_step w (f w).2) -> (forall a, Forall Q (act a)) -> adds Q (call f act : T A).
Proof.
  intros Hf Ha s r s'. unfold call. specialize (Hf (tk_world s)). destruct (f (tk_world s)) as [a w] eqn:E.
  intros [= <- <-]. split_and!; [done|by apply rtc_once|]. by exists (act a).
Qed.
Lemma adds_status Q st : adds Q (set_status st : T unit).
Proof. intros s r s' [= <- <-]. split_and!; [done|done|]. exists []. by rewrite app_nil_r. Qed.
End Adds.

Ltac solve_adds :=
  repeat first
    [ progress intros
    | apply adds_ret | apply adds_fails | apply adds_lift | apply adds_gets | apply adds_status
    | apply adds_bind
    | apply adds_call; [intros; eauto with envs|intros; repeat (constructor || destruct_match_in_goal); eauto]
    | match goal with |- adds _ (if ?b then _ else _) => destruct b end
    | match goal with |- adds _ (match ?x with _ => _ end) => destruct x end ]
with destruct_match_in_goal := match goal with |- context [match ?x with _ => _ end] => destruct x end.

(** * Kinds of actions *)
Definition is_done_transition (a : AutoAct) : bool :=
  match a with AutoAct_Transition _ st => bool_decide (st = "done") | _ => false end.
Definition is_loop_finished (a : AutoAct) : bool :=
  match a with AutoAct_Event (AutomatonEvent_LoopFinished _ _ _) _ => true | _ => false end.
(** Neither marks a task done nor announces the end of the loop. *)
Definition plain (a : AutoAct) : Prop := is_done_transition a = false /\ is_loop_finished a = false.
#[export] Hint Extern 1 (plain _) => (split; reflexivity) : core.

Definition act_task (a : AutoAct) : string := match a with AutoAct_Transition id _ => id | _ => "" end.

(** A task is marked done right after the agent succeeded at it and the build
    passed; [kept] stands for the condition under which the task executed is
    known to be the task marked. *)
Section Green.
Context (kept : Prop).
Definition green (id : string) (l : list AutoAct) : Prop :=
  exists p tid, l = p ++ [AutoAct_Execute tid true; AutoAct_Build true] /\ (kept -> tid = id).
Definition done_green (l : list AutoAct) : Prop :=
  forall pre a post, l = pre ++ a :: post -> is_done_transition a = true -> green (act_task a) pre.
Definition finishes (l : list AutoAct) : nat := length (List.filter is_loop_finished l).

Lemma plain_not_done l : Forall plain l -> Forall (fun a => is_done_transition a = false) l.
Proof. intros Hl. eapply Forall_impl; [exact Hl|]. by intros a [? _]. Qed.
Lemma done_green_app l l' : done_green l -> Forall (fun a => is_done_transition a = false) l' -> done_green (l ++ l').
Proof.
  intros Hl Hl' pre a post E Ha. apply app_eq_inv in E as [(k & -> & E)|(k & -> & ->)].
  - destruct k as [|b k]; cbn in E.
    + rewrite <-E in Hl'. inversion Hl'. congruence.
    + injection E as <- ->. by eapply Hl.
  - apply Forall_app in Hl' as [_ Hl']. inversion Hl'. congruence.
Qed.
Lemma green_app id p l : green id l -> green id (p ++ l).
Proof. intros (q & tid & -> & Hk). exists (p ++ q), tid. by rewrite app_assoc. Qed.
Lemma done_green_cat l l' : done_green l -> done_green l' -> done_green (l ++ l').
Proof.
  intros Hl Hl' pre a post E Ha. apply app_eq_inv in E as [(k & -> & E)|(k & -> & ->)].
  - destruct k as [|b k]; cbn in E.
    + rewrite <-(app_nil_r pre). apply green_app. by eapply (Hl' []).
    + injection E as <- ->. by eapply Hl.
  - apply green_app. by eapply Hl'.
Qed.
Lemma done_green_snoc l a : done_green l -> (is_done_transition a = true -> green (act_task a) l) -> done_green (l ++ [a]).
Proof.
  intros Hl Ha pre b post E Hb. apply app_eq_inv in E as [(k & -> & E)|(k & -> & E)].
  - destruct k as [|c k]; cbn in E.
    + injection E as -> ->. rewrite app_nil_r in Ha. auto.
    + injection E as <- ->. by eapply Hl.
  - destruct k as [|c k]; cbn in E; [|by destruct k]. injection E as -> <-. rewrite app_nil_r. auto.
Qed.
Lemma done_green_plain l : Forall plain l -> done_green l.
Proof. intros Hl. apply (done_green_app []); [intros [] ?? [=]|by apply plain_not_done]. Qed.
End Green.
Lemma finishes_app l l' : finishes (l ++ l') = finishes l + finishes l'.
Proof. unfold finishes. by rewrite List.filter_app, length_app. Qed.
Lemma finishes_plain l : Forall plain l -> finishes l = 0.
Proof. induction 1 as [|a l [_ Ha] _ IH]; [done|]. unfold finishes in *. cbn. by rewrite Ha. Qed.

(** * The pieces of a task *)
Section Pieces.
Context {W : Type} `{AutoEnv W} `{SerdeValue DevLoopState} (tc : TickConfig).
Abbreviation T := (stm (Tick W) AutomatonError).

Lemma adds_emit (Q : AutoAct -> Prop) e : (forall r, Q (AutoAct_Event e r)) -> adds Q (emit e : T unit).
Proof. intros HQ. unfold emit, try_send. solve_adds. Qed.
Lemma adds_send_quietly (Q : AutoAct -> Prop) e : (forall r, Q (AutoAct_Event e r)) -> adds Q (send_quietly e : T unit).
Proof. intros HQ. unfold send_quietly, try_send. solve_adds. Qed.
Lemma adds_cancelled Q : adds Q (is_cancelled : T bool).
Proof. unfold is_cancelled. solve_adds. Qed.
Lemma adds_refine model spec task : adds plain (refine_task_description model spec task : T TaskDescriptor).
Proof. unfold refine_task_description, run_auxiliary_model_call, send_quietly, try_send. solve_adds. Qed.
Lemma adds_execute_task cfg project task note : adds plain (execute_task tc cfg project task note : T _).
Proof.
  unfold execute_task. apply adds_bind; [solve_adds|]. intros r. destruct (domain_api _ r); [|solve_adds].
  apply adds_bind; [apply adds_refine|]. intros t. unfold run_tracked_task. solve_adds.
Qed.
Lemma adds_build f c : adds plain (verify_build_after_agent f c : T _).
Proof. unfold verify_build_after_agent. solve_adds. Qed.
Lemma adds_retry cfg project task : adds plain (execute_task_with_build_retry tc cfg project task : T _).
Proof.
  unfold execute_task_with_build_retry. apply adds_bind; [apply adds_execute_task|]. intros [exec|e]; [|solve_adds].
  apply adds_bind; [apply adds_cancelled|]. intros []; [solve_adds|]. apply adds_bind; [apply adds_build|].
  intros [[]|e]; [solve_adds|]. apply adds_bind; [apply adds_execute_task|]. intros [exec'|e']; [|solve_adds].
  apply adds_bind; [apply adds_cancelled|]. intros []; [solve_adds|]. apply adds_bind; [apply adds_build|]. solve_adds.
Qed.

(** Updating a task answers with that task. *)
Definition updates_keep_id : Prop :=
  forall (w : W) id body t, fst (env_update_task id body w) = Ok t -> td_id t = id.
Lemma refine_keeps_id model spec task (s s' : Tick W) t :
  updates_keep_id -> refine_task_description model spec task s = (Ok t, s') -> td_id t = td_id task.
Proof.
  intros Hk. unfold refine_task_description. destruct (already_refined _); [by intros [= <- _]|].
  intros ([] & s1 & _ & Hs)%stm_bind_Ok. apply stm_bind_Ok in Hs as ([text|e] & s2 & _ & Hs).
  2: { apply stm_bind_Ok in Hs as ([] & s3 & _ & Hs). by injection Hs as <- _. }
  cbn zeta in Hs. destruct (bool_decide _).
  { apply stm_bind_Ok in Hs as ([] & s3 & _ & Hs). by injection Hs as <- _. }
  apply stm_bind_Ok in Hs as (updated & s3 & Hu & Hs). unfold call in Hu.
  destruct (env_update_task _ _ _) as [u w] eqn:Eu. injection Hu as <- <-.
  destruct u as [t'|e]; apply stm_bind_Ok in Hs as ([] & s4 & _ & Hs); injection Hs as <- _; [|done].
  by eapply Hk; rewrite Eu.
Qed.

(** When an attempt succeeds its last action is the agent's success. *)
Lemma execute_task_ok cfg project task note (s s' : Tick W) exec :
  execute_task tc cfg project task note s = (Ok (Ok exec), s') ->
  exists p id, tk_log s' = tk_log s ++ p ++ [AutoAct_Execute id true] /\ (updates_keep_id -> id = td_id task).
Proof.
  unfold execute_task. intros (r & s1 & Hg & Hs)%stm_bind_Ok.
  apply (adds_call (fun _ => False)) in Hg as (_ & _ & a1 & L1 & F1); [|intros; eauto with envs|done].
  destruct (domain_api _ r) as [spec|e]; [|done]. apply stm_bind_Ok in Hs as (t & s2 & Hr & Hs).
  pose proof (fun Hk => refine_keeps_id _ _ _ _ _ _ Hk Hr) as Hid.
  apply adds_refine in Hr as (_ & _ & a2 & L2 & _). unfold run_tracked_task in Hs.
  apply stm_bind_Ok in Hs as (res & s3 & Hc & Hs). injection Hs as Hres <-. unfold call in Hc.
  destruct (env_execute _ _) as [res' w] eqn:Ew. injection Hc as <- <-. destruct res' as [x|]; [|done].
  exists (a1 ++ a2), (td_id t). split; [|done]. cbn. rewrite L2, L1. by rewrite !app_assoc.
Qed.
Lemma build_ok f c (s s' : Tick W) :
  verify_build_after_agent f c s = (Ok (Ok tt), s') -> tk_log s' = tk_log s ++ [AutoAct_Build true].
Proof.
  unfold verify_build_after_agent. intros (r & s1 & Hc & Hs)%stm_bind_Ok. unfold call in Hc.
  destruct (env_build f c (tk_world s)) as [r' w]. injection Hc as <- <-. injection Hs as Hr <-. by destruct r' as [[]|].
Qed.
Lemma cancelled_read (s s' : Tick W) b :
  is_cancelled s = (Ok b, s') ->
  (b = true <-> stopped (tk_world s)) /\ tk_log s' = tk_log s /\ env_step (tk_world s) (tk_world s') /\ tk_state s' = tk_state s.
Proof.
  unfold is_cancelled, call, stopped. pose proof (step_cancelled (tk_world s)) as Hst.
  destruct (env_cancelled (tk_world s)) as [b' w]. intros [= <- <-]. cbn. by rewrite app_nil_r.
Qed.

Lemma build_green f c (s0 s1 s2 s3 : Tick W) p id task_id :
  (updates_keep_id -> id = task_id) ->
  tk_log s1 = tk_log s0 ++ p ++ [AutoAct_Execute id true] -> tk_log s2 = tk_log s1 ->
  verify_build_after_agent f c s2 = (Ok (Ok tt), s3) ->
  exists add, tk_log s3 = tk_log s0 ++ add /\ green updates_keep_id task_id add.
Proof.
  intros Hk L1 L2 L3%build_ok. exists (p ++ [AutoAct_Execute id true; AutoAct_Build true]). split; [|by exists p, id].
  rewrite L3, L2, L1. by rewrite <-!app_assoc.
Qed.
End Pieces.

(** * A tick *)
Section TickSpec.
Context {W : Type} `{StickyCancel W} `{SerdeValueOk DevLoopState} (tc : TickConfig).
Context (has_executor : bool) (raw_error : json -> string).
Abbreviation T := (stm (Tick W) AutomatonError).
Definition loaded (s : Tick W) : DevLoopState := default DevLoopState_default (state_get DEV_LOOP_STATE_KEY (tk_state s)).

Lemma sticky_rtc (w w' : W) : rtc env_step w w' -> stopped w -> stopped w'.
Proof. induction 1; eauto using sticky. Qed.
Lemma retry_ok cfg project task (s s' : Tick W) exec :
  execute_task_with_build_retry tc cfg project task s = (Ok (Ok exec), s') ->
  stopped (tk_world s') \/ exists add, tk_log s' = tk_log s ++ add
    /\ green (updates_keep_id (W := W)) (td_id task) add.
Proof.
  unfold execute_task_with_build_retry. intros (first & s1 & K1 & Hs)%stm_bind_Ok. destruct first as [exec1|e]; [|done].
  apply execute_task_ok in K1 as (p & id & L1 & Hid).
  apply stm_bind_Ok in Hs as ([] & s2 & K2 & Hs); apply cancelled_read in K2 as (Hb & L2 & S2 & _).
  { injection Hs as _ <-. left. eapply sticky; [done|]. by apply Hb. }
  apply stm_bind_Ok in Hs as (built & s3 & K3 & Hs). destruct built as [[]|err].
  { injection Hs as _ <-. right. by eapply build_green. }
  apply adds_build in K3 as (_ & _ & a3 & L3 & _). apply stm_bind_Ok in Hs as (second & s4 & K4 & Hs).
  destruct second as [exec2|e]; [|done]. apply execute_task_ok in K4 as (p' & id' & L4 & Hid').
  apply stm_bind_Ok in Hs as ([] & s5 & K5 & Hs); apply cancelled_read in K5 as (Hb' & L5 & S5 & _).
  { injection Hs as _ <-. left. eapply sticky; [done|]. by apply Hb'. }
  apply stm_bind_Ok in Hs as (built & s6 & K6 & Hs). injection Hs as Hr <-. destruct built as [[]|]; [|done].
  right. destruct (build_green _ _ _ _ _ _ _ _ _ Hid' L4 L5 K6) as (add & Ladd & Hg).
  exists (p ++ [AutoAct_Execute id true] ++ a3 ++ add). split; [|by do 3 apply green_app].
  rewrite Ladd, L3, L2, L1. by rewrite <-!app_assoc.
Qed.

Lemma bind_run {A B} (m : T A) (f : A -> T B) s r s' :
  (m ≫= f) s = (r, s') ->
  (exists e, m s = (Err e, s') /\ r = Err e) \/ exists a s1, m s = (Ok a, s1) /\ f a s1 = (r, s').
Proof. unfold mbind, stm_bind. destruct (m s) as [[a|e] s1]; [eauto|]. intros [= <- <-]. eauto. Qed.
Lemma cancelled_run {B} (f : bool -> T B) s r s' :
  (is_cancelled ≫= f) s = (r, s') ->
  exists b s1, f b s1 = (r, s') /\ (b = true <-> stopped (tk_world s)) /\ tk_log s1 = tk_log s
    /\ env_step (tk_world s) (tk_world s1) /\ tk_state s1 = tk_state s.
Proof.
  intros [(e & Hc & _)|(b & s1 & Hc & Hf)]%bind_run.
  - unfold is_cancelled, call in Hc. by destruct (env_cancelled _).
  - apply cancelled_read in Hc as (? & ? & ? & ?). exists b, s1. by split_and!.
Qed.
Lemma transition_run {B} id st (f : unit -> T B) s r s' :
  (transition_task id st ≫= f) s = (r, s') ->
  exists s1, f tt s1 = (r, s') /\ tk_log s1 = tk_log s ++ [AutoAct_Transition id st]
    /\ env_step (tk_world s) (tk_world s1) /\ tk_state s1 = tk_state s.
Proof.
  unfold transition_task, mbind, stm_bind, call. pose proof (step_transition (tk_world s) id st) as Hst.
  destruct (env_transition_task id st (tk_world s)) as [x w]. intros Hf. eexists. split; [exact Hf|]. by split_and!.
Qed.
Lemma adds_transition (Q : AutoAct -> Prop) id st : Q (AutoAct_Transition id st) -> adds Q (transition_task id st : T unit).
Proof. intros HQ. unfold transition_task. solve_adds. Qed.
Lemma record_success_log task exec (s s' : Tick W) r :
  record_success task exec s = (r, s') ->
  tk_state s' = tk_state s /\ rtc env_step (tk_world s) (tk_world s')
  /\ exists post, tk_log s' = tk_log s ++ AutoAct_Transition (td_id task) "done" :: post /\ Forall plain post.
Proof.
  unfold record_success. intros (s1 & Hs & L1 & S1 & E1)%transition_run.
  assert (adds plain (_ ← emit (AutomatonEvent_TaskCompleted (td_id task) (ter_notes exec));
      emit (AutomatonEvent_TokenUsage (Some (td_id task)) (ter_input_tokens exec) (ter_output_tokens exec)) : T unit)) as Ha.
  { apply adds_bind; intros; apply adds_emit; auto. }
  apply Ha in Hs as (E2 & R2 & add & L2 & F2). split; [congruence|]. split; [by eapply rtc_l|].
  exists add. split; [|done]. rewrite L2, L1. by rewrite <-app_assoc.
Qed.
(** What finalizing logs: nothing special, or the task as done first. *)
Lemma finalize_log task result (s s' : Tick W) r :
  finalize_task_outcome task result s = (r, s') ->
  tk_state s' = tk_state s
  /\ exists add, tk_log s' = tk_log s ++ add
     /\ (Forall plain add
         \/ (~ stopped (tk_world s) /\ (exists exec, result = Ok exec)
             /\ exists post, add = AutoAct_Transition (td_id task) "done" :: post /\ Forall plain post)).
Proof.
  unfold finalize_task_outcome. intros (b & s1 & Hs & Hb & L1 & S1 & E1)%cancelled_run.
  assert (forall (m : T unit) o, adds plain m -> (m ≫= (fun _ => mret o)) s1 = (r, s') ->
    tk_state s' = tk_state s /\ exists add, tk_log s' = tk_log s ++ add /\ Forall plain add) as Hplain.
  { intros m o Hm Hr. assert (adds plain (m ≫= (fun _ => mret o) : T TaskOutcome)) as Ha by (apply adds_bind; [done|solve_adds]).
    apply Ha in Hr as (E2 & _ & add & L2 & F2). split; [congruence|]. exists add. by rewrite L2, L1. }
  destruct b; [|destruct result as [exec|e]].
  - apply Hplain in Hs as (? & add & ? & ?); [split; [done|]; exists add; auto|].
    unfold record_cancelled. apply adds_bind; [apply adds_transition; auto|]. intros. apply adds_emit; auto.
  - assert (~ stopped (tk_world s)) as Hn by (intros Hst; by apply Hb in Hst).
    assert (exists r', record_success task exec s1 = (r', s')) as [r' Hr].
    { apply bind_run in Hs as [(e & He & _)|([] & s2 & He & Hs)]; [by eexists|]. injection Hs as _ <-. by eexists. }
    apply record_success_log in Hr as (E2 & _ & post & L2 & F2). split; [congruence|].
    exists (AutoAct_Transition (td_id task) "done" :: post). rewrite L2, L1. split; [done|]. right. split_and!; eauto.
  - apply Hplain in Hs as (? & add & ? & ?); [split; [done|]; exists add; auto|].
    unfold record_failure. apply adds_bind; [apply adds_transition; auto|]. intros. apply adds_emit; auto.
Qed.

Lemma save_run {B} st (f : unit -> T B) s r s' :
  (dev_save st ≫= f) s = (r, s') ->
  (exists e, r = Err e /\ s' = s)
  \/ exists s1, f tt s1 = (r, s') /\ loaded s1 = st /\ tk_log s1 = tk_log s /\ tk_world s1 = tk_world s.
Proof.
  unfold dev_save, state_set, mbind, stm_bind. destruct (to_value st) as [v|e] eqn:Ev.
  - intros Hf. right. eexists. split; [exact Hf|]. split; [|done]. unfold loaded, state_get. cbn.
    rewrite lookup_insert_eq. cbn. by rewrite (value_roundtrip _ _ Ev).
  - intros [= <- <-]. left. by exists (AutomatonError_StateSerialization DEV_LOOP_STATE_KEY e).
Qed.
Lemma loaded_state (s s' : Tick W) : tk_state s' = tk_state s -> loaded s' = loaded s.
Proof. intros E. unfold loaded. by rewrite E. Qed.

(** What a tick may do: mark a task done only when green; announce the end of the
    loop at most once, and only when it is over; and take one task off the queue
    when it is to go on. *)
Definition tick_ok (s : Tick W) (r : result AutomatonError TickOutcome) (s' : Tick W) : Prop :=
  exists add, tk_log s' = tk_log s ++ add /\ done_green (updates_keep_id (W := W)) add
  /\ ((finishes add = 0 /\ dls_loop_finished (loaded s') = dls_loop_finished (loaded s)
        /\ (r = Ok TickOutcome_Continue ->
            dls_initialized (loaded s') = true
            /\ (dls_initialized (loaded s) = true ->
                S (length (dls_task_queue (loaded s'))) = length (dls_task_queue (loaded s)))))
       \/ (finishes add = 1 /\ dls_loop_finished (loaded s') = true /\ r <> Ok TickOutcome_Continue)).
Lemma tick_ok_stop s r s' add :
  tk_log s' = tk_log s ++ add -> Forall plain add -> dls_loop_finished (loaded s') = dls_loop_finished (loaded s) ->
  r <> Ok TickOutcome_Continue -> tick_ok s r s'.
Proof.
  intros L F E Hr. exists add. split_and!; [done|by apply done_green_plain|]. left.
  split_and!; [by apply finishes_plain|done|done].
Qed.
(** Earlier plain actions, and finalizing, keep the bound. *)
Lemma finish_ok st o s0 s r s' pre :
  finish_with_outcome st o s = (r, s') -> tk_log s = tk_log s0 ++ pre -> done_green (updates_keep_id (W := W)) pre -> finishes pre = 0 ->
  dls_loop_finished (loaded s) = dls_loop_finished (loaded s0) -> tick_ok s0 r s'.
Proof.
  intros Hf L Hg Hz E. unfold finish_with_outcome in Hf. apply save_run in Hf as [(e & -> & ->)|(s1 & Hf & Hl & L1 & W1)].
  { exists pre. split_and!; [done|done|]. left. by split_and!. }
  set (ev := AutomatonEvent_LoopFinished _ _ _) in Hf.
  assert (exists x, tk_log s' = tk_log s1 ++ [AutoAct_Event ev x] /\ tk_state s' = tk_state s1 /\ r <> Ok TickOutcome_Continue)
    as (x & L2 & E2 & Hr).
  { unfold emit, try_send, mbind, stm_bind, call in Hf. destruct (env_send ev (tk_world s1)) as [[] w];
      injection Hf as <- <-; by eexists. }
  exists (pre ++ [AutoAct_Event ev x]). rewrite L2, L1, L. split_and!; [by rewrite app_assoc|by apply done_green_snoc|].
  right. rewrite finishes_app, Hz. split_and!; [done| |done]. by rewrite (loaded_state _ _ E2), Hl.
Qed.
Lemma initialize_ok cfg st s r s' :
  loaded s = st -> dls_initialized st = false ->
  initialize_queue has_executor cfg st s = (r, s') -> tick_ok s r s'.
Proof.
  intros Hst Hi. unfold initialize_queue. destruct has_executor; cbn [negb]; [|intros [= <- <-]].
  2: { eapply tick_ok_stop; [by rewrite app_nil_r|constructor|done|done]. }
  intros [(e & Hc & _)|(ts & s1 & Hc & Hs)]%bind_run; [unfold call in Hc; by destruct (env_list_tasks _ _)|].
  apply (adds_call plain) in Hc as (E1 & R1 & a1 & L1 & F1); [|intros; eauto with envs|by constructor].
  apply bind_run in Hs as [(e & Hl & ->)|(tasks & s2 & Hl & Hs)]; injection Hl as Hl <-.
  { eapply tick_ok_stop; [exact L1|done|by rewrite (loaded_state _ _ E1)|done]. }
  destruct tasks as [|t ts'].
  { eapply finish_ok; [exact Hs|exact L1|by apply done_green_plain|by apply finishes_plain|by rewrite (loaded_state _ _ E1)]. }
  apply save_run in Hs as [(e & -> & ->)|(s3 & Hs & Hl3 & L3 & _)].
  { eapply tick_ok_stop; [exact L1|done|by rewrite (loaded_state _ _ E1)|done]. }
  apply bind_run in Hs as [(e & He & ->)|([] & s4 & He & Hs)].
  - apply (adds_emit plain) in He as (E4 & _ & a4 & L4 & F4); [|auto].
    eapply tick_ok_stop; [by rewrite L4, L3, L1, <-app_assoc|by apply Forall_app| |done].
    rewrite (loaded_state _ _ E4), Hl3. cbn. by rewrite <-Hst.
  - injection Hs as <- <-. apply (adds_emit plain) in He as (E4 & _ & a4 & L4 & F4); [|auto].
    exists (a1 ++ a4). assert (Forall plain (a1 ++ a4)) as HF by by apply Forall_app.
    split_and!; [by rewrite L4, L3, L1, <-app_assoc|by apply done_green_plain|]. left.
    rewrite (loaded_state _ _ E4), Hl3. cbn. split_and!; [by apply finishes_plain|by rewrite <-Hst|].
    intros _. split; [done|]. rewrite Hst, Hi. done.
Qed.

Lemma initial_queue_length tasks : length (initial_queue tasks) <= length tasks.
Proof.
  unfold initial_queue. rewrite length_fmap.
  assert (forall t l, length (insert_task t l) = S (length l)) as Hi.
  { intros t l. induction l as [|u l IH]; cbn; [done|]. destruct (_ <=? _)%Z; cbn; [done|]. by rewrite IH. }
  assert (forall l, length (sort_tasks l) = length l) as Hs.
  { intros l. induction l as [|t l IH]; [done|]. change (length (insert_task t (sort_tasks l)) = S (length l)).
    by rewrite Hi, IH. }
  rewrite Hs. induction tasks as [|t tasks IH]; cbn; [done|]. destruct (negb _); cbn; lia.
Qed.
(** The queue holds at most the tasks the domain lists. *)
Lemma initialize_bound cfg st s s' N :
  (forall (w : W) id ts, fst (env_list_tasks id w) = Ok ts -> length ts <= N) ->
  initialize_queue has_executor cfg st s = (Ok TickOutcome_Continue, s') ->
  length (dls_task_queue (loaded s')) <= N.
Proof.
  intros Hlist. unfold initialize_queue. destruct has_executor; cbn [negb]; [|done].
  intros (ts & s1 & Hc & Hs)%stm_bind_Ok. unfold call in Hc.
  destruct (env_list_tasks (dlc_project_id cfg) (tk_world s)) as [r w] eqn:Er. injection Hc as <- <-.
  apply stm_bind_Ok in Hs as (tasks & s2 & Hl & Hs). destruct r as [l|e]; [|done]. injection Hl as -> <-.
  assert (length tasks <= N) as Hn by (eapply Hlist; by rewrite Er). destruct tasks as [|t tasks].
  { unfold finish_with_outcome in Hs. apply save_run in Hs as [(e & ? & _)|(s3 & Hs & _)]; [done|].
    by apply stm_bind_Ok in Hs as ([] & s4 & _ & Hs). }
  apply save_run in Hs as [(e & ? & _)|(s3 & Hs & Hl3 & _)]; [done|].
  apply stm_bind_Ok in Hs as ([] & s4 & He & Hs). injection Hs as <-.
  apply (adds_emit plain) in He as (E4 & _); [|auto]. rewrite (loaded_state _ _ E4), Hl3. cbn [dls_task_queue].
  pose proof (initial_queue_length (t :: tasks)). lia.
Qed.
Lemma dev_tick_bound s s' N :
  (forall (w : W) id ts, fst (env_list_tasks id w) = Ok ts -> length ts <= N) ->
  dls_initialized (loaded s) = false ->
  dev_tick tc has_executor raw_error s = (Ok TickOutcome_Continue, s') -> length (dls_task_queue (loaded s')) <= N.
Proof.
  intros Hlist Hi. unfold dev_tick. intros (b & s1 & Hs & _ & _ & _ & E1)%cancelled_run. destruct b; [done|].
  apply stm_bind_Ok in Hs as (cfg & s2 & Hl & Hs). injection Hl as _ <-.
  apply stm_bind_Ok in Hs as (st & s2 & Hd & Hs). injection Hd as Hd <-.
  fold (loaded s1) in Hd. rewrite (loaded_state _ _ E1) in Hd. rewrite <-Hd, Hi in Hs.
  by eapply initialize_bound.
Qed.

(** The part of a tick that works on a fetched task. *)
Definition work_on (cfg : DevLoopConfig) (project : ProjectDescriptor) (task : TaskDescriptor) : T TaskOutcome :=
  _ ← transition_task (td_id task) "in_progress";
  _ ← emit (AutomatonEvent_TaskStarted (td_id task) (td_title task));
  result ← execute_task_with_build_retry tc cfg project task;
  finalize_task_outcome task result.
Lemma work_log cfg project task (s s' : Tick W) r :
  work_on cfg project task s = (r, s') ->
  tk_state s' = tk_state s /\ exists add, tk_log s' = tk_log s ++ add /\ done_green (updates_keep_id (W := W)) add /\ finishes add = 0.
Proof.
  unfold work_on. intros (s1 & Hs & L1 & _ & E1)%transition_run.
  assert (forall l, Forall plain l -> done_green (updates_keep_id (W := W)) l /\ finishes l = 0) as Hpl
    by (intros l Hl; split; [by apply done_green_plain|by apply finishes_plain]).
  assert (Forall plain [AutoAct_Transition (td_id task) "in_progress"]) as Ht by (repeat constructor).
  apply bind_run in Hs as [(e & He & ->)|([] & s2 & He & Hs)];
    apply (adds_emit plain) in He as (E2 & _ & a2 & L2 & F2); auto.
  { split; [congruence|]. exists ([AutoAct_Transition (td_id task) "in_progress"] ++ a2).
    split; [by rewrite L2, L1, <-app_assoc|]. apply Hpl. by apply Forall_app. }
  apply bind_run in Hs as [(e & He & ->)|(res & s3 & He & Hs)].
  { apply adds_retry in He as (E3 & _ & a3 & L3 & F3). split; [congruence|].
    exists ([AutoAct_Transition (td_id task) "in_progress"] ++ a2 ++ a3).
    split; [by rewrite L3, L2, L1, <-!app_assoc|]. apply Hpl. by rewrite !Forall_app. }
  pose proof He as (E3 & _ & a3 & L3 & F3)%adds_retry.
  apply finalize_log in Hs as (E4 & a4 & L4 & Hcase). split; [congruence|].
  set (pre := [AutoAct_Transition (td_id task) "in_progress"] ++ a2 ++ a3).
  assert (Forall plain pre) as Fpre by (unfold pre; by rewrite !Forall_app).
  exists (pre ++ a4). split; [unfold pre; by rewrite L4, L3, L2, L1, <-!app_assoc|].
  destruct Hcase as [F4|(Hn & (exec & ->) & post & -> & F4)]; [apply Hpl; by apply Forall_app|].
  apply retry_ok in He as [Hst|(add & Ladd & Hg)]; [done|].
  assert (a3 = add) as -> by (rewrite L3 in Ladd; by apply app_inv_head in Ladd).
  rewrite cons_middle, app_assoc. split.
  - apply done_green_app; [|by apply plain_not_done]. apply done_green_snoc; [by apply done_green_plain|].
    intros _. unfold pre. by do 2 apply green_app.
  - rewrite !finishes_app, (finishes_plain pre), (finishes_plain post) by done. done.
Qed.
(** From a state the loop has just saved, after plain actions [pre]. *)
Lemma settle_ok s0 st s outcome r s' pre :
  settle st outcome s = (r, s') -> loaded s = st -> tk_log s = tk_log s0 ++ pre -> done_green (updates_keep_id (W := W)) pre -> finishes pre = 0 ->
  dls_initialized st = true -> dls_loop_finished st = dls_loop_finished (loaded s0) ->
  S (length (dls_task_queue st)) = length (dls_task_queue (loaded s0)) -> tick_ok s0 r s'.
Proof.
  intros Hr Hl L Hg Hz Hi Hf Hq.
  assert (forall r' s'', tk_log s'' = tk_log s -> loaded s'' = st -> r' <> Ok TickOutcome_Continue -> tick_ok s0 r' s'') as Hstop.
  { intros r' s'' L' Hl' Hr'. exists pre. rewrite L', L, Hl'. split_and!; [done|done|]. left. by split_and!. }
  destruct outcome; cbn [settle] in Hr.
  - apply save_run in Hr as [(e & -> & ->)|(s5 & Hr & Hl5 & L5 & _)]; [by apply Hstop|]. injection Hr as <- <-.
    exists pre. split_and!; [by rewrite L5|done|]. left. rewrite Hl5. cbn. by split_and!.
  - apply save_run in Hr as [(e & -> & ->)|(s5 & Hr & Hl5 & L5 & _)]; [by apply Hstop|].
    eapply finish_ok; [exact Hr|by rewrite L5|done|done|by rewrite Hl5].
  - injection Hr as <- <-. by apply Hstop.
Qed.
Lemma fetched_ok cfg project task s0 st s r s' pre :
  (_ ← transition_task (td_id task) "in_progress";
   _ ← emit (AutomatonEvent_TaskStarted (td_id task) (td_title task));
   result ← execute_task_with_build_retry tc cfg project task;
   outcome ← finalize_task_outcome task result;
   settle st outcome) s = (r, s') ->
  loaded s = st -> tk_log s = tk_log s0 ++ pre -> Forall plain pre -> dls_initialized st = true ->
  dls_loop_finished st = dls_loop_finished (loaded s0) ->
  S (length (dls_task_queue st)) = length (dls_task_queue (loaded s0)) -> tick_ok s0 r s'.
Proof.
  intros Hs Hl L F Hi Hf Hq.
  assert ((work_on cfg project task ≫= settle st) s = (r, s')) as Hw.
  { rewrite <-Hs. unfold work_on, mbind, stm_bind.
    destruct (transition_task _ _ s) as [[[]|e] s1]; [|done]. destruct (emit _ s1) as [[[]|e] s2]; [|done].
    by destruct (execute_task_with_build_retry _ _ _ _ s2) as [[res|e] s3]. }
  apply bind_run in Hw as [(e & Hw & ->)|(outcome & s4 & Hw & Hr)]; apply work_log in Hw as (E4 & a4 & L4 & Hg & Hz).
  - exists (pre ++ a4). rewrite L4, L, <-app_assoc. split_and!; [done|by apply done_green_cat; [apply done_green_plain|]|].
    left. rewrite finishes_app, (finishes_plain pre F), (loaded_state _ _ E4), Hl. by split_and!.
  - eapply settle_ok; [exact Hr|by rewrite (loaded_state _ _ E4)|by rewrite L4, L, <-app_assoc| | |done..].
    + apply done_green_cat; [by apply done_green_plain|done].
    + by rewrite finishes_app, (finishes_plain pre F).
Qed.
Lemma process_ok cfg st s r s' :
  loaded s = st -> dls_initialized st = true ->
  process_next_task tc cfg st s = (r, s') -> tick_ok s r s'.
Proof.
  intros Hst Hi. unfold process_next_task. destruct (dls_task_queue st) as [|id rest] eqn:Eq.
  { intros Hs. eapply finish_ok; [exact Hs|by rewrite app_nil_r|by apply done_green_plain|done|done]. }
  intros [(e & -> & ->)|(s1 & Hs & Hl1 & L1 & _)]%save_run.
  { eapply tick_ok_stop; [by rewrite app_nil_r|constructor|done|done]. }
  assert (adds plain (get_project (Some id) (dlc_project_id cfg) : T _)) as Hgp by (unfold get_project; solve_adds).
  apply bind_run in Hs as [(e & He & ->)|(project & s2 & He & Hs)]; apply Hgp in He as (E2 & _ & a2 & L2 & F2).
  { eapply tick_ok_stop; [by rewrite L2, L1|done| |done]. rewrite (loaded_state _ _ E2), Hl1. cbn. by rewrite <-Hst. }
  assert (adds plain (call (env_get_task id) (fun _ => []) : T _)) as Hgt by solve_adds.
  apply bind_run in Hs as [(e & He & ->)|(fetched & s3 & He & Hs)]; apply Hgt in He as (E3 & _ & a3 & L3 & F3).
  { eapply tick_ok_stop; [by rewrite L3, L2, L1, <-app_assoc|by apply Forall_app| |done].
    rewrite (loaded_state _ _ E3), (loaded_state _ _ E2), Hl1. cbn. by rewrite <-Hst. }
  assert (Forall plain (a2 ++ a3)) as F23 by by apply Forall_app.
  assert (loaded s3 = with_queue st rest) as Hl3 by by rewrite (loaded_state _ _ E3), (loaded_state _ _ E2), Hl1.
  assert (tk_log s3 = tk_log s ++ a2 ++ a3) as L03 by by rewrite L3, L2, L1, <-app_assoc.
  destruct fetched as [task|e].
  - eapply fetched_ok; [exact Hs|exact Hl3|exact L03|done|done|by rewrite Hst|by rewrite Hst, Eq].
  - injection Hs as <- <-. exists (a2 ++ a3). split_and!; [done|by apply done_green_plain|]. left. rewrite Hl3, Hst. cbn.
    split_and!; [by apply finishes_plain|done|]. intros _. split; [done|]. by rewrite Eq.
Qed.
Lemma dev_tick_ok s r s' : dev_tick tc has_executor raw_error s = (r, s') -> tick_ok s r s'.
Proof.
  unfold dev_tick. intros (b & s1 & Hs & _ & L1 & _ & E1)%cancelled_run.
  assert (forall r s', tick_ok s1 r s' -> tick_ok s r s') as Hmv.
  { intros r' s'' (add & L & Hg & Hc). exists add. rewrite L, L1. split_and!; [done|done|].
    by rewrite <-(loaded_state _ _ E1). }
  apply Hmv. destruct b.
  { injection Hs as <- <-. eapply tick_ok_stop; [by rewrite app_nil_r|constructor|done|done]. }
  apply bind_run in Hs as [(e & Hl & ->)|(cfg & s2 & Hl & Hs)]; injection Hl as Hl <-.
  { eapply tick_ok_stop; [by rewrite app_nil_r|constructor|done|done]. }
  apply bind_run in Hs as [(e & Hd & ->)|(st & s2 & Hd & Hs)]; [done|]. injection Hd as Hd <-.
  destruct (dls_initialized st) eqn:Ei; [eapply process_ok|eapply initialize_ok]; eauto.
Qed.
End TickSpec.

(** * The run loop *)
Section RunLoop.
Context {W : Type} `{AutoEnv W} (tc : TickConfig).
Abbreviation T := (stm (Tick W) AutomatonError).
Variables (tick : T TickOutcome).

Lemma within_ok_of {A} (d : A) (m : T A) s a s' : adds plain m -> ok_of d m s = (a, s') -> within plain s s'.
Proof. intros Hm. unfold ok_of. destruct (m s) as [[x|e] s1] eqn:E; intros [= <- <-]; by eapply Hm. Qed.
Lemma adds_status_send (st : AutomatonStatus) e :
  (forall r, plain (AutoAct_Event e r)) -> adds plain (_ ← set_status st; send_quietly e : T unit).
Proof. intros He. apply adds_bind; [solve_adds|]. intros. by apply adds_send_quietly. Qed.
Lemma adds_paused : adds plain (is_paused : T bool).
Proof. unfold is_paused. solve_adds. Qed.
Lemma adds_pause_changed : adds plain (call env_pause_changed (fun _ => []) : T PauseWait).
Proof. solve_adds. Qed.
#[local] Hint Resolve adds_cancelled adds_paused adds_pause_changed : core.
Lemma await_within fuel s r s' : await_resume tc fuel s = (r, s') -> within plain s s'.
Proof.
  revert s. induction fuel as [|fuel IH]; intros s; cbn [await_resume]; [intros [= <- <-]; apply within_refl|].
  destruct (ok_of false is_cancelled s) as [[] s1] eqn:E1; apply within_ok_of in E1; auto; [by intros [= <- <-]|].
  destruct (ok_of PauseWait_Never _ s1) as [pw s2] eqn:E2; apply within_ok_of in E2; auto.
  pose proof (within_trans _ _ _ _ E1 E2) as E12.
  destruct pw; [|by intros [= <- <-]..].
  destruct (ok_of false is_paused s2) as [[] s3] eqn:E3; apply within_ok_of in E3; auto.
  - intros Hs%IH. eapply within_trans; [exact E12|]. by eapply within_trans.
  - destruct (ok_of tt _ s3) as [u s4] eqn:E4. apply within_ok_of in E4; [|apply adds_status_send; auto].
    intros [= <- <-]. eapply within_trans; [exact E12|]. by eapply within_trans.
Qed.

(** Along the loop [I] holds before every tick and [J] at the end. *)
Lemma run_loop_inv (I J : Tick W -> Prop) :
  (forall s s', within plain s s' -> I s -> I s') -> (forall s s', within plain s s' -> J s -> J s') ->
  (forall s, I s -> J s) ->
  (forall s r s', I s -> tick s = (r, s') -> (r = Ok TickOutcome_Continue -> I s') /\ J s') ->
  forall fuel s e s', I s -> run_loop tc tick fuel s = (e, s') -> J s'.
Proof.
  intros HI HJ HIJ Ht fuel.
  assert (forall fuel' s e s', (forall s e s', I s -> run_loop tc tick fuel' s = (e, s') -> J s') -> I s ->
    match run_tick tc tick s with
    | (Some status, s) => (RunEnd_Finished status, s)
    | (None, s) => run_loop tc tick fuel' s
    end = (e, s') -> J s') as Hgo.
  { intros fuel' s e s' IH Hs. unfold run_tick. destruct (tick s) as [[[| |]|err] s1] eqn:Et;
      destruct (Ht _ _ _ Hs Et) as [HC HE]; [intros Hr; eapply IH; [by apply HC|exact Hr]|by intros [= _ <-]..|].
    destruct (ok_of tt _ s1) as [u s2] eqn:E2. apply within_ok_of in E2; [|apply adds_send_quietly; auto].
    intros [= _ <-]. by eapply HJ. }
  induction fuel as [|fuel IH]; intros s e s' Hs; cbn [run_loop]; [intros [= _ <-]; auto|].
  destruct (ok_of false is_cancelled s) as [[] s1] eqn:E1; apply within_ok_of in E1; auto;
    pose proof (HI _ _ E1 Hs) as Hs1; [intros [= _ <-]; auto|].
  destruct (ok_of false is_paused s1) as [[] s2] eqn:E2; apply within_ok_of in E2; auto;
    pose proof (HI _ _ E2 Hs1) as Hs2; [|by apply Hgo].
  destruct (ok_of tt _ s2) as [u s3] eqn:E3. apply within_ok_of in E3; [|apply adds_status_send; auto].
  pose proof (HI _ _ E3 Hs2) as Hs3. destruct (await_resume tc fuel s3) as [[] s4] eqn:E4;
    apply await_within in E4; pose proof (HI _ _ E4 Hs3) as Hs4; [|intros [= _ <-]; auto..].
  destruct (ok_of false is_cancelled s4) as [[] s5] eqn:E5; apply within_ok_of in E5; auto;
    pose proof (HI _ _ E5 Hs4) as Hs5; [intros [= _ <-]; auto|by apply Hgo].
Qed.
End RunLoop.

(** * Theorems *)
Section DevLoopRun.
Context {W : Type} `{StickyCancel W} `{SerdeValueOk DevLoopState} (tc : TickConfig).
Context (has_executor : bool) (raw_error : json -> string).
Abbreviation T := (stm (Tick W) AutomatonError).
Definition dev_loop (fuel : nat) (s : Tick W) : RunEnd * Tick W :=
  run_automaton tc (dev_on_install tc raw_error) (dev_tick tc has_executor raw_error) dev_on_stop fuel s.

Lemma adds_install : adds plain (dev_on_install tc raw_error : T unit).
Proof. unfold dev_on_install. apply adds_bind; [solve_adds|]. intros. apply adds_emit; auto. Qed.
Lemma not_done_event e r : is_done_transition (AutoAct_Event e r) = false.
Proof. done. Qed.
(** The end of a run only sends events. *)
Lemma wind_down_log status (s : Tick W) : exists add,
  tk_log (wind_down tc (dev_on_stop : T unit) status s) = tk_log s ++ add
  /\ Forall (fun a => is_done_transition a = false) add
  /\ finishes add = (if dls_loop_finished (loaded s) then 0 else 1).
Proof.
  unfold wind_down. destruct (dev_on_stop s) as [r s1] eqn:E1. cbn [snd].
  destruct (ok_of tt _ s1) as [u s2] eqn:E2.
  apply (within_ok_of) in E2 as (_ & _ & a2 & L2 & F2).
  2: { apply adds_bind; [solve_adds|]. intros. apply adds_bind; intros; apply adds_send_quietly; auto. }
  assert (exists a1, tk_log s1 = tk_log s ++ a1 /\ Forall (fun a => is_done_transition a = false) a1
    /\ finishes a1 = (if dls_loop_finished (loaded s) then 0 else 1)) as (a1 & L1 & F1 & Hn).
  { unfold dev_on_stop, dev_load, mbind, stm_bind, gets in E1. fold (loaded s) in E1.
    destruct (dls_loop_finished (loaded s)).
    - injection E1 as <- <-. exists []. by rewrite app_nil_r.
    - unfold emit, try_send, mbind, stm_bind, call in E1. set (ev := AutomatonEvent_LoopFinished _ _ _) in E1.
      destruct (env_send ev (tk_world s)) as [x w]. exists [AutoAct_Event ev x].
      destruct x; injection E1 as <- <-; (split_and!; [done|by repeat constructor|done]). }
  exists (a1 ++ a2). cbn [snd]. rewrite L2, L1, finishes_app, (finishes_plain a2 F2), Hn.
  split_and!; [by rewrite app_assoc|apply Forall_app; split; [done|by apply plain_not_done]|lia].
Qed.
(** From the install hook to the end of the run loop. *)
Lemma dev_loop_inv (I J : Tick W -> Prop) fuel s e s' :
  (forall s s', within plain s s' -> I s -> I s') -> (forall s s', within plain s s' -> J s -> J s') -> (forall s, I s -> J s) ->
  (forall s r s', I s -> tick_ok s r s' -> (r = Ok TickOutcome_Continue -> I s') /\ J s') ->
  I s -> dev_loop fuel s = (e, s') ->
  J s' \/ exists s1 status, J s1 /\ e = RunEnd_Finished status /\ s' = wind_down tc (dev_on_stop : T unit) status s1.
Proof.
  intros HI HJ HIJ Ht Hs. unfold dev_loop, run_automaton. destruct (dev_on_install tc raw_error s) as [[[]|err] s1] eqn:E1;
    apply adds_install in E1; pose proof (HI _ _ E1 Hs) as Hs1.
  - destruct (ok_of tt _ s1) as [u s2] eqn:E2. apply within_ok_of in E2; [|apply adds_status_send; auto].
    destruct (run_loop tc _ fuel s2) as [e3 s3] eqn:E3.
    assert (J s3) as H3'.
    { revert E3. apply (run_loop_inv tc _ I J HI HJ HIJ); [|by eapply HI].
      intros t r t' It Hd. eapply Ht; [exact It|]. by eapply dev_tick_ok. }
    destruct e3 as [status| |]; intros [= <- <-]; [|by left..]. right. by exists s3, status.
  - destruct (ok_of tt _ s1) as [u s2] eqn:E2. intros [= _ <-]. left. cbn. apply within_ok_of in E2; [eapply HJ; eauto|].
    apply adds_bind; [solve_adds|]. intros. apply adds_bind; intros; apply adds_send_quietly; auto.
Qed.


(** The end of a dev loop is announced once: in a run that was installed and
    ended, exactly one [LoopFinished] event was offered to the channel, whichever
    way the run ended. *)
Theorem loop_finished_announced_once fuel (s : Tick W) s1 status s' :
  tk_log s = [] -> tk_state s = ∅ -> dev_on_install tc raw_error s = (Ok tt, s1) ->
  dev_loop fuel s = (RunEnd_Finished status, s') -> finishes (tk_log s') = 1.
Proof.
  intros L0 S0 Hi Hd.
  set (I := fun s : Tick W => finishes (tk_log s) = 0 /\ dls_loop_finished (loaded s) = false).
  set (J := fun s : Tick W => finishes (tk_log s) = if dls_loop_finished (loaded s) then 1 else 0).
  assert (forall s s', within plain s s' -> finishes (tk_log s') = finishes (tk_log s) /\ loaded s' = loaded s) as Hw.
  { intros t t' (E & _ & add & L & F). rewrite L, finishes_app, (finishes_plain add F), (loaded_state _ _ E). split; [lia|done]. }
  assert (I s1) as HI1.
  { apply adds_install in Hi as Hi'. unfold I. destruct (Hw _ _ Hi') as [-> ->]. rewrite L0. unfold loaded. by rewrite S0. }
  unfold dev_loop, run_automaton in Hd. rewrite Hi in Hd.
  destruct (ok_of tt _ s1) as [u s2] eqn:E2. apply within_ok_of in E2; [|apply adds_status_send; auto].
  destruct (run_loop tc _ fuel s2) as [[st| |] s3] eqn:E3; [|done..]. injection Hd as -> <-.
  assert (J s3) as HJ3.
  { revert E3. apply (run_loop_inv tc _ I J).
    - intros t t' Hin. unfold I. by destruct (Hw _ _ Hin) as [-> ->].
    - intros t t' Hin. unfold J. by destruct (Hw _ _ Hin) as [-> ->].
    - intros t [H1' H2']. unfold J. by rewrite H2'.
    - intros t r t' [Hz Hf] Hd. apply dev_tick_ok in Hd as (add & L & _ & Hc). unfold I, J. rewrite L, finishes_app, Hz.
      destruct Hc as [(-> & -> & _)|(-> & -> & Hr)]; [by rewrite Hf|done].
    - unfold I. by destruct (Hw _ _ E2) as [-> ->]. }
  destruct (wind_down_log status s3) as (add & L & _ & Hn). rewrite L, finishes_app, HJ3, Hn.
  by destruct (dls_loop_finished (loaded s3)).
Qed.

(** One turn of a loop that is not paused. *)
Lemma run_loop_turn (s : Tick W) N :
  (forall w : W, (env_paused w).1 = false) ->
  (forall (w : W) id ts, fst (env_list_tasks id w) = Ok ts -> length ts <= N) ->
  (exists status s', forall fuel,
     run_loop tc (dev_tick tc has_executor raw_error) (S fuel) s = (RunEnd_Finished status, s'))
  \/ exists s', dls_initialized (loaded s') = true
       /\ (dls_initialized (loaded s) = true -> S (length (dls_task_queue (loaded s'))) = length (dls_task_queue (loaded s)))
       /\ (dls_initialized (loaded s) = false -> length (dls_task_queue (loaded s')) <= N)
       /\ forall fuel, run_loop tc (dev_tick tc has_executor raw_error) (S fuel) s
                     = run_loop tc (dev_tick tc has_executor raw_error) fuel s'.
Proof.
  intros Hp Hlist. destruct (ok_of false is_cancelled s) as [[] s1] eqn:E1;
    [left; eexists _, s1; intros fuel; cbn [run_loop]; by rewrite E1|].
  destruct (ok_of false is_paused s1) as [p s2] eqn:E2.
  assert (p = false) as -> by (unfold ok_of, is_paused, call in E2; specialize (Hp (tk_world s1));
    destruct (env_paused (tk_world s1)) as [b w]; cbn in Hp, E2; congruence).
  pose proof (within_ok_of _ _ _ _ _ (adds_cancelled plain) E1) as (S1 & _).
  pose proof (within_ok_of _ _ _ _ _ adds_paused E2) as (S2 & _).
  destruct (run_tick tc (dev_tick tc has_executor raw_error) s2) as [[status|] s3] eqn:E3;
    [left; exists status, s3; intros fuel; cbn [run_loop]; by rewrite E1, E2, E3|].
  assert (dev_tick tc has_executor raw_error s2 = (Ok TickOutcome_Continue, s3)) as Et
    by (unfold run_tick in E3; destruct (dev_tick _ _ _ s2) as [[[| |]|e] t]; [congruence|done..|]; by destruct (ok_of _ _ t)).
  pose proof (dev_tick_bound tc has_executor raw_error s2 s3 N Hlist) as Hb.
  rewrite (loaded_state _ _ S2), (loaded_state _ _ S1) in Hb.
  pose proof (fun Hi => Hb Hi Et) as Hb'.
  apply dev_tick_ok in Et as (add & _ & _ & [(_ & _ & Hq)|(_ & _ & Hn)]); [|done].
  destruct (Hq eq_refl) as [Hi3 Hq3]. rewrite (loaded_state _ _ S2), (loaded_state _ _ S1) in Hq3.
  right. exists s3. split_and!; [done|done|done|]. intros fuel. cbn [run_loop]. by rewrite E1, E2, E3.
Qed.
(** Once the queue is filled, the loop takes at most one tick more than it has
    tasks. *)
Lemma run_loop_drains k (s : Tick W) N :
  (forall w : W, (env_paused w).1 = false) ->
  (forall (w : W) id ts, fst (env_list_tasks id w) = Ok ts -> length ts <= N) ->
  dls_initialized (loaded s) = true -> length (dls_task_queue (loaded s)) = k ->
  exists status s', forall fuel, k < fuel ->
  run_loop tc (dev_tick tc has_executor raw_error) fuel s = (RunEnd_Finished status, s').
Proof.
  intros Hp Hlist. revert s. induction k as [|k IH]; intros s Hi Hk;
    (destruct (run_loop_turn s N Hp Hlist) as [(status & s' & Hr)|(s3 & Hi3 & Hq3 & _ & Hr)];
     [exists status, s'; intros [|fuel] Hf; [lia|apply Hr]|]); specialize (Hq3 Hi); [lia|].
  destruct (IH s3 Hi3) as (status & s' & Hr'); [lia|]. exists status, s'.
  intros [|fuel] Hf; [lia|]. rewrite Hr. apply Hr'. lia.
Qed.

(** C11: a dev loop that is not paused ends, whatever its calls answer: started
    afresh on a project that never lists more than [N] tasks, it has stopped,
    failed or completed after [N + 2] ticks: one to fill the queue, one per task
    and one to find the queue empty. *)
Theorem dev_loop_terminates (s : Tick W) N :
  (forall w : W, (env_paused w).1 = false) ->
  (forall (w : W) id ts, fst (env_list_tasks id w) = Ok ts -> length ts <= N) ->
  tk_state s = ∅ ->
  exists status s', forall fuel, N + 2 <= fuel -> dev_loop fuel s = (RunEnd_Finished status, s').
Proof.
  intros Hp Hlist Hempty. unfold dev_loop, run_automaton.
  destruct (dev_on_install tc raw_error s) as [[[]|e] s1] eqn:E1; [|by eexists _, _].
  destruct (ok_of tt _ s1) as [u s2] eqn:E2.
  assert (dls_initialized (loaded s2) = false) as Hi.
  { assert (adds plain (dev_on_install tc raw_error : T unit)) as Ha.
    { unfold dev_on_install. apply adds_bind; [solve_adds|]. intros. apply adds_emit. auto. }
    apply Ha in E1 as (S1 & _). apply within_ok_of in E2 as (S2 & _).
    - unfold loaded, state_get. rewrite S2, S1, Hempty. by rewrite lookup_empty.
    - apply adds_status_send. auto. }
  assert (exists status s', forall fuel, N + 2 <= fuel ->
    run_loop tc (dev_tick tc has_executor raw_error) fuel s2 = (RunEnd_Finished status, s')) as (status & s' & Hr);
    [|exists status, (wind_down tc dev_on_stop status s'); intros fuel Hf; by rewrite (Hr fuel Hf)].
  destruct (run_loop_turn s2 N Hp Hlist) as [(status & s' & Hr)|(s3 & Hi3 & _ & Hb & Hr)].
  - exists status, s'. intros [|fuel] Hf; [lia|apply Hr].
  - destruct (run_loop_drains _ s3 N Hp Hlist Hi3 eq_refl) as (status & s' & Hr'). specialize (Hb Hi).
    exists status, s'. intros [|fuel] Hf; [lia|]. rewrite Hr. apply Hr'. lia.
Qed.
End DevLoopRun.

(** The note of a failed build is cut to the configured size and the marker. *)
Lemma ceil_from_ge fuel s n : n <= ceil_from fuel s n.
Proof. revert n. induction fuel as [|fuel IH]; intros n; cbn; [lia|]. destruct (is_char_boundary _ _); [lia|]. specialize (IH (S n)). lia. Qed.
Lemma truncated_note_bounded message max :
  String.length (truncate_for_retry message max) <= max + 23.
Proof.
  unfold truncate_for_retry. destruct (Nat.leb_spec (String.length message) max) as [|Hgt]; [lia|].
  set (half := max / 2). assert (2 * half <= max) as Hh by (unfold half; apply Nat.Div0.mul_div_le).
  pose proof (str_take_length (floor_char_boundary message half) message) as Ht.
  assert (floor_char_boundary message half <= half) as Hfl.
  { unfold floor_char_boundary. etrans; [apply char_boundary_le|]. lia. }
  assert (String.length message - half <= ceil_char_boundary message (String.length message - half)) as Hc.
  { unfold ceil_char_boundary. rewrite Nat.min_l by lia. apply ceil_from_ge. }
  rewrite !string_app_length, str_drop_length. cbn [String.length nl]. unfold nl. cbn [String.length]. lia.
Qed.

(** * Examples *)
Module DevLoopExample.
(** A world with one project of one task: whether the token is cancelled, whether
    the automaton is paused and for good, whether the channel is full, and the
    answers of the coming builds. *)
Record Lab := MkLab { lab_cancelled : bool; lab_paused : bool; lab_full : bool; lab_builds : list bool }.
Definition task : TaskDescriptor := {|
  td_id := "t1"; td_spec_id := "s1"; td_project_id := "p1"; td_title := "Add parser"; td_description := "write it";
  td_status := "ready"; td_dependencies := []; td_order := 1 |}.
Definition project : ProjectDescriptor := {|
  pd_id := "p1"; pd_name := "demo"; pd_path := "/w"; pd_description := None; pd_tech_stack := None;
  pd_build_command := Some "make"; pd_test_command := None |}.
Definition spec : SpecDescriptor := {|
  sd_id := "s1"; sd_project_id := "p1"; sd_title := "Parser"; sd_content := "spec"; sd_order := 0; sd_parent_id := None; sd_content_hash := None |}.
#[local] Instance lab_env : AutoEnv Lab := {|
  env_cancelled w := (lab_cancelled w, w);
  env_paused w := (lab_paused w, w);
  env_pause_changed w := (PauseWait_Never, MkLab true (lab_paused w) (lab_full w) (lab_builds w));
  env_send e w := (match e with AutomatonEvent_LoopFinished _ _ _ => if lab_full w then SendResult_Full else SendResult_Sent
                   | _ => SendResult_Sent end, w);
  env_list_tasks _ w := (Ok [task], w);
  env_get_project _ w := (Ok project, w);
  env_get_task _ w := (Ok task, w);
  env_get_spec _ w := (Ok spec, w);
  env_transition_task _ _ w := (Ok tt, w);
  env_update_task id body w :=
    (Ok {| td_id := id; td_spec_id := "s1"; td_project_id := "p1"; td_title := "Add parser"; td_description := body;
           td_status := "ready"; td_dependencies := []; td_order := 1 |}, w);
  env_complete _ w := (Ok "refined", w);
  env_execute _ w := (Ok {| ter_notes := "ok"; ter_input_tokens := 1; ter_output_tokens := 1 |}, w);
  env_build _ _ w :=
    match lab_builds w with
    | true :: r => (Ok tt, MkLab (lab_cancelled w) (lab_paused w) (lab_full w) r)
    | false :: r => (Err "red", MkLab (lab_cancelled w) (lab_paused w) (lab_full w) r)
    | [] => (Ok tt, w)
    end |}.
#[local] Instance lab_sticky : StickyCancel Lab.
Proof. intros w w' Hs. unfold stopped. destruct Hs; cbn; try done. by destruct (lab_builds w) as [|[] r]. Qed.

(** A codec of the states these runs save: the [i]-th is a list of [i] nulls. *)
Definition states : list DevLoopState :=
  [ {| dls_initialized := true; dls_task_queue := ["t1"]; dls_completed_count := 0; dls_failed_count := 0; dls_loop_finished := false |};
    {| dls_initialized := true; dls_task_queue := []; dls_completed_count := 0; dls_failed_count := 0; dls_loop_finished := false |};
    {| dls_initialized := true; dls_task_queue := []; dls_completed_count := 1; dls_failed_count := 0; dls_loop_finished := false |};
    {| dls_initialized := true; dls_task_queue := []; dls_completed_count := 1; dls_failed_count := 0; dls_loop_finished := true |} ].
#[local] Instance state_eq_dec : EqDecision DevLoopState. Proof. solve_decision. Defined.
#[local] Instance state_serde : SerdeValue DevLoopState := {|
  to_value st := match list_find (fun x => x = st) states with Some (i, _) => Ok (JArray (replicate i JNull)) | None => Err "unknown" end;
  from_value j := match j with JArray l => ok_or "out of range" (states !! length l) | _ => Err "array expected" end |}.
#[local] Instance state_serde_ok : SerdeValueOk DevLoopState.
Proof.
  intros a j. unfold to_value, from_value. cbn -[list_find states]. destruct (list_find _ states) as [[i x]|] eqn:E; [|done].
  apply list_find_Some in E as (Hi & -> & _). intros [= <-]. rewrite length_replicate. by rewrite Hi.
Qed.
Definition tc : TickConfig := {|
  tc_automaton_id := "a1"; tc_config := JObject [("project_id", JString "p1"); ("model", JString "m")]; tc_workspace_root := None |}.
Definition start (w : Lab) : Tick Lab := MkTick w ∅ AutomatonStatus_Installing [].
Definition run (w : Lab) : RunEnd * Tick Lab := dev_loop tc true (fun _ => "bad") 5 (start w).
Definition green_world : Lab := MkLab false false false [true].

Lemma loop_finished_announced_once_witness :
  (run green_world).1 = RunEnd_Finished AutomatonStatus_Completed /\ finishes (tk_log (run green_world).2) = 1.
Proof.
  split; [vm_compute; reflexivity|].
  refine (loop_finished_announced_once tc true (fun _ => "bad") 5 (start green_world)
            (dev_on_install tc (fun _ => "bad") (start green_world)).2 AutomatonStatus_Completed (run green_world).2 eq_refl eq_refl _ _);
    vm_compute; reflexivity.
Defined.
(** A world that is never paused. *)
#[local] Instance calm_env : AutoEnv unit := {|
  env_cancelled w := (false, w); env_paused w := (false, w); env_pause_changed w := (PauseWait_Never, w);
  env_send _ w := (SendResult_Sent, w); env_list_tasks _ w := (Ok [task], w); env_get_project _ w := (Ok project, w);
  env_get_task _ w := (Ok task, w); env_get_spec _ w := (Ok spec, w); env_transition_task _ _ w := (Ok tt, w);
  env_update_task _ _ w := (Ok task, w); env_complete _ w := (Ok "", w);
  env_execute _ w := (Ok {| ter_notes := "ok"; ter_input_tokens := 1; ter_output_tokens := 1 |}, w);
  env_build _ _ w := (Ok tt, w) |}.
#[local] Instance calm_sticky : StickyCancel unit.
Proof. by intros w w' Hs. Qed.
Lemma dev_loop_terminates_witness :
  exists status s', forall fuel, 3 <= fuel ->
  dev_loop tc true (fun _ => "bad") fuel (MkTick tt ∅ AutomatonStatus_Installing []) = (RunEnd_Finished status, s').
Proof.
  apply (dev_loop_terminates tc true (fun _ => "bad") (MkTick tt ∅ AutomatonStatus_Installing []) 1).
  - intros []. reflexivity.
  - intros [] id ts [= <-]. reflexivity.
  - reflexivity.
Defined.

(** A stop request while the automaton is paused: the token is cancelled, and the
    run still waits for the pause switch. *)
Lemma paused_run_ignores_stop :
  (run (MkLab false true false [])).1 = RunEnd_Blocked
  /\ lab_cancelled (tk_world (run (MkLab false true false [])).2) = true.
Proof. vm_compute. split; reflexivity. Qed.
(** The retry after a red build asks the model to refine the description again:
    it is given the task as fetched, without the marker. *)
Definition completions (l : list AutoAct) : nat :=
  length (List.filter (fun a => match a with AutoAct_Complete _ => true | _ => false end) l).
Lemma retry_refines_again :
  completions (tk_log (run (MkLab false false false [false; true])).2) = 2
  /\ (run (MkLab false false false [false; true])).1 = RunEnd_Finished AutomatonStatus_Completed.
Proof. vm_compute. split; reflexivity. Qed.
(** When the channel is full at the end, the announcement is lost: the loop is
    recorded as finished before the event is sent. *)
Lemma full_channel_loses_loop_finished :
  List.filter is_loop_finished (tk_log (run (MkLab false false true [true])).2)
  = [AutoAct_Event (AutomatonEvent_LoopFinished "completed" 1 0) SendResult_Full]
  /\ (run (MkLab false false true [true])).1 = RunEnd_Finished AutomatonStatus_Failed.
Proof. vm_compute. split; reflexivity. Qed.
End DevLoopExample.
