(* ===== verification/AutomatonBridge.v ===== *)
(** The bridge from projects to automatons ([aura-engine/src/automaton]: [mod.rs],
    [dispatch.rs]): which dev loop a project has, and starting, pausing and stopping
    it by project or by automaton.

    The state is the bridge's table of handles, the runtime's table of instances,
    the statuses the automatons publish, the cancelled and paused ones, and the
    lifecycle events recorded on agents' logs.  A start is two steps, the check and
    the installation, with the preparation of a kernel between them. *)
From S2P Require Import Prelude Values Utf8 Text Automaton DevLoop.
From stdpp Require Import list relations.

(** * The event bus of an automaton ([aura-automaton])

    The event bus of an automaton ([aura-engine/src/automaton/event_channel.rs] and
    [subscribe_events] of [automaton/mod.rs]): every event is appended to a bounded
    replay history and then broadcast; a subscriber copies the history and then
    joins the broadcast.

    The forwarder and a subscriber are two tasks: the model interleaves their
    single operations.  The broadcast ring and the retention timer are left out: a
    receiver gets what is broadcast after it joined. *)
Definition EVENT_BROADCAST_CAPACITY : nat := 512.
Definition EVENT_HISTORY_CAPACITY : nat := EVENT_BROADCAST_CAPACITY.

(** The history after an event: the oldest entries make room. *)
Definition push_history (history : list AutomatonEvent) (e : AutomatonEvent) : list AutomatonEvent :=
  let kept := if EVENT_HISTORY_CAPACITY <=? length history
              then drop (length history + 1 - EVENT_HISTORY_CAPACITY) history else history in
  kept ++ [e].

(** Where the forwarder is with an event; where the subscriber is. *)
Inductive ForwarderAt := Forwarder_Idle | Forwarder_Recorded (e : AutomatonEvent) | Forwarder_Sent (e : AutomatonEvent).
Inductive SubscriberAt :=
  | Subscriber_Start
  | Subscriber_Copied (history : list AutomatonEvent)
  | Subscriber_Joined (history live : list AutomatonEvent)
  | Subscriber_Ready (history live : list AutomatonEvent) (already_done : bool).
Record EventChannel := {
  ec_history : list AutomatonEvent;
  ec_done : bool;
  ec_forwarder : ForwarderAt;
  ec_subscriber : SubscriberAt;
  (** Ghost: the events recorded and broadcast so far. *)
  ec_recorded : list AutomatonEvent;
  ec_sent : list AutomatonEvent;
}.
Definition channel_new : EventChannel := {|
  ec_history := []; ec_done := false; ec_forwarder := Forwarder_Idle; ec_subscriber := Subscriber_Start;
  ec_recorded := []; ec_sent := [] |}.
Definition receive (s : SubscriberAt) (e : AutomatonEvent) : SubscriberAt :=
  match s with
  | Subscriber_Joined h l => Subscriber_Joined h (l ++ [e])
  | Subscriber_Ready h l d => Subscriber_Ready h (l ++ [e]) d
  | s => s
  end.
Definition is_done_event (e : AutomatonEvent) : bool := match e with AutomatonEvent_Done => true | _ => false end.

(** One operation of the forwarder, with the event it receives when it is idle. *)
Definition forwarder_op (e : AutomatonEvent) (c : EventChannel) : EventChannel :=
  match ec_forwarder c with
  | Forwarder_Idle =>
      {| ec_history := push_history (ec_history c) e; ec_done := ec_done c; ec_forwarder := Forwarder_Recorded e;
         ec_subscriber := ec_subscriber c; ec_recorded := ec_recorded c ++ [e]; ec_sent := ec_sent c |}
  | Forwarder_Recorded e =>
      {| ec_history := ec_history c; ec_done := ec_done c; ec_forwarder := Forwarder_Sent e;
         ec_subscriber := receive (ec_subscriber c) e; ec_recorded := ec_recorded c; ec_sent := ec_sent c ++ [e] |}
  | Forwarder_Sent e =>
      {| ec_history := ec_history c; ec_done := ec_done c || is_done_event e; ec_forwarder := Forwarder_Idle;
         ec_subscriber := ec_subscriber c; ec_recorded := ec_recorded c; ec_sent := ec_sent c |}
  end.
(** One operation of [subscribe_events]. *)
Definition subscribe_op (c : EventChannel) : EventChannel :=
  {| ec_history := ec_history c; ec_done := ec_done c; ec_forwarder := ec_forwarder c;
     ec_subscriber :=
       match ec_subscriber c with
       | Subscriber_Start => Subscriber_Copied (ec_history c)
       | Subscriber_Copied h => Subscriber_Joined h []
       | Subscriber_Joined h l => Subscriber_Ready h l (ec_done c)
       | ready => ready
       end;
     ec_recorded := ec_recorded c; ec_sent := ec_sent c |}.
Inductive bus_step : EventChannel -> EventChannel -> Prop :=
  | bus_forward e c : bus_step c (forwarder_op e c)
  | bus_subscribe c : bus_step c (subscribe_op c).

(** * What a subscriber sees *)
Definition newest (n : nat) (l : list AutomatonEvent) : list AutomatonEvent := drop (length l - n) l.
#[local] Arguments newest : simpl never.
#[local] Arguments push_history : simpl never.
Lemma newest_snoc l e : push_history (newest EVENT_HISTORY_CAPACITY l) e = newest EVENT_HISTORY_CAPACITY (l ++ [e]).
Proof.
  unfold push_history, newest. rewrite length_drop, length_app. cbn [length].
  assert (0 < EVENT_HISTORY_CAPACITY) as Hc by (cbv; lia). set (n := EVENT_HISTORY_CAPACITY) in *. clearbody n.
  destruct (Nat.leb_spec n (length l - (length l - n))) as [Hle|Hgt].
  - rewrite drop_drop, drop_app_le by lia. do 2 f_equal. lia.
  - replace (length l - n) with 0 by lia. replace (length l + 1 - n) with 0 by lia. done.
Qed.
(** Copied: the newest of the first [n] events.  Joined: all from the [m]-th on. *)
Definition sees (c : EventChannel) (h live : list AutomatonEvent) (n m : nat) : Prop :=
  h = newest EVENT_HISTORY_CAPACITY (take n (ec_recorded c)) /\ live = drop m (ec_sent c)
  /\ n <= length (ec_recorded c) /\ m <= length (ec_sent c) /\ n <= S m.
Definition bus_inv (c : EventChannel) : Prop :=
  ec_history c = newest EVENT_HISTORY_CAPACITY (ec_recorded c)
  /\ ec_recorded c = ec_sent c ++ (match ec_forwarder c with Forwarder_Recorded e => [e] | _ => [] end)
  /\ (ec_done c = true -> AutomatonEvent_Done ∈ ec_sent c)
  /\ (forall e, ec_forwarder c = Forwarder_Sent e -> e ∈ ec_sent c)
  /\ match ec_subscriber c with
     | Subscriber_Start => True
     | Subscriber_Copied h => exists n, h = newest EVENT_HISTORY_CAPACITY (take n (ec_recorded c)) /\ n <= length (ec_recorded c)
         /\ n <= S (length (ec_sent c))
     | Subscriber_Joined h l => exists n m, sees c h l n m
     | Subscriber_Ready h l d => (exists n m, sees c h l n m) /\ (d = true -> AutomatonEvent_Done ∈ ec_sent c)
     end.

Lemma sees_ext c c' h l n m :
  sees c h l n m -> (exists add, ec_recorded c' = ec_recorded c ++ add) -> ec_sent c' = ec_sent c -> sees c' h l n m.
Proof.
  intros (-> & -> & Hn & Hm & Hnm) [add E] E'. unfold sees. rewrite E, E', take_app_le, length_app by done. split_and!; [done..|lia|lia|lia].
Qed.
Lemma sees_send c c' h l n m e :
  sees c h l n m -> ec_recorded c' = ec_recorded c -> ec_sent c' = ec_sent c ++ [e] -> sees c' h (l ++ [e]) n m.
Proof.
  intros (-> & -> & Hn & Hm & Hnm) E E'. unfold sees. rewrite E, E', drop_app_le, length_app by done. split_and!; [done..|lia|lia].
Qed.
Lemma inv_record c e : ec_forwarder c = Forwarder_Idle -> bus_inv c -> bus_inv (forwarder_op e c).
Proof.
  intros Ef (Hh & Hr & Hd & Hs & Hsub). unfold forwarder_op. rewrite Ef in *. rewrite app_nil_r in Hr. unfold bus_inv. cbn.
  split_and!; [by rewrite Hh, newest_snoc|by rewrite Hr|done|done|].
  destruct (ec_subscriber c) as [|h|h l|h l d]; [done| | |].
  - destruct Hsub as (n & -> & Hn & Hn'). exists n. rewrite take_app_le, length_app by done. split_and!; [done|lia|lia].
  - destruct Hsub as (n & m & Hse). exists n, m. eapply sees_ext; [exact Hse|by exists [e]|done].
  - destruct Hsub as [(n & m & Hse) Hdd]. split; [|done]. exists n, m. eapply sees_ext; [exact Hse|by exists [e]|done].
Qed.
Lemma inv_send c e e' : ec_forwarder c = Forwarder_Recorded e -> bus_inv c -> bus_inv (forwarder_op e' c).
Proof.
  intros Ef (Hh & Hr & Hd & Hs & Hsub). unfold forwarder_op. rewrite Ef in *. unfold bus_inv. cbn.
  split_and!; [done|by rewrite app_nil_r|intros Hdd; set_solver|intros ? [= <-]; set_solver|].
  destruct (ec_subscriber c) as [|h|h l|h l d]; cbn; [done| | |].
  - destruct Hsub as (n & -> & Hn & Hn'). exists n. rewrite length_app. split_and!; [done|done|lia].
  - destruct Hsub as (n & m & Hse). exists n, m. by eapply sees_send.
  - destruct Hsub as [(n & m & Hse) Hdd]. split; [|set_solver]. exists n, m. by eapply sees_send.
Qed.
Lemma inv_settle c e e' : ec_forwarder c = Forwarder_Sent e -> bus_inv c -> bus_inv (forwarder_op e' c).
Proof.
  intros Ef (Hh & Hr & Hd & Hs & Hsub). unfold forwarder_op. rewrite Ef in *. unfold bus_inv. cbn.
  split_and!; [done|done| |done|].
  - intros [Hdd|He]%orb_true_iff; [auto|]. destruct e; try done. by apply Hs.
  - destruct (ec_subscriber c); [done|done| |]; [destruct Hsub as (n & m & Hse)|destruct Hsub as [(n & m & Hse) Hdd]; split; [|done]];
      exists n, m; (eapply sees_ext; [exact Hse|exists []; by rewrite app_nil_r|done]).
Qed.
Lemma inv_subscribe c : bus_inv c -> bus_inv (subscribe_op c).
Proof.
  intros (Hh & Hr & Hd & Hs & Hsub). unfold bus_inv, subscribe_op. cbn. split_and!; [done..|].
  assert (length (ec_recorded c) <= S (length (ec_sent c))) as Hlen.
  { rewrite Hr, length_app. destruct (ec_forwarder c); cbn; lia. }
  destruct (ec_subscriber c) as [|h|h l|h l d].
  - exists (length (ec_recorded c)). by rewrite firstn_all.
  - destruct Hsub as (n & -> & Hn & Hn'). exists n, (length (ec_sent c)). unfold sees. cbn. by rewrite drop_all.
  - destruct Hsub as (n & m & Hse). split; [|done]. exists n, m. exact Hse.
  - done.
Qed.
Lemma bus_reachable_inv c : rtc bus_step channel_new c -> bus_inv c.
Proof.
  assert (bus_inv channel_new) as H0 by (unfold bus_inv; cbn; split_and!; done || set_solver).
  intros Hr. revert H0. induction Hr as [|c c' c'' Hs _ IH]; [done|]. intros Hc. apply IH.
  destruct Hs as [e c|c]; [|by apply inv_subscribe].
  destruct (ec_forwarder c) eqn:Ef; [by apply inv_record|by eapply inv_send|by eapply inv_settle].
Qed.

(** What a subscriber of an automaton's events gets: the newest 512 of the
    first [n] events, in order, and then every event broadcast from the [m]-th on,
    in order; at most one event comes twice ([n <= m + 1]), and it is told that the
    automaton is done only after [Done] was broadcast. *)
Theorem subscriber_sees_in_order c h live d :
  rtc bus_step channel_new c -> ec_subscriber c = Subscriber_Ready h live d ->
  (exists n m, h = newest EVENT_HISTORY_CAPACITY (take n (ec_recorded c)) /\ live = drop m (ec_sent c) /\ n <= S m)
  /\ ec_sent c `prefix_of` ec_recorded c /\ (d = true -> AutomatonEvent_Done ∈ ec_sent c).
Proof.
  intros (Hh & Hr & _ & _ & Hsub)%bus_reachable_inv Es. rewrite Es in Hsub. destruct Hsub as [(n & m & -> & -> & _ & _ & Hnm) Hd].
  split_and!; [by exists n, m|rewrite Hr; by apply prefix_app_r|done].
Qed.

Module EventBusExample.
Definition failed : AutomatonEvent := AutomatonEvent_TaskFailed "t1" "boom".
(** An event that is forwarded whole between the two operations of a subscription
    is in neither the history copy nor the live events. *)
Definition lost : EventChannel :=
  subscribe_op (subscribe_op (forwarder_op failed (forwarder_op failed (forwarder_op failed (subscribe_op channel_new))))).
Lemma lost_reachable : rtc bus_step channel_new lost.
Proof.
  unfold lost. do 2 (eapply rtc_r; [|apply bus_subscribe]). do 3 (eapply rtc_r; [|apply bus_forward]).
  eapply rtc_r; [apply rtc_refl|apply bus_subscribe].
Qed.
Lemma subscription_can_miss_an_event :
  rtc bus_step channel_new lost /\ ec_recorded lost = [failed] /\ ec_sent lost = [failed]
  /\ ec_subscriber lost = Subscriber_Ready [] [] false.
Proof. split; [apply lost_reachable|]. by split_and!. Qed.
Lemma subscriber_sees_in_order_witness :
  ec_subscriber lost = Subscriber_Ready [] [] false /\ ec_sent lost `prefix_of` ec_recorded lost.
Proof.
  split; [reflexivity|]. exact (proj1 (proj2 (subscriber_sees_in_order lost [] [] false lost_reachable eq_refl))).
Defined.
End EventBusExample.

Record ProjectHandle := { ph_automaton_id : string; ph_agent_id : string }.
#[export] Instance ProjectHandle_eq_dec : EqDecision ProjectHandle.
Proof. solve_decision. Defined.
Record AutomatonBridge := {
  ab_handles : gmap string ProjectHandle;
  (** The automatons in the runtime's table, each with its project. *)
  ab_instances : gmap string string;
  ab_status : gmap string AutomatonStatus;
  ab_cancelled : gset string;
  ab_paused : gset string;
  ab_events : list (string * string * string);
}.
Definition bridge_new : AutomatonBridge := {|
  ab_handles := ∅; ab_instances := ∅; ab_status := ∅; ab_cancelled := ∅; ab_paused := ∅; ab_events := [] |}.
#[export] Instance AutomatonBridge_eta : Settable AutomatonBridge := fun b =>
  Build_AutomatonBridge (ab_handles b) (ab_instances b) (ab_status b) (ab_cancelled b) (ab_paused b) (ab_events b).

Definition handle_finished (b : AutomatonBridge) (id : string) : bool :=
  match ab_status b !! id with Some st => is_finished st | None => false end.
Definition required_model (model : option string) : result string string :=
  ok_or "missing model — dev loop start request must include an explicit model identifier"
    (filter_opt (fun s => negb (bool_decide (s = ""))) (trim <$> model)).
(** The first step of [start_dev_loop_with_capabilities]: a project whose dev loop
    is alive is refused, a stale handle is dropped. *)
Definition start_check (project_id : string) (b : AutomatonBridge) : result string AutomatonBridge :=
  match ab_handles b !! project_id with
  | None => Ok b
  | Some tracked =>
      if negb (handle_finished b (ph_automaton_id tracked)) && bool_decide (is_Some (ab_instances b !! ph_automaton_id tracked))
      then Err ("A dev loop is already running for project " +++ project_id +++ " (automaton_id: " +++ ph_automaton_id tracked +++ ")")
      else Ok (b <| ab_handles := delete project_id (ab_handles b) |>)
  end.
(** The last step: the automaton is installed under a fresh id and its handle is
    recorded. *)
Definition start_install (project_id id agent : string) (b : AutomatonBridge) : AutomatonBridge :=
  b <| ab_instances := <[id := project_id]> (ab_instances b) |>
    <| ab_status := <[id := AutomatonStatus_Installing]> (ab_status b) |>
    <| ab_handles := <[project_id := {| ph_automaton_id := id; ph_agent_id := agent |}]> (ab_handles b) |>
    <| ab_events := ab_events b ++ [(agent, id, "start_dev_loop")] |>.
Definition start_dev_loop (project_id : string) (model : option string) (id agent : string) (b : AutomatonBridge)
  : result string AutomatonBridge :=
  _ ← required_model model;
  b ← start_check project_id b;
  Ok (start_install project_id id agent b).
Definition pause_dev_loop (project_id : string) (b : AutomatonBridge) : result string AutomatonBridge :=
  match ab_handles b !! project_id with
  | None => Err ("No running dev loop for project " +++ project_id)
  | Some tracked =>
      if handle_finished b (ph_automaton_id tracked) then Err "Dev loop has already finished"
      else Ok (b <| ab_paused := {[ph_automaton_id tracked]} ∪ ab_paused b |>
                 <| ab_events := ab_events b ++ [(ph_agent_id tracked, ph_automaton_id tracked, "pause_dev_loop")] |>)
  end.
(** A stop cancels the token and forgets the handle, also of a finished loop. *)
Definition stop_dev_loop (project_id : string) (b : AutomatonBridge) : result string unit * AutomatonBridge :=
  match ab_handles b !! project_id with
  | None => (Err ("No running dev loop for project " +++ project_id), b)
  | Some tracked =>
      let forgotten := b <| ab_handles := delete project_id (ab_handles b) |> in
      if handle_finished b (ph_automaton_id tracked) then (Err "Dev loop has already finished", forgotten)
      else (Ok tt, forgotten <| ab_cancelled := {[ph_automaton_id tracked]} ∪ ab_cancelled b |>
                             <| ab_events := ab_events b ++ [(ph_agent_id tracked, ph_automaton_id tracked, "stop_dev_loop")] |>)
  end.
Definition tracked_by_id (id : string) (b : AutomatonBridge) : option string :=
  fst <$> List.find (fun p => bool_decide (ph_automaton_id p.2 = id)) (map_to_list (ab_handles b)).
Definition pause_by_id (id : string) (b : AutomatonBridge) : result string AutomatonBridge :=
  match tracked_by_id id b with
  | None => Err ("Automaton " +++ id +++ " not found")
  | Some project_id =>
      if handle_finished b id then Err "Automaton has already finished" else pause_dev_loop project_id b
  end.
Definition stop_by_id (id : string) (b : AutomatonBridge) : result string unit * AutomatonBridge :=
  match tracked_by_id id b with
  | None =>
      (** [runtime.stop], for the automatons the bridge does not track. *)
      match ab_instances b !! id with
      | Some _ => (Ok tt, b <| ab_cancelled := {[id]} ∪ ab_cancelled b |>)
      | None => (Err (AutomatonError_display (AutomatonError_NotFound id)), b)
      end
  | Some project_id =>
      if handle_finished b id then (Err "Automaton has already finished", b <| ab_handles := delete project_id (ab_handles b) |>)
      else stop_dev_loop project_id b
  end.
(** What an automaton does to the shared state: it publishes a status, and leaves
    the table at the end. *)
Definition publish (id : string) (st : AutomatonStatus) (b : AutomatonBridge) : AutomatonBridge :=
  b <| ab_status := <[id := st]> (ab_status b) |>.
Definition leave (id : string) (b : AutomatonBridge) : AutomatonBridge :=
  b <| ab_instances := delete id (ab_instances b) |>.

(** * One dev loop per project *)
(** A dev loop that is alive: in the table, not finished, not asked to stop. *)
Definition alive (b : AutomatonBridge) (id project_id : string) : Prop :=
  ab_instances b !! id = Some project_id /\ handle_finished b id = false /\ id ∉ ab_cancelled b.
(** The calls, with starts taken whole; statuses only move towards the end. *)
Inductive bridge_step : AutomatonBridge -> AutomatonBridge -> Prop :=
  | bridge_start p model id agent b b' :
      id ∉ dom (ab_status b) -> start_dev_loop p model id agent b = Ok b' -> bridge_step b b'
  | bridge_pause p b b' : pause_dev_loop p b = Ok b' -> bridge_step b b'
  | bridge_stop p b : bridge_step b (stop_dev_loop p b).2
  | bridge_pause_id id b b' : pause_by_id id b = Ok b' -> bridge_step b b'
  | bridge_stop_id id b : bridge_step b (stop_by_id id b).2
  | bridge_publish id st b : handle_finished b id = false -> bridge_step b (publish id st b)
  | bridge_leave id b : bridge_step b (leave id b).
Definition tracked (b : AutomatonBridge) : Prop :=
  (forall id p, alive b id p -> exists agent, ab_handles b !! p = Some {| ph_automaton_id := id; ph_agent_id := agent |})
  /\ (forall p h, ab_handles b !! p = Some h -> is_Some (ab_status b !! ph_automaton_id h))
  /\ (forall id p, ab_instances b !! id = Some p -> is_Some (ab_status b !! id)).

(** A call that starts nothing keeps the bookkeeping, if the handles it drops are
    of loops that are no longer alive. *)
Lemma tracked_sub b b' :
  tracked b ->
  (forall id q, alive b' id q -> alive b id q /\ ab_handles b' !! q = ab_handles b !! q) ->
  ab_handles b' ⊆ ab_handles b -> ab_instances b' ⊆ ab_instances b -> dom (ab_status b) ⊆ dom (ab_status b') ->
  tracked b'.
Proof.
  intros (Ha & Hh & Hi) Hal Hsub Hins Hst.
  assert (forall id, is_Some (ab_status b !! id) -> is_Some (ab_status b' !! id)) as Hd.
  { intros id. rewrite <-!elem_of_dom. set_solver. }
  split_and!.
  - intros id q Hq. destruct (Hal _ _ Hq) as [Hq' ->]. by apply Ha.
  - intros q h Hq. apply Hd. eapply Hh. by eapply lookup_weaken.
  - intros id q Hq. apply Hd. eapply Hi. by eapply lookup_weaken.
Qed.
Lemma stop_tracked p b : tracked b -> tracked (stop_dev_loop p b).2.
Proof.
  intros Ht. pose proof Ht as (Ha & _ & _). unfold stop_dev_loop. destruct (ab_handles b !! p) as [h|] eqn:Eh; [|done].
  assert (forall id q, alive b id q -> id <> ph_automaton_id h -> q <> p) as Hne.
  { intros id q Hal Hid ->. destruct (Ha _ _ Hal) as [agent E]. rewrite Eh in E. by injection E as ->. }
  destruct (handle_finished b (ph_automaton_id h)) eqn:Ef; cbn [snd];
    (eapply tracked_sub; [exact Ht| |cbn; apply delete_subseteq|done|done]).
  - intros id q (Hq & Hf & Hc). assert (alive b id q) as Hal by by split_and!. split; [done|]. cbn.
    rewrite lookup_delete_ne; [done|]. apply not_eq_sym. apply (Hne id); [done|]. intros ->. unfold handle_finished in *. cbn in Hf. congruence.
  - intros id q (Hq & Hf & Hc). cbn in Hc. assert (alive b id q) as Hal by (split_and!; [done|done|set_solver]).
    split; [done|]. cbn. rewrite lookup_delete_ne; [done|]. apply not_eq_sym. apply (Hne id); [done|set_solver].
Qed.
Lemma pause_tracked p b b' : tracked b -> pause_dev_loop p b = Ok b' -> tracked b'.
Proof.
  intros Ht. unfold pause_dev_loop. destruct (ab_handles b !! p) as [h|]; [|done]. destruct (handle_finished _ _); [done|].
  intros [= <-]. eapply tracked_sub; [exact Ht|done|done|done|done].
Qed.
Lemma tracked_by_id_Some id b p :
  tracked_by_id id b = Some p -> exists h, ab_handles b !! p = Some h /\ ph_automaton_id h = id.
Proof.
  unfold tracked_by_id. destruct (List.find _ _) as [[q h]|] eqn:E; [|done]. intros [= ->].
  apply List.find_some in E as [Hin Hd]. apply bool_decide_eq_true in Hd. exists h.
  by apply list_elem_of_In, elem_of_map_to_list in Hin.
Qed.
Lemma stop_id_tracked id b : tracked b -> tracked (stop_by_id id b).2.
Proof.
  intros Ht. unfold stop_by_id. destruct (tracked_by_id id b) as [p|] eqn:Ep.
  - destruct (handle_finished b id) eqn:Ef; [|by apply stop_tracked].
    apply tracked_by_id_Some in Ep as (h & Eh & Hid). pose proof (stop_tracked p b Ht) as Hs.
    unfold stop_dev_loop in Hs. rewrite Eh, Hid, Ef in Hs. exact Hs.
  - destruct (ab_instances b !! id); cbn [snd]; [|done]. eapply tracked_sub; [exact Ht| |done|done|done].
    intros id' q (Hq & Hf & Hc). split; [|done]. cbn in Hc. split_and!; [done|done|set_solver].
Qed.
Lemma publish_tracked id st b : handle_finished b id = false -> tracked b -> tracked (publish id st b).
Proof.
  intros Hnf Ht. eapply tracked_sub; [exact Ht| |done|done|cbn; rewrite dom_insert; set_solver].
  intros id' q (Hq & Hf & Hc). split; [|done]. split_and!; [done| |done].
  destruct (decide (id' = id)) as [->|Hne]; [done|]. unfold handle_finished in *. cbn in Hf. by rewrite lookup_insert_ne in Hf.
Qed.
Lemma leave_tracked id b : tracked b -> tracked (leave id b).
Proof.
  intros Ht. eapply tracked_sub; [exact Ht| |done|cbn; apply delete_subseteq|done].
  intros id' q (Hq & Hf & Hc). split; [|done]. cbn in Hq. apply lookup_delete_Some in Hq as [_ Hq]. by split_and!.
Qed.
(** A project that passes the check has no dev loop alive. *)
Lemma check_tracked p b b' : tracked b -> start_check p b = Ok b' ->
  tracked b' /\ (forall id, ~ alive b' id p) /\ ab_status b' = ab_status b.
Proof.
  intros Ht. pose proof Ht as (Ha & _ & _). unfold start_check. destruct (ab_handles b !! p) as [h|] eqn:Eh.
  - destruct (negb _ && _) eqn:Eg; [done|]. intros [= <-].
    assert (forall id, ~ alive b id p) as Hno.
    { intros id Hal. destruct (Ha _ _ Hal) as [agent E]. rewrite Eh in E. injection E as ->. destruct Hal as (Hi & Hf & _).
      cbn in Eg. rewrite Hf, bool_decide_eq_true_2 in Eg by by rewrite Hi. done. }
    split_and!; [|done|done]. eapply tracked_sub; [exact Ht| |cbn; apply delete_subseteq|done|done].
    intros id q Hal. split; [done|]. cbn. rewrite lookup_delete_ne; [done|]. intros <-. by apply (Hno id).
  - intros [= <-]. split_and!; [done| |done]. intros id Hal. destruct (Ha _ _ Hal) as [agent E]. congruence.
Qed.
Lemma start_tracked p model id agent b b' :
  id ∉ dom (ab_status b) -> tracked b -> start_dev_loop p model id agent b = Ok b' -> tracked b'.
Proof.
  intros Hfresh Ht. unfold start_dev_loop. intros (m & _ & (b1 & Hck & [= <-])%result_bind_Ok)%result_bind_Ok.
  destruct (check_tracked _ _ _ Ht Hck) as ((Ha & Hh & Hi) & Hno & Est). split_and!.
  - intros id' q (Hq & Hf & Hc). cbn in Hq, Hc. unfold start_install. cbn.
    apply lookup_insert_Some in Hq as [[<- <-]|[Hne Hq]]; [exists agent; by rewrite lookup_insert_eq|].
    assert (alive b1 id' q) as Hal.
    { split_and!; [done| |done]. unfold handle_finished in *. cbn in Hf. by rewrite lookup_insert_ne in Hf. }
    destruct (decide (q = p)) as [->|Hqp]; [by apply Hno in Hal|]. rewrite lookup_insert_ne by done. by apply Ha.
  - intros q h Hq. unfold start_install in *. cbn in *. apply lookup_insert_is_Some.
    apply lookup_insert_Some in Hq as [[_ <-]|[_ Hq]]; [by left|].
    destruct (decide (id = ph_automaton_id h)); [by left|right; split; [done|by eapply Hh]].
  - intros id' q Hq. unfold start_install in *. cbn in *. apply lookup_insert_is_Some.
    apply lookup_insert_Some in Hq as [[-> _]|[Hne Hq]]; [by left|right; split; [done|by eapply Hi]].
Qed.

(** C12: under calls that are not interleaved within a start, a project has at most
    one dev loop that is alive, and the bridge can reach it: its handle is the one
    recorded for the project. *)
Theorem one_dev_loop_per_project b id id' p :
  rtc bridge_step bridge_new b -> alive b id p -> alive b id' p ->
  id = id' /\ exists agent, ab_handles b !! p = Some {| ph_automaton_id := id; ph_agent_id := agent |}.
Proof.
  intros Hr. assert (tracked b) as (Ha & _ & _).
  { assert (tracked bridge_new) as H0.
    { split_and!; [intros ?? (Hq & _)|intros ?? Hq|intros ?? Hq]; cbn in Hq; by rewrite lookup_empty in Hq. }
    revert H0. induction Hr as [|b1 b2 b3 Hs _ IH]; [done|]. intros Ht. apply IH. destruct Hs.
    - by eapply start_tracked.
    - by eapply pause_tracked.
    - by apply stop_tracked.
    - unfold pause_by_id in *. destruct (tracked_by_id id0 b); [|done]. destruct (handle_finished b id0); [done|].
      by eapply pause_tracked.
    - by apply stop_id_tracked.
    - by apply publish_tracked.
    - by apply leave_tracked. }
  intros H1 H2. destruct (Ha _ _ H1) as [agent E], (Ha _ _ H2) as [agent' E']. rewrite E in E'. injection E' as -> ->.
  split; [done|by exists agent'].
Qed.

Module BridgeExample.
Definition running : AutomatonBridge := start_install "p1" "a1" "g1" bridge_new.
Lemma running_reachable : rtc bridge_step bridge_new running.
Proof. apply rtc_once. apply (bridge_start "p1" (Some "m") "a1" "g1"); [set_solver|reflexivity]. Qed.
Lemma running_alive : alive running "a1" "p1".
Proof. split_and!; [reflexivity|reflexivity|set_solver]. Qed.
Lemma one_dev_loop_per_project_witness :
  start_dev_loop "p1" (Some "m") "a1" "g1" bridge_new = Ok running
  /\ exists agent, ab_handles running !! "p1" = Some {| ph_automaton_id := "a1"; ph_agent_id := agent |}.
Proof.
  split; [reflexivity|].
  exact (proj2 (one_dev_loop_per_project running "a1" "a1" "p1" running_reachable running_alive running_alive)).
Defined.
(** Two starts of a project that both pass the check before either is installed:
    two dev loops are alive, and the handle of the first is lost. *)
Lemma concurrent_starts_run_twice :
  exists b1 b2, start_check "p1" bridge_new = Ok b1 /\ start_check "p1" b1 = Ok b2
    /\ let b := start_install "p1" "a2" "g1" (start_install "p1" "a1" "g1" b2) in
       alive b "a1" "p1" /\ alive b "a2" "p1" /\ ab_handles b !! "p1" = Some {| ph_automaton_id := "a2"; ph_agent_id := "g1" |}.
Proof.
  exists bridge_new, bridge_new. split; [reflexivity|]. split; [reflexivity|]. cbv zeta.
  split; [|split]; [split_and!; [reflexivity|reflexivity|cbn; set_solver]..|reflexivity].
Qed.
End BridgeExample.
