(* ===== verification/ChatSpec.v ===== *)
(** The chat and specification automatons ([aura-automaton/src/builtins/chat.rs],
    [spec_gen.rs]): one tick each.  Their own calls extend [AutoEnv]. *)
From S2P Require Import Prelude Values Utf8 Text CoreTypes Context ModelRequest FileSystem Automaton DevLoop.
From stdpp Require Import list.

Record MessageDescriptor := { msd_id : string; msd_role : string; msd_content : string; msd_created_at : string }.
Record RawSpec := { rsp_title : string; rsp_markdown_contents : string }.
Record SaveMessageParams := {
  smp_project_id : string; smp_instance_id : string; smp_session_id : string; smp_role : string; smp_content : string;
}.
(** The result of a chat loop. *)
Record ChatResult := { chr_total_text : string; chr_total_input_tokens : Z; chr_total_output_tokens : Z }.
Record ModelAnswer := { man_text : string; man_input_tokens : Z; man_output_tokens : Z }.

Class PageEnv (W : Type) := {
  env_list_messages : string -> string -> W -> result string (list MessageDescriptor) * W;
  env_get_active_session : string -> W -> result string (option string) * W;
  env_save_message : SaveMessageParams -> W -> result string unit * W;
  (** [AgentRunner::execute_chat] with the system prompt and the messages. *)
  env_chat : ProjectDescriptor -> string -> list Message -> W -> result AgentError ChatResult * W;
  env_answer : AuxiliaryModelCall -> W -> result AgentError ModelAnswer * W;
  env_list_specs : string -> W -> result string (list SpecDescriptor) * W;
  env_delete_spec : string -> W -> result string unit * W;
  env_create_spec : string -> string -> string -> Z -> W -> result string SpecDescriptor * W;
  (** [canonicalize] and reading a file. *)
  env_canonicalize : string -> W -> result string string * W;
  env_read_file : string -> W -> result string string * W;
  (** [serde_json::from_str] of the specifications. *)
  parse_specs : string -> result string (list RawSpec);
}.

(** [extract_fenced_json]. *)
Definition fence : string := "```".
Definition extract_fenced_json (text : string) : option string :=
  '(_, after_fence) ← str_split_once fence text;
  '(_, rest) ← str_split_once nl after_fence;
  '(body, _) ← str_split_once fence rest;
  Some (trim body).
Definition SPEC_GEN_MAX_TOKENS : Z := 32768.

(** What these automatons do beyond events, with the answers of the model and of the
    listing of specifications. *)
Inductive PageAct :=
  | PageAct_Answer (answer : result AgentError ModelAnswer)
  | PageAct_List (project_id : string) (listed : result string (list SpecDescriptor))
  | PageAct_Delete (spec_id : string)
  | PageAct_Create (project_id title content : string) (order : Z)
  | PageAct_Save (params : SaveMessageParams).
Record Page (W : Type) := MkPage { pg_tick : Tick W; pg_log : list PageAct }.
Arguments MkPage {W}. Arguments pg_tick {W}. Arguments pg_log {W}.

Section Ticks.
Context {W : Type} `{AutoEnv W} `{PageEnv W} (tc : TickConfig).
Context (SPEC_GENERATION_SYSTEM_PROMPT : string).
Abbreviation P := (stm (Page W) AutomatonError).

Definition on_tick {A} (m : stm (Tick W) AutomatonError A) : P A := fun s =>
  let '(r, t) := m (pg_tick s) in (r, MkPage t (pg_log s)).
(** A call of this environment, with what it adds to the log. *)
Definition page_call {A} (f : W -> A * W) (act : A -> list PageAct) : P A := fun s =>
  let t := pg_tick s in
  let '(a, w) := f (tk_world t) in
  (Ok a, MkPage (MkTick w (tk_state t) (tk_status t) (tk_log t)) (pg_log s ++ act a)).
Definition page_emit (e : AutomatonEvent) : P unit := on_tick (emit e).
Definition progress (message : string) : P unit := page_emit (AutomatonEvent_Progress None message).
Definition page_project (project_id : string) : P ProjectDescriptor := on_tick (get_project None project_id).
Definition required_str (k what : string) : result AutomatonError string :=
  ok_or (AutomatonError_InvalidConfig what) (json_get_str k (tc_config tc)).

(** * Specifications *)
Definition read_requirements (path : string) : P string :=
  root ← lift (ok_or (AutomatonError_InvalidConfig "no workspace_root set") (tc_workspace_root tc));
  c ← page_call (env_canonicalize (path_join root path)) (fun _ => []);
  canonical ← lift (map_err (fun e => AutomatonError_InvalidConfig
    ("failed to resolve requirements path " +++ path +++ ": " +++ e)) c);
  b ← page_call (env_canonicalize root) (fun _ => []);
  base ← lift (map_err (fun e => AutomatonError_InvalidConfig ("failed to canonicalize workspace root: " +++ e)) b);
  if negb (path_starts_with canonical base)
  then fails (AutomatonError_InvalidConfig ("requirements_path escapes workspace root: " +++ path))
  else
    r ← page_call (env_read_file canonical) (fun _ => []);
    lift (map_err (fun e => AutomatonError_InvalidConfig ("failed to read requirements file " +++ path +++ ": " +++ e)) r).
Definition load_requirements (project_id : string) : P string :=
  _ ← progress "Loading project...";
  _ ← page_project project_id;
  _ ← progress "Reading requirements document...";
  let path := or_empty (json_get_str "requirements_path" (tc_config tc)) in
  if bool_decide (path = "") then fails (AutomatonError_InvalidConfig "no requirements_path configured")
  else read_requirements path.
Definition internal {A} (text : string) : result AutomatonError A :=
  Err (AutomatonError_AgentExecution None (AgentError_Internal text)).
Definition parse_spec_response (text : string) : result AutomatonError (list RawSpec) :=
  let trimmed := trim text in
  match parse_specs (W := W) (default trimmed (extract_fenced_json trimmed)) with
  | Err e => internal ("failed to parse spec JSON: " +++ e)
  | Ok [] => internal "LLM returned empty spec array"
  | Ok raw => Ok raw
  end.
Definition generate_specs (requirements : string) : P (list RawSpec) :=
  _ ← progress "Generating specifications...";
  model ← lift (ok_or (AutomatonError_InvalidConfig
    "missing model — spec generation requires an explicit model identifier in the start request")
    (filter_opt (fun s => negb (bool_decide (s = ""))) (trim <$> json_get_str "model" (tc_config tc))));
  r ← page_call (env_answer {| amc_model := model; amc_system_prompt := SPEC_GENERATION_SYSTEM_PROMPT; amc_user_body := requirements;
                               amc_max_tokens := SPEC_GEN_MAX_TOKENS; amc_task_scope := None |})
        (fun r => [PageAct_Answer r]);
  response ← lift (agent_execution None r);
  _ ← page_emit (AutomatonEvent_TokenUsage None (man_input_tokens response) (man_output_tokens response));
  _ ← progress "Parsing AI response...";
  lift (parse_spec_response (man_text response)).
Fixpoint delete_specs (specs : list SpecDescriptor) : P unit :=
  match specs with
  | [] => mret tt
  | s :: r => _ ← page_call (env_delete_spec (sd_id s)) (fun _ => [PageAct_Delete (sd_id s)]); delete_specs r
  end.
Fixpoint create_specs (project_id : string) (idx : Z) (specs : list RawSpec) : P unit :=
  match specs with
  | [] => mret tt
  | spec :: rest =>
      r ← page_call (env_create_spec project_id (rsp_title spec) (rsp_markdown_contents spec) idx)
            (fun _ => [PageAct_Create project_id (rsp_title spec) (rsp_markdown_contents spec) idx]);
      saved ← lift (map_err (fun e => AutomatonError_DomainApi None ("save spec: " +++ e)) r);
      _ ← page_emit (AutomatonEvent_SpecSaved (sd_id saved) (sd_title saved));
      create_specs project_id (idx + 1) rest
  end.
(** [unwrap_or_default]. *)
Definition existing (listed : result string (list SpecDescriptor)) : list SpecDescriptor :=
  match listed with Ok l => l | Err _ => [] end.
Definition save_specs (project_id : string) (specs : list RawSpec) : P unit :=
  _ ← progress ("Saving " +++ fmt_Z (Z.of_nat (length specs)) +++ " specs...");
  listed ← page_call (env_list_specs project_id) (fun r => [PageAct_List project_id r]);
  _ ← delete_specs (existing listed);
  create_specs project_id 0 specs.
Definition spec_gen_tick : P TickOutcome :=
  project_id ← lift (required_str "project_id" "missing project_id");
  requirements ← load_requirements project_id;
  specs ← generate_specs requirements;
  _ ← save_specs project_id specs;
  _ ← progress (fmt_Z (Z.of_nat (length specs)) +++ " specs generated and saved");
  mret TickOutcome_Done.

(** * Chat *)
Definition convert_descriptors_to_messages (l : list MessageDescriptor) : list Message :=
  omap (fun d => if bool_decide (msd_role d = "user") then Some (Message_user (msd_content d))
                 else if bool_decide (msd_role d = "assistant") then Some (Message_assistant (msd_content d)) else None) l.
Definition load_messages (project_id instance_id : string) : P (list MessageDescriptor) :=
  _ ← progress "Loading conversation...";
  r ← page_call (env_list_messages project_id instance_id) (fun _ => []);
  stored ← lift (map_err (fun e => AutomatonError_DomainApi None ("list_messages: " +++ e)) r);
  match stored : list MessageDescriptor with
  | [] => _ ← page_emit (AutomatonEvent_Error (tc_automaton_id tc) "No messages to process");
          fails (AutomatonError_DomainApi None "No messages to process")
  | _ => mret stored
  end.
Definition save_assistant_reply (project_id instance_id : string) (result : ChatResult) : P unit :=
  if bool_decide (chr_total_text result = "") then mret tt
  else
    session ← page_call (env_get_active_session instance_id) (fun _ => []);
    let session_id := match session with Ok (Some id) => id | _ => "" end in
    let params := {| smp_project_id := project_id; smp_instance_id := instance_id; smp_session_id := session_id;
                     smp_role := "assistant"; smp_content := chr_total_text result |} in
    _ ← page_call (env_save_message params) (fun _ => [PageAct_Save params]);
    page_emit (AutomatonEvent_MessageSaved "").
Definition chat_tick : P TickOutcome :=
  project_id ← lift (required_str "project_id" "missing project_id");
  let instance_id := default "default" (json_get_str "agent_instance_id" (tc_config tc)) in
  let custom := or_empty (json_get_str "system_prompt" (tc_config tc)) in
  stored ← load_messages project_id instance_id;
  _ ← progress "Building context...";
  project ← page_project project_id;
  _ ← progress "Waiting for response...";
  r ← page_call (env_chat project custom (convert_descriptors_to_messages stored)) (fun _ => []);
  result ← lift (agent_execution None r);
  _ ← save_assistant_reply project_id instance_id result;
  _ ← page_emit (AutomatonEvent_TokenUsage None (chr_total_input_tokens result) (chr_total_output_tokens result));
  mret TickOutcome_Done.
End Ticks.

(** * What a specification run changes *)
Section SpecGenProps.
Context {W : Type} `{AutoEnv W} `{PageEnv W} (tc : TickConfig) (prompt : string).
Abbreviation P := (stm (Page W) AutomatonError).
Definition keeps {A} (m : P A) : Prop := forall s r s', m s = (r, s') -> pg_log s' = pg_log s.

Lemma page_run {A B} (m : P A) (f : A -> P B) s r s' :
  (m ≫= f) s = (r, s') ->
  (exists e, m s = (Err e, s') /\ r = Err e) \/ exists a s1, m s = (Ok a, s1) /\ f a s1 = (r, s').
Proof. unfold mbind, stm_bind. destruct (m s) as [[a|e] s1]; [eauto|]. intros [= <- <-]. eauto. Qed.
Lemma keeps_bind {A B} (m : P A) (f : A -> P B) : keeps m -> (forall a, keeps (f a)) -> keeps (m ≫= f).
Proof.
  intros Hm Hf s r s' [(e & He & _)|(a & s1 & Ha & Hs)]%page_run; [by eapply Hm|]. rewrite (Hf _ _ _ _ Hs). by eapply Hm.
Qed.
Lemma keeps_lift {A} r : keeps (lift r : P A).
Proof. by intros s r' s' [= <- <-]. Qed.
Lemma keeps_fails {A} e : keeps (fails e : P A).
Proof. by intros s r' s' [= <- <-]. Qed.
Lemma keeps_on_tick {A} (m : stm (Tick W) AutomatonError A) : keeps (on_tick m : P A).
Proof. intros s r s'. unfold on_tick. destruct (m (pg_tick s)) as [x t]. by intros [= <- <-]. Qed.
Lemma page_call_log {A} (f : W -> A * W) act s r s' :
  page_call f act s = (r, s') -> exists a, r = Ok a /\ pg_log s' = pg_log s ++ act a.
Proof. unfold page_call. destruct (f _) as [a w]. intros [= <- <-]. by exists a. Qed.
Lemma keeps_call {A} (f : W -> A * W) : keeps (page_call f (fun _ => []) : P A).
Proof. intros s r s' (a & _ & E)%page_call_log. by rewrite app_nil_r in E. Qed.
Hint Resolve keeps_lift keeps_fails keeps_on_tick keeps_call : core.
Lemma keeps_load project_id : keeps (load_requirements tc project_id : P string).
Proof.
  unfold load_requirements, progress, page_emit, page_project. repeat (apply keeps_bind; [auto|intros]).
  destruct (bool_decide _); [auto|]. unfold read_requirements. repeat (apply keeps_bind; [auto|intros]).
  destruct (negb _); [auto|]. by apply keeps_bind.
Qed.
(** Asking the model logs its answer and nothing else, and what is returned was read
    from that answer. *)
Lemma generate_ok requirements s r s' :
  generate_specs tc prompt requirements s = (r, s') -> pg_log s = [] ->
  (exists e, r = Err e /\ (pg_log s' = [] \/ exists a, pg_log s' = [PageAct_Answer a]))
  \/ exists specs answer, r = Ok specs /\ pg_log s' = [PageAct_Answer (Ok answer)]
       /\ specs <> [] /\ parse_spec_response (W := W) (man_text answer) = Ok specs.
Proof.
  unfold generate_specs, progress, page_emit. intros Hs L0.
  apply page_run in Hs as [(e & He & ->)|(u1 & s1 & He & Hs)]; apply keeps_on_tick in He; [left; rewrite He, L0; eauto|].
  apply page_run in Hs as [(e & Hl & ->)|(model & s2 & Hl & Hs)]; apply keeps_lift in Hl; [left; rewrite Hl, He, L0; eauto|].
  apply page_run in Hs as [(e & Ha & ->)|(a & s3 & Ha & Hs)]; apply page_call_log in Ha as (a' & Ea & L3); [done|].
  injection Ea as ->. rewrite Hl, He, L0 in L3. cbn in L3.
  apply page_run in Hs as [(e & Hr & ->)|(response & s4 & Hr & Hs)].
  { apply keeps_lift in Hr. left. rewrite Hr, L3. eauto. }
  assert (a' = Ok response) as ->.
  { unfold lift, agent_execution in Hr. destruct a' as [x|x]; cbn in Hr; congruence. }
  apply keeps_lift in Hr.
  apply page_run in Hs as [(e & Hu & ->)|(u5 & s5 & Hu & Hs)]; apply keeps_on_tick in Hu; [left; rewrite Hu, Hr, L3; eauto|].
  apply page_run in Hs as [(e & Hp & ->)|(u6 & s6 & Hp & Hs)]; apply keeps_on_tick in Hp; [left; rewrite Hp, Hu, Hr, L3; eauto|].
  assert (pg_log s' = [PageAct_Answer (Ok response)]) as L' by (apply keeps_lift in Hs; congruence).
  injection Hs as Hs _. destruct r as [specs|e]; [right|left; eauto]. exists specs, response. split_and!; [done..| |done].
  revert Hs. unfold parse_spec_response. destruct (parse_specs _) as [[|x l]|]; [done| |done]. by intros [= <-].
Qed.
Lemma delete_specs_log l s r s' :
  delete_specs l s = (r, s') -> pg_log s' = pg_log s ++ (PageAct_Delete <$> (sd_id <$> l)) /\ exists u, r = Ok u.
Proof.
  revert s. induction l as [|x l IH]; intros s; cbn [delete_specs].
  - intros [= <- <-]. split; [by rewrite app_nil_r|by exists tt].
  - intros [(e & He & _)|(a & s1 & Ha & Hs)]%page_run; [unfold page_call in He; by destruct (env_delete_spec _ _)|].
    apply page_call_log in Ha as (_ & _ & Ha). apply IH in Hs as [L ?]. split; [|done]. by rewrite L, Ha, <-app_assoc.
Qed.
Fixpoint creations (project_id : string) (idx : Z) (specs : list RawSpec) : list PageAct :=
  match specs with
  | [] => []
  | spec :: r => PageAct_Create project_id (rsp_title spec) (rsp_markdown_contents spec) idx :: creations project_id (idx + 1) r
  end.
Lemma create_specs_log project_id idx specs s r s' :
  create_specs project_id idx specs s = (r, s') ->
  exists k, pg_log s' = pg_log s ++ take k (creations project_id idx specs) /\ (forall u, r = Ok u -> k = length specs).
Proof.
  revert idx s. induction specs as [|x l IH]; intros idx s; cbn [create_specs creations].
  - intros [= <- <-]. exists 0. by rewrite app_nil_r.
  - intros [(e & He & _)|(a & s1 & Ha & Hs)]%page_run; [unfold page_call in He; by destruct (env_create_spec _ _ _ _ _)|].
    apply page_call_log in Ha as (_ & _ & Ha). apply page_run in Hs as [(e & He & ->)|(saved & s2 & He & Hs)]; apply keeps_lift in He.
    { exists 1. split; [by rewrite He, Ha|done]. }
    apply page_run in Hs as [(e & Hem & ->)|(u & s3 & Hem & Hs)]; apply keeps_on_tick in Hem.
    { exists 1. split; [by rewrite Hem, He, Ha|done]. }
    apply IH in Hs as (k & L & Hk). exists (S k). split; [by rewrite L, Hem, He, Ha, <-app_assoc|].
    intros u' Hu. cbn. by rewrite (Hk _ Hu).
Qed.

Lemma save_specs_log project_id specs s r s' l0 :
  save_specs project_id specs s = (r, s') -> pg_log s = l0 ->
  (exists e, r = Err e /\ pg_log s' = l0)
  \/ exists listed k,
       pg_log s' = l0 ++ PageAct_List project_id listed
                     :: (PageAct_Delete <$> (sd_id <$> existing listed)) ++ take k (creations project_id 0 specs)
       /\ (forall u, r = Ok u -> k = length specs).
Proof.
  unfold save_specs, progress, page_emit. intros [(e & Hp & ->)|(u & s5 & Hp & E)]%page_run L0; apply keeps_on_tick in Hp.
  { left. exists e. split; [done|congruence]. }
  apply page_run in E as [(e & Hc & ->)|(listed & s6 & Hc & E)]; apply page_call_log in Hc as (x & Ex & Hc); [done|].
  injection Ex as ->. right. exists x.
  apply page_run in E as [(e & Hd & ->)|(u' & s7 & Hd & E)]; apply delete_specs_log in Hd as [Hd [y Hy]]; [done|].
  apply create_specs_log in E as (k & L & Hk). exists k. split; [|done]. by rewrite L, Hd, Hc, Hp, L0, <-!app_assoc.
Qed.

(** Changes the stored specifications. *)
Definition touches (a : PageAct) : bool := match a with PageAct_Answer _ | PageAct_List _ _ => false | _ => true end.

End SpecGenProps.

Module ChatSpecExample.
(** A bare JSON answer whose texts hold code fences: the text between the fences is
    taken for the answer. *)
Definition bare_answer : string :=
  "[{'title':'A','markdown_contents':'```a'}," +++ nl +++ " {'title':'B','markdown_contents':'b```'}]".
Lemma fences_inside_json :
  extract_fenced_json bare_answer = Some "{'title':'B','markdown_contents':'b".
Proof. vm_compute. reflexivity. Qed.

(** A project with one old specification. *)
Definition old_spec : SpecDescriptor := {|
  sd_id := "s0"; sd_project_id := "p1"; sd_title := "old"; sd_content := ""; sd_order := 0; sd_parent_id := None; sd_content_hash := None |}.
Definition demo : ProjectDescriptor := {|
  pd_id := "p1"; pd_name := "demo"; pd_path := "/w"; pd_description := None; pd_tech_stack := None;
  pd_build_command := None; pd_test_command := None |}.
#[local] Instance desk_env : AutoEnv unit := {|
  env_cancelled w := (false, w); env_paused w := (false, w); env_pause_changed w := (PauseWait_Never, w);
  env_send _ w := (SendResult_Sent, w); env_list_tasks _ w := (Ok [], w); env_get_project _ w := (Ok demo, w);
  env_get_task _ w := (Err "none", w); env_get_spec _ w := (Ok old_spec, w); env_transition_task _ _ w := (Ok tt, w);
  env_update_task _ _ w := (Err "none", w); env_complete _ w := (Ok "", w);
  env_execute _ w := (Err (AgentError_Internal "none"), w); env_build _ _ w := (Ok tt, w) |}.
#[local] Instance desk_page : PageEnv unit := {|
  env_list_messages _ _ w := (Ok [], w); env_get_active_session _ w := (Ok None, w); env_save_message _ w := (Ok tt, w);
  env_chat _ _ _ w := (Err (AgentError_Internal "none"), w);
  env_answer _ w := (Ok {| man_text := "[..]"; man_input_tokens := 1; man_output_tokens := 1 |}, w);
  env_list_specs _ w := (Ok [old_spec], w); env_delete_spec _ w := (Ok tt, w);
  env_create_spec _ _ _ n w := (if (n =? 0)%Z then Ok old_spec else Err "storage full", w);
  env_canonicalize p w := (Ok p, w); env_read_file _ w := (Ok "requirements", w);
  parse_specs _ := Ok [ {| rsp_title := "A"; rsp_markdown_contents := "a" |}; {| rsp_title := "B"; rsp_markdown_contents := "b" |} ] |}.
Definition desk : TickConfig := {|
  tc_automaton_id := "a1"; tc_workspace_root := Some "/w";
  tc_config := JObject [("project_id", JString "p1"); ("model", JString "m"); ("requirements_path", JString "r.md")] |}.
Definition blank : Page unit := MkPage (MkTick tt ∅ AutomatonStatus_Running []) [].
#[local] Abbreviation generated := (spec_gen_tick desk "prompt" blank : result AutomatonError TickOutcome * Page unit).
(** The old specification is deleted, the first new one is saved, the second is
    not: the run fails with the project's specifications half replaced. *)
Lemma failed_save_loses_specs :
  List.filter touches (pg_log generated.2) = [PageAct_Delete "s0"; PageAct_Create "p1" "A" "a" 0; PageAct_Create "p1" "B" "b" 1]
  /\ generated.1 = Err (AutomatonError_DomainApi None "save spec: storage full").
Proof. vm_compute. split; reflexivity. Qed.
End ChatSpecExample.
